(* ===== verification/_CoqProject ===== *)
-Q . S2P
Prelude.v
AdmissionTypes.v
AdmissionPolicy.v
AdmissionInv.v
AdmissionTick.v
AdmissionDispatch.v
AdmissionOps.v
AdmissionCalm.v
AdmissionProps.v
AdmissionRecovery.v
AdmissionClient.v
Watermark.v
WatermarkFacts.v
WatermarkPlan.v
Conversation.v
WatermarkProps.v
ConversationProps.v
Workflow.v
WorkflowProps.v
LineIo.v
LineIoFacts.v
LineIoProps.v
EnvironmentTypes.v
EnvironmentRegistry.v
EnvironmentClaims.v
EnvironmentStore.v
EnvironmentRetention.v
EnvironmentFinalize.v
EnvironmentListing.v
EnvironmentProps.v
BoardText.v
BoardTextFacts.v
BoardSchema.v
BoardDescription.v
BoardTask.v
BoardArtifacts.v
BoardClaims.v
BoardRuns.v
BoardTransitions.v
BoardPlans.v
BoardChanges.v
BoardDiscussions.v
BoardView.v
BoardScrub.v
BoardFoldBack.v
BoardUseCases.v
BoardFacts.v
BoardCycles.v
BoardRuleFacts.v
BoardInvariant.v
BoardSteps.v
BoardHistory.v
BoardCommit.v
BoardEntrySafety.v
BoardFoldBackFacts.v
BoardRuleSafety.v
BoardUseSafety.v
BoardProps.v
SwarmValue.v
SwarmPolicy.v
SwarmDependencies.v
SwarmStore.v
SwarmOperation.v
SwarmMembers.v
SwarmTasks.v
SwarmControl.v
SwarmInv.v
SwarmSteps.v
SwarmSafeMembers.v
SwarmSafeTasks.v
SwarmSafeControl.v
SwarmCalls.v
SwarmProps.v
NetworkPolicy.v
NetworkProps.v
ProviderError.v
Inference.v
InferenceProps.v
Agents.v
AgentsProps.v
