(* ===== verification/Prelude.v ===== *)
(** * A verification of the core of quecto's agentic harness

    quecto is an agentic harness written in Rust.  A session runs a model in a
    loop of turns; its requests to model providers go through a shared admission
    authority, are retried and corrected when they fail, and suspend the session
    when they keep failing; its conversation is cut to fit the context; a workflow engine
    tells the model which step it is at; what it fetches is held to the public
    internet; the agents it launches are bound to it, report to it and end with it, and run in
    environments (containers and checkouts) that the session and its siblings
    register, kill, keep and garbage-collect; and people and agents share a
    project board of tasks, plans and runs, which swarms of agents carry out,
    coordinating over a board of their own.
    This library models the logic of those parts, under
    [src/quecto-agentic-harness/src/] (below, [domain/..] and [application/..]
    stand for its directories), and the framing its processes speak to one another
    ([src/quecto-line-io]), and proves what makes them correct.  This file
    also holds the vocabulary the parts share.

    ** How the program is written here

    - A method on [&mut self] is a definition in the state-and-error monad [M] of
      this file.  Its outcomes are [Ok] (a value and the new state), [Err] (an
      error and the state reached so far: Rust keeps what was changed before an
      early return) and [Panic] (an [expect], an index out of range, an unsigned
      underflow, a failed [assert!] or [debug_assert!]).  A pure function that can
      panic returns [option].  So absence of panics is a theorem about each
      component and never an assumption.
    - [u64] values are [N], with [checked_add], [saturating_add], [saturating_mul]
      and the panicking operators written out at [u64_max]; counts of things in
      memory are [nat].
    - A [BTreeMap] or [HashMap] is a stdpp [gmap]; where the source depends on key
      order, the view [btree_iter] below lists the map by the key type's order.
      A [Vec] and a [VecDeque] are lists.
    - Almost every recursion is structural: the source's loops run over a
      collection they consume (the scopes of a group, the messages walked
      backwards, the steps of a template, the lines of a text) or down to a
      character boundary.  Three loops of the project board and those of the line
      readers are not, and have fuel: the rounds that settle a plan's items ([settle_rounds], one more
      than the items), and the walks along dependencies and up the parents
      ([dependency_walk], [walk_fuel]: every dependency is followed once;
      [parent_walk]: one step more than the tasks); the readers' turns (one
      more than the bytes of the stream); and the depth-first search of the
      swarm's dependencies ([dfs_fuel]: every edge is pushed once).  Running out is
      [None] or [Panic], values no theorem lets pass: C12, C31, [plan_cycle_found]
      and [pointer_walk_exact] say that the fuel suffices.  So have the retries of a
      provider (one more than its configured attempts), the loop of a turn (any bound: C35 gives the
      one that suffices), the walk up the lineage of an agent (the records of the
      snapshot) and the forwards of a termination (its hops): C34, C35, C37 and C38.
    - Clocks, random samples, fresh UUIDs, the answers of scripts, stores and
      other processes are inputs: arguments, or transitions of a step relation
      that may happen at any time.

    ** The admission authority

    [domain/admission] decides which inference request may start when: per quota
    group a capacity, an interactive reserve, a pacing interval, cooldowns and a
    bounded queue; scopes (sessions and their children) enqueue attempts.

    - [AdmissionTypes]: [value_objects/]: identities, the configuration and its
      validation, request states, the ledger, the fallback window
      ([inference_cooldown.rs]) and the idle lifetime of an on-demand broker
      ([authority_idle.rs]).
    - [AdmissionPolicy]: [services/inference_admission_policy.rs] and
      [inference_admission_recovery.rs]: one definition for each method ([enqueue],
      [next], [complete], [cancel], [tick], [abandon], [withdraw], [retire],
      [reset], [ledger], [restore], ..).
    - [AdmissionInv], [AdmissionTick], [AdmissionDispatch], [AdmissionOps],
      [AdmissionCalm]: the invariant, and the lemmas on
      each operation; [AdmissionOps] makes the authority a transition system
      whose steps are the public operations with any arguments.
    - [AdmissionProps] (C1-C5): no operation panics and the invariant is kept, the
      bounds on occupancy, when a grant is made and what it changes, pacing, and
      that schedules are never relaxed.  Background work
      is not starved (an epoch reset starts the count over), and the wake instant is sound.  [AdmissionRecovery] (C6, C7):
      quarantine of abandoned attempts, its end, and a restart from the ledger,
      which keeps the accounting.  [AdmissionClient] (C8): admission and
      completion happen once, the fallback window, the idle stop, and the waiting
      verdict of [inference_admission_view.rs].

    ** Conversations and the watermark cut

    [domain/conversation] keeps the messages, decides which turn is in flight and
    which reply is the report, and cuts the conversation once it reaches its
    high mark.

    - [Watermark]: [services/watermark.rs], the planner; [WatermarkFacts] and
      [WatermarkPlan] are its lemmas.
    - [Conversation]: [value_objects/message.rs], [user_kind.rs], and
      [services/turn_origin.rs], [conversation_view.rs], [conversation_edit.rs],
      [reply_requirement.rs] and [watermark_cut.rs], which feeds messages to the planner
      and applies its plan.
    - [WatermarkProps] (C9, C10): the planner never panics, what a cut keeps, that it
      is the shallowest that fits, what it saves, that it applies to the
      conversation it was planned for, and that cuts do not follow each other.
      [ConversationProps]: the report, the end of a turn, and the injected
      prompt.

    ** The workflow engine

    [domain/workflow] runs one template of ordered steps.  [Workflow] models
    [mod.rs], [engine.rs], [binding.rs] and [revision.rs]; [WorkflowProps] (C11) has
    the engine as a transition system and proves safety, that errors change
    nothing, ordering, guards, persistence, binding and what a snapshot hides.

    ** Line framing

    [src/quecto-line-io] reads and writes the messages of sockets and pipes, from
    peers that are not trusted: frames with a length, or lines of JSON, within a cap.

    - [LineIo]: [lib.rs] and [frame.rs]: the bounded line reader, the frame reader, the
      reader that tells the two apart with its buffer-reusing twin, and the
      writers, over any reader of the class [BufRead] and writer of [Write].
    - [LineIoFacts]: the class [BufReadLaws] of what is relied on of a reader, and what
      each loop does to the bytes it is yet to give.  The framing is also a
      function of those bytes ([message_at]), which the readers refine.
    - [LineIoProps] (C12-C14): both readers cut the same messages out of a stream,
      whatever pieces it comes in, within bounded memory; messages written are
      read back; an oversized message costs only itself, and one of another version is
      refused unread.
      [unterminated_line_cut_unreported] shows a line that loses a byte unreported.

    ** Environments

    [domain/environments] registers the environments of a session, shared with
    other sessions through one file per base directory.

    - [EnvironmentTypes]: records, refs, claim conditions, and the journal as a record
      of operations; [LawfulJournal] is the class of what a registry relies on.
    - [EnvironmentRegistry]: [entities/environment_registry.rs] and its siblings
      ([.._inspect.rs], [.._removal.rs], [claim_condition.rs]).  What a method does under
      the mutex is a definition of its own; the method composes these with the
      calls to the journal.
    - [EnvironmentClaims]: the registry under concurrency, a step relation whose
      steps are single critical sections and journal calls of any thread, and of
      other processes; invariants by induction on reachability.
    - [EnvironmentStore]: the file store and the journal over it
      ([infrastructure/persistence/file/environment_registry_store.rs],
      [application/environments/use_cases/restore_registry.rs]); the instance
      [store_journal_lawful] discharges the class.
    - [EnvironmentRetention]: [services/environment_retention.rs], the run statuses of
      [domain/swarm], and the handlers
      [application/environments/use_cases/finalize_environment_member.rs] and, in its
      module [Kill], [kill_environment.rs], whose ports answer through a trace;
      [EnvironmentFinalize] has their lemmas.
    - [EnvironmentListing]: [services/environment_listing.rs].
    - [EnvironmentProps] (C15-C18): exclusiveness of claims, departing members, fresh
      and reserved refs, writes that never revert another session's, resolution,
      the box of an unfinished swarm, the listing, one inspection for each dead member,
      and the one script an explicit kill runs.  [restored_claim_not_exclusive] and
      [reused_claim_not_exclusive] show where exclusiveness ends: a restored environment already
      marked as being killed can be claimed twice, and so can one whose ref was given to another
      environment while it was claimed, after a failed launch removed its record.
      [stopped_elsewhere_with_members] shows the kill that trips an assertion: of an
      environment that another session stopped while it has members here.

    ** The project board

    [domain/project_board] and [application/project_board] keep tasks, their
    plans, the runs of those plans, the changes (pull requests) that deliver them,
    reviews and discussions.  A board is a snapshot of files in a git ref; a use
    case reads it, applies a rule of the domain, and writes the artifacts the rule
    built against the head it read.

    - [BoardText]: [value_objects/board_text.rs], the normaliser text enters by;
      [BoardTextFacts]: it changes nothing but spacing, and its assertions hold.
    - [BoardSchema]: the values ([schema_error.rs], [timestamp.rs], [slug.rs],
      [vocabulary.rs], [reference.rs], [entities/claim.rs]); its class [Shapes] holds
      what regular expressions, Unicode tables and the calendar crate compute.
    - [BoardDescription], [BoardTask], [BoardArtifacts]: the entities ([task_parts.rs],
      [outcomes.rs], [task.rs], [team.rs], [plan.rs], [run.rs], [change.rs],
      [review.rs], [discussion.rs]) with the schema each constructor checks.
    - [BoardClaims], [BoardRuns], [BoardTransitions], [BoardPlans], [BoardChanges],
      [BoardDiscussions]: the rules, one definition for each function of
      [domain/project_board/services].  A rule is a pure function of the artifacts
      and the clock that answers the artifact's next value, a [BoardRuleError], or
      [Panic].
    - [BoardView]: the snapshot and its views ([ports.rs], [artifacts_of.rs],
      [use_cases/board_view.rs], [read_pins.rs], [task_pointers.rs]).
    - [BoardScrub]: [fold_back_scrub.rs] and the redactor ([domain/shared/redaction.rs]):
      what of a swarm's lines the public board keeps.  [BoardFoldBack]:
      [dto_fold_back.rs], [fold_back.rs] and [commit_token.rs]: how an ended swarm's
      items stand for the plan's, within the text a run holds.
      [BoardFoldBackFacts]: whatever a swarm left is a report the run's schema admits.
    - [BoardUseCases]: what each use case that changes a task, plan or run
      writes, as a function of the board it read, the time, and what its ports
      answer.
    - [BoardCommit]: [use_cases/board_change.rs], the optimistic commit and its
      retries over any store of the class [BoardStore] that keeps
      [BoardStoreLaws]; the module [SimStore] is such a store, in which other
      writers take their turns.
    - [BoardFacts], [BoardCycles], [BoardRuleFacts]: what rules and walks leave behind.
      [BoardInvariant] makes the board a transition system ([board_step]: a change
      of any use case by anyone, or a file set aside) with its invariant;
      it, [BoardSteps] and [BoardHistory] prove what every step keeps.
      [BoardEntrySafety], [BoardRuleSafety] and [BoardUseSafety] prove, bottom up,
      that nothing panics.
    - [BoardProps] (C19-C25): a task is in progress exactly while a run of its
      accepted plan goes; artifacts keep their schema; dependencies and parents
      are acyclic; work follows dependencies; history is kept; a live claim
      protects its task; a commit replaces only what it read, keeps the board's
      invariant whatever comes of it and never panics; the cycle check of plans
      and the pointer walks are exact and end; a run that is going is recorded
      whatever its swarm left, unless what it is read from cannot be; and a run recorded as succeeded is done, and
      the revisions its evidence names are on the remote.

    ** The swarm coordination board

    The agents of a swarm work on one run: members join it and die, tasks are
    created, claimed, submitted and verified, files are reserved, messages sent,
    evidence recorded, and the run is paused, resumed, completed and closed.
    What they share is a SQLite file per run, which every call opens, changes in
    one or two transactions, and closes ([domain/swarm], [application/swarm],
    [infrastructure/persistence/sqlite/swarm_board]).  The Rust code replaces a
    Python program and keeps what it accepted, so values are JSON values compared
    as Python compares them.

    - [SwarmValue]: [value_objects/python_value.rs]: JSON, doubles as the
      [spec_float]s of binary64, Python's equality and truth, and the hashed lookup,
      which [PythonLookup_position_linear] shows to be a linear search.
    - [SwarmPolicy], [SwarmDependencies]: the decisions over values
      ([entities/records.rs], [services/validation.rs], [policy.rs],
      [evidence_carry.rs], [dependencies.rs]).
    - [SwarmStore]: the tables as lists of rows, one definition for each statement
      of the repository, the request ledger ([ledger.rs]) and a transaction
      ([atomic]: committed when its work succeeds).  A [Session] is what the
      transactions of a call run against: the file, the clock, fresh ids, the
      faults of the store, and what other members commit before each.
    - [SwarmOperation]: [application/swarm/services]: the gate of an operation, whose
      first transaction records an expired deadline and whose second does the
      work.  [SwarmMembers], [SwarmTasks], [SwarmControl]: the use cases.
    - [SwarmInv]: a program logic for the work of a transaction ([wpb]), the invariant of the tables ([board_inv]) and how boards may evolve
      ([evolves]).  [SwarmSteps]: the tables and the gate under them.
      [SwarmSafeMembers], [SwarmSafeTasks], [SwarmSafeControl]: each piece of work
      keeps them.  [SwarmCalls]: the calls as a type, and a rely-guarantee argument
      over sessions whose other members keep them too, and what
      single operations achieve.
    - [SwarmProps] (C26-C31), with a swarm that runs from setup to success: no call panics and every call keeps the invariant
      whatever others commit; a run that succeeded has earned it; reservations are
      exclusive and stand under claims; work follows dependencies; what is settled
      stays; the board is bounded; a refusal leaves no work behind but an expired
      deadline, and that exactly; requests are answered once; and the
      search for cycles is exact.  [text_id_depends_on_itself] shows what the board
      accepts as the Python one did: an id given as text escapes that search.

    ** Network destinations

    [domain/tool_policy] decides which addresses an outbound fetch may reach.

    - [NetworkPolicy]: [services/network_destination.rs] and
      [value_objects/nat64_prefix.rs], with addresses as integers of 32 and 128 bits: the
      blocks that are not global, the IPv4 addresses that IPv6 forms embed, the
      prefixes of translators discovered from the answers for a name, and local names.
    - [NetworkProps] (C32, C33): an address is admitted exactly when every address it
      stands for is public, by its octets; and behind a translator that discovery
      reveals, no private address is reached.  [nested_translators_judged_by_first] shows an
      address under two nested prefixes that is judged by the wrong one.

    ** Inference turns

    - [ProviderError]: [domain/inference/services/provider_error.rs] and
      [provider_retry.rs]: the class of a failure, from its text; and the retrying provider
      of [infrastructure/providers/routing/retry.rs].
    - [Inference]: [output_limit.rs], [inference_recovery.rs] and [turn_suspension.rs] beside
      them, the loop of a turn ([application/agent_turn/agent_loop]: [run_loop.rs],
      [request.rs], [agent_loop_turn.rs], [agent_loop_stream.rs], [agent_loop_clamp.rs]) over
      ports ([RunPorts]) for pruning, tools and the provider, and the use case
      [resume_after_provider_failure.rs].
    - [InferenceProps] (C34-C36): requests are bounded and what was shown is never
      sent again; a turn always ends, and leaves no feedback it did not settle; a
      session that failed is neither stranded nor woken for ever.  The counters of a run's
      requests and tool turns, [u32] in the source, are unbounded here; C35 bounds them by the
      configured limit of tool turns.
      [stream_failure_round_trip]: a failure's class survives its rendering.

    ** Delegated agents

    - [Agents]: [domain/agents]: modules [Teardown] ([subagent_teardown.rs]), [Terminate]
      (the use case [application/subagents/use_cases/terminate_delegated_agent.rs], its ports, the
      answer it sends over the wire, and harnesses that forward to one another), [Parent]
      ([parent_control.rs], [harness_lifetime.rs], [secret_compare.rs]), [Reports]
      ([unread_report.rs]), [Names] ([subagent.rs]) and [Outcome] ([turn_outcome.rs],
      [turn_outcome_policy.rs], [turn_declaration.rs], and the use cases [declaration.rs] and
      [parent_outcome.rs] of [application/agent_turn]).
    - [AgentsProps] (C37-C40): a termination finds its target over any records; in any network
      of harnesses it ends, touches nothing else, lifts the claims it took and, where the
      way is open, reaches its target hop by hop; the answers of a parent binding are the ones its history
      calls for, with one parent at most; the turns of a parent are settled by
      their own declarations and corrected once.  The last two drive the state machine with any sequence
      of operations and judge every event by the log before it.
      [skipped_unread_exact] and [report_read_once]: what a supervisor is told.

    ** Assumptions

    Nothing is assumed globally.  In the step relation of [EnvironmentClaims] a commit
    uses a ref no record is held under, as its callers do after [mint_ref]
    ([minted_ref_fresh] is that [mint_ref] answers such a ref); the refs committed again while
    an earlier claim or write on them may be out are counted apart ([reused]).  The judgement of late-read records
    against the container runtime is a parameter of the store's journal.  The
    board's theorems hold for every instance of [Shapes] (those that run the redactor
    ask that its pattern captures a lead only where a word starts, [KeyLeads], as
    the source asserts; those on a swarm's report ask [view_ok], that only blocked items
    were blocked by a death, as [before_death] answers); the ones on commits
    assume the laws of [BoardStoreLaws], which [ports.rs] documents of the store: a
    read answers the board as it stands, a write replaces the board of the head it
    names by the artifacts under a new head or changes nothing (a store that fails
    may have done either), and meanwhile only other writers move it.  The
    readers of [LineIo] assume the laws tokio documents of its traits ([BufReadLaws],
    [WriteLaws]); [Pieces] and [Sink] are instances.  [Answers] collects what use cases ask of the host, the
    swarm keeper, the store's history and the file format.  The theorems of
    [SwarmProps] hold for every [Engine] (how SQLite turns numbers into texts and back,
    and the board's JSON codec, which reads back what it writes) and every
    [Checkout] that answers relative paths ([CheckoutLaws], as the source asserts), for
    clocks that read seconds since the epoch ([reading_ok]), and while no one
    edits or deletes the file other than through the board.  [JsonReader] is what
    [serde_json] reads, about which nothing is assumed; nothing is assumed of [RunPorts] or of
    the names an outcome guard mints; a session's events are those its callers may cause
    ([Sessions.enabled], as the source asserts), and a capability is one its parser accepts.  Record
    fields are updated by functional setters, which model assignments of the
    source and have no counterpart of their own.

    ** Not modelled

    Texts (status reports, nudges, [Display] implementations, the words of
    refusals, the prose of default templates), token estimation, the archive
    index, JSON encoding and decoding, environment garbage
    collection and names, and the judging half of registry restoration.  Of the
    project board: queries and listings, replication, history export, watching,
    serving over a socket, telemetry, the brief of a swarm ([swarm_brief.rs]),
    the launch of a run once it is begun, and clearing files set aside;
    linking changes, reviews and discussions are rules no use case calls yet, and
    are modelled as rules.  Of the swarm board: the reads (summaries, listings,
    projections, events, inboxes), the metering of requests and of calls,
    notifications, wakes and watches, telemetry, the schema's migration, and rows
    that were edited outside the board.  Of inference and agents: the
    guidance texts of failures, prices and limits of models, audit and progress events,
    the processes that launch and end children, and the other use cases of
    [application/subagents] (shutdown of a harness, of all children, the operator's kill).  The harness's other domains are candidates for
    extension: tool definitions and paths, sessions, search, catalogue and credentials.  The
    infrastructure, interface and composition layers and the other crates
    (terminal UI, HTTP API, MCP bridge, runtime manager, images) are I/O and
    adapters around this logic. *)

From Stdlib Require Import Ascii.
From Stdlib Require Export Lia ZifyBool ZifyN ZifyNat.
From stdpp Require Export base gmap strings list fin_maps sorting numbers.

(** * Unsigned machine integers

    A [u64] is an [N]; the operations below are the ones the source calls, with
    their behaviour at the upper end written out.  A [usize] that counts things
    held in memory is a [nat]. *)

Definition u64_max : N := 18446744073709551615%N.

Definition u64_ok (x : N) : Prop := (x ≤ u64_max)%N.

(** [u64::checked_add]. *)
Definition u64_checked_add (a b : N) : option N :=
  if (a + b <=? u64_max)%N then Some (a + b)%N else None.

(** [u64::saturating_add]. *)
Definition u64_saturating_add (a b : N) : N := N.min (a + b) u64_max.

(** [u64::saturating_mul]. *)
Definition u64_saturating_mul (a b : N) : N := N.min (a * b) u64_max.

(** [u64::saturating_sub]: [N.sub] is already truncated at zero. *)
Definition u64_saturating_sub (a b : N) : N := (a - b)%N.

(** The [-] operator of [u64] and [usize], which panics on underflow. *)
Definition u64_sub (a b : N) : option N :=
  if (b <=? a)%N then Some (a - b)%N else None.

(** The [+] operator of [u64], which panics on overflow. *)
Definition u64_add (a b : N) : option N := u64_checked_add a b.

Definition usize_sub (a b : nat) : option nat :=
  if (b <=? a)%nat then Some (a - b)%nat else None.

Lemma u64_checked_add_Some a b c :
  u64_checked_add a b = Some c ↔ c = (a + b)%N ∧ (a + b ≤ u64_max)%N.
Proof.
  unfold u64_checked_add. destruct (N.leb_spec (a + b) u64_max); split.
  - intros [= <-]. done.
  - by intros [-> _].
  - done.
  - lia.
Qed.

Lemma u64_checked_add_None a b :
  u64_checked_add a b = None ↔ (u64_max < a + b)%N.
Proof. unfold u64_checked_add. destruct (N.leb_spec (a + b) u64_max); split; [done|lia|lia|done]. Qed.

Lemma u64_saturating_add_ok a b : u64_ok (u64_saturating_add a b).
Proof. unfold u64_ok, u64_saturating_add. lia. Qed.

Lemma usize_sub_Some a b c : usize_sub a b = Some c ↔ b ≤ a ∧ c = a - b.
Proof.
  unfold usize_sub. destruct (Nat.leb_spec b a); split; try done.
  - by intros [= <-].
  - by intros [_ ->].
  - lia.
Qed.

(** * Results, panics and state

    A Rust call ends in a value, in an error of its [Result], or in a panic
    ([expect] on a missing entry, an index out of a map, an arithmetic
    underflow, a failed [debug_assert!]).  A [&mut self] method keeps the
    changes it made before an early [Err] return, so the monad threads the
    state through every outcome. *)

Inductive res (E A : Type) : Type :=
| Ok (a : A)
| Err (e : E)
| Panic.
Arguments Ok {E A} a.
Arguments Err {E A} e.
Arguments Panic {E A}.

#[export] Instance res_eq_dec {E A} `{EqDecision E, EqDecision A} : EqDecision (res E A).
Proof. solve_decision. Defined.

Definition no_panic {E A} (r : res E A) : Prop :=
  match r with Panic => False | _ => True end.

Definition M (S E A : Type) : Type := S → S * res E A.

Definition ret {S E A} (a : A) : M S E A := λ s, (s, Ok a).
Definition throw {S E A} (e : E) : M S E A := λ s, (s, Err e).
Definition panic {S E A} : M S E A := λ s, (s, Panic).
Definition bind {S E A B} (m : M S E A) (k : A → M S E B) : M S E B :=
  λ s, match m s with
       | (s', Ok a) => k a s'
       | (s', Err e) => (s', Err e)
       | (s', Panic) => (s', Panic)
       end.

(** A [&self] method, run against the current state. *)
Definition reads {S E A} (f : S → res E A) : M S E A := λ s, (s, f s).
(** The current value of some part of the state. *)
Definition gets {S E A} (f : S → A) : M S E A := λ s, (s, Ok (f s)).
Definition modify {S E} (f : S → S) : M S E unit := λ s, (f s, Ok tt).

(** [Option::ok_or(e)?]. *)
Definition ok_or {S E A} (o : option A) (e : E) : M S E A :=
  match o with Some a => ret a | None => throw e end.
(** [Option::expect], indexing a map, an overflow-checked operator. *)
Definition expect {S E A} (o : option A) : M S E A :=
  match o with Some a => ret a | None => panic end.
(** [debug_assert!]: a panic in the builds that keep the check. *)
Definition debug_assert {S E} (b : bool) : M S E unit := if b then ret tt else panic.

Declare Scope m_scope.
Delimit Scope m_scope with m.
Notation "x <- m ;; k" := (bind m (λ x, k))
  (at level 100, m at next level, right associativity) : m_scope.
Notation "m ;; k" := (bind m (λ _, k))
  (at level 100, right associativity) : m_scope.
Open Scope m_scope.

(** [for x in l { body }]. *)
Fixpoint for_each {S E A} (l : list A) (body : A → M S E unit) : M S E unit :=
  match l with
  | [] => ret tt
  | x :: l' => body x ;; for_each l' body
  end.

(** [iter().filter(p).collect()] when the predicate itself may panic. *)
Fixpoint filter_m {S E A} (p : A → M S E bool) (l : list A) : M S E (list A) :=
  match l with
  | [] => ret []
  | x :: l' =>
      b <- p x ;;
      r <- filter_m p l' ;;
      ret (if b : bool then x :: r else r)
  end.

(** A [for] loop with an accumulator. *)
Fixpoint fold_m {S E A B} (f : B → A → M S E B) (b : B) (l : list A) : M S E B :=
  match l with
  | [] => ret b
  | x :: l' => b' <- f b x ;; fold_m f b' l'
  end.

(** Weakest precondition: running [m] from [s] ends in an outcome and a state
    that satisfy [Q]. *)
Definition wp {S E A} (m : M S E A) (Q : res E A → S → Prop) (s : S) : Prop :=
  Q (m s).2 (m s).1.

Section wp_rules.
Context {S E : Type}.

(** Running a sequence whose first part is known. *)
Lemma bind_ok {A B} (m : M S E A) (k : A → M S E B) s s' a :
  m s = (s', Ok a) → bind m k s = k a s'.
Proof. unfold bind. by intros ->. Qed.

Lemma bind_err {A B} (m : M S E A) (k : A → M S E B) s s' e :
  m s = (s', Err e) → bind m k s = (s', Err e).
Proof. unfold bind. by intros ->. Qed.

Lemma bind_ret {A B} (a : A) (k : A → M S E B) s : bind (ret a) k s = k a s.
Proof. done. Qed.

Lemma bind_gets {A B} (f : S → A) (k : A → M S E B) s : bind (gets f) k s = k (f s) s.
Proof. done. Qed.

Lemma bind_modify {B} (f : S → S) (k : unit → M S E B) s : bind (modify f) k s = k tt (f s).
Proof. done. Qed.

Lemma bind_expect {A B} (o : option A) (a : A) (k : A → M S E B) s :
  o = Some a → bind (expect o) k s = k a s.
Proof. by intros ->. Qed.

Lemma bind_reads {A B} (f : S → res E A) (a : A) (k : A → M S E B) s :
  f s = Ok a → bind (reads f) k s = k a s.
Proof. unfold bind, reads. by intros ->. Qed.

Lemma wp_ret {A} (a : A) (Q : res E A → S → Prop) s : Q (Ok a) s → wp (ret a) Q s.
Proof. done. Qed.

Lemma wp_throw {A} (e : E) (Q : res E A → S → Prop) s : Q (Err e) s → wp (throw e) Q s.
Proof. done. Qed.

Lemma wp_bind {A B} (m : M S E A) (k : A → M S E B) (Q : res E B → S → Prop) s :
  wp m (λ r s', match r with
                | Ok a => wp (k a) Q s'
                | Err e => Q (Err e) s'
                | Panic => Q Panic s'
                end) s →
  wp (bind m k) Q s.
Proof. unfold wp, bind. destruct (m s) as [s' [a|e|]]; done. Qed.

Lemma wp_mono {A} (m : M S E A) (P Q : res E A → S → Prop) s :
  wp m P s → (∀ r s', P r s' → Q r s') → wp m Q s.
Proof. unfold wp. auto. Qed.

Lemma wp_reads {A} (f : S → res E A) (Q : res E A → S → Prop) s :
  Q (f s) s → wp (reads f) Q s.
Proof. done. Qed.

Lemma wp_gets {A} (f : S → A) (Q : res E A → S → Prop) s :
  Q (Ok (f s)) s → wp (gets f) Q s.
Proof. done. Qed.

Lemma wp_modify (f : S → S) (Q : res E unit → S → Prop) s :
  Q (Ok tt) (f s) → wp (modify f) Q s.
Proof. done. Qed.

Lemma wp_expect {A} (o : option A) (a : A) (Q : res E A → S → Prop) s :
  o = Some a → Q (Ok a) s → wp (expect o) Q s.
Proof. by intros ->. Qed.

Lemma wp_ok_or {A} (o : option A) (e : E) (Q : res E A → S → Prop) s :
  (∀ a, o = Some a → Q (Ok a) s) → (o = None → Q (Err e) s) → wp (ok_or o e) Q s.
Proof. destruct o; unfold wp; simpl; auto. Qed.

(** A loop keeps an invariant indexed by what is still to be visited. *)
Lemma wp_for_each {A} (body : A → M S E unit) (I : list A → S → Prop) l s :
  I l s →
  (∀ x l' s', I (x :: l') s' → wp (body x) (λ r s'', r = Ok tt ∧ I l' s'') s') →
  wp (for_each l body) (λ r s', r = Ok tt ∧ I [] s') s.
Proof.
  intros HI Hstep. revert s HI. induction l as [|x l IH]; intros s HI; [done|].
  cbn [for_each]. apply wp_bind. eapply wp_mono; [by apply Hstep|].
  intros r s' [-> HI']. by apply IH.
Qed.

(** A filter whose predicate is pure on the current state is [filter]. *)
Lemma filter_m_pure {A} (p : A → M S E bool) (b : A → bool) l s :
  (∀ x, x ∈ l → p x s = (s, Ok (b x))) →
  filter_m p l s = (s, Ok (filter (λ x, b x = true) l)).
Proof.
  induction l as [|x l IH]; intros Hp; [done|].
  cbn [filter_m]. unfold bind at 1. rewrite Hp by (by left).
  unfold bind. rewrite IH by (intros; apply Hp; by right).
  rewrite filter_cons. destruct (b x) eqn:Hb; simpl; by rewrite ?decide_True, ?decide_False.
Qed.

(** A run that answered went through each of its parts. *)
Lemma bind_Ok_inv {A B} (m : M S E A) (k : A → M S E B) s s' b :
  bind m k s = (s', Ok b) → ∃ a s1, m s = (s1, Ok a) ∧ k a s1 = (s', Ok b).
Proof. unfold bind. destruct (m s) as [s1 [a|e|]]; [eauto|done..]. Qed.

Lemma expect_Ok_inv {A} (o : option A) s s' a :
  @expect S E A o s = (s', Ok a) → s' = s ∧ o = Some a.
Proof. destruct o; simpl; unfold ret, throw, panic; by inversion 1. Qed.

Lemma ok_or_Ok_inv {A} (o : option A) (e : E) s s' a :
  @ok_or S E A o e s = (s', Ok a) → s' = s ∧ o = Some a.
Proof. destruct o; simpl; unfold ret, throw, panic; by inversion 1. Qed.

Lemma reads_Ok_inv {A} (f : S → res E A) s s' a :
  reads f s = (s', Ok a) → s' = s ∧ f s = Ok a.
Proof. unfold reads. by inversion 1. Qed.

(** A fold whose body is pure on the current state is [foldl]. *)
Lemma fold_m_pure {A B} (f : B → A → M S E B) (g : B → A → B) l b s :
  (∀ b' x, x ∈ l → f b' x s = (s, Ok (g b' x))) →
  fold_m f b l s = (s, Ok (foldl g b l)).
Proof.
  revert b. induction l as [|x l IH]; intros b Hf; [done|].
  cbn [fold_m]. unfold bind. rewrite Hf by (by left).
  rewrite IH; [done|]. intros; apply Hf; by right.
Qed.
End wp_rules.

(** * What an operation leaves alone *)

(** [frames f m]: [m] never changes the part [f] of the state, however it ends. *)
Definition frames {S E A B} (f : S → B) (m : M S E A) : Prop := ∀ s, f (m s).1 = f s.

Create HintDb frames.

Section frame_rules.
Context {S E B : Type} (f : S → B).

Lemma frames_ret {A} (a : A) : frames f (@ret S E A a).
Proof. done. Qed.
Lemma frames_throw {A} (e : E) : frames f (@throw S E A e).
Proof. done. Qed.
Lemma frames_gets {A} (g : S → A) : frames f (@gets S E A g).
Proof. done. Qed.
Lemma frames_reads {A} (g : S → res E A) : frames f (reads g).
Proof. done. Qed.
Lemma frames_expect {A} (o : option A) : frames f (@expect S E A o).
Proof. by destruct o. Qed.
Lemma frames_ok_or {A} (o : option A) (e : E) : frames f (@ok_or S E A o e).
Proof. by destruct o. Qed.
Lemma frames_debug_assert b : frames f (@debug_assert S E b).
Proof. by destruct b. Qed.
Lemma frames_modify (g : S → S) : (∀ s, f (g s) = f s) → frames f (@modify S E g).
Proof. done. Qed.

Lemma frames_bind {A C} (m : M S E A) (k : A → M S E C) :
  frames f m → (∀ a, frames f (k a)) → frames f (bind m k).
Proof.
  intros Hm Hk s. unfold bind. specialize (Hm s). destruct (m s) as [s' [a|e|]]; simpl in *; [|done..].
  by rewrite (Hk a s').
Qed.

Lemma frames_for_each {A} (l : list A) (body : A → M S E unit) :
  (∀ x, frames f (body x)) → frames f (for_each l body).
Proof. intros Hb. induction l; simpl; [apply frames_ret|by apply frames_bind]. Qed.

Lemma frames_filter_m {A} (p : A → M S E bool) l : (∀ x, frames f (p x)) → frames f (filter_m p l).
Proof.
  intros Hp. induction l; simpl; [apply frames_ret|]. apply frames_bind; [done|]. intros b.
  apply frames_bind; [done|]. intros. apply frames_ret.
Qed.

Lemma frames_fold_m {A C} (g : C → A → M S E C) c l :
  (∀ c x, frames f (g c x)) → frames f (fold_m g c l).
Proof. intros Hg. revert c. induction l; intros c; simpl; [apply frames_ret|]. apply frames_bind; auto. Qed.
End frame_rules.

(** Prove [frames] by the shape of the program; the database holds what is known
    of the operations it calls. *)
Ltac solve_frames :=
  repeat first
    [ solve [eauto with frames nocore]
    | apply frames_ret | apply frames_throw | apply frames_gets | apply frames_reads
    | apply frames_expect | apply frames_ok_or | apply frames_debug_assert
    | apply frames_modify; done
    | apply frames_bind; [|intros ?]
    | apply frames_for_each; intros ? | apply frames_filter_m; intros ? | apply frames_fold_m; intros ? ?
    | case_match ].

(** * Lists *)

Lemma NoDup_snoc {A} (l : list A) x : NoDup l → x ∉ l → NoDup (l ++ [x]).
Proof.
  intros Hl Hx. apply list.NoDup_app. split; [done|]. split; [|apply NoDup_singleton].
  intros y Hy ->%list_elem_of_singleton. done.
Qed.

Lemma filter_all {A} (P : A → Prop) `{!∀ x, Decision (P x)} (l : list A) :
  (∀ x, x ∈ l → P x) → filter P l = l.
Proof.
  induction l as [|x l IH]; intros HP; [done|].
  rewrite filter_cons, decide_True by (apply HP; by left). f_equal. apply IH.
  intros y Hy. apply HP. by right.
Qed.

Lemma NoDup_fst_filter {A B} (P : A * B → Prop) `{!∀ x, Decision (P x)} (l : list (A * B)) :
  NoDup l.*1 → NoDup (filter P l).*1.
Proof.
  induction l as [|[a b] l IH]; intros Hnd; [done|]. apply list.NoDup_cons in Hnd as [Ha Hnd].
  rewrite filter_cons. case_decide; [|by apply IH]. simpl. apply NoDup_cons_2; [|by apply IH].
  intros [[a' b'] [Heq Hin]]%list_elem_of_fmap. simpl in Heq. subst a'.
  apply list_elem_of_filter in Hin as [_ Hin]. apply Ha. apply list_elem_of_fmap. by exists (a, b').
Qed.

Lemma fmap_list_bind {A B C} (f : A → list B) (g : B → C) (l : list A) :
  g <$> (l ≫= f) = l ≫= λ x, g <$> f x.
Proof. induction l as [|x l IH]; [done|]. cbn. rewrite fmap_app. by rewrite <- IH. Qed.

Lemma list_bind_fmap {A B C} (f : A → B) (g : B → list C) (l : list A) :
  (f <$> l) ≫= g = l ≫= λ x, g (f x).
Proof. induction l as [|x l IH]; [done|]. cbn. by rewrite <- IH. Qed.

(** A concatenation has no duplicates when its parts have none and keys tell
    which part an element is in. *)
Lemma NoDup_bind_keys {K A B} (f : K * A → list B) (l : list (K * A)) :
  NoDup l.*1 → (∀ x, x ∈ l → NoDup (f x)) →
  (∀ x1 x2 y, x1 ∈ l → x2 ∈ l → y ∈ f x1 → y ∈ f x2 → x1.1 = x2.1) →
  NoDup (l ≫= f).
Proof.
  induction l as [|x l IH]; intros Hnd Hf Hinj; [constructor|]. cbn.
  apply list.NoDup_cons in Hnd as [Hx Hnd]. apply list.NoDup_app. split_and!.
  - apply Hf. by left.
  - intros y Hy Hy'. apply list_elem_of_bind in Hy' as (x' & Hy' & Hx').
    apply Hx. rewrite (Hinj x x' y); [|by left|by right|done..].
    apply list_elem_of_fmap. eauto.
  - apply IH; [done|..].
    + intros. apply Hf. by right.
    + intros x1 x2 y H1 H2. apply Hinj; by right.
Qed.

(** * Boolean list predicates *)

Lemma existsb_false_elem {A} (f : A → bool) l x :
  existsb f l = false → x ∈ l → f x = false.
Proof.
  intros Hf Hx. apply not_true_iff_false. intros Ht. apply not_true_iff_false in Hf.
  apply Hf, existsb_exists. exists x. split; [by apply list_elem_of_In|done].
Qed.

Lemma existsb_elem {A} (f : A → bool) l :
  existsb f l = true → ∃ x, x ∈ l ∧ f x = true.
Proof.
  intros [x [Hx Hf]]%existsb_exists. exists x. by rewrite list_elem_of_In.
Qed.

(** Split a conjunction or a refuted disjunction of booleans. *)
Ltac split_bools :=
  repeat match goal with
  | H : (_ || _) = false |- _ => apply orb_false_elim in H as [? ?]
  | H : (_ && _) = true |- _ => apply andb_prop in H as [? ?]
  | H : negb _ = true |- _ => apply negb_true_iff in H
  | H : negb _ = false |- _ => apply negb_false_iff in H
  | H : bool_decide _ = true |- _ => apply bool_decide_eq_true in H
  | H : bool_decide _ = false |- _ => apply bool_decide_eq_false in H
  end.

(** [Iterator::max] over unsigned integers. *)
Definition iter_max (l : list N) : option N :=
  match l with
  | [] => None
  | x :: l' => Some (foldl N.max x l')
  end.

Lemma foldl_max_spec l x : (foldl N.max x l = x ∨ foldl N.max x l ∈ l) ∧ (x ≤ foldl N.max x l)%N ∧
  ∀ y, y ∈ l → (y ≤ foldl N.max x l)%N.
Proof.
  revert x. induction l as [|z l IH]; intros x; simpl.
  - split; [by left|]. split; [lia|]. by intros y ?%not_elem_of_nil.
  - destruct (IH (N.max x z)) as (Hin & Hle & Hall). split_and!.
    + destruct Hin as [->|Hin]; [|right; by right].
      destruct (N.max_spec x z) as [[_ ->]|[_ ->]]; [right; by left|by left].
    + lia.
    + intros y [->|Hy]%elem_of_cons; [lia|by apply Hall].
Qed.

(** [Iterator::position] and [Iterator::rposition]. *)
Fixpoint position {A} (f : A → bool) (l : list A) : option nat :=
  match l with
  | [] => None
  | x :: l' => if f x then Some 0 else S <$> position f l'
  end.

Fixpoint rposition {A} (f : A → bool) (l : list A) : option nat :=
  match l with
  | [] => None
  | x :: l' => match rposition f l' with
               | Some i => Some (S i)
               | None => if f x then Some 0 else None
               end
  end.

Lemma position_Some {A} (f : A → bool) l i :
  position f l = Some i → (∃ x, l !! i = Some x ∧ f x = true) ∧
  ∀ j x, j < i → l !! j = Some x → f x = false.
Proof.
  revert i. induction l as [|y l IH]; intros i; simpl; [done|]. destruct (f y) eqn:Hy.
  - intros [= <-]. split; [by exists y|]. lia.
  - intros (k & Hk & ->)%fmap_Some. destruct (IH k Hk) as [Hx Hlt]. split; [done|].
    intros [|j] x Hj; simpl; [by intros [= <-]|]. apply Hlt. lia.
Qed.

Lemma position_None {A} (f : A → bool) l : position f l = None → ∀ x, x ∈ l → f x = false.
Proof.
  induction l as [|y l IH]; simpl; [by intros _ x ?%not_elem_of_nil|]. destruct (f y) eqn:Hy; [done|].
  intros Hn%fmap_None x [->|Hx]%elem_of_cons; [done|by apply IH].
Qed.

Lemma rposition_Some {A} (f : A → bool) l i :
  rposition f l = Some i → (∃ x, l !! i = Some x ∧ f x = true) ∧
  ∀ j x, i < j → l !! j = Some x → f x = false.
Proof.
  revert i. induction l as [|y l IH]; intros i; simpl; [done|].
  assert (rposition f l = None → ∀ x, x ∈ l → f x = false) as Hnone.
  { clear. induction l as [|z l IH]; simpl; [by intros _ x ?%not_elem_of_nil|].
    destruct (rposition f l); [done|]. destruct (f z) eqn:Hz; [done|].
    intros _ x [->|Hx]%elem_of_cons; [done|by apply IH]. }
  destruct (rposition f l) as [k|].
  - intros [= <-]. destruct (IH k eq_refl) as [Hx Hlt]. split; [done|].
    intros [|j] x Hj; simpl; [lia|]. apply Hlt. lia.
  - destruct (f y) eqn:Hy; [|done]. intros [= <-]. split; [by exists y|].
    intros [|j] x Hj; simpl; [lia|]. intros Hx. apply Hnone; [done|]. by eapply list_elem_of_lookup_2.
Qed.

Lemma rposition_None {A} (f : A → bool) l : rposition f l = None → ∀ x, x ∈ l → f x = false.
Proof.
  induction l as [|z l IH]; simpl; [by intros _ x ?%not_elem_of_nil|].
  destruct (rposition f l); [done|]. destruct (f z) eqn:Hz; [done|].
  intros _ x [->|Hx]%elem_of_cons; [done|by apply IH].
Qed.

(** * Rules

    A function that keeps no state and can fail: a value, an error or a panic. *)

Definition rbind {E A B} (m : res E A) (k : A → res E B) : res E B :=
  match m with Ok a => k a | Err e => Err e | Panic => Panic end.

Declare Scope rule_scope.
Delimit Scope rule_scope with rule.
Notation "'let?' x ':=' m 'in' k" := (rbind m (λ x, k))
  (at level 10, x binder, m at level 200, k at level 200) : rule_scope.
Notation "m ;? k" := (rbind m (λ _, k)) (at level 100, right associativity) : rule_scope.
Open Scope rule_scope.

Definition map_err {E F A} (f : E → F) (m : res E A) : res F A :=
  match m with Ok a => Ok a | Err e => Err (f e) | Panic => Panic end.
Definition map_ok {E A B} (f : A → B) (m : res E A) : res E B :=
  match m with Ok a => Ok (f a) | Err e => Err e | Panic => Panic end.
Definition ensure {E} (b : bool) (e : E) : res E unit := if b then Ok tt else Err e.
(** [assert!], [debug_assert!] and [unreachable!]. *)
Definition assert_that {E} (b : bool) : res E unit := if b then Ok tt else Panic.
Definition or_err {E A} (o : option A) (e : E) : res E A :=
  match o with Some a => Ok a | None => Err e end.
Definition or_panic {E A} (o : option A) : res E A :=
  match o with Some a => Ok a | None => Panic end.

(** [iter().enumerate().try_for_each(f)]. *)
Fixpoint each_from {E A} (f : nat → A → res E unit) (i : nat) (l : list A) : res E unit :=
  match l with
  | [] => Ok tt
  | x :: l' => f i x ;? each_from f (S i) l'
  end.
Definition each {E A} (f : nat → A → res E unit) (l : list A) : res E unit := each_from f 0 l.

(** [iter().map(f).collect::<Result<Vec<_>, _>>()]. *)
Fixpoint collect {E A B} (f : A → res E B) (l : list A) : res E (list B) :=
  match l with
  | [] => Ok []
  | x :: l' => let? y := f x in let? ys := collect f l' in Ok (y :: ys)
  end.

Lemma rbind_Ok {E A B} (m : res E A) (k : A → res E B) b :
  rbind m k = Ok b → ∃ a, m = Ok a ∧ k a = Ok b.
Proof. destruct m; simpl; [eauto | done | done]. Qed.

Lemma ensure_Ok {E} b (e : E) u : ensure b e = Ok u → b = true.
Proof. by destruct b. Qed.

Lemma assert_that_Ok {E} b u : @assert_that E b = Ok u → b = true.
Proof. by destruct b. Qed.

Lemma map_err_Ok {E F A} (f : E → F) (m : res E A) a : map_err f m = Ok a → m = Ok a.
Proof. by destruct m; simpl; intros; simplify_eq. Qed.

Lemma map_ok_Ok {E A B} (f : A → B) (m : res E A) b : map_ok f m = Ok b → ∃ a, m = Ok a ∧ b = f a.
Proof. destruct m; simpl; intros; simplify_eq; eauto. Qed.

Lemma or_err_Ok {E A} (o : option A) (e : E) a : or_err o e = Ok a → o = Some a.
Proof. by destruct o; simpl; intros; simplify_eq. Qed.

Lemma or_panic_Ok {E A} (o : option A) a : @or_panic E A o = Ok a → o = Some a.
Proof. by destruct o; simpl; intros; simplify_eq. Qed.

(** What a rule that answered must have passed. *)
Ltac inv_ok :=
  repeat match goal with
  | H : rbind ?m ?k = Ok ?b |- _ => apply rbind_Ok in H as (? & ? & H); cbv beta in H
  | H : ensure _ _ = Ok _ |- _ => apply ensure_Ok in H
  | H : assert_that _ = Ok _ |- _ => apply assert_that_Ok in H
  | H : map_err _ _ = Ok _ |- _ => apply map_err_Ok in H
  | H : map_ok _ _ = Ok _ |- _ => apply map_ok_Ok in H as (? & H & ?)
  | H : or_err _ _ = Ok _ |- _ => apply or_err_Ok in H
  | H : or_panic _ = Ok _ |- _ => apply or_panic_Ok in H
  | H : Ok _ = Ok _ |- _ => injection H as H; subst
  | H : Some _ = Some _ |- _ => injection H as H; subst
  | H : Err _ = Ok _ |- _ => discriminate H
  | H : Panic = Ok _ |- _ => discriminate H
  | H : () = () |- _ => clear H
  | u : unit |- _ => destruct u
  end.

(** ** Panics *)

Lemma rbind_no_panic {E A B} (m : res E A) (k : A → res E B) :
  m ≠ Panic → (∀ a, m = Ok a → k a ≠ Panic) → rbind m k ≠ Panic.
Proof. destruct m; simpl; auto. Qed.

Lemma map_err_no_panic {E F A} (f : E → F) (m : res E A) : m ≠ Panic → map_err f m ≠ Panic.
Proof. by destruct m. Qed.

Lemma map_ok_no_panic {E A B} (f : A → B) (m : res E A) : m ≠ Panic → map_ok f m ≠ Panic.
Proof. by destruct m. Qed.

Lemma ensure_no_panic {E} b (e : E) : ensure b e ≠ Panic.
Proof. by destruct b. Qed.

Lemma or_err_no_panic {E A} (o : option A) (e : E) : or_err o e ≠ Panic.
Proof. by destruct o. Qed.

(** * Text

    A [String] is the list of its Unicode scalar values. *)

Abbreviation text := (list N).

(** A text literal. *)
Definition tx (s : string) : text := N_of_ascii <$> String.list_ascii_of_string s.

(** [char::is_whitespace]. *)
Definition is_whitespace (c : N) : bool :=
  ((9 <=? c) && (c <=? 13) || (c =? 32) || (c =? 133) || (c =? 160) || (c =? 5760)
   || (8192 <=? c) && (c <=? 8202) || (c =? 8232) || (c =? 8233) || (c =? 8239) || (c =? 8287)
   || (c =? 12288))%N.

(** [text.trim().is_empty()]. *)
Definition is_blank (t : text) : bool := forallb is_whitespace t.

(** The bytes of a scalar value in UTF-8, and of a text. *)
Definition utf8_len (c : N) : nat :=
  if (c <? 128)%N then 1 else if (c <? 2048)%N then 2 else if (c <? 65536)%N then 3 else 4.

Definition byte_len (t : text) : nat := foldr (λ c n, utf8_len c + n) 0 t.

(** [t[..n]] when [n] is a character boundary of [t]. *)
Fixpoint byte_prefix (t : text) (n : nat) : option text :=
  match n with
  | 0 => Some []
  | _ => match t with
         | [] => None
         | c :: t' => if utf8_len c <=? n then cons c <$> byte_prefix t' (n - utf8_len c) else None
         end
  end.

Lemma utf8_len_pos c : 1 ≤ utf8_len c ≤ 4.
Proof. unfold utf8_len. repeat case_match; lia. Qed.

Lemma byte_len_app t1 t2 : byte_len (t1 ++ t2) = byte_len t1 + byte_len t2.
Proof. induction t1; simpl; lia. Qed.

Lemma byte_prefix_Some t n t' : byte_prefix t n = Some t' ↔ t' `prefix_of` t ∧ byte_len t' = n.
Proof.
  revert n t'. induction t as [|c t IH]; intros n t'.
  - destruct n; simpl; split.
    + intros [= <-]. done.
    + intros [->%prefix_nil_inv _]. done.
    + done.
    + intros [->%prefix_nil_inv ?]. done.
  - pose proof (utf8_len_pos c). destruct n as [|n]; simpl.
    + split; [by intros [= <-]; split; [apply prefix_nil|]|]. intros [_ H0].
      destruct t' as [|c' t']; [done|]. simpl in H0. pose proof (utf8_len_pos c'). lia.
    + destruct (Nat.leb_spec (utf8_len c) (S n)) as [Hle|Hlt].
      * rewrite fmap_Some. split.
        -- intros (t0 & Ht0%IH & ->). destruct Ht0 as [Hp Hl]. split; [by apply prefix_cons|]. simpl. lia.
        -- intros [Hp Hl]. destruct t' as [|c' t0]; [done|].
           pose proof (prefix_cons_inv_1 _ _ _ _ Hp) as ->. apply prefix_cons_inv_2 in Hp.
           exists t0. split; [|done]. apply IH. split; [done|]. simpl in Hl. lia.
      * split; [done|]. intros [Hp Hl]. destruct t' as [|c' t0]; [done|].
        pose proof (prefix_cons_inv_1 _ _ _ _ Hp) as ->. simpl in Hl. lia.
Qed.

(** * Stable sorting

    [slice::sort_by]: the order among equal elements is kept. *)

Section stable_sort.
Context {A : Type} (R : relation A) `{!RelDecision R}.

Fixpoint insert_sorted (x : A) (l : list A) : list A :=
  match l with
  | [] => [x]
  | y :: l' => if decide (R x y) then x :: y :: l' else y :: insert_sorted x l'
  end.

Definition stable_sort (l : list A) : list A := foldr insert_sorted [] l.

Lemma insert_sorted_perm x l : insert_sorted x l ≡ₚ x :: l.
Proof. induction l as [|y l IH]; simpl; [done|]. case_decide; [done|]. rewrite IH. constructor. Qed.

Lemma stable_sort_perm l : stable_sort l ≡ₚ l.
Proof. induction l as [|x l IH]; simpl; [done|]. by rewrite insert_sorted_perm, IH. Qed.

Lemma stable_sort_sorted `{!Transitive R, !Total R} l : StronglySorted R (stable_sort l).
Proof.
  induction l as [|x l IH]; simpl; [constructor|]. revert IH. generalize (stable_sort l) as s.
  induction s as [|y s IHs]; intros Hs; simpl; [repeat constructor|].
  apply StronglySorted_inv in Hs as [Hs Hy]. case_decide as Hxy.
  - constructor; [by constructor|]. constructor; [done|]. apply (list.Forall_impl _ _ _ Hy). intros z ?. by etransitivity.
  - constructor; [by apply IHs|]. rewrite insert_sorted_perm. constructor; [|done].
    by destruct (total R x y).
Qed.
End stable_sort.

(** * Ordered maps

    A [BTreeMap] is a [gmap]; what differs is that it is iterated in key
    order, so [btree_iter] sorts the bindings by key. *)

Class OrdKey (K : Type) := {
  key_le : relation K;
  #[export] key_le_dec :: RelDecision key_le;
  #[export] key_le_po :: PartialOrder key_le;
  #[export] key_le_total :: Total key_le;
}.

#[export] Instance string_ord : OrdKey string := {| key_le := String.le |}.
#[export] Instance N_ord : OrdKey N := {| key_le := N.le |}.

#[global] Arguments key_le {K _} _ _ : simpl never.

Lemma key_le_refl {K} `{OrdKey K} (k : K) : key_le k k.
Proof. apply reflexivity. Qed.

Definition key_lt {K} `{OrdKey K} (a b : K) : Prop := key_le a b ∧ a ≠ b.

#[export] Instance key_lt_dec {K} `{OrdKey K, EqDecision K} : RelDecision (@key_lt K _).
Proof. unfold key_lt. solve_decision. Defined.

Definition entry_le {K V} `{OrdKey K} (a b : K * V) : Prop := key_le a.1 b.1.

#[export] Instance entry_le_dec {K V} `{OrdKey K} : RelDecision (@entry_le K V _).
Proof. intros a b. unfold entry_le. apply _. Defined.

#[export] Instance entry_le_trans {K V} `{OrdKey K} : Transitive (@entry_le K V _).
Proof. intros a b c. unfold entry_le. apply transitivity. Qed.

#[export] Instance entry_le_total {K V} `{OrdKey K} : Total (@entry_le K V _).
Proof. intros a b. unfold entry_le. apply (total key_le). Qed.

Section btree.
Context {K : Type} `{Countable K} `{!OrdKey K} {V : Type}.
Implicit Types m : gmap K V.

Definition btree_iter m : list (K * V) := merge_sort entry_le (map_to_list m).
Definition btree_keys m : list K := (btree_iter m).*1.
Definition btree_values m : list V := (btree_iter m).*2.

Lemma btree_iter_perm m : btree_iter m ≡ₚ map_to_list m.
Proof. apply merge_sort_Permutation. Qed.

Lemma elem_of_btree_iter m k v : (k, v) ∈ btree_iter m ↔ m !! k = Some v.
Proof. by rewrite btree_iter_perm, elem_of_map_to_list. Qed.

Lemma elem_of_btree_keys m k : k ∈ btree_keys m ↔ is_Some (m !! k).
Proof.
  unfold btree_keys. rewrite list_elem_of_fmap. split.
  - intros [[k' v] [-> Hin]]. apply elem_of_btree_iter in Hin. eauto.
  - intros [v Hv]. exists (k, v). by rewrite elem_of_btree_iter.
Qed.

Lemma elem_of_btree_values m v : v ∈ btree_values m ↔ ∃ k, m !! k = Some v.
Proof.
  unfold btree_values. rewrite list_elem_of_fmap. split.
  - intros [[k v'] [-> Hin]]. apply elem_of_btree_iter in Hin. eauto.
  - intros [k Hv]. exists (k, v). by rewrite elem_of_btree_iter.
Qed.

Lemma NoDup_btree_keys m : NoDup (btree_keys m).
Proof. unfold btree_keys. rewrite btree_iter_perm. apply NoDup_fst_map_to_list. Qed.

Lemma NoDup_btree_iter m : NoDup (btree_iter m).
Proof. rewrite btree_iter_perm. apply NoDup_map_to_list. Qed.

Lemma StronglySorted_btree_iter m : StronglySorted entry_le (btree_iter m).
Proof. apply Sorted_StronglySorted; [apply _|]. apply (Sorted_merge_sort _). Qed.

Lemma StronglySorted_btree_keys m : StronglySorted key_le (btree_keys m).
Proof.
  unfold btree_keys. generalize (StronglySorted_btree_iter m).
  induction 1 as [|[k v] l Hl IH Hall]; [constructor|]. constructor; [done|].
  apply Forall_fmap. eapply List.Forall_impl; [|exact Hall]. by intros [].
Qed.
End btree.

(** The first binding that satisfies a predicate has the least key. *)
Lemma head_filter_least {K V} `{OrdKey K} (P : K * V → Prop) `{!∀ x, Decision (P x)} l k :
  StronglySorted entry_le l → head (filter P l).*1 = Some k →
  ∃ v, (k, v) ∈ l ∧ P (k, v) ∧ ∀ x, x ∈ l → P x → key_le k x.1.
Proof.
  induction 1 as [|z l Hl IH Hall]; [done|]. rewrite filter_cons. case_decide as HP.
  - simpl. intros [= <-]. exists z.2. destruct z as [k v]; simpl. split; [by left|]. split; [done|].
    intros x [->|Hin]%elem_of_cons _; [apply key_le_refl|].
    rewrite Forall_forall in Hall. by apply (Hall x), list_elem_of_In.
  - intros (v & Hin & HPv & Hmin)%IH. exists v. split; [by right|]. split; [done|].
    intros x [->|Hx]%elem_of_cons HPx; [done|]. by apply Hmin.
Qed.

(** Number of bindings of a map that satisfy a predicate:
    [iter().filter(p).count()]. *)
Definition count_map {K} `{Countable K} {V} (P : K → V → bool) (m : gmap K V) : nat :=
  size (filter (λ kv, P kv.1 kv.2 = true) m).

Section count_map.
Context {K : Type} `{Countable K} {V : Type}.
Implicit Types (m : gmap K V) (P Q : K → V → bool).

Lemma count_map_empty P : count_map P (∅ : gmap K V) = 0.
Proof. unfold count_map. by rewrite map_filter_empty, map_size_empty. Qed.

Lemma count_map_delete P m k v :
  m !! k = Some v → count_map P m = Nat.b2n (P k v) + count_map P (delete k m).
Proof.
  intros Hk. unfold count_map. rewrite map_filter_delete.
  destruct (P k v) eqn:HP; simpl.
  - rewrite map_size_delete_Some by (exists v; by apply map_lookup_filter_Some).
    assert (size (filter (λ kv, P kv.1 kv.2 = true) m) ≠ 0); [|lia].
    apply map_size_ne_0_lookup. exists k, v. by apply map_lookup_filter_Some.
  - rewrite delete_id; [done|]. apply map_lookup_filter_None. right.
    intros v'. rewrite Hk. intros [= <-]. simpl. congruence.
Qed.

Lemma count_map_insert_fresh P m k v :
  m !! k = None → count_map P (<[k:=v]> m) = Nat.b2n (P k v) + count_map P m.
Proof.
  intros Hk. rewrite (count_map_delete P (<[k:=v]> m) k v) by apply lookup_insert_eq.
  by rewrite delete_insert_id.
Qed.

Lemma count_map_insert P m k v0 v :
  m !! k = Some v0 →
  count_map P (<[k:=v]> m) + Nat.b2n (P k v0) = Nat.b2n (P k v) + count_map P m.
Proof.
  intros Hk. rewrite (count_map_delete P m k v0) by done.
  rewrite (count_map_delete P (<[k:=v]> m) k v) by apply lookup_insert_eq.
  rewrite delete_insert_eq. lia.
Qed.

Lemma count_map_mono P Q m :
  (∀ k v, m !! k = Some v → P k v = true → Q k v = true) →
  count_map P m ≤ count_map Q m.
Proof.
  intros HPQ. unfold count_map. apply map_subseteq_size.
  apply map_subseteq_spec. intros k v [Hk HP]%map_lookup_filter_Some.
  apply map_lookup_filter_Some. split; [done|]. by apply HPQ.
Qed.

Lemma count_map_ext P Q m :
  (∀ k v, m !! k = Some v → P k v = Q k v) → count_map P m = count_map Q m.
Proof.
  intros HPQ. apply Nat.le_antisymm; apply count_map_mono; intros k v Hk;
    rewrite (HPQ k v Hk); done.
Qed.

Lemma count_map_fmap {W} (P : K → W → bool) (f : V → W) m :
  count_map P (f <$> m) = count_map (λ k v, P k (f v)) m.
Proof.
  unfold count_map. rewrite map_filter_fmap. by rewrite map_size_fmap.
Qed.

Lemma count_map_pos P m k v : m !! k = Some v → P k v = true → 0 < count_map P m.
Proof. intros Hk HP. rewrite (count_map_delete P m k v Hk), HP. simpl. lia. Qed.

Lemma count_map_zero P m :
  count_map P m = 0 ↔ ∀ k v, m !! k = Some v → P k v = false.
Proof.
  split.
  - intros H0 k v Hk. destruct (P k v) eqn:HP; [|done].
    pose proof (count_map_pos P m k v Hk HP). lia.
  - intros HP. unfold count_map. apply map_size_empty_iff. apply map_empty. intros k.
    apply map_lookup_filter_None. right. intros v Hk. simpl. rewrite (HP k v Hk). done.
Qed.

Lemma length_filter_btree `{!OrdKey K} P m :
  length (filter (λ kv, P kv.1 kv.2 = true) (btree_iter m)) = count_map P m.
Proof.
  rewrite btree_iter_perm. unfold count_map.
  induction m as [|k v m Hk IH] using map_ind; [by rewrite map_to_list_empty, map_filter_empty, map_size_empty|].
  rewrite map_to_list_insert by done. rewrite filter_cons, map_filter_insert. simpl.
  case_decide; simpl.
  - rewrite map_size_insert_None; [by rewrite IH|]. apply map_lookup_filter_None. by left.
  - by rewrite IH, delete_id.
Qed.

Lemma count_map_delete_le P m k : count_map P (delete k m) ≤ count_map P m.
Proof.
  destruct (m !! k) as [v|] eqn:Hk.
  - rewrite (count_map_delete P m k v Hk). lia.
  - by rewrite delete_id.
Qed.

(** Maps with the same keys and the same truth values count the same. *)
Lemma count_map_pointwise P Q m m' :
  (∀ k, match m !! k, m' !! k with
        | Some v, Some v' => P k v = Q k v'
        | None, None => True
        | _, _ => False
        end) →
  count_map P m = count_map Q m'.
Proof.
  intros Hk. unfold count_map.
  rewrite <- (size_dom (D:=gset K)), <- (size_dom (D:=gset K) (filter _ m')).
  f_equal. apply set_eq. intros k. rewrite !elem_of_dom. specialize (Hk k).
  split; intros [v [Hv HP]%map_lookup_filter_Some]; rewrite Hv in Hk; simpl in HP.
  - destruct (m' !! k) as [v'|] eqn:Hv'; [|done]. exists v'.
    apply map_lookup_filter_Some. split; [done|]. simpl. congruence.
  - destruct (m !! k) as [v'|] eqn:Hv'; [|done]. exists v'.
    apply map_lookup_filter_Some. split; [done|]. simpl. congruence.
Qed.
End count_map.
