(* ===== verification/AdmissionTypes.v ===== *)
(** Value objects of the inference-admission authority
    (src/quecto-agentic-harness/src/domain/admission/value_objects/): the
    identities, the validated configuration, the request states and reports,
    the fallback cooldown window of a quota group, and the idle watch of a
    broker started on demand. *)

From S2P Require Import Prelude.

(** * Identities *)

(** [GroupId(String)]: a string is its UTF-8 bytes. *)
Definition GroupId : Type := string.

Record ScopeId := mkScopeId { sid_epoch : N; sid_serial : N }.

Record RequestId := mkRequestId { rid_scope : ScopeId; rid_sequence : N }.

#[export] Instance ScopeId_eq_dec : EqDecision ScopeId.
Proof. solve_decision. Defined.

#[export] Instance ScopeId_countable : Countable ScopeId.
Proof.
  refine (inj_countable' (λ s, (sid_epoch s, sid_serial s)) (λ p, mkScopeId p.1 p.2) _).
  by intros [].
Defined.

#[export] Instance RequestId_eq_dec : EqDecision RequestId.
Proof. solve_decision. Defined.

#[export] Instance RequestId_countable : Countable RequestId.
Proof.
  refine (inj_countable' (λ r, (rid_scope r, rid_sequence r)) (λ p, mkRequestId p.1 p.2) _).
  by intros [].
Defined.

(** The derived [Ord]: field by field, in declaration order. *)
Definition ScopeId_le (a b : ScopeId) : Prop :=
  (sid_epoch a < sid_epoch b)%N ∨
  (sid_epoch a = sid_epoch b ∧ (sid_serial a ≤ sid_serial b)%N).

#[export] Instance ScopeId_le_dec : RelDecision ScopeId_le.
Proof. unfold ScopeId_le. solve_decision. Defined.

#[export] Instance ScopeId_ord : OrdKey ScopeId.
Proof.
  refine {| key_le := ScopeId_le |}.
  - split; [split|].
    + intros a. unfold ScopeId_le. lia.
    + intros a b c. unfold ScopeId_le. lia.
    + intros [] []. unfold ScopeId_le. simpl. intros ??. f_equal; lia.
  - intros a b. unfold ScopeId_le. lia.
Defined.

Definition RequestId_le (a b : RequestId) : Prop :=
  key_lt (rid_scope a) (rid_scope b) ∨
  (rid_scope a = rid_scope b ∧ (rid_sequence a ≤ rid_sequence b)%N).

#[export] Instance RequestId_le_dec : RelDecision RequestId_le.
Proof. unfold RequestId_le. solve_decision. Defined.

Lemma ScopeId_lt_spec (a b : ScopeId) :
  key_lt a b ↔ (sid_epoch a < sid_epoch b)%N ∨
               (sid_epoch a = sid_epoch b ∧ (sid_serial a < sid_serial b)%N).
Proof.
  unfold key_lt, key_le. simpl. unfold ScopeId_le. destruct a as [e1 s1], b as [e2 s2]; simpl.
  split.
  - intros [Hle Hne]. assert (e1 ≠ e2 ∨ s1 ≠ s2); [|lia].
    destruct (decide (e1 = e2)), (decide (s1 = s2)); subst; auto.
  - intros Hlt. split; [lia|]. intros [= -> ->]. lia.
Qed.

Lemma RequestId_le_spec e1 s1 n1 e2 s2 n2 :
  RequestId_le (mkRequestId (mkScopeId e1 s1) n1) (mkRequestId (mkScopeId e2 s2) n2) ↔
  (e1 < e2 ∨ (e1 = e2 ∧ (s1 < s2 ∨ (s1 = s2 ∧ n1 ≤ n2))))%N.
Proof.
  unfold RequestId_le. rewrite ScopeId_lt_spec. simpl. split.
  - intros [?|[[= -> ->] ?]]; lia.
  - intros [?|[-> [?|[-> ?]]]]; [lia|lia|]. by right.
Qed.

#[export] Instance RequestId_ord : OrdKey RequestId.
Proof.
  refine {| key_le := RequestId_le |}.
  - split; [split|].
    + intros [[] ?]. rewrite RequestId_le_spec. lia.
    + intros [[] ?] [[] ?] [[] ?]. rewrite !RequestId_le_spec. lia.
    + intros [[] ?] [[] ?]. rewrite !RequestId_le_spec. intros ??.
      repeat f_equal; lia.
  - intros [[] ?] [[] ?]. rewrite !RequestId_le_spec. lia.
Defined.

Inductive WorkloadClass := Interactive | Background.

#[export] Instance WorkloadClass_eq_dec : EqDecision WorkloadClass.
Proof. solve_decision. Defined.

(** * Errors and configuration *)

Inductive AdmissionError :=
| InvalidConfig | UnknownGroup | UnknownScope | StaleEpoch | ScopeLimit
| UnknownRequest | Replay | Conflict | QueueFull | Unavailable
| TimeRegression | Busy | Quarantined.

#[export] Instance AdmissionError_eq_dec : EqDecision AdmissionError.
Proof. solve_decision. Defined.

Definition GroupId_new (value : string) : res AdmissionError GroupId :=
  if (String.length value =? 0) || (256 <? String.length value)
  then Err InvalidConfig
  else Ok value.

Record GroupPolicy := mkGroupPolicy {
  gp_capacity : nat;
  gp_reserve : nat;
  gp_min_interval_ms : N;
  gp_queue_capacity : nat;
  gp_queue_timeout_ms : N;
  gp_attempt_timeout_ms : N;
  gp_fallback_base_ms : N;
  gp_max_cooldown_ms : N;
}.

Record AdmissionConfig := mkAdmissionConfig {
  ac_groups : gmap GroupId GroupPolicy;
  ac_aliases : gmap string GroupId;
  ac_max_scopes : nat;
  ac_terminal_capacity : nat;
}.

(** The condition [AdmissionConfig::validate] refuses. *)
Definition alias_invalid (c : AdmissionConfig) (alias : string) (group : GroupId) : bool :=
  (String.length alias =? 0) || (256 <? String.length alias)
  || negb (bool_decide (is_Some (ac_groups c !! group))).

Definition group_invalid (c : AdmissionConfig) (group : GroupId) (p : GroupPolicy) : bool :=
  (gp_capacity p =? 0)
  || (gp_capacity p <=? gp_reserve p)
  || (gp_min_interval_ms p =? 0)%N
  || (gp_queue_capacity p =? 0)
  || (gp_queue_timeout_ms p =? 0)%N
  || (gp_attempt_timeout_ms p =? 0)%N
  || (gp_fallback_base_ms p =? 0)%N
  || (gp_max_cooldown_ms p <? gp_fallback_base_ms p)%N
  || (gp_max_cooldown_ms p =? 0)%N
  || negb (existsb (λ mapped, bool_decide (mapped = group)) (btree_values (ac_aliases c))).

Definition AdmissionConfig_validate (c : AdmissionConfig) : res AdmissionError unit :=
  if bool_decide (ac_groups c = ∅)
     || bool_decide (ac_aliases c = ∅)
     || (ac_max_scopes c =? 0)
     || (ac_terminal_capacity c =? 0)
     || existsb (λ ag, alias_invalid c ag.1 ag.2) (btree_iter (ac_aliases c))
     || existsb (λ gp, group_invalid c gp.1 gp.2) (btree_iter (ac_groups c))
  then Err InvalidConfig
  else Ok tt.

(** * Requests, feedback and reports *)

Inductive TerminalOutcome := Finished | Cancelled | TimedOut.

#[export] Instance TerminalOutcome_eq_dec : EqDecision TerminalOutcome.
Proof. solve_decision. Defined.

Inductive RequestState :=
| Queued (deadline : N)
| Active (started deadline : N) (cancellation_required : bool)
| Terminal (outcome : TerminalOutcome).

#[export] Instance RequestState_eq_dec : EqDecision RequestState.
Proof. solve_decision. Defined.

Definition is_queued (s : RequestState) : bool := match s with Queued _ => true | _ => false end.
Definition is_active (s : RequestState) : bool := match s with Active _ _ _ => true | _ => false end.
Definition is_terminal (s : RequestState) : bool := match s with Terminal _ => true | _ => false end.

Inductive ThrottleFeedback :=
| NoHint (jitter : N)
| Until (deadline : N)
| AdviceUnavailable.

#[export] Instance ThrottleFeedback_eq_dec : EqDecision ThrottleFeedback.
Proof. solve_decision. Defined.

Inductive Feedback :=
| Success
| Failure
| Throttle (delay_ms : N).

#[export] Instance Feedback_eq_dec : EqDecision Feedback.
Proof. solve_decision. Defined.

Record GroupSnapshot := mkGroupSnapshot {
  gs_active : nat;
  gs_queued : nat;
  gs_uncertain : nat;
  gs_cooldown_until : N;
  gs_unavailable : bool;
  gs_observed_at : N;
}.

Record AbandonReport := mkAbandonReport {
  ab_cancelled : nat;
  ab_uncertain : nat;
  ab_active : nat;
}.

Definition UNCERTAIN_LEASE_MARGIN_MS : N := 60000%N.

Record OutstandingAttempt := mkOutstandingAttempt {
  oa_group : GroupId;
  oa_scope : N;
  oa_sequence : N;
  oa_release_remaining_ms : option N;
}.

Record UncertainHold := mkUncertainHold {
  uh_group : GroupId;
  uh_leases : nat;
  uh_clears_in_ms : N;
}.

Record LedgerGroup := mkLedgerGroup {
  lg_cooldown_remaining_ms : N;
  lg_pacing_remaining_ms : N;
  lg_unavailable : bool;
}.

Record AdmissionLedger := mkAdmissionLedger {
  al_epoch : N;
  al_outstanding : list OutstandingAttempt;
  al_groups : gmap GroupId LedgerGroup;
}.

(** * The fallback cooldown window (inference_cooldown.rs) *)

Record FallbackCooldown := mkFallback {
  fc_base : N;
  fc_maximum : N;
  fc_next_upper : N;
}.

Definition FallbackCooldown_new (base maximum : N) : res AdmissionError FallbackCooldown :=
  if (base =? 0)%N || (maximum <? base)%N
  then Err InvalidConfig
  else Ok (mkFallback base maximum base).

(** [throttle]: [None] is the arithmetic panic of [upper - self.base] or of
    the final addition; [as u64] keeps the low 64 bits. *)
Definition throttle (f : FallbackCooldown) (jitter : N) : option (FallbackCooldown * N) :=
  let upper := fc_next_upper f in
  let next := N.min (u64_saturating_mul upper 2) (fc_maximum f) in
  match u64_sub upper (fc_base f) with
  | None => None
  | Some gap =>
      let width := (gap + 1)%N in
      let offset := N.shiftr (jitter * width) 64 in
      match u64_add (fc_base f) (N.land offset u64_max) with
      | None => None
      | Some delay => Some (mkFallback (fc_base f) (fc_maximum f) next, delay)
      end
  end.

Definition fallback_success (f : FallbackCooldown) : FallbackCooldown :=
  mkFallback (fc_base f) (fc_maximum f) (fc_base f).

(** * The idle watch of an on-demand broker (authority_idle.rs) *)

Definition AUTHORITY_IDLE_STOP_MS : N := (60 * 60 * 1000)%N.

Inductive IdleVerdict := Holding | IdleUntil (instant : N) | Stop.

Record IdleWatch := mkIdleWatch { iw_period_ms : N; iw_idle_since : option N }.

Definition IdleWatch_new (period_ms : N) : option IdleWatch :=
  if (period_ms =? 0)%N then None else Some (mkIdleWatch period_ms None).

(** [observe]: [None] is the failed [debug_assert!] on the deadline. *)
Definition IdleWatch_observe (w : IdleWatch) (holds_anything : bool) (now : N)
    : option (IdleWatch * IdleVerdict) :=
  if holds_anything then Some (mkIdleWatch (iw_period_ms w) None, Holding)
  else
    let since := default now (iw_idle_since w) in
    let w' := mkIdleWatch (iw_period_ms w) (Some since) in
    let deadline := u64_saturating_add since (iw_period_ms w) in
    if (since <? deadline)%N || (since =? u64_max)%N then
      if (deadline <=? now)%N then Some (w', Stop) else Some (w', IdleUntil deadline)
    else None.

Inductive AuthorityLifetime := AlwaysOn | StopWhenIdle (watch : IdleWatch).

Definition AuthorityLifetime_observe (l : AuthorityLifetime) (holds_anything : bool) (now : N)
    : option (AuthorityLifetime * IdleVerdict) :=
  match l with
  | AlwaysOn => Some (AlwaysOn, Holding)
  | StopWhenIdle watch =>
      match IdleWatch_observe watch holds_anything now with
      | None => None
      | Some (w, v) => Some (StopWhenIdle w, v)
      end
  end.
