(* ===== verification/AdmissionPolicy.v ===== *)
(** The admission authority's state machine: the queue, pacing and capacity
    transitions of [AdmissionPolicy]
    (src/quecto-agentic-harness/src/domain/admission/services/
    inference_admission_policy.rs and inference_admission_recovery.rs).

    Each method is one definition in the state-and-error monad of the prelude:
    an early [Err] keeps the changes made so far, and every [expect], map
    index, checked operator and [debug_assert!] is a [Panic]. *)

From S2P Require Import Prelude AdmissionTypes.

(** * State *)

Record Scope := mkScope {
  sc_root : ScopeId;
  sc_class : WorkloadClass;
  sc_high_water : N;
  sc_retired : bool;
}.

Record Request := mkRequest {
  rq_group : GroupId;
  rq_state : RequestState;
  rq_feedback : option Feedback;
  rq_last_report : option (N * ThrottleFeedback);
  rq_lease_cleared : bool;
  rq_held : option (nat * N);
}.

Record Orphan := mkOrphan { or_attempt : OutstandingAttempt; or_release_at : N }.

(** [last_root] is the array indexed by class (0 interactive, 1 background). *)
Record Group := mkGroup {
  g_fallback : FallbackCooldown;
  g_next_start : N;
  g_cooldown : N;
  g_unavailable : bool;
  g_interactive_streak : N;
  g_contested_pacing_streak : N;
  g_last_root : option ScopeId * option ScopeId;
  g_last_agent : gmap (N * ScopeId) ScopeId;
  g_uncertain : gmap RequestId N;
  g_orphans : list Orphan;
}.

Record AdmissionPolicy := mkPolicy {
  p_config : AdmissionConfig;
  p_epoch : N;
  p_now : N;
  p_next_serial : N;
  p_scopes : gmap ScopeId Scope;
  p_requests : gmap RequestId Request;
  p_terminals : list RequestId;
  p_groups : gmap GroupId Group;
}.

(** Field updates. *)
Definition set_state (st : RequestState) (r : Request) : Request :=
  mkRequest (rq_group r) st (rq_feedback r) (rq_last_report r) (rq_lease_cleared r) (rq_held r).
Definition set_terminal (o : TerminalOutcome) (fb : option Feedback) (r : Request) : Request :=
  mkRequest (rq_group r) (Terminal o) fb (rq_last_report r) (rq_lease_cleared r) (rq_held r).
Definition set_last_report (x : option (N * ThrottleFeedback)) (r : Request) : Request :=
  mkRequest (rq_group r) (rq_state r) (rq_feedback r) x (rq_lease_cleared r) (rq_held r).
Definition set_lease_cleared (r : Request) : Request :=
  mkRequest (rq_group r) (rq_state r) (rq_feedback r) (rq_last_report r) true (rq_held r).
Definition set_held (h : option (nat * N)) (r : Request) : Request :=
  mkRequest (rq_group r) (rq_state r) (rq_feedback r) (rq_last_report r) (rq_lease_cleared r) h.

Definition set_fallback (f : FallbackCooldown) (g : Group) : Group :=
  mkGroup f (g_next_start g) (g_cooldown g) (g_unavailable g) (g_interactive_streak g)
    (g_contested_pacing_streak g) (g_last_root g) (g_last_agent g) (g_uncertain g) (g_orphans g).
Definition set_next_start (x : N) (g : Group) : Group :=
  mkGroup (g_fallback g) x (g_cooldown g) (g_unavailable g) (g_interactive_streak g)
    (g_contested_pacing_streak g) (g_last_root g) (g_last_agent g) (g_uncertain g) (g_orphans g).
Definition set_cooldown (x : N) (g : Group) : Group :=
  mkGroup (g_fallback g) (g_next_start g) x (g_unavailable g) (g_interactive_streak g)
    (g_contested_pacing_streak g) (g_last_root g) (g_last_agent g) (g_uncertain g) (g_orphans g).
Definition set_unavailable (b : bool) (g : Group) : Group :=
  mkGroup (g_fallback g) (g_next_start g) (g_cooldown g) b (g_interactive_streak g)
    (g_contested_pacing_streak g) (g_last_root g) (g_last_agent g) (g_uncertain g) (g_orphans g).
Definition set_streaks (i c : N) (g : Group) : Group :=
  mkGroup (g_fallback g) (g_next_start g) (g_cooldown g) (g_unavailable g) i c
    (g_last_root g) (g_last_agent g) (g_uncertain g) (g_orphans g).
Definition set_last (lr : option ScopeId * option ScopeId) (la : gmap (N * ScopeId) ScopeId)
    (g : Group) : Group :=
  mkGroup (g_fallback g) (g_next_start g) (g_cooldown g) (g_unavailable g)
    (g_interactive_streak g) (g_contested_pacing_streak g) lr la (g_uncertain g) (g_orphans g).
Definition set_uncertain (u : gmap RequestId N) (g : Group) : Group :=
  mkGroup (g_fallback g) (g_next_start g) (g_cooldown g) (g_unavailable g)
    (g_interactive_streak g) (g_contested_pacing_streak g) (g_last_root g) (g_last_agent g) u
    (g_orphans g).
Definition set_orphans (o : list Orphan) (g : Group) : Group :=
  mkGroup (g_fallback g) (g_next_start g) (g_cooldown g) (g_unavailable g)
    (g_interactive_streak g) (g_contested_pacing_streak g) (g_last_root g) (g_last_agent g)
    (g_uncertain g) o.

Definition set_now (x : N) (p : AdmissionPolicy) : AdmissionPolicy :=
  mkPolicy (p_config p) (p_epoch p) x (p_next_serial p) (p_scopes p) (p_requests p)
    (p_terminals p) (p_groups p).
Definition set_next_serial (x : N) (p : AdmissionPolicy) : AdmissionPolicy :=
  mkPolicy (p_config p) (p_epoch p) (p_now p) x (p_scopes p) (p_requests p)
    (p_terminals p) (p_groups p).
Definition set_scopes (x : gmap ScopeId Scope) (p : AdmissionPolicy) : AdmissionPolicy :=
  mkPolicy (p_config p) (p_epoch p) (p_now p) (p_next_serial p) x (p_requests p)
    (p_terminals p) (p_groups p).
Definition set_requests (x : gmap RequestId Request) (p : AdmissionPolicy) : AdmissionPolicy :=
  mkPolicy (p_config p) (p_epoch p) (p_now p) (p_next_serial p) (p_scopes p) x
    (p_terminals p) (p_groups p).
Definition set_terminals (x : list RequestId) (p : AdmissionPolicy) : AdmissionPolicy :=
  mkPolicy (p_config p) (p_epoch p) (p_now p) (p_next_serial p) (p_scopes p) (p_requests p)
    x (p_groups p).
Definition set_groups (x : gmap GroupId Group) (p : AdmissionPolicy) : AdmissionPolicy :=
  mkPolicy (p_config p) (p_epoch p) (p_now p) (p_next_serial p) (p_scopes p) (p_requests p)
    (p_terminals p) x.

Definition PM (A : Type) : Type := M AdmissionPolicy AdmissionError A.

(** [self.requests.get_mut(&id).expect(..)], then an assignment to a field. *)
Definition update_request (id : RequestId) (f : Request → Request) : PM unit :=
  rs <- gets p_requests ;;
  r <- expect (rs !! id) ;;
  modify (set_requests (<[id := f r]> rs)).

Definition update_group (id : GroupId) (f : Group → Group) : PM unit :=
  gs <- gets p_groups ;;
  g <- expect (gs !! id) ;;
  modify (set_groups (<[id := f g]> gs)).

Definition update_scope (id : ScopeId) (f : Scope → Scope) : PM unit :=
  ss <- gets p_scopes ;;
  s <- expect (ss !! id) ;;
  modify (set_scopes (<[id := f s]> ss)).

(** * Construction and scopes *)

Definition initial_group (policy : GroupPolicy) : res AdmissionError Group :=
  match FallbackCooldown_new (gp_fallback_base_ms policy) (gp_max_cooldown_ms policy) with
  | Ok fallback =>
      Ok (mkGroup fallback 0 0 false 0 0 (None, None) ∅ ∅ [])
  | Err e => Err e
  | Panic => Panic
  end.

(** [collect::<Result<_, _>>()]: the first error in key order, or the map. *)
Fixpoint collect_groups (l : list (GroupId * GroupPolicy)) : res AdmissionError (gmap GroupId Group) :=
  match l with
  | [] => Ok ∅
  | (id, policy) :: l' =>
      match initial_group policy with
      | Ok g => match collect_groups l' with Ok gs => Ok (<[id := g]> gs) | other => other end
      | Err e => Err e
      | Panic => Panic
      end
  end.

Definition AdmissionPolicy_new (epoch : N) (config : AdmissionConfig)
    : res AdmissionError AdmissionPolicy :=
  match AdmissionConfig_validate config with
  | Ok _ =>
      match collect_groups (btree_iter (ac_groups config)) with
      | Ok groups => Ok (mkPolicy config epoch 0 0 ∅ ∅ [] groups)
      | Err e => Err e
      | Panic => Panic
      end
  | Err e => Err e
  | Panic => Panic
  end.

Definition register (root : option ScopeId) (class : WorkloadClass) : PM ScopeId :=
  live <- gets (λ p, count_map (λ _ sc, negb (sc_retired sc)) (p_scopes p)) ;;
  max <- gets (λ p, ac_max_scopes (p_config p)) ;;
  if max <=? live then throw ScopeLimit
  else
    next <- gets p_next_serial ;;
    serial <- ok_or (u64_checked_add next 1) ScopeLimit ;;
    modify (set_next_serial serial) ;;
    epoch <- gets p_epoch ;;
    let id := mkScopeId epoch serial in
    modify (λ p, set_scopes (<[id := mkScope (default id root) class 0 false]> (p_scopes p)) p) ;;
    ret id.

Definition scope (id : ScopeId) (p : AdmissionPolicy) : res AdmissionError Scope :=
  if negb (sid_epoch id =? p_epoch p)%N then Err StaleEpoch
  else match p_scopes p !! id with
       | Some sc => if sc_retired sc then Err UnknownScope else Ok sc
       | None => Err UnknownScope
       end.

Definition register_root (class : WorkloadClass) : PM ScopeId := register None class.

Definition register_child (parent : ScopeId) : PM ScopeId :=
  sc <- reads (scope parent) ;;
  register (Some (sc_root sc)) Background.

(** * Terminal transitions and time *)

(** [while terminals.len() > capacity { pop_front; requests.remove }]. *)
Fixpoint evict (capacity : nat) (ts : list RequestId) (rs : gmap RequestId Request)
    : list RequestId * gmap RequestId Request :=
  if length ts <=? capacity then (ts, rs)
  else match ts with
       | [] => (ts, rs)
       | old :: ts' => evict capacity ts' (delete old rs)
       end.

Definition terminal (id : RequestId) (outcome : TerminalOutcome) (feedback : option Feedback)
    : PM unit :=
  rs <- gets p_requests ;;
  r <- expect (rs !! id) ;;
  modify (set_requests (<[id := set_terminal outcome feedback r]> rs)) ;;
  update_group (rq_group r) (λ g, set_uncertain (delete id (g_uncertain g)) g) ;;
  modify (λ p, set_terminals (p_terminals p ++ [id]) p) ;;
  modify (λ p,
    let tr := evict (ac_terminal_capacity (p_config p)) (p_terminals p) (p_requests p) in
    set_terminals tr.1 (set_requests tr.2 p)).

Definition retire (sid : ScopeId) : PM unit :=
  _ <- reads (scope sid) ;;
  rs <- gets p_requests ;;
  if existsb (λ ir, bool_decide (rid_scope ir.1 = sid) && is_active (rq_state ir.2)) (btree_iter rs)
  then throw Busy
  else
    let queued :=
      (filter (λ ir, bool_decide (rid_scope ir.1 = sid) && is_queued (rq_state ir.2) = true)
        (btree_iter rs)).*1 in
    for_each queued (λ id, terminal id Cancelled None) ;;
    update_scope sid (λ s, mkScope (sc_root s) (sc_class s) (sc_high_water s) true).

Definition lease_release (deadline since : N) : N :=
  u64_saturating_add (N.max deadline since) UNCERTAIN_LEASE_MARGIN_MS.

(** Is the uncertain lease past its bound?  An uncertain entry without an
    active request is the [debug_assert!(false)] branch. *)
Definition lease_elapsed (now : N) (entry : RequestId * N) : PM bool :=
  rs <- gets p_requests ;;
  match rq_state <$> rs !! entry.1 with
  | Some (Active _ deadline _) => ret (lease_release deadline entry.2 <=? now)%N
  | _ => debug_assert false ;; ret false
  end.

Definition clear_elapsed_leases (now : N) : PM unit :=
  gs <- gets p_groups ;;
  cleared <- filter_m (lease_elapsed now)
               (btree_values gs ≫= λ g, btree_iter (g_uncertain g)) ;;
  for_each cleared.*1 (λ id,
    terminal id Cancelled None ;;
    update_request id set_lease_cleared) ;;
  modify (λ p,
    set_groups ((λ g, set_orphans (filter (λ o, (now < or_release_at o)%N) (g_orphans g)) g)
                  <$> p_groups p) p).

Definition hold_of (id : GroupId) : PM (option (nat * N)) :=
  gs <- gets p_groups ;;
  held <- expect (gs !! id) ;;
  rs <- gets p_requests ;;
  let uncertain :=
    omap (λ entry : RequestId * N,
      match rq_state <$> rs !! entry.1 with
      | Some (Active _ deadline _) => Some (lease_release deadline entry.2)
      | _ => None
      end) (btree_iter (g_uncertain held)) in
  let orphans := or_release_at <$> g_orphans held in
  ret (match iter_max (uncertain ++ orphans) with
       | None => None
       | Some clears_at => Some (size (g_uncertain held) + length (g_orphans held), clears_at)
       end).

Definition require_cancellation (now : N) (r : Request) : Request :=
  match rq_state r with
  | Active started deadline c =>
      if (deadline <=? now)%N then set_state (Active started deadline true) r else r
  | _ => r
  end.

Definition queue_expired (now : N) (s : RequestState) : bool :=
  match s with Queued deadline => (deadline <=? now)%N | _ => false end.

Definition tick (now : N) : PM unit :=
  last <- gets p_now ;;
  if (now <? last)%N then throw TimeRegression
  else
    modify (set_now now) ;;
    clear_elapsed_leases now ;;
    rs <- gets p_requests ;;
    let expired := (filter (λ ir, queue_expired now (rq_state ir.2) = true) (btree_iter rs)).*1 in
    for_each expired (λ id,
      rs <- gets p_requests ;;
      r <- expect (rs !! id) ;;
      held <- hold_of (rq_group r) ;;
      terminal id TimedOut None ;;
      update_request id (set_held held)) ;;
    modify (λ p, set_requests (require_cancellation now <$> p_requests p) p).

(** * Client operations *)

Definition enqueue (sid : ScopeId) (sequence : N) (alias : string) (now : N) : PM RequestState :=
  _ <- reads (scope sid) ;;
  tick now ;;
  config <- gets p_config ;;
  group <- ok_or (ac_aliases config !! alias) UnknownGroup ;;
  let id := mkRequestId sid sequence in
  rs <- gets p_requests ;;
  match rs !! id with
  | Some request =>
      if bool_decide (rq_group request = group) then ret (rq_state request) else throw Conflict
  | None =>
      sc <- reads (scope sid) ;;
      if (sequence <=? sc_high_water sc)%N then throw Replay
      else
        gs <- gets p_groups ;;
        g <- expect (gs !! group) ;;
        if g_unavailable g then throw Unavailable
        else
          let queued := count_map (λ _ r, bool_decide (rq_group r = group) && is_queued (rq_state r)) rs in
          policy <- expect (ac_groups config !! group) ;;
          if gp_queue_capacity policy <=? queued then throw QueueFull
          else
            match u64_checked_add now (gp_queue_timeout_ms policy) with
            | None =>
                update_group group (set_unavailable true) ;;
                throw Unavailable
            | Some deadline =>
                let state := Queued deadline in
                modify (λ p, set_requests
                  (<[id := mkRequest group state None None false None]> (p_requests p)) p) ;;
                update_scope sid (λ s, mkScope (sc_root s) (sc_class s) sequence (sc_retired s)) ;;
                ret state
            end
  end.

Definition request (sid : ScopeId) (sequence : N) (p : AdmissionPolicy) : res AdmissionError Request :=
  match scope sid p with
  | Ok identity =>
      match p_requests p !! mkRequestId sid sequence with
      | Some r => Ok r
      | None => Err (if (sequence <=? sc_high_water identity)%N then Replay else UnknownRequest)
      end
  | Err e => Err e
  | Panic => Panic
  end.

Definition status (sid : ScopeId) (sequence now : N) : PM RequestState :=
  _ <- reads (scope sid) ;;
  tick now ;;
  r <- reads (request sid sequence) ;;
  ret (rq_state r).

Definition cancel (sid : ScopeId) (sequence now : N) : PM RequestState :=
  _ <- reads (scope sid) ;;
  tick now ;;
  let id := mkRequestId sid sequence in
  r <- reads (request sid sequence) ;;
  (match rq_state r with
   | Queued _ => terminal id Cancelled None
   | Active started deadline _ =>
       update_request id (λ r, match rq_state r with
                               | Active st d _ => set_state (Active st d true) r
                               | _ => r
                               end)
   | Terminal _ => ret tt
   end) ;;
  rs <- gets p_requests ;;
  r' <- expect (rs !! id) ;;
  ret (rq_state r').

(** The group's new cooldown or unavailability after throttle advice; [None]
    is the panic of [self.config.groups[&group_id]], read only for a deadline. *)
Definition apply_advice (policy : option GroupPolicy) (now : N) (feedback : ThrottleFeedback)
    (fallback_delay : N) (g : Group) : option Group :=
  match feedback with
  | NoHint _ =>
      Some (match u64_checked_add now fallback_delay with
            | Some deadline => set_cooldown (N.max (g_cooldown g) deadline) g
            | None => set_unavailable true g
            end)
  | Until deadline =>
      match policy with
      | None => None
      | Some policy =>
          Some (if (u64_saturating_sub deadline now <=? gp_max_cooldown_ms policy)%N
                then set_cooldown (N.max (g_cooldown g) deadline) g
                else set_unavailable true g)
      end
  | AdviceUnavailable => Some (set_unavailable true g)
  end.

Definition report_feedback (sid : ScopeId) (sequence report : N) (feedback : ThrottleFeedback)
    (now : N) : PM unit :=
  _ <- reads (scope sid) ;;
  tick now ;;
  r <- reads (request sid sequence) ;;
  let accept :=
    if is_active (rq_state r) then
      let group_id := rq_group r in
      gs <- gets p_groups ;;
      g <- expect (gs !! group_id) ;;
      let jitter := match feedback with NoHint j => j | _ => 0%N end in
      fd <- expect (throttle (g_fallback g) jitter) ;;
      config <- gets p_config ;;
      g' <- expect (apply_advice (ac_groups config !! group_id) now feedback fd.2
                     (set_fallback fd.1 g)) ;;
      modify (set_groups (<[group_id := g']> gs)) ;;
      update_request (mkRequestId sid sequence) (set_last_report (Some (report, feedback)))
    else throw Conflict in
  match rq_last_report r with
  | Some (last, fingerprint) =>
      if (report <? last)%N then throw Replay
      else if (report =? last)%N then
        if bool_decide (feedback = fingerprint) then ret tt else throw Conflict
      else accept
  | None => accept
  end.

(** The group update of a confirmed completion; [None] is an arithmetic panic
    or the panic of [self.config.groups[&group_id]]. *)
Definition complete_group (policy : option GroupPolicy) (now : N) (feedback : Feedback)
    (receipt_reported : bool) (g : Group) : option Group :=
  match feedback with
  | Success => Some (set_fallback (fallback_success (g_fallback g)) g)
  | Failure => Some g
  | Throttle delay_ms =>
      g1 ← (if receipt_reported then Some g
            else fd ← throttle (g_fallback g) 0; Some (set_fallback fd.1 g));
      match u64_checked_add now delay_ms with
      | Some deadline =>
          policy ← policy;
          Some (if (delay_ms <=? gp_max_cooldown_ms policy)%N
                then set_cooldown (N.max (g_cooldown g1) deadline) g1
                else set_unavailable true g1)
      | None => Some (set_unavailable true g1)
      end
  end.

Definition complete (sid : ScopeId) (sequence : N) (feedback : Feedback) (now : N)
    : PM RequestState :=
  _ <- reads (scope sid) ;;
  tick now ;;
  let id := mkRequestId sid sequence in
  r <- reads (request sid sequence) ;;
  match rq_state r with
  | Terminal _ =>
      if rq_lease_cleared r then ret (rq_state r)
      else if bool_decide (rq_feedback r = Some feedback) then ret (rq_state r)
      else throw Conflict
  | Queued _ => throw Conflict
  | Active _ _ _ =>
      let group_id := rq_group r in
      let receipt_reported := bool_decide (is_Some (rq_last_report r)) in
      gs <- gets p_groups ;;
      g <- expect (gs !! group_id) ;;
      config <- gets p_config ;;
      g' <- expect (complete_group (ac_groups config !! group_id) now feedback receipt_reported g) ;;
      modify (set_groups (<[group_id := g']> gs)) ;;
      terminal id Finished (Some feedback) ;;
      ret (Terminal Finished)
  end.

(** * Dispatch *)

Definition in_group (id : GroupId) (r : Request) : bool := bool_decide (rq_group r = id).

Definition snapshot (id : GroupId) (now : N) : PM GroupSnapshot :=
  tick now ;;
  gs <- gets p_groups ;;
  g <- ok_or (gs !! id) UnknownGroup ;;
  rs <- gets p_requests ;;
  let queued := count_map (λ _ r, in_group id r && is_queued (rq_state r)) rs in
  let active := count_map (λ _ r, in_group id r && is_active (rq_state r)) rs in
  ret (mkGroupSnapshot (length (g_orphans g) + active) queued
         (size (g_uncertain g) + length (g_orphans g)) (g_cooldown g) (g_unavailable g) now).

(** [entries.keys().find(|id| **id > previous)], else the first key. *)
Definition round_robin (keys : list ScopeId) (after : option ScopeId) : option ScopeId :=
  match after ≫= λ previous, List.find (λ id, bool_decide (key_lt previous id)) keys with
  | Some id => Some id
  | None => head keys
  end.

Abbreviation Heads := (gmap ScopeId (gmap ScopeId RequestId)).

(** [heads.entry(root).or_default().entry(scope).or_insert(id)]. *)
Definition add_head (heads : Heads) (root agent : ScopeId) (id : RequestId) : Heads :=
  let agents := default ∅ (heads !! root) in
  <[root := match agents !! agent with
            | Some _ => agents
            | None => <[agent := id]> agents
            end]> heads.

Definition class_index (c : WorkloadClass) : N :=
  match c with Interactive => 0%N | Background => 1%N end.

Definition last_root_of (c : WorkloadClass) (g : Group) : option ScopeId :=
  match c with Interactive => (g_last_root g).1 | Background => (g_last_root g).2 end.

Definition set_last_root (c : WorkloadClass) (root : ScopeId) (lr : option ScopeId * option ScopeId)
    : option ScopeId * option ScopeId :=
  match c with Interactive => (Some root, lr.2) | Background => (lr.1, Some root) end.

Definition candidate (id : GroupId) (class : WorkloadClass) : PM (option RequestId) :=
  rs <- gets p_requests ;;
  ss <- gets p_scopes ;;
  heads <- fold_m (λ heads ir,
      sc <- expect (ss !! rid_scope ir.1) ;;
      ret (if in_group id ir.2 && bool_decide (sc_class sc = class) && is_queued (rq_state ir.2)
           then add_head heads (sc_root sc) (rid_scope ir.1) ir.1
           else heads)) (∅ : Heads) (btree_iter rs) ;;
  gs <- gets p_groups ;;
  g <- expect (gs !! id) ;;
  match round_robin (btree_keys heads) (last_root_of class g) with
  | None => ret None
  | Some root =>
      agents <- expect (heads !! root) ;;
      match round_robin (btree_keys agents) (g_last_agent g !! (class_index class, root)) with
      | None => ret None
      | Some agent =>
          r <- expect (agents !! agent) ;;
          ret (Some r)
      end
  end.

(** [iter().filter(..).count()] of the background attempts of a group. *)
Definition background_in_flight (id : GroupId) : PM nat :=
  rs <- gets p_requests ;;
  ss <- gets p_scopes ;;
  l <- filter_m (λ ir : RequestId * Request,
      if in_group id ir.2 && is_active (rq_state ir.2) then
        sc <- expect (ss !! rid_scope ir.1) ;;
        ret (bool_decide (sc_class sc = Background))
      else ret false) (btree_iter rs) ;;
  ret (length l).

(** The bookkeeping of a grant: pacing, round-robin cursors and streaks. *)
Definition charge_grant (policy : GroupPolicy) (sc : Scope) (agent : ScopeId) (next_start : N)
    (contested : bool) (interactive_active : nat) (g : Group) : Group :=
  let class := sc_class sc in
  let interactive := bool_decide (class = Interactive) in
  let pacing :=
    if contested then
      if interactive then N.min (g_contested_pacing_streak g + 1) 3 else 0%N
    else g_contested_pacing_streak g in
  let uses_shared := negb interactive || (gp_reserve policy <=? interactive_active) in
  set_streaks
    (if uses_shared then
       if interactive then N.min (g_interactive_streak g + 1) 3 else 0%N
     else g_interactive_streak g)
    (if uses_shared then 0%N else pacing)
    (set_last (set_last_root class (sc_root sc) (g_last_root g))
       (<[(class_index class, sc_root sc) := agent]> (g_last_agent g))
       (set_next_start next_start g)).

Definition next (id : GroupId) (now : N) : PM (option RequestId) :=
  snap <- snapshot id now ;;
  config <- gets p_config ;;
  policy <- expect (ac_groups config !! id) ;;
  gs <- gets p_groups ;;
  g <- expect (gs !! id) ;;
  if g_unavailable g then throw Unavailable
  else if 0 <? gs_uncertain snap then throw Quarantined
  else if (gp_capacity policy <=? gs_active snap)
          || (now <? g_next_start g)%N || (now <? g_cooldown g)%N
  then ret None
  else
    background_active <- background_in_flight id ;;
    interactive_active <- expect (usize_sub (gs_active snap) background_active) ;;
    shareable <- expect (usize_sub (gp_capacity policy) (gp_reserve policy)) ;;
    let shared_active := background_active + (interactive_active - gp_reserve policy) in
    let shared := shared_active <? shareable in
    interactive <- candidate id Interactive ;;
    background <- (if shared && (background_active <? shareable)
                   then candidate id Background else ret None) ;;
    let selected :=
      match interactive, background with
      | Some i, Some b =>
          Some (if (3 <=? g_interactive_streak g)%N || (3 <=? g_contested_pacing_streak g)%N
                then b else i)
      | Some i, None => Some i
      | None, b => b
      end in
    match selected with
    | None => ret None
    | Some rid =>
        match u64_checked_add now (gp_min_interval_ms policy),
              u64_checked_add now (gp_attempt_timeout_ms policy) with
        | Some next_start, Some deadline =>
            ss <- gets p_scopes ;;
            sc <- expect (ss !! rid_scope rid) ;;
            update_group id (charge_grant policy sc (rid_scope rid) next_start
              (bool_decide (is_Some background)) interactive_active) ;;
            update_request rid (set_state (Active now deadline false)) ;;
            ret (Some rid)
        | _, _ =>
            update_group id (set_unavailable true) ;;
            throw Unavailable
        end
    end.

(** * Uncertainty, durability and epochs (inference_admission_recovery.rs) *)

Definition held (sid : ScopeId) (sequence now : N) : PM (option UncertainHold) :=
  _ <- reads (scope sid) ;;
  tick now ;;
  r <- reads (request sid sequence) ;;
  ret (match rq_held r with
       | None => None
       | Some (leases, clears_at) =>
           Some (mkUncertainHold (rq_group r) leases (u64_saturating_sub clears_at now))
       end).

Definition high_water (sid : ScopeId) (p : AdmissionPolicy) : res AdmissionError N :=
  match scope sid p with
  | Ok sc => Ok (sc_high_water sc)
  | Err e => Err e
  | Panic => Panic
  end.

(** One owned request of an abandoned scope. *)
Definition abandon_one (now : N) (report : AbandonReport) (x : RequestId * Request)
    : PM AbandonReport :=
  match rq_state x.2 with
  | Queued _ =>
      terminal x.1 Cancelled None ;;
      ret (mkAbandonReport (S (ab_cancelled report)) (ab_uncertain report) (ab_active report))
  | Active _ _ _ =>
      gs <- gets p_groups ;;
      g <- expect (gs !! rq_group x.2) ;;
      match g_uncertain g !! x.1 with
      | Some _ =>
          ret (mkAbandonReport (ab_cancelled report) (ab_uncertain report) (S (ab_active report)))
      | None =>
          modify (set_groups
            (<[rq_group x.2 := set_uncertain (<[x.1 := now]> (g_uncertain g)) g]> gs)) ;;
          ret (mkAbandonReport (ab_cancelled report) (S (ab_uncertain report)) (S (ab_active report)))
      end
  | Terminal _ => ret report
  end.

Definition abandon (sid : ScopeId) (now : N) : PM AbandonReport :=
  _ <- reads (scope sid) ;;
  tick now ;;
  rs <- gets p_requests ;;
  let owned := filter (λ ir : RequestId * Request, rid_scope ir.1 = sid) (btree_iter rs) in
  fold_m (abandon_one now) (mkAbandonReport 0 0 0) owned.

Definition withdraw (sid : ScopeId) (sequence now : N) : PM unit :=
  _ <- reads (scope sid) ;;
  tick now ;;
  let id := mkRequestId sid sequence in
  r <- reads (request sid sequence) ;;
  if is_active (rq_state r) then terminal id Cancelled None else throw Conflict.

(** The instants one request of a group contributes to the next wake. *)
Definition request_instants (g : Group) (id : RequestId) (r : Request) : list N :=
  match rq_state r with
  | Queued deadline => [deadline]
  | Active _ deadline cancellation_required =>
      match g_uncertain g !! id with
      | Some since => [lease_release deadline since]
      | None => if cancellation_required then [] else [deadline]
      end
  | Terminal _ => []
  end.

(** The instants one group contributes, in the order they are considered. *)
Definition group_instants (policy : GroupPolicy) (id : GroupId) (g : Group)
    (rs : gmap RequestId Request) : list N :=
  let mine := filter (λ ir : RequestId * Request, rq_group ir.2 = id) (btree_iter rs) in
  let queued := length (filter (λ ir : RequestId * Request, is_queued (rq_state ir.2) = true) mine) in
  let active := length (g_orphans g)
                + length (filter (λ ir : RequestId * Request, is_active (rq_state ir.2) = true) mine) in
  let blocked :=
    g_unavailable g || negb (bool_decide (g_uncertain g = ∅))
    || negb (bool_decide (g_orphans g = [])) || (gp_capacity policy <=? active) in
  (or_release_at <$> g_orphans g)
  ++ (mine ≫= λ ir, request_instants g ir.1 ir.2)
  ++ (if (0 <? queued) && negb blocked then [N.max (g_next_start g) (g_cooldown g)] else []).

(** The closure [consider]. *)
Definition consider (now : N) (wake : option N) (instant : N) : option N :=
  if (now <? instant)%N
  then Some (match wake with None => instant | Some w => N.min w instant end)
  else wake.

Definition next_wake (now : N) : PM (option N) :=
  tick now ;;
  gs <- gets p_groups ;;
  config <- gets p_config ;;
  rs <- gets p_requests ;;
  fold_m (λ wake ig,
    policy <- expect (ac_groups config !! ig.1) ;;
    ret (foldl (consider now) wake (group_instants policy ig.1 ig.2 rs))) None (btree_iter gs).

(** The ledger row of an active request. *)
Definition outstanding_of (now : N) (gs : gmap GroupId Group) (ir : RequestId * Request)
    : PM (list OutstandingAttempt) :=
  match rq_state ir.2 with
  | Active _ deadline _ =>
      g <- expect (gs !! rq_group ir.2) ;;
      let release := lease_release deadline (default now (g_uncertain g !! ir.1)) in
      ret [mkOutstandingAttempt (rq_group ir.2) (sid_serial (rid_scope ir.1))
             (rid_sequence ir.1) (Some (u64_saturating_sub release now))]
  | _ => ret []
  end.

Definition orphan_row (now : N) (o : Orphan) : OutstandingAttempt :=
  mkOutstandingAttempt (oa_group (or_attempt o)) (oa_scope (or_attempt o))
    (oa_sequence (or_attempt o)) (Some (u64_saturating_sub (or_release_at o) now)).

Definition ledger_group (now : N) (g : Group) : LedgerGroup :=
  mkLedgerGroup (u64_saturating_sub (g_cooldown g) now)
    (u64_saturating_sub (g_next_start g) now) (g_unavailable g).

Definition ledger (now : N) : PM AdmissionLedger :=
  tick now ;;
  gs <- gets p_groups ;;
  rs <- gets p_requests ;;
  outstanding <- fold_m (λ acc ir, rows <- outstanding_of now gs ir ;; ret (acc ++ rows))
                   [] (btree_iter rs) ;;
  epoch <- gets p_epoch ;;
  ret (mkAdmissionLedger epoch
         (outstanding ++ (btree_values gs ≫= λ g, orphan_row now <$> g_orphans g))
         (ledger_group now <$> gs)).

Definition restore_group (now : N) (durable : LedgerGroup) (g : Group) : res AdmissionError Group :=
  match u64_checked_add now (lg_cooldown_remaining_ms durable) with
  | None => Err Unavailable
  | Some cooldown =>
      match u64_checked_add now (lg_pacing_remaining_ms durable) with
      | None => Err Unavailable
      | Some next_start =>
          Ok (set_unavailable (lg_unavailable durable)
                (set_next_start next_start (set_cooldown cooldown g)))
      end
  end.

Fixpoint restore_groups (now : N) (l : list (GroupId * LedgerGroup)) (gs : gmap GroupId Group)
    : res AdmissionError (gmap GroupId Group) :=
  match l with
  | [] => Ok gs
  | (id, durable) :: l' =>
      match gs !! id with
      | None => Err UnknownGroup
      | Some g =>
          match restore_group now durable g with
          | Ok g' => restore_groups now l' (<[id := g']> gs)
          | Err e => Err e
          | Panic => Panic
          end
      end
  end.

Definition restored_orphan (now : N) (policy : GroupPolicy) (attempt : OutstandingAttempt) : Orphan :=
  let bound := u64_saturating_add (gp_attempt_timeout_ms policy) UNCERTAIN_LEASE_MARGIN_MS in
  let remaining := match oa_release_remaining_ms attempt with
                   | None => bound
                   | Some r => N.min r bound
                   end in
  mkOrphan attempt (u64_saturating_add now remaining).

Fixpoint restore_outstanding (now : N) (config : AdmissionConfig) (l : list OutstandingAttempt)
    (gs : gmap GroupId Group) : res AdmissionError (gmap GroupId Group) :=
  match l with
  | [] => Ok gs
  | attempt :: l' =>
      match ac_groups config !! oa_group attempt with
      | None => Err UnknownGroup
      | Some policy =>
          match gs !! oa_group attempt with
          | None => Panic
          | Some g =>
              restore_outstanding now config l'
                (<[oa_group attempt :=
                     set_orphans (g_orphans g ++ [restored_orphan now policy attempt]) g]> gs)
          end
      end
  end.

Definition restore (config : AdmissionConfig) (l : AdmissionLedger) (now : N)
    : res AdmissionError AdmissionPolicy :=
  match AdmissionPolicy_new (al_epoch l) config with
  | Ok policy =>
      match restore_groups now (btree_iter (al_groups l)) (p_groups policy) with
      | Ok gs =>
          match restore_outstanding now config (al_outstanding l) gs with
          | Ok gs' => Ok (set_groups gs' (set_now now policy))
          | Err e => Err e
          | Panic => Panic
          end
      | Err e => Err e
      | Panic => Panic
      end
  | Err e => Err e
  | Panic => Panic
  end.

Definition reset_group (g : Group) : Group :=
  mkGroup (g_fallback g) (g_next_start g) (g_cooldown g) false 0 0 (None, None) ∅ ∅ [].

Definition reset (now : N) : PM N :=
  tick now ;;
  old <- gets p_epoch ;;
  epoch <- ok_or (u64_checked_add old 1) ScopeLimit ;;
  modify (λ p, mkPolicy (p_config p) epoch (p_now p) (p_next_serial p) ∅ ∅ []
                 (reset_group <$> p_groups p)) ;;
  ret epoch.
