(* ===== verification/AdmissionInv.v ===== *)
(** The well-formedness invariant of the admission authority and the lemmas
    that every primitive state change preserves it. *)

From S2P Require Import Prelude AdmissionTypes AdmissionPolicy.

(** * Counting *)

Definition queued_in (g : GroupId) (_ : RequestId) (r : Request) : bool :=
  in_group g r && is_queued (rq_state r).

Definition active_in (g : GroupId) (_ : RequestId) (r : Request) : bool :=
  in_group g r && is_active (rq_state r).

Definition scope_is_background (ss : gmap ScopeId Scope) (sid : ScopeId) : bool :=
  match ss !! sid with Some sc => bool_decide (sc_class sc = Background) | None => false end.

Definition background_in (ss : gmap ScopeId Scope) (g : GroupId) (id : RequestId) (r : Request)
    : bool :=
  active_in g id r && scope_is_background ss (rid_scope id).

Definition queued_count (g : GroupId) (p : AdmissionPolicy) : nat :=
  count_map (queued_in g) (p_requests p).
Definition active_count (g : GroupId) (p : AdmissionPolicy) : nat :=
  count_map (active_in g) (p_requests p).
Definition background_count (g : GroupId) (p : AdmissionPolicy) : nat :=
  count_map (background_in (p_scopes p) g) (p_requests p).
Definition live_scopes (p : AdmissionPolicy) : nat :=
  count_map (λ _ sc, negb (sc_retired sc)) (p_scopes p).

(** * The invariant *)

(** The [u64] fields of a configuration are in range. *)
Definition policy_typed (gp : GroupPolicy) : Prop :=
  u64_ok (gp_min_interval_ms gp) ∧ u64_ok (gp_queue_timeout_ms gp) ∧
  u64_ok (gp_attempt_timeout_ms gp) ∧ u64_ok (gp_fallback_base_ms gp) ∧
  u64_ok (gp_max_cooldown_ms gp).

Definition config_typed (c : AdmissionConfig) : Prop :=
  ∀ g gp, ac_groups c !! g = Some gp → policy_typed gp.

Definition fallback_ok (f : FallbackCooldown) : Prop :=
  (0 < fc_base f ∧ fc_base f ≤ fc_next_upper f ∧
   fc_next_upper f ≤ fc_maximum f ∧ fc_maximum f ≤ u64_max)%N.

Definition streaks_ok (g : Group) : Prop :=
  (g_interactive_streak g ≤ 3 ∧ g_contested_pacing_streak g ≤ 3)%N.

Definition group_ok (g : Group) : Prop := fallback_ok (g_fallback g) ∧ streaks_ok g.

Record wf (p : AdmissionPolicy) : Prop := {
  wf_config : AdmissionConfig_validate (p_config p) = Ok tt;
  wf_typed : config_typed (p_config p);
  wf_groups : ∀ g, is_Some (p_groups p !! g) ↔ is_Some (ac_groups (p_config p) !! g);
  wf_group_ok : ∀ g gr, p_groups p !! g = Some gr → group_ok gr;
  wf_scope : ∀ sid sc, p_scopes p !! sid = Some sc →
    sid_epoch sid = p_epoch p ∧ (sid_serial sid ≤ p_next_serial p)%N;
  wf_live : live_scopes p ≤ ac_max_scopes (p_config p);
  wf_request : ∀ id r, p_requests p !! id = Some r →
    (∃ sc, p_scopes p !! rid_scope id = Some sc ∧ (rid_sequence id ≤ sc_high_water sc)%N) ∧
    is_Some (p_groups p !! rq_group r);
  wf_uncertain : ∀ g gr id since,
    p_groups p !! g = Some gr → g_uncertain gr !! id = Some since →
    ∃ r, p_requests p !! id = Some r ∧ rq_group r = g ∧ is_active (rq_state r) = true;
  wf_terminals : ∀ id, id ∈ p_terminals p ↔
    ∃ r, p_requests p !! id = Some r ∧ is_terminal (rq_state r) = true;
  wf_terminals_nodup : NoDup (p_terminals p);
  wf_terminals_len : length (p_terminals p) ≤ ac_terminal_capacity (p_config p);
  wf_counts : ∀ g gp, ac_groups (p_config p) !! g = Some gp →
    active_count g p ≤ gp_capacity gp ∧
    background_count g p ≤ gp_capacity gp - gp_reserve gp ∧
    queued_count g p ≤ gp_queue_capacity gp;
}.

(** * What validation guarantees *)

Lemma validate_spec c :
  AdmissionConfig_validate c = Ok tt →
  0 < ac_max_scopes c ∧ 0 < ac_terminal_capacity c ∧
  (∀ a g, ac_aliases c !! a = Some g → is_Some (ac_groups c !! g)) ∧
  (∀ g gp, ac_groups c !! g = Some gp →
     0 < gp_capacity gp ∧ gp_reserve gp < gp_capacity gp ∧ 0 < gp_queue_capacity gp ∧
     (0 < gp_min_interval_ms gp ∧ 0 < gp_queue_timeout_ms gp ∧ 0 < gp_attempt_timeout_ms gp ∧
      0 < gp_fallback_base_ms gp ∧ gp_fallback_base_ms gp ≤ gp_max_cooldown_ms gp)%N ∧
     ∃ a, ac_aliases c !! a = Some g).
Proof.
  unfold AdmissionConfig_validate. destruct (_ || _) eqn:Hv; [done|]. intros _.
  split_bools. split; [lia|]. split; [lia|]. split.
  - intros a g Ha%elem_of_btree_iter.
    eapply existsb_false_elem in Ha; [|eassumption]. unfold alias_invalid in Ha. by split_bools.
  - intros g gp Hg%elem_of_btree_iter.
    eapply existsb_false_elem in Hg; [|eassumption]. unfold group_invalid in Hg. simpl in Hg.
    split_bools. repeat split; try lia.
    match goal with H : existsb (λ mapped, _) _ = true |- _ =>
      apply existsb_elem in H as [mapped [Hin Heq]] end.
    split_bools. subst. by apply elem_of_btree_values in Hin.
Qed.

(** * The fallback window *)

Lemma throttle_offset_le jitter gap :
  u64_ok jitter → (N.shiftr (jitter * (gap + 1)) 64 ≤ gap)%N.
Proof.
  unfold u64_ok, u64_max. intros Hj. rewrite N.shiftr_div_pow2.
  assert ((jitter * (gap + 1)) / 2 ^ 64 < gap + 1)%N; [|lia].
  apply N.Div0.div_lt_upper_bound. change (2 ^ 64)%N with 18446744073709551616%N. nia.
Qed.

Lemma land_u64_small x : u64_ok x → N.land x u64_max = x.
Proof.
  unfold u64_ok. intros Hx. change u64_max with (N.ones 64). rewrite N.land_ones.
  apply N.mod_small. unfold u64_max in Hx. change (2 ^ 64)%N with 18446744073709551616%N. lia.
Qed.

Lemma throttle_spec f jitter :
  fallback_ok f → u64_ok jitter →
  ∃ f' d, throttle f jitter = Some (f', d) ∧ fallback_ok f' ∧
    (fc_base f ≤ d ≤ fc_next_upper f)%N ∧
    fc_base f' = fc_base f ∧ fc_maximum f' = fc_maximum f ∧
    fc_next_upper f' = N.min (2 * fc_next_upper f) (fc_maximum f).
Proof.
  intros (Hb & Hbu & Hum & Hm) Hj. unfold throttle, u64_sub.
  destruct (N.leb_spec (fc_base f) (fc_next_upper f)) as [_|]; [|lia].
  pose proof (throttle_offset_le jitter (fc_next_upper f - fc_base f) Hj) as Hoff.
  revert Hoff. generalize (N.shiftr (jitter * (fc_next_upper f - fc_base f + 1)) 64).
  intros off Hoff. rewrite land_u64_small by (unfold u64_ok; lia).
  unfold u64_add. destruct (u64_checked_add (fc_base f) off) as [d|] eqn:Hd;
    [apply u64_checked_add_Some in Hd as [-> _]|apply u64_checked_add_None in Hd; lia].
  eexists _, _. split; [done|]. unfold fallback_ok, u64_saturating_mul; simpl. lia.
Qed.

Lemma fallback_success_ok f : fallback_ok f → fallback_ok (fallback_success f).
Proof. unfold fallback_ok; simpl; lia. Qed.

Lemma apply_advice_spec policy now fb d g :
  is_Some policy →
  ∃ g', apply_advice policy now fb d g = Some g' ∧ g_uncertain g' = g_uncertain g ∧
        g_orphans g' = g_orphans g ∧ g_fallback g' = g_fallback g ∧
        g_interactive_streak g' = g_interactive_streak g ∧
        g_contested_pacing_streak g' = g_contested_pacing_streak g ∧
        g_next_start g' = g_next_start g ∧ (g_cooldown g ≤ g_cooldown g')%N ∧
        (g_unavailable g = true → g_unavailable g' = true).
Proof.
  intros [gp ->]. destruct fb as [j|deadline|]; unfold apply_advice; eexists;
    (split; [reflexivity|]); repeat case_match; simpl; repeat split; auto; lia.
Qed.

Lemma complete_group_spec policy now fb reported g :
  is_Some policy → fallback_ok (g_fallback g) →
  ∃ g', complete_group policy now fb reported g = Some g' ∧ g_uncertain g' = g_uncertain g ∧
        g_orphans g' = g_orphans g ∧ fallback_ok (g_fallback g') ∧
        g_interactive_streak g' = g_interactive_streak g ∧
        g_contested_pacing_streak g' = g_contested_pacing_streak g ∧
        g_next_start g' = g_next_start g ∧ (g_cooldown g ≤ g_cooldown g')%N ∧
        (g_unavailable g = true → g_unavailable g' = true).
Proof.
  intros [gp ->] Hf. destruct fb as [| |delay]; unfold complete_group.
  - eexists. split; [done|]. simpl. repeat split; auto using fallback_success_ok; try lia;
      apply (fallback_success_ok _ Hf).
  - eexists. split; [done|]. repeat split; auto; try lia; apply Hf.
  - destruct (throttle_spec (g_fallback g) 0 Hf) as (f' & d & Hth & Hf' & _);
      [unfold u64_ok, u64_max; lia|].
    destruct reported; rewrite ?Hth; simpl; destruct (u64_checked_add now delay); simpl;
      try (destruct (_ <=? _)%N); (eexists; split; [reflexivity|]); simpl;
      repeat split; auto; try lia; first [apply Hf' | apply Hf].
Qed.

Lemma charge_grant_ok policy sc agent ns contested ia g :
  group_ok g → group_ok (charge_grant policy sc agent ns contested ia g).
Proof.
  intros [Hf [Hi Hc]]. split; [done|]. unfold streaks_ok, charge_grant. simpl.
  repeat case_match; lia.
Qed.

(** * Primitive changes keep the invariant *)

(** Two requests the invariant cannot tell apart. *)
Definition same_kind (r r' : Request) : Prop :=
  rq_group r' = rq_group r ∧ is_queued (rq_state r') = is_queued (rq_state r) ∧
  is_active (rq_state r') = is_active (rq_state r) ∧
  is_terminal (rq_state r') = is_terminal (rq_state r).

Lemma same_kind_refl r : same_kind r r.
Proof. done. Qed.

Lemma same_kind_counts r r' :
  same_kind r r' →
  (∀ g id, queued_in g id r' = queued_in g id r) ∧
  (∀ g id, active_in g id r' = active_in g id r) ∧
  (∀ ss g id, background_in ss g id r' = background_in ss g id r).
Proof.
  intros (Hg & Hq & Ha & Ht). unfold background_in, queued_in, active_in, in_group.
  rewrite Hg, Hq, Ha. done.
Qed.

(** Replacing every request by one of the same kind. *)
Lemma wf_map_requests p rs' :
  wf p →
  (∀ id, match p_requests p !! id, rs' !! id with
         | Some r, Some r' => same_kind r r'
         | None, None => True
         | _, _ => False
         end) →
  wf (set_requests rs' p).
Proof.
  intros Hwf Hk.
  assert (∀ P : RequestId → Request → bool, (∀ id r r', same_kind r r' → P id r' = P id r) →
            count_map P rs' = count_map P (p_requests p)) as Hcount.
  { intros P HP. symmetry. apply count_map_pointwise. intros id. specialize (Hk id).
    destruct (p_requests p !! id), (rs' !! id); try done. by rewrite (HP id _ _ Hk). }
  assert (∀ id r', rs' !! id = Some r' → ∃ r, p_requests p !! id = Some r ∧ same_kind r r') as Hback.
  { intros id r' Hr'. specialize (Hk id). rewrite Hr' in Hk.
    destruct (p_requests p !! id) as [r|]; [|done]. eauto. }
  assert (∀ id r, p_requests p !! id = Some r → ∃ r', rs' !! id = Some r' ∧ same_kind r r') as Hfwd.
  { intros id r Hr. specialize (Hk id). rewrite Hr in Hk.
    destruct (rs' !! id) as [r'|]; [|done]. eauto. }
  destruct Hwf. split; try done; simpl.
  - intros id r' (r & Hr & Hg & _)%Hback. rewrite Hg. by apply wf_request0.
  - intros g gr id since Hg Hu. destruct (wf_uncertain0 g gr id since Hg Hu) as (r & Hr & Hrg & Ha).
    destruct (Hfwd id r Hr) as (r' & Hr' & Hg' & _ & Ha' & _). exists r'. split; [done|].
    split; congruence.
  - intros id. rewrite wf_terminals0. split.
    + intros (r & Hr & Ht). destruct (Hfwd id r Hr) as (r' & Hr' & _ & _ & _ & Ht').
      exists r'. split; [done|congruence].
    + intros (r' & Hr' & Ht). destruct (Hback id r' Hr') as (r & Hr & _ & _ & _ & Ht').
      exists r. split; [done|congruence].
  - intros g gp Hgp. destruct (wf_counts0 g gp Hgp) as (H1 & H2 & H3).
    unfold active_count, background_count, queued_count. simpl.
    rewrite !Hcount; [done|..]; intros id r r' Hkind;
      apply same_kind_counts in Hkind as (? & ? & ?); auto.
Qed.

Lemma wf_set_request p id r r' :
  wf p → p_requests p !! id = Some r → same_kind r r' →
  wf (set_requests (<[id := r']> (p_requests p)) p).
Proof.
  intros Hwf Hr Hk. apply wf_map_requests; [done|]. intros id'.
  destruct (decide (id = id')) as [<-|Hne].
  - by rewrite lookup_insert_eq, Hr.
  - rewrite lookup_insert_ne by done. destruct (p_requests p !! id'); by auto using same_kind_refl.
Qed.

Lemma wf_fmap_requests p f :
  wf p → (∀ r, same_kind r (f r)) → wf (set_requests (f <$> p_requests p) p).
Proof.
  intros Hwf Hk. apply wf_map_requests; [done|]. intros id. rewrite lookup_fmap.
  destruct (p_requests p !! id); by simpl.
Qed.

(** Replacing groups, keeping which attempts are uncertain. *)
Lemma wf_set_groups p gs' :
  wf p →
  (∀ g, match p_groups p !! g, gs' !! g with
        | Some gr, Some gr' => g_uncertain gr' ⊆ g_uncertain gr ∧ group_ok gr'
        | None, None => True
        | _, _ => False
        end) →
  wf (set_groups gs' p).
Proof.
  intros Hwf Hk.
  assert (∀ g, is_Some (gs' !! g) ↔ is_Some (p_groups p !! g)) as Hdom.
  { intros g. specialize (Hk g). destruct (p_groups p !! g), (gs' !! g); split; intros []; try done; eauto. }
  destruct Hwf. split; try done; simpl.
  - intros g. by rewrite Hdom.
  - intros g gr' Hg. specialize (Hk g). rewrite Hg in Hk. by destruct (p_groups p !! g); [|done]; destruct Hk.
  - intros id r Hr. rewrite Hdom. auto.
  - intros g gr' id since Hg Hu. specialize (Hk g). rewrite Hg in Hk.
    destruct (p_groups p !! g) as [gr|] eqn:Hgr; [|done]. destruct Hk as [Hsub _].
    eapply wf_uncertain0; [done|]. by eapply lookup_weaken.
Qed.

Lemma wf_set_group p g gr gr' :
  wf p → p_groups p !! g = Some gr → g_uncertain gr' ⊆ g_uncertain gr → group_ok gr' →
  wf (set_groups (<[g := gr']> (p_groups p)) p).
Proof.
  intros Hwf Hg Hu Hok. apply wf_set_groups; [done|]. intros g'.
  destruct (decide (g = g')) as [<-|Hne].
  - by rewrite lookup_insert_eq, Hg.
  - rewrite lookup_insert_ne by done. destruct (p_groups p !! g') eqn:Hg'; [|done].
    split; [done|]. by eapply wf_group_ok.
Qed.

Lemma wf_set_now p now : wf p → wf (set_now now p).
Proof. intros []. by split. Qed.

(** * Terminal transitions *)

Lemma evict_snoc cap ts id rs :
  length ts ≤ cap → 0 < cap →
  evict cap (ts ++ [id]) rs = (ts ++ [id], rs) ∧ length ts < cap ∨
  ∃ old ts', ts = old :: ts' ∧ evict cap (ts ++ [id]) rs = (ts' ++ [id], delete old rs).
Proof.
  intros Hlen Hcap. destruct ts as [|old ts].
  - left. simpl. destruct cap; [lia|]. split; [done|lia].
  - assert (length (old :: ts ++ [id]) = S (S (length ts))) as Hl
      by (simpl; rewrite length_app; simpl; lia).
    destruct (decide (length (old :: ts) < cap)) as [Hlt|Hge].
    + left. split; [|done]. cbn [app evict]. rewrite Hl. simpl in Hlt.
      destruct (Nat.leb_spec (S (S (length ts))) cap); [done|lia].
    + right. exists old, ts. split; [done|]. cbn [app evict]. rewrite Hl. simpl in Hlen, Hge.
      destruct (Nat.leb_spec (S (S (length ts))) cap) as [|_]; [lia|].
      assert ((length (ts ++ [id]) <=? cap) = true) as Hfit
        by (rewrite length_app; simpl; apply Nat.leb_le; lia).
      destruct (ts ++ [id]) as [|x l]; cbn [evict]; by rewrite Hfit.
Qed.

Record terminal_post (id : RequestId) (r' : Request) (p p' : AdmissionPolicy) : Prop := {
  tp_config : p_config p' = p_config p;
  tp_epoch : p_epoch p' = p_epoch p;
  tp_now : p_now p' = p_now p;
  tp_next_serial : p_next_serial p' = p_next_serial p;
  tp_scopes : p_scopes p' = p_scopes p;
  tp_groups : p_groups p' =
    alter (λ g, set_uncertain (delete id (g_uncertain g)) g) (rq_group r') (p_groups p);
  tp_self : p_requests p' !! id = Some r';
  tp_other : ∀ id', id' ≠ id →
    p_requests p' !! id' = p_requests p !! id' ∨
    (p_requests p' !! id' = None ∧
     ∃ r0, p_requests p !! id' = Some r0 ∧ is_terminal (rq_state r0) = true);
}.

(** Requests that are not terminal survive another request's terminal step. *)
Lemma terminal_post_live id r' p p' id' r0 :
  terminal_post id r' p p' → id' ≠ id →
  p_requests p !! id' = Some r0 → is_terminal (rq_state r0) = false →
  p_requests p' !! id' = Some r0.
Proof.
  intros Hp Hne Hr0 Hlive. destruct (tp_other _ _ _ _ Hp id' Hne) as [->|(_ & r1 & Hr1 & Ht)]; congruence.
Qed.

Lemma terminal_post_sub id r' p p' id' r0 :
  terminal_post id r' p p' → id' ≠ id →
  p_requests p' !! id' = Some r0 → p_requests p !! id' = Some r0.
Proof. intros Hp Hne Hr0. destruct (tp_other _ _ _ _ Hp id' Hne) as [<-|(Hn & _)]; congruence. Qed.

Lemma is_terminal_active s : is_active s = true → is_terminal s = false.
Proof. by destruct s. Qed.

Lemma is_terminal_queued s : is_queued s = true → is_terminal s = false.
Proof. by destruct s. Qed.

(** The counts of a state after a terminal step are at most the ones before. *)
Lemma terminal_counts_le (P : RequestId → Request → bool) id r r' rs rs' :
  rs !! id = Some r → P id r' = false →
  (rs' = <[id := r']> rs ∨ ∃ old, rs' = delete old (<[id := r']> rs)) →
  count_map P rs' ≤ count_map P rs.
Proof.
  intros Hr HP Hrs.
  assert (count_map P (<[id := r']> rs) ≤ count_map P rs) as Hle.
  { pose proof (count_map_insert P rs id r r' Hr) as Heq. rewrite HP in Heq. simpl in Heq. lia. }
  destruct Hrs as [->|[old ->]]; [done|]. pose proof (count_map_delete_le P (<[id := r']> rs) old). lia.
Qed.

(** What [terminal] computes, before the invariant is considered. *)
Definition terminal_result (id : RequestId) (r' : Request) (p : AdmissionPolicy)
    (tr : list RequestId * gmap RequestId Request) : AdmissionPolicy :=
  mkPolicy (p_config p) (p_epoch p) (p_now p) (p_next_serial p) (p_scopes p) tr.2 tr.1
    (alter (λ g, set_uncertain (delete id (g_uncertain g)) g) (rq_group r') (p_groups p)).

Lemma terminal_eq p id r out fb :
  p_requests p !! id = Some r → is_Some (p_groups p !! rq_group r) →
  terminal id out fb p =
    (terminal_result id (set_terminal out fb r) p
       (evict (ac_terminal_capacity (p_config p)) (p_terminals p ++ [id])
          (<[id := set_terminal out fb r]> (p_requests p))), Ok tt).
Proof.
  intros Hr [g Hg]. unfold terminal, update_group, bind, gets, modify, expect; simpl.
  rewrite Hr; simpl. rewrite Hg; simpl. unfold terminal_result; simpl.
  assert (alter (λ g, set_uncertain (delete id (g_uncertain g)) g) (rq_group r) (p_groups p)
          = <[rq_group r := set_uncertain (delete id (g_uncertain g)) g]> (p_groups p)) as ->.
  { apply map_eq. intros k. destruct (decide (k = rq_group r)) as [->|Hne].
    - by rewrite lookup_alter_eq, Hg, lookup_insert_eq.
    - by rewrite lookup_alter_ne, lookup_insert_ne. }
  done.
Qed.

(** An uncertain entry left after the step belongs to another request. *)
Lemma alter_uncertain_lookup p id r g gr id' since :
  wf p → p_requests p !! id = Some r →
  alter (λ g, set_uncertain (delete id (g_uncertain g)) g) (rq_group r) (p_groups p) !! g = Some gr →
  g_uncertain gr !! id' = Some since →
  id' ≠ id ∧ ∃ gr0, p_groups p !! g = Some gr0 ∧ g_uncertain gr0 !! id' = Some since.
Proof.
  intros Hwf Hr Hg Hu. rewrite lookup_alter in Hg. case_decide as Heq.
  - subst. destruct (p_groups p !! rq_group r) as [gr0|]; [|done]. simplify_eq/=.
    apply lookup_delete_Some in Hu as [Hne Hu]. eauto.
  - split; [|by eauto]. intros ->.
    destruct (wf_uncertain p Hwf g gr id since Hg Hu) as (r1 & Hr1 & Hg1 & _). congruence.
Qed.

(** The queue of terminal requests names exactly the terminal requests. *)
Lemma terminals_after p id r r' ts' rs' :
  wf p → p_requests p !! id = Some r → is_terminal (rq_state r) = false →
  is_terminal (rq_state r') = true →
  (ts' = p_terminals p ++ [id] ∧ rs' = <[id := r']> (p_requests p) ∨
   ∃ old ts0, p_terminals p = old :: ts0 ∧ ts' = ts0 ++ [id] ∧
              rs' = delete old (<[id := r']> (p_requests p))) →
  NoDup ts' ∧ (∀ id0, id0 ∈ ts' ↔ ∃ r0, rs' !! id0 = Some r0 ∧ is_terminal (rq_state r0) = true) ∧
  rs' !! id = Some r' ∧
  (∀ id', id' ≠ id → rs' !! id' = p_requests p !! id' ∨
    (rs' !! id' = None ∧ ∃ r0, p_requests p !! id' = Some r0 ∧ is_terminal (rq_state r0) = true)).
Proof.
  intros Hwf Hr Hlive Hterm Hcase.
  pose proof (wf_terminals p Hwf) as Ht. pose proof (wf_terminals_nodup p Hwf) as Hnd.
  assert (id ∉ p_terminals p) as Hni.
  { rewrite Ht. intros (r0 & Hr0 & Ht0). congruence. }
  assert (∀ id0, id0 ∈ p_terminals p ++ [id] ↔
            ∃ r0, <[id := r']> (p_requests p) !! id0 = Some r0 ∧ is_terminal (rq_state r0) = true) as Hins.
  { intros id0. rewrite elem_of_app, list_elem_of_singleton, Ht, lookup_insert. case_decide as He.
    - subst. split; [by eauto|]. by right.
    - split; [intros [?|?]; [done|congruence]|by left]. }
  destruct Hcase as [[-> ->]|(old & ts0 & Hts & -> & ->)].
  - split; [by apply NoDup_snoc|].
    split; [done|]. split; [apply lookup_insert_eq|]. intros id' Hne. left. by rewrite lookup_insert_ne.
  - rewrite Hts in Hnd, Hni, Hins. apply list.NoDup_cons in Hnd as [Hold Hnd].
    apply not_elem_of_cons in Hni as [Hoi Hni].
    split; [by apply NoDup_snoc|].
    split.
    { intros id0. specialize (Hins id0). rewrite lookup_delete. case_decide as He.
      - subst. split; [|by intros (? & ? & _)].
        rewrite elem_of_app, list_elem_of_singleton. by intros [?| ->].
      - rewrite <- Hins. cbn [app]. rewrite elem_of_cons. split; [by right|].
        by intros [->|?]. }
    split. { by rewrite lookup_delete_ne, lookup_insert_eq. }
    intros id' Hne. destruct (decide (id' = old)) as [->|Hno].
    + right. rewrite lookup_delete_eq. split; [done|]. apply Ht. rewrite Hts. by left.
    + left. by rewrite lookup_delete_ne, lookup_insert_ne.
Qed.

(** Recording one more terminal request evicts at most the oldest one. *)
Lemma evict_terminal p id r' :
  wf p →
  let cap := ac_terminal_capacity (p_config p) in
  let tr := evict cap (p_terminals p ++ [id]) (<[id := r']> (p_requests p)) in
  tr.1 = p_terminals p ++ [id] ∧ tr.2 = <[id := r']> (p_requests p) ∧ length tr.1 ≤ cap ∨
  ∃ old ts0, p_terminals p = old :: ts0 ∧ tr.1 = ts0 ++ [id] ∧
    tr.2 = delete old (<[id := r']> (p_requests p)) ∧ length tr.1 ≤ cap.
Proof.
  intros Hwf cap tr. destruct (validate_spec _ (wf_config p Hwf)) as (_ & Hcap & _).
  pose proof (wf_terminals_len p Hwf) as Hlen.
  destruct (evict_snoc _ (p_terminals p) id (<[id := r']> (p_requests p)) Hlen Hcap)
    as [[He Hlt]|(old & ts0 & Hts & He)]; unfold tr, cap; rewrite He; [left|right]; simpl.
  - rewrite length_app; simpl. split_and!; [done..|lia].
  - exists old, ts0. rewrite Hts in Hlen. rewrite length_app; simpl in *. split_and!; [done..|lia].
Qed.

Lemma terminal_spec p id r out fb :
  wf p → p_requests p !! id = Some r → is_terminal (rq_state r) = false →
  ∃ p', terminal id out fb p = (p', Ok tt) ∧ wf p' ∧ terminal_post id (set_terminal out fb r) p p'.
Proof.
  intros Hwf Hr Hlive.
  destruct (wf_request p Hwf id r Hr) as [Hsc Hgr].
  rewrite (terminal_eq p id r out fb Hr Hgr).
  set (r' := set_terminal out fb r). set (tr := evict _ _ _).
  pose proof (evict_terminal p id r' Hwf) as Htr. fold tr in Htr.
  assert (length tr.1 ≤ ac_terminal_capacity (p_config p)) as Hlen'
    by (destruct Htr as [(_ & _ & ?)|(? & ? & _ & _ & _ & ?)]; done).
  assert (tr.2 = <[id := r']> (p_requests p) ∨ ∃ old, tr.2 = delete old (<[id := r']> (p_requests p))) as Hrs
    by (destruct Htr as [(_ & ? & _)|(? & ? & _ & _ & ? & _)]; eauto).
  destruct (terminals_after p id r r' tr.1 tr.2 Hwf Hr Hlive eq_refl) as (Hnd & Hts & Hself & Hother).
  { destruct Htr as [(? & ? & _)|(old & ts0 & ? & ? & ? & _)]; [by left|right; eauto]. }
  eexists. split; [done|]. split; [|by split].
  assert (∀ P : RequestId → Request → bool, P id r' = false →
            count_map P tr.2 ≤ count_map P (p_requests p)) as Hle
    by (intros P HP; by eapply terminal_counts_le).
  clear Htr Hrs. split; simpl.
  - apply (wf_config p Hwf).
  - apply (wf_typed p Hwf).
  - intros g. rewrite <- (wf_groups p Hwf g), lookup_alter.
    case_decide; [|done]. by rewrite fmap_is_Some; subst.
  - intros g gr Hg. rewrite lookup_alter in Hg. case_decide.
    + apply fmap_Some in Hg as (gr0 & Hg0 & ->). eapply (wf_group_ok p Hwf) in Hg0. done.
    + by eapply (wf_group_ok p Hwf).
  - apply (wf_scope p Hwf).
  - apply (wf_live p Hwf).
  - intros id0 r0 Hr0. rewrite lookup_alter.
    assert (∃ r1, p_requests p !! id0 = Some r1 ∧ rq_group r0 = rq_group r1) as (r1 & Hr1 & Hgg).
    { destruct (decide (id0 = id)) as [->|Hne].
      - exists r. rewrite Hself in Hr0. by injection Hr0 as <-.
      - exists r0. destruct (Hother id0 Hne) as [Heq|[Hn _]]; [|congruence]. by rewrite <- Heq. }
    destruct (wf_request p Hwf id0 r1 Hr1) as [? Hs]. split; [done|]. rewrite Hgg.
    case_decide; [|done]. by rewrite fmap_is_Some.
  - intros g gr id0 since Hg Hu.
    destruct (alter_uncertain_lookup p id r g gr id0 since Hwf Hr Hg Hu) as (Hne & gr0 & Hg0 & Hu0).
    destruct (wf_uncertain p Hwf g gr0 id0 since Hg0 Hu0) as (r0 & Hr0 & Hrg & Ha).
    exists r0. split; [|done]. destruct (Hother id0 Hne) as [->|(_ & r1 & Hr1 & Ht1)]; [done|].
    apply is_terminal_active in Ha. congruence.
  - done.
  - done.
  - done.
  - intros g gp Hgp. destruct (wf_counts p Hwf g gp Hgp) as (H1 & H2 & H3).
    unfold active_count, background_count, queued_count in *; simpl.
    assert (active_in g id r' = false) as Ha by (unfold active_in; simpl; apply andb_false_r).
    assert (queued_in g id r' = false) as Hq by (unfold queued_in; simpl; apply andb_false_r).
    assert (background_in (p_scopes p) g id r' = false) as Hb by (unfold background_in; by rewrite Ha).
    pose proof (Hle _ Ha). pose proof (Hle _ Hq). pose proof (Hle _ Hb). lia.
Qed.
