(* ===== verification/AdmissionTick.v ===== *)
(** The passage of time at the admission authority: [tick] ends, keeps the
    invariant, and changes only what elapsed time may change.  The relation
    [evolves] is what any sequence of terminal steps does to a state. *)

From S2P Require Import Prelude AdmissionTypes AdmissionPolicy AdmissionInv.

(** * How a state evolves under terminal steps *)

(** The scheduling fields of a group, which time does not touch. *)
Definition same_schedule (g g' : Group) : Prop :=
  g_fallback g' = g_fallback g ∧ g_next_start g' = g_next_start g ∧
  g_cooldown g' = g_cooldown g ∧ g_unavailable g' = g_unavailable g ∧
  g_interactive_streak g' = g_interactive_streak g ∧
  g_contested_pacing_streak g' = g_contested_pacing_streak g ∧
  g_last_root g' = g_last_root g ∧ g_last_agent g' = g_last_agent g.

(** A request after some time: its group and its last report stay, a terminal
    request is frozen, a queued one was the same queued one before, an active
    one was the same attempt before. *)
Definition request_evolves (r r' : Request) : Prop :=
  rq_group r' = rq_group r ∧ rq_last_report r' = rq_last_report r ∧
  (is_terminal (rq_state r) = true → r' = r) ∧
  (is_queued (rq_state r') = true → r' = r) ∧
  (∀ st d c', rq_state r' = Active st d c' → ∃ c, rq_state r = Active st d c).

(** [C] lists the active attempts that may have been released. *)
Record evolves (C : list RequestId) (p p' : AdmissionPolicy) : Prop := {
  ev_config : p_config p' = p_config p;
  ev_epoch : p_epoch p' = p_epoch p;
  ev_next_serial : p_next_serial p' = p_next_serial p;
  ev_scopes : p_scopes p' = p_scopes p;
  ev_groups : ∀ g, match p_groups p !! g, p_groups p' !! g with
    | Some gr, Some gr' => same_schedule gr gr' ∧ g_uncertain gr' ⊆ g_uncertain gr ∧
                           g_orphans gr' `sublist_of` g_orphans gr
    | None, None => True
    | _, _ => False
    end;
  ev_requests : ∀ id r', p_requests p' !! id = Some r' →
    ∃ r, p_requests p !! id = Some r ∧ request_evolves r r';
  ev_kept : ∀ id r, p_requests p !! id = Some r → is_active (rq_state r) = true → id ∉ C →
    ∃ r', p_requests p' !! id = Some r' ∧ is_active (rq_state r') = true;
  ev_marked : ∀ g gr gr' id since r', p_groups p !! g = Some gr → p_groups p' !! g = Some gr' →
    g_uncertain gr !! id = Some since → p_requests p' !! id = Some r' →
    is_active (rq_state r') = true → g_uncertain gr' !! id = Some since;
}.

Lemma same_schedule_refl g : same_schedule g g.
Proof. unfold same_schedule. done. Qed.

Lemma same_schedule_trans g1 g2 g3 :
  same_schedule g1 g2 → same_schedule g2 g3 → same_schedule g1 g3.
Proof. unfold same_schedule. intros; destruct_and!; split_and!; congruence. Qed.

Lemma request_evolves_refl r : request_evolves r r.
Proof. unfold request_evolves. naive_solver. Qed.

Lemma request_evolves_trans r1 r2 r3 :
  request_evolves r1 r2 → request_evolves r2 r3 → request_evolves r1 r3.
Proof.
  intros (Hg & Hl & Ht & Hq & Ha) (Hg' & Hl' & Ht' & Hq' & Ha'). split_and!; [congruence|congruence|..].
  - intros H. rewrite Ht' by (by rewrite Ht). auto.
  - intros H. pose proof (Hq' H) as ->. auto.
  - intros st d c' H. apply Ha' in H as [c H]. eauto.
Qed.

Lemma evolves_refl C p : evolves C p p.
Proof.
  split; try done.
  - intros g. destruct (p_groups p !! g); [|done]. auto using same_schedule_refl.
  - eauto using request_evolves_refl.
  - eauto.
  - congruence.
Qed.

Lemma evolves_trans C p1 p2 p3 : evolves C p1 p2 → evolves C p2 p3 → evolves C p1 p3.
Proof.
  intros E1 E2. split.
  - rewrite (ev_config _ _ _ E2). apply E1.
  - rewrite (ev_epoch _ _ _ E2). apply E1.
  - rewrite (ev_next_serial _ _ _ E2). apply E1.
  - rewrite (ev_scopes _ _ _ E2). apply E1.
  - intros g. pose proof (ev_groups _ _ _ E1 g) as H1. pose proof (ev_groups _ _ _ E2 g) as H2.
    destruct (p_groups p1 !! g), (p_groups p2 !! g), (p_groups p3 !! g); try done.
    destruct H1 as (? & ? & ?), H2 as (? & ? & ?). split_and!; [by eapply same_schedule_trans|by etrans..].
  - intros id r3 (r2 & Hr2 & He2)%(ev_requests _ _ _ E2).
    apply (ev_requests _ _ _ E1) in Hr2 as (r1 & Hr1 & He1). eauto using request_evolves_trans.
  - intros id r1 Hr1 Ha Hc. destruct (ev_kept _ _ _ E1 id r1 Hr1 Ha Hc) as (r2 & Hr2 & Ha2).
    by apply (ev_kept _ _ _ E2 id r2).
  - intros g gr1 gr3 id since r3 Hg1 Hg3 Hu Hr3 Ha.
    pose proof (ev_groups _ _ _ E1 g) as H1. rewrite Hg1 in H1.
    destruct (p_groups p2 !! g) as [gr2|] eqn:Hg2; [|done].
    apply (ev_marked _ _ _ E2 g gr2 gr3 id since r3); try done.
    destruct (ev_requests _ _ _ E2 id r3 Hr3) as (r2 & Hr2 & _ & _ & _ & _ & Hact).
    apply (ev_marked _ _ _ E1 g gr1 gr2 id since r2); try done.
    destruct (rq_state r3) as [|st d c|]; try done. by destruct (Hact st d c eq_refl) as [c' ->].
Qed.

Lemma evolves_weaken C C' p p' : C ⊆ C' → evolves C p p' → evolves C' p p'.
Proof. intros Hsub He. split; try apply He. intros id r Hr Ha Hc. apply (ev_kept _ _ _ He id r); auto. Qed.

Lemma evolves_set_now C p now : evolves C p (set_now now p).
Proof. pose proof (evolves_refl C p) as He. split; simpl; apply He. Qed.

(** * One request reaching its end *)

(** A terminal step, then a note on the ended request that keeps its kind. *)
Lemma evolves_terminal C p p1 id r r1 r2 :
  p_requests p !! id = Some r → is_terminal (rq_state r) = false →
  (is_active (rq_state r) = true → id ∈ C) →
  terminal_post id r1 p p1 → rq_group r1 = rq_group r → rq_last_report r1 = rq_last_report r →
  is_terminal (rq_state r1) = true → same_kind r1 r2 → rq_last_report r2 = rq_last_report r1 →
  evolves C p (set_requests (<[id := r2]> (p_requests p1)) p1).
Proof.
  intros Hr Hlive HC Hpost Hg1 Hl1 Ht1 (Hkg & Hkq & Hka & Hkt) Hlr.
  assert (is_active (rq_state r1) = false ∧ is_queued (rq_state r1) = false) as [Ha1 Hq1]
    by (by destruct (rq_state r1)).
  split; simpl; try apply Hpost.
  - intros g. rewrite (tp_groups _ _ _ _ Hpost), lookup_alter. case_decide as Hg; [subst|].
    + destruct (p_groups p !! rq_group r1) as [gr|]; [|done]. simpl.
      split_and!; [by unfold same_schedule|apply delete_subseteq|done].
    + destruct (p_groups p !! g); [|done]. auto using same_schedule_refl.
  - intros id' r' Hr'. destruct (decide (id' = id)) as [->|Hne].
    + rewrite lookup_insert_eq in Hr'. injection Hr' as <-. exists r. split; [done|].
      split_and!; [congruence..|]. intros st d c' Hst. rewrite Hst in Hka. simpl in Hka. congruence.
    + rewrite lookup_insert_ne in Hr' by done. exists r'. split; [|apply request_evolves_refl].
      by eapply terminal_post_sub.
  - intros id' r0 Hr0 Ha Hc. destruct (decide (id' = id)) as [->|Hne].
    { destruct Hc. apply HC. congruence. }
    exists r0. rewrite lookup_insert_ne by done.
    eauto using terminal_post_live, is_terminal_active.
  - intros g gr gr' id' since r' Hg Hg' Hu Hr' Ha.
    destruct (decide (id' = id)) as [->|Hne].
    { rewrite lookup_insert_eq in Hr'. congruence. }
    rewrite (tp_groups _ _ _ _ Hpost), lookup_alter in Hg'. case_decide; [subst|congruence].
    rewrite Hg in Hg'. injection Hg' as <-. simpl. by rewrite lookup_delete_ne.
Qed.

Lemma finish_spec C p id r out fb (f : Request → Request) :
  wf p → p_requests p !! id = Some r → is_terminal (rq_state r) = false →
  (is_active (rq_state r) = true → id ∈ C) →
  (∀ r, same_kind r (f r) ∧ rq_last_report (f r) = rq_last_report r) →
  ∃ p', (terminal id out fb ;; update_request id f) p = (p', Ok tt) ∧ wf p' ∧ evolves C p p' ∧
        p_now p' = p_now p ∧
        p_requests p' !! id = Some (f (set_terminal out fb r)) ∧
        (∀ id' r0, id' ≠ id → p_requests p !! id' = Some r0 →
                   is_terminal (rq_state r0) = false → p_requests p' !! id' = Some r0).
Proof.
  intros Hwf Hr Hlive HC Hf.
  destruct (terminal_spec p id r out fb Hwf Hr Hlive) as (p1 & Heq & Hwf1 & Hpost).
  pose proof (tp_self _ _ _ _ Hpost) as Hself.
  set (r1 := set_terminal out fb r) in *. destruct (Hf r1) as [Hk Hlr].
  exists (set_requests (<[id := f r1]> (p_requests p1)) p1).
  rewrite (bind_ok _ _ _ _ _ Heq). unfold update_request. rewrite bind_gets, (bind_expect _ r1) by done.
  split_and!; [done|by eapply wf_set_request| |apply Hpost|apply lookup_insert_eq|].
  - by eapply (evolves_terminal C p p1 id r r1 (f r1)).
  - intros id' r0 Hne Hr0 Hl0. simpl. rewrite lookup_insert_ne by done. by eapply terminal_post_live.
Qed.

Lemma terminal_step C p id r out fb :
  wf p → p_requests p !! id = Some r → is_terminal (rq_state r) = false →
  (is_active (rq_state r) = true → id ∈ C) →
  ∃ p', terminal id out fb p = (p', Ok tt) ∧ wf p' ∧ evolves C p p' ∧ p_now p' = p_now p ∧
        p_requests p' !! id = Some (set_terminal out fb r) ∧
        (∀ id' r0, id' ≠ id → p_requests p !! id' = Some r0 →
                   is_terminal (rq_state r0) = false → p_requests p' !! id' = Some r0).
Proof.
  intros Hwf Hr Hlive HC.
  destruct (terminal_spec p id r out fb Hwf Hr Hlive) as (p1 & Heq & Hwf1 & Hpost).
  pose proof (tp_self _ _ _ _ Hpost) as Hself.
  exists p1. split_and!; [done|done| |apply Hpost|done|].
  - pose proof (evolves_terminal C p p1 id r _ _ Hr Hlive HC Hpost eq_refl eq_refl eq_refl
                  (same_kind_refl _) eq_refl) as He.
    rewrite insert_id in He by done. by destruct p1.
  - intros id' r0 Hne Hr0 Hl0. by eapply terminal_post_live.
Qed.

(** A loop that finishes distinct live requests, none active outside [C]. *)
Lemma finish_loop C (body : RequestId → PM unit) (ok : Request → Prop) l p :
  (∀ r, ok r → is_terminal (rq_state r) = false) →
  (∀ id r q, id ∈ l → wf q → p_requests q !! id = Some r → ok r →
     ∃ q', body id q = (q', Ok tt) ∧ wf q' ∧ evolves C q q' ∧ p_now q' = p_now q ∧
       (∀ r', p_requests q' !! id = Some r' → is_terminal (rq_state r') = true) ∧
       (∀ id' r0, id' ≠ id → p_requests q !! id' = Some r0 →
                  is_terminal (rq_state r0) = false → p_requests q' !! id' = Some r0)) →
  NoDup l → wf p → (∀ id, id ∈ l → ∃ r, p_requests p !! id = Some r ∧ ok r) →
  ∃ p', for_each l body p = (p', Ok tt) ∧ wf p' ∧ evolves C p p' ∧ p_now p' = p_now p ∧
    (∀ id r', id ∈ l → p_requests p' !! id = Some r' → is_terminal (rq_state r') = true).
Proof.
  intros Hok. revert p. induction l as [|id l IH]; intros p Hbody Hnd Hwf Hall.
  { exists p. split_and!; auto using evolves_refl. by intros ?? ?%not_elem_of_nil. }
  apply list.NoDup_cons in Hnd as [Hni Hnd].
  destruct (Hall id) as (r & Hr & Hrok); [by left|].
  destruct (Hbody id r p) as (p1 & Heq & Hwf1 & He1 & Hnow1 & Hdone & Hlive); [by left|done|done|done|].
  destruct (IH p1) as (p2 & Heq2 & Hwf2 & He2 & Hnow2 & Hdone2); [|done|done| |].
  { intros. apply (Hbody id0 r0 q); auto. by right. }
  { intros id' Hin. destruct (Hall id') as (r' & Hr' & Hok'); [by right|].
    exists r'. split; [|done]. apply Hlive; auto. by intros ->. }
  exists p2. cbn [for_each]. unfold bind. rewrite Heq. split; [done|]. split; [done|].
  split; [by eapply evolves_trans|]. split; [congruence|].
  intros id' r' [->|Hin]%elem_of_cons Hr'; [|by eapply Hdone2].
  apply (ev_requests _ _ _ He2) in Hr' as (r1 & Hr1 & _ & _ & Ht & _).
  rewrite (Ht (Hdone _ Hr1)). by apply Hdone.
Qed.

(** * Elapsed leases *)

Definition lease_due (rs : gmap RequestId Request) (now : N) (entry : RequestId * N) : bool :=
  match rq_state <$> rs !! entry.1 with
  | Some (Active _ deadline _) => (lease_release deadline entry.2 <=? now)%N
  | _ => false
  end.

Definition uncertain_entries (p : AdmissionPolicy) : list (RequestId * N) :=
  btree_values (p_groups p) ≫= λ g, btree_iter (g_uncertain g).

(** The attempts [clear_elapsed_leases] releases. *)
Definition elapsed_leases (now : N) (p : AdmissionPolicy) : list RequestId :=
  (filter (λ e, lease_due (p_requests p) now e = true) (uncertain_entries p)).*1.

Lemma elem_of_uncertain_entries p e :
  e ∈ uncertain_entries p ↔
  ∃ g gr, p_groups p !! g = Some gr ∧ g_uncertain gr !! e.1 = Some e.2.
Proof.
  unfold uncertain_entries. rewrite list_elem_of_bind. destruct e as [id since]. split.
  - intros (gr & He & [g Hg]%elem_of_btree_values). apply elem_of_btree_iter in He. eauto.
  - intros (g & gr & Hg & Hu). exists gr. rewrite elem_of_btree_iter, elem_of_btree_values. eauto.
Qed.

Lemma elem_of_elapsed_leases now p id :
  id ∈ elapsed_leases now p ↔
  ∃ g gr since, p_groups p !! g = Some gr ∧ g_uncertain gr !! id = Some since ∧
    lease_due (p_requests p) now (id, since) = true.
Proof.
  unfold elapsed_leases. rewrite list_elem_of_fmap. split.
  - intros ([id' since] & -> & [Hd (g & gr & Hg & Hu)%elem_of_uncertain_entries]%list_elem_of_filter).
    eauto 6.
  - intros (g & gr & since & Hg & Hu & Hd). exists (id, since). split; [done|].
    apply list_elem_of_filter. split; [done|]. apply elem_of_uncertain_entries. eauto.
Qed.

Lemma uncertain_entries_nodup p : wf p → NoDup (uncertain_entries p).*1.
Proof.
  intros Hwf. unfold uncertain_entries, btree_values. rewrite list_bind_fmap, fmap_list_bind.
  apply NoDup_bind_keys.
  - apply NoDup_btree_keys.
  - intros x _. apply NoDup_btree_keys.
  - intros [g1 gr1] [g2 gr2] id Hg1%elem_of_btree_iter Hg2%elem_of_btree_iter H1 H2; simpl in *.
    apply elem_of_btree_keys in H1 as [s1 H1], H2 as [s2 H2].
    destruct (wf_uncertain p Hwf _ _ _ _ Hg1 H1) as (r1 & Hr1 & <- & _).
    destruct (wf_uncertain p Hwf _ _ _ _ Hg2 H2) as (r2 & Hr2 & <- & _). congruence.
Qed.

(** Every uncertain entry is an active request, so the assertion holds. *)
Lemma lease_elapsed_pure p now e :
  wf p → e ∈ uncertain_entries p →
  lease_elapsed now e p = (p, Ok (lease_due (p_requests p) now e)).
Proof.
  intros Hwf (g & gr & Hg & Hu)%elem_of_uncertain_entries.
  destruct (wf_uncertain p Hwf g gr e.1 e.2 Hg Hu) as (r & Hr & _ & Ha).
  unfold lease_elapsed, lease_due, bind, gets. rewrite Hr; simpl.
  by destruct (rq_state r).
Qed.

Lemma wf_filter_orphans p now :
  wf p →
  wf (set_groups ((λ g, set_orphans (filter (λ o, (now < or_release_at o)%N) (g_orphans g)) g)
                    <$> p_groups p) p).
Proof.
  intros Hwf. apply wf_set_groups; [done|]. intros g. rewrite lookup_fmap.
  destruct (p_groups p !! g) as [gr|] eqn:Hg; [|done]. simpl. split; [done|].
  by eapply wf_group_ok in Hg.
Qed.

Lemma evolves_filter_orphans C p now :
  evolves C p (set_groups ((λ g, set_orphans (filter (λ o, (now < or_release_at o)%N) (g_orphans g)) g)
                             <$> p_groups p) p).
Proof.
  split; try done; simpl.
  - intros g. rewrite lookup_fmap. destruct (p_groups p !! g) as [gr|]; [|done]; simpl.
    split_and!; [by unfold same_schedule|done|]. apply sublist_filter.
  - eauto using request_evolves_refl.
  - eauto.
  - intros g gr gr' id since r' Hg. rewrite lookup_fmap, Hg. by intros [= <-].
Qed.

(** Once the elapsed leases are released, no elapsed lease is left. *)
Lemma elapsed_leases_settled C p p' now :
  wf p' → evolves C p p' →
  (∀ id r', id ∈ elapsed_leases now p → p_requests p' !! id = Some r' →
            is_terminal (rq_state r') = true) →
  elapsed_leases now p' = [].
Proof.
  intros Hwf He Hdone. apply elem_of_nil_inv. intros id Hid.
  apply elem_of_elapsed_leases in Hid as (g & gr & since & Hg & Hu & Hdue).
  destruct (wf_uncertain p' Hwf g gr id since Hg Hu) as (r' & Hr' & _ & Ha).
  assert (is_terminal (rq_state r') = true) as Ht; [|apply is_terminal_active in Ha; congruence].
  apply (Hdone id); [|done].
  destruct (ev_requests _ _ _ He id r' Hr') as (r & Hr & _ & _ & _ & _ & Hact).
  pose proof (ev_groups _ _ _ He g) as Hgs. rewrite Hg in Hgs.
  destruct (p_groups p !! g) as [gr0|] eqn:Hg0; [|done]. destruct Hgs as (_ & Hsub & _).
  apply elem_of_elapsed_leases. exists g, gr0, since. split; [done|].
  split; [by eapply lookup_weaken|]. unfold lease_due in *. simpl in *.
  rewrite Hr' in Hdue. rewrite Hr. simpl in *. destruct (rq_state r') as [|st d c|]; try done.
  by destruct (Hact st d c eq_refl) as [c' ->].
Qed.

Lemma clear_elapsed_leases_spec p now :
  wf p →
  ∃ p', clear_elapsed_leases now p = (p', Ok tt) ∧ wf p' ∧
        evolves (elapsed_leases now p) p p' ∧ p_now p' = p_now p ∧
        elapsed_leases now p' = [] ∧
        (∀ g gr o, p_groups p' !! g = Some gr → o ∈ g_orphans gr → (now < or_release_at o)%N).
Proof.
  intros Hwf. unfold clear_elapsed_leases. rewrite bind_gets.
  change (btree_values (p_groups p) ≫= _) with (uncertain_entries p).
  erewrite bind_ok
    by (apply (filter_m_pure _ (lease_due (p_requests p) now)); intros; by apply lease_elapsed_pure).
  change ((filter _ (uncertain_entries p)).*1) with (elapsed_leases now p).
  edestruct (finish_loop (elapsed_leases now p)
               (λ id, terminal id Cancelled None ;; update_request id set_lease_cleared)
               (λ r, is_active (rq_state r) = true) (elapsed_leases now p) p)
    as (p1 & Heq & Hwf1 & He1 & Hnow & Hdone).
  - intros r. apply is_terminal_active.
  - intros id r q Hin Hq Hr Ha.
    destruct (finish_spec (elapsed_leases now p) q id r Cancelled None set_lease_cleared)
      as (q' & ? & ? & ? & ? & Hself & ?); eauto using is_terminal_active; [done|].
    exists q'. split_and!; auto. rewrite Hself. by intros ? [= <-].
  - apply NoDup_fst_filter, uncertain_entries_nodup, Hwf.
  - done.
  - intros id (g & gr & since & Hg & Hu & _)%elem_of_elapsed_leases.
    destruct (wf_uncertain p Hwf _ _ _ _ Hg Hu) as (r & Hr & _ & Ha). eauto.
  - rewrite (bind_ok _ _ _ _ _ Heq). eexists. split; [done|].
    pose proof (wf_filter_orphans p1 now Hwf1) as Hwf2. split; [done|].
    pose proof (evolves_trans _ _ _ _ He1 (evolves_filter_orphans _ p1 now)) as He2.
    split; [done|]. split; [done|]. split.
    + by apply (elapsed_leases_settled _ p _ now Hwf2 He2).
    + simpl. intros g gr o Hg Ho. rewrite lookup_fmap in Hg.
      apply fmap_Some in Hg as (gr0 & _ & ->). simpl in Ho. by apply list_elem_of_filter in Ho as [? _].
Qed.

(** * The whole tick *)

Lemma hold_of_pure p g :
  is_Some (p_groups p !! g) → ∃ h, hold_of g p = (p, Ok h).
Proof.
  intros [gr Hg]. unfold hold_of. rewrite bind_gets, (bind_expect _ gr) by done.
  rewrite bind_gets. eexists. reflexivity.
Qed.

(** One expired wait: note what held it, end it. *)
Lemma expire_one_spec p id r :
  wf p → p_requests p !! id = Some r → is_queued (rq_state r) = true →
  ∃ h p', (rs <- gets p_requests ;;
           r <- expect (rs !! id) ;;
           held <- hold_of (rq_group r) ;;
           terminal id TimedOut None ;;
           update_request id (set_held held)) p = (p', Ok tt) ∧
    hold_of (rq_group r) p = (p, Ok h) ∧
    wf p' ∧ evolves [] p p' ∧ p_now p' = p_now p ∧
    p_requests p' !! id = Some (set_held h (set_terminal TimedOut None r)) ∧
    (∀ id' r0, id' ≠ id → p_requests p !! id' = Some r0 →
               is_terminal (rq_state r0) = false → p_requests p' !! id' = Some r0).
Proof.
  intros Hwf Hr Hq. rewrite bind_gets, (bind_expect _ r) by done.
  destruct (hold_of_pure p (rq_group r)) as [h Hh]; [by eapply wf_request|].
  rewrite (bind_ok _ _ _ _ _ Hh).
  destruct (finish_spec [] p id r TimedOut None (set_held h)) as (p' & ? & ? & ? & ? & ? & ?);
    eauto using is_terminal_queued.
  - by destruct (rq_state r).
  - done.
  - exists h, p'. split_and!; auto.
Qed.

Definition expired_ids (now : N) (p : AdmissionPolicy) : list RequestId :=
  (filter (λ ir, queue_expired now (rq_state ir.2) = true) (btree_iter (p_requests p))).*1.

Lemma elem_of_expired_ids now p id :
  id ∈ expired_ids now p ↔
  ∃ r, p_requests p !! id = Some r ∧ queue_expired now (rq_state r) = true.
Proof.
  unfold expired_ids. rewrite list_elem_of_fmap. split.
  - intros ([id' r] & -> & [Hq Hin%elem_of_btree_iter]%list_elem_of_filter). eauto.
  - intros (r & Hr & Hq). exists (id, r). by rewrite list_elem_of_filter, elem_of_btree_iter.
Qed.

Lemma queue_expired_queued now s : queue_expired now s = true → is_queued s = true.
Proof. by destruct s. Qed.

Lemma require_cancellation_kind now r :
  same_kind r (require_cancellation now r) ∧ request_evolves r (require_cancellation now r).
Proof.
  unfold require_cancellation. destruct (rq_state r) as [d|st d c|o] eqn:Hs;
    try case_match; split; try apply same_kind_refl; try apply request_evolves_refl.
  - unfold same_kind. simpl. by rewrite Hs.
  - split_and!; simpl; try done; rewrite Hs; [done|]. intros ??? [= <- <- <-]. eauto.
Qed.

Lemma evolves_require_cancellation C p now :
  evolves C p (set_requests (require_cancellation now <$> p_requests p) p).
Proof.
  split; try done; simpl.
  - intros g. destruct (p_groups p !! g); [|done]. auto using same_schedule_refl.
  - intros id r'. rewrite lookup_fmap. intros (r & Hr & ->)%fmap_Some.
    exists r. split; [done|]. apply require_cancellation_kind.
  - intros id r Hr Ha _. exists (require_cancellation now r). rewrite lookup_fmap, Hr. split; [done|].
    destruct (require_cancellation_kind now r) as [(_ & _ & -> & _) _]. done.
  - congruence.
Qed.

(** What holds of a state whose clock is [now]: nothing due is left undone. *)
Record settled (now : N) (p : AdmissionPolicy) : Prop := {
  st_now : p_now p = now;
  st_leases : elapsed_leases now p = [];
  st_orphans : ∀ g gr o, p_groups p !! g = Some gr → o ∈ g_orphans gr → (now < or_release_at o)%N;
  st_queued : ∀ id r d, p_requests p !! id = Some r → rq_state r = Queued d → (now < d)%N;
  st_active : ∀ id r st d c, p_requests p !! id = Some r → rq_state r = Active st d c →
    (d ≤ now)%N → c = true;
}.

Lemma tick_regression p now : (now < p_now p)%N → tick now p = (p, Err TimeRegression).
Proof.
  intros Hlt. unfold tick. rewrite bind_gets. by destruct (N.ltb_spec now (p_now p)); [|lia].
Qed.

(** After the expiry loop and the cancellation requests, no wait and no
    attempt without a cancellation request is past its deadline. *)
Lemma unexpired_waits lost now p1 p2 :
  evolves lost p1 p2 →
  (∀ id r, id ∈ expired_ids now p1 → p_requests p2 !! id = Some r → is_terminal (rq_state r) = true) →
  ∀ id r d, (require_cancellation now <$> p_requests p2) !! id = Some r → rq_state r = Queued d → (now < d)%N.
Proof.
  intros He Hdone id r' d. rewrite lookup_fmap. intros (r2 & Hr2 & ->)%fmap_Some Hq.
  assert (require_cancellation now r2 = r2) as Hid.
  { apply require_cancellation_kind. by rewrite Hq. }
  rewrite Hid in Hq. destruct (ev_requests _ _ _ He id r2 Hr2) as (r1 & Hr1 & _ & _ & _ & Heq & _).
  rewrite Hq in Heq. specialize (Heq eq_refl). subst r2.
  destruct (N.lt_ge_cases now d) as [|Hd]; [done|].
  assert (is_terminal (rq_state r1) = true) as Ht; [|by rewrite Hq in Ht].
  apply (Hdone id r1); [|done]. apply elem_of_expired_ids. exists r1. split; [done|].
  rewrite Hq. simpl. by apply N.leb_le.
Qed.

Lemma live_attempts now (m : gmap RequestId Request) id r st d c :
  (require_cancellation now <$> m) !! id = Some r → rq_state r = Active st d c → (d ≤ now)%N → c = true.
Proof.
  rewrite lookup_fmap. intros (r2 & Hr2 & ->)%fmap_Some Ha Hd.
  unfold require_cancellation in Ha. destruct (rq_state r2) as [|st2 d2 c2|] eqn:Hs; try congruence.
  destruct (N.leb_spec d2 now); simpl in Ha; [congruence|].
  rewrite Hs in Ha. injection Ha as _ Hdd _. lia.
Qed.

Lemma tick_spec p now :
  wf p → (p_now p ≤ now)%N →
  ∃ p', tick now p = (p', Ok tt) ∧ wf p' ∧ evolves (elapsed_leases now p) p p' ∧ settled now p'.
Proof.
  intros Hwf Hnow. unfold tick. rewrite bind_gets.
  destruct (N.ltb_spec now (p_now p)) as [|_]; [lia|]. rewrite bind_modify.
  destruct (clear_elapsed_leases_spec (set_now now p) now) as (p1 & Heq1 & Hwf1 & He1 & Hnow1 & Hl1 & Ho1);
    [by apply wf_set_now|].
  rewrite (bind_ok _ _ _ _ _ Heq1), bind_gets.
  change ((filter _ (btree_iter (p_requests p1))).*1) with (expired_ids now p1).
  edestruct (finish_loop [] (λ id, rs <- gets p_requests ;; r <- expect (rs !! id) ;;
       held <- hold_of (rq_group r) ;; terminal id TimedOut None ;; update_request id (set_held held))
      (λ r, is_queued (rq_state r) = true) (expired_ids now p1) p1)
    as (p2 & Heq2 & Hwf2 & He2 & Hnow2 & Hdone).
  { intros r. apply is_terminal_queued. }
  { intros id r q _ Hq Hr Hrq.
    destruct (expire_one_spec q id r Hq Hr Hrq) as (h & q' & ? & _ & ? & ? & ? & Hself & ?).
    exists q'. split_and!; auto. rewrite Hself. by intros ? [= <-]. }
  { apply NoDup_fst_filter, NoDup_btree_keys. }
  { done. }
  { intros id (r & Hr & Hq%queue_expired_queued)%elem_of_expired_ids. eauto. }
  rewrite (bind_ok _ _ _ _ _ Heq2). eexists. split; [done|].
  pose proof (evolves_trans _ _ _ _ (evolves_set_now (elapsed_leases now p) p now) He1) as E1.
  assert (evolves (elapsed_leases now p) p1 p2) as E2 by (eapply evolves_weaken; [|done]; set_solver).
  pose proof (evolves_require_cancellation (elapsed_leases now p) p2 now) as E3.
  assert (wf (set_requests (require_cancellation now <$> p_requests p2) p2)) as Hwf3.
  { apply wf_fmap_requests; [done|]. apply require_cancellation_kind. }
  split; [done|]. split; [by eapply evolves_trans, E3; eapply evolves_trans|].
  split; simpl.
  - by rewrite Hnow2, Hnow1.
  - apply (elapsed_leases_settled _ p1 _ now Hwf3 (evolves_trans _ _ _ _ E2 E3)).
    rewrite Hl1. by intros ?? ?%not_elem_of_nil.
  - intros g gr o Hg Ho. pose proof (ev_groups _ _ _ He2 g) as Hgs. rewrite Hg in Hgs.
    destruct (p_groups p1 !! g) as [gr1|] eqn:Hg1; [|done]. destruct Hgs as (_ & _ & Hsub).
    eapply Ho1; [done|]. by eapply elem_of_submseteq, sublist_submseteq.
  - by eapply unexpired_waits.
  - apply live_attempts.
Qed.
