(* ===== verification/AdmissionDispatch.v ===== *)
(** Every operation of the admission authority keeps the invariant and never
    panics: no [expect], map index, unsigned subtraction or [debug_assert!] of
    the policy can fail in a well-formed state. *)

From S2P Require Import Prelude AdmissionTypes AdmissionPolicy AdmissionInv AdmissionTick.

(** [m] ends without a panic in a well-formed state. *)
Definition keeps {A} (m : PM A) (p : AdmissionPolicy) : Prop :=
  wp m (λ r p', no_panic r ∧ wf p') p.

Create HintDb admission.
#[export] Hint Resolve same_kind_refl is_terminal_active is_terminal_queued : admission.

Section rules.
Context {A : Type}.
Implicit Types (p : AdmissionPolicy).

Lemma keeps_ret (a : A) p : wf p → keeps (ret a) p.
Proof. done. Qed.

Lemma keeps_throw e p : wf p → keeps (@throw _ _ A e) p.
Proof. done. Qed.

Lemma keeps_run (m : PM A) p p' a : m p = (p', Ok a) → wf p' → keeps m p.
Proof. unfold keeps, wp. by intros ->. Qed.

Lemma keeps_bind {B} (m : PM B) (k : B → PM A) p :
  keeps m p → (∀ p' b, m p = (p', Ok b) → wf p' → keeps (k b) p') → keeps (bind m k) p.
Proof.
  unfold keeps, wp, bind. destruct (m p) as [p' [b|e|]]; simpl; [|tauto|tauto].
  intros [_ Hwf] Hk. by apply Hk.
Qed.

Lemma keeps_ok_or {B} (o : option B) e (k : B → PM A) p :
  wf p → (∀ b, o = Some b → keeps (k b) p) → keeps (bind (ok_or o e) k) p.
Proof. destruct o; intros Hwf Hk; [by apply Hk|done]. Qed.

Lemma keeps_gets {B} (f : AdmissionPolicy → B) (k : B → PM A) p :
  keeps (k (f p)) p → keeps (bind (gets f) k) p.
Proof. done. Qed.

Lemma keeps_reads {B} (f : AdmissionPolicy → res AdmissionError B) (k : B → PM A) p :
  wf p → no_panic (f p) → (∀ b, f p = Ok b → keeps (k b) p) → keeps (bind (reads f) k) p.
Proof. unfold keeps, wp, bind, reads. destruct (f p); simpl; auto. Qed.
End rules.
#[export] Hint Resolve keeps_ret keeps_throw : admission.

(** * The common prefix of the client operations *)

Lemma scope_evolves C p p' sid : evolves C p p' → scope sid p' = scope sid p.
Proof. intros He. unfold scope. by rewrite (ev_epoch _ _ _ He), (ev_scopes _ _ _ He). Qed.

Lemma scope_Ok p sid sc :
  scope sid p = Ok sc ↔
  sid_epoch sid = p_epoch p ∧ p_scopes p !! sid = Some sc ∧ sc_retired sc = false.
Proof.
  unfold scope. split.
  - destruct (N.eqb_spec (sid_epoch sid) (p_epoch p)); simpl; [|done].
    destruct (p_scopes p !! sid) as [sc'|]; [|done].
    destruct (sc_retired sc') eqn:Hret; [done|]. by intros [= ->].
  - intros (-> & -> & ->). by rewrite N.eqb_refl.
Qed.

Lemma scope_no_panic p sid : no_panic (scope sid p).
Proof. unfold scope. by repeat case_match. Qed.

(** A run of [tick]: it fails only on a clock that runs backwards. *)
Lemma keeps_tick {A} p now (k : PM A) :
  wf p →
  (∀ p', tick now p = (p', Ok tt) → wf p' → settled now p' →
         evolves (elapsed_leases now p) p p' → keeps k p') →
  keeps (tick now ;; k) p.
Proof.
  intros Hwf Hk. destruct (N.lt_ge_cases now (p_now p)) as [Hlt|Hle].
  - unfold keeps, wp. by rewrite (bind_err _ _ _ _ _ (tick_regression _ _ Hlt)).
  - destruct (tick_spec p now Hwf Hle) as (p' & Heq & Hwf' & He & Hst).
    unfold keeps, wp. rewrite (bind_ok _ _ _ _ _ Heq). by apply Hk.
Qed.

(** The prefix [self.scope(..)?; self.tick(..)?]. *)
Lemma keeps_scoped {A} p sid now (k : PM A) :
  wf p →
  (∀ p' sc, wf p' → settled now p' → evolves (elapsed_leases now p) p p' →
            scope sid p' = Ok sc → keeps k p') →
  keeps (_ <- reads (scope sid) ;; tick now ;; k) p.
Proof.
  intros Hwf Hk. apply keeps_reads; [done|apply scope_no_panic|]. intros sc Hsc.
  apply keeps_tick; [done|]. intros p' _ Hwf' Hst He. apply (Hk p' sc); auto.
  by rewrite (scope_evolves _ _ _ _ He).
Qed.

(** [self.request(scope, sequence)?] in a scope known to be live. *)
Lemma keeps_request {A} p sid sequence sc (k : Request → PM A) :
  wf p → scope sid p = Ok sc →
  (∀ r, p_requests p !! mkRequestId sid sequence = Some r → keeps (k r) p) →
  keeps (bind (reads (request sid sequence)) k) p.
Proof.
  intros Hwf Hsc Hk. unfold keeps, wp, bind, reads, request. rewrite Hsc.
  destruct (p_requests p !! mkRequestId sid sequence) as [r|] eqn:Hr; [|done]. by apply Hk.
Qed.

Lemma group_policy p g gr :
  wf p → p_groups p !! g = Some gr → ∃ gp, ac_groups (p_config p) !! g = Some gp.
Proof. intros Hwf Hg. apply (wf_groups p Hwf). eauto. Qed.

(** * Scopes *)

Lemma wf_set_scopes p ss' n' :
  wf p → (p_next_serial p ≤ n')%N →
  (∀ sid sc, p_scopes p !! sid = Some sc →
     ∃ sc', ss' !! sid = Some sc' ∧ sc_class sc' = sc_class sc ∧
            (sc_high_water sc ≤ sc_high_water sc')%N) →
  (∀ sid sc, ss' !! sid = Some sc → sid_epoch sid = p_epoch p ∧ (sid_serial sid ≤ n')%N) →
  count_map (λ _ sc, negb (sc_retired sc)) ss' ≤ ac_max_scopes (p_config p) →
  wf (set_scopes ss' (set_next_serial n' p)).
Proof.
  intros Hwf Hn Hold Hnew Hlive. split; simpl; try done; try apply Hwf.
  - intros id r Hr. destruct (wf_request p Hwf id r Hr) as [(sc & Hsc & Hle) Hg]. split; [|done].
    destruct (Hold _ _ Hsc) as (sc' & Hsc' & _ & Hhw). exists sc'. split; [done|lia].
  - intros g gp Hgp. destruct (wf_counts p Hwf g gp Hgp) as (H1 & H2 & H3). split_and!; [done| |done].
    unfold background_count in *. simpl. erewrite count_map_ext; [done|].
    intros id r Hr. unfold background_in. f_equal. unfold scope_is_background.
    destruct (wf_request p Hwf id r Hr) as [(sc & Hsc & _) _].
    destruct (Hold _ _ Hsc) as (sc' & Hsc' & Hc & _). by rewrite Hsc, Hsc', Hc.
Qed.

Lemma keeps_register p root class : wf p → keeps (register root class) p.
Proof.
  intros Hwf. unfold register. unfold keeps, wp. rewrite !bind_gets.
  destruct (Nat.leb_spec (ac_max_scopes (p_config p))
              (count_map (λ _ sc, negb (sc_retired sc)) (p_scopes p))) as [|Hlt]; [done|].
  rewrite bind_gets. destruct (u64_checked_add (p_next_serial p) 1) as [serial|] eqn:Hser; [|done].
  apply u64_checked_add_Some in Hser as [-> Hser]. cbn. split; [done|].
  set (id := mkScopeId (p_epoch p) (p_next_serial p + 1)).
  assert (p_scopes p !! id = None) as Hfresh.
  { destruct (p_scopes p !! id) as [sc|] eqn:Hid; [|done].
    apply (wf_scope p Hwf) in Hid as [_ Hle]. simpl in Hle. lia. }
  apply wf_set_scopes; [done|lia|..].
  - intros sid sc Hsc. exists sc. rewrite lookup_insert_ne; [split_and!; [done|done|lia]|congruence].
  - intros sid sc. rewrite lookup_insert. case_decide.
    + intros [= <-]. subst. simpl. split; [done|lia].
    + intros Hsc. apply (wf_scope p Hwf) in Hsc as [? ?]. split; [done|lia].
  - rewrite count_map_insert_fresh by done. simpl. lia.
Qed.

Lemma keeps_register_child p parent : wf p → keeps (register_child parent) p.
Proof.
  intros Hwf. apply keeps_reads; [done|apply scope_no_panic|]. intros sc _. by apply keeps_register.
Qed.

(** Changing one scope without touching its class. *)
Lemma keeps_update_scope p sid sc f :
  wf p → p_scopes p !! sid = Some sc →
  sc_class (f sc) = sc_class sc → (sc_high_water sc ≤ sc_high_water (f sc))%N →
  (sc_retired (f sc) = false → sc_retired sc = false) →
  ∃ p', update_scope sid f p = (p', Ok tt) ∧ wf p' ∧
        p' = set_scopes (<[sid := f sc]> (p_scopes p)) p.
Proof.
  intros Hwf Hsc Hc Hhw Hret. unfold update_scope. rewrite bind_gets, (bind_expect _ sc) by done.
  eexists. split; [done|]. split; [|done].
  replace (set_scopes (<[sid := f sc]> (p_scopes p)) p)
    with (set_scopes (<[sid := f sc]> (p_scopes p)) (set_next_serial (p_next_serial p) p)) by done.
  apply wf_set_scopes; [done|lia|..].
  - intros sid' sc' Hsc'. rewrite lookup_insert. case_decide; subst.
    + exists (f sc). split_and!; [done|congruence|]. replace sc' with sc by congruence. done.
    + exists sc'. split_and!; [done|done|lia].
  - intros sid' sc' Hsc'. rewrite lookup_insert in Hsc'. case_decide; subst.
    + by apply (wf_scope p Hwf sid' sc).
    + by apply (wf_scope p Hwf sid' sc').
  - pose proof (count_map_insert (λ _ sc, negb (sc_retired sc)) (p_scopes p) sid sc (f sc) Hsc) as Hcnt.
    pose proof (wf_live p Hwf) as Hlive. unfold live_scopes in Hlive.
    cbn in Hcnt. destruct (sc_retired sc) eqn:?, (sc_retired (f sc)) eqn:?; simpl in Hcnt;
      first [lia | by specialize (Hret eq_refl)].
Qed.

Lemma keeps_retire p sid : wf p → keeps (retire sid) p.
Proof.
  intros Hwf. apply keeps_reads; [done|apply scope_no_panic|]. intros sc Hsc.
  unfold keeps, wp. rewrite bind_gets. destruct (existsb _ _); [done|].
  set (queued := fmap fst _).
  destruct (finish_loop [] (λ id, terminal id Cancelled None)
              (λ r, is_queued (rq_state r) = true) queued p) as (p1 & Heq & Hwf1 & He & _).
  - auto with admission.
  - intros id r q _ Hq Hr Hrq.
    destruct (terminal_step [] q id r Cancelled None Hq Hr) as (q' & ? & ? & ? & ? & Hself & ?);
      [auto with admission|by destruct (rq_state r)|].
    exists q'. split_and!; auto. rewrite Hself. by intros ? [= <-].
  - apply NoDup_fst_filter, NoDup_btree_keys.
  - done.
  - intros id ([id' r] & -> & [Hq Hin%elem_of_btree_iter]%list_elem_of_filter)%list_elem_of_fmap.
    split_bools. simpl in *. eauto.
  - rewrite (bind_ok _ _ _ _ _ Heq). apply scope_Ok in Hsc as (_ & Hsc & _).
    rewrite <- (ev_scopes _ _ _ He) in Hsc.
    edestruct (keeps_update_scope p1 sid sc) as (p2 & Heq2 & Hwf2 & _); [done|done| | | |].
    4: { rewrite Heq2. done. }
    all: simpl; try done; lia.
Qed.

(** Dispatch at the admission authority: which queued request a grant picks
    ([candidate], [round_robin]) and what a grant does to the state ([next]). *)

(** * Queue heads *)

(** The queued requests of a group whose scope has the class. *)
Definition eligible (ss : gmap ScopeId Scope) (g : GroupId) (class : WorkloadClass)
    (ir : RequestId * Request) : bool :=
  match ss !! rid_scope ir.1 with
  | Some sc => in_group g ir.2 && bool_decide (sc_class sc = class) && is_queued (rq_state ir.2)
  | None => false
  end.

Definition head_step (ss : gmap ScopeId Scope) (g : GroupId) (class : WorkloadClass)
    (heads : Heads) (ir : RequestId * Request) : Heads :=
  match ss !! rid_scope ir.1 with
  | Some sc => if eligible ss g class ir then add_head heads (sc_root sc) (rid_scope ir.1) ir.1 else heads
  | None => heads
  end.

Definition heads_of (ss : gmap ScopeId Scope) (g : GroupId) (class : WorkloadClass)
    (l : list (RequestId * Request)) : Heads := foldl (head_step ss g class) ∅ l.

Definition head_at (heads : Heads) (root agent : ScopeId) : option RequestId :=
  heads !! root ≫= λ agents, agents !! agent.

Definition root_of (ss : gmap ScopeId Scope) (sid : ScopeId) : option ScopeId := sc_root <$> ss !! sid.

Lemma head_at_add heads root agent id root' agent' :
  head_at (add_head heads root agent id) root' agent' =
  match head_at heads root' agent' with
  | Some x => Some x
  | None => if decide (root = root' ∧ agent = agent') then Some id else None
  end.
Proof.
  unfold head_at, add_head. rewrite lookup_insert. case_decide as Hr; [subst|]; simpl.
  - destruct (heads !! root') as [agents|] eqn:Hh; simpl.
    + destruct (agents !! agent) as [x|] eqn:Ha.
      * destruct (agents !! agent') eqn:Ha'; [done|]. case_decide as Hd; [|done].
        destruct Hd as [_ ->]. congruence.
      * rewrite lookup_insert. repeat case_decide; subst; rewrite ?Ha; try done.
        -- tauto.
        -- destruct_and!. done.
        -- by destruct (agents !! agent').
    + rewrite lookup_empty, lookup_insert. repeat case_decide; subst; try done; tauto.
  - destruct (heads !! root' ≫= _); [done|]. case_decide; [|done]. tauto.
Qed.

(** A head is the first eligible request of its agent, in key order. *)
Lemma heads_of_spec ss g class l root agent :
  root_of ss agent = Some root →
  head_at (heads_of ss g class l) root agent =
  head (filter (λ ir, eligible ss g class ir = true ∧ rid_scope ir.1 = agent) l).*1.
Proof.
  intros Hroot. unfold heads_of. induction l as [|x l IH] using rev_ind; [done|].
  rewrite foldl_snoc, list.filter_app, fmap_app, head_app, <- IH. unfold head_step.
  unfold root_of in Hroot. apply fmap_Some in Hroot as (sca & Hsca & ->).
  destruct (ss !! rid_scope x.1) as [sc|] eqn:Hsc.
  - destruct (eligible ss g class x) eqn:Hel.
    + rewrite head_at_add. destruct (head_at _ _ _); [done|]. simpl.
      rewrite filter_cons. destruct (decide (rid_scope x.1 = agent)) as [<-|Hne].
      * rewrite !decide_True; [done|done|]. split; [|done]. congruence.
      * by rewrite !decide_False by tauto.
    + rewrite filter_cons, decide_False by (rewrite Hel; by intros [? _]). simpl.
      by destruct (head_at _ _ _).
  - rewrite filter_cons, decide_False; [by simpl; destruct (head_at _ _ _)|].
    unfold eligible. rewrite Hsc. by intros [? _].
Qed.

(** Every agent of the heads table sits under its own root. *)
Lemma heads_of_root ss g class l root agent id :
  head_at (heads_of ss g class l) root agent = Some id → root_of ss agent = Some root.
Proof.
  unfold heads_of. induction l as [|x l IH] using rev_ind; [done|].
  rewrite foldl_snoc. unfold head_step. destruct (ss !! rid_scope x.1) as [sc|] eqn:Hsc; [|done].
  destruct (eligible ss g class x); [|done]. rewrite head_at_add.
  destruct (head_at _ _ _) as [y|] eqn:Hy; [by intros [= <-]; apply IH|].
  case_decide as Hd; [|done]. destruct Hd as [<- <-]. intros _. unfold root_of. by rewrite Hsc.
Qed.

(** No root of the table is without agents. *)
Lemma heads_of_nonempty ss g class l root agents :
  heads_of ss g class l !! root = Some agents → agents ≠ ∅.
Proof.
  unfold heads_of. revert root agents. induction l as [|x l IH] using rev_ind; [done|].
  intros root agents. rewrite foldl_snoc. unfold head_step.
  destruct (ss !! rid_scope x.1) as [sc|]; [|apply IH].
  destruct (eligible ss g class x); [|apply IH]. unfold add_head. rewrite lookup_insert.
  case_decide; [subst|apply IH]. intros [= <-].
  destruct (default ∅ _ !! rid_scope x.1) as [y|] eqn:Hy; [|apply insert_non_empty].
  intros He. rewrite He in Hy. by rewrite lookup_empty in Hy.
Qed.

(** * Round robin *)

Lemma round_robin_elem keys after k : round_robin keys after = Some k → k ∈ keys.
Proof.
  unfold round_robin. destruct after as [prev|]; simpl.
  - destruct (List.find _ keys) as [x|] eqn:Hf.
    + intros [= <-]. apply List.find_some in Hf as [Hin _]. by apply list_elem_of_In.
    + destruct keys; [done|]. intros [= <-]. by left.
  - destruct keys; [done|]. intros [= <-]. by left.
Qed.

Lemma round_robin_None keys after : round_robin keys after = None → keys = [].
Proof. unfold round_robin. destruct (after ≫= _); [done|]. by destruct keys. Qed.

(** The key picked is the least one above the cursor; only when there is none
    does the turn wrap to the least key of all. *)
Lemma round_robin_next keys prev k :
  StronglySorted key_le keys → round_robin keys (Some prev) = Some k →
  (key_lt prev k ∧ ∀ x, x ∈ keys → key_lt prev x → key_le k x) ∨
  ((∀ x, x ∈ keys → ¬ key_lt prev x) ∧ ∀ x, x ∈ keys → key_le k x).
Proof.
  intros Hs. unfold round_robin; simpl. destruct (List.find _ keys) as [y|] eqn:Hf.
  - intros [= <-]. left. split.
    + apply List.find_some in Hf as [_ Hf]. by apply bool_decide_eq_true in Hf.
    + revert Hf. induction Hs as [|z l Hl IH Hall]; simpl; [done|].
      destruct (bool_decide (key_lt prev z)) eqn:Hz.
      * intros [= <-] x [->|Hin]%elem_of_cons _; [apply key_le_refl|].
        rewrite Forall_forall in Hall. apply Hall. by apply list_elem_of_In.
      * intros Hf x [->|Hin]%elem_of_cons Hlt; [|by apply IH].
        by apply bool_decide_eq_false in Hz.
  - intros Hh. right. split.
    + intros x Hx Hlt. apply list_elem_of_In in Hx. eapply List.find_none in Hf; [|done].
      by apply bool_decide_eq_false in Hf.
    + destruct Hs as [|z l Hl Hall]; [done|]. injection Hh as <-.
      intros x [->|Hin]%elem_of_cons; [apply key_le_refl|].
      rewrite Forall_forall in Hall. apply Hall. by apply list_elem_of_In.
Qed.

(** * The candidate of a class *)

Lemma eligible_spec ss g class id r :
  eligible ss g class (id, r) = true ↔
  ∃ sc, ss !! rid_scope id = Some sc ∧ rq_group r = g ∧ sc_class sc = class ∧
        is_queued (rq_state r) = true.
Proof.
  unfold eligible, in_group; simpl. split.
  - destruct (ss !! rid_scope id) as [sc|]; [|done]. intros. split_bools. eauto.
  - intros (sc & -> & -> & -> & ->). by rewrite !bool_decide_eq_true_2.
Qed.

(** [id] waits in group [g] with class [class], and no other waiting request of
    its scope and group has a smaller sequence. *)
Definition is_queue_head (p : AdmissionPolicy) (g : GroupId) (class : WorkloadClass) (id : RequestId)
    : Prop :=
  ∃ r sc, p_requests p !! id = Some r ∧ p_scopes p !! rid_scope id = Some sc ∧
    rq_group r = g ∧ is_queued (rq_state r) = true ∧ sc_class sc = class ∧
    ∀ id' r', p_requests p !! id' = Some r' → rid_scope id' = rid_scope id →
      rq_group r' = g → is_queued (rq_state r') = true → (rid_sequence id ≤ rid_sequence id')%N.

Definition none_waiting (p : AdmissionPolicy) (g : GroupId) (class : WorkloadClass) : Prop :=
  ∀ id r, p_requests p !! id = Some r → eligible (p_scopes p) g class (id, r) = false.

Definition heads_at (p : AdmissionPolicy) (g : GroupId) (class : WorkloadClass) : Heads :=
  heads_of (p_scopes p) g class (btree_iter (p_requests p)).

Lemma candidate_fold p g class :
  wf p →
  fold_m (λ heads ir,
      sc <- expect (p_scopes p !! rid_scope ir.1) ;;
      ret (if in_group g ir.2 && bool_decide (sc_class sc = class) && is_queued (rq_state ir.2)
           then add_head heads (sc_root sc) (rid_scope ir.1) ir.1
           else heads)) (∅ : Heads) (btree_iter (p_requests p)) p
  = (p, Ok (heads_at p g class) : res AdmissionError Heads).
Proof.
  intros Hwf. apply fold_m_pure. intros heads [id r] Hin%elem_of_btree_iter; simpl.
  destruct (wf_request p Hwf id r Hin) as [(sc & Hsc & _) _].
  rewrite (bind_expect _ sc) by done. unfold head_step, eligible, ret. simpl. by rewrite Hsc.
Qed.

Lemma heads_at_head p g class root agent id :
  wf p → head_at (heads_at p g class) root agent = Some id → is_queue_head p g class id.
Proof.
  intros Hwf Hh. unfold heads_at in Hh. pose proof (heads_of_root _ _ _ _ _ _ _ Hh) as Hroot.
  rewrite (heads_of_spec _ _ _ _ _ _ Hroot) in Hh.
  apply head_filter_least in Hh as (r & Hin & [Hel Hag] & Hmin); [|apply StronglySorted_btree_iter].
  simpl in *. apply elem_of_btree_iter in Hin. apply eligible_spec in Hel as (sc & Hsc & Hg & Hc & Hq).
  exists r, sc. split_and!; try done. intros id' r' Hr' Hs' Hg' Hq'.
  assert (RequestId_le id id') as Hle.
  { apply (Hmin (id', r')); [by apply elem_of_btree_iter|]. simpl. split; [|congruence].
    apply eligible_spec. exists sc. by rewrite Hs'. }
  destruct Hle as [[_ Hne]|[_ Hle]]; [congruence|done].
Qed.

Lemma heads_at_empty p g class : wf p → btree_keys (heads_at p g class) = [] → none_waiting p g class.
Proof.
  intros Hwf Hk id r Hr. destruct (eligible _ _ _ _) eqn:Hel; [|done].
  pose proof Hel as Hel'. apply eligible_spec in Hel' as (sc & Hsc & _).
  assert (root_of (p_scopes p) (rid_scope id) = Some (sc_root sc)) as Hroot
    by (unfold root_of; by rewrite Hsc).
  pose proof (heads_of_spec (p_scopes p) g class (btree_iter (p_requests p)) _ _ Hroot) as Hspec.
  change (heads_of _ _ _ _) with (heads_at p g class) in Hspec.
  destruct (heads_at p g class !! sc_root sc) as [agents|] eqn:Ha.
  - assert (sc_root sc ∈ btree_keys (heads_at p g class)) as Hin by (apply elem_of_btree_keys; eauto).
    rewrite Hk in Hin. by apply not_elem_of_nil in Hin.
  - unfold head_at in Hspec. rewrite Ha in Hspec. simpl in Hspec. symmetry in Hspec.
    assert ((id, r) ∈ filter (λ ir, eligible (p_scopes p) g class ir = true ∧ rid_scope ir.1 = rid_scope id)
              (btree_iter (p_requests p))) as Hin
      by (apply list_elem_of_filter; split; [done|by apply elem_of_btree_iter]).
    destruct (filter _ (btree_iter _)); [by apply not_elem_of_nil in Hin|done].
Qed.

Lemma candidate_spec p g gr class :
  wf p → p_groups p !! g = Some gr →
  ∃ o, candidate g class p = (p, Ok o) ∧
    match o with
    | Some id => is_queue_head p g class id
    | None => none_waiting p g class
    end.
Proof.
  intros Hwf Hg. unfold candidate. rewrite !bind_gets, (bind_ok _ _ _ _ _ (candidate_fold p g class Hwf)).
  rewrite bind_gets, (bind_expect _ gr) by done.
  destruct (round_robin (btree_keys (heads_at p g class)) _) as [root|] eqn:Hroot.
  - apply round_robin_elem, elem_of_btree_keys in Hroot as [agents Hag].
    rewrite (bind_expect _ agents) by done.
    destruct (round_robin (btree_keys agents) _) as [agent|] eqn:Hagent.
    + apply round_robin_elem, elem_of_btree_keys in Hagent as [id Hid].
      rewrite (bind_expect _ id) by done. exists (Some id). split; [done|].
      apply (heads_at_head p g class root agent id Hwf). unfold head_at. by rewrite Hag.
    + exfalso. apply round_robin_None in Hagent. apply (heads_of_nonempty _ _ _ _ _ _ Hag).
      apply map_empty. intros k. destruct (agents !! k) as [v|] eqn:Hk; [|done].
      assert (k ∈ btree_keys agents) as Hin by (apply elem_of_btree_keys; eauto).
      rewrite Hagent in Hin. by apply not_elem_of_nil in Hin.
  - exists None. split; [done|]. apply heads_at_empty; [done|]. by eapply round_robin_None.
Qed.

(** * Granting *)

Lemma background_in_flight_spec p g :
  wf p → background_in_flight g p = (p, Ok (background_count g p)).
Proof.
  intros Hwf. unfold background_in_flight. rewrite !bind_gets.
  erewrite bind_ok.
  2:{ apply (filter_m_pure _ (λ ir, background_in (p_scopes p) g ir.1 ir.2)).
      intros [id r] Hin%elem_of_btree_iter. unfold background_in, active_in. simpl.
      destruct (in_group g r && is_active (rq_state r)); [|done]. simpl.
      destruct (wf_request p Hwf id r Hin) as [(sc & Hsc & _) _].
      rewrite (bind_expect _ sc) by done. unfold scope_is_background. by rewrite Hsc. }
  unfold ret. do 2 f_equal. apply length_filter_btree.
Qed.

Lemma background_le_active g p : background_count g p ≤ active_count g p.
Proof.
  apply count_map_mono. intros id r _. unfold background_in. by intros [? _]%andb_prop.
Qed.

(** The state after a grant. *)
Definition granted (p : AdmissionPolicy) (g : GroupId) (gr' : Group) (id : RequestId) (r : Request)
    (now deadline : N) : AdmissionPolicy :=
  set_requests (<[id := set_state (Active now deadline false) r]> (p_requests p))
    (set_groups (<[g := gr']> (p_groups p)) p).

(** What starting a queued attempt does to the counts of a group. *)
Lemma grant_counts p id r sc now deadline g0 :
  p_requests p !! id = Some r → is_queued (rq_state r) = true →
  p_scopes p !! rid_scope id = Some sc →
  let q := set_requests (<[id := set_state (Active now deadline false) r]> (p_requests p)) p in
  let mine := Nat.b2n (bool_decide (rq_group r = g0)) in
  let back := Nat.b2n (bool_decide (rq_group r = g0) && bool_decide (sc_class sc = Background)) in
  active_count g0 q = mine + active_count g0 p ∧
  queued_count g0 q + mine = queued_count g0 p ∧
  background_count g0 q = back + background_count g0 p.
Proof.
  intros Hr Hq Hsc. set (r' := set_state (Active now deadline false) r).
  assert (is_active (rq_state r) = false) as Hna by (by destruct (rq_state r)).
  assert (active_in g0 id r = false ∧ active_in g0 id r' = bool_decide (rq_group r = g0)) as [A1 A2].
  { unfold active_in, in_group. simpl. by rewrite Hna, andb_false_r, andb_true_r. }
  assert (queued_in g0 id r = bool_decide (rq_group r = g0) ∧ queued_in g0 id r' = false) as [Q1 Q2].
  { unfold queued_in, in_group. simpl. by rewrite Hq, andb_false_r, andb_true_r. }
  unfold active_count, queued_count, background_count. simpl.
  pose proof (count_map_insert (active_in g0) (p_requests p) id r r' Hr) as Ca.
  pose proof (count_map_insert (queued_in g0) (p_requests p) id r r' Hr) as Cq.
  pose proof (count_map_insert (background_in (p_scopes p) g0) (p_requests p) id r r' Hr) as Cb.
  unfold background_in at 2 3 in Cb. unfold scope_is_background in Cb. rewrite Hsc in Cb.
  rewrite A1, A2 in *. rewrite Q1, Q2 in Cq. simpl in *. lia.
Qed.

Lemma wf_grant p g gp gr gr' id r sc now deadline :
  wf p → ac_groups (p_config p) !! g = Some gp → p_groups p !! g = Some gr →
  g_uncertain gr' ⊆ g_uncertain gr → group_ok gr' →
  p_requests p !! id = Some r → rq_group r = g → is_queued (rq_state r) = true →
  p_scopes p !! rid_scope id = Some sc →
  active_count g p < gp_capacity gp →
  (sc_class sc = Background → background_count g p < gp_capacity gp - gp_reserve gp) →
  wf (granted p g gr' id r now deadline).
Proof.
  intros Hwf0 Hgp Hgr Hu Hok Hr Hg Hq Hsc Hact Hbg.
  pose proof (wf_set_group p g gr gr' Hwf0 Hgr Hu Hok) as Hwf.
  unfold granted. set (q := set_groups _ _) in *.
  split; simpl; try apply Hwf.
  - intros id0 r0 Hr0. rewrite lookup_insert in Hr0. case_decide; [subst|by apply (wf_request q Hwf id0 r0)].
    injection Hr0 as <-. apply (wf_request q Hwf id0 r Hr).
  - intros g0 gr0 id0 since Hg0 Hu0.
    destruct (wf_uncertain q Hwf g0 gr0 id0 since Hg0 Hu0) as (r0 & Hr0 & Hrg0 & Ha0).
    exists r0. rewrite lookup_insert_ne; [done|]. intros <-. simpl in Hr0.
    assert (r0 = r) as -> by congruence. by destruct (rq_state r).
  - intros id0. rewrite (wf_terminals p Hwf0 id0), lookup_insert. simpl. case_decide; [subst|done].
    split; intros (r0 & Hr0 & Ht); [|by injection Hr0 as <-].
    rewrite Hr in Hr0. injection Hr0 as <-. apply is_terminal_queued in Hq. congruence.
  - intros g0 gp0 Hgp0. destruct (wf_counts p Hwf0 g0 gp0 Hgp0) as (H1 & H2 & H3).
    destruct (grant_counts q id r sc now deadline g0 Hr Hq Hsc) as (Ca & Cq & Cb).
    change (active_count g0 q) with (active_count g0 p) in Ca.
    change (queued_count g0 q) with (queued_count g0 p) in Cq.
    change (background_count g0 q) with (background_count g0 p) in Cb.
    change (set_requests _ q) with
      (set_requests (<[id := set_state (Active now deadline false) r]> (p_requests q)) q).
    rewrite Ca, Cb. destruct (decide (rq_group r = g0)) as [Heq|Hne].
    + assert (gp0 = gp) as -> by congruence. rewrite !bool_decide_eq_true_2 in * by done.
      assert (g0 = g) as -> by congruence. simpl in *.
      destruct (decide (sc_class sc = Background)) as [Hc|Hc].
      * specialize (Hbg Hc). rewrite bool_decide_eq_true_2 by done. simpl. lia.
      * rewrite bool_decide_eq_false_2 by done. simpl. lia.
    + rewrite bool_decide_eq_false_2 in * by done. simpl in *. lia.
Qed.

(** * The outcomes of a dispatch decision *)

Definition interactive_count (g : GroupId) (p : AdmissionPolicy) : nat :=
  active_count g p - background_count g p.

(** Nothing holds the group back: it is available, certain, below capacity,
    and past its pacing and cooldown instants. *)
Record gate_open (g : GroupId) (gp : GroupPolicy) (now : N) (p : AdmissionPolicy) (gr : Group) : Prop := {
  go_available : g_unavailable gr = false;
  go_certain : size (g_uncertain gr) = 0;
  go_orphans : g_orphans gr = [];
  go_capacity : active_count g p < gp_capacity gp;
  go_pacing : (g_next_start gr ≤ now)%N;
  go_cooldown : (g_cooldown gr ≤ now)%N;
}.

(** A slot background work may use is free. *)
Definition background_open (g : GroupId) (gp : GroupPolicy) (p : AdmissionPolicy) : bool :=
  (background_count g p + (interactive_count g p - gp_reserve gp) <? gp_capacity gp - gp_reserve gp)
  && (background_count g p <? gp_capacity gp - gp_reserve gp).

Definition candidate_ok (p : AdmissionPolicy) (g : GroupId) (class : WorkloadClass)
    (o : option RequestId) : Prop :=
  match o with Some id => is_queue_head p g class id | None => none_waiting p g class end.

Definition contenders (g : GroupId) (gp : GroupPolicy) (p : AdmissionPolicy)
    (interactive background : option RequestId) : Prop :=
  candidate_ok p g Interactive interactive ∧
  (if background_open g gp p then candidate_ok p g Background background else background = None).

(** The choice between the two classes' candidates. *)
Definition select (gr : Group) (interactive background : option RequestId) : option RequestId :=
  match interactive, background with
  | Some i, Some b =>
      Some (if (3 <=? g_interactive_streak gr)%N || (3 <=? g_contested_pacing_streak gr)%N
            then b else i)
  | Some i, None => Some i
  | None, b => b
  end.

Inductive dispatch_outcome (g : GroupId) (gp : GroupPolicy) (now : N) (p : AdmissionPolicy) (gr : Group)
    : AdmissionPolicy * res AdmissionError (option RequestId) → Prop :=
| dispatch_unavailable :
    g_unavailable gr = true → dispatch_outcome g gp now p gr (p, Err Unavailable)
| dispatch_quarantined :
    g_unavailable gr = false → 0 < size (g_uncertain gr) + length (g_orphans gr) →
    dispatch_outcome g gp now p gr (p, Err Quarantined)
| dispatch_closed :
    g_unavailable gr = false → size (g_uncertain gr) + length (g_orphans gr) = 0 →
    gp_capacity gp ≤ active_count g p ∨ (now < g_next_start gr)%N ∨ (now < g_cooldown gr)%N →
    dispatch_outcome g gp now p gr (p, Ok None)
| dispatch_idle i b :
    gate_open g gp now p gr → contenders g gp p i b → select gr i b = None →
    dispatch_outcome g gp now p gr (p, Ok None)
| dispatch_overflow i b :
    gate_open g gp now p gr → contenders g gp p i b → is_Some (select gr i b) →
    (u64_max < now + gp_min_interval_ms gp)%N ∨ (u64_max < now + gp_attempt_timeout_ms gp)%N →
    dispatch_outcome g gp now p gr
      (set_groups (<[g := set_unavailable true gr]> (p_groups p)) p, Err Unavailable)
| dispatch_grant i b id r sc :
    gate_open g gp now p gr → contenders g gp p i b → select gr i b = Some id →
    p_requests p !! id = Some r → p_scopes p !! rid_scope id = Some sc →
    (now + gp_min_interval_ms gp ≤ u64_max)%N → (now + gp_attempt_timeout_ms gp ≤ u64_max)%N →
    dispatch_outcome g gp now p gr
      (granted p g
         (charge_grant gp sc (rid_scope id) (now + gp_min_interval_ms gp) (bool_decide (is_Some b))
            (interactive_count g p) gr) id r now (now + gp_attempt_timeout_ms gp),
       Ok (Some id)).

Lemma snapshot_after_tick p p1 g gr now :
  tick now p = (p1, Ok tt) → p_groups p1 !! g = Some gr →
  snapshot g now p =
    (p1, Ok (mkGroupSnapshot (length (g_orphans gr) + active_count g p1) (queued_count g p1)
               (size (g_uncertain gr) + length (g_orphans gr)) (g_cooldown gr) (g_unavailable gr) now)).
Proof.
  intros Ht Hg. unfold snapshot. rewrite (bind_ok _ _ _ _ _ Ht), bind_gets.
  unfold bind at 1, ok_or. by rewrite Hg.
Qed.

(** The candidates are waiting requests whose scope has the class. *)
Lemma select_contender p g gp gr i b id :
  contenders g gp p i b → select gr i b = Some id →
  ∃ r sc, p_requests p !! id = Some r ∧ p_scopes p !! rid_scope id = Some sc ∧
    is_queue_head p g (sc_class sc) id ∧
    (sc_class sc = Background → background_open g gp p = true ∧ b = Some id).
Proof.
  intros [Hi Hb] Hs.
  assert (∀ class, is_queue_head p g class id → ∃ r sc, p_requests p !! id = Some r ∧
    p_scopes p !! rid_scope id = Some sc ∧ is_queue_head p g (sc_class sc) id ∧ sc_class sc = class) as Hh.
  { intros class Hq. pose proof Hq as (r & sc & Hr & Hsc & _ & _ & <- & _). eauto 6. }
  assert (i = Some id ∨ b = Some id) as [-> | ->]
    by (destruct i, b; simpl in Hs; try case_match; simplify_eq; auto).
  - apply Hh in Hi as (r & sc & ? & ? & ? & Hc). exists r, sc. split_and!; [done..|]. congruence.
  - destruct (background_open g gp p); [|done].
    apply Hh in Hb as (r & sc & ? & ? & ? & Hc). exists r, sc. split_and!; done.
Qed.

(** The last part of [next], once the gate is open. *)
Lemma grant_spec p g gp gr i b now :
  wf p → p_groups p !! g = Some gr → gate_open g gp now p gr → contenders g gp p i b →
  dispatch_outcome g gp now p gr
    ((match select gr i b with
      | None => ret None
      | Some rid =>
        match u64_checked_add now (gp_min_interval_ms gp),
              u64_checked_add now (gp_attempt_timeout_ms gp) with
        | Some next_start, Some deadline =>
            ss <- gets p_scopes ;;
            sc <- expect (ss !! rid_scope rid) ;;
            update_group g (charge_grant gp sc (rid_scope rid) next_start
              (bool_decide (is_Some b)) (interactive_count g p)) ;;
            update_request rid (set_state (Active now deadline false)) ;;
            ret (Some rid)
        | _, _ =>
            update_group g (set_unavailable true) ;;
            throw Unavailable
        end
      end) p).
Proof.
  intros Hwf Hg Hgate Hc. destruct (select gr i b) as [id|] eqn:Hs; [|by eapply dispatch_idle].
  destruct (select_contender _ _ _ _ _ _ _ Hc Hs) as (r & sc & Hr & Hsc & _).
  destruct (u64_checked_add now (gp_min_interval_ms gp)) as [ns|] eqn:Hns,
           (u64_checked_add now (gp_attempt_timeout_ms gp)) as [dl|] eqn:Hdl;
    rewrite ?u64_checked_add_Some, ?u64_checked_add_None in *; destruct_and?; subst.
  1: { rewrite bind_gets, (bind_expect _ sc) by done.
       unfold update_group, update_request, bind, gets, expect, modify. rewrite Hg. simpl.
       rewrite Hr. by eapply dispatch_grant. }
  all: unfold update_group, bind, gets, expect, modify; rewrite Hg;
       eapply dispatch_overflow; eauto; rewrite Hs; eauto.
Qed.

Lemma next_spec p g gp now :
  wf p → ac_groups (p_config p) !! g = Some gp → (p_now p ≤ now)%N →
  ∃ p1 gr, tick now p = (p1, Ok tt) ∧ wf p1 ∧ evolves (elapsed_leases now p) p p1 ∧ settled now p1 ∧
    p_groups p1 !! g = Some gr ∧ dispatch_outcome g gp now p1 gr (next g now p).
Proof.
  intros Hwf Hgp Hnow. destruct (tick_spec p now Hwf Hnow) as (p1 & Ht & Hwf1 & He & Hst).
  rewrite <- (ev_config _ _ _ He) in Hgp.
  destruct (proj2 (wf_groups p1 Hwf1 g)) as [gr Hg]; [by eauto|].
  exists p1, gr. split_and!; try done. unfold next.
  rewrite (bind_ok _ _ _ _ _ (snapshot_after_tick _ _ _ _ _ Ht Hg)).
  rewrite bind_gets, (bind_expect _ gp), bind_gets, (bind_expect _ gr) by done. cbn [gs_uncertain gs_active].
  destruct (g_unavailable gr) eqn:Hun; [by apply dispatch_unavailable|].
  destruct (Nat.ltb_spec 0 (size (g_uncertain gr) + length (g_orphans gr))) as [Hu|Hu];
    [by apply dispatch_quarantined|].
  assert (length (g_orphans gr) = 0) as Ho by lia. rewrite Ho. cbn [Nat.add].
  destruct ((gp_capacity gp <=? active_count g p1) || (now <? g_next_start gr)%N || (now <? g_cooldown gr)%N)
    eqn:Hgate.
  { apply dispatch_closed; [done|lia|]. apply orb_prop in Hgate as [Hgate|?]; [|lia].
    apply orb_prop in Hgate as [?|?]; lia. }
  split_bools. rewrite (bind_ok _ _ _ _ _ (background_in_flight_spec p1 g Hwf1)).
  rewrite (bind_expect _ (interactive_count g p1))
    by (apply usize_sub_Some; split; [apply background_le_active|done]).
  destruct (validate_spec _ (wf_config p1 Hwf1)) as (_ & _ & _ & Hval).
  destruct (Hval g gp Hgp) as (_ & Hres & _).
  rewrite (bind_expect _ (gp_capacity gp - gp_reserve gp)) by (apply usize_sub_Some; lia).
  destruct (candidate_spec p1 g gr Interactive Hwf1 Hg) as (i & Hi & Hiok).
  rewrite (bind_ok _ _ _ _ _ Hi).
  assert (∃ b, (if background_open g gp p1 then candidate g Background else ret None) p1 = (p1, Ok b) ∧
               (if background_open g gp p1 then candidate_ok p1 g Background b else b = None)) as (b & Hb & Hbok).
  { destruct (background_open g gp p1); [|by eexists].
    destruct (candidate_spec p1 g gr Background Hwf1 Hg) as (b & Hb & Hbok). by exists b. }
  unfold background_open in Hb at 1. rewrite (bind_ok _ _ _ _ _ Hb).
  apply grant_spec; [done|done| |by split]. split; try done; try lia.
  by apply length_zero_iff_nil.
Qed.

Lemma keeps_next p g now : wf p → keeps (next g now) p.
Proof.
  intros Hwf. destruct (N.lt_ge_cases now (p_now p)) as [Hlt|Hle].
  { unfold keeps, wp, next. erewrite bind_err; [done|]. unfold snapshot.
    by apply bind_err, tick_regression. }
  destruct (ac_groups (p_config p) !! g) as [gp|] eqn:Hgp.
  - destruct (next_spec p g gp now Hwf Hgp Hle) as (p1 & gr & _ & Hwf1 & He & _ & Hg & Hout).
    rewrite <- (ev_config _ _ _ He) in Hgp. unfold keeps, wp.
    destruct Hout as [| | | |i b Hgate Hc Hs|i b id r sc Hgate Hc Hs Hr Hsc]; simpl; try done.
    + split; [done|]. eapply wf_set_group; try done. by eapply wf_group_ok in Hg.
    + split; [done|]. destruct (select_contender _ _ _ _ _ _ _ Hc Hs) as (r0 & sc0 & Hr0 & Hsc0 & Hh & Hb).
      destruct Hh as (r1 & sc1 & ? & ? & ? & ? & ? & _). simplify_eq.
      eapply (wf_grant p1 _ gp gr); try done.
      * apply charge_grant_ok. by eapply wf_group_ok in Hg.
      * apply Hgate.
      * intros Hc'. destruct (Hb Hc') as [Hopen _]. unfold background_open in Hopen. split_bools. lia.
  - destruct (tick_spec p now Hwf Hle) as (p1 & Ht & Hwf1 & He & _).
    assert (p_groups p1 !! g = None) as Hn.
    { apply eq_None_not_Some. rewrite (wf_groups p1 Hwf1), (ev_config _ _ _ He), Hgp. by intros [? ?]. }
    unfold keeps, wp, next. erewrite bind_err; [done|]. unfold snapshot.
    rewrite (bind_ok _ _ _ _ _ Ht), bind_gets. unfold bind, ok_or. by rewrite Hn.
Qed.

(** A grant answered by [next] comes from the granting outcome. *)
Lemma dispatch_grant_inv g gp now p gr p' id :
  dispatch_outcome g gp now p gr (p', Ok (Some id)) →
  ∃ i b r sc, gate_open g gp now p gr ∧ contenders g gp p i b ∧ select gr i b = Some id ∧
    p_requests p !! id = Some r ∧ p_scopes p !! rid_scope id = Some sc ∧
    p' = granted p g
      (charge_grant gp sc (rid_scope id) (now + gp_min_interval_ms gp) (bool_decide (is_Some b))
         (interactive_count g p) gr) id r now (now + gp_attempt_timeout_ms gp).
Proof.
  intros Hout. remember (p', Ok (Some id)) as out eqn:Heq.
  destruct Hout as [| | | |i b Hgate Hc Hs|i b id' r sc Hgate Hc Hs Hr Hsc]; simplify_eq.
  exists i, b, r, sc. done.
Qed.

(** [next] on a clock that runs backwards or on an unknown group grants nothing. *)
Lemma next_grants p g now p' id :
  wf p → next g now p = (p', Ok (Some id)) →
  (p_now p ≤ now)%N ∧ is_Some (ac_groups (p_config p) !! g).
Proof.
  intros Hwf Hnext. destruct (N.lt_ge_cases now (p_now p)) as [Hlt|Hle].
  { unfold next, snapshot in Hnext.
    rewrite (bind_err _ _ _ _ _ (bind_err _ _ _ _ _ (tick_regression _ _ Hlt))) in Hnext. done. }
  split; [done|]. destruct (tick_spec p now Hwf Hle) as (p0 & Ht0 & Hwf0 & He0 & _).
  rewrite <- (ev_config _ _ _ He0), <- (wf_groups p0 Hwf0).
  destruct (p_groups p0 !! g) as [gr|] eqn:Hn; [by eauto|].
  unfold next, snapshot in Hnext. rewrite (bind_err _ _ p p0 UnknownGroup) in Hnext; [done|].
  rewrite (bind_ok _ _ _ _ _ Ht0), bind_gets. unfold bind, ok_or. by rewrite Hn.
Qed.
