(* ===== verification/AdmissionOps.v ===== *)
(** The remaining operations of the admission authority keep the invariant;
    the authority as a transition system and its reachable states. *)

From S2P Require Import Prelude AdmissionTypes AdmissionPolicy AdmissionInv AdmissionTick AdmissionDispatch.

(** * Client operations *)

Lemma update_group_run p g gr f :
  p_groups p !! g = Some gr →
  update_group g f p = (set_groups (<[g := f gr]> (p_groups p)) p, Ok tt).
Proof. intros Hg. unfold update_group. by rewrite bind_gets, (bind_expect _ gr). Qed.

Lemma update_request_run p id r f :
  p_requests p !! id = Some r →
  update_request id f p = (set_requests (<[id := f r]> (p_requests p)) p, Ok tt).
Proof. intros Hr. unfold update_request. by rewrite bind_gets, (bind_expect _ r). Qed.

Lemma update_scope_run p sid sc f :
  p_scopes p !! sid = Some sc →
  update_scope sid f p = (set_scopes (<[sid := f sc]> (p_scopes p)) p, Ok tt).
Proof. intros Hs. unfold update_scope. by rewrite bind_gets, (bind_expect _ sc). Qed.

(** A new waiting request in a group whose queue has room. *)
Lemma wf_insert_queued p sid sc sequence g gp deadline :
  wf p → p_scopes p !! sid = Some sc → (sc_high_water sc < sequence)%N →
  p_requests p !! mkRequestId sid sequence = None →
  ac_groups (p_config p) !! g = Some gp → queued_count g p < gp_queue_capacity gp →
  wf (set_requests (<[mkRequestId sid sequence := mkRequest g (Queued deadline) None None false None]>
        (p_requests p))
      (set_scopes (<[sid := mkScope (sc_root sc) (sc_class sc) sequence (sc_retired sc)]> (p_scopes p)) p)).
Proof.
  intros Hwf Hsc Hseq Hnone Hgp Hq. set (id := mkRequestId sid sequence) in *.
  set (r := mkRequest g (Queued deadline) None None false None).
  edestruct (keeps_update_scope p sid sc
    (λ s, mkScope (sc_root s) (sc_class s) sequence (sc_retired s))) as (q & _ & Hq1 & Hqeq);
    simpl; try done; [lia|]. rewrite <- Hqeq.
  assert (p_requests q = p_requests p) as Erq by (by rewrite Hqeq).
  assert (p_groups q = p_groups p) as Egq by (by rewrite Hqeq).
  assert (p_config q = p_config p) as Ecq by (by rewrite Hqeq).
  assert (∀ P : RequestId → Request → bool,
    count_map P (<[id := r]> (p_requests p)) = Nat.b2n (P id r) + count_map P (p_requests p)) as Hcnt
    by (intros P; by apply count_map_insert_fresh).
  rewrite <- Erq in Hcnt, Hnone.
  split; simpl; try apply Hq1; rewrite <- ?Erq.
  - intros id0 r0. rewrite lookup_insert. case_decide; [subst id0|apply Hq1].
    intros [= <-]. split.
    + exists (mkScope (sc_root sc) (sc_class sc) sequence (sc_retired sc)).
      rewrite Hqeq. simpl. rewrite lookup_insert_eq. split; [done|]. simpl. lia.
    + apply (wf_groups q Hq1). rewrite Ecq. simpl. eauto.
  - intros g0 gr0 id0 since Hg0 Hu0.
    destruct (wf_uncertain q Hq1 g0 gr0 id0 since Hg0 Hu0) as (r0 & Hr0 & ?).
    exists r0. rewrite lookup_insert_ne; [done|]. congruence.
  - intros id0. rewrite (wf_terminals q Hq1 id0), lookup_insert. case_decide; [subst id0|done].
    split; intros (r0 & Hr0 & Ht); [congruence|by injection Hr0 as <-].
  - intros g0 gp0 Hgp0. destruct (wf_counts q Hq1 g0 gp0 Hgp0) as (H1 & H2 & H3).
    unfold active_count, background_count, queued_count in *. simpl. rewrite !Hcnt.
    assert (active_in g0 id r = false) as Ha by (unfold active_in; apply andb_false_r).
    assert (background_in (p_scopes q) g0 id r = false) as Hb by (unfold background_in; by rewrite Ha).
    assert (queued_in g0 id r = bool_decide (g = g0)) as Hqq by (unfold queued_in; apply andb_true_r).
    rewrite Ha, Hb, Hqq. simpl. split_and!; [done|done|].
    destruct (decide (g = g0)) as [<-|Hne];
      [rewrite bool_decide_eq_true_2 by done|rewrite bool_decide_eq_false_2 by done]; simpl; [|lia].
    rewrite Ecq in Hgp0. assert (gp0 = gp) as -> by congruence. rewrite Erq. lia.
Qed.

Lemma keeps_enqueue p sid sequence alias now : wf p → keeps (enqueue sid sequence alias now) p.
Proof.
  intros Hwf. apply keeps_scoped; [done|]. intros p1 sc Hwf1 _ _ Hsc.
  apply keeps_gets, keeps_ok_or; [done|]. intros g Hal.
  destruct (validate_spec _ (wf_config p1 Hwf1)) as (_ & _ & Haliases & _).
  destruct (Haliases _ _ Hal) as [gp Hgp].
  destruct (proj2 (wf_groups p1 Hwf1 g)) as [gr Hg]; [by eauto|].
  unfold keeps, wp. rewrite bind_gets.
  destruct (p_requests p1 !! mkRequestId sid sequence) as [r|] eqn:Hr; [by case_match|].
  rewrite (bind_reads _ sc) by done. destruct (N.leb_spec sequence (sc_high_water sc)); [done|].
  rewrite bind_gets, (bind_expect _ gr) by done. destruct (g_unavailable gr); [done|].
  rewrite (bind_expect _ gp) by done.
  destruct (Nat.leb_spec (gp_queue_capacity gp)
     (count_map (λ _ r, bool_decide (rq_group r = g) && is_queued (rq_state r)) (p_requests p1))); [done|].
  destruct (u64_checked_add now (gp_queue_timeout_ms gp)) as [deadline|].
  - rewrite bind_modify. apply scope_Ok in Hsc as (He & Hsc & Hret).
    erewrite bind_ok by (by apply (update_scope_run _ sid sc)). split; [done|].
    by eapply (wf_insert_queued p1 sid sc sequence g gp deadline).
  - rewrite (bind_ok _ _ _ _ _ (update_group_run p1 g gr _ Hg)). split; [done|]. simpl.
    eapply wf_set_group; try done. by eapply wf_group_ok in Hg.
Qed.

Lemma keeps_status p sid sequence now : wf p → keeps (status sid sequence now) p.
Proof.
  intros Hwf. apply keeps_scoped; [done|]. intros p1 sc Hwf1 _ _ Hsc.
  eapply keeps_request; [done..|]. auto with admission.
Qed.

Lemma keeps_held p sid sequence now : wf p → keeps (held sid sequence now) p.
Proof.
  intros Hwf. apply keeps_scoped; [done|]. intros p1 sc Hwf1 _ _ Hsc.
  eapply keeps_request; [done..|]. auto with admission.
Qed.

Lemma keeps_withdraw p sid sequence now : wf p → keeps (withdraw sid sequence now) p.
Proof.
  intros Hwf. apply keeps_scoped; [done|]. intros p1 sc Hwf1 _ _ Hsc.
  eapply keeps_request; [done..|]. intros r Hr.
  destruct (is_active (rq_state r)) eqn:Ha; [|by apply keeps_throw].
  destruct (terminal_spec p1 _ r Cancelled None Hwf1 Hr) as (p2 & Heq & Hwf2 & _); [auto with admission|].
  by eapply keeps_run.
Qed.

Lemma keeps_cancel p sid sequence now : wf p → keeps (cancel sid sequence now) p.
Proof.
  intros Hwf. apply keeps_scoped; [done|]. intros p1 sc Hwf1 _ _ Hsc.
  eapply keeps_request; [done..|]. intros r Hr.
  set (id := mkRequestId sid sequence) in *.
  destruct (rq_state r) as [d|st d c|o] eqn:Hs.
  - destruct (terminal_spec p1 id r Cancelled None Hwf1 Hr) as (p2 & Heq & Hwf2 & Hpost); [by rewrite Hs|].
    unfold keeps, wp. rewrite (bind_ok _ _ _ _ _ Heq), bind_gets.
    by rewrite (bind_expect _ _ _ _ (tp_self _ _ _ _ Hpost)).
  - unfold keeps, wp. rewrite (bind_ok _ _ _ _ _ (update_request_run p1 id r _ Hr)), bind_gets. simpl.
    erewrite bind_expect by apply lookup_insert_eq. split; [done|]. simpl.
    eapply wf_set_request; [done..|]. rewrite Hs. by unfold same_kind; simpl; rewrite Hs.
  - unfold keeps, wp. rewrite bind_ret, bind_gets.
    by rewrite (bind_expect _ _ _ _ Hr).
Qed.

Definition feedback_typed (fb : ThrottleFeedback) : Prop :=
  match fb with NoHint j => u64_ok j | Until d => u64_ok d | AdviceUnavailable => True end.

Lemma keeps_report_feedback p sid sequence report fb now :
  wf p → feedback_typed fb → keeps (report_feedback sid sequence report fb now) p.
Proof.
  intros Hwf Hfb. apply keeps_scoped; [done|]. intros p1 sc Hwf1 _ _ Hsc.
  eapply keeps_request; [done..|]. intros r Hr. cbv zeta. set (accept := if is_active _ then _ else _).
  assert (keeps accept p1) as Hacc.
  { subst accept. destruct (is_active (rq_state r)) eqn:Ha; [|by apply keeps_throw].
    destruct (wf_request p1 Hwf1 _ r Hr) as [_ [gr Hg]].
    destruct (group_policy p1 _ gr Hwf1 Hg) as [gp Hgp].
    pose proof (wf_group_ok p1 Hwf1 _ _ Hg) as [Hf Hstr].
    destruct (throttle_spec (g_fallback gr) (match fb with NoHint j => j | _ => 0%N end) Hf)
      as (f' & d & Hth & Hf' & _); [destruct fb; try done; unfold u64_ok, u64_max; lia|].
    destruct (apply_advice_spec (Some gp) now fb d (set_fallback f' gr)) as (g' & Hadv & Hu & _ & Hfb' & Hi & Hc & _); [by eauto|].
    unfold keeps, wp. rewrite bind_gets, (bind_expect _ gr), (bind_expect _ _ _ _ Hth), bind_gets by done.
    rewrite Hgp, (bind_expect _ _ _ _ Hadv), bind_modify.
    erewrite update_request_run by done. split; [done|]. simpl.
    change (wf (set_requests (<[mkRequestId sid sequence := set_last_report (Some (report, fb)) r]>
              (p_requests (set_groups (<[rq_group r := g']> (p_groups p1)) p1)))
              (set_groups (<[rq_group r := g']> (p_groups p1)) p1))).
    eapply wf_set_request; [|done|done]. eapply wf_set_group; [done|done|by rewrite Hu|].
    split; [by rewrite Hfb'|]. unfold streaks_ok in *. rewrite Hi, Hc. done. }
  destruct (rq_last_report r) as [[last fp]|]; [|done].
  destruct (report <? last)%N; [by apply keeps_throw|].
  destruct (report =? last)%N; [|done]. case_match; [by apply keeps_ret|by apply keeps_throw].
Qed.

Lemma keeps_complete p sid sequence fb now : wf p → keeps (complete sid sequence fb now) p.
Proof.
  intros Hwf. apply keeps_scoped; [done|]. intros p1 sc Hwf1 _ _ Hsc.
  eapply keeps_request; [done..|]. intros r Hr.
  destruct (rq_state r) as [d|st d c|o] eqn:Hs; [by apply keeps_throw| |by repeat case_match].
  destruct (wf_request p1 Hwf1 _ r Hr) as [_ [gr Hg]].
  destruct (group_policy p1 _ gr Hwf1 Hg) as [gp Hgp].
  pose proof (wf_group_ok p1 Hwf1 _ _ Hg) as [Hf Hstr].
  destruct (complete_group_spec (Some gp) now fb (bool_decide (is_Some (rq_last_report r))) gr)
    as (g' & Hcg & Hu & _ & Hf' & Hi & Hc & _); [by eauto|done|].
  unfold keeps, wp. rewrite bind_gets, (bind_expect _ gr), bind_gets, Hgp, (bind_expect _ _ _ _ Hcg), bind_modify by done.
  assert (wf (set_groups (<[rq_group r := g']> (p_groups p1)) p1)) as Hwf2.
  { eapply wf_set_group; [done|done|by rewrite Hu|]. split; [done|]. unfold streaks_ok in *. by rewrite Hi, Hc. }
  destruct (terminal_spec _ (mkRequestId sid sequence) r Finished (Some fb) Hwf2 Hr)
    as (p3 & Heq & Hwf3 & _); [by rewrite Hs|].
  by rewrite (bind_ok _ _ _ _ _ Heq).
Qed.

Lemma keeps_snapshot p g now : wf p → keeps (snapshot g now) p.
Proof.
  intros Hwf. apply keeps_tick; [done|]. intros p1 _ Hwf1 _ _. unfold keeps, wp. rewrite bind_gets.
  by destruct (p_groups p1 !! g).
Qed.

(** * Abandonment *)

Lemma wf_insert_uncertain p g gr id r since :
  wf p → p_groups p !! g = Some gr → p_requests p !! id = Some r → rq_group r = g →
  is_active (rq_state r) = true →
  wf (set_groups (<[g := set_uncertain (<[id := since]> (g_uncertain gr)) gr]> (p_groups p)) p).
Proof.
  intros Hwf Hg Hr Hrg Ha. split; simpl; try apply Hwf.
  - intros g0. rewrite <- (wf_groups p Hwf g0), lookup_insert. case_decide; [|done]. subst. by rewrite Hg; split; eauto.
  - intros g0 gr0. rewrite lookup_insert. case_decide; [|apply Hwf].
    intros [= <-]. by apply (wf_group_ok p Hwf) in Hg.
  - intros id0 r0 Hr0. destruct (wf_request p Hwf id0 r0 Hr0) as [Hs Hgr]. split; [done|].
    rewrite lookup_insert. case_decide; [by eauto|done].
  - intros g0 gr0 id0 s0. rewrite lookup_insert. case_decide as Heq; [subst g0|apply Hwf].
    intros [= <-]. simpl. rewrite lookup_insert. case_decide; [subst id0; by eauto|].
    by apply (wf_uncertain p Hwf g gr).
Qed.

(** What abandoning some owned requests leaves behind. *)
Record abandoned (l : list (RequestId * Request)) (p p' : AdmissionPolicy) : Prop := {
  ad_scopes : p_scopes p' = p_scopes p;
  ad_now : p_now p' = p_now p;
  ad_done : ∀ id r, (id, r) ∈ l →
    match rq_state r with
    | Queued _ => ∀ r', p_requests p' !! id = Some r' → is_terminal (rq_state r') = true
    | Active _ _ _ => p_requests p' !! id = Some r ∧
        ∃ gr, p_groups p' !! rq_group r = Some gr ∧ is_Some (g_uncertain gr !! id)
    | Terminal _ => True
    end;
  ad_live : ∀ id r, id ∉ l.*1 → p_requests p !! id = Some r → is_terminal (rq_state r) = false →
    p_requests p' !! id = Some r;
  ad_back : ∀ id r', p_requests p' !! id = Some r' →
    ∃ r, p_requests p !! id = Some r ∧ (r' = r ∨ is_terminal (rq_state r) = false ∧ is_terminal (rq_state r') = true);
  ad_uncertain : ∀ g gr id s, p_groups p !! g = Some gr → g_uncertain gr !! id = Some s →
    ∃ gr', p_groups p' !! g = Some gr' ∧ g_uncertain gr' !! id = Some s;
}.

(** One step of the loop of [abandon]. *)
Lemma abandon_one_spec now rep id r p :
  wf p → (is_terminal (rq_state r) = false → p_requests p !! id = Some r) →
  ∃ p' rep', abandon_one now rep (id, r) p = (p', Ok rep') ∧ wf p' ∧ abandoned [(id, r)] p p'.
Proof.
  intros Hwf Hr. unfold abandon_one. cbn [fst snd].
  destruct (rq_state r) as [d|st d c|o] eqn:Hs; simpl in Hr.
  - specialize (Hr eq_refl).
    destruct (terminal_spec p id r Cancelled None Hwf Hr) as (p1 & Heq & Hwf1 & Hpost); [by rewrite Hs|].
    rewrite (bind_ok _ _ _ _ _ Heq). eexists p1, _. split; [done|]. split; [done|].
    split; try apply Hpost.
    + intros id0 r0 [= -> ->]%list_elem_of_singleton. rewrite Hs.
      intros r' Hr'. rewrite (tp_self _ _ _ _ Hpost) in Hr'. by injection Hr' as <-.
    + intros id0 r0 Hne%not_elem_of_cons Hr0 Hl. by eapply terminal_post_live; [done|apply Hne|..].
    + intros id0 r' Hr'. destruct (decide (id0 = id)) as [->|Hne].
      * exists r. split; [done|]. right. rewrite (tp_self _ _ _ _ Hpost) in Hr'. injection Hr' as <-. by rewrite Hs.
      * exists r'. split; [by eapply terminal_post_sub|by left].
    + intros g gr id0 s Hg Hu.
      assert (id0 ≠ id) as Hne.
      { intros ->. destruct (wf_uncertain p Hwf _ _ _ _ Hg Hu) as (r0 & Hr0 & _ & Ha).
        assert (r0 = r) as -> by congruence. by rewrite Hs in Ha. }
      rewrite (tp_groups _ _ _ _ Hpost), lookup_alter. case_decide; [subst|by eauto].
      rewrite Hg. simpl. eexists. split; [done|]. simpl. by rewrite lookup_delete_ne.
  - specialize (Hr eq_refl). destruct (wf_request p Hwf id r Hr) as [_ [gr Hg]].
    rewrite bind_gets, (bind_expect _ gr) by done. destruct (g_uncertain gr !! id) as [s|] eqn:Hu.
    + eexists p, _. split; [done|]. split; [done|]. split; try done; try by eauto.
      intros id0 r0 [= -> ->]%list_elem_of_singleton. rewrite Hs. eauto.
    + rewrite bind_modify. eexists _, _. split; [done|].
      split; [eapply wf_insert_uncertain; try done; by rewrite Hs|]. split; simpl; try done.
      * intros id0 r0 [= -> ->]%list_elem_of_singleton. rewrite Hs. split; [done|].
        rewrite lookup_insert_eq. eexists. split; [done|]. simpl. rewrite lookup_insert_eq. by eauto.
      * eauto.
      * intros g gr0 id0 s0 Hg0 Hu0. rewrite lookup_insert. case_decide; [subst|by eauto].
        eexists. split; [done|]. simpl. rewrite lookup_insert_ne; congruence.
  - eexists p, _. split; [done|]. split; [done|]. split; try done; try by eauto.
    intros id0 r0 [= -> ->]%list_elem_of_singleton. by rewrite Hs.
Qed.

Lemma abandoned_cons x l p1 p2 p3 :
  wf p2 → NoDup (x :: l).*1 → (is_terminal (rq_state x.2) = false → p_requests p1 !! x.1 = Some x.2) →
  abandoned [x] p1 p2 → abandoned l p2 p3 → abandoned (x :: l) p1 p3.
Proof.
  destruct x as [id r]. intros Hwf2 Hnd Hx A1 A2. apply list.NoDup_cons in Hnd as [Hni _].
  simpl in *. split.
  - rewrite (ad_scopes _ _ _ A2). apply A1.
  - rewrite (ad_now _ _ _ A2). apply A1.
  - intros id0 r0 [[= -> ->]|Hin]%elem_of_cons; [|by apply (ad_done _ _ _ A2)].
    pose proof (ad_done _ _ _ A1 id r ltac:(by left)) as Hd. destruct (rq_state r) eqn:Hs; [..|done].
    + intros r' Hr'. apply (ad_back _ _ _ A2) in Hr' as (r2 & Hr2 & [->|[_ ?]]); [by apply Hd|done].
    + destruct Hd as (Hr2 & gr & Hg & [s Hu]).
      split; [apply (ad_live _ _ _ A2); [done|done|by rewrite Hs]|].
      destruct (ad_uncertain _ _ _ A2 _ _ _ _ Hg Hu) as (gr' & Hg' & Hu'). eauto.
  - intros id0 r0 [Hne Hni0]%not_elem_of_cons Hr0 Hl. apply (ad_live _ _ _ A2); [done| |done].
    apply (ad_live _ _ _ A1); [|done|done]. by apply not_elem_of_cons; split; [|apply not_elem_of_nil].
  - intros id0 r3 (r2 & Hr2 & H2)%(ad_back _ _ _ A2). apply (ad_back _ _ _ A1) in Hr2 as (r1 & Hr1 & H1).
    exists r1. split; [done|]. destruct H1 as [->|[? ?]], H2 as [->|[? ?]]; auto; congruence.
  - intros g gr id0 s Hg Hu. destruct (ad_uncertain _ _ _ A1 _ _ _ _ Hg Hu) as (gr' & Hg' & Hu').
    by apply (ad_uncertain _ _ _ A2 g gr').
Qed.

Lemma abandon_loop now l rep p :
  wf p → NoDup l.*1 →
  (∀ id r, (id, r) ∈ l → is_terminal (rq_state r) = false → p_requests p !! id = Some r) →
  ∃ p' rep', fold_m (abandon_one now) rep l p = (p', Ok rep') ∧ wf p' ∧ abandoned l p p'.
Proof.
  revert rep p. induction l as [|[id r] l IH]; intros rep p Hwf Hnd Hl.
  { exists p, rep. split; [done|]. split; [done|]. split; try done; try by eauto.
    by intros ?? ?%not_elem_of_nil. }
  destruct (abandon_one_spec now rep id r p Hwf) as (p1 & rep1 & Heq & Hwf1 & A1); [by apply Hl; left|].
  pose proof Hnd as [Hni Hnd']%list.NoDup_cons.
  destruct (IH rep1 p1 Hwf1 Hnd') as (p2 & rep2 & Heq2 & Hwf2 & A2).
  { intros id0 r0 Hin Hlive. apply (ad_live _ _ _ A1); [|by apply Hl; [right|]|done].
    apply not_elem_of_cons. split; [|apply not_elem_of_nil]. intros ->. apply Hni.
    apply list_elem_of_fmap. by exists (id, r0). }
  exists p2, rep2. cbn [fold_m]. rewrite (bind_ok _ _ _ _ _ Heq). split; [done|]. split; [done|].
  eapply (abandoned_cons (id, r)); [exact Hwf1|done| |done|done]. simpl. apply Hl. by left.
Qed.

Definition owned_by (sid : ScopeId) (p : AdmissionPolicy) : list (RequestId * Request) :=
  filter (λ ir : RequestId * Request, rid_scope ir.1 = sid) (btree_iter (p_requests p)).

Lemma elem_of_owned_by sid p id r :
  (id, r) ∈ owned_by sid p ↔ rid_scope id = sid ∧ p_requests p !! id = Some r.
Proof. unfold owned_by. rewrite list_elem_of_filter, elem_of_btree_iter. done. Qed.

(** [abandon] after its clock tick. *)
Lemma abandon_run p now sid :
  wf p →
  ∃ p' rep, fold_m (abandon_one now) (mkAbandonReport 0 0 0) (owned_by sid p) p = (p', Ok rep) ∧
            wf p' ∧ abandoned (owned_by sid p) p p'.
Proof.
  intros Hwf. apply abandon_loop; [done|apply NoDup_fst_filter, NoDup_btree_keys|].
  by intros id r [_ Hr]%elem_of_owned_by.
Qed.

Lemma keeps_abandon p sid now : wf p → keeps (abandon sid now) p.
Proof.
  intros Hwf. apply keeps_scoped; [done|]. intros p1 sc Hwf1 _ _ _. apply keeps_gets.
  destruct (abandon_run p1 now sid Hwf1) as (p2 & rep & Heq & Hwf2 & _). by eapply keeps_run.
Qed.

(** * Wakes, ledgers and epochs *)

Definition group_wake (p : AdmissionPolicy) (now : N) (wake : option N) (ig : GroupId * Group) : option N :=
  match ac_groups (p_config p) !! ig.1 with
  | Some policy => foldl (consider now) wake (group_instants policy ig.1 ig.2 (p_requests p))
  | None => wake
  end.

(** [next_wake] after its clock tick. *)
Lemma next_wake_run p now :
  wf p →
  fold_m (λ wake ig,
    policy <- expect (ac_groups (p_config p) !! ig.1) ;;
    ret (foldl (consider now) wake (group_instants policy ig.1 ig.2 (p_requests p))))
    None (btree_iter (p_groups p)) p
  = (p, Ok (foldl (group_wake p now) None (btree_iter (p_groups p))) : res AdmissionError (option N)).
Proof.
  intros Hwf. apply fold_m_pure. intros wake [g gr] Hin%elem_of_btree_iter; simpl.
  destruct (group_policy p g gr Hwf Hin) as [gp Hgp]. rewrite (bind_expect _ gp) by done.
  unfold group_wake, ret. simpl. by rewrite Hgp.
Qed.

Lemma keeps_next_wake p now : wf p → keeps (next_wake now) p.
Proof.
  intros Hwf. apply keeps_tick; [done|]. intros p1 _ Hwf1 _ _.
  do 3 apply keeps_gets. eapply keeps_run; [by apply next_wake_run|done].
Qed.

Definition outstanding_rows (now : N) (gs : gmap GroupId Group) (ir : RequestId * Request)
    : list OutstandingAttempt :=
  match rq_state ir.2, gs !! rq_group ir.2 with
  | Active _ deadline _, Some g =>
      [mkOutstandingAttempt (rq_group ir.2) (sid_serial (rid_scope ir.1)) (rid_sequence ir.1)
         (Some (u64_saturating_sub (lease_release deadline (default now (g_uncertain g !! ir.1))) now))]
  | _, _ => []
  end.

(** The ledger of a state whose clock is [now]. *)
Definition ledger_at (now : N) (p : AdmissionPolicy) : AdmissionLedger :=
  mkAdmissionLedger (p_epoch p)
    (foldl (λ acc ir, acc ++ outstanding_rows now (p_groups p) ir) [] (btree_iter (p_requests p))
     ++ (btree_values (p_groups p) ≫= λ g, orphan_row now <$> g_orphans g))
    (ledger_group now <$> p_groups p).

Lemma ledger_run p p1 now :
  wf p1 → tick now p = (p1, Ok tt) → ledger now p = (p1, Ok (ledger_at now p1)).
Proof.
  intros Hwf Ht. unfold ledger. rewrite (bind_ok _ _ _ _ _ Ht), !bind_gets.
  erewrite bind_ok; [by rewrite bind_gets|]. apply fold_m_pure.
  intros acc [id r] Hin%elem_of_btree_iter. unfold outstanding_of, outstanding_rows; simpl.
  destruct (wf_request p1 Hwf id r Hin) as [_ [g Hg]]. rewrite Hg.
  by destruct (rq_state r).
Qed.

Lemma keeps_ledger p now : wf p → keeps (ledger now) p.
Proof.
  intros Hwf. destruct (N.lt_ge_cases now (p_now p)) as [Hlt|Hle].
  - unfold keeps, wp, ledger. by rewrite (bind_err _ _ _ _ _ (tick_regression _ _ Hlt)).
  - destruct (tick_spec p now Hwf Hle) as (p1 & Ht & Hwf1 & _).
    eapply keeps_run; [by apply ledger_run|done].
Qed.

Lemma wf_reset p epoch :
  wf p →
  wf (mkPolicy (p_config p) epoch (p_now p) (p_next_serial p) ∅ ∅ [] (reset_group <$> p_groups p)).
Proof.
  intros Hwf. split; simpl; try apply Hwf; try done.
  - intros g. by rewrite lookup_fmap, fmap_is_Some, (wf_groups p Hwf).
  - intros g gr. rewrite lookup_fmap. intros (gr0 & Hg & ->)%fmap_Some.
    apply (wf_group_ok p Hwf) in Hg as [Hf _]. split; [done|]. unfold streaks_ok. simpl. lia.
  - unfold live_scopes. simpl. rewrite count_map_empty. lia.
  - intros g gr id since. rewrite lookup_fmap. by intros (gr0 & Hg & ->)%fmap_Some.
  - intros id. split; [by intros ?%not_elem_of_nil|]. by intros (? & ? & _).
  - constructor.
  - lia.
  - intros g gp _. unfold active_count, background_count, queued_count. simpl. rewrite !count_map_empty. lia.
Qed.

Lemma keeps_reset p now : wf p → keeps (reset now) p.
Proof.
  intros Hwf. apply keeps_tick; [done|]. intros p1 _ Hwf1 _ _. apply keeps_gets, keeps_ok_or; [done|].
  intros epoch _. unfold keeps, wp. rewrite bind_modify. split; [done|]. by apply wf_reset.
Qed.

(** * Construction *)

Lemma initial_group_spec gp :
  (0 < gp_fallback_base_ms gp)%N → (gp_fallback_base_ms gp ≤ gp_max_cooldown_ms gp)%N →
  initial_group gp =
    Ok (mkGroup (mkFallback (gp_fallback_base_ms gp) (gp_max_cooldown_ms gp) (gp_fallback_base_ms gp))
          0 0 false 0 0 (None, None) ∅ ∅ []).
Proof.
  intros H0 Hle. unfold initial_group, FallbackCooldown_new.
  destruct (N.eqb_spec (gp_fallback_base_ms gp) 0); [lia|].
  destruct (N.ltb_spec (gp_max_cooldown_ms gp) (gp_fallback_base_ms gp)); [lia|]. done.
Qed.

Lemma collect_groups_spec l :
  NoDup l.*1 →
  (∀ g gp, (g, gp) ∈ l → (0 < gp_fallback_base_ms gp ∧ gp_fallback_base_ms gp ≤ gp_max_cooldown_ms gp)%N) →
  ∃ gs, collect_groups l = Ok gs ∧
    ∀ g, gs !! g = None ∧ g ∉ l.*1 ∨
         ∃ gp gr, (g, gp) ∈ l ∧ gs !! g = Some gr ∧ initial_group gp = Ok gr.
Proof.
  induction l as [|[g0 gp0] l IH]; intros Hnd Hl.
  { exists ∅. split; [done|]. intros g. left. split; [done|]. apply not_elem_of_nil. }
  apply list.NoDup_cons in Hnd as [Hni Hnd].
  destruct (IH Hnd) as (gs & Heq & Hgs). { intros g gp Hin. apply (Hl g). by right. }
  destruct (Hl g0 gp0) as [H0 Hle]; [by left|]. cbn [collect_groups].
  rewrite (initial_group_spec gp0 H0 Hle), Heq. eexists. split; [done|].
  intros g. rewrite lookup_insert. case_decide as Hg; [subst g0|].
  - right. exists gp0. eexists. split; [by left|]. split; [done|]. by apply initial_group_spec.
  - destruct (Hgs g) as [[? ?]|(gp & gr & ? & ? & ?)]; [left|right].
    + split; [done|]. simpl. by apply not_elem_of_cons.
    + exists gp, gr. split; [by right|done].
Qed.

(** A validated configuration yields a well-formed authority. *)
Lemma new_spec epoch config :
  AdmissionConfig_validate config = Ok tt → config_typed config →
  ∃ p, AdmissionPolicy_new epoch config = Ok p ∧ wf p ∧ p_config p = config ∧ p_epoch p = epoch ∧
    ∀ g gr, p_groups p !! g = Some gr → ∃ gp, ac_groups config !! g = Some gp ∧ initial_group gp = Ok gr.
Proof.
  intros Hv Ht. unfold AdmissionPolicy_new. rewrite Hv.
  destruct (validate_spec config Hv) as (Hms & _ & _ & Hgroups).
  destruct (collect_groups_spec (btree_iter (ac_groups config))) as (gs & -> & Hgs).
  { apply NoDup_btree_keys. }
  { intros g gp Hin%elem_of_btree_iter. apply Hgroups in Hin. lia. }
  assert (∀ g gr, gs !! g = Some gr → ∃ gp, ac_groups config !! g = Some gp ∧ initial_group gp = Ok gr) as Hback.
  { intros g gr Hg. destruct (Hgs g) as [[? _]|(gp & gr' & Hin%elem_of_btree_iter & ? & ?)]; [congruence|].
    exists gp. split; [done|]. congruence. }
  eexists. split; [done|]. split; [|done]. split; simpl; try done.
  - intros g. split.
    + intros [gr Hg]. destruct (Hback g gr Hg) as (gp & ? & _). eauto.
    + intros [gp Hgp]. destruct (Hgs g) as [[_ Hni]|(gp' & gr & _ & ? & _)]; [|by eauto].
      destruct Hni. apply elem_of_btree_keys. eauto.
  - intros g gr (gp & Hgp & Hi)%Hback. destruct (Hgroups g gp Hgp) as (_ & _ & _ & (_ & _ & _ & H0 & Hle) & _).
    rewrite (initial_group_spec gp H0 Hle) in Hi. injection Hi as <-.
    destruct (Ht g gp Hgp) as (_ & _ & _ & _ & Hmax). unfold u64_ok in Hmax.
    split; [|unfold streaks_ok; simpl; lia]. unfold fallback_ok. simpl. lia.
  - unfold live_scopes. simpl. rewrite count_map_empty. lia.
  - intros g gr id since (gp & Hgp & Hi)%Hback. destruct (Hgroups g gp Hgp) as (_ & _ & _ & (_ & _ & _ & H0 & Hle) & _).
    rewrite (initial_group_spec gp H0 Hle) in Hi. by injection Hi as <-.
  - intros id. split; [by intros ?%not_elem_of_nil|]. by intros (? & ? & _).
  - constructor.
  - lia.
  - intros g gp _. unfold active_count, background_count, queued_count. simpl. rewrite !count_map_empty. lia.
Qed.

(** * Restoring a ledger *)

Lemma restore_groups_spec now l gs :
  NoDup l.*1 →
  match restore_groups now l gs with
  | Ok gs' => ∀ g, match gs !! g with
      | None => gs' !! g = None ∧ g ∉ l.*1
      | Some gr => ∃ gr', gs' !! g = Some gr' ∧
          (g ∉ l.*1 → gr' = gr) ∧ (∀ d, (g, d) ∈ l → restore_group now d gr = Ok gr')
      end
  | Err e => e = UnknownGroup ∨ e = Unavailable
  | Panic => False
  end.
Proof.
  revert gs. induction l as [|[g0 d0] l IH]; intros gs Hnd.
  { simpl. intros g. destruct (gs !! g) as [gr|] eqn:Hg.
    - exists gr. split_and!; [done|done|]. by intros ? ?%not_elem_of_nil.
    - split; [done|apply not_elem_of_nil]. }
  apply list.NoDup_cons in Hnd as [Hni Hnd]. cbn [restore_groups].
  destruct (gs !! g0) as [gr0|] eqn:Hg0; [|by left].
  destruct (restore_group now d0 gr0) as [gr1|e|] eqn:Hr.
  2:{ unfold restore_group in Hr. repeat case_match; simplify_eq; by right. }
  2:{ unfold restore_group in Hr. by repeat case_match; simplify_eq. }
  specialize (IH (<[g0 := gr1]> gs) Hnd). destruct (restore_groups now l _) as [gs'| |]; [|done|done].
  intros g. specialize (IH g). rewrite lookup_insert in IH. case_decide as Hg; [subst g0|].
  - rewrite Hg0. destruct IH as (gr' & Hg' & Hsame & _). exists gr'. split; [done|]. split.
    + intros Hn. destruct Hn. by left.
    + intros d [[= ->]|Hin]%elem_of_cons; [by rewrite (Hsame Hni)|].
      destruct Hni. apply list_elem_of_fmap. by exists (g, d).
  - destruct (gs !! g) as [gr|] eqn:Hgg.
    + destruct IH as (gr' & Hg' & Hsame & Hin). exists gr'. split; [done|]. split.
      * intros [_ ?]%not_elem_of_cons. auto.
      * intros d [[= -> ->]|?]%elem_of_cons; [done|auto].
    + destruct IH as [? ?]. split; [done|]. simpl. by apply not_elem_of_cons.
Qed.

Definition attempts_of (g : GroupId) (l : list OutstandingAttempt) : list OutstandingAttempt :=
  filter (λ a, oa_group a = g) l.

Lemma restore_outstanding_spec now config l gs :
  (∀ g, is_Some (ac_groups config !! g) → is_Some (gs !! g)) →
  match restore_outstanding now config l gs with
  | Ok gs' => (∀ a, a ∈ l → is_Some (ac_groups config !! oa_group a)) ∧
      ∀ g, gs' !! g = (λ gr, set_orphans (g_orphans gr ++
             match ac_groups config !! g with
             | Some gp => restored_orphan now gp <$> attempts_of g l
             | None => []
             end) gr) <$> gs !! g
  | Err e => e = UnknownGroup
  | Panic => False
  end.
Proof.
  revert gs. induction l as [|a l IH]; intros gs Hdom.
  { simpl. split; [by intros ? ?%not_elem_of_nil|]. intros g.
    assert (∀ gr, set_orphans (g_orphans gr ++ match ac_groups config !! g with
             | Some gp => restored_orphan now gp <$> attempts_of g [] | None => [] end) gr = gr) as Hid.
    { intros []. destruct (ac_groups config !! g); unfold set_orphans; simpl; by rewrite app_nil_r. }
    destruct (gs !! g); simpl; by rewrite ?Hid. }
  cbn [restore_outstanding]. destruct (ac_groups config !! oa_group a) as [gp|] eqn:Hgp; [|done].
  destruct (Hdom (oa_group a)) as [gr0 Hg0]; [by eauto|]. rewrite Hg0.
  match goal with |- match restore_outstanding _ _ _ ?m with _ => _ end => specialize (IH m) end.
  destruct (restore_outstanding now config l _) as [gs'| |]; [|apply IH..].
  - destruct IH as [Hall IH].
    { intros g Hg. rewrite lookup_insert. case_decide; [by eauto|auto]. }
    split; [intros b [->|Hb]%elem_of_cons; eauto|].
    intros g. rewrite (IH g), lookup_insert. unfold attempts_of. rewrite filter_cons.
    case_decide as Hg; [subst g|].
    + rewrite Hg0, Hgp. simpl. f_equal. unfold set_orphans; simpl. by rewrite <- app_assoc.
    + done.
  - intros g Hg. rewrite lookup_insert. case_decide; [by eauto|auto].
  - intros g Hg. rewrite lookup_insert. case_decide; [by eauto|auto].
Qed.

(** A restored authority is well-formed, and restoring never panics. *)
Lemma restore_spec config l now :
  config_typed config →
  match restore config l now with
  | Ok p => wf p ∧ p_config p = config ∧ p_epoch p = al_epoch l ∧ p_now p = now ∧
      p_requests p = ∅ ∧ p_scopes p = ∅
  | Err _ => True
  | Panic => False
  end.
Proof.
  intros Ht. unfold restore. destruct (AdmissionConfig_validate config) as [[]|e|] eqn:Hv.
  2:{ unfold AdmissionPolicy_new. by rewrite Hv. }
  2:{ unfold AdmissionConfig_validate in Hv. by case_match. }
  destruct (new_spec (al_epoch l) config Hv Ht) as (p0 & Hp0 & Hwf & Hcfg & Hep & Hinit). rewrite Hp0.
  pose proof (restore_groups_spec now (btree_iter (al_groups l)) (p_groups p0) (NoDup_btree_keys _)) as Hg.
  destruct (restore_groups now _ _) as [gs| |]; [|done|done].
  assert (∀ g, is_Some (ac_groups config !! g) → is_Some (gs !! g)) as Hdom.
  { intros g. rewrite <- Hcfg, <- (wf_groups p0 Hwf). intros [gr Hgr].
    specialize (Hg g). rewrite Hgr in Hg. destruct Hg as (gr' & ? & _). eauto. }
  pose proof (restore_outstanding_spec now config (al_outstanding l) gs Hdom) as Ho.
  destruct (restore_outstanding now config _ _) as [gs'| |]; [|done|done]. destruct Ho as [_ Ho].
  assert (p_requests p0 = ∅ ∧ p_scopes p0 = ∅) as [Hrq Hsc].
  { unfold AdmissionPolicy_new in Hp0. rewrite Hv in Hp0. case_match; try done. by injection Hp0 as <-. }
  split; [|by rewrite <- Hrq, <- Hsc]. apply wf_set_groups; [by apply wf_set_now|].
  intros g. simpl. rewrite (Ho g). specialize (Hg g).
  destruct (p_groups p0 !! g) as [gr|] eqn:Hgr; [|by destruct Hg as [-> _]].
  destruct Hg as (gr' & Hg' & Hout & Hin). rewrite Hg'. simpl.
  destruct (al_groups l !! g) as [d|] eqn:Hd.
  - assert (restore_group now d gr = Ok gr') as Hr by (apply Hin; by apply elem_of_btree_iter).
    unfold restore_group in Hr.
    destruct (u64_checked_add now (lg_cooldown_remaining_ms d)); [|done].
    destruct (u64_checked_add now (lg_pacing_remaining_ms d)); [|done]. injection Hr as <-.
    split; [done|]. by apply (wf_group_ok p0 Hwf) in Hgr.
  - rewrite Hout; [split; [done|]; by apply (wf_group_ok p0 Hwf) in Hgr|].
    change (g ∉ btree_keys (al_groups l)). rewrite elem_of_btree_keys, Hd. by intros [].
Qed.

(** * The authority as a transition system *)

Inductive op :=
| RegisterRoot (class : WorkloadClass)
| RegisterChild (parent : ScopeId)
| Retire (sid : ScopeId)
| Enqueue (sid : ScopeId) (sequence : N) (alias : string) (now : N)
| Status (sid : ScopeId) (sequence now : N)
| Cancel (sid : ScopeId) (sequence now : N)
| ReportFeedback (sid : ScopeId) (sequence report : N) (feedback : ThrottleFeedback) (now : N)
| Complete (sid : ScopeId) (sequence : N) (feedback : Feedback) (now : N)
| Snapshot (g : GroupId) (now : N)
| Next (g : GroupId) (now : N)
| Held (sid : ScopeId) (sequence now : N)
| HighWater (sid : ScopeId)
| Abandon (sid : ScopeId) (now : N)
| Withdraw (sid : ScopeId) (sequence now : N)
| NextWake (now : N)
| Ledger (now : N)
| Reset (now : N).

(** What an operation answers. *)
Inductive reply :=
| RScope (sid : ScopeId)
| RUnit
| RState (s : RequestState)
| RSnapshot (s : GroupSnapshot)
| RGrant (o : option RequestId)
| RHold (o : option UncertainHold)
| RNumber (n : N)
| RAbandon (r : AbandonReport)
| RWake (o : option N)
| RLedger (l : AdmissionLedger).

Definition reply_with {A} (f : A → reply) (m : PM A) : PM reply := a <- m ;; ret (f a).

Definition exec (o : op) : PM reply :=
  match o with
  | RegisterRoot class => reply_with RScope (register_root class)
  | RegisterChild parent => reply_with RScope (register_child parent)
  | Retire sid => reply_with (λ _, RUnit) (retire sid)
  | Enqueue sid sequence alias now => reply_with RState (enqueue sid sequence alias now)
  | Status sid sequence now => reply_with RState (status sid sequence now)
  | Cancel sid sequence now => reply_with RState (cancel sid sequence now)
  | ReportFeedback sid sequence report fb now =>
      reply_with (λ _, RUnit) (report_feedback sid sequence report fb now)
  | Complete sid sequence fb now => reply_with RState (complete sid sequence fb now)
  | Snapshot g now => reply_with RSnapshot (snapshot g now)
  | Next g now => reply_with RGrant (next g now)
  | Held sid sequence now => reply_with RHold (held sid sequence now)
  | HighWater sid => reply_with RNumber (reads (high_water sid))
  | Abandon sid now => reply_with RAbandon (abandon sid now)
  | Withdraw sid sequence now => reply_with (λ _, RUnit) (withdraw sid sequence now)
  | NextWake now => reply_with RWake (next_wake now)
  | Ledger now => reply_with RLedger (ledger now)
  | Reset now => reply_with RNumber (reset now)
  end.

(** The [u64] arguments of an operation that its arithmetic depends on. *)
Definition op_typed (o : op) : Prop :=
  match o with ReportFeedback _ _ _ fb _ => feedback_typed fb | _ => True end.

Lemma keeps_reply {A} (f : A → reply) (m : PM A) p : keeps m p → keeps (reply_with f m) p.
Proof. intros Hm. unfold reply_with. apply keeps_bind; [done|]. auto with admission. Qed.

Lemma keeps_exec o p : wf p → op_typed o → keeps (exec o) p.
Proof.
  intros Hwf Ho. destruct o; cbn [exec]; apply keeps_reply.
  - by apply keeps_register.
  - by apply keeps_register_child.
  - by apply keeps_retire.
  - by apply keeps_enqueue.
  - by apply keeps_status.
  - by apply keeps_cancel.
  - by apply keeps_report_feedback.
  - by apply keeps_complete.
  - by apply keeps_snapshot.
  - by apply keeps_next.
  - by apply keeps_held.
  - unfold keeps, wp, reads, high_water. simpl. split; [|done]. pose proof (scope_no_panic p sid) as Hn.
    by destruct (scope sid p).
  - by apply keeps_abandon.
  - by apply keeps_withdraw.
  - by apply keeps_next_wake.
  - by apply keeps_ledger.
  - by apply keeps_reset.
Qed.

(** States an authority can be in: built or restored, then driven by typed
    operations, failed ones included. *)
Inductive reachable : AdmissionPolicy → Prop :=
| reach_new epoch config p :
    config_typed config → AdmissionPolicy_new epoch config = Ok p → reachable p
| reach_restore config l now p :
    config_typed config → restore config l now = Ok p → reachable p
| reach_step o p p' r :
    reachable p → op_typed o → exec o p = (p', r) → reachable p'.

Lemma reachable_wf p : reachable p → wf p.
Proof.
  induction 1 as [epoch config p Ht Hnew|config l now p Ht Hres|o p p' r Hp IH Ho Hex].
  - unfold AdmissionPolicy_new in Hnew.
    destruct (AdmissionConfig_validate config) as [[]|e|] eqn:Hv; try done.
    destruct (new_spec epoch config Hv Ht) as (p0 & Hp0 & Hwf & _).
    unfold AdmissionPolicy_new in Hp0. rewrite Hv in Hp0. congruence.
  - pose proof (restore_spec config l now Ht) as Hs. rewrite Hres in Hs. apply Hs.
  - pose proof (keeps_exec o p IH Ho) as [_ Hwf]. by rewrite Hex in Hwf.
Qed.
