(* ===== verification/AdmissionCalm.v ===== *)
(** What operations other than a grant or an epoch reset may do to a group's
    schedule: they keep its pacing instant and its fairness streaks, and only
    ever extend its cooldown or mark it unavailable. *)

From S2P Require Import Prelude AdmissionTypes AdmissionPolicy AdmissionInv AdmissionTick AdmissionDispatch AdmissionOps.

Definition group_calm (g g' : Group) : Prop :=
  g_next_start g' = g_next_start g ∧ (g_cooldown g ≤ g_cooldown g')%N ∧
  (g_unavailable g = true → g_unavailable g' = true) ∧
  g_interactive_streak g' = g_interactive_streak g ∧
  g_contested_pacing_streak g' = g_contested_pacing_streak g ∧
  g_orphans g' `sublist_of` g_orphans g.

Definition calm (p p' : AdmissionPolicy) : Prop :=
  p_config p' = p_config p ∧
  ∀ g gr, p_groups p !! g = Some gr → ∃ gr', p_groups p' !! g = Some gr' ∧ group_calm gr gr'.

#[export] Instance group_calm_preorder : PreOrder group_calm.
Proof.
  split.
  - intros g. unfold group_calm. split_and!; done || lia.
  - intros g1 g2 g3 (? & ? & ? & ? & ? & ?) (? & ? & ? & ? & ? & ?). unfold group_calm.
    split_and!; [congruence|lia|auto|congruence|congruence|by etrans].
Qed.

#[export] Instance calm_preorder : PreOrder calm.
Proof.
  split.
  - intros p. split; [done|]. intros g gr Hg. exists gr. split; [done|reflexivity].
  - intros p1 p2 p3 [C1 H1] [C2 H2]. split; [congruence|]. intros g gr Hg.
    destruct (H1 g gr Hg) as (gr2 & Hg2 & Hc2). destruct (H2 g gr2 Hg2) as (gr3 & Hg3 & Hc3).
    exists gr3. split; [done|]. by etrans.
Qed.

Lemma same_schedule_calm g g' :
  same_schedule g g' → g_orphans g' `sublist_of` g_orphans g → group_calm g g'.
Proof.
  intros (? & ? & ? & ? & ? & ? & ? & ?) ?. unfold group_calm.
  split_and!; first [done|congruence|lia|intros; congruence].
Qed.

Lemma calm_evolves C p p' : evolves C p p' → calm p p'.
Proof.
  intros He. split; [apply He|]. intros g gr Hg. pose proof (ev_groups _ _ _ He g) as Hgs.
  rewrite Hg in Hgs. destruct (p_groups p' !! g) as [gr'|]; [|done].
  exists gr'. split; [done|]. apply same_schedule_calm; apply Hgs.
Qed.

Lemma calm_set_group p g gr gr' :
  p_groups p !! g = Some gr → group_calm gr gr' → calm p (set_groups (<[g := gr']> (p_groups p)) p).
Proof.
  intros Hg Hc. split; [done|]. intros g0 gr0 Hg0. simpl. rewrite lookup_insert. case_decide; subst.
  - exists gr'. split; [done|]. by simplify_eq.
  - exists gr0. split; [done|reflexivity].
Qed.

Lemma calm_requests p p' : p_groups p' = p_groups p → p_config p' = p_config p → calm p p'.
Proof. intros Hg Hc. split; [done|]. rewrite Hg. intros g gr ?. exists gr. split; [done|reflexivity]. Qed.

Lemma calm_terminal id r' p p' : terminal_post id r' p p' → calm p p'.
Proof.
  intros Hp. split; [apply Hp|]. intros g gr Hg. rewrite (tp_groups _ _ _ _ Hp), lookup_alter.
  case_decide; [subst|exists gr; split; [done|reflexivity]].
  rewrite Hg. simpl. eexists. split; [done|]. unfold group_calm. simpl. split_and!; done || lia.
Qed.

(** [m], run from [p], ends in a calm successor, whatever it answers. *)
Definition stays_calm {A} (m : PM A) (p : AdmissionPolicy) : Prop := calm p (m p).1.

Section rules.
Context {A : Type}.

Lemma calm_stop (m : PM A) p r : m p = (p, r) → stays_calm m p.
Proof. intros Hm. unfold stays_calm. rewrite Hm. reflexivity. Qed.

Lemma calm_reads {B} (f : AdmissionPolicy → res AdmissionError B) (k : B → PM A) p :
  (∀ b, f p = Ok b → stays_calm (k b) p) → stays_calm (bind (reads f) k) p.
Proof. unfold stays_calm, bind, reads. destruct (f p); simpl; [auto|reflexivity..]. Qed.

Lemma calm_scoped p sid now (k : PM A) :
  wf p →
  (∀ p' sc, wf p' → scope sid p' = Ok sc → stays_calm k p') →
  stays_calm (_ <- reads (scope sid) ;; tick now ;; k) p.
Proof.
  intros Hwf Hk. apply calm_reads. intros sc Hsc. unfold stays_calm.
  destruct (N.lt_ge_cases now (p_now p)) as [Hlt|Hle].
  - rewrite (bind_err _ _ _ _ _ (tick_regression _ _ Hlt)). reflexivity.
  - destruct (tick_spec p now Hwf Hle) as (p' & Heq & Hwf' & He & _).
    rewrite (bind_ok _ _ _ _ _ Heq). etrans; [by eapply calm_evolves|]. apply (Hk p' sc); [done|].
    by rewrite (scope_evolves _ _ _ _ He).
Qed.

Lemma calm_ticked p now (k : PM A) :
  wf p → (∀ p', wf p' → stays_calm k p') → stays_calm (tick now ;; k) p.
Proof.
  intros Hwf Hk. unfold stays_calm. destruct (N.lt_ge_cases now (p_now p)) as [Hlt|Hle].
  - rewrite (bind_err _ _ _ _ _ (tick_regression _ _ Hlt)). reflexivity.
  - destruct (tick_spec p now Hwf Hle) as (p' & Heq & Hwf' & He & _).
    rewrite (bind_ok _ _ _ _ _ Heq). etrans; [by eapply calm_evolves|]. by apply Hk.
Qed.

Lemma calm_request p sid sequence sc (k : Request → PM A) :
  scope sid p = Ok sc →
  (∀ r, p_requests p !! mkRequestId sid sequence = Some r → stays_calm (k r) p) →
  stays_calm (bind (reads (request sid sequence)) k) p.
Proof.
  intros Hsc Hk. apply calm_reads. intros r Hr. unfold request in Hr. rewrite Hsc in Hr.
  destruct (p_requests p !! _) eqn:Hl; [|done]. apply Hk. congruence.
Qed.
End rules.

(** * The operations *)

Lemma calm_register p root class : stays_calm (register root class) p.
Proof.
  unfold stays_calm, register. rewrite !bind_gets. case_match; [reflexivity|].
  rewrite bind_gets. destruct (u64_checked_add _ _); [|reflexivity]. by apply calm_requests.
Qed.

Lemma calm_finish_loop p l :
  wf p → NoDup l → (∀ id, id ∈ l → ∃ r, p_requests p !! id = Some r ∧ is_queued (rq_state r) = true) →
  ∃ p', for_each l (λ id, terminal id Cancelled None) p = (p', Ok tt) ∧ wf p' ∧ calm p p' ∧
        p_scopes p' = p_scopes p.
Proof.
  intros Hwf Hnd Hl.
  destruct (finish_loop [] (λ id, terminal id Cancelled None) (λ r, is_queued (rq_state r) = true) l p)
    as (p' & Heq & Hwf' & He & _); try done.
  - auto with admission.
  - intros id r q _ Hq Hr Hrq.
    destruct (terminal_step [] q id r Cancelled None Hq Hr) as (q' & ? & ? & ? & ? & Hself & ?);
      [auto with admission|by destruct (rq_state r)|].
    exists q'. split_and!; auto. rewrite Hself. by intros ? [= <-].
  - exists p'. split_and!; [done|done|by eapply calm_evolves|apply He].
Qed.

Lemma calm_retire p sid : wf p → stays_calm (retire sid) p.
Proof.
  intros Hwf. apply calm_reads. intros sc Hsc. unfold stays_calm. rewrite bind_gets.
  case_match; [reflexivity|]. set (queued := fmap fst _).
  destruct (calm_finish_loop p queued Hwf) as (p1 & Heq & _ & Hc & Hss).
  - apply NoDup_fst_filter, NoDup_btree_keys.
  - intros id ([id' r] & -> & [Hq Hin%elem_of_btree_iter]%list_elem_of_filter)%list_elem_of_fmap.
    split_bools. simpl in *. eauto.
  - rewrite (bind_ok _ _ _ _ _ Heq). apply scope_Ok in Hsc as (_ & Hsc & _). rewrite <- Hss in Hsc.
    erewrite update_scope_run by done. etrans; [done|]. by apply calm_requests.
Qed.

Lemma calm_enqueue p sid sequence alias now : wf p → stays_calm (enqueue sid sequence alias now) p.
Proof.
  intros Hwf. apply calm_scoped; [done|]. intros p1 sc Hwf1 Hsc. unfold stays_calm. rewrite bind_gets.
  destruct (ac_aliases (p_config p1) !! alias) as [g|] eqn:Hal; [|unfold ok_or, bind, throw; simpl; reflexivity].
  destruct (validate_spec _ (wf_config p1 Hwf1)) as (_ & _ & Haliases & _).
  destruct (Haliases _ _ Hal) as [gp Hgp].
  destruct (proj2 (wf_groups p1 Hwf1 g)) as [gr Hg]; [by eauto|].
  cbn [ok_or]. rewrite bind_ret, bind_gets.
  destruct (p_requests p1 !! _) as [r|]; [case_match; reflexivity|].
  rewrite (bind_reads _ sc) by done. case_match; [reflexivity|].
  rewrite bind_gets, (bind_expect _ gr) by done. case_match; [reflexivity|].
  rewrite (bind_expect _ gp) by done. case_match; [reflexivity|].
  destruct (u64_checked_add _ _).
  - rewrite bind_modify. apply scope_Ok in Hsc as (He & Hsc & Hret).
    erewrite bind_ok by (by apply (update_scope_run _ sid sc)). by apply calm_requests.
  - rewrite (bind_ok _ _ _ _ _ (update_group_run p1 g gr _ Hg)). simpl.
    eapply calm_set_group; [done|]. unfold group_calm; simpl. split_and!; done || lia.
Qed.

Lemma calm_cancel p sid sequence now : wf p → stays_calm (cancel sid sequence now) p.
Proof.
  intros Hwf. apply calm_scoped; [done|]. intros p1 sc Hwf1 Hsc.
  eapply calm_request; [done|]. intros r Hr. unfold stays_calm.
  destruct (rq_state r) as [d|st d c|o] eqn:Hs.
  - destruct (terminal_spec p1 _ r Cancelled None Hwf1 Hr) as (p2 & Heq & Hwf2 & Hpost); [by rewrite Hs|].
    rewrite (bind_ok _ _ _ _ _ Heq), bind_gets, (bind_expect _ _ _ _ (tp_self _ _ _ _ Hpost)).
    by eapply calm_terminal.
  - rewrite (bind_ok _ _ _ _ _ (update_request_run p1 _ r _ Hr)), bind_gets. simpl.
    erewrite bind_expect by apply lookup_insert_eq. by apply calm_requests.
  - rewrite bind_ret, bind_gets, (bind_expect _ _ _ _ Hr). reflexivity.
Qed.

Lemma calm_withdraw p sid sequence now : wf p → stays_calm (withdraw sid sequence now) p.
Proof.
  intros Hwf. apply calm_scoped; [done|]. intros p1 sc Hwf1 Hsc.
  eapply calm_request; [done|]. intros r Hr. unfold stays_calm.
  destruct (is_active (rq_state r)) eqn:Ha; [|reflexivity].
  destruct (terminal_spec p1 _ r Cancelled None Hwf1 Hr) as (p2 & Heq & Hwf2 & Hpost); [auto with admission|].
  rewrite Heq. by eapply calm_terminal.
Qed.

Lemma calm_report_feedback p sid sequence report fb now :
  wf p → feedback_typed fb → stays_calm (report_feedback sid sequence report fb now) p.
Proof.
  intros Hwf Hfb. apply calm_scoped; [done|]. intros p1 sc Hwf1 Hsc.
  eapply calm_request; [done|]. intros r Hr. cbv zeta. set (accept := if is_active _ then _ else _).
  assert (stays_calm accept p1) as Hacc.
  { subst accept. unfold stays_calm. destruct (is_active (rq_state r)) eqn:Ha; [|reflexivity].
    destruct (wf_request p1 Hwf1 _ r Hr) as [_ [gr Hg]].
    destruct (group_policy p1 _ gr Hwf1 Hg) as [gp Hgp].
    pose proof (wf_group_ok p1 Hwf1 _ _ Hg) as [Hf Hstr].
    destruct (throttle_spec (g_fallback gr) (match fb with NoHint j => j | _ => 0%N end) Hf)
      as (f' & d & Hth & Hf' & _); [destruct fb; try done; unfold u64_ok, u64_max; lia|].
    destruct (apply_advice_spec (Some gp) now fb d (set_fallback f' gr))
      as (g' & Hadv & Hu & Ho & _ & Hi & Hc & Hns & Hcd & Hun); [by eauto|].
    rewrite bind_gets, (bind_expect _ gr), (bind_expect _ _ _ _ Hth), bind_gets by done.
    rewrite Hgp, (bind_expect _ _ _ _ Hadv), bind_modify.
    erewrite update_request_run by done. etrans; [|by apply calm_requests].
    eapply calm_set_group; [done|]. split_and!; try done. by rewrite Ho. }
  destruct (rq_last_report r) as [[last fp]|]; [|done].
  destruct (report <? last)%N; [by eapply calm_stop|].
  destruct (report =? last)%N; [|done]. case_match; by eapply calm_stop.
Qed.

Lemma calm_complete p sid sequence fb now : wf p → stays_calm (complete sid sequence fb now) p.
Proof.
  intros Hwf. apply calm_scoped; [done|]. intros p1 sc Hwf1 Hsc.
  eapply calm_request; [done|]. intros r Hr. unfold stays_calm.
  destruct (rq_state r) as [d|st d c|o] eqn:Hs; [reflexivity| |repeat case_match; reflexivity].
  destruct (wf_request p1 Hwf1 _ r Hr) as [_ [gr Hg]].
  destruct (group_policy p1 _ gr Hwf1 Hg) as [gp Hgp].
  pose proof (wf_group_ok p1 Hwf1 _ _ Hg) as [Hf Hstr].
  destruct (complete_group_spec (Some gp) now fb (bool_decide (is_Some (rq_last_report r))) gr)
    as (g' & Hcg & Hu & Ho & Hf' & Hi & Hc & Hns & Hcd & Hun); [by eauto|done|].
  rewrite bind_gets, (bind_expect _ gr), bind_gets, Hgp, (bind_expect _ _ _ _ Hcg), bind_modify by done.
  assert (wf (set_groups (<[rq_group r := g']> (p_groups p1)) p1)) as Hwf2.
  { eapply wf_set_group; [done|done|by rewrite Hu|]. split; [done|]. unfold streaks_ok in *. by rewrite Hi, Hc. }
  destruct (terminal_spec _ (mkRequestId sid sequence) r Finished (Some fb) Hwf2 Hr)
    as (p3 & Heq & Hwf3 & Hpost); [by rewrite Hs|].
  rewrite (bind_ok _ _ _ _ _ Heq). etrans; [|by eapply calm_terminal].
  eapply calm_set_group; [done|]. split_and!; try done. by rewrite Ho.
Qed.

Lemma calm_abandon_one now rep x p :
  wf p → (is_terminal (rq_state x.2) = false → p_requests p !! x.1 = Some x.2) →
  calm p (abandon_one now rep x p).1.
Proof.
  intros Hwf Hr. unfold abandon_one. destruct (rq_state x.2) as [d|st d c|o] eqn:Hs; simpl in Hr; [..|reflexivity].
  - destruct (terminal_spec p x.1 x.2 Cancelled None Hwf (Hr eq_refl)) as (p1 & Heq & Hwf1 & Hpost); [by rewrite Hs|].
    rewrite (bind_ok _ _ _ _ _ Heq). by eapply calm_terminal.
  - destruct (wf_request p Hwf x.1 x.2 (Hr eq_refl)) as [_ [gr Hg]].
    rewrite bind_gets, (bind_expect _ gr) by done. destruct (g_uncertain gr !! x.1); [reflexivity|].
    rewrite bind_modify. eapply calm_set_group; [done|]. unfold group_calm; simpl. split_and!; done || lia.
Qed.

Lemma calm_abandon_loop now l rep p :
  wf p → NoDup l.*1 →
  (∀ id r, (id, r) ∈ l → is_terminal (rq_state r) = false → p_requests p !! id = Some r) →
  calm p (fold_m (abandon_one now) rep l p).1.
Proof.
  revert rep p. induction l as [|[id r] l IH]; intros rep p Hwf Hnd Hl; [reflexivity|].
  cbn [fold_m]. pose proof (calm_abandon_one now rep (id, r) p Hwf (Hl id r ltac:(by left))) as Hc.
  destruct (abandon_one_spec now rep id r p Hwf (Hl id r ltac:(by left))) as (p1 & rep1 & Heq & Hwf1 & A1).
  rewrite Heq in Hc. rewrite (bind_ok _ _ _ _ _ Heq). etrans; [done|].
  apply list.NoDup_cons in Hnd as [Hni Hnd]. apply IH; [done|done|].
  intros id0 r0 Hin Hlive. apply (ad_live _ _ _ A1); [|by apply Hl; [right|]|done].
  apply not_elem_of_cons. split; [|apply not_elem_of_nil]. intros ->. apply Hni.
  apply list_elem_of_fmap. by exists (id, r0).
Qed.

Lemma calm_abandon p sid now : wf p → stays_calm (abandon sid now) p.
Proof.
  intros Hwf. apply calm_scoped; [done|]. intros p1 sc Hwf1 _. unfold stays_calm. rewrite bind_gets.
  apply calm_abandon_loop; [done|apply NoDup_fst_filter, NoDup_btree_keys|].
  by intros id r [_ Hr]%elem_of_owned_by.
Qed.

Lemma calm_reply {A} (f : A → reply) (m : PM A) p : stays_calm m p → stays_calm (reply_with f m) p.
Proof. unfold stays_calm, reply_with, bind, ret. by destruct (m p) as [p' []]. Qed.

(** A grant or an epoch reset. *)
Definition reschedules (o : op) : bool :=
  match o with Next _ _ | Reset _ => true | _ => false end.

Lemma calm_exec o p : wf p → op_typed o → reschedules o = false → stays_calm (exec o) p.
Proof.
  intros Hwf Ho Hn. destruct o; try done; cbn [exec]; apply calm_reply.
  - apply calm_register.
  - apply calm_reads. intros sc _. apply calm_register.
  - by apply calm_retire.
  - by apply calm_enqueue.
  - apply calm_scoped; [done|]. intros p1 sc Hwf1 Hsc. eapply calm_request; [done|]. intros. by eapply calm_stop.
  - by apply calm_cancel.
  - by apply calm_report_feedback.
  - by apply calm_complete.
  - apply calm_ticked; [done|]. intros p1 _. unfold stays_calm. rewrite bind_gets.
    destruct (p_groups p1 !! g); reflexivity.
  - apply calm_scoped; [done|]. intros p1 sc Hwf1 Hsc. eapply calm_request; [done|]. intros. by eapply calm_stop.
  - unfold stays_calm. reflexivity.
  - by apply calm_abandon.
  - by apply calm_withdraw.
  - apply calm_ticked; [done|]. intros p1 Hwf1. eapply calm_stop. rewrite !bind_gets. by apply next_wake_run.
  - unfold stays_calm. destruct (N.lt_ge_cases now (p_now p)) as [Hlt|Hle].
    + unfold ledger. rewrite (bind_err _ _ _ _ _ (tick_regression _ _ Hlt)). reflexivity.
    + destruct (tick_spec p now Hwf Hle) as (p1 & Ht & Hwf1 & He & _).
      rewrite (ledger_run p p1 now Hwf1 Ht). by eapply calm_evolves.
Qed.

(** * Every operation: the schedule only tightens *)

Definition is_reset (o : op) : bool := match o with Reset _ => true | _ => false end.

(** Pacing and cooldown instants never move earlier; unavailability is undone
    only by an epoch reset. *)
Definition group_tightens (reset : bool) (g g' : Group) : Prop :=
  (g_next_start g ≤ g_next_start g')%N ∧ (g_cooldown g ≤ g_cooldown g')%N ∧
  (reset = false → g_unavailable g = true → g_unavailable g' = true) ∧
  g_orphans g' `sublist_of` g_orphans g.

Definition tightens (reset : bool) (p p' : AdmissionPolicy) : Prop :=
  p_config p' = p_config p ∧
  ∀ g gr, p_groups p !! g = Some gr → ∃ gr', p_groups p' !! g = Some gr' ∧ group_tightens reset gr gr'.

Lemma tightens_calm b p p' : calm p p' → tightens b p p'.
Proof.
  intros [Hc H]. split; [done|]. intros g gr Hg. destruct (H g gr Hg) as (gr' & Hg' & H1 & H2 & H3 & _ & _ & H4).
  exists gr'. split; [done|]. split_and!; [lia|done|auto|done].
Qed.

Lemma tightens_trans b p1 p2 p3 : tightens b p1 p2 → tightens b p2 p3 → tightens b p1 p3.
Proof.
  intros [C1 H1] [C2 H2]. split; [congruence|]. intros g gr Hg.
  destruct (H1 g gr Hg) as (gr2 & Hg2 & ? & ? & ? & ?). destruct (H2 g gr2 Hg2) as (gr3 & Hg3 & ? & ? & ? & ?).
  exists gr3. split; [done|]. split_and!; [lia|lia|auto|by etrans].
Qed.

Lemma tightens_set_group b p g gr gr' p' :
  p_groups p !! g = Some gr → group_tightens b gr gr' →
  p_groups p' = <[g := gr']> (p_groups p) → p_config p' = p_config p → tightens b p p'.
Proof.
  intros Hg Ht Hgs Hc. split; [done|]. intros g0 gr0 Hg0. rewrite Hgs, lookup_insert. case_decide; subst.
  - exists gr'. split; [done|]. by simplify_eq.
  - exists gr0. split; [done|]. unfold group_tightens. split_and!; [lia|lia|done|done].
Qed.

Lemma next_tightens p g now : wf p → tightens false p (next g now p).1.
Proof.
  intros Hwf. destruct (N.lt_ge_cases now (p_now p)) as [Hlt|Hle].
  { unfold next, snapshot. rewrite (bind_err _ _ _ _ _ (bind_err _ _ _ _ _ (tick_regression _ _ Hlt))).
    apply tightens_calm. simpl. reflexivity. }
  destruct (tick_spec p now Hwf Hle) as (p0 & Ht0 & Hwf0 & He0 & _).
  destruct (ac_groups (p_config p) !! g) as [gp|] eqn:Hgp.
  - destruct (next_spec p g gp now Hwf Hgp Hle) as (p1 & gr & _ & _ & He & _ & Hg & Hout).
    eapply tightens_trans; [apply tightens_calm; by eapply calm_evolves|].
    destruct Hout as [| | | |i b Hgate|i b id r sc Hgate Hc Hs Hr Hsc]; simpl;
      try (apply tightens_calm; reflexivity).
    + eapply (tightens_set_group _ _ _ _ _ _ Hg); [|done|done]. unfold group_tightens. simpl. split_and!; done || lia.
    + eapply (tightens_set_group _ _ _ _ _ _ Hg); [|done|done].
      unfold group_tightens. simpl. pose proof (go_pacing _ _ _ _ _ Hgate). split_and!; done || lia.
  - assert (p_groups p0 !! g = None) as Hn.
    { apply eq_None_not_Some. rewrite (wf_groups p0 Hwf0), (ev_config _ _ _ He0), Hgp. by intros [? ?]. }
    unfold next, snapshot. rewrite (bind_err _ _ p p0 UnknownGroup).
    + apply tightens_calm. by eapply calm_evolves.
    + rewrite (bind_ok _ _ _ _ _ Ht0), bind_gets. unfold bind, ok_or. by rewrite Hn.
Qed.

Lemma reset_tightens p now : wf p → tightens true p (reset now p).1.
Proof.
  intros Hwf. unfold reset. destruct (N.lt_ge_cases now (p_now p)) as [Hlt|Hle].
  { rewrite (bind_err _ _ _ _ _ (tick_regression _ _ Hlt)). apply tightens_calm. simpl. reflexivity. }
  destruct (tick_spec p now Hwf Hle) as (p1 & Ht & Hwf1 & He & _).
  eapply tightens_trans; [apply tightens_calm; by eapply calm_evolves|].
  rewrite (bind_ok _ _ _ _ _ Ht), bind_gets. destruct (u64_checked_add _ _); simpl.
  - split; [done|]. intros g gr Hg. simpl. rewrite lookup_fmap, Hg. eexists. split; [done|].
    unfold group_tightens. simpl. split_and!; done || lia || apply sublist_nil_l.
  - apply tightens_calm. reflexivity.
Qed.

Lemma reply_with_state {A} (f : A → reply) (m : PM A) p : (reply_with f m p).1 = (m p).1.
Proof. unfold reply_with, bind, ret. by destruct (m p) as [p' []]. Qed.

Lemma exec_tightens o p : wf p → op_typed o → tightens (is_reset o) p (exec o p).1.
Proof.
  intros Hwf Ho. destruct (reschedules o) eqn:Hr.
  - destruct o; try done; cbn [exec is_reset]; rewrite reply_with_state.
    + by apply next_tightens.
    + by apply reset_tightens.
  - apply tightens_calm. by apply calm_exec.
Qed.

(** One operation, and any number of them. *)
Definition step (p p' : AdmissionPolicy) : Prop := ∃ o, op_typed o ∧ p' = (exec o p).1.

Lemma steps_wf p p' : rtc step p p' → wf p → wf p'.
Proof.
  induction 1 as [|p1 p2 p3 (o & Ho & ->) _ IH]; [done|]. intros Hwf. apply IH.
  by apply (keeps_exec o p1 Hwf Ho).
Qed.

Lemma steps_tighten p p' : rtc step p p' → wf p → tightens true p p'.
Proof.
  induction 1 as [|p1 p2 p3 (o & Ho & ->) _ IH]; intros Hwf.
  { apply tightens_calm. reflexivity. }
  eapply tightens_trans; [|apply IH; by apply (keeps_exec o p1 Hwf Ho)].
  destruct (exec_tightens o p1 Hwf Ho) as [Hc Hg]. split; [done|]. intros g gr Hgr.
  destruct (Hg g gr Hgr) as (gr' & Hg' & ? & ? & ? & ?). exists gr'. split; [done|]. by split_and!.
Qed.
