(* ===== verification/AdmissionProps.v ===== *)
(** The wake instant of the admission authority: no queued wait expires, no
    lease clears and no dispatch decision changes strictly before it. *)

From S2P Require Import Prelude AdmissionTypes AdmissionPolicy AdmissionInv AdmissionTick AdmissionDispatch AdmissionOps AdmissionCalm.

(** * The least instant considered *)

(** [w] is at most [x]. *)
Definition wake_by (w : option N) (x : N) : Prop := ∃ w0, w = Some w0 ∧ (w0 ≤ x)%N.

Lemma consider_mono now w x y : wake_by w y → wake_by (consider now w x) y.
Proof.
  intros (w0 & -> & Hle). unfold consider, wake_by. case_match; eexists; (split; [done|]); lia.
Qed.

Lemma consider_hit now w x : (now < x)%N → wake_by (consider now w x) x.
Proof.
  intros Hlt. unfold consider, wake_by. destruct (N.ltb_spec now x); [|lia].
  destruct w; eexists; (split; [done|]); lia.
Qed.

Lemma foldl_consider_mono now l w y : wake_by w y → wake_by (foldl (consider now) w l) y.
Proof. revert w. induction l as [|x l IH]; intros w Hw; [done|]. apply IH, consider_mono, Hw. Qed.

Lemma foldl_consider_hit now l w x :
  x ∈ l → (now < x)%N → wake_by (foldl (consider now) w l) x.
Proof.
  revert w. induction l as [|y l IH]; intros w Hin Hlt; [by apply not_elem_of_nil in Hin|].
  apply elem_of_cons in Hin as [->|Hin]; [|by apply IH]. simpl. apply foldl_consider_mono, consider_hit, Hlt.
Qed.

Lemma foldl_group_wake_hit p now l w g gr gp x :
  (g, gr) ∈ l → ac_groups (p_config p) !! g = Some gp →
  x ∈ group_instants gp g gr (p_requests p) → (now < x)%N →
  wake_by (foldl (group_wake p now) w l) x.
Proof.
  intros Hin Hgp Hx Hlt. revert w.
  assert (∀ l w, wake_by w x → wake_by (foldl (group_wake p now) w l) x) as Hmono.
  { clear l Hin. intros l. induction l as [|[g' gr'] l IH]; intros w Hw; [done|]. apply IH.
    unfold group_wake; simpl. destruct (ac_groups (p_config p) !! g'); [|done]. by apply foldl_consider_mono. }
  induction l as [|[g' gr'] l IH]; intros w; [by apply not_elem_of_nil in Hin|].
  apply elem_of_cons in Hin as [[= <- <-]|Hin]; [|by apply IH]. simpl. apply Hmono.
  unfold group_wake. simpl. rewrite Hgp. by apply foldl_consider_hit.
Qed.

(** Nothing a group waits for happens after [now] and up to [t]. *)
Definition quiet_until (t : N) (now : N) (p : AdmissionPolicy) : Prop :=
  ∀ g gr gp x, p_groups p !! g = Some gr → ac_groups (p_config p) !! g = Some gp →
    x ∈ group_instants gp g gr (p_requests p) → (now < x)%N → (t < x)%N.

Lemma wake_quiet p now w t :
  w = foldl (group_wake p now) None (btree_iter (p_groups p)) →
  (∀ w0, w = Some w0 → (t < w0)%N) → quiet_until t now p.
Proof.
  intros Hw Ht g gr gp x Hg Hgp Hx Hlt.
  destruct (foldl_group_wake_hit p now (btree_iter (p_groups p)) None g gr gp x) as (w0 & Hw0 & Hle);
    [by apply elem_of_btree_iter|done..|].
  rewrite <- Hw in Hw0. specialize (Ht w0 Hw0). lia.
Qed.

Lemma elem_of_group_instants_orphan gp g gr rs o :
  o ∈ g_orphans gr → or_release_at o ∈ group_instants gp g gr rs.
Proof. intros Ho. unfold group_instants. apply elem_of_app. left. by apply list_elem_of_fmap_2. Qed.

Lemma elem_of_group_instants_request gp g gr rs id r x :
  rs !! id = Some r → rq_group r = g → x ∈ request_instants gr id r → x ∈ group_instants gp g gr rs.
Proof.
  intros Hr Hg Hx. unfold group_instants. rewrite !elem_of_app. right. left.
  apply list_elem_of_bind. exists (id, r). split; [done|]. apply list_elem_of_filter. split; [done|].
  by apply elem_of_btree_iter.
Qed.

(** * A tick in a quiet interval *)

(** The state after a tick at which nothing is due. *)
Definition idle_tick (t : N) (p : AdmissionPolicy) : AdmissionPolicy :=
  set_requests (require_cancellation t <$> p_requests p) (set_now t p).

Lemma clear_nothing t p :
  wf p → elapsed_leases t p = [] →
  (∀ g gr o, p_groups p !! g = Some gr → o ∈ g_orphans gr → (t < or_release_at o)%N) →
  clear_elapsed_leases t p = (p, Ok tt).
Proof.
  intros Hwf Hel Ho. unfold clear_elapsed_leases. rewrite bind_gets.
  change (btree_values (p_groups p) ≫= _) with (uncertain_entries p).
  erewrite bind_ok
    by (apply (filter_m_pure _ (lease_due (p_requests p) t)); intros; by apply lease_elapsed_pure).
  change ((filter _ (uncertain_entries p)).*1) with (elapsed_leases t p). rewrite Hel.
  cbn [for_each]. rewrite bind_ret. unfold modify. f_equal.
  assert ((λ g, set_orphans (filter (λ o, (t < or_release_at o)%N) (g_orphans g)) g) <$> p_groups p = p_groups p) as ->.
  { apply map_eq. intros g. rewrite lookup_fmap. destruct (p_groups p !! g) as [gr|] eqn:Hg; [|done]. simpl.
    f_equal. rewrite filter_all; [by destruct gr|]. intros o Hin. by eapply Ho. }
  by destruct p.
Qed.

Lemma quiet_tick now t p :
  wf p → settled now p → (now ≤ t)%N → quiet_until t now p → tick t p = (idle_tick t p, Ok tt).
Proof.
  intros Hwf Hst Hle Hq. unfold tick. rewrite bind_gets.
  destruct (N.ltb_spec t (p_now p)) as [Hlt|_]; [rewrite (st_now _ _ Hst) in Hlt; lia|].
  rewrite bind_modify.
  assert (∀ g gr o, p_groups p !! g = Some gr → o ∈ g_orphans gr → (t < or_release_at o)%N) as Ho.
  { intros g gr o Hg Hin. destruct (group_policy p g gr Hwf Hg) as [gp Hgp].
    apply (Hq g gr gp); try done; [by apply elem_of_group_instants_orphan|]. by apply (st_orphans _ _ Hst g gr). }
  assert (elapsed_leases t p = []) as Hel.
  { apply elem_of_nil_inv. intros id (g & gr & since & Hg & Hu & Hd)%elem_of_elapsed_leases.
    destruct (wf_uncertain p Hwf g gr id since Hg Hu) as (r & Hr & Hrg & Ha).
    destruct (group_policy p g gr Hwf Hg) as [gp Hgp].
    unfold lease_due in Hd. simpl in Hd. rewrite Hr in Hd. simpl in Hd.
    destruct (rq_state r) as [|st d c|] eqn:Hs; try done.
    assert (now < lease_release d since)%N as Hnd.
    { destruct (N.lt_ge_cases now (lease_release d since)) as [|Hge]; [done|].
      assert (id ∈ elapsed_leases now p) as Hin; [|rewrite (st_leases _ _ Hst) in Hin; by apply not_elem_of_nil in Hin].
      apply elem_of_elapsed_leases. exists g, gr, since. split_and!; try done.
      unfold lease_due. simpl. rewrite Hr. simpl. rewrite Hs. by apply N.leb_le. }
    assert (t < lease_release d since)%N; [|lia].
    apply (Hq g gr gp); try done. apply (elem_of_group_instants_request _ _ _ _ id r); try done.
    unfold request_instants. rewrite Hs, Hu. by left. }
  rewrite (bind_ok _ _ _ _ _ (clear_nothing t (set_now t p) (wf_set_now p t Hwf) Hel Ho)), bind_gets.
  change ((filter _ (btree_iter (p_requests (set_now t p)))).*1) with (expired_ids t p).
  assert (expired_ids t p = []) as ->; [|done].
  apply elem_of_nil_inv. intros id (r & Hr & He)%elem_of_expired_ids.
  destruct (rq_state r) as [d| |] eqn:Hs; try done. simpl in He.
  destruct (wf_request p Hwf id r Hr) as [_ [gr Hg]]. destruct (group_policy p _ gr Hwf Hg) as [gp Hgp].
  assert (t < d)%N; [|lia]. apply (Hq (rq_group r) gr gp); try done; [|by apply (st_queued _ _ Hst id r)].
  apply (elem_of_group_instants_request _ _ _ _ id r); try done. unfold request_instants. rewrite Hs. by left.
Qed.

(** * Dispatch sees the same state *)

Lemma idle_tick_counts t p g :
  active_count g (idle_tick t p) = active_count g p ∧
  background_count g (idle_tick t p) = background_count g p ∧
  queued_count g (idle_tick t p) = queued_count g p.
Proof.
  unfold active_count, background_count, queued_count, idle_tick. simpl. rewrite !count_map_fmap.
  split_and!; apply count_map_ext; intros id r _;
    destruct (require_cancellation_kind t r) as [Hk _]; apply same_kind_counts in Hk as (? & ? & ?); auto.
Qed.

Lemma idle_tick_waiting t p g class : none_waiting p g class → none_waiting (idle_tick t p) g class.
Proof.
  intros Hn id r'. simpl. rewrite lookup_fmap. intros (r & Hr & ->)%fmap_Some.
  rewrite <- (Hn id r Hr). unfold eligible. simpl. destruct (p_scopes p !! rid_scope id); [|done].
  destruct (require_cancellation_kind t r) as [(Hg & Hq & _) _]. unfold in_group. by rewrite Hg, Hq.
Qed.

Lemma none_waiting_head p g class id : is_queue_head p g class id → none_waiting p g class → False.
Proof.
  intros (r & sc & Hr & Hsc & Hg & Hq & Hc & _) Hn. specialize (Hn id r Hr).
  assert (eligible (p_scopes p) g class (id, r) = true) as He; [|congruence].
  apply eligible_spec. eauto.
Qed.

Lemma queued_zero_none_waiting p g class : queued_count g p = 0 → none_waiting p g class.
Proof.
  intros H0 id r Hr. destruct (eligible _ _ _ _) eqn:He; [|done].
  apply eligible_spec in He as (sc & _ & Hg & _ & Hq).
  apply (proj1 (count_map_zero _ _)) with (k := id) (v := r) in H0; [|done].
  unfold queued_in, in_group in H0. rewrite Hq, Hg, bool_decide_eq_true_2 in H0 by done. done.
Qed.

(** When nobody of either class waits, dispatch answers that there is nothing. *)
Lemma contenders_none p g gp i b gr :
  contenders g gp p i b → none_waiting p g Interactive →
  (background_open g gp p = true → none_waiting p g Background) → select gr i b = None.
Proof.
  intros [Hi Hb] Hni Hnb. destruct i as [i|]; [by exfalso; eapply none_waiting_head|]. simpl.
  destruct (background_open g gp p); [|by rewrite Hb].
  destruct b as [b|]; [|done]. exfalso. eapply none_waiting_head; [done|]. by apply Hnb.
Qed.

(** What the admission authority guarantees at every moment: absence of panics,
    bounded occupancy, safe and paced grants, and schedules that are never
    relaxed. *)

(** * A concrete authority *)

Definition demo_policy : GroupPolicy := mkGroupPolicy 2 1 10 4 1000 5000 100 10000.

Definition demo_config : AdmissionConfig :=
  mkAdmissionConfig {[ "g" := demo_policy ]} {[ "alias" := "g" ]} 8 2.

Definition demo : AdmissionPolicy :=
  match AdmissionPolicy_new 1 demo_config with
  | Ok p => p
  | _ => mkPolicy demo_config 0 0 0 ∅ ∅ [] ∅
  end.

(** Run a list of operations, whatever they answer. *)
Definition run (ops : list op) (p : AdmissionPolicy) : AdmissionPolicy :=
  foldl (λ p o, (exec o p).1) p ops.

(** An interactive root, a background root and a queued attempt of each. *)
Definition demo_queued : AdmissionPolicy :=
  run [RegisterRoot Interactive; RegisterRoot Background;
       Enqueue (mkScopeId 1 1) 1 "alias" 5; Enqueue (mkScopeId 1 2) 1 "alias" 5] demo.

(** The interactive attempt granted at 5. *)
Definition demo_granted : AdmissionPolicy := run [Next "g" 5] demo_queued.

Lemma demo_typed : config_typed demo_config.
Proof.
  intros g gp Hg. unfold demo_config in Hg. simpl in Hg.
  apply lookup_singleton_Some in Hg as [_ <-]. unfold policy_typed, u64_ok, u64_max. simpl. lia.
Qed.

Lemma reachable_demo : reachable demo.
Proof. eapply (reach_new 1 demo_config); [apply demo_typed|]. by vm_compute. Qed.

Lemma reachable_run ops p : Forall op_typed ops → reachable p → reachable (run ops p).
Proof.
  revert p. induction ops as [|o ops IH]; intros p Ho Hp; [done|].
  inversion_clear Ho as [|?? Ho1 Hops]. apply IH; [done|].
  eapply reach_step; [done|exact Ho1|]. apply surjective_pairing.
Qed.

Lemma reachable_demo_queued : reachable demo_queued.
Proof. apply reachable_run; [by repeat constructor|apply reachable_demo]. Qed.

Lemma reachable_demo_granted : reachable demo_granted.
Proof. apply reachable_run; [by repeat constructor|apply reachable_demo_queued]. Qed.

(** * Safety *)

(** C1: in every reachable state, every operation ends without a panic (no
    [expect], map index, unsigned subtraction or [debug_assert!] fails) in a
    state that satisfies the invariant again, whether it answers or errs. *)
Theorem authority_safe p o :
  reachable p → op_typed o → no_panic (exec o p).2 ∧ wf (exec o p).1.
Proof. intros Hp Ho. apply keeps_exec; [by apply reachable_wf|done]. Qed.

Lemma authority_safe_witness :
  no_panic (exec (Next "g" 5) demo_queued).2 ∧ wf (exec (Next "g" 5) demo_queued).1.
Proof. exact (authority_safe demo_queued (Next "g" 5) reachable_demo_queued I). Defined.

(** C2: occupancy is bounded in every reachable state: per group, attempts in
    flight by the capacity, background attempts by the capacity less the
    interactive reserve, waits by the queue capacity; and over the authority,
    live scopes and retained terminal requests by their configured limits. *)
Theorem occupancy_bounded p g gp :
  reachable p → ac_groups (p_config p) !! g = Some gp →
  active_count g p ≤ gp_capacity gp ∧
  background_count g p ≤ gp_capacity gp - gp_reserve gp ∧
  queued_count g p ≤ gp_queue_capacity gp ∧
  live_scopes p ≤ ac_max_scopes (p_config p) ∧
  length (p_terminals p) ≤ ac_terminal_capacity (p_config p).
Proof.
  intros Hp%reachable_wf Hg. destruct (wf_counts p Hp g gp Hg) as (? & ? & ?).
  split_and!; try done; apply Hp.
Qed.

Lemma occupancy_bounded_witness :
  active_count "g" demo_granted = 1 ∧ active_count "g" demo_granted ≤ gp_capacity demo_policy.
Proof.
  split; [by vm_compute|].
  exact (proj1 (occupancy_bounded demo_granted "g" demo_policy reachable_demo_granted
                  ltac:(by vm_compute))).
Defined.

(** C3: a grant is made only from a group that is available, holds no uncertain
    or orphaned attempt, is below capacity and past its pacing and cooldown
    instants; the granted request was the oldest wait of its scope in that
    group; it becomes active until its attempt deadline, the group's next
    start moves one interval on, and no other request changes. *)
Theorem grant_conditions p g now p' id :
  reachable p → next g now p = (p', Ok (Some id)) →
  ∃ gp p1 gr r sc,
    ac_groups (p_config p) !! g = Some gp ∧ tick now p = (p1, Ok tt) ∧
    p_groups p1 !! g = Some gr ∧ gate_open g gp now p1 gr ∧
    p_requests p1 !! id = Some r ∧ p_scopes p1 !! rid_scope id = Some sc ∧
    is_queue_head p1 g (sc_class sc) id ∧
    (sc_class sc = Background → background_open g gp p1 = true) ∧
    p_requests p' =
      <[id := set_state (Active now (now + gp_attempt_timeout_ms gp) false) r]> (p_requests p1) ∧
    (∃ gr', p_groups p' = <[g := gr']> (p_groups p1) ∧
            g_next_start gr' = (now + gp_min_interval_ms gp)%N ∧ g_cooldown gr' = g_cooldown gr).
Proof.
  intros Hp%reachable_wf Hnext. destruct (next_grants p g now p' id Hp Hnext) as [Hle [gp Hgp]].
  destruct (next_spec p g gp now Hp Hgp Hle) as (p1 & gr & Ht & Hwf1 & He & _ & Hg & Hout).
  rewrite Hnext in Hout.
  destruct (dispatch_grant_inv _ _ _ _ _ _ _ Hout) as (i & b & r & sc & Hgate & Hc & Hs & Hr & Hsc & ->).
  destruct (select_contender _ _ _ _ _ _ _ Hc Hs) as (r0 & sc0 & Hr0 & Hsc0 & Hh & Hb). simplify_eq.
  exists gp, p1, gr. eexists _, _. split_and!; try done.
  - intros Hbg. by apply Hb.
  - eexists. split_and!; done.
Qed.

Lemma grant_conditions_witness :
  ∃ gr', p_groups demo_granted !! "g" = Some gr' ∧ g_next_start gr' = 15%N.
Proof.
  destruct (grant_conditions demo_queued "g" 5 demo_granted (mkRequestId (mkScopeId 1 1) 1)
              reachable_demo_queued ltac:(by vm_compute))
    as (gp & p1 & gr & r & sc & Hgp & _ & _ & _ & _ & _ & _ & _ & _ & gr' & Hg & Hns & _).
  exists gr'. rewrite Hg, lookup_insert_eq. split; [done|]. rewrite Hns.
  assert (gp = demo_policy) as ->; [|reflexivity].
  assert (Some gp = Some demo_policy) as [= ->]; [|done]. rewrite <- Hgp. by vm_compute.
Defined.

(** C4: two grants of a group are at least its minimum interval apart, whatever
    operations (epoch resets included) happen between them. *)
Theorem grants_paced p p1 p2 p3 g gp t1 t2 id1 id2 :
  reachable p → ac_groups (p_config p) !! g = Some gp →
  next g t1 p = (p1, Ok (Some id1)) → rtc step p1 p2 → next g t2 p2 = (p3, Ok (Some id2)) →
  (t1 + gp_min_interval_ms gp ≤ t2)%N.
Proof.
  intros Hp%reachable_wf Hgp Hn1 Hst Hn2.
  destruct (next_grants _ _ _ _ _ Hp Hn1) as [Hle1 _].
  destruct (next_spec p g gp t1 Hp Hgp Hle1) as (q1 & gr1 & _ & _ & He1 & _ & Hg1 & Hout1).
  rewrite Hn1 in Hout1. destruct (dispatch_grant_inv _ _ _ _ _ _ _ Hout1) as (i & b & r & sc & _ & _ & _ & _ & _ & ->).
  assert (wf (granted q1 g (charge_grant gp sc (rid_scope id1) (t1 + gp_min_interval_ms gp)
            (bool_decide (is_Some b)) (interactive_count g q1) gr1) id1 r t1 (t1 + gp_attempt_timeout_ms gp))) as Hwf1.
  { pose proof (keeps_next p g t1 Hp) as [_ Hw]. by rewrite Hn1 in Hw. }
  destruct (steps_tighten _ _ Hst Hwf1) as [Hc Hgs]. simpl in Hc, Hgs.
  edestruct (Hgs g) as (gr2 & Hg2 & Hns & _); [apply lookup_insert_eq|]. simpl in Hns.
  pose proof (steps_wf _ _ Hst Hwf1) as Hwf2.
  destruct (next_grants _ _ _ _ _ Hwf2 Hn2) as [Hle2 [gp2 Hgp2]].
  rewrite Hc, (ev_config _ _ _ He1) in Hgp2. assert (gp2 = gp) as -> by congruence.
  rewrite <- (ev_config _ _ _ He1), <- Hc in Hgp.
  destruct (next_spec p2 g gp t2 Hwf2 Hgp Hle2) as (q2 & gr3 & _ & _ & He2 & _ & Hg3 & Hout2).
  rewrite Hn2 in Hout2. destruct (dispatch_grant_inv _ _ _ _ _ _ _ Hout2) as (_ & _ & _ & _ & Hgate & _).
  pose proof (go_pacing _ _ _ _ _ Hgate) as Hpace.
  pose proof (ev_groups _ _ _ He2 g) as Hsame. rewrite Hg2, Hg3 in Hsame.
  destruct Hsame as [(_ & Hsn & _) _]. lia.
Qed.

Lemma grants_paced_witness : (5 + gp_min_interval_ms demo_policy ≤ 15)%N.
Proof.
  refine (grants_paced demo_queued (next "g" 5 demo_queued).1 (next "g" 5 demo_queued).1
           (next "g" 15 (next "g" 5 demo_queued).1).1 "g" demo_policy 5 15
           (mkRequestId (mkScopeId 1 1) 1) (mkRequestId (mkScopeId 1 2) 1)
           reachable_demo_queued _ _ (rtc_refl _ _) _); by vm_compute.
Defined.

(** No operation moves a group's pacing or cooldown instant earlier, and
    only an epoch reset makes an unavailable group available again. *)
Theorem schedule_never_relaxed p o g gr :
  reachable p → op_typed o → p_groups p !! g = Some gr →
  ∃ gr', p_groups (exec o p).1 !! g = Some gr' ∧
    (g_next_start gr ≤ g_next_start gr')%N ∧ (g_cooldown gr ≤ g_cooldown gr')%N ∧
    (is_reset o = false → g_unavailable gr = true → g_unavailable gr' = true).
Proof.
  intros Hp%reachable_wf Ho Hg. destruct (exec_tightens o p Hp Ho) as [_ H].
  destruct (H g gr Hg) as (gr' & Hg' & ? & ? & ? & _). exists gr'. by split_and!.
Qed.

Lemma schedule_never_relaxed_witness :
  ∃ gr', p_groups (exec (Complete (mkScopeId 1 1) 1 (Throttle 50) 40) demo_granted).1 !! "g" = Some gr' ∧
         (15 ≤ g_next_start gr')%N.
Proof.
  destruct (p_groups demo_granted !! "g") as [gr|] eqn:Hg; [|by vm_compute in Hg].
  destruct (schedule_never_relaxed demo_granted (Complete (mkScopeId 1 1) 1 (Throttle 50) 40) "g" gr
              reachable_demo_granted I Hg) as (gr' & Hg' & Hns & _).
  exists gr'. split; [exact Hg'|]. vm_compute in Hg. injection Hg as <-. exact Hns.
Defined.

(** Fairness of dispatch between the classes: the two streaks of a group bound
    how often contended interactive work goes first. *)

(** Background work waits for an open shared slot of [g] when [next] is asked. *)
Definition background_contends (g : GroupId) (now : N) (p : AdmissionPolicy) : Prop :=
  ∃ gp p1, ac_groups (p_config p) !! g = Some gp ∧ tick now p = (p1, Ok tt) ∧
    background_open g gp p1 = true ∧ ¬ none_waiting p1 g Background.

Definition granted_class (id : RequestId) (p : AdmissionPolicy) : option WorkloadClass :=
  sc_class <$> p_scopes p !! rid_scope id.

(** [starves g k n p p']: operations led from [p] to [p'] without a background grant of [g];
    [n] interactive grants of [g] were made while background work contended, and the
    authority's epoch was reset [k] times. *)
Inductive starves (g : GroupId) : nat → nat → AdmissionPolicy → AdmissionPolicy → Prop :=
| starves_refl p : starves g 0 0 p p
| starves_other k n p p1 o :
    starves g k n p p1 → op_typed o → reschedules o = false → starves g k n p (exec o p1).1
| starves_reset k n p p1 now :
    starves g k n p p1 → op_typed (Reset now) → starves g (S k) n p (exec (Reset now) p1).1
| starves_elsewhere k n p p1 g' now :
    starves g k n p p1 → g' ≠ g → starves g k n p (next g' now p1).1
| starves_nothing k n p p1 p2 now res :
    starves g k n p p1 → next g now p1 = (p2, res) → (∀ id, res ≠ Ok (Some id)) → starves g k n p p2
| starves_uncontested k n p p1 p2 now id :
    starves g k n p p1 → next g now p1 = (p2, Ok (Some id)) →
    granted_class id p1 = Some Interactive → starves g k n p p2
| starves_contested k n p p1 p2 now id :
    starves g k n p p1 → next g now p1 = (p2, Ok (Some id)) →
    granted_class id p1 = Some Interactive → background_contends g now p1 → starves g k (S n) p p2.

(** The streaks of [g] account for the contested interactive grants since the last of [k] resets. *)
Definition accounts (g : GroupId) (k n : nat) (p : AdmissionPolicy) : Prop :=
  n ≤ 9 * S k ∧ ∀ gr, p_groups p !! g = Some gr →
    (N.of_nat n ≤ 9 * N.of_nat k + 3 * g_interactive_streak gr + g_contested_pacing_streak gr)%N.

Lemma accounts_streaks g k n p p' :
  accounts g k n p →
  (∀ gr', p_groups p' !! g = Some gr' → ∃ gr, p_groups p !! g = Some gr ∧
     g_interactive_streak gr' = g_interactive_streak gr ∧
     g_contested_pacing_streak gr' = g_contested_pacing_streak gr) →
  accounts g k n p'.
Proof.
  intros [Hn Ha] Hs. split; [done|]. intros gr' Hg'. destruct (Hs gr' Hg') as (gr & Hg & -> & ->). by apply Ha.
Qed.

(** Groups are neither created nor dropped, so streaks can be read back. *)
Lemma calm_streaks p p' g gr' :
  wf p → wf p' → calm p p' → p_groups p' !! g = Some gr' →
  ∃ gr, p_groups p !! g = Some gr ∧ g_interactive_streak gr' = g_interactive_streak gr ∧
        g_contested_pacing_streak gr' = g_contested_pacing_streak gr.
Proof.
  intros Hwf Hwf' [Hc H] Hg'.
  destruct (proj2 (wf_groups p Hwf g)) as [gr Hg].
  { rewrite <- Hc, <- (wf_groups p' Hwf'). eauto. }
  destruct (H g gr Hg) as (gr1 & Hg1 & _ & _ & _ & ? & ? & _). exists gr. split; [done|].
  assert (gr1 = gr') as -> by congruence. done.
Qed.

(** What [next] does to the streaks of a group. *)
Lemma next_streaks p g gp now p' res gr' :
  wf p → ac_groups (p_config p) !! g = Some gp → next g now p = (p', res) →
  p_groups p' !! g = Some gr' →
  ∃ gr, p_groups p !! g = Some gr ∧ streaks_ok gr ∧
    ((∀ id, res ≠ Ok (Some id)) ∧
       g_interactive_streak gr' = g_interactive_streak gr ∧
       g_contested_pacing_streak gr' = g_contested_pacing_streak gr ∨
     ∃ id b sc p1 ia i, res = Ok (Some id) ∧ tick now p = (p1, Ok tt) ∧
       contenders g gp p1 i b ∧ select gr i b = Some id ∧ p_scopes p !! rid_scope id = Some sc ∧
       g_interactive_streak gr' = g_interactive_streak (charge_grant gp sc (rid_scope id) 0 (bool_decide (is_Some b)) ia gr) ∧
       g_contested_pacing_streak gr' = g_contested_pacing_streak (charge_grant gp sc (rid_scope id) 0 (bool_decide (is_Some b)) ia gr)).
Proof.
  intros Hwf Hgp Hn Hg'. destruct (proj2 (wf_groups p Hwf g)) as [gr Hg]; [by eauto|].
  exists gr. split; [done|]. split; [by apply (wf_group_ok p Hwf) in Hg as [_ ?]|].
  destruct (N.lt_ge_cases now (p_now p)) as [Hlt|Hle].
  { unfold next, snapshot in Hn.
    rewrite (bind_err _ _ _ _ _ (bind_err _ _ _ _ _ (tick_regression _ _ Hlt))) in Hn.
    left. simplify_eq. split; [done|]. by simplify_eq. }
  destruct (next_spec p g gp now Hwf Hgp Hle) as (p1 & gr1 & Ht & _ & He & _ & Hg1 & Hout).
  pose proof (ev_groups _ _ _ He g) as Hsame. rewrite Hg, Hg1 in Hsame.
  destruct Hsame as [(_ & _ & _ & _ & Hi & Hc & _) _].
  rewrite Hn in Hout. remember (p', res) as out eqn:Heq.
  destruct Hout as [Hu|Hu Hq|Hu Hq Hcl|i b Hgate Hct Hs|i b Hgate Hct Hs Hov|i b id r sc Hgate Hct Hs Hr Hsc Hb1 Hb2];
    injection Heq as <- <-.
  1-4: left; split; [done|]; assert (gr' = gr1) as -> by congruence; done.
  - left. split; [done|]. simpl in Hg'. rewrite lookup_insert_eq in Hg'. by injection Hg' as <-.
  - right. simpl in Hg'. rewrite lookup_insert_eq in Hg'. injection Hg' as <-.
    exists id, b, sc, p1, (interactive_count g p1), i. split_and!; try done.
    + unfold select in *. by rewrite <- Hi, <- Hc.
    + by rewrite <- (ev_scopes _ _ _ He).
    + unfold charge_grant. simpl. by rewrite Hi.
    + unfold charge_grant. simpl. by rewrite Hc.
Qed.

Lemma next_elsewhere_streaks p g g' now gr' :
  wf p → g' ≠ g → p_groups (next g' now p).1 !! g = Some gr' →
  ∃ gr, p_groups p !! g = Some gr ∧ g_interactive_streak gr' = g_interactive_streak gr ∧
        g_contested_pacing_streak gr' = g_contested_pacing_streak gr.
Proof.
  intros Hwf Hne Hg'. destruct (next g' now p) as [p' res] eqn:Hn. simpl in Hg'.
  destruct (N.lt_ge_cases now (p_now p)) as [Hlt|Hle].
  { unfold next, snapshot in Hn.
    rewrite (bind_err _ _ _ _ _ (bind_err _ _ _ _ _ (tick_regression _ _ Hlt))) in Hn. simplify_eq. eauto. }
  destruct (tick_spec p now Hwf Hle) as (p0 & Ht0 & Hwf0 & He0 & _).
  assert (p_groups p' !! g = p_groups p0 !! g) as Heq.
  { destruct (ac_groups (p_config p) !! g') as [gp|] eqn:Hgp.
    - destruct (next_spec p g' gp now Hwf Hgp Hle) as (p1 & gr1 & Ht & _ & _ & _ & _ & Hout).
      rewrite Ht0 in Ht. injection Ht as <-. rewrite Hn in Hout. remember (p', res) as out eqn:Hout'.
      destruct Hout; simplify_eq; simpl; try done; by rewrite lookup_insert_ne.
    - assert (p_groups p0 !! g' = None) as Hnone.
      { apply eq_None_not_Some. rewrite (wf_groups p0 Hwf0), (ev_config _ _ _ He0), Hgp. by intros [? ?]. }
      unfold next, snapshot in Hn. rewrite (bind_err _ _ p p0 UnknownGroup) in Hn; [by simplify_eq|].
      rewrite (bind_ok _ _ _ _ _ Ht0), bind_gets. unfold bind, ok_or. by rewrite Hnone. }
  rewrite Heq in Hg'. by eapply calm_streaks; [exact Hwf|exact Hwf0|eapply calm_evolves|].
Qed.

Lemma tick_scopes p now p1 : wf p → tick now p = (p1, Ok tt) → p_scopes p1 = p_scopes p.
Proof.
  intros Hwf Ht. destruct (N.lt_ge_cases now (p_now p)) as [Hlt|Hle].
  { by rewrite (tick_regression _ _ Hlt) in Ht. }
  destruct (tick_spec p now Hwf Hle) as (p2 & Ht2 & _ & He & _). rewrite Ht in Ht2.
  injection Ht2 as <-. apply He.
Qed.

(** A contested grant to interactive work is counted by the streaks, and is
    made only while they are below their bound. *)
Lemma contested_accounts g k n p1 p2 now id :
  wf p1 → wf p2 → accounts g k n p1 → next g now p1 = (p2, Ok (Some id)) →
  granted_class id p1 = Some Interactive → background_contends g now p1 → accounts g k (S n) p2.
Proof.
  intros Hwf1 Hwf2 [Hle Hacc] Hn Hcl Hct. destruct (next_grants p1 g now p2 id Hwf1 Hn) as [_ [gp Hgp]].
  assert (∀ gr', p_groups p2 !! g = Some gr' →
    (S n ≤ 9 * S k)%nat ∧ (N.of_nat (S n) ≤ 9 * N.of_nat k + 3 * g_interactive_streak gr' + g_contested_pacing_streak gr')%N) as Hgoal.
  { intros gr' Hg'. destruct (next_streaks p1 g gp now p2 _ gr' Hwf1 Hgp Hn Hg')
      as (gr & Hg & [Hi3 Hc3] & [(Hno & _)|(id' & b & sc & q & ia & i & [= <-] & Ht & Hcon & Hsel & Hsc & -> & ->)]);
      [by destruct (Hno id)|].
    unfold granted_class in Hcl. rewrite Hsc in Hcl. injection Hcl as Hcl.
    destruct Hct as (gp0 & q0 & Hgp0 & Ht0 & Hopen & Hwait).
    assert (gp0 = gp) as -> by congruence. assert (q0 = q) as -> by congruence.
    destruct Hcon as [Hicand Hb]. rewrite Hopen in Hb. destruct b as [b|]; [|done].
    assert (b ≠ id) as Hbid.
    { intros ->. destruct Hb as (r & sc' & _ & Hsc' & _ & _ & Hbg & _).
      rewrite (tick_scopes _ _ _ Hwf1 Ht) in Hsc'. congruence. }
    destruct i as [i|]; simpl in Hsel; [|congruence]. specialize (Hacc gr Hg).
    destruct ((3 <=? g_interactive_streak gr)%N || (3 <=? g_contested_pacing_streak gr)%N) eqn:H3;
      [congruence|].
    apply orb_false_iff in H3 as [?%N.leb_gt ?%N.leb_gt].
    unfold charge_grant. simpl. rewrite Hcl. simpl. repeat case_match; lia. }
  destruct (proj2 (wf_groups p2 Hwf2 g)) as [gr2 Hg2].
  { pose proof (next_tightens p1 g now Hwf1) as [Hc _]. rewrite Hn in Hc. simpl in Hc. rewrite Hc. eauto. }
  split; [by eapply Hgoal|]. intros gr' Hg'. by apply Hgoal.
Qed.

(** Any answer other than a background grant keeps the account. *)
Lemma quiet_accounts g k n p1 p2 now res :
  wf p1 → wf p2 → accounts g k n p1 → next g now p1 = (p2, res) →
  (∀ id, res = Ok (Some id) → granted_class id p1 = Some Interactive) → accounts g k n p2.
Proof.
  intros Hwf1 Hwf2 [Hle Hacc] Hn Hres. split; [done|]. intros gr' Hg'.
  destruct (proj1 (wf_groups p2 Hwf2 g)) as [gp Hgp]; [by eauto|].
  pose proof (next_tightens p1 g now Hwf1) as [Hc _]. rewrite Hn in Hc. simpl in Hc. rewrite Hc in Hgp.
  destruct (next_streaks p1 g gp now p2 res gr' Hwf1 Hgp Hn Hg')
    as (gr & Hg & [Hi3 Hc3] & [(_ & -> & ->)|(id & b & sc & q & ia & i & -> & _ & _ & _ & Hsc & -> & ->)]).
  - by apply Hacc.
  - specialize (Hres id eq_refl). unfold granted_class in Hres. rewrite Hsc in Hres. injection Hres as Hcl.
    specialize (Hacc gr Hg). unfold charge_grant. simpl. rewrite Hcl. simpl. repeat case_match; lia.
Qed.

Lemma next_wf p g now p' res : wf p → next g now p = (p', res) → wf p'.
Proof. intros Hwf Hn. pose proof (keeps_next p g now Hwf) as [_ Hw]. by rewrite Hn in Hw. Qed.

Lemma starves_accounts g k n p p' : starves g k n p p' → wf p → wf p' ∧ accounts g k n p'.
Proof.
  intros Hs Hwf. induction Hs as [p|k n p p1 o _ IH Ho Hr|k n p p1 now _ IH Ho|k n p p1 g' now _ IH Hne|k n p p1 p2 now res _ IH Hn Hres
    |k n p p1 p2 now id _ IH Hn Hcl|k n p p1 p2 now id _ IH Hn Hcl Hct];
    [|destruct (IH Hwf) as [Hwf1 Hacc]..].
  - split; [done|]. split; [lia|]. intros gr _. lia.
  - assert (wf (exec o p1).1) as Hwf2 by apply (keeps_exec o p1 Hwf1 Ho). split; [done|].
    eapply accounts_streaks; [done|]. intros gr' Hg'. eapply calm_streaks; [exact Hwf1|exact Hwf2| |done].
    by apply calm_exec.
  - split; [apply (keeps_exec (Reset now) p1 Hwf1 Ho)|]. destruct Hacc as [Hn _]. split; [lia|]. intros gr _. lia.
  - split; [apply (keeps_next p1 g' now Hwf1)|]. eapply accounts_streaks; [done|].
    intros gr' Hg'. by eapply next_elsewhere_streaks.
  - pose proof (next_wf _ _ _ _ _ Hwf1 Hn). split; [done|].
    eapply quiet_accounts; [exact Hwf1|done|exact Hacc|exact Hn|]. intros id ->. by destruct (Hres id).
  - pose proof (next_wf _ _ _ _ _ Hwf1 Hn). split; [done|].
    eapply quiet_accounts; [exact Hwf1|done|exact Hacc|exact Hn|]. by intros ? [= <-].
  - pose proof (next_wf _ _ _ _ _ Hwf1 Hn). split; [done|]. by eapply (contested_accounts _ _ _ p1).
Qed.

(** C5: background work is not starved: while it contends for an open shared
    slot of a group, at most nine attempts of interactive work are granted in a
    row, whatever other operations are interleaved, if the authority's epoch is not
    reset meanwhile; each reset, which starts the count anew, admits nine more at most. *)
Theorem background_not_starved g k n p p' : reachable p → starves g k n p p' → n ≤ 9 * S k.
Proof. intros Hp%reachable_wf Hs. by apply (starves_accounts g k n p p' Hs Hp). Qed.

Lemma background_not_starved_witness : 1 ≤ 9 * 1.
Proof.
  refine (background_not_starved "g" 0 1 demo_queued (next "g" 5 demo_queued).1 reachable_demo_queued _).
  eapply (starves_contested "g" 0 0 demo_queued demo_queued _ 5 (mkRequestId (mkScopeId 1 1) 1));
    [constructor|by vm_compute|by vm_compute|].
  exists demo_policy, (tick 5 demo_queued).1. split_and!; [by vm_compute..|].
  intros Hn. set (id := mkRequestId (mkScopeId 1 2) 1).
  destruct (p_requests (tick 5 demo_queued).1 !! id) as [r|] eqn:Hr; [|by vm_compute in Hr].
  specialize (Hn id r Hr). vm_compute in Hr. injection Hr as <-. by vm_compute in Hn.
Defined.
