(* ===== verification/AdmissionRecovery.v ===== *)
(** Uncertainty and wakes: an abandoned attempt closes its group until its lease
    bound, the quarantine ends by itself, and the wake instant is sound. *)

From S2P Require Import Prelude AdmissionTypes AdmissionPolicy AdmissionInv AdmissionTick AdmissionDispatch AdmissionOps AdmissionCalm AdmissionProps.

(** * Quarantine *)

(** A marked attempt whose lease has not elapsed survives the tick, marked. *)
Lemma uncertain_survives p t g gr id since r st d c :
  wf p → (p_now p ≤ t)%N → p_groups p !! g = Some gr → g_uncertain gr !! id = Some since →
  p_requests p !! id = Some r → rq_state r = Active st d c → (t < lease_release d since)%N →
  ∃ p1 gr1, tick t p = (p1, Ok tt) ∧ p_groups p1 !! g = Some gr1 ∧ g_uncertain gr1 !! id = Some since.
Proof.
  intros Hwf Hle Hg Hu Hr Hs Hlt. destruct (tick_spec p t Hwf Hle) as (p1 & Ht & Hwf1 & He & _).
  pose proof (ev_groups _ _ _ He g) as Hgs. rewrite Hg in Hgs.
  destruct (p_groups p1 !! g) as [gr1|] eqn:Hg1; [|done].
  destruct (ev_kept _ _ _ He id r Hr) as (r1 & Hr1 & Ha1); [by rewrite Hs| |].
  - intros (g' & gr' & since' & Hg' & Hu' & Hd)%elem_of_elapsed_leases.
    destruct (wf_uncertain p Hwf _ _ _ _ Hg Hu) as (r0 & Hr0 & Hrg & _).
    destruct (wf_uncertain p Hwf _ _ _ _ Hg' Hu') as (r0' & Hr0' & Hrg' & _).
    assert (g' = g) as -> by congruence. assert (since' = since) as -> by congruence.
    unfold lease_due in Hd. simpl in Hd. rewrite Hr in Hd. simpl in Hd. rewrite Hs in Hd. lia.
  - exists p1, gr1. split_and!; try done. by eapply (ev_marked _ _ _ He g gr gr1 id since r1).
Qed.

(** A group with a live uncertain lease starts nothing. *)
Lemma uncertain_blocks p t g gr id since r st d c :
  wf p → (p_now p ≤ t)%N → p_groups p !! g = Some gr → g_uncertain gr !! id = Some since →
  p_requests p !! id = Some r → rq_state r = Active st d c → (t < lease_release d since)%N →
  (next g t p).2 = Err Unavailable ∨ (next g t p).2 = Err Quarantined.
Proof.
  intros Hwf Hle Hg Hu Hr Hs Hlt. destruct (group_policy p g gr Hwf Hg) as [gp Hgp].
  destruct (uncertain_survives p t g gr id since r st d c) as (p1 & gr1 & Ht & Hg1 & Hu1); try done.
  destruct (next_spec p g gp t Hwf Hgp Hle) as (p1' & gr1' & Ht' & _ & _ & _ & Hg1' & Hout).
  rewrite Ht in Ht'. injection Ht' as <-. rewrite Hg1 in Hg1'. injection Hg1' as <-.
  assert (0 < size (g_uncertain gr1)) as Hpos.
  { destruct (decide (size (g_uncertain gr1) = 0)) as [He%map_size_empty_inv|]; [|lia].
    by rewrite He, lookup_empty in Hu1. }
  destruct (next g t p) as [p2 ans]. remember (p2, ans) as out eqn:Heq.
  destruct Hout as [| |? H0|? ? Hgate|? ? Hgate|? ? ? ? ? Hgate]; injection Heq as <- <-; simpl; auto;
    exfalso; [lia|pose proof (go_certain _ _ _ _ _ Hgate); lia..].
Qed.

Lemma lease_release_mono d s s' : (s ≤ s')%N → (lease_release d s ≤ lease_release d s')%N.
Proof. unfold lease_release, u64_saturating_add. lia. Qed.

(** C6: after a scope is abandoned, each of its attempts that is still active
    closes its group: until the attempt's deadline plus the lease margin, a
    dispatch of that group answers that it is unavailable or quarantined. *)
Theorem abandon_quarantines p sid now p' rep id r st d c t :
  reachable p → abandon sid now p = (p', Ok rep) → rid_scope id = sid →
  p_requests p' !! id = Some r → rq_state r = Active st d c →
  (now ≤ t)%N → (t < lease_release d 0)%N →
  (next (rq_group r) t p').2 = Err Unavailable ∨ (next (rq_group r) t p').2 = Err Quarantined.
Proof.
  intros Hp%reachable_wf Hab Hsid Hr Hs Hle Hlt. unfold abandon in Hab.
  destruct (scope sid p) as [sc| |] eqn:Hsc; [|by unfold bind, reads in Hab; rewrite Hsc in Hab..].
  rewrite (bind_reads _ sc) in Hab by done.
  destruct (N.lt_ge_cases now (p_now p)) as [Hreg|Hnow];
    [by rewrite (bind_err _ _ _ _ _ (tick_regression _ _ Hreg)) in Hab|].
  destruct (tick_spec p now Hp Hnow) as (p1 & Ht & Hwf1 & _ & Hst).
  rewrite (bind_ok _ _ _ _ _ Ht), bind_gets in Hab.
  destruct (abandon_run p1 now sid Hwf1) as (p2 & rep2 & Heq & Hwf2 & A).
  unfold owned_by in Heq. rewrite Heq in Hab. injection Hab as <- <-.
  destruct (ad_back _ _ _ A id r Hr) as (r1 & Hr1 & [->|[_ Hterm]]); [|by rewrite Hs in Hterm].
  pose proof (ad_done _ _ _ A id r1) as Hd. rewrite Hs in Hd.
  destruct Hd as (_ & gr & Hg & [since Hu]); [by apply elem_of_owned_by|].
  eapply uncertain_blocks; try done.
  - rewrite (ad_now _ _ _ A), (st_now _ _ Hst). done.
  - pose proof (lease_release_mono d 0 since). lia.
Qed.

Lemma abandon_quarantines_witness :
  (next "g" 2000 (abandon (mkScopeId 1 1) 20 demo_granted).1).2 = Err Unavailable ∨
  (next "g" 2000 (abandon (mkScopeId 1 1) 20 demo_granted).1).2 = Err Quarantined.
Proof.
  set (id := mkRequestId (mkScopeId 1 1) 1).
  refine (abandon_quarantines demo_granted (mkScopeId 1 1) 20 _ (mkAbandonReport 0 1 1) id
            (mkRequest "g" (Active 5 5005 false) None None false None) 5 5005 false 2000
            reachable_demo_granted _ _ _ _ _ _); by vm_compute.
Defined.

(** The quarantine ends by itself: once every lease bound and every restored
    release of the group has passed, a dispatch no longer answers quarantined. *)
Theorem quarantine_clears p g gr t :
  reachable p → p_groups p !! g = Some gr → (p_now p ≤ t)%N →
  (∀ id since r st d c, g_uncertain gr !! id = Some since → p_requests p !! id = Some r →
     rq_state r = Active st d c → (lease_release d since ≤ t)%N) →
  (∀ o, o ∈ g_orphans gr → (or_release_at o ≤ t)%N) →
  (next g t p).2 ≠ Err Quarantined.
Proof.
  intros Hwf%reachable_wf Hg Hle Hlease Horph. destruct (group_policy p g gr Hwf Hg) as [gp Hgp].
  destruct (next_spec p g gp t Hwf Hgp Hle) as (p1 & gr1 & _ & Hwf1 & He & Hst & Hg1 & Hout).
  pose proof (ev_groups _ _ _ He g) as Hgs. rewrite Hg, Hg1 in Hgs. destruct Hgs as (_ & Hsub & Hos).
  assert (g_orphans gr1 = []) as Ho.
  { apply elem_of_nil_inv. intros o Hin. pose proof (st_orphans _ _ Hst g gr1 o Hg1 Hin) as Hlt.
    assert (o ∈ g_orphans gr) as Hin0%Horph; [|lia]. by eapply elem_of_submseteq, sublist_submseteq. }
  assert (size (g_uncertain gr1) = 0) as Hu.
  { rewrite map_size_empty_iff. apply map_empty. intros id.
    destruct (g_uncertain gr1 !! id) as [since|] eqn:Hin; [|done]. exfalso.
    destruct (wf_uncertain p1 Hwf1 g gr1 id since Hg1 Hin) as (r1 & Hr1 & _ & Ha).
    destruct (rq_state r1) as [|st d c1|] eqn:Hs1; try done.
    destruct (ev_requests _ _ _ He id r1 Hr1) as (r & Hr & _ & _ & _ & _ & Hact).
    destruct (Hact st d c1 Hs1) as [c Hs].
    assert (id ∈ elapsed_leases t p1) as Hel; [|by rewrite (st_leases _ _ Hst) in Hel; apply not_elem_of_nil in Hel].
    apply elem_of_elapsed_leases. exists g, gr1, since. split_and!; try done.
    unfold lease_due. simpl. rewrite Hr1. simpl. rewrite Hs1. apply N.leb_le.
    eapply Hlease; [by eapply lookup_weaken|done|done]. }
  destruct (next g t p) as [p2 ans]. remember (p2, ans) as out eqn:Heq.
  destruct Hout as [|? Hq|? H0|? ? Hgate|? ? Hgate|? ? ? ? ? Hgate]; injection Heq as <- <-; simpl; try done.
  rewrite Hu, Ho in Hq. simpl in Hq. lia.
Qed.

(** The granted scope abandoned at 20. *)
Definition demo_abandoned : AdmissionPolicy := run [Abandon (mkScopeId 1 1) 20] demo_granted.

Lemma reachable_demo_abandoned : reachable demo_abandoned.
Proof. apply reachable_run; [by repeat constructor|exact reachable_demo_granted]. Qed.

Lemma quarantine_clears_witness : (next "g" 100000 demo_abandoned).2 ≠ Err Quarantined.
Proof.
  assert (∃ gr, p_groups demo_abandoned !! "g" = Some gr ∧
    g_uncertain gr = {[ mkRequestId (mkScopeId 1 1) 1 := 20%N ]} ∧ g_orphans gr = []) as (gr & Hg & Hu & Ho).
  { eexists. split; [by vm_compute|]. split; by vm_compute. }
  apply (quarantine_clears demo_abandoned "g" gr 100000 reachable_demo_abandoned Hg).
  - by vm_compute.
  - intros id since r st d c Hin Hr Hs. rewrite Hu in Hin.
    apply lookup_singleton_Some in Hin as [<- <-]. vm_compute in Hr. injection Hr as <-.
    simpl in Hs. injection Hs as _ <- _. by vm_compute.
  - intros o Hin. rewrite Ho in Hin. destruct (not_elem_of_nil o Hin).
Defined.

(** * Wakes *)

Lemma idle_tick_waiting_inv t p g class : none_waiting (idle_tick t p) g class → none_waiting p g class.
Proof.
  intros Hn id r Hr. specialize (Hn id (require_cancellation t r)). simpl in Hn.
  rewrite lookup_fmap, Hr in Hn. rewrite <- (Hn eq_refl). unfold eligible. simpl.
  destruct (p_scopes p !! rid_scope id); [|done].
  destruct (require_cancellation_kind t r) as [(Hg & Hq & _) _]. unfold in_group. by rewrite Hg, Hq.
Qed.

(** Nobody waits for a slot of the group that is open to it. *)
Definition no_contender (g : GroupId) (gp : GroupPolicy) (p : AdmissionPolicy) : Prop :=
  none_waiting p g Interactive ∧ (background_open g gp p = true → none_waiting p g Background).

Lemma no_contender_select g gp p i b gr :
  contenders g gp p i b → (select gr i b = None ↔ no_contender g gp p).
Proof.
  intros Hc. split; [|by intros [? ?]; eapply contenders_none].
  destruct Hc as [Hi Hb]. destruct i as [i|], b as [b|]; simpl; try done. intros _.
  split; [done|]. intros Ho. by rewrite Ho in Hb.
Qed.

Lemma no_contender_idle_tick t g gp p : no_contender g gp (idle_tick t p) ↔ no_contender g gp p.
Proof.
  destruct (idle_tick_counts t p g) as (Ha & Hb & _). unfold no_contender, background_open, interactive_count.
  rewrite Ha, Hb. split; intros [H1 H2]; (split; [|intros Ho; specialize (H2 Ho)]);
    eauto using idle_tick_waiting, idle_tick_waiting_inv.
Qed.

(** Dispatch in a quiet interval decides on the state of the interval's start. *)
Lemma quiet_next p g gp gr now t :
  wf p → settled now p → (now ≤ t)%N → quiet_until t now p →
  ac_groups (p_config p) !! g = Some gp → p_groups p !! g = Some gr →
  dispatch_outcome g gp t (idle_tick t p) gr (next g t p).
Proof.
  intros Hwf Hst Hle Hq Hgp Hg.
  destruct (next_spec p g gp t Hwf Hgp) as (p1 & gr1 & Ht & _ & _ & _ & Hg1 & Hout);
    [by rewrite (st_now _ _ Hst)|].
  rewrite (quiet_tick now t p Hwf Hst Hle Hq) in Ht. injection Ht as <-.
  simpl in Hg1. rewrite Hg in Hg1. by injection Hg1 as <-.
Qed.

(** If somebody waits, the group is open but for its pacing or cooldown
    instant, that instant is one the wake considers. *)
Lemma pacing_instant p g gp gr :
  g_unavailable gr = false → size (g_uncertain gr) + length (g_orphans gr) = 0 →
  active_count g p < gp_capacity gp → 0 < queued_count g p →
  N.max (g_next_start gr) (g_cooldown gr) ∈ group_instants gp g gr (p_requests p).
Proof.
  intros Hun Hz Hcap Hq. unfold group_instants.
  rewrite !elem_of_app. right. right.
  assert (∀ (f : RequestState → bool),
    length (filter (λ ir : RequestId * Request, f (rq_state ir.2) = true)
      (filter (λ ir : RequestId * Request, rq_group ir.2 = g) (btree_iter (p_requests p))))
    = count_map (λ _ r, in_group g r && f (rq_state r)) (p_requests p)) as Hlen.
  { intros f. rewrite <- length_filter_btree, list_filter_filter. f_equal.
    apply list_filter_iff. intros [id r]. unfold in_group. simpl.
    rewrite andb_true_iff, bool_decide_eq_true. tauto. }
  assert (g_orphans gr = []) as Ho by (apply length_zero_iff_nil; lia).
  assert (g_uncertain gr = ∅) as Hu by (apply map_size_empty_inv; lia).
  rewrite (Hlen is_queued), (Hlen is_active), Hun, Ho, Hu, !bool_decide_eq_true_2 by done. simpl.
  unfold queued_count, queued_in in Hq. unfold active_count, active_in in Hcap.
  destruct (Nat.ltb_spec 0 (count_map (λ _ r, in_group g r && is_queued (rq_state r)) (p_requests p))); [|lia].
  destruct (Nat.leb_spec (gp_capacity gp) (count_map (λ _ r, in_group g r && is_active (rq_state r)) (p_requests p))); [lia|].
  by left.
Qed.

(** The answer of a dispatch, read off the state it decides on. *)
Section answers.
Context (g : GroupId) (gp : GroupPolicy) (now : N) (p : AdmissionPolicy) (gr : Group).
Context (out : AdmissionPolicy * res AdmissionError (option RequestId)).
Context (Hout : dispatch_outcome g gp now p gr out).

Lemma answer_unavailable : g_unavailable gr = true → out.2 = Err Unavailable.
Proof. intros Hu. destruct Hout as [| | | ? ? G|? ? G|? ? ? ? ? G]; try destruct G; done || congruence. Qed.

Lemma answer_quarantined :
  g_unavailable gr = false → 0 < size (g_uncertain gr) + length (g_orphans gr) → out.2 = Err Quarantined.
Proof.
  intros Hu Hq. destruct Hout as [| | | ? ? G|? ? G|? ? ? ? ? G];
    try (destruct G as [? ? Ho ? ? ?]; rewrite Ho in Hq; simpl in Hq); done || congruence || lia.
Qed.

Lemma answer_closed :
  g_unavailable gr = false → size (g_uncertain gr) + length (g_orphans gr) = 0 →
  gp_capacity gp ≤ active_count g p ∨ (now < g_next_start gr)%N ∨ (now < g_cooldown gr)%N →
  out.2 = Ok None.
Proof.
  intros Hu Hz Hc. destruct Hout as [| | | ? ? G|? ? G|? ? ? ? ? G];
    try (destruct G; exfalso; lia); done || congruence || lia.
Qed.

Lemma answer_idle :
  g_unavailable gr = false → size (g_uncertain gr) + length (g_orphans gr) = 0 →
  no_contender g gp p → out.2 = Ok None.
Proof.
  intros Hu Hz Hn. destruct Hout as [| | |i b _ C S|i b _ C S|i b id r sc _ C S]; try (done || congruence || lia);
    rewrite (proj2 (no_contender_select _ _ _ _ _ _ C) Hn) in S; [by destruct S|done].
Qed.

Lemma answer_overflow :
  gate_open g gp now p gr → ¬ no_contender g gp p →
  (u64_max < now + gp_min_interval_ms gp)%N ∨ (u64_max < now + gp_attempt_timeout_ms gp)%N →
  out.2 = Err Unavailable.
Proof.
  intros [Ha Hc Ho Hcap Hp Hcd] Hn Hv.
  destruct Hout as [|? Hq|? ? Hcl|i b _ C S|i b _ C S|i b id r sc _ C S ? ? ? ?]; simpl; try done.
  - rewrite Ho in Hq. simpl in Hq. lia.
  - lia.
  - by destruct Hn; apply (no_contender_select _ _ _ _ _ gr C).
  - lia.
Qed.
End answers.

(** While nothing the group waits for happens, an answer that grants nothing
    stays the answer. *)
Lemma quiet_answer p g gp gr now t :
  wf p → settled now p → (now ≤ t)%N → quiet_until t now p →
  ac_groups (p_config p) !! g = Some gp → p_groups p !! g = Some gr →
  (∀ id, (next g now p).2 ≠ Ok (Some id)) → (next g t p).2 = (next g now p).2.
Proof.
  intros Hwf Hst Hle Hq Hgp Hg Hno.
  assert (quiet_until now now p) as Hq0 by (by intros ????????).
  pose proof (quiet_next p g gp gr now now Hwf Hst (N.le_refl _) Hq0 Hgp Hg) as O1.
  pose proof (quiet_next p g gp gr now t Hwf Hst Hle Hq Hgp Hg) as O2.
  destruct (idle_tick_counts now p g) as (Ca1 & _ & _). destruct (idle_tick_counts t p g) as (Ca2 & _ & _).
  destruct (next g now p) as [q1 a1]. remember (q1, a1) as out1 eqn:E1.
  destruct O1 as [Hu|Hu Hz|Hu Hz Hc|i b G C S|i b [? ? Ho ? ? ?] C S V|i b id r sc G C S]; injection E1 as <- <-; simpl.
  - by eapply answer_unavailable.
  - by eapply answer_quarantined.
  - rewrite Ca1 in Hc. destruct (decide (gp_capacity gp ≤ active_count g p)) as [Hcap|Hcap].
    { eapply answer_closed; [done..|]. left. by rewrite Ca2. }
    destruct (decide (queued_count g p = 0)) as [H0|H0].
    { eapply answer_idle; [done..|]. apply no_contender_idle_tick.
      split; [|intros _]; by apply queued_zero_none_waiting. }
    assert (t < N.max (g_next_start gr) (g_cooldown gr))%N as Hlt.
    { apply (Hq g gr gp); [done..| |lia]. apply pacing_instant; [done..|lia|lia]. }
    eapply answer_closed; [done..|]. right. lia.
  - eapply answer_idle; [exact O2| | |].
    + apply G.
    + destruct G as [? ? Ho ? ? ?]. rewrite Ho. simpl. lia.
    + apply no_contender_idle_tick, (no_contender_idle_tick now). by apply (no_contender_select _ _ _ _ _ gr C).
  - eapply answer_overflow; [exact O2| | |lia].
    + split; try done; [by rewrite Ca2, <- Ca1|lia..].
    + intros Hn%no_contender_idle_tick%(no_contender_idle_tick now).
      apply (no_contender_select _ _ _ _ _ gr C) in Hn. rewrite Hn in S. by destruct S.
  - by destruct (Hno id).
Qed.

Lemma next_wake_inv p now p1 w :
  wf p → next_wake now p = (p1, Ok w) →
  wf p1 ∧ settled now p1 ∧ p_config p1 = p_config p ∧
  w = foldl (group_wake p1 now) None (btree_iter (p_groups p1)).
Proof.
  intros Hwf Hw. destruct (N.lt_ge_cases now (p_now p)) as [Hreg|Hnow].
  { unfold next_wake in Hw. by rewrite (bind_err _ _ _ _ _ (tick_regression _ _ Hreg)) in Hw. }
  destruct (tick_spec p now Hwf Hnow) as (p0 & Ht & Hwf0 & He & Hst).
  unfold next_wake in Hw. rewrite (bind_ok _ _ _ _ _ Ht), !bind_gets in Hw.
  rewrite (next_wake_run p0 now Hwf0) in Hw. injection Hw as <- <-. split_and!; try done. apply He.
Qed.

(** The wake instant is sound: when a dispatch of a configured group grants
    nothing at [now], asking again at any time before the instant [next_wake]
    answered (or ever, when it answered none) gives the same answer. *)
Theorem next_wake_sound p now p1 w g t :
  reachable p → next_wake now p = (p1, Ok w) → is_Some (ac_groups (p_config p) !! g) →
  (now ≤ t)%N → (∀ w0, w = Some w0 → (t < w0)%N) →
  (∀ id, (next g now p1).2 ≠ Ok (Some id)) → (next g t p1).2 = (next g now p1).2.
Proof.
  intros Hwf%reachable_wf Hw [gp Hgp] Hle Hlt Hno.
  destruct (next_wake_inv p now p1 w Hwf Hw) as (Hwf1 & Hst & Hc & Hwv).
  rewrite <- Hc in Hgp. destruct (proj2 (wf_groups p1 Hwf1 g)) as [gr Hg]; [by eauto|].
  eapply quiet_answer; try done. by eapply wake_quiet.
Qed.

Lemma next_wake_sound_witness :
  (next "g" 14 (next_wake 6 demo_granted).1).2 = (next "g" 6 (next_wake 6 demo_granted).1).2.
Proof.
  refine (next_wake_sound demo_granted 6 _ (Some 15%N) "g" 14 reachable_demo_granted _ _ _ _ _).
  - by vm_compute.
  - exists demo_policy. by vm_compute.
  - lia.
  - intros w0 [= <-]. lia.
  - intros id H. by vm_compute in H.
Defined.

(** Restarts: what the ledger of an authority records, what [restore] rebuilds
    from it, and that the two agree on every group's accounting. *)

(** * What restore rebuilds *)

Lemma initial_group_fields gp gr :
  initial_group gp = Ok gr →
  g_orphans gr = [] ∧ g_cooldown gr = 0%N ∧ g_next_start gr = 0%N ∧ g_unavailable gr = false.
Proof. unfold initial_group. case_match; [|done..]. by intros [= <-]. Qed.

Lemma restore_group_fields now d gr gr' :
  restore_group now d gr = Ok gr' →
  g_orphans gr' = g_orphans gr ∧ g_cooldown gr' = (now + lg_cooldown_remaining_ms d)%N ∧
  g_next_start gr' = (now + lg_pacing_remaining_ms d)%N ∧ g_unavailable gr' = lg_unavailable d.
Proof.
  unfold restore_group. destruct (u64_checked_add now (lg_cooldown_remaining_ms d)) as [c|] eqn:Hc; [|done].
  destruct (u64_checked_add now (lg_pacing_remaining_ms d)) as [n|] eqn:Hn; [|done].
  apply u64_checked_add_Some in Hc as [-> _]. apply u64_checked_add_Some in Hn as [-> _]. by intros [= <-].
Qed.

(** The groups of a restored authority. *)
Lemma restore_fields config l now p g gr gp :
  config_typed config → restore config l now = Ok p →
  p_groups p !! g = Some gr → ac_groups config !! g = Some gp →
  g_orphans gr = restored_orphan now gp <$> attempts_of g (al_outstanding l) ∧
  ∀ d, al_groups l !! g = Some d →
    g_cooldown gr = (now + lg_cooldown_remaining_ms d)%N ∧
    g_next_start gr = (now + lg_pacing_remaining_ms d)%N ∧ g_unavailable gr = lg_unavailable d.
Proof.
  intros Ht Hres Hgr Hgp. unfold restore in Hres.
  destruct (AdmissionConfig_validate config) as [[]|e|] eqn:Hv;
    [|by unfold AdmissionPolicy_new in Hres; rewrite Hv in Hres..].
  destruct (new_spec (al_epoch l) config Hv Ht) as (p0 & Hp0 & Hwf & Hcfg & _ & Hinit). rewrite Hp0 in Hres.
  pose proof (restore_groups_spec now (btree_iter (al_groups l)) (p_groups p0) (NoDup_btree_keys _)) as Hg.
  destruct (restore_groups now _ _) as [gs| |]; [|done|done].
  assert (∀ g, is_Some (ac_groups config !! g) → is_Some (gs !! g)) as Hdom.
  { intros g0. rewrite <- Hcfg, <- (wf_groups p0 Hwf). intros [gr0 Hgr0].
    specialize (Hg g0). rewrite Hgr0 in Hg. destruct Hg as (gr' & ? & _). eauto. }
  pose proof (restore_outstanding_spec now config (al_outstanding l) gs Hdom) as Ho.
  destruct (restore_outstanding now config _ _) as [gs'| |]; [|done|done]. destruct Ho as [_ Ho].
  injection Hres as <-. simpl in Hgr. rewrite (Ho g), Hgp in Hgr.
  apply fmap_Some in Hgr as (gr1 & Hgr1 & ->). specialize (Hg g).
  destruct (p_groups p0 !! g) as [gr0|] eqn:Hgr0; [|destruct Hg; congruence].
  destruct Hg as (gr' & Hg' & Hout & Hin). assert (gr' = gr1) as -> by congruence.
  destruct (Hinit g gr0 Hgr0) as (gp0 & _ & Hi). apply initial_group_fields in Hi as (Hor & _).
  assert (g_orphans gr1 = []) as Hor1.
  { destruct (al_groups l !! g) as [d|] eqn:Hd.
    - destruct (restore_group_fields now d gr0 gr1) as (-> & _); [|done]. apply Hin. by apply elem_of_btree_iter.
    - rewrite Hout; [done|]. change (g ∉ btree_keys (al_groups l)). rewrite elem_of_btree_keys, Hd. by intros []. }
  split; [by simpl; rewrite Hor1|]. intros d Hd%elem_of_btree_iter.
  apply Hin, restore_group_fields in Hd as (_ & ? & ? & ?). done.
Qed.

(** * Restored attempts stay in the group they were recorded against *)

Definition homed (p : AdmissionPolicy) : Prop :=
  ∀ g gr o, p_groups p !! g = Some gr → o ∈ g_orphans gr → oa_group (or_attempt o) = g.

Lemma reachable_homed p : reachable p → homed p.
Proof.
  induction 1 as [epoch config p Ht Hnew|config l now p Ht Hres|o p p' r Hp IH Ho Hex]; intros g gr a Hg Ha.
  - destruct (AdmissionConfig_validate config) as [[]|e|] eqn:Hv;
      [|by unfold AdmissionPolicy_new in Hnew; rewrite Hv in Hnew..].
    destruct (new_spec epoch config Hv Ht) as (p0 & Hp0 & _ & _ & _ & Hinit).
    assert (p0 = p) as -> by congruence. destruct (Hinit g gr Hg) as (gp & _ & Hi).
    apply initial_group_fields in Hi as (Hor & _). rewrite Hor in Ha. by apply not_elem_of_nil in Ha.
  - pose proof (restore_spec config l now Ht) as Hs. rewrite Hres in Hs. destruct Hs as (Hwf & Hcfg & _).
    destruct (group_policy p g gr Hwf Hg) as [gp Hgp]. rewrite Hcfg in Hgp.
    destruct (restore_fields config l now p g gr gp Ht Hres Hg Hgp) as [Hor _]. rewrite Hor in Ha.
    apply list_elem_of_fmap in Ha as (x & -> & Hx). unfold attempts_of in Hx.
    by apply list_elem_of_filter in Hx as [Hx _].
  - pose proof (reachable_wf p Hp) as Hwf. destruct (exec_tightens o p Hwf Ho) as [Hc Hgs].
    pose proof (keeps_exec o p Hwf Ho) as [_ Hwf']. rewrite Hex in Hc, Hgs, Hwf'. simpl in Hc, Hgs, Hwf'.
    destruct (proj2 (wf_groups p Hwf g)) as [gr0 Hg0].
    { rewrite <- Hc, <- (wf_groups p' Hwf'). eauto. }
    destruct (Hgs g gr0 Hg0) as (gr' & Hg' & _ & _ & _ & Hsub). assert (gr' = gr) as -> by congruence.
    apply (IH g gr0 a Hg0). by eapply elem_of_submseteq, sublist_submseteq.
Qed.

(** * Restoring a ledger succeeds *)

Lemma restore_groups_total now l gs :
  NoDup l.*1 →
  (∀ g d, (g, d) ∈ l → is_Some (gs !! g) ∧
     (now + lg_cooldown_remaining_ms d ≤ u64_max)%N ∧ (now + lg_pacing_remaining_ms d ≤ u64_max)%N) →
  ∃ gs', restore_groups now l gs = Ok gs'.
Proof.
  revert gs. induction l as [|[g d] l IH]; intros gs Hnd Hl; [by eexists|].
  apply list.NoDup_cons in Hnd as [Hni Hnd]. destruct (Hl g d ltac:(by left)) as ([gr Hg] & Hc & Hp).
  cbn [restore_groups]. rewrite Hg. unfold restore_group.
  rewrite (proj2 (u64_checked_add_Some now _ _) (conj eq_refl Hc)).
  rewrite (proj2 (u64_checked_add_Some now _ _) (conj eq_refl Hp)).
  apply IH; [done|]. intros g' d' Hin. destruct (Hl g' d' ltac:(by right)) as (Hs & ? & ?).
  split; [|done]. rewrite lookup_insert. by case_decide; eauto.
Qed.

Lemma restore_outstanding_total now config l gs :
  (∀ g, is_Some (ac_groups config !! g) → is_Some (gs !! g)) →
  (∀ a, a ∈ l → is_Some (ac_groups config !! oa_group a)) →
  ∃ gs', restore_outstanding now config l gs = Ok gs'.
Proof.
  revert gs. induction l as [|a l IH]; intros gs Hdom Hl; [by eexists|].
  destruct (Hl a ltac:(by left)) as [gp Hgp]. destruct (Hdom (oa_group a)) as [gr Hgr]; [by eauto|].
  cbn [restore_outstanding]. rewrite Hgp, Hgr. apply IH; [|intros; apply Hl; by right].
  intros g Hg. rewrite lookup_insert. case_decide; [by eauto|by apply Hdom].
Qed.

Lemma restore_total config l now :
  config_typed config → AdmissionConfig_validate config = Ok tt →
  (∀ g d, al_groups l !! g = Some d → is_Some (ac_groups config !! g) ∧
     (now + lg_cooldown_remaining_ms d ≤ u64_max)%N ∧ (now + lg_pacing_remaining_ms d ≤ u64_max)%N) →
  (∀ a, a ∈ al_outstanding l → is_Some (ac_groups config !! oa_group a)) →
  ∃ p, restore config l now = Ok p.
Proof.
  intros Ht Hv Hgs Hout. unfold restore.
  destruct (new_spec (al_epoch l) config Hv Ht) as (p0 & -> & Hwf & Hcfg & _ & _).
  destruct (restore_groups_total now (btree_iter (al_groups l)) (p_groups p0)) as [gs Hr].
  { apply NoDup_btree_keys. }
  { intros g d Hd%elem_of_btree_iter. destruct (Hgs g d Hd) as (? & ? & ?).
    by rewrite (wf_groups p0 Hwf), Hcfg. }
  rewrite Hr. pose proof (restore_groups_spec now (btree_iter (al_groups l)) (p_groups p0) (NoDup_btree_keys _)) as Hg.
  rewrite Hr in Hg. destruct (restore_outstanding_total now config (al_outstanding l) gs) as [gs' ->]; [|done|by eexists].
  intros g. rewrite <- Hcfg, <- (wf_groups p0 Hwf). intros [gr0 Hgr0].
  specialize (Hg g). rewrite Hgr0 in Hg. destruct Hg as (gr' & ? & _). eauto.
Qed.

(** * What the ledger records *)

Lemma foldl_app_bind {A B} (f : A → list B) l acc :
  foldl (λ acc x, acc ++ f x) acc l = acc ++ (l ≫= f).
Proof.
  revert acc. induction l as [|x l IH]; intros acc; simpl; [by rewrite app_nil_r|].
  by rewrite IH, <- app_assoc.
Qed.

Lemma attempts_of_app g l1 l2 : attempts_of g (l1 ++ l2) = attempts_of g l1 ++ attempts_of g l2.
Proof. apply list.filter_app. Qed.

(** The rows recorded for the attempts in flight of a group. *)
Lemma attempts_of_requests p g now :
  wf p →
  length (attempts_of g (btree_iter (p_requests p) ≫= outstanding_rows now (p_groups p))) = active_count g p.
Proof.
  intros Hwf. unfold active_count. rewrite <- length_filter_btree.
  assert (∀ id r, (id, r) ∈ btree_iter (p_requests p) → is_Some (p_groups p !! rq_group r)) as Hgr.
  { intros id r Hin%elem_of_btree_iter. apply (wf_request p Hwf id r Hin). }
  induction (btree_iter (p_requests p)) as [|[id r] l IH]; [done|].
  cbn [mbind list_bind]. rewrite attempts_of_app, length_app, IH, filter_cons
    by (intros; eapply Hgr; by right).
  destruct (Hgr id r ltac:(by left)) as [gr Hg].
  assert (length (attempts_of g (outstanding_rows now (p_groups p) (id, r)))
          = Nat.b2n (active_in g id r)) as ->.
  { unfold outstanding_rows, active_in, attempts_of, in_group. simpl. rewrite Hg.
    destruct (rq_state r); simpl; [by rewrite andb_false_r| |by rewrite andb_false_r].
    rewrite filter_cons, andb_true_r. simpl. case_decide as Hd.
    - by rewrite bool_decide_eq_true_2.
    - by rewrite bool_decide_eq_false_2. }
  cbn [fst snd]. destruct (active_in g id r); [by rewrite decide_True|by rewrite decide_False].
Qed.

(** The rows recorded for the attempts a group inherited. *)
Lemma attempts_of_orphans p g gr now :
  homed p → p_groups p !! g = Some gr →
  length (attempts_of g (btree_values (p_groups p) ≫= λ gr, orphan_row now <$> g_orphans gr))
  = length (g_orphans gr).
Proof.
  intros Hh Hg. unfold btree_values. rewrite list_bind_fmap.
  assert (∀ g' gr', (g', gr') ∈ btree_iter (p_groups p) →
    attempts_of g (orphan_row now <$> g_orphans gr') = if decide (g' = g) then orphan_row now <$> g_orphans gr' else []) as Hone.
  { intros g' gr' Hin%elem_of_btree_iter. unfold attempts_of. specialize (Hh g' gr').
    induction (g_orphans gr') as [|o os IH]; [by case_decide|]. cbn [fmap list_fmap]. rewrite filter_cons.
    rewrite IH by (intros; apply Hh; [done|by right]). cbn [orphan_row oa_group].
    rewrite (Hh o Hin ltac:(by left)). by case_decide. }
  assert ((g, gr) ∈ btree_iter (p_groups p)) as Hin by (by apply elem_of_btree_iter).
  pose proof (NoDup_btree_keys (p_groups p)) as Hnd. unfold btree_keys in Hnd.
  induction (btree_iter (p_groups p)) as [|[g' gr'] l IH]; [by apply not_elem_of_nil in Hin|].
  cbn [mbind list_bind]. rewrite attempts_of_app, length_app. simpl.
  rewrite (Hone g' gr' ltac:(by left)). apply list.NoDup_cons in Hnd as [Hni Hnd].
  apply elem_of_cons in Hin as [[= <- <-]|Hin].
  - rewrite decide_True, length_fmap by done. rewrite <- (Nat.add_0_r (length (g_orphans gr))) at 2. f_equal.
    clear IH Hnd. induction l as [|[g2 gr2] l IH]; [done|]. cbn [mbind list_bind].
    rewrite attempts_of_app, length_app. simpl. rewrite (Hone g2 gr2 ltac:(right; by left)).
    apply not_elem_of_cons in Hni as [Hne Hni]. rewrite decide_False by (simpl in Hne; congruence). simpl.
    apply IH; [|done]. intros g3 gr3 [[= <- <-]|H3]%elem_of_cons; apply Hone; [by left|right; by right].
  - rewrite decide_False; [simpl; apply IH; [|done|done]|].
    + intros g3 gr3 H3. apply Hone. by right.
    + intros ->. apply Hni. apply list_elem_of_fmap. by exists (g, gr).
Qed.

Lemma ledger_inv p now p1 l :
  wf p → ledger now p = (p1, Ok l) →
  wf p1 ∧ evolves (elapsed_leases now p) p p1 ∧ l = ledger_at now p1.
Proof.
  intros Hwf Hl. destruct (N.lt_ge_cases now (p_now p)) as [Hreg|Hnow].
  { unfold ledger in Hl. by rewrite (bind_err _ _ _ _ _ (tick_regression _ _ Hreg)) in Hl. }
  destruct (tick_spec p now Hwf Hnow) as (p0 & Ht & Hwf0 & He & _).
  rewrite (ledger_run p p0 now Hwf0 Ht) in Hl. by injection Hl as <- <-.
Qed.

(** Every row of a ledger names a configured group. *)
Lemma ledger_rows_configured p now a :
  wf p → homed p → a ∈ al_outstanding (ledger_at now p) → is_Some (ac_groups (p_config p) !! oa_group a).
Proof.
  intros Hwf Hh. simpl. rewrite (foldl_app_bind (outstanding_rows now (p_groups p))).
  rewrite <- (wf_groups p Hwf). intros [Hin|Hin]%elem_of_app.
  - apply list_elem_of_bind in Hin as ([id r] & Hrow & Hr%elem_of_btree_iter).
    unfold outstanding_rows in Hrow. simpl in Hrow. destruct (wf_request p Hwf id r Hr) as [_ [gr Hg]].
    rewrite Hg in Hrow. destruct (rq_state r); try (by apply not_elem_of_nil in Hrow).
    apply list_elem_of_singleton in Hrow as ->. simpl. eauto.
  - apply list_elem_of_bind in Hin as (gr & Hrow & [g Hg]%elem_of_btree_values).
    apply list_elem_of_fmap in Hrow as (o & -> & Ho). simpl. rewrite (Hh g gr o Hg Ho). eauto.
Qed.

(** C7: a restart keeps the accounting: a ledger taken at [now] restores at any
    clock [now'] that can still represent its instants, in the same epoch; each
    group keeps what remained of its cooldown and pacing and whether it is
    available, and one quarantined slot stands for each attempt that was in
    flight or already inherited. *)
Theorem restart_keeps_accounting p now p1 l now' :
  reachable p → ledger now p = (p1, Ok l) →
  (∀ g gr, p_groups p1 !! g = Some gr →
     (now' + (g_cooldown gr - now) ≤ u64_max)%N ∧ (now' + (g_next_start gr - now) ≤ u64_max)%N) →
  ∃ p2, restore (p_config p) l now' = Ok p2 ∧ p_epoch p2 = p_epoch p ∧ p_now p2 = now' ∧
    ∀ g gr gp, p_groups p1 !! g = Some gr → ac_groups (p_config p) !! g = Some gp →
      ∃ gr2, p_groups p2 !! g = Some gr2 ∧
        g_cooldown gr2 = (now' + (g_cooldown gr - now))%N ∧
        g_next_start gr2 = (now' + (g_next_start gr - now))%N ∧
        g_unavailable gr2 = g_unavailable gr ∧
        g_orphans gr2 = restored_orphan now' gp <$> attempts_of g (al_outstanding l) ∧
        length (g_orphans gr2) = active_count g p1 + length (g_orphans gr).
Proof.
  intros Hp Hl Hfit. pose proof (reachable_wf p Hp) as Hwf.
  assert (homed p1) as Hh.
  { apply reachable_homed. eapply (reach_step (Ledger now) p p1); [done|done|].
    cbn [exec]. unfold reply_with, bind. by rewrite Hl. }
  destruct (ledger_inv p now p1 l Hwf Hl) as (Hwf1 & He & ->).
  pose proof (ev_config _ _ _ He) as Hcfg.
  assert (∀ g d, al_groups (ledger_at now p1) !! g = Some d → ∃ gr, p_groups p1 !! g = Some gr ∧ d = ledger_group now gr) as Hd.
  { intros g d. simpl. rewrite lookup_fmap. intros (gr & Hg & ->)%fmap_Some. eauto. }
  destruct (restore_total (p_config p) (ledger_at now p1) now') as [p2 Hres].
  { apply (wf_typed p Hwf). }
  { apply (wf_config p Hwf). }
  { intros g d (gr & Hg & ->)%Hd. split; [|by apply (Hfit g gr)]. rewrite <- Hcfg, <- (wf_groups p1 Hwf1). eauto. }
  { intros a Ha. rewrite <- Hcfg. by eapply ledger_rows_configured. }
  exists p2. pose proof (restore_spec (p_config p) (ledger_at now p1) now' (wf_typed p Hwf)) as Hs.
  rewrite Hres in Hs. destruct Hs as (Hwf2 & Hcfg2 & Hep & Hnow & _).
  split; [done|]. split; [rewrite Hep; apply He|]. split; [done|]. intros g gr gp Hg Hgp.
  destruct (proj2 (wf_groups p2 Hwf2 g)) as [gr2 Hg2]; [rewrite Hcfg2; by eauto|].
  destruct (restore_fields _ _ _ _ g gr2 gp (wf_typed p Hwf) Hres Hg2 Hgp) as [Hor Hf].
  destruct (Hf (ledger_group now gr)) as (Hc & Hn & Hu); [simpl; by rewrite lookup_fmap, Hg|].
  exists gr2. split_and!; try done. rewrite Hor, length_fmap. simpl.
  rewrite (foldl_app_bind (outstanding_rows now (p_groups p1))), app_nil_l, attempts_of_app, length_app.
  by rewrite attempts_of_requests, (attempts_of_orphans p1 g gr) by done.
Qed.

Lemma restart_keeps_accounting_witness :
  ∃ p2 gr2, restore demo_config (ledger_at 20 (tick 20 demo_granted).1) 1000 = Ok p2 ∧
            p_groups p2 !! "g" = Some gr2 ∧ length (g_orphans gr2) = 1.
Proof.
  assert (map_Forall (λ (g : GroupId) gr, g = "g" ∧ g_cooldown gr = 0%N ∧ g_next_start gr = 15%N ∧ length (g_orphans gr) = 0)
            (p_groups (tick 20 demo_granted).1)) as Hall.
  { apply (bool_decide_eq_true_1 _). by vm_compute. }
  assert (ledger 20 demo_granted =
    ((tick 20 demo_granted).1, Ok (ledger_at 20 (tick 20 demo_granted).1))) as Hl by (by vm_compute).
  assert (∃ gr, p_groups (tick 20 demo_granted).1 !! "g" = Some gr) as [gr Hg].
  { eexists. by vm_compute. }
  assert (active_count "g" (tick 20 demo_granted).1 = 1) as Ha by (by vm_compute).
  revert Hall Hl Hg Ha. generalize (tick 20 demo_granted).1. intros p1 Hall Hl Hg Ha.
  destruct (restart_keeps_accounting demo_granted 20 p1 (ledger_at 20 p1) 1000 reachable_demo_granted Hl)
    as (p2 & Hres & _ & _ & H).
  - intros g gr0 (_ & -> & -> & _)%Hall. unfold u64_max. split; lia.
  - destruct (H "g" gr demo_policy Hg ltac:(by vm_compute)) as (gr2 & Hg2 & _ & _ & _ & _ & Hlen).
    exists p2, gr2. split; [exact Hres|]. split; [exact Hg2|].
    apply Hall in Hg as (_ & _ & _ & Ho). rewrite Hlen, Ho, Ha. reflexivity.
Defined.
