(* ===== verification/AdmissionClient.v ===== *)
(** What a client of the admission authority may rely on: an attempt identity is
    admitted once, a completion is charged once, the fallback window grows as
    documented, an idle broker stops only after a whole idle period, and a
    waiting verdict names the longest visible wait
    (src/quecto-agentic-harness/src/domain/admission/services/
    inference_admission_view.rs). *)

From S2P Require Import Prelude AdmissionTypes AdmissionPolicy AdmissionInv AdmissionTick AdmissionDispatch AdmissionOps AdmissionCalm AdmissionProps.

(** * An attempt identity is admitted once *)

Definition identities (p : AdmissionPolicy) : N * gmap ScopeId Scope := (p_epoch p, p_scopes p).

Lemma frames_update_request id f : frames identities (update_request id f).
Proof. unfold update_request. solve_frames. Qed.
Lemma frames_update_group g f : frames identities (update_group g f).
Proof. unfold update_group. solve_frames. Qed.
#[export] Hint Resolve frames_update_request frames_update_group : frames.

Lemma frames_terminal id o fb : frames identities (terminal id o fb).
Proof. unfold terminal. solve_frames. Qed.
Lemma frames_hold_of g : frames identities (hold_of g).
Proof. unfold hold_of. solve_frames. Qed.
Lemma frames_lease_elapsed now e : frames identities (lease_elapsed now e).
Proof. unfold lease_elapsed. solve_frames. Qed.
#[export] Hint Resolve frames_terminal frames_hold_of frames_lease_elapsed : frames.

Lemma frames_clear_elapsed_leases now : frames identities (clear_elapsed_leases now).
Proof. unfold clear_elapsed_leases. solve_frames. Qed.
#[export] Hint Resolve frames_clear_elapsed_leases : frames.

Lemma frames_tick now : frames identities (tick now).
Proof. unfold tick. solve_frames. Qed.
#[export] Hint Resolve frames_tick : frames.

Lemma frames_snapshot g now : frames identities (snapshot g now).
Proof. unfold snapshot. solve_frames. Qed.
Lemma frames_candidate g class : frames identities (candidate g class).
Proof. unfold candidate. solve_frames. Qed.
Lemma frames_background_in_flight g : frames identities (background_in_flight g).
Proof. unfold background_in_flight. solve_frames. Qed.
Lemma frames_outstanding_of now gs ir : frames identities (outstanding_of now gs ir).
Proof. unfold outstanding_of. solve_frames. Qed.
Lemma frames_abandon_one now rep x : frames identities (abandon_one now rep x).
Proof. unfold abandon_one. solve_frames. Qed.
#[export] Hint Resolve frames_snapshot frames_candidate frames_background_in_flight frames_outstanding_of
  frames_abandon_one : frames.

Lemma frames_next g now : frames identities (next g now).
Proof. unfold next. solve_frames. Qed.

(** The operations that register, retire or advance a scope, or start an epoch. *)
Definition reidentifies (o : op) : bool :=
  match o with
  | RegisterRoot _ | RegisterChild _ | Retire _ | Enqueue _ _ _ _ | Reset _ => true
  | _ => false
  end.

Lemma frames_exec o : reidentifies o = false → frames identities (exec o).
Proof.
  intros Ho. destruct o; try done; cbn [exec]; unfold reply_with; apply frames_bind; try (intros; apply frames_ret);
    unfold status, cancel, report_feedback, complete, held, abandon, withdraw, next_wake, ledger;
    solve [solve_frames|apply frames_next].
Qed.

(** Scopes stay registered and their high-water marks only rise. *)
Definition advances (x y : N * gmap ScopeId Scope) : Prop :=
  y.1 = x.1 ∧ ∀ sid sc, x.2 !! sid = Some sc →
    ∃ sc', y.2 !! sid = Some sc' ∧ (sc_high_water sc ≤ sc_high_water sc')%N.

#[export] Instance advances_preorder : PreOrder advances.
Proof.
  split.
  - intros x. split; [done|]. intros sid sc Hs. exists sc. split; [done|lia].
  - intros x y z [E1 H1] [E2 H2]. split; [congruence|]. intros sid sc Hs.
    destruct (H1 sid sc Hs) as (sc' & Hs' & ?). destruct (H2 sid sc' Hs') as (sc'' & ? & ?).
    exists sc''. split; [done|lia].
Qed.

Lemma advances_bind {A B} (m : PM A) (k : A → PM B) p :
  frames identities m →
  (∀ a p', m p = (p', Ok a) → advances (identities p') (identities (k a p').1)) →
  advances (identities p) (identities (bind m k p).1).
Proof.
  intros Hm Hk. specialize (Hm p). unfold bind. destruct (m p) as [p' [a|e|]] eqn:Heq; simpl in *.
  - rewrite <- Hm. by apply Hk.
  - by rewrite Hm.
  - by rewrite Hm.
Qed.

Lemma advances_update_scope p sid sc f :
  p_scopes p !! sid = Some sc → (sc_high_water sc ≤ sc_high_water (f sc))%N →
  advances (identities p) (identities (update_scope sid f p).1).
Proof.
  intros Hs Hle. erewrite update_scope_run by done. split; [done|]. intros sid' sc' Hs'. simpl in *.
  rewrite lookup_insert. case_decide; subst; [|exists sc'; split; [done|lia]].
  eexists. split; [done|]. by assert (sc' = sc) as -> by congruence.
Qed.

Lemma register_advances p root class : wf p → advances (identities p) (identities (register root class p).1).
Proof.
  intros Hwf. unfold register. rewrite !bind_gets. case_match; [reflexivity|]. rewrite bind_gets.
  destruct (u64_checked_add (p_next_serial p) 1) as [serial|] eqn:Hc; [|reflexivity].
  apply u64_checked_add_Some in Hc as [-> _]. split; [done|]. simpl. intros sid sc Hs.
  exists sc. split; [|lia]. rewrite lookup_insert_ne; [done|]. intros <-.
  apply (wf_scope p Hwf) in Hs as [_ Hser]. simpl in Hser. lia.
Qed.

Lemma retire_advances p sid : advances (identities p) (identities (retire sid p).1).
Proof.
  unfold retire. apply advances_bind; [apply frames_reads|]. intros sc p0 [= <- Hsc].
  apply scope_Ok in Hsc as (_ & Hsc & _).
  apply advances_bind; [apply frames_gets|]. intros rs p1 [= <- _]. case_match; [reflexivity|].
  apply advances_bind; [solve_frames|]. intros u p2 Heq.
  assert (p_scopes p2 = p_scopes p) as Hss.
  { match type of Heq with ?m p = _ => assert (frames identities m) as Hf by solve_frames end.
    specialize (Hf p). rewrite Heq in Hf. by injection Hf. }
  rewrite <- Hss in Hsc. eapply advances_update_scope; [done|]. simpl. lia.
Qed.

Lemma enqueue_advances p sid sequence alias now :
  advances (identities p) (identities (enqueue sid sequence alias now p).1).
Proof.
  unfold enqueue. apply advances_bind; [solve_frames|]. intros sc0 p0 _.
  apply advances_bind; [solve_frames|]. intros u p1 _.
  apply advances_bind; [solve_frames|]. intros config p2 [= <- <-].
  apply advances_bind; [solve_frames|]. intros g p3 _.
  apply advances_bind; [solve_frames|]. intros rs p4 _.
  case_match; [case_match; reflexivity|].
  apply advances_bind; [solve_frames|]. intros sc p5 [= -> Hsc].
  destruct (N.leb_spec sequence (sc_high_water sc)) as [|Hlt]; [reflexivity|].
  apply advances_bind; [solve_frames|]. intros gs p6 [= <- _].
  apply advances_bind; [solve_frames|]. intros gr p7 Heq7.
  assert (p7 = p5) as -> by (destruct (gs !! g); [by injection Heq7|done]).
  case_match; [reflexivity|]. apply advances_bind; [solve_frames|]. intros gp p8 Heq8.
  assert (p8 = p5) as -> by (destruct (ac_groups (p_config p1) !! g); [by injection Heq8|done]).
  case_match; [reflexivity|]. case_match.
  - rewrite bind_modify. apply scope_Ok in Hsc as (_ & Hsc & _).
    set (q := set_requests _ p5). change (identities p5) with (identities q).
    match goal with |- advances _ (identities (bind ?m ?k q).1) =>
      assert (∀ q', identities (bind m k q').1 = identities (m q').1) as -> end.
    { intros q'. unfold bind. by destruct (update_scope _ _ q') as [? []]. }
    eapply advances_update_scope; [exact Hsc|]. simpl. lia.
  - apply advances_bind; [solve_frames|]. intros. reflexivity.
Qed.

(** The attempt identity [id] can no longer be admitted. *)
Definition fenced (id : RequestId) (p : AdmissionPolicy) : Prop :=
  (sid_epoch (rid_scope id) < p_epoch p)%N ∨
  ∃ sc, p_scopes p !! rid_scope id = Some sc ∧ (rid_sequence id ≤ sc_high_water sc)%N.

Lemma fenced_advances id p p' : advances (identities p) (identities p') → fenced id p → fenced id p'.
Proof.
  intros [He Hs] [Hlt|(sc & Hsc & Hle)]; simpl in *.
  - left. by rewrite He.
  - right. destruct (Hs _ sc Hsc) as (sc' & Hsc' & ?). exists sc'. split; [done|]. lia.
Qed.

Lemma fenced_exec id o p : wf p → fenced id p → fenced id (exec o p).1.
Proof.
  intros Hwf. destruct (reidentifies o) eqn:Ho.
  - destruct o; try done; cbn [exec]; rewrite reply_with_state.
    + apply fenced_advances, register_advances, Hwf.
    + apply fenced_advances. apply advances_bind; [solve_frames|]. intros sc p' [= <- _]. by apply register_advances.
    + apply fenced_advances, retire_advances.
    + apply fenced_advances, enqueue_advances.
    + intros Hf. unfold reset. unfold bind at 1. pose proof (frames_tick now p) as Hid.
      destruct (tick now p) as [p1 [u|e|]]; simpl in Hid.
      2,3: apply (fenced_advances id p p1); [by rewrite Hid|done].
      injection Hid as He Hs. rewrite bind_gets.
      destruct (u64_checked_add (p_epoch p1) 1) as [e|] eqn:Hc; simpl.
      2:{ apply (fenced_advances id p p1); [unfold identities; by rewrite He, Hs|done]. }
      apply u64_checked_add_Some in Hc as [-> _]. left. simpl. rewrite He.
      destruct Hf as [Hlt|(sc & Hsc & _)]; [lia|]. apply (wf_scope p Hwf) in Hsc as [-> _]. lia.
  - apply fenced_advances. by rewrite (frames_exec o Ho p).
Qed.

Lemma fenced_steps id p p' : rtc step p p' → wf p → fenced id p → fenced id p'.
Proof.
  induction 1 as [|p1 p2 p3 (o & Ho & ->) _ IH]; [done|]. intros Hwf Hf. apply IH.
  - by apply (keeps_exec o p1 Hwf Ho).
  - by apply fenced_exec.
Qed.

(** What a successful [enqueue] did: it reported a retained request, or it
    admitted a fresh sequence number. *)
Lemma enqueue_inv p sid sequence alias now p' st :
  wf p → enqueue sid sequence alias now p = (p', Ok st) →
  ∃ p1, tick now p = (p1, Ok tt) ∧ wf p1 ∧
    ((∃ r, p_requests p1 !! mkRequestId sid sequence = Some r ∧ p' = p1 ∧ st = rq_state r) ∨
     (p_requests p1 !! mkRequestId sid sequence = None ∧ ¬ fenced (mkRequestId sid sequence) p1 ∧
      fenced (mkRequestId sid sequence) p')).
Proof.
  intros Hwf H. unfold enqueue in H.
  apply bind_Ok_inv in H as (sc0 & p0 & [-> Hsc0]%reads_Ok_inv & H).
  apply bind_Ok_inv in H as ([] & p1 & Ht & H). exists p1. split; [done|].
  assert (wf p1) as Hwf1.
  { destruct (N.lt_ge_cases now (p_now p)) as [Hlt|Hle]; [by rewrite (tick_regression _ _ Hlt) in Ht|].
    destruct (tick_spec p now Hwf Hle) as (p1' & Ht' & Hwf' & _). congruence. }
  split; [done|].
  rewrite bind_gets in H. apply bind_Ok_inv in H as (g & p2 & [-> Hg]%ok_or_Ok_inv & H). rewrite bind_gets in H.
  destruct (p_requests p1 !! mkRequestId sid sequence) as [r|] eqn:Hr.
  { left. case_bool_decide; [|done]. injection H as <- <-. eauto. }
  right. split; [done|].
  apply bind_Ok_inv in H as (sc & p3 & [-> Hsc]%reads_Ok_inv & H). apply scope_Ok in Hsc as (He & Hsc & _).
  destruct (N.leb_spec sequence (sc_high_water sc)) as [|Hlt]; [done|].
  split.
  { intros [Hep|(sc' & Hsc' & Hle)]; simpl in *; [lia|]. assert (sc' = sc) as -> by congruence. lia. }
  rewrite bind_gets in H. apply bind_Ok_inv in H as (gr & p4 & [-> Hgr]%expect_Ok_inv & H).
  case_match; [done|]. apply bind_Ok_inv in H as (gp & p5 & [-> Hgp]%expect_Ok_inv & H).
  case_match; [done|]. case_match; [|by apply bind_Ok_inv in H as (? & ? & _ & H)].
  rewrite bind_modify in H. erewrite bind_ok in H by (by apply (update_scope_run _ sid sc)).
  injection H as <- <-. right. simpl. rewrite lookup_insert_eq. eexists. split; [done|]. simpl. lia.
Qed.

(** C8: an attempt identity is admitted at most once: once an [enqueue] of a
    scope's sequence number has succeeded, any later [enqueue] of it that
    succeeds only reports the retained request, after the clock tick and
    without changing anything else, whatever operations happen in between. *)
Theorem admitted_once p sid sequence alias now p' st p2 alias2 now2 p3 st2 :
  reachable p → enqueue sid sequence alias now p = (p', Ok st) → rtc step p' p2 →
  enqueue sid sequence alias2 now2 p2 = (p3, Ok st2) →
  tick now2 p2 = (p3, Ok tt) ∧
  ∃ r, p_requests p3 !! mkRequestId sid sequence = Some r ∧ st2 = rq_state r.
Proof.
  intros Hwf%reachable_wf H1 Hst H2. destruct (enqueue_inv _ _ _ _ _ _ _ Hwf H1) as (p1 & Ht1 & Hwf1 & Hcase).
  assert (wf p') as Hwf' by (pose proof (keeps_enqueue p sid sequence alias now Hwf) as [_ Hw]; by rewrite H1 in Hw).
  assert (fenced (mkRequestId sid sequence) p') as Hf.
  { destruct Hcase as [(r & Hr & -> & _)|(_ & _ & Hf)]; [|done]. right.
    by destruct (wf_request p1 Hwf1 _ r Hr) as [(sc & ? & ?) _]; eauto. }
  pose proof (steps_wf _ _ Hst Hwf') as Hwf2. pose proof (fenced_steps _ _ _ Hst Hwf' Hf) as Hf2.
  destruct (enqueue_inv _ _ _ _ _ _ _ Hwf2 H2) as (q1 & Ht2 & _ & [(r & Hr & -> & ->)|(_ & Hn & _)]); [by eauto|].
  destruct Hn. apply (fenced_advances _ p2 q1); [|done].
  pose proof (frames_tick now2 p2) as Hid. rewrite Ht2 in Hid. simpl in Hid. by rewrite Hid.
Qed.

Lemma admitted_once_witness :
  tick 7 (enqueue (mkScopeId 1 1) 2 "alias" 6 demo_granted).1
  = ((enqueue (mkScopeId 1 1) 2 "alias" 7 (enqueue (mkScopeId 1 1) 2 "alias" 6 demo_granted).1).1, Ok tt).
Proof.
  refine (proj1 (admitted_once demo_granted (mkScopeId 1 1) 2 "alias" 6 _ (Queued 1006) _ "alias" 7 _ (Queued 1006)
                   reachable_demo_granted _ (rtc_refl _ _) _)); by vm_compute.
Defined.

(** * A completion is charged once *)

Lemma scoped_inv {A} p sid now (k : PM A) p' a :
  wf p → (_ <- reads (scope sid) ;; tick now ;; k) p = (p', Ok a) →
  ∃ sc p1, scope sid p = Ok sc ∧ tick now p = (p1, Ok tt) ∧ wf p1 ∧
    evolves (elapsed_leases now p) p p1 ∧ k p1 = (p', Ok a).
Proof.
  intros Hwf H. apply bind_Ok_inv in H as (sc & p0 & [-> Hsc]%reads_Ok_inv & H).
  apply bind_Ok_inv in H as ([] & p1 & Ht & H).
  destruct (N.lt_ge_cases now (p_now p)) as [Hlt|Hle]; [by rewrite (tick_regression _ _ Hlt) in Ht|].
  destruct (tick_spec p now Hwf Hle) as (p1' & Ht' & Hwf' & He & _).
  rewrite Ht in Ht'. injection Ht' as <-. eauto 8.
Qed.

(** A successful completion leaves a terminal request, or none. *)
Lemma complete_terminal p sid sequence fb now p' st r :
  wf p → complete sid sequence fb now p = (p', Ok st) →
  p_requests p' !! mkRequestId sid sequence = Some r →
  is_terminal (rq_state r) = true ∧ (rq_lease_cleared r = true ∨ rq_feedback r = Some fb).
Proof.
  intros Hwf H Hr. apply scoped_inv in H as (sc & p1 & Hsc & _ & Hwf1 & He & H); [|done].
  apply bind_Ok_inv in H as (r0 & p2 & [-> Hreq]%reads_Ok_inv & H).
  unfold request in Hreq. rewrite (scope_evolves _ _ _ _ He), Hsc in Hreq.
  destruct (p_requests p1 !! mkRequestId sid sequence) as [r1|] eqn:Hr1; [|done]. injection Hreq as ->.
  destruct (rq_state r0) as [d|s d c|o] eqn:Hs; [done| |].
  - rewrite bind_gets in H. apply bind_Ok_inv in H as (gr & p3 & [-> Hgr]%expect_Ok_inv & H).
    rewrite bind_gets in H. apply bind_Ok_inv in H as (g' & p4 & [-> Hg']%expect_Ok_inv & H).
    rewrite bind_modify in H. apply bind_Ok_inv in H as ([] & p5 & Hterm & H). injection H as <- <-.
    destruct (wf_request p1 Hwf1 _ _ Hr1) as [_ [gr1 Hgr1]].
    destruct (group_policy p1 _ gr1 Hwf1 Hgr1) as [gp Hgp].
    pose proof (wf_group_ok p1 Hwf1 _ _ Hgr1) as [Hf Hstr].
    destruct (complete_group_spec (Some gp) now fb (bool_decide (is_Some (rq_last_report r0))) gr1)
      as (g2 & Hcg & Hu & _ & Hf' & Hi & Hc & _); [by eauto|done|].
    assert (gr1 = gr) as -> by congruence. rewrite Hgp, Hcg in Hg'. injection Hg' as <-.
    assert (wf (set_groups (<[rq_group r0 := g2]> (p_groups p1)) p1)) as Hwf2.
    { eapply wf_set_group; [done|done|by rewrite Hu|]. split; [done|]. unfold streaks_ok in *. by rewrite Hi, Hc. }
    destruct (terminal_spec _ (mkRequestId sid sequence) r0 Finished (Some fb) Hwf2 Hr1)
      as (p6 & Heq & _ & Hpost); [by rewrite Hs|].
    rewrite Heq in Hterm. injection Hterm as <-. rewrite (tp_self _ _ _ _ Hpost) in Hr. injection Hr as <-.
    split; [done|]. by right.
  - destruct (rq_lease_cleared r0) eqn:Hl.
    + injection H as <- <-. assert (r0 = r) as -> by congruence. rewrite Hs. auto.
    + case_bool_decide; [|done]. injection H as <- <-. assert (r0 = r) as -> by congruence. rewrite Hs. auto.
Qed.

Lemma complete_scope p sid sequence fb now p' st :
  wf p → complete sid sequence fb now p = (p', Ok st) → ∃ sc, scope sid p' = Ok sc.
Proof.
  intros Hwf H. pose proof (scoped_inv _ _ _ _ _ _ Hwf H) as (sc & _ & Hsc & _). exists sc. rewrite <- Hsc.
  pose proof (frames_exec (Complete sid sequence fb now) eq_refl p) as Hid. cbn [exec] in Hid.
  rewrite reply_with_state, H in Hid. injection Hid as He Hs. unfold scope. by rewrite He, Hs.
Qed.

(** A completion is charged once: after a completion succeeded, completing
    the attempt again ends in a state that differs by the clock tick alone (no
    cooldown, fallback window or availability moves), and repeating the same
    feedback is never answered with a conflict. *)
Theorem completed_once p sid sequence fb now p' st fb' now' :
  reachable p → complete sid sequence fb now p = (p', Ok st) → (p_now p' ≤ now')%N →
  (complete sid sequence fb' now' p').1 = (tick now' p').1 ∧
  (∀ g gr, p_groups p' !! g = Some gr → ∃ gr', p_groups (tick now' p').1 !! g = Some gr' ∧ same_schedule gr gr') ∧
  (fb' = fb → (complete sid sequence fb' now' p').2 ≠ Err Conflict).
Proof.
  intros Hwf%reachable_wf H Hle.
  assert (wf p') as Hwf' by (pose proof (keeps_complete p sid sequence fb now Hwf) as [_ Hw]; by rewrite H in Hw).
  destruct (complete_scope _ _ _ _ _ _ _ Hwf H) as [sc Hsc].
  destruct (tick_spec p' now' Hwf' Hle) as (p1 & Ht & Hwf1 & He & _). rewrite Ht. simpl.
  unfold complete. rewrite (bind_reads _ sc), (bind_ok _ _ _ _ _ Ht) by done.
  assert (scope sid p1 = Ok sc) as Hsc1 by (by rewrite (scope_evolves _ _ _ _ He)).
  split; [|split].
  2:{ intros g gr Hg. pose proof (ev_groups _ _ _ He g) as Hgs. rewrite Hg in Hgs.
      destruct (p_groups p1 !! g) as [gr'|]; [|done]. exists gr'. split; [done|apply Hgs]. }
  all: unfold bind at 1, reads, request; rewrite Hsc1;
    destruct (p_requests p1 !! mkRequestId sid sequence) as [r1|] eqn:Hr1;
    [|try (by intros _; simpl; case_match); done].
  all: destruct (ev_requests _ _ _ He _ r1 Hr1) as (r & Hr & _ & _ & Hfrozen & _);
    destruct (complete_terminal _ _ _ _ _ _ _ _ Hwf H Hr) as [Hterm Hfb];
    rewrite (Hfrozen Hterm) in *; destruct (rq_state r) eqn:Hs; try done.
  - by repeat case_match.
  - intros ->. destruct (rq_lease_cleared r); [done|]. destruct Hfb as [|Hfb]; [done|].
    rewrite Hfb, bool_decide_eq_true_2 by done. done.
Qed.

Lemma completed_once_witness :
  (complete (mkScopeId 1 1) 1 Success 30 (complete (mkScopeId 1 1) 1 Success 20 demo_granted).1).2 ≠ Err Conflict.
Proof.
  refine (proj2 (proj2 (completed_once demo_granted (mkScopeId 1 1) 1 Success 20 _ (Terminal Finished) Success 30
            reachable_demo_granted _ _)) eq_refl); by vm_compute.
Defined.

(** * The fallback window *)

(** Consecutive throttles, each with its injected sample. *)
Fixpoint throttles (f : FallbackCooldown) (jitters : list N) : option (FallbackCooldown * list N) :=
  match jitters with
  | [] => Some (f, [])
  | j :: js =>
      match throttle f j with
      | None => None
      | Some (f1, d) =>
          match throttles f1 js with
          | None => None
          | Some (f2, ds) => Some (f2, d :: ds)
          end
      end
  end.

Lemma throttles_window f jitters k base maximum :
  fallback_ok f → Forall u64_ok jitters → fc_base f = base → fc_maximum f = maximum →
  fc_next_upper f = N.min maximum (base * 2 ^ k) →
  ∃ f' ds, throttles f jitters = Some (f', ds) ∧ length ds = length jitters ∧
    fc_base f' = base ∧ fc_maximum f' = maximum ∧
    ∀ n d, ds !! n = Some d → (base ≤ d ≤ N.min maximum (base * 2 ^ (k + N.of_nat n)))%N.
Proof.
  revert f k. induction jitters as [|j js IH]; intros f k Hok Hjs Hb Hm Hup.
  { exists f, []. split_and!; try done. }
  inversion_clear Hjs as [|? ? Hj Hjs'].
  destruct (throttle_spec f j Hok Hj) as (f1 & d & Hth & Hok1 & Hd & Hb1 & Hm1 & Hup1).
  destruct (IH f1 (k + 1)%N Hok1 Hjs') as (f2 & ds & Hths & Hlen & ? & ? & Hds); [congruence|congruence| |].
  { rewrite Hup1, Hup, Hm, N.pow_add_r. change (2 ^ 1)%N with 2%N. lia. }
  exists f2, (d :: ds). cbn [throttles]. rewrite Hth, Hths. split; [done|].
  split; [simpl; congruence|]. split; [done|]. split; [done|].
  intros [|n] d' Hn; simpl in Hn.
  - injection Hn as <-. rewrite N.add_0_r, <- Hup, <- Hb. done.
  - specialize (Hds n d' Hn). by replace (k + N.of_nat (Datatypes.S n))%N with (k + 1 + N.of_nat n)%N by lia.
Qed.

(** The fallback window: from a fresh or reset window, the [n]-th
    consecutive throttle (from 0) delays at least [base] and at most
    [min maximum (base * 2^n)] for any injected sample, without overflow; a
    success resets the window to the fresh one. *)
Theorem fallback_window base maximum f jitters :
  FallbackCooldown_new base maximum = Ok f → u64_ok maximum → Forall u64_ok jitters →
  ∃ f' ds, throttles f jitters = Some (f', ds) ∧ length ds = length jitters ∧
    fallback_success f' = f ∧
    ∀ n d, ds !! n = Some d → (base ≤ d ≤ N.min maximum (base * 2 ^ N.of_nat n))%N.
Proof.
  unfold FallbackCooldown_new. destruct ((base =? 0)%N || (maximum <? base)%N) eqn:Hc; [done|].
  split_bools. intros [= <-] Hm Hjs.
  destruct (throttles_window (mkFallback base maximum base) jitters 0 base maximum)
    as (f' & ds & Hths & Hlen & Hb & Hmax & Hds); try done.
  { unfold fallback_ok, u64_ok in *. simpl. lia. }
  { simpl. lia. }
  exists f', ds. split_and!; try done. unfold fallback_success. by rewrite Hb, Hmax.
Qed.

Lemma fallback_window_witness :
  ∃ f' ds, throttles (mkFallback 100 1000 100) [0%N; u64_max; u64_max] = Some (f', ds) ∧ length ds = 3.
Proof.
  destruct (fallback_window 100 1000 (mkFallback 100 1000 100) [0%N; u64_max; u64_max] eq_refl)
    as (f' & ds & H & Hl & _).
  - by vm_compute.
  - repeat constructor; by vm_compute.
  - exists f', ds. by split.
Defined.

(** * The idle watch *)

Fixpoint observe_all (w : IdleWatch) (obs : list (bool * N)) : option IdleWatch :=
  match obs with
  | [] => Some w
  | (holds, now) :: obs' =>
      match IdleWatch_observe w holds now with
      | None => None
      | Some (w', _) => observe_all w' obs'
      end
  end.

(** [w] remembers the start of the idle spell that ends the observations. *)
Definition idle_spell (obs : list (bool * N)) (since : N) : Prop :=
  ∃ before spell, obs = before ++ (false, since) :: spell ∧ Forall (λ o, o.1 = false) spell.

Definition watches (period : N) (obs : list (bool * N)) (w : IdleWatch) : Prop :=
  iw_period_ms w = period ∧ ∀ s, iw_idle_since w = Some s → u64_ok s ∧ idle_spell obs s.

Lemma observe_watches period obs w holds now :
  (0 < period)%N → watches period obs w → u64_ok now →
  ∃ w' v, IdleWatch_observe w holds now = Some (w', v) ∧ watches period (obs ++ [(holds, now)]) w' ∧
    (v = Stop → holds = false ∧ ∃ since, idle_spell (obs ++ [(holds, now)]) since ∧
       (since + period ≤ now ∨ now = u64_max)%N).
Proof.
  intros Hp [Hw Hs] Hnow. unfold IdleWatch_observe. destruct holds.
  { eexists _, _. split; [done|]. split; [|done]. split; [done|]. done. }
  set (since := default now (iw_idle_since w)).
  assert (u64_ok since ∧ idle_spell (obs ++ [(false, now)]) since) as [Hsok Hspell].
  { unfold since. destruct (iw_idle_since w) as [s|]; simpl.
    - destruct (Hs s eq_refl) as (Hok & b & sp & -> & Hall). split; [done|]. exists b, (sp ++ [(false, now)]).
      split; [by rewrite <- app_assoc|]. apply Forall_app. split; [done|by constructor].
    - split; [done|]. exists obs, []. split; [done|constructor]. }
  assert (((since <? u64_saturating_add since (iw_period_ms w))%N || (since =? u64_max)%N) = true) as ->.
  { unfold u64_saturating_add, u64_ok in *. apply orb_true_iff. rewrite N.ltb_lt, N.eqb_eq. lia. }
  assert (watches period (obs ++ [(false, now)]) (mkIdleWatch (iw_period_ms w) (Some since))) as Hw'.
  { split; [done|]. by intros s [= <-]. }
  destruct (N.leb_spec (u64_saturating_add since (iw_period_ms w)) now) as [Hd|Hd].
  - eexists _, _. split; [done|]. split; [done|]. intros _. split; [done|]. exists since. split; [done|].
    unfold u64_saturating_add, u64_ok in *. lia.
  - eexists _, _. by split_and!.
Qed.

Lemma observe_all_watches period obs0 obs w :
  (0 < period)%N → watches period obs0 w → Forall (λ o, u64_ok o.2) obs →
  ∃ w', observe_all w obs = Some w' ∧ watches period (obs0 ++ obs) w'.
Proof.
  intros Hp. revert obs0 w. induction obs as [|[h now] obs IH]; intros obs0 w Hw Hall.
  { exists w. by rewrite app_nil_r. }
  inversion_clear Hall as [|? ? Hnow Hall'].
  destruct (observe_watches period obs0 w h now Hp Hw Hnow) as (w1 & v & Heq & Hw1 & _).
  cbn [observe_all]. rewrite Heq. destruct (IH _ w1 Hw1 Hall') as (w2 & Heq2 & Hw2).
  exists w2. split; [done|]. by rewrite <- app_assoc in Hw2.
Qed.

(** An on-demand broker stops itself only for an observation of holding
    nothing that ends an unbroken spell of such observations lasting its whole
    idle period (or at the end of the clock); observing never panics. *)
Theorem stops_only_when_idle period w0 obs holds now :
  IdleWatch_new period = Some w0 → Forall (λ o, u64_ok o.2) obs → u64_ok now →
  ∃ w w' v, observe_all w0 obs = Some w ∧ IdleWatch_observe w holds now = Some (w', v) ∧
    (v = Stop → holds = false ∧ ∃ since, idle_spell (obs ++ [(holds, now)]) since ∧
       (since + period ≤ now ∨ now = u64_max)%N).
Proof.
  unfold IdleWatch_new. destruct (N.eqb_spec period 0) as [|Hp]; [done|]. intros [= <-] Hobs Hnow.
  destruct (observe_all_watches period [] obs (mkIdleWatch period None)) as (w & Hall & Hw); [lia|by split|done|].
  destruct (observe_watches period obs w holds now) as (w' & v & Heq & _ & Hstop); [lia|done..|].
  exists w, w', v. done.
Qed.

Lemma stops_only_when_idle_witness :
  ∃ w w' v, observe_all (mkIdleWatch 50 None) [(true, 1%N); (false, 10%N)] = Some w ∧
            IdleWatch_observe w false 60 = Some (w', v).
Proof.
  destruct (stops_only_when_idle 50 (mkIdleWatch 50 None) [(true, 1%N); (false, 10%N)] false 60 eq_refl)
    as (w & w' & v & H1 & H2 & _).
  - repeat constructor; by vm_compute.
  - by vm_compute.
  - by exists w, w', v.
Defined.

(** * The waiting verdict (inference_admission_view.rs) *)

(** [Waiting] and [Admitted] of the source: the latter word is reserved in proofs. *)
Inductive AdmissionPhase := PhaseWaiting (since_ms : N) | PhaseAdmitted (since_ms : N).

Record AttemptObservation := mkAttemptObservation {
  ao_alias : string;
  ao_group : GroupId;
  ao_phase : AdmissionPhase;
  ao_elapsed_ms : N;
}.

Inductive CooldownState := CooldownUntil (until_ms : N) | CooldownUnknown (since_ms : N) | CooldownUnavailable.

Record GroupActivity := mkGroupActivity {
  ga_cooldown : option CooldownState;
  ga_last_refusal : option string;
}.

Record AdmissionActivity := mkAdmissionActivity {
  aa_waiting : nat;
  aa_admitted : nat;
  aa_completed : N;
  aa_refused : N;
  aa_cancelled : N;
  aa_abandoned : N;
  aa_groups : gmap GroupId GroupActivity;
  aa_attempts : gmap N AttemptObservation;
  aa_hidden : nat;
  aa_revision : N;
  aa_observed_at_ms : N;
}.

Inductive WaitCause :=
| Occupancy
| Cooldown (remaining_ms : N)
| ThrottledIndefinitely
| CauseUnavailable.

Record WaitingVerdict := mkWaitingVerdict {
  wv_waiting : nat;
  wv_longest_wait_ms : N;
  wv_attribution : option (GroupId * WaitCause);
}.

Definition cause_for (activity : AdmissionActivity) (group : GroupId) : WaitCause :=
  match aa_groups activity !! group ≫= ga_cooldown with
  | Some (CooldownUntil until_ms) => Cooldown (u64_saturating_sub until_ms (aa_observed_at_ms activity))
  | Some (CooldownUnknown _) => ThrottledIndefinitely
  | Some CooldownUnavailable => CauseUnavailable
  | None => Occupancy
  end.

(** [Iterator::max_by_key]: the last element of the greatest key. *)
Definition max_by_key {A} (key : A → N) (l : list A) : option A :=
  foldl (λ best x, match best with
                   | Some b => if (key b <=? key x)%N then Some x else Some b
                   | None => Some x
                   end) None l.

Definition is_waiting (o : AttemptObservation) : bool :=
  match ao_phase o with PhaseWaiting _ => true | PhaseAdmitted _ => false end.

Definition waiting_verdict (activity : AdmissionActivity) : option WaitingVerdict :=
  if aa_waiting activity =? 0 then None
  else
    let longest := max_by_key ao_elapsed_ms
      (filter (λ o, is_waiting o = true) (btree_values (aa_attempts activity))) in
    Some (mkWaitingVerdict (aa_waiting activity)
            (match longest with None => 0%N | Some a => ao_elapsed_ms a end)
            ((λ a, (ao_group a, cause_for activity (ao_group a))) <$> longest)).

Lemma max_by_key_snoc {A} (key : A → N) l x :
  max_by_key key (l ++ [x]) = match max_by_key key l with
    | Some b => if (key b <=? key x)%N then Some x else Some b
    | None => Some x end.
Proof. unfold max_by_key. by rewrite foldl_snoc. Qed.

Lemma max_by_key_spec {A} (key : A → N) l :
  match max_by_key key l with
  | None => l = []
  | Some b => b ∈ l ∧ ∀ x, x ∈ l → (key x ≤ key b)%N
  end.
Proof.
  induction l as [|x l IH] using rev_ind; [done|]. rewrite max_by_key_snoc.
  destruct (max_by_key key l) as [b|].
  - destruct IH as [Hin Hmax]. destruct (N.leb_spec (key b) (key x)).
    + split; [apply elem_of_app; right; by left|].
      intros y [Hy%Hmax|Hy%list_elem_of_singleton]%elem_of_app; subst; lia.
    + split; [apply elem_of_app; by left|].
      intros y [Hy%Hmax|Hy%list_elem_of_singleton]%elem_of_app; subst; lia.
  - subst l. split; [by left|]. intros y Hy%list_elem_of_singleton. subst. lia.
Qed.

(** The waiting verdict exists exactly when some attempt waits; its wait is
    an upper bound of every visible wait; it is attributed to a visible waiting
    attempt of that very wait, with the cause its group's cooldown gives, and
    to nobody exactly when no wait is visible. *)
Theorem waiting_verdict_sound activity :
  match waiting_verdict activity with
  | None => aa_waiting activity = 0
  | Some v =>
      0 < aa_waiting activity ∧ wv_waiting v = aa_waiting activity ∧
      (∀ k o, aa_attempts activity !! k = Some o → is_waiting o = true → (ao_elapsed_ms o ≤ wv_longest_wait_ms v)%N) ∧
      match wv_attribution v with
      | Some (g, cause) => cause = cause_for activity g ∧
          ∃ k o, aa_attempts activity !! k = Some o ∧ is_waiting o = true ∧ ao_group o = g ∧
                 ao_elapsed_ms o = wv_longest_wait_ms v
      | None => wv_longest_wait_ms v = 0%N ∧
          ∀ k o, aa_attempts activity !! k = Some o → is_waiting o = false
      end
  end.
Proof.
  unfold waiting_verdict. destruct (Nat.eqb_spec (aa_waiting activity) 0) as [|Hw]; [done|]. simpl.
  split; [lia|]. split; [done|].
  set (l := filter _ _). pose proof (max_by_key_spec ao_elapsed_ms l) as Hm.
  assert (∀ k o, aa_attempts activity !! k = Some o → is_waiting o = true → o ∈ l) as Hin.
  { intros k o Hk Ho. apply list_elem_of_filter. split; [done|]. apply elem_of_btree_values. eauto. }
  destruct (max_by_key ao_elapsed_ms l) as [b|]; simpl.
  - destruct Hm as [[Hb Hval]%list_elem_of_filter Hmax]. apply elem_of_btree_values in Hval as [k Hk].
    split; [|by eauto 8]. intros k' o Hk' Ho. apply Hmax. by eapply Hin.
  - rewrite Hm in Hin. split.
    + intros k o Hk Ho. specialize (Hin k o Hk Ho). by apply not_elem_of_nil in Hin.
    + split; [done|]. intros k o Hk. destruct (is_waiting o) eqn:Ho; [|done].
      specialize (Hin k o Hk Ho). by apply not_elem_of_nil in Hin.
Qed.
