(* ===== verification/Watermark.v ===== *)
(** The watermark cut planner
    (src/quecto-agentic-harness/src/domain/conversation/services/watermark.rs):
    when a request reaches its high mark, which messages one deep cut keeps,
    which it archives and where the archive stub goes.

    Token counts are [usize] values held in [N] with their saturating sums
    written out; message indices are [nat].  A [None] of a pure helper is a
    panic: a failed [assert!], an index out of range, an unsigned underflow or
    an [expect] on nothing. *)

From S2P Require Import Prelude.

(** * The marks *)

Definition MIN_SAVING_DIVISOR : N := 10%N.

Record Watermark := mkWatermark { wm_high : N; wm_low : N }.

Inductive InvalidMarks :=
| LowNotPositive
| LowNotBelowHigh (high low : N)
| GapUnderMinSaving (high low min_gap : N).

Definition DEFAULT_HIGH_TOKENS : N := 256000%N.
Definition DEFAULT_LOW_TOKENS : N := 70000%N.

Definition Watermark_new (high low : N) : res InvalidMarks Watermark :=
  let min_gap := (high / MIN_SAVING_DIVISOR)%N in
  if (low =? 0)%N then Err LowNotPositive
  else if (high <=? low)%N then Err (LowNotBelowHigh high low)
  else if (high - low <? min_gap)%N then Err (GapUnderMinSaving high low min_gap)
  else Ok (mkWatermark high low).

(** The product is computed in [u128], which two [usize] factors fit. *)
Definition scale (value numerator denominator : N) : option N :=
  if (numerator <? denominator)%N then
    let scaled := (value * numerator / denominator)%N in
    if (scaled <=? u64_max)%N then Some scaled else None
  else None.

(** [Ord::clamp], which asserts its bounds. *)
Definition clamp (x lo hi : N) : option N :=
  if (lo <=? hi)%N then Some (N.max lo (N.min x hi)) else None.

Definition under_ceiling (w : Watermark) (ceiling : N) : option Watermark :=
  let below := N.max ceiling 2 in
  if (wm_high w <=? below)%N then Some w
  else
    scaled ← scale (wm_low w) below (wm_high w);
    low ← clamp scaled 1 (below - 1);
    match Watermark_new below low with Ok marks => Some marks | _ => None end.

(** * The trigger *)

Record RequestSize := mkRequestSize { rs_tool_tokens : N; rs_message_tokens : N }.

Definition total (s : RequestSize) : N :=
  u64_saturating_add (rs_tool_tokens s) (rs_message_tokens s).

Record CutTrigger := mkCutTrigger {
  ct_marks : Watermark;
  ct_ceiling : N;
  ct_after_last_cut : option N;
}.

Definition effective_marks (t : CutTrigger) : option Watermark :=
  under_ceiling (ct_marks t) (ct_ceiling t).

Definition is_due (t : CutTrigger) (size : RequestSize) : option bool :=
  marks ← effective_marks t;
  gap ← u64_sub (wm_high marks) (wm_low marks);
  let grown := match ct_after_last_cut t with
               | Some after => (u64_saturating_add after (gap / 2) <=? rs_message_tokens size)%N
               | None => true
               end in
  Some ((wm_high marks <=? total size)%N && ((ct_ceiling t <? total size)%N || grown)).

(** * What the planner sees *)

Inductive PlanRole :=
| PSystem
| PPrompt
| PUser
| POpener
| PArchiveStub
| PAssistant (calls : list string)
| PToolResult (call : string).

Record PlanMessage := mkPlanMessage { pm_role : PlanRole; pm_tokens : N }.

Record CutInput := mkCutInput {
  ci_messages : list PlanMessage;
  ci_tool_tokens : N;
  ci_stub_tokens : N;
  ci_trigger : CutTrigger;
}.

Inductive Fill := WithinLow | NewestExchangeOverLow | HeadOverLow.

Record CutPlan := mkCutPlan {
  cp_kept : list nat;
  cp_archived : list (nat * nat);
  cp_stub_slot : nat;
  cp_projected_tokens : N;
  cp_projected_message_tokens : N;
  cp_fill : Fill;
}.

Inductive NoCut :=
| NotDue
| NoUserMessage
| NothingArchivable
| NoBoundary
| SavingTooSmall (saving needed : N).

Definition after_cut (t : CutTrigger) (plan : CutPlan) : CutTrigger :=
  mkCutTrigger (ct_marks t) (ct_ceiling t) (Some (cp_projected_message_tokens plan)).

Definition trigger_reset (t : CutTrigger) : CutTrigger :=
  mkCutTrigger (ct_marks t) (ct_ceiling t) None.

Definition sum (tokens : list N) : N := foldl u64_saturating_add 0%N tokens.

Definition opens_exchange (role : PlanRole) : bool :=
  match role with
  | PPrompt | PUser | POpener | PAssistant _ => true
  | PSystem | PArchiveStub | PToolResult _ => false
  end.

(** * Pinned messages, calls and boundaries *)

Definition is_user (m : PlanMessage) : bool :=
  match pm_role m with PPrompt | PUser | POpener => true | _ => false end.
Definition is_prompt (m : PlanMessage) : bool :=
  match pm_role m with PPrompt => true | _ => false end.
Definition is_opener (m : PlanMessage) : bool :=
  match pm_role m with PPrompt | POpener => true | _ => false end.
Definition is_stub (m : PlanMessage) : bool :=
  match pm_role m with PArchiveStub => true | _ => false end.

Definition pinned (messages : list PlanMessage) : option (list bool) :=
  first ← position is_user messages;
  let latest := rposition is_prompt messages in
  let opener := rposition is_opener messages in
  Some (imap (λ i m,
    match pm_role m with
    | PSystem => true
    | PPrompt | PUser | POpener =>
        (i =? first) || bool_decide (Some i = latest) || bool_decide (Some i = opener)
    | PArchiveStub | PAssistant _ | PToolResult _ => false
    end) messages).

(** The loop of [call_of_each_result], from index [i] with the calls issued so
    far. *)
Fixpoint calls_from (i : nat) (issued : gmap string nat) (messages : list PlanMessage)
    : list (option nat) :=
  match messages with
  | [] => []
  | m :: ms =>
      match pm_role m with
      | PAssistant calls =>
          None :: calls_from (S i) (foldl (λ acc call, <[call := i]> acc) issued calls) ms
      | PToolResult call => (issued !! call) :: calls_from (S i) issued ms
      | _ => None :: calls_from (S i) issued ms
      end
  end.

Definition call_of_each_result (messages : list PlanMessage) : list (option nat) :=
  calls_from 0 ∅ messages.

(** [v[i] += 1]. *)
Definition bump (v : list nat) (i : nat) : option (list nat) :=
  n ← v !! i; Some (<[i := S n]> v).

(** The loop that fills [opens] and [closes]. *)
Fixpoint tally (result : nat) (calls : list (option nat)) (opens closes : list nat)
    : option (list nat * list nat) :=
  match calls with
  | [] => Some (opens, closes)
  | None :: calls' => tally (S result) calls' opens closes
  | Some call :: calls' =>
      opens' ← bump opens (call + 1);
      closes' ← bump closes (result + 1);
      tally (S result) calls' opens' closes'
  end.

(** The [map] that computes [spanned] for the indices [idxs]. *)
Fixpoint spanned_from (open : nat) (idxs : list nat) (opens closes : list nat) : option (list bool) :=
  match idxs with
  | [] => Some []
  | i :: idxs' =>
      o ← opens !! i;
      c ← closes !! i;
      open' ← usize_sub (open + o) c;
      rest ← spanned_from open' idxs' opens closes;
      Some ((0 <? open') :: rest)
  end.

Definition boundaries (messages : list PlanMessage) : option (list bool) :=
  let zeros := replicate (length messages + 1) 0 in
  oc ← tally 0 (call_of_each_result messages) zeros zeros;
  spanned ← spanned_from 0 (seq 0 (length messages)) oc.1 oc.2;
  Some (zip_with (λ m s, opens_exchange (pm_role m) && negb s) messages spanned).

(** * Where the kept tail starts *)

Definition archivable (messages : list PlanMessage) (pins : list bool) (i : nat) : bool :=
  match messages !! i, pins !! i with
  | Some m, Some p =>
      match pm_role m with
      | PPrompt | PUser | POpener | PAssistant _ | PToolResult _ => negb p
      | PSystem | PArchiveStub => false
      end
  | _, _ => false
  end.

(** [once(0).chain(scan(..))]: the pinned tokens before each index. *)
Fixpoint pinned_before_from (before : N) (messages : list PlanMessage) (pins : list bool) : list N :=
  before :: match messages, pins with
            | m :: ms, p :: ps =>
                pinned_before_from (u64_saturating_add before (if p : bool then pm_tokens m else 0)) ms ps
            | _, _ => []
            end.

(** The backward walk: the newest boundary, and the earliest one that fits. *)
Fixpoint walk_back (messages : list PlanMessage) (boundary : list bool) (before : list N) (fixed low : N)
    (idxs : list nat) (suffix : N) (newest fitting : option nat) : option (option nat * option nat) :=
  match idxs with
  | [] => Some (newest, fitting)
  | i :: idxs' =>
      m ← messages !! i;
      b ← boundary !! i;
      let suffix' := u64_saturating_add suffix (pm_tokens m) in
      if b : bool then
        let newest' := match newest with Some n => Some n | None => Some i end in
        pb ← before !! i;
        let projected := u64_saturating_add (u64_saturating_add fixed pb) suffix' in
        if (projected <=? low)%N
        then walk_back messages boundary before fixed low idxs' suffix' newest' (Some i)
        else Some (newest', fitting)
      else walk_back messages boundary before fixed low idxs' suffix' newest fitting
  end.

Definition past_stubs (messages : list PlanMessage) : nat :=
  match rposition is_stub messages with Some stub => stub + 1 | None => 0 end.

Definition tail_start (messages : list PlanMessage) (pins : list bool) (fixed low : N)
    : res NoCut (nat * Fill) :=
  match List.find (archivable messages pins) (seq 0 (length messages)) with
  | None => Err NothingArchivable
  | Some first_archivable =>
      let before := pinned_before_from 0 messages pins in
      let from := Nat.max (past_stubs messages) (first_archivable + 1) in
      match
        boundary ← boundaries messages;
        walk_back messages boundary before fixed low (rev (seq from (length messages - from))) 0 None None
      with
      | None => Panic
      | Some (newest, fitting) =>
          match fitting, newest with
          | Some i, _ => Ok (i, WithinLow)
          | None, Some i =>
              match before !! i with
              | None => Panic
              | Some pb =>
                  Ok (i, if (low <? u64_saturating_add fixed pb)%N then HeadOverLow else NewestExchangeOverLow)
              end
          | None, None => Err NoBoundary
          end
      end
  end.

(** * The plan *)

Definition range_indices (r : nat * nat) : list nat := seq r.1 (r.2 - r.1).

(** One step of the loop that coalesces archived indices into ranges. *)
Definition push_range (archived : list (nat * nat)) (i : nat) : list (nat * nat) :=
  match list.last archived with
  | Some (s, e) => if e =? i then removelast archived ++ [(s, i + 1)] else archived ++ [(i, i + 1)]
  | None => archived ++ [(i, i + 1)]
  end.

Definition keeps (pins : list bool) (tail : nat) (i : nat) : bool :=
  (tail <=? i) || default false (pins !! i).

Fixpoint take_while {A} (f : A → bool) (l : list A) : list A :=
  match l with
  | [] => []
  | x :: l' => if f x then x :: take_while f l' else []
  end.

Definition tokens_at (messages : list PlanMessage) (idxs : list nat) : list N :=
  (λ i, match messages !! i with Some m => pm_tokens m | None => 0%N end) <$> idxs.

Definition plan_of (input : CutInput) (pins : list bool) (tail : nat) (fill : Fill) : CutPlan :=
  let messages := ci_messages input in
  let kept := filter (λ i, keeps pins tail i = true) (seq 0 (length messages)) in
  let archived := foldl push_range [] (filter (λ i, keeps pins tail i = false) (seq 0 tail)) in
  let projected_message_tokens :=
    u64_saturating_add (ci_stub_tokens input) (sum (tokens_at messages kept)) in
  mkCutPlan kept archived (length (take_while (λ i, i <? tail) kept))
    (u64_saturating_add (ci_tool_tokens input) projected_message_tokens)
    projected_message_tokens fill.

(** [kept[i] = true] for every kept index. *)
Fixpoint mark_kept (idxs : list nat) (marks : list bool) : option (list bool) :=
  match idxs with
  | [] => Some marks
  | i :: idxs' => _ ← marks !! i; mark_kept idxs' (<[i := true]> marks)
  end.

Fixpoint strictly_ascending (l : list nat) : bool :=
  match l with
  | a :: ((b :: _) as l') => (a <? b) && strictly_ascending l'
  | _ => true
  end.

Definition real (messages : list PlanMessage) (i : nat) : bool :=
  match messages !! i with Some m => negb (is_stub m) | None => false end.

(** The consistency [assert_fill] asserts. *)
Definition fill_holds (messages : list PlanMessage) (plan : CutPlan) (fixed low : N) : bool :=
  let head := u64_saturating_add fixed (sum (tokens_at messages (take (cp_stub_slot plan) (cp_kept plan)))) in
  let fits := (cp_projected_tokens plan <=? low)%N in
  match cp_fill plan with
  | WithinLow => fits
  | NewestExchangeOverLow => negb fits && (head <=? low)%N
  | HeadOverLow => negb fits && (low <? head)%N
  end.

(** Every assertion of [assert_invariants], in order; an index out of range
    makes the one that reads it false. *)
Definition invariants_hold (messages : list PlanMessage) (pins : list bool) (plan : CutPlan)
    (fixed low : N) : bool :=
  match mark_kept (cp_kept plan) (replicate (length messages) false) with
  | None => false
  | Some kept =>
      let archived := cp_archived plan ≫= range_indices in
      let tail := drop (cp_stub_slot plan) (cp_kept plan) in
      forallb (λ i, bool_decide (kept !! i = Some false)) archived
      && (length (cp_kept plan) + length archived =? length messages)
      && strictly_ascending (cp_kept plan)
      && forallb (λ pk, pk.2 || negb pk.1) (zip pins kept)
      && (cp_stub_slot plan <=? length (cp_kept plan))
      && match tail with
         | [] => false
         | t :: _ =>
             bool_decide (tail = seq t (length messages - t))
             && forallb (λ i, bool_decide (pins !! i = Some true)) (take (cp_stub_slot plan) (cp_kept plan))
             && match messages !! t with Some m => opens_exchange (pm_role m) | None => false end
         end
      && forallb (real messages) (cp_kept plan)
      && existsb (real messages) archived
      && forallb (λ rc : nat * option nat, match rc.2 with
                      | Some call => bool_decide (is_Some (kept !! call) ∧ kept !! call = kept !! rc.1)
                      | None => true
                      end) (imap pair (call_of_each_result messages))
      && (cp_projected_tokens plan =? u64_saturating_add fixed (sum (tokens_at messages (cp_kept plan))))%N
      && fill_holds messages plan fixed low
  end.

(** [CutPlan::new]: the plan, once its invariants are asserted. *)
Definition CutPlan_new (input : CutInput) (pins : list bool) (tail : nat) (fill : Fill) (low : N)
    : option CutPlan :=
  let plan := plan_of input pins tail fill in
  let fixed := u64_saturating_add (ci_tool_tokens input) (ci_stub_tokens input) in
  if invariants_hold (ci_messages input) pins plan fixed low then Some plan else None.

Definition min_saving (t : CutTrigger) (size : N) : option N :=
  if (ct_ceiling t <? size)%N then Some 1%N
  else marks ← effective_marks t; Some (N.max (wm_high marks / MIN_SAVING_DIVISOR) 1).

Definition request_size (input : CutInput) : RequestSize :=
  mkRequestSize (ci_tool_tokens input) (sum (pm_tokens <$> ci_messages input)).

Definition plan_cut (input : CutInput) : res NoCut CutPlan :=
  let messages := ci_messages input in
  let size := request_size input in
  match is_due (ci_trigger input) size with
  | None => Panic
  | Some false => Err NotDue
  | Some true =>
      match effective_marks (ci_trigger input) with
      | None => Panic
      | Some marks =>
          let low := wm_low marks in
          match pinned messages with
          | None => Err NoUserMessage
          | Some pins =>
              let fixed := u64_saturating_add (ci_tool_tokens input) (ci_stub_tokens input) in
              match tail_start messages pins fixed low with
              | Err e => Err e
              | Panic => Panic
              | Ok (tail, fill) =>
                  match CutPlan_new input pins tail fill low, min_saving (ci_trigger input) (total size) with
                  | Some plan, Some needed =>
                      let saving := u64_saturating_sub (total size) (cp_projected_tokens plan) in
                      if (needed <=? saving)%N then Ok plan else Err (SavingTooSmall saving needed)
                  | _, _ => Panic
                  end
              end
          end
      end
  end.
