(* ===== verification/WatermarkFacts.v ===== *)
(** Facts about the parts of the cut planner: the marks under a ceiling, the
    saturating sums, the call/result pairs, the boundaries between exchanges
    and the backward walk that finds the kept tail. *)

From S2P Require Import Prelude Watermark.

(** * The marks *)

Definition marks_ok (w : Watermark) : Prop :=
  (0 < wm_low w ∧ wm_low w < wm_high w ∧ wm_high w / MIN_SAVING_DIVISOR ≤ wm_high w - wm_low w ∧
   wm_high w ≤ u64_max)%N.

Lemma Watermark_new_ok high low w :
  u64_ok high → Watermark_new high low = Ok w → marks_ok w ∧ w = mkWatermark high low.
Proof.
  unfold Watermark_new, marks_ok, u64_ok, MIN_SAVING_DIVISOR. intros Hh.
  destruct (N.eqb_spec low 0); [done|]. destruct (N.leb_spec high low); [done|].
  destruct (N.ltb_spec (high - low) (high / 10)); [done|]. intros [= <-]. simpl. split; [lia|done].
Qed.

Lemma Watermark_new_complete high low :
  (0 < low)%N → (low < high)%N → (high / MIN_SAVING_DIVISOR ≤ high - low)%N →
  Watermark_new high low = Ok (mkWatermark high low).
Proof.
  intros Hl Hlt Hgap. unfold Watermark_new.
  destruct (N.eqb_spec low 0); [lia|]. destruct (N.leb_spec high low); [lia|].
  by destruct (N.ltb_spec (high - low) (high / MIN_SAVING_DIVISOR)); [lia|].
Qed.

(** Scaling the low mark with the high one keeps the least gap, in spite of the
    two roundings. *)
Lemma scaled_gap high low below :
  (low < high)%N → (high / 10 ≤ high - low)%N → (below < high)%N →
  (below / 10 ≤ below - low * below / high)%N.
Proof.
  intros Hlt Hgap Hb.
  pose proof (N.div_mod high 10 ltac:(lia)) as Eh. pose proof (N.mod_lt high 10 ltac:(lia)) as Mh.
  pose proof (N.div_mod below 10 ltac:(lia)) as Eb. pose proof (N.mod_lt below 10 ltac:(lia)) as Mb.
  pose proof (N.div_mod (low * below) high ltac:(lia)) as El.
  pose proof (N.mod_lt (low * below) high ltac:(lia)) as Ml.
  assert (below / 10 ≤ high / 10)%N as Hkq by (apply N.Div0.div_le_mono; lia).
  revert Hgap Hkq Eh Mh Eb Mb El Ml.
  generalize (high / 10)%N, (below / 10)%N, (low * below / high)%N.
  generalize (high mod 10)%N, (below mod 10)%N, ((low * below) mod high)%N. intros rh rb r q k l.
  intros Hgap Hkq Eh Mh Eb Mb El Ml.
  destruct (N.le_gt_cases (l + k) below) as [|Hc]; [lia|]. exfalso.
  assert (high * (below + 1) ≤ high * (l + k))%N as H1 by (apply N.mul_le_mono_l; lia).
  assert (low * below ≤ (high - q) * below)%N as H2 by (apply N.mul_le_mono_r; lia).
  assert (high * below = (high - q) * below + q * below)%N as H3
    by (rewrite <- N.mul_add_distr_r; f_equal; lia).
  assert (q * below + high ≤ high * k)%N as H4 by lia.
  assert (q * below = 10 * (q * k) + q * rb)%N as H5 by (rewrite Eb; lia).
  assert (high * k = 10 * (q * k) + rh * k)%N as H6 by (rewrite Eh; lia).
  assert (rh * k ≤ 9 * k)%N as H7 by (apply N.mul_le_mono_r; lia). lia.
Qed.

Lemma under_ceiling_ok w ceiling :
  marks_ok w → u64_ok ceiling →
  ∃ w', under_ceiling w ceiling = Some w' ∧ marks_ok w' ∧
    wm_high w' = N.min (wm_high w) (N.max ceiling 2) ∧ (wm_low w' ≤ wm_low w)%N.
Proof.
  intros (Hl & Hlt & Hgap & Hm) Hc. unfold under_ceiling. set (below := N.max ceiling 2).
  destruct (N.leb_spec (wm_high w) below) as [Hle|Hb].
  { exists w. split; [done|]. split; [done|]. split; lia. }
  unfold scale. destruct (N.ltb_spec below (wm_high w)) as [_|]; [|lia].
  set (scaled := (wm_low w * below / wm_high w)%N).
  assert (scaled < below)%N as Hsb.
  { unfold scaled. apply N.Div0.div_lt_upper_bound. nia. }
  assert (scaled ≤ wm_low w)%N as Hsl.
  { unfold scaled. apply N.Div0.div_le_upper_bound. nia. }
  destruct (N.leb_spec scaled u64_max) as [_|]; [|lia]. cbn [mbind option_bind].
  unfold clamp. destruct (N.leb_spec 1 (below - 1)) as [_|]; [|lia]. cbn [mbind option_bind].
  pose proof (scaled_gap (wm_high w) (wm_low w) below Hlt Hgap Hb) as Hg. fold scaled in Hg.
  assert (below / 10 ≤ below - 1)%N as Hb10.
  { pose proof (N.div_mod below 10 ltac:(lia)). nia. }
  unfold MIN_SAVING_DIVISOR in *.
  rewrite Watermark_new_complete; [|unfold MIN_SAVING_DIVISOR; lia..].
  eexists. split; [done|]. unfold marks_ok, MIN_SAVING_DIVISOR. simpl. lia.
Qed.

(** * Saturating sums *)

Definition nsum (l : list N) : N := foldr N.add 0%N l.

Lemma nsum_app l1 l2 : nsum (l1 ++ l2) = (nsum l1 + nsum l2)%N.
Proof. induction l1; simpl; lia. Qed.

Lemma sat_min a b : u64_saturating_add (N.min a u64_max) b = N.min (a + b) u64_max.
Proof. unfold u64_saturating_add. lia. Qed.

Lemma sum_spec l : sum l = N.min (nsum l) u64_max.
Proof.
  unfold sum. assert (∀ acc, foldl u64_saturating_add (N.min acc u64_max) l = N.min (acc + nsum l) u64_max) as H.
  { induction l as [|x l IH]; intros acc; simpl; [f_equal; lia|]. rewrite sat_min, IH. f_equal. lia. }
  specialize (H 0%N). rewrite N.min_l in H by (unfold u64_max; lia). by rewrite H.
Qed.

(** * Calls and results *)

Lemma length_calls_from i issued ms : length (calls_from i issued ms) = length ms.
Proof. revert i issued. induction ms as [|m ms IH]; intros; simpl; [done|]. destruct (pm_role m); simpl; by rewrite IH. Qed.

Lemma issued_insert i calls (issued : gmap string nat) call c :
  foldl (λ acc call, <[call := i]> acc) issued calls !! call = Some c → c = i ∨ issued !! call = Some c.
Proof.
  revert issued. induction calls as [|x calls IH]; intros issued; simpl; [auto|].
  intros [->|Hc]%IH; [auto|]. rewrite lookup_insert in Hc. case_decide; [left; congruence|auto].
Qed.

(** A result's call is an earlier assistant message. *)
Lemma calls_from_spec ms : ∀ i issued j c,
  calls_from i issued ms !! j = Some (Some c) →
  (∃ m call, ms !! j = Some m ∧ pm_role m = PToolResult call) ∧
  ((∃ call, issued !! call = Some c) ∨
   (i ≤ c < i + j ∧ ∃ m calls, ms !! (c - i) = Some m ∧ pm_role m = PAssistant calls)).
Proof.
  induction ms as [|m ms IH]; intros i issued j c Hj; [done|]. simpl in Hj.
  destruct (pm_role m) as [| | | | |calls|call] eqn:Hm; destruct j as [|j]; simpl in Hj; try done.
  6:{ (* an assistant before the result *)
      apply IH in Hj as [Hres Hc]. split; [done|].
      destruct Hc as [[call Hc]|(Hle & m' & calls' & Hm' & Hr')].
      - apply issued_insert in Hc as [->|Hc]; [|eauto]. right. split; [lia|]. exists m, calls.
        by rewrite Nat.sub_diag.
      - right. split; [lia|]. exists m', calls'. by replace (c - i) with (S (c - S i)) by lia. }
  6:{ injection Hj as Hj. split; [by eauto|]. eauto. }
  all: apply IH in Hj as [Hres Hc]; split; [done|];
    destruct Hc as [Hc|(Hle & m' & calls' & Hm' & Hr')]; [by left|right]; (split; [lia|]);
    exists m', calls'; by replace (c - i) with (S (c - S i)) by lia.
Qed.

Lemma call_of_each_result_spec ms j c :
  call_of_each_result ms !! j = Some (Some c) →
  c < j ∧ (∃ m call, ms !! j = Some m ∧ pm_role m = PToolResult call) ∧
  (∃ m calls, ms !! c = Some m ∧ pm_role m = PAssistant calls).
Proof.
  intros Hj. apply calls_from_spec in Hj as [Hres [[call Hc]|(Hle & m & calls & Hm & Hr)]]; [done|].
  rewrite Nat.sub_0_r in Hm. split; [lia|]. eauto.
Qed.

(** * Boundaries *)

(** The call/result pairs, as indices. *)
Fixpoint pairs_from (result : nat) (calls : list (option nat)) : list (nat * nat) :=
  match calls with
  | [] => []
  | None :: calls' => pairs_from (S result) calls'
  | Some call :: calls' => (call, result) :: pairs_from (S result) calls'
  end.

Lemma elem_of_pairs_from result calls c r :
  (c, r) ∈ pairs_from result calls ↔ ∃ j, r = result + j ∧ calls !! j = Some (Some c).
Proof.
  revert result. induction calls as [|[c0|] calls IH]; intros result; simpl.
  - split; [by intros ?%not_elem_of_nil|]. by intros (j & _ & ?).
  - rewrite elem_of_cons, IH. split.
    + intros [[= -> ->]|(j & -> & Hj)]; [exists 0|exists (S j)]; (split; [lia|done]).
    + intros ([|j] & -> & Hj); simpl in Hj; [left; f_equal; [congruence|lia]|].
      right. exists j. split; [lia|done].
  - rewrite IH. split.
    + intros (j & -> & Hj). exists (S j). split; [lia|done].
    + intros ([|j] & -> & Hj); simpl in Hj; [done|]. exists j. split; [lia|done].
Qed.

(** How many pairs satisfy [f]. *)
Fixpoint count_pairs (f : nat * nat → bool) (l : list (nat * nat)) : nat :=
  match l with
  | [] => 0
  | p :: l' => Nat.b2n (f p) + count_pairs f l'
  end.

Lemma count_pairs_zero f l : count_pairs f l = 0 ↔ ∀ p, p ∈ l → f p = false.
Proof.
  induction l as [|p l IH]; simpl; [split; [by intros _ p ?%not_elem_of_nil|done]|].
  split.
  - intros H q [->|Hq]%elem_of_cons; [destruct (f p); simpl in H; [lia|done]|]. apply IH; [lia|done].
  - intros H. rewrite (H p) by (by left). simpl. apply IH. intros q Hq. apply H. by right.
Qed.

Lemma count_pairs_balance f g h k l :
  (∀ p, p ∈ l → Nat.b2n (f p) + Nat.b2n (g p) = Nat.b2n (h p) + Nat.b2n (k p)) →
  count_pairs f l + count_pairs g l = count_pairs h l + count_pairs k l.
Proof.
  induction l as [|p l IH]; simpl; intros H; [done|].
  pose proof (H p ltac:(by left)). specialize (IH ltac:(intros q Hq; apply H; by right)). lia.
Qed.

Lemma bump_Some v i : i < length v → ∃ v', bump v i = Some v' ∧ length v' = length v ∧
  ∀ k, v' !! k = (λ n, Nat.b2n (i =? k) + n) <$> v !! k.
Proof.
  intros [n Hn]%lookup_lt_is_Some_2. unfold bump. rewrite Hn. cbn [mbind option_bind].
  exists (<[i := S n]> v). split; [done|]. split; [apply length_insert|]. intros k.
  destruct (Nat.eqb_spec i k) as [->|Hne].
  - rewrite list_lookup_insert_eq by (by eapply lookup_lt_Some). by rewrite Hn.
  - rewrite list_lookup_insert_ne by done. by destruct (v !! k).
Qed.

Lemma tally_spec calls : ∀ result opens closes,
  (∀ p, p ∈ pairs_from result calls → p.1 + 1 < length opens ∧ p.2 + 1 < length closes) →
  ∃ o c, tally result calls opens closes = Some (o, c) ∧ length o = length opens ∧ length c = length closes ∧
    (∀ k, o !! k = (λ n, count_pairs (λ p, p.1 + 1 =? k) (pairs_from result calls) + n) <$> opens !! k) ∧
    (∀ k, c !! k = (λ n, count_pairs (λ p, p.2 + 1 =? k) (pairs_from result calls) + n) <$> closes !! k).
Proof.
  induction calls as [|[call|] calls IH]; intros result opens closes Hin; simpl.
  - exists opens, closes. split_and!; [done..| |]; intros k; [by destruct (opens !! k)|by destruct (closes !! k)].
  - destruct (Hin (call, result)) as [H1 H2]; [by left|]. simpl in H1, H2.
    destruct (bump_Some opens (call + 1) H1) as (o1 & -> & Hl1 & Ho1).
    destruct (bump_Some closes (result + 1) H2) as (c1 & -> & Hl2 & Hc1). cbn [mbind option_bind].
    destruct (IH (S result) o1 c1) as (o & c & -> & Lo & Lc & Ho & Hc).
    { intros p Hp. rewrite Hl1, Hl2. apply Hin. by right. }
    exists o, c. split; [done|]. split; [congruence|]. split; [congruence|]. split; intros k; [rewrite Ho, Ho1|rewrite Hc, Hc1];
      rewrite <- option_fmap_compose; apply option_fmap_ext; intros n; simpl; lia.
  - destruct (IH (S result) opens closes) as (o & c & -> & ? & ? & ? & ?); [done|]. by exists o, c.
Qed.

(** The pairs a cut right before [i] would split. *)
Definition split_pairs (ps : list (nat * nat)) (i : nat) : nat :=
  count_pairs (λ p, (p.1 <? i) && (i <=? p.2)) ps.

(** ... and the value of [open] when the loop reaches [i]. *)
Definition open_at (ps : list (nat * nat)) (i : nat) : nat :=
  count_pairs (λ p, (p.1 + 1 <? i) && (i <=? p.2 + 1)) ps.

Lemma spanned_spec ps n : ∀ i opens closes,
  (∀ p, p ∈ ps → p.1 < p.2) → i + n < length opens → i + n < length closes →
  (∀ k, k < length opens → opens !! k = Some (count_pairs (λ p, p.1 + 1 =? k) ps)) →
  (∀ k, k < length closes → closes !! k = Some (count_pairs (λ p, p.2 + 1 =? k) ps)) →
  spanned_from (open_at ps i) (seq i n) opens closes
  = Some ((λ j, 0 <? split_pairs ps j) <$> seq i n).
Proof.
  induction n as [|n IH]; intros i opens closes Hlt Ho Hc Hopens Hcloses; [done|].
  cbn [seq spanned_from]. rewrite Hopens, Hcloses by lia. cbn [mbind option_bind].
  assert (split_pairs ps i + count_pairs (λ p, p.2 + 1 =? i) ps
          = open_at ps i + count_pairs (λ p, p.1 + 1 =? i) ps) as Hbal.
  { apply count_pairs_balance. intros p Hp%Hlt. unfold Nat.b2n.
    destruct (Nat.ltb_spec p.1 i), (Nat.leb_spec i p.2), (Nat.eqb_spec (p.2 + 1) i),
      (Nat.ltb_spec (p.1 + 1) i), (Nat.leb_spec i (p.2 + 1)), (Nat.eqb_spec (p.1 + 1) i); simpl; lia. }
  rewrite (proj2 (usize_sub_Some _ _ (split_pairs ps i))) by lia. cbn [mbind option_bind].
  assert (split_pairs ps i = open_at ps (S i)) as Heq.
  { unfold split_pairs, open_at. pose proof (count_pairs_balance
      (λ p, (p.1 <? i) && (i <=? p.2)) (λ _, false) (λ p, (p.1 + 1 <? S i) && (S i <=? p.2 + 1)) (λ _, false) ps) as Hb.
    assert (count_pairs (λ _, false) ps = 0) as H0 by (apply count_pairs_zero; done).
    rewrite H0, !Nat.add_0_r in Hb. apply Hb. intros p _. f_equal. f_equal.
    destruct (Nat.ltb_spec p.1 i), (Nat.leb_spec i p.2), (Nat.ltb_spec (p.1 + 1) (S i)), (Nat.leb_spec (S i) (p.2 + 1));
      simpl; lia. }
  rewrite Heq at 1. rewrite IH; [|done|lia|lia|done|done]. done.
Qed.

(** A boundary: the message opens an exchange and no pair spans it. *)
Definition is_boundary (ms : list PlanMessage) (i : nat) : Prop :=
  (∃ m, ms !! i = Some m ∧ opens_exchange (pm_role m) = true) ∧
  ∀ j c, call_of_each_result ms !! j = Some (Some c) → c < i → j < i.

Lemma boundaries_spec ms :
  ∃ bs, boundaries ms = Some bs ∧ length bs = length ms ∧
    ∀ i, i < length ms → ∃ b, bs !! i = Some b ∧ (b = true ↔ is_boundary ms i).
Proof.
  unfold boundaries. set (ps := pairs_from 0 (call_of_each_result ms)).
  assert (∀ p, p ∈ ps → p.1 < p.2 ∧ p.2 < length ms) as Hps.
  { intros [c r] (j & -> & Hj)%elem_of_pairs_from. simpl.
    apply call_of_each_result_spec in Hj as (? & (m & call & Hm & _) & _). apply lookup_lt_Some in Hm. lia. }
  destruct (tally_spec (call_of_each_result ms) 0 (replicate (length ms + 1) 0) (replicate (length ms + 1) 0))
    as (o & c & -> & Lo & Lc & Ho & Hc).
  { intros p Hp%Hps. rewrite length_replicate. lia. }
  rewrite length_replicate in Lo, Lc. cbn [mbind option_bind fst snd].
  assert (open_at ps 0 = 0) as H0.
  { apply count_pairs_zero. intros p _. by destruct (Nat.ltb_spec (p.1 + 1) 0); [lia|]. }
  pose proof (spanned_spec ps (length ms) 0 o c) as Hs. rewrite H0 in Hs. rewrite Hs; clear Hs.
  2:{ intros p Hp%Hps. lia. }
  2-3: lia.
  2:{ intros k Hk. rewrite Ho, lookup_replicate_2 by lia. simpl. f_equal. fold ps. lia. }
  2:{ intros k Hk. rewrite Hc, lookup_replicate_2 by lia. simpl. f_equal. fold ps. lia. }
  cbn [mbind option_bind]. eexists. split; [done|]. split.
  { rewrite length_zip_with, length_fmap, length_seq. lia. }
  intros i Hi. destruct (lookup_lt_is_Some_2 ms i Hi) as [m Hm].
  exists (opens_exchange (pm_role m) && negb (0 <? split_pairs ps i)). split.
  { rewrite lookup_zip_with, Hm. simpl. rewrite list_lookup_fmap, lookup_seq_lt by done. done. }
  rewrite andb_true_iff, negb_true_iff, Nat.ltb_ge. unfold is_boundary.
  assert (split_pairs ps i ≤ 0 ↔ ∀ j c, call_of_each_result ms !! j = Some (Some c) → c < i → j < i) as ->.
  { assert (split_pairs ps i ≤ 0 ↔ split_pairs ps i = 0) as -> by lia. unfold split_pairs.
    rewrite count_pairs_zero. split.
    - intros H j c0 Hj Hlt. specialize (H (c0, j)). simpl in H.
      destruct (Nat.ltb_spec c0 i), (Nat.leb_spec i j); simpl in H; try lia.
      discriminate H. apply elem_of_pairs_from. by exists j.
    - intros H [c0 r] (j & -> & Hj)%elem_of_pairs_from. simpl. specialize (H j c0 Hj).
      destruct (Nat.ltb_spec c0 i), (Nat.leb_spec i j); simpl; try done. lia. }
  split; intros [Ho' ?]; (split; [|done]); [by exists m|]. destruct Ho' as (m' & ? & ?). congruence.
Qed.

(** * The cost of a tail *)

Section cost.
Context (ms : list PlanMessage) (pins : list bool) (fixed : N).
Context (Hlen : length pins = length ms).

(** The tokens of the pinned messages before [i], of the messages from [i] on,
    and of everything a cut at [i] keeps. *)
Definition pinned_weight (i : nat) : N :=
  nsum (zip_with (λ (m : PlanMessage) (p : bool), if p then pm_tokens m else 0%N) (take i ms) (take i pins)).
Definition suffix_weight (i : nat) : N := nsum (pm_tokens <$> drop i ms).
Definition tail_cost (i : nat) : N := N.min (fixed + pinned_weight i + suffix_weight i) u64_max.

Lemma pinned_weight_S i m (p : bool) :
  ms !! i = Some m → pins !! i = Some p →
  pinned_weight (S i) = (pinned_weight i + (if p then pm_tokens m else 0))%N.
Proof.
  intros Hm Hp. unfold pinned_weight. rewrite (take_S_r _ _ _ Hm), (take_S_r _ _ _ Hp).
  rewrite zip_with_app, nsum_app by (rewrite !length_take; lia). simpl. lia.
Qed.

Lemma suffix_weight_S i m : ms !! i = Some m → suffix_weight i = (pm_tokens m + suffix_weight (S i))%N.
Proof. intros Hm. unfold suffix_weight. by rewrite (drop_S _ _ _ Hm). Qed.

Lemma tail_cost_antitone i j : i ≤ j → j ≤ length ms → (tail_cost j ≤ tail_cost i)%N.
Proof.
  intros Hij. induction Hij as [|j Hij IH]; intros Hj; [lia|]. specialize (IH ltac:(lia)).
  destruct (lookup_lt_is_Some_2 ms j ltac:(lia)) as [m Hm].
  destruct (lookup_lt_is_Some_2 pins j ltac:(lia)) as [p Hp].
  unfold tail_cost in *. rewrite (pinned_weight_S j m p Hm Hp). rewrite (suffix_weight_S j m Hm) in IH.
  destruct p; lia.
Qed.
End cost.

Lemma pinned_before_spec ms : ∀ pins before i,
  length pins = length ms → i ≤ length ms →
  pinned_before_from (N.min before u64_max) ms pins !! i
  = Some (N.min (before + pinned_weight ms pins i) u64_max).
Proof.
  induction ms as [|m ms IH]; intros [|p pins] before i Hl Hi; simpl in *; try lia.
  - destruct i; [|lia]. simpl. do 2 f_equal. unfold pinned_weight. simpl. lia.
  - destruct i as [|i]; simpl.
    + do 2 f_equal. unfold pinned_weight. simpl. lia.
    + rewrite sat_min, IH by lia. do 2 f_equal. unfold pinned_weight. simpl. lia.
Qed.

(** * The backward walk *)

Section walk.
Context (ms : list PlanMessage) (pins bs : list bool) (fixed low : N) (from : nat).
Context (Hlen : length pins = length ms).
Context (Hbs : ∀ i, i < length ms → ∃ b, bs !! i = Some b ∧ (b = true ↔ is_boundary ms i)).
Context (Hfixed : u64_ok fixed).

Definition fits (i : nat) : Prop := (tail_cost ms pins fixed i ≤ low)%N.

(** What the walk over [from .. from + n] has found. *)
Definition newest_spec (n : nat) (o : option nat) : Prop :=
  match o with
  | Some i => from ≤ i < from + n ∧ is_boundary ms i ∧ ∀ j, i < j < from + n → ¬ is_boundary ms j
  | None => ∀ j, from ≤ j < from + n → ¬ is_boundary ms j
  end.

Definition fitting_spec (n : nat) (fitting o : option nat) : Prop :=
  (o = fitting ∧ ∀ j, from ≤ j < from + n → is_boundary ms j → ¬ fits j) ∨
  ∃ i, o = Some i ∧ from ≤ i < from + n ∧ is_boundary ms i ∧ fits i ∧
       ∀ j, from ≤ j < i → is_boundary ms j → ¬ fits j.

Lemma walk_back_spec n : ∀ suffix newest fitting,
  from + n ≤ length ms → suffix = N.min (suffix_weight ms (from + n)) u64_max →
  ∃ nw ft, walk_back ms bs (pinned_before_from 0 ms pins) fixed low (rev (seq from n)) suffix newest fitting
           = Some (nw, ft) ∧
    match newest with Some _ => nw = newest | None => newest_spec n nw end ∧
    fitting_spec n fitting ft.
Proof.
  induction n as [|n IH]; intros suffix newest fitting Hn Hs.
  { simpl. exists newest, fitting. split; [done|]. split.
    - destruct newest; [done|]. intros j Hj. lia.
    - left. split; [done|]. intros j Hj. lia. }
  rewrite seq_S, rev_app_distr. cbn [rev app walk_back].
  set (i := from + n).
  destruct (lookup_lt_is_Some_2 ms i ltac:(lia)) as [m Hm]. rewrite Hm. cbn [mbind option_bind].
  destruct (Hbs i ltac:(lia)) as (b & Hb & Hbound). rewrite Hb. cbn [mbind option_bind].
  assert (u64_saturating_add suffix (pm_tokens m) = N.min (suffix_weight ms i) u64_max) as Hs'.
  { rewrite Hs, sat_min, (suffix_weight_S ms i m Hm). f_equal. replace (from + S n) with (S i) by lia. lia. }
  rewrite Hs'. replace (from + S n) with (S i) in * by lia. destruct b.
  - pose proof (proj1 Hbound eq_refl) as Hbi. clear Hbound.
    pose proof (pinned_before_spec ms pins 0 i Hlen ltac:(lia)) as Hpb. rewrite N.add_0_l in Hpb.
    change (N.min 0 u64_max) with 0%N in Hpb. rewrite Hpb. cbn [mbind option_bind].
    set (projected := u64_saturating_add _ _).
    assert (projected = tail_cost ms pins fixed i) as ->.
    { unfold projected, tail_cost, u64_saturating_add, u64_ok in *. lia. }
    destruct (N.leb_spec (tail_cost ms pins fixed i) low) as [Hfit|Hnofit].
    + destruct (IH (N.min (suffix_weight ms i) u64_max) (match newest with Some x => Some x | None => Some i end) (Some i)
                  ltac:(lia) eq_refl) as (nw & ft & Heq & Hnw & Hft).
      exists nw, ft. split; [done|]. split.
      * destruct newest as [x|]; [done|]. subst nw. split; [lia|]. split; [done|]. intros j Hj. lia.
      * right. destruct Hft as [[-> Hno]|(k & -> & Hk & Hkb & Hkf & Hkn)].
        -- exists i. split; [done|]. split; [lia|]. split; [done|]. split; [done|]. intros j Hj. apply Hno. lia.
        -- exists k. split; [done|]. split; [lia|]. done.
    + eexists _, _. split; [done|]. split.
      * destruct newest as [x|]; [done|]. split; [lia|]. split; [done|]. intros j Hj. lia.
      * left. split; [done|]. intros j Hj _ Hf.
        pose proof (tail_cost_antitone ms pins fixed Hlen j i ltac:(lia) ltac:(lia)). unfold fits in Hf. lia.
  - assert (¬ is_boundary ms i) as Hnb by (intros ?%Hbound; done).
    destruct (IH (N.min (suffix_weight ms i) u64_max) newest fitting ltac:(lia) eq_refl) as (nw & ft & Heq & Hnw & Hft).
    exists nw, ft. split; [done|]. split.
    + destruct newest; [done|]. destruct nw as [x|]; simpl in *.
      * destruct Hnw as (? & ? & Hno). split; [lia|]. split; [done|]. intros j Hj.
        destruct (decide (j = i)) as [->|]; [done|]. apply Hno. lia.
      * intros j Hj. destruct (decide (j = i)) as [->|]; [done|]. apply Hnw. lia.
    + destruct Hft as [[-> Hno]|(k & -> & Hk & Hkb & Hkf & Hkn)].
      * left. split; [done|]. intros j Hj Hbj. destruct (decide (j = i)) as [->|]; [done|]. apply Hno; [lia|done].
      * right. exists k. split; [done|]. split; [lia|]. done.
Qed.
End walk.
