(* ===== verification/WatermarkPlan.v ===== *)
(** The planner as a whole: where the kept tail starts, and that a plan made
    there satisfies every invariant it asserts. *)

From S2P Require Import Prelude Watermark WatermarkFacts.

(** * Where the tail starts *)

(** The tail may start right before [i]: at a boundary, past every stub, with
    something archivable before it. *)
Definition candidate_tail (ms : list PlanMessage) (pins : list bool) (i : nat) : Prop :=
  i < length ms ∧ past_stubs ms ≤ i ∧ (∃ a, a < i ∧ archivable ms pins a = true) ∧ is_boundary ms i.

Definition tail_choice (ms : list PlanMessage) (pins : list bool) (fixed low : N) (i : nat) (fill : Fill) : Prop :=
  match fill with
  | WithinLow => fits ms pins fixed low i ∧
      ∀ j, candidate_tail ms pins j → fits ms pins fixed low j → i ≤ j
  | NewestExchangeOverLow =>
      (∀ j, candidate_tail ms pins j → ¬ fits ms pins fixed low j ∧ j ≤ i) ∧
      (N.min (fixed + pinned_weight ms pins i) u64_max ≤ low)%N
  | HeadOverLow =>
      (∀ j, candidate_tail ms pins j → ¬ fits ms pins fixed low j ∧ j ≤ i) ∧
      (low < N.min (fixed + pinned_weight ms pins i) u64_max)%N
  end.

Lemma archivable_lt ms pins i : archivable ms pins i = true → i < length ms.
Proof.
  unfold archivable. destruct (ms !! i) as [m|] eqn:Hm; [|done]. intros _. by eapply lookup_lt_Some.
Qed.

Lemma find_seq_before (f : nat → bool) n : ∀ s i j,
  List.find f (seq s n) = Some i → s ≤ j → j < i → f j = false.
Proof.
  induction n as [|n IH]; intros s i j; simpl; [done|]. destruct (f s) eqn:Hs.
  - intros [= <-]. lia.
  - intros Hf Hj Hlt. destruct (decide (j = s)) as [->|]; [done|]. eapply IH; [done|lia|done].
Qed.

Lemma tail_start_spec ms pins fixed low :
  length pins = length ms → u64_ok fixed →
  match tail_start ms pins fixed low with
  | Ok (i, fill) => candidate_tail ms pins i ∧ tail_choice ms pins fixed low i fill
  | Err NothingArchivable => ∀ i, archivable ms pins i = false
  | Err NoBoundary => ∀ i, ¬ candidate_tail ms pins i
  | Err _ => False
  | Panic => False
  end.
Proof.
  intros Hlen Hfixed. unfold tail_start.
  destruct (List.find _ _) as [fa|] eqn:Hfind.
  2:{ intros i. destruct (archivable ms pins i) eqn:Ha; [|done].
      rewrite <- Ha. eapply List.find_none; [done|]. apply in_seq. apply archivable_lt in Ha. lia. }
  apply List.find_some in Hfind as Hfa. destruct Hfa as [Hin Hfa]. apply in_seq in Hin.
  assert (∀ j, j < fa → archivable ms pins j = false) as Hfirst.
  { intros j Hj. apply (find_seq_before (archivable ms pins) (length ms) 0 fa); [done|lia|done]. }
  set (from := Nat.max (past_stubs ms) (fa + 1)).
  assert (∀ j, candidate_tail ms pins j ↔ from ≤ j < from + (length ms - from) ∧ is_boundary ms j) as Hcand.
  { intros j. unfold candidate_tail. split.
    - intros (Hj & Hps & (a & Ha & Har) & Hb). split; [|done].
      destruct (Nat.lt_ge_cases a fa) as [Hlt|]; [rewrite (Hfirst a Hlt) in Har; done|]. lia.
    - intros [Hj Hb]. split; [lia|]. split; [lia|]. split; [|done]. exists fa. split; [lia|done]. }
  destruct (boundaries_spec ms) as (bs & Hbs & Hbl & Hbspec). rewrite Hbs. cbn [mbind option_bind].
  destruct (decide (from ≤ length ms)) as [Hfrom|Hfrom].
  2:{ replace (length ms - from) with 0 by lia. simpl. intros i Hi%Hcand. lia. }
  destruct (walk_back_spec ms pins bs fixed low from Hlen Hbspec Hfixed (length ms - from) 0 None None)
    as (nw & ft & -> & Hnw & Hft).
  { lia. }
  { unfold suffix_weight. rewrite drop_ge by lia. simpl. done. }
  destruct Hft as [[-> Hno]|(i & -> & Hi & Hib & Hif & Hin')].
  2:{ split; [by apply Hcand|]. split; [done|]. intros j [Hj Hbj]%Hcand Hfj.
      destruct (Nat.lt_ge_cases j i); [|done]. destruct (Hin' j ltac:(lia) Hbj Hfj). }
  destruct nw as [i|].
  2:{ intros i [Hi Hb]%Hcand. destruct (Hnw i Hi Hb). }
  destruct Hnw as (Hi & Hib & Hnewest).
  pose proof (pinned_before_spec ms pins 0 i Hlen ltac:(lia)) as Hpb. rewrite N.add_0_l in Hpb.
  change (N.min 0 u64_max) with 0%N in Hpb. rewrite Hpb.
  assert (u64_saturating_add fixed (N.min (pinned_weight ms pins i) u64_max)
          = N.min (fixed + pinned_weight ms pins i) u64_max) as ->.
  { unfold u64_saturating_add, u64_ok in *. lia. }
  assert (∀ j, candidate_tail ms pins j → ¬ fits ms pins fixed low j ∧ j ≤ i) as Hall.
  { intros j [Hj Hbj]%Hcand. split; [by apply Hno|]. destruct (Nat.lt_ge_cases i j); [|done].
    destruct (Hnewest j ltac:(lia) Hbj). }
  split; [by apply Hcand|]. destruct (N.ltb_spec low (N.min (fixed + pinned_weight ms pins i) u64_max)); by split.
Qed.

(** * The shape of a plan *)

Lemma take_while_app {A} (f : A → bool) l1 l2 :
  Forall (λ x, f x = true) l1 → (∀ x l, l2 = x :: l → f x = false) → take_while f (l1 ++ l2) = l1.
Proof.
  induction 1 as [|x l1 Hx _ IH]; intros H2; simpl.
  - destruct l2 as [|y l2]; [done|]. simpl. by rewrite (H2 y l2).
  - by rewrite Hx, IH.
Qed.

(** Coalescing indices into ranges loses and reorders nothing. *)
Lemma push_ranges_flatten l : ∀ acc,
  Forall (λ r : nat * nat, r.1 ≤ r.2) acc →
  foldl push_range acc l ≫= range_indices = (acc ≫= range_indices) ++ l.
Proof.
  induction l as [|i l IH]; intros acc Hacc; simpl; [by rewrite app_nil_r|].
  assert (Forall (λ r : nat * nat, r.1 ≤ r.2) (push_range acc i) ∧
          push_range acc i ≫= range_indices = (acc ≫= range_indices) ++ [i]) as [Hok Hflat].
  { unfold push_range. destruct acc as [|[s e] acc _] using rev_ind; simpl.
    { split; [by repeat (constructor; simpl; try lia)|]. unfold range_indices. simpl.
      by replace (i + 1 - i) with 1 by lia. }
    rewrite last_snoc. apply Forall_app in Hacc as [Hacc Hse]. inversion_clear Hse as [|? ? Hse' _]. simpl in Hse'.
    destruct (Nat.eqb_spec e i) as [->|Hne].
    - rewrite removelast_last. split.
      + apply Forall_app. split; [done|]. by repeat (constructor; simpl; try lia).
      + rewrite !bind_app. simpl. unfold range_indices. simpl. rewrite !app_nil_r, <- app_assoc. f_equal.
        replace (i + 1 - s) with (S (i - s)) by lia. rewrite seq_S. do 2 f_equal. lia.
    - split.
      + rewrite !Forall_app. split_and!; try done; by repeat (constructor; simpl; try lia).
      + rewrite !bind_app. simpl. unfold range_indices at 3. simpl. by replace (i + 1 - i) with 1 by lia. }
  rewrite IH by done. rewrite Hflat, <- app_assoc. done.
Qed.

Lemma mark_kept_spec l : ∀ marks,
  Forall (λ i, i < length marks) l →
  ∃ marks', mark_kept l marks = Some marks' ∧ length marks' = length marks ∧
    ∀ i, i < length marks → marks' !! i = if decide (i ∈ l) then Some true else marks !! i.
Proof.
  induction l as [|x l IH]; intros marks Hl; simpl.
  { exists marks. by split_and!. }
  inversion_clear Hl as [|? ? Hx Hl']. destruct (lookup_lt_is_Some_2 marks x Hx) as [b Hb]. rewrite Hb.
  cbn [mbind option_bind]. destruct (IH (<[x := true]> marks)) as (m' & -> & Hlen & Hm').
  { eapply List.Forall_impl; [|done]. intros. by rewrite length_insert. }
  rewrite length_insert in *. exists m'. split_and!; try done. intros i Hi. rewrite Hm' by done.
  destruct (decide (i ∈ l)) as [Hin|Hin].
  - rewrite decide_True; [done|]. by right.
  - destruct (decide (i = x)) as [->|Hne].
    + rewrite decide_True by (by left). by rewrite list_lookup_insert_eq.
    + rewrite decide_False; [by rewrite list_lookup_insert_ne|]. by intros [?|?]%elem_of_cons.
Qed.

Lemma strictly_ascending_sorted l : StronglySorted lt l → strictly_ascending l = true.
Proof.
  induction 1 as [|a l Hl IH Hall]; [done|]. destruct l as [|b l]; [done|].
  change (strictly_ascending (a :: b :: l)) with ((a <? b) && strictly_ascending (b :: l)).
  rewrite IH, andb_true_r. apply Nat.ltb_lt. by inversion_clear Hall.
Qed.

Lemma filter_seq_sorted (P : nat → Prop) `{!∀ x, Decision (P x)} s n : StronglySorted lt (filter P (seq s n)).
Proof.
  revert s. induction n as [|n IH]; intros s; simpl; [constructor|]. rewrite filter_cons.
  case_decide; [|apply IH]. constructor; [apply IH|]. apply Forall_forall. intros x Hx%list_elem_of_In.
  apply list_elem_of_filter in Hx as [_ Hx]. apply elem_of_seq in Hx. lia.
Qed.

Lemma nsum_tokens_suffix ms i : nsum (tokens_at ms (seq i (length ms - i))) = suffix_weight ms i.
Proof.
  unfold suffix_weight, tokens_at. f_equal. apply list_eq. intros k.
  rewrite !list_lookup_fmap, lookup_drop. destruct (decide (k < length ms - i)) as [Hk|Hk].
  - rewrite lookup_seq_lt by done. simpl. destruct (lookup_lt_is_Some_2 ms (i + k) ltac:(lia)) as [m ->]. done.
  - rewrite lookup_seq_ge by lia. simpl. by rewrite lookup_ge_None_2 by lia.
Qed.

Lemma nsum_tokens_head ms pins tail i :
  length pins = length ms → i ≤ length ms → i ≤ tail →
  nsum (tokens_at ms (filter (λ i, keeps pins tail i = true) (seq 0 i))) = pinned_weight ms pins i.
Proof.
  intros Hlen Hi Ht. induction i as [|i IH]; [done|].
  destruct (lookup_lt_is_Some_2 ms i ltac:(lia)) as [m Hm].
  destruct (lookup_lt_is_Some_2 pins i ltac:(lia)) as [p Hp].
  rewrite seq_S, list.filter_app. unfold tokens_at in *. rewrite fmap_app, nsum_app, IH by lia.
  rewrite (pinned_weight_S ms pins Hlen i m p Hm Hp). f_equal. simpl. rewrite filter_cons.
  unfold keeps. rewrite Hp. simpl. destruct (Nat.leb_spec tail i); [lia|]. simpl.
  destruct p; simpl; [rewrite Hm; simpl; lia|done].
Qed.

(** * A plan made at a candidate tail satisfies its invariants *)

(** Only system and user messages are ever pinned. *)
Definition pins_ok (ms : list PlanMessage) (pins : list bool) : Prop :=
  length pins = length ms ∧
  ∀ i m, ms !! i = Some m → pins !! i = Some true →
    match pm_role m with PSystem | PPrompt | PUser | POpener => True | _ => False end.

Lemma pinned_ok ms pins : pinned ms = Some pins → pins_ok ms pins.
Proof.
  unfold pinned. destruct (position is_user ms) as [first|]; [|done]. cbn [mbind option_bind].
  intros [= <-]. split; [apply length_imap|]. intros i m Hm. rewrite list_lookup_imap, Hm. simpl.
  intros [= Hp]. by destruct (pm_role m).
Qed.

Section plan.
Context (input : CutInput) (pins : list bool) (tail : nat) (fill : Fill) (low : N).
Let ms := ci_messages input.
Let fixed := u64_saturating_add (ci_tool_tokens input) (ci_stub_tokens input).
Let plan := plan_of input pins tail fill.
Context (Hpins : pins_ok ms pins) (Htail : candidate_tail ms pins tail)
        (Hchoice : tail_choice ms pins fixed low tail fill).

Let head := filter (λ i, keeps pins tail i = true) (seq 0 tail).
Let rest := filter (λ i, keeps pins tail i = false) (seq 0 tail).

Lemma tail_lt : tail < length ms.
Proof. apply Htail. Qed.

Lemma kept_split : cp_kept plan = head ++ seq tail (length ms - tail).
Proof.
  unfold plan, plan_of, head. simpl. fold ms. pose proof tail_lt.
  replace (length ms) with (tail + (length ms - tail)) at 1 by lia. rewrite seq_app, list.filter_app. f_equal.
  simpl. apply filter_all. intros i Hi%elem_of_seq. unfold keeps. by destruct (Nat.leb_spec tail i); [|lia].
Qed.

Lemma elem_of_kept i : i ∈ cp_kept plan ↔ i < length ms ∧ keeps pins tail i = true.
Proof.
  unfold plan, plan_of. simpl. fold ms. rewrite list_elem_of_filter, elem_of_seq. split; intros [? ?]; split; lia || done.
Qed.

Lemma stub_slot_head : cp_stub_slot plan = length head.
Proof.
  change (cp_stub_slot plan) with (length (take_while (λ i, i <? tail) (cp_kept plan))).
  rewrite kept_split. f_equal.
  apply take_while_app.
  - apply Forall_forall. intros i Hi%list_elem_of_In. unfold head in Hi.
    apply list_elem_of_filter in Hi as [_ Hi%elem_of_seq]. apply Nat.ltb_lt. lia.
  - intros x l Hl. destruct (length ms - tail); [done|]. simpl in Hl. injection Hl as <- _. apply Nat.ltb_ge. lia.
Qed.

Lemma archived_flat : cp_archived plan ≫= range_indices = rest.
Proof. unfold plan, plan_of. simpl. by rewrite push_ranges_flatten. Qed.

Lemma elem_of_head i : i ∈ head ↔ i < tail ∧ pins !! i = Some true.
Proof.
  unfold head. rewrite list_elem_of_filter, elem_of_seq. unfold keeps. split.
  - intros [Hk Hi]. split; [lia|]. destruct (Nat.leb_spec tail i); [lia|]. simpl in Hk.
    by destruct (pins !! i) as [[]|].
  - intros [Hi Hp]. rewrite Hp. simpl. rewrite orb_true_r. split; [done|lia].
Qed.

Lemma elem_of_rest i : i ∈ rest ↔ i < tail ∧ pins !! i = Some false.
Proof.
  unfold rest. rewrite list_elem_of_filter, elem_of_seq. unfold keeps. pose proof tail_lt. destruct Hpins as [Hl _].
  split.
  - intros [Hk Hi]. split; [lia|]. destruct (Nat.leb_spec tail i); [lia|]. simpl in Hk.
    destruct (lookup_lt_is_Some_2 pins i ltac:(lia)) as [b Hb]. rewrite Hb in *. simpl in Hk. congruence.
  - intros [Hi Hp]. rewrite Hp. simpl. rewrite orb_false_r. split; [|lia]. by destruct (Nat.leb_spec tail i); [lia|].
Qed.

Lemma head_rest_length : length head + length rest = tail.
Proof.
  unfold head, rest. generalize (keeps pins tail). intros k. clear.
  assert (∀ l, length (filter (λ i, k i = true) l) + length (filter (λ i, k i = false) l) = length l) as H.
  { induction l as [|x l IH]; [done|]. rewrite !filter_cons. destruct (k x) eqn:Hx; simpl; lia. }
  by rewrite H, length_seq.
Qed.

(** The projection counts the kept set. *)
Lemma projected_cost :
  cp_projected_tokens plan = u64_saturating_add fixed (sum (tokens_at ms (cp_kept plan))) ∧
  cp_projected_tokens plan = tail_cost ms pins fixed tail.
Proof.
  assert (nsum (tokens_at ms (cp_kept plan)) = (pinned_weight ms pins tail + suffix_weight ms tail)%N) as Hk.
  { rewrite kept_split. unfold tokens_at. rewrite fmap_app, nsum_app. f_equal.
    - apply nsum_tokens_head; [apply Hpins|pose proof tail_lt; lia|done].
    - apply nsum_tokens_suffix. }
  change (cp_projected_tokens plan) with (u64_saturating_add (ci_tool_tokens input)
    (u64_saturating_add (ci_stub_tokens input) (sum (tokens_at ms (cp_kept plan))))).
  rewrite sum_spec, Hk. unfold tail_cost, fixed, u64_saturating_add. lia.
Qed.

Lemma head_cost :
  u64_saturating_add fixed (sum (tokens_at ms head)) = N.min (fixed + pinned_weight ms pins tail) u64_max.
Proof.
  rewrite sum_spec. unfold head. rewrite nsum_tokens_head; [|apply Hpins|pose proof tail_lt; lia|done].
  unfold u64_saturating_add. lia.
Qed.

Lemma fill_consistent : fill_holds ms plan fixed low = true.
Proof.
  unfold fill_holds. rewrite (proj2 projected_cost), stub_slot_head, kept_split, take_app_length, head_cost.
  change (cp_fill plan) with fill. unfold tail_choice, fits in Hchoice. destruct fill.
  - apply N.leb_le, Hchoice.
  - destruct Hchoice as [Hno Hh]. destruct (Hno tail Htail) as [Hn _]. rewrite andb_true_iff, negb_true_iff, N.leb_gt, N.leb_le. lia.
  - destruct Hchoice as [Hno Hh]. destruct (Hno tail Htail) as [Hn _]. rewrite andb_true_iff, negb_true_iff, N.leb_gt, N.ltb_lt. lia.
Qed.

(** A call and its result are on the same side of the tail, and never pinned. *)
Lemma pair_same_side j c :
  call_of_each_result ms !! j = Some (Some c) → keeps pins tail c = keeps pins tail j.
Proof.
  intros Hj. destruct Htail as (_ & _ & _ & _ & Hspan). specialize (Hspan j c Hj).
  apply call_of_each_result_spec in Hj as (Hlt & (mj & call & Hmj & Hrj) & (mc & calls & Hmc & Hrc)).
  assert (∀ i m, ms !! i = Some m → match pm_role m with PAssistant _ | PToolResult _ => True | _ => False end →
            default false (pins !! i) = false) as Hnp.
  { intros i m Hm Hr. destruct (pins !! i) as [[]|] eqn:Hp; try done.
    pose proof (proj2 Hpins i m Hm Hp) as Hok. by destruct (pm_role m). }
  unfold keeps. rewrite (Hnp c mc), (Hnp j mj), !orb_false_r; [|done|by rewrite Hrj|done|by rewrite Hrc].
  destruct (Nat.leb_spec tail c), (Nat.leb_spec tail j); lia || done.
Qed.

Lemma kept_real i : i ∈ cp_kept plan → real ms i = true.
Proof.
  intros [Hi Hk]%elem_of_kept. destruct (lookup_lt_is_Some_2 ms i Hi) as [m Hm]. unfold real. rewrite Hm.
  destruct (is_stub m) eqn:Hs; [|done]. exfalso. unfold keeps in Hk.
  destruct (Nat.leb_spec tail i) as [Hle|Hlt]; simpl in Hk.
  - destruct Htail as (_ & Hps & _ & _). unfold past_stubs in Hps.
    destruct (rposition is_stub ms) as [s|] eqn:Hr.
    + apply rposition_Some in Hr as [_ Hr]. rewrite (Hr i m) in Hs; [done|lia|done].
    + rewrite (rposition_None _ _ Hr m) in Hs; [done|]. by eapply list_elem_of_lookup_2.
  - destruct (pins !! i) as [[]|] eqn:Hp; try done. pose proof (proj2 Hpins i m Hm Hp) as Hok.
    unfold is_stub in Hs. by destruct (pm_role m).
Qed.

Lemma archived_something : existsb (real ms) rest = true.
Proof.
  destruct Htail as (_ & _ & (a & Hlt & Ha) & _). apply existsb_exists. exists a.
  unfold archivable in Ha. destruct (ms !! a) as [m|] eqn:Hm; [|done].
  destruct (pins !! a) as [p|] eqn:Hp; [|done].
  assert (p = false ∧ real ms a = true) as [-> Hr].
  { unfold real, is_stub. rewrite Hm. by destruct (pm_role m), p. }
  split; [|done]. apply list_elem_of_In, elem_of_rest. done.
Qed.

Lemma plan_invariants : invariants_hold ms pins plan fixed low = true.
Proof.
  unfold invariants_hold. pose proof tail_lt as Ht.
  destruct (mark_kept_spec (cp_kept plan) (replicate (length ms) false)) as (kept & -> & Hkl & Hkept).
  { apply Forall_forall. intros i Hi%list_elem_of_In. rewrite length_replicate. by apply elem_of_kept. }
  rewrite length_replicate in Hkl, Hkept.
  assert (∀ i, i < length ms → kept !! i = Some (keeps pins tail i)) as Hk.
  { intros i Hi. rewrite Hkept by done. destruct (decide (i ∈ cp_kept plan)) as [[_ ->]%elem_of_kept|Hn]; [done|].
    rewrite lookup_replicate_2 by done. f_equal. destruct (keeps pins tail i) eqn:E; [|done].
    destruct Hn. by apply elem_of_kept. }
  rewrite archived_flat, stub_slot_head. repeat (apply andb_true_intro; split).
  - apply forallb_forall. intros i Hi%list_elem_of_In. apply bool_decide_eq_true.
    unfold rest in Hi. apply list_elem_of_filter in Hi as [Hi0 Hi%elem_of_seq]. rewrite Hk by lia. by rewrite Hi0.
  - rewrite kept_split, length_app, length_seq. apply Nat.eqb_eq. pose proof head_rest_length. lia.
  - apply strictly_ascending_sorted. unfold plan, plan_of. simpl. apply filter_seq_sorted.
  - apply forallb_forall. intros [p k] Hin%list_elem_of_In. apply list_elem_of_lookup in Hin as [i Hi].
    rewrite lookup_zip_with in Hi. destruct (pins !! i) as [p'|] eqn:Hp; [|done]. simpl in Hi.
    destruct Hpins as [Hl _]. assert (i < length ms) by (apply lookup_lt_Some in Hp; lia).
    rewrite Hk in Hi by done. simpl in Hi. injection Hi as <- <-. simpl. unfold keeps. rewrite Hp. simpl.
    destruct p'; [by rewrite orb_true_r|by rewrite orb_true_r].
  - rewrite kept_split, length_app. apply Nat.leb_le. lia.
  - rewrite kept_split, drop_app_length, take_app_length. destruct (length ms - tail) as [|n] eqn:Hn; [lia|].
    cbn [seq]. rewrite Hn. repeat (apply andb_true_intro; split).
    + by apply bool_decide_eq_true.
    + apply forallb_forall. intros i Hi%list_elem_of_In. apply bool_decide_eq_true. by apply elem_of_head.
    + destruct Htail as (_ & _ & _ & (m & Hm & Ho) & _). by rewrite Hm.
  - apply forallb_forall. intros i Hi%list_elem_of_In. by apply kept_real.
  - apply archived_something.
  - apply forallb_forall. intros [r o] Hin%list_elem_of_In. apply list_elem_of_lookup in Hin as [i Hi].
    rewrite list_lookup_imap in Hi. destruct (call_of_each_result ms !! i) as [[c|]|] eqn:Hc; simpl in Hi; try done;
      injection Hi as <- <-; [|done]. simpl. apply bool_decide_eq_true.
    pose proof (pair_same_side i c Hc) as Hside.
    apply call_of_each_result_spec in Hc as (Hlt & (m & call & Hm & _) & _). apply lookup_lt_Some in Hm.
    rewrite !Hk by lia. split; [by eauto|by rewrite Hside].
  - apply N.eqb_eq, projected_cost.
  - apply fill_consistent.
Qed.

Lemma CutPlan_new_total : CutPlan_new input pins tail fill low = Some plan.
Proof. unfold CutPlan_new. fold ms. fold plan. fold fixed. by rewrite plan_invariants. Qed.
End plan.

(** * The planner *)

Definition trigger_ok (t : CutTrigger) : Prop := marks_ok (ct_marks t) ∧ u64_ok (ct_ceiling t).

Lemma trigger_marks t :
  trigger_ok t → ∃ w, effective_marks t = Some w ∧ marks_ok w ∧
    wm_high w = N.min (wm_high (ct_marks t)) (N.max (ct_ceiling t) 2).
Proof.
  intros [Hm Hc]. destruct (under_ceiling_ok _ _ Hm Hc) as (w & Heq & Hok & Hh & _). by exists w.
Qed.

(** When a cut is due. *)
Definition due (t : CutTrigger) (w : Watermark) (size : RequestSize) : Prop :=
  (wm_high w ≤ total size)%N ∧
  ((ct_ceiling t < total size)%N ∨
   ∀ after, ct_after_last_cut t = Some after →
     (u64_saturating_add after ((wm_high w - wm_low w) / 2) ≤ rs_message_tokens size)%N).

Lemma is_due_spec t w size :
  effective_marks t = Some w → marks_ok w → ∃ b, is_due t size = Some b ∧ (b = true ↔ due t w size).
Proof.
  intros Hw (? & ? & _). unfold is_due, due. rewrite Hw. cbn [mbind option_bind]. unfold u64_sub.
  destruct (N.leb_spec (wm_low w) (wm_high w)); [|lia]. cbn [mbind option_bind].
  eexists. split; [done|]. rewrite andb_true_iff, orb_true_iff, N.leb_le, N.ltb_lt.
  destruct (ct_after_last_cut t) as [after|]; [rewrite N.leb_le|].
  - split; intros [? [?|Hg]]; (split; [done|]); [by left|right|by left|right]; [by intros ? [= <-]|by apply Hg].
  - split; intros [? [?|Hg]]; (split; [done|]); [by left|by right|by left|by right].
Qed.

(** What a cut must save. *)
Definition needed_saving (t : CutTrigger) (w : Watermark) (size : N) : N :=
  if (ct_ceiling t <? size)%N then 1%N else N.max (wm_high w / MIN_SAVING_DIVISOR) 1.

Lemma min_saving_spec t w size :
  effective_marks t = Some w → min_saving t size = Some (needed_saving t w size).
Proof. intros Hw. unfold min_saving, needed_saving. rewrite Hw. by case_match. Qed.

(** The planner's answer, case by case. *)
Definition cut_outcome (input : CutInput) (w : Watermark) (out : res NoCut CutPlan) : Prop :=
  let ms := ci_messages input in
  let t := ci_trigger input in
  let fixed := u64_saturating_add (ci_tool_tokens input) (ci_stub_tokens input) in
  let size := request_size input in
  match out with
  | Panic => False
  | Err NotDue => ¬ due t w size
  | Err NoUserMessage => due t w size ∧ ∀ m, m ∈ ms → is_user m = false
  | Err NothingArchivable => ∃ pins, pinned ms = Some pins ∧ ∀ i, archivable ms pins i = false
  | Err NoBoundary => ∃ pins, pinned ms = Some pins ∧ ∀ i, ¬ candidate_tail ms pins i
  | Err (SavingTooSmall saving needed) =>
      ∃ pins tail fill, pinned ms = Some pins ∧ candidate_tail ms pins tail ∧
        tail_choice ms pins fixed (wm_low w) tail fill ∧ due t w size ∧
        needed = needed_saving t w (total size) ∧
        saving = (total size - tail_cost ms pins fixed tail)%N ∧ (saving < needed)%N
  | Ok plan =>
      ∃ pins tail fill, pinned ms = Some pins ∧ candidate_tail ms pins tail ∧
        tail_choice ms pins fixed (wm_low w) tail fill ∧ due t w size ∧
        plan = plan_of input pins tail fill ∧
        cp_projected_tokens plan = tail_cost ms pins fixed tail ∧
        (cp_projected_tokens plan + needed_saving t w (total size) ≤ total size)%N
  end.

Lemma plan_cut_spec input w :
  effective_marks (ci_trigger input) = Some w → marks_ok w → cut_outcome input w (plan_cut input).
Proof.
  intros Hw Hok. unfold plan_cut.
  destruct (is_due_spec _ w (request_size input) Hw Hok) as (b & -> & Hdue).
  destruct b; [|by intros ?%Hdue]. pose proof (proj1 Hdue eq_refl) as Hd. rewrite Hw.
  destruct (pinned (ci_messages input)) as [pins|] eqn:Hp.
  2:{ split; [done|]. unfold pinned in Hp.
      destruct (position is_user (ci_messages input)) eqn:Hpos; [done|]. by apply position_None. }
  pose proof (pinned_ok _ _ Hp) as Hpok.
  set (fixed := u64_saturating_add (ci_tool_tokens input) (ci_stub_tokens input)).
  pose proof (tail_start_spec (ci_messages input) pins fixed (wm_low w) (proj1 Hpok) (u64_saturating_add_ok _ _)) as Ht.
  destruct (tail_start _ _ _ _) as [[tail fill]|e|]; [|destruct e; try done; by exists pins|done].
  destruct Ht as [Hcand Hchoice]. rewrite (CutPlan_new_total input pins tail fill (wm_low w) Hpok Hcand Hchoice).
  rewrite (min_saving_spec _ w _ Hw).
  pose proof (projected_cost input pins tail fill Hpok Hcand) as [_ Hcost]. fold fixed in Hcost. rewrite Hcost.
  unfold u64_saturating_sub. set (needed := needed_saving _ _ _).
  destruct (N.leb_spec needed (total (request_size input) - tail_cost (ci_messages input) pins fixed tail)) as [Hs|Hs].
  - exists pins, tail, fill. split_and!; try done. rewrite Hcost. fold needed.
    assert (1 ≤ needed)%N by (unfold needed, needed_saving; case_match; lia). lia.
  - exists pins, tail, fill. split_and!; done.
Qed.
