(* ===== verification/Conversation.v ===== *)
(** Conversations: messages, the origin of the turn each belongs to, the report
    a context ceiling keeps, the read- and edit-side rules, and the watermark
    cut over real messages
    (src/quecto-agentic-harness/src/domain/conversation/services/turn_origin.rs,
    conversation_view.rs, conversation_edit.rs, reply_requirement.rs and
    watermark_cut.rs).

    A message's cached token
    estimate is a field: what the estimator computes from the content is not
    modelled.  Identifiers (UUIDs) are numbers; a constructor that draws a fresh
    one takes it as an argument. *)

From S2P Require Import Prelude Watermark.

Inductive Role := RoleSystem | RoleUser | RoleAssistant | RoleTool.

#[export] Instance Role_eq_dec : EqDecision Role.
Proof. solve_decision. Defined.

Inductive UserKind := Unmarked | KindPrompt | KindArchiveStub.

#[export] Instance UserKind_eq_dec : EqDecision UserKind.
Proof. solve_decision. Defined.

Inductive TurnOrigin := OriginUnknown | Instruction | ProgressNudge | Unrecognised.

#[export] Instance TurnOrigin_eq_dec : EqDecision TurnOrigin.
Proof. solve_decision. Defined.

Record ToolCall := mkToolCall { tc_id : string; tc_name : string; tc_arguments : string }.

(** The fields of [Message] the modelled rules read or write. *)
Record Message := mkMessage {
  m_id : N;
  m_ordinal : option N;
  m_role : Role;
  m_content : text;
  m_tool_calls : list ToolCall;
  m_tool_call_id : option string;
  m_turn : option N;
  m_is_manifest : bool;
  m_turn_origin : TurnOrigin;
  m_user_kind : UserKind;
  m_spill_id : option string;
  m_estimated_tokens : N;
}.

Definition set_turn_origin (o : TurnOrigin) (m : Message) : Message :=
  mkMessage (m_id m) (m_ordinal m) (m_role m) (m_content m) (m_tool_calls m) (m_tool_call_id m) (m_turn m)
    (m_is_manifest m) o (m_user_kind m) (m_spill_id m) (m_estimated_tokens m).

Definition set_ordinal (o : option N) (m : Message) : Message :=
  mkMessage (m_id m) o (m_role m) (m_content m) (m_tool_calls m) (m_tool_call_id m) (m_turn m)
    (m_is_manifest m) (m_turn_origin m) (m_user_kind m) (m_spill_id m) (m_estimated_tokens m).

(** [Message::user] and [Message::system], with the id and estimate they get. *)
Definition Message_user (id estimate : N) (content : text) : Message :=
  mkMessage id None RoleUser content [] None None false OriginUnknown Unmarked None estimate.
Definition Message_system (id estimate : N) (content : text) : Message :=
  mkMessage id None RoleSystem content [] None None false OriginUnknown Unmarked None estimate.

(** * Turn origins (turn_origin.rs) *)

Definition report_rank (o : TurnOrigin) : N :=
  match o with Instruction => 3 | OriginUnknown => 2 | ProgressNudge => 1 | Unrecognised => 0 end.

Definition is_known (o : TurnOrigin) : bool :=
  match o with Instruction | ProgressNudge => true | _ => false end.

Definition is_stamped (o : TurnOrigin) : bool :=
  match o with Instruction | ProgressNudge | Unrecognised => true | OriginUnknown => false end.

Definition opener (id estimate : N) (content : text) (origin : TurnOrigin) : Message :=
  set_turn_origin origin (Message_user id estimate content).

Definition current_phase (messages : list Message) : TurnOrigin :=
  default OriginUnknown (List.find is_known (m_turn_origin <$> rev messages)).

Definition harness_note (id estimate : N) (content : text) (messages : list Message) : Message :=
  opener id estimate content (current_phase messages).

(** The loop of [stamp_turn] over the messages after the opener. *)
Definition stamp (origin : TurnOrigin) (m : Message) : Message :=
  if bool_decide (m_turn_origin m = OriginUnknown) then set_turn_origin origin m else m.

Definition stamp_turn (messages : list Message) (opener_id : N) : list Message * nat :=
  match position (λ m, bool_decide (m_id m = opener_id)) messages with
  | None => (messages, 0)
  | Some start =>
      match messages !! start with
      | None => (messages, 0)
      | Some o =>
          (take (S start) messages ++ (stamp (m_turn_origin o) <$> drop (S start) messages),
           length (filter (λ m, m_turn_origin m = OriginUnknown) (drop (S start) messages)))
      end
  end.

Definition is_substantive_reply (m : Message) : bool :=
  bool_decide (m_role m = RoleAssistant) && bool_decide (m_tool_calls m = []) && negb (is_blank (m_content m)).

(** [report_index] with its candidates as a list of (substantive, origin). *)
Definition report_index (candidates : list (bool * TurnOrigin)) : option nat :=
  let ranks := (λ c, report_rank c.2) <$> filter (λ c, c.1 = true) candidates in
  match ranks with
  | [] => None
  | r :: rs =>
      let best := foldl N.max r rs in
      rposition (λ c, c.1 && (report_rank c.2 =? best)%N) candidates
  end.

Definition transcript_report_index (messages : list Message) (substantive : Message → bool) : option nat :=
  report_index ((λ m, (substantive m, m_turn_origin m)) <$> messages).

Definition opens_turn (m : Message) : bool :=
  bool_decide (m_role m = RoleUser) && bool_decide (m_turn m = None) &&
  match m_user_kind m with KindPrompt | Unmarked => true | KindArchiveStub => false end.

Definition latest_opener (messages : list Message) : option nat := rposition opens_turn messages.

Definition turn_in_flight_start (messages : list Message) : nat :=
  match latest_opener messages with
  | None => length messages
  | Some o =>
      let finished := match messages !! o with
        | Some m => is_stamped (m_turn_origin m) && forallb (λ m, is_stamped (m_turn_origin m)) (drop (S o) messages)
        | None => false
        end in
      if finished then length messages else o
  end.

Definition report_to_keep (messages : list Message) : option nat :=
  let finished := turn_in_flight_start messages in
  match transcript_report_index (take finished messages) is_substantive_reply with
  | None => None
  | Some report =>
      match messages !! report with
      | Some m => if bool_decide (is_Some (m_spill_id m)) then Some report else None
      | None => None
      end
  end.

(** * The read side (conversation_view.rs, reply_requirement.rs) *)

Definition is_real_system (m : Message) : bool :=
  bool_decide (m_role m = RoleSystem) && negb (m_is_manifest m).

Definition is_injected_system_prompt (m : Message) (prompt : text) : bool :=
  bool_decide (prompt ≠ []) && is_real_system m && bool_decide (m_content m = prompt).

Definition inject_system_prompt (id estimate : N) (messages : list Message) (prompt : text) : list Message :=
  if bool_decide (prompt = []) then messages
  else match messages with
       | m :: _ => if is_real_system m then messages else Message_system id estimate prompt :: messages
       | [] => [Message_system id estimate prompt]
       end.

Definition remove_injected_system_prompt (messages : list Message) (prompt : text) : list Message :=
  if bool_decide (prompt = []) then messages
  else match messages with
       | m :: ms =>
           if is_real_system m
              && (bool_decide (m_content m = prompt) || bool_decide (prompt `prefix_of` m_content m))
           then ms else messages
       | [] => messages
       end.

Definition user_visible_messages (messages : list Message) (injected_prompt : text) : list Message :=
  filter (λ m, is_injected_system_prompt m injected_prompt = false) messages.

(** [position_by_id] once the id is parsed. *)
Definition position_by_id (messages : list Message) (target : N) : option nat :=
  position (λ m, bool_decide (m_id m = target)) messages.

Inductive ReplyRequirement := Output | MayBeEmpty.

Definition for_conversation (messages : list Message) : ReplyRequirement :=
  default Output (head (omap (λ m, match m_role m with
    | RoleTool => Some MayBeEmpty
    | RoleUser => Some Output
    | RoleSystem | RoleAssistant => None
    end) (rev messages))).

(** * The edit side (conversation_edit.rs) *)

Definition clear_conversation (messages : list Message) : list Message :=
  match messages with
  | m :: _ => if is_real_system m then take 1 messages else []
  | [] => []
  end.

Inductive RewindTarget := TargetId (id : N) | LegacyIndex (index : nat).

Definition RewindTarget_select (message_id : option N) (legacy_index : option nat) : option RewindTarget :=
  match message_id, legacy_index with
  | Some id, _ => Some (TargetId id)
  | None, Some index => Some (LegacyIndex index)
  | None, None => None
  end.

Inductive RewindTargetError := NotFound | AmbiguousLegacyIndex.

Definition resolve_rewind_target (messages : list Message) (target : RewindTarget) (legacy_index_window : nat)
    : res RewindTargetError nat :=
  match target with
  | TargetId id => match position_by_id messages id with Some i => Ok i | None => Err NotFound end
  | LegacyIndex index => if legacy_index_window <? length messages then Err AmbiguousLegacyIndex else Ok index
  end.

Definition truncate_at_user_message (messages : list Message) (index : nat) : list Message * bool :=
  match messages !! index with
  | None => (messages, false)
  | Some m => if bool_decide (m_role m = RoleUser) then (take index messages, true) else (messages, false)
  end.

(** * The cut over messages (watermark_cut.rs) *)

Definition plan_role (m : Message) : PlanRole :=
  match m_role m, m_user_kind m with
  | RoleSystem, _ => PSystem
  | RoleUser, KindPrompt => PPrompt
  | RoleUser, KindArchiveStub => PArchiveStub
  | RoleUser, Unmarked => if opens_turn m then POpener else PUser
  | RoleAssistant, _ => PAssistant (tc_id <$> m_tool_calls m)
  | RoleTool, _ => PToolResult (default "" (m_tool_call_id m))
  end.

Definition plan_messages (messages : list Message) : list PlanMessage :=
  (λ m, mkPlanMessage (plan_role m) (m_estimated_tokens m)) <$> messages.

(** [&messages[range]] panics out of range. *)
Definition archived_messages (messages : list Message) (plan : CutPlan) : option (list Message) :=
  mapM (λ i, messages !! i) (cp_archived plan ≫= range_indices).

(** The loop that moves each message to the conversation or the archive. *)
Fixpoint distribute (i tail : nat) (kept : list bool) (stub : option Message) (messages : list Message)
    (out archived : list Message) : option (list Message * list Message * option Message) :=
  match messages with
  | [] => Some (out, archived, stub)
  | m :: ms =>
      let '(out, stub) := if i =? tail then (out ++ option_list stub, None) else (out, stub) in
      k ← kept !! i;
      if k : bool then distribute (S i) tail kept stub ms (out ++ [m]) archived
      else distribute (S i) tail kept stub ms out (archived ++ [m])
  end.

(** [apply_cut]: the conversation after the cut and what left it; [None] is a
    failed assertion. *)
Definition apply_cut (messages : list Message) (plan : CutPlan) (stub : Message)
    : option (list Message * list Message) :=
  if bool_decide (m_user_kind stub = KindArchiveStub) then
    gone ← archived_messages messages plan;
    let stub := set_ordinal (iter_max (omap m_ordinal gone)) stub in
    let archived_count := length (cp_archived plan ≫= range_indices) in
    if length (cp_kept plan) + archived_count =? length messages then
      tail ← cp_kept plan !! cp_stub_slot plan;
      kept ← mark_kept (cp_kept plan) (replicate (length messages) false);
      res ← distribute 0 tail kept (Some stub) messages [] [];
      let '(out, archived, remaining) := res in
      match remaining with
      | None => if length archived =? archived_count then Some (out, archived) else None
      | Some _ => None
      end
    else None
  else None.
