(* ===== verification/WatermarkProps.v ===== *)
(** What the watermark cut guarantees: the planner never panics, keeps what a
    running turn needs, cuts no deeper than it must, saves what it promises,
    applies to the conversation it was planned for, and is not due again until
    the conversation has grown. *)

From S2P Require Import Prelude Watermark WatermarkFacts WatermarkPlan Conversation.

(** * A concrete request *)

Definition demo_messages : list Message :=
  let msg id role calls call kind tokens :=
    mkMessage id (Some id) role [] calls call None false OriginUnknown kind None tokens in
  [msg 1%N RoleSystem [] None Unmarked 10%N; msg 2%N RoleUser [] None KindPrompt 10%N;
   msg 3%N RoleAssistant [mkToolCall "a" "read" ""] None Unmarked 30%N;
   msg 4%N RoleTool [] (Some "a") Unmarked 30%N; msg 5%N RoleUser [] None KindPrompt 5%N;
   msg 6%N RoleAssistant [mkToolCall "b" "read" ""] None Unmarked 10%N;
   msg 7%N RoleTool [] (Some "b") Unmarked 10%N; msg 8%N RoleAssistant [] None Unmarked 3%N].

Definition demo_trigger : CutTrigger := mkCutTrigger (mkWatermark 100 45) 200 None.
Definition demo_input : CutInput := mkCutInput (plan_messages demo_messages) 5 4 demo_trigger.
Definition demo_plan : CutPlan := mkCutPlan [0; 1; 4; 7] [(2, 4); (5, 7)] 3 37 32 WithinLow.
Definition demo_stub : Message :=
  mkMessage 9 None RoleUser [] [] None None false OriginUnknown KindArchiveStub None 4.

Lemma demo_trigger_ok : trigger_ok demo_trigger.
Proof. split; [|by vm_compute]. unfold marks_ok. simpl. split_and!; by vm_compute. Qed.

(** * The planner *)

(** C9: for marks the constructor accepts and any ceiling, planning a cut never
    panics: the scaled marks stay valid, the count of open calls never
    underflows, and every invariant a plan asserts about itself holds. *)
Theorem plan_cut_never_panics input : trigger_ok (ci_trigger input) → plan_cut input ≠ Panic.
Proof.
  intros Ht Hp. destruct (trigger_marks _ Ht) as (w & Hw & Hok & _).
  pose proof (plan_cut_spec input w Hw Hok) as H. by rewrite Hp in H.
Qed.

Lemma plan_cut_never_panics_witness : plan_cut demo_input ≠ Panic.
Proof. exact (plan_cut_never_panics demo_input demo_trigger_ok). Defined.

Lemma plan_cut_Ok input plan :
  trigger_ok (ci_trigger input) → plan_cut input = Ok plan →
  ∃ w pins tail fill, effective_marks (ci_trigger input) = Some w ∧ marks_ok w ∧
    pinned (ci_messages input) = Some pins ∧ pins_ok (ci_messages input) pins ∧
    candidate_tail (ci_messages input) pins tail ∧
    tail_choice (ci_messages input) pins
      (u64_saturating_add (ci_tool_tokens input) (ci_stub_tokens input)) (wm_low w) tail fill ∧
    due (ci_trigger input) w (request_size input) ∧ plan = plan_of input pins tail fill ∧
    (cp_projected_tokens plan + needed_saving (ci_trigger input) w (total (request_size input))
     ≤ total (request_size input))%N.
Proof.
  intros Ht Hp. destruct (trigger_marks _ Ht) as (w & Hw & Hok & _).
  pose proof (plan_cut_spec input w Hw Hok) as H. rewrite Hp in H.
  destruct H as (pins & tail & fill & Hpins & Hc & Hch & Hd & Hpl & _ & Hs).
  exists w, pins, tail, fill. split_and!; try done. by apply pinned_ok.
Qed.

(** What a pinned index is. *)
Lemma pinned_lookup ms pins i m :
  pinned ms = Some pins → ms !! i = Some m →
  pm_role m = PSystem ∨ position is_user ms = Some i ∨ rposition is_prompt ms = Some i ∨
    rposition is_opener ms = Some i →
  pins !! i = Some true.
Proof.
  unfold pinned. destruct (position is_user ms) as [first|] eqn:Hfirst; [|done]. cbn [mbind option_bind].
  intros [= <-] Hm Hcase. rewrite list_lookup_imap, Hm. simpl. f_equal.
  destruct Hcase as [->|[[= ->]|[Hl|Ho]]]; [done|..].
  - apply position_Some in Hfirst as [(m' & Hm' & Hu) _]. assert (m' = m) as -> by congruence.
    unfold is_user in Hu. destruct (pm_role m); try done; by rewrite Nat.eqb_refl.
  - pose proof Hl as [(m' & Hm' & Hu) _]%rposition_Some. assert (m' = m) as -> by congruence.
    unfold is_prompt in Hu. destruct (pm_role m); try done.
    rewrite Hl, bool_decide_eq_true_2 by done. by rewrite orb_true_r.
  - pose proof Ho as [(m' & Hm' & Hu) _]%rposition_Some. assert (m' = m) as -> by congruence.
    unfold is_opener in Hu. destruct (pm_role m); try done;
      rewrite Ho, (bool_decide_eq_true_2 (Some i = Some i)) by done; by rewrite orb_true_r.
Qed.

(** C10: a planned cut places every message exactly once, keeping in place every
    system message, the first user message, the latest prompt and the opener of
    the turn in flight; it keeps no earlier stub, archives something that is not
    a stub, and never separates a tool call from its result. *)
Theorem cut_keeps_context input plan :
  trigger_ok (ci_trigger input) → plan_cut input = Ok plan →
  let ms := ci_messages input in
  let archived := cp_archived plan ≫= range_indices in
  (∀ i, i < length ms ↔ (i ∈ cp_kept plan ∧ i ∉ archived) ∨ (i ∈ archived ∧ i ∉ cp_kept plan)) ∧
  (∀ i m, ms !! i = Some m →
     pm_role m = PSystem ∨ position is_user ms = Some i ∨ rposition is_prompt ms = Some i ∨
       rposition is_opener ms = Some i → i ∈ cp_kept plan) ∧
  (∀ i m, i ∈ cp_kept plan → ms !! i = Some m → pm_role m ≠ PArchiveStub) ∧
  (∃ i m, i ∈ archived ∧ ms !! i = Some m ∧ pm_role m ≠ PArchiveStub) ∧
  (∀ r c, call_of_each_result ms !! r = Some (Some c) → (c ∈ cp_kept plan ↔ r ∈ cp_kept plan)).
Proof.
  intros Ht Hp ms archived.
  destruct (plan_cut_Ok input plan Ht Hp) as (w & pins & tail & fill & _ & _ & Hpins & Hpok & Hcand & _ & _ & -> & _).
  pose proof (archived_flat input pins tail fill) as Hflat. fold archived in Hflat.
  assert (∀ i, i ∈ archived ↔ i < tail ∧ pins !! i = Some false) as Harch.
  { intros i. rewrite Hflat. by apply (elem_of_rest input pins tail). }
  assert (∀ i, i ∈ cp_kept (plan_of input pins tail fill) ↔ i < length ms ∧ keeps pins tail i = true) as Hkept
    by apply elem_of_kept.
  pose proof (tail_lt input pins tail Hcand) as Htl. fold ms in Htl. destruct Hpok as [Hlen Hpok'].
  split_and!.
  - intros i. rewrite Hkept, Harch. split.
    + intros Hi. destruct (lookup_lt_is_Some_2 pins i) as [b Hb]; [by rewrite Hlen|]. unfold keeps. rewrite Hb. simpl.
      destruct (Nat.leb_spec tail i); simpl; [left; split; [done|lia]|].
      destruct b; [left; split; [done|by intros [_ ?]]|right]. split; [by split; [lia|]|by intros [_ ?]].
    + intros [[[? _] _]|[[? _] _]]; lia.
  - intros i m Hm Hcase. apply Hkept. split; [by eapply lookup_lt_Some|].
    unfold keeps. rewrite (pinned_lookup ms pins i m Hpins Hm Hcase). by rewrite orb_true_r.
  - intros i m Hi Hm Hr. pose proof (kept_real input pins tail fill (conj Hlen Hpok') Hcand i Hi) as Hreal.
    unfold real, is_stub in Hreal. fold ms in Hreal. by rewrite Hm, Hr in Hreal.
  - pose proof (archived_something input pins tail (conj Hlen Hpok') Hcand) as Hs.
    apply existsb_exists in Hs as (i & Hi & Hr). apply list_elem_of_In in Hi. rewrite <- Hflat in Hi.
    unfold real, is_stub in Hr. fold ms in Hr. destruct (ms !! i) as [m|] eqn:Hm; [|done].
    exists i, m. split_and!; try done. intros Hst. by rewrite Hst in Hr.
  - intros r c Hc. rewrite !Hkept. pose proof (pair_same_side input pins tail (conj Hlen Hpok') Hcand r c Hc) as ->.
    apply call_of_each_result_spec in Hc as (? & (m & call & Hm & _) & _). apply lookup_lt_Some in Hm.
    fold ms in Hm. split; intros [_ ?]; (split; [lia|done]).
Qed.

Lemma cut_keeps_context_witness : 4 ∈ cp_kept demo_plan ∧ (5 ∈ cp_kept demo_plan ↔ 6 ∈ cp_kept demo_plan).
Proof.
  destruct (cut_keeps_context demo_input demo_plan demo_trigger_ok ltac:(by vm_compute)) as (_ & Hpin & _ & _ & Hpair).
  split.
  - eapply (Hpin 4); [by vm_compute|]. right; right; left. by vm_compute.
  - apply (Hpair 6 5). by vm_compute.
Defined.

(** A planned cut is no deeper than it must be: when some candidate tail
    (a boundary past every stub, with something archivable before it) keeps the
    request within the low mark, the kept tail starts at the earliest such
    candidate; when none does, at the newest candidate, and the plan says
    whether the pinned head alone is over the mark. *)
Theorem cut_is_earliest_fitting input plan :
  trigger_ok (ci_trigger input) → plan_cut input = Ok plan →
  ∃ w pins tail, effective_marks (ci_trigger input) = Some w ∧ pinned (ci_messages input) = Some pins ∧
    cp_kept plan !! cp_stub_slot plan = Some tail ∧ candidate_tail (ci_messages input) pins tail ∧
    cp_projected_tokens plan = tail_cost (ci_messages input) pins
      (u64_saturating_add (ci_tool_tokens input) (ci_stub_tokens input)) tail ∧
    tail_choice (ci_messages input) pins
      (u64_saturating_add (ci_tool_tokens input) (ci_stub_tokens input)) (wm_low w) tail (cp_fill plan).
Proof.
  intros Ht Hp.
  destruct (plan_cut_Ok input plan Ht Hp) as (w & pins & tail & fill & Hw & _ & Hpins & Hpok & Hcand & Hch & _ & -> & _).
  exists w, pins, tail. split_and!; try done.
  - rewrite (kept_split input pins tail fill Hcand), (stub_slot_head input pins tail fill Hcand).
    rewrite lookup_app_r, Nat.sub_diag by lia. pose proof (tail_lt input pins tail Hcand).
    by destruct (length (ci_messages input) - tail) eqn:?; [lia|].
  - by apply (projected_cost input pins tail fill Hpok Hcand).
Qed.

Lemma cut_is_earliest_fitting_witness :
  ∃ tail, cp_kept demo_plan !! cp_stub_slot demo_plan = Some tail ∧ tail = 7.
Proof.
  destruct (cut_is_earliest_fitting demo_input demo_plan demo_trigger_ok ltac:(by vm_compute))
    as (w & pins & tail & _ & _ & Ht & _). exists tail. split; [exact Ht|]. vm_compute in Ht. congruence.
Defined.

(** A planned cut shrinks the request by at least a tenth of the high mark
    (any saving at all when the request is over the ceiling), and a cut that
    reaches the low mark is never refused as too small: a refusal means that no
    candidate tail fits within the low mark. *)
Theorem cut_saves_enough input w :
  trigger_ok (ci_trigger input) → effective_marks (ci_trigger input) = Some w →
  match plan_cut input with
  | Ok plan =>
      (wm_high w ≤ total (request_size input))%N ∧
      (cp_projected_tokens plan < total (request_size input))%N ∧
      ((total (request_size input) ≤ ct_ceiling (ci_trigger input))%N →
       (cp_projected_tokens plan + wm_high w / MIN_SAVING_DIVISOR ≤ total (request_size input))%N)
  | Err (SavingTooSmall saving needed) =>
      (saving < needed)%N ∧
      ∀ pins j, pinned (ci_messages input) = Some pins → candidate_tail (ci_messages input) pins j →
        ¬ fits (ci_messages input) pins (u64_saturating_add (ci_tool_tokens input) (ci_stub_tokens input)) (wm_low w) j
  | _ => True
  end.
Proof.
  intros Ht Hw. destruct (trigger_marks _ Ht) as (w' & Hw' & Hok & _). assert (w' = w) as -> by congruence.
  pose proof (plan_cut_spec input w Hw Hok) as H.
  destruct (plan_cut input) as [plan|[| | | |saving needed]|]; try done.
  - destruct H as (pins & tail & fill & _ & _ & _ & [Hhigh _] & _ & _ & Hs). split; [done|].
    unfold needed_saving in Hs. destruct (N.ltb_spec (ct_ceiling (ci_trigger input)) (total (request_size input)));
      [|unfold MIN_SAVING_DIVISOR in *]; lia.
  - destruct H as (pins & tail & fill & Hpins & Hcand & Hch & [Hhigh _] & -> & -> & Hlt). split; [done|].
    intros pins' j Hpins' Hj. assert (pins' = pins) as -> by congruence. clear Hpins'.
    destruct fill; [|by apply (proj1 Hch)..]. exfalso. destruct Hch as [Hfit _]. unfold fits in Hfit.
    destruct Hok as (? & ? & Hgap & _). unfold needed_saving, MIN_SAVING_DIVISOR in *.
    destruct (N.ltb_spec (ct_ceiling (ci_trigger input)) (total (request_size input))); lia.
Qed.

Lemma cut_saves_enough_witness : (37 < 113)%N.
Proof.
  pose proof (cut_saves_enough demo_input (mkWatermark 100 45) demo_trigger_ok ltac:(by vm_compute)) as H.
  assert (plan_cut demo_input = Ok demo_plan) as Hp by (by vm_compute). rewrite Hp in H.
  exact (proj1 (proj2 H)).
Defined.

(** * Making the cut *)

(** The messages, numbered from [i], that [f] selects. *)
Fixpoint pick (f : nat → bool) (i : nat) (ms : list Message) : list Message :=
  match ms with
  | [] => []
  | m :: ms' => if f i then m :: pick f (S i) ms' else pick f (S i) ms'
  end.

Lemma pick_ext f g i ms : (∀ j, i ≤ j < i + length ms → f j = g j) → pick f i ms = pick g i ms.
Proof.
  revert i. induction ms as [|m ms IH]; intros i H; simpl; [done|]. simpl in H.
  rewrite (H i) by lia. rewrite IH by (intros; apply H; lia). done.
Qed.

Lemma pick_all f i ms : (∀ j, i ≤ j < i + length ms → f j = true) → pick f i ms = ms.
Proof.
  revert i. induction ms as [|m ms IH]; intros i H; simpl; [done|]. simpl in H.
  rewrite H by lia. by rewrite IH by (intros; apply H; lia).
Qed.

Lemma pick_none f i ms : (∀ j, i ≤ j < i + length ms → f j = false) → pick f i ms = [].
Proof.
  revert i. induction ms as [|m ms IH]; intros i H; simpl; [done|]. simpl in H.
  rewrite H by lia. by rewrite IH by (intros; apply H; lia).
Qed.

Lemma pick_app f i l1 l2 : pick f i (l1 ++ l2) = pick f i l1 ++ pick f (i + length l1) l2.
Proof.
  revert i. induction l1 as [|m l1 IH]; intros i; simpl; [by rewrite Nat.add_0_r|].
  rewrite IH. replace (i + S (length l1)) with (S i + length l1) by lia. by destruct (f i).
Qed.

Lemma pick_sublist f i ms : pick f i ms `sublist_of` ms.
Proof. revert i. induction ms as [|m ms IH]; intros i; simpl; [done|]. destruct (f i); by constructor. Qed.

Lemma elem_of_pick f m : ∀ ms i,
  m ∈ pick f i ms ↔ ∃ j, ms !! j = Some m ∧ f (i + j) = true.
Proof.
  induction ms as [|x ms IH]; intros i; simpl.
  - split; [by intros ?%not_elem_of_nil|]. by intros (j & ? & _).
  - assert (m ∈ pick f (S i) ms ↔ ∃ j, (x :: ms) !! S j = Some m ∧ f (i + S j) = true) as Hs.
    { rewrite IH. simpl. split; intros (j & ? & Hj); exists j; (split; [done|]);
        by replace (i + S j) with (S i + j) in * by lia. }
    destruct (f i) eqn:HK; [rewrite elem_of_cons|]; rewrite Hs; split.
    + intros [->|(j & ? & ?)]; [exists 0; by rewrite Nat.add_0_r|by exists (S j)].
    + intros ([|j] & Hj & ?); [left; simpl in Hj; congruence|right; by exists j].
    + intros (j & ? & ?). by exists (S j).
    + intros ([|j] & Hj & Hk); [rewrite Nat.add_0_r in Hk; congruence|by exists j].
Qed.

Lemma pick_partition f i ms : ms ≡ₚ pick f i ms ++ pick (λ j, negb (f j)) i ms.
Proof.
  revert i. induction ms as [|m ms IH]; intros i; simpl; [done|]. destruct (f i); simpl.
  - by constructor.
  - rewrite <- Permutation_middle. by constructor.
Qed.

(** The messages at ascending indices are those the indices select. *)
Lemma mapM_pick f i n (ms : list Message) :
  i + n = length ms →
  mapM (λ j, ms !! j) (filter (λ j, f j = true) (seq i n)) = Some (pick f i (drop i ms)).
Proof.
  revert i. induction n as [|n IH]; intros i Hi.
  { rewrite drop_ge by lia. done. }
  destruct (lookup_lt_is_Some_2 ms i ltac:(lia)) as [m Hm]. cbn [seq]. rewrite filter_cons, (drop_S _ _ _ Hm).
  cbn [pick]. specialize (IH (S i) ltac:(lia)).
  destruct (f i); simpl; [rewrite Hm, IH|rewrite IH]; done.
Qed.

Lemma distribute_spec f tail kept ms : ∀ i stub out archived,
  (∀ j, i ≤ j < i + length ms → kept !! j = Some (f j)) → i ≤ tail < i + length ms →
  distribute i tail kept (Some stub) ms out archived
  = Some (out ++ pick f i (take (tail - i) ms) ++ [stub] ++ pick f tail (drop (tail - i) ms),
          archived ++ pick (λ j, negb (f j)) i ms, None).
Proof.
  assert (∀ ms i out archived, tail < i → (∀ j, i ≤ j < i + length ms → kept !! j = Some (f j)) →
    distribute i tail kept None ms out archived
    = Some (out ++ pick f i ms, archived ++ pick (λ j, negb (f j)) i ms, None)) as Hafter.
  { clear ms. induction ms as [|m ms IH]; intros i out archived Hi Hk; simpl; [by rewrite !app_nil_r|].
    simpl in Hk. destruct (Nat.eqb_spec i tail) as [|_]; [lia|]. rewrite Hk by lia. cbn [mbind option_bind].
    destruct (f i); simpl; (rewrite IH; [by rewrite <- ?app_assoc|lia|intros; apply Hk; lia]). }
  induction ms as [|m ms IH]; intros i stub out archived Hk Ht; simpl in *; [lia|].
  destruct (Nat.eqb_spec i tail) as [->|Hne].
  - rewrite Hk by lia. cbn [mbind option_bind]. rewrite Nat.sub_diag. simpl.
    destruct (f tail); simpl; (rewrite Hafter; [by rewrite <- ?app_assoc|lia|intros; apply Hk; lia]).
  - rewrite Hk by lia. cbn [mbind option_bind]. destruct (tail - i) as [|k] eqn:Hki; [lia|]. simpl.
    assert (tail - S i = k) as Hk' by lia.
    destruct (f i); simpl; (rewrite IH; [rewrite Hk'; by rewrite <- ?app_assoc|intros; apply Hk; lia|lia]).
Qed.

Lemma filter_false_negb (f : nat → bool) (l : list nat) :
  filter (λ i, f i = false) l = filter (λ i, negb (f i) = true) l.
Proof. apply list_filter_iff. intros i. by rewrite negb_true_iff. Qed.

Section apply.
Context (messages : list Message) (pins : list bool) (tail : nat) (fill : Fill).
Context (tool_tokens stub_tokens : N) (t : CutTrigger).
Let input := mkCutInput (plan_messages messages) tool_tokens stub_tokens t.
Context (Hpins : pins_ok (ci_messages input) pins) (Hcand : candidate_tail (ci_messages input) pins tail).
Let plan := plan_of input pins tail fill.

Lemma length_plan_messages : length (plan_messages messages) = length messages.
Proof. apply length_fmap. Qed.

Lemma tail_in_range : tail < length messages.
Proof. rewrite <- length_plan_messages. apply (tail_lt input pins tail Hcand). Qed.

Lemma archived_messages_pick :
  archived_messages messages plan = Some (pick (λ i, negb (keeps pins tail i)) 0 messages).
Proof.
  pose proof (archived_flat input pins tail fill) as Hflat. fold plan in Hflat.
  unfold archived_messages. rewrite Hflat, filter_false_negb.
  rewrite <- (mapM_pick _ 0 (length messages) messages eq_refl). f_equal.
  pose proof tail_in_range. replace (length messages) with (tail + (length messages - tail)) by lia.
  rewrite seq_app, list.filter_app. rewrite <- (app_nil_r (filter _ (seq 0 tail))) at 1. f_equal.
  symmetry. apply elem_of_nil_inv. intros i [Hk Hi%elem_of_seq]%list_elem_of_filter. unfold keeps in Hk.
  by destruct (Nat.leb_spec tail i); [|lia].
Qed.

Lemma apply_cut_run stub :
  m_user_kind stub = KindArchiveStub →
  let gone := pick (λ i, negb (keeps pins tail i)) 0 messages in
  apply_cut messages plan stub =
  Some (pick (keeps pins tail) 0 (take tail messages)
        ++ [set_ordinal (iter_max (omap m_ordinal gone)) stub] ++ drop tail messages, gone).
Proof.
  intros Hstub gone. unfold apply_cut. rewrite bool_decide_eq_true_2 by done.
  rewrite archived_messages_pick. cbn [mbind option_bind]. fold gone.
  pose proof tail_in_range as Ht. pose proof length_plan_messages as Hlen.
  pose proof (archived_flat input pins tail fill) as Hflat. fold plan in Hflat.
  pose proof (kept_split input pins tail fill Hcand) as Hkept. fold plan in Hkept.
  pose proof (stub_slot_head input pins tail fill Hcand) as Hslot. fold plan in Hslot.
  pose proof (head_rest_length pins tail) as Hhr. cbn [ci_messages input] in Hkept. rewrite Hlen in Hkept.
  assert (length (cp_kept plan) + length (cp_archived plan ≫= range_indices) = length messages) as Hcount.
  { rewrite Hflat, Hkept, length_app, length_seq. lia. }
  rewrite Hcount, Nat.eqb_refl, Hslot, Hkept, lookup_app_r, Nat.sub_diag, lookup_seq_lt by lia.
  rewrite <- Hkept. cbn [mbind option_bind]. rewrite Nat.add_0_r.
  destruct (mark_kept_spec (cp_kept plan) (replicate (length messages) false)) as (kept & -> & _ & Hk).
  { apply Forall_forall. intros i Hi%list_elem_of_In. rewrite length_replicate, <- Hlen.
    by apply (elem_of_kept input pins tail fill). }
  cbn [mbind option_bind]. rewrite (distribute_spec (keeps pins tail) tail kept messages 0).
  2:{ intros j Hj. rewrite length_replicate in Hk. rewrite Hk by lia.
      pose proof (elem_of_kept input pins tail fill j) as Hej. fold plan in Hej. cbn [ci_messages input] in Hej.
      rewrite Hlen in Hej. destruct (decide (j ∈ cp_kept plan)) as [[_ ->]%Hej|Hn]; [done|].
      rewrite lookup_replicate_2 by lia. f_equal. destruct (keeps pins tail j); [|done].
      destruct Hn. apply Hej. split; [lia|done]. }
  2: lia.
  cbn [mbind option_bind]. rewrite Nat.sub_0_r. simpl app. fold gone.
  assert (length gone = length (cp_archived plan ≫= range_indices)) as ->.
  { pose proof archived_messages_pick as Ha. unfold archived_messages in Ha. apply length_mapM in Ha. by rewrite Ha. }
  rewrite Nat.eqb_refl. do 4 f_equal. apply pick_all. intros j Hj. unfold keeps.
  by destruct (Nat.leb_spec tail j); [|lia].
Qed.
End apply.

(** A planned cut applies to the conversation it was planned for: what
    leaves it and what stays partition the messages, in their order; the stub
    goes right before a whole suffix, numbered as the newest message it
    replaces; every system message stays; and the stub is the only stub left. *)
Theorem cut_applies messages tool_tokens stub_tokens t plan stub :
  trigger_ok t → plan_cut (mkCutInput (plan_messages messages) tool_tokens stub_tokens t) = Ok plan →
  m_user_kind stub = KindArchiveStub →
  ∃ head tail gone,
    apply_cut messages plan stub
      = Some (head ++ [set_ordinal (iter_max (omap m_ordinal gone)) stub] ++ tail, gone) ∧
    length head = cp_stub_slot plan ∧ tail `suffix_of` messages ∧ tail ≠ [] ∧
    head ++ tail `sublist_of` messages ∧ gone `sublist_of` messages ∧ gone ≠ [] ∧
    messages ≡ₚ gone ++ head ++ tail ∧
    (∀ m, m ∈ head ++ tail → plan_role m ≠ PArchiveStub) ∧
    (∀ m, m ∈ messages → m_role m = RoleSystem → m ∈ head ++ tail).
Proof.
  intros Ht Hp Hstub. set (input := mkCutInput _ _ _ _) in Hp.
  destruct (plan_cut_Ok input plan Ht Hp) as (w & pins & tail & fill & _ & _ & Hpins & Hpok & Hcand & _ & _ & Hpl & _).
  pose proof (tail_in_range messages pins tail tool_tokens stub_tokens t Hcand) as Hlt.
  set (K := keeps pins tail).
  exists (pick K 0 (take tail messages)), (drop tail messages), (pick (λ i, negb (K i)) 0 messages).
  assert (pick K 0 messages = pick K 0 (take tail messages) ++ drop tail messages) as Hsplit.
  { rewrite <- (take_drop tail messages) at 1. rewrite pick_app. f_equal. apply pick_all. intros j Hj.
    rewrite length_take in Hj. unfold K, keeps. by destruct (Nat.leb_spec tail j); [|lia]. }
  pose proof (λ m, elem_of_pick K m messages 0) as Hin. cbn [Nat.add] in Hin.
  rewrite <- Hsplit. split_and!.
  - rewrite Hpl. by apply apply_cut_run.
  - rewrite Hpl, (stub_slot_head input pins tail fill Hcand).
    pose proof (mapM_pick K 0 tail (take tail messages)) as Hm. rewrite length_take, Nat.min_l in Hm by lia.
    specialize (Hm eq_refl). apply length_mapM in Hm. rewrite drop_0 in Hm. by rewrite <- Hm.
  - apply suffix_drop.
  - intros He. apply (f_equal length) in He. rewrite length_drop in He. simpl in He. lia.
  - apply pick_sublist.
  - apply pick_sublist.
  - pose proof (archived_something input pins tail Hpok Hcand) as Hsome.
    rewrite <- (archived_flat input pins tail fill) in Hsome.
    intros He. pose proof (archived_messages_pick messages pins tail fill tool_tokens stub_tokens t Hcand) as Ha.
    fold K in Ha. rewrite He in Ha. unfold archived_messages in Ha. apply length_mapM in Ha. fold input in Ha.
    by destruct (cp_archived _ ≫= _).
  - rewrite (Permutation_app_comm (pick (λ i, negb (K i)) 0 messages)). apply pick_partition.
  - intros m (i & Hi & Hk)%Hin Hr.
    assert (i ∈ cp_kept (plan_of input pins tail fill)) as Hreal%(kept_real input pins tail fill Hpok Hcand).
    { apply elem_of_kept. split; [|done]. simpl. rewrite length_plan_messages. by eapply lookup_lt_Some. }
    unfold real, is_stub in Hreal. simpl in Hreal. unfold plan_messages in Hreal.
    rewrite list_lookup_fmap, Hi in Hreal. simpl in Hreal. by rewrite Hr in Hreal.
  - intros m Hm Hr. apply Hin. apply list_elem_of_lookup in Hm as [i Hi]. exists i. split; [done|].
    unfold K, keeps. rewrite (pinned_lookup _ pins i (mkPlanMessage (plan_role m) (m_estimated_tokens m)) Hpins).
    + by rewrite orb_true_r.
    + simpl. unfold plan_messages. by rewrite list_lookup_fmap, Hi.
    + left. simpl. unfold plan_role. by rewrite Hr.
Qed.

Lemma cut_applies_witness :
  ∃ head tail gone, apply_cut demo_messages demo_plan demo_stub
    = Some (head ++ [set_ordinal (iter_max (omap m_ordinal gone)) demo_stub] ++ tail, gone) ∧ length head = 3.
Proof.
  destruct (cut_applies demo_messages 5 4 demo_trigger demo_plan demo_stub demo_trigger_ok
              ltac:(by vm_compute) eq_refl) as (head & tail & gone & H & Hl & _).
  exists head, tail, gone. split; [exact H|exact Hl].
Defined.

(** * The storm guard *)

Lemma tokens_of_pick messages f :
  tokens_at (plan_messages messages) (filter (λ i, f i = true) (seq 0 (length messages)))
  = m_estimated_tokens <$> pick f 0 messages.
Proof.
  pose proof (mapM_pick f 0 (length messages) messages eq_refl) as Hm. rewrite drop_0 in Hm.
  apply mapM_Some in Hm. unfold tokens_at, plan_messages.
  induction Hm as [|i m l k Hi _ IH]; [done|]. rewrite !fmap_cons. f_equal; [|exact IH].
  by rewrite list_lookup_fmap, Hi.
Qed.

(** After a cut was made, a request whose messages have grown by less than
    half the gap between the marks, and that still fits the ceiling, is not due
    for another cut. *)
Theorem no_cut_storm messages tool_tokens stub_tokens t plan stub out gone more tool_tokens' w :
  trigger_ok t → plan_cut (mkCutInput (plan_messages messages) tool_tokens stub_tokens t) = Ok plan →
  apply_cut messages plan stub = Some (out, gone) → (m_estimated_tokens stub ≤ stub_tokens)%N →
  effective_marks t = Some w →
  (nsum (m_estimated_tokens <$> more) < (wm_high w - wm_low w) / 2)%N →
  (ct_ceiling t < u64_max)%N →
  let size := request_size (mkCutInput (plan_messages (out ++ more)) tool_tokens' stub_tokens (after_cut t plan)) in
  (total size ≤ ct_ceiling t)%N → is_due (after_cut t plan) size = Some false.
Proof.
  intros Ht Hp Hap Hst Hw Hmore Hceil size Htot. set (input := mkCutInput (plan_messages messages) _ _ _) in Hp.
  destruct (plan_cut_Ok input plan Ht Hp) as (w' & pins & tail & fill & Hw' & Hok & _ & Hpok & Hcand & _ & _ & Hpl & Hsave).
  assert (w' = w) as -> by (simpl in Hw'; congruence). clear Hw'.
  assert (m_user_kind stub = KindArchiveStub) as Hkind.
  { unfold apply_cut in Hap. by case_bool_decide. }
  pose proof (apply_cut_run messages pins tail fill tool_tokens stub_tokens t Hcand stub Hkind) as Hrun.
  cbv zeta in Hrun. fold input in Hrun. rewrite <- Hpl, Hap in Hrun. clear Hap.
  injection Hrun as -> _.
  assert (effective_marks (after_cut t plan) = Some w) as Hw2 by done.
  destruct (is_due_spec (after_cut t plan) w size Hw2 Hok) as (b & -> & Hb). f_equal. destruct b; [|done].
  destruct (proj1 Hb eq_refl) as [_ [Hc|Hgrown]]; [simpl in Hc; lia|]. specialize (Hgrown _ eq_refl). exfalso.
  set (P := nsum (m_estimated_tokens <$> pick (keeps pins tail) 0 messages)).
  assert (cp_projected_message_tokens plan = N.min (stub_tokens + P) u64_max) as Hproj.
  { rewrite Hpl. unfold plan_of. simpl. rewrite length_plan_messages, tokens_of_pick, sum_spec. fold P.
    unfold u64_saturating_add. lia. }
  assert (rs_message_tokens size ≤ N.min (stub_tokens + P + nsum (m_estimated_tokens <$> more)) u64_max)%N as Hsize.
  { unfold size, request_size. cbn [rs_message_tokens ci_messages]. rewrite sum_spec. unfold plan_messages.
    rewrite <- list_fmap_compose. cbn [compose pm_tokens].
    assert (P = nsum (m_estimated_tokens <$> pick (keeps pins tail) 0 (take tail messages))
                + nsum (m_estimated_tokens <$> drop tail messages))%N as ->.
    { unfold P. rewrite <- (take_drop tail messages) at 1. rewrite pick_app, fmap_app, nsum_app. f_equal.
      f_equal. f_equal. apply pick_all. intros j Hj. rewrite length_take in Hj.
      pose proof (tail_in_range messages pins tail tool_tokens stub_tokens t Hcand).
      unfold keeps. by destruct (Nat.leb_spec tail j); [|lia]. }
    change (pm_tokens ∘ λ m, mkPlanMessage (plan_role m) (m_estimated_tokens m)) with m_estimated_tokens.
    rewrite !fmap_app, !nsum_app. cbn [fmap list_fmap nsum foldr m_estimated_tokens set_ordinal].
    fold (nsum (m_estimated_tokens <$> drop tail messages)). lia. }
  assert (rs_message_tokens size ≤ total size)%N as Hle.
  { unfold total, u64_saturating_add. assert (rs_message_tokens size ≤ u64_max)%N; [|lia]. lia. }
  assert (cp_projected_message_tokens plan < u64_max)%N as Hlt.
  { assert (cp_projected_message_tokens plan ≤ cp_projected_tokens plan)%N as H1.
    { rewrite Hpl. unfold plan_of. simpl. unfold u64_saturating_add at 2. unfold u64_saturating_add. lia. }
    assert (total (request_size input) ≤ u64_max)%N as H2 by apply u64_saturating_add_ok.
    assert (1 ≤ needed_saving t w (total (request_size input)))%N by (unfold needed_saving; case_match; lia).
    cbn [input ci_trigger] in Hsave. lia. }
  unfold u64_saturating_add in Hgrown. lia.
Qed.

(** The conversation the demonstration cut leaves. *)
Definition demo_cut : list Message * list Message :=
  match apply_cut demo_messages demo_plan demo_stub with Some r => r | None => ([], []) end.

Lemma no_cut_storm_witness :
  is_due (after_cut demo_trigger demo_plan)
    (request_size (mkCutInput (plan_messages (demo_cut.1 ++ [])) 90 4 (after_cut demo_trigger demo_plan))) = Some false.
Proof.
  refine (no_cut_storm demo_messages 5 4 demo_trigger demo_plan demo_stub demo_cut.1 demo_cut.2 [] 90 (mkWatermark 100 45)
            demo_trigger_ok _ _ _ _ _ _ _); by vm_compute.
Defined.
