(* ===== verification/ConversationProps.v ===== *)
(** Which reply is an agent's report, when a turn is finished, and what the
    injected system prompt and the edits of a conversation do to it. *)

From S2P Require Import Prelude Watermark Conversation.

(** * The report *)

Lemma report_index_spec candidates i :
  report_index candidates = Some i →
  ∃ o, candidates !! i = Some (true, o) ∧
    ∀ j o', candidates !! j = Some (true, o') →
      (report_rank o' ≤ report_rank o)%N ∧ (report_rank o' = report_rank o → j ≤ i).
Proof.
  unfold report_index. set (l := filter _ _). destruct (_ <$> l) as [|r rs] eqn:Hranks; [done|].
  set (best := foldl N.max r rs). intros [([b o] & Hi & Hok) Hlast]%rposition_Some. simpl in Hok.
  apply andb_prop in Hok as [-> Hbest%N.eqb_eq]. exists o. split; [done|]. intros j o' Hj.
  assert (report_rank o' ≤ best)%N as Hle.
  { assert (report_rank o' ∈ r :: rs) as Hin.
    { rewrite <- Hranks. apply list_elem_of_fmap. exists (true, o'). split; [done|].
      apply list_elem_of_filter. split; [done|]. by eapply list_elem_of_lookup_2. }
    destruct (foldl_max_spec rs r) as (_ & Hr & Hrs). apply elem_of_cons in Hin as [->|Hin]; [done|by apply Hrs]. }
  split; [lia|]. intros Heq. destruct (Nat.lt_ge_cases i j) as [Hlt|]; [|done].
  specialize (Hlast j (true, o') Hlt Hj). simpl in Hlast. apply N.eqb_neq in Hlast. lia.
Qed.

(** The report a context ceiling keeps is a substantive reply of a finished
    turn that can be recalled; no substantive reply of a finished turn has a
    better-ranked origin, and none of the same rank is later. *)
Theorem report_kept_is_best messages i :
  report_to_keep messages = Some i →
  ∃ m, messages !! i = Some m ∧ i < turn_in_flight_start messages ∧
    is_substantive_reply m = true ∧ is_Some (m_spill_id m) ∧
    ∀ j m', j < turn_in_flight_start messages → messages !! j = Some m' → is_substantive_reply m' = true →
      (report_rank (m_turn_origin m') ≤ report_rank (m_turn_origin m))%N ∧
      (report_rank (m_turn_origin m') = report_rank (m_turn_origin m) → j ≤ i).
Proof.
  unfold report_to_keep. set (n := turn_in_flight_start messages).
  destruct (transcript_report_index _ _) as [k|] eqn:Hk; [|done].
  destruct (messages !! k) as [m|] eqn:Hm; [|done]. case_bool_decide as Hsp; [|done]. intros [= <-].
  unfold transcript_report_index in Hk. apply report_index_spec in Hk as (o & Hi & Hbest).
  rewrite list_lookup_fmap in Hi. destruct (take n messages !! k) as [m0|] eqn:Ht; [|done].
  pose proof Ht as Htk. apply lookup_take_Some in Ht as [Hm0 Hlt]. assert (m0 = m) as -> by congruence.
  simpl in Hi. injection Hi as Hs <-. exists m. split_and!; try done. intros j m' Hj Hm' Hs'.
  apply Hbest. rewrite list_lookup_fmap, lookup_take_lt, Hm' by done. simpl. by rewrite Hs'.
Qed.

(** * Finished turns *)

Lemma opens_turn_stamp o m : opens_turn (stamp o m) = opens_turn m.
Proof. unfold stamp. by case_bool_decide. Qed.

Lemma rposition_fmap {A B} (f : B → bool) (g : A → B) l : rposition f (g <$> l) = rposition (f ∘ g) l.
Proof. induction l as [|x l IH]; [done|]. rewrite fmap_cons. cbn [rposition]. by rewrite IH. Qed.

Lemma rposition_app {A} (f : A → bool) l1 l2 :
  rposition f (l1 ++ l2) = match rposition f l2 with
                           | Some i => Some (length l1 + i)
                           | None => rposition f l1
                           end.
Proof.
  induction l1 as [|x l1 IH]; simpl; [by destruct (rposition f l2)|].
  rewrite IH. destruct (rposition f l2); [done|]. by destruct (rposition f l1).
Qed.

Lemma rposition_ext {A} (f g : A → bool) l : (∀ x, f x = g x) → rposition f l = rposition g l.
Proof. intros H. induction l as [|x l IH]; simpl; [done|]. by rewrite IH, H. Qed.

Lemma stamp_stamped o m : is_stamped o = true → is_stamped (m_turn_origin (stamp o m)) = true.
Proof. intros Ho. unfold stamp. case_bool_decide as H; [done|]. by destruct (m_turn_origin m). Qed.

(** Stamping the latest turn finishes it: the messages before its opener and
    every origin already stamped are unchanged, and afterwards no turn is in
    flight, so the replies of the turn may be reported. *)
Theorem stamp_finishes_turn messages o m :
  latest_opener messages = Some o → messages !! o = Some m →
  position (λ x, bool_decide (m_id x = m_id m)) messages = Some o →
  is_stamped (m_turn_origin m) = true →
  let messages' := (stamp_turn messages (m_id m)).1 in
  turn_in_flight_start messages' = length messages' ∧ length messages' = length messages ∧
  take (S o) messages' = take (S o) messages ∧
  (∀ i x, messages !! i = Some x → is_stamped (m_turn_origin x) = true → messages' !! i = Some x).
Proof.
  intros Hop Hm Hpos Hst. unfold stamp_turn. rewrite Hpos, Hm. cbn [fst].
  set (f := stamp (m_turn_origin m)). pose proof (lookup_lt_Some _ _ _ Hm) as Ho.
  assert (length (take (S o) messages) = S o) as Hlt by (rewrite length_take; lia).
  assert (latest_opener (take (S o) messages ++ (f <$> drop (S o) messages)) = Some o) as Hop'.
  { unfold latest_opener in *. rewrite rposition_app, rposition_fmap.
    rewrite (rposition_ext _ opens_turn) by (intros x; apply opens_turn_stamp).
    rewrite <- (take_drop (S o) messages), rposition_app in Hop at 1.
    destruct (rposition opens_turn (drop (S o) messages)) as [k|]; [|done].
    injection Hop as Hop. rewrite Hlt in Hop. lia. }
  split_and!.
  - unfold turn_in_flight_start. rewrite Hop', lookup_app_l, lookup_take_lt, Hm by lia.
    rewrite Hst, drop_app_length' by done. cbn [andb].
    assert (forallb (λ x, is_stamped (m_turn_origin x)) (f <$> drop (S o) messages) = true) as ->; [|done].
    apply forallb_forall. intros x Hx%list_elem_of_In. apply list_elem_of_fmap in Hx as (y & -> & _).
    by apply stamp_stamped.
  - rewrite length_app, length_fmap, <- length_app, take_drop. done.
  - by rewrite take_app_length'.
  - intros i x Hx Hsx. destruct (decide (i < S o)) as [Hi|Hi].
    + by rewrite lookup_app_l, lookup_take_lt by lia.
    + rewrite lookup_app_r, Hlt, list_lookup_fmap, lookup_drop by lia. replace (S o + (i - S o)) with i by lia.
      rewrite Hx. simpl. f_equal. unfold f, stamp. case_bool_decide as H; [|done]. by rewrite H in Hsx.
Qed.

(** * A concrete conversation *)

Definition demo_turn : list Message :=
  let msg id role origin spill content :=
    mkMessage id None role content [] None None false origin Unmarked spill 1 in
  [msg 1%N RoleUser Instruction None [65%N]; msg 2%N RoleAssistant Instruction (Some "s") [66%N];
   msg 3%N RoleUser ProgressNudge None [67%N]; msg 4%N RoleAssistant OriginUnknown (Some "t") [68%N]].

Lemma report_kept_is_best_witness :
  ∃ m, demo_turn !! 1 = Some m ∧ 1 < turn_in_flight_start demo_turn ∧ is_substantive_reply m = true.
Proof.
  destruct (report_kept_is_best demo_turn 1 ltac:(by vm_compute)) as (m & Hm & Hlt & Hs & _).
  by exists m.
Defined.

Lemma stamp_finishes_turn_witness :
  turn_in_flight_start (stamp_turn demo_turn 3).1 = length (stamp_turn demo_turn 3).1.
Proof.
  destruct (demo_turn !! 2) as [m|] eqn:Hm; [|by vm_compute in Hm].
  assert (m_id m = 3%N ∧ is_stamped (m_turn_origin m) = true) as [Hid Hst].
  { vm_compute in Hm. injection Hm as <-. by vm_compute. }
  rewrite <- Hid. refine (proj1 (stamp_finishes_turn demo_turn 2 m _ Hm _ Hst)); [by vm_compute|].
  rewrite Hid. by vm_compute.
Defined.

(** * The injected system prompt *)

(** Removing the injected prompt undoes its injection: a conversation that
    no real system message leads is persisted as it was before the run added
    its prompt, and the injected message is never part of the visible
    transcript. *)
Theorem inject_remove_roundtrip id estimate messages prompt :
  (∀ m, head messages = Some m → is_real_system m = false) →
  remove_injected_system_prompt (inject_system_prompt id estimate messages prompt) prompt = messages ∧
  user_visible_messages (inject_system_prompt id estimate messages prompt) prompt
  = user_visible_messages messages prompt.
Proof.
  intros Hhead. unfold inject_system_prompt, remove_injected_system_prompt.
  destruct (decide (prompt = [])) as [->|Hne]; [by rewrite bool_decide_eq_true_2|].
  rewrite bool_decide_eq_false_2 by done.
  assert ((match messages with
           | m :: _ => if is_real_system m then messages else Message_system id estimate prompt :: messages
           | [] => [Message_system id estimate prompt]
           end) = Message_system id estimate prompt :: messages) as ->.
  { destruct messages as [|m ms]; [done|]. by rewrite (Hhead m eq_refl). }
  split.
  - unfold is_real_system. simpl. by rewrite bool_decide_eq_true_2 by done.
  - unfold user_visible_messages. rewrite filter_cons, decide_False; [done|].
    unfold is_injected_system_prompt, is_real_system. simpl.
    by rewrite !bool_decide_eq_true_2.
Qed.

Lemma inject_remove_roundtrip_witness :
  remove_injected_system_prompt (inject_system_prompt 9 4 demo_turn [80%N]) [80%N] = demo_turn.
Proof.
  refine (proj1 (inject_remove_roundtrip 9 4 demo_turn [80%N] _)).
  intros m [= <-]. by vm_compute.
Defined.
