(* ===== verification/Workflow.v ===== *)
(** The workflow engine (src/quecto-agentic-harness/src/domain/workflow/mod.rs,
    engine.rs, binding.rs and revision.rs): a library of step templates, one
    active run, ordering and guard rules, idle-boundary nudges and the
    persisted form of a run.

    The text of errors, nudges and status reports is not modelled: an error is
    its kind, a nudge is what it points the model at.  [done[i]] out of range
    is a panic. *)

From S2P Require Import Prelude.

Definition MAX_TEMPLATE_COUNT : nat := 32.
Definition MAX_STEPS_PER_TEMPLATE : nat := 100.
Definition MAX_ISSUE_TITLE_LEN : nat := 500.

Record WorkflowTemplateStep := mkStep {
  ws_key : text;
  ws_label : text;
  ws_phase : text;
  ws_guidance : option text;
}.

Record WorkflowGuardRule := mkGuard {
  wg_commands : list text;
  wg_before_step_key : text;
  wg_message : text;
}.

Record WorkflowTemplate := mkTemplate {
  wt_id : text;
  wt_label : text;
  wt_description : text;
  wt_when_to_use : option text;
  wt_steps : list WorkflowTemplateStep;
  wt_guards : list WorkflowGuardRule;
}.

Record WorkflowRunPersisted := mkPersisted {
  wp_template_id : option text;
  wp_done : list bool;
  wp_active_issue : option (N * text);
}.

Inductive WorkflowMode := SelectingTemplate | Active | Complete.

#[export] Instance WorkflowMode_eq_dec : EqDecision WorkflowMode.
Proof. solve_decision. Defined.

Record WorkflowRun := mkRun {
  wr_template_id : option text;
  wr_template_index : option nat;
  wr_done : list bool;
  wr_active_issue : option (N * text);
}.

Definition WorkflowRun_default : WorkflowRun := mkRun None None [] None.

Record WorkflowStepStatus := mkStepStatus {
  ss_index : nat;
  ss_key : text;
  ss_label : text;
  ss_phase : text;
  ss_done : bool;
  ss_guidance : option text;
}.

Record WorkflowProgress := mkProgress { wpr_done : N; wpr_total : N; wpr_percent : N }.

Inductive WorkflowError :=
| UnknownTemplate
| InvalidStep
| OrderingViolation
| NoActiveTemplate
| InvalidConfig
| GuardBlocked.

Record WorkflowEngine := mkEngine {
  we_templates : list WorkflowTemplate;
  we_run : WorkflowRun;
  we_auto_continue : bool;
  we_completion_nudge : bool;
  we_guards_enabled : bool;
  we_bound : bool;
  we_selector_nudge : bool;
  we_revision : N;
}.

Definition set_run (r : WorkflowRun) (e : WorkflowEngine) : WorkflowEngine :=
  mkEngine (we_templates e) r (we_auto_continue e) (we_completion_nudge e) (we_guards_enabled e)
    (we_bound e) (we_selector_nudge e) (we_revision e).
Definition set_done (d : list bool) (e : WorkflowEngine) : WorkflowEngine :=
  set_run (mkRun (wr_template_id (we_run e)) (wr_template_index (we_run e)) d (wr_active_issue (we_run e))) e.
Definition set_active_issue (i : option (N * text)) (e : WorkflowEngine) : WorkflowEngine :=
  set_run (mkRun (wr_template_id (we_run e)) (wr_template_index (we_run e)) (wr_done (we_run e)) i) e.
Definition set_revision (x : N) (e : WorkflowEngine) : WorkflowEngine :=
  mkEngine (we_templates e) (we_run e) (we_auto_continue e) (we_completion_nudge e) (we_guards_enabled e)
    (we_bound e) (we_selector_nudge e) x.

(** [revision.wrapping_add(1).max(1)]. *)
Definition bump_revision (e : WorkflowEngine) : WorkflowEngine :=
  set_revision (N.max ((we_revision e + 1) mod (u64_max + 1)) 1) e.

(** * Configuration *)

(** The step loop of [validate_templates], with the keys seen so far. *)
Fixpoint validate_steps (seen : list text) (steps : list WorkflowTemplateStep) : res WorkflowError (list text) :=
  match steps with
  | [] => Ok seen
  | s :: steps' =>
      if is_blank (ws_key s) then Err InvalidConfig
      else if bool_decide (ws_key s ∈ seen) then Err InvalidConfig
      else validate_steps (ws_key s :: seen) steps'
  end.

Fixpoint validate_each (ids : list text) (templates : list WorkflowTemplate) : res WorkflowError unit :=
  match templates with
  | [] => Ok tt
  | t :: templates' =>
      if is_blank (wt_id t) then Err InvalidConfig
      else if bool_decide (wt_id t ∈ ids) then Err InvalidConfig
      else if length (wt_steps t) =? 0 then Err InvalidConfig
      else if MAX_STEPS_PER_TEMPLATE <? length (wt_steps t) then Err InvalidConfig
      else match validate_steps [] (wt_steps t) with
           | Ok keys =>
               if forallb (λ g, bool_decide (wg_before_step_key g ∈ keys)) (wt_guards t)
               then validate_each (wt_id t :: ids) templates'
               else Err InvalidConfig
           | Err e => Err e
           | Panic => Panic
           end
  end.

Definition validate_templates (templates : list WorkflowTemplate) : res WorkflowError unit :=
  if MAX_TEMPLATE_COUNT <? length templates then Err InvalidConfig
  else validate_each [] templates.

Section engine.
(** The built-in library, [default_templates]: a constant list of prose. *)
Context (default_templates : list WorkflowTemplate).

(** [WorkflowEngine::new] on the configuration's templates and flags. *)
Definition WorkflowEngine_new (templates : list WorkflowTemplate) (auto_continue completion_nudge guards_enabled : bool)
    : res WorkflowError WorkflowEngine :=
  let templates := match templates with [] => default_templates | _ => templates end in
  match validate_templates templates with
  | Ok _ => Ok (mkEngine templates WorkflowRun_default auto_continue completion_nudge guards_enabled false false 1)
  | Err e => Err e
  | Panic => Panic
  end.
End engine.

Definition set_selector_nudge (enabled : bool) (e : WorkflowEngine) : WorkflowEngine :=
  mkEngine (we_templates e) (we_run e) (we_auto_continue e) (we_completion_nudge e) (we_guards_enabled e)
    (we_bound e) enabled (we_revision e).
Definition set_bound (bound : bool) (e : WorkflowEngine) : WorkflowEngine :=
  mkEngine (we_templates e) (we_run e) (we_auto_continue e) (we_completion_nudge e) (we_guards_enabled e)
    bound (we_selector_nudge e) (we_revision e).
Definition set_automation (auto_continue completion_nudge : bool) (e : WorkflowEngine) : WorkflowEngine :=
  mkEngine (we_templates e) (we_run e) auto_continue completion_nudge (we_guards_enabled e)
    (we_bound e) (we_selector_nudge e) (we_revision e).

(** * Issue titles *)

(** The loop [while end > 0 && !is_char_boundary(end) { end -= 1 }] and the
    slice it ends in. *)
Fixpoint cut_at_boundary (title : text) (end_ : nat) : text :=
  match byte_prefix title end_ with
  | Some t => t
  | None => match end_ with 0 => [] | S n => cut_at_boundary title n end
  end.

Definition truncate_issue_title (title : text) : text :=
  if byte_len title <=? MAX_ISSUE_TITLE_LEN then title else cut_at_boundary title MAX_ISSUE_TITLE_LEN.

(** * Persistence *)

Definition template_position (template_id : text) (templates : list WorkflowTemplate) : option nat :=
  position (λ t, bool_decide (wt_id t = template_id)) templates.

(** [truncate] then [resize(_, false)]. *)
Definition resize (n : nat) (l : list bool) : list bool :=
  take n l ++ replicate (n - length l) false.

(** The loop that clears every flag after the first gap. *)
Fixpoint clear_after_gap (seen_gap : bool) (done : list bool) : list bool :=
  match done with
  | [] => []
  | flag :: done' =>
      let flag := flag && negb seen_gap in
      flag :: clear_after_gap (seen_gap || negb flag) done'
  end.

Definition restore_run (persisted : WorkflowRunPersisted) (e : WorkflowEngine) : WorkflowEngine :=
  let active_issue := (λ nt : N * text, (nt.1, truncate_issue_title nt.2)) <$> wp_active_issue persisted in
  let fallback := match active_issue with
                  | Some _ => mkRun None None [] active_issue
                  | None => WorkflowRun_default
                  end in
  set_run
    match wp_template_id persisted with
    | None => fallback
    | Some id =>
        match template_position id (we_templates e) with
        | None => fallback
        | Some index =>
            match we_templates e !! index with
            | None => fallback
            | Some template =>
                mkRun (Some id) (Some index)
                  (clear_after_gap false (resize (length (wt_steps template)) (wp_done persisted))) active_issue
            end
        end
    end e.

Definition persisted_run (e : WorkflowEngine) : option WorkflowRunPersisted :=
  let r := we_run e in
  match wr_template_id r, wr_active_issue r with
  | None, None => None
  | _, _ => Some (mkPersisted (wr_template_id r) (wr_done r) (wr_active_issue r))
  end.

(** * The run *)

Definition active_template (e : WorkflowEngine) : option WorkflowTemplate :=
  wr_template_index (we_run e) ≫= λ i, we_templates e !! i.

Definition mode (e : WorkflowEngine) : WorkflowMode :=
  match active_template e with
  | None => SelectingTemplate
  | Some t => if forallb id (take (length (wt_steps t)) (wr_done (we_run e))) then Complete else Active
  end.

Definition WM (A : Type) : Type := M WorkflowEngine WorkflowError A.

Definition require_active_template : WM WorkflowTemplate :=
  t <- gets active_template ;; ok_or t NoActiveTemplate.

(** Steps are numbered from 1. *)
Definition validate_step_index (step len : nat) : WM nat :=
  if (step =? 0) || (len <? step) then throw InvalidStep else ret (step - 1).

(** [for i in 0..idx { if !self.run.done[i] { return Err(e) } }]. *)
Definition require_prior_done (idx : nat) (e : WorkflowError) : WM unit :=
  for_each (seq 0 idx) (λ i,
    done <- gets (λ en, wr_done (we_run en)) ;;
    d <- expect (done !! i) ;;
    if d : bool then ret tt else throw e).

(** [self.run.done[idx] = value]. *)
Definition set_step (idx : nat) (value : bool) : WM unit :=
  done <- gets (λ en, wr_done (we_run en)) ;;
  _ <- expect (done !! idx) ;;
  modify (set_done (<[idx := value]> done)).

Definition select_template (template_id : text) (issue : option (N * text)) : WM unit :=
  e <- gets id ;;
  if we_bound e && match wr_template_id (we_run e) with
                   | Some current => negb (bool_decide (current = template_id))
                   | None => false
                   end
  then throw UnknownTemplate
  else
    index <- ok_or (template_position template_id (we_templates e)) UnknownTemplate ;;
    template <- expect (we_templates e !! index) ;;
    let active_issue := match issue with
      | Some (number, title) => Some (number, truncate_issue_title title)
      | None => wr_active_issue (we_run e)
      end in
    modify (set_run (mkRun (Some (wt_id template)) (Some index)
                       (replicate (length (wt_steps template)) false) active_issue)) ;;
    modify bump_revision.

Definition check (step : nat) : WM unit :=
  template <- require_active_template ;;
  idx <- validate_step_index step (length (wt_steps template)) ;;
  require_prior_done idx OrderingViolation ;;
  set_step idx true ;;
  modify bump_revision.

Definition uncheck (step : nat) : WM unit :=
  template <- require_active_template ;;
  idx <- validate_step_index step (length (wt_steps template)) ;;
  set_step idx false ;;
  modify bump_revision.

Definition skip (step : nat) : WM unit :=
  template <- require_active_template ;;
  idx <- validate_step_index step (length (wt_steps template)) ;;
  set_step idx true ;;
  modify bump_revision.

Definition reset (e : WorkflowEngine) : WorkflowEngine :=
  if we_bound e then
    bump_revision (match active_template e with
                   | Some t => set_done (replicate (length (wt_steps t)) false) e
                   | None => e
                   end)
  else bump_revision (set_run WorkflowRun_default e).

Definition set_issue (number : N) (title : text) (e : WorkflowEngine) : WorkflowEngine :=
  bump_revision (set_active_issue (Some (number, truncate_issue_title title)) e).

Definition clear_issue (e : WorkflowEngine) : WorkflowEngine :=
  bump_revision (set_active_issue None e).

(** * Views *)

Definition count_done (l : list bool) : nat := length (filter (λ d, d = true) l).

(** [as u32] keeps the low 32 bits; the multiplication is checked. *)
Definition u32_max : N := 4294967295%N.

Definition progress_for_done (done : N) (e : WorkflowEngine) : WorkflowProgress :=
  let total := (N.of_nat (length (wr_done (we_run e))) mod (u32_max + 1))%N in
  mkProgress done total
    (if (done * 100 <=? u32_max)%N then if (total =? 0)%N then 0 else done * 100 / total else 0)%N.

Definition progress (e : WorkflowEngine) : WorkflowProgress :=
  progress_for_done (N.of_nat (count_done (wr_done (we_run e))) mod (u32_max + 1)) e.

Definition status_for_step (template : WorkflowTemplate) (idx : nat) (done : bool) : option WorkflowStepStatus :=
  s ← wt_steps template !! idx;
  Some (mkStepStatus (idx + 1) (ws_key s) (ws_label s) (ws_phase s) done (ws_guidance s)).

(** [None] is a panic. *)
Definition current_step (e : WorkflowEngine) : option (option WorkflowStepStatus) :=
  match active_template e, position negb (wr_done (we_run e)) with
  | Some t, Some idx =>
      match wr_done (we_run e) !! idx with
      | Some d => Some <$> status_for_step t idx d
      | None => None
      end
  | _, _ => Some None
  end.

Definition visible_step_count (e : WorkflowEngine) : nat :=
  match active_template e with
  | None => 0
  | Some t =>
      match mode e with
      | SelectingTemplate => 0
      | Complete => length (wt_steps t)
      | Active =>
          match position negb (take (length (wt_steps t)) (wr_done (we_run e))) with
          | Some idx => idx + 1
          | None => length (wt_steps t)
          end
      end
  end.

Definition visible_progress (e : WorkflowEngine) : WorkflowProgress :=
  progress_for_done
    (N.of_nat (count_done (take (visible_step_count e) (wr_done (we_run e)))) mod (u32_max + 1)) e.

Definition is_step_done_index (e : WorkflowEngine) (idx : nat) : bool :=
  default false (wr_done (we_run e) !! idx).

(** The steps of [snapshot]. *)
Definition snapshot_steps (e : WorkflowEngine) : list (option WorkflowStepStatus) :=
  match active_template e with
  | None => []
  | Some t =>
      (λ idx, status_for_step t idx (is_step_done_index e idx))
        <$> filter (λ idx, idx < visible_step_count e) (seq 0 (length (wt_steps t)))
  end.

(** * Nudges and guards *)

Inductive NudgeTarget := NudgeSelector | NudgeStep (step : WorkflowStepStatus).

Definition auto_continue_target (e : WorkflowEngine) : option (option NudgeTarget) :=
  match mode e with
  | SelectingTemplate => Some (if we_selector_nudge e then Some NudgeSelector else None)
  | Complete => Some None
  | Active => if we_auto_continue e then (λ o : option WorkflowStepStatus, NudgeStep <$> o) <$> current_step e else Some None
  end.

(** Whether [completion_nudge] speaks. *)
Definition completion_nudge (e : WorkflowEngine) : bool :=
  we_completion_nudge e && bool_decide (mode e = Complete) && bool_decide (is_Some (active_template e)).

Definition check_guard_rule (template : WorkflowTemplate) (guard : WorkflowGuardRule) : WM unit :=
  idx <- ok_or (position (λ s, bool_decide (ws_key s = wg_before_step_key guard)) (wt_steps template)) InvalidConfig ;;
  require_prior_done idx GuardBlocked.

Definition check_matching_guards (applies : WorkflowGuardRule → bool) : WM unit :=
  enabled <- gets we_guards_enabled ;;
  if enabled : bool then
    template <- require_active_template ;;
    for_each (filter (λ g, applies g = true) (wt_guards template)) (check_guard_rule template)
  else ret tt.

Definition check_guards : WM unit := check_matching_guards (λ _, true).
