(* ===== verification/WorkflowProps.v ===== *)
(** What the workflow engine guarantees: it never panics and keeps its run
    consistent with its templates, errors change nothing, checks go in order,
    guards block exactly what they should, a run survives a restart, a bound
    engine keeps its template, and later steps stay hidden. *)

From S2P Require Import Prelude Workflow.

(** * The invariant *)

Definition run_ok (templates : list WorkflowTemplate) (r : WorkflowRun) : Prop :=
  match wr_template_index r with
  | Some i => ∃ t, templates !! i = Some t ∧ wr_template_id r = Some (wt_id t) ∧
                   length (wr_done r) = length (wt_steps t)
  | None => wr_template_id r = None ∧ wr_done r = []
  end ∧
  ∀ n title, wr_active_issue r = Some (n, title) → byte_len title ≤ MAX_ISSUE_TITLE_LEN.

Record engine_ok (e : WorkflowEngine) : Prop := {
  eo_templates : validate_templates (we_templates e) = Ok tt;
  eo_run : run_ok (we_templates e) (we_run e);
  eo_revision : (1 ≤ we_revision e ≤ u64_max)%N;
}.

Lemma bump_revision_spec e :
  (1 ≤ we_revision (bump_revision e) ≤ u64_max)%N ∧
  ((1 ≤ we_revision e ≤ u64_max)%N → we_revision (bump_revision e) ≠ we_revision e).
Proof.
  unfold bump_revision. simpl. pose proof (N.mod_lt (we_revision e + 1) (u64_max + 1) ltac:(unfold u64_max; lia)) as Hm.
  assert (1 < u64_max)%N as Hmax by (by vm_compute). revert Hm Hmax.
  generalize u64_max as mx. intros mx Hm Hmax.
  split; [lia|]. intros [H1 H2]. destruct (decide (we_revision e = mx)) as [->|Hne].
  - rewrite N.Div0.mod_same. lia.
  - rewrite N.mod_small by lia. lia.
Qed.

Lemma cut_at_boundary_S title n :
  cut_at_boundary title (S n)
  = match byte_prefix title (S n) with Some t => t | None => cut_at_boundary title n end.
Proof. reflexivity. Qed.

Lemma cut_at_boundary_spec title n :
  cut_at_boundary title n `prefix_of` title ∧ byte_len (cut_at_boundary title n) ≤ n ∧
  ∀ t, t `prefix_of` title → byte_len t ≤ n → byte_len t ≤ byte_len (cut_at_boundary title n).
Proof.
  induction n as [|n IH].
  - destruct title; (split; [apply prefix_nil|]); (split; [done|]); intros t _ ?; done.
  - rewrite cut_at_boundary_S. destruct (byte_prefix title (S n)) as [t0|] eqn:Hp.
    + apply byte_prefix_Some in Hp as [Hp Hl]. split; [done|]. split; [lia|]. intros; lia.
    + destruct IH as (IH1 & IH2 & IH3). split; [done|]. split; [lia|]. intros t Ht Hlen.
      apply IH3; [done|]. destruct (decide (byte_len t = S n)) as [Heq|]; [|lia].
      assert (byte_prefix title (S n) = Some t); [by apply byte_prefix_Some|congruence].
Qed.

Lemma truncate_issue_title_le title : byte_len (truncate_issue_title title) ≤ MAX_ISSUE_TITLE_LEN.
Proof.
  unfold truncate_issue_title. destruct (Nat.leb_spec (byte_len title) MAX_ISSUE_TITLE_LEN); [done|].
  apply cut_at_boundary_spec.
Qed.

Lemma truncate_issue_title_id title : byte_len title ≤ MAX_ISSUE_TITLE_LEN → truncate_issue_title title = title.
Proof.
  intros H. unfold truncate_issue_title. by destruct (Nat.leb_spec (byte_len title) MAX_ISSUE_TITLE_LEN); [|lia].
Qed.

Lemma length_resize n l : length (resize n l) = n.
Proof. unfold resize. rewrite length_app, length_take, length_replicate. lia. Qed.

Lemma length_clear_after_gap gap l : length (clear_after_gap gap l) = length l.
Proof. revert gap. induction l; intros; simpl; auto. Qed.

Lemma template_position_Some id ts i :
  template_position id ts = Some i → ∃ t, ts !! i = Some t ∧ wt_id t = id.
Proof.
  intros [(t & Ht & Hid) _]%position_Some. exists t. split; [done|]. by apply bool_decide_eq_true in Hid.
Qed.

Lemma active_template_run e t :
  engine_ok e → active_template e = Some t →
  wr_template_id (we_run e) = Some (wt_id t) ∧ length (wr_done (we_run e)) = length (wt_steps t).
Proof.
  intros Hok Ht. destruct (eo_run e Hok) as [Hr _]. unfold active_template in Ht.
  destruct (wr_template_index (we_run e)) as [i|]; [|done]. simpl in Ht.
  destruct Hr as (t' & Ht' & Hid & Hl). assert (t' = t) as -> by congruence. done.
Qed.

Lemma engine_ok_run e r : engine_ok e → run_ok (we_templates e) r → engine_ok (set_run r e).
Proof. intros Hok Hr. split; simpl; [apply Hok|done|apply Hok]. Qed.

Lemma engine_ok_bump e : engine_ok e → engine_ok (bump_revision e).
Proof. intros Hok. split; [apply Hok|apply Hok|apply bump_revision_spec]. Qed.

Lemma engine_ok_done e d :
  engine_ok e → length d = length (wr_done (we_run e)) → engine_ok (set_done d e).
Proof.
  intros Hok Hl. apply engine_ok_run; [done|]. destruct (eo_run e Hok) as [Hr Hi]. split; [|done]. simpl.
  destruct (wr_template_index (we_run e)) as [i|].
  - destruct Hr as (t & ? & ? & ?). exists t. split_and!; try done. congruence.
  - destruct Hr as [? Hd]. split; [done|]. rewrite Hd in Hl. by destruct d.
Qed.

Lemma engine_ok_issue e i :
  engine_ok e → (∀ n title, i = Some (n, title) → byte_len title ≤ MAX_ISSUE_TITLE_LEN) →
  engine_ok (set_active_issue i e).
Proof. intros Hok Hi. apply engine_ok_run; [done|]. destruct (eo_run e Hok) as [Hr _]. by split. Qed.

(** * The operations *)

Inductive wop :=
| Select (template_id : text) (issue : option (N * text))
| Check (step : nat)
| Uncheck (step : nat)
| Skip (step : nat)
| ResetRun
| SetIssue (number : N) (title : text)
| ClearIssue
| SetBound (bound : bool)
| SetAutomation (auto_continue completion_nudge : bool)
| SetSelectorNudge (enabled : bool)
| RestoreRun (persisted : WorkflowRunPersisted).

Definition wexec (o : wop) : WM unit :=
  match o with
  | Select id issue => select_template id issue
  | Check step => check step
  | Uncheck step => uncheck step
  | Skip step => skip step
  | ResetRun => modify reset
  | SetIssue number title => modify (set_issue number title)
  | ClearIssue => modify clear_issue
  | SetBound b => modify (set_bound b)
  | SetAutomation a c => modify (set_automation a c)
  | SetSelectorNudge b => modify (set_selector_nudge b)
  | RestoreRun p => modify (restore_run p)
  end.

Inductive wreachable : WorkflowEngine → Prop :=
| wreach_new defaults ts a c g e : WorkflowEngine_new defaults ts a c g = Ok e → wreachable e
| wreach_step e o : wreachable e → wreachable (wexec o e).1.

(** What the loop over the earlier steps answers. *)
Lemma require_prior_done_spec idx err e :
  idx ≤ length (wr_done (we_run e)) →
  require_prior_done idx err e
  = (e, if forallb id (take idx (wr_done (we_run e))) then Ok tt else Err err).
Proof.
  intros Hl. unfold require_prior_done.
  assert (∀ n s, s + n = idx →
    for_each (seq s n) (λ i, done <- gets (λ en, wr_done (we_run en)) ;; d <- expect (done !! i) ;;
      if d : bool then ret tt else throw err) e
    = (e, if forallb id (take n (drop s (wr_done (we_run e)))) then Ok tt else Err err)) as H.
  { induction n as [|n IH]; intros s Hs; [done|]. cbn [seq for_each].
    destruct (lookup_lt_is_Some_2 (wr_done (we_run e)) s ltac:(lia)) as [d Hd].
    rewrite (drop_S _ _ _ Hd). cbn [take forallb id]. destruct d; simpl.
    - erewrite bind_ok; [|unfold bind, gets; simpl; rewrite Hd; done]. by rewrite IH by lia.
    - erewrite bind_err; [done|]. unfold bind, gets. simpl. by rewrite Hd. }
  rewrite (H idx 0 eq_refl). by rewrite drop_0.
Qed.

Lemma set_step_run idx v e :
  idx < length (wr_done (we_run e)) →
  set_step idx v e = (set_done (<[idx := v]> (wr_done (we_run e))) e, Ok tt).
Proof.
  intros [d Hd]%lookup_lt_is_Some_2. unfold set_step. rewrite bind_gets, (bind_expect _ d) by done. done.
Qed.

(** The result of an operation on one step: invalid without a template or out
    of range; otherwise [out] at that step. *)
Lemma step_op_spec {A} step (k : nat → WM A) e :
  (template <- require_active_template ;;
   idx <- validate_step_index step (length (wt_steps template)) ;; k idx) e
  = match active_template e with
    | None => (e, Err NoActiveTemplate)
    | Some t => if (step =? 0) || (length (wt_steps t) <? step) then (e, Err InvalidStep) else k (step - 1) e
    end.
Proof.
  unfold require_active_template. destruct (active_template e) as [t|] eqn:Ht.
  - erewrite bind_ok; [|rewrite bind_gets, Ht; done]. unfold validate_step_index. by destruct (_ || _).
  - erewrite bind_err; [done|]. by rewrite bind_gets, Ht.
Qed.

(** The engine after a step's flag was written. *)
Definition with_step (step : nat) (v : bool) (e : WorkflowEngine) : WorkflowEngine :=
  bump_revision (set_done (<[step - 1 := v]> (wr_done (we_run e))) e).

Definition invalid_step (t : WorkflowTemplate) (step : nat) : bool :=
  (step =? 0) || (length (wt_steps t) <? step).

Lemma invalid_step_false t step : invalid_step t step = false ↔ 1 ≤ step ≤ length (wt_steps t).
Proof. unfold invalid_step. rewrite orb_false_iff, Nat.eqb_neq, Nat.ltb_ge. lia. Qed.

Lemma write_step_run step v e t :
  engine_ok e → active_template e = Some t → invalid_step t step = false →
  (set_step (step - 1) v ;; modify bump_revision) e = (with_step step v e, Ok tt).
Proof.
  intros Hok Ht Hs%invalid_step_false. destruct (active_template_run e t Hok Ht) as [_ Hl].
  by rewrite (bind_ok _ _ _ _ _ (set_step_run (step - 1) v e ltac:(lia))).
Qed.

Lemma check_spec step e :
  engine_ok e →
  check step e = match active_template e with
    | None => (e, Err NoActiveTemplate)
    | Some t =>
        if invalid_step t step then (e, Err InvalidStep)
        else if forallb id (take (step - 1) (wr_done (we_run e))) then (with_step step true e, Ok tt)
        else (e, Err OrderingViolation)
    end.
Proof.
  intros Hok. unfold check. rewrite step_op_spec. destruct (active_template e) as [t|] eqn:Ht; [|done].
  fold (invalid_step t step). destruct (invalid_step t step) eqn:Hs; [done|].
  destruct (active_template_run e t Hok Ht) as [_ Hl]. pose proof (proj1 (invalid_step_false t step) Hs).
  pose proof (require_prior_done_spec (step - 1) OrderingViolation e ltac:(lia)) as Hp.
  destruct (forallb id _); [rewrite (bind_ok _ _ _ _ _ Hp); by eapply write_step_run|by rewrite (bind_err _ _ _ _ _ Hp)].
Qed.

Lemma write_spec step v e :
  engine_ok e →
  (template <- require_active_template ;;
   idx <- validate_step_index step (length (wt_steps template)) ;;
   set_step idx v ;; modify bump_revision) e
  = match active_template e with
    | None => (e, Err NoActiveTemplate)
    | Some t => if invalid_step t step then (e, Err InvalidStep) else (with_step step v e, Ok tt)
    end.
Proof.
  intros Hok. rewrite step_op_spec. destruct (active_template e) as [t|] eqn:Ht; [|done].
  fold (invalid_step t step). destruct (invalid_step t step) eqn:Hs; [done|]. by eapply write_step_run.
Qed.

Definition selected_issue (issue : option (N * text)) (e : WorkflowEngine) : option (N * text) :=
  match issue with
  | Some (number, title) => Some (number, truncate_issue_title title)
  | None => wr_active_issue (we_run e)
  end.

(** A bound engine refuses any template but its own. *)
Definition refuses (template_id : text) (e : WorkflowEngine) : bool :=
  we_bound e && match wr_template_id (we_run e) with
                | Some current => negb (bool_decide (current = template_id))
                | None => false
                end.

Lemma select_spec tid issue e :
  select_template tid issue e =
  if refuses tid e then (e, Err UnknownTemplate)
  else match template_position tid (we_templates e) with
       | None => (e, Err UnknownTemplate)
       | Some i => match we_templates e !! i with
           | Some t => (bump_revision (set_run (mkRun (Some (wt_id t)) (Some i)
                          (replicate (length (wt_steps t)) false) (selected_issue issue e)) e), Ok tt)
           | None => (e, Panic)
           end
       end.
Proof.
  unfold select_template. rewrite bind_gets. unfold id. fold (refuses tid e).
  destruct (refuses tid e); [done|]. destruct (template_position tid (we_templates e)) as [i|] eqn:Hp; [|done].
  cbn [ok_or]. rewrite bind_ret. destruct (we_templates e !! i) as [t|] eqn:Ht; [|done].
  rewrite (bind_expect _ t) by done. done.
Qed.

Lemma with_step_ok step v e : engine_ok e → engine_ok (with_step step v e).
Proof. intros Hok. apply engine_ok_bump, engine_ok_done; [done|]. by rewrite length_insert. Qed.

Lemma selected_issue_ok issue e n title :
  engine_ok e → selected_issue issue e = Some (n, title) → byte_len title ≤ MAX_ISSUE_TITLE_LEN.
Proof.
  intros Hok. destruct issue as [[n' t']|]; simpl.
  - intros [= <- <-]. apply truncate_issue_title_le.
  - apply (eo_run e Hok).
Qed.

Lemma restore_run_ok p e : engine_ok e → engine_ok (restore_run p e).
Proof.
  intros Hok. unfold restore_run. apply engine_ok_run; [done|].
  assert (∀ n title, (λ nt : N * text, (nt.1, truncate_issue_title nt.2)) <$> wp_active_issue p = Some (n, title) →
            byte_len title ≤ MAX_ISSUE_TITLE_LEN) as Hi.
  { intros n title (nt & _ & [= _ ->])%fmap_Some. apply truncate_issue_title_le. }
  assert (run_ok (we_templates e) (match (λ nt : N * text, (nt.1, truncate_issue_title nt.2)) <$> wp_active_issue p with
                  | Some _ => mkRun None None [] ((λ nt : N * text, (nt.1, truncate_issue_title nt.2)) <$> wp_active_issue p)
                  | None => WorkflowRun_default end)) as Hfall.
  { destruct (_ <$> wp_active_issue p) as [x|] eqn:Hx; (split; [done|]); [|done]. intros n title. simpl. apply Hi. }
  destruct (wp_template_id p) as [tid|]; [|done].
  destruct (template_position tid (we_templates e)) as [i|] eqn:Hp; [|done].
  apply template_position_Some in Hp as (t & Ht & Hid). rewrite Ht. split; [|done]. simpl.
  exists t. split; [done|]. split; [by rewrite Hid|]. by rewrite length_clear_after_gap, length_resize.
Qed.

Lemma wexec_ok o e : engine_ok e → no_panic (wexec o e).2 ∧ engine_ok (wexec o e).1.
Proof.
  intros Hok. destruct o; cbn [wexec]; unfold modify, uncheck, skip; simpl.
  - rewrite select_spec. destruct (refuses _ _); [done|].
    destruct (template_position _ _) as [i|] eqn:Hp; [|done].
    apply template_position_Some in Hp as (t & Ht & Hid). rewrite Ht. split; [done|].
    apply engine_ok_bump, engine_ok_run; [done|]. split; simpl.
    + exists t. split_and!; try done. apply length_replicate.
    + intros n title. by apply selected_issue_ok.
  - rewrite check_spec by done. repeat case_match; simpl; auto using with_step_ok.
  - rewrite write_spec by done. repeat case_match; simpl; auto using with_step_ok.
  - rewrite write_spec by done. repeat case_match; simpl; auto using with_step_ok.
  - split; [done|]. unfold reset. destruct (we_bound e).
    + apply engine_ok_bump. destruct (active_template e) as [t|] eqn:Ht; [|done].
      apply engine_ok_done; [done|]. rewrite length_replicate. by destruct (active_template_run e t Hok Ht).
    + apply engine_ok_bump, engine_ok_run; [done|]. by split.
  - split; [done|]. apply engine_ok_bump, engine_ok_issue; [done|]. intros n t [= <- <-]. apply truncate_issue_title_le.
  - split; [done|]. by apply engine_ok_bump, engine_ok_issue.
  - split; [done|]. split; apply Hok.
  - split; [done|]. split; apply Hok.
  - split; [done|]. split; apply Hok.
  - split; [done|]. by apply restore_run_ok.
Qed.

Lemma wreachable_ok e : wreachable e → engine_ok e.
Proof.
  induction 1 as [defaults ts a c g e Hnew|e o _ IH]; [|by apply wexec_ok].
  unfold WorkflowEngine_new in Hnew. set (ts' := match ts with [] => _ | _ => _ end) in Hnew.
  destruct (validate_templates ts') as [[]| |] eqn:Hv; [|done|done]. injection Hnew as <-.
  split; simpl; [done|by split|by vm_compute].
Qed.

(** * What validation guarantees *)

Lemma validate_steps_spec steps : ∀ seen keys,
  validate_steps seen steps = Ok keys → ∀ k, k ∈ keys ↔ k ∈ seen ∨ k ∈ ws_key <$> steps.
Proof.
  induction steps as [|s steps IH]; intros seen keys; simpl.
  - intros [= <-] k. split; [by left|]. by intros [?|?%not_elem_of_nil].
  - case_match; [done|]. case_bool_decide; [done|]. intros Hv k. rewrite (IH _ _ Hv k), !elem_of_cons. tauto.
Qed.

Lemma validate_each_spec ts : ∀ ids,
  validate_each ids ts = Ok tt →
  NoDup (wt_id <$> ts) ∧ (∀ t, t ∈ ts → wt_id t ∉ ids) ∧
  ∀ t g, t ∈ ts → g ∈ wt_guards t → wg_before_step_key g ∈ ws_key <$> wt_steps t.
Proof.
  induction ts as [|t ts IH]; intros ids; cbn [validate_each].
  - intros _. split; [constructor|]. split; [by intros ? ?%not_elem_of_nil|by intros ? ? ?%not_elem_of_nil].
  - case_match; [done|]. case_bool_decide as Hid; [done|]. case_match; [done|]. case_match; [done|].
    destruct (validate_steps [] (wt_steps t)) as [keys| |] eqn:Hk; [|done|done].
    destruct (forallb _ (wt_guards t)) eqn:Hg; [|done]. intros (Hnd & Hni & Hall)%IH. rewrite fmap_cons. split_and!.
    + constructor; [|done]. intros (t' & Heq & Ht')%list_elem_of_fmap. apply (Hni t' Ht'). rewrite <- Heq. by left.
    + intros t' [->|Ht']%elem_of_cons; [done|]. specialize (Hni t' Ht'). by intros ?; destruct Hni; right.
    + intros t' g [->|Ht']%elem_of_cons Hgin; [|by apply (Hall t')].
      rewrite forallb_forall in Hg. specialize (Hg g (proj1 (list_elem_of_In _ _) Hgin)).
      apply bool_decide_eq_true in Hg. apply (validate_steps_spec _ _ _ Hk) in Hg as [?%not_elem_of_nil|?]; done.
Qed.

Lemma engine_templates e :
  engine_ok e → NoDup (wt_id <$> we_templates e) ∧
  ∀ t g, t ∈ we_templates e → g ∈ wt_guards t → wg_before_step_key g ∈ ws_key <$> wt_steps t.
Proof.
  intros Hok. pose proof (eo_templates e Hok) as Hv. unfold validate_templates in Hv. case_match; [done|].
  apply validate_each_spec in Hv as (? & _ & ?). done.
Qed.

(** A template is found at its own place: ids are distinct. *)
Lemma template_position_unique e i t :
  engine_ok e → we_templates e !! i = Some t → template_position (wt_id t) (we_templates e) = Some i.
Proof.
  intros Hok Ht. destruct (engine_templates e Hok) as [Hnd _].
  destruct (template_position (wt_id t) (we_templates e)) as [j|] eqn:Hp.
  - apply template_position_Some in Hp as (t' & Ht' & Hid). f_equal.
    apply (NoDup_lookup (wt_id <$> we_templates e) j i (wt_id t) Hnd); rewrite list_lookup_fmap.
    + by rewrite Ht', <- Hid.
    + by rewrite Ht.
  - pose proof (position_None _ _ Hp t (list_elem_of_lookup_2 _ _ _ Ht)) as H.
    simpl in H. by apply bool_decide_eq_false in H.
Qed.

(** * Views never panic *)

Lemma current_step_spec e :
  engine_ok e →
  match current_step e with
  | None => False
  | Some None => active_template e = None ∨ forallb id (wr_done (we_run e)) = true
  | Some (Some st) => ∃ t s, active_template e = Some t ∧
      ss_done st = false ∧ 1 ≤ ss_index st ∧ wt_steps t !! (ss_index st - 1) = Some s ∧
      ss_key st = ws_key s ∧ ss_guidance st = ws_guidance s ∧
      wr_done (we_run e) !! (ss_index st - 1) = Some false ∧
      ∀ j, j < ss_index st - 1 → wr_done (we_run e) !! j = Some true
  end.
Proof.
  intros Hok. unfold current_step. destruct (active_template e) as [t|] eqn:Ht; [|by left].
  destruct (active_template_run e t Hok Ht) as [_ Hl].
  destruct (position negb (wr_done (we_run e))) as [i|] eqn:Hp.
  - apply position_Some in Hp as [(d & Hd & Hneg) Hbefore]. rewrite Hd. unfold status_for_step.
    pose proof (lookup_lt_Some _ _ _ Hd) as Hlt.
    destruct (lookup_lt_is_Some_2 (wt_steps t) i ltac:(lia)) as [s Hs]. rewrite Hs. simpl.
    replace (i + 1 - 1) with i by lia. exists t, s. destruct d; [done|].
    split_and!; try done; [lia|]. intros j Hj.
    destruct (lookup_lt_is_Some_2 (wr_done (we_run e)) j ltac:(lia)) as [b Hb]. rewrite Hb. f_equal.
    specialize (Hbefore j b Hj Hb). by destruct b.
  - right. apply forallb_forall. intros b Hb%list_elem_of_In. pose proof (position_None _ _ Hp b Hb) as H.
    by destruct b.
Qed.

(** [guard] is open in [e]: every step before the one it names is done. *)
Definition guard_open (e : WorkflowEngine) (t : WorkflowTemplate) (g : WorkflowGuardRule) : Prop :=
  ∃ idx, position (λ s, bool_decide (ws_key s = wg_before_step_key g)) (wt_steps t) = Some idx ∧
         ∀ j, j < idx → wr_done (we_run e) !! j = Some true.

Lemma forallb_take idx (l : list bool) :
  idx ≤ length l → forallb id (take idx l) = true ↔ ∀ j, j < idx → l !! j = Some true.
Proof.
  intros Hl. rewrite forallb_forall. split.
  - intros H j Hj. destruct (lookup_lt_is_Some_2 l j ltac:(lia)) as [b Hb]. rewrite Hb. f_equal.
    apply (H b). apply list_elem_of_In, (list_elem_of_lookup_2 _ j). by rewrite lookup_take_lt.
  - intros H b Hb%list_elem_of_In. apply list_elem_of_lookup in Hb as [j Hj].
    apply lookup_take_Some in Hj as [Hj Hlt]. rewrite H in Hj by done. by injection Hj as <-.
Qed.

Lemma check_guard_rule_spec e t g :
  engine_ok e → active_template e = Some t → g ∈ wt_guards t →
  (check_guard_rule t g e = (e, Ok tt) ∧ guard_open e t g) ∨
  (check_guard_rule t g e = (e, Err GuardBlocked) ∧ ¬ guard_open e t g).
Proof.
  intros Hok Ht Hg. destruct (active_template_run e t Hok Ht) as [_ Hl].
  assert (t ∈ we_templates e) as Hin.
  { unfold active_template in Ht. destruct (wr_template_index (we_run e)); [|done]. by eapply list_elem_of_lookup_2. }
  destruct (engine_templates e Hok) as [_ Hkeys]. specialize (Hkeys t g Hin Hg).
  unfold check_guard_rule. destruct (position _ (wt_steps t)) as [idx|] eqn:Hp.
  2:{ apply list_elem_of_fmap in Hkeys as (s & Hkey & Hs). pose proof (position_None _ _ Hp s Hs) as H.
      simpl in H. by apply bool_decide_eq_false in H. }
  cbn [ok_or]. rewrite bind_ret.
  assert (idx < length (wt_steps t)) as Hlt.
  { apply position_Some in Hp as [(s & Hs & _) _]. by eapply lookup_lt_Some. }
  rewrite require_prior_done_spec by lia.
  pose proof (forallb_take idx (wr_done (we_run e)) ltac:(lia)) as Hf.
  destruct (forallb id (take idx (wr_done (we_run e)))).
  - left. split; [done|]. exists idx. split; [done|]. by apply Hf.
  - right. split; [done|]. intros (idx' & Hp' & Hall). assert (idx' = idx) as -> by congruence.
    by apply Hf in Hall.
Qed.

Lemma guards_loop e t l :
  engine_ok e → active_template e = Some t → (∀ g, g ∈ l → g ∈ wt_guards t) →
  (for_each l (check_guard_rule t) e = (e, Ok tt) ∧ ∀ g, g ∈ l → guard_open e t g) ∨
  (for_each l (check_guard_rule t) e = (e, Err GuardBlocked) ∧ ∃ g, g ∈ l ∧ ¬ guard_open e t g).
Proof.
  intros Hok Ht. induction l as [|g l IH]; intros Hl; cbn [for_each].
  - left. split; [done|]. by intros g ?%not_elem_of_nil.
  - destruct (check_guard_rule_spec e t g Hok Ht (Hl g ltac:(by left))) as [[Heq Ho]|[Heq Ho]].
    + rewrite (bind_ok _ _ _ _ _ Heq).
      destruct IH as [[-> Hall]|[-> (g' & Hg' & Hn)]]; [intros; apply Hl; by right|left|right]; (split; [done|]).
      * intros g' [->|Hg']%elem_of_cons; [done|by apply Hall].
      * exists g'. split; [by right|done].
    + right. rewrite (bind_err _ _ _ _ _ Heq). split; [done|]. exists g. split; [by left|done].
Qed.

(** * A concrete engine *)

Definition demo_step (k : N) : WorkflowTemplateStep := mkStep [k] [k] [k] (Some [k]).
Definition demo_template : WorkflowTemplate :=
  mkTemplate [100%N] [100%N] [] None [demo_step 97; demo_step 98; demo_step 99]
    [mkGuard [] [98%N] []].
Definition demo_engine : WorkflowEngine :=
  match WorkflowEngine_new [] [demo_template] true true true with
  | Ok e => e
  | _ => mkEngine [] WorkflowRun_default false false false false false 1
  end.

(** The template selected and bound, and its first step checked. *)
Definition demo_selected : WorkflowEngine := (wexec (Select [100%N] None) demo_engine).1.
Definition demo_checked : WorkflowEngine := (wexec (Check 1) demo_selected).1.
Definition demo_bound : WorkflowEngine := (wexec (SetBound true) demo_checked).1.

Lemma wreachable_demo : wreachable demo_engine.
Proof. apply (wreach_new [] [demo_template] true true true). by vm_compute. Qed.
Lemma wreachable_selected : wreachable demo_selected.
Proof. apply wreach_step, wreachable_demo. Qed.
Lemma wreachable_checked : wreachable demo_checked.
Proof. apply wreach_step, wreachable_selected. Qed.
Lemma wreachable_bound : wreachable demo_bound.
Proof. apply wreach_step, wreachable_checked. Qed.

(** * The guarantees *)

(** C11: in every reachable state every operation of the engine ends without a
    panic in a consistent state (the run names one of the validated templates
    and has one flag per step, the issue title is at most 500 bytes, the
    revision is never 0), and neither the current step nor the guards panic. *)
Theorem workflow_safe e o applies :
  wreachable e →
  no_panic (wexec o e).2 ∧ engine_ok (wexec o e).1 ∧ current_step e ≠ None ∧
  no_panic (check_matching_guards applies e).2.
Proof.
  intros Hok%wreachable_ok. destruct (wexec_ok o e Hok) as [? ?]. split_and!; try done.
  - pose proof (current_step_spec e Hok) as Hcs. by destruct (current_step e).
  - unfold check_matching_guards. rewrite bind_gets. destruct (we_guards_enabled e); [|done].
    unfold require_active_template. destruct (active_template e) as [t|] eqn:Ht.
    + erewrite bind_ok; [|rewrite bind_gets, Ht; done].
      destruct (guards_loop e t (filter (λ g, applies g = true) (wt_guards t)) Hok Ht) as [[-> _]|[-> _]]; try done.
      by intros g [_ Hg]%list_elem_of_filter.
    + erewrite bind_err; [done|]. by rewrite bind_gets, Ht.
Qed.

Lemma workflow_safe_witness : no_panic (wexec (Check 3) demo_checked).2 ∧ engine_ok (wexec (Check 3) demo_checked).1.
Proof.
  destruct (workflow_safe demo_checked (Check 3) (λ _, true) wreachable_checked) as (H1 & H2 & _). by split.
Defined.

(** The operations that change what a state reader sees. *)
Definition visible_op (o : wop) : bool :=
  match o with
  | SetBound _ | SetAutomation _ _ | SetSelectorNudge _ | RestoreRun _ => false
  | _ => true
  end.

(** An operation that fails changes nothing, and a visible one that succeeds
    moves the revision, so a reader's cursor never misses it. *)
Theorem errors_change_nothing e o :
  wreachable e →
  match (wexec o e).2 with
  | Ok _ => visible_op o = true → we_revision (wexec o e).1 ≠ we_revision e
  | _ => (wexec o e).1 = e
  end.
Proof.
  intros Hok%wreachable_ok. pose proof (eo_revision e Hok) as Hrev.
  assert (∀ e', we_revision e' = we_revision e → we_revision (bump_revision e') ≠ we_revision e) as Hb.
  { intros e' He. destruct (bump_revision_spec e') as [_ Hne]. rewrite He in Hne. by apply Hne. }
  destruct o; cbn [wexec]; unfold modify, uncheck, skip; cbn [fst snd]; try done.
  - rewrite select_spec. repeat case_match; try done. intros _. by apply Hb.
  - rewrite check_spec by done. repeat case_match; try done. intros _. by apply Hb.
  - rewrite write_spec by done. repeat case_match; try done. intros _. by apply Hb.
  - rewrite write_spec by done. repeat case_match; try done. intros _. by apply Hb.
  - intros _. unfold reset. repeat case_match; by apply Hb.
  - intros _. by apply Hb.
  - intros _. by apply Hb.
Qed.

Lemma errors_change_nothing_witness : (wexec (Check 3) demo_checked).1 = demo_checked.
Proof.
  pose proof (errors_change_nothing demo_checked (Check 3) wreachable_checked) as H.
  assert ((wexec (Check 3) demo_checked).2 = Err OrderingViolation) as Hr by (by vm_compute).
  rewrite Hr in H. exact H.
Defined.

(** Completed steps have no gap before them. *)
Definition contiguous (done : list bool) : Prop :=
  ∀ i j, i < j → done !! j = Some true → done !! i = Some true.

(** Reached without skipping or unchecking. *)
Inductive driven : WorkflowEngine → Prop :=
| driven_new defaults ts a c g e : WorkflowEngine_new defaults ts a c g = Ok e → driven e
| driven_step e o :
    driven e → match o with Skip _ | Uncheck _ => False | _ => True end → driven (wexec o e).1.

Lemma driven_reachable e : driven e → wreachable e.
Proof. induction 1; [by eapply wreach_new|by apply wreach_step]. Qed.

Lemma contiguous_replicate n : contiguous (replicate n false).
Proof. intros i j _ [Hd _]%lookup_replicate. done. Qed.

Lemma clear_after_gap_true l : ∀ j,
  clear_after_gap true l !! j ≠ Some true.
Proof.
  induction l as [|b l IH]; intros j; [done|]. simpl. rewrite andb_false_r. destruct j as [|j]; [done|apply IH].
Qed.

Lemma clear_after_gap_contiguous l : contiguous (clear_after_gap false l).
Proof.
  induction l as [|b l IH]; intros i j Hij Hj; [done|]. simpl in *. rewrite andb_true_r in *.
  destruct j as [|j]; [lia|]. simpl in Hj. destruct b; simpl in *.
  - destruct i as [|i]; [done|]. simpl. apply (IH i j); [lia|done].
  - by apply clear_after_gap_true in Hj.
Qed.

(** Checks go in order: a check succeeds exactly when its number names a
    step of the active template and every earlier step is done; and a run that
    was never skipped or unchecked has no gap in its completed steps. *)
Theorem checks_in_order e step :
  driven e →
  contiguous (wr_done (we_run e)) ∧
  ((check step e).2 = Ok tt ↔ ∃ t, active_template e = Some t ∧ 1 ≤ step ≤ length (wt_steps t) ∧
     ∀ j, j < step - 1 → wr_done (we_run e) !! j = Some true).
Proof.
  intros Hd. pose proof (wreachable_ok e (driven_reachable e Hd)) as Hok. split.
  - clear Hok. induction Hd as [defaults ts a c g e Hnew|e o Hd IH Ho].
    + unfold WorkflowEngine_new in Hnew. case_match; [|done|done]. injection Hnew as <-. by intros i j.
    + pose proof (wreachable_ok e (driven_reachable e Hd)) as Hok.
      destruct o; try done; cbn [wexec]; unfold modify; cbn [fst].
      * rewrite select_spec. repeat case_match; try done. simpl. apply contiguous_replicate.
      * rewrite check_spec by done. destruct (active_template e) as [t|] eqn:Ht; [|done].
        destruct (invalid_step t step0) eqn:Hs; [done|].
        destruct (active_template_run e t Hok Ht) as [_ Hl]. apply invalid_step_false in Hs.
        pose proof (forallb_take (step0 - 1) (wr_done (we_run e)) ltac:(lia)) as Hf.
        destruct (forallb id _); [|done]. simpl. intros i j Hij Hj. rewrite list_lookup_insert in *.
        repeat case_decide; try done; destruct_and?; [by apply Hf; [done|lia]|by apply (IH i j)].
      * unfold reset. repeat case_match; simpl; try done; apply contiguous_replicate.
      * simpl. repeat case_match; simpl; try done. apply clear_after_gap_contiguous.
  - rewrite check_spec by done. destruct (active_template e) as [t|] eqn:Ht.
    2:{ split; [done|]. by intros (t & ? & _). }
    destruct (active_template_run e t Hok Ht) as [_ Hl].
    destruct (invalid_step t step) eqn:Hs.
    { split; [done|]. intros (t' & [= <-] & Hr & _). apply invalid_step_false in Hr. congruence. }
    apply invalid_step_false in Hs.
    pose proof (forallb_take (step - 1) (wr_done (we_run e)) ltac:(lia)) as Hf.
    destruct (forallb id _); simpl.
    + split; [intros _; exists t; split_and!; try done; try lia; by apply Hf|done].
    + split; [done|]. intros (t' & _ & _ & Hall). by apply Hf in Hall.
Qed.

Lemma checks_in_order_witness : (check 2 demo_checked).2 = Ok tt.
Proof.
  assert (driven demo_checked) as Hd.
  { apply driven_step; [|done]. apply driven_step; [|done].
    apply (driven_new [] [demo_template] true true true). by vm_compute. }
  apply (checks_in_order demo_checked 2 Hd). exists demo_template. split; [by vm_compute|].
  split; [by vm_compute; lia|]. intros [|j] Hj; [by vm_compute|simpl in Hj; lia].
Defined.

(** Guards block exactly what they should: with guards disabled anything
    passes; otherwise a check passes exactly when every guard that applies has
    all the steps before the one it names done, is blocked when one has not,
    fails for lack of a template when none is active, and changes nothing. *)
Theorem guards_exact e applies :
  wreachable e →
  (check_matching_guards applies e).1 = e ∧
  match (check_matching_guards applies e).2 with
  | Ok _ => we_guards_enabled e = false ∨
      ∃ t, active_template e = Some t ∧ ∀ g, g ∈ wt_guards t → applies g = true → guard_open e t g
  | Err GuardBlocked => we_guards_enabled e = true ∧
      ∃ t g, active_template e = Some t ∧ g ∈ wt_guards t ∧ applies g = true ∧ ¬ guard_open e t g
  | Err NoActiveTemplate => we_guards_enabled e = true ∧ active_template e = None
  | _ => False
  end.
Proof.
  intros Hok%wreachable_ok. unfold check_matching_guards. rewrite bind_gets.
  destruct (we_guards_enabled e) eqn:Hen; [|by split; [|left]].
  unfold require_active_template. destruct (active_template e) as [t|] eqn:Ht.
  2:{ erewrite bind_err by (by rewrite bind_gets, Ht). split_and!; done. }
  erewrite bind_ok; [|rewrite bind_gets, Ht; done].
  destruct (guards_loop e t (filter (λ g, applies g = true) (wt_guards t)) Hok Ht) as [[-> Hall]|[-> (g & Hg & Hn)]].
  - by intros g [_ Hg]%list_elem_of_filter.
  - split; [done|]. right. exists t. split; [done|]. intros g Hg Ha. apply Hall. by apply list_elem_of_filter.
  - split; [done|]. split; [done|]. apply list_elem_of_filter in Hg as [Ha Hg]. by exists t, g.
Qed.

Lemma guards_exact_witness : (check_matching_guards (λ _, true) demo_selected).1 = demo_selected.
Proof. exact (proj1 (guards_exact demo_selected (λ _, true) wreachable_selected)). Defined.

(** * Persistence *)

Lemma clear_after_gap_id l : contiguous l → clear_after_gap false l = l.
Proof.
  induction l as [|b l IH]; intros Hc; [done|]. simpl. rewrite andb_true_r. destruct b; simpl; f_equal.
  - apply IH. intros i j Hij Hj. apply (Hc (S i) (S j)); [lia|done].
  - assert (∀ j, l !! j ≠ Some true) as Hnone.
    { intros j Hj. by specialize (Hc 0 (S j) ltac:(lia) Hj). }
    clear Hc IH. induction l as [|b l IH]; [done|]. simpl. rewrite andb_false_r. f_equal.
    + specialize (Hnone 0). by destruct b.
    + apply IH. intros j. apply (Hnone (S j)).
Qed.

Lemma resize_id l : resize (length l) l = l.
Proof. unfold resize. rewrite take_ge, Nat.sub_diag by lia. apply app_nil_r. Qed.

(** A run survives a restart: restored into an engine with the same
    templates, the persisted form of a run gives back its template, its issue
    and its completed steps up to the first gap; all of it when it was never
    skipped out of order; and there is nothing to persist exactly when the run
    is the initial one. *)
Theorem persist_restore_roundtrip e e0 :
  wreachable e → we_templates e0 = we_templates e →
  match persisted_run e with
  | None => we_run e = WorkflowRun_default
  | Some p =>
      let r := we_run e in
      we_run (restore_run p e0)
      = mkRun (wr_template_id r) (wr_template_index r) (clear_after_gap false (wr_done r)) (wr_active_issue r) ∧
      (contiguous (wr_done r) → we_run (restore_run p e0) = r)
  end.
Proof.
  intros Hok%wreachable_ok Hts. destruct (eo_run e Hok) as [Hr Hi].
  destruct (we_run e) as [tid ti done issue] eqn:Hrun. unfold persisted_run. rewrite Hrun. simpl in *.
  assert ((λ nt : N * text, (nt.1, truncate_issue_title nt.2)) <$> issue = issue) as Hissue.
  { destruct issue as [[n title]|]; [|done]. simpl. by rewrite truncate_issue_title_id by (by eapply Hi). }
  destruct ti as [i|].
  - destruct Hr as (t & Ht & -> & Hl).
    assert (∀ p, p = mkPersisted (Some (wt_id t)) done issue →
      we_run (restore_run p e0) = mkRun (Some (wt_id t)) (Some i) (clear_after_gap false done) issue) as Hrest.
    { intros p ->. unfold restore_run. simpl. rewrite Hts, (template_position_unique e i t Hok Ht), Ht, Hissue.
      by rewrite <- Hl, resize_id. }
    split; [by apply Hrest|]. intros Hc. etransitivity; [by apply Hrest|]. by rewrite clear_after_gap_id.
  - destruct Hr as [-> ->]. destruct issue as [[n title]|]; [|done].
    unfold restore_run. simpl in *. injection Hissue as Ht. by rewrite Ht.
Qed.

Lemma persist_restore_roundtrip_witness :
  ∃ p, persisted_run demo_checked = Some p ∧ we_run (restore_run p demo_engine) = we_run demo_checked.
Proof.
  pose proof (persist_restore_roundtrip demo_checked demo_engine wreachable_checked ltac:(by vm_compute)) as H.
  destruct (persisted_run demo_checked) as [p|] eqn:Hp; [|by vm_compute in Hp].
  exists p. split; [reflexivity|]. destruct H as [_ H]. apply H.
  intros [|[|[|i]]] [|[|[|j]]] Hij Hj; try lia; by vm_compute in Hj.
Defined.

(** A bound engine keeps its template: whatever operation follows, other
    than unbinding it or restoring a run, the engine stays bound to the same
    template at the same place. *)
Theorem bound_keeps_template e o tid :
  wreachable e → we_bound e = true → wr_template_id (we_run e) = Some tid →
  match o with SetBound _ | RestoreRun _ => False | _ => True end →
  we_bound (wexec o e).1 = true ∧ wr_template_id (we_run (wexec o e).1) = Some tid ∧
  wr_template_index (we_run (wexec o e).1) = wr_template_index (we_run e).
Proof.
  intros Hok%wreachable_ok Hb Hid Ho. destruct o; try done; cbn [wexec]; unfold modify, uncheck, skip; cbn [fst].
  - rewrite select_spec. unfold refuses. rewrite Hb, Hid. simpl. case_bool_decide as Heq; [subst template_id|done].
    destruct (eo_run e Hok) as [Hr _]. destruct (wr_template_index (we_run e)) as [i|] eqn:Hi.
    + destruct Hr as (t & Ht & Hid' & _). assert (tid = wt_id t) as -> by congruence. simpl.
      rewrite (template_position_unique e i t Hok Ht), Ht. done.
    + destruct Hr as [? _]. congruence.
  - rewrite check_spec by done. by repeat case_match.
  - rewrite write_spec by done. by repeat case_match.
  - rewrite write_spec by done. by repeat case_match.
  - unfold reset. rewrite Hb. by destruct (active_template e).
Qed.

Lemma bound_keeps_template_witness : wr_template_id (we_run (wexec (Select [101%N] None) demo_bound).1) = Some [100%N].
Proof.
  refine (proj1 (proj2 (bound_keeps_template demo_bound (Select [101%N] None) [100%N] wreachable_bound _ _ I)));
    by vm_compute.
Defined.

(** * What a status shows *)

Lemma visible_before e idx j :
  engine_ok e → idx < visible_step_count e → j < idx → wr_done (we_run e) !! j = Some true.
Proof.
  intros Hok. unfold visible_step_count, mode. destruct (active_template e) as [t|] eqn:Ht; [|lia].
  destruct (active_template_run e t Hok Ht) as [_ Hl].
  assert (take (length (wt_steps t)) (wr_done (we_run e)) = wr_done (we_run e)) as Htk by (rewrite <- Hl; apply firstn_all).
  rewrite Htk. destruct (forallb id (wr_done (we_run e))) eqn:Hall.
  - intros Hidx Hj. rewrite <- Htk in Hall.
    pose proof (forallb_take (length (wt_steps t)) (wr_done (we_run e)) ltac:(lia)) as Hf.
    apply Hf; [done|lia].
  - intros Hidx Hj. destruct (position negb (wr_done (we_run e))) as [i|] eqn:Hp.
    + apply position_Some in Hp as [(d & Hd & _) Hbefore]. apply lookup_lt_Some in Hd.
      destruct (lookup_lt_is_Some_2 (wr_done (we_run e)) j ltac:(lia)) as [b Hb]. rewrite Hb. f_equal.
      specialize (Hbefore j b ltac:(lia) Hb). by destruct b.
    + exfalso. assert (forallb id (wr_done (we_run e)) = true); [|congruence].
      apply forallb_forall. intros b Hb%list_elem_of_In. pose proof (position_None _ _ Hp b Hb) as H. by destruct b.
Qed.

(** Later steps stay hidden: every step a snapshot shows has all the steps
    before it done, and the only unfinished one it can show is the current
    step. *)
Theorem later_steps_hidden e o :
  wreachable e → o ∈ snapshot_steps e →
  ∃ st, o = Some st ∧ 1 ≤ ss_index st ∧
    (∀ j, j < ss_index st - 1 → wr_done (we_run e) !! j = Some true) ∧
    (ss_done st = false → current_step e = Some (Some st)).
Proof.
  intros Hok%wreachable_ok. unfold snapshot_steps. destruct (active_template e) as [t|] eqn:Ht;
    [|by intros ?%not_elem_of_nil].
  intros (idx & -> & [Hv Hidx%elem_of_seq]%list_elem_of_filter)%list_elem_of_fmap.
  destruct (active_template_run e t Hok Ht) as [_ Hl].
  destruct (lookup_lt_is_Some_2 (wt_steps t) idx ltac:(lia)) as [s Hs].
  destruct (lookup_lt_is_Some_2 (wr_done (we_run e)) idx ltac:(lia)) as [d Hd].
  unfold status_for_step, is_step_done_index. rewrite Hs, Hd. simpl. eexists. split; [done|]. simpl.
  replace (idx + 1 - 1) with idx by lia. split; [lia|].
  assert (∀ j, j < idx → wr_done (we_run e) !! j = Some true) as Hbefore by (intros; by apply (visible_before e idx)).
  split; [done|]. intros ->. unfold current_step. rewrite Ht.
  destruct (position negb (wr_done (we_run e))) as [i|] eqn:Hp.
  - apply position_Some in Hp as [(d & Hdi & Hneg) Hfirst].
    assert (i = idx) as ->.
    { destruct (Nat.lt_trichotomy i idx) as [Hlt|[|Hgt]]; [|done|].
      - rewrite Hbefore in Hdi by done. injection Hdi as <-. done.
      - by specialize (Hfirst idx false Hgt Hd). }
    rewrite Hd. unfold status_for_step. by rewrite Hs.
  - by pose proof (position_None _ _ Hp false (list_elem_of_lookup_2 _ _ _ Hd)).
Qed.

Lemma later_steps_hidden_witness :
  ∃ st, current_step demo_checked = Some (Some st) ∧ 1 ≤ ss_index st.
Proof.
  assert (∃ st, Some st ∈ snapshot_steps demo_checked ∧ ss_done st = false) as (st & Hin & Hd).
  { eexists. split; [right; left|]. by vm_compute. }
  destruct (later_steps_hidden demo_checked (Some st) wreachable_checked Hin) as (st' & [= <-] & H1 & _ & H2).
  exists st. split; [exact (H2 Hd)|exact H1].
Defined.
