(* ===== verification/LineIo.v ===== *)
(** The bounded, length-prefixed framing of quecto's socket protocol.

    Models [src/quecto-line-io/src/lib.rs] and [frame.rs].  A byte is an [N] below
    256; sizes and capacities of buffers are [N].  A reader is any type of the class [BufRead],
    which stands for tokio's [AsyncBufRead]; a writer is one of [Write].  A method
    on a reader and a caller's [Vec] runs in the monad [M] over both, so that what it
    has consumed and written stays so however it ends.

    The loops ask the reader until the line, the buffer or the count is full: they
    have fuel, one unit for each turn, and running out is [Panic], so that no theorem
    lets it pass.  A turn consumes at least one byte, so as many turns as the stream
    has bytes, and one more, are always enough. *)

From S2P Require Import Prelude.

(** * Errors and readers *)

Inductive IoError := UnexpectedEof | OtherIo (kind : N).
#[export] Instance IoError_eq_dec : EqDecision IoError. Proof. solve_decision. Defined.

(** [AsyncBufRead]: the bytes at hand, asked for when there are none, and how many of
    them are done with. *)
Class BufRead (R : Type) := {
  fill_buf : M R IoError (list N);
  consume : nat → R → R;
}.

(** [AsyncWrite] as its extension uses it. *)
Class Write (W : Type) := {
  write_all : list N → M W IoError unit;
  flush : M W IoError unit;
}.

(** * Byte vectors *)

(** A [Vec<u8>]: its bytes and how many its allocation holds. *)
Record Vec := mkVec { ve_bytes : list N; ve_capacity : N }.

Definition byte_count (bs : list N) : N := N.of_nat (length bs).
Definition ve_len (v : Vec) : N := byte_count (ve_bytes v).

Definition clear (v : Vec) : Vec := mkVec [] (ve_capacity v).
Definition shrink_to (min : N) (v : Vec) : Vec :=
  if (min <? ve_capacity v)%N then mkVec (ve_bytes v) (N.max (ve_len v) min) else v.
Definition reserve_exact (additional : N) (v : Vec) : Vec :=
  if (ve_capacity v - ve_len v <? additional)%N then mkVec (ve_bytes v) (ve_len v + additional) else v.
(** Growth when the length passes the capacity: doubled, at least eight. *)
Definition grown (needed : N) (v : Vec) : N :=
  if (ve_capacity v <? needed)%N then N.max (N.max (2 * ve_capacity v) needed) 8 else ve_capacity v.
Definition extend_from_slice (bs : list N) (v : Vec) : Vec :=
  mkVec (ve_bytes v ++ bs) (grown (ve_len v + byte_count bs) v).
Definition resize (n : N) (b : N) (v : Vec) : Vec :=
  mkVec (take (N.to_nat n) (ve_bytes v) ++ replicate (N.to_nat n - length (ve_bytes v)) b) (grown n v).
Definition ends_with (b : N) (v : Vec) : bool := bool_decide (list.last (ve_bytes v) = Some b).
Definition pop (v : Vec) : Vec := mkVec (removelast (ve_bytes v)) (ve_capacity v).
Definition truncate (n : N) (v : Vec) : Vec := mkVec (take (N.to_nat n) (ve_bytes v)) (ve_capacity v).

(** * UTF-8 *)

Definition is_cont (b : N) : bool := (128 <=? b)%N && (b <=? 191)%N.
Definition within (lo hi b : N) : bool := (lo <=? b)%N && (b <=? hi)%N.

(** What may follow the first byte of three, and of four. *)
Definition second_of_three (b0 b1 : N) : bool :=
  if (b0 =? 224)%N then within 160 191 b1
  else if (b0 =? 237)%N then within 128 159 b1
  else is_cont b1.
Definition second_of_four (b0 b1 : N) : bool :=
  if (b0 =? 240)%N then within 144 191 b1
  else if (b0 =? 244)%N then within 128 143 b1
  else is_cont b1.

(** The characters of some bytes; [None] for each longest start of one that is not
    one. *)
Fixpoint utf8_chars (bs : list N) : list (option N) :=
  match bs with
  | [] => []
  | b0 :: bs1 =>
      if (b0 <? 128)%N then Some b0 :: utf8_chars bs1
      else if within 194 223 b0 then
        match bs1 with
        | b1 :: bs2 =>
            if is_cont b1 then Some ((b0 - 192) * 64 + (b1 - 128))%N :: utf8_chars bs2 else None :: utf8_chars bs1
        | [] => [None]
        end
      else if within 224 239 b0 then
        match bs1 with
        | b1 :: bs2 =>
            if second_of_three b0 b1 then
              match bs2 with
              | b2 :: bs3 =>
                  if is_cont b2
                  then Some ((b0 - 224) * 4096 + (b1 - 128) * 64 + (b2 - 128))%N :: utf8_chars bs3
                  else None :: utf8_chars bs2
              | [] => [None]
              end
            else None :: utf8_chars bs1
        | [] => [None]
        end
      else if within 240 244 b0 then
        match bs1 with
        | b1 :: bs2 =>
            if second_of_four b0 b1 then
              match bs2 with
              | b2 :: bs3 =>
                  if is_cont b2 then
                    match bs3 with
                    | b3 :: bs4 =>
                        if is_cont b3
                        then Some ((b0 - 240) * 262144 + (b1 - 128) * 4096 + (b2 - 128) * 64 + (b3 - 128))%N
                             :: utf8_chars bs4
                        else None :: utf8_chars bs3
                    | [] => [None]
                    end
                  else None :: utf8_chars bs2
              | [] => [None]
              end
            else None :: utf8_chars bs1
        | [] => [None]
        end
      else None :: utf8_chars bs1
  end.

Definition from_utf8 (bs : list N) : option (list N) := mapM id (utf8_chars bs).
Definition from_utf8_lossy (bs : list N) : list N := default 65533%N <$> utf8_chars bs.

(** * Lines ([lib.rs]) *)

Definition PROTOCOL_LINE_CAP_BYTES : N := 8388608.
Definition INITIAL_CAPACITY : N := 8192.
Definition RECLAIM_THRESHOLD : N := 65536.
Definition NEWLINE : N := 10.

Record BoundedLine := mkBoundedLine { bl_content : list N; bl_truncated : bool }.
Record BoundedLineRead := mkBoundedLineRead { br_bytes_read : N; br_truncated : bool }.

Definition finish (buf : list N) : list N :=
  match from_utf8 buf with Some s => s | None => from_utf8_lossy buf end.

Section methods.
Context {R : Type} `{BufRead R}.

(** A method of the reader alone, beside the caller's buffer. *)
Definition on_reader {X E A} (m : M R E A) : M (R * X) E A := λ s,
  match m s.1 with (r, o) => ((r, s.2), o) end.
(** A method run with a buffer of its own, dropped at an error. *)
Definition with_own {X E A} (x : X) (m : M (R * X) E A) : M R E (A * X) := λ r,
  match m (r, x) with
  | ((r', x'), Ok a) => (r', Ok (a, x'))
  | ((r', _), Err e) => (r', Err e)
  | ((r', _), Panic) => (r', Panic)
  end.
(** [?] where the error converts. *)
Definition err_into {S E E' A} (f : E → E') (m : M S E A) : M S E' A := λ s,
  match m s with
  | (s', Ok a) => (s', Ok a)
  | (s', Err e) => (s', Err (f e))
  | (s', Panic) => (s', Panic)
  end.

Definition on_vec {X E} (f : Vec → Vec) : M (X * Vec) E unit := modify (λ s, (s.1, f s.2)).

Definition position_of (b : N) (bs : list N) : option nat := fst <$> list_find (λ x, x = b) bs.

(** The reclaim both twins start with. *)
Definition reclaimed (max_bytes : N) (v : Vec) : Vec :=
  let v := clear v in
  if (RECLAIM_THRESHOLD <? ve_capacity v)%N then shrink_to (N.min INITIAL_CAPACITY max_bytes) v else v.

(** Room for [copy_len] bytes more, within [max_bytes]. *)
Definition reserved {E} (copy_len max_bytes : N) (v : Vec) : res E Vec :=
  if (ve_capacity v <? ve_len v + copy_len)%N then
    let target := N.min (N.max (ve_capacity v * 2) (ve_len v + copy_len)) max_bytes in
    match u64_sub target (ve_len v) with
    | Some additional => Ok (reserve_exact additional v)
    | None => Panic
    end
  else Ok v.

Fixpoint read_line_loop (fuel : nat) (max_bytes bytes_read : N) (truncated : bool)
    : M (R * Vec) IoError (option BoundedLineRead) :=
  match fuel with
  | 0 => panic
  | S fuel =>
      available <- on_reader fill_buf ;;
      if bool_decide (available = []) then
        ret (if (0 <? bytes_read)%N || truncated then Some (mkBoundedLineRead bytes_read truncated) else None)
      else
        let newline_pos := position_of NEWLINE available in
        let take_ := match newline_pos with Some pos => S pos | None => length available end in
        line <- gets snd ;;
        let copy_len := N.min (u64_saturating_sub max_bytes (ve_len line)) (N.of_nat take_) in
        let truncated := truncated || (copy_len <? N.of_nat take_)%N in
        line <- reads (λ s, reserved copy_len max_bytes s.2) ;;
        on_vec (λ _, extend_from_slice (take (N.to_nat copy_len) available) line) ;;
        let bytes_read := (bytes_read + N.of_nat take_)%N in
        modify (λ s, (consume take_ s.1, s.2)) ;;
        match newline_pos with
        | Some _ => ret (Some (mkBoundedLineRead bytes_read truncated))
        | None => read_line_loop fuel max_bytes bytes_read truncated
        end
  end.

Definition read_bounded_line_into (fuel : nat) (max_bytes : N) : M (R * Vec) IoError (option BoundedLineRead) :=
  on_vec (reclaimed max_bytes) ;;
  read_line_loop fuel max_bytes 0 false.

Definition read_bounded_line (fuel : nat) (max_bytes : N) : M R IoError (option BoundedLine) :=
  let buf := mkVec [] (N.min max_bytes INITIAL_CAPACITY) in
  let framed_cap := u64_saturating_add max_bytes 1 in
  out <- with_own buf (read_bounded_line_into fuel framed_cap) ;;
  match out with
  | (None, _) => ret None
  | (Some read, buf) =>
      let buf := if ends_with NEWLINE buf then pop buf else buf in
      let buf := if (max_bytes <? ve_len buf)%N then shrink_to max_bytes (truncate max_bytes buf) else buf in
      ret (Some (mkBoundedLine (finish (ve_bytes buf)) (br_truncated read)))
  end.

End methods.

(** * Frames ([frame.rs]) *)

Definition FRAME_PREFIX_LEN : nat := 4.
Definition LEGACY_JSON_OPENER : N := 123.
Definition PROTOCOL_FRAME_CAP_BYTES : N := PROTOCOL_LINE_CAP_BYTES.
Definition PROTOCOL_VERSION : N := 2.

Inductive FrameError :=
| Oversized (declared max : N)
| VersionMismatch (first_byte : N)
| Io (e : IoError).

Inductive Incoming := IncomingFrame (payload : list N) | IncomingLegacyLine (line : list N).
Inductive WireMode := Framed | LegacyLine.

(** [u32::to_be_bytes] and [from_be_bytes]. *)
Definition u32_to_be_bytes (n : N) : list N :=
  [n / 16777216; (n / 65536) `mod` 256; (n / 256) `mod` 256; n `mod` 256]%N.
Definition u32_from_be_bytes (bs : list N) : N := foldl (λ n b, n * 256 + b)%N 0%N bs.
Definition u32_try_from (n : N) : option N := if (n <? 4294967296)%N then Some n else None.

Section writing.
Context {W : Type} `{Write W}.

Definition write_frame (payload : list N) (max_bytes : N) : M W FrameError unit :=
  if (max_bytes <? byte_count payload)%N then throw (Oversized (byte_count payload) max_bytes)
  else
    len <- ok_or (u32_try_from (byte_count payload)) (Oversized (byte_count payload) max_bytes) ;;
    err_into Io (write_all (u32_to_be_bytes len)) ;;
    err_into Io (write_all payload) ;;
    err_into Io flush ;;
    ret tt.

Definition write_message (payload : list N) (mode : WireMode) (max_bytes : N) : M W FrameError unit :=
  match mode with
  | Framed => write_frame payload max_bytes
  | LegacyLine =>
      declared <- ok_or (u64_checked_add (byte_count payload) 1) (Oversized u64_max max_bytes) ;;
      if (max_bytes <? declared)%N then throw (Oversized declared max_bytes)
      else
        err_into Io (write_all payload) ;;
        err_into Io (write_all [NEWLINE]) ;;
        err_into Io flush ;;
        ret tt
  end.

End writing.

Section reading.
Context {R : Type} `{BufRead R}.

(** [buf[filled..filled + n].copy_from_slice(..)]. *)
Definition copy_at (filled : nat) (bs buf : list N) : list N :=
  take filled buf ++ bs ++ drop (filled + length bs) buf.

(** The slice is the second part of the state. *)
Fixpoint read_exact_loop (fuel filled : nat) : M (R * list N) IoError bool :=
  match fuel with
  | 0 => panic
  | S fuel =>
      buf_len <- gets (λ s, length s.2) ;;
      if filled <? buf_len then
        available <- on_reader fill_buf ;;
        if bool_decide (available = []) then
          if filled =? 0 then ret false else throw UnexpectedEof
        else
          let n := (buf_len - filled) `min` length available in
          modify (λ s, (s.1, copy_at filled (take n available) s.2)) ;;
          modify (λ s, (consume n s.1, s.2)) ;;
          read_exact_loop fuel (filled + n)
      else ret true
  end.
Definition read_exact_buffered (fuel : nat) : M (R * list N) IoError bool := read_exact_loop fuel 0.

Fixpoint discard_up_to (fuel : nat) (len : N) : M R IoError unit :=
  match fuel with
  | 0 => panic
  | S fuel =>
      if (0 <? len)%N then
        available <- fill_buf ;;
        if bool_decide (available = []) then ret tt
        else
          let take_ := N.min (byte_count available) len in
          modify (consume (N.to_nat take_)) ;;
          discard_up_to fuel (len - take_)
      else ret tt
  end.

Definition read_frame (fuel : nat) (max_bytes : N) : M R FrameError (option (list N)) :=
  prefix <- err_into Io (with_own (replicate FRAME_PREFIX_LEN 0%N) (read_exact_buffered fuel)) ;;
  if negb prefix.1 then ret None
  else
    let declared := u32_from_be_bytes prefix.2 in
    if (max_bytes <? declared)%N then
      err_into Io (discard_up_to fuel declared) ;;
      throw (Oversized declared max_bytes)
    else
      payload <- err_into Io (with_own (replicate (N.to_nat declared) 0%N) (read_exact_buffered fuel)) ;;
      if negb payload.1 then throw (Io UnexpectedEof) else ret (Some payload.2).

(** The first byte that is no blank line's. *)
Fixpoint sniff (fuel : nat) : M R IoError (option N) :=
  match fuel with
  | 0 => panic
  | S fuel =>
      available <- fill_buf ;;
      match available with
      | [] => ret None
      | b :: _ =>
          if (b =? NEWLINE)%N || (b =? 13)%N then modify (consume 1) ;; sniff fuel
          else ret (Some b)
      end
  end.

Definition read_frame_or_legacy_line (fuel : nat) (max_bytes : N) : M R FrameError (option Incoming) :=
  first <- err_into Io (sniff fuel) ;;
  match first with
  | None => ret None
  | Some first_byte =>
      if (first_byte =? LEGACY_JSON_OPENER)%N then
        out <- err_into Io (with_own (mkVec [] 0) (read_bounded_line_into fuel max_bytes)) ;;
        match out with
        | (None, _) => ret None
        | (Some read, line) =>
            if br_truncated read then throw (Oversized (br_bytes_read read) max_bytes)
            else
              let line := if ends_with NEWLINE line then pop line else line in
              ret (Some (IncomingLegacyLine (ve_bytes line)))
        end
      else if (first_byte =? 0)%N then
        frame <- read_frame fuel max_bytes ;;
        ret (IncomingFrame <$> frame)
      else throw (VersionMismatch first_byte)
  end.

(** A method of the slice a [Vec] holds. *)
Definition on_slice {E A} (m : M (R * list N) E A) : M (R * Vec) E A := λ s,
  match m (s.1, ve_bytes s.2) with ((r, bs), o) => ((r, mkVec bs (ve_capacity s.2)), o) end.

Definition read_frame_into (fuel : nat) (max_bytes : N) : M (R * Vec) FrameError bool :=
  on_vec (reclaimed max_bytes) ;;
  prefix <- err_into Io (on_reader (with_own (replicate FRAME_PREFIX_LEN 0%N) (read_exact_buffered fuel))) ;;
  if negb prefix.1 then ret false
  else
    let declared := u32_from_be_bytes prefix.2 in
    if (max_bytes <? declared)%N then
      err_into Io (on_reader (discard_up_to fuel declared)) ;;
      throw (Oversized declared max_bytes)
    else
      on_vec (resize declared 0) ;;
      filled <- err_into Io (on_slice (read_exact_buffered fuel)) ;;
      if negb filled then throw (Io UnexpectedEof) else ret true.

Definition read_frame_or_legacy_line_into (fuel : nat) (max_bytes : N) : M (R * Vec) FrameError (option WireMode) :=
  first <- err_into Io (on_reader (sniff fuel)) ;;
  match first with
  | None => ret None
  | Some first_byte =>
      if (first_byte =? LEGACY_JSON_OPENER)%N then
        out <- err_into Io (read_bounded_line_into fuel max_bytes) ;;
        match out with
        | None => ret None
        | Some read =>
            if br_truncated read then throw (Oversized (br_bytes_read read) max_bytes)
            else
              on_vec (λ buf, if ends_with NEWLINE buf then pop buf else buf) ;;
              ret (Some LegacyLine)
        end
      else if (first_byte =? 0)%N then
        filled <- read_frame_into fuel max_bytes ;;
        if filled : bool then ret (Some Framed) else ret None
      else throw (VersionMismatch first_byte)
  end.

End reading.
