(* ===== verification/LineIoFacts.v ===== *)
(** What the readers of [LineIo] do to a stream of bytes, whatever pieces it comes in. *)

From S2P Require Import Prelude LineIo.

(** * Streams *)

(** What the source relies on of [AsyncBufRead]: the bytes a reader is yet to give are
    [pending], and then it is at its end or fails ([ending]).  [fill_buf] answers the
    first of them, none only at the end, and gives nothing away by it; [consume] takes
    those it is told of those just shown. *)
Class BufReadLaws (R : Type) `{BufRead R} := {
  pending : R → list N;
  ending : R → option IoError;
  fill_some r : pending r ≠ [] →
    ∃ r' now rest, fill_buf r = (r', Ok now) ∧ now ≠ [] ∧ pending r = now ++ rest
    ∧ pending r' = pending r ∧ ending r' = ending r
    ∧ ∀ n, n ≤ length now → pending (consume n r') = drop n (pending r) ∧ ending (consume n r') = ending r;
  fill_eof r : pending r = [] → ending r = None →
    ∃ r', fill_buf r = (r', Ok []) ∧ pending r' = [] ∧ ending r' = None;
  fill_err r e : pending r = [] → ending r = Some e → ∃ r', fill_buf r = (r', Err e);
}.

(** The bytes through the first newline, or all of them. *)
Fixpoint first_line (s : list N) : list N :=
  match s with
  | [] => []
  | b :: s' => if decide (b = NEWLINE) then [b] else b :: first_line s'
  end.

Definition is_blank (b : N) : bool := (b =? NEWLINE)%N || (b =? 13)%N.
Fixpoint skip_blank (s : list N) : list N :=
  match s with
  | [] => []
  | b :: s' => if is_blank b then skip_blank s' else s
  end.

Lemma skip_blank_len s : length (skip_blank s) ≤ length s.
Proof. induction s as [|b s IH]; simpl; [lia|]. destruct (is_blank b); simpl; lia. Qed.

Lemma first_line_app now rest :
  first_line (now ++ rest) =
  match position_of NEWLINE now with Some pos => take (S pos) now | None => now ++ first_line rest end.
Proof.
  unfold position_of. induction now as [|b now IH]; [done|]. simpl.
  destruct (decide (b = NEWLINE)) as [->|Hb]; [done|]. rewrite IH.
  destruct (list_find _ now) as [[i y]|]; done.
Qed.

Lemma first_line_prefix s : first_line s = take (length (first_line s)) s.
Proof.
  induction s as [|b s IH]; simpl; [done|]. destruct (decide _); simpl; [by rewrite take_0|]. f_equal. exact IH.
Qed.

Lemma first_line_len s : length (first_line s) ≤ length s.
Proof. rewrite (first_line_prefix s), length_take. lia. Qed.

Lemma first_line_all s : NEWLINE ∉ s → first_line s = s.
Proof.
  induction s as [|b s IH]; simpl; [done|]. rewrite not_elem_of_cons. intros [Hb Hs].
  rewrite decide_False by congruence. by rewrite IH.
Qed.

Lemma first_line_ended line rest : NEWLINE ∉ line → first_line (line ++ NEWLINE :: rest) = line ++ [NEWLINE].
Proof.
  induction line as [|b line IH]; simpl; [done|]. rewrite not_elem_of_cons. intros [Hb Hs].
  rewrite decide_False by congruence. by rewrite IH.
Qed.

Lemma position_of_Some b bs pos : position_of b bs = Some pos → pos < length bs ∧ b ∈ bs.
Proof.
  unfold position_of. intros Hp. apply fmap_Some in Hp as ([i y] & Hf & ->).
  apply list_find_Some in Hf as (Hl & -> & _). split; [by apply lookup_lt_Some in Hl|by eapply list_elem_of_lookup_2].
Qed.

Lemma position_of_None b bs : position_of b bs = None → b ∉ bs.
Proof.
  unfold position_of. intros Hp%fmap_None Hin. apply list_find_None in Hp.
  rewrite list.Forall_forall in Hp. by apply (Hp b).
Qed.

(** * Buffers *)

Definition vec_ok (v : Vec) : Prop := (ve_len v ≤ ve_capacity v)%N.

Lemma byte_count_app a b : byte_count (a ++ b) = (byte_count a + byte_count b)%N.
Proof. unfold byte_count. rewrite length_app. lia. Qed.

Lemma reclaimed_spec max v :
  ve_bytes (reclaimed max v) = [] ∧ vec_ok (reclaimed max v) ∧ (ve_capacity (reclaimed max v) ≤ RECLAIM_THRESHOLD)%N.
Proof.
  unfold reclaimed, shrink_to, clear, vec_ok, ve_len, byte_count, RECLAIM_THRESHOLD, INITIAL_CAPACITY. simpl.
  destruct (N.ltb_spec 65536 (ve_capacity v)); simpl; [|split_and!; [done|lia|lia]].
  destruct (N.ltb_spec (8192 `min` max) (ve_capacity v)); simpl; split_and!; (done || lia).
Qed.

(** Room is made without growing past the cap, and without an underflow. *)
Lemma reserved_spec {E} copy_len max v :
  vec_ok v → (ve_len v + copy_len ≤ N.max max (ve_len v))%N →
  ∃ v', reserved (E := E) copy_len max v = Ok v' ∧ ve_bytes v' = ve_bytes v
  ∧ (ve_len v + copy_len ≤ ve_capacity v')%N ∧ (ve_capacity v' ≤ N.max (ve_capacity v) max)%N.
Proof.
  unfold vec_ok, reserved. intros Hok Hmax. destruct (N.ltb_spec (ve_capacity v) (ve_len v + copy_len)).
  - unfold u64_sub. rewrite (proj2 (N.leb_le _ _)) by lia. eexists. split; [done|].
    unfold reserve_exact. rewrite (proj2 (N.ltb_lt _ _)) by lia. simpl. split_and!; [done|lia..].
  - exists v. split_and!; [done|done|lia..].
Qed.

Lemma extend_reserved bs v :
  (ve_len v + byte_count bs ≤ ve_capacity v)%N →
  extend_from_slice bs v = mkVec (ve_bytes v ++ bs) (ve_capacity v).
Proof. intros Hc. unfold extend_from_slice, grown. by rewrite (proj2 (N.ltb_ge _ _)) by lia. Qed.

(** * The readers, turn by turn *)

Section readers.
Context {R : Type} `{BufReadLaws R}.

(** How a call ends that finds the stream at its end. *)
Definition at_end {A} (e : option IoError) (eof : res IoError A) : res IoError A :=
  match e with Some e => Err e | None => eof end.

Lemma on_reader_eq {X E A} (m : M R E A) r r' o (x : X) : m r = (r', o) → on_reader m (r, x) = ((r', x), o).
Proof. unfold on_reader. simpl. by intros ->. Qed.

Lemma sniff_spec fuel r :
  length (pending r) < fuel →
  ∃ r', sniff fuel r = (r', match skip_blank (pending r) with
                            | b :: _ => Ok (Some b)
                            | [] => at_end (ending r) (Ok None)
                            end)
  ∧ (skip_blank (pending r) ≠ [] ∨ ending r = None →
     pending r' = skip_blank (pending r) ∧ ending r' = ending r).
Proof.
  revert r. induction fuel as [|fuel IH]; [lia|]. intros r Hf. cbn [sniff].
  destruct (pending r) as [|b s] eqn:Hp.
  - destruct (ending r) as [e|] eqn:He.
    + destruct (fill_err r e Hp He) as [r' Hfill]. exists r'. rewrite (bind_err _ _ _ _ _ Hfill). split; [done|].
      by intros [?|?].
    + destruct (fill_eof r Hp He) as (r' & Hfill & Hp' & He'). exists r'. by rewrite (bind_ok _ _ _ _ _ Hfill).
  - destruct (fill_some r) as (r' & now & rest & Hfill & Hne & Happ & Hp' & He' & Hc); [by rewrite Hp|].
    rewrite (bind_ok _ _ _ _ _ Hfill). rewrite Hp in *. destruct now as [|b' now]; [done|].
    injection Happ as <- Happ. change ((b =? NEWLINE)%N || (b =? 13)%N) with (is_blank b). simpl.
    destruct (is_blank b) eqn:Hb.
    + rewrite bind_modify. destruct (Hc 1 ltac:(simpl; lia)) as [Hp1 He1]. simpl in Hp1. rewrite drop_0 in Hp1.
      destruct (IH (consume 1 r')) as (r2 & Hs & Hrest); [rewrite Hp1; simpl in Hf; lia|].
      rewrite Hp1, He1 in *. eauto.
    + exists r'. eauto.
Qed.

Lemma discard_spec fuel : ∀ len r,
  length (pending r) < fuel →
  ∃ r', discard_up_to fuel len r = (r', if (len <=? byte_count (pending r))%N then Ok tt else at_end (ending r) (Ok tt))
  ∧ ((len ≤ byte_count (pending r))%N ∨ ending r = None →
     pending r' = drop (N.to_nat len) (pending r) ∧ ending r' = ending r).
Proof.
  unfold byte_count. induction fuel as [|fuel IH]; [lia|]. intros len r Hf. cbn [discard_up_to].
  destruct (N.ltb_spec 0 len) as [Hl|Hl].
  2: { assert (len = 0)%N as -> by lia. exists r. rewrite (proj2 (N.leb_le _ _)) by lia. by rewrite drop_0. }
  destruct (pending r) as [|b s] eqn:Hp.
  - rewrite (proj2 (N.leb_gt _ _)) by (simpl; lia). destruct (ending r) as [e|] eqn:He.
    + destruct (fill_err r e Hp He) as [r' Hfill]. exists r'. rewrite (bind_err _ _ _ _ _ Hfill). split; [done|].
      intros [?|?]; [simpl in *; lia|done].
    + destruct (fill_eof r Hp He) as (r' & Hfill & Hp' & He'). exists r'.
      rewrite (bind_ok _ _ _ _ _ Hfill), bool_decide_true by done. by rewrite drop_nil.
  - destruct (fill_some r) as (r' & now & rest & Hfill & Hne & Happ & Hp' & He' & Hc); [by rewrite Hp|].
    rewrite (bind_ok _ _ _ _ _ Hfill), bool_decide_false by done. rewrite <- Hp in *. clear b s Hp.
    set (n := N.min (byte_count now) len). rewrite bind_modify.
    assert (N.to_nat n ≤ length now) as Hn by (unfold n, byte_count; lia).
    assert (0 < N.to_nat n) as Hn0 by (unfold n, byte_count; destruct now; simpl in *; [done|lia]).
    destruct (Hc (N.to_nat n) Hn) as [Hp1 He1].
    assert (length now ≤ length (pending r)) as Hle by (rewrite Happ, length_app; lia).
    destruct (IH (len - n)%N (consume (N.to_nat n) r')) as (r2 & Hs & Hrest); [rewrite Hp1, length_drop; lia|].
    exists r2. fold (byte_count now). fold n. rewrite Hs, Hp1, He1, length_drop in *. split.
    + replace (len <=? N.of_nat (length (pending r)))%N
        with (len - n <=? N.of_nat (length (pending r) - N.to_nat n))%N; [done|].
      destruct (N.leb_spec len (N.of_nat (length (pending r)))); [apply N.leb_le|apply N.leb_gt]; unfold n in *; lia.
    + intros Hor. rewrite drop_drop in Hrest.
      replace (N.to_nat n + N.to_nat (len - n)) with (N.to_nat len) in Hrest by (unfold n; lia).
      apply Hrest. destruct Hor; [left; lia|by right].
Qed.

Lemma copy_at_grow filled buf a b :
  filled + length a + length b ≤ length buf →
  copy_at (filled + length a) b (copy_at filled a buf) = copy_at filled (a ++ b) buf.
Proof.
  intros Hl. unfold copy_at. rewrite length_app.
  assert (filled = length (take filled buf)) as Hf by (rewrite length_take; lia).
  rewrite (take_app_add' _ _ filled (length a) Hf), take_app_length, <- !app_assoc. do 3 f_equal.
  rewrite <- Nat.add_assoc, (drop_app_add' _ _ filled _ Hf), drop_app_add, drop_drop. f_equal. lia.
Qed.

Lemma length_copy_at filled a buf : filled + length a ≤ length buf → length (copy_at filled a buf) = length buf.
Proof. intros Hl. unfold copy_at. rewrite !length_app, length_take, length_drop. lia. Qed.

Lemma read_exact_spec fuel : ∀ filled r buf,
  length (pending r) < fuel → filled ≤ length buf →
  let n := length buf - filled in
  ∃ r', read_exact_loop fuel filled (r, buf) =
    ((r', copy_at filled (take n (pending r)) buf),
     if n <=? length (pending r) then Ok true
     else at_end (ending r) (if bool_decide (filled = 0 ∧ pending r = []) then Ok false else Err UnexpectedEof))
  ∧ (n ≤ length (pending r) ∨ ending r = None → pending r' = drop n (pending r) ∧ ending r' = ending r).
Proof.
  induction fuel as [|fuel IH]; [lia|]. intros filled r buf Hf Hl n. cbn [read_exact_loop].
  rewrite bind_gets. cbn [snd]. destruct (Nat.ltb_spec filled (length buf)) as [Hlt|Hge].
  2: { assert (n = 0) as -> by lia. exists r. simpl. rewrite drop_0. split; [|done].
       unfold copy_at. simpl. by rewrite Nat.add_0_r, take_drop. }
  destruct (pending r) as [|b s] eqn:Hp.
  - rewrite (proj2 (Nat.leb_gt _ _)) by (simpl; lia). rewrite take_nil, drop_nil.
    assert (copy_at filled [] buf = buf) as -> by (unfold copy_at; simpl; by rewrite Nat.add_0_r, take_drop).
    destruct (ending r) as [e|] eqn:He.
    + destruct (fill_err r e Hp He) as [r' Hfill]. exists r'.
      pose proof (on_reader_eq _ _ _ _ buf Hfill) as Hon.
      rewrite (bind_err _ _ _ _ _ Hon). split; [done|]. intros [?|?]; [simpl in *; lia|done].
    + destruct (fill_eof r Hp He) as (r' & Hfill & Hp' & He'). exists r'.
      pose proof (on_reader_eq _ _ _ _ buf Hfill) as Hon.
      rewrite (bind_ok _ _ _ _ _ Hon), bool_decide_true by done. split; [|done]. simpl.
      destruct (Nat.eqb_spec filled 0); [rewrite bool_decide_true by done|rewrite bool_decide_false by tauto]; done.
  - destruct (fill_some r) as (r' & now & rest & Hfill & Hne & Happ & Hp' & He' & Hc); [by rewrite Hp|].
    pose proof (on_reader_eq _ _ _ _ buf Hfill) as Hon.
    rewrite (bind_ok _ _ _ _ _ Hon), bool_decide_false by done. rewrite <- Hp in *.
    assert (pending r ≠ []) as Hpne by (by rewrite Hp). clear b s Hp.
    set (k := n `min` length now). fold n. fold k. rewrite !bind_modify. cbn [fst snd].
    assert (0 < k) as Hk0 by (unfold k, n; destruct now; simpl in *; [done|lia]).
    assert (k ≤ length now) as Hk by lia. destruct (Hc k Hk) as [Hp1 He1].
    assert (length now ≤ length (pending r)) as Hle by (rewrite Happ, length_app; lia).
    assert (take k now = take k (pending r)) as Ht by (rewrite Happ, take_app_le; done).
    assert (length (take k (pending r)) = k) as Hlk by (rewrite length_take; lia).
    destruct (IH (filled + k) (consume k r') (copy_at filled (take k now) buf)) as (r2 & Hs & Hrest).
    { rewrite Hp1, length_drop. lia. }
    { rewrite length_copy_at by (rewrite Ht, Hlk; lia). lia. }
    exists r2. rewrite Ht in *. rewrite length_copy_at in * by (rewrite Hlk; lia).
    rewrite Hs, Hp1, He1, length_drop in *.
    replace (length buf - (filled + k)) with (n - k) in * by lia.
    split.
    + rewrite <- Hlk at 1. rewrite copy_at_grow by (rewrite Hlk, length_take, length_drop; lia).
      rewrite take_take_drop. replace (k + (n - k)) with n by lia.
      f_equal. replace (n - k <=? length (pending r) - k) with (n <=? length (pending r))
        by (destruct (Nat.leb_spec n (length (pending r))); symmetry; [apply Nat.leb_le|apply Nat.leb_gt]; lia).
      rewrite (bool_decide_false (filled + k = 0 ∧ _)), (bool_decide_false (filled = 0 ∧ _)) by (intros []; (done || lia)).
      done.
    + intros Hor. rewrite drop_drop in Hrest. replace (k + (n - k)) with n in Hrest by lia.
      apply Hrest. destruct Hor; [left; lia|by right].
Qed.

(** What a line read ends with, once [line] of the stream is consumed. *)
Definition line_read (max kept read : N) (truncated : bool) (line : list N) : BoundedLineRead :=
  mkBoundedLineRead (read + byte_count line) (truncated || (max - kept <? byte_count line)%N).

(** Read in two turns, or in one. *)
Lemma line_read_app max kept read truncated now rest :
  let copy := N.min (max - kept) (N.of_nat (length now)) in
  line_read max (kept + copy) (read + N.of_nat (length now)) (truncated || (copy <? N.of_nat (length now))%N) rest
  = line_read max kept read truncated (now ++ rest).
Proof.
  intros copy. unfold line_read. rewrite byte_count_app. f_equal; [unfold byte_count at 2; lia|].
  rewrite <- orb_assoc. f_equal. unfold byte_count at 2. unfold copy.
  destruct (N.ltb_spec (max - kept) (N.of_nat (length now) + byte_count rest)) as [Hlt|Hge].
  - apply orb_true_iff. rewrite !N.ltb_lt. lia.
  - apply orb_false_iff. rewrite !N.ltb_ge. lia.
Qed.

(** A turn that finds bytes takes them up to the newline, and keeps what fits. *)
Lemma read_line_turn fuel max read truncated r v r' now :
  fill_buf r = (r', Ok now) → now ≠ [] → vec_ok v → (ve_len v ≤ max)%N →
  ∃ taken capacity, 0 < taken ≤ length now
  ∧ match position_of NEWLINE now with Some pos => taken = S pos | None => taken = length now end
  ∧ let copy := N.min (max - ve_len v) (N.of_nat taken) in
    (ve_len v + copy ≤ capacity)%N ∧ (capacity ≤ N.max (ve_capacity v) max)%N
    ∧ let s' := (consume taken r', mkVec (ve_bytes v ++ take (N.to_nat copy) now) capacity) in
      let read' := (read + N.of_nat taken)%N in let truncated' := truncated || (copy <? N.of_nat taken)%N in
      read_line_loop (S fuel) max read truncated (r, v) =
      match position_of NEWLINE now with
      | Some _ => (s', Ok (Some (mkBoundedLineRead read' truncated')))
      | None => read_line_loop fuel max read' truncated' s'
      end.
Proof.
  intros Hfill Hne Hok Hlen. cbn [read_line_loop].
  rewrite (bind_ok _ _ _ _ _ (on_reader_eq _ _ _ _ v Hfill)), bool_decide_false by done.
  rewrite bind_gets. cbn [snd]. unfold u64_saturating_sub.
  set (taken := match position_of NEWLINE now with Some pos => S pos | None => length now end).
  assert (0 < taken ≤ length now) as Htk.
  { unfold taken. destruct (position_of NEWLINE now) as [pos|] eqn:Hpos; [apply position_of_Some in Hpos; lia|].
    destruct now; simpl; [done|lia]. }
  set (copy := N.min (max - ve_len v) (N.of_nat taken)).
  destruct (reserved_spec (E := IoError) copy max v Hok ltac:(unfold copy; lia)) as (v1 & Hres & Hb1 & Hc1 & Hcap).
  exists taken, (ve_capacity v1). split_and!; [lia|lia|unfold taken; by destruct (position_of NEWLINE now)|done|done|].
  rewrite (bind_reads _ v1) by done. unfold on_vec. rewrite !bind_modify. cbn [fst snd].
  rewrite extend_reserved, Hb1; [by destruct (position_of NEWLINE now)|].
  unfold ve_len in *. rewrite Hb1. unfold byte_count at 2. rewrite length_take. unfold copy in *. lia.
Qed.

Lemma read_line_spec fuel max : ∀ read truncated r v,
  length (pending r) < fuel → vec_ok v → (ve_len v ≤ max)%N → (truncated = true → ve_len v = max) →
  let line := first_line (pending r) in
  let answer := line_read max (ve_len v) read truncated line in
  ∃ r' capacity, read_line_loop fuel max read truncated (r, v) =
    ((r', mkVec (ve_bytes v ++ take (N.to_nat (max - ve_len v)) line) capacity),
     if bool_decide (NEWLINE ∈ pending r) then Ok (Some answer)
     else at_end (ending r)
            (Ok (if (0 <? br_bytes_read answer)%N || br_truncated answer then Some answer else None)))
  ∧ (capacity ≤ N.max (ve_capacity v) max)%N
  ∧ (NEWLINE ∈ pending r ∨ ending r = None →
     pending r' = drop (length line) (pending r) ∧ ending r' = ending r).
Proof.
  induction fuel as [|fuel IH]; [lia|]. intros read truncated r v Hf Hok Hlen Htr line answer. subst line answer.
  destruct (pending r) as [|b s] eqn:Hp.
  - rewrite bool_decide_false by apply not_elem_of_nil. cbn [first_line]. rewrite firstn_nil, app_nil_r.
    cbn [read_line_loop]. destruct (ending r) as [e|] eqn:He.
    + destruct (fill_err r e Hp He) as [r' Hfill]. exists r', (ve_capacity v).
      pose proof (on_reader_eq _ _ _ _ v Hfill) as Hon.
      rewrite (bind_err _ _ _ _ _ Hon). split_and!; [by destruct v|lia|]. intros [?%not_elem_of_nil|?]; done.
    + destruct (fill_eof r Hp He) as (r' & Hfill & Hp' & He'). exists r', (ve_capacity v).
      pose proof (on_reader_eq _ _ _ _ v Hfill) as Hon.
      rewrite (bind_ok _ _ _ _ _ Hon), bool_decide_true by done. split_and!; [|lia|done].
      assert (line_read max (ve_len v) read truncated [] = mkBoundedLineRead read truncated) as ->.
      { unfold line_read, byte_count. simpl. by rewrite N.add_0_r, (proj2 (N.ltb_ge _ 0)), orb_false_r by lia. }
      by destruct v.
  - destruct (fill_some r) as (r' & now & rest & Hfill & Hne & Happ & Hp' & He' & Hc); [by rewrite Hp|].
    rewrite <- Hp in *. clear b s Hp.
    destruct (read_line_turn fuel max read truncated r v r' now Hfill Hne Hok Hlen)
      as (taken & capacity & Htk & Et & Hlo & Hhi & ->).
    set (copy := N.min (max - ve_len v) (N.of_nat taken)) in *.
    destruct (Hc taken ltac:(lia)) as [Hp1 He1].
    pose proof (first_line_app now rest) as Hline. rewrite <- Happ in Hline.
    destruct (position_of NEWLINE now) as [pos|] eqn:Hpos.
    + apply position_of_Some in Hpos as [_ Hin].
      rewrite bool_decide_true by (rewrite Happ; apply elem_of_app; by left).
      rewrite <- Et in Hline. rewrite Hline in *.
      assert (byte_count (take taken now) = N.of_nat taken) as Hbt by (unfold byte_count; rewrite length_take; lia).
      exists (consume taken r'), capacity. split_and!; [|lia|].
      * unfold line_read. rewrite Hbt. do 3 f_equal.
        -- f_equal. rewrite take_take. f_equal. unfold copy. lia.
        -- f_equal. f_equal. unfold copy.
           destruct (N.ltb_spec (max - ve_len v) (N.of_nat taken)); [apply N.ltb_lt|apply N.ltb_ge]; lia.
      * intros _. rewrite length_take. replace (taken `min` length now) with taken by lia. by rewrite Hp1, He1.
    + subst taken. set (v2 := mkVec (ve_bytes v ++ take (N.to_nat copy) now) capacity).
      assert (ve_len v2 = ve_len v + copy)%N as Hl2.
      { unfold ve_len, v2. simpl. rewrite byte_count_app. f_equal. unfold byte_count. rewrite length_take. unfold copy. lia. }
      rewrite Happ, drop_app_length in Hp1. rewrite Happ, length_app in Hf.
      destruct (IH (read + N.of_nat (length now))%N (truncated || (copy <? N.of_nat (length now))%N)
                  (consume (length now) r') v2) as (r2 & cap & Hs & Hcap2 & Hrest);
        [rewrite Hp1; lia|unfold vec_ok; rewrite Hl2; simpl; lia|rewrite Hl2; unfold copy; lia|..].
      { intros [Htt|Hcut%N.ltb_lt]%orb_true_iff; rewrite Hl2; [rewrite (Htr Htt) in *|]; unfold copy in *; lia. }
      exists r2, cap. rewrite Hs, Hp1, He1, Hl2 in *. apply position_of_None in Hpos.
      assert (bool_decide (NEWLINE ∈ pending r) = bool_decide (NEWLINE ∈ rest)) as ->
        by (apply bool_decide_ext; rewrite Happ, elem_of_app; tauto).
      rewrite Hline, <- line_read_app by done. fold copy. split_and!; [|simpl in *; lia|].
      * f_equal. f_equal. unfold v2. simpl. rewrite <- app_assoc. f_equal. f_equal.
        rewrite take_app. f_equal; [|f_equal; unfold copy; lia]. unfold copy.
        destruct (decide (N.of_nat (length now) ≤ max - ve_len v)%N); [by rewrite !take_ge by lia|f_equal; lia].
      * intros Hor. rewrite length_app, Happ, drop_app_add. apply Hrest.
        rewrite Happ, elem_of_app in Hor. tauto.
Qed.

End readers.

(** The framing of [LineIo] as a function of the stream of bytes: what the next message
    is, and what of the stream comes after it.  Both of the program's readers refine it. *)

(** * Messages of a stream *)

(** The frame at the start of [s], which ends in [e]; what comes after it. *)
Definition frame_at (max : N) (s : list N) (e : option IoError) : res FrameError (option (list N)) * list N :=
  let ended eof := match e with Some e => Err (Io e) | None => eof end in
  if length s <? FRAME_PREFIX_LEN then
    (ended (if bool_decide (s = []) then Ok None else Err (Io UnexpectedEof)), [])
  else
    let declared := u32_from_be_bytes (take FRAME_PREFIX_LEN s) in
    let body := drop FRAME_PREFIX_LEN s in
    if (declared <=? byte_count body)%N then
      (if (max <? declared)%N then Err (Oversized declared max) else Ok (Some (take (N.to_nat declared) body)),
       drop (N.to_nat declared) body)
    else (ended (if (max <? declared)%N then Err (Oversized declared max) else Err (Io UnexpectedEof)), []).

Definition chomp (line : list N) : list N :=
  if bool_decide (list.last line = Some NEWLINE) then removelast line else line.

Definition line_at (max : N) (s : list N) (e : option IoError) : res FrameError (list N) * list N :=
  let line := first_line s in
  let read := if (max <? byte_count line)%N then Err (Oversized (byte_count line) max) else Ok (chomp line) in
  match e with
  | Some e => if bool_decide (NEWLINE ∈ s) then (read, drop (length line) s) else (Err (Io e), [])
  | None => (read, drop (length line) s)
  end.

Definition map_res {E A B} (f : A → B) (o : res E A) : res E B :=
  match o with Ok a => Ok (f a) | Err e => Err e | Panic => Panic end.

Definition message_at (max : N) (s : list N) (e : option IoError) : res FrameError (option Incoming) * list N :=
  match skip_blank s with
  | [] => (match e with Some e => Err (Io e) | None => Ok None end, [])
  | (b :: _) as s =>
      if (b =? LEGACY_JSON_OPENER)%N
      then let '(o, rest) := line_at max s e in (map_res (Some ∘ IncomingLegacyLine) o, rest)
      else if (b =? 0)%N
      then let '(o, rest) := frame_at max s e in (map_res (fmap IncomingFrame) o, rest)
      else (Err (VersionMismatch b), s)
  end.

(** ** The readers refine it *)

Definition is_io {A} (o : res FrameError A) : Prop := ∃ e, o = Err (Io e).

Lemma copy_at_all a buf : length a = length buf → copy_at 0 a buf = a.
Proof. intros Hl. unfold copy_at. simpl. rewrite drop_ge by lia. by rewrite app_nil_r. Qed.

Lemma chomp_vec v : ve_bytes (if ends_with NEWLINE v then pop v else v) = chomp (ve_bytes v).
Proof. unfold chomp, ends_with. by case_bool_decide. Qed.

Section refinement.
Context {R : Type} `{BufReadLaws R}.

(** The four bytes of a prefix, or what comes of a stream that has fewer. *)
Lemma read_prefix fuel r :
  length (pending r) < fuel →
  ∃ r', with_own (replicate FRAME_PREFIX_LEN 0%N) (read_exact_buffered fuel) r =
    (r', if length (pending r) <? FRAME_PREFIX_LEN
         then at_end (ending r)
                (if bool_decide (pending r = []) then Ok (false, replicate FRAME_PREFIX_LEN 0%N) else Err UnexpectedEof)
         else Ok (true, take FRAME_PREFIX_LEN (pending r)))
  ∧ (FRAME_PREFIX_LEN ≤ length (pending r) ∨ ending r = None →
     pending r' = drop FRAME_PREFIX_LEN (pending r) ∧ ending r' = ending r).
Proof.
  intros Hf. destruct (read_exact_spec fuel 0 r (replicate FRAME_PREFIX_LEN 0%N) Hf ltac:(lia)) as (r' & He & Hr).
  exists r'. unfold with_own, read_exact_buffered. rewrite He. rewrite length_replicate, Nat.sub_0_r in *.
  split; [|done]. destruct (Nat.ltb_spec (length (pending r)) FRAME_PREFIX_LEN) as [Hlt|Hge].
  - rewrite (proj2 (Nat.leb_gt _ _)) by lia. destruct (ending r); [done|]. simpl.
    destruct (decide (pending r = [])) as [Hnil|Hne].
    + rewrite !bool_decide_true by done. by rewrite Hnil.
    + by rewrite !bool_decide_false by tauto.
  - rewrite (proj2 (Nat.leb_le _ _)) by lia. by rewrite copy_at_all by (rewrite length_take, length_replicate; lia).
Qed.

(** The declared bytes of a payload. *)
Lemma read_payload fuel (buf : list N) r :
  length (pending r) < fuel →
  ∃ r', read_exact_buffered fuel (r, buf) =
    ((r', copy_at 0 (take (length buf) (pending r)) buf),
     if length buf <=? length (pending r) then Ok true
     else at_end (ending r) (if bool_decide (pending r = []) then Ok false else Err UnexpectedEof))
  ∧ (length buf ≤ length (pending r) → copy_at 0 (take (length buf) (pending r)) buf = take (length buf) (pending r)
     ∧ pending r' = drop (length buf) (pending r) ∧ ending r' = ending r).
Proof.
  intros Hf. destruct (read_exact_spec fuel 0 r buf Hf ltac:(lia)) as (r' & He & Hr).
  exists r'. unfold read_exact_buffered. rewrite Nat.sub_0_r in *. rewrite He. split.
  - destruct (length buf <=? length (pending r)); [done|]. destruct (ending r); [done|]. simpl.
    do 2 f_equal. destruct (decide (pending r = [])); [by rewrite !bool_decide_true by done|by rewrite !bool_decide_false by tauto].
  - intros Hle. rewrite copy_at_all by (rewrite length_take; lia). split; [done|]. apply Hr. by left.
Qed.

Lemma read_frame_refines fuel max r :
  length (pending r) < fuel →
  let '(o, rest) := frame_at max (pending r) (ending r) in
  ∃ r', read_frame fuel max r = (r', o) ∧ (¬ is_io o → pending r' = rest ∧ ending r' = ending r).
Proof.
  intros Hf. unfold frame_at, read_frame. destruct (read_prefix fuel r Hf) as (r1 & Hpre & Hr1).
  unfold bind at 1, err_into at 1. rewrite Hpre. set (s := pending r) in *.
  destruct (Nat.ltb_spec (length s) FRAME_PREFIX_LEN) as [Hlt|Hge].
  - exists r1. destruct (ending r) as [e|] eqn:He; simpl; [split; [done|]; intros Hio; by destruct Hio; eexists|].
    assert (drop FRAME_PREFIX_LEN s = []) as Hd by (apply drop_ge; lia).
    case_bool_decide; simpl; (split; [done|]); intros Hio; [|by destruct Hio; eexists].
    destruct (Hr1 ltac:(auto)) as [-> ->]. by rewrite Hd.
  - destruct (Hr1 ltac:(auto)) as [Hp1 He1]. cbn [fst snd negb]. set (declared := u32_from_be_bytes _).
    set (body := drop FRAME_PREFIX_LEN s) in *.
    assert (length (pending r1) < fuel) as Hf1 by (rewrite Hp1; unfold body; rewrite length_drop; lia).
    destruct (N.ltb_spec max declared) as [Hover|Hfits].
    + destruct (discard_spec fuel declared r1 Hf1) as (r2 & Hdis & Hr2). rewrite Hp1, He1 in *.
      unfold bind, err_into. rewrite Hdis.
      destruct (N.leb_spec declared (byte_count body)); exists r2; [by auto|].
      destruct (ending r) as [e|]; simpl; (split; [done|]); intros Hio; [by destruct Hio; eexists|].
      destruct (Hr2 ltac:(auto)) as [-> ->]. split; [|done]. apply drop_ge. unfold byte_count in *. lia.
    + destruct (read_payload fuel (replicate (N.to_nat declared) 0%N) r1 Hf1) as (r2 & Hpay & Hr2).
      rewrite length_replicate, Hp1, He1 in *. unfold bind, err_into, with_own. rewrite Hpay.
      unfold byte_count. destruct (N.leb_spec declared (N.of_nat (length body))); exists r2.
      * rewrite (proj2 (Nat.leb_le _ _)) by lia. destruct Hr2 as (-> & ? & ?); [lia|]. done.
      * rewrite (proj2 (Nat.leb_gt _ _)) by lia.
        destruct (ending r) as [e|]; simpl; [|case_bool_decide; simpl]; (split; [done|]); intros Hio; by destruct Hio; eexists.
Qed.

(** ** Lines *)

(** A read of a line into a buffer reclaimed, or one's own. *)
Lemma read_line_into_spec fuel max r v :
  length (pending r) < fuel →
  let line := first_line (pending r) in
  let answer := mkBoundedLineRead (byte_count line) (max <? byte_count line)%N in
  ∃ r' capacity, read_bounded_line_into fuel max (r, v) =
    ((r', mkVec (take (N.to_nat max) line) capacity),
     if bool_decide (NEWLINE ∈ pending r) then Ok (Some answer)
     else at_end (ending r) (Ok (if bool_decide (pending r = []) then None else Some answer)))
  ∧ (capacity ≤ N.max RECLAIM_THRESHOLD max)%N
  ∧ (NEWLINE ∈ pending r ∨ ending r = None → pending r' = drop (length line) (pending r) ∧ ending r' = ending r).
Proof.
  intros Hf line answer. unfold read_bounded_line_into, on_vec. rewrite bind_modify. cbn [fst snd].
  destruct (reclaimed_spec max v) as (Hnil & Hok & Hcap). set (v0 := reclaimed max v) in *.
  assert (ve_len v0 = 0%N) as Hl0 by (unfold ve_len; by rewrite Hnil).
  destruct (read_line_spec fuel max 0%N false r v0 Hf Hok ltac:(lia) ltac:(done)) as (r' & cap & -> & Hc & Hr).
  exists r', cap. fold line in Hr |- *. rewrite Hl0, Hnil, N.sub_0_r.
  assert (line_read max 0 0 false line = answer) as -> by (unfold line_read, answer; by rewrite N.add_0_l, N.sub_0_r).
  split_and!; [|lia|done]. do 2 f_equal. destruct (bool_decide (NEWLINE ∈ pending r)) eqn:Hn; [done|].
  apply bool_decide_eq_false in Hn. unfold answer. simpl. unfold line. rewrite first_line_all by done.
  destruct (pending r) as [|b s] eqn:Hp.
  - rewrite bool_decide_true by done. unfold byte_count. simpl. by rewrite (proj2 (N.ltb_ge _ _)) by lia.
  - rewrite bool_decide_false by done. unfold byte_count at 1. by rewrite (proj2 (N.ltb_lt _ _)) by (simpl; lia).
Qed.

(** A line that starts with a byte is never missing. *)
Lemma line_at_some b s e max :
  line_at max (b :: s) e =
  (if bool_decide (NEWLINE ∈ b :: s) then (line_at max (b :: s) None)
   else match e with Some e => (Err (Io e), []) | None => line_at max (b :: s) None end).
Proof. unfold line_at. destruct e; by case_bool_decide. Qed.

Lemma read_line_into_refines fuel max r v b s :
  length (pending r) < fuel → pending r = b :: s →
  let '(o, rest) := line_at max (pending r) (ending r) in
  ∃ r' v' o', read_bounded_line_into fuel max (r, v) = ((r', v'), o')
  ∧ (ve_len v' ≤ max)%N ∧ (ve_capacity v' ≤ N.max RECLAIM_THRESHOLD max)%N
  ∧ match o' with
    | Ok (Some read) => o = (if br_truncated read then Err (Oversized (br_bytes_read read) max) else Ok (chomp (ve_bytes v')))
    | Ok None | Panic => False
    | Err e => o = Err (Io e)
    end
  ∧ (¬ is_io o → pending r' = rest ∧ ending r' = ending r).
Proof.
  intros Hf Hp. destruct (read_line_into_spec fuel max r v Hf) as (r' & cap & Hread & Hcap & Hr).
  rewrite Hp in *. rewrite line_at_some. rewrite (bool_decide_false (b :: s = [])) in Hread by done.
  set (line := first_line (b :: s)) in *.
  set (kept := mkVec (take (N.to_nat max) line) cap) in *.
  assert (ve_len kept ≤ max)%N as Hlen by (unfold ve_len, kept, byte_count; simpl; rewrite length_take; lia).
  assert ((if (max <? byte_count line)%N then Err (Oversized (byte_count line) max) else Ok (chomp line))
          = (if (max <? byte_count line)%N then Err (Oversized (byte_count line) max) else Ok (chomp (ve_bytes kept)))) as Hk.
  { destruct (N.ltb_spec max (byte_count line)); [done|]. unfold kept. simpl. rewrite take_ge; [done|].
    unfold byte_count in *. lia. }
  destruct (bool_decide_reflect (NEWLINE ∈ b :: s)) as [Hin|Hout].
  - exists r', kept. eexists. split_and!; [exact Hread|done|done| |]; [by simpl|]. intros _. auto.
  - destruct (ending r) as [e|].
    + exists r', kept. eexists. split_and!; [exact Hread|done|done|done|]. intros Hio. by destruct Hio; eexists.
    + exists r', kept. eexists. split_and!; [exact Hread|done|done| |]; [by simpl|]. intros _. auto.
Qed.

(** ** Frames into a buffer *)

Lemma read_frame_into_refines fuel max r v :
  length (pending r) < fuel →
  let '(o, rest) := frame_at max (pending r) (ending r) in
  ∃ r' v' o', read_frame_into fuel max (r, v) = ((r', v'), o')
  ∧ (ve_len v' ≤ max)%N ∧ (ve_capacity v' ≤ N.max (2 * RECLAIM_THRESHOLD) max)%N
  ∧ match o' with
    | Ok true => o = Ok (Some (ve_bytes v'))
    | Ok false => o = Ok None
    | Err e => o = Err e
    | Panic => False
    end
  ∧ (¬ is_io o → pending r' = rest ∧ ending r' = ending r).
Proof.
  intros Hf. unfold frame_at, read_frame_into, on_vec. rewrite bind_modify. cbn [fst snd].
  destruct (reclaimed_spec max v) as (Hnil & Hok & Hcap). set (v0 := reclaimed max v) in *.
  assert (ve_len v0 = 0%N) as Hl0 by (unfold ve_len; by rewrite Hnil).
  destruct (read_prefix fuel r Hf) as (r1 & Hpre & Hr1). unfold bind at 1, err_into at 1.
  rewrite (on_reader_eq _ _ _ _ v0 Hpre). set (s := pending r) in *.
  destruct (Nat.ltb_spec (length s) FRAME_PREFIX_LEN) as [Hlt|Hge].
  - exists r1, v0. assert (drop FRAME_PREFIX_LEN s = []) as Hd by (apply drop_ge; lia).
    destruct (ending r) as [e|] eqn:He; [|simpl; case_bool_decide];
      (eexists; split_and!; [reflexivity|lia|lia|done|]; intros Hio); [by destruct Hio; eexists| |by destruct Hio; eexists].
    destruct (Hr1 ltac:(auto)) as [-> ->]. by rewrite Hd.
  - destruct (Hr1 ltac:(auto)) as [Hp1 He1]. cbn [fst snd negb]. set (declared := u32_from_be_bytes _).
    set (body := drop FRAME_PREFIX_LEN s) in *.
    assert (length (pending r1) < fuel) as Hf1 by (rewrite Hp1; unfold body; rewrite length_drop; lia).
    destruct (N.ltb_spec max declared) as [Hover|Hfits].
    + destruct (discard_spec fuel declared r1 Hf1) as (r2 & Hdis & Hr2). rewrite Hp1, He1 in *.
      unfold bind, err_into. rewrite (on_reader_eq _ _ _ _ v0 Hdis).
      destruct (N.leb_spec declared (byte_count body)); exists r2, v0;
        [eexists; split_and!; [reflexivity|lia|lia|done|]; by auto|].
      destruct (ending r) as [e|]; simpl;
        (eexists; split_and!; [reflexivity|lia|lia|done|]; intros Hio); [by destruct Hio; eexists|].
      destruct (Hr2 ltac:(auto)) as [-> ->]. split; [|done]. apply drop_ge. unfold byte_count in *. lia.
    + rewrite bind_modify. cbn [fst snd]. unfold resize. rewrite Hnil, take_nil, Nat.sub_0_r. cbn [app].
      set (v1 := mkVec _ _).
      assert (ve_capacity v1 ≤ N.max (2 * RECLAIM_THRESHOLD) max)%N as Hc1
        by (unfold v1, grown; simpl; destruct (N.ltb_spec (ve_capacity v0) declared); unfold RECLAIM_THRESHOLD in *; lia).
      destruct (read_payload fuel (ve_bytes v1) r1 Hf1) as (r2 & Hpay & Hr2).
      assert (length (ve_bytes v1) = N.to_nat declared) as Hlv by (unfold v1; simpl; by rewrite length_replicate).
      rewrite Hlv, Hp1, He1 in *. unfold bind, err_into, on_slice. cbn [fst snd]. rewrite Hpay.
      set (v2 := mkVec _ _). assert (ve_len v2 ≤ max)%N as Hl2.
      { unfold ve_len, v2, byte_count. cbn [ve_bytes]. rewrite length_copy_at, Hlv; [lia|]. rewrite length_take, Hlv. lia. }
      unfold byte_count. destruct (N.leb_spec declared (N.of_nat (length body))); exists r2, v2.
      * rewrite (proj2 (Nat.leb_le _ _)) by lia. destruct Hr2 as (Hcopy & ? & ?); [lia|].
        eexists. split_and!; [reflexivity|done|done| |done]. unfold v2. cbn [ve_bytes]. by rewrite Hcopy.
      * rewrite (proj2 (Nat.leb_gt _ _)) by lia.
        destruct (ending r) as [e|]; simpl; [|case_bool_decide; simpl];
          (eexists; split_and!; [reflexivity|done|done|done|]; intros Hio; by destruct Hio; eexists).
Qed.

End refinement.
