(* ===== verification/LineIoProps.v ===== *)
(** The properties of the framing: both readers cut the same messages out of a stream
    whatever pieces it comes in, within bounded memory; messages written are read back;
    and an oversized one costs only itself. *)

From S2P Require Import Prelude LineIo LineIoFacts.

(** * Readers and writers the witnesses use *)

Module Pieces.

(** A connection whose bytes come in pieces, and which then closes or fails. *)
Record t := mk { shown : list N; pieces : list (list N); failure : option IoError }.

Definition fill : M t IoError (list N) := λ r,
  match shown r with
  | _ :: _ => (r, Ok (shown r))
  | [] =>
      match filter (λ p, p ≠ []) (pieces r) with
      | p :: ps => (mk p ps (failure r), Ok p)
      | [] => (mk [] [] (failure r), match failure r with Some e => Err e | None => Ok [] end)
      end
  end.

#[export] Instance reader : BufRead t := {
  fill_buf := fill;
  consume n r := mk (drop n (shown r)) (pieces r) (failure r);
}.

Lemma concat_filter (ps : list (list N)) : concat (filter (λ p, p ≠ []) ps) = concat ps.
Proof. induction ps as [|p ps IH]; [done|]. rewrite filter_cons. destruct p; simpl; by rewrite IH. Qed.

#[export] Program Instance laws : BufReadLaws t := {
  pending r := shown r ++ concat (pieces r);
  ending r := failure r;
}.
Next Obligation.
  intros [[|b s] ps e] Hne; simpl in *; unfold fill; simpl.
  - rewrite <- concat_filter in *. destruct (filter _ ps) as [|p ps'] eqn:Hf; [done|].
    assert (p ≠ []) as Hp.
    { assert (p ∈ filter (λ p, p ≠ []) ps) as Hin by (rewrite Hf; apply list_elem_of_here).
      by apply list_elem_of_filter in Hin as [? _]. }
    exists (mk p ps' e), p, (concat ps'). split_and!; try done. intros n Hn. split; [|done]. simpl.
    by rewrite drop_app_le.
  - exists (mk (b :: s) ps e), (b :: s), (concat ps). split_and!; try done. intros n Hn. split; [|done]. cbn [shown pieces consume reader].
    change (b :: s ++ concat ps) with ((b :: s) ++ concat ps). by rewrite drop_app_le.
Qed.
Next Obligation.
  intros [[|b s] ps e] Hp He; simpl in *; [|done]. subst. unfold fill. simpl. rewrite <- concat_filter in Hp.
  destruct (filter _ ps) as [|p ps'] eqn:Hf; [by eexists|].
  assert (p ∈ filter (λ p, p ≠ []) ps) as [Hne _]%list_elem_of_filter by (rewrite Hf; apply list_elem_of_here).
  by destruct p.
Qed.
Next Obligation.
  intros [[|b s] ps e0] e Hp He; simpl in *; [|done]. subst. unfold fill. simpl. rewrite <- concat_filter in Hp.
  destruct (filter _ ps) as [|p ps'] eqn:Hf; [by eexists|].
  assert (p ∈ filter (λ p, p ≠ []) ps) as [Hne _]%list_elem_of_filter by (rewrite Hf; apply list_elem_of_here).
  by destruct p.
Qed.

End Pieces.

(** What the source relies on of [AsyncWrite]: a write that succeeds adds its bytes, and
    a flush adds none. *)
Class WriteLaws (W : Type) `{Write W} := {
  written : W → list N;
  write_adds bs w w' : write_all bs w = (w', Ok tt) → written w' = written w ++ bs;
  flush_adds w w' : flush w = (w', Ok tt) → written w' = written w;
}.

Module Sink.
#[export] Instance writer : Write (list N) := { write_all bs w := (w ++ bs, Ok tt); flush w := (w, Ok tt) }.
#[export] Program Instance sink_laws : WriteLaws (list N) := { written w := w }.
Next Obligation. by intros bs w w' [= <-]. Qed.
Next Obligation. by intros w w' [= <-]. Qed.
End Sink.

(** * Reading *)

Section reading.
Context {R : Type} `{BufReadLaws R}.

(** What the twin answers, as the other answers it. *)
Definition as_incoming (o : res FrameError (option WireMode)) (buf : list N) : res FrameError (option Incoming) :=
  map_res (fmap (λ mode, match mode with Framed => IncomingFrame buf | LegacyLine => IncomingLegacyLine buf end)) o.

Lemma read_message_refines fuel max r :
  length (pending r) < fuel →
  let '(o, rest) := message_at max (pending r) (ending r) in
  ∃ r', read_frame_or_legacy_line fuel max r = (r', o) ∧ (¬ is_io o → pending r' = rest ∧ ending r' = ending r).
Proof.
  intros Hf. unfold message_at, read_frame_or_legacy_line.
  destruct (sniff_spec fuel r Hf) as (r1 & Hs & Hr1). unfold bind at 1, err_into at 1. rewrite Hs.
  pose proof (skip_blank_len (pending r)) as Hle.
  destruct (skip_blank (pending r)) as [|b s] eqn:Hb.
  - exists r1. destruct (ending r) as [e|] eqn:He; simpl; (split; [done|]); intros Hio; [by destruct Hio; eexists|auto].
  - destruct (Hr1 ltac:(by left)) as [Hp1 He1]. assert (length (pending r1) < fuel) as Hf1 by (rewrite Hp1; lia).
    rewrite <- Hp1, <- He1. destruct (b =? LEGACY_JSON_OPENER)%N.
    + pose proof (read_line_into_refines fuel max r1 (mkVec [] 0) b s Hf1 Hp1) as Hl.
      destruct (line_at _ _ _) as [o rest]. destruct Hl as (r2 & v2 & o' & Hread & _ & _ & Ho & Hrest).
      unfold bind, err_into, with_own. rewrite Hread. exists r2.
      destruct o' as [[read|]|e|]; try done; subst o; cbn [map_res fst snd].
      * destruct (br_truncated read); unfold ret, throw; rewrite ?chomp_vec; (split; [done|]); intros _;
          apply Hrest; by intros [? ?].
      * split; [done|]. intros Hio. by destruct Hio; eexists.
    + destruct (b =? 0)%N; [|by exists r1].
      pose proof (read_frame_refines fuel max r1 Hf1) as Hl. destruct (frame_at _ _ _) as [o rest].
      destruct Hl as (r2 & Hread & Hrest). unfold bind. rewrite Hread. exists r2.
      destruct o as [[p|]|e|]; cbn [map_res]; (split; [done|]); intros Hio; apply Hrest; intros [? [=]]; subst;
        destruct Hio; by eexists.
Qed.

Lemma read_message_into_refines fuel max r v :
  length (pending r) < fuel →
  let '(o, rest) := message_at max (pending r) (ending r) in
  ∃ r' v' o', read_frame_or_legacy_line_into fuel max (r, v) = ((r', v'), o')
  ∧ o = as_incoming o' (ve_bytes v') ∧ o' ≠ Panic
  ∧ (v' = v ∨ (ve_len v' ≤ max)%N ∧ (ve_capacity v' ≤ N.max (2 * RECLAIM_THRESHOLD) max)%N)
  ∧ (¬ is_io o → pending r' = rest ∧ ending r' = ending r).
Proof.
  intros Hf. unfold message_at, read_frame_or_legacy_line_into.
  destruct (sniff_spec fuel r Hf) as (r1 & Hs & Hr1). unfold bind at 1, err_into at 1.
  rewrite (on_reader_eq _ _ _ _ v Hs).
  pose proof (skip_blank_len (pending r)) as Hle.
  destruct (skip_blank (pending r)) as [|b s] eqn:Hb.
  - exists r1, v. destruct (ending r) as [e|] eqn:He; simpl; eexists; split_and!; try done; try (by left);
      intros Hio; [by destruct Hio; eexists|auto].
  - destruct (Hr1 ltac:(by left)) as [Hp1 He1]. assert (length (pending r1) < fuel) as Hf1 by (rewrite Hp1; lia).
    rewrite <- Hp1, <- He1. destruct (b =? LEGACY_JSON_OPENER)%N.
    + pose proof (read_line_into_refines fuel max r1 v b s Hf1 Hp1) as Hl.
      destruct (line_at _ _ _) as [o rest]. destruct Hl as (r2 & v2 & o' & Hread & Hlen & Hcap & Ho & Hrest).
      unfold bind, err_into. rewrite Hread.
      destruct o' as [[read|]|e|]; try done; subst o; cbn [map_res].
      * destruct (br_truncated read).
        -- exists r2, v2. eexists. split_and!; [done..| |]; [right; split; lia|]. intros _. apply Hrest. by intros [? ?].
        -- exists r2, (if ends_with NEWLINE v2 then pop v2 else v2). eexists. split_and!; [done| |done| |].
           ++ unfold as_incoming. simpl. by rewrite chomp_vec.
           ++ right. unfold ve_len in *. rewrite chomp_vec. unfold chomp. split; [|destruct (ends_with _ _); simpl; lia].
              case_bool_decide; [|done]. unfold byte_count in *. rewrite removelast_firstn_len, length_take. lia.
           ++ intros _. apply Hrest. by intros [? ?].
      * exists r2, v2. eexists. split_and!; [done..| |]; [right; split; lia|]. intros Hio. by destruct Hio; eexists.
    + destruct (b =? 0)%N; [|exists r1, v; eexists; split_and!; [done..|by left|done]].
      pose proof (read_frame_into_refines fuel max r1 v Hf1) as Hl. destruct (frame_at _ _ _) as [o rest].
      destruct Hl as (r2 & v2 & o' & Hread & Hlen & Hcap & Ho & Hrest). unfold bind. rewrite Hread. exists r2, v2.
      destruct o' as [[]|e|]; try done; subst o; cbn [map_res fmap];
        (eexists; split_and!; [done..| |]; [by right|]); intros Hio; apply Hrest; intros [? [=]]; subst;
        destruct Hio; by eexists.
Qed.

(** C12: Both readers, the one that allocates and its buffer-reusing twin, answer the
    message the stream of bytes holds next, and leave the reader at what follows it,
    whatever pieces the bytes come in and whatever was read into the buffer before; no
    assertion fails and no read goes on for ever; and the buffer never holds more than
    the cap, nor keeps an allocation above the cap (or twice the reclaim threshold). *)
Theorem readers_cut_the_stream fuel max (r : R) (v : Vec) :
  length (pending r) < fuel →
  let '(o, rest) := message_at max (pending r) (ending r) in
  o ≠ Panic
  ∧ (∃ r', read_frame_or_legacy_line fuel max r = (r', o) ∧ (¬ is_io o → pending r' = rest ∧ ending r' = ending r))
  ∧ (∃ r' v' o', read_frame_or_legacy_line_into fuel max (r, v) = ((r', v'), o')
     ∧ as_incoming o' (ve_bytes v') = o ∧ (¬ is_io o → pending r' = rest ∧ ending r' = ending r)
     ∧ (v' = v ∨ (ve_len v' ≤ max)%N ∧ (ve_capacity v' ≤ N.max (2 * RECLAIM_THRESHOLD) max)%N)).
Proof.
  intros Hf. pose proof (read_message_refines fuel max r Hf) as H1.
  pose proof (read_message_into_refines fuel max r v Hf) as H2.
  destruct (message_at _ _ _) as [o rest]. destruct H2 as (r' & v' & o' & Hread & -> & Hp & Hv & Hr).
  split_and!; [by destruct o'|done|]. exists r', v', o'. done.
Qed.

End reading.

(** * Round trips *)

Section round_trip.
Context {W : Type} `{WriteLaws W}.

(** A message and the framing it goes by; a line is one of JSON, on one line. *)
Definition sendable (m : WireMode * list N) : Prop :=
  match m.1 with
  | Framed => True
  | LegacyLine => head m.2 = Some LEGACY_JSON_OPENER ∧ NEWLINE ∉ m.2
  end.
Definition received (m : WireMode * list N) : Incoming :=
  match m.1 with Framed => IncomingFrame m.2 | LegacyLine => IncomingLegacyLine m.2 end.

(** The bytes of a message on the wire. *)
Definition wire (m : WireMode * list N) : list N :=
  match m.1 with Framed => u32_to_be_bytes (byte_count m.2) ++ m.2 | LegacyLine => m.2 ++ [NEWLINE] end.

Lemma err_into_Ok {S E E' A} (f : E → E') (m : M S E A) s s' a :
  err_into f m s = (s', Ok a) → m s = (s', Ok a).
Proof. unfold err_into. destruct (m s) as [s1 [a'|e|]]; naive_solver. Qed.

(** A write that succeeds put the message on the wire whole, within the cap. *)
Lemma write_message_wire m max (w w' : W) :
  write_message m.2 m.1 max w = (w', Ok tt) → written w' = written w ++ wire m ∧ (byte_count m.2 ≤ max)%N
  ∧ (m.1 = LegacyLine → (byte_count (wire m) ≤ max)%N).
Proof.
  destruct m as [mode payload]. cbn [fst snd]. unfold write_message, write_frame, wire. intros Hw. destruct mode; cbn [fst snd].
  - destruct (N.ltb_spec max (byte_count payload)); [done|].
    apply bind_Ok_inv in Hw as (len & w0 & Hlen & Hw). apply ok_or_Ok_inv in Hlen as [-> Hlen].
    unfold u32_try_from in Hlen. case_match; simplify_eq.
    apply bind_Ok_inv in Hw as ([] & w1 & Hw1%err_into_Ok%write_adds & Hw).
    apply bind_Ok_inv in Hw as ([] & w2 & Hw2%err_into_Ok%write_adds & Hw).
    apply bind_Ok_inv in Hw as ([] & w3 & Hw3%err_into_Ok%flush_adds & Hw). injection Hw as <-.
    rewrite Hw3, Hw2, Hw1, <- app_assoc. done.
  - apply bind_Ok_inv in Hw as (declared & w0 & Hd & Hw). apply ok_or_Ok_inv in Hd as [-> Hd].
    apply u64_checked_add_Some in Hd as [-> _]. destruct (N.ltb_spec max (byte_count payload + 1)); [done|].
    apply bind_Ok_inv in Hw as ([] & w1 & Hw1%err_into_Ok%write_adds & Hw).
    apply bind_Ok_inv in Hw as ([] & w2 & Hw2%err_into_Ok%write_adds & Hw).
    apply bind_Ok_inv in Hw as ([] & w3 & Hw3%err_into_Ok%flush_adds & Hw). injection Hw as <-.
    rewrite Hw3, Hw2, Hw1, <- app_assoc, byte_count_app. unfold byte_count at 3. simpl. split_and!; [done|lia|lia].
Qed.

(** A message refused puts nothing on the wire. *)
Lemma write_message_refused m max (w w' : W) declared cap :
  write_message m.2 m.1 max w = (w', Err (Oversized declared cap)) → w' = w.
Proof.
  destruct m as [mode payload]. cbn [fst snd]. unfold write_message, write_frame, bind, err_into, ok_or.
  destruct mode; repeat case_match; unfold throw, ret in *; intros; simplify_eq; done.
Qed.

Lemma u32_be_bytes n rest :
  (n < 4294967296)%N → take 4 (u32_to_be_bytes n ++ rest) = u32_to_be_bytes n
  ∧ drop 4 (u32_to_be_bytes n ++ rest) = rest ∧ u32_from_be_bytes (u32_to_be_bytes n) = n.
Proof.
  intros Hn. split_and!; [done|done|]. unfold u32_to_be_bytes, u32_from_be_bytes. cbn [foldl].
  rewrite N.mul_0_l, N.add_0_l.
  pose proof (N.div_mod n 256 ltac:(done)) as D1. pose proof (N.div_mod (n / 256) 256 ltac:(done)) as D2.
  pose proof (N.div_mod (n / 65536) 256 ltac:(done)) as D3.
  rewrite N.Div0.div_div in D2, D3. change (256 * 256)%N with 65536%N in D2. change (65536 * 256)%N with 16777216%N in D3.
  revert D1 D2 D3. generalize (n `mod` 256)%N ((n / 256) `mod` 256)%N ((n / 65536) `mod` 256)%N.
  generalize (n / 16777216)%N (n / 65536)%N (n / 256)%N. lia.
Qed.

(** What is read of a message on the wire, whatever follows it. *)
Lemma message_at_wire max m rest e :
  (max < 16777216)%N → sendable m → (byte_count m.2 ≤ max)%N →
  (m.1 = LegacyLine → (byte_count (wire m) ≤ max)%N) →
  message_at max (wire m ++ rest) e = (Ok (Some (received m)), rest).
Proof.
  destruct m as [mode payload]. unfold sendable, wire, received. cbn [fst snd]. intros Hmax Hs Hlen Hline. destruct mode.
  - set (n := byte_count payload) in *. rewrite <- app_assoc.
    destruct (u32_be_bytes n (payload ++ rest)) as (Ht & Hd & Hn); [lia|].
    assert (n / 16777216 = 0)%N as Hz by (apply N.div_small; lia).
    unfold message_at. assert (skip_blank (u32_to_be_bytes n ++ payload ++ rest) = u32_to_be_bytes n ++ payload ++ rest) as ->
      by (unfold u32_to_be_bytes; rewrite Hz; done).
    assert (∃ s, u32_to_be_bytes n ++ payload ++ rest = 0%N :: s) as [s Hs0]
      by (unfold u32_to_be_bytes; rewrite Hz; eexists; done).
    assert (frame_at max (u32_to_be_bytes n ++ payload ++ rest) e = (Ok (Some payload), rest)) as Hframe.
    { unfold frame_at, FRAME_PREFIX_LEN. rewrite Ht, Hd, Hn. cbn [length app u32_to_be_bytes].
      rewrite (proj2 (Nat.ltb_ge _ _)) by lia. rewrite byte_count_app. fold n.
      rewrite (proj2 (N.leb_le _ _)), (proj2 (N.ltb_ge _ _)) by lia.
      assert (N.to_nat n = length payload) as -> by (unfold n, byte_count; lia).
      by rewrite take_app_length, drop_app_length. }
    rewrite Hs0 in *. simpl. by rewrite Hframe.
  - destruct Hs as [Hh Hn]. destruct payload as [|b payload]; [done|]. injection Hh as ->.
    specialize (Hline eq_refl). rewrite <- app_assoc. unfold message_at. simpl.
    assert (∀ e, line_at max ((LEGACY_JSON_OPENER :: payload) ++ NEWLINE :: rest) e
            = (Ok (LEGACY_JSON_OPENER :: payload), rest)) as Hl.
    { intros e0. unfold line_at. rewrite (first_line_ended _ rest Hn).
      rewrite (proj2 (N.ltb_ge _ _)) by lia.
      assert (chomp ((LEGACY_JSON_OPENER :: payload) ++ [NEWLINE]) = LEGACY_JSON_OPENER :: payload) as ->.
      { unfold chomp. rewrite last_snoc, bool_decide_true by done. by rewrite removelast_app, app_nil_r by done. }
      rewrite bool_decide_true by (apply elem_of_app; right; apply list_elem_of_here).
      rewrite length_app, drop_app_add. by destruct e0. }
    simpl in Hl. by rewrite Hl.
Qed.

(** An oversized frame or line, whatever follows it. *)
Lemma message_at_over_frame max declared body rest e :
  (max < declared)%N → (declared < 16777216)%N → byte_count body = declared →
  message_at max ((u32_to_be_bytes declared ++ body) ++ rest) e = (Err (Oversized declared max), rest).
Proof.
  intros Hover Hd Hb. rewrite <- app_assoc.
  destruct (u32_be_bytes declared (body ++ rest)) as (Ht & Hdr & Hn); [lia|].
  assert (declared / 16777216 = 0)%N as Hz by (apply N.div_small; lia).
  assert (frame_at max (u32_to_be_bytes declared ++ body ++ rest) e = (Err (Oversized declared max), rest)) as Hframe.
  { unfold frame_at, FRAME_PREFIX_LEN. rewrite Ht, Hdr, Hn. cbn [length app u32_to_be_bytes].
    rewrite (proj2 (Nat.ltb_ge _ _)) by lia. rewrite byte_count_app, Hb.
    rewrite (proj2 (N.leb_le _ _)), (proj2 (N.ltb_lt _ _)) by lia.
    assert (N.to_nat declared = length body) as -> by (unfold byte_count in Hb; lia). by rewrite drop_app_length. }
  unfold message_at. unfold u32_to_be_bytes in *. rewrite Hz in *. cbn [skip_blank app is_blank] in *.
  change (is_blank 0) with false. cbn iota. change (0 =? LEGACY_JSON_OPENER)%N with false.
  change (0 =? 0)%N with true. cbn iota. by rewrite Hframe.
Qed.

Lemma message_at_over_line max declared line rest e :
  NEWLINE ∉ line → (max < declared)%N → byte_count (LEGACY_JSON_OPENER :: line ++ [NEWLINE]) = declared →
  message_at max ((LEGACY_JSON_OPENER :: line ++ [NEWLINE]) ++ rest) e = (Err (Oversized declared max), rest).
Proof.
  intros Hn Hover Hd. set (text := LEGACY_JSON_OPENER :: line).
  change ((LEGACY_JSON_OPENER :: line ++ [NEWLINE])) with (text ++ [NEWLINE]) in *. rewrite <- app_assoc. cbn [app].
  assert (NEWLINE ∉ text) as Hnt by (unfold text; rewrite not_elem_of_cons; by split).
  assert (line_at max (text ++ NEWLINE :: rest) e = (Err (Oversized declared max), rest)) as Hl.
  { unfold line_at. rewrite (first_line_ended _ rest Hnt), Hd, (proj2 (N.ltb_lt _ _)) by done.
    rewrite bool_decide_true by (apply elem_of_app; right; apply list_elem_of_here).
    rewrite length_app, drop_app_add. by destruct e. }
  unfold message_at. unfold text in *. simpl in *. by rewrite Hl.
Qed.

End round_trip.

Section exchange.
Context {W : Type} `{WriteLaws W} {R : Type} `{BufReadLaws R}.

(** A peer that sends some messages, and one that reads as many. *)
Definition send_messages (ms : list (WireMode * list N)) (max : N) : M W FrameError unit :=
  for_each ms (λ m, write_message m.2 m.1 max).
Fixpoint read_messages (n fuel : nat) (max : N) : M R FrameError (list Incoming) :=
  match n with
  | 0 => ret []
  | S n =>
      m <- read_frame_or_legacy_line fuel max ;;
      match m with
      | Some m => ms <- read_messages n fuel max ;; ret (m :: ms)
      | None => ret []
      end
  end.

Lemma send_messages_wire ms max (w w' : W) :
  send_messages ms max w = (w', Ok tt) →
  written w' = written w ++ concat (wire <$> ms)
  ∧ Forall (λ m, (byte_count m.2 ≤ max)%N ∧ (m.1 = LegacyLine → (byte_count (wire m) ≤ max)%N)) ms.
Proof.
  revert w. induction ms as [|m ms IH]; intros w Hs; simpl in Hs.
  { injection Hs as <-. by rewrite app_nil_r. }
  apply bind_Ok_inv in Hs as ([] & w1 & (Hw & Hl & Hll)%write_message_wire & Hs).
  apply IH in Hs as [Hw' Hall]. split; [|by constructor]. simpl. by rewrite Hw', Hw, <- app_assoc.
Qed.

(** C13: Messages written are the messages read: once a peer has written some, framed or
    as lines in any mix, a reader of those bytes reads them all, in order and as they
    were, whatever pieces the bytes come in, and is left at what follows them.  Frames
    carry any bytes; a line is JSON on one line; the cap is one the first byte of a
    length tells from JSON. *)
Theorem messages_round_trip ms max fuel (w w' : W) (r : R) rest :
  (max < 16777216)%N → Forall sendable ms → send_messages ms max w = (w', Ok tt) →
  written w' ++ rest = written w ++ pending r → length (pending r) < fuel →
  ∃ r', read_messages (length ms) fuel max r = (r', Ok (received <$> ms)) ∧ pending r' = rest ∧ ending r' = ending r.
Proof.
  intros Hmax Hs [Hw Hlens]%send_messages_wire Heq Hf.
  rewrite Hw, <- app_assoc in Heq. apply (inj (app (written w))) in Heq. symmetry in Heq. clear Hw.
  revert r Heq Hf. induction ms as [|m ms IH]; intros r Hp Hf; [by exists r|].
  apply list.Forall_cons in Hs as [Hm Hs]. apply list.Forall_cons in Hlens as [[Hl Hll] Hlens]. simpl in Hp. rewrite <- app_assoc in Hp.
  pose proof (read_message_refines fuel max r Hf) as Hread. rewrite Hp in Hread.
  rewrite (message_at_wire max m) in Hread by done. destruct Hread as (r1 & Hread & Hr1).
  destruct Hr1 as [Hp1 He1]; [by intros [? ?]|].
  destruct (IH Hs Hlens r1 Hp1) as (r2 & Hms & Hp2 & He2).
  { rewrite Hp1. rewrite Hp, length_app in Hf. lia. }
  exists r2. cbn [length read_messages]. rewrite (bind_ok _ _ _ _ _ Hread), (bind_ok _ _ _ _ _ Hms).
  split_and!; [done..|congruence].
Qed.

(** C14: An oversized message costs only itself: a frame that declares more than the cap
    and less than 2^24 bytes (the first byte of every length is zero),
    and a line longer than the cap, are refused as oversized with their size, by both
    readers, without being kept; and the reader is left at what follows them.  A message
    that opens with any other byte but a blank, as most frames that declare 2^24 bytes or more
    do, is refused as of an unknown version, named by that byte, and nothing of it is read. *)
Theorem oversized_message_skipped max fuel (r : R) (v : Vec) :
  length (pending r) < fuel →
  (∀ oversized rest declared, pending r = oversized ++ rest → (max < declared)%N →
    ((∃ body, oversized = u32_to_be_bytes declared ++ body ∧ byte_count body = declared ∧ (declared < 16777216)%N)
     ∨ ∃ line, oversized = LEGACY_JSON_OPENER :: line ++ [NEWLINE] ∧ NEWLINE ∉ line ∧ byte_count oversized = declared) →
    (∃ r', read_frame_or_legacy_line fuel max r = (r', Err (Oversized declared max)) ∧ pending r' = rest)
    ∧ ∃ r' v', read_frame_or_legacy_line_into fuel max (r, v) = ((r', v'), Err (Oversized declared max)) ∧ pending r' = rest
      ∧ (ve_bytes v' = ve_bytes v ∨ (ve_len v' ≤ max)%N)) ∧
  (∀ b s, pending r = b :: s → is_blank b = false → b ≠ 0%N → b ≠ LEGACY_JSON_OPENER →
    (∃ r', read_frame_or_legacy_line fuel max r = (r', Err (VersionMismatch b)) ∧ pending r' = pending r)
    ∧ ∃ r' v', read_frame_or_legacy_line_into fuel max (r, v) = ((r', v'), Err (VersionMismatch b)) ∧ pending r' = pending r).
Proof.
  intros Hf. pose proof (read_message_refines fuel max r Hf) as H1'. pose proof (read_message_into_refines fuel max r v Hf) as H2'.
  split.
  - intros oversized rest declared Hp Hover Hkind.
    assert (message_at max (pending r) (ending r) = (Err (Oversized declared max), rest)) as Hm.
    { rewrite Hp. destruct Hkind as [(body & -> & Hbody & Hd)|(line & -> & Hn & Hd)].
      - by apply message_at_over_frame.
      - by apply message_at_over_line. }
    rewrite Hm in *. destruct H1' as (r1 & Hr1 & Hp1). destruct H2' as (r2 & v2 & o & Hr2 & Ho & _ & Hv & Hp2).
    split; [exists r1; split; [done|]; apply Hp1; by intros [? ?]|].
    exists r2, v2. destruct o as [[[]|]|e|]; try done. injection Ho as <-.
    split_and!; [done|apply Hp2; by intros [? ?]|]. destruct Hv as [->|[? _]]; auto.
  - intros b s Hp Hb Hz Hj.
    assert (message_at max (pending r) (ending r) = (Err (VersionMismatch b), pending r)) as Hm.
    { rewrite Hp. unfold message_at. simpl. by rewrite Hb, (proj2 (N.eqb_neq _ _) Hz), (proj2 (N.eqb_neq _ _) Hj). }
    rewrite Hm in *. destruct H1' as (r1 & Hr1 & Hp1). destruct H2' as (r2 & v2 & o & Hr2 & Ho & _ & _ & Hp2).
    split; [exists r1; split; [done|]; apply Hp1; by intros [? ?]|].
    exists r2, v2. destruct o as [[[]|]|e|]; try done. injection Ho as <-.
    split; [done|apply Hp2; by intros [? ?]].
Qed.

End exchange.

(** * Lines as text *)

(** [char::encode_utf8]. *)
Definition utf8_encode (c : N) : list N :=
  if (c <? 128)%N then [c]
  else if (c <? 2048)%N then [192 + c / 64; 128 + c `mod` 64]%N
  else if (c <? 65536)%N then [224 + c / 4096; 128 + (c / 64) `mod` 64; 128 + c `mod` 64]%N
  else [240 + c / 262144; 128 + (c / 4096) `mod` 64; 128 + (c / 64) `mod` 64; 128 + c `mod` 64]%N.
Definition is_scalar (c : N) : Prop := (c < 55296)%N ∨ (57344 ≤ c < 1114112)%N.

(** Comparisons of [N] that the context decides. *)
Ltac decide_bytes :=
  repeat match goal with
  | |- _ => progress unfold within, second_of_three, second_of_four, is_cont
  | |- context [(?a <? ?b)%N] => first [rewrite (proj2 (N.ltb_lt a b)) by lia | rewrite (proj2 (N.ltb_ge a b)) by lia]
  | |- context [(?a <=? ?b)%N] => first [rewrite (proj2 (N.leb_le a b)) by lia | rewrite (proj2 (N.leb_gt a b)) by lia]
  | |- context [(?a =? ?b)%N] => first [rewrite (proj2 (N.eqb_eq a b)) by lia | rewrite (proj2 (N.eqb_neq a b)) by lia]
  end; cbn [andb orb negb].

(** One character, the rest left as it is. *)
Lemma utf8_chars_cons b0 bs1 :
  utf8_chars (b0 :: bs1) = ltac:(let t := eval cbn [utf8_chars] in (utf8_chars (b0 :: bs1)) in exact t).
Proof. reflexivity. Qed.

Lemma utf8_chars_encode c rest : is_scalar c → utf8_chars (utf8_encode c ++ rest) = Some c :: utf8_chars rest.
Proof.
  intros Hc. unfold utf8_encode.
  pose proof (N.div_mod c 64 ltac:(done)) as D1. pose proof (N.mod_lt c 64 ltac:(done)) as L1.
  pose proof (N.div_mod (c / 64) 64 ltac:(done)) as D2. pose proof (N.mod_lt (c / 64) 64 ltac:(done)) as L2.
  pose proof (N.div_mod (c / 4096) 64 ltac:(done)) as D3. pose proof (N.mod_lt (c / 4096) 64 ltac:(done)) as L3.
  rewrite !N.Div0.div_div in *. change (64 * 64)%N with 4096%N in *. change (4096 * 64)%N with 262144%N in *.
  set (m0 := (c `mod` 64)%N) in *. set (q1 := (c / 64)%N) in *. set (m1 := (q1 `mod` 64)%N) in *.
  set (q2 := (c / 4096)%N) in *. set (m2 := (q2 `mod` 64)%N) in *. set (q3 := (c / 262144)%N) in *.
  clearbody m0 m1 m2 q1 q2 q3. unfold is_scalar in Hc.
  destruct (N.ltb_spec c 128); [|destruct (N.ltb_spec c 2048); [|destruct (N.ltb_spec c 65536)]];
    cbn [app]; rewrite utf8_chars_cons.
  - decide_bytes. done.
  - decide_bytes. do 2 f_equal. lia.
  - assert (c = q2 * 4096 + m1 * 64 + m0)%N as Ec by lia.
    assert (q2 < 16 ∧ (q2 = 0 → 32 ≤ m1) ∧ (q2 = 13 → m1 < 32))%N as (Hq & Hlo & Hhi) by lia.
    clear Hc D1 D2 D3. clear dependent q1 q3. rewrite Ec. clear dependent c.
    destruct (decide (q2 = 0)%N) as [->|]; [|destruct (decide (q2 = 13)%N) as [->|]]; decide_bytes; do 2 f_equal; lia.
  - assert (c = q3 * 262144 + m2 * 4096 + m1 * 64 + m0)%N as Ec by lia.
    assert (q3 ≤ 4 ∧ (q3 = 0 → 16 ≤ m2) ∧ (q3 = 4 → m2 < 16))%N as (Hq & Hlo & Hhi) by lia.
    clear Hc D1 D2 D3. clear dependent q1 q2. rewrite Ec. clear dependent c.
    destruct (decide (q3 = 0)%N) as [->|]; [|destruct (decide (q3 = 4)%N) as [->|]]; decide_bytes; do 2 f_equal; lia.
Qed.

Lemma finish_encode (t : list N) : Forall is_scalar t → finish (t ≫= utf8_encode) = t.
Proof.
  intros Ht. unfold finish, from_utf8.
  assert (utf8_chars (t ≫= utf8_encode) = Some <$> t) as ->.
  { induction Ht as [|c t Hc _ IH]; [done|]. cbn [mbind list_bind]. rewrite utf8_chars_encode by done. by rewrite IH. }
  assert (mapM id (Some <$> t) = Some t) as ->; [|done]. apply mapM_Some. clear Ht. induction t; by constructor.
Qed.

(** ** Bytes of a line *)

Lemma first_line_newline s : NEWLINE ∈ s → ∃ c, first_line s = c ++ [NEWLINE].
Proof.
  induction s as [|b s IH]; [by intros ?%not_elem_of_nil|]. simpl. destruct (decide (b = NEWLINE)) as [->|Hb]; [by exists []|].
  intros [?|Hin]%elem_of_cons; [congruence|]. destruct (IH Hin) as [c ->]. by exists (b :: c).
Qed.

Lemma first_line_inner s c : first_line s = c ++ [NEWLINE] → NEWLINE ∉ c.
Proof.
  revert c. induction s as [|b s IH]; intros c; simpl; [by destruct c|]. destruct (decide (b = NEWLINE)) as [->|Hb].
  - destruct c as [|b' c]; [intros _; apply not_elem_of_nil|]. intros [= <- Hc]. by destruct c.
  - destruct c as [|b' c]; [intros [= ->]; done|]. intros [= <- Hc]. rewrite not_elem_of_cons. split; [congruence|by apply IH].
Qed.

Lemma elem_of_take_sub {A} n (x : A) l : x ∈ take n l → x ∈ l.
Proof. intros (i & Hi)%list_elem_of_lookup_1. apply lookup_take_Some in Hi as [Hi _]. by eapply list_elem_of_lookup_2. Qed.

Lemma chomp_inside l : NEWLINE ∉ l → chomp l = l.
Proof. intros Hn. unfold chomp. rewrite bool_decide_false; [done|]. intros Hl. apply Hn. by apply last_Some_elem_of. Qed.

Lemma newline_not_encoded (t : list N) : Forall is_scalar t → NEWLINE ∉ t → NEWLINE ∉ t ≫= utf8_encode.
Proof.
  intros Ht Hn (c & Hin & Hc)%list_elem_of_bind. rewrite list.Forall_forall in Ht. specialize (Ht c Hc).
  assert (NEWLINE ≠ c) as Hne by (intros <-; done). unfold utf8_encode, NEWLINE, is_scalar in *.
  repeat case_match; repeat (apply elem_of_cons in Hin as [Hin|Hin]; [lia|]); by apply not_elem_of_nil in Hin.
Qed.

Section bounded_lines.
Context {R : Type} `{BufReadLaws R}.

(** What [read_bounded_line] answers of a stream: the line's first [max] bytes as text.
    A line that a newline ends is reported as cut exactly when it was; one that the end
    of the stream ends, only when it is longer by two bytes at least. *)
Theorem bounded_line_answers fuel max (r : R) :
  length (pending r) < fuel → (max < u64_max)%N →
  let line := first_line (pending r) in
  ∃ r', read_bounded_line fuel max r = (r',
    if bool_decide (NEWLINE ∈ pending r)
    then Ok (Some (mkBoundedLine (finish (take (N.to_nat max) (chomp line))) (max <? byte_count (chomp line))%N))
    else at_end (ending r)
           (if bool_decide (pending r = []) then Ok None
            else Ok (Some (mkBoundedLine (finish (take (N.to_nat max) line)) (max + 1 <? byte_count line)%N))))
  ∧ (NEWLINE ∈ pending r ∨ ending r = None → pending r' = drop (length line) (pending r) ∧ ending r' = ending r).
Proof.
  intros Hf Hmax line. unfold read_bounded_line, u64_saturating_add. rewrite (N.min_l (max + 1)) by lia.
  destruct (read_line_into_spec fuel (max + 1) r (mkVec [] (max `min` INITIAL_CAPACITY)) Hf) as (r' & cap & Hread & _ & Hr).
  exists r'. split; [|done]. unfold bind, with_own. rewrite Hread. fold line. clear Hread Hr.
  assert (∀ kept v, ve_bytes v = kept → ve_bytes (if (max <? ve_len v)%N then shrink_to max (truncate max v) else v)
          = take (N.to_nat max) kept) as Hcut.
  { intros kept v <-. destruct (N.ltb_spec max (ve_len v)).
    - unfold shrink_to. by destruct (_ <? _)%N.
    - rewrite take_ge; [done|]. unfold ve_len, byte_count in *. lia. }
  destruct (bool_decide_reflect (NEWLINE ∈ pending r)) as [Hin|Hout].
  - assert (∃ c, line = c ++ [NEWLINE]) as [c Hc] by (by apply first_line_newline). rewrite Hc. unfold ret.
    assert (chomp (c ++ [NEWLINE]) = c) as Hch
      by (unfold chomp; rewrite last_snoc, bool_decide_true by done; by rewrite removelast_app, app_nil_r by done).
    rewrite Hch, byte_count_app. change (byte_count [NEWLINE]) with 1%N. do 4 f_equal.
    + f_equal. erewrite Hcut; [|apply chomp_vec]. cbn [ve_bytes].
      destruct (decide (byte_count c ≤ max)%N) as [Hle|Hgt].
      * rewrite (take_ge (c ++ _)); [by rewrite Hch|]. rewrite length_app. unfold byte_count in *. simpl. lia.
      * rewrite take_app_le by (unfold byte_count in *; lia). rewrite chomp_inside; [|].
        -- rewrite take_take. f_equal. lia.
        -- intros Hx. apply (first_line_inner (pending r) c); [done|]. by eapply elem_of_take_sub.
    + destruct (N.ltb_spec max (byte_count c)); [apply N.ltb_lt|apply N.ltb_ge]; lia.
  - destruct (ending r); [done|]. simpl. case_bool_decide; [done|]. unfold ret. do 5 f_equal.
    erewrite Hcut; [|apply chomp_vec]. cbn [ve_bytes]. rewrite chomp_inside; [rewrite take_take; f_equal; lia|].
    intros Hx. apply Hout. unfold line in Hx. rewrite first_line_all in Hx by done. by eapply elem_of_take_sub.
Qed.

(** A line of text within the cap is read as it was written. *)
Theorem bounded_line_text fuel max (r : R) (t rest : list N) :
  length (pending r) < fuel → (max < u64_max)%N → Forall is_scalar t → NEWLINE ∉ t →
  pending r = (t ≫= utf8_encode) ++ NEWLINE :: rest → (byte_count (t ≫= utf8_encode) ≤ max)%N →
  ∃ r', read_bounded_line fuel max r = (r', Ok (Some (mkBoundedLine t false))) ∧ pending r' = rest ∧ ending r' = ending r.
Proof.
  intros Hf Hmax Ht Hn Hp Hlen. destruct (bounded_line_answers fuel max r Hf Hmax) as (r' & Hread & Hr).
  pose proof (newline_not_encoded t Ht Hn) as Hnb.
  assert (NEWLINE ∈ pending r) as Hin by (rewrite Hp; apply elem_of_app; right; apply list_elem_of_here).
  destruct (Hr (or_introl Hin)) as [Hp' He']. exists r'. rewrite Hp, first_line_ended in * by done.
  rewrite bool_decide_true in Hread by done. rewrite length_app, drop_app_add in Hp'.
  assert (chomp ((t ≫= utf8_encode) ++ [NEWLINE]) = t ≫= utf8_encode) as Hch
    by (unfold chomp; rewrite last_snoc, bool_decide_true by done; by rewrite removelast_app, app_nil_r by done).
  rewrite Hch, take_ge, finish_encode, (proj2 (N.ltb_ge _ _)) in Hread by (done || unfold byte_count in Hlen; lia). done.
Qed.

End bounded_lines.

(** * Witnesses *)

#[local] Existing Instances Pieces.reader Pieces.laws Sink.writer Sink.sink_laws.

(** [hi] framed, [{}] as a line after a blank one, each split across pieces. *)
Definition split_up : Pieces.t := Pieces.mk [] [[0; 0]; [0; 2; 104]; []; [105; 10]; [123]; [125; 10; 7]]%N None.

Lemma readers_cut_the_stream_witness :
  ∃ r' v', read_frame_or_legacy_line_into 20 64 (split_up, mkVec [9]%N 100000) = ((r', v'), Ok (Some Framed))
  ∧ ve_bytes v' = [104; 105]%N ∧ pending r' = [10; 123; 125; 10; 7]%N.
Proof.
  pose proof (readers_cut_the_stream 20 64 split_up (mkVec [9]%N 100000)) as Ht.
  destruct Ht as (_ & _ & r' & v' & o' & Hread & Ho & Hr & _); [simpl; lia|].
  exists r', v'. destruct (Hr ltac:(by intros [? ?])) as [Hp _]. rewrite Hread.
  destruct o' as [[[]|]|e|]; try discriminate Ho. injection Ho as Hv. split_and!; [reflexivity|exact Hv|exact Hp].
Defined.

Definition greetings : list (WireMode * list N) := [(Framed, [10; 0; 255]%N); (LegacyLine, [123; 125]%N); (Framed, [])].

Lemma messages_round_trip_witness :
  ∃ w', send_messages greetings 64 [] = (w', Ok tt)
  ∧ ∃ r', read_messages 3 40 64 (Pieces.mk (take 5 w') [drop 5 w'; [7]%N] None)
          = (r', Ok [IncomingFrame [10; 0; 255]%N; IncomingLegacyLine [123; 125]%N; IncomingFrame []]).
Proof.
  eexists. split; [reflexivity|].
  destruct (messages_round_trip (W := list N) (R := Pieces.t) greetings 64 40 []
    (send_messages greetings 64 []).1 (Pieces.mk (take 5 (send_messages greetings 64 []).1)
      [drop 5 (send_messages greetings 64 []).1; [7]%N] None) [7]%N) as (r' & Hread & _ & _).
  - reflexivity.
  - constructor; [exact I|]. constructor; [split; [reflexivity|]|constructor; [exact I|constructor]].
    apply (bool_decide_unpack _). vm_compute. exact I.
  - reflexivity.
  - reflexivity.
  - apply Nat.ltb_lt. reflexivity.
  - exists r'. exact Hread.
Defined.

(** Five bytes declared where four may come, then a frame of one. *)
Lemma oversized_message_skipped_witness :
  (∃ r', read_frame_or_legacy_line 20 4 (Pieces.mk [] [[0; 0; 0; 5; 1; 2]; [3; 4; 5; 0; 0; 0; 1; 9]]%N None)
        = (r', Err (Oversized 5 4)) ∧ pending r' = [0; 0; 0; 1; 9]%N) ∧
  ∃ r', read_frame_or_legacy_line 20 4 (Pieces.mk [] [[1; 0; 0; 0]; [7]]%N None)
        = (r', Err (VersionMismatch 1)) ∧ pending r' = [1; 0; 0; 0; 7]%N.
Proof.
  split.
  - destruct (oversized_message_skipped 4 20 (Pieces.mk [] [[0; 0; 0; 5; 1; 2]; [3; 4; 5; 0; 0; 0; 1; 9]]%N None) (mkVec [] 0))
      as [Hover _]; [simpl; lia|].
    destruct (Hover [0; 0; 0; 5; 1; 2; 3; 4; 5]%N [0; 0; 0; 1; 9]%N 5%N) as [(r' & Hread & Hp) _].
    + reflexivity.
    + reflexivity.
    + left. exists [1; 2; 3; 4; 5]%N. split_and!; reflexivity.
    + exists r'. exact (conj Hread Hp).
  - destruct (oversized_message_skipped 4 20 (Pieces.mk [] [[1; 0; 0; 0]; [7]]%N None) (mkVec [] 0)) as [_ Hother]; [simpl; lia|].
    destruct (Hother 1%N [0; 0; 0; 7]%N) as [(r' & Hread & Hp) _]; [reflexivity|reflexivity|discriminate|discriminate|].
    exists r'. exact (conj Hread Hp).
Defined.

(** A last line that no newline ends, one byte over the cap, loses that byte and is
    not reported as cut. *)
Theorem unterminated_line_cut_unreported :
  (read_bounded_line 10 3 (Pieces.mk [] [[97; 98; 99; 100]%N] None)).2
  = Ok (Some (mkBoundedLine [97; 98; 99]%N false)).
Proof. reflexivity. Qed.
