(* ===== verification/EnvironmentTypes.v ===== *)
(** The vocabulary of script-managed environments: the record of one committed
    environment, its metadata, the refs that name it, the conditions a claim is
    granted on, and the journal a durable registry reports to.

    Models [domain/environments/entities]: [environment_registry.rs] (types,
    [ref_number]), [environment_registry/record_lookup.rs],
    [record_metadata.rs], [record_residue.rs], [claim_condition.rs],
    [environment_journal.rs] and the record methods of
    [environment_registry_removal.rs].

    A Rust [String] is a [string] of bytes and a [PathBuf] the string it is
    written as.  A JSON object is the [gmap] of its fields; a JSON number is
    kept as its literal, since nothing here computes with one. *)

From Stdlib Require Import Ascii.
From stdpp Require Import pretty.
From S2P Require Import Prelude.

(** * JSON values *)

#[warnings="-register-all"]
Inductive Value :=
| Null
| Bool (b : bool)
| Number (literal : string)
| JString (s : string)
| Array (elements : list Value)
| Object (fields : gmap string Value).

(** [Value::get] with a string key. *)
Definition value_get (key : string) (v : Value) : option Value :=
  match v with Object fields => fields !! key | _ => None end.

(** [merge_metadata]. *)
Definition merge_metadata (base over : Value) : Value :=
  match base, over with
  | Object merged, Object over_fields => Object (over_fields ∪ merged)
  | base, Null => base
  | _, over => over
  end.

(** * Status, origin and targets *)

Inductive EnvironmentStatus := Running | Killing | Stopped | CleanupFailed | Retained.

#[export] Instance EnvironmentStatus_eq_dec : EqDecision EnvironmentStatus.
Proof. solve_decision. Defined.

Inductive EnvironmentOrigin := Created | Restored.

#[export] Instance EnvironmentOrigin_eq_dec : EqDecision EnvironmentOrigin.
Proof. solve_decision. Defined.

(** [EnvironmentStatus::is_joinable]. *)
Definition is_joinable (s : EnvironmentStatus) : bool :=
  match s with Running | Retained => true | _ => false end.

Inductive EnvironmentTarget := TargetRef (env_ref : string) | TargetName (name : string).

Inductive EnvironmentLookupError :=
| Unknown (t : string)
| Ambiguous (t : string)
| ErrStopped (t : string)
| Stale (t : string)
| Unreadable (error : string).

#[export] Instance EnvironmentLookupError_eq_dec : EqDecision EnvironmentLookupError.
Proof. solve_decision. Defined.

(** * The record of one environment *)

Record EnvironmentRecord := mkRecord {
  er_ref : string;
  er_id : string;
  er_uuid : string;
  er_name : option string;
  er_workspace_path : string;
  er_repository : string;
  er_script_name : string;
  er_exec : list string;
  er_kill : list string;
  er_cleanup : list string;
  er_inspect : list string;
  er_members : list string;
  er_status : EnvironmentStatus;
  er_metadata : Value;
  er_last_error : option string;
  er_origin : EnvironmentOrigin;
  er_created_by : string;
  er_created_at : option N;
}.

Definition set_members (ms : list string) (r : EnvironmentRecord) : EnvironmentRecord :=
  mkRecord (er_ref r) (er_id r) (er_uuid r) (er_name r) (er_workspace_path r) (er_repository r)
    (er_script_name r) (er_exec r) (er_kill r) (er_cleanup r) (er_inspect r) ms (er_status r)
    (er_metadata r) (er_last_error r) (er_origin r) (er_created_by r) (er_created_at r).
Definition set_status (s : EnvironmentStatus) (r : EnvironmentRecord) : EnvironmentRecord :=
  mkRecord (er_ref r) (er_id r) (er_uuid r) (er_name r) (er_workspace_path r) (er_repository r)
    (er_script_name r) (er_exec r) (er_kill r) (er_cleanup r) (er_inspect r) (er_members r) s
    (er_metadata r) (er_last_error r) (er_origin r) (er_created_by r) (er_created_at r).
Definition set_metadata (m : Value) (r : EnvironmentRecord) : EnvironmentRecord :=
  mkRecord (er_ref r) (er_id r) (er_uuid r) (er_name r) (er_workspace_path r) (er_repository r)
    (er_script_name r) (er_exec r) (er_kill r) (er_cleanup r) (er_inspect r) (er_members r)
    (er_status r) m (er_last_error r) (er_origin r) (er_created_by r) (er_created_at r).
Definition set_last_error (x : option string) (r : EnvironmentRecord) : EnvironmentRecord :=
  mkRecord (er_ref r) (er_id r) (er_uuid r) (er_name r) (er_workspace_path r) (er_repository r)
    (er_script_name r) (er_exec r) (er_kill r) (er_cleanup r) (er_inspect r) (er_members r)
    (er_status r) (er_metadata r) x (er_origin r) (er_created_by r) (er_created_at r).
Definition set_origin (o : EnvironmentOrigin) (r : EnvironmentRecord) : EnvironmentRecord :=
  mkRecord (er_ref r) (er_id r) (er_uuid r) (er_name r) (er_workspace_path r) (er_repository r)
    (er_script_name r) (er_exec r) (er_kill r) (er_cleanup r) (er_inspect r) (er_members r)
    (er_status r) (er_metadata r) (er_last_error r) o (er_created_by r) (er_created_at r).

Definition RETAINED_KEY : string := "retained".
Definition REMOVAL_PENDING : string := "removal_pending".
Definition GONE_AT_RESTORE : string := "container not found at restore: the runtime reports it gone".

(** [as_object().cloned().unwrap_or_default()]. *)
Definition object_fields (v : Value) : gmap string Value :=
  match v with Object fields => fields | _ => ∅ end.

(** [EnvironmentRecord::retain_with]. *)
Definition retain_with (reason : string) (r : EnvironmentRecord) : EnvironmentRecord :=
  set_metadata (Object (<[RETAINED_KEY := JString reason]> (object_fields (er_metadata r))))
    (set_members [] (set_status Retained r)).

(** [EnvironmentRecord::retained_reason]. *)
Definition retained_reason (r : EnvironmentRecord) : option string :=
  match er_status r with
  | Retained =>
      match value_get RETAINED_KEY (er_metadata r) with
      | Some (JString reason) => if decide (reason = ""%string) then None else Some reason
      | _ => None
      end
  | Running | Killing | Stopped | CleanupFailed => None
  end.

Definition relabelled_while_retained (r : EnvironmentRecord) : bool :=
  bool_decide (er_status r = Stopped)
  && match value_get RETAINED_KEY (er_metadata r) with Some (JString _) => true | _ => false end
  && bool_decide (er_last_error r = Some GONE_AT_RESTORE).

Definition is_plain_stopped (r : EnvironmentRecord) : bool :=
  bool_decide (er_status r = Stopped) && negb (relabelled_while_retained r).

Definition removal_pending (r : EnvironmentRecord) : bool :=
  bool_decide (er_status r = CleanupFailed)
  && match value_get REMOVAL_PENDING (er_metadata r) with Some (Bool true) => true | _ => false end.

Definition removable (r : EnvironmentRecord) : bool := is_plain_stopped r || removal_pending r.

Definition clear_removal_pending (r : EnvironmentRecord) : EnvironmentRecord :=
  match er_metadata r with
  | Object fields => set_metadata (Object (delete REMOVAL_PENDING fields)) r
  | _ => r
  end.

(** * Refs *)

Definition is_ascii_digit (c : ascii) : bool :=
  let n := N_of_ascii c in (48 <=? n)%N && (n <=? 57)%N.

(** One step of [str::parse::<u64>] on a digit: [checked_mul] then
    [checked_add]. *)
Definition push_digit (acc : N) (c : ascii) : option N :=
  if (acc * 10 <=? u64_max)%N then u64_checked_add (acc * 10) (N_of_ascii c - 48) else None.

Fixpoint parse_digits (acc : N) (s : string) : option N :=
  match s with
  | EmptyString => Some acc
  | String c s' => acc' ← push_digit acc c; parse_digits acc' s'
  end.

Fixpoint all_digits (s : string) : bool :=
  match s with EmptyString => true | String c s' => is_ascii_digit c && all_digits s' end.

(** [ref_number]: the number of a [CN] ref. *)
Definition ref_number (environment_ref : string) : option N :=
  match environment_ref with
  | String "C" digits =>
      if decide (digits = ""%string) then None
      else if all_digits digits then parse_digits 0 digits else None
  | _ => None
  end.

(** [format!("C{number}")]. *)
Definition format_ref (number : N) : string := "C" +:+ pretty number.

(** ** A ref names its number *)

Lemma digit_char d : (d < 10)%N → is_ascii_digit (pretty_N_char d) = true ∧ (N_of_ascii (pretty_N_char d) - 48 = d)%N.
Proof.
  intros Hd. assert (d ∈ [0; 1; 2; 3; 4; 5; 6; 7; 8; 9]%N) as Hin by (rewrite !elem_of_cons; lia).
  repeat (apply elem_of_cons in Hin as [->|Hin]; [by vm_compute|]). by apply not_elem_of_nil in Hin.
Qed.

Lemma parse_pretty_go x s : u64_ok x → parse_digits 0 (pretty_N_go x s) = parse_digits x s.
Proof.
  revert s. induction (N.lt_wf_0 x) as [x _ IH]. intros s Hx.
  destruct (decide (x = 0%N)) as [->|Hne]; [by rewrite pretty_N_go_0|].
  unfold u64_ok in *. pose proof (N.div_mod x 10 ltac:(lia)) as Hdm. pose proof (N.mod_lt x 10 ltac:(lia)) as Hm.
  rewrite pretty_N_go_step by lia. rewrite IH by lia. simpl. destruct (digit_char (x mod 10) Hm) as [_ Hc].
  unfold push_digit, u64_checked_add. rewrite Hc.
  replace (x / 10 * 10 + x mod 10)%N with x by lia.
  by rewrite !(proj2 (N.leb_le _ _)) by lia.
Qed.

Lemma all_digits_pretty_go x s : all_digits (pretty_N_go x s) = all_digits s.
Proof.
  revert s. induction (N.lt_wf_0 x) as [x _ IH]. intros s.
  destruct (decide (x = 0%N)) as [->|Hne]; [by rewrite pretty_N_go_0|].
  pose proof (N.mod_lt x 10 ltac:(lia)) as Hm. pose proof (N.div_lt x 10 ltac:(lia) ltac:(lia)).
  rewrite pretty_N_go_step by lia. rewrite IH by done. simpl. by destruct (digit_char (x mod 10) Hm) as [-> _].
Qed.

Lemma ref_number_format n : u64_ok n → ref_number (format_ref n) = Some n.
Proof.
  intros Hn. destruct (decide (n = 0%N)) as [->|Hne]; [done|].
  assert (pretty n = pretty_N_go n "") as Hp by (unfold pretty, pretty_N; by rewrite decide_False).
  unfold format_ref. rewrite Hp. change ("C" +:+ pretty_N_go n "") with (String "C" (pretty_N_go n "")).
  cbn [ref_number]. rewrite decide_False.
  - by rewrite all_digits_pretty_go, parse_pretty_go.
  - clear Hp. intros Heq. pose proof (parse_pretty_go n "" Hn) as Hp. rewrite Heq in Hp. simpl in Hp. congruence.
Qed.

(** * Claim conditions *)

Record CreatorMismatch := mkMismatch {
  cm_ref : string;
  cm_expected : string;
  cm_created_by : string;
}.

Inductive ClaimCondition := Any | CreatedBy (key : string).

Definition MAX_CREATOR_KEY_BYTES : nat := 256.

Definition is_ascii_graphic (c : ascii) : bool :=
  let n := N_of_ascii c in (33 <=? n)%N && (n <=? 126)%N.

(** [CreatorKey::try_from]: whether the key is admitted. *)
Definition creator_key_admitted (key : string) : bool :=
  (1 <=? String.length key) && (String.length key <=? MAX_CREATOR_KEY_BYTES)
  && forallb is_ascii_graphic (String.list_ascii_of_string key).

(** [ClaimCondition::judge] (through [judge_creator]). *)
Definition judge (condition : ClaimCondition) (r : EnvironmentRecord) : option CreatorMismatch :=
  match condition with
  | Any => None
  | CreatedBy key =>
      if decide (er_created_by r = key) then None
      else Some (mkMismatch (er_ref r) key (er_created_by r))
  end.

Inductive ClaimRefusal :=
| Lookup (error : EnvironmentLookupError)
| CreatedByOther (mismatch : CreatorMismatch).

(** * The journal *)

Inductive JournalWrite :=
| Written
| Superseded (current : EnvironmentStatus) (metadata : Value)
| Unavailable.

(** [EnvironmentJournal]: the closures a durable registry reports through, over
    the state [J] of whatever stands behind them. *)
Record EnvironmentJournal (J : Type) := mkJournal {
  allocate_ref : N → J → J * (N + string);
  release_number : N → J → J;
  recorded : EnvironmentRecord → option EnvironmentStatus → J → J * JournalWrite;
  forgotten : EnvironmentRecord → J → J;
  reload : J → J * (list EnvironmentRecord + string);
}.
#[global] Arguments mkJournal {_} _ _ _ _ _.
#[global] Arguments allocate_ref {_} _ _ _.
#[global] Arguments release_number {_} _ _ _.
#[global] Arguments recorded {_} _ _ _ _.
#[global] Arguments forgotten {_} _ _ _.
#[global] Arguments reload {_} _ _.

(** What a registry relies on its journal for, stated over what the journal has
    on file under a ref: the environment's uuid, its status and its metadata. *)
Class LawfulJournal {J : Type} (j : EnvironmentJournal J) := {
  on_file : J → string → option (string * EnvironmentStatus * Value);
  (** An allocated number is a [u64]. *)
  lj_allocated s floor s' n : allocate_ref j floor s = (s', inl n) → u64_ok n;
  (** A conditional write lands only on the expected status of the same
      environment, merging its metadata over the file's. *)
  lj_written r expected s s' : recorded j r (Some expected) s = (s', Written) →
    ∃ md, on_file s (er_ref r) = Some (er_uuid r, expected, md) ∧
      on_file s' (er_ref r) = Some (er_uuid r, er_status r, merge_metadata md (er_metadata r)) ∧
      ∀ k, k ≠ er_ref r → on_file s' k = on_file s k;
  (** A superseded write changes nothing and reports what stands, which is not
      what it expected; a record nobody has on file is a stopped one. *)
  lj_superseded r expected s s' current md : recorded j r (Some expected) s = (s', Superseded current md) →
    s' = s ∧
    (on_file s (er_ref r) = Some (er_uuid r, current, md) ∧ current ≠ expected ∨
     on_file s (er_ref r) = None ∧ current = Stopped ∧ md = er_metadata r);
  (** A write that is not made changes nothing. *)
  lj_unavailable r expected s s' : recorded j r (Some expected) s = (s', Unavailable) → s' = s;
}.
