(* ===== verification/EnvironmentRegistry.v ===== *)
(** The session's registry of script-managed environments.

    Models [domain/environments/entities/environment_registry.rs],
    [environment_registry_inspect.rs], [environment_registry_removal.rs] and the
    claims of [environment_registry/claim_condition.rs].

    The state behind the registry's mutex is [EnvironmentRegistryState].  What a
    method does while it holds the mutex is one definition over that state
    (named [.._locked], as the source names some of them); the method itself
    runs over the state and the journal's, [locked] sections and calls to the
    journal in the order of the source.  The journal is a parameter: [None] for
    a registry that is not durable. *)

From S2P Require Import Prelude EnvironmentTypes.

Record KillClaim := mkKillClaim { kc_ref : string }.
Record InspectClaim := mkInspectClaim { ic_ref : string }.
Record RemovalClaim := mkRemovalClaim { rc_claim : KillClaim; rc_claimed_from : EnvironmentStatus }.

Record EnvironmentRegistryState := mkRegistryState {
  rs_next_ref : N;
  rs_entries : gmap string EnvironmentRecord;
  rs_inspect_claims : gset (string * string);
  rs_inspect_failures : gset string;
  rs_journalled : gmap string EnvironmentStatus;
  rs_kill_claims : gset string;
  rs_read_error : option string;
}.

(** [EnvironmentRegistryState::default]. *)
Definition RegistryState_default : EnvironmentRegistryState := mkRegistryState 0 ∅ ∅ ∅ ∅ ∅ None.

Definition set_next_ref (x : N) (s : EnvironmentRegistryState) : EnvironmentRegistryState :=
  mkRegistryState x (rs_entries s) (rs_inspect_claims s) (rs_inspect_failures s) (rs_journalled s)
    (rs_kill_claims s) (rs_read_error s).
Definition set_entries (x : gmap string EnvironmentRecord) (s : EnvironmentRegistryState)
    : EnvironmentRegistryState :=
  mkRegistryState (rs_next_ref s) x (rs_inspect_claims s) (rs_inspect_failures s) (rs_journalled s)
    (rs_kill_claims s) (rs_read_error s).
Definition set_inspect_claims (x : gset (string * string)) (s : EnvironmentRegistryState)
    : EnvironmentRegistryState :=
  mkRegistryState (rs_next_ref s) (rs_entries s) x (rs_inspect_failures s) (rs_journalled s)
    (rs_kill_claims s) (rs_read_error s).
Definition set_inspect_failures (x : gset string) (s : EnvironmentRegistryState)
    : EnvironmentRegistryState :=
  mkRegistryState (rs_next_ref s) (rs_entries s) (rs_inspect_claims s) x (rs_journalled s)
    (rs_kill_claims s) (rs_read_error s).
Definition set_journalled (x : gmap string EnvironmentStatus) (s : EnvironmentRegistryState)
    : EnvironmentRegistryState :=
  mkRegistryState (rs_next_ref s) (rs_entries s) (rs_inspect_claims s) (rs_inspect_failures s) x
    (rs_kill_claims s) (rs_read_error s).
Definition set_kill_claims (x : gset string) (s : EnvironmentRegistryState) : EnvironmentRegistryState :=
  mkRegistryState (rs_next_ref s) (rs_entries s) (rs_inspect_claims s) (rs_inspect_failures s)
    (rs_journalled s) x (rs_read_error s).
Definition set_read_error (x : option string) (s : EnvironmentRegistryState) : EnvironmentRegistryState :=
  mkRegistryState (rs_next_ref s) (rs_entries s) (rs_inspect_claims s) (rs_inspect_failures s)
    (rs_journalled s) (rs_kill_claims s) x.

(** [if let Some(record) = entries.get_mut(ref) { f }]. *)
Definition with_record (environment_ref : string) (f : EnvironmentRecord → EnvironmentRecord)
    (s : EnvironmentRegistryState) : EnvironmentRegistryState :=
  set_entries (alter f environment_ref (rs_entries s)) s.

(** * Sections under the state lock *)

(** The highest numbered ref a record still holds, [0] for none. *)
Definition highest_held (s : EnvironmentRegistryState) : N :=
  default 0%N (iter_max (omap ref_number (btree_keys (rs_entries s)))).

(** [state.next_ref = state.next_ref.max(number)] for a numbered ref. *)
Definition advance_next_ref (environment_ref : string) (s : EnvironmentRegistryState)
    : EnvironmentRegistryState :=
  match ref_number environment_ref with
  | Some number => set_next_ref (N.max (rs_next_ref s) number) s
  | None => s
  end.

Definition commit_locked (r : EnvironmentRecord) (s : EnvironmentRegistryState) : EnvironmentRegistryState :=
  let s := advance_next_ref (er_ref r) s in
  set_entries (<[er_ref r := r]> (rs_entries s)) s.

Definition seed_one (s : EnvironmentRegistryState) (r : EnvironmentRecord) : EnvironmentRegistryState :=
  let r := set_members [] (set_origin Restored r) in
  let s := advance_next_ref (er_ref r) s in
  let s := set_journalled (<[er_ref r := er_status r]> (rs_journalled s)) s in
  set_entries (<[er_ref r := r]> (rs_entries s)) s.

Definition seed_locked (records : list EnvironmentRecord) (s : EnvironmentRegistryState)
    : EnvironmentRegistryState := foldl seed_one s records.

(** The records of a late read that this registry does not hold. *)
Definition fresh_records (s : EnvironmentRegistryState) (records : list EnvironmentRecord)
    : list EnvironmentRecord :=
  filter (λ r, rs_entries s !! er_ref r = None) records.

(** What a late read comes to under the state lock. *)
Definition reloaded (result : list EnvironmentRecord + string) (s : EnvironmentRegistryState)
    : EnvironmentRegistryState :=
  match result with
  | inl records => set_read_error None (seed_locked (fresh_records s records) s)
  | inr error => set_read_error (Some error) s
  end.

(** The snapshot [journal_ref] takes: the record, and the status its write
    expects on file. *)
Definition journal_snapshot (environment_ref : string) (s : EnvironmentRegistryState)
    : option (EnvironmentRecord * option EnvironmentStatus) :=
  r ← rs_entries s !! environment_ref;
  Some (r, match er_origin r with Created => None | Restored => rs_journalled s !! environment_ref end).

(** What [journal_ref] learns from the write it made of [written]. *)
Definition journal_settle (environment_ref : string) (written : EnvironmentRecord) (outcome : JournalWrite)
    (s : EnvironmentRegistryState) : EnvironmentRegistryState :=
  match er_origin written, outcome with
  | Created, _ | Restored, Unavailable => s
  | Restored, Written => set_journalled (<[environment_ref := er_status written]> (rs_journalled s)) s
  | Restored, Superseded current metadata =>
      let s :=
        if decide (environment_ref ∈ rs_kill_claims s) then s
        else with_record environment_ref
               (λ r, set_metadata (merge_metadata metadata (er_metadata r)) (set_status current r)) s in
      set_journalled (<[environment_ref := current]> (rs_journalled s)) s
  end.

Definition remove_locked (environment_ref : string) (s : EnvironmentRegistryState)
    : EnvironmentRegistryState :=
  set_entries (delete environment_ref (rs_entries s))
    (set_kill_claims (rs_kill_claims s ∖ {[environment_ref]})
      (set_inspect_failures (rs_inspect_failures s ∖ {[environment_ref]})
        (set_inspect_claims (filter (λ p : string * string, p.1 ≠ environment_ref) (rs_inspect_claims s)) s))).

(** [state.entries.get_mut(ref).ok_or_else(Unknown)?]. *)
Definition known (environment_ref : string) : M EnvironmentRegistryState EnvironmentLookupError EnvironmentRecord :=
  reads (λ s, match rs_entries s !! environment_ref with
              | Some r => Ok r
              | None => Err (Unknown environment_ref)
              end).

Definition add_member_locked (environment_ref agent_uuid : string)
    : M EnvironmentRegistryState EnvironmentLookupError unit :=
  r <- known environment_ref ;;
  match er_status r with
  | Running | Retained =>
      if decide (agent_uuid ∈ er_members r) then ret tt
      else modify (with_record environment_ref (set_members (er_members r ++ [agent_uuid])))
  | Stopped => throw (ErrStopped (er_ref r))
  | Killing | CleanupFailed => throw (Stale (er_ref r))
  end.

(** Claim the kill of the record under the ref. *)
Definition take_claim (environment_ref : string) (s : EnvironmentRegistryState) : EnvironmentRegistryState :=
  let s := with_record environment_ref (set_status Killing) s in
  set_kill_claims (rs_kill_claims s ∪ {[environment_ref]}) s.

Definition remove_member_locked (environment_ref agent_uuid : string)
    : M EnvironmentRegistryState EnvironmentLookupError (option KillClaim) :=
  r <- known environment_ref ;;
  let members := filter (λ m, m ≠ agent_uuid) (er_members r) in
  modify (with_record environment_ref (set_members members)) ;;
  if bool_decide (members = []) && bool_decide (er_status r = Running)
     && bool_decide (er_origin r = Created)
  then modify (take_claim environment_ref) ;; ret (Some (mkKillClaim environment_ref))
  else ret None.

(** Whether a kill may claim a record in this status. *)
Definition claimable (r : EnvironmentRecord) : bool :=
  match er_status r with
  | Running | CleanupFailed | Retained => true
  | Killing => bool_decide (er_origin r = Restored)
  | Stopped => false
  end.

Definition claim_kill_locked (environment_ref : string)
    : M EnvironmentRegistryState EnvironmentLookupError KillClaim :=
  r <- known environment_ref ;;
  if claimable r then
    modify (take_claim environment_ref) ;; ret (mkKillClaim (er_ref r))
  else
    match er_status r with
    | Stopped => throw (ErrStopped (er_ref r))
    | Killing | Running | CleanupFailed | Retained => throw (Stale (er_ref r))
    end.

(** Run a section whose error is wrapped by [f]. *)
Definition map_err {S E E' A} (f : E → E') (m : M S E A) : M S E' A :=
  λ s, let '(s', r) := m s in
       (s', match r with Ok a => Ok a | Err e => Err (f e) | Panic => Panic end).

Definition admitted_locked (environment_ref : string) (condition : ClaimCondition)
    : M EnvironmentRegistryState ClaimRefusal unit :=
  reads (λ s, match rs_entries s !! environment_ref with
              | None => Err (Lookup (Unknown environment_ref))
              | Some r => match judge condition r with
                          | None => Ok tt
                          | Some mismatch => Err (CreatedByOther mismatch)
                          end
              end).

(** The critical section of [begin_kill_if]. *)
Definition begin_kill_if_locked (environment_ref : string) (condition : ClaimCondition)
    : M EnvironmentRegistryState ClaimRefusal KillClaim :=
  admitted_locked environment_ref condition ;;
  map_err Lookup (claim_kill_locked environment_ref).

Definition claim_removal_locked (environment_ref : string)
    : M EnvironmentRegistryState EnvironmentLookupError RemovalClaim :=
  r <- known environment_ref ;;
  if removable r then
    (if is_plain_stopped r then modify (with_record environment_ref clear_removal_pending) else ret tt) ;;
    modify (take_claim environment_ref) ;;
    ret (mkRemovalClaim (mkKillClaim (er_ref r)) (er_status r))
  else throw (Stale (er_ref r)).

(** The critical section of [begin_removal_if]. *)
Definition begin_removal_if_locked (environment_ref : string) (condition : ClaimCondition)
    : M EnvironmentRegistryState ClaimRefusal RemovalClaim :=
  admitted_locked environment_ref condition ;;
  map_err Lookup (claim_removal_locked environment_ref).

Definition drop_claim (environment_ref : string) (s : EnvironmentRegistryState) : EnvironmentRegistryState :=
  set_kill_claims (rs_kill_claims s ∖ {[environment_ref]}) s.

Definition complete_kill_locked (claim : KillClaim) (s : EnvironmentRegistryState)
    : EnvironmentRegistryState :=
  let keep_error := bool_decide (kc_ref claim ∈ rs_inspect_failures s) in
  with_record (kc_ref claim)
    (λ r, let r := set_members [] (set_status Stopped r) in
          if keep_error then r else set_last_error None r)
    (drop_claim (kc_ref claim) s).

(** [debug_assert_eq!(record.status, Killing)] on the record, when held. *)
Definition assert_killing {E} (environment_ref : string) : M EnvironmentRegistryState E unit :=
  held <- gets (λ s, rs_entries s !! environment_ref) ;;
  match held with Some r => debug_assert (bool_decide (er_status r = Killing)) | None => ret tt end.

Definition retain_locked {E} (claim : KillClaim) (reason : string) : M EnvironmentRegistryState E unit :=
  modify (drop_claim (kc_ref claim)) ;;
  assert_killing (kc_ref claim) ;;
  modify (with_record (kc_ref claim) (retain_with reason)).

Definition fail_kill_locked (claim : KillClaim) (error : string) (s : EnvironmentRegistryState)
    : EnvironmentRegistryState :=
  with_record (kc_ref claim) (λ r, set_last_error (Some error) (set_status CleanupFailed r))
    (drop_claim (kc_ref claim) s).

Definition release_removal_locked {E} (claim : RemovalClaim) : M EnvironmentRegistryState E unit :=
  let environment_ref := kc_ref (rc_claim claim) in
  modify (drop_claim environment_ref) ;;
  assert_killing environment_ref ;;
  modify (with_record environment_ref (set_status (rc_claimed_from claim))).

(** The owed-removal mark [fail_removal] leaves. *)
Definition mark_removal_pending (r : EnvironmentRecord) : EnvironmentRecord :=
  set_metadata (Object (<[REMOVAL_PENDING := Bool true]> (object_fields (er_metadata r)))) r.

Definition abandon_removal_locked {E} (claim : RemovalClaim) : M EnvironmentRegistryState E unit :=
  let environment_ref := kc_ref (rc_claim claim) in
  debug_assert (bool_decide (rc_claimed_from claim = CleanupFailed)) ;;
  modify (drop_claim environment_ref) ;;
  assert_killing environment_ref ;;
  modify (with_record environment_ref (λ r, set_status CleanupFailed (clear_removal_pending r))).

Definition begin_inspect_locked (environment_ref agent_uuid : string) (s : EnvironmentRegistryState)
    : EnvironmentRegistryState * option InspectClaim :=
  match rs_entries s !! environment_ref with
  | None => (s, None)
  | Some _ =>
      if decide ((environment_ref, agent_uuid) ∈ rs_inspect_claims s) then (s, None)
      else (set_inspect_claims (rs_inspect_claims s ∪ {[(environment_ref, agent_uuid)]}) s,
            Some (mkInspectClaim environment_ref))
  end.

(** The inspect result's metadata over the record's. *)
Definition inspected_metadata (existing incoming : Value) : Value :=
  match existing, incoming with
  | Object fields, Object new => Object (new ∪ fields)
  | _, incoming => incoming
  end.

Definition record_inspect_success_locked (claim : InspectClaim) (metadata : Value)
    (s : EnvironmentRegistryState) : EnvironmentRegistryState :=
  let had_inspect_failure := bool_decide (ic_ref claim ∈ rs_inspect_failures s) in
  with_record (ic_ref claim)
    (λ r, let r := if had_inspect_failure && negb (bool_decide (er_status r = CleanupFailed))
                   then set_last_error None r else r in
          set_metadata (inspected_metadata (er_metadata r) metadata) r)
    (set_inspect_failures (rs_inspect_failures s ∖ {[ic_ref claim]}) s).

Definition record_inspect_failure_locked (claim : InspectClaim) (error : string)
    (s : EnvironmentRegistryState) : EnvironmentRegistryState :=
  match rs_entries s !! ic_ref claim with
  | Some _ =>
      with_record (ic_ref claim) (set_last_error (Some error))
        (set_inspect_failures (rs_inspect_failures s ∪ {[ic_ref claim]}) s)
  | None => s
  end.

Definition has_name (name : string) (r : EnvironmentRecord) : bool := bool_decide (er_name r = Some name).

Definition resolve_locked (s : EnvironmentRegistryState) (target : EnvironmentTarget)
    : res EnvironmentLookupError EnvironmentRecord :=
  match target with
  | TargetRef env_ref =>
      match rs_entries s !! env_ref with Some r => Ok r | None => Err (Unknown env_ref) end
  | TargetName name =>
      let named := filter (λ r, has_name name r = true) (btree_values (rs_entries s)) in
      match filter (λ r, er_status r ≠ Stopped) named with
      | [r] => Ok r
      | _ :: _ :: _ => Err (Ambiguous name)
      | [] => if existsb (has_name name) (btree_values (rs_entries s)) then Err (ErrStopped name)
              else Err (Unknown name)
      end
  end.

(** * The registry's methods *)

Section registry.
Context {J : Type} (journal : option (EnvironmentJournal J)).

Definition RM (E A : Type) : Type := M (EnvironmentRegistryState * J) E A.

(** A section under the state lock. *)
Definition locked {E A} (m : M EnvironmentRegistryState E A) : RM E A :=
  λ w, let '(s, r) := m w.1 in ((s, w.2), r).

(** A call to the journal, when there is one. *)
Definition journal_ref {E} (environment_ref : string) : RM E unit :=
  λ w, match journal, journal_snapshot environment_ref w.1 with
       | Some j, Some (r, expected) =>
           let '(w2, outcome) := recorded j r expected w.2 in
           ((journal_settle environment_ref r outcome w.1, w2), Ok tt)
       | _, _ => (w, Ok tt)
       end.

Definition recover_unread {E} : RM E unit :=
  λ w, match journal, rs_read_error w.1 with
       | Some j, Some _ =>
           let '(w2, result) := reload j w.2 in ((reloaded result w.1, w2), Ok tt)
       | _, _ => (w, Ok tt)
       end.

Definition read_error {E} : RM E (option string) :=
  recover_unread ;; locked (gets rs_read_error).

(** [RefAllocationError::JournalUnavailable], as the journal's account. *)
Definition mint_ref : RM string string :=
  match journal with
  | None =>
      next <- locked (gets rs_next_ref) ;;
      number <- expect (u64_add next 1) ;;
      locked (modify (set_next_ref number)) ;;
      ret (format_ref number)
  | Some j =>
      held <- locked (gets highest_held) ;;
      floor <- ok_or (u64_checked_add held 1) "this session's ref space is exhausted"%string ;;
      allocated <- (λ w, let '(w2, a) := allocate_ref j floor w.2 in ((w.1, w2), Ok a)) ;;
      match allocated with
      | inr error => throw error
      | inl number =>
          if (number <? floor)%N then
            (λ w, ((w.1, release_number j number w.2), Ok tt)) ;;
            throw ("the registry minted " +:+ pretty.pretty number +:+ " below this session's floor "
                   +:+ pretty.pretty floor +:+ "; it is not counting")
          else
            locked (modify (set_next_ref number)) ;;
            ret (format_ref number)
      end
  end.

Definition release_ref {E} (environment_ref : string) : RM E unit :=
  λ w, match journal, ref_number environment_ref with
       | Some j, Some number => ((w.1, release_number j number w.2), Ok tt)
       | _, _ => (w, Ok tt)
       end.

Definition commit {E} (r : EnvironmentRecord) : RM E unit :=
  locked (modify (commit_locked r)) ;; journal_ref (er_ref r).

Definition restore {E} (records : list EnvironmentRecord) : RM E unit :=
  locked (modify (seed_locked records)).

Definition remove {E} (environment_ref : string) : RM E (option EnvironmentRecord) :=
  removed <- locked (λ s, (remove_locked environment_ref s, Ok (rs_entries s !! environment_ref))) ;;
  (λ w, match removed, journal with
        | Some r, Some j => ((w.1, forgotten j r w.2), Ok tt)
        | _, _ => (w, Ok tt)
        end) ;;
  ret removed.

Definition get {E} (environment_ref : string) : RM E (option EnvironmentRecord) :=
  locked (gets (λ s, rs_entries s !! environment_ref)).

Definition entries {E} : RM E (list EnvironmentRecord) :=
  recover_unread ;; locked (gets (λ s, btree_values (rs_entries s))).

Definition resolve (target : EnvironmentTarget) : RM EnvironmentLookupError EnvironmentRecord :=
  recover_unread ;;
  locked (reads (λ s, match resolve_locked s target, rs_read_error s with
                      | Err (Unknown _), Some error => Err (Unreadable error)
                      | resolved, _ => resolved
                      end)).

Definition resolve_joinable (target : EnvironmentTarget) : RM EnvironmentLookupError EnvironmentRecord :=
  r <- resolve target ;;
  match er_status r with
  | Running | Retained => ret r
  | Stopped => throw (ErrStopped (er_ref r))
  | Killing | CleanupFailed => throw (Stale (er_ref r))
  end.

Definition add_member (environment_ref agent_uuid : string) : RM EnvironmentLookupError unit :=
  locked (add_member_locked environment_ref agent_uuid).

Definition remove_member (environment_ref agent_uuid : string)
    : RM EnvironmentLookupError (option KillClaim) :=
  claim <- locked (remove_member_locked environment_ref agent_uuid) ;;
  match claim with
  | Some c => journal_ref environment_ref ;; ret (Some c)
  | None => ret None
  end.

Definition begin_kill_if (environment_ref : string) (condition : ClaimCondition) : RM ClaimRefusal KillClaim :=
  claim <- locked (begin_kill_if_locked environment_ref condition) ;;
  journal_ref environment_ref ;;
  ret claim.

(** [begin_kill]: the refusal of an unconditional claim is a lookup's. *)
Definition begin_kill (environment_ref : string) : RM EnvironmentLookupError KillClaim :=
  λ w, let '(w', r) := begin_kill_if environment_ref Any w in
       (w', match r with
            | Ok c => Ok c
            | Err (Lookup e) => Err e
            | Err (CreatedByOther _) | Panic => Panic
            end).

Definition complete_kill {E} (claim : KillClaim) : RM E unit :=
  locked (modify (complete_kill_locked claim)) ;; journal_ref (kc_ref claim).

Definition retain {E} (claim : KillClaim) (reason : string) : RM E unit :=
  locked (retain_locked claim reason) ;; journal_ref (kc_ref claim).

Definition fail_kill {E} (claim : KillClaim) (error : string) : RM E unit :=
  locked (modify (fail_kill_locked claim error)) ;; journal_ref (kc_ref claim).

Definition begin_removal_if (environment_ref : string) (condition : ClaimCondition)
    : RM ClaimRefusal RemovalClaim :=
  claim <- locked (begin_removal_if_locked environment_ref condition) ;;
  journal_ref environment_ref ;;
  ret claim.

Definition release_removal {E} (claim : RemovalClaim) : RM E unit :=
  locked (release_removal_locked claim) ;; journal_ref (kc_ref (rc_claim claim)).

Definition fail_removal {E} (claim : RemovalClaim) (error : string) : RM E unit :=
  locked (modify (with_record (kc_ref (rc_claim claim)) mark_removal_pending)) ;;
  fail_kill (rc_claim claim) error.

Definition abandon_removal {E} (claim : RemovalClaim) : RM E unit :=
  locked (abandon_removal_locked claim) ;; journal_ref (kc_ref (rc_claim claim)).

Definition complete_removal {E} (claim : RemovalClaim) : RM E unit :=
  removed <- remove (kc_ref (rc_claim claim)) ;;
  debug_assert (match removed with
                | None => true
                | Some r => bool_decide (er_status r = Killing)
                end).

Definition begin_inspect {E} (environment_ref agent_uuid : string) : RM E (option InspectClaim) :=
  locked (λ s, let '(s', c) := begin_inspect_locked environment_ref agent_uuid s in (s', Ok c)).

Definition record_inspect_success {E} (claim : InspectClaim) (metadata : Value) : RM E unit :=
  locked (modify (record_inspect_success_locked claim metadata)) ;; journal_ref (ic_ref claim).

Definition record_inspect_failure {E} (claim : InspectClaim) (error : string) : RM E unit :=
  locked (modify (record_inspect_failure_locked claim error)) ;; journal_ref (ic_ref claim).

End registry.
