(* ===== verification/EnvironmentClaims.v ===== *)
(** Who may tear an environment down: the claims a registry hands out, under
    every interleaving of its critical sections.

    A configuration is the registry's state, the journal's, the claims handed
    out and not yet settled, and the journal write in flight, if any.  A step is
    one critical section of one method: the state lock is free between the two
    halves of a method, and between a journal write and what it comes to, so
    the methods of several threads interleave freely.  Other processes may
    change the journal at any moment. *)

From S2P Require Import Prelude EnvironmentTypes EnvironmentRegistry.

Inductive token := KillToken (c : KillClaim) | RemovalToken (c : RemovalClaim).

Definition token_ref (t : token) : string :=
  match t with KillToken c => kc_ref c | RemovalToken c => kc_ref (rc_claim c) end.

(** The claims outstanding on one ref. *)
Definition held_on (k : string) (ts : list token) : list token := filter (λ t, token_ref t = k) ts.

Record config (J : Type) := mkConfig {
  cf_state : EnvironmentRegistryState;
  cf_journal : J;
  cf_tokens : list token;
  cf_flight : option (string * EnvironmentRecord * JournalWrite);
}.
#[global] Arguments mkConfig {_} _ _ _ _.
#[global] Arguments cf_state {_} _.
#[global] Arguments cf_journal {_} _.
#[global] Arguments cf_tokens {_} _.
#[global] Arguments cf_flight {_} _.

Section steps.
Context {J : Type} (journal : option (EnvironmentJournal J)).

(** A ref nothing of this session names any more. *)
Definition fresh_ref (k : string) (c : config J) : Prop :=
  rs_entries (cf_state c) !! k = None ∧ held_on k (cf_tokens c) = [] ∧
  ∀ r o, cf_flight c ≠ Some (k, r, o).

(** A record as a create commits it. *)
Definition created_record (r : EnvironmentRecord) : Prop :=
  er_origin r = Created ∧ er_status r = Running ∧ er_members r = [].

(** The state section of a method run on a configuration. *)
Definition on_state (s : EnvironmentRegistryState) (ts : list token) (c : config J) : config J :=
  mkConfig s (cf_journal c) ts (cf_flight c).

Inductive step : config J → config J → Prop :=
| St_mint c n : journal = None → u64_add (rs_next_ref (cf_state c)) 1 = Some n →
    step c (on_state (set_next_ref n (cf_state c)) (cf_tokens c) c)
| St_mint_journal c j n : journal = Some j →
    step c (on_state (set_next_ref n (cf_state c)) (cf_tokens c) c)
| St_commit c r : created_record r → fresh_ref (er_ref r) c →
    step c (on_state (commit_locked r (cf_state c)) (cf_tokens c) c)
| St_remove c k : step c (on_state (remove_locked k (cf_state c)) (cf_tokens c) c)
| St_add_member c k a s' r : add_member_locked k a (cf_state c) = (s', r) →
    step c (on_state s' (cf_tokens c) c)
| St_remove_member c k a s' claim : remove_member_locked k a (cf_state c) = (s', Ok (Some claim)) →
    step c (on_state s' (KillToken claim :: cf_tokens c) c)
| St_leave c k a s' r : remove_member_locked k a (cf_state c) = (s', r) → (∀ claim, r ≠ Ok (Some claim)) →
    step c (on_state s' (cf_tokens c) c)
| St_begin_kill c k cond s' claim : begin_kill_if_locked k cond (cf_state c) = (s', Ok claim) →
    step c (on_state s' (KillToken claim :: cf_tokens c) c)
| St_begin_removal c k cond s' claim : begin_removal_if_locked k cond (cf_state c) = (s', Ok claim) →
    step c (on_state s' (RemovalToken claim :: cf_tokens c) c)
| St_complete_kill c claim t1 t2 : cf_tokens c = t1 ++ KillToken claim :: t2 →
    step c (on_state (complete_kill_locked claim (cf_state c)) (t1 ++ t2) c)
| St_retain c claim reason t1 t2 s' r : cf_tokens c = t1 ++ KillToken claim :: t2 →
    retain_locked (E := string) claim reason (cf_state c) = (s', r) →
    step c (on_state s' (t1 ++ t2) c)
| St_fail_kill c claim error t1 t2 : cf_tokens c = t1 ++ KillToken claim :: t2 →
    step c (on_state (fail_kill_locked claim error (cf_state c)) (t1 ++ t2) c)
| St_release_removal c claim t1 t2 s' r : cf_tokens c = t1 ++ RemovalToken claim :: t2 →
    release_removal_locked (E := string) claim (cf_state c) = (s', r) →
    step c (on_state s' (t1 ++ t2) c)
| St_mark_removal c claim : RemovalToken claim ∈ cf_tokens c →
    step c (on_state (with_record (kc_ref (rc_claim claim)) mark_removal_pending (cf_state c)) (cf_tokens c) c)
| St_fail_removal c claim error t1 t2 : cf_tokens c = t1 ++ RemovalToken claim :: t2 →
    step c (on_state (fail_kill_locked (rc_claim claim) error (cf_state c)) (t1 ++ t2) c)
| St_abandon_removal c claim t1 t2 s' r : cf_tokens c = t1 ++ RemovalToken claim :: t2 →
    rc_claimed_from claim = CleanupFailed →
    abandon_removal_locked (E := string) claim (cf_state c) = (s', r) →
    step c (on_state s' (t1 ++ t2) c)
| St_complete_removal c claim t1 t2 : cf_tokens c = t1 ++ RemovalToken claim :: t2 →
    step c (on_state (remove_locked (kc_ref (rc_claim claim)) (cf_state c)) (t1 ++ t2) c)
| St_begin_inspect c k a :
    step c (on_state (begin_inspect_locked k a (cf_state c)).1 (cf_tokens c) c)
| St_inspect_success c claim metadata :
    step c (on_state (record_inspect_success_locked claim metadata (cf_state c)) (cf_tokens c) c)
| St_inspect_failure c claim error :
    step c (on_state (record_inspect_failure_locked claim error (cf_state c)) (cf_tokens c) c)
| St_reload c j : journal = Some j → cf_flight c = None →
    step c (mkConfig (reloaded (reload j (cf_journal c)).2 (cf_state c)) (reload j (cf_journal c)).1
              (cf_tokens c) None)
| St_journal_write c j k r expected : journal = Some j → cf_flight c = None →
    journal_snapshot k (cf_state c) = Some (r, expected) →
    step c (mkConfig (cf_state c) (recorded j r expected (cf_journal c)).1 (cf_tokens c)
              (Some (k, r, (recorded j r expected (cf_journal c)).2)))
| St_journal_settle c k r outcome : cf_flight c = Some (k, r, outcome) →
    step c (mkConfig (journal_settle k r outcome (cf_state c)) (cf_journal c) (cf_tokens c) None)
| St_other_process c j : step c (mkConfig (cf_state c) j (cf_tokens c) (cf_flight c)).

(** [reachable reused c]: some interleaving leads to [c], in which [reused] are the refs
    committed again while a claim on, or a journal write of, an earlier record of theirs could be out:
    a launch that rolls back removes its record whatever claims are held on it, and the ref may be minted
    again. *)
Inductive reachable : gset string → config J → Prop :=
| reach_start records j : reachable ∅ (mkConfig (seed_locked records RegistryState_default) j [] None)
| reach_step reused c c' : reachable reused c → step c c' → reachable reused c'
| reach_reuse reused c r : reachable reused c → created_record r →
    reachable ({[ er_ref r ]} ∪ reused) (on_state (commit_locked r (cf_state c)) (cf_tokens c) c).

(** * The invariant *)

Section invariant.
Context (reused : gset string).

(** The status a removal remembers. *)
Definition claimed_from (t : token) : option EnvironmentStatus :=
  match t with KillToken _ => None | RemovalToken c => Some (rc_claimed_from c) end.

(** What holds of the record under [k], given the claims held on it: for a record this session
    created, as long as its ref was not reused. *)
Definition record_ok (k : string) (held : list token) (r : EnvironmentRecord) : Prop :=
  er_ref r = k ∧ NoDup (er_members r) ∧
  (k ∉ reused → er_origin r = Created →
   match er_status r with
   | Killing => ∃ t, held = [t] ∧ (claimed_from t = Some Stopped → er_members r = [])
   | Stopped => held = [] ∧ er_members r = []
   | Running | CleanupFailed | Retained => held = []
   end).

Definition token_ok (t : token) : Prop := claimed_from t ≠ Some Killing.

Record config_ok (c : config J) : Prop := {
  co_records : map_Forall (λ k r, record_ok k (held_on k (cf_tokens c)) r) (rs_entries (cf_state c));
  co_tokens : Forall token_ok (cf_tokens c);
  co_flight : ∀ k r o r', cf_flight c = Some (k, r, o) → rs_entries (cf_state c) !! k = Some r' →
    k ∉ reused → er_origin r = Restored → er_origin r' = Restored;
}.

Lemma held_on_cons k t ts : held_on k (t :: ts) = if decide (token_ref t = k) then t :: held_on k ts else held_on k ts.
Proof. unfold held_on. by rewrite filter_cons. Qed.

Lemma held_on_app k t1 t2 : held_on k (t1 ++ t2) = held_on k t1 ++ held_on k t2.
Proof. apply list.filter_app. Qed.

(** A section that rewrites the record under one ref, and only the claims held
    on that ref. *)
Lemma config_ok_update c s' ts' k f :
  config_ok c → rs_entries s' = alter f k (rs_entries (cf_state c)) →
  (∀ k', k' ≠ k → held_on k' ts' = held_on k' (cf_tokens c)) → Forall token_ok ts' →
  (∀ r, rs_entries (cf_state c) !! k = Some r → record_ok k (held_on k (cf_tokens c)) r →
     record_ok k (held_on k ts') (f r) ∧ er_origin (f r) = er_origin r) →
  config_ok (on_state s' ts' c).
Proof.
  intros [Hr Ht Hfl] Hs Hheld Hts Hf. split; simpl; [|done|].
  - rewrite Hs. intros k' r' [(<- & r & Hk & ->)|[Hne Hk]]%lookup_alter_Some.
    + by apply Hf; [|apply Hr].
    + rewrite Hheld by done. by apply Hr.
  - intros k' r o r' Hflight. rewrite Hs. intros [(<- & r0 & Hk & ->)|[Hne Hk]]%lookup_alter_Some.
    + intros Hx Hor. destruct (Hf r0 Hk (Hr _ _ Hk)) as [_ ->]. by eapply Hfl.
    + by eapply Hfl.
Qed.

(** ** The critical sections, branch by branch *)

Lemma add_member_spec k a s :
  add_member_locked k a s =
  match rs_entries s !! k with
  | None => (s, Err (Unknown k))
  | Some r =>
      match er_status r with
      | Running | Retained =>
          (if decide (a ∈ er_members r) then s else with_record k (set_members (er_members r ++ [a])) s, Ok tt)
      | Stopped => (s, Err (ErrStopped (er_ref r)))
      | Killing | CleanupFailed => (s, Err (Stale (er_ref r)))
      end
  end.
Proof.
  unfold add_member_locked, known, reads, bind. destruct (rs_entries s !! k) as [r|]; [|done].
  destruct (er_status r); try done; by case_decide.
Qed.

Lemma remove_member_spec k a s :
  remove_member_locked k a s =
  match rs_entries s !! k with
  | None => (s, Err (Unknown k))
  | Some r =>
      let members := filter (λ m, m ≠ a) (er_members r) in
      let s' := with_record k (set_members members) s in
      if bool_decide (members = []) && bool_decide (er_status r = Running) && bool_decide (er_origin r = Created)
      then (take_claim k s', Ok (Some (mkKillClaim k))) else (s', Ok None)
  end.
Proof.
  unfold remove_member_locked, known, reads, bind. destruct (rs_entries s !! k) as [r|]; [|done].
  simpl. by case_match.
Qed.

Lemma begin_kill_spec k cond s :
  begin_kill_if_locked k cond s =
  match rs_entries s !! k with
  | None => (s, Err (Lookup (Unknown k)))
  | Some r =>
      match judge cond r with
      | Some mismatch => (s, Err (CreatedByOther mismatch))
      | None =>
          if claimable r then (take_claim k s, Ok (mkKillClaim (er_ref r)))
          else (s, Err (Lookup (if decide (er_status r = Stopped) then ErrStopped (er_ref r) else Stale (er_ref r))))
      end
  end.
Proof.
  unfold begin_kill_if_locked, admitted_locked, map_err, claim_kill_locked, known, reads, bind.
  destruct (rs_entries s !! k) as [r|]; [|done]. destruct (judge cond r); [done|].
  destruct (claimable r); [done|]. by destruct (er_status r).
Qed.

Lemma begin_removal_spec k cond s :
  begin_removal_if_locked k cond s =
  match rs_entries s !! k with
  | None => (s, Err (Lookup (Unknown k)))
  | Some r =>
      match judge cond r with
      | Some mismatch => (s, Err (CreatedByOther mismatch))
      | None =>
          if removable r then
            (take_claim k (if is_plain_stopped r then with_record k clear_removal_pending s else s),
             Ok (mkRemovalClaim (mkKillClaim (er_ref r)) (er_status r)))
          else (s, Err (Lookup (Stale (er_ref r))))
      end
  end.
Proof.
  unfold begin_removal_if_locked, admitted_locked, map_err, claim_removal_locked, known, reads, bind.
  destruct (rs_entries s !! k) as [r|]; [|done]. destruct (judge cond r); [done|].
  destruct (removable r); [|done]. by destruct (is_plain_stopped r).
Qed.

Lemma assert_killing_spec {E} k s :
  @assert_killing E k s =
  (s, match rs_entries s !! k with
      | Some r => if decide (er_status r = Killing) then Ok tt else Panic
      | None => Ok tt
      end).
Proof.
  unfold assert_killing. rewrite bind_gets. destruct (rs_entries s !! k) as [r|]; [|done].
  unfold debug_assert. by case_bool_decide; case_decide.
Qed.

(** The settling sections that assert the record is being killed. *)
Lemma settle_spec {E} k (f : EnvironmentRecord → EnvironmentRecord) s :
  bind (E := E) (modify (drop_claim k)) (λ _, bind (assert_killing k) (λ _, modify (with_record k f))) s =
  match rs_entries s !! k with
  | Some r => if decide (er_status r = Killing) then (with_record k f (drop_claim k s), Ok tt) else (drop_claim k s, Panic)
  | None => (with_record k f (drop_claim k s), Ok tt)
  end.
Proof.
  rewrite bind_modify. unfold bind at 1. rewrite assert_killing_spec.
  change (rs_entries (drop_claim k s)) with (rs_entries s).
  destruct (rs_entries s !! k) as [r|]; [|done]. by case_decide.
Qed.

Lemma record_ok_held k held held' r :
  record_ok k held r → held' = held → record_ok k held' r.
Proof. by intros ? ->. Qed.

Lemma held_created k held r :
  record_ok k held r → k ∉ reused → er_origin r = Created →
  (er_status r = Killing ∧ ∃ t, held = [t]) ∨ (er_status r ≠ Killing ∧ held = []).
Proof.
  intros (_ & _ & Hc) Hx Ho. specialize (Hc Hx Ho). destruct (er_status r); try (by right).
  - left. destruct Hc as (t & -> & _). eauto.
  - right. by destruct Hc.
Qed.

(** ** Sections that keep the invariant *)

(** A change that leaves a record's ref, origin and status alone, and only
    takes members away. *)
Definition benign (f : EnvironmentRecord → EnvironmentRecord) : Prop :=
  ∀ r, er_ref (f r) = er_ref r ∧ er_origin (f r) = er_origin r ∧ er_status (f r) = er_status r ∧
       er_members (f r) `sublist_of` er_members r.

Lemma benign_ok k held f r : benign f → record_ok k held r → record_ok k held (f r).
Proof.
  intros Hf (Hk & Hnd & Hc). destruct (Hf r) as (Href & Hor & Hst & Hsub). unfold record_ok.
  rewrite Href, Hor, Hst. split_and!; [done|by eapply sublist_NoDup|].
  intros Hx Ho. specialize (Hc Hx Ho). destruct (er_status r); try done.
  - destruct Hc as (t & -> & Hm). exists t. split; [done|]. intros Hf'. rewrite (Hm Hf') in Hsub. by apply sublist_nil_r in Hsub.
  - destruct Hc as [-> Hm]. rewrite Hm in Hsub. by apply sublist_nil_r in Hsub.
Qed.

Lemma config_ok_benign c s' k f :
  config_ok c → benign f → rs_entries s' = alter f k (rs_entries (cf_state c)) →
  config_ok (on_state s' (cf_tokens c) c).
Proof.
  intros Hok Hf Hs. eapply config_ok_update; [done|exact Hs|done|apply co_tokens, Hok|].
  intros r Hr Hrok. split; [by apply benign_ok|apply Hf].
Qed.

Lemma config_ok_same c s' :
  config_ok c → rs_entries s' = rs_entries (cf_state c) → config_ok (on_state s' (cf_tokens c) c).
Proof. intros [Hr Ht Hfl] Hs. split; simpl; rewrite ?Hs; done. Qed.

(** A claim taken on a record that none was held on. *)
Lemma config_ok_claim c s' k t f :
  config_ok c → token_ref t = k → token_ok t → rs_entries s' = alter f k (rs_entries (cf_state c)) →
  (∀ r, rs_entries (cf_state c) !! k = Some r →
     er_ref (f r) = er_ref r ∧ er_origin (f r) = er_origin r ∧ er_status (f r) = Killing ∧
     er_members (f r) `sublist_of` er_members r ∧
     (er_origin r = Created → er_status r ≠ Killing ∧ (claimed_from t = Some Stopped → er_status r = Stopped))) →
  config_ok (on_state s' (t :: cf_tokens c) c).
Proof.
  intros Hok Ht Htok Hs Hf. eapply config_ok_update; [done|exact Hs| | |].
  - intros k' Hne. rewrite held_on_cons. by rewrite decide_False by congruence.
  - constructor; [done|apply co_tokens, Hok].
  - intros r Hr (Hk & Hnd & Hc). destruct (Hf r Hr) as (Href & Hor & Hst & Hsub & Hcr).
    split; [|done]. unfold record_ok. rewrite Href, Hor, Hst, held_on_cons, decide_True by done.
    split_and!; [done|by eapply sublist_NoDup|]. intros Hx Ho. specialize (Hc Hx Ho). destruct (Hcr Ho) as [Hnk Hst'].
    assert (held_on k (cf_tokens c) = []) as ->.
    { destruct (er_status r); try done. by destruct Hc. }
    exists t. split; [done|]. intros Hfrom. specialize (Hst' Hfrom). rewrite Hst' in Hc.
    destruct Hc as [_ Hm]. rewrite Hm in Hsub. by apply sublist_nil_r in Hsub.
Qed.

(** A claim settled: the record leaves [Killing]. *)
Lemma config_ok_settle c s' t t1 t2 f :
  config_ok c → cf_tokens c = t1 ++ t :: t2 → rs_entries s' = alter f (token_ref t) (rs_entries (cf_state c)) →
  (∀ r, rs_entries (cf_state c) !! token_ref t = Some r →
     er_ref (f r) = er_ref r ∧ er_origin (f r) = er_origin r ∧ er_status (f r) ≠ Killing ∧
     er_members (f r) `sublist_of` er_members r ∧
     (token_ref t ∉ reused → er_origin r = Created → er_status (f r) = Stopped → er_members (f r) = [] ∨ claimed_from t = Some Stopped)) →
  config_ok (on_state s' (t1 ++ t2) c).
Proof.
  intros Hok Hts Hs Hf. pose proof (co_tokens c Hok) as Htok. rewrite Hts in Htok.
  apply Forall_app in Htok as [Ht1 Htok]. apply Forall_cons_1 in Htok as [Ht Ht2].
  eapply config_ok_update; [done|exact Hs| | |].
  - intros k' Hne. rewrite Hts, !held_on_app, held_on_cons. by rewrite decide_False.
  - by apply Forall_app.
  - intros r Hr (Hk & Hnd & Hc). destruct (Hf r Hr) as (Href & Hor & Hst & Hsub & Hstop).
    split; [|done]. unfold record_ok. rewrite Href, Hor. split_and!; [done|by eapply sublist_NoDup|].
    intros Hx Ho. specialize (Hc Hx Ho). rewrite Hts, held_on_app, held_on_cons, decide_True in Hc by done.
    assert (held_on (token_ref t) (t1 ++ t2) = [] ∧ (claimed_from t = Some Stopped → er_members (f r) = [])) as [Hnone Hmem].
    { rewrite held_on_app. destruct (er_status r).
      - by destruct (held_on _ t1).
      - destruct Hc as (t' & Heq & Hm). apply app_singleton in Heq as [[H1 [= <- H2]]|[_ [=]]].
        rewrite H1, H2. split; [done|]. intros Hfrom. rewrite (Hm Hfrom) in Hsub. by apply sublist_nil_r in Hsub.
      - destruct Hc as [Hc _]. by destruct (held_on _ t1).
      - by destruct (held_on _ t1).
      - by destruct (held_on _ t1). }
    rewrite Hnone. destruct (er_status (f r)) eqn:E; try done. split; [done|].
    destruct (Hstop Hx Ho eq_refl) as [?|?]; [done|by apply Hmem].
Qed.

Lemma config_ok_drop c s' t t1 t2 :
  config_ok c → cf_tokens c = t1 ++ t :: t2 → rs_entries s' = rs_entries (cf_state c) →
  (∀ r, rs_entries (cf_state c) !! token_ref t = Some r → er_status r ≠ Killing) →
  config_ok (on_state s' (t1 ++ t2) c).
Proof.
  intros Hok Hts Hs Hnk. apply (config_ok_settle c s' t t1 t2 (λ r, r) Hok Hts).
  - rewrite Hs. symmetry. apply map_eq. intros k'. destruct (decide (token_ref t = k')) as [<-|?].
    + rewrite lookup_alter, decide_True by done. apply option_fmap_id.
    + by rewrite lookup_alter_ne.
  - intros r Hr. split_and!; try done; [by apply Hnk|].
    intros Hx Ho Hst. pose proof (co_records c Hok _ _ Hr) as (_ & _ & Hc). specialize (Hc Hx Ho).
    rewrite Hst in Hc. left. by destruct Hc.
Qed.

Lemma config_ok_remove c k ts' :
  config_ok c → (∀ k', k' ≠ k → held_on k' ts' = held_on k' (cf_tokens c)) → Forall token_ok ts' →
  config_ok (on_state (remove_locked k (cf_state c)) ts' c).
Proof.
  intros [Hr Ht Hfl] Hheld Hts. split; simpl; [|done|].
  - intros k' r [Hne Hk]%lookup_delete_Some. rewrite Hheld by done. by apply Hr.
  - intros k' r o r' Hf [Hne Hk]%lookup_delete_Some. by eapply Hfl.
Qed.

Lemma entries_advance k s : rs_entries (advance_next_ref k s) = rs_entries s.
Proof. unfold advance_next_ref. by case_match. Qed.

Lemma config_ok_commit c r :
  config_ok c → created_record r → fresh_ref (er_ref r) c →
  config_ok (on_state (commit_locked r (cf_state c)) (cf_tokens c) c).
Proof.
  intros [Hr Ht Hfl] (Ho & Hst & Hm) (Hno & Hheld & Hfly). split; simpl; [|done|].
  - rewrite entries_advance. intros k r' [[<- <-]|[Hne Hk]]%lookup_insert_Some; [|by apply Hr].
    split_and!; [done|rewrite Hm; constructor|]. intros _. by rewrite Hst.
  - intros k r' o r0 Hf. rewrite entries_advance. intros [[<- <-]|[Hne Hk]]%lookup_insert_Some; [|by eapply Hfl].
    by apply Hfly in Hf.
Qed.

(** Seeding adds restored records. *)
Lemma seed_entries_any records s k r :
  rs_entries (seed_locked records s) !! k = Some r →
  rs_entries s !! k = Some r ∨ (er_ref r = k ∧ er_origin r = Restored ∧ er_members r = []).
Proof.
  revert s. induction records as [|x records IH] using rev_ind; intros s; [by left|].
  unfold seed_locked. rewrite foldl_app. cbn [foldl]. unfold seed_one at 1. cbn [rs_entries set_entries set_journalled].
  rewrite entries_advance. intros [[<- <-]|[Hne Hk]]%lookup_insert_Some; [by right|by apply IH].
Qed.

Lemma config_ok_reload c result j :
  config_ok c → config_ok (mkConfig (reloaded result (cf_state c)) j (cf_tokens c) None).
Proof.
  intros [Hr Ht Hfl]. split; simpl; [|done|done].
  destruct result as [records|e]; [|done]. intros k r Hk. simpl in Hk.
  destruct (seed_entries_any (fresh_records (cf_state c) records) (cf_state c) k r Hk) as [Hk'|(Hk' & Ho & Hm)].
  - by apply Hr.
  - split_and!; [done|rewrite Hm; constructor|by rewrite Ho].
Qed.

Lemma config_ok_journal_settle c k r outcome :
  config_ok c → cf_flight c = Some (k, r, outcome) →
  config_ok (mkConfig (journal_settle k r outcome (cf_state c)) (cf_journal c) (cf_tokens c) None).
Proof.
  intros [Hr Ht Hfl] Hf. split; simpl; [|done|done].
  unfold journal_settle. destruct (er_origin r) eqn:Ho, outcome as [|current metadata|]; try done.
  cbn [rs_entries set_journalled]. case_decide; [done|]. unfold with_record. cbn [rs_entries set_entries].
  intros k' r' [(<- & r0 & Hk & ->)|[Hne Hk]]%lookup_alter_Some; [|by apply Hr].
  destruct (Hr _ _ Hk) as (Hk' & Hnd & _). split_and!; [done..|]. simpl.
  intros Hx. by rewrite (Hfl _ _ _ _ Hf Hk Hx Ho).
Qed.

(** Settling through an asserting section. *)
Lemma config_ok_asserting c t t1 t2 s' (r : res string unit) f :
  config_ok c → cf_tokens c = t1 ++ t :: t2 →
  bind (modify (drop_claim (token_ref t)))
    (λ _, bind (assert_killing (token_ref t)) (λ _, modify (with_record (token_ref t) f))) (cf_state c) = (s', r) →
  (∀ r, er_ref (f r) = er_ref r ∧ er_origin (f r) = er_origin r ∧ er_status (f r) ≠ Killing ∧
     er_members (f r) `sublist_of` er_members r ∧
     (er_status (f r) = Stopped → er_members (f r) = [] ∨ claimed_from t = Some Stopped)) →
  config_ok (on_state s' (t1 ++ t2) c).
Proof.
  intros Hok Hts Hrun Hf. rewrite settle_spec in Hrun.
  assert (config_ok (on_state (with_record (token_ref t) f (drop_claim (token_ref t) (cf_state c))) (t1 ++ t2) c)) as Hset.
  { eapply (config_ok_settle c _ t t1 t2 f Hok Hts); [done|]. intros r0 _.
    destruct (Hf r0) as (? & ? & ? & ? & ?). by split_and!. }
  destruct (rs_entries (cf_state c) !! token_ref t) as [r0|] eqn:Hr0.
  - case_decide; injection Hrun as <- <-; [done|].
    eapply (config_ok_drop c _ t t1 t2 Hok Hts); [done|]. intros r'. rewrite Hr0. by intros [= <-].
  - by injection Hrun as <- <-.
Qed.

Lemma config_ok_add_member c k a s' r :
  config_ok c → add_member_locked k a (cf_state c) = (s', r) → config_ok (on_state s' (cf_tokens c) c).
Proof.
  intros Hok. rewrite add_member_spec.
  destruct (rs_entries (cf_state c) !! k) as [r0|] eqn:Hr0; [|intros [= <- <-]; by apply config_ok_same].
  destruct (decide (a ∈ er_members r0)) as [Hin|Hnew].
  { destruct (er_status r0); intros [= <- <-]; by apply config_ok_same. }
  assert (config_ok (on_state (with_record k (set_members (er_members r0 ++ [a])) (cf_state c)) (cf_tokens c) c) ∨
          is_joinable (er_status r0) = false) as [Hadd|Hno].
  { destruct (er_status r0) eqn:Hst; [left| by right |by right |by right|left];
    (eapply config_ok_update; [done|done|done|apply co_tokens, Hok|]; intros r'; rewrite Hr0; intros [= <-] (Hk & Hnd & Hc);
     split; [|done]; split_and!; [done|by apply NoDup_snoc|]; intros Ho; specialize (Hc Ho); simpl; by rewrite Hst in Hc |- *). }
  - destruct (er_status r0); intros [= <- <-]; try done; by apply config_ok_same.
  - destruct (er_status r0); try done; intros [= <- <-]; by apply config_ok_same.
Qed.

Lemma filter_sublist {A} (P : A → Prop) `{!∀ x, Decision (P x)} l : filter P l `sublist_of` l.
Proof. induction l as [|x l IH]; [done|]. rewrite filter_cons. case_decide; by constructor. Qed.

Lemma config_ok_remove_member c k a s' r :
  config_ok c → remove_member_locked k a (cf_state c) = (s', r) →
  config_ok (on_state s' (match r with Ok (Some claim) => KillToken claim :: cf_tokens c | _ => cf_tokens c end) c).
Proof.
  intros Hok. rewrite remove_member_spec.
  destruct (rs_entries (cf_state c) !! k) as [r0|] eqn:Hr0; [|intros [= <- <-]; by apply config_ok_same].
  cbv zeta. destruct (_ && _) eqn:Hb; intros [= <- <-].
  - split_bools. apply (config_ok_claim c _ k (KillToken (mkKillClaim k)) 
      (set_status Killing ∘ set_members (filter (λ m, m ≠ a) (er_members r0))) Hok eq_refl).
    + done.
    + simpl. by rewrite alter_alter_eq.
    + intros r. rewrite Hr0. intros [= <-]. split_and!; try done; [apply filter_sublist|].
      intros _. split; [congruence|done].
  - eapply config_ok_update; [done|done|done|apply co_tokens, Hok|]. intros r. rewrite Hr0. intros [= <-] (Hk & Hnd & Hc).
    split; [|done]. split_and!; [done|by apply list.NoDup_filter|]. intros Hx Ho. specialize (Hc Hx Ho). simpl in *.
    destruct (er_status r0); try done.
    + destruct Hc as (t & -> & Hm). exists t. split; [done|]. intros Hf. by rewrite (Hm Hf).
    + destruct Hc as [-> ->]. done.
Qed.

Lemma clear_removal_pending_same r :
  er_ref (clear_removal_pending r) = er_ref r ∧ er_origin (clear_removal_pending r) = er_origin r ∧
  er_members (clear_removal_pending r) = er_members r ∧ er_status (clear_removal_pending r) = er_status r.
Proof. unfold clear_removal_pending. by destruct (er_metadata r). Qed.

Lemma config_ok_begin_removal c k cond s' claim :
  config_ok c → begin_removal_if_locked k cond (cf_state c) = (s', Ok claim) →
  config_ok (on_state s' (RemovalToken claim :: cf_tokens c) c).
Proof.
  intros Hok. rewrite begin_removal_spec. destruct (rs_entries (cf_state c) !! k) as [r0|] eqn:Hr0; [|done].
  destruct (judge cond r0); [done|]. destruct (removable r0) eqn:Hrem; [|done]. intros [= <- <-].
  destruct (co_records c Hok _ _ Hr0) as (Hk & _ & _). unfold removable, is_plain_stopped, removal_pending in Hrem.
  set (f := if is_plain_stopped r0 then clear_removal_pending else id).
  apply (config_ok_claim c _ k _ (set_status Killing ∘ f) Hok); [done| | |].
  - unfold token_ok. simpl. intros [= Heq]. rewrite Heq in Hrem. done.
  - subst f. destruct (is_plain_stopped r0); simpl.
    + by rewrite alter_alter_eq.
    + apply alter_ext. done.
  - intros r. rewrite Hr0. intros [= <-]. destruct (clear_removal_pending_same r0) as (? & ? & Hm & ?).
    assert (er_ref (f r0) = er_ref r0 ∧ er_origin (f r0) = er_origin r0 ∧ er_members (f r0) = er_members r0) as (? & ? & Hm').
    { subst f. by destruct (is_plain_stopped r0). }
    split_and!; try done; [simpl; by rewrite Hm'|]. intros Ho. split; [|by intros [=]].
    intros Heq. rewrite Heq in Hrem. done.
Qed.

Lemma step_ok c c' : config_ok c → step c c' → config_ok c'.
Proof.
  intros Hok Hstep. destruct Hstep as
    [c n Hj Hn|c j n Hj|c r Hr Hfr|c k|c k a s' r Hrun|c k a s' claim Hrun|c k a s' r Hrun Hno|c k cond s' claim Hrun
    |c k cond s' claim Hrun|c claim t1 t2 Hts|c claim reason t1 t2 s' r Hts Hrun|c claim error t1 t2 Hts
    |c claim t1 t2 s' r Hts Hrun|c claim Hin|c claim error t1 t2 Hts|c claim t1 t2 s' r Hts Hfrom Hrun
    |c claim t1 t2 Hts|c k a|c claim metadata|c claim error|c j Hj Hno|c j k r expected Hj Hno Hsnap|c k r outcome Hf|c j].
  - by apply config_ok_same.
  - by apply config_ok_same.
  - by apply config_ok_commit.
  - apply config_ok_remove; [done..|apply co_tokens, Hok].
  - by eapply config_ok_add_member.
  - by eapply (config_ok_remove_member c k a _ (Ok (Some claim))).
  - pose proof (config_ok_remove_member c k a _ r Hok Hrun) as H. destruct r as [[claim|]| |]; try done.
    by destruct (Hno claim).
  - rewrite begin_kill_spec in Hrun. destruct (rs_entries (cf_state c) !! k) as [r0|] eqn:Hr0; [|done].
    destruct (judge cond r0); [done|]. destruct (claimable r0) eqn:Hcl; [|done]. injection Hrun as <- <-.
    destruct (co_records c Hok _ _ Hr0) as (Hk & _ & _).
    apply (config_ok_claim c _ k _ (set_status Killing) Hok); [done..|]. intros r. rewrite Hr0. intros [= <-].
    split_and!; try done. intros Ho. split; [|done]. intros Heq. unfold claimable in Hcl. by rewrite Heq, Ho in Hcl.
  - by eapply config_ok_begin_removal.
  - eapply (config_ok_settle c _ _ t1 t2); [done..|]. intros r _. simpl. case_bool_decide; split_and!; simpl; try done;
      try apply sublist_nil_l; by left.
  - eapply (config_ok_asserting c (KillToken claim)); [done..|]. intros r0. simpl. split_and!; try done. apply sublist_nil_l.
  - eapply (config_ok_settle c _ _ t1 t2); [done..|]. intros r _. by split_and!.
  - pose proof (co_tokens c Hok) as Htok. rewrite Hts in Htok. apply Forall_app in Htok as [_ Htok].
    apply Forall_cons_1 in Htok as [Htok _]. unfold token_ok in Htok. simpl in Htok.
    eapply (config_ok_asserting c (RemovalToken claim)); [done..|]. intros r0. simpl. split_and!; try done; [congruence|].
    intros ->. by right.
  - eapply config_ok_benign; [done| |done]. by intros r.
  - eapply (config_ok_settle c _ (RemovalToken claim) t1 t2); [done..|]. intros r _. by split_and!.
  - unfold abandon_removal_locked in Hrun. rewrite Hfrom in Hrun. cbv zeta in Hrun.
    rewrite bool_decide_true in Hrun by done. unfold debug_assert in Hrun. rewrite bind_ret in Hrun.
    eapply (config_ok_asserting c (RemovalToken claim)); [done..|]. intros r0. simpl.
    destruct (clear_removal_pending_same r0) as (? & ? & Hm & ?). split_and!; try done. by rewrite Hm.
  - pose proof (co_tokens c Hok) as Htok. rewrite Hts in Htok. apply Forall_app in Htok as [Ht1 Htok].
    apply Forall_cons_1 in Htok as [_ Ht2]. apply config_ok_remove; [done| |by apply Forall_app].
    intros k' Hne. rewrite Hts, !held_on_app, held_on_cons. by rewrite decide_False.
  - unfold begin_inspect_locked. repeat case_match; by apply config_ok_same.
  - eapply config_ok_benign; [done| |done]. intros r. by case_match.
  - unfold record_inspect_failure_locked. case_match; [|by apply config_ok_same].
    eapply config_ok_benign; [done| |done]. by intros r0.
  - by apply config_ok_reload.
  - destruct Hok as [Hr Ht Hfl]. split; simpl; [done..|]. intros k' r' o r0 [= <- <- _] Hk Ho.
    unfold journal_snapshot in Hsnap. rewrite Hk in Hsnap. simpl in Hsnap. congruence.
  - by apply (config_ok_journal_settle c k r).
  - by destruct Hok.
Qed.

End invariant.

(** A ref that joins the reused ones is promised nothing more. *)
Lemma config_ok_commit_reused reused c r :
  config_ok reused c → created_record r →
  config_ok ({[ er_ref r ]} ∪ reused) (on_state (commit_locked r (cf_state c)) (cf_tokens c) c).
Proof.
  intros [Hr Ht Hfl] (Ho & Hst & Hm). split; simpl; [|done|].
  - rewrite entries_advance. intros k r' [[<- <-]|[Hne Hk]]%lookup_insert_Some.
    + split_and!; [done|rewrite Hm; constructor|]. set_solver.
    + destruct (Hr _ _ Hk) as (? & ? & Hc). split_and!; [done..|]. intros Hx. apply Hc. set_solver.
  - intros k r' o r0 Hf. rewrite entries_advance. intros [[<- <-]|[Hne Hk]]%lookup_insert_Some Hx; [set_solver|].
    eapply Hfl; [done..|]. set_solver.
Qed.

Lemma reachable_ok reused c : reachable reused c → config_ok reused c.
Proof.
  induction 1 as [records j|reused c c' _ IH Hstep|reused c r _ IH Hr]; [|by eapply step_ok|by apply config_ok_commit_reused].
  split; simpl; [|constructor|done].
  intros k r Hk. destruct (seed_entries_any records RegistryState_default k r Hk) as [Hk'|(Hk' & Ho & Hm)]; [done|].
  split_and!; [done|rewrite Hm; constructor|by rewrite Ho].
Qed.

(** ** What the registry knows of its refs and of the journal *)

(** Every restored record has a known status on file, and a registry without a
    journal has counted past every ref it holds. *)
Record books_ok (s : EnvironmentRegistryState) : Prop := {
  bo_journalled : ∀ k r, rs_entries s !! k = Some r → er_origin r = Restored → is_Some (rs_journalled s !! k);
  bo_counted : journal = None → ∀ k r n, rs_entries s !! k = Some r → ref_number k = Some n → (n ≤ rs_next_ref s)%N;
}.

(** A section that adds no record, forgets nothing the journal is known to
    hold and leaves the counter alone. *)
Definition frames_books (s s' : EnvironmentRegistryState) : Prop :=
  (∀ k r', rs_entries s' !! k = Some r' → ∃ r, rs_entries s !! k = Some r ∧ er_origin r = er_origin r') ∧
  (∀ k, is_Some (rs_journalled s !! k) → is_Some (rs_journalled s' !! k)) ∧ rs_next_ref s' = rs_next_ref s.

Lemma frames_books_ok s s' : frames_books s s' → books_ok s → books_ok s'.
Proof.
  intros (He & Hj & Hn) [Hjo Hco]. split.
  - intros k r (r0 & Hr0 & Ho)%He. rewrite <- Ho. intros ?. apply Hj. by eapply Hjo.
  - intros Hno k r n (r0 & Hr0 & _)%He ?. rewrite Hn. by eapply Hco.
Qed.

Lemma frames_books_alter s s' k f :
  rs_entries s' = alter f k (rs_entries s) → (∀ r, er_origin (f r) = er_origin r) →
  rs_journalled s' = rs_journalled s → rs_next_ref s' = rs_next_ref s → frames_books s s'.
Proof.
  intros He Hf Hj Hn. split_and!; [|by rewrite Hj|done]. intros k' r'. rewrite He.
  intros [(<- & r & Hk & ->)|[_ Hk]]%lookup_alter_Some; eauto.
Qed.

Lemma frames_books_refl s s' :
  rs_entries s' = rs_entries s → rs_journalled s' = rs_journalled s → rs_next_ref s' = rs_next_ref s → frames_books s s'.
Proof. intros He Hj Hn. split_and!; [intros k r; rewrite He; eauto|by rewrite Hj|done]. Qed.

Lemma frames_books_trans s1 s2 s3 : frames_books s1 s2 → frames_books s2 s3 → frames_books s1 s3.
Proof.
  intros (He1 & Hj1 & Hn1) (He2 & Hj2 & Hn2). split_and!; [|auto|congruence].
  intros k r (r2 & (r1 & Hr1 & Ho1)%He1 & Ho2)%He2. exists r1. split; [done|congruence].
Qed.

Lemma frames_books_with k f s : (∀ r, er_origin (f r) = er_origin r) → frames_books s (with_record k f s).
Proof. intros Hf. by eapply frames_books_alter. Qed.

Lemma frames_books_drop k s : frames_books s (drop_claim k s).
Proof. by apply frames_books_refl. Qed.

Lemma frames_books_remove k s : frames_books s (remove_locked k s).
Proof. split_and!; [|done|done]. simpl. intros k' r [_ Hk]%lookup_delete_Some. eauto. Qed.

Lemma frames_books_take k s : frames_books s (take_claim k s).
Proof. by eapply frames_books_alter. Qed.

Lemma frames_books_settle {E} k f s :
  (∀ r, er_origin (f r) = er_origin r) →
  frames_books s (bind (E := E) (modify (drop_claim k)) (λ _, bind (assert_killing k) (λ _, modify (with_record k f))) s).1.
Proof.
  intros Hf. assert (frames_books s (with_record k f (drop_claim k s))) as H by by eapply frames_books_alter.
  rewrite settle_spec. repeat case_match; simpl; try done. apply frames_books_drop.
Qed.

Lemma clear_removal_pending_origin r : er_origin (clear_removal_pending r) = er_origin r.
Proof. apply clear_removal_pending_same. Qed.

Lemma frames_books_journal_settle k r o s : frames_books s (journal_settle k r o s).
Proof.
  assert (∀ x s, frames_books s (set_journalled (<[k := x]> (rs_journalled s)) s)) as Hset.
  { intros x s0. split_and!; [simpl; eauto| |done]. simpl. intros k' ?. rewrite lookup_insert_is_Some'. by right. }
  unfold journal_settle. destruct (er_origin r), o; try apply Hset; try by apply frames_books_refl.
  case_decide; [apply Hset|]. eapply frames_books_trans; [|apply Hset]. by apply frames_books_with.
Qed.

Lemma frames_books_remove_member k a s : frames_books s (remove_member_locked k a s).1.
Proof.
  rewrite remove_member_spec. destruct (rs_entries s !! k) as [r|]; [|by apply frames_books_refl].
  assert (frames_books s (with_record k (set_members (filter (λ m, m ≠ a) (er_members r))) s)) as H
    by by apply frames_books_with.
  cbv zeta. case_match; simpl; [|done]. eapply frames_books_trans; [done|apply frames_books_take].
Qed.

Lemma books_ok_insert s r s' :
  books_ok s → rs_entries s' = <[er_ref r := r]> (rs_entries s) → rs_next_ref s' = rs_next_ref (advance_next_ref (er_ref r) s) →
  (∀ k, is_Some (rs_journalled s !! k) → is_Some (rs_journalled s' !! k)) →
  (er_origin r = Restored → is_Some (rs_journalled s' !! er_ref r)) → books_ok s'.
Proof.
  intros [Hjo Hco] He Hn Hj Hr. split.
  - intros k r'. rewrite He. intros [[<- <-]|[_ Hk]]%lookup_insert_Some; [done|]. eauto.
  - intros Hno k r' n. rewrite He, Hn. unfold advance_next_ref. intros [[<- <-]|[_ Hk]]%lookup_insert_Some Hnum.
    + rewrite Hnum. simpl. lia.
    + specialize (Hco Hno k r' n Hk Hnum). case_match; simpl; lia.
Qed.

Lemma books_ok_seed records s : books_ok s → books_ok (seed_locked records s).
Proof.
  revert s. induction records as [|r records IH]; intros s Hs; [done|]. apply IH.
  set (r' := set_members [] (set_origin Restored r)). apply (books_ok_insert s r' _ Hs).
  - unfold seed_one. cbn [rs_entries set_entries set_journalled]. by rewrite entries_advance.
  - done.
  - intros k. unfold seed_one. simpl. intros Hk. apply lookup_insert_is_Some'. right.
    unfold advance_next_ref. by case_match.
  - intros _. unfold seed_one. simpl. apply lookup_insert_is_Some'. by left.
Qed.

Lemma books_ok_commit s r : books_ok s → created_record r → books_ok (commit_locked r s).
Proof.
  intros Hok [Ho _]. apply (books_ok_insert s r _ Hok); unfold commit_locked; simpl; rewrite ?entries_advance; try done.
  - intros k. unfold advance_next_ref. by case_match.
  - by rewrite Ho.
Qed.

Lemma step_books c c' : books_ok (cf_state c) → step c c' → books_ok (cf_state c').
Proof.
  intros Hok Hstep. destruct Hstep as
    [c n Hj Hn|c j n Hj|c r Hr Hfr|c k|c k a s' r Hrun|c k a s' claim Hrun|c k a s' r Hrun Hno|c k cond s' claim Hrun
    |c k cond s' claim Hrun|c claim t1 t2 Hts|c claim reason t1 t2 s' r Hts Hrun|c claim error t1 t2 Hts
    |c claim t1 t2 s' r Hts Hrun|c claim Hin|c claim error t1 t2 Hts|c claim t1 t2 s' r Hts Hfrom Hrun
    |c claim t1 t2 Hts|c k a|c claim metadata|c claim error|c j Hj Hno|c j k r expected Hj Hno Hsnap|c k r outcome Hf|c j];
    cbn [cf_state on_state].
  1: { destruct Hok as [Hjo Hco]. split; simpl; [done|]. intros Hno k r m Hk Hm. specialize (Hco Hno k r m Hk Hm).
       apply u64_checked_add_Some in Hn as [-> _]. lia. }
  1: { destruct Hok as [Hjo Hco]. split; simpl; [done|]. by rewrite Hj. }
  1: by apply books_ok_commit.
  all: lazymatch goal with
       | |- books_ok (reloaded _ _) => idtac
       | _ => eapply frames_books_ok; [|exact Hok]
       end.
  - apply frames_books_remove.
  - rewrite add_member_spec in Hrun. repeat case_match; simplify_eq; try (by apply frames_books_refl); by apply frames_books_with.
  - pose proof (frames_books_remove_member k a (cf_state c)) as H. by rewrite Hrun in H.
  - pose proof (frames_books_remove_member k a (cf_state c)) as H. by rewrite Hrun in H.
  - rewrite begin_kill_spec in Hrun. repeat case_match; simplify_eq. apply frames_books_take.
  - rewrite begin_removal_spec in Hrun. repeat case_match; simplify_eq; [|apply frames_books_take].
    eapply frames_books_trans; [apply frames_books_with, clear_removal_pending_origin|apply frames_books_take].
  - eapply frames_books_trans; [apply frames_books_drop|]. apply frames_books_with. intros r. by case_match.
  - pose proof (frames_books_settle (E := string) (kc_ref claim) (retain_with reason) (cf_state c) ltac:(done)) as H.
    unfold retain_locked in Hrun. by rewrite Hrun in H.
  - by eapply frames_books_trans; [apply frames_books_drop|apply frames_books_with].
  - pose proof (frames_books_settle (E := string) (kc_ref (rc_claim claim)) (set_status (rc_claimed_from claim)) (cf_state c) ltac:(done)) as H.
    unfold release_removal_locked in Hrun. cbv zeta in Hrun. by rewrite Hrun in H.
  - by apply frames_books_with.
  - by eapply frames_books_trans; [apply frames_books_drop|apply frames_books_with].
  - pose proof (frames_books_settle (E := string) (kc_ref (rc_claim claim)) (λ r, set_status CleanupFailed (clear_removal_pending r))
      (cf_state c) clear_removal_pending_origin) as H.
    unfold abandon_removal_locked in Hrun. cbv zeta in Hrun. rewrite bool_decide_true in Hrun by done.
    unfold debug_assert in Hrun. rewrite bind_ret in Hrun. by rewrite Hrun in H.
  - apply frames_books_remove.
  - unfold begin_inspect_locked. repeat case_match; by apply frames_books_refl.
  - eapply frames_books_trans; [|apply frames_books_with]; [by apply frames_books_refl|]. intros r. by case_match.
  - unfold record_inspect_failure_locked. case_match; [|by apply frames_books_refl].
    eapply frames_books_trans; [|apply frames_books_with]; [by apply frames_books_refl|done].
  - destruct (reload j (cf_journal c)) as [j' [records|e]]; simpl.
    + eapply frames_books_ok; [|apply books_ok_seed, Hok]. by apply frames_books_refl.
    + eapply frames_books_ok; [|exact Hok]. by apply frames_books_refl.
  - by apply frames_books_refl.
  - apply frames_books_journal_settle.
  - by apply frames_books_refl.
Qed.

Lemma reachable_books reused c : reachable reused c → books_ok (cf_state c).
Proof.
  induction 1 as [records j|reused c c' _ IH Hstep|reused c r _ IH Hr]; [|by eapply step_books|by apply books_ok_commit].
  apply books_ok_seed. split; simpl; [done|]. intros _ k r n Hk. done.
Qed.
End steps.
