(* ===== verification/EnvironmentStore.v ===== *)
(** The durable registry of one base directory, and the journal over it.

    Models [infrastructure/persistence/file/environment_registry_store.rs] (the
    store) and the journal [application/environments/use_cases/restore_registry.rs]
    installs over it.

    The document is kept as the value it decodes to, so encoding and decoding
    are the identity here; a document that does not decode, or has another
    version, is [Broken] with its account.  The lock, the write and the clock
    can fail or move under every operation: they are part of the store's state,
    which other processes share.  Judging the records of a late read against the
    runtime is a parameter of the journal. *)

From S2P Require Import Prelude EnvironmentTypes.

(** * The document *)

Inductive StatusWire := WRunning | WKilling | WStopped | WCleanupFailed | WRetained.

Definition to_status_wire (s : EnvironmentStatus) : StatusWire :=
  match s with
  | Running => WRunning | Killing => WKilling | Stopped => WStopped
  | CleanupFailed => WCleanupFailed | Retained => WRetained
  end.

Definition of_status_wire (s : StatusWire) : EnvironmentStatus :=
  match s with
  | WRunning => Running | WKilling => Killing | WStopped => Stopped
  | WCleanupFailed => CleanupFailed | WRetained => Retained
  end.

Record RecordWire := mkWire {
  rw_id : string;
  rw_uuid : string;
  rw_name : option string;
  rw_workspace_path : string;
  rw_repository : string;
  rw_config : string;
  rw_exec : list string;
  rw_kill : list string;
  rw_cleanup : list string;
  rw_inspect : list string;
  rw_status : StatusWire;
  rw_metadata : Value;
  rw_last_error : option string;
  rw_created_by : string;
  rw_created_at : option N;
}.

(** [RecordWire::from]. *)
Definition to_wire (r : EnvironmentRecord) : RecordWire :=
  mkWire (er_id r) (er_uuid r) (er_name r) (er_workspace_path r) (er_repository r) (er_script_name r)
    (er_exec r) (er_kill r) (er_cleanup r) (er_inspect r) (to_status_wire (er_status r)) (er_metadata r)
    (er_last_error r) (er_created_by r) (er_created_at r).

(** [RecordWire::into_record]. *)
Definition into_record (environment_ref : string) (w : RecordWire) : EnvironmentRecord :=
  mkRecord environment_ref (rw_id w) (rw_uuid w) (rw_name w) (rw_workspace_path w) (rw_repository w)
    (rw_config w) (rw_exec w) (rw_kill w) (rw_cleanup w) (rw_inspect w) [] (of_status_wire (rw_status w))
    (rw_metadata w) (rw_last_error w) Restored (rw_created_by w) (rw_created_at w).

Definition set_wire_metadata (m : Value) (w : RecordWire) : RecordWire :=
  mkWire (rw_id w) (rw_uuid w) (rw_name w) (rw_workspace_path w) (rw_repository w) (rw_config w)
    (rw_exec w) (rw_kill w) (rw_cleanup w) (rw_inspect w) (rw_status w) m (rw_last_error w)
    (rw_created_by w) (rw_created_at w).

Record Document := mkDocument {
  doc_next_ref : N;
  doc_pending : gmap N N;
  doc_environments : gmap string RecordWire;
}.

(** [Document::default]. *)
Definition Document_default : Document := mkDocument 0 ∅ ∅.

Inductive DocumentFile := Absent | Valid (d : Document) | Broken (error : string).

Record FileStore := mkStore {
  fs_file : DocumentFile;
  fs_lock_error : option string;
  fs_write_error : option string;
  fs_now : N;
}.

Definition set_file (f : DocumentFile) (s : FileStore) : FileStore :=
  mkStore f (fs_lock_error s) (fs_write_error s) (fs_now s).

Definition PENDING_REF_GRACE_SECS : N := 3600.

Definition read (s : FileStore) : Document + string :=
  match fs_file s with Absent => inl Document_default | Valid d => inl d | Broken e => inr e end.

Definition write (d : Document) (s : FileStore) : FileStore * (unit + string) :=
  match fs_write_error s with Some e => (s, inr e) | None => (set_file (Valid d) s, inl tt) end.

(** Read, change, write under the exclusive hold. *)
Definition update {T} (change : Document → Document * T) (s : FileStore) : FileStore * (T + string) :=
  match fs_lock_error s with
  | Some e => (s, inr e)
  | None =>
      match read s with
      | inr e => (s, inr e)
      | inl d =>
          let '(d', outcome) := change d in
          match write d' s with
          | (s', inl _) => (s', inl outcome)
          | (s', inr e) => (s', inr e)
          end
      end
  end.

(** [?] on the result of an update whose change can itself fail. *)
Definition flatten {T} (r : (T + string) + string) : T + string :=
  match r with inl r => r | inr e => inr e end.

(** * The store's operations *)

Definition unexpired (now : N) (mint : N * N) : Prop :=
  (u64_saturating_sub now mint.2 ≤ PENDING_REF_GRACE_SECS)%N.

#[export] Instance unexpired_dec now mint : Decision (unexpired now mint) := N.le_dec _ _.

(** The change [allocate_ref] makes. *)
Definition allocate_change (now floor : N) (d : Document) : Document * (N + string) :=
  let pending := filter (unexpired now) (doc_pending d) in
  let held := omap ref_number (btree_keys (doc_environments d)) ++ btree_keys pending in
  match u64_checked_add (N.max (default 0%N (iter_max held)) (u64_saturating_sub floor 1)) 1 with
  | None => (mkDocument (doc_next_ref d) pending (doc_environments d), inr "the ref space is exhausted"%string)
  | Some next => (mkDocument next (<[next := now]> pending) (doc_environments d), inl next)
  end.

Definition store_allocate_ref (floor : N) (s : FileStore) : FileStore * (N + string) :=
  let '(s', r) := update (allocate_change (fs_now s) floor) s in (s', flatten r).

Definition store_release_ref (number : N) (s : FileStore) : FileStore * (unit + string) :=
  update (λ d, (mkDocument (doc_next_ref d) (delete number (doc_pending d)) (doc_environments d), tt)) s.

(** The order [load] sorts by. *)
Definition load_le (a b : EnvironmentRecord) : Prop :=
  (default u64_max (ref_number (er_ref a)) ≤ default u64_max (ref_number (er_ref b)))%N.

#[export] Instance load_le_dec : RelDecision load_le := λ _ _, N.le_dec _ _.

Definition load (s : FileStore) : list EnvironmentRecord + string :=
  match fs_lock_error s with
  | Some e => inr e
  | None =>
      match read s with
      | inr e => inr e
      | inl d => inl (stable_sort load_le ((λ kw, into_record kw.1 kw.2) <$> btree_iter (doc_environments d)))
      end
  end.

(** The change [record] makes. *)
Definition record_change (r : EnvironmentRecord) (d : Document) : Document * (unit + string) :=
  let other := w ← doc_environments d !! er_ref r; if decide (rw_uuid w ≠ er_uuid r) then Some w else None in
  match other with
  | Some w =>
      (d, inr ("ref " +:+ er_ref r +:+ " already records environment " +:+ rw_uuid w +:+ " (" +:+ rw_id w
               +:+ "); refusing to overwrite it with " +:+ er_id r))
  | None =>
    let '(next, pending) :=
      match ref_number (er_ref r) with
      | Some number => (N.max (doc_next_ref d) number, delete number (doc_pending d))
      | None => (doc_next_ref d, doc_pending d)
      end in
    (mkDocument next pending (<[er_ref r := to_wire r]> (doc_environments d)), inl tt)
  end.

Definition store_record (r : EnvironmentRecord) (s : FileStore) : FileStore * (unit + string) :=
  let '(s', x) := update (record_change r) s in (s', flatten x).

Inductive CorrectionOutcome := Applied | SupersededBy (current : EnvironmentRecord) | Forgotten.

Definition store_correct (r : EnvironmentRecord) (expected : EnvironmentStatus) (s : FileStore)
    : FileStore * (CorrectionOutcome + string) :=
  match fs_lock_error s with
  | Some e => (s, inr e)
  | None =>
      match read s with
      | inr e => (s, inr e)
      | inl d =>
          match doc_environments d !! er_ref r with
          | None => (s, inl Forgotten)
          | Some current =>
              if bool_decide (rw_uuid current ≠ er_uuid r)
              then (s, inr ("ref " +:+ er_ref r +:+ " now records environment " +:+ rw_uuid current +:+ " ("
                            +:+ rw_id current +:+ "); this session's " +:+ er_id r +:+ " is no longer on file"))
              else if bool_decide (of_status_wire (rw_status current) ≠ expected)
              then (s, inl (SupersededBy (into_record (er_ref r) current)))
              else
                let wire := set_wire_metadata (merge_metadata (rw_metadata current) (er_metadata r)) (to_wire r) in
                match write (mkDocument (doc_next_ref d) (doc_pending d)
                               (<[er_ref r := wire]> (doc_environments d))) s with
                | (s', inl _) => (s', inl Applied)
                | (s', inr e) => (s', inr e)
                end
          end
      end
  end.

Definition store_forget (r : EnvironmentRecord) (s : FileStore) : FileStore * (unit + string) :=
  update (λ d,
    let is_this_environment := match doc_environments d !! er_ref r with
                               | Some w => bool_decide (rw_uuid w = er_uuid r)
                               | None => false
                               end in
    (if is_this_environment
     then mkDocument (doc_next_ref d) (doc_pending d) (delete (er_ref r) (doc_environments d)) else d, tt)) s.

(** * The journal over the store *)

Section journal.
(** The records a restore seeds, judged against the runtime. *)
Variable seed : list EnvironmentRecord → FileStore → FileStore * list EnvironmentRecord.

Definition store_recorded (r : EnvironmentRecord) (expected : option EnvironmentStatus) (s : FileStore)
    : FileStore * JournalWrite :=
  match expected with
  | None =>
      let '(s', x) := store_record r s in
      (s', match x with inl _ => Written | inr _ => Unavailable end)
  | Some e =>
      let '(s', x) := store_correct r e s in
      (s', match x with
           | inl Applied => Written
           | inl (SupersededBy current) => Superseded (er_status current) (er_metadata current)
           | inl Forgotten => Superseded Stopped (er_metadata r)
           | inr _ => Unavailable
           end)
  end.

Definition store_reload (s : FileStore) : FileStore * (list EnvironmentRecord + string) :=
  match load s with
  | inr error => (s, inr ("durable environment registry could not be read: " +:+ error))
  | inl records => let '(s', seeded) := seed records s in (s', inl seeded)
  end.

Definition store_journal : EnvironmentJournal FileStore :=
  mkJournal store_allocate_ref (λ n s, (store_release_ref n s).1) store_recorded
    (λ r s, (store_forget r s).1) store_reload.

(** * The store keeps the journal's contract *)

Definition store_on_file (s : FileStore) (k : string) : option (string * EnvironmentStatus * Value) :=
  match read s with
  | inl d => (λ w, (rw_uuid w, of_status_wire (rw_status w), rw_metadata w)) <$> doc_environments d !! k
  | inr _ => None
  end.

Lemma status_wire_roundtrip s : of_status_wire (to_status_wire s) = s.
Proof. by destruct s. Qed.

Lemma update_inv {T} (change : Document → Document * T) s s' x :
  update change s = (s', x) →
  (∃ d, read s = inl d ∧ s' = set_file (Valid (change d).1) s ∧ x = inl (change d).2) ∨ (s' = s ∧ ∃ e, x = inr e).
Proof.
  unfold update, write. destruct (fs_lock_error s); [intros [= <- <-]; eauto|].
  destruct (read s) as [d|e]; [|intros [= <- <-]; eauto]. destruct (change d) as [d' o] eqn:Hc.
  destruct (fs_write_error s); intros [= <- <-]; [eauto|]. left. exists d. by rewrite Hc.
Qed.

Lemma store_allocate_inv floor s s' n :
  store_allocate_ref floor s = (s', inl n) →
  ∃ d d', read s = inl d ∧ allocate_change (fs_now s) floor d = (d', inl n) ∧ s' = set_file (Valid d') s.
Proof.
  unfold store_allocate_ref. destruct (update _ s) as [s1 x] eqn:Hu. intros [= <- Hx].
  apply update_inv in Hu as [(d & Hd & -> & ->)|(-> & e & ->)]; [|done]. simpl in Hx.
  exists d, (allocate_change (fs_now s) floor d).1. split_and!; [done| |done].
  by destruct (allocate_change _ _ d) as [d' o]; simpl in *; subst.
Qed.

Lemma allocate_change_spec now floor d d' n :
  allocate_change now floor d = (d', inl n) →
  u64_ok n ∧ (floor ≤ n)%N ∧
  (∀ k w m, doc_environments d !! k = Some w → ref_number k = Some m → (m < n)%N) ∧
  (∀ m t, doc_pending d !! m = Some t → unexpired now (m, t) → (m < n)%N) ∧
  doc_environments d' = doc_environments d ∧ doc_pending d' = <[n := now]> (filter (unexpired now) (doc_pending d)).
Proof.
  unfold allocate_change. set (held := _ ++ _). destruct (u64_checked_add _ 1) as [next|] eqn:Hn; [|done].
  intros [= <- <-]. apply u64_checked_add_Some in Hn as [-> Hok].
  assert (∀ m, m ∈ held → (m ≤ default 0 (iter_max held))%N) as Hmax.
  { intros m Hm. unfold iter_max. destruct held as [|x l]; [by apply not_elem_of_nil in Hm|]. simpl.
    destruct (foldl_max_spec l x) as (_ & Hx & Hl). apply elem_of_cons in Hm as [->|Hm]; [done|by apply Hl]. }
  split_and!; [done|unfold u64_saturating_sub; lia| | |done|done].
  - intros k w m Hk Hm. assert (m ∈ held) as Hin%Hmax; [|lia]. apply elem_of_app. left. apply list_elem_of_omap.
    exists k. split; [|done]. by apply elem_of_btree_keys.
  - intros m t Hm Ht. assert (m ∈ held) as Hin%Hmax; [|lia]. apply elem_of_app. right.
    apply elem_of_btree_keys. exists t. by apply map_lookup_filter_Some.
Qed.

Lemma store_correct_inv r e s s' x :
  store_correct r e s = (s', x) →
  (s' = s ∧ ∃ err, x = inr err) ∨
  (s' = s ∧ x = inl Forgotten ∧ store_on_file s (er_ref r) = None) ∨
  (∃ d w, read s = inl d ∧ doc_environments d !! er_ref r = Some w ∧ rw_uuid w = er_uuid r ∧
     ((s' = s ∧ x = inl (SupersededBy (into_record (er_ref r) w)) ∧ of_status_wire (rw_status w) ≠ e) ∨
      (of_status_wire (rw_status w) = e ∧ x = inl Applied ∧
       s' = set_file (Valid (mkDocument (doc_next_ref d) (doc_pending d)
              (<[er_ref r := set_wire_metadata (merge_metadata (rw_metadata w) (er_metadata r)) (to_wire r)]>
                 (doc_environments d)))) s))).
Proof.
  unfold store_correct, store_on_file. destruct (fs_lock_error s); [intros [= <- <-]; eauto|].
  destruct (read s) as [d|err]; [|intros [= <- <-]; eauto].
  destruct (doc_environments d !! er_ref r) as [w|] eqn:Hw; [|intros [= <- <-]; eauto].
  case_bool_decide as Hu; [intros [= <- <-]; eauto|].
  case_bool_decide as Hs.
  - intros [= <- <-]. right. right. exists d, w. split_and!; try done. by left.
  - unfold write. destruct (fs_write_error s); intros [= <- <-]; [eauto|].
    right. right. exists d, w. split_and!; try done. by right.
Qed.

#[export] Instance store_journal_lawful : LawfulJournal store_journal.
Proof.
  refine {| on_file := store_on_file |}; simpl.
  - intros s floor s' n (d & d' & _ & Hc & _)%store_allocate_inv. by apply allocate_change_spec in Hc as [? _].
  - intros r e s s'. destruct (store_correct r e s) as [s1 x] eqn:Hc. intros [= <- Hx].
    apply store_correct_inv in Hc as [(_ & err & ->)|[(_ & -> & _)|(d & w & Hd & Hw & Hu & [(_ & -> & _)|(He & -> & ->)])]];
      [done..|]. exists (rw_metadata w). unfold store_on_file. rewrite Hd, Hw. simpl.
    rewrite lookup_insert_eq. simpl. rewrite status_wire_roundtrip, Hu, He. split_and!; [done..|].
    intros k Hne. by rewrite lookup_insert_ne.
  - intros r e s s' current md. destruct (store_correct r e s) as [s1 x] eqn:Hc. intros [= <- Hx].
    apply store_correct_inv in Hc as [(_ & err & ->)|[(-> & -> & Hno)|(d & w & Hd & Hw & Hu & [(-> & -> & Hne)|(He & -> & _)])]];
      try done; injection Hx as <- <-.
    + split; [done|]. by right.
    + split; [done|]. left. unfold store_on_file. rewrite Hd, Hw. simpl. by rewrite Hu.
  - intros r e s s'. destruct (store_correct r e s) as [s1 x] eqn:Hc. intros [= <- Hx].
    apply store_correct_inv in Hc as [(-> & _)|[(-> & _)|(d & w & _ & _ & _ & [(-> & -> & _)|(_ & -> & _)])]]; try done.
Qed.
End journal.
