(* ===== verification/EnvironmentRetention.v ===== *)
(** What becomes of an environment its last member leaves.

    Models [domain/environments/services/environment_retention.rs] (the policy),
    the run statuses of [domain/swarm/value_objects/lifecycle.rs],
    [participates] of [domain/swarm/services/participation.rs], and the handler
    that applies the policy under a claim,
    [application/environments/use_cases/finalize_environment_member.rs]; and, in the
    module [Kill], the explicit kill of an environment,
    [application/environments/use_cases/kill_environment.rs].

    The handlers' ports (the retained scripts, the hosted swarm's store, the
    kept boards) answer through [Ports]: each call is appended to a trace, and
    an answer may depend on everything called before it.  A run's deadline is
    an IEEE double, as [spec_float]. *)

From Stdlib Require Import Ascii Floats.SpecFloat.
From S2P Require Import Prelude EnvironmentTypes EnvironmentRegistry.

(** * Runs and observations *)

Module Run.

Inductive RunStatus :=
| Setup | Running | Paused | Succeeded | Blocked | Failed | Cancelled | BudgetExhausted.

#[global] Instance RunStatus_eq_dec : EqDecision RunStatus.
Proof. solve_decision. Defined.

Definition terminal (s : RunStatus) : bool :=
  match s with Succeeded | Blocked | Failed | Cancelled | BudgetExhausted => true | _ => false end.

Definition proposable (s : RunStatus) : bool :=
  match s with Succeeded | Blocked | Failed | BudgetExhausted => true | _ => false end.

Definition status_name (s : RunStatus) : string :=
  match s with
  | Setup => "setup" | Running => "running" | Paused => "paused" | Succeeded => "succeeded"
  | Blocked => "blocked" | Failed => "failed" | Cancelled => "cancelled"
  | BudgetExhausted => "budget-exhausted"
  end.

End Run.

Inductive MemberFinalizeMode :=
| Exit | ParentKill | OwnerEnd | OwnerTeardown | LaunchRollback | LaunchRollbackOwned.

#[export] Instance MemberFinalizeMode_eq_dec : EqDecision MemberFinalizeMode.
Proof. solve_decision. Defined.

Definition inspectable_end (m : MemberFinalizeMode) : bool :=
  match m with Exit | ParentKill | OwnerEnd => true | _ => false end.
Definition owner_ended_member (m : MemberFinalizeMode) : bool :=
  match m with OwnerEnd => true | _ => false end.
Definition launch_rollback (m : MemberFinalizeMode) : bool :=
  match m with LaunchRollback | LaunchRollbackOwned => true | _ => false end.

Record HostedSwarmRun := mkHosted {
  hr_id : string;
  hr_status : Run.RunStatus;
  hr_outcome : option Run.RunStatus;
  hr_coordinator : string;
  hr_deadline : spec_float;
}.

(** [deadline > 0.0]. *)
Definition participates (deadline : spec_float) : bool := SFltb (S754_zero false) deadline.

Definition created (h : HostedSwarmRun) : bool := participates (hr_deadline h).
Definition ended (h : HostedSwarmRun) : bool :=
  Run.terminal (hr_status h)
  || (bool_decide (hr_status h = Run.Paused)
      && match hr_outcome h with Some o => Run.proposable o | None => false end).
Definition closed_by_owner (h : HostedSwarmRun) : bool := Run.proposable (hr_status h).
Definition keeps_environment (h : HostedSwarmRun) : bool := created h && negb (closed_by_owner h).
Definition placeholder (h : HostedSwarmRun) : bool := negb (created h).

Definition describe (h : HostedSwarmRun) : string :=
  match hr_status h, hr_outcome h with
  | Run.Paused, Some outcome => "paused holding " +:+ Run.status_name outcome
  | status, _ => Run.status_name status
  end.

Inductive SwarmRunObservation :=
| NoStore
| NoStoreUnverified
| ObservedRun (hosted : HostedSwarmRun)
| StoreUnreadable (error : string).

Definition plain_container (o : SwarmRunObservation) : bool :=
  match o with
  | NoStore => true
  | ObservedRun hosted => placeholder hosted
  | NoStoreUnverified | StoreUnreadable _ => false
  end.

Record CoordinatorLoss := mkLoss { cl_run : HostedSwarmRun; cl_lost : bool }.

(** * The policy *)

Definition retains_environment (mode : MemberFinalizeMode) (observed : SwarmRunObservation) : bool :=
  inspectable_end mode
  && match observed with
     | NoStore => false
     | NoStoreUnverified => owner_ended_member mode
     | ObservedRun hosted => keeps_environment hosted
     | StoreUnreadable _ => true
     end.

Definition ends_plain_environment (mode : MemberFinalizeMode) (observed : SwarmRunObservation) : bool :=
  owner_ended_member mode && plain_container observed.

Definition KEPT : string := "environment retained for inspection, kill_container to remove".

Definition retention_reason (mode : MemberFinalizeMode) (observed : SwarmRunObservation) : string :=
  match observed with
  | StoreUnreadable error =>
      "final member gone while the coordination store could not be read (" +:+ error +:+ "); " +:+ KEPT
  | NoStore => "final member gone; " +:+ KEPT
  | NoStoreUnverified =>
      "final member ended by its owner, but its workspace is not on this host, so whether it hosts a swarm cannot be checked; " +:+ KEPT
  | ObservedRun run =>
      match mode with
      | ParentKill | OwnerEnd =>
          "coordinator killed by supervisor; run " +:+ describe run +:+ "; " +:+ KEPT
      | _ =>
          match hr_status run, hr_outcome run with
          | Run.Cancelled, _ => "run ended: cancelled; " +:+ KEPT
          | Run.Paused, Some outcome => "run ended: " +:+ Run.status_name outcome +:+ "; " +:+ KEPT
          | _, _ => "run " +:+ describe run +:+ "; " +:+ KEPT
          end
      end
  end.

Definition loss_reason (coordinator : string) (loss : CoordinatorLoss) : string :=
  if cl_lost loss
  then "swarm coordinator '" +:+ coordinator +:+ "' lost its connection; run " +:+ describe (cl_run loss)
       +:+ "; " +:+ KEPT
  else retention_reason Exit (ObservedRun (cl_run loss)).

Definition unrecorded_loss_reason (hosted : HostedSwarmRun) (error : string) : string :=
  "swarm coordinator '" +:+ hr_coordinator hosted +:+ "' lost its connection while the run was "
  +:+ describe hosted +:+ "; the loss could not be recorded (" +:+ error +:+ "); " +:+ KEPT.

Inductive CompletionDelivery :=
| NotJudged | OnRemote | NotOnRemote (revision : string) | DeliveryUnknown (why : string).

Definition judges_delivery (mode : MemberFinalizeMode) (observed : SwarmRunObservation) : bool :=
  match mode, observed with
  | OwnerEnd, ObservedRun hosted => created hosted && bool_decide (hr_status hosted = Run.Succeeded)
  | _, _ => false
  end.

Definition undelivered_reason (delivery : CompletionDelivery) (environment checkout : string) : option string :=
  let kept := "environment " +:+ environment +:+ " kept so its work can be pushed from its checkout " +:+ checkout
              +:+ "; kill_container " +:+ environment +:+ " to remove it once pushed" in
  match delivery with
  | NotJudged | OnRemote => None
  | NotOnRemote revision =>
      Some ("board run succeeded at " +:+ revision +:+ ", which is on no branch or tag of the board's remote: " +:+ kept)
  | DeliveryUnknown why =>
      Some ("board run succeeded, but whether its completion commit is on the board's remote could not be checked ("
            +:+ why +:+ "): " +:+ kept)
  end.

Inductive BoardKept := BoardEnded | BoardLeft.

Definition board_kept (mode : MemberFinalizeMode) (hosted : HostedSwarmRun) : option BoardKept :=
  match created hosted, Run.terminal (hr_status hosted), mode, hr_status hosted with
  | true, true, _, _ => Some BoardEnded
  | true, false, OwnerEnd, (Run.Running | Run.Paused) => Some BoardLeft
  | _, _, _, _ => None
  end.

(** [EnvironmentRecord::checkout]. *)
Definition CHECKOUT_KEY : string := "checkout".
Definition is_absolute (path : string) : bool := match path with String "/" _ => true | _ => false end.
Definition checkout (r : EnvironmentRecord) : string :=
  match value_get CHECKOUT_KEY (er_metadata r) with
  | Some (JString path) => if is_absolute path then path else er_workspace_path r
  | _ => er_workspace_path r
  end.

(** * The handler *)

Inductive call :=
| CallInspect (environment_id : string) (argv : list string)
| CallObserve (environment_ref : string)
| CallLost (environment_ref : string)
| CallBoard (environment_ref : string)
| CallKeep (label : string) (kept : BoardKept)
| CallDelivery (label : string)
| CallKill (environment_id : string) (argv : list string)
| CallCleanup (environment_id : string) (argv : list string).

Section finalize.
Context {J Board : Type} (journal : option (EnvironmentJournal J)).

(** What the ports answer, given the calls made so far. *)
Record Ports := mkPorts {
  p_inspect : list call → Value + string;
  p_observe : list call → SwarmRunObservation;
  p_lost : list call → CoordinatorLoss + string;
  p_boards : option (list call → option Board + string);
  p_delivery : option (list call → option Board → CompletionDelivery);
  p_kill : list call → unit + string;
  p_cleanup : list call → unit + string;
}.
Context (ports : Ports).

Definition FM (A : Type) : Type := M ((EnvironmentRegistryState * J) * list call) string A.

(** A call of a registry method. *)
Definition reg {E A} (m : RM (J := J) E A) : FM (res E A) :=
  λ w, let '(w', r) := m w.1 in ((w', w.2), Ok r).
(** A method that does not fail: a panic is the handler's. *)
Definition reg_unit (m : RM (J := J) string unit) : FM unit :=
  λ w, let '(w', r) := m w.1 in ((w', w.2), r).
Definition ask {A} (c : call) (answer : list call → A) : FM A :=
  λ w, ((w.1, w.2 ++ [c]), Ok (answer w.2)).

Definition inspect_once (env_ref agent_uuid : string) : FM unit :=
  held <- reg (get (E := string) env_ref) ;;
  match held with
  | Ok (Some record) =>
      if decide (er_inspect record = []) then ret tt
      else
        claim <- reg (begin_inspect (E := string) env_ref agent_uuid) ;;
        match claim with
        | Ok (Some claim) =>
            outcome <- ask (CallInspect (er_id record) (er_inspect record)) (p_inspect ports) ;;
            match outcome with
            | inl metadata => reg_unit (record_inspect_success journal claim metadata)
            | inr e => reg_unit (record_inspect_failure journal claim e)
            end
        | _ => ret tt
        end
  | _ => ret tt
  end.

(** [cleanup_plan]. *)
Definition cleanup_plan (record : EnvironmentRecord) (entry_cleanup_plan : option (string * list string))
    : option (string * list string) :=
  match er_cleanup record with
  | _ :: _ => Some (er_id record, er_cleanup record)
  | [] => match entry_cleanup_plan with
          | Some (id, (_ :: _) as argv) => Some (id, argv)
          | _ => None
          end
  end.

Definition keep_board (record : EnvironmentRecord) (label : string) (which : BoardKept) : FM (option Board) :=
  match p_boards ports with
  | None => ret None
  | Some boards =>
      read <- ask (CallBoard (er_ref record)) boards ;;
      match read with
      | inl (Some board) => ask (CallKeep label which) (λ _, tt) ;; ret (Some board)
      | inl None | inr _ => ret None
      end
  end.

Definition undelivered (mode : MemberFinalizeMode) (observed : SwarmRunObservation) (record : EnvironmentRecord)
    (label : option string) (board : option Board) : FM (option string) :=
  match p_delivery ports, label with
  | Some check, Some label =>
      delivery <- (if judges_delivery mode observed
                   then ask (CallDelivery label) (λ t, check t board) else ret NotJudged) ;;
      ret (undelivered_reason delivery (er_ref record) (checkout record))
  | _, _ => ret None
  end.

(** [retention]: why the kill is withheld, or [None] when it must run after
    all. *)
Definition retention (record : EnvironmentRecord) (mode : MemberFinalizeMode) (observed : SwarmRunObservation)
    : FM (option string) :=
  match observed, mode with
  | ObservedRun hosted, Exit =>
      loss <- ask (CallLost (er_ref record)) (p_lost ports) ;;
      match loss with
      | inl loss =>
          if negb (cl_lost loss) && negb (keeps_environment (cl_run loss)) then ret None
          else ret (Some (loss_reason (hr_coordinator hosted) loss))
      | inr error => ret (Some (unrecorded_loss_reason hosted error))
      end
  | observed, mode => ret (Some (retention_reason mode observed))
  end.

Definition end_for_good (claim : KillClaim) (record : EnvironmentRecord) (environment_id : string)
    (argv : list string) : FM unit :=
  debug_assert (bool_decide (argv ≠ [])) ;;
  outcome <- ask (CallCleanup environment_id argv) (p_cleanup ports) ;;
  match outcome with
  | inl _ => reg_unit (complete_kill journal claim) ;; reg (remove (E := string) journal (er_ref record)) ;; ret tt
  | inr error => reg_unit (fail_kill journal claim error)
  end.

Definition cleanup (claim : KillClaim) (record : EnvironmentRecord)
    (entry_cleanup_plan : option (string * list string)) (mode : MemberFinalizeMode) : FM unit :=
  match cleanup_plan record entry_cleanup_plan with
  | Some (environment_id, argv) => ask (CallCleanup environment_id argv) (p_cleanup ports) ;; ret tt
  | None => ret tt
  end ;;
  reg_unit (complete_kill journal claim) ;;
  if decide (mode = LaunchRollbackOwned) then reg (remove (E := string) journal (er_ref record)) ;; ret tt
  else ret tt.

(** The teardown that runs when nothing keeps the environment. *)
Definition tear_down (claim : KillClaim) (record : EnvironmentRecord)
    (entry_cleanup_plan : option (string * list string)) (mode : MemberFinalizeMode)
    (observed : SwarmRunObservation) : FM unit :=
  match ends_plain_environment mode observed, cleanup_plan record entry_cleanup_plan with
  | true, Some (environment_id, argv) => end_for_good claim record environment_id argv
  | _, _ =>
      if launch_rollback mode || bool_decide (er_kill record = []) then cleanup claim record entry_cleanup_plan mode
      else
        outcome <- ask (CallKill (er_id record) (er_kill record)) (p_kill ports) ;;
        match outcome with
        | inl _ => reg_unit (complete_kill journal claim)
        | inr e => reg_unit (fail_kill journal claim e)
        end
  end.

(** What the handler does once it holds the claim. *)
Definition settle_claim (claim : KillClaim) (record : EnvironmentRecord) (label : option string)
    (entry_cleanup_plan : option (string * list string)) (mode : MemberFinalizeMode) : FM unit :=
  observed <- (if inspectable_end mode then ask (CallObserve (er_ref record)) (p_observe ports) else ret NoStore) ;;
  board <- match observed, label with
           | ObservedRun hosted, Some label =>
               match board_kept mode hosted with
               | Some kept => keep_board record label kept
               | None => ret None
               end
           | _, _ => ret None
           end ;;
  reason <- (if retains_environment mode observed then retention record mode observed else ret None) ;;
  match reason with
  | Some reason => reg_unit (retain journal claim reason)
  | None =>
      kept <- undelivered mode observed record label board ;;
      match kept with
      | Some reason => reg_unit (retain journal claim reason)
      | None => tear_down claim record entry_cleanup_plan mode observed
      end
  end.

Definition finalize_labelled_member (env_ref agent_uuid : string) (label : option string)
    (entry_cleanup_plan : option (string * list string)) (mode : MemberFinalizeMode) : FM unit :=
  (if decide (mode = Exit) then inspect_once env_ref agent_uuid else ret tt) ;;
  removed <- reg (remove_member journal env_ref agent_uuid) ;;
  match removed with
  | Ok (Some claim) =>
      held <- reg (get (E := string) env_ref) ;;
      match held with
      | Ok (Some record) => settle_claim claim record label entry_cleanup_plan mode
      | _ => reg_unit (complete_kill journal claim)
      end
  | _ => ret tt
  end.
End finalize.

(** * The explicit kill (kill_environment.rs) *)

Module Kill.

Inductive MemberShutdownResult := Graceful | Fallback | AlreadyExited | Unobserved | Joined.
Record SettledMember := mkSettled { sm_member : string; sm_result : MemberShutdownResult }.
Record UnsettledMember := mkUnsettled { um_member : string; um_detail : string }.
Record MemberShutdownReport := mkReport { settled : list SettledMember; unsettled : list UnsettledMember }.
Definition no_members : MemberShutdownReport := mkReport [] [].
Definition all_settled (r : MemberShutdownReport) : bool := bool_decide (length (unsettled r) = 0).

Inductive EnvironmentLiveness := LiveRunning | LiveGone | LiveUnknown (reason : string).
Inductive StateOnDisk := DiskPresent | DiskAbsent | DiskUnknown (reason : string).

Record KilledEnvironment := mkKilled {
  record : EnvironmentRecord; members : MemberShutdownReport; removed_stopped : bool; nothing_left : bool }.

(** The accounts of a refusal, as what they tell. *)
Inductive NothingReason := LookupFound (e : EnvironmentLookupError) | NoCleanupRetained (env_ref : string).
Inductive RefusalReason :=
| LookupRefused (e : EnvironmentLookupError)
| NoKillRetained (env_ref : string)
| LeftRegistry (env_ref : string)
| StillRunning (env_ref : string)
| LivenessUnknown (env_ref reason : string)
| UnfinishedRun (env_ref run_id description : string)
| BoardUnreadable (env_ref reason : string).

Inductive KillEnvironmentError :=
| NothingToKill (why : NothingReason)
| Refused (why : RefusalReason)
| MembersUnsettled (env_ref : string) (members : list (string * string))
| KillFailed (env_ref detail : string)
| NotCreatedBy (mismatch : CreatorMismatch).

Definition lookup_refused (e : EnvironmentLookupError) : KillEnvironmentError :=
  match e with
  | Unknown _ | ErrStopped _ => NothingToKill (LookupFound e)
  | Ambiguous _ | Stale _ | Unreadable _ => Refused (LookupRefused e)
  end.

Definition claim_refused (r : ClaimRefusal) : KillEnvironmentError :=
  match r with
  | Lookup e => lookup_refused e
  | CreatedByOther mismatch => NotCreatedBy mismatch
  end.

(** The text of [MembersUnsettled], which [fail_kill] records. *)
Definition unsettled_text (env_ref : string) (members : list (string * string)) : string :=
  "environment " +:+ env_ref +:+ " cleanup failed: members not settled: "
  +:+ String.concat ", " ((λ md, md.1 +:+ " (" +:+ md.2 +:+ ")") <$> members)
  +:+ "; state is cleanup-failed, retry kill_container".

(** [EnvironmentRecord::environment_dir].  A path is the list of its components; the root and a
    leading [.] have no file name, so they are left out. *)
Fixpoint split_slash (current : list ascii) (path : list ascii) : list string :=
  match path with
  | [] => [String.string_of_list_ascii (rev current)]
  | c :: path' =>
      if Ascii.eqb c "/" then String.string_of_list_ascii (rev current) :: split_slash [] path'
      else split_slash (c :: current) path'
  end.
Definition components (path : string) : list string :=
  filter (λ c, c ≠ "" ∧ c ≠ ".")%string (split_slash [] (String.list_ascii_of_string path)).
Definition ancestors (path : list string) : list (list string) :=
  (λ n, take n path) <$> rev (seq 0 (S (length path))).
Definition file_name (path : list string) : option string :=
  match list.last path with Some ".."%string | None => None | Some name => Some name end.
Definition environment_dir (r : EnvironmentRecord) : option (list string) :=
  List.find (λ a, bool_decide (file_name a = Some (er_id r))) (ancestors (components (er_workspace_path r))).

Inductive call :=
| CallShutdown (members : list string)
| CallLiveness (env_ref : string)
| CallDisk (dir : list string)
| CallHosted (env_ref : string)
| CallKill (environment_id : string) (argv : list string)
| CallCleanup (environment_id : string) (argv : list string).

Inductive Removal := Removed (killed : KilledEnvironment) | OrdinaryKill (record : EnvironmentRecord).

Section kill.
Context {J : Type} (journal : option (EnvironmentJournal J)).

(** What the ports answer, given the calls made so far, and what the rest of the session does
    to the registry while an answer is awaited. *)
Record Ports := mkPorts {
  p_shutdown : list call → list string → MemberShutdownReport;
  p_liveness : list call → EnvironmentLiveness;
  p_disk : option (list call → list string → StateOnDisk);
  p_hosted : list call → SwarmRunObservation;
  p_kill : list call → unit + string;
  p_cleanup : list call → unit + string;
  meanwhile : list call → EnvironmentRegistryState * J → EnvironmentRegistryState * J;
}.
Context (ports : Ports).

Definition KM (A : Type) : Type := M ((EnvironmentRegistryState * J) * list call) KillEnvironmentError A.

(** A call of a registry method, its error turned into the kill's. *)
Definition reg {E A} (f : E → KillEnvironmentError) (m : RM (J := J) E A) : KM A :=
  λ w, let '(w', r) := m w.1 in
       ((w', w.2), match r with Ok a => Ok a | Err e => Err (f e) | Panic => Panic end).
(** A method that has no error. *)
Definition reg_ok {A} (m : RM (J := J) KillEnvironmentError A) : KM A := reg (λ e, e) m.

(** An awaited call. *)
Definition ask {A} (c : call) (answer : list call → A) : KM A :=
  λ w, ((meanwhile ports w.2 w.1, w.2 ++ [c]), Ok (answer w.2)).
(** A call that is not awaited. *)
Definition ask_now {A} (c : call) (answer : list call → A) : KM A :=
  λ w, ((w.1, w.2 ++ [c]), Ok (answer w.2)).

Definition left_nothing (r : EnvironmentRecord) : KM bool :=
  match p_disk ports, environment_dir r with
  | Some disk, Some dir =>
      state <- ask_now (CallDisk dir) (λ t, disk t dir) ;;
      ret (match state with DiskAbsent => true | DiskPresent | DiskUnknown _ => false end)
  | _, _ => ret false
  end.

Definition unfinished_run (r : EnvironmentRecord) : KM (option RefusalReason) :=
  observed <- ask (CallHosted (er_ref r)) (p_hosted ports) ;;
  ret (match observed with
       | ObservedRun run =>
           if keeps_environment run then Some (UnfinishedRun (er_ref r) (hr_id run) (describe run)) else None
       | StoreUnreadable reason => Some (BoardUnreadable (er_ref r) reason)
       | NoStore | NoStoreUnverified => None
       end).

Definition forget_if_nothing_left (r : EnvironmentRecord) (condition : ClaimCondition) : KM Removal :=
  let refused := NothingToKill (NoCleanupRetained (er_ref r)) in
  match p_disk ports with
  | None => throw refused
  | Some _ =>
      claim <- reg claim_refused (begin_removal_if journal (er_ref r) condition) ;;
      live <- ask (CallLiveness (er_ref r)) (p_liveness ports) ;;
      let gone := match live with LiveGone => true | LiveRunning | LiveUnknown _ => false end in
      nothing <- (if gone then left_nothing r else ret false) ;;
      if nothing : bool then
        reg_ok (complete_removal journal claim) ;;
        ret (Removed (mkKilled r no_members true true))
      else
        reg_ok (release_removal journal claim) ;;
        throw refused
  end.

(** What becomes of the leftovers once the container was judged: [refusal] is why it may not be
    called gone. *)
Definition remove_leftovers (r : EnvironmentRecord) (claim : RemovalClaim) (refusal : option RefusalReason) : KM Removal :=
  nothing <- match refusal with None => left_nothing r | Some _ => ret false end ;;
  if nothing : bool then
    reg_ok (complete_removal journal claim) ;;
    ret (Removed (mkKilled r no_members true true))
  else
    refusal <- match refusal with Some why => ret (Some why) | None => unfinished_run r end ;;
    match refusal with
    | Some why =>
        reg_ok (release_removal journal claim) ;;
        throw (Refused why)
    | None =>
        outcome <- ask (CallCleanup (er_id r) (er_cleanup r)) (p_cleanup ports) ;;
        match outcome with
        | inl _ =>
            reg_ok (complete_removal journal claim) ;;
            ret (Removed (mkKilled r no_members true false))
        | inr detail =>
            reg_ok (fail_removal journal claim detail) ;;
            throw (KillFailed (er_ref r) detail)
        end
    end.

Definition remove_stopped (r : EnvironmentRecord) (condition : ClaimCondition) : KM Removal :=
  debug_assert (removable r) ;;
  debug_assert (bool_decide (er_members r = [])) ;;
  if bool_decide (er_cleanup r = []) then forget_if_nothing_left r condition
  else
    claim <- reg claim_refused (begin_removal_if journal (er_ref r) condition) ;;
    live <- ask (CallLiveness (er_ref r)) (p_liveness ports) ;;
    match live with
    | LiveGone => remove_leftovers r claim None
    | LiveRunning =>
        if removal_pending r then
          reg_ok (abandon_removal journal claim) ;;
          held <- reg_ok (get (er_ref r)) ;;
          again <- ok_or held (Refused (LeftRegistry (er_ref r))) ;;
          ret (OrdinaryKill again)
        else remove_leftovers r claim (Some (StillRunning (er_ref r)))
    | LiveUnknown reason => remove_leftovers r claim (Some (LivenessUnknown (er_ref r) reason))
    end.

(** The kill of an environment that is not a removal. *)
Definition ordinary_kill (resolved : EnvironmentRecord) (condition : ClaimCondition) : KM KilledEnvironment :=
  if bool_decide (er_kill resolved = []) then throw (Refused (NoKillRetained (er_ref resolved)))
  else
    claim <- reg claim_refused (begin_kill_if journal (er_ref resolved) condition) ;;
    held <- reg_ok (get (er_ref resolved)) ;;
    let r := default resolved held in
    debug_assert (bool_decide (er_kill r ≠ [])) ;;
    debug_assert (bool_decide (judge condition r = None)) ;;
    report <- ask (CallShutdown (er_members r)) (λ t, p_shutdown ports t (er_members r)) ;;
    if negb (all_settled report) then
      let unsettled := (λ m, (um_member m, um_detail m)) <$> unsettled report in
      reg_ok (fail_kill journal claim (unsettled_text (er_ref r) unsettled)) ;;
      throw (MembersUnsettled (er_ref r) unsettled)
    else
      outcome <- ask (CallKill (er_id r) (er_kill r)) (p_kill ports) ;;
      match outcome with
      | inl _ =>
          reg_ok (complete_kill journal claim) ;;
          ret (mkKilled r report false false)
      | inr detail =>
          reg_ok (fail_kill journal claim detail) ;;
          throw (KillFailed (er_ref r) detail)
      end.

Definition kill_container_if (target : EnvironmentTarget) (condition : ClaimCondition) : KM KilledEnvironment :=
  resolved <- reg lookup_refused (resolve journal target) ;;
  match judge condition resolved with Some mismatch => throw (NotCreatedBy mismatch) | None => ret tt end ;;
  if removable resolved then
    removal <- remove_stopped resolved condition ;;
    match removal with
    | Removed killed => ret killed
    | OrdinaryKill again => ordinary_kill again condition
    end
  else ordinary_kill resolved condition.

Definition kill_container (target : EnvironmentTarget) : KM KilledEnvironment := kill_container_if target Any.
End kill.
End Kill.
