(* ===== verification/EnvironmentFinalize.v ===== *)
(** Lemmas on the handlers of [EnvironmentRetention], finalization and the explicit
    kill: what each of their parts leaves behind once it holds the claim on an
    environment. *)

From S2P Require Import Prelude EnvironmentTypes EnvironmentRegistry EnvironmentClaims EnvironmentRetention.

Section finalize.
Context {J Board : Type} (journal : option (EnvironmentJournal J)) (ports : Ports (Board := Board)).

Definition world : Type := (EnvironmentRegistryState * J) * list call.

(** The claim on [k] is held: a record of this session, being killed. *)
Definition claimed (k : string) (s : EnvironmentRegistryState) : Prop :=
  ∃ r, rs_entries s !! k = Some r ∧ er_origin r = Created ∧ er_status r = Killing.

(** Nothing is left half killed under [k]. *)
Definition settled (k : string) (s : EnvironmentRegistryState) : Prop :=
  ∀ r, rs_entries s !! k = Some r → er_status r ≠ Killing.

(** A call that ends the environment. *)
Definition tears_down (c : call) : bool :=
  match c with CallKill _ _ | CallCleanup _ _ => true | _ => false end.

(** A run that leaves nothing half killed and made the calls [calls]. *)
Definition leaves (k : string) (w : world) (calls : list call) (out : world * res string unit) : Prop :=
  out.2 = Ok tt ∧ settled k out.1.1.1 ∧ out.1.2 = w.2 ++ calls.

Lemma bind_ask {A B} (c : call) (f : list call → A) (g : A → FM (J := J) B) w :
  bind (ask c f) g w = g (f w.2) (w.1, w.2 ++ [c]).
Proof. done. Qed.

Lemma journal_ref_created {E} k r s j :
  rs_entries s !! k = Some r → er_origin r = Created →
  ∃ j', journal_ref (E := E) journal k (s, j) = ((s, j'), Ok tt).
Proof.
  intros Hr Ho. unfold journal_ref, journal_snapshot. simpl. rewrite Hr. simpl. destruct journal as [jr|]; [|by exists j].
  destruct (recorded jr r _ j) as [j' outcome]. exists j'. unfold journal_settle. by rewrite Ho.
Qed.

(** A settling section followed by its journal write. *)
Lemma settle_run k (m : M EnvironmentRegistryState string unit) s s' j t r :
  m s = (s', Ok tt) → rs_entries s' !! k = Some r → er_origin r = Created → er_status r ≠ Killing →
  leaves k ((s, j), t) [] (reg_unit (bind (locked m) (λ _, journal_ref journal k)) ((s, j), t)).
Proof.
  intros Hm Hr Ho Hst. destruct (journal_ref_created (E := string) k r s' j Hr Ho) as [j' Hj].
  unfold reg_unit, bind, locked. cbn [fst snd]. rewrite Hm. cbn [fst snd]. rewrite Hj.
  split_and!; [done| |by rewrite app_nil_r]. simpl. intros r'. rewrite Hr. by intros [= <-].
Qed.

Lemma complete_kill_run k s j t :
  claimed k s → leaves k ((s, j), t) [] (reg_unit (complete_kill journal (mkKillClaim k)) ((s, j), t)).
Proof.
  intros (r & Hr & Ho & Hst). unfold complete_kill. eapply settle_run; [done| | |].
  - unfold complete_kill_locked, with_record. cbn [rs_entries set_entries kc_ref drop_claim set_kill_claims].
    rewrite lookup_alter, Hr, decide_True by done. reflexivity.
  - by case_bool_decide.
  - by case_bool_decide.
Qed.

Lemma fail_kill_run k e s j t :
  claimed k s → leaves k ((s, j), t) [] (reg_unit (fail_kill journal (mkKillClaim k) e) ((s, j), t)).
Proof.
  intros (r & Hr & Ho & Hst). unfold fail_kill. eapply settle_run; [done| | |].
  - unfold fail_kill_locked, with_record. cbn [rs_entries set_entries kc_ref drop_claim set_kill_claims].
    rewrite lookup_alter, Hr, decide_True by done. reflexivity.
  - done.
  - done.
Qed.

Lemma retain_run k reason s j t :
  claimed k s → leaves k ((s, j), t) [] (reg_unit (retain journal (mkKillClaim k) reason) ((s, j), t)).
Proof.
  intros (r & Hr & Ho & Hst). unfold retain. eapply settle_run.
  - unfold retain_locked. cbn [kc_ref]. rewrite settle_spec, Hr, decide_True by done. reflexivity.
  - unfold with_record. cbn [rs_entries set_entries drop_claim set_kill_claims].
    rewrite lookup_alter, Hr, decide_True by done. reflexivity.
  - done.
  - done.
Qed.

(** The environment's record goes for good. *)
Lemma forget_run k s j t :
  ∃ w', bind (reg (remove (E := string) journal k)) (λ _, ret tt) ((s, j), t) = ((w', t), Ok tt) ∧ settled k w'.1.
Proof.
  unfold reg, remove, bind, locked. cbn [fst snd].
  destruct (rs_entries s !! k) as [r|], journal as [jr|]; simpl;
    (eexists; split; [done|]; intros r'; simpl; by rewrite lookup_delete_eq).
Qed.

Lemma leaves_then_forget k w w1 calls :
  leaves k w calls (w1, Ok tt) →
  leaves k w calls (bind (reg (remove (E := string) journal k)) (λ _, ret tt) w1).
Proof.
  destruct w1 as [[s j] t]. intros (_ & _ & Ht). simpl in Ht.
  destruct (forget_run k s j t) as (w' & -> & Hset). by split_and!.
Qed.

Lemma leaves_bind k w calls (m : FM (J := J) unit) g w0 :
  leaves k w calls (m w0) → (∀ w1, leaves k w calls (w1, Ok tt) → leaves k w calls (g tt w1)) →
  leaves k w calls (bind m g w0).
Proof.
  unfold bind. destruct (m w0) as [w1 r]. intros Hl Hg. assert (r = Ok tt) as -> by apply Hl. by apply Hg.
Qed.

Lemma leaves_call k w c calls out :
  leaves k (w.1, w.2 ++ [c]) calls out → leaves k w (c :: calls) out.
Proof. intros (? & ? & Ht). split_and!; [done..|]. rewrite Ht. simpl. by rewrite <- app_assoc. Qed.

(** Once nothing keeps the environment, it is ended with at most one call. *)
Lemma tear_down_run k record plan mode observed s j t :
  claimed k s → er_ref record = k →
  ∃ calls, length calls ≤ 1 ∧
    leaves k ((s, j), t) calls (tear_down journal ports (mkKillClaim k) record plan mode observed ((s, j), t)).
Proof.
  intros Hcl <-. unfold tear_down. set (k := er_ref record) in *.
  assert (∃ calls, length calls ≤ 1 ∧ leaves k ((s, j), t) calls
    (cleanup journal ports (mkKillClaim k) record plan mode ((s, j), t))) as Hclean.
  { assert (∀ t', leaves k ((s, j), t') [] (bind (reg_unit (complete_kill journal (mkKillClaim k)))
       (λ _, if decide (mode = LaunchRollbackOwned) then bind (reg (remove (E := string) journal (er_ref record))) (λ _, ret tt)
             else ret tt) ((s, j), t'))) as Hend.
    { intros t'. apply leaves_bind; [by apply complete_kill_run|]. intros w1 Hw1. case_decide; [|done].
      by apply leaves_then_forget. }
    unfold cleanup. destruct (cleanup_plan record plan) as [[id argv]|].
    - eexists [_]. split; [done|]. apply leaves_call. apply Hend.
    - exists []. split; [simpl; lia|]. apply Hend. }
  assert (∃ calls, length calls ≤ 1 ∧ leaves k ((s, j), t) calls
    ((if launch_rollback mode || bool_decide (er_kill record = []) then cleanup journal ports (mkKillClaim k) record plan mode
      else bind (ask (CallKill (er_id record) (er_kill record)) (p_kill ports))
             (λ outcome, match outcome with
              | inl _ => reg_unit (complete_kill journal (mkKillClaim k))
              | inr e => reg_unit (fail_kill journal (mkKillClaim k) e)
              end)) ((s, j), t))) as Hkill.
  { destruct (_ || _); [done|]. eexists [_]. split; [done|]. rewrite bind_ask. apply leaves_call.
    destruct (p_kill ports _); [by apply complete_kill_run|by apply fail_kill_run]. }
  destruct (ends_plain_environment mode observed); [|done].
  destruct (cleanup_plan record plan) as [[id argv]|] eqn:Hplan; [|done].
  assert (argv ≠ []) as Hargv.
  { unfold cleanup_plan in Hplan. repeat case_match; simplify_eq; done. }
  unfold end_for_good. rewrite bool_decide_true by done. eexists [_]. split; [done|].
  unfold debug_assert. rewrite bind_ret, bind_ask. apply leaves_call. destruct (p_cleanup ports _).
  - apply leaves_bind; [by apply complete_kill_run|]. intros w1. apply leaves_then_forget.
  - by apply fail_kill_run.
Qed.

(** ** What the handler learns before it decides *)

(** Calls that leave the environment as it is. *)
Definition harmless (calls : list call) : Prop := Forall (λ c, tears_down c = false) calls.

(** A part that only asks. *)
Definition only_asks {A} (m : FM (J := J) A) (Q : list call → list call → A → Prop) : Prop :=
  ∀ w, ∃ a calls, m w = ((w.1, w.2 ++ calls), Ok a) ∧ harmless calls ∧ Q w.2 calls a.

Lemma only_asks_ret {A} (a : A) (Q : list call → list call → A → Prop) :
  (∀ t, Q t [] a) → only_asks (ret a) Q.
Proof. intros HQ w. exists a, []. split_and!; [unfold ret; rewrite app_nil_r; by destruct w|constructor|apply HQ]. Qed.

Lemma only_asks_ask {A} c (f : list call → A) (Q : list call → list call → A → Prop) :
  tears_down c = false → (∀ t, Q t [c] (f t)) → only_asks (ask c f) Q.
Proof. intros Hc HQ w. exists (f w.2), [c]. split_and!; [done|by repeat constructor|apply HQ]. Qed.

Lemma only_asks_bind {A B} (m : FM (J := J) A) (g : A → FM (J := J) B) Q R :
  only_asks m Q → (∀ t calls a, Q t calls a → only_asks (g a) (λ t' calls' b, t' = t ++ calls → R t (calls ++ calls') b)) →
  only_asks (bind m g) R.
Proof.
  intros Hm Hg w. destruct (Hm w) as (a & calls & Hrun & Hh & HQ).
  destruct (Hg _ _ _ HQ (w.1, w.2 ++ calls)) as (b & calls' & Hrun' & Hh' & HR).
  exists b, (calls ++ calls'). unfold bind. rewrite Hrun, Hrun'. simpl. split_and!.
  - by rewrite <- app_assoc.
  - by apply Forall_app.
  - by apply HR.
Qed.

(** Why the environment is not kept although its run was: its owner closed the
    run meanwhile. *)
Definition closed_meanwhile (mode : MemberFinalizeMode) (t calls : list call) : Prop :=
  mode = Exit ∧ ∃ ref loss, calls = [CallLost ref] ∧ p_lost ports t = inl loss ∧ cl_lost loss = false ∧
  keeps_environment (cl_run loss) = false.

Lemma retention_run record mode observed :
  only_asks (retention ports record mode observed)
    (λ t calls reason, reason = None → (∃ hosted, observed = ObservedRun hosted) ∧ closed_meanwhile mode t calls).
Proof.
  unfold retention. destruct observed as [| |hosted|e]; try by apply only_asks_ret.
  destruct mode; try by apply only_asks_ret.
  eapply only_asks_bind with (Q := λ t calls loss, calls = [CallLost (er_ref record)] ∧ p_lost ports t = loss).
  - by apply only_asks_ask.
  - intros t calls loss [-> Hl]. destruct loss as [loss|e]; [|by apply only_asks_ret].
    destruct (_ && _) eqn:Hb; [|by apply only_asks_ret]. apply only_asks_ret. intros t' Ht' _.
    apply andb_true_iff in Hb as [Hlost%negb_true_iff Hk%negb_true_iff]. split; [by exists hosted|].
    split; [done|]. by exists (er_ref record), loss.
Qed.

Lemma keep_board_run record label which : only_asks (keep_board ports record label which) (λ _ _ _, True).
Proof.
  unfold keep_board. destruct (p_boards ports) as [boards|]; [|by apply only_asks_ret].
  eapply only_asks_bind with (Q := λ _ _ _, True); [by apply only_asks_ask|]. intros t calls [[board|]|e] _; try by apply only_asks_ret.
  eapply only_asks_bind with (Q := λ _ _ _, True); [by apply only_asks_ask|]. intros. by apply only_asks_ret.
Qed.

Lemma undelivered_run mode observed record label board :
  only_asks (undelivered ports mode observed record label board) (λ _ _ _, True).
Proof.
  unfold undelivered. destruct (p_delivery ports) as [check|], label as [label|]; try by apply only_asks_ret.
  eapply only_asks_bind with (Q := λ _ _ _, True).
  - destruct (judges_delivery mode observed); [by apply only_asks_ask|by apply only_asks_ret].
  - intros. by apply only_asks_ret.
Qed.

(** ** The decision *)

(** When an environment whose last member left may be ended, as the calls say. *)
Definition may_tear_down (mode : MemberFinalizeMode) (trace : list call) : Prop :=
  inspectable_end mode = false ∨
  ∃ pre ref post, trace = pre ++ CallObserve ref :: post ∧
    match p_observe ports pre with
    | NoStore => True
    | NoStoreUnverified => mode ≠ OwnerEnd
    | ObservedRun hosted =>
        keeps_environment hosted = false ∨
        ∃ pre' calls post', trace = pre' ++ calls ++ post' ∧ closed_meanwhile mode pre' calls
    | StoreUnreadable _ => False
    end.

Lemma tear_count_harmless calls : harmless calls → length (filter (λ c, tears_down c = true) calls) = 0.
Proof.
  induction 1 as [|c calls Hc _ IH]; [done|]. rewrite filter_cons, decide_False; [done|congruence].
Qed.

Lemma leaves_calls k w calls calls' out :
  leaves k (w.1, w.2 ++ calls) calls' out → leaves k w (calls ++ calls') out.
Proof. intros (? & ? & Ht). split_and!; [done..|]. rewrite Ht. simpl. by rewrite <- app_assoc. Qed.

(** What the observation and the retention tell. *)
Lemma observe_run record mode :
  only_asks (if inspectable_end mode then ask (CallObserve (er_ref record)) (p_observe ports) else ret NoStore)
    (λ t calls o, inspectable_end mode = false ∨ calls = [CallObserve (er_ref record)] ∧ o = p_observe ports t).
Proof.
  destruct (inspectable_end mode); [apply only_asks_ask|apply only_asks_ret]; auto.
Qed.

Lemma reason_run record mode o :
  only_asks (if retains_environment mode o then retention ports record mode o else ret None)
    (λ t calls reason, reason = None →
       retains_environment mode o = false ∨ (∃ hosted, o = ObservedRun hosted) ∧ closed_meanwhile mode t calls).
Proof.
  destruct (retains_environment mode o); [|by apply only_asks_ret; auto].
  intros w. destruct (retention_run record mode o w) as (reason & calls & Hrun & Hh & HQ).
  exists reason, calls. split_and!; auto.
Qed.

Lemma decided mode (t c1 c2 c3 rest : list call) o ref :
  inspectable_end mode = false ∨ c1 = [CallObserve ref] ∧ o = p_observe ports t →
  retains_environment mode o = false ∨ (∃ hosted, o = ObservedRun hosted) ∧ closed_meanwhile mode (t ++ c1 ++ c2) c3 →
  may_tear_down mode (t ++ c1 ++ c2 ++ c3 ++ rest).
Proof.
  intros [Hi|[-> ->]] Hr; [by left|]. unfold may_tear_down.
  destruct (inspectable_end mode) eqn:Hi; [right|by left].
  exists t, ref, (c2 ++ c3 ++ rest). split; [done|].
  unfold retains_environment in Hr. rewrite Hi in Hr. simpl in Hr.
  destruct (p_observe ports t) as [| |hosted|e]; [done| | |].
  - destruct Hr as [Hr|[[hosted [=]] _]]. by intros ->.
  - destruct Hr as [Hr|[_ Hc]]; [by left|right]. eexists _, _, rest. split; [|exact Hc].
    by rewrite <- !app_assoc.
  - destruct Hr as [[=]|[[hosted [=]] _]].
Qed.

Lemma settle_claim_run k record label plan mode s j t :
  claimed k s → er_ref record = k →
  ∃ calls, leaves k ((s, j), t) calls (settle_claim journal ports (mkKillClaim k) record label plan mode ((s, j), t)) ∧
    length (filter (λ c, tears_down c = true) calls) ≤ 1 ∧
    (existsb tears_down calls = true → may_tear_down mode (t ++ calls)).
Proof.
  intros Hcl Hk. unfold settle_claim.
  destruct (observe_run record mode ((s, j), t)) as (o & c1 & Hrun1 & Hh1 & HQ1). rewrite (bind_ok _ _ _ _ _ Hrun1).
  assert (only_asks (match o, label with
           | ObservedRun hosted, Some label =>
               match board_kept mode hosted with
               | Some kept => keep_board ports record label kept
               | None => ret None
               end
           | _, _ => ret None
           end) (λ _ _ _, True)) as Hboard.
  { destruct o as [| |hosted|e], label as [l|]; try by apply only_asks_ret.
    destruct (board_kept mode hosted); [apply keep_board_run|by apply only_asks_ret]. }
  destruct (Hboard (s, j, t ++ c1)) as (board & c2 & Hrun2 & Hh2 & _). cbn [fst snd] in *. rewrite (bind_ok _ _ _ _ _ Hrun2).
  destruct (reason_run record mode o (s, j, (t ++ c1) ++ c2)) as (reason & c3 & Hrun3 & Hh3 & HQ3).
  cbn [fst snd] in *. rewrite (bind_ok _ _ _ _ _ Hrun3).
  assert (∀ c4, harmless c4 → harmless (c1 ++ c2 ++ c3 ++ c4)) as Hh by (intros; unfold harmless; rewrite !Forall_app; auto).
  assert (∀ calls, harmless calls → length (filter (λ c, tears_down c = true) calls) ≤ 1 ∧
    (existsb tears_down calls = true → may_tear_down mode (t ++ calls))) as Hquiet.
  { intros calls Hc. split; [by rewrite tear_count_harmless; [lia|]|].
    intros (c & Hin & Ht)%existsb_exists. apply list_elem_of_In in Hin. pose proof (proj1 (list.Forall_forall _ _) Hc c Hin) as Hf. congruence. }
  assert (∀ c4 calls' out, leaves k ((s, j), (((t ++ c1) ++ c2) ++ c3) ++ c4) calls' out →
    leaves k ((s, j), t) (c1 ++ c2 ++ c3 ++ c4 ++ calls') out) as Hleaves.
  { intros c4 calls' out Hl. apply leaves_calls. simpl. apply leaves_calls. simpl. apply leaves_calls. simpl. by apply leaves_calls. }
  destruct reason as [reason|].
  { eexists. split; [|apply Hquiet].
    - apply (Hleaves [] []). rewrite app_nil_r. by apply retain_run.
    - apply (Hh []). constructor. }
  destruct (undelivered_run mode o record label board (s, j, ((t ++ c1) ++ c2) ++ c3)) as (kept & c4 & Hrun4 & Hh4 & _).
  cbn [fst snd] in *. rewrite (bind_ok _ _ _ _ _ Hrun4).
  destruct kept as [reason|].
  { eexists. split; [|apply Hquiet].
    - apply (Hleaves c4 []). by apply retain_run.
    - rewrite app_nil_r. by apply Hh. }
  destruct (tear_down_run k record plan mode o s j ((((t ++ c1) ++ c2) ++ c3) ++ c4) Hcl Hk) as (c5 & Hlen & Hl).
  eexists. split; [by apply Hleaves|]. split.
  - rewrite !list.filter_app, !length_app, !tear_count_harmless by done. simpl.
    etransitivity; [apply length_filter|done].
  - intros _. eapply decided; [exact HQ1|]. rewrite app_assoc. by apply HQ3.
Qed.

(** ** The post-mortem and the member's removal *)

(** A part that keeps the identity, and of this session's records the status
    and the members, of what is held under [k]. *)
Definition keeps_record (k : string) (s s' : EnvironmentRegistryState) : Prop :=
  ∀ r', rs_entries s' !! k = Some r' → ∃ r, rs_entries s !! k = Some r ∧ er_ref r' = er_ref r ∧
    er_origin r' = er_origin r ∧ (er_origin r = Created → er_status r' = er_status r ∧ er_members r' = er_members r).

Lemma keeps_record_refl k s s' : rs_entries s' = rs_entries s → keeps_record k s s'.
Proof. intros He r' Hr'. rewrite He in Hr'. by exists r'. Qed.

(** An inspect outcome written to the record, and journalled. *)
Lemma inspected_run k f s s' j t :
  rs_entries s' = alter f k (rs_entries s) →
  (∀ r, er_ref (f r) = er_ref r ∧ er_origin (f r) = er_origin r ∧ er_status (f r) = er_status r ∧ er_members (f r) = er_members r) →
  ∃ s2 j2, reg_unit (bind (locked (modify (λ _, s'))) (λ _, journal_ref journal k)) ((s, j), t) = (((s2, j2), t), Ok tt) ∧
    keeps_record k s s2.
Proof.
  intros He Hf.
  assert (keeps_record k s s') as Hkeep.
  { intros r'. rewrite He. intros [(_ & r & Hr & ->)|[? _]]%lookup_alter_Some; [|done].
    exists r. destruct (Hf r) as (-> & -> & -> & ->). by split_and!. }
  unfold reg_unit, bind, locked, modify, journal_ref. cbn [fst snd].
  destruct journal as [jr|]; [|by eexists _, _]. unfold journal_snapshot.
  destruct (rs_entries s' !! k) as [r|] eqn:Hr; [|by eexists _, _]. simpl. destruct (recorded jr r _ j) as [j2 outcome].
  eexists _, _. split; [done|]. intros r'. unfold journal_settle. destruct (er_origin r) eqn:Ho; [by apply Hkeep|].
  destruct (Hkeep r Hr) as (r0 & Hr0 & Href & Hor & _).
  assert (∀ r2, er_ref r2 = er_ref r → er_origin r2 = Restored → ∃ r3, rs_entries s !! k = Some r3 ∧ er_ref r2 = er_ref r3 ∧
    er_origin r2 = er_origin r3 ∧ (er_origin r3 = Created → er_status r2 = er_status r3 ∧ er_members r2 = er_members r3)) as Hres.
  { intros r2 H1 H2. exists r0. split_and!; [done|congruence..|]. intros. congruence. }
  destruct outcome as [|current md|]; simpl; [rewrite Hr; intros [= <-]; by apply Hres| |rewrite Hr; intros [= <-]; by apply Hres].
  case_decide; simpl; [rewrite Hr; intros [= <-]; by apply Hres|].
  intros [(_ & r2 & Hr2 & ->)|[? _]]%lookup_alter_Some; [|done]. rewrite Hr in Hr2. injection Hr2 as <-. by apply Hres.
Qed.

Lemma inspect_once_run k agent s j t :
  ∃ s' j' calls, inspect_once journal ports k agent ((s, j), t) = (((s', j'), t ++ calls), Ok tt) ∧
    harmless calls ∧ keeps_record k s s'.
Proof.
  assert (∃ s' j' calls, (ret tt : FM unit) ((s, j), t) = (((s', j'), t ++ calls), Ok tt) ∧ harmless calls ∧ keeps_record k s s') as Hskip.
  { exists s, j, []. rewrite app_nil_r. split_and!; [done|constructor|by apply keeps_record_refl]. }
  unfold inspect_once, get. unfold bind at 1, reg, locked, gets. cbn [fst snd].
  destruct (rs_entries s !! k) as [r|] eqn:Hr; [|done]. case_decide; [done|].
  unfold bind at 1, begin_inspect, reg, locked. cbn [fst snd]. unfold begin_inspect_locked. rewrite Hr. case_decide; [done|].
  cbn [fst snd]. rewrite bind_ask. cbn [fst snd].
  set (s1 := set_inspect_claims _ s). destruct (p_inspect ports t) as [md|e].
  - destruct (inspected_run k (λ r, let r := if bool_decide (k ∈ rs_inspect_failures s1) && negb (bool_decide (er_status r = CleanupFailed))
                   then set_last_error None r else r in set_metadata (inspected_metadata (er_metadata r) md) r)
      s1 (record_inspect_success_locked (mkInspectClaim k) md s1) j (t ++ [CallInspect (er_id r) (er_inspect r)]) eq_refl)
      as (s2 & j2 & Hrun & Hkeep); [intros r0; by case_match|].
    exists s2, j2, [CallInspect (er_id r) (er_inspect r)]. split_and!; [exact Hrun|by repeat constructor|done].
  - destruct (inspected_run k (set_last_error (Some e)) s1 (record_inspect_failure_locked (mkInspectClaim k) e s1) j
      (t ++ [CallInspect (er_id r) (er_inspect r)])) as (s2 & j2 & Hrun & Hkeep).
    { unfold record_inspect_failure_locked. cbn [ic_ref]. change (rs_entries s1) with (rs_entries s). by rewrite Hr. }
    { done. }
    exists s2, j2, [CallInspect (er_id r) (er_inspect r)]. split_and!; [exact Hrun|by repeat constructor|done].
Qed.
End finalize.

(** * The explicit kill *)

Section kill.
Import Kill.
Context {J : Type} (journal : option (EnvironmentJournal J)).

(** What of a record a kill relies on, and never changes. *)
Definition box (r : EnvironmentRecord) : string * string * list string * list string * string * EnvironmentOrigin :=
  (er_ref r, er_id r, er_kill r, er_cleanup r, er_created_by r, er_origin r).

(** The claim on the environment of [r0] is held. *)
Definition held (r0 : EnvironmentRecord) (s : EnvironmentRegistryState) : Prop :=
  ∃ r, rs_entries s !! er_ref r0 = Some r ∧ er_status r = Killing ∧ er_ref r0 ∈ rs_kill_claims s ∧ box r = box r0.

(** The record another session's change left in place of [x], as the journal answered. *)
Definition superseded (x r : EnvironmentRecord) : Prop :=
  er_origin x = Restored ∧ ∃ jr known j current md, journal = Some jr ∧ (recorded jr x known j).2 = Superseded current md ∧
    r = set_metadata (merge_metadata md (er_metadata x)) (set_status current x).

(** The claim on it is gone, and it was left as [P] says, unless it is another session's, which
    changed it meanwhile. *)
Definition let_go (r0 : EnvironmentRecord) (P : EnvironmentRecord → Prop) (s : EnvironmentRegistryState) : Prop :=
  er_ref r0 ∉ rs_kill_claims s ∧
  ∃ x r, rs_entries s !! er_ref r0 = Some r ∧ box x = box r0 ∧ box r = box r0 ∧ P x ∧ (r = x ∨ superseded x r).

Lemma box_fields r r0 : box r = box r0 →
  er_ref r = er_ref r0 ∧ er_id r = er_id r0 ∧ er_kill r = er_kill r0 ∧ er_cleanup r = er_cleanup r0 ∧ er_origin r = er_origin r0.
Proof. unfold box. intros [= -> -> -> -> _ ->]. done. Qed.

Lemma let_go_box r r0 P s : box r = box r0 → let_go r P s → let_go r0 P s.
Proof. intros Hb. destruct (box_fields r r0 Hb) as (Hr & _). unfold let_go. by rewrite Hb, Hr. Qed.

(** While an answer is awaited, a claim that is held stays held: it is exclusive. *)
Definition claims_kept (ports : Ports (J := J)) : Prop :=
  ∀ t w r, held r w.1 → held r (meanwhile ports t w).1.

(** What a journal write can change. *)
Lemma journal_ref_run {E} k s j : ∃ s' j', journal_ref (E := E) journal k (s, j) = ((s', j'), Ok tt) ∧
  rs_kill_claims s' = rs_kill_claims s ∧
  (k ∈ rs_kill_claims s → rs_entries s' = rs_entries s) ∧
  (∀ r, rs_entries s !! k = Some r → ∃ r', rs_entries s' !! k = Some r' ∧ box r' = box r ∧ (r' = r ∨ superseded r r')).
Proof.
  unfold journal_ref, journal_snapshot. cbn [fst snd].
  destruct journal as [jr|] eqn:Hjr; [|exists s, j; split_and!; [done..|]; intros r ->; by exists r; auto].
  destruct (rs_entries s !! k) as [r|] eqn:Hr; simpl; [|exists s, j; split_and!; eauto; by rewrite Hr].
  destruct (recorded jr r _ j) as [j' outcome] eqn:Hrec. exists (journal_settle k r outcome s), j'. split; [done|].
  assert (∀ s', rs_kill_claims s' = rs_kill_claims s → rs_entries s' = rs_entries s →
    rs_kill_claims s' = rs_kill_claims s ∧ (k ∈ rs_kill_claims s → rs_entries s' = rs_entries s) ∧
    ∀ r0, Some r = Some r0 → ∃ r', rs_entries s' !! k = Some r' ∧ box r' = box r0 ∧ (r' = r0 ∨ superseded r0 r')) as Hsame.
  { intros s' Hc He. split; [done|]. split; [done|]. intros r0 [= <-]. exists r. rewrite He. auto. }
  unfold journal_settle. destruct (er_origin r) eqn:Ho; [by apply Hsame|].
  destruct outcome as [|current metadata|]; [by apply Hsame| |by apply Hsame].
  cbn [rs_kill_claims rs_entries set_journalled]. destruct (decide (k ∈ rs_kill_claims s)) as [Hk|Hk]; [by apply Hsame|].
  split; [done|]. split; [done|]. intros r0 [= <-]. unfold with_record. cbn [rs_entries set_entries].
  rewrite lookup_alter, decide_True by done. simpl. rewrite Hr. eexists. split; [done|]. split; [done|]. right.
  split; [done|]. eexists jr, _, j, current, metadata. split; [done|]. split; [by rewrite Hrec|done].
Qed.

(** A section that settles the claim, and its journal write. *)
Lemma let_go_run {E} (m : M EnvironmentRegistryState E unit) f r0 (P : EnvironmentRecord → Prop) s j :
  held r0 s → (∀ r, rs_entries s !! er_ref r0 = Some r → er_status r = Killing →
    m s = (with_record (er_ref r0) f (drop_claim (er_ref r0) s), Ok tt) ∧ box (f r) = box r ∧ P (f r)) →
  ∃ s' j', bind (locked m) (λ _, journal_ref journal (er_ref r0)) (s, j) = ((s', j'), Ok tt) ∧ let_go r0 P s'.
Proof.
  intros (r & Hr & Hst & Hin & Hb) Hm. destruct (Hm r Hr Hst) as (Hrun & Hfb & HP).
  set (s1 := with_record (er_ref r0) f (drop_claim (er_ref r0) s)) in Hrun.
  assert (rs_entries s1 !! er_ref r0 = Some (f r)) as Hr1.
  { unfold s1, with_record. simpl. by rewrite lookup_alter, Hr, decide_True. }
  destruct (journal_ref_run (E := E) (er_ref r0) s1 j) as (s' & j' & Hj & Hc & _ & He).
  destruct (He _ Hr1) as (r' & Hr' & Hb' & Hcr).
  unfold bind, locked. cbn [fst snd]. rewrite Hrun. cbn [fst snd]. rewrite Hj. exists s', j'. split; [done|]. split.
  - rewrite Hc. unfold s1, with_record, drop_claim. simpl. set_solver.
  - exists (f r), r'. split_and!; [done|congruence|congruence|done|done].
Qed.

Lemma complete_kill_held {E} r0 s j : held r0 s →
  ∃ s' j', complete_kill (E := E) journal (mkKillClaim (er_ref r0)) (s, j) = ((s', j'), Ok tt) ∧
    let_go r0 (λ r, er_status r = Stopped ∧ er_members r = []) s'.
Proof.
  intros H. edestruct (let_go_run (E := E) (modify (complete_kill_locked (mkKillClaim (er_ref r0))))) as (s' & j' & Hr & Hl);
    [exact H| |exists s', j'; split; [exact Hr|exact Hl]].
  intros r Hr Hst. split; [reflexivity|]. case_bool_decide; done.
Qed.

Lemma fail_kill_held {E} r0 e s j : held r0 s →
  ∃ s' j', fail_kill (E := E) journal (mkKillClaim (er_ref r0)) e (s, j) = ((s', j'), Ok tt) ∧
    let_go r0 (λ r, er_status r = CleanupFailed ∧ er_last_error r = Some e) s'.
Proof.
  intros H. edestruct (let_go_run (E := E) (modify (fail_kill_locked (mkKillClaim (er_ref r0)) e))) as (s' & j' & Hr & Hl);
    [exact H| |exists s', j'; split; [exact Hr|exact Hl]].
  intros r Hr Hst. split; [reflexivity|]. done.
Qed.

Lemma release_removal_held {E} r0 from s j : held r0 s →
  ∃ s' j', release_removal (E := E) journal (mkRemovalClaim (mkKillClaim (er_ref r0)) from) (s, j) = ((s', j'), Ok tt) ∧
    let_go r0 (λ r, er_status r = from) s'.
Proof.
  intros H. edestruct (let_go_run (E := E) (release_removal_locked (mkRemovalClaim (mkKillClaim (er_ref r0)) from))) as (s' & j' & Hr & Hl);
    [exact H| |exists s', j'; split; [exact Hr|exact Hl]].
  intros r Hr Hst. unfold release_removal_locked. cbn [kc_ref rc_claim rc_claimed_from]. rewrite settle_spec, Hr, decide_True by done.
  split; [reflexivity|]. done.
Qed.

Lemma clear_removal_pending_box r : box (clear_removal_pending r) = box r.
Proof. unfold clear_removal_pending. by destruct (er_metadata r). Qed.

Lemma abandon_removal_held {E} r0 s j : held r0 s →
  ∃ s' j', abandon_removal (E := E) journal (mkRemovalClaim (mkKillClaim (er_ref r0)) CleanupFailed) (s, j) = ((s', j'), Ok tt) ∧
    let_go r0 (λ r, er_status r = CleanupFailed) s'.
Proof.
  intros H. edestruct (let_go_run (E := E) (abandon_removal_locked (mkRemovalClaim (mkKillClaim (er_ref r0)) CleanupFailed)))
    as (s' & j' & Hr & Hl); [exact H| |exists s', j'; split; [exact Hr|exact Hl]].
  intros r Hr Hst. unfold abandon_removal_locked. cbn [kc_ref rc_claim rc_claimed_from].
  unfold debug_assert. rewrite bool_decide_eq_true_2, bind_ret by done. rewrite settle_spec, Hr, decide_True by done.
  split; [reflexivity|]. split; [|done]. rewrite <- (clear_removal_pending_box r). done.
Qed.

Lemma fail_removal_held {E} r0 from e s j : held r0 s →
  ∃ s' j', fail_removal (E := E) journal (mkRemovalClaim (mkKillClaim (er_ref r0)) from) e (s, j) = ((s', j'), Ok tt) ∧
    let_go r0 (λ r, er_status r = CleanupFailed ∧ er_last_error r = Some e) s'.
Proof.
  intros (r & Hr & Hst & Hin & Hb).
  destruct (fail_kill_held (E := E) r0 e (with_record (er_ref r0) mark_removal_pending s) j) as (s' & j' & Hf & Hl).
  { exists (mark_removal_pending r). unfold with_record. simpl. rewrite lookup_alter, Hr, decide_True by done.
    split_and!; done. }
  exists s', j'. split; [exact Hf|exact Hl].
Qed.

Lemma complete_removal_held {E} r0 from s j : held r0 s →
  ∃ s' j', complete_removal (E := E) journal (mkRemovalClaim (mkKillClaim (er_ref r0)) from) (s, j) = ((s', j'), Ok tt) ∧
    er_ref r0 ∉ rs_kill_claims s' ∧ rs_entries s' !! er_ref r0 = None.
Proof.
  intros (r & Hr & Hst & Hin & Hb). unfold complete_removal, remove, bind, locked. cbn [fst snd kc_ref rc_claim]. rewrite Hr.
  destruct journal as [jr|]; simpl; unfold debug_assert; rewrite bool_decide_eq_true_2 by done; simpl;
    eexists _, _; (split; [done|]); unfold remove_locked; cbn [rs_entries rs_kill_claims set_entries set_kill_claims];
    (split; [set_solver|by rewrite lookup_delete_eq]).
Qed.

(** ** Claims *)

Lemma take_claim_held r s f :
  rs_entries s !! er_ref r = Some r → (∀ x, box (f x) = box x) →
  held r (take_claim (er_ref r) (with_record (er_ref r) f s)).
Proof.
  intros Hr Hf. exists (set_status Killing (f r)). unfold take_claim, with_record. simpl.
  rewrite !lookup_alter, Hr, !decide_True by done. simpl. split_and!; [done|done|set_solver|]. rewrite <- (Hf r). done.
Qed.

(** A journal write under the claim keeps it. *)
Lemma journal_ref_held {E} r s j : held r s →
  ∃ s' j', journal_ref (E := E) journal (er_ref r) (s, j) = ((s', j'), Ok tt) ∧ held r s' ∧ rs_entries s' = rs_entries s.
Proof.
  intros (x & Hx & Hst & Hin & Hb). destruct (journal_ref_run (E := E) (er_ref r) s j) as (s' & j' & Hj & Hc & He & _).
  exists s', j'. split; [done|]. split; [|by apply He]. exists x. rewrite Hc, (He Hin). done.
Qed.

Lemma begin_kill_held r condition s j :
  rs_entries s !! er_ref r = Some r →
  (∃ e, begin_kill_if journal (er_ref r) condition (s, j) = ((s, j), Err e)) ∨
  (judge condition r = None ∧ ∃ s' j' x, begin_kill_if journal (er_ref r) condition (s, j) = ((s', j'), Ok (mkKillClaim (er_ref r))) ∧ held r s' ∧
    rs_entries s' !! er_ref r = Some x ∧ x = set_status Killing r).
Proof.
  intros Hr. unfold begin_kill_if, begin_kill_if_locked, admitted_locked, claim_kill_locked, known.
  unfold locked, bind, reads, EnvironmentRegistry.map_err, modify, ret, throw. cbn [fst snd]. rewrite Hr. cbn [fst snd].
  destruct (judge condition r) as [mm|] eqn:Hj; [left; by eexists|]. cbn [fst snd].
  destruct (claimable r); [right; split; [done|]|left; destruct (er_status r); by eexists].
  destruct (journal_ref_held (E := ClaimRefusal) r (take_claim (er_ref r) s) j) as (s' & j' & Hjr & Hh & He).
  { pose proof (take_claim_held r s (λ x, x) Hr (λ _, eq_refl)) as Hh.
    assert (with_record (er_ref r) (λ x, x) s = s) as Hs; [|by rewrite Hs in Hh].
    unfold with_record. rewrite alter_id by done. by destruct s. }
  simpl. rewrite Hjr. eexists s', j', _. split; [done|]. split; [done|]. rewrite He. unfold take_claim, with_record. simpl.
  rewrite lookup_alter, Hr, decide_True by done. done.
Qed.

Lemma begin_removal_held r condition s j :
  rs_entries s !! er_ref r = Some r →
  (∃ e, begin_removal_if journal (er_ref r) condition (s, j) = ((s, j), Err e)) ∨
  ∃ s' j', begin_removal_if journal (er_ref r) condition (s, j)
    = ((s', j'), Ok (mkRemovalClaim (mkKillClaim (er_ref r)) (er_status r))) ∧ held r s'.
Proof.
  intros Hr. unfold begin_removal_if, begin_removal_if_locked, admitted_locked, claim_removal_locked, known.
  unfold locked, bind, reads, EnvironmentRegistry.map_err, modify, ret, throw. cbn [fst snd]. rewrite Hr. cbn [fst snd].
  destruct (judge condition r) as [mm|]; [left; by eexists|]. cbn [fst snd].
  destruct (removable r); [right|left; by eexists].
  set (f := if is_plain_stopped r then clear_removal_pending else λ x, x).
  destruct (journal_ref_held (E := ClaimRefusal) r (take_claim (er_ref r) (with_record (er_ref r) f s)) j) as (s' & j' & Hjr & Hh & _).
  { apply take_claim_held; [done|]. intros x. unfold f. destruct (is_plain_stopped r); [apply clear_removal_pending_box|done]. }
  assert (with_record (er_ref r) (λ x, x) s = s) as Hs by (unfold with_record; rewrite alter_id by done; by destruct s).
  exists s', j'. split; [|done]. unfold f in Hjr. destruct (is_plain_stopped r); simpl; rewrite ?Hs in Hjr; simpl in Hjr; by rewrite Hjr.
Qed.

(** ** The handler *)

Context (ports : Ports (J := J)).

(** A call that runs a retained script. *)
Definition is_script (c : call) : bool := match c with CallKill _ _ | CallCleanup _ _ => true | _ => false end.
Definition scripts (calls : list call) : list call := filter (λ c, is_script c = true) calls.

Definition board_free (o : SwarmRunObservation) : bool :=
  match o with ObservedRun run => negb (keeps_environment run) | StoreUnreadable _ => false | NoStore | NoStoreUnverified => true end.

(** What must have been established before a script runs: every member settled, for the kill;
    the container gone and no unfinished run on the board, for the cleanup. *)
Definition allowed_after (past : list call) (c : call) : Prop :=
  match c with
  | CallKill _ _ => ∃ t ms, past = t ++ [CallShutdown ms] ∧ all_settled (p_shutdown ports t ms) = true
  | CallCleanup _ _ =>
      ∃ t r a b, past = t ++ [CallHosted r] ∧ board_free (p_hosted ports t) = true ∧
        t = a ++ CallLiveness r :: b ∧ p_liveness ports a = LiveGone
  | _ => True
  end.

Fixpoint all_allowed (past calls : list call) : Prop :=
  match calls with
  | [] => True
  | c :: calls' => allowed_after past c ∧ all_allowed (past ++ [c]) calls'
  end.

(** What [full], the calls made, proves of the ways a kill ends. *)

(** The script that ran last, with its answer. *)
Definition kill_ran (r0 : EnvironmentRecord) (full : list call) (answer : unit + string) : Prop :=
  ∃ pre, full = pre ++ [CallKill (er_id r0) (er_kill r0)] ∧ p_kill ports pre = answer.
Definition cleanup_ran (r0 : EnvironmentRecord) (full : list call) (answer : unit + string) : Prop :=
  ∃ pre, full = pre ++ [CallCleanup (er_id r0) (er_cleanup r0)] ∧ p_cleanup ports pre = answer.

(** The container was reported gone, and then the state directory absent. *)
Definition found_nothing (r0 : EnvironmentRecord) (full : list call) : Prop :=
  ∃ pre disk dir, full = pre ++ [CallLiveness (er_ref r0); CallDisk dir] ∧ p_liveness ports pre = LiveGone ∧
    p_disk ports = Some disk ∧ environment_dir r0 = Some dir ∧ disk (pre ++ [CallLiveness (er_ref r0)]) dir = DiskAbsent.

(** How the kill of the environment [r0] ends: what was run, what was answered, and how
    the registry was left.  [t] are the calls before [calls]. *)
Definition kill_ended (r0 : EnvironmentRecord) (t : list call) (s : EnvironmentRegistryState) (calls : list call)
    (r : res KillEnvironmentError KilledEnvironment) : Prop :=
  match r with
  | Panic => calls = [] ∧ removable r0 = true ∧ er_members r0 ≠ []
  | Ok k =>
      box (record k) = box r0 ∧
      if removed_stopped k then
        er_ref r0 ∉ rs_kill_claims s ∧ rs_entries s !! er_ref r0 = None ∧
        if nothing_left k then scripts calls = [] ∧ found_nothing r0 (t ++ calls)
        else scripts calls = [CallCleanup (er_id r0) (er_cleanup r0)] ∧ cleanup_ran r0 (t ++ calls) (inl tt)
      else
        nothing_left k = false ∧ all_settled (members k) = true ∧
        scripts calls = [CallKill (er_id r0) (er_kill r0)] ∧ kill_ran r0 (t ++ calls) (inl tt) ∧
        let_go r0 (λ r, er_status r = Stopped ∧ er_members r = []) s
  | Err (KillFailed env_ref detail) =>
      env_ref = er_ref r0 ∧ length (scripts calls) = 1 ∧
      (kill_ran r0 (t ++ calls) (inr detail) ∨ cleanup_ran r0 (t ++ calls) (inr detail)) ∧
      let_go r0 (λ r, er_status r = CleanupFailed ∧ er_last_error r = Some detail) s
  | Err (MembersUnsettled env_ref ms) =>
      env_ref = er_ref r0 ∧ scripts calls = [] ∧ ms ≠ [] ∧
      (∃ pre asked, t ++ calls = pre ++ [CallShutdown asked] ∧
         ms = (λ m, (um_member m, um_detail m)) <$> unsettled (p_shutdown ports pre asked)) ∧
      let_go r0 (λ r, er_status r = CleanupFailed ∧ er_last_error r = Some (unsettled_text env_ref ms)) s
  | Err _ => scripts calls = [] ∧ (calls ≠ [] → er_ref r0 ∉ rs_kill_claims s)
  end.

(** A run of a part of the handler from a trace. *)
Definition runs {A} (t : list call) (out : ((EnvironmentRegistryState * J) * list call) * res KillEnvironmentError A)
    (Q : EnvironmentRegistryState → list call → res KillEnvironmentError A → Prop) : Prop :=
  ∃ s j calls r, out = (((s, j), t ++ calls), r) ∧ all_allowed t calls ∧ Q s calls r.

Lemma reg_ok_run {A B} (m : RM (J := J) KillEnvironmentError A) (k : A → KM (J := J) B) s j s' j' a t :
  m (s, j) = ((s', j'), Ok a) → bind (reg_ok m) k ((s, j), t) = k a ((s', j'), t).
Proof. intros Hm. unfold bind, reg_ok, reg. cbn [fst snd]. by rewrite Hm. Qed.

Lemma reg_run {E A B} (f : E → KillEnvironmentError) (m : RM (J := J) E A) (k : A → KM (J := J) B) s j s' j' a t :
  m (s, j) = ((s', j'), Ok a) → bind (reg f m) k ((s, j), t) = k a ((s', j'), t).
Proof. intros Hm. unfold bind, reg. cbn [fst snd]. by rewrite Hm. Qed.

Lemma reg_err {E A B} (f : E → KillEnvironmentError) (m : RM (J := J) E A) (k : A → KM (J := J) B) s j e t :
  m (s, j) = ((s, j), Err e) → bind (reg f m) k ((s, j), t) = (((s, j), t), Err (f e)).
Proof. intros Hm. unfold bind, reg. cbn [fst snd]. by rewrite Hm. Qed.

(** A refusal that ran nothing. *)
Definition refusal (e : KillEnvironmentError) : bool :=
  match e with NothingToKill _ | Refused _ | NotCreatedBy _ => true | _ => false end.

Lemma claim_refused_refusal e : refusal (claim_refused e) = true.
Proof. by destruct e as [[]|]. Qed.

Lemma refusal_ended {A} s (t : list call) e j (Q : EnvironmentRegistryState → list call → res KillEnvironmentError A → Prop) :
  Q s [] (Err e) → runs t (((s, j), t), Err e) Q.
Proof. intros HQ. exists s, j, [], (Err e). by rewrite app_nil_r. Qed.

Lemma held_after t s j s' j' r :
  claims_kept ports → held r s → meanwhile ports t (s, j) = (s', j') → held r s'.
Proof. intros Hkept Hh Hm. pose proof (Hkept t (s, j) r Hh) as Hw. by rewrite Hm in Hw. Qed.

Lemma scripts_app a b : scripts (a ++ b) = scripts a ++ scripts b.
Proof. apply list.filter_app. Qed.

Lemma ordinary_kill_run r0 resolved condition s j t0 past :
  claims_kept ports → rs_entries s !! er_ref resolved = Some resolved → box resolved = box r0 →
  scripts past = [] → (past ≠ [] → er_ref r0 ∉ rs_kill_claims s) →
  runs (t0 ++ past) (ordinary_kill journal ports resolved condition ((s, j), t0 ++ past))
    (λ s' calls, kill_ended r0 t0 s' (past ++ calls)).
Proof.
  intros Hkept Hr Hbox Hp Hrel. destruct (box_fields _ _ Hbox) as (Bref & Bid & Bkill & _). unfold ordinary_kill.
  case_bool_decide as Hk; [apply refusal_ended; simpl; by rewrite app_nil_r|].
  destruct (begin_kill_held resolved condition s j Hr) as [[e He]|(Hj & s1 & j1 & x & Hb & Hh & Hx & Hxe)].
  { rewrite (reg_err _ _ _ _ _ _ _ He). apply refusal_ended. simpl.
    rewrite app_nil_r. pose proof (claim_refused_refusal e). by destruct (claim_refused e). }
  rewrite (reg_run _ _ _ _ _ _ _ _ _ Hb).
  erewrite reg_ok_run; [|reflexivity]. cbn [fst]. rewrite Hx, Hxe. cbn [default from_option id]. unfold id.
  set (r := set_status Killing resolved). set (t := t0 ++ past).
  unfold debug_assert. rewrite !bool_decide_eq_true_2; [|by destruct condition|done]. rewrite !bind_ret.
  unfold ask at 1. unfold bind at 1. cbn [fst snd].
  destruct (meanwhile ports t (s1, j1)) as [s2 j2] eqn:Hm2. pose proof (held_after _ _ _ _ _ _ Hkept Hh Hm2) as Hh2.
  destruct (all_settled _) eqn:Hset; cbn [negb].
  - unfold ask at 1. unfold bind at 1. cbn [fst snd].
    destruct (meanwhile ports _ (s2, j2)) as [s3 j3] eqn:Hm3. pose proof (held_after _ _ _ _ _ _ Hkept Hh2 Hm3) as Hh3.
    set (calls := [CallShutdown (er_members r); CallKill (er_id r) (er_kill r)]).
    assert (all_allowed t calls) as Hall by (simpl; split; [done|]; split; [|done]; by eexists _, _).
    assert ((t ++ [CallShutdown (er_members r)]) ++ [CallKill (er_id r) (er_kill r)] = t ++ calls) as Htr by (by rewrite <- app_assoc).
    assert (∀ answer, p_kill ports (t ++ [CallShutdown (er_members r)]) = answer → kill_ran r0 (t0 ++ past ++ calls) answer) as Hran.
    { intros answer Ha. eexists. split; [|exact Ha]. rewrite <- Bid, <- Bkill, app_assoc. done. }
    rewrite Htr. destruct (p_kill ports _) as [[]|detail].
    + destruct (complete_kill_held (E := KillEnvironmentError) resolved s3 j3 Hh3) as (s4 & j4 & Hc & Hl).
      rewrite (reg_ok_run _ _ _ _ _ _ _ _ Hc). eexists s4, j4, calls, _. split; [done|]. split; [done|].
      split; [exact Hbox|]. simpl. rewrite scripts_app, Hp, <- Bid, <- Bkill. split_and!; [done..|by apply Hran|by eapply let_go_box].
    + destruct (fail_kill_held (E := KillEnvironmentError) resolved detail s3 j3 Hh3) as (s4 & j4 & Hc & Hl).
      rewrite (reg_ok_run _ _ _ _ _ _ _ _ Hc). eexists s4, j4, calls, _. split; [done|]. split; [done|].
      simpl. rewrite scripts_app, Hp. split_and!; [done..|left; by apply Hran|by eapply let_go_box].
  - set (ms := (λ m, (um_member m, um_detail m)) <$> _).
    destruct (fail_kill_held (E := KillEnvironmentError) resolved (unsettled_text (er_ref r) ms) s2 j2 Hh2) as (s4 & j4 & Hc & Hl).
    rewrite (reg_ok_run _ _ _ _ _ _ _ _ Hc). exists s4, j4, [CallShutdown (er_members r)].
    eexists. split; [done|]. split; [done|]. simpl. rewrite scripts_app, Hp. split_and!; [done..| | |by eapply let_go_box].
    { unfold ms. intros Hn%fmap_nil_inv. unfold all_settled in Hset. rewrite Hn in Hset. done. }
    eexists t, _. split; [by rewrite app_assoc|done].
Qed.

Lemma all_allowed_app t a b : all_allowed t a → all_allowed (t ++ a) b → all_allowed t (a ++ b).
Proof.
  revert t. induction a as [|c a IH]; intros t; simpl; [by rewrite app_nil_r|].
  intros [Hc Ha] Hb. split; [done|]. apply IH; [done|]. by rewrite <- app_assoc.
Qed.

(** How a removal ends: as a kill does, or with the record an ordinary kill goes on with. *)
Definition removal_ended (r0 : EnvironmentRecord) (t : list call) (s : EnvironmentRegistryState) (calls : list call)
    (r : res KillEnvironmentError Removal) : Prop :=
  match r with
  | Panic => kill_ended r0 t s calls Panic
  | Ok (OrdinaryKill again) =>
      scripts calls = [] ∧ er_ref r0 ∉ rs_kill_claims s ∧ rs_entries s !! er_ref again = Some again ∧ box again = box r0
  | Ok (Removed k) => kill_ended r0 t s calls (Ok k)
  | Err e => kill_ended r0 t s calls (Err e)
  end.

(** Whether nothing was left: a call that runs nothing, and what a yes proves. *)
Lemma left_nothing_run r w t : ∃ calls b, left_nothing ports r (w, t) = ((w, t ++ calls), Ok b) ∧
  scripts calls = [] ∧ (∀ past, all_allowed past calls) ∧
  (b = true → ∃ disk dir, calls = [CallDisk dir] ∧ p_disk ports = Some disk ∧ environment_dir r = Some dir ∧ disk t dir = DiskAbsent).
Proof.
  unfold left_nothing. destruct (p_disk ports) as [disk|]; [|exists [], false; by rewrite app_nil_r].
  destruct (environment_dir r) as [dir|]; [|exists [], false; by rewrite app_nil_r].
  unfold bind, ask_now, ret. cbn [fst snd]. eexists [CallDisk dir], _. split; [done|]. split_and!; [done..|].
  destruct (disk t dir) eqn:Hd; try done. by exists disk, dir.
Qed.

(** The end of a removal: the claim goes, and with it the record. *)
Lemma forgotten_run r from s j t0 past calls (nothing : bool) :
  held r s → all_allowed (t0 ++ past) calls →
  (if nothing then scripts (past ++ calls) = [] ∧ found_nothing r (t0 ++ past ++ calls)
   else scripts (past ++ calls) = [CallCleanup (er_id r) (er_cleanup r)] ∧ cleanup_ran r (t0 ++ past ++ calls) (inl tt)) →
  runs (t0 ++ past) (bind (reg_ok (complete_removal journal (mkRemovalClaim (mkKillClaim (er_ref r)) from)))
    (λ _, ret (Removed (mkKilled r no_members true nothing))) ((s, j), (t0 ++ past) ++ calls))
    (λ s' calls', removal_ended r t0 s' (past ++ calls')).
Proof.
  intros Hh Ha Hs. destruct (complete_removal_held (E := KillEnvironmentError) r from s j Hh) as (s' & j' & Hc & Hn & He).
  rewrite (reg_ok_run _ _ _ _ _ _ _ _ Hc). eexists s', j', calls, _. split_and!; done.
Qed.

(** A refusal after the claim: it goes, and nothing else does. *)
Lemma released_run r from s j t past calls e :
  held r s → all_allowed t calls → refusal e = true → scripts (past ++ calls) = [] →
  runs t (bind (reg_ok (release_removal journal (mkRemovalClaim (mkKillClaim (er_ref r)) from)))
    (λ _, throw (A := Removal) e) ((s, j), t ++ calls)) (λ s' calls' out, ∀ t0, removal_ended r t0 s' (past ++ calls') out).
Proof.
  intros Hh Ha He Hs. destruct (release_removal_held (E := KillEnvironmentError) r from s j Hh) as (s' & j' & Hc & Hl & _).
  rewrite (reg_ok_run _ _ _ _ _ _ _ _ Hc). eexists s', j', calls, _. split; [done|]. split; [done|]. intros t0. by destruct e.
Qed.

Lemma runs_weaken {A} t out (Q Q' : EnvironmentRegistryState → list call → res KillEnvironmentError A → Prop) :
  runs t out Q → (∀ s calls r, Q s calls r → Q' s calls r) → runs t out Q'.
Proof. intros (s & j & calls & r & ? & ? & ?) HQ. exists s, j, calls, r. auto. Qed.

Lemma remove_leftovers_run r from why s j t0 :
  claims_kept ports → held r s → (why = None → p_liveness ports t0 = LiveGone) →
  runs (t0 ++ [CallLiveness (er_ref r)])
    (remove_leftovers journal ports r (mkRemovalClaim (mkKillClaim (er_ref r)) from) why ((s, j), t0 ++ [CallLiveness (er_ref r)]))
    (λ s' calls, removal_ended r t0 s' ([CallLiveness (er_ref r)] ++ calls)).
Proof.
  intros Hkept Hh Hlive. set (t := t0 ++ [CallLiveness (er_ref r)]). unfold remove_leftovers.
  destruct why as [why|].
  { rewrite bind_ret. cbv beta iota. rewrite bind_ret. cbv beta iota.
    rewrite <- (app_nil_r t) at 2.
    eapply runs_weaken; [by apply (released_run _ _ _ _ _ [CallLiveness (er_ref r)])|]. intros ? ? ? HQ. apply HQ. }
  destruct (left_nothing_run r (s, j) t) as (dc & b & Hd & Hds & Hda & Hyes). unfold bind at 1. rewrite Hd.
  destruct b.
  { destruct (Hyes eq_refl) as (disk & dir & -> & Hdisk & Hdir & Habs).
    apply forgotten_run; [done|by apply Hda|]. split; [by rewrite scripts_app, Hds|]. by exists t0, disk, dir; auto. }
  unfold unfinished_run, ask. unfold bind at 1. unfold bind at 1. cbn [fst snd].
  destruct (meanwhile ports _ (s, j)) as [s2 j2] eqn:Hm2. pose proof (held_after _ _ _ _ _ _ Hkept Hh Hm2) as Hh2.
  set (calls := dc ++ [CallHosted (er_ref r)]).
  assert (all_allowed t calls) as Hca by (apply all_allowed_app; [apply Hda|done]).
  assert (scripts calls = []) as Hcs by (unfold calls; by rewrite scripts_app, Hds).
  rewrite <- (app_assoc t dc). change (dc ++ [CallHosted (er_ref r)]) with calls.
  set (found := match p_hosted ports (t ++ dc) with ObservedRun _ => _ | _ => _ end). unfold ret at 1. cbv beta iota.
  destruct found as [why|] eqn:Hfound.
  { eapply runs_weaken; [by apply (released_run _ _ _ _ _ [CallLiveness (er_ref r)]); try done; rewrite scripts_app, Hcs|]. intros ? ? ? HQ. apply HQ. }
  assert (board_free (p_hosted ports (t ++ dc)) = true) as Hfree.
  { unfold found in Hfound. destruct (p_hosted ports (t ++ dc)); simpl; try done. by destruct (keeps_environment _). }
  unfold bind at 1. cbn [fst snd].
  destruct (meanwhile ports _ (s2, j2)) as [s3 j3] eqn:Hm3. pose proof (held_after _ _ _ _ _ _ Hkept Hh2 Hm3) as Hh3.
  rewrite <- (app_assoc t calls). set (all := calls ++ [CallCleanup (er_id r) (er_cleanup r)]).
  assert (all_allowed t all) as Hall.
  { apply all_allowed_app; [done|]. simpl. split; [|done].
    exists (t ++ dc), (er_ref r), t0, dc. unfold calls. rewrite app_assoc. split_and!; [done|done| |by apply Hlive].
    unfold t. by rewrite <- app_assoc. }
  assert (scripts ([CallLiveness (er_ref r)] ++ all) = [CallCleanup (er_id r) (er_cleanup r)]) as Hs
    by (unfold all; by rewrite !scripts_app, Hcs).
  assert (∀ answer, p_cleanup ports (t ++ calls) = answer → cleanup_ran r (t0 ++ [CallLiveness (er_ref r)] ++ all) answer) as Hran.
  { intros answer Ha. eexists. split; [|exact Ha]. unfold all, t. by rewrite <- !app_assoc. }
  destruct (p_cleanup ports _) as [[]|detail]; [by apply forgotten_run; auto|].
  destruct (fail_removal_held (E := KillEnvironmentError) r from detail s3 j3 Hh3) as (s4 & j4 & Hc & Hl).
  rewrite (reg_ok_run _ _ _ _ _ _ _ _ Hc). eexists s4, j4, all, _. split; [done|]. split; [done|].
  unfold removal_ended, kill_ended. rewrite Hs. split_and!; [done|done|right; by apply Hran|done].
Qed.

(** From the claim of a removal on, once the runtime was asked. *)
Lemma claimed_run {A} r condition s j t (k : RemovalClaim → EnvironmentLiveness → KM (J := J) A) Q :
  claims_kept ports → rs_entries s !! er_ref r = Some r →
  (∀ e, refusal e = true → Q s [] (Err e)) →
  (∀ s2 j2, held r s2 → runs t (k (mkRemovalClaim (mkKillClaim (er_ref r)) (er_status r)) (p_liveness ports t)
     ((s2, j2), t ++ [CallLiveness (er_ref r)])) Q) →
  runs t (bind (reg claim_refused (begin_removal_if journal (er_ref r) condition)) (λ claim,
    bind (ask ports (CallLiveness (er_ref r)) (p_liveness ports)) (λ live, k claim live)) ((s, j), t)) Q.
Proof.
  intros Hkept Hr Herr Hk.
  destruct (begin_removal_held r condition s j Hr) as [[e He]|(s1 & j1 & Hb & Hh)].
  { rewrite (reg_err _ _ _ _ _ _ _ He). apply refusal_ended, Herr, claim_refused_refusal. }
  rewrite (reg_run _ _ _ _ _ _ _ _ _ Hb). unfold bind, ask. cbn [fst snd].
  destruct (meanwhile ports _ (s1, j1)) as [s2 j2] eqn:Hm2. apply Hk. by eapply held_after.
Qed.

Lemma runs_after {A} t c out (Q : EnvironmentRegistryState → list call → res KillEnvironmentError A → Prop) :
  allowed_after t c → runs (t ++ [c]) out (λ s calls, Q s ([c] ++ calls)) → runs t out Q.
Proof.
  intros Hc (s & j & calls & r & -> & Ha & HQ). exists s, j, (c :: calls), r. rewrite <- app_assoc. done.
Qed.

Lemma refused_ended r0 t s e : refusal e = true → removal_ended r0 t s [] (Err e).
Proof. by destruct e. Qed.

Lemma forget_if_nothing_left_run r condition s j t :
  claims_kept ports → rs_entries s !! er_ref r = Some r →
  runs t (forget_if_nothing_left journal ports r condition ((s, j), t)) (removal_ended r t).
Proof.
  intros Hkept Hr. unfold forget_if_nothing_left.
  destruct (p_disk ports) as [disk|] eqn:Hpd; [|by apply refusal_ended, refused_ended].
  apply claimed_run; [done|done|intros e; apply refused_ended|]. intros s2 j2 Hh. apply (runs_after _ (CallLiveness (er_ref r))); [done|].
  set (t1 := t ++ [CallLiveness (er_ref r)]).
  assert (∃ calls b, (if match p_liveness ports t with LiveGone => true | _ => false end then left_nothing ports r else ret false)
      (s2, j2, t1) = ((s2, j2, t1 ++ calls), Ok b) ∧ scripts calls = [] ∧ (∀ past, all_allowed past calls) ∧
      (b = true → found_nothing r (t ++ [CallLiveness (er_ref r)] ++ calls)))
    as (calls & b & Hd & Hs & Ha & Hf).
  { destruct (p_liveness ports t) eqn:Hlive; [exists [], false; by rewrite app_nil_r| |exists [], false; by rewrite app_nil_r].
    destruct (left_nothing_run r (s2, j2) t1) as (calls & b & Hd & Hs & Ha & Hyes). exists calls, b. split_and!; [done..|].
    intros ->. destruct (Hyes eq_refl) as (disk' & dir & -> & ? & ? & ?). by exists t, disk', dir; auto. }
  cbv beta zeta. unfold bind at 1. unfold KM in Hd. rewrite Hd. destruct b.
  - apply forgotten_run; [done|done|]. split; [by rewrite scripts_app, Hs|by apply Hf].
  - eapply runs_weaken; [by apply (released_run _ _ _ _ _ [CallLiveness (er_ref r)]); try done; rewrite scripts_app, Hs|]. intros ? ? ? HQ. apply HQ.
Qed.

Lemma remove_stopped_run r condition s j t :
  claims_kept ports → rs_entries s !! er_ref r = Some r → removable r = true →
  runs t (remove_stopped journal ports r condition ((s, j), t)) (removal_ended r t).
Proof.
  intros Hkept Hr Hrem. unfold remove_stopped, debug_assert. rewrite Hrem, bind_ret.
  case_bool_decide as Hmem.
  2: { exists s, j, [], Panic. rewrite app_nil_r. done. }
  rewrite bind_ret. case_bool_decide; [by apply forget_if_nothing_left_run|].
  apply claimed_run; [done|done|intros e; apply refused_ended|].
  intros s2 j2 Hh. apply (runs_after _ (CallLiveness (er_ref r))); [done|].
  destruct (p_liveness ports t) eqn:Hlive; [|by apply remove_leftovers_run..].
  destruct (removal_pending r) eqn:Hpend; [|by apply remove_leftovers_run].
  assert (er_status r = CleanupFailed) as -> by (unfold removal_pending in Hpend; by destruct (er_status r)).
  destruct (abandon_removal_held (E := KillEnvironmentError) r s2 j2 Hh) as (s3 & j3 & Hc & Hn & _ & x & Hx & _ & Hb & _).
  rewrite (reg_ok_run _ _ _ _ _ _ _ _ Hc). erewrite reg_ok_run; [|reflexivity]. cbn [fst]. rewrite Hx.
  exists s3, j3, [], (Ok (OrdinaryKill x)). rewrite app_nil_r. split; [done|]. split; [done|]. simpl.
  split; [done|]. destruct (box_fields _ _ Hb) as [-> _]. done.
Qed.

(** The kill once its target is resolved. *)
Lemma kill_resolved_run r condition s j :
  claims_kept ports → rs_entries s !! er_ref r = Some r →
  runs [] ((if removable r then
      bind (remove_stopped journal ports r condition) (λ removal,
        match removal with Removed killed => ret killed | OrdinaryKill again => ordinary_kill journal ports again condition end)
    else ordinary_kill journal ports r condition) ((s, j), [])) (kill_ended r []).
Proof.
  intros Hkept Hr. destruct (removable r) eqn:Hrem; [|by apply (ordinary_kill_run r r condition s j [] [])].
  destruct (remove_stopped_run r condition s j [] Hkept Hr Hrem) as (s1 & j1 & calls & out & Hm & Ha & HQ).
  unfold bind. rewrite Hm. destruct out as [[k|again]|e|]; [by exists s1, j1, calls, (Ok k)| |by exists s1, j1, calls, (Err e)
    |by exists s1, j1, calls, Panic].
  destruct HQ as (Hs & Hrel & He & Hb).
  destruct (ordinary_kill_run r again condition s1 j1 [] calls Hkept He Hb Hs) as (s2 & j2 & calls' & out & Hk & Ha' & HQ'); [done|].
  simpl in *. rewrite Hk. exists s2, j2, (calls ++ calls'), out. split; [done|]. split; [by apply all_allowed_app|done].
Qed.
End kill.
