(* ===== verification/EnvironmentListing.v ===== *)
(** The bounded environment listing.

    Models [domain/environments/services/environment_listing.rs]: which records
    a caller is shown, in ref order, capped, with counts for the rest. *)

From S2P Require Import Prelude EnvironmentTypes.

Inductive ListingScope := Actionable | All.

Record ListedEnvironment := mkListed {
  le_record : EnvironmentRecord;
  le_own : bool;
  le_keep_rank : N;
}.

Record EnvironmentListing := mkListing {
  el_shown : list ListedEnvironment;
  el_total : nat;
  el_hidden : nat;
  el_omitted : nat;
}.

Inductive Tier := CreatedLive | OwnRestoredLive | ForeignJoinable | CreatedStopped | Other.

(** The derived order of [Tier]: the order of its variants. *)
Definition tier_index (t : Tier) : nat :=
  match t with
  | CreatedLive => 0 | OwnRestoredLive => 1 | ForeignJoinable => 2 | CreatedStopped => 3 | Other => 4
  end.

Definition created_by_session (r : EnvironmentRecord) (session : string) : bool :=
  if decide (session = ""%string) then false else bool_decide (er_created_by r = session).

Definition is_own (r : EnvironmentRecord) (session : string) : bool :=
  match er_origin r with Created => true | Restored => created_by_session r session end.

Definition tier (r : EnvironmentRecord) (own : bool) : Tier :=
  let live := match er_status r with
              | Running | Retained | Killing | CleanupFailed => true
              | Stopped => false
              end in
  match er_origin r, live, own, is_joinable (er_status r) with
  | Created, true, _, _ => CreatedLive
  | Created, false, _, _ => CreatedStopped
  | Restored, true, true, _ => OwnRestoredLive
  | Restored, _, false, true => ForeignJoinable
  | Restored, _, _, _ => Other
  end.

Definition in_scope (scope : ListingScope) (t : Tier) : bool :=
  match scope with
  | Actionable => match t with CreatedLive | OwnRestoredLive | ForeignJoinable => true | _ => false end
  | All => true
  end.

(** [Reverse(ref_number)] of [keep_order]: numbered refs highest first, then
    the rest. *)
Definition rev_number_le (a b : option N) : Prop :=
  match a, b with
  | Some x, Some y => (y ≤ x)%N
  | Some _, None => True
  | None, Some _ => False
  | None, None => True
  end.

#[export] Instance rev_number_le_dec : RelDecision rev_number_le.
Proof. intros [x|] [y|]; simpl; apply _. Defined.

(** The order the cap keeps rows in: by tier, then [keep_order]. *)
Definition keep_le (a b : Tier * ListedEnvironment) : Prop :=
  let ra := er_ref (le_record a.2) in
  let rb := er_ref (le_record b.2) in
  tier_index a.1 < tier_index b.1 ∨
  tier_index a.1 = tier_index b.1 ∧
  (rev_number_le (ref_number ra) (ref_number rb) ∧ ref_number ra ≠ ref_number rb ∨
   ref_number ra = ref_number rb ∧ key_le ra rb).

#[export] Instance keep_le_dec : RelDecision keep_le.
Proof. intros a b. unfold keep_le. apply _. Defined.

(** [ref_order]. *)
Definition ref_le (a b : ListedEnvironment) : Prop :=
  let ra := er_ref (le_record a) in
  let rb := er_ref (le_record b) in
  let na := default u64_max (ref_number ra) in
  let nb := default u64_max (ref_number rb) in
  (na < nb)%N ∨ na = nb ∧ key_le ra rb.

#[export] Instance ref_le_dec : RelDecision ref_le.
Proof. intros a b. unfold ref_le. apply _. Defined.

(** One row, its keep rank [usize::MAX] until the cap has been applied. *)
Definition listed (session : string) (r : EnvironmentRecord) : Tier * ListedEnvironment :=
  let own := is_own r session in (tier r own, mkListed r own u64_max).

(** [select_listing]; [None] when an assertion fails. *)
Definition select_listing (records : list EnvironmentRecord) (session : string) (scope : ListingScope)
    (limit : nat) : option EnvironmentListing :=
  if decide (limit = 0) then None
  else
    let total := length records in
    let rows := filter (λ row, in_scope scope row.1 = true) (listed session <$> records) in
    let hidden := total - length rows in
    let kept := stable_sort keep_le rows in
    let omitted := length kept - limit in
    let shown := imap (λ keep_rank row, mkListed (le_record row.2) (le_own row.2) (N.of_nat keep_rank)) (take limit kept) in
    let shown := stable_sort ref_le shown in
    if decide (length shown + hidden + omitted = total) then Some (mkListing shown total hidden omitted) else None.

#[export] Instance keep_le_trans : Transitive keep_le.
Proof.
  intros [t1 a] [t2 b] [t3 c]. unfold keep_le. simpl.
  generalize (er_ref (le_record a)), (er_ref (le_record b)), (er_ref (le_record c)). intros x y z.
  intros [H1|(H1 & H2)] [H3|(H3 & H4)]; [left; lia..|]. right. split; [lia|].
  destruct H2 as [[H2 H2']|[H2 H2']], H4 as [[H4 H4']|[H4 H4']].
  - left. destruct (ref_number x) as [nx|], (ref_number y) as [ny|], (ref_number z) as [nz|]; simpl in *; try done.
    split; [lia|]. intros [= ->]. apply H2'. f_equal. lia.
  - left. by rewrite <- H4.
  - left. by rewrite H2.
  - right. split; [congruence|]. by etransitivity.
Qed.

#[export] Instance keep_le_total : Total keep_le.
Proof.
  intros [t1 a] [t2 b]. unfold keep_le. simpl.
  generalize (er_ref (le_record a)), (er_ref (le_record b)). intros x y.
  destruct (Nat.lt_trichotomy (tier_index t1) (tier_index t2)) as [?|[?|?]]; [by left; left| |by right; left].
  destruct (decide (ref_number x = ref_number y)) as [Heq|Hne].
  - destruct (total key_le x y); [left|right]; right; split; try done; by right.
  - assert (rev_number_le (ref_number x) (ref_number y) ∨ rev_number_le (ref_number y) (ref_number x)) as [?|?].
    { destruct (ref_number x), (ref_number y); simpl; try lia; by auto. }
    + left. right. split; [done|]. by left.
    + right. right. split; [done|]. left. by split.
Qed.

#[export] Instance ref_le_trans : Transitive ref_le.
Proof.
  intros a b c. unfold ref_le. intros [H1|[H1 H1']] [H2|[H2 H2']]; [left; lia..|].
  right. split; [congruence|]. by etransitivity.
Qed.

#[export] Instance ref_le_total : Total ref_le.
Proof.
  intros a b. unfold ref_le. set (x := er_ref (le_record a)). set (y := er_ref (le_record b)).
  destruct (N.lt_trichotomy (default u64_max (ref_number x)) (default u64_max (ref_number y))) as [?|[?|?]];
    [by left; left| |by right; left].
  destruct (total key_le x y); [left|right]; right; by split.
Qed.
