(* ===== verification/EnvironmentProps.v ===== *)
(** The properties of environments: who may end one, what its ref is worth, what
    another session's changes come to, and what becomes of it when its last
    member leaves. *)

From S2P Require Import Prelude EnvironmentTypes EnvironmentRegistry EnvironmentClaims EnvironmentStore.
From S2P Require Import EnvironmentRetention EnvironmentFinalize EnvironmentListing.

(** * Concrete environments the witnesses use *)

Definition demo_record (ref : string) (origin : EnvironmentOrigin) (status : EnvironmentStatus) : EnvironmentRecord :=
  mkRecord ref "env-1" "uuid-1" (Some "alpha"%string) "/w" "repo" "official" ["exec"%string] ["kill"%string]
    ["cleanup"%string] ["inspect"%string] [] status (Object ∅) None origin "cli:one" (Some 7%N).

(** A document with one running environment, and a store over it. *)
Definition demo_document (status : EnvironmentStatus) : Document :=
  mkDocument 1 ∅ {[ "C1"%string := to_wire (demo_record "C1" Restored status) ]}.
Definition demo_store (status : EnvironmentStatus) : FileStore := mkStore (Valid (demo_document status)) None None 1000.
Definition demo_journal : EnvironmentJournal FileStore := store_journal (λ rs s, (s, rs)).

(** A session that created [C1] and holds its kill claim. *)
Definition demo_created : config FileStore :=
  mkConfig (commit_locked (demo_record "C1" Created Running) RegistryState_default) (demo_store Running) [] None.
Definition demo_killing : config FileStore :=
  on_state (take_claim "C1" (cf_state demo_created)) [KillToken (mkKillClaim "C1")] demo_created.

Lemma reachable_created : reachable (Some demo_journal) ∅ demo_created.
Proof.
  eapply reach_step; [apply (reach_start _ [])|].
  apply (St_commit _ (mkConfig RegistryState_default (demo_store Running) [] None) (demo_record "C1" Created Running)).
  - done.
  - by split_and!.
Qed.

Lemma reachable_killing : reachable (Some demo_journal) ∅ demo_killing.
Proof.
  eapply reach_step; [apply reachable_created|].
  apply (St_begin_kill _ demo_created "C1" Any). reflexivity.
Qed.

(** * Claims *)

(** C15: the kill claim is exclusive: under every interleaving, an environment
    this session created has at most one claim outstanding, exactly while it is
    being killed; and while it is, no join, no second kill, no removal and no
    departing member gets past it.  The one exception is a ref that was committed again while
    a claim on an earlier record of it could be out, as after a launch that rolled back. *)
Theorem kill_claim_exclusive {J} (journal : option (EnvironmentJournal J)) reused c k r :
  reachable journal reused c → k ∉ reused → rs_entries (cf_state c) !! k = Some r → er_origin r = Created →
  length (held_on k (cf_tokens c)) ≤ 1 ∧
  (er_status r = Killing ↔ held_on k (cf_tokens c) ≠ []) ∧
  (er_status r = Killing → ∀ w, w.1 = cf_state c →
     (∀ a, add_member (J := J) k a w = (w, Err (Stale k))) ∧
     (∀ cond, ∃ e, begin_kill_if journal k cond w = (w, Err e)) ∧
     (∀ cond, ∃ e, begin_removal_if journal k cond w = (w, Err e)) ∧
     (∀ a, (remove_member journal k a w).2 = Ok None)).
Proof.
  intros Hreach Hx Hr Ho. pose proof (co_records _ c (reachable_ok journal reused c Hreach) k r Hr) as Hrec.
  assert (er_ref r = k) as Hk by apply Hrec.
  destruct (held_created _ _ _ _ Hrec Hx Ho) as [[Hst' [t ->]]|[Hst' ->]]; (split_and!; [simpl; lia|done|]); [|done].
  - intros Hst [s j]. simpl. intros ->. split_and!.
    + intros a. unfold add_member, locked. cbn [fst snd]. by rewrite add_member_spec, Hr, Hst, Hk.
    + intros cond. unfold begin_kill_if, bind, locked. cbn [fst snd]. rewrite begin_kill_spec, Hr.
      destruct (judge cond r); [by eexists|]. unfold claimable. rewrite Hst, Ho. by eexists.
    + intros cond. unfold begin_removal_if, bind, locked. cbn [fst snd]. rewrite begin_removal_spec, Hr.
      destruct (judge cond r); [by eexists|]. unfold removable, is_plain_stopped, removal_pending. rewrite Hst. by eexists.
    + intros a. unfold remove_member, bind, locked. cbn [fst snd]. rewrite remove_member_spec, Hr, Hst.
      cbv zeta. by rewrite (bool_decide_eq_false_2 (Killing = Running)), andb_false_r by done.
Qed.

Lemma kill_claim_exclusive_witness :
  ∃ e, begin_kill_if (Some demo_journal) "C1" Any (cf_state demo_killing, demo_store Running)
       = ((cf_state demo_killing, demo_store Running), Err e).
Proof.
  refine (proj1 (proj2 (proj2 (proj2 (kill_claim_exclusive (Some demo_journal) ∅ demo_killing "C1"
    (demo_record "C1" Created Killing) reachable_killing _ _ _)) _ _ _)) Any); [set_solver|by vm_compute..].
Defined.

(** A departing member claims the teardown exactly when it was the last
    one of a running environment this session created; a restored environment
    is never torn down by a joiner's exit, and a departure that claims nothing
    changes nothing but the members. *)
Theorem last_member_claims {J} (journal : option (EnvironmentJournal J)) s j k a r :
  rs_entries s !! k = Some r →
  ((remove_member journal k a (s, j)).2 = Ok (Some (mkKillClaim k)) ↔
   er_origin r = Created ∧ er_status r = Running ∧ ∀ m, m ∈ er_members r → m = a) ∧
  ((remove_member journal k a (s, j)).2 ≠ Ok (Some (mkKillClaim k)) →
   remove_member journal k a (s, j) =
     ((with_record k (set_members (filter (λ m, m ≠ a) (er_members r))) s, j), Ok None)).
Proof.
  intros Hr. unfold remove_member, bind, locked. cbn [fst snd]. rewrite remove_member_spec, Hr. cbv zeta.
  assert (filter (λ m, m ≠ a) (er_members r) = [] ↔ ∀ m, m ∈ er_members r → m = a) as Hempty.
  { split.
    - intros Hnil m Hm. destruct (decide (m = a)) as [|Hne]; [done|].
      assert (m ∈ filter (λ m, m ≠ a) (er_members r)) as Hin by by apply list_elem_of_filter.
      rewrite Hnil in Hin. by apply not_elem_of_nil in Hin.
    - intros Hall. apply elem_of_nil_inv. intros m [Hne Hm]%list_elem_of_filter. by apply Hne, Hall. }
  destruct (_ && _) eqn:Hb.
  - apply andb_true_iff in Hb as [[Hm%bool_decide_eq_true Hst%bool_decide_eq_true]%andb_true_iff Ho%bool_decide_eq_true].
    set (s' := take_claim _ _). set (r' := set_status Killing (set_members (filter (λ m, m ≠ a) (er_members r)) r)).
    destruct (journal_ref_created (E := EnvironmentLookupError) journal k r' s' j) as [j' Hj].
    { subst s' r'. unfold take_claim, with_record. simpl. rewrite lookup_alter, lookup_alter, Hr, !decide_True by done. done. }
    { done. }
    rewrite Hj. simpl. split; [|done]. split; [|done]. intros _. split_and!; [done..|by apply Hempty].
  - simpl. split; [|done]. split; [done|]. intros (Ho & Hst & Hall). exfalso.
    rewrite (proj2 Hempty Hall), Ho, Hst in Hb. done.
Qed.

Lemma last_member_claims_witness :
  (remove_member (Some demo_journal) "C1" "agent" (cf_state demo_created, demo_store Running)).2
  = Ok (Some (mkKillClaim "C1")).
Proof.
  refine (proj2 (proj1 (last_member_claims (Some demo_journal) (cf_state demo_created) (demo_store Running) "C1" "agent"
    (demo_record "C1" Created Running) _)) _).
  - by vm_compute.
  - split_and!; [done..|]. intros m Hm. destruct (not_elem_of_nil _ Hm).
Defined.

(** * Refs *)

Lemma highest_held_spec s k r n :
  rs_entries s !! k = Some r → ref_number k = Some n → (n ≤ highest_held s)%N.
Proof.
  intros Hk Hn. unfold highest_held, iter_max.
  assert (n ∈ omap ref_number (btree_keys (rs_entries s))) as Hin.
  { apply list_elem_of_omap. exists k. split; [|done]. apply elem_of_btree_keys. by exists r. }
  destruct (omap _ _) as [|x l]; [by apply not_elem_of_nil in Hin|]. simpl.
  destruct (foldl_max_spec l x) as (_ & Hx & Hl). apply elem_of_cons in Hin as [->|Hin]; [done|by apply Hl].
Qed.

(** A minted ref is fresh: whatever the journal answers, a ref handed out
    is [C] followed by a number above every ref this session still holds, so no
    record is held under it; and minting changes no record. *)
Theorem minted_ref_fresh {J} (j : EnvironmentJournal J) `{!LawfulJournal j} (durable : bool) reused c w' k :
  let journal := if durable then Some j else None in
  reachable journal reused c → mint_ref journal (cf_state c, cf_journal c) = (w', Ok k) →
  rs_entries w'.1 = rs_entries (cf_state c) ∧ rs_entries (cf_state c) !! k = None ∧
  ∃ n, k = format_ref n ∧ ref_number k = Some n ∧
    ∀ k' r' n', rs_entries (cf_state c) !! k' = Some r' → ref_number k' = Some n' → (n' < n)%N.
Proof.
  intros journal Hreach. pose proof (reachable_books journal reused c Hreach) as [_ Hcount]. intros Hmint.
  assert (rs_entries w'.1 = rs_entries (cf_state c) ∧ ∃ n, k = format_ref n ∧ u64_ok n ∧
    ∀ k' r' n', rs_entries (cf_state c) !! k' = Some r' → ref_number k' = Some n' → (n' < n)%N) as (He & n & -> & Hn & Hlt).
  { subst journal. unfold mint_ref in Hmint. destruct durable.
    - unfold bind, locked, gets in Hmint. cbn [fst snd] in Hmint. unfold ok_or in Hmint.
      destruct (u64_checked_add (highest_held (cf_state c)) 1) as [floor|] eqn:Hf; [|done]. unfold ret in Hmint.
      unfold throw, modify in Hmint. cbn in Hmint.
      destruct (allocate_ref j floor (cf_journal c)) as [j' [number|e]] eqn:Ha; [|done].
      destruct (number <? floor)%N eqn:Hlow; [done|]. injection Hmint as <- <-. split; [done|]. exists number.
      apply lj_allocated in Ha. split_and!; [done..|]. intros k' r' n' Hk' Hn'.
      pose proof (highest_held_spec _ _ _ _ Hk' Hn'). apply u64_checked_add_Some in Hf as [-> _]. lia.
    - unfold bind, locked, gets in Hmint. cbn [fst snd] in Hmint. unfold expect in Hmint.
      destruct (u64_add (rs_next_ref (cf_state c)) 1) as [n|] eqn:Hn; [|done]. injection Hmint as <- <-.
      apply u64_checked_add_Some in Hn as [-> Hok]. split; [done|]. eexists. split_and!; [done..|].
      intros k' r' n' Hk' Hn'. specialize (Hcount eq_refl k' r' n' Hk' Hn'). lia. }
  pose proof (ref_number_format n Hn) as Hnum. split_and!; [done| |by exists n].
  destruct (rs_entries (cf_state c) !! format_ref n) as [r|] eqn:Hr; [|done].
  pose proof (Hlt _ _ _ Hr Hnum). lia.
Qed.

Lemma minted_ref_fresh_witness : rs_entries (cf_state demo_created) !! "C2" = None.
Proof.
  destruct (mint_ref (Some demo_journal) (cf_state demo_created, cf_journal demo_created)) as [w' r] eqn:Hm.
  assert (r = Ok "C2"%string) as -> by (vm_compute in Hm; congruence).
  exact (proj1 (proj2 (minted_ref_fresh demo_journal true ∅ demo_created w' "C2" reachable_created Hm))).
Defined.

(** ** Numbers shared by every session of a base directory *)

(** What any session may do to the shared store. *)
Inductive store_op :=
| OpAllocate (floor : N)
| OpRelease (number : N)
| OpRecord (r : EnvironmentRecord)
| OpCorrect (r : EnvironmentRecord) (expected : EnvironmentStatus)
| OpForget (r : EnvironmentRecord)
| OpClock (now : N)
| OpFaults (lock write : option string).

Definition store_exec (s : FileStore) (o : store_op) : FileStore :=
  match o with
  | OpAllocate floor => (store_allocate_ref floor s).1
  | OpRelease number => (store_release_ref number s).1
  | OpRecord r => (store_record r s).1
  | OpCorrect r expected => (store_correct r expected s).1
  | OpForget r => (store_forget r s).1
  | OpClock now => mkStore (fs_file s) (fs_lock_error s) (fs_write_error s) now
  | OpFaults lock write => mkStore (fs_file s) lock write (fs_now s)
  end.

(** Operations that do not give the number [n], minted at [minted], back. *)
Definition leaves_number (n minted : N) (o : store_op) : Prop :=
  match o with
  | OpRelease number => number ≠ n
  | OpForget r => ref_number (er_ref r) ≠ Some n
  | OpClock now => unexpired now (n, minted)
  | _ => True
  end.

(** [n] is on file: minted and not settled, or recorded. *)
Definition on_books (n minted : N) (d : Document) : Prop :=
  doc_pending d !! n = Some minted ∨ ∃ k w, doc_environments d !! k = Some w ∧ ref_number k = Some n.

Definition reserved (n minted : N) (s : FileStore) : Prop :=
  unexpired (fs_now s) (n, minted) ∧ ∃ d, read s = inl d ∧ on_books n minted d.

Lemma reserved_update {T} n minted (change : Document → Document * T) s :
  (∀ d, on_books n minted d → on_books n minted (change d).1) → reserved n minted s → reserved n minted (update change s).1.
Proof.
  intros Hc (Hu & d & Hd & Hb). destruct (update change s) as [s' x] eqn:Hrun.
  apply update_inv in Hrun as [(d' & Hd' & -> & _)|[-> _]]; [|by split; [|exists d]].
  rewrite Hd in Hd'. injection Hd' as <-. split; [done|]. eexists. split; [reflexivity|]. by apply Hc.
Qed.

Lemma on_books_allocate n minted now floor d :
  unexpired now (n, minted) → on_books n minted d → on_books n minted (allocate_change now floor d).1.
Proof.
  intros Hu Hb. destruct (allocate_change now floor d) as [d' [m|e]] eqn:Hc; simpl.
  - pose proof (allocate_change_spec _ _ _ _ _ Hc) as (_ & _ & _ & Hp & He & Hd'). destruct Hb as [Hb|Hb].
    + left. rewrite Hd'. specialize (Hp n minted Hb Hu). rewrite lookup_insert_ne by lia.
      by apply map_lookup_filter_Some.
    + right. by rewrite He.
  - unfold allocate_change in Hc. case_match; [done|]. injection Hc as <- _. destruct Hb as [Hb|Hb]; [left|by right].
    by apply map_lookup_filter_Some.
Qed.

Lemma on_books_record n minted r d : on_books n minted d → on_books n minted (record_change r d).1.
Proof.
  intros Hb. unfold record_change. case_match; [done|].
  assert (∀ k w, doc_environments d !! k = Some w → ∃ w', <[er_ref r := to_wire r]> (doc_environments d) !! k = Some w') as Hdom.
  { intros k w Hk. destruct (decide (er_ref r = k)) as [<-|Hne]; [rewrite lookup_insert_eq; eauto|].
    rewrite lookup_insert_ne by done. eauto. }
  destruct Hb as [Hb|(k & w & Hk & Hn)].
  - destruct (ref_number (er_ref r)) as [number|] eqn:Hnum; simpl; [|by left]. destruct (decide (number = n)) as [->|Hne].
    + right. exists (er_ref r), (to_wire r). simpl. by rewrite lookup_insert_eq.
    + left. simpl. by rewrite lookup_delete_ne.
  - right. destruct (Hdom k w Hk) as [w' Hw']. exists k, w'. by destruct (ref_number (er_ref r)).
Qed.

Lemma reserved_exec n minted s o : leaves_number n minted o → reserved n minted s → reserved n minted (store_exec s o).
Proof.
  intros Ho Hr. destruct o as [floor|number|r|r expected|r|now|lock write]; simpl in *.
  - assert (reserved n minted (update (allocate_change (fs_now s) floor) s).1) as H.
    { apply reserved_update; [|done]. intros d. apply on_books_allocate, Hr. }
    unfold store_allocate_ref. by destruct (update _ s).
  - apply reserved_update; [|done]. intros d [Hb|Hb]; [left|by right]. simpl. by rewrite lookup_delete_ne.
  - assert (reserved n minted (update (record_change r) s).1) as H.
    { apply reserved_update; [|done]. intros d. apply on_books_record. }
    unfold store_record. by destruct (update _ s).
  - destruct (store_correct r expected s) as [s' x] eqn:Hc. simpl.
    apply store_correct_inv in Hc as [(-> & _)|[(-> & _)|(d & w & Hd & Hw & _ & [(-> & _)|(_ & _ & ->)])]]; [done..|].
    destruct Hr as (Hu & d' & Hd' & Hb). rewrite Hd in Hd'. injection Hd' as <-. split; [done|]. eexists. split; [reflexivity|].
    destruct Hb as [Hb|(k & wk & Hk & Hn)]; [by left|right]. simpl.
    destruct (decide (er_ref r = k)) as [<-|Hne].
    + exists (er_ref r). rewrite lookup_insert_eq. eauto.
    + exists k. rewrite lookup_insert_ne by done. eauto.
  - apply reserved_update; [|done]. intros d Hb. simpl. destruct (match doc_environments d !! er_ref r with Some _ => _ | None => _ end); [|done].
    destruct Hb as [Hb|(k & w & Hk & Hn)]; [by left|right]. exists k, w. simpl. split; [|done].
    rewrite lookup_delete_ne; [done|]. intros <-. done.
  - destruct Hr as (_ & d & Hd & Hb). by split; [|exists d].
  - destruct Hr as (Hu & d & Hd & Hb). by split; [|exists d].
Qed.

(** C16: an allocated number is nobody else's: whatever the sessions sharing
    the store do in between, and whenever the lock or the disk fails them, as
    long as the number is not released, its record not forgotten and its mint
    not an hour old, every later allocation returns a higher number. *)
Theorem allocated_ref_reserved floor s s1 n ops floor' s2 m :
  store_allocate_ref floor s = (s1, inl n) → Forall (leaves_number n (fs_now s)) ops →
  store_allocate_ref floor' (foldl store_exec s1 ops) = (s2, inl m) → (n < m)%N.
Proof.
  intros Ha Hops Hb.
  assert (reserved n (fs_now s) s1) as Hres.
  { apply store_allocate_inv in Ha as (d & d' & _ & Hc & ->). split; [unfold unexpired, u64_saturating_sub; simpl; lia|].
    exists d'. split; [done|]. left. apply allocate_change_spec in Hc as (_ & _ & _ & _ & _ & ->). by rewrite lookup_insert_eq. }
  assert (reserved n (fs_now s) (foldl store_exec s1 ops)) as (Hu & d & Hd & Hbooks).
  { clear Ha Hb. revert s1 Hres. induction Hops as [|o ops Ho _ IH]; intros s1 Hres; simpl; [done|].
    apply IH. by apply reserved_exec. }
  apply store_allocate_inv in Hb as (d0 & d' & Hd0 & Hc & _). rewrite Hd in Hd0. injection Hd0 as <-.
  apply allocate_change_spec in Hc as (_ & _ & Hrec & Hpend & _). destruct Hbooks as [Hp|(k & w & Hk & Hn)]; [|by eapply Hrec].
  by apply (Hpend n (fs_now s)).
Qed.

Lemma allocated_ref_reserved_witness :
  ∃ s1 s2, store_allocate_ref 0 (demo_store Running) = (s1, inl 2%N) ∧ store_allocate_ref 0 s1 = (s2, inl 3%N) ∧ (2 < 3)%N.
Proof.
  destruct (store_allocate_ref 0 (demo_store Running)) as [s1 r] eqn:H1.
  assert (r = inl 2%N) as -> by (vm_compute in H1; congruence).
  destruct (store_allocate_ref 0 s1) as [s2 r'] eqn:H2.
  assert (r' = inl 3%N) as ->.
  { vm_compute in H1. injection H1 as <-. vm_compute in H2. congruence. }
  exists s1, s2. split_and!; [reflexivity|exact H2|].
  exact (allocated_ref_reserved 0 (demo_store Running) s1 2 [] 0 s2 3 H1 (Forall_nil _) H2).
Defined.

(** * What another session did *)

(** Another session's change is never reverted: when this session reports
    a record it did not create, the file changes only under that ref, only
    where it still holds the same environment in the status this session last
    knew, and keeps the metadata keys this session never saw; otherwise the
    file is left alone and what stands there is adopted, unless this session
    holds the record's kill claim. *)
Theorem restored_write_never_reverts {J} (j : EnvironmentJournal J) `{!LawfulJournal j} reused c k r :
  reachable (Some j) reused c → rs_entries (cf_state c) !! k = Some r → er_origin r = Restored →
  let s := cf_state c in
  let f := cf_journal c in
  let w' := (journal_ref (E := string) (Some j) k (s, f)).1 in
  ∃ known, rs_journalled s !! k = Some known ∧
  (∀ k', on_file w'.2 k' ≠ on_file f k' →
     k' = k ∧ ∃ md, on_file f k = Some (er_uuid r, known, md) ∧
       on_file w'.2 k = Some (er_uuid r, er_status r, merge_metadata md (er_metadata r))) ∧
  (∀ current md, (recorded j r (Some known) f).2 = Superseded current md →
     w'.2 = f ∧ rs_journalled w'.1 !! k = Some current ∧
     (k ∉ rs_kill_claims s →
        rs_entries w'.1 !! k = Some (set_metadata (merge_metadata md (er_metadata r)) (set_status current r))) ∧
     (k ∈ rs_kill_claims s → rs_entries w'.1 = rs_entries s)).
Proof.
  intros Hreach Hr Ho s f w'. destruct (bo_journalled _ _ (reachable_books _ _ _ Hreach) k r Hr Ho) as [known Hknown].
  assert (er_ref r = k) as Hk by by eapply (co_records _ _ (reachable_ok _ _ _ Hreach)).
  exists known. split; [done|]. subst w' s f. unfold journal_ref, journal_snapshot. cbn [fst snd].
  rewrite Hr. simpl. rewrite Ho, Hknown. destruct (recorded j r (Some known) (cf_journal c)) as [f' outcome] eqn:Hw. simpl.
  destruct outcome as [|current md|].
  - destruct (lj_written _ _ _ _ Hw) as (md & H1 & H2 & H3). rewrite Hk in *. split; [|done].
    intros k' Hne. destruct (decide (k' = k)) as [->|Hk']; [|by rewrite H3 in Hne]. split; [done|]. by exists md.
  - destruct (lj_superseded _ _ _ _ _ _ Hw) as [-> _]. split; [by intros k' []|]. intros ? ? [= <- <-].
    split; [done|]. unfold journal_settle. rewrite Ho. split; [simpl; by rewrite lookup_insert_eq|]. split; intros Hc; simpl.
    + rewrite decide_False by done. simpl. rewrite lookup_alter, decide_True by done. by rewrite Hr.
    + by rewrite decide_True.
  - rewrite (lj_unavailable _ _ _ _ Hw). split; [by intros k' []|done].
Qed.

(** A session that inherited [C1] running, while its creator retained it. *)
Definition demo_inherited : config FileStore :=
  mkConfig (seed_locked [demo_record "C1" Restored Running] RegistryState_default) (demo_store Retained) [] None.

Lemma restored_write_never_reverts_witness :
  rs_entries (journal_ref (E := string) (Some demo_journal) "C1" (cf_state demo_inherited, demo_store Retained)).1.1 !! "C1"%string
  = Some (demo_record "C1" Restored Retained).
Proof.
  destruct (restored_write_never_reverts demo_journal ∅ demo_inherited "C1" (demo_record "C1" Restored Running)) as (known & Hk & _ & Hs).
  - apply (reach_start _ [demo_record "C1" Restored Running]).
  - by vm_compute.
  - reflexivity.
  - assert (known = Running) as -> by (vm_compute in Hk; congruence).
    destruct (Hs Retained (Object ∅)) as (_ & _ & H & _); [by vm_compute|].
    exact (H ltac:(by vm_compute)).
Defined.

(** * Resolving a target *)

(** The records a name may mean: not stopped, of that name. *)
Definition live_named (name : string) (r : EnvironmentRecord) : Prop :=
  er_name r = Some name ∧ er_status r ≠ Stopped.

#[export] Instance live_named_dec name r : Decision (live_named name r).
Proof. unfold live_named. apply _. Defined.




(** * The last member leaves *)

Lemma departure_cases {J} (journal : option (EnvironmentJournal J)) k a s j :
  (∃ r s' j', rs_entries s !! k = Some r ∧ er_origin r = Created ∧ er_status r = Running ∧
     (∀ m, m ∈ er_members r → m = a) ∧
     rs_entries s' !! k = Some (set_status Killing (set_members [] r)) ∧
     remove_member journal k a (s, j) = ((s', j'), Ok (Some (mkKillClaim k)))) ∨
  (∃ s' out, remove_member journal k a (s, j) = ((s', j), out) ∧ (∀ claim, out ≠ Ok (Some claim)) ∧
     (settled k s → settled k s')).
Proof.
  unfold remove_member, bind, locked. cbn [fst snd]. rewrite remove_member_spec.
  destruct (rs_entries s !! k) as [r|] eqn:Hr; [|right; by eexists _, _]. cbv zeta.
  destruct (_ && _) eqn:Hb.
  - left. apply andb_true_iff in Hb as [[Hm%bool_decide_eq_true Hst%bool_decide_eq_true]%andb_true_iff Ho%bool_decide_eq_true].
    rewrite Hm. set (s' := take_claim _ _).
    assert (rs_entries s' !! k = Some (set_status Killing (set_members [] r))) as Hs'.
    { subst s'. unfold take_claim, with_record. simpl. rewrite lookup_alter, lookup_alter, Hr, !decide_True by done. done. }
    destruct (journal_ref_created (E := EnvironmentLookupError) journal k _ s' j Hs' Ho) as [j' Hj].
    exists r, s', j'. split_and!; [done..| |done|by rewrite Hj].
    intros m Hin. destruct (decide (m = a)) as [|Hne]; [done|].
    assert (m ∈ filter (λ m, m ≠ a) (er_members r)) as H by by apply list_elem_of_filter. rewrite Hm in H. by apply not_elem_of_nil in H.
  - right. eexists _, _. split_and!; [done..|]. intros Hset r'. simpl. rewrite lookup_alter, Hr, decide_True by done.
    intros [= <-]. by apply (Hset r).
Qed.

(** C17: an unfinished swarm's box survives its last member: the handler runs
    the kill or the cleanup at most once and only when it held the claim (the
    member was the last of a running environment of this session) and either
    the end is no inspectable one (the owner's teardown of everything, a launch
    rollback), or what it observed keeps nothing: no store, a store it could
    not look for on any end but the owner's, or a run that is not a created one
    its owner has left open (or that the owner closed meanwhile).  A store that
    cannot be read always keeps the box.  It never panics, and leaves nothing
    half killed. *)
Theorem unfinished_swarm_kept {J Board} (journal : option (EnvironmentJournal J)) (ports : Ports (Board := Board))
    reused c k agent label plan mode :
  reachable journal reused c →
  let s := cf_state c in
  let out := finalize_labelled_member journal ports k agent label plan mode ((s, cf_journal c), []) in
  let trace := out.1.2 in
  out.2 = Ok tt ∧
  length (filter (λ x, tears_down x = true) trace) ≤ 1 ∧
  (existsb tears_down trace = true →
     may_tear_down ports mode trace ∧
     ∃ r, rs_entries s !! k = Some r ∧ er_origin r = Created ∧ er_status r = Running ∧ ∀ m, m ∈ er_members r → m = agent) ∧
  (∀ r, rs_entries s !! k = Some r → er_origin r = Created → er_status r ≠ Killing → settled k out.1.1.1).
Proof.
  intros Hreach s out trace. pose proof (reachable_ok journal reused c Hreach) as Hok.
  assert (∃ s1 j1 c1, (if decide (mode = Exit) then inspect_once journal ports k agent else ret tt) ((s, cf_journal c), [])
     = (((s1, j1), c1), Ok tt) ∧ harmless c1 ∧ keeps_record k s s1) as (s1 & j1 & c1 & Hrun1 & Hh1 & Hkeep).
  { case_decide; [|by exists s, (cf_journal c), []; split_and!; [done|constructor|apply keeps_record_refl]].
    destruct (inspect_once_run journal ports k agent s (cf_journal c) []) as (s1 & j1 & c1 & ? & ? & ?).
    by exists s1, j1, c1. }
  assert (length (filter (λ x, tears_down x = true) c1) ≤ 1 ∧ existsb tears_down c1 = false) as [Hc1 Hc1'].
  { split; [by rewrite tear_count_harmless; [lia|]|]. apply not_true_iff_false. intros (x & Hin%list_elem_of_In & Hx)%existsb_exists.
    pose proof (proj1 (list.Forall_forall _ _) Hh1 x Hin). simpl in *. congruence. }
  destruct (departure_cases journal k agent s1 j1)
    as [(r1 & s2 & j2 & Hr1 & Ho & Hst & Hm & Hs2 & Hrun2)|(s2 & res2 & Hrun2 & Hno & Hset)].
  - destruct (Hkeep r1 Hr1) as (r & Hr & Href & Hor & Hsame). destruct (Hsame ltac:(congruence)) as [Hst' Hm'].
    assert (er_ref r = k) as Hk by by eapply (co_records _ _ Hok).
    set (rec := set_status Killing (set_members [] r1)) in *.
    destruct (settle_claim_run journal ports k rec label plan mode s2 j2 c1) as (calls & (Hout & Hsettled & Htrace) & Hlen & Hmay).
    { by exists rec. }
    { simpl. congruence. }
    assert (out = settle_claim journal ports (mkKillClaim k) rec label plan mode (s2, j2, c1)) as Heq.
    { subst out. unfold finalize_labelled_member. rewrite (bind_ok _ _ _ _ _ Hrun1).
      erewrite bind_ok; [|unfold reg; cbn [fst snd]; rewrite Hrun2; reflexivity]. cbn [fst snd].
      erewrite bind_ok; [|unfold reg, get, locked, gets; cbn [fst snd]; rewrite Hs2; reflexivity]. done. }
    subst trace. clearbody out. subst out. cbn [fst snd] in *. unfold world in Htrace. rewrite Htrace. split_and!; [done| | |done].
    + rewrite list.filter_app, length_app, tear_count_harmless by done. done.
    + rewrite existsb_app, Hc1'. simpl. intros H. split; [by apply Hmay|]. exists r. split_and!; [done|congruence..|]. by rewrite <- Hm'.
  - assert (out = (((s2, j1), c1), Ok tt)) as Heq.
    { subst out. unfold finalize_labelled_member. rewrite (bind_ok _ _ _ _ _ Hrun1).
      erewrite bind_ok; [|unfold reg; cbn [fst snd]; rewrite Hrun2; reflexivity]. cbn [fst snd].
      destruct res2 as [[claim|]|e|]; [by destruct (Hno claim)|done..]. }
    subst trace. clearbody out. subst out. simpl. split_and!; [done..|by rewrite Hc1'|]. intros r Hr Hor Hnk. apply Hset.
    intros r1 Hr1. destruct (Hkeep r1 Hr1) as (r0 & Hr0 & _ & _ & Hsame). assert (r0 = r) as -> by congruence.
    destruct (Hsame Hor) as [-> _]. done.
Qed.

(** Ports that observe a created run its owner has left open. *)
Definition demo_run : HostedSwarmRun :=
  mkHosted "run-1" Run.Running None "coordinator" (SpecFloat.S754_finite false 1 10).
Definition demo_ports : Ports (Board := unit) :=
  mkPorts (λ _, inl (Object ∅)) (λ _, ObservedRun demo_run) (λ _, inl (mkLoss demo_run true)) None None (λ _, inl tt) (λ _, inl tt).

Lemma unfinished_swarm_kept_witness :
  let out := finalize_labelled_member (Some demo_journal) demo_ports "C1" "agent" None None Exit
               ((cf_state demo_created, demo_store Running), []) in
  out.2 = Ok tt ∧ settled "C1" out.1.1.1 ∧ existsb tears_down out.1.2 = false.
Proof.
  destruct (unfinished_swarm_kept (Some demo_journal) demo_ports ∅ demo_created "C1" "agent" None None Exit reachable_created)
    as (H1 & _ & _ & H4).
  split_and!.
  - exact H1.
  - exact (H4 (demo_record "C1" Created Running) ltac:(by vm_compute) eq_refl ltac:(done)).
  - by vm_compute.
Defined.

(** * Listing *)

(** The rows a listing chooses from. *)
Definition rows_in_scope (records : list EnvironmentRecord) (session : string) (scope : ListingScope)
    : list (Tier * ListedEnvironment) :=
  filter (λ row, in_scope scope row.1 = true) (listed session <$> records).

Lemma fmap_shown l n :
  le_record <$> imap (λ i (row : Tier * ListedEnvironment), mkListed (le_record row.2) (le_own row.2) (N.of_nat (n + i))) l
  = (λ row, le_record row.2) <$> l.
Proof.
  revert n. induction l as [|row l IH]; intros n; [done|]. rewrite imap_cons, !fmap_cons. f_equal.
  rewrite <- (IH (S n)). f_equal. apply imap_ext. intros i x _. simpl. by replace (n + S i) with (S (n + i)) by lia.
Qed.

(** A listing is bounded, complete and keeps what matters: no assertion
    fails; every record is counted shown, hidden or omitted; at most [limit]
    rows are shown, in ref order; and the shown records are those of the rows
    in scope that rank before every row left out. *)
Theorem listing_keeps_what_matters records session scope n :
  ∃ l, select_listing records session scope (S n) = Some l ∧
  el_total l = length records ∧ length (el_shown l) + el_hidden l + el_omitted l = length records ∧
  length (el_shown l) = Nat.min (S n) (length (rows_in_scope records session scope)) ∧
  StronglySorted ref_le (el_shown l) ∧
  ∃ kept dropped, rows_in_scope records session scope ≡ₚ kept ++ dropped ∧
    le_record <$> el_shown l ≡ₚ (λ row : Tier * ListedEnvironment, le_record row.2) <$> kept ∧
    ∀ a b, a ∈ kept → b ∈ dropped → keep_le a b.
Proof.
  unfold select_listing. rewrite decide_False by lia. cbv zeta. fold (rows_in_scope records session scope).
  set (rows := rows_in_scope records session scope). set (kept := stable_sort keep_le rows).
  set (shown := imap _ (take (S n) kept)).
  assert (length kept = length rows) as Hlk by (apply Permutation_length, stable_sort_perm).
  assert (length (stable_sort ref_le shown) = Nat.min (S n) (length rows)) as Hls.
  { rewrite (Permutation_length (stable_sort_perm ref_le shown)). subst shown. by rewrite length_imap, length_take, Hlk. }
  assert (length rows ≤ length records) as Hle.
  { etransitivity; [apply length_filter|]. by rewrite length_fmap. }
  rewrite decide_True by lia. eexists. split; [reflexivity|]. cbn [el_total el_shown el_hidden el_omitted].
  split; [done|]. split; [lia|]. split; [done|]. split; [by apply (stable_sort_sorted ref_le)|].
  exists (take (S n) kept), (drop (S n) kept). split_and!.
  - rewrite take_drop. symmetry. apply stable_sort_perm.
  - rewrite (stable_sort_perm ref_le shown). subst shown. pose proof (fmap_shown (take (S n) kept) 0) as H. simpl in H. by rewrite H.
  - intros a b Ha Hb. assert (StronglySorted keep_le (take (S n) kept ++ drop (S n) kept)) as Hs
      by (rewrite take_drop; by apply (stable_sort_sorted keep_le)).
    by eapply StronglySorted_app_1_elem_of.
Qed.

(** * Post-mortems *)

(** A step that leaves the record under [k] on the books. *)
Definition keeping_step {J} (journal : option (EnvironmentJournal J)) (k : string) (c c' : config J) : Prop :=
  step journal c c' ∧ is_Some (rs_entries (cf_state c') !! k).

(** Sections never forget an inspect claim of a record they keep. *)
Definition keeps_claims (s s' : EnvironmentRegistryState) : Prop :=
  ∀ k a, (k, a) ∈ rs_inspect_claims s → is_Some (rs_entries s' !! k) → (k, a) ∈ rs_inspect_claims s'.

Lemma keeps_claims_same s s' : rs_inspect_claims s' = rs_inspect_claims s → keeps_claims s s'.
Proof. intros He k a Hin _. by rewrite He. Qed.

Lemma keeps_claims_remove k s : keeps_claims s (remove_locked k s).
Proof.
  intros k' a Hin [r Hr]. simpl in *. apply lookup_delete_Some in Hr as [Hne _].
  apply elem_of_filter. split; [simpl; congruence|done].
Qed.

Lemma inspect_claims_seed records s : rs_inspect_claims (seed_locked records s) = rs_inspect_claims s.
Proof.
  revert s. induction records as [|r records IH]; intros s; [done|]. simpl. rewrite IH. unfold seed_one, advance_next_ref.
  simpl. by case_match.
Qed.

Lemma inspect_claims_asserting {E} k f s :
  rs_inspect_claims (bind (E := E) (modify (drop_claim k)) (λ _, bind (assert_killing k) (λ _, modify (with_record k f))) s).1
  = rs_inspect_claims s.
Proof. rewrite settle_spec. by repeat case_match. Qed.

Lemma step_keeps_claims {J} (journal : option (EnvironmentJournal J)) c c' :
  step journal c c' → keeps_claims (cf_state c) (cf_state c').
Proof.
  intros Hstep. destruct Hstep; cbn [cf_state on_state];
    try (by apply keeps_claims_remove); try (by apply keeps_claims_same).
  - apply keeps_claims_same. unfold commit_locked, advance_next_ref. simpl. by case_match.
  - rewrite add_member_spec in H. apply keeps_claims_same. by repeat case_match; simplify_eq.
  - rewrite remove_member_spec in H. apply keeps_claims_same. cbv zeta in H. by repeat case_match; simplify_eq.
  - rewrite remove_member_spec in H. apply keeps_claims_same. cbv zeta in H. by repeat case_match; simplify_eq.
  - rewrite begin_kill_spec in H. apply keeps_claims_same. by repeat case_match; simplify_eq.
  - rewrite begin_removal_spec in H. apply keeps_claims_same. by repeat case_match; simplify_eq.
  - apply keeps_claims_same. pose proof (inspect_claims_asserting (E := string) (kc_ref claim) (retain_with reason) (cf_state c)) as Ha.
    unfold retain_locked in H0. by rewrite H0 in Ha.
  - apply keeps_claims_same.
    pose proof (inspect_claims_asserting (E := string) (kc_ref (rc_claim claim)) (set_status (rc_claimed_from claim)) (cf_state c)) as Ha.
    unfold release_removal_locked in H0. cbv zeta in H0. by rewrite H0 in Ha.
  - apply keeps_claims_same. unfold abandon_removal_locked in H1. cbv zeta in H1. rewrite bool_decide_true in H1 by done.
    unfold debug_assert in H1. rewrite bind_ret in H1.
    pose proof (inspect_claims_asserting (E := string) (kc_ref (rc_claim claim))
      (λ r, set_status CleanupFailed (clear_removal_pending r)) (cf_state c)) as Ha. by rewrite H1 in Ha.
  - intros k' a' Hin _. unfold begin_inspect_locked. repeat case_match; simpl; set_solver.
  - apply keeps_claims_same. unfold record_inspect_failure_locked. by case_match.
  - apply keeps_claims_same. destruct (reload j (cf_journal c)) as [j' [records|e]]; simpl; [apply inspect_claims_seed|done].
  - apply keeps_claims_same. unfold journal_settle. repeat case_match; done.
Qed.

(** A dead member is inspected once: after its post-mortem was claimed,
    no interleaving that keeps the environment's record on the books hands the
    claim out again. *)
Theorem inspected_once {J} (journal : option (EnvironmentJournal J)) c k a claim c' :
  (begin_inspect_locked k a (cf_state c)).2 = Some claim →
  rtc (keeping_step journal k) (on_state (begin_inspect_locked k a (cf_state c)).1 (cf_tokens c) c) c' →
  (begin_inspect_locked k a (cf_state c')).2 = None.
Proof.
  intros Hclaim Hrtc.
  assert ((k, a) ∈ rs_inspect_claims (begin_inspect_locked k a (cf_state c)).1) as Hin.
  { unfold begin_inspect_locked in *. repeat case_match; try done. simpl. set_solver. }
  assert ((k, a) ∈ rs_inspect_claims (cf_state c')) as Hin'.
  { revert Hin. change (begin_inspect_locked k a (cf_state c)).1
      with (cf_state (on_state (begin_inspect_locked k a (cf_state c)).1 (cf_tokens c) c)).
    induction Hrtc as [|x y z [Hstep Hsome] _ IH]; [done|]. intros Hin. apply IH. by eapply step_keeps_claims. }
  unfold begin_inspect_locked. case_match; [|done]. by rewrite decide_True.
Qed.

Lemma inspected_once_witness :
  (begin_inspect_locked "C1" "agent" (begin_inspect_locked "C1" "agent" (cf_state demo_created)).1).2 = None.
Proof.
  refine (inspected_once (Some demo_journal) demo_created "C1" "agent" (mkInspectClaim "C1")
    (on_state (begin_inspect_locked "C1" "agent" (cf_state demo_created)).1 (cf_tokens demo_created) demo_created) _ (rtc_refl _ _)).
  by vm_compute.
Defined.

(** ** Restored environments

    The kill claim on an environment another session created is not exclusive
    within this session: while its own claim is outstanding the record is
    [Killing], which [claimable] admits for a restored record, so a further kill
    is granted a claim of its own. *)
Lemma restored_claim_not_exclusive :
  ∃ c, reachable (Some demo_journal) ∅ c ∧ length (held_on "C1" (cf_tokens c)) = 2.
Proof.
  eexists. split.
  - eapply reach_step.
    + eapply reach_step; [apply (reach_start _ [demo_record "C1" Restored Running] (demo_store Running))|].
      eapply (St_begin_kill _ _ "C1" Any). reflexivity.
    + eapply (St_begin_kill _ _ "C1" Any). reflexivity.
  - reflexivity.
Qed.

(** A ref that is reused is not exclusive either: the launch of [C1] rolls back while a kill of it
    waits, a launch is given the ref again, and both environments' kills hold a claim on it. *)
Lemma reused_claim_not_exclusive :
  ∃ c, reachable (Some demo_journal) {[ "C1"%string ]} c ∧ length (held_on "C1" (cf_tokens c)) = 2 ∧
    er_origin <$> rs_entries (cf_state c) !! "C1"%string = Some Created.
Proof.
  eexists. split_and!.
  - assert ({[ "C1"%string ]} = {[ er_ref (demo_record "C1" Created Running) ]} ∪ (∅ : gset string)) as -> by set_solver.
    eapply reach_step.
    + apply reach_reuse; [|by split_and!]. eapply reach_step; [apply reachable_killing|]. apply (St_remove _ demo_killing "C1").
    + eapply (St_begin_kill _ _ "C1" Any). reflexivity.
  - reflexivity.
  - by vm_compute.
Qed.

(** * The explicit kill *)



(** Members that end, and a kill that succeeds. *)
Definition demo_kill_ports : Kill.Ports (J := FileStore) :=
  Kill.mkPorts (λ _ ms, Kill.mkReport ((λ m, Kill.mkSettled m Kill.Graceful) <$> ms) [])
    (λ _, Kill.LiveGone) None (λ _, NoStore) (λ _, inl tt) (λ _, inl tt) (λ _ w, w).


(** What that kill does: the members are asked, the kill runs, the environment stops. *)
Lemma kill_of_running_example :
  let out := Kill.kill_container (Some demo_journal) demo_kill_ports (TargetRef "C1")
    ((cf_state demo_created, cf_journal demo_created), []) in
  out.1.2 = [Kill.CallShutdown []; Kill.CallKill "env-1" ["kill"%string]] ∧
  er_status <$> rs_entries out.1.1.1 !! "C1"%string = Some Stopped.
Proof. by vm_compute. Qed.

(** The case in which it panics: [a] and [b] of this session are in a restored environment that its creator
    stopped; the post-mortem of [a] is recorded, which adopts the stop; [b] is still a member. *)
Lemma stopped_elsewhere_with_members :
  let s := (add_member_locked "C1" "b" (add_member_locked "C1" "a"
              (seed_locked [demo_record "C1" Restored Running] RegistryState_default)).1).1 in
  let w := (record_inspect_failure (E := string) (Some demo_journal) (mkInspectClaim "C1") "gone"
              ((begin_inspect_locked "C1" "a" (remove_member_locked "C1" "a" s).1).1, demo_store Stopped)).1 in
  (Kill.kill_container (Some demo_journal) demo_kill_ports (TargetRef "C1") (w, [])).2 = Panic.
Proof. by vm_compute. Qed.
