(* ===== verification/BoardText.v ===== *)
(** Text of the project board: the [str] methods its code uses, and the
    normaliser through which text enters the board.

    Models [domain/project_board/value_objects/board_text.rs].  A [str] is the
    list of its scalar values; a prefix of ASCII characters has as many bytes as
    characters, so the byte offsets of the source are character offsets here. *)

From Stdlib Require Import Ascii.
From stdpp Require Import pretty.
From S2P Require Import Prelude.

(** * [str] and [char] *)

Definition is_ascii_digit (c : N) : bool := ((48 <=? c) && (c <=? 57))%N.
Definition is_ascii_lowercase (c : N) : bool := ((97 <=? c) && (c <=? 122))%N.
Definition is_ascii_uppercase (c : N) : bool := ((65 <=? c) && (c <=? 90))%N.
Definition is_ascii_alphabetic (c : N) : bool := is_ascii_lowercase c || is_ascii_uppercase c.
Definition is_ascii_alphanumeric (c : N) : bool := is_ascii_alphabetic c || is_ascii_digit c.
Definition is_ascii_punctuation (c : N) : bool :=
  ((33 <=? c) && (c <=? 47) || (58 <=? c) && (c <=? 64) || (91 <=? c) && (c <=? 96)
   || (123 <=? c) && (c <=? 126))%N.

Definition to_ascii_lowercase_char (c : N) : N := if is_ascii_uppercase c then (c + 32)%N else c.
Definition to_ascii_lowercase (t : text) : text := to_ascii_lowercase_char <$> t.
Definition eq_ignore_ascii_case (a b : text) : bool :=
  bool_decide (to_ascii_lowercase a = to_ascii_lowercase b).

Definition char_in (c : N) (set : text) : bool := existsb (N.eqb c) set.

Definition text_eqb (a b : text) : bool := bool_decide (a = b).

Fixpoint strip_prefix (p t : text) : option text :=
  match p, t with
  | [], _ => Some t
  | c :: p', d :: t' => if (c =? d)%N then strip_prefix p' t' else None
  | _ :: _, [] => None
  end.

Definition starts_with (p t : text) : bool :=
  match strip_prefix p t with Some _ => true | None => false end.

Definition strip_suffix (p t : text) : option text :=
  match strip_prefix (rev p) (rev t) with Some r => Some (rev r) | None => None end.

Definition ends_with (p t : text) : bool :=
  match strip_suffix p t with Some _ => true | None => false end.

(** [str::contains] of a string. *)
Fixpoint contains (p t : text) : bool :=
  starts_with p t || match t with [] => false | _ :: t' => contains p t' end.

(** [str::split] on a non-empty string; [skip] characters of the last match are
    still to pass, and [cur] holds the current piece, reversed. *)
Fixpoint split_go (sep : text) (skip : nat) (cur t : text) : list text :=
  match t with
  | [] => [rev cur]
  | c :: t' =>
      match skip with
      | S k => split_go sep k cur t'
      | 0 => if starts_with sep t then rev cur :: split_go sep (length sep - 1) [] t'
             else split_go sep 0 (c :: cur) t'
      end
  end.
Definition split (sep t : text) : list text := split_go sep 0 [] t.

Definition NL : N := 10%N.
Definition CR : N := 13%N.
Definition SP : N := 32%N.
Definition TAB : N := 9%N.

Definition split_lines (t : text) : list text := split [NL] t.

Fixpoint join (sep : text) (l : list text) : text :=
  match l with
  | [] => []
  | [x] => x
  | x :: l' => x ++ sep ++ join sep l'
  end.

(** [str::replace], a split and a join. *)
Definition replace (sep by_ t : text) : text := join by_ (split sep t).

Fixpoint split_once (sep : N) (t : text) : option (text * text) :=
  match t with
  | [] => None
  | c :: t' => if (c =? sep)%N then Some ([], t')
               else match split_once sep t' with Some (a, b) => Some (c :: a, b) | None => None end
  end.

Fixpoint rsplit_once (sep t : text) : option (text * text) :=
  match t with
  | [] => None
  | c :: t' =>
      match rsplit_once sep t' with
      | Some (a, b) => Some (c :: a, b)
      | None => match strip_prefix sep t with Some b => Some ([], b) | None => None end
      end
  end.

Fixpoint trim_start_matches (f : N → bool) (t : text) : text :=
  match t with [] => [] | c :: t' => if f c then trim_start_matches f t' else t end.
Definition trim_end_matches (f : N → bool) (t : text) : text := rev (trim_start_matches f (rev t)).
Definition trim_matches (f : N → bool) (t : text) : text := trim_end_matches f (trim_start_matches f t).
Definition trim (t : text) : text := trim_matches is_whitespace t.

Fixpoint take_while_chars (f : N → bool) (t : text) : text :=
  match t with [] => [] | c :: t' => if f c then c :: take_while_chars f t' else [] end.

(** [str::lines]: the pieces between line ends, without a final empty one and
    without a trailing carriage return. *)
Definition lines_of (t : text) : list text :=
  let pieces := split_lines t in
  let pieces := match rev pieces with [] :: r => rev r | _ => pieces end in
  (λ l, match strip_suffix [CR] l with Some l' => l' | None => l end) <$> pieces.

(** [n.to_string()]. *)
Definition decimal (n : N) : text := tx (pretty n).

(** [str::split_whitespace]. *)
Definition split_whitespace (t : text) : list text :=
  filter (λ w, w ≠ []) (split_lines ((λ c, if is_whitespace c then NL else c) <$> t)).

(** * The normaliser *)

Module board_text.

Definition CHAT_SPACES : text := [160; 8239; 8199; 12288]%N.
Definition LINE_BREAKS : text := [13; 8232; 8233; 133; 11]%N.
Definition SAFE_PUNCTUATION : text :=
  (33 :: 34 :: tx "#$%&'()*+,-./:;<=>?@[]^_`{|}~")%N.
Definition CLOSING_INDENT : nat := 3.
Definition CODE_INDENT : nat := 4.

Definition chat (c : N) : bool := char_in c CHAT_SPACES.
Definition spacing (c : N) : bool := (c =? SP)%N || (c =? TAB)%N.
Definition blank (line : text) : bool := forallb spacing line.
Definition has_chat (line : text) : bool := existsb chat line.

Definition plain_spaces (t : text) : text := (λ c, if chat c then SP else c) <$> t.

Definition line_ends (raw : text) : text :=
  (λ c, if char_in c LINE_BREAKS then NL else c) <$> replace [CR; NL] [NL] raw.

(** One line of text as the board keeps it. *)
Definition line (raw : text) : text :=
  trim_matches (λ c, (c =? SP)%N || (c =? NL)%N)
    ((λ c, if (c =? TAB)%N then SP else c) <$> plain_spaces (line_ends raw)).

(** What a normaliser may change, and the characters it never does. *)
Definition normalised_spacing (c : N) : bool :=
  spacing c || (c =? NL)%N || chat c || char_in c LINE_BREAKS.
Definition unchanged (t : text) : text := filter (λ c, normalised_spacing c = false) t.

(** A discussion message as the board keeps it; [None] is a failed
    [debug_assert!]. *)
Definition message (raw : text) : option text :=
  let normal := join [NL] (filter (λ kept, kept ≠ []) (line <$> split_lines (line_ends raw))) in
  if text_eqb (unchanged normal) (unchanged raw) then Some normal else None.

Definition container_mark (c : N) : bool :=
  char_in c (TAB :: tx " >-*+.)") || is_ascii_digit c.

Inductive HtmlEnd := BlankLine | OwnClose.

#[export] Instance HtmlEnd_eq_dec : EqDecision HtmlEnd.
Proof. solve_decision. Defined.

Definition html_block (line : text) : option HtmlEnd :=
  let rest := trim_start_matches container_mark line in
  opener ← strip_prefix (tx "<") rest;
  let tag := match opener with
             | [] => false
             | c :: _ => is_ascii_alphabetic c || char_in c (tx "/!?")
             end in
  let lower := to_ascii_lowercase opener in
  let lasting := existsb (λ start, starts_with (tx start) lower)
                   ["!"; "?"; "pre"; "script"; "style"; "textarea"]%string in
  if tag then Some (if lasting then OwnClose else BlankLine) else None.

Definition links (line : text) : bool := contains (tx "](") line || contains (tx "]:") line.

Definition defines_footnote (line : text) : bool :=
  let rest := trim_start_matches container_mark line in
  starts_with (tx "[^") rest && contains (tx "]:") rest.

Definition may_be_indented_code (line : text) : bool :=
  let prefix := take_while_chars container_mark line in
  char_in TAB prefix || contains (replicate CODE_INDENT SP) prefix.

(** An open fence. *)
Record Fence := mkFence {
  fe_mark : N;
  fe_length : nat;
  fe_quotes : nat;
  fe_at_margin : bool;
}.

Definition count_char (c : N) (t : text) : nat := length (filter (λ d, d = c) t).

Definition opened_by (line : text) : option Fence :=
  let prefix := take_while_chars container_mark line in
  let rest := drop (length prefix) line in
  match rest with
  | [] => None
  | mark :: _ =>
      if char_in mark (tx "`~") then
        let len := length (take_while_chars (N.eqb mark) rest) in
        let info := drop len rest in
        if (3 <=? len) && ((mark =? 126)%N || negb (char_in 96%N info))
        then Some (mkFence mark len (count_char 62%N prefix) (bool_decide (prefix = [])))
        else None
      else None
  end.

Definition closed_by (f : Fence) (line : text) : bool :=
  let prefix := take_while_chars (λ c, char_in c (tx " >")) line in
  let rest := drop (length prefix) line in
  let indent := length prefix - length (trim_end_matches (N.eqb SP) prefix) in
  let run := length (take_while_chars (N.eqb (fe_mark f)) rest) in
  (count_char 62%N prefix =? fe_quotes f) && (indent <=? CLOSING_INDENT)
  && (fe_length f <=? run) && forallb spacing (drop run rest).

Definition list_item (line : text) : bool :=
  let rest := trim_start_matches (N.eqb SP) line in
  let digits := length (take_while_chars is_ascii_digit rest) in
  let marker :=
    if digits =? 0 then
      match rest with c :: _ => if char_in c (tx "-*+") then Some 1 else None | [] => None end
    else if digits <=? 9 then
      match drop digits rest with
      | c :: _ => if char_in c (tx ".)") then Some (digits + 1) else None
      | [] => None
      end
    else None in
  (length line - length rest <=? CLOSING_INDENT)
  && match marker with Some width => starts_with [SP] (drop width rest) | None => false end.

Inductive Edge := EdgeProse | EdgeCode.

(** [line] with no chat space left; [None] is a failed [debug_assert!]. *)
Definition without_chat (line : text) (edge : Edge) : option text :=
  let spaced c := spacing c || chat c in
  let body := trim_matches spaced line in
  let prose := match edge with EdgeProse => true | EdgeCode => false end in
  let empty := bool_decide (body = []) in
  if prose && empty && has_chat line then Some []
  else
    let start := length line - length (trim_start_matches spaced line) in
    let '(head, tail) :=
      if empty then ([], line) else (take start line, drop (start + length body) line) in
    let plain_only := filter (λ c, spacing c = true) in
    let head := match edge with
                | EdgeProse => if has_chat head then [] else head
                | EdgeCode => plain_spaces head
                end in
    let content := head ++ plain_spaces body in
    let marks := ends_with (tx "\") content || negb (bool_decide (plain_only tail = [])) in
    let tail := if prose && (has_chat tail && marks) then plain_spaces tail else plain_only tail in
    let normal := content ++ tail in
    if negb (has_chat normal) && (byte_len normal <=? byte_len line) then Some normal else None.

Section normaliser.
(** [char::is_alphanumeric], a table of the standard library. *)
Context (is_alphanumeric : N → bool).

Definition safe_before_line_end (c : N) : bool := is_alphanumeric c || char_in c SAFE_PUNCTUATION.

Definition without_trailing (line : text) (before_blank : bool) : text :=
  let content := trim_end_matches spacing line in
  let run := drop (length content) line in
  let breakless := text_eqb run [SP] || before_blank in
  let safe := match list.last content with Some c => safe_before_line_end c | None => false end in
  if breakless && safe && negb (may_be_indented_code line) then content else line.

Inductive Place :=
| Prose (marked : bool)
| Fenced (open : Fence)
| Html
| Unknown.

(** Where the line after [line] stands, and [line] as it is kept. *)
Definition next_place (place : Place) (line : text) (before_blank : bool) : Place * text :=
  match place with
  | Fenced open => if closed_by open line then (Prose false, line) else (place, line)
  | Html =>
      if bool_decide (is_Some (opened_by line)) || bool_decide (html_block line = Some OwnClose)
         || defines_footnote line
      then (Unknown, line)
      else if blank line then (Prose false, line) else (place, line)
  | Unknown => (place, line)
  | Prose marked =>
      match opened_by line, html_block line with
      | Some open, _ => if fe_at_margin open then (Fenced open, line) else (Unknown, line)
      | None, Some BlankLine => (Html, line)
      | None, Some OwnClose => (Unknown, line)
      | None, None =>
          if defines_footnote line then (Unknown, line)
          else if blank line then (Prose false, line)
          else
            let marked := marked || existsb (λ c, char_in c (tx "`$<")) line || links line in
            (Prose marked, if marked then line else without_trailing line before_blank)
      end
  end.

(** One line as written, whether it is an emptied chat line, and whether it is
    a blank prose line. *)
Record KeptLine := mkKept { kl_line : text; kl_gap : bool; kl_blank : bool }.

Fixpoint read_lines (place : Place) (lines : list text) : option (list KeptLine * Place) :=
  match lines with
  | [] => Some ([], place)
  | raw_line :: rest =>
      let before_blank := match rest with [] => true | next :: _ => blank (plain_spaces next) end in
      let in_prose := match place with Prose _ => true | _ => false end in
      line ← without_chat raw_line (if in_prose then EdgeProse else EdgeCode);
      let emptied := in_prose && bool_decide (line = []) && has_chat raw_line in
      let '(next, written) := next_place place line before_blank in
      kl ← read_lines next rest;
      Some (mkKept written emptied (in_prose && blank written) :: kl.1, kl.2)
  end.

(** The list each line that holds something belongs to. *)
Fixpoint list_owners (list_ : option nat) (lists : nat) (after_blank : bool) (kept : list KeptLine)
    : list (option nat) :=
  match kept with
  | [] => []
  | k :: kept' =>
      if kl_blank k then None :: list_owners list_ lists true kept'
      else
        let item := list_item (kl_line k) in
        let indented := match kl_line k with c :: _ => spacing c | [] => false end in
        let list' :=
          match list_, item, after_blank && negb indented with
          | Some open, _, false | Some open, true, true => Some open
          | None, true, _ => Some (S lists)
          | Some _, false, true | None, false, _ => None
          end in
        let lists' := match list_, item with None, true => S lists | _, _ => lists end in
        list' :: list_owners list' lists' false kept'
  end.

(** The runs of blank prose lines, as [start..stop]. *)
Fixpoint blank_runs (at_ : nat) (open : option nat) (blanks : list bool) : list (nat * nat) :=
  match blanks with
  | [] => match open with Some start => [(start, at_)] | None => [] end
  | true :: blanks' => blank_runs (S at_) (Some (default at_ open)) blanks'
  | false :: blanks' =>
      match open with Some start => [(start, at_)] | None => [] end ++ blank_runs (S at_) None blanks'
  end.

Definition run_inside (kept : list KeptLine) (owner : list (option nat)) (run : nat * nat) : option nat :=
  match run.1 with
  | 0 => None
  | S before =>
      match kept !! run.2 with
      | Some after =>
          if list_item (kl_line after) && bool_decide (mjoin (owner !! before) = mjoin (owner !! run.2))
          then mjoin (owner !! before) else None
      | None => None
      end
  end.

Definition settled_gaps (kept : list KeptLine) : list (option text) :=
  let owner := list_owners None 0 false kept in
  let runs := (λ run : nat * nat,
      (run, existsb kl_gap (take (run.2 - run.1) (drop run.1 kept)), run_inside kept owner run))
    <$> blank_runs 0 None (kl_blank <$> kept) in
  let loose := omap (λ r : nat * nat * bool * option nat, if r.1.2 then None else r.2) runs in
  foldl (λ settled (r : nat * nat * bool * option nat),
      let '(start, stop, chat, inside) := r in
      let tight := match inside with Some l => negb (bool_decide (l ∈ loose)) | None => false end in
      if chat : bool then
        imap (λ i x, if (start <=? i) && (i <? stop)
                     then (if negb tight && (i =? start) then Some [] else None) else x) settled
      else settled)
    ((λ k, Some (kl_line k)) <$> kept) runs.

(** Which of the kept lines stay: all but the blank lines at the text's edges. *)
Definition edges (kept : list KeptLine) (place : Place) : nat * nat :=
  let first := default (length kept) (position (λ k, negb (blank (kl_line k))) kept) in
  let end_ :=
    match place with
    | Prose _ => match rposition (λ k, negb (blank (kl_line k))) kept with
                 | Some l => S l
                 | None => first
                 end
    | _ => match rev kept with
           | l :: before :: _ =>
               if bool_decide (kl_line l = []) && negb (bool_decide (kl_line before = []))
               then length kept - 1 else length kept
           | _ => length kept
           end
    end in
  (first, Nat.max end_ first).

Definition kept_lines (raw : text) : option (list (option text)) :=
  let unified := replace [CR] [NL] (replace [CR; NL] [NL] raw) in
  kp ← read_lines (Prose false) (split_lines unified);
  let fe := edges kp.1 kp.2 in
  Some (imap (λ i l, if (fe.1 <=? i) && (i <? fe.2) then l else None) (settled_gaps kp.1)).

(** Markdown text as the board keeps it; [None] is a failed [debug_assert!]. *)
Definition text_ (raw : text) : option text :=
  kept ← kept_lines raw;
  let normal := join [NL] (omap id kept) in
  if negb (char_in CR normal) && negb (has_chat normal) && text_eqb (unchanged normal) (unchanged raw)
  then Some normal else None.

End normaliser.
End board_text.
