(* ===== verification/BoardTextFacts.v ===== *)
(** The board's normalisers change nothing but spacing, and their assertions hold of
    every text. *)

From S2P Require Import Prelude BoardText.

Import board_text.

(** * What is never changed *)

Definition normalised (t : text) : Prop := Forall (λ c, normalised_spacing c = true) t.

Lemma unchanged_app a b : unchanged (a ++ b) = unchanged a ++ unchanged b.
Proof. apply list.filter_app. Qed.

Lemma unchanged_normalised t : normalised t → unchanged t = [].
Proof.
  unfold unchanged. induction 1 as [|c t Hc _ IH]; [done|]. rewrite filter_cons_False; [done|]. by rewrite Hc.
Qed.

Lemma unchanged_map (f : N → N) t :
  (∀ c, f c = c ∨ normalised_spacing c = true ∧ normalised_spacing (f c) = true) →
  unchanged (f <$> t) = unchanged t.
Proof.
  intros Hf. unfold unchanged. induction t as [|c t IH]; [done|]. rewrite fmap_cons.
  destruct (Hf c) as [->|[Hc Hfc]].
  - rewrite !filter_cons. by rewrite IH.
  - rewrite !filter_cons_False, IH by (rewrite ?Hc, ?Hfc; done). done.
Qed.

Lemma spacing_normalised c : spacing c = true → normalised_spacing c = true.
Proof. unfold normalised_spacing. by intros ->. Qed.
Lemma chat_normalised c : chat c = true → normalised_spacing c = true.
Proof. unfold normalised_spacing. intros ->. by rewrite orb_true_r. Qed.

Lemma unchanged_plain t : unchanged (plain_spaces t) = unchanged t.
Proof.
  apply unchanged_map. intros c. destruct (chat c) eqn:Hc; [right|by left]. split; [by apply chat_normalised|done].
Qed.

(** ** Pieces *)

Lemma strip_prefix_Some p : ∀ t r, strip_prefix p t = Some r → t = p ++ r.
Proof.
  induction p as [|c p IH]; intros t r Hs; simpl in Hs; [by injection Hs as ->|]. destruct t as [|d t]; [done|].
  destruct (N.eqb_spec c d) as [->|]; [|done]. simpl. f_equal. by apply IH.
Qed.

Lemma starts_with_app p t : starts_with p t = true → ∃ r, t = p ++ r.
Proof. unfold starts_with. destruct (strip_prefix p t) eqn:Hs; [|done]. apply strip_prefix_Some in Hs. eauto. Qed.

(** The pieces of a split hold all but the separators. *)
Lemma unchanged_split_go sep : sep ≠ [] → normalised sep → ∀ t skip cur,
  concat (unchanged <$> split_go sep skip cur t) = unchanged (rev cur) ++ unchanged (drop skip t).
Proof.
  intros Hne Hn. induction t as [|c t IH]; intros skip cur; simpl.
  { rewrite drop_nil. by rewrite !app_nil_r. }
  destruct skip as [|k]; [|apply IH]. destruct (starts_with sep (c :: t)) eqn:Hs.
  - apply starts_with_app in Hs as (r & Hr). destruct sep as [|s sep]; [done|]. injection Hr as -> ->.
    rewrite fmap_cons. simpl. rewrite IH. f_equal. rewrite Nat.sub_0_r, drop_app_length.
    change (s :: sep ++ r) with ((s :: sep) ++ r). rewrite unchanged_app, (unchanged_normalised (s :: sep)) by done. done.
  - rewrite IH. simpl. rewrite unchanged_app, <- (app_assoc _ _ (unchanged _)).
    change (c :: t) with ([c] ++ t). by rewrite (unchanged_app [c] t).
Qed.

Lemma unchanged_split sep t : sep ≠ [] → normalised sep → concat (unchanged <$> split sep t) = unchanged t.
Proof. intros. unfold split. by rewrite unchanged_split_go. Qed.

Lemma unchanged_join sep l : normalised sep → unchanged (join sep l) = concat (unchanged <$> l).
Proof.
  intros Hn. induction l as [|x [|y l] IH]; [done|simpl; by rewrite app_nil_r|].
  change (join sep (x :: y :: l)) with (x ++ sep ++ join sep (y :: l)).
  rewrite !unchanged_app, IH, (unchanged_normalised sep Hn). done.
Qed.

Lemma unchanged_replace sep by_ t :
  sep ≠ [] → normalised sep → normalised by_ → unchanged (replace sep by_ t) = unchanged t.
Proof. intros. unfold replace. by rewrite unchanged_join, unchanged_split. Qed.

Lemma line_end_normalised c : c = NL ∨ c = CR → normalised_spacing c = true.
Proof. by intros [-> | ->]. Qed.

(** ** Trims *)

Lemma trim_start_split f t : ∃ head, t = head ++ trim_start_matches f t ∧ Forall (λ c, f c = true) head.
Proof.
  induction t as [|c t (head & Ht & Hf)]; simpl; [by exists []|]. destruct (f c) eqn:Hc.
  - exists (c :: head). split; [by rewrite Ht at 1|by constructor].
  - exists []. by split.
Qed.

Lemma trim_end_split f t : ∃ tail, t = trim_end_matches f t ++ tail ∧ Forall (λ c, f c = true) tail.
Proof.
  unfold trim_end_matches. destruct (trim_start_split f (rev t)) as (head & Ht & Hf). exists (rev head). split.
  - rewrite <- rev_app_distr, <- Ht. by rewrite rev_involutive.
  - apply list.Forall_forall. intros c. rewrite list_elem_of_In, <- in_rev, <- list_elem_of_In.
    rewrite list.Forall_forall in Hf. apply Hf.
Qed.

Lemma trim_split f t :
  ∃ head tail, t = head ++ trim_matches f t ++ tail ∧ Forall (λ c, f c = true) head ∧ Forall (λ c, f c = true) tail
  ∧ trim_start_matches f t = trim_matches f t ++ tail.
Proof.
  unfold trim_matches. destruct (trim_start_split f t) as (head & Ht & Hh).
  destruct (trim_end_split f (trim_start_matches f t)) as (tail & Ht' & Htl).
  exists head, tail. by rewrite <- Ht'.
Qed.

(** ** Lines without chat spaces *)

Lemma has_chat_app a b : has_chat (a ++ b) = has_chat a || has_chat b.
Proof. unfold has_chat. apply existsb_app. Qed.

Lemma has_chat_false t : has_chat t = false ↔ ∀ c, c ∈ t → chat c = false.
Proof.
  unfold has_chat. induction t as [|d t IH]; simpl; [split; [intros _ c Hc; by apply not_elem_of_nil in Hc|done]|].
  rewrite orb_false_iff, IH. split.
  - intros [Hd Ht] c [->|Hc]%elem_of_cons; auto.
  - intros Hall. split; [apply Hall|intros c Hc; apply Hall]; set_solver.
Qed.

Lemma plain_no_chat t : has_chat (plain_spaces t) = false.
Proof.
  apply has_chat_false. intros c. unfold plain_spaces. intros (d & -> & _)%list_elem_of_fmap. by destruct (chat d) eqn:Hd.
Qed.

Lemma spacing_no_chat c : spacing c = true → chat c = false.
Proof.
  unfold spacing. intros [Hc|Hc]%orb_true_iff; apply N.eqb_eq in Hc as ->; done.
Qed.

Lemma byte_len_map_le (f : N → N) t : (∀ c, utf8_len (f c) ≤ utf8_len c) → byte_len (f <$> t) ≤ byte_len t.
Proof. intros Hf. induction t as [|c t IH]; [done|]. rewrite fmap_cons. simpl. specialize (Hf c). unfold byte_len in *. lia. Qed.

Lemma byte_len_plain t : byte_len (plain_spaces t) ≤ byte_len t.
Proof.
  apply byte_len_map_le. intros c. destruct (chat c); [|done]. change (utf8_len SP) with 1. apply utf8_len_pos.
Qed.

Lemma byte_len_filter (P : N → Prop) `{∀ c, Decision (P c)} t : byte_len (filter P t) ≤ byte_len t.
Proof.
  induction t as [|c t IH]; [done|]. rewrite filter_cons. case_decide; simpl; lia.
Qed.

(** A text written for another: no chat space, no longer, the same but for spacing,
    and of its characters or spaces. *)
Record respaced (t t' : text) : Prop := {
  rs_chat : has_chat t' = false;
  rs_len : byte_len t' ≤ byte_len t;
  rs_same : unchanged t' = unchanged t;
  rs_chars : ∀ c, c ∈ t' → c ∈ t ∨ c = SP;
}.

Lemma respaced_app a a' b b' : respaced a a' → respaced b b' → respaced (a ++ b) (a' ++ b').
Proof.
  intros [] []. split.
  - by rewrite has_chat_app, rs_chat0, rs_chat1.
  - rewrite !byte_len_app. lia.
  - by rewrite !unchanged_app, rs_same0, rs_same1.
  - intros c. rewrite !elem_of_app. intros [Hc|Hc]; [destruct (rs_chars0 c Hc)|destruct (rs_chars1 c Hc)]; auto.
Qed.

Lemma respaced_plain t : respaced t (plain_spaces t).
Proof.
  split; [apply plain_no_chat|apply byte_len_plain|apply unchanged_plain|].
  intros c. unfold plain_spaces. intros (d & -> & ?)%list_elem_of_fmap. destruct (chat d); auto.
Qed.

Lemma respaced_same t : has_chat t = false → respaced t t.
Proof. intros. split; auto. Qed.

Lemma respaced_nil t : normalised t → respaced t [].
Proof.
  intros Hn. split; [done|simpl; lia|by rewrite (unchanged_normalised t)|]. intros c Hc. by apply not_elem_of_nil in Hc.
Qed.

Lemma respaced_spacing t : normalised t → respaced t (filter (λ c, spacing c = true) t).
Proof.
  intros Hn. split.
  - apply has_chat_false. intros c [Hc _]%list_elem_of_filter. by apply spacing_no_chat.
  - apply byte_len_filter.
  - rewrite (unchanged_normalised t Hn). apply unchanged_normalised. apply list.Forall_forall.
    intros c [Hc _]%list_elem_of_filter. by apply spacing_normalised.
  - intros c [_ Hc]%list_elem_of_filter. by left.
Qed.

Lemma spaced_normalised t : Forall (λ c, spacing c || chat c = true) t → normalised t.
Proof.
  apply Forall_impl. intros c [?|?]%orb_true_iff; [by apply spacing_normalised|by apply chat_normalised].
Qed.

(** The edges of a line, given as what they hold. *)
Lemma respaced_edges head body tail (edge : Edge) (marks : bool) :
  normalised head → normalised tail →
  let head' := match edge with EdgeProse => if has_chat head then [] else head | EdgeCode => plain_spaces head end in
  let tail' := if marks then plain_spaces tail else filter (λ c, spacing c = true) tail in
  respaced (head ++ body ++ tail) ((head' ++ plain_spaces body) ++ tail').
Proof.
  intros Hh Ht head' tail'. rewrite <- (app_assoc head'). apply respaced_app; [|apply respaced_app; [apply respaced_plain|]].
  - unfold head'. destruct edge; [|apply respaced_plain]. destruct (has_chat head) eqn:Hc.
    + by apply respaced_nil.
    + by apply respaced_same.
  - unfold tail'. destruct marks; [apply respaced_plain|by apply respaced_spacing].
Qed.

Lemma without_chat_total line edge : ∃ normal, without_chat line edge = Some normal ∧ respaced line normal.
Proof.
  unfold without_chat. cbv zeta. set (spaced := λ c, spacing c || chat c).
  destruct (trim_split spaced line) as (head & tail & Hline & Hh%spaced_normalised & Ht%spaced_normalised & Hstart).
  set (body := trim_matches spaced line) in *. clearbody body.
  destruct (match edge with EdgeProse => true | EdgeCode => false end && bool_decide (body = []) && has_chat line) eqn:Hemptied.
  { exists []. split; [done|]. apply respaced_nil. apply andb_prop in Hemptied as [[_ Hb]%andb_prop _].
    apply bool_decide_eq_true in Hb. rewrite Hline, Hb. by apply Forall_app. }
  clear Hemptied.
  assert (length line - length (trim_start_matches spaced line) = length head) as ->.
  { rewrite Hstart. rewrite Hline at 1. rewrite !length_app. lia. }
  assert (∃ h tl, (if bool_decide (body = []) then ([], line)
                   else (take (length head) line, drop (length head + length body) line)) = (h, tl)
          ∧ line = h ++ body ++ tl ∧ normalised h ∧ normalised tl) as (h & tl & -> & Hsplit & Hnh & Hnt).
  { case_bool_decide as Hb.
    - exists [], line. rewrite Hb. split_and!; [done|done|constructor|]. rewrite Hline, Hb. by apply Forall_app.
    - exists head, tail. split_and!; [|done..]. rewrite Hline, take_app_length, app_assoc.
      by rewrite <- length_app, drop_app_length. }
  match goal with |- context [if ?m then plain_spaces tl else _] => set (marks := m) end.
  pose proof (respaced_edges h body tl edge marks Hnh Hnt) as Hrs. rewrite <- Hsplit in Hrs. cbv zeta in Hrs.
  eexists. split; [|exact Hrs]. rewrite (rs_chat _ _ Hrs). simpl.
  by rewrite (proj2 (Nat.leb_le _ _) (rs_len _ _ Hrs)).
Qed.

(** ** Lines as they are kept *)

Lemma respaced_shortened raw line written run :
  respaced raw line → line = written ++ run → Forall (λ c, spacing c = true) run → respaced raw written.
Proof.
  intros [Hc Hl Hs Hch] -> Hr. rewrite has_chat_app, byte_len_app, unchanged_app in *.
  apply orb_false_iff in Hc as [Hc _]. split; [done|lia| |].
  - rewrite <- Hs, (unchanged_normalised run); [by rewrite app_nil_r|]. eapply Forall_impl; [|exact Hr].
    apply spacing_normalised.
  - intros c Hin. apply Hch. set_solver.
Qed.

Lemma blank_normalised line : blank line = true → normalised line.
Proof.
  unfold blank, normalised. rewrite forallb_forall, list.Forall_forall. intros Hb c Hc%list_elem_of_In.
  by apply spacing_normalised, Hb.
Qed.

Section lines.
Context (is_alphanumeric : N → bool).

Lemma without_trailing_shortens line before_blank :
  ∃ run, line = without_trailing is_alphanumeric line before_blank ++ run ∧ Forall (λ c, spacing c = true) run.
Proof.
  unfold without_trailing. destruct (_ && _ && _).
  - destruct (trim_end_split spacing line) as (tail & He & Hs). by exists tail.
  - exists []. split; [by rewrite app_nil_r|constructor].
Qed.

Lemma next_place_shortens place line before_blank :
  ∃ run, line = (next_place is_alphanumeric place line before_blank).2 ++ run ∧ Forall (λ c, spacing c = true) run.
Proof.
  assert (∃ run, line = line ++ run ∧ Forall (λ c, spacing c = true) run) as Hsame.
  { exists []. split; [by rewrite app_nil_r|constructor]. }
  unfold next_place. destruct place; repeat (first [exact Hsame|apply without_trailing_shortens|case_match]; simpl).
Qed.

Definition line_kept (raw : text) (k : KeptLine) : Prop :=
  respaced raw (kl_line k) ∧ (kl_blank k = true → blank (kl_line k) = true).

Lemma read_lines_total lines : ∀ place,
  ∃ kept place', read_lines is_alphanumeric place lines = Some (kept, place') ∧ Forall2 line_kept lines kept.
Proof.
  induction lines as [|raw rest IH]; intros place; simpl; [exists [], place; split; [done|constructor]|].
  match goal with |- context [without_chat raw ?edge] =>
    destruct (without_chat_total raw edge) as (line & -> & Hrs) end. simpl.
  match goal with |- context [next_place is_alphanumeric place line ?b] => set (bb := b) end.
  destruct (next_place is_alphanumeric place line bb) as [next written] eqn:Hnext.
  destruct (IH next) as (kept & place' & -> & Hkept). simpl.
  eexists _, _. split; [done|]. constructor; [|done]. split; simpl.
  - destruct (next_place_shortens place line bb) as (run & Hl & Hr). rewrite Hnext in Hl. by eapply respaced_shortened.
  - by intros [_ ?]%andb_prop.
Qed.

End lines.

(** ** Gaps *)

(** What a kept line is written as: itself, or nothing of a blank line. *)
Definition written_as (k : KeptLine) (o : option text) : Prop :=
  o = Some (kl_line k) ∨ kl_blank k = true ∧ (o = None ∨ o = Some []).

Lemma blank_runs_in blanks : ∀ at_ open s e i,
  (s, e) ∈ blank_runs at_ open blanks → s ≤ i < e →
  i < at_ ∧ (∃ start, open = Some start ∧ start ≤ i) ∨ at_ ≤ i ∧ blanks !! (i - at_) = Some true.
Proof.
  induction blanks as [|b blanks IH]; intros at_ open s e i Hin Hi; simpl in Hin.
  { destruct open as [start|]; [|by apply not_elem_of_nil in Hin].
    apply list_elem_of_singleton in Hin as [= -> ->]. left. split; [lia|]. exists start. split; [done|lia]. }
  assert (∀ at_', at_' = S at_ → at_' ≤ i → blanks !! (i - at_') = Some true → (b :: blanks) !! (i - at_) = Some true) as Hs.
  { intros at_' -> Hle Hb. replace (i - at_) with (S (i - S at_)) by lia. done. }
  destruct b.
  - destruct (IH _ _ _ _ i Hin Hi) as [[Hlt (start & [= <-] & Hge)]|[Hge Hb]].
    + destruct (decide (i = at_)) as [->|Hn]; [right; by rewrite Nat.sub_diag|].
      left. split; [lia|]. destruct open as [start|]; simpl in Hge; [|lia]. by exists start.
    + right. split; [lia|]. by eapply Hs.
  - apply elem_of_app in Hin as [Hin|Hin].
    + destruct open as [start|]; [|by apply not_elem_of_nil in Hin].
      apply list_elem_of_singleton in Hin as [= -> ->]. left. split; [lia|]. exists start. split; [done|lia].
    + destruct (IH _ _ _ _ i Hin Hi) as [[_ (? & ? & _)]|[Hge Hb]]; [done|]. right. split; [lia|]. by eapply Hs.
Qed.

Lemma settle_gap_written kept settled start stop (f : nat → option text) :
  Forall2 written_as kept settled →
  (∀ i k, start ≤ i < stop → kept !! i = Some k → kl_blank k = true) →
  (∀ i, f i = None ∨ f i = Some []) →
  Forall2 written_as kept (imap (λ i x, if (start <=? i) && (i <? stop) then f i else x) settled).
Proof.
  intros Hw Hb Hf. rewrite Forall2_lookup in *. intros i. specialize (Hw i). rewrite list_lookup_imap.
  destruct (kept !! i) as [k|] eqn:Hk, (settled !! i) as [o|]; inversion Hw as [? ? Hko|]; subst; simpl; constructor.
  destruct ((start <=? i) && (i <? stop)) eqn:Hin; [|done]. right. split; [|apply Hf].
  apply andb_prop in Hin as [?%Nat.leb_le ?%Nat.ltb_lt]. by eapply Hb.
Qed.

Lemma settled_gaps_written kept : Forall2 written_as kept (settled_gaps kept).
Proof.
  unfold settled_gaps. cbv zeta.
  match goal with |- Forall2 _ _ (foldl ?f ?init ?runs) => set (step := f); set (all := runs); set (start := init) end.
  assert (Forall (λ r : nat * nat * bool * option nat, ∀ i k, r.1.1.1 ≤ i < r.1.1.2 → kept !! i = Some k → kl_blank k = true) all)
    as Hruns.
  { apply list.Forall_forall. intros r Hr. unfold all in Hr. apply list_elem_of_fmap in Hr as ([s e] & -> & Hin). simpl.
    intros i k Hi Hk. destruct (blank_runs_in _ _ _ _ _ i Hin Hi) as [[? _]|[_ Hb]]; [lia|].
    rewrite Nat.sub_0_r, list_lookup_fmap, Hk in Hb. by injection Hb. }
  assert (Forall2 written_as kept start) as Hstart.
  { unfold start. clear. induction kept as [|k kept IH]; [constructor|]. rewrite fmap_cons. constructor; [by left|done]. }
  clearbody all start. revert start Hstart.
  induction Hruns as [|[[[s e] gap] inside] all Hr _ IH]; intros start Hstart; simpl; [done|]. apply IH.
  destruct gap; [|done]. simpl in Hr. apply settle_gap_written; [done..|].
  intros i. repeat case_match; auto.
Qed.

(** ** Edges *)

Lemma last_dropped_blank kept i k :
  kept !! i = Some k → blank (kl_line k) = false → i < length kept →
  i < match rev kept with
      | l :: before :: _ =>
          if bool_decide (kl_line l = []) && negb (bool_decide (kl_line before = [])) then length kept - 1 else length kept
      | _ => length kept
      end.
Proof.
  intros Hk Hb Hlen. destruct (rev kept) as [|l [|before r]] eqn:Hrev; [done..|].
  case_match eqn:Hc; [|done]. apply andb_prop in Hc as [Hl%bool_decide_eq_true _].
  destruct (decide (i = length kept - 1)) as [->|]; [|lia].
  assert (kept = rev (before :: r) ++ [l]) as He by (rewrite <- (rev_involutive kept), Hrev; done).
  rewrite He, length_app, Nat.add_sub, list_lookup_middle in Hk by done. injection Hk as <-. by rewrite Hl in Hb.
Qed.

Lemma edges_blank kept place i k :
  kept !! i = Some k → ¬ ((edges kept place).1 ≤ i < (edges kept place).2) → blank (kl_line k) = true.
Proof.
  unfold edges. cbv zeta. simpl. intros Hk Hout. destruct (blank (kl_line k)) eqn:Hb; [done|]. exfalso.
  set (first := default (length kept) _) in *.
  assert (first ≤ i) as Hfirst.
  { unfold first. destruct (position _ kept) as [j|] eqn:Hp; simpl.
    - apply position_Some in Hp as [_ Hlt]. destruct (decide (i < j)) as [Hij|]; [|lia].
      specialize (Hlt i k Hij Hk). by rewrite Hb in Hlt.
    - pose proof (position_None _ _ Hp k (list_elem_of_lookup_2 _ _ _ Hk)) as Hn. simpl in Hn. by rewrite Hb in Hn. }
  pose proof (lookup_lt_Some _ _ _ Hk) as Hlen. apply Hout. split; [done|]. apply Nat.max_lt_iff. left. clear Hout.
  destruct place.
  - destruct (rposition _ kept) as [l|] eqn:Hp.
    + apply rposition_Some in Hp as [_ Hlt]. destruct (decide (l < i)) as [Hli|]; [|lia].
      specialize (Hlt i k Hli Hk). by rewrite Hb in Hlt.
    + pose proof (rposition_None _ _ Hp k (list_elem_of_lookup_2 _ _ _ Hk)) as Hn. simpl in Hn. by rewrite Hb in Hn.
  - by apply last_dropped_blank with (k := k).
  - by apply last_dropped_blank with (k := k).
  - by apply last_dropped_blank with (k := k).
Qed.

(** ** Characters *)

Lemma split_go_chars sep t : ∀ skip cur p c,
  p ∈ split_go sep skip cur t → c ∈ p → c ∈ cur ∨ c ∈ t.
Proof.
  induction t as [|d t IH]; intros skip cur p c Hp Hc; simpl in Hp.
  { apply list_elem_of_singleton in Hp as ->. left. rewrite list_elem_of_In, <- in_rev, <- list_elem_of_In in Hc. done. }
  destruct skip as [|k]; [|destruct (IH _ _ _ _ Hp Hc); [by left|right; set_solver]].
  destruct (starts_with sep (d :: t)).
  - apply elem_of_cons in Hp as [->|Hp].
    + left. rewrite list_elem_of_In, <- in_rev, <- list_elem_of_In in Hc. done.
    + destruct (IH _ _ _ _ Hp Hc) as [Hn|]; [by apply not_elem_of_nil in Hn|right; set_solver].
  - destruct (IH _ _ _ _ Hp Hc); set_solver.
Qed.

Lemma split_go_without x t : ∀ cur p, x ∉ cur → p ∈ split_go [x] 0 cur t → x ∉ p.
Proof.
  induction t as [|d t IH]; intros cur p Hcur Hp; simpl in Hp.
  { apply list_elem_of_singleton in Hp as ->. rewrite list_elem_of_In, <- in_rev, <- list_elem_of_In. done. }
  unfold starts_with in Hp. simpl in Hp. destruct (N.eqb_spec x d) as [->|Hn].
  - apply elem_of_cons in Hp as [->|Hp].
    + rewrite list_elem_of_In, <- in_rev, <- list_elem_of_In. done.
    + eapply IH; [|done]. apply not_elem_of_nil.
  - eapply IH; [|done]. set_solver.
Qed.

Lemma join_chars sep l c : c ∈ join sep l → c ∈ sep ∨ ∃ p, p ∈ l ∧ c ∈ p.
Proof.
  induction l as [|x [|y l] IH]; intros Hc; [by apply not_elem_of_nil in Hc|right; exists x; split; [set_solver|done]|].
  change (join sep (x :: y :: l)) with (x ++ sep ++ join sep (y :: l)) in Hc.
  rewrite !elem_of_app in Hc. destruct Hc as [Hc|[Hc|Hc]]; [right; exists x; set_solver|by left|].
  destruct (IH Hc) as [|(p & Hp & Hcp)]; [by left|right]. exists p. set_solver.
Qed.

(** * The normaliser of markdown *)

(** What a kept line comes to: itself, or what it holds besides spacing. *)
Definition comes_to (k : KeptLine) (o : option text) : Prop :=
  unchanged (default [] o) = unchanged (kl_line k) ∧ (∀ l, o = Some l → l = kl_line k ∨ l = []).

Lemma comes_to_unchanged kept out :
  Forall2 comes_to kept out → concat (unchanged <$> omap id out) = concat (unchanged <$> (kl_line <$> kept)).
Proof.
  induction 1 as [|k o kept out [Hu _] _ IH]; [done|]. rewrite !fmap_cons.
  destruct o as [l|]; simpl in Hu.
  - change (omap id (Some l :: out)) with (l :: omap id out). rewrite fmap_cons. simpl. by rewrite Hu, IH.
  - change (omap id (None :: out)) with (omap id out). simpl. by rewrite IH, <- Hu.
Qed.

Section markdown.
Context (is_alphanumeric : N → bool).

Lemma kept_lines_total raw :
  let lines := split_lines (replace [CR] [NL] (replace [CR; NL] [NL] raw)) in
  ∃ kept out, kept_lines is_alphanumeric raw = Some out ∧ Forall2 line_kept lines kept ∧ Forall2 comes_to kept out.
Proof.
  intros lines. unfold kept_lines. cbv zeta. fold lines.
  destruct (read_lines_total is_alphanumeric lines (Prose false)) as (kept & place & -> & Hkept). simpl.
  eexists kept, _. split; [done|]. split; [done|].
  pose proof (settled_gaps_written kept) as Hw. rewrite Forall2_lookup in Hw. apply Forall2_lookup. intros i.
  specialize (Hw i). rewrite list_lookup_imap.
  destruct (kept !! i) as [k|] eqn:Hk, (settled_gaps kept !! i) as [o|]; inversion Hw as [? ? Hko|]; subst; simpl; constructor.
  assert (kl_blank k = true → unchanged (kl_line k) = []) as Hb.
  { intros Hkb. apply unchanged_normalised, blank_normalised.
    rewrite Forall2_lookup in Hkept. specialize (Hkept i). rewrite Hk in Hkept. inversion Hkept as [? ? [_ Hbl]|]. auto. }
  destruct (_ && _) eqn:Hin.
  - destruct Hko as [->|[Hkb Ho]]; [split; [done|]; intros l [= <-]; by left|].
    split; [rewrite (Hb Hkb); by destruct Ho as [-> | ->]|]. intros l ->. destruct Ho as [|[= ->]]; [done|by right].
  - split; [|done]. simpl. symmetry. apply unchanged_normalised, blank_normalised.
    apply (edges_blank kept place i k Hk). intros [H1 H2].
    apply andb_false_iff in Hin as [Hin%Nat.leb_gt|Hin%Nat.ltb_ge].
    + exact (proj1 (Nat.lt_nge _ _) Hin H1).
    + exact (proj1 (Nat.lt_nge _ _) H2 Hin).
Qed.

(** Markdown is normalised whatever it holds, and only its spacing changes. *)
Lemma text_total raw :
  ∃ normal, text_ is_alphanumeric raw = Some normal
  ∧ unchanged normal = unchanged raw ∧ CR ∉ normal ∧ has_chat normal = false.
Proof.
  destruct (kept_lines_total raw) as (kept & out & Hout & Hkept & Hcomes). cbv zeta in Hkept.
  unfold text_. rewrite Hout. simpl. set (normal := join [NL] (omap id out)).
  set (unified := replace [CR] [NL] (replace [CR; NL] [NL] raw)) in *.
  assert (normalised [NL] ∧ normalised [CR] ∧ normalised [CR; NL]) as (HNL & HCR & HCN).
  { split_and!; repeat constructor. }
  assert (unchanged normal = unchanged raw) as Hsame.
  { unfold normal. rewrite unchanged_join, (comes_to_unchanged kept) by done.
    assert (unchanged <$> (kl_line <$> kept) = unchanged <$> split_lines unified) as ->.
    { clear -Hkept. induction Hkept as [|l k ls ks [Hrs _] _ IH]; [done|]. rewrite !fmap_cons, IH. f_equal. apply Hrs. }
    unfold split_lines, unified. rewrite unchanged_split, !unchanged_replace by done. done. }
  assert (∀ c, c ∈ normal → c ≠ CR ∧ chat c = false) as Hchars.
  { intros c Hc. unfold normal in Hc. apply join_chars in Hc as [->%list_elem_of_singleton|(l & Hl & Hcl)]; [done|].
    apply list_elem_of_omap in Hl as (o & Ho & Hid). unfold id in Hid. subst o.
    apply list_elem_of_lookup_1 in Ho as [i Hi]. rewrite Forall2_lookup in Hcomes. rewrite Forall2_lookup in Hkept.
    specialize (Hcomes i). rewrite Hi in Hcomes. inversion Hcomes as [k ? [_ Hk] Hki|]. subst.
    specialize (Hkept i). rewrite <- Hki in Hkept. inversion Hkept as [rl ? [Hrs _] Hri|]. subst.
    destruct (Hk l eq_refl) as [->| ->]; [|by apply not_elem_of_nil in Hcl]. split.
    - intros ->. destruct (rs_chars _ _ Hrs CR Hcl) as [Hin|]; [|done].
      symmetry in Hri. apply list_elem_of_lookup_2 in Hri.
      destruct (split_go_chars _ _ _ _ _ _ Hri Hin) as [Hn|Hu]; [by apply not_elem_of_nil in Hn|].
      unfold unified, replace in Hu. apply join_chars in Hu as [Hu%list_elem_of_singleton|(p & Hp & Hu)]; [done|].
      revert Hu. eapply split_go_without; [|exact Hp]. apply not_elem_of_nil.
    - by apply (proj1 (has_chat_false _) (rs_chat _ _ Hrs)). }
  assert (CR ∉ normal) as Hcr by (intros Hc; by destruct (Hchars CR Hc)).
  assert (has_chat normal = false) as Hchat by (apply has_chat_false; intros c Hc; by apply Hchars).
  exists normal. split; [|done]. rewrite Hchat, Hsame. unfold text_eqb. rewrite bool_decide_true by done.
  assert (char_in CR normal = false) as ->; [|done]. unfold char_in. apply not_true_is_false. intros Hin.
  apply existsb_exists in Hin as (c & Hc%list_elem_of_In & <-%N.eqb_eq). done.
Qed.

End markdown.

(** * The normaliser of messages *)

Lemma unchanged_trim f t : (∀ c, f c = true → normalised_spacing c = true) → unchanged (trim_matches f t) = unchanged t.
Proof.
  intros Hf. destruct (trim_split f t) as (head & tail & Ht & Hh & Htl & _). rewrite Ht at 2.
  rewrite !unchanged_app, (unchanged_normalised head), (unchanged_normalised tail); [by rewrite app_nil_r|..].
  - eapply list.Forall_impl; [exact Htl|]. apply Hf.
  - eapply list.Forall_impl; [exact Hh|]. apply Hf.
Qed.

Lemma unchanged_line_ends raw : unchanged (line_ends raw) = unchanged raw.
Proof.
  unfold line_ends. rewrite unchanged_map, unchanged_replace; try done; [repeat constructor..|].
  intros c. destruct (char_in c LINE_BREAKS) eqn:Hc; [right|by left]. split; [|done].
  unfold normalised_spacing. rewrite Hc. by rewrite orb_true_r.
Qed.

Lemma unchanged_line raw : unchanged (line raw) = unchanged raw.
Proof.
  unfold line. rewrite unchanged_trim, unchanged_map, unchanged_plain, unchanged_line_ends; [done|..].
  - intros c. destruct (N.eqb_spec c TAB) as [->|]; [right|left]; done.
  - intros c [Hc|Hc]%orb_true_iff; apply N.eqb_eq in Hc as ->; done.
Qed.

Lemma message_total raw : ∃ normal, message raw = Some normal ∧ unchanged normal = unchanged raw.
Proof.
  unfold message. cbv zeta. set (normal := join _ _).
  assert (unchanged normal = unchanged raw) as Hsame.
  { unfold normal. rewrite unchanged_join by repeat constructor.
    assert (∀ l : list text, concat (unchanged <$> filter (λ kept, kept ≠ []) (line <$> l)) = concat (unchanged <$> l)) as ->.
    { induction l as [|x l IH]; [done|]. rewrite !fmap_cons, filter_cons. simpl. rewrite <- (unchanged_line x).
      case_decide as Hx; [rewrite fmap_cons; simpl; by rewrite IH|]. by rewrite Hx, IH. }
    unfold split_lines. rewrite unchanged_split, unchanged_line_ends; [done..|repeat constructor]. }
  exists normal. unfold text_eqb. by rewrite bool_decide_true.
Qed.
