(* ===== verification/BoardSchema.v ===== *)
(** The vocabulary of the project board: results of its rules, moments, bounded
    text, ids, identities and claims.

    Models [domain/project_board/value_objects/schema_error.rs], [slug.rs],
    [timestamp.rs], [vocabulary.rs], [reference.rs] (as what a reference points
    at), [code_ref.rs] (as names) and [entities/claim.rs].

    A [SchemaError] is the path of the field it names; its sentence is not
    modelled.  A [Timestamp] is the second it spells, from 1970 to
    9999-12-31T23:59:59: the fixed spelling makes text order time order.  What
    the [regex] and [humantime] crates compute, and the Unicode tables of the
    standard library, are the fields of [Shapes]. *)

From stdpp Require Import pretty.
From S2P Require Import Prelude BoardText.

(** * Moments *)

Abbreviation Timestamp := N.

Definition LAST : Timestamp := 253402300799%N.

(** What the pattern of an address captures: a scheme and the rest, a
    scheme-relative address after its lead, or a bare host. *)
Inductive Captures :=
  | CapScheme (scheme rest : text)
  | CapRelative (lead relative : text)
  | CapBare (bare : text).

(** What the board is given: the [is_match] of each of its regular expressions,
    the matches [replace_all] finds of two others with the text between them, the
    two [humantime] functions, and the Unicode tables it reads. *)
Class Shapes := {
  ON_ONE_LINE : text → bool;
  MARKDOWN : text → bool;
  VISIBLE : text → bool;
  NAME : text → bool;
  MODEL : text → bool;
  IMAGE : text → bool;
  LOCATION : text → bool;
  LINK : text → bool;
  BARE : text → bool;
  INVISIBLE : text → bool;
  ADDRESS : text → list (text + Captures);
  (** Each match with its [lead], when it has one. *)
  PATTERNS : text → list (text + option text);
  nfkc : text → text;
  parse_rfc3339 : text → option Timestamp;
  format_rfc3339_seconds : Timestamp → text;
  is_alphanumeric : N → bool;
  is_uppercase : N → bool;
  to_lowercase : text → text;
}.

Abbreviation SchemaError := string.

Definition at_index (field : string) (i : nat) : string := (field +:+ "/" +:+ pretty (N.of_nat i))%string.
Definition sub (field name : string) : string := (field +:+ "/" +:+ name)%string.

Definition SHAPE : text := tx "dddd-dd-ddTdd:dd:ddZ".

Definition Timestamp_parse `{Shapes} (t : text) : res SchemaError Timestamp :=
  let shaped := (length t =? length SHAPE)
    && forallb (λ cw : N * N, if (cw.2 =? 100)%N then is_ascii_digit cw.1 else (cw.1 =? cw.2)%N)
         (zip t SHAPE) in
  let second_in_minute := shaped
    && match t !! 17 with Some c => ((48 <=? c) && (c <=? 53))%N | None => false end in
  if second_in_minute then or_err (parse_rfc3339 t) "timestamp"%string
  else Err "timestamp"%string.

Definition as_str `{Shapes} (t : Timestamp) : text := format_rfc3339_seconds t.

(** Seconds from [earlier], negative when [t] comes first. *)
Definition seconds_since (t earlier : Timestamp) : Z := (Z.of_N t - Z.of_N earlier)%Z.

Definition minus_seconds (t : Timestamp) (seconds : N) : res SchemaError Timestamp :=
  if (seconds <=? t)%N then Ok (t - seconds)%N else Err "timestamp"%string.

Definition plus_seconds (t : Timestamp) (seconds : N) : res SchemaError Timestamp :=
  if (t + seconds <=? LAST)%N then Ok (t + seconds)%N else Err "timestamp"%string.

(** * Bounded text *)

Section text_checks.
Context `{Shapes}.

Definition plain_spaced (t : text) : bool :=
  forallb (λ c, (c =? SP)%N) (filter (λ c, is_whitespace c = true) t).

Definition line (field : string) (t : text) (max_chars : nat) : res SchemaError unit :=
  let shaped := (length t <=? max_chars) && ON_ONE_LINE t && VISIBLE t in
  ensure (shaped && plain_spaced t) field.

Definition markdown_spaced (l : text) : bool :=
  forallb (λ c, (c =? SP)%N || (c =? TAB)%N) (filter (λ c, is_whitespace c = true) l).

Definition markdown (field : string) (t : text) (max_chars : N) : res SchemaError unit :=
  let shaped := (N.of_nat (length t) <=? max_chars)%N && MARKDOWN t in
  let unplain := position (λ l, negb (markdown_spaced l)) (split_lines t) in
  ensure (shaped && bool_decide (unplain = None)) field.

Definition distinct {A} `{EqDecision A} (field : string) (entries : list A) (max : nat)
    : res SchemaError unit :=
  ensure ((length entries <=? max) && bool_decide (NoDup entries)) field.

(** Text as it enters the board: itself once normalised. *)
Definition entered_text (field : string) (held : text) : res SchemaError unit :=
  let? normal := or_panic (board_text.text_ is_alphanumeric held) in
  ensure (text_eqb normal held) field.
Definition entered_line (field : string) (held : text) : res SchemaError unit :=
  ensure (text_eqb (board_text.line held) held) field.
Definition entered_message (field : string) (held : text) : res SchemaError unit :=
  let? normal := or_panic (board_text.message held) in
  ensure (text_eqb normal held) field.

End text_checks.

(** * Ids *)

Definition MAX_SLUG_BYTES : nat := 64.

Definition RESERVED : list string :=
  ["con"; "prn"; "aux"; "nul"; "com1"; "com2"; "com3"; "com4"; "com5"; "com6"; "com7"; "com8";
   "com9"; "lpt1"; "lpt2"; "lpt3"; "lpt4"; "lpt5"; "lpt6"; "lpt7"; "lpt8"; "lpt9"]%string.

Abbreviation Slug := text.

Definition Slug_parse (t : text) : res SchemaError Slug :=
  let edge o := match o with Some b => is_ascii_lowercase b || is_ascii_digit b | None => false end in
  let body := forallb (λ b, is_ascii_lowercase b || is_ascii_digit b || (b =? 45)%N) t in
  let shaped := (byte_len t <=? MAX_SLUG_BYTES) && edge (head t) && edge (list.last t) && body in
  if shaped && negb (existsb (λ r, text_eqb t (tx r)) RESERVED) then Ok t else Err "id"%string.

(** An id: a text that [parse] takes. *)
Definition is_slug (t : text) : Prop := Slug_parse t = Ok t.

(** * Vocabularies *)

Inductive TaskKind := KindEpic | KindTask | KindChore.

Inductive TaskStatus := Draft | Ready | Claimed | InProgress | Review | Blocked | Done | Archived.

Definition requires_claim (s : TaskStatus) : bool :=
  match s with Claimed | InProgress => true | _ => false end.
Definition may_hold_claim (s : TaskStatus) : bool :=
  requires_claim s || match s with Review | Blocked => true | _ => false end.
Definition releases_dependents (s : TaskStatus) : bool :=
  match s with Done | Archived => true | _ => false end.

Inductive PlanState := PlanDraft | PlanAccepted | PlanSuperseded | PlanDiscarded.
Inductive ReviewVerdict := Approved | ChangesRequested.
Inductive ItemState := ItemTodo | ItemDoing | ItemReview | ItemDone | ItemBlocked.
Inductive Effort := EffortLow | EffortMedium | EffortHigh | EffortMax.
Inductive RunOutcome := RunSucceeded | RunFailed | RunStopped | RunLost.
Inductive Resolution := Completed | NotPlanned | Duplicate | Superseded | DoneWithoutRun.
Inductive LifecycleAction := ActStart | ActEndRun | ActRelease | ActDoneWithoutRun.
Inductive Inconsistency := DoneWithoutPlan | InProgressWithoutRun | RunGoingOutsideProgress.
Inductive DiscussionState := DiscussionOpen | DiscussionShut.
Inductive DiscussionLimit := LimitMessages | LimitLines | LimitText.
Inductive Severity := SeverityLow | SeverityMedium | SeverityHigh | SeverityCritical.

#[export] Instance TaskKind_eq_dec : EqDecision TaskKind. Proof. solve_decision. Defined.
#[export] Instance TaskStatus_eq_dec : EqDecision TaskStatus. Proof. solve_decision. Defined.
#[export] Instance PlanState_eq_dec : EqDecision PlanState. Proof. solve_decision. Defined.
#[export] Instance ReviewVerdict_eq_dec : EqDecision ReviewVerdict. Proof. solve_decision. Defined.
#[export] Instance ItemState_eq_dec : EqDecision ItemState. Proof. solve_decision. Defined.
#[export] Instance Effort_eq_dec : EqDecision Effort. Proof. solve_decision. Defined.
#[export] Instance RunOutcome_eq_dec : EqDecision RunOutcome. Proof. solve_decision. Defined.
#[export] Instance Resolution_eq_dec : EqDecision Resolution. Proof. solve_decision. Defined.
#[export] Instance LifecycleAction_eq_dec : EqDecision LifecycleAction. Proof. solve_decision. Defined.
#[export] Instance DiscussionState_eq_dec : EqDecision DiscussionState. Proof. solve_decision. Defined.
#[export] Instance Severity_eq_dec : EqDecision Severity. Proof. solve_decision. Defined.

(** * References and code *)

Definition MAX_ISSUE_NUMBER : N := 9999999999%N.

Inductive Points := Own (number : N) | Elsewhere (number : N) | Page.
#[export] Instance Points_eq_dec : EqDecision Points. Proof. solve_decision. Defined.

Record Reference := mkReference {
  ref_shown : text;
  ref_key : text;
  ref_points : Points;
}.
#[export] Instance Reference_eq_dec : EqDecision Reference. Proof. solve_decision. Defined.

Abbreviation RepoName := text.
Abbreviation BranchName := text.
Abbreviation CommitId := text.

(** * Identities and claims *)

Definition CLAIM_TTL_SECONDS : N := 7200%N.
Definition MAX_NAME_CHARS : nat := 100.
Definition MAX_EMAIL_BYTES : nat := 254.
Definition EMAIL_PUNCTUATION : text := (33 :: 34 :: tx "#$%&'()*+,-./:;=?@[\]^_{|}~")%N.

Record Identity := mkIdentity { id_name : text; id_email : text }.
#[export] Instance Identity_eq_dec : EqDecision Identity. Proof. solve_decision. Defined.

Record Claim := mkClaim { cl_holder : Identity; cl_since : Timestamp; cl_expires : Timestamp }.
#[export] Instance Claim_eq_dec : EqDecision Claim. Proof. solve_decision. Defined.

(** The same committer: emails equal ignoring ASCII case. *)
Definition same_committer (a b : Identity) : bool := eq_ignore_ascii_case (id_email a) (id_email b).

Section identity_checks.
Context `{Shapes}.

Definition Identity_validate (field : string) (who : Identity) : res SchemaError unit :=
  let name := sub field "name" in
  line name (id_name who) MAX_NAME_CHARS ;?
  ensure (NAME (id_name who)) name ;?
  let shaped := match split_once 64%N (id_email who) with
                | Some (local, domain) =>
                    negb (bool_decide (local = [])) && negb (bool_decide (domain = []))
                    && negb (char_in 64%N domain)
                | None => false
                end in
  let allowed b := is_ascii_alphanumeric b || char_in b EMAIL_PUNCTUATION in
  ensure (shaped && (byte_len (id_email who) <=? MAX_EMAIL_BYTES) && forallb allowed (id_email who))
    (sub field "email").

Definition Claim_validate (field : string) (c : Claim) : res SchemaError unit :=
  Identity_validate (sub field "holder") (cl_holder c) ;?
  let? cap := map_err (λ _, field) (plus_seconds (cl_since c) CLAIM_TTL_SECONDS) in
  ensure ((cl_since c <? cl_expires c) && (cl_expires c <=? cap))%N field.

End identity_checks.
