(* ===== verification/BoardDescription.v ===== *)
(** A task's description in its sections, and the exceptions recorded against
    its outcomes.

    Models [domain/project_board/entities/task_parts.rs] and
    [task_parts/outcomes.rs]: the grammar, its reader and its writer, the rules
    text enters by, and the settlement of outcomes. *)

From S2P Require Import Prelude BoardText BoardSchema.

(** * Limits *)

Definition MAX_ITEMS : nat := 128.
Definition MAX_PER_ITEM : nat := 16.
Definition MAX_LINE_CHARS : nat := 500.
Definition MAX_OWNER_CHARS : nat := 100.
Definition MAX_BUDGET_TOKENS : N := 9007199254740991%N.
Definition MAX_FINDING_CHARS : nat := 4000.
Definition MAX_REASON_CHARS : nat := 1000.

Section shared_checks.
Context `{Shapes}.

Definition lines (field : string) (entries : list text) (max : nat) : res SchemaError unit :=
  distinct field entries max ;?
  each (λ index entry, line (at_index field index) entry MAX_LINE_CHARS) entries.

Definition shaped (field : string) (t : text) (max_bytes : nat) (shape : text → bool)
    : res SchemaError unit :=
  ensure ((byte_len t <=? max_bytes) && shape t) field.

Definition location (field : string) (t : text) : res SchemaError unit :=
  shaped field t MAX_LINE_CHARS LOCATION.

End shared_checks.

(** * The sections *)

Inductive Shape := Paragraph | Checklist | Listing.

Record PartRule := mkPart {
  pr_heading : text;
  pr_field : string;
  pr_required : bool;
  pr_shape : Shape;
}.

Definition PART_GOAL : PartRule := mkPart (tx "Goal") "goal" true Paragraph.
Definition PART_WHY : PartRule := mkPart (tx "Why") "why" false Paragraph.
Definition PART_DONE_WHEN : PartRule := mkPart (tx "Done when") "done_when" true Checklist.
Definition PART_LINKS : PartRule := mkPart (tx "Links") "links" false Listing.
Definition PARTS : list PartRule := [PART_GOAL; PART_WHY; PART_DONE_WHEN; PART_LINKS].

Definition HEADING : text := tx "## ".
Definition BETWEEN : text := [NL; NL].
Definition OPEN : text := tx "- [ ] ".
Definition DONE : text := tx "- [x] ".
Definition ITEM : text := tx "- ".
Definition EXCEPTIONS : text := tx "Outcome exceptions".
Definition EXCEPTION_HEADER : text :=
  tx "| Outcome index | Reason | By | At |" ++ [NL] ++ tx "|---|---|---|---|".

Record OutcomeException := mkException {
  oe_reason : text;
  oe_by : Identity;
  oe_at : Timestamp;
}.

Record Outcome := mkOutcome {
  oc_exception : option OutcomeException;
  oc_done : bool;
  oc_text : text;
}.

Record Description := mkDescription {
  de_goal : text;
  de_why : option text;
  de_done_when : list Outcome;
  de_links : list text;
}.

#[export] Instance OutcomeException_eq_dec : EqDecision OutcomeException.
Proof. solve_decision. Defined.
#[export] Instance Outcome_eq_dec : EqDecision Outcome. Proof. solve_decision. Defined.
#[export] Instance Description_eq_dec : EqDecision Description. Proof. solve_decision. Defined.

(** * Exception cells *)

Definition BACKTICK : N := 96%N.
Definition BACKSLASH : N := 92%N.
Definition PIPE : N := 124%N.

(** A run of backticks opens or closes only a fence of its own width. *)
Definition fence (open : option nat) (run : nat) : option nat :=
  match open with
  | None => Some run
  | Some width => if width =? run then None else Some width
  end.

(** The fence state once a pending run of backticks has ended. *)
Definition after_run (code : option nat) (run : nat) : option nat :=
  if run =? 0 then code else fence code run.

Definition outside (code : option nat) : bool := match code with None => true | Some _ => false end.

(** [run] backticks have been read and not yet written. *)
Fixpoint exception_cell_go (code : option nat) (run : nat) (t : text) : text :=
  match t with
  | [] => replicate run BACKTICK
  | c :: t' =>
      if (c =? BACKTICK)%N then exception_cell_go code (S run) t'
      else
        let code := after_run code run in
        let punctuated := match t' with [] => true | d :: _ => is_ascii_punctuation d end in
        let escaped := (c =? PIPE)%N || ((c =? BACKSLASH)%N && outside code && punctuated) in
        replicate run BACKTICK ++ (if escaped then [BACKSLASH] else []) ++ [c]
          ++ exception_cell_go code 0 t'
  end.
Definition exception_cell (t : text) : text := exception_cell_go None 0 t.

Fixpoint exception_cells_go (code : option nat) (run : nat) (cell t : text) : list text :=
  match t with
  | [] => [cell ++ replicate run BACKTICK]
  | c :: t' =>
      if (c =? BACKTICK)%N then exception_cells_go code (S run) cell t'
      else
        let code := after_run code run in
        let cell := cell ++ replicate run BACKTICK in
        if (c =? BACKSLASH)%N then
          match t' with
          | [] => [cell ++ [c]]
          | d :: t'' =>
              if (d =? PIPE)%N || (outside code && (d =? BACKSLASH)%N)
              then exception_cells_go code 0 (cell ++ [d]) t''
              else exception_cells_go code 0 (cell ++ [c]) t'
          end
        else if (c =? PIPE)%N then cell :: exception_cells_go code 0 [] t'
        else exception_cells_go code 0 (cell ++ [c]) t'
  end.

Definition exception_cells (row : text) : option (list text) :=
  row ← strip_prefix (tx "| ") row;
  row ← strip_suffix (tx " |") row;
  Some (trim <$> exception_cells_go None 0 [] row).

(** [index.parse()] of a number spelt as [to_string] spells it. *)
Definition canonical_index (t : text) : option N :=
  let value := foldl (λ n c, n * 10 + (c - 48))%N 0%N t in
  if forallb is_ascii_digit t && text_eqb (decimal value) t && (value <=? u64_max)%N
  then Some value else None.

(** The form a description is kept in, and how one write enters. *)
Inductive DescriptionForm := FormLegacy | FormSectioned.
Inductive Entry := EntrySectioned | EntryLegacy.
Inductive EntryPolicy := PolicySectioned | PolicySectionedOrLegacy.
#[export] Instance DescriptionForm_eq_dec : EqDecision DescriptionForm. Proof. solve_decision. Defined.

(** [item.trim_start_matches("https://")], every repetition. *)
Definition SCHEME : text := tx "https://".
Fixpoint trim_scheme_go (fuel : nat) (t : text) : text :=
  match fuel with
  | 0 => t
  | S fuel => match strip_prefix SCHEME t with Some t' => trim_scheme_go fuel t' | None => t end
  end.
Definition trim_scheme (t : text) : text := trim_scheme_go (length t) t.

Section description.
Context `{Shapes}.

(** * Writing *)

Definition exception_rows (d : Description) : list (list text) :=
  omap id (imap (λ index o,
    (λ e, [decimal (N.of_nat index); oe_reason e;
           id_name (oe_by e) ++ tx " (`" ++ id_email (oe_by e) ++ tx "`)";
           as_str (oe_at e)]) <$> oc_exception o) (de_done_when d)).

Definition checklist (outcomes : list Outcome) : text :=
  join [NL] ((λ o, (if oc_done o then DONE else OPEN) ++ oc_text o) <$> outcomes).

Definition exception_row (row : list text) : text :=
  [NL] ++ tx "| " ++ join (tx " | ") (exception_cell <$> row) ++ tx " |".

Definition has_exceptions (d : Description) : bool :=
  existsb (λ o, bool_decide (is_Some (oc_exception o))) (de_done_when d).

Definition sections (d : Description) : list (text * text) :=
  [(pr_heading PART_GOAL, de_goal d)]
  ++ match de_why d with Some t => [(pr_heading PART_WHY, t)] | None => [] end
  ++ [(pr_heading PART_DONE_WHEN, checklist (de_done_when d))]
  ++ (if has_exceptions d
      then [(EXCEPTIONS, EXCEPTION_HEADER ++ concat (exception_row <$> exception_rows d))] else [])
  ++ match de_links d with
     | [] => []
     | l => [(pr_heading PART_LINKS, join [NL] ((λ link, ITEM ++ link) <$> l))]
     end.

Definition assemble (sections : list (text * text)) : text :=
  join BETWEEN ((λ s : text * text, HEADING ++ s.1 ++ [NL] ++ s.2) <$> sections).

Definition description_markdown (d : Description) : text := assemble (sections d).

(** * Settling *)

Definition settle_outcome (o : Outcome) : Outcome :=
  mkOutcome (oc_exception o) (bool_decide (oc_exception o = None)) (oc_text o).
Definition description_settle (d : Description) : Description :=
  mkDescription (de_goal d) (de_why d) (settle_outcome <$> de_done_when d) (de_links d).

Definition description_set_outcome (d : Description) (index : nat) (exception : option OutcomeException)
    : res SchemaError Description :=
  let? o := or_err (de_done_when d !! index) "outcome_index"%string in
  match exception with
  | None => Ok tt
  | Some e =>
      entered_line "reason" (oe_reason e) ;?
      line "reason" (oe_reason e) MAX_REASON_CHARS ;?
      Identity_validate "by" (oe_by e)
  end ;?
  Ok (mkDescription (de_goal d) (de_why d)
        (<[index := mkOutcome exception (bool_decide (exception = None)) (oc_text o)]> (de_done_when d))
        (de_links d)).

(** One row of exceptions, after those up to [previous]. *)
Definition apply_exception_row (d : Description) (previous : option N) (cells : list text)
    : res SchemaError (Description * N) :=
  match cells with
  | [index; reason; by_; at_] =>
      let? index := or_err (canonical_index index) "outcome_index"%string in
      let open := match de_done_when d !! N.to_nat index with
                  | Some o => negb (oc_done o)
                  | None => false
                  end in
      let valid := match previous with None => true | Some before => (before <? index)%N end && open in
      if valid then
        let? name_email := or_err (by_ ← strip_suffix (tx "`)") by_; rsplit_once (tx " (`") by_) "by"%string in
        let? at_ := Timestamp_parse at_ in
        let e := mkException reason (mkIdentity name_email.1 name_email.2) at_ in
        let? next := description_set_outcome d (N.to_nat index) (Some e) in
        Ok (next, index)
      else Err "outcome_index"%string
  | _ => Err "description"%string
  end.

Fixpoint apply_rows_from (d : Description) (previous : option N) (rows : list (list text))
    : res SchemaError Description :=
  match rows with
  | [] => Ok d
  | cells :: rows' =>
      let? dn := apply_exception_row d previous cells in
      apply_rows_from dn.1 (Some dn.2) rows'
  end.
Definition apply_exception_rows (d : Description) (rows : list (list text)) : res SchemaError Description :=
  apply_rows_from d None rows.

(** * Reading *)

Definition heading (l : text) : bool :=
  let unindented := trim_start_matches (N.eqb SP) l in
  let marks := length (take_while_chars (N.eqb 35%N) unindented) in
  let indent := length l - length unindented in
  let after := match drop marks unindented with
               | [] => true
               | c :: _ => (c =? SP)%N || (c =? TAB)%N
               end in
  (indent <=? 3) && (1 <=? marks) && (marks <=? 6) && after.

Fixpoint item (l : text) (prefixes : list text) : option (bool * text) :=
  match prefixes with
  | [] => None
  | prefix :: prefixes' =>
      match strip_prefix prefix l with
      | Some t => if negb (bool_decide (t = [])) && text_eqb (trim t) t
                  then Some (text_eqb prefix DONE, t) else item l prefixes'
      | None => item l prefixes'
      end
  end.

Definition misshapen (shape : Shape) (l : text) : bool :=
  match shape with
  | Paragraph => is_blank l || heading l
  | Checklist => bool_decide (item l [OPEN; DONE] = None)
  | Listing => match item l [ITEM] with Some (_, t) => negb (LINK t) | None => true end
  end.

Definition shaped_lines (rule : PartRule) (body : text) : res SchemaError unit :=
  match position (misshapen (pr_shape rule)) (split_lines body), pr_shape rule with
  | None, _ => Ok tt
  | Some _, Paragraph => Err (pr_field rule)
  | Some index, _ => Err (at_index (pr_field rule) index)
  end.

(** The exception table, if any, and the other blocks. *)
Fixpoint take_exceptions (exceptions : option text) (base blocks : list text)
    : res SchemaError (option text * list text) :=
  match blocks with
  | [] => Ok (exceptions, base)
  | block :: blocks' =>
      match strip_prefix (HEADING ++ EXCEPTIONS ++ [NL]) block with
      | Some table =>
          let allowed := bool_decide (exceptions = None)
            && match list.last base with
               | Some l => starts_with (HEADING ++ pr_heading PART_DONE_WHEN ++ [NL]) l
               | None => false
               end in
          if allowed then take_exceptions (Some table) base blocks' else Err "description"%string
      | None => take_exceptions exceptions (base ++ [block]) blocks'
      end
  end.

(** The section [block] holds, at or after section [next]. *)
Definition read_block (next : nat) (block : text) : res SchemaError (nat * text) :=
  let '(head, body) := default (block, []) (split_once NL block) in
  let rest := drop next PARTS in
  let found := name ← strip_prefix HEADING head; position (λ rule, text_eqb (pr_heading rule) name) rest in
  match found with
  | None => Err (if (next =? 0) && starts_with HEADING head then pr_field PART_GOAL else "description"%string)
  | Some offset =>
      match List.find pr_required (take offset rest) with
      | Some skipped => Err (pr_field skipped)
      | None =>
          match rest !! offset with
          | None => Panic
          | Some rule =>
              ensure (negb (bool_decide (body = []))) (pr_field rule) ;?
              shaped_lines rule body ;?
              Ok (next + offset, body)
          end
      end
  end.

Fixpoint read_blocks (next : nat) (bodies : list (option text)) (blocks : list text)
    : res SchemaError (nat * list (option text)) :=
  match blocks with
  | [] => Ok (next, bodies)
  | block :: blocks' =>
      let? found := read_block next block in
      read_blocks (S found.1) (<[found.1 := Some found.2]> bodies) blocks'
  end.

(** The items of a section whose lines were checked. *)
Definition read_items (body : option text) (prefixes : list text) : res SchemaError (list (bool * text)) :=
  match body with
  | None => Ok []
  | Some body => collect (λ l, or_panic (item l prefixes)) (split_lines body)
  end.

Definition read_exceptions (d : Description) (table : text) : res SchemaError Description :=
  let? rows := or_err (rest ← strip_prefix EXCEPTION_HEADER table; strip_prefix [NL] rest) "description"%string in
  let? rows := collect (λ row, or_err (exception_cells row) "description"%string) (lines_of rows) in
  apply_exception_rows d rows.

Definition sectioned (t : text) : res SchemaError Description :=
  let? eb := take_exceptions None [] (split BETWEEN t) in
  let? nb := read_blocks 0 [None; None; None; None] (split BETWEEN (join BETWEEN eb.2)) in
  match List.find pr_required (drop nb.1 PARTS) with
  | Some skipped => Err (pr_field skipped)
  | None =>
      let? goal := or_panic (mjoin (nb.2 !! 0)) in
      let? outcomes := read_items (mjoin (nb.2 !! 2)) [OPEN; DONE] in
      let? links := read_items (mjoin (nb.2 !! 3)) [ITEM] in
      let d := mkDescription goal (mjoin (nb.2 !! 1))
                 ((λ i : bool * text, mkOutcome None i.1 i.2) <$> outcomes) (links.*2) in
      let? d := match eb.1 with Some table => read_exceptions d table | None => Ok d end in
      ensure (text_eqb (description_markdown d) t) "description"%string ;?
      Ok d
  end.

(** [sectioned(text).ok()]. *)
Definition Description_read (t : text) : res SchemaError (option Description) :=
  match sectioned t with Ok d => Ok (Some d) | Err _ => Ok None | Panic => Panic end.

(** * Entering *)

Definition MAX_ENTRY_DESCRIPTION_CHARS : nat := 1200.
Definition MAX_ENTRY_TITLE_CHARS : nat := 70.
Definition ABBREVIATIONS : list string :=
  ["mr."; "mrs."; "ms."; "dr."; "st."; "jr."; "e.g."; "i.e."; "etc."; "vs."; "cf."; "inc."; "ltd."; "co."]%string.

Definition ends_sentence (word : text) : bool :=
  let word := trim_end_matches (λ c, char_in c [34; 39; 41; 93; 8217; 8221]%N) word in
  let abbreviated := existsb (λ a, text_eqb (to_lowercase word) (tx a)) ABBREVIATIONS in
  let initial := match word with [letter; dot] => (dot =? 46)%N && is_uppercase letter | _ => false end in
  let dotted := match list.last word with
                | Some c => (utf8_len c =? 1) && char_in 46%N (take (length word - 1) word)
                | None => false
                end in
  match list.last word with Some c => char_in c (tx ".!?") | None => false end
  && negb abbreviated && negb initial && negb dotted.

Definition starts_sentence (word : text) : bool :=
  match word with c :: _ => is_uppercase c | [] => false end.

Definition sentences (goal : text) : nat :=
  let words := split_whitespace goal in
  S (length (filter (λ p : text * text, ends_sentence p.1 && starts_sentence p.2 = true)
       (zip words (tail words)))).

Definition within_rules (d : Description) (t : text) : res SchemaError unit :=
  let goal := sentences (de_goal d) in
  ensure ((1 <=? goal) && (goal <=? 3)) (pr_field PART_GOAL) ;?
  let outcomes := length (de_done_when d) in
  ensure ((1 <=? outcomes) && (outcomes <=? 8)) (pr_field PART_DONE_WHEN) ;?
  ensure (length t <=? MAX_ENTRY_DESCRIPTION_CHARS) "description"%string.

Definition Description_entered (t : text) : res SchemaError (option Description) :=
  entered_text "description" t ;?
  if decide (t = []) then Ok None
  else
    let? d := sectioned t in
    ensure (bool_decide (exception_rows d = [])) "description"%string ;?
    within_rules d t ;?
    Ok (Some d).

Definition entered_title (field : string) (title : text) : res SchemaError unit :=
  entered_line field title ;?
  ensure (length title <=? MAX_ENTRY_TITLE_CHARS) field.

Definition Entry_title (e : Entry) (field : string) (title : text) : res SchemaError unit :=
  match e with EntrySectioned => entered_title field title | EntryLegacy => entered_line field title end.
Definition Entry_form (e : Entry) (t : text) : DescriptionForm :=
  match e, bool_decide (t = []) with EntrySectioned, false => FormSectioned | _, _ => FormLegacy end.
Definition Entry_description (e : Entry) (t : text) : res SchemaError unit :=
  match e with
  | EntrySectioned => map_ok (λ _, tt) (Description_entered t)
  | EntryLegacy => entered_text "description" t
  end.

Definition EntryPolicy_entry (p : EntryPolicy) (sections_given : bool) : Entry :=
  match p, sections_given with
  | PolicySectioned, _ | PolicySectionedOrLegacy, true => EntrySectioned
  | PolicySectionedOrLegacy, false => EntryLegacy
  end.

(** * Composing *)

Definition linked (shape : Shape) (i : text) : text :=
  match shape, BARE i with
  | Listing, true =>
      let shown := trim_scheme i in
      let shown := default shown (strip_prefix (tx "www.") shown) in
      tx "[" ++ shown ++ tx "](" ++ i ++ tx ")"
  | _, _ => i
  end.

(** A section given as prose: left out when it normalises to nothing. *)
Definition paragraph (rule : PartRule) (t : option text) : res SchemaError (option text) :=
  match t with
  | None => Ok None
  | Some raw =>
      let? normal := or_panic (board_text.text_ is_alphanumeric raw) in
      if decide (normal = []) then Ok None
      else shaped_lines rule normal ;? Ok (Some normal)
  end.

Fixpoint listed_from (rule : PartRule) (prefix : text) (index : nat) (items : list text)
    : res SchemaError (list text) :=
  match items with
  | [] => Ok []
  | raw :: items' =>
      let i := board_text.line raw in
      ensure (negb (bool_decide (i = [])) && negb (char_in NL i)) (at_index (pr_field rule) index) ;?
      let? rest := listed_from rule prefix (S index) items' in
      Ok ((prefix ++ linked (pr_shape rule) i) :: rest)
  end.
Definition listed (rule : PartRule) (prefix : text) (items : option (list text))
    : res SchemaError (option text) :=
  match items with
  | None | Some [] => Ok None
  | Some items => map_ok (λ ls, Some (join [NL] ls)) (listed_from rule prefix 0 items)
  end.

(** The description the sections given make. *)
Definition compose (goal why : option text) (done_when links : option (list text))
    : res SchemaError text :=
  let? goal := paragraph PART_GOAL goal in
  let? why := paragraph PART_WHY why in
  let? done_when := listed PART_DONE_WHEN OPEN done_when in
  let? links := listed PART_LINKS ITEM links in
  let t := assemble (omap (λ rb : PartRule * option text, (pr_heading rb.1,.) <$> rb.2)
                      (zip PARTS [goal; why; done_when; links])) in
  ensure (negb (bool_decide (t = []))) (pr_field PART_GOAL) ;?
  Ok t.

Definition subtitle (d : Description) : text := join [SP] (split_lines (de_goal d)).

End description.
