(* ===== verification/BoardTask.v ===== *)
(** A task of the project board, and why a rule of the board refuses a change.

    Models [domain/project_board/entities/task.rs] and
    [value_objects/rule_error.rs].  A [Task] is its fields; that it was built by
    [Task::new] is the predicate [task_ok]. *)

From S2P Require Import Prelude BoardText BoardSchema BoardDescription.

(** * Refusals *)

Inductive SwarmReport := ReportKept | ReportNoneKept.

Module BoardRuleError.

Inductive t :=
  | NotAllowed (from to : TaskStatus)
  | UseLifecycle (from to : TaskStatus) (action : LifecycleAction)
  | ReasonRequired (from to : TaskStatus)
  | NotHolderExpired
  | NotHolder
  | NoClaim
  | ClaimLive
  | ClaimExpired
  | RunOpen (run : N)
  | RunEnded (run : N)
  | PlanNotDraft (state : PlanState)
  | NotThisTasks
  | NotThisChange
  | TaskFinished (status : TaskStatus)
  | UnknownPlanVersion (version : N)
  | PlanChanged (version : N) (updated : Timestamp)
  | AcceptedPlanChanged (accepted : option N)
  | PlanAhead (version : N) (updated : Timestamp)
  | TaskClockAhead (created until : Timestamp)
  | PlansInconsistent
  | RunsInconsistent
  | PlanNotAccepted (version : N)
  | NoAcceptedPlan
  | ChangeAlreadyLinked (task : Slug) (change : option N)
  | NoSuchChange (number : N)
  | NoSuchRun (number : N)
  | ItemsNotDone (run : N) (items : list Slug) (report : SwarmReport)
  | NotPushed (run : N) (revisions : nat)
  | ChangeAhead (change : N) (updated : Timestamp)
  | DiscussionClosed (discussion : Slug)
  | DiscussionLinked (discussion task : Slug)
  | DiscussionAhead (discussion : Slug) (updated : Timestamp)
  | MessageAhead (discussion : Slug) (at_ : Timestamp)
  | DiscussionFull (discussion : Slug) (limit : DiscussionLimit)
  | ReviewAhead (change : N) (updated : Timestamp)
  | ChangesLinked (changes : list N)
  | PrUnread (pr : N)
  | PrNotOpen (pr : N)
  | PrHeadMismatch (pr : N)
  | ChangeUnlinked (change : N)
  | ChangeMerged (change : N)
  | NoChanges
  | ChangesUnmerged (changes : list N)
  | ChangesInconsistent
  | NotTakeable (status : TaskStatus)
  | AlreadyHolder
  | NoPrs
  | PrsUnmerged (prs : list N)
  | PrsLinked (prs : list N)
  | PrsOpen (prs : list N)
  | PrNotLinked (pr : N)
  | PrAlreadyLinked (pr : N)
  | Superseded (by_ : list Slug)
  | DependencyNotDone (undone missing : list Slug)
  | ChildrenActive (children : list Slug)
  | IssueShared (issue : N) (first second : Slug)
  | IssueIsPr (issue : N) (task pr_holder : Slug)
  | OwnPrReferenced (task : Slug) (pr change : N)
  | NotDraft (status : TaskStatus)
  | NoEdit
  | Invalid (e : SchemaError)
  | InvalidPlan (e : SchemaError).

End BoardRuleError.

Abbreviation RuleError := BoardRuleError.t.

(** * Tasks *)

Definition MAX_TITLE_CHARS : nat := 256.
Definition MAX_DESCRIPTION_CHARS : N := 65536%N.
Definition MAX_DEPENDENCIES : nat := 64.
Definition MAX_PRS : nat := 16.
Definition MAX_SUPERSEDED_BY : nat := 16.
Definition MAX_REFERENCES : nat := 64.
Definition MAX_TEXT_BYTES : N := (320 * 1024)%N.
Definition MAX_PLAN_VERSION : N := 999%N.

Record Task := mkTask {
  ta_id : Slug;
  ta_title : text;
  ta_kind : TaskKind;
  ta_description : text;
  ta_description_form : DescriptionForm;
  ta_status : TaskStatus;
  ta_parent : option Slug;
  ta_depends_on : list Slug;
  ta_accepted_plan : option N;
  ta_claim : option Claim;
  ta_prs : list N;
  ta_github_issue : option N;
  ta_resolution : option Resolution;
  ta_superseded_by : list Slug;
  ta_references : list Reference;
  ta_created : Timestamp;
  ta_updated : Timestamp;
  ta_reason : option text;
}.
#[export] Instance Task_eq_dec : EqDecision Task. Proof. solve_decision. Defined.

(** ** Assigning a field *)

Definition with_title (v : text) (t : Task) : Task :=
  mkTask (ta_id t) v (ta_kind t) (ta_description t) (ta_description_form t) (ta_status t) (ta_parent t)
    (ta_depends_on t) (ta_accepted_plan t) (ta_claim t) (ta_prs t) (ta_github_issue t) (ta_resolution t)
    (ta_superseded_by t) (ta_references t) (ta_created t) (ta_updated t) (ta_reason t).
Definition with_description (v : text) (f : DescriptionForm) (t : Task) : Task :=
  mkTask (ta_id t) (ta_title t) (ta_kind t) v f (ta_status t) (ta_parent t)
    (ta_depends_on t) (ta_accepted_plan t) (ta_claim t) (ta_prs t) (ta_github_issue t) (ta_resolution t)
    (ta_superseded_by t) (ta_references t) (ta_created t) (ta_updated t) (ta_reason t).
Definition with_status (v : TaskStatus) (t : Task) : Task :=
  mkTask (ta_id t) (ta_title t) (ta_kind t) (ta_description t) (ta_description_form t) v (ta_parent t)
    (ta_depends_on t) (ta_accepted_plan t) (ta_claim t) (ta_prs t) (ta_github_issue t) (ta_resolution t)
    (ta_superseded_by t) (ta_references t) (ta_created t) (ta_updated t) (ta_reason t).
Definition with_parent (v : option Slug) (t : Task) : Task :=
  mkTask (ta_id t) (ta_title t) (ta_kind t) (ta_description t) (ta_description_form t) (ta_status t) v
    (ta_depends_on t) (ta_accepted_plan t) (ta_claim t) (ta_prs t) (ta_github_issue t) (ta_resolution t)
    (ta_superseded_by t) (ta_references t) (ta_created t) (ta_updated t) (ta_reason t).
Definition with_depends_on (v : list Slug) (t : Task) : Task :=
  mkTask (ta_id t) (ta_title t) (ta_kind t) (ta_description t) (ta_description_form t) (ta_status t)
    (ta_parent t) v (ta_accepted_plan t) (ta_claim t) (ta_prs t) (ta_github_issue t) (ta_resolution t)
    (ta_superseded_by t) (ta_references t) (ta_created t) (ta_updated t) (ta_reason t).
Definition with_accepted_plan (v : option N) (t : Task) : Task :=
  mkTask (ta_id t) (ta_title t) (ta_kind t) (ta_description t) (ta_description_form t) (ta_status t)
    (ta_parent t) (ta_depends_on t) v (ta_claim t) (ta_prs t) (ta_github_issue t) (ta_resolution t)
    (ta_superseded_by t) (ta_references t) (ta_created t) (ta_updated t) (ta_reason t).
Definition with_claim (v : option Claim) (t : Task) : Task :=
  mkTask (ta_id t) (ta_title t) (ta_kind t) (ta_description t) (ta_description_form t) (ta_status t)
    (ta_parent t) (ta_depends_on t) (ta_accepted_plan t) v (ta_prs t) (ta_github_issue t) (ta_resolution t)
    (ta_superseded_by t) (ta_references t) (ta_created t) (ta_updated t) (ta_reason t).
Definition with_prs (v : list N) (t : Task) : Task :=
  mkTask (ta_id t) (ta_title t) (ta_kind t) (ta_description t) (ta_description_form t) (ta_status t)
    (ta_parent t) (ta_depends_on t) (ta_accepted_plan t) (ta_claim t) v (ta_github_issue t) (ta_resolution t)
    (ta_superseded_by t) (ta_references t) (ta_created t) (ta_updated t) (ta_reason t).
Definition with_resolution (v : option Resolution) (t : Task) : Task :=
  mkTask (ta_id t) (ta_title t) (ta_kind t) (ta_description t) (ta_description_form t) (ta_status t)
    (ta_parent t) (ta_depends_on t) (ta_accepted_plan t) (ta_claim t) (ta_prs t) (ta_github_issue t) v
    (ta_superseded_by t) (ta_references t) (ta_created t) (ta_updated t) (ta_reason t).
Definition with_updated (v : Timestamp) (t : Task) : Task :=
  mkTask (ta_id t) (ta_title t) (ta_kind t) (ta_description t) (ta_description_form t) (ta_status t)
    (ta_parent t) (ta_depends_on t) (ta_accepted_plan t) (ta_claim t) (ta_prs t) (ta_github_issue t)
    (ta_resolution t) (ta_superseded_by t) (ta_references t) (ta_created t) v (ta_reason t).
Definition with_reason (v : option text) (t : Task) : Task :=
  mkTask (ta_id t) (ta_title t) (ta_kind t) (ta_description t) (ta_description_form t) (ta_status t)
    (ta_parent t) (ta_depends_on t) (ta_accepted_plan t) (ta_claim t) (ta_prs t) (ta_github_issue t)
    (ta_resolution t) (ta_superseded_by t) (ta_references t) (ta_created t) (ta_updated t) v.

(** ** The schema *)

Definition has_settled_outcomes (t : Task) : bool :=
  bool_decide (ta_description_form t = FormSectioned)
  && match ta_status t, ta_resolution t with
     | Done, _ | Archived, Some (Completed | DoneWithoutRun) => true
     | _, _ => false
     end.

Definition bytes (t : text) : N := N.of_nat (byte_len t).

Definition sum_of {A} (f : A → N) (l : list A) : N := foldr (λ x n, f x + n)%N 0%N l.

Definition task_text_bytes (t : Task) : N :=
  (bytes (ta_title t) + bytes (ta_description t) + sum_of (λ r, bytes (ref_shown r)) (ta_references t)
   + match ta_reason t with Some r => bytes r | None => 0 end)%N.

(** [1..=max] contains the number. *)
Definition from_one_to (max n : N) : bool := ((1 <=? n) && (n <=? max))%N.

Definition no_index {A} (field : string) (p : A → bool) (l : list A) : res SchemaError unit :=
  match position p l with None => Ok tt | Some index => Err (at_index field index) end.

Section task.
Context `{Shapes}.

Definition resolution_holds (t : Task) : res SchemaError unit :=
  let by_status := match ta_resolution t, ta_status t with
                   | Some (Completed | DoneWithoutRun), Done | Some _, Archived => true
                   | None, (Draft | Ready | Claimed | InProgress | Review | Blocked | Archived) => true
                   | _, _ => false
                   end in
  let unnamed := bool_decide (ta_superseded_by t = []) && bool_decide (ta_references t = []) in
  let by_successor := match ta_resolution t with
                      | Some (Superseded | Duplicate) => negb unnamed
                      | Some (Completed | DoneWithoutRun | NotPlanned) => bool_decide (ta_superseded_by t = [])
                      | None => true
                      end in
  ensure (by_status && by_successor) "resolution"%string.

Definition reason_holds (t : Task) : res SchemaError unit :=
  match ta_reason t with Some r => line "reason" r MAX_REASON_CHARS | None => Ok tt end ;?
  let done_without_run := bool_decide (ta_resolution t = Some DoneWithoutRun) in
  match ta_reason t, ta_status t, done_without_run with
  | Some _, Ready, false | Some _, (Done | Archived), true | None, _, false => Ok tt
  | _, _, _ => Err "reason"%string
  end.

Definition validate_claim (t : Task) : res SchemaError unit :=
  match ta_claim t with
  | Some c =>
      if may_hold_claim (ta_status t) then
        Claim_validate "claim" c ;?
        ensure ((ta_created t <=? cl_since c) && (cl_since c <=? ta_updated t))%N "claim/since"%string
      else Err "claim"%string
  | None => ensure (negb (requires_claim (ta_status t))) "claim"%string
  end.

Definition own_reference (t : Task) (r : Reference) : bool :=
  match ref_points r with
  | Own number => bool_decide (Some number = ta_github_issue t) || bool_decide (number ∈ ta_prs t)
  | Elsewhere _ | Page => false
  end.

Definition validate_closure (t : Task) : res SchemaError unit :=
  no_index "prs" (λ pr, bool_decide (Some pr = ta_github_issue t)) (ta_prs t) ;?
  resolution_holds t ;?
  distinct "superseded_by" (ta_superseded_by t) MAX_SUPERSEDED_BY ;?
  no_index "superseded_by" (λ other, bool_decide (other = ta_id t)) (ta_superseded_by t) ;?
  distinct "references" (ref_key <$> ta_references t) MAX_REFERENCES ;?
  no_index "references" (own_reference t) (ta_references t).

(** The description reads in the form it is kept in, and holds exceptions only
    once its task is done or archived. *)
Definition validate_description (t : Task) : res SchemaError unit :=
  markdown "description" (ta_description t) MAX_DESCRIPTION_CHARS ;?
  let? read := Description_read (ta_description t) in
  match ta_description_form t, read with
  | FormLegacy, _ | FormSectioned, Some _ => Ok tt
  | FormSectioned, None => Err "description"%string
  end ;?
  match read with
  | Some d => if has_exceptions d
              then match ta_status t with Done | Archived => Ok tt | _ => Err "status"%string end
              else Ok tt
  | None => Ok tt
  end.

Definition validate_task (t : Task) : res SchemaError unit :=
  ensure (ta_created t <=? ta_updated t)%N "updated"%string ;?
  line "title" (ta_title t) MAX_TITLE_CHARS ;?
  validate_description t ;?
  ensure (negb (bool_decide (ta_parent t = Some (ta_id t)))) "parent"%string ;?
  distinct "depends_on" (ta_depends_on t) MAX_DEPENDENCIES ;?
  no_index "depends_on" (λ d, bool_decide (d = ta_id t)) (ta_depends_on t) ;?
  ensure (match ta_accepted_plan t with Some v => from_one_to MAX_PLAN_VERSION v | None => true end)
    "accepted_plan"%string ;?
  validate_claim t ;?
  distinct "prs" (ta_prs t) MAX_PRS ;?
  no_index "prs" (λ pr, (pr =? 0)%N) (ta_prs t) ;?
  validate_closure t ;?
  reason_holds t ;?
  ensure (task_text_bytes t <=? MAX_TEXT_BYTES)%N "text"%string.

(** [Task::new]. *)
Definition Task_new (t : Task) : res SchemaError Task :=
  validate_task t ;?
  if has_settled_outcomes t then
    let? read := Description_read (ta_description t) in
    let? d := or_panic read in
    let settled := with_description (description_markdown (description_settle d)) (ta_description_form t) t in
    validate_task settled ;?
    Ok settled
  else Ok t.

(** [Task::entered]. *)
Definition Task_entered (fields : Task) (entry : Entry) : res SchemaError Task :=
  let? t := Task_new (with_description (ta_description fields) FormLegacy fields) in
  Entry_title entry "title" (ta_title t) ;?
  Entry_description entry (ta_description t) ;?
  Task_new (with_description (ta_description t) (Entry_form entry (ta_description t)) t).

(** [Task::set_outcome]. *)
Definition task_set_outcome (t : Task) (index : nat) (reason : option text) (by_ : Identity) (at_ : Timestamp)
    : res RuleError Task :=
  match ta_status t, ta_description_form t with
  | Done, FormSectioned =>
      let? read := map_err BoardRuleError.Invalid (Description_read (ta_description t)) in
      let? d := or_panic read in
      let at_ := (at_ `max` ta_updated t)%N in
      let exception := (λ r, mkException r by_ at_) <$> reason in
      let same_reason := match o ← de_done_when d !! index; oc_exception o with
                         | Some existing => bool_decide (Some (oe_reason existing) = reason)
                         | None => false
                         end in
      let? next := map_err BoardRuleError.Invalid (description_set_outcome d index exception) in
      if same_reason then Ok t
      else
        let settled := description_markdown next in
        if decide (settled = ta_description t) then Ok t
        else map_err BoardRuleError.Invalid
               (Task_new (with_updated at_ (with_description settled (ta_description_form t) t)))
  | _, _ => Err (BoardRuleError.Invalid "status"%string)
  end.

(** A task the schema admits: what every rule is given and builds. *)
Definition task_ok (t : Task) : Prop := validate_task t = Ok tt.

End task.
