(* ===== verification/BoardArtifacts.v ===== *)
(** The artifacts of a task: its plans, the runs of them, the changes that
    deliver it, their reviews, and the discussions about it.

    Models [domain/project_board/entities/team.rs], [plan.rs], [run.rs],
    [change.rs], [review.rs] and [discussion.rs].  As a task is its fields, so is
    each artifact; what [new] admits is the predicate [*_ok]. *)

From stdpp Require Import gmap pretty.
From S2P Require Import Prelude BoardText BoardSchema BoardDescription BoardTask.

(** * Teams *)

Definition MAX_ROLES : nat := 16.
Definition MAX_MEMBERS : N := 32%N.
Definition MAX_MODEL_BYTES : nat := 100.
Definition MAX_IMAGE_BYTES : nat := 255.
Definition MIN_DEADLINE_SECONDS : N := 600%N.
Definition MAX_DEADLINE_SECONDS : N := 604800%N.
Definition DEFAULT_DEADLINE_SECONDS : N := 86400%N.

Record Role := mkRole {
  ro_name : Slug;
  ro_model : text;
  ro_effort : Effort;
  ro_members : N;
  ro_turns : option N;
}.
Record Team := mkTeam {
  te_roles : list Role;
  te_deadline_seconds : option N;
  te_image : option text;
}.
#[export] Instance Role_eq_dec : EqDecision Role. Proof. solve_decision. Defined.
#[export] Instance Team_eq_dec : EqDecision Team. Proof. solve_decision. Defined.

Definition deadline_seconds_or_default (t : Team) : N :=
  default DEFAULT_DEADLINE_SECONDS (te_deadline_seconds t).
Definition run_deadline_seconds (team : option Team) : N :=
  match team with Some t => deadline_seconds_or_default t | None => DEFAULT_DEADLINE_SECONDS end.

Section team.
Context `{Shapes}.

Definition Role_validate (field : string) (r : Role) : res SchemaError unit :=
  shaped (sub field "model") (ro_model r) MAX_MODEL_BYTES MODEL ;?
  ensure (from_one_to MAX_MEMBERS (ro_members r)) (sub field "limits/members") ;?
  ensure (match ro_turns r with Some n => (1 <=? n)%N | None => true end) (sub field "limits/turns").

Definition Team_validate (field : string) (t : Team) : res SchemaError unit :=
  distinct (sub field "roles") (ro_name <$> te_roles t) MAX_ROLES ;?
  ensure (negb (bool_decide (te_roles t = []))) (sub field "roles") ;?
  each (λ index r, Role_validate (at_index (sub field "roles") index) r) (te_roles t) ;?
  ensure (match te_deadline_seconds t with
          | Some s => (MIN_DEADLINE_SECONDS <=? s) && (s <=? MAX_DEADLINE_SECONDS)
          | None => true
          end)%N (sub field "deadline_seconds") ;?
  match te_image t with
  | Some image => shaped (sub field "image") image MAX_IMAGE_BYTES IMAGE
  | None => Ok tt
  end.

End team.

(** * Plans *)

Definition MAX_APPROACH_CHARS : N := 65536%N.
Definition MAX_HANDOFF_CHARS : N := 65536%N.
Definition MAX_PLAN_TEXT_BYTES : N := (320 * 1024)%N.

Record PlanItem := mkItem {
  pi_id : Slug;
  pi_title : text;
  pi_criteria : list text;
  pi_depends_on : list Slug;
}.
#[export] Instance PlanItem_eq_dec : EqDecision PlanItem. Proof. solve_decision. Defined.

Record Plan := mkPlan {
  pl_task : Slug;
  pl_version : N;
  pl_state : PlanState;
  pl_approach : text;
  pl_handoff : option text;
  pl_items : list PlanItem;
  pl_team : option Team;
  pl_proposed_by : Identity;
  pl_edited_by : option Identity;
  pl_accepted : option (Identity * Timestamp);
  pl_created : Timestamp;
  pl_updated : Timestamp;
}.
#[export] Instance Plan_eq_dec : EqDecision Plan. Proof. solve_decision. Defined.

(** ** Entering *)

Definition max_approach_chars : nat := 600.
Definition max_item_title_chars : nat := 70.
Definition item_criteria : nat * nat := (1, 4).
Definition max_criterion_chars : nat := 150.

Inductive PlanEntry := Capped | LegacyPlan.

Definition PlanEntry_of (policy : EntryPolicy) (handoff_given : bool) : PlanEntry :=
  match EntryPolicy_entry policy handoff_given with
  | EntrySectioned => Capped
  | EntryLegacy => LegacyPlan
  end.

Definition within (field : string) (t : text) (max : nat) : res SchemaError unit :=
  ensure (length t <=? max) field.

Definition PlanEntry_approach (e : PlanEntry) (approach : text) : res SchemaError unit :=
  match e with
  | Capped => within "approach" approach max_approach_chars
  | LegacyPlan => Ok tt
  end.

Definition capped_item (field : string) (i : PlanItem) : res SchemaError unit :=
  assert_that ((item_criteria.1 <=? item_criteria.2) && (item_criteria.2 <=? MAX_PER_ITEM)) ;?
  assert_that ((max_item_title_chars <=? MAX_LINE_CHARS) && (max_criterion_chars <=? MAX_LINE_CHARS)) ;?
  within (sub field "title") (pi_title i) max_item_title_chars ;?
  let count := length (pi_criteria i) in
  ensure (negb (count <? item_criteria.1) && negb (item_criteria.2 <? count)) (sub field "criteria") ;?
  assert_that ((item_criteria.1 <=? count) && (count <=? item_criteria.2)) ;?
  each (λ at_ criterion, within (at_index (sub field "criteria") at_) criterion max_criterion_chars)
    (pi_criteria i).

Definition PlanEntry_item (e : PlanEntry) (field : string) (i : PlanItem) : res SchemaError unit :=
  match e with Capped => capped_item field i | LegacyPlan => Ok tt end.

(** ** Cycles *)

(** [position]: the last item of each id. *)
Definition item_positions (items : list PlanItem) : gmap Slug nat :=
  foldl (λ m p, <[pi_id p.2 := p.1]> m) ∅ (zip (seq 0 (length items)) items).

(** Every dependency is settled; [None] where an index panics. *)
Fixpoint all_settled (pos : gmap Slug nat) (settled : list bool) (depends_on : list Slug) : option bool :=
  match depends_on with
  | [] => Some true
  | d :: ds =>
      at_ ← pos !! d;
      done ← settled !! at_;
      if (done : bool) then all_settled pos settled ds else Some false
  end.

(** The unsettled items from [index] on whose dependencies are settled. *)
Fixpoint ready_from (pos : gmap Slug nat) (settled : list bool) (index : nat) (items : list PlanItem)
    : option (list nat) :=
  match items with
  | [] => Some []
  | i :: items' =>
      done ← settled !! index;
      free ← (if (done : bool) then Some false else all_settled pos settled (pi_depends_on i));
      rest ← ready_from pos settled (S index) items';
      Some (if (free : bool) then index :: rest else rest)
  end.

Definition settle_all (ready : list nat) (settled : list bool) : list bool :=
  foldl (λ s index, <[index := true]> s) settled ready.

(** The loop; [None] once [fuel] rounds were not enough. *)
Fixpoint settle_rounds (fuel : nat) (items : list PlanItem) (pos : gmap Slug nat) (settled : list bool)
    : option (res SchemaError (option nat)) :=
  match fuel with
  | 0 => None
  | S fuel =>
      match ready_from pos settled 0 items with
      | None => Some Panic
      | Some [] => Some (Ok (position negb settled))
      | Some ready => settle_rounds fuel items pos (settle_all ready settled)
      end
  end.

(** At most one item settles per round before the last. *)
Definition blocked_by_cycle (items : list PlanItem) : option (res SchemaError (option nat)) :=
  settle_rounds (S (length items)) items (item_positions items) (replicate (length items) false).

(** ** The schema *)

Definition plan_text_bytes (p : Plan) : N :=
  (bytes (pl_approach p) + match pl_handoff p with Some t => bytes t | None => 0 end
   + sum_of (λ i, bytes (pi_title i) + sum_of bytes (pi_criteria i)) (pl_items p)
   + match pl_team p with
     | Some t => sum_of (λ r, bytes (ro_model r)) (te_roles t)
                 + match te_image t with Some i => bytes i | None => 0 end
     | None => 0
     end)%N.

Definition plan_item (p : Plan) (id : Slug) : option PlanItem :=
  List.find (λ i, text_eqb (pi_id i) id) (pl_items p).

Section plan.
Context `{Shapes}.

Definition PlanItem_validate (field : string) (i : PlanItem) : res SchemaError unit :=
  line (sub field "title") (pi_title i) MAX_LINE_CHARS ;?
  lines (sub field "criteria") (pi_criteria i) MAX_PER_ITEM ;?
  distinct (sub field "depends_on") (pi_depends_on i) MAX_PER_ITEM.

Definition names_siblings (ids : list Slug) (i : PlanItem) : bool :=
  forallb (λ d, negb (text_eqb d (pi_id i)) && bool_decide (d ∈ ids)) (pi_depends_on i).

Definition validate_items (items : list PlanItem) : res SchemaError unit :=
  let ids := pi_id <$> items in
  distinct "items" ids MAX_ITEMS ;?
  each (λ index i,
    PlanItem_validate (at_index "items" index) i ;?
    ensure (names_siblings ids i) (sub (at_index "items" index) "depends_on")) items ;?
  match blocked_by_cycle items with
  | Some (Ok (Some index)) => Err (sub (at_index "items" index) "depends_on")
  | Some (Ok None) => Ok tt
  | _ => Panic
  end.

Definition validate_acceptance (p : Plan) : res SchemaError unit :=
  let was_accepted := match pl_state p with
                      | PlanAccepted | PlanSuperseded => true
                      | PlanDraft | PlanDiscarded => false
                      end in
  match pl_accepted p, was_accepted with
  | None, false => Ok tt
  | Some (by_, at_), true =>
      Identity_validate "accepted/by" by_ ;?
      ensure ((pl_created p <=? at_) && (at_ <=? pl_updated p))%N "accepted/at"%string
  | _, _ => Err "accepted"%string
  end.

Definition validate_plan (p : Plan) : res SchemaError unit :=
  ensure (pl_created p <=? pl_updated p)%N "updated"%string ;?
  ensure (from_one_to MAX_PLAN_VERSION (pl_version p)) "version"%string ;?
  markdown "approach" (pl_approach p) MAX_APPROACH_CHARS ;?
  match pl_handoff p with
  | Some handoff =>
      markdown "handoff" handoff MAX_HANDOFF_CHARS ;?
      ensure (existsb (λ c, negb (is_whitespace c)) handoff) "handoff"%string
  | None => Ok tt
  end ;?
  validate_items (pl_items p) ;?
  Identity_validate "proposed_by" (pl_proposed_by p) ;?
  match pl_edited_by p with Some who => Identity_validate "edited_by" who | None => Ok tt end ;?
  validate_acceptance p ;?
  ensure (plan_text_bytes p <=? MAX_PLAN_TEXT_BYTES)%N "text"%string ;?
  match pl_team p with Some t => Team_validate "team" t | None => Ok tt end.

Definition Plan_new (p : Plan) : res SchemaError Plan := validate_plan p ;? Ok p.
Definition plan_ok (p : Plan) : Prop := validate_plan p = Ok tt.
(** The ids of a plan's items are ids. *)
Definition items_named (items : list PlanItem) : Prop := Forall (λ i, is_slug (pi_id i)) items.

End plan.

(** * Runs *)

Definition MAX_RUN_NUMBER : N := 999%N.
Definition MAX_RUN_TEXT_BYTES : N := (256 * 1024)%N.

Record RunItem := mkRunItem {
  ri_id : Slug;
  ri_state : ItemState;
  ri_owner : option text;
  ri_evidence : list text;
}.
Record Run := mkRun {
  ru_task : Slug;
  ru_number : N;
  ru_plan_version : N;
  ru_started : Timestamp;
  ru_ended : option Timestamp;
  ru_outcome : option RunOutcome;
  ru_cost : option N;
  ru_items : list RunItem;
}.
#[export] Instance RunItem_eq_dec : EqDecision RunItem. Proof. solve_decision. Defined.
#[export] Instance Run_eq_dec : EqDecision Run. Proof. solve_decision. Defined.

Definition run_is_open (r : Run) : bool := bool_decide (ru_ended r = None).

Definition run_text_bytes (r : Run) : N :=
  sum_of (λ i, match ri_owner i with Some o => bytes o | None => 0 end + sum_of bytes (ri_evidence i))%N
    (ru_items r).

Definition run_ran (r : Run) (p : Plan) : res SchemaError unit :=
  match pl_state p with
  | PlanAccepted | PlanSuperseded => Ok tt
  | PlanDraft | PlanDiscarded => Err "plan"%string
  end ;?
  ensure (text_eqb (pl_task p) (ru_task r)) "task"%string ;?
  ensure (pl_version p =? ru_plan_version r)%N "plan_version"%string ;?
  match position (λ i, bool_decide (plan_item p (ri_id i) = None)) (ru_items r) with
  | Some index => Err (sub (at_index "items" index) "id")
  | None => Ok tt
  end.

Section run.
Context `{Shapes}.

Definition RunItem_validate (field : string) (i : RunItem) : res SchemaError unit :=
  match ri_owner i with Some o => line (sub field "owner") o MAX_OWNER_CHARS | None => Ok tt end ;?
  lines (sub field "evidence") (ri_evidence i) MAX_PER_ITEM.

Definition validate_run (r : Run) : res SchemaError unit :=
  ensure (from_one_to MAX_RUN_NUMBER (ru_number r)) "number"%string ;?
  ensure (from_one_to MAX_PLAN_VERSION (ru_plan_version r)) "plan_version"%string ;?
  let? ended := match ru_ended r, ru_outcome r with
                | None, None => Ok false
                | Some ended, Some _ => if (ru_started r <=? ended)%N then Ok true else Err "ended"%string
                | _, _ => Err "ended"%string
                end in
  match ended, ru_cost r, ru_items r with
  | true, _, _ | false, None, [] => Ok tt
  | false, Some _, _ => Err "cost"%string
  | false, None, _ :: _ => Err "items"%string
  end ;?
  ensure (match ru_cost r with Some n => (n <=? MAX_BUDGET_TOKENS)%N | None => true end) "cost"%string ;?
  distinct "items" (ri_id <$> ru_items r) MAX_ITEMS ;?
  each (λ index i, RunItem_validate (at_index "items" index) i) (ru_items r) ;?
  ensure (run_text_bytes r <=? MAX_RUN_TEXT_BYTES)%N "text"%string.

Definition Run_new (r : Run) : res SchemaError Run := validate_run r ;? Ok r.
Definition run_ok (r : Run) : Prop := validate_run r = Ok tt.

End run.

(** * Changes *)

Definition MAX_CHANGE_NUMBER : N := 999%N.

Record Change := mkChange {
  ch_task : Slug;
  ch_number : N;
  ch_head_repo : RepoName;
  ch_branch : BranchName;
  ch_pr : option N;
  ch_merged : option CommitId;
  ch_linked_by : Identity;
  ch_unlinked : option (Identity * Timestamp);
  ch_created : Timestamp;
  ch_updated : Timestamp;
}.
#[export] Instance Change_eq_dec : EqDecision Change. Proof. solve_decision. Defined.

Definition is_linked (c : Change) : bool := bool_decide (ch_unlinked c = None).
Definition change_is_open (c : Change) : bool := is_linked c && bool_decide (ch_merged c = None).
Definition change_head (c : Change) : RepoName * BranchName := (ch_head_repo c, ch_branch c).

Definition validate_change `{Shapes} (c : Change) : res SchemaError unit :=
  ensure (ch_created c <=? ch_updated c)%N "updated"%string ;?
  ensure (from_one_to MAX_CHANGE_NUMBER (ch_number c)) "number"%string ;?
  ensure (match ch_pr c with Some pr => (1 <=? pr)%N | None => true end) "pr"%string ;?
  Identity_validate "linked_by" (ch_linked_by c) ;?
  match ch_unlinked c, ch_merged c with
  | None, _ => Ok tt
  | Some _, Some _ => Err "unlinked"%string
  | Some (by_, at_), None =>
      Identity_validate "unlinked/by" by_ ;?
      ensure ((ch_created c <=? at_) && (at_ <=? ch_updated c))%N "unlinked/at"%string
  end.

Definition Change_new `{Shapes} (c : Change) : res SchemaError Change := validate_change c ;? Ok c.
Definition change_ok `{Shapes} (c : Change) : Prop := validate_change c = Ok tt.

(** * Reviews *)

Definition MAX_ROUNDS : nat := 64.
Definition MAX_FINDINGS : nat := 128.
Definition MAX_REVIEW_TEXT_BYTES : N := (320 * 1024)%N.

Record Finding := mkFinding { fi_location : option text; fi_severity : Severity; fi_text : text }.
Record Round := mkRound {
  rd_commit : CommitId;
  rd_reviewer : Identity;
  rd_at : Timestamp;
  rd_verdict : ReviewVerdict;
  rd_findings : list Finding;
}.
Record Review_ := mkReview {
  rv_task : Slug;
  rv_change : N;
  rv_rounds : list Round;
  rv_created : Timestamp;
  rv_updated : Timestamp;
}.
#[export] Instance Finding_eq_dec : EqDecision Finding. Proof. solve_decision. Defined.
#[export] Instance Round_eq_dec : EqDecision Round. Proof. solve_decision. Defined.
#[export] Instance Review_eq_dec : EqDecision Review_. Proof. solve_decision. Defined.

Definition review_text_bytes (r : Review_) : N :=
  sum_of (λ round, sum_of (λ f, bytes (fi_text f)
            + match fi_location f with Some l => bytes l | None => 0 end)%N (rd_findings round))
    (rv_rounds r).

(** [Review::state], kept by [new] as its last round's verdict. *)
Definition review_state (r : Review_) : option ReviewVerdict := rd_verdict <$> list.last (rv_rounds r).

Section review.
Context `{Shapes}.

Definition validate_round (field : string) (r : Round) : res SchemaError unit :=
  Identity_validate (sub field "reviewer") (rd_reviewer r) ;?
  ensure (length (rd_findings r) <=? MAX_FINDINGS) (sub field "findings") ;?
  each (λ index f,
    let at_ := at_index (sub field "findings") index in
    match fi_location f with Some l => location (sub at_ "location") l | None => Ok tt end ;?
    line (sub at_ "text") (fi_text f) MAX_FINDING_CHARS) (rd_findings r).

(** The rounds from [index] on, after one at [last]; the last one's moment. *)
Fixpoint rounds_in_order (r : Review_) (index : nat) (last : Timestamp) (rounds : list Round)
    : res SchemaError Timestamp :=
  match rounds with
  | [] => Ok last
  | round :: rounds' =>
      let field := at_index "rounds" index in
      validate_round field round ;?
      ensure ((last <=? rd_at round) && (rd_at round <=? rv_updated r))%N (sub field "at") ;?
      rounds_in_order r (S index) (rd_at round) rounds'
  end.

Definition validate_review (r : Review_) : res SchemaError unit :=
  ensure (rv_created r <=? rv_updated r)%N "updated"%string ;?
  ensure (from_one_to MAX_CHANGE_NUMBER (rv_change r)) "change"%string ;?
  ensure ((1 <=? length (rv_rounds r)) && (length (rv_rounds r) <=? MAX_ROUNDS)) "rounds"%string ;?
  ensure (bool_decide (rd_at <$> head (rv_rounds r) = Some (rv_created r))) "rounds/0/at"%string ;?
  let? last := rounds_in_order r 0 (rv_created r) (rv_rounds r) in
  ensure (last =? rv_updated r)%N "updated"%string ;?
  ensure (review_text_bytes r <=? MAX_REVIEW_TEXT_BYTES)%N "text"%string.

Definition Review_new (r : Review_) : res SchemaError Review_ :=
  validate_review r ;?
  ensure (negb (bool_decide (review_state r = None))) "rounds"%string ;?
  Ok r.
Definition review_ok (r : Review_) : Prop := validate_review r = Ok tt.

End review.

(** * Discussions *)

Definition MAX_MESSAGES : nat := 1024.
Definition MAX_MESSAGE_LINES : nat := 64.
Definition MAX_MESSAGE_LINE_CHARS : nat := 1000.
Definition MAX_DISCUSSION_LINES : N := 16000%N.
Definition ROW_OVERHEAD_BYTES : N := 43%N.
Definition MAX_DISCUSSION_TEXT_BYTES : N := (1024 * 1024 - 4 * 1024)%N.

Record Message := mkMessage { me_author : Identity; me_at : Timestamp; me_text : text }.
Record Discussion := mkDiscussion {
  di_id : Slug;
  di_title : text;
  di_task : option Slug;
  di_state : DiscussionState;
  di_started_by : Identity;
  di_messages : list Message;
  di_created : Timestamp;
  di_updated : Timestamp;
}.
#[export] Instance Message_eq_dec : EqDecision Message. Proof. solve_decision. Defined.
#[export] Instance Discussion_eq_dec : EqDecision Discussion. Proof. solve_decision. Defined.

Definition message_lines (m : Message) : nat := length (split_lines (me_text m)).

Definition escaped (t : text) : N :=
  (bytes t + N.of_nat (length (filter (λ c, c = PIPE) t)))%N.
Definition identity_bytes (who : Identity) : N := (escaped (id_name who) + escaped (id_email who))%N.

Definition discussion_text_bytes (d : Discussion) : N :=
  (escaped (di_title d) + identity_bytes (di_started_by d)
   + sum_of (λ m, sum_of (λ l, escaped l + identity_bytes (me_author m) + ROW_OVERHEAD_BYTES)
                    (split_lines (me_text m))) (di_messages d))%N.
Definition discussion_lines (d : Discussion) : N := sum_of (λ m, N.of_nat (message_lines m)) (di_messages d).

Section discussion.
Context `{Shapes}.

Definition message_text (field : string) (m : Message) : res SchemaError unit :=
  ensure ((1 <=? message_lines m) && (message_lines m <=? MAX_MESSAGE_LINES)) (sub field "text") ;?
  each (λ index t, line (at_index (sub field "text") index) t MAX_MESSAGE_LINE_CHARS)
    (split_lines (me_text m)).

Definition message_shape (field : string) (m : Message) : res SchemaError unit :=
  Identity_validate (sub field "author") (me_author m) ;?
  message_text field m.

Fixpoint messages_in_order (d : Discussion) (index : nat) (last : Timestamp) (messages : list Message)
    : res SchemaError unit :=
  match messages with
  | [] => Ok tt
  | m :: messages' =>
      let field := at_index "messages" index in
      ensure ((last <=? me_at m) && (me_at m <=? di_updated d))%N (sub field "at") ;?
      message_shape field m ;?
      messages_in_order d (S index) (me_at m) messages'
  end.

Definition validate_discussion (d : Discussion) : res SchemaError unit :=
  ensure (di_created d <=? di_updated d)%N "updated"%string ;?
  ensure ((1 <=? length (di_messages d)) && (length (di_messages d) <=? MAX_MESSAGES)) "messages"%string ;?
  ensure (discussion_lines d <=? MAX_DISCUSSION_LINES)%N "messages"%string ;?
  ensure (discussion_text_bytes d <=? MAX_DISCUSSION_TEXT_BYTES)%N "text"%string ;?
  line "title" (di_title d) MAX_TITLE_CHARS ;?
  Identity_validate "started_by" (di_started_by d) ;?
  ensure (bool_decide (me_at <$> head (di_messages d) = Some (di_created d))) "messages/0/at"%string ;?
  messages_in_order d 0 (di_created d) (di_messages d).

Definition Discussion_new (d : Discussion) : res SchemaError Discussion := validate_discussion d ;? Ok d.
Definition discussion_ok (d : Discussion) : Prop := validate_discussion d = Ok tt.

End discussion.
