(* ===== verification/BoardClaims.v ===== *)
(** Claims: taking, renewing and taking over a task, and the stamps of changes.

    Models [domain/project_board/services/claims.rs].  Every rule is given the
    caller's clock [now]; a change is stamped [max now updated]. *)

From S2P Require Import Prelude BoardText BoardSchema BoardDescription BoardTask.

Definition STAMP_SLACK_SECONDS : N := 30%N.
Definition CLOCK_AHEAD_SECONDS : N := 60%N.

Import BoardRuleError.

(** * Time *)

Definition is_live (c : Claim) (now : Timestamp) : bool := (now <? cl_expires c)%N.

Definition after_last (updated now : Timestamp) : res RuleError Timestamp :=
  let at_ := (now `max` updated)%N in
  assert_that (updated <=? at_)%N ;? Ok at_.

Definition stamp (t : Task) (now : Timestamp) : res RuleError Timestamp := after_last (ta_updated t) now.

Definition not_before (t : Task) (stamps : list Timestamp) (now : Timestamp) : res RuleError Timestamp :=
  let floor := foldl N.max (ta_updated t) stamps in
  let at_ := (now `max` floor)%N in
  assert_that (ta_updated t <=? at_)%N ;? Ok at_.

Definition within_slack (updated : Timestamp) (latest : option Timestamp) : bool :=
  match latest with
  | None => true
  | Some latest =>
      let bound := match plus_seconds latest STAMP_SLACK_SECONDS with Ok b => b | _ => latest end in
      (updated <=? bound)%N
  end.

Definition claim_start (t : Task) (now : Timestamp) : res RuleError Timestamp :=
  let since := (now `max` ta_created t)%N in
  let? at_ := stamp t now in
  assert_that (since <=? at_)%N ;? Ok since.

Definition claimable_at (t : Task) (now : Timestamp) : res RuleError unit :=
  let within := match plus_seconds now CLOCK_AHEAD_SECONDS with
                | Ok bound => (ta_created t <=? bound)%N
                | _ => true
                end in
  let until := match minus_seconds (ta_created t) CLOCK_AHEAD_SECONDS with
               | Ok at_ => at_
               | _ => ta_created t
               end in
  ensure within (TaskClockAhead (ta_created t) until).

(** * Holders *)

Definition held_by (t : Task) (actor : Identity) : res RuleError Claim :=
  match ta_claim t with
  | Some c => if same_committer (cl_holder c) actor then Ok c else Err NotHolder
  | None => Err NoClaim
  end.

Definition held_or_lapsed_by (t : Task) (actor : Identity) (now : Timestamp) : res RuleError Claim :=
  match held_by t actor with
  | Err NotHolder =>
      if match ta_claim t with Some c => negb (is_live c now) | None => false end
      then Err NotHolderExpired else Err NotHolder
  | held => held
  end.

Definition held_live_by (t : Task) (actor : Identity) (now : Timestamp) : res RuleError Claim :=
  let? c := held_or_lapsed_by t actor now in
  if is_live c now then Ok c else Err ClaimExpired.

(** * Leases *)

(** A moment halfway through a lease. *)
Definition halfway (c : Claim) : res RuleError Timestamp :=
  let lease := seconds_since (cl_expires c) (cl_since c) in
  let half := Z.to_N (Z.quot lease 2) in
  let? at_ := match plus_seconds (cl_since c) half with Ok at_ => Ok at_ | _ => Panic end in
  assert_that ((cl_since c <=? at_) && (at_ <=? cl_expires c))%N ;? Ok at_.

Definition renewal_due (t : Task) (holder : Identity) (now : Timestamp) : res RuleError bool :=
  match ta_claim t with
  | Some c => if same_committer (cl_holder c) holder
              then let? at_ := halfway c in Ok (at_ <=? now)%N else Ok true
  | None => Ok true
  end.

Definition renew_after (t : Task) : res RuleError (option Timestamp) :=
  match ta_claim t with Some c => map_ok Some (halfway c) | None => Ok None end.

Record ClaimFacts := mkClaimFacts { cf_held_s : Z; cf_left_s : Z; cf_holder_is_writer : bool }.

Definition claim_facts (t : Task) (writer : Identity) (now : Timestamp) : option ClaimFacts :=
  (λ c, mkClaimFacts (Z.max (seconds_since now (cl_since c)) 0) (seconds_since (cl_expires c) now)
          (same_committer (cl_holder c) writer)) <$> ta_claim t.

Definition new_claim (holder : Identity) (t : Task) (now : Timestamp) : res RuleError Claim :=
  claimable_at t now ;?
  let? since := claim_start t now in
  let spelt at_ := map_err (λ _ : SchemaError, Invalid "claim/expires"%string) at_ in
  let? expires := spelt (plus_seconds now CLAIM_TTL_SECONDS) in
  (if (since <? expires)%N
   then let? cap := spelt (plus_seconds since CLAIM_TTL_SECONDS) in assert_that (expires <=? cap)%N
   else Panic) ;?
  Ok (mkClaim holder since expires).

(** * Rules *)

Section claims.
Context `{Shapes}.

Definition settle (next : Task) (at_ : Timestamp) : res RuleError Task :=
  assert_that (ta_updated next <=? at_)%N ;?
  map_err Invalid (Task_new (with_updated at_ next)).

Definition renew (t : Task) (holder : Identity) (now : Timestamp) : res RuleError Task :=
  let? c := held_or_lapsed_by t holder now in
  let? at_ := stamp t now in
  let? fresh := new_claim holder t now in
  let renewed := mkClaim (cl_holder c) (cl_since fresh `max` cl_since c)%N
                   (cl_expires fresh `max` cl_expires c)%N in
  assert_that ((cl_since renewed <? cl_expires renewed) && (cl_expires c <=? cl_expires renewed))%N ;?
  settle (with_claim (Some renewed) t) at_.

Definition take_over (t : Task) (taker : Identity) (now : Timestamp) : res RuleError Task :=
  let? c := match ta_claim t, may_hold_claim (ta_status t) with
            | Some c, true => Ok c
            | None, true => Err NoClaim
            | _, false => Err (NotTakeable (ta_status t))
            end in
  if same_committer (cl_holder c) taker then Err AlreadyHolder
  else
    claimable_at t now ;?
    if is_live c now then Err ClaimLive
    else
      let? at_ := stamp t now in
      let? fresh := new_claim taker t now in
      settle (with_claim (Some fresh) t) at_.

End claims.
