(* ===== verification/BoardRuns.v ===== *)
(** Runs: beginning one, folding it back, and what its end means for its task.

    Models [domain/project_board/services/runs.rs] and [run_outcomes.rs]. *)

From S2P Require Import Prelude BoardText BoardSchema BoardDescription BoardTask BoardArtifacts BoardClaims.

Import BoardRuleError.

(** * Reading a task's runs *)

Definition runs_of_task (t : Task) (runs : list Run) : res RuleError unit :=
  ensure (forallb (λ r, text_eqb (ru_task r) (ta_id t)) runs) NotThisTasks.

Definition open_of (t : Task) (runs : list Run) : res RuleError (option Run) :=
  runs_of_task t runs ;?
  match filter (λ r, run_is_open r = true) runs with
  | [] => Ok None
  | [r] => Ok (Some r)
  | _ => Err RunsInconsistent
  end.

(** The statuses a task leaves its holder for. *)
Definition holds_moves_to (to : TaskStatus) : bool :=
  match to with
  | Draft | Ready | Done | Archived => true
  | Claimed | InProgress | Review | Blocked => false
  end.

Definition may_move_with (t : Task) (runs : list Run) (to : TaskStatus) : res RuleError unit :=
  let? open := open_of t runs in
  match open, holds_moves_to to with
  | None, _ | Some _, false => Ok tt
  | Some r, true => Err (RunOpen (ru_number r))
  end.

(** The largest number in use, 0 for none. *)
Definition last_number (numbers : list N) : N := foldl N.max 0%N numbers.

(** [find] of a run by number and of its plan by version. *)
Definition run_and_plan (runs : list Run) (plans : list Plan) (number : N) : res RuleError (Run * Plan) :=
  let? r := or_err (List.find (λ r, (ru_number r =? number)%N) runs) (NoSuchRun number) in
  let? p := or_err (List.find (λ p, (pl_version p =? ru_plan_version r)%N) plans)
              (UnknownPlanVersion (ru_plan_version r)) in
  Ok (r, p).

Definition undone_items (p : Plan) (items : list RunItem) : list Slug :=
  filter (λ id, existsb (λ i, text_eqb (ri_id i) id && bool_decide (ri_state i = ItemDone)) items = false)
    (pi_id <$> pl_items p).

(** * Ends *)

Inductive HeldEnd := HeldSucceeded | HeldStopped | HeldFailed.
Definition HeldEnd_outcome (e : HeldEnd) : RunOutcome :=
  match e with HeldSucceeded => RunSucceeded | HeldStopped => RunStopped | HeldFailed => RunFailed end.

Record Reported := mkReported {
  rp_items : list RunItem;
  rp_cost : option N;
  rp_report : SwarmReport;
  rp_unpushed : nat;
}.

Inductive StopKind := StopBlocked | StopCancelled.

Definition status_after (outcome : RunOutcome) (stop : StopKind) : TaskStatus :=
  match outcome, stop with
  | RunSucceeded, _ => Review
  | RunStopped, StopBlocked => Blocked
  | RunStopped, StopCancelled | (RunFailed | RunLost), _ => Ready
  end.

Section runs.
Context `{Shapes}.

Definition begin_run (t : Task) (runs : list Run) (p : Plan) (actor : Identity) (now : Timestamp)
    : res RuleError Run :=
  held_live_by t actor now ;?
  let? open := open_of t runs in
  match open with None => Ok tt | Some going => Err (RunOpen (ru_number going)) end ;?
  ensure (text_eqb (pl_task p) (ta_id t)) NotThisTasks ;?
  ensure (bool_decide (pl_state p = PlanAccepted) && bool_decide (ta_accepted_plan t = Some (pl_version p)))
    (PlanNotAccepted (pl_version p)) ;?
  let last := last_number (ru_number <$> runs) in
  ensure (last <? MAX_RUN_NUMBER)%N (Invalid "number"%string) ;?
  let? started := stamp t now in
  map_err Invalid (Run_new (mkRun (ta_id t) (last + 1)%N (pl_version p) started None None None [])).

Definition run_ended (r : Run) (outcome : RunOutcome) (cost : option N) (items : list RunItem) (now : Timestamp)
    : res RuleError Run :=
  ensure (run_is_open r) (RunEnded (ru_number r)) ;?
  map_err Invalid (Run_new (mkRun (ru_task r) (ru_number r) (ru_plan_version r) (ru_started r)
    (Some (now `max` ru_started r)%N) (Some outcome) cost items)).

Definition fold_back (r : Run) (p : Plan) (outcome : RunOutcome) (cost : option N) (items : list RunItem)
    (now : Timestamp) : res RuleError Run :=
  map_err Invalid (run_ran r p) ;?
  let? folded := run_ended r outcome cost items now in
  map_err Invalid (run_ran folded p) ;?
  Ok folded.

Definition end_lost (t : Task) (ran : Run * Plan) (reported : Reported) (actor : Identity) (now : Timestamp)
    : res RuleError Run :=
  match ta_claim t with Some _ => map_ok (λ _, tt) (held_live_by t actor now) | None => Ok tt end ;?
  runs_of_task t [ran.1] ;?
  let? at_ := stamp t now in
  let? lost := fold_back ran.1 ran.2 RunLost (rp_cost reported) (rp_items reported) at_ in
  assert_that (bool_decide (ru_outcome lost = Some RunLost)) ;?
  Ok lost.

Definition end_held (t : Task) (ran : Run * Plan) (e : HeldEnd) (reported : Reported) (actor : Identity)
    (now : Timestamp) : res RuleError Run :=
  held_live_by t actor now ;?
  runs_of_task t [ran.1] ;?
  let? at_ := stamp t now in
  let? folded := fold_back ran.1 ran.2 (HeldEnd_outcome e) (rp_cost reported) (rp_items reported) at_ in
  match e with
  | HeldSucceeded =>
      let undone := undone_items ran.2 (ru_items folded) in
      ensure (bool_decide (undone = [])) (ItemsNotDone (ru_number folded) undone (rp_report reported)) ;?
      ensure (rp_unpushed reported =? 0) (NotPushed (ru_number folded) (rp_unpushed reported))
  | HeldStopped | HeldFailed => Ok tt
  end ;?
  assert_that (bool_decide (ru_outcome folded = Some (HeldEnd_outcome e))) ;?
  Ok folded.

Definition lost_at (r : Run) (at_ : Timestamp) : res RuleError Run := run_ended r RunLost None [] at_.

(** * What an end means for the task *)

Definition task_after_end (t : Task) (ended : Run) (stop : StopKind) (now : Timestamp)
    : res RuleError (option Task) :=
  runs_of_task t [ended] ;?
  let? outcome := or_err (ru_outcome ended) (RunOpen (ru_number ended)) in
  match ta_status t with
  | Draft | Ready | Done | Archived => Ok None
  | Claimed | InProgress | Review | Blocked =>
      let to := status_after outcome stop in
      let? claim := match to with
                    | Ready => Ok None
                    | Review | Blocked => Ok (ta_claim t)
                    | _ => Panic
                    end in
      if bool_decide (to = ta_status t) && bool_decide (claim = ta_claim t) then Ok None
      else
        assert_that (bool_decide (ta_resolution t = None) && bool_decide (ta_reason t = None)) ;?
        let? at_ := stamp t now in
        map_ok Some (settle (with_claim claim (with_status to t)) at_)
  end.

Definition task_after_undo (t : Task) (ended : Run) (from : TaskStatus) (now : Timestamp)
    : res RuleError (option Task) :=
  match ta_status t, from with
  | InProgress, (Review | Blocked) =>
      runs_of_task t [ended] ;?
      ensure (negb (run_is_open ended)) (RunOpen (ru_number ended)) ;?
      let? at_ := stamp t now in
      let? restored := settle (with_status from t) at_ in
      assert_that (bool_decide (ta_claim restored = ta_claim t)) ;?
      Ok (Some restored)
  | _, _ => task_after_end t ended StopCancelled now
  end.

End runs.

(** * What a reader is told *)

Inductive ItemStanding := NotStarted | StandingIn (state : ItemState).

Definition item_standings (p : Plan) (latest : option Run) : list ItemStanding :=
  let ran := r ← latest; if (ru_plan_version r =? pl_version p)%N then Some r else None in
  (λ i, match ran with
        | None => NotStarted
        | Some r => StandingIn (default ItemTodo
                      (ri_state <$> List.find (λ ri, text_eqb (ri_id ri) (pi_id i)) (ru_items r)))
        end) <$> pl_items p.

Definition inconsistencies (t : Task) (runs : list Run) : list Inconsistency :=
  let going := existsb run_is_open runs in
  let done_without_plan := bool_decide (ta_status t = Done) && bool_decide (ta_resolution t = Some Completed)
    && bool_decide (ta_accepted_plan t = None) && bool_decide (runs = []) in
  let '(in_progress, outside) := match ta_status t with
                                 | InProgress => (negb going, false)
                                 | _ => (false, going)
                                 end in
  (if done_without_plan then [DoneWithoutPlan] else [])
  ++ (if in_progress then [InProgressWithoutRun] else [])
  ++ (if outside then [RunGoingOutsideProgress] else []).
