(* ===== verification/BoardTransitions.v ===== *)
(** The moves of a task, its start and the edit of a draft.

    Models [domain/project_board/services/transitions.rs], [starts.rs] and
    [drafts.rs]. *)

From stdpp Require Import gmap.
From S2P Require Import Prelude BoardText BoardSchema BoardDescription BoardTask BoardArtifacts BoardClaims BoardRuns.

Import BoardRuleError.

(** * The tables *)

Inductive Actor := Anyone | Holder | Releaser | HolderWhileLive.
Inductive ClaimEffect := Keep | Take | Clear.
Inductive Takes := TakesNothing | TakesReason.

Definition TRANSITIONS : list (TaskStatus * TaskStatus * Actor * ClaimEffect * Takes) :=
  [(Draft, Ready, Anyone, Keep, TakesNothing);
   (Draft, Archived, Anyone, Keep, TakesNothing);
   (Ready, Draft, Anyone, Keep, TakesNothing);
   (Ready, Claimed, Anyone, Take, TakesNothing);
   (Ready, Archived, Anyone, Keep, TakesNothing);
   (Review, Done, Holder, Clear, TakesNothing);
   (Done, Archived, Anyone, Keep, TakesNothing);
   (Review, Archived, HolderWhileLive, Clear, TakesNothing);
   (Claimed, Ready, Releaser, Clear, TakesNothing);
   (InProgress, Ready, Releaser, Clear, TakesNothing);
   (Review, Ready, HolderWhileLive, Clear, TakesReason);
   (Blocked, Ready, HolderWhileLive, Clear, TakesNothing)].

Definition LIFECYCLE : list (TaskStatus * TaskStatus * LifecycleAction) :=
  [(Ready, InProgress, ActStart);
   (Claimed, InProgress, ActStart);
   (Review, InProgress, ActStart);
   (Blocked, InProgress, ActStart);
   (InProgress, Review, ActEndRun);
   (InProgress, Blocked, ActEndRun);
   (Claimed, Blocked, ActRelease);
   (Ready, Done, ActDoneWithoutRun);
   (Claimed, Done, ActDoneWithoutRun)].

Definition lifecycle_action (from to : TaskStatus) : option LifecycleAction :=
  snd <$> List.find (λ row : TaskStatus * TaskStatus * LifecycleAction,
            bool_decide (row.1 = (from, to))) LIFECYCLE.

Definition transition (from to : TaskStatus) : option (Actor * ClaimEffect * Takes) :=
  (λ '(_, _, who, effect, takes), (who, effect, takes)) <$>
    List.find (λ row : TaskStatus * TaskStatus * Actor * ClaimEffect * Takes,
      bool_decide (row.1.1.1 = (from, to))) TRANSITIONS.

(** A run going, or what the task links, holds a move back. *)
Definition held_by_links (from to : TaskStatus) : bool :=
  match from, to with
  | Review, Done | (Draft | Ready | Review), Archived => true
  | _, _ => false
  end.

(** * Reasons *)

Inductive MoveReason := ReasonAbsent | ReasonGiven (t : text) | ReasonUnasked.

Definition entered_reason (t : text) : res RuleError text :=
  map_err Invalid (entered_line "reason" t) ;?
  ensure (negb (bool_decide (t = []))) (Invalid "reason"%string) ;?
  Ok t.

Definition reason_kept (from to : TaskStatus) (takes : Takes) (given : MoveReason)
    : res RuleError (option text) :=
  match takes, given with
  | TakesReason, ReasonGiven t => map_ok Some (entered_reason t)
  | TakesReason, ReasonUnasked | TakesNothing, (ReasonAbsent | ReasonUnasked) => Ok None
  | TakesReason, ReasonAbsent => Err (ReasonRequired from to)
  | TakesNothing, ReasonGiven _ => Err (Invalid "reason"%string)
  end.

(** * What a move is judged by *)

Definition not_superseded (t : Task) : res RuleError unit :=
  ensure (bool_decide (ta_superseded_by t = [])) (BoardRuleError.Superseded (ta_superseded_by t)).

Definition numbers (t : Task) (changes : list Change) (kept : Change → bool) : res RuleError (list N) :=
  ensure (forallb (λ c, text_eqb (ch_task c) (ta_id t)) changes) NotThisTasks ;?
  Ok (ch_number <$> filter (λ c, kept c = true) changes).

Definition status_of (tasks : list Task) (id : Slug) : option TaskStatus :=
  ta_status <$> List.find (λ other, text_eqb (ta_id other) id) tasks.

Definition active_child (id : Slug) (other : Task) : bool :=
  bool_decide (ta_parent other = Some id)
  && match ta_status other with
     | Claimed | InProgress | Review | Blocked => true
     | Draft | Ready | Done | Archived => false
     end.

Definition relations_allow (t : Task) (to : TaskStatus) (tasks : list Task) : res RuleError unit :=
  match to with
  | Claimed =>
      let undone := filter (λ id, match status_of tasks id with
                                  | Some s => negb (releases_dependents s)
                                  | None => false
                                  end = true) (ta_depends_on t) in
      let missing := filter (λ id, status_of tasks id = None) (ta_depends_on t) in
      match undone, missing with
      | [], [] => Ok tt
      | _, _ => Err (DependencyNotDone undone missing)
      end
  | Archived =>
      let active := ta_id <$> filter (λ other, active_child (ta_id t) other = true) tasks in
      match active with [] => Ok tt | _ :: _ => Err (ChildrenActive active) end
  | _ => Ok tt
  end.

Definition allowed (t : Task) (to : TaskStatus) (actor : Identity) (now : Timestamp)
    : res RuleError (ClaimEffect * Takes) :=
  let from := ta_status t in
  let? row := match transition from to, lifecycle_action from to with
              | Some row, None => Ok row
              | None, Some action => Err (UseLifecycle from to action)
              | None, None => Err (NotAllowed from to)
              | Some _, Some _ => Panic
              end in
  let '(who, effect, takes) := row in
  match who with
  | Anyone => Ok tt
  | Holder => map_ok (λ _, tt) (held_live_by t actor now)
  | Releaser => map_ok (λ _, tt) (held_or_lapsed_by t actor now)
  | HolderWhileLive =>
      if match ta_claim t with Some c => is_live c now | None => false end
      then map_ok (λ _, tt) (held_by t actor) else Ok tt
  end ;?
  match to with Done => not_superseded t | _ => Ok tt end ;?
  match held_by_links from to, ta_prs t with
  | true, _ :: _ => Err (PrsLinked (ta_prs t))
  | true, [] | false, _ => Ok (effect, takes)
  end.

Record MoveReads := mkMoveReads { mr_runs : bool; mr_changes : bool }.

Definition move_reads (t : Task) (to : TaskStatus) (actor : Identity) (now : Timestamp)
    : res RuleError MoveReads :=
  allowed t to actor now ;?
  assert_that (bool_decide (lifecycle_action (ta_status t) to = None)) ;?
  Ok (mkMoveReads (holds_moves_to to) (held_by_links (ta_status t) to)).

Definition run_ends_it (from to : TaskStatus) (e : RuleError) : RuleError :=
  match from, to, e with
  | InProgress, Ready, RunOpen _ => UseLifecycle from to ActEndRun
  | _, _, _ => e
  end.

(** A task's resolution once it moves. *)
Definition resolved (to : TaskStatus) (had : option Resolution) (superseded : bool)
    : res RuleError (option Resolution) :=
  match to, had with
  | Done, _ => Ok (Some Completed)
  | Archived, Some had => Ok (Some had)
  | Archived, None => Ok (if superseded then Some BoardSchema.Superseded else None)
  | _, _ => assert_that (bool_decide (had = None)) ;? Ok None
  end.

Definition completable (t : Task) : res RuleError unit :=
  match ta_status t with
  | Review => not_superseded t
  | from => Err (match lifecycle_action from Done with
                 | Some action => UseLifecycle from Done action
                 | None => NotAllowed from Done
                 end)
  end.

Definition done_without_run_reads (t : Task) (actor : Identity) (now : Timestamp)
    : res RuleError MoveReads :=
  match ta_status t with
  | Ready => Ok tt
  | Claimed => map_ok (λ _, tt) (held_live_by t actor now)
  | from => Err (NotAllowed from Done)
  end ;?
  not_superseded t ;?
  Ok (mkMoveReads true true).

Record DoneWork := mkDoneWork {
  dw_runs : list Run;
  dw_changes : list Change;
  dw_tasks : list Task;
  dw_merged : gset N;
}.

(** A task completed, and its run ended as lost if one was going. *)
Record CompletedTask := mkCompleted { cp_task : Task; cp_run : option Run }.

(** * Moves *)

Section moves.
Context `{Shapes}.

Definition move_with_reason (t : Task) (to : TaskStatus) (reason : MoveReason) (actor : Identity)
    (runs : list Run) (changes : list Change) (tasks : list Task) (now : Timestamp) : res RuleError Task :=
  let? et := allowed t to actor now in
  let from := ta_status t in
  let? kept := reason_kept from to et.2 reason in
  let? linked := numbers t changes is_linked in
  ensure (negb (held_by_links from to && negb (bool_decide (linked = [])))) (ChangesLinked linked) ;?
  map_err (run_ends_it from to) (may_move_with t runs to) ;?
  relations_allow t to tasks ;?
  let? at_ := stamp t now in
  let? resolution := resolved to (ta_resolution t) (negb (bool_decide (ta_superseded_by t = []))) in
  let reason := match kept, to, resolution with
                | Some r, _, _ => Some r
                | None, Archived, Some DoneWithoutRun => ta_reason t
                | None, _, _ => None
                end in
  let? claim := match et.1 with
                | Keep => Ok (ta_claim t)
                | Take => map_ok Some (new_claim actor t now)
                | Clear => Ok None
                end in
  assert_that (bool_decide (claim = None) || may_hold_claim to) ;?
  settle (with_claim claim (with_reason reason (with_resolution resolution (with_status to t)))) at_.

Definition move_task (t : Task) (to : TaskStatus) (actor : Identity) (runs : list Run)
    (changes : list Change) (tasks : list Task) (now : Timestamp) : res RuleError Task :=
  move_with_reason t to ReasonAbsent actor runs changes tasks now.

Definition done_without_run (t : Task) (reason : text) (actor : Identity) (work : DoneWork) (now : Timestamp)
    : res RuleError Task :=
  done_without_run_reads t actor now ;?
  let? reason := entered_reason reason in
  let? open := numbers t (dw_changes work) change_is_open in
  ensure (bool_decide (open = [])) (ChangesUnmerged open) ;?
  let unmerged := filter (λ pr, pr ∉ dw_merged work) (ta_prs t) in
  ensure (bool_decide (unmerged = [])) (PrsOpen unmerged) ;?
  may_move_with t (dw_runs work) Done ;?
  relations_allow t Claimed (dw_tasks work) ;?
  relations_allow t Archived (dw_tasks work) ;?
  let? at_ := stamp t now in
  let? done := settle (with_claim None (with_reason (Some reason)
                 (with_resolution (Some DoneWithoutRun) (with_status Done t)))) at_ in
  assert_that (negb (bool_decide (ta_reason done = None)) && bool_decide (ta_claim done = None)) ;?
  Ok done.

Definition finish (t : Task) (runs : list Run) (now : Timestamp)
    : res RuleError (CompletedTask * Timestamp) :=
  let? at_ := stamp t now in
  let? open := open_of t runs in
  let? run := match open with Some r => map_ok Some (lost_at r at_) | None => Ok None end in
  assert_that (Bool.eqb (negb (bool_decide (open = None)))
                 (match run with Some r => negb (run_is_open r) | None => false end)) ;?
  assert_that (bool_decide (ta_superseded_by t = [])) ;?
  let? resolution := resolved Done (ta_resolution t) false in
  let? done := settle (with_claim None (with_resolution resolution (with_status Done t))) at_ in
  assert_that (bool_decide (ta_resolution done = Some Completed)) ;?
  Ok (mkCompleted done run, at_).

Definition complete_merged (t : Task) (merged : gset N) (changes : list Change) (runs : list Run)
    (now : Timestamp) : res RuleError CompletedTask :=
  completable t ;?
  let? open := numbers t changes change_is_open in
  ensure (bool_decide (open = [])) (ChangesUnmerged open) ;?
  let unmerged := filter (λ pr, pr ∉ merged) (ta_prs t) in
  ensure (negb (bool_decide (ta_prs t = []))) NoPrs ;?
  ensure (bool_decide (unmerged = [])) (PrsUnmerged unmerged) ;?
  map_ok fst (finish t runs now).

(** * Starts *)

Record Started := mkStarted { sd_task : Task; sd_run : Run; sd_plan : Plan; sd_from : TaskStatus }.

Definition took_claim (s : Started) : bool := bool_decide (sd_from s = Ready).

Definition start (t : Task) (tasks : list Task) (runs : list Run) (plan : option Plan) (actor : Identity)
    (now : Timestamp) : res RuleError Started :=
  let from := ta_status t in
  let? at_ := stamp t now in
  let? next := match from with
               | Ready =>
                   move_reads t Claimed actor at_ ;?
                   relations_allow t Claimed tasks ;?
                   let? c := new_claim actor t now in
                   Ok (with_claim (Some c) t)
               | Claimed | Review | Blocked =>
                   assert_that (bool_decide (lifecycle_action from InProgress = Some ActStart)) ;?
                   renew t actor now
               | InProgress => renew t actor now
               | Draft | Done | Archived => Err (NotAllowed from InProgress)
               end in
  let? plan := match ta_accepted_plan t, plan with
               | None, _ => Err NoAcceptedPlan
               | Some version, None => Err (UnknownPlanVersion version)
               | Some _, Some p => Ok p
               end in
  let? started := settle (with_reason None (with_status InProgress next)) at_ in
  let? run := begin_run started runs plan actor now in
  assert_that (bool_decide (ta_updated started = at_) && bool_decide (ru_started run = at_)) ;?
  assert_that (match ta_claim started with
               | Some c => same_committer (cl_holder c) actor && (cl_since c <=? at_)%N
               | None => false
               end) ;?
  Ok (mkStarted started run plan from).

(** * Drafts *)

Record DraftEdit := mkDraftEdit {
  ed_title : option text;
  ed_description : option text;
  ed_parent : option (option Slug);
  ed_depends_on : option (list Slug);
  ed_entry : Entry;
}.

(** The value an edit gives, when it is not the one held. *)
Definition changed_text (given : option text) (held : text) : option text :=
  t ← given; if decide (t = held) then None else Some t.

Definition edit_draft (t : Task) (edit : DraftEdit) (now : Timestamp) : res RuleError Task :=
  match ta_status t with Draft => Ok tt | status => Err (NotDraft status) end ;?
  match changed_text (ed_title edit) (ta_title t) with
  | Some title => map_err Invalid (Entry_title (ed_entry edit) "title" title)
  | None => Ok tt
  end ;?
  let changed := changed_text (ed_description edit) (ta_description t) in
  match changed with
  | Some d => map_err Invalid (Entry_description (ed_entry edit) d)
  | None => Ok tt
  end ;?
  let next := match ed_title edit with Some title => with_title title t | None => t end in
  let next := match changed with
              | Some d => with_description d (Entry_form (ed_entry edit) d) next
              | None => next
              end in
  let next := match ed_parent edit with Some p => with_parent p next | None => next end in
  let next := match ed_depends_on edit with Some ds => with_depends_on ds next | None => next end in
  ensure (negb (bool_decide (next = t))) NoEdit ;?
  let? at_ := stamp t now in
  settle next at_.

End moves.
