(* ===== verification/BoardPlans.v ===== *)
(** The versions of a task's plan: proposing, editing, accepting, discarding.

    Models [domain/project_board/services/plans.rs]. *)

From stdpp Require Import gmap.
From S2P Require Import Prelude BoardText BoardSchema BoardDescription BoardTask BoardArtifacts BoardClaims BoardRuns.

Import BoardRuleError.

Record PlanContent := mkContent {
  pc_approach : text;
  pc_handoff : option text;
  pc_items : list PlanItem;
  pc_team : option Team;
  pc_entry : PlanEntry;
}.

(** When a change happens, and the latest time it may build on. *)
Record Moment := mkMoment { mo_now : Timestamp; mo_latest : option Timestamp }.

Inductive PlanRead := Unpinned | Unchanged | Changed | Stamped (at_ : Timestamp).

Record AsRead := mkAsRead { ar_read : PlanRead; ar_accepted : option N }.

(** An acceptance: the task naming the version, that version, and the one it
    supersedes. *)
Record AcceptedPlan := mkAccepted { ac_task : Task; ac_plan : Plan; ac_superseded : option Plan }.

(** * What a change is judged by *)

Definition may_build_on (when : Moment) (p : Plan) : res RuleError unit :=
  ensure (within_slack (pl_updated p) (mo_latest when)) (PlanAhead (pl_version p) (pl_updated p)).

Definition plans_of_task (t : Task) (versions : list Plan) : res RuleError unit :=
  ensure (forallb (λ p, text_eqb (pl_task p) (ta_id t)) versions) NotThisTasks.

Definition accepted_versions (versions : list Plan) : list N :=
  pl_version <$> filter (λ p, pl_state p = PlanAccepted) versions.

Definition plans_consistent (t : Task) (versions : list Plan) : res RuleError unit :=
  plans_of_task t versions ;?
  let numbers : gset N := list_to_set (pl_version <$> versions) in
  ensure (size numbers =? length versions) PlansInconsistent ;?
  match accepted_versions versions, ta_accepted_plan t with
  | [], None => Ok tt
  | [version], Some named => ensure (version =? named)%N PlansInconsistent
  | _, _ => Err PlansInconsistent
  end.

Definition open_to_plans (t : Task) : res RuleError unit :=
  match ta_status t with
  | Draft | Ready | Claimed | InProgress | Review | Blocked => Ok tt
  | Done | Archived => Err (TaskFinished (ta_status t))
  end.

Definition as_accepted (t : Task) (expected : option N) : res RuleError unit :=
  ensure (bool_decide (ta_accepted_plan t = expected)) (AcceptedPlanChanged (ta_accepted_plan t)).

Definition as_read (p : Plan) (read : PlanRead) : res RuleError unit :=
  let unchanged := match read with
                   | Unpinned | Unchanged => true
                   | Changed => false
                   | Stamped expected => (expected =? pl_updated p)%N
                   end in
  ensure unchanged (PlanChanged (pl_version p) (pl_updated p)).

Definition is_draft (p : Plan) : res RuleError unit :=
  match pl_state p with PlanDraft => Ok tt | state => Err (PlanNotDraft state) end.

Definition decides (t : Task) (actor : Identity) (now : Timestamp) : res RuleError unit :=
  match ta_claim t with
  | Some _ => map_ok (λ _, tt) (held_live_by t actor now)
  | None => Ok tt
  end.

Definition stamps_of (versions : list Plan) (when : Moment) : list Timestamp :=
  filter (λ updated, within_slack updated (mo_latest when) = true) (pl_updated <$> versions).

(** * Entering *)

(** [HeldText::take]: whether a free held item has the text, taking it. *)
Definition held_text_matches (held : list PlanItem) (free : list bool) (i : PlanItem) : option nat :=
  position (λ hf : PlanItem * bool,
    hf.2 && text_eqb (pi_title hf.1) (pi_title i) && bool_decide (pi_criteria hf.1 = pi_criteria i))
    (zip held free).

Definition held_text_take (held : list PlanItem) (free : list bool) (i : PlanItem)
    : res RuleError (bool * list bool) :=
  match held_text_matches held free i with
  | Some at_ => assert_that (default false (free !! at_)) ;? Ok (true, <[at_ := false]> free)
  | None => Ok (false, free)
  end.

Section entering.
Context `{Shapes}.

Definition entered_item (field : string) (i : PlanItem) : res RuleError unit :=
  map_err InvalidPlan (entered_line (sub field "title") (pi_title i)) ;?
  each (λ at_ criterion,
    map_err InvalidPlan (entered_line (at_index (sub field "criteria") at_) criterion)) (pi_criteria i).

Fixpoint entered_items (entry : PlanEntry) (held : list PlanItem) (free : list bool) (index : nat)
    (items : list PlanItem) : res RuleError unit :=
  match items with
  | [] => Ok tt
  | i :: items' =>
      let field := at_index "items" index in
      entered_item field i ;?
      let? taken := held_text_take held free i in
      (if (taken.1 : bool) then Ok tt else map_err InvalidPlan (PlanEntry_item entry field i)) ;?
      entered_items entry held taken.2 (S index) items'
  end.

(** [entered]: the text of the content, beside what the draft holds already. *)
Definition content_entered (c : PlanContent) (held : option Plan) : res RuleError unit :=
  map_err InvalidPlan (entered_text "approach" (pc_approach c)) ;?
  (if bool_decide (pl_approach <$> held = Some (pc_approach c)) then Ok tt
   else map_err InvalidPlan (PlanEntry_approach (pc_entry c) (pc_approach c))) ;?
  match pc_handoff c with
  | Some handoff => map_err InvalidPlan (entered_text "handoff" handoff)
  | None => Ok tt
  end ;?
  let held_items := match held with Some p => pl_items p | None => [] end in
  entered_items (pc_entry c) held_items (replicate (length held_items) true) 0 (pc_items c).

(** * The rules *)

Definition propose_at (t : Task) (versions : list Plan) (c : PlanContent) (actor : Identity) (when : Moment)
    : res RuleError Plan :=
  open_to_plans t ;?
  plans_consistent t versions ;?
  let? now := not_before t (stamps_of versions when) (mo_now when) in
  let last := last_number (pl_version <$> versions) in
  content_entered c None ;?
  ensure (last <? MAX_PLAN_VERSION)%N (InvalidPlan "version"%string) ;?
  map_err InvalidPlan (Plan_new (mkPlan (ta_id t) (last + 1)%N PlanDraft (pc_approach c) (pc_handoff c)
    (pc_items c) (pc_team c) actor None None now now)).

Definition with_plan_state (state : PlanState) (accepted : option (Identity * Timestamp)) (updated : Timestamp)
    (p : Plan) : Plan :=
  mkPlan (pl_task p) (pl_version p) state (pl_approach p) (pl_handoff p) (pl_items p) (pl_team p)
    (pl_proposed_by p) (pl_edited_by p) accepted (pl_created p) updated.

Definition edit_plan_draft (t : Task) (versions : list Plan) (p : Plan) (c : PlanContent) (expected : PlanRead)
    (actor : Identity) (when : Moment) : res RuleError Plan :=
  assert_that (bool_decide (p ∈ versions)) ;?
  open_to_plans t ;?
  plans_of_task t [p] ;?
  plans_of_task t versions ;?
  is_draft p ;?
  as_read p expected ;?
  may_build_on when p ;?
  content_entered c (Some p) ;?
  ensure (negb (text_eqb (pl_approach p) (pc_approach c) && bool_decide (pl_handoff p = pc_handoff c)
                && bool_decide (pl_items p = pc_items c) && bool_decide (pl_team p = pc_team c))) NoEdit ;?
  let? now := not_before t (stamps_of versions when) (mo_now when) in
  let? updated := after_last (pl_updated p) now in
  map_err InvalidPlan (Plan_new (mkPlan (pl_task p) (pl_version p) (pl_state p) (pc_approach c) (pc_handoff c)
    (pc_items c) (pc_team c) (pl_proposed_by p) (Some actor) (pl_accepted p) (pl_created p) updated)).

(** The stamp of an acceptance: no earlier than any of the plans it touches. *)
Fixpoint after_plans (at_ : Timestamp) (plans : list Plan) : res RuleError Timestamp :=
  match plans with
  | [] => Ok at_
  | p :: plans' => let? at_ := after_last (pl_updated p) at_ in after_plans at_ plans'
  end.

Definition accept (t : Task) (versions : list Plan) (runs : list Run) (version : N) (expected : option AsRead)
    (actor : Identity) (when : Moment) : res RuleError AcceptedPlan :=
  open_to_plans t ;?
  plans_consistent t versions ;?
  let? chosen := or_err (List.find (λ p, (pl_version p =? version)%N) versions) (UnknownPlanVersion version) in
  is_draft chosen ;?
  match expected with
  | Some read => as_read chosen (ar_read read) ;? as_accepted t (ar_accepted read)
  | None => Ok tt
  end ;?
  decides t actor (mo_now when) ;?
  let? open := open_of t runs in
  match open with None => Ok tt | Some r => Err (RunOpen (ru_number r)) end ;?
  let before := List.find (λ p, bool_decide (pl_state p = PlanAccepted)) versions in
  let touched := chosen :: option_list before in
  each (λ _ p, may_build_on when p) touched ;?
  let? at_ := stamp t (mo_now when) in
  let? at_ := after_plans at_ touched in
  let? at_ := not_before t (stamps_of versions when) at_ in
  let? task := settle (with_accepted_plan (Some version) t) at_ in
  let? plan := map_err InvalidPlan (Plan_new (with_plan_state PlanAccepted (Some (actor, at_)) at_ chosen)) in
  let? superseded := match before with
                     | Some b => map_ok Some (map_err InvalidPlan
                                   (Plan_new (with_plan_state PlanSuperseded (pl_accepted b) at_ b)))
                     | None => Ok None
                     end in
  let result := filter (λ p, pl_state p ≠ PlanAccepted) (filter (λ p, pl_version p ≠ version) versions)
                  ++ plan :: option_list superseded in
  assert_that (bool_decide (accepted_versions result = [version])
               && bool_decide (ta_accepted_plan task = Some version)) ;?
  Ok (mkAccepted task plan superseded).

Definition discard (t : Task) (versions : list Plan) (p : Plan) (expected : PlanRead) (actor : Identity)
    (when : Moment) : res RuleError Plan :=
  assert_that (bool_decide (p ∈ versions)) ;?
  open_to_plans t ;?
  plans_of_task t [p] ;?
  plans_of_task t versions ;?
  is_draft p ;?
  as_read p expected ;?
  may_build_on when p ;?
  decides t actor (mo_now when) ;?
  let? now := not_before t (stamps_of versions when) (mo_now when) in
  let? updated := after_last (pl_updated p) now in
  map_err InvalidPlan (Plan_new (with_plan_state PlanDiscarded (pl_accepted p) updated p)).

End entering.
