(* ===== verification/BoardChanges.v ===== *)
(** The pull requests and changes that deliver a task, and their reviews.

    Models [domain/project_board/services/pull_requests.rs], [changes.rs],
    [reviews.rs] and [issue_numbers.rs].  What the host reads of pull requests is
    an argument, as it is of the rules. *)

From stdpp Require Import gmap.
From S2P Require Import Prelude BoardText BoardSchema BoardDescription BoardTask BoardArtifacts BoardClaims BoardRuns BoardTransitions BoardPlans.

Import BoardRuleError.

Inductive PrState := PrOpen | PrClosed | PrMerged (commit : CommitId).

Record HostPr := mkHostPr { hp_head_repo : option RepoName; hp_head_ref : BranchName; hp_state : PrState }.
Abbreviation HostPrs := (gmap N HostPr).

(** Everything on the board a link must not clash with. *)
Record Linked := mkLinked { ln_changes : list Change; ln_tasks : list Task }.

Record Head := mkHead { hd_repo : RepoName; hd_branch : BranchName; hd_pr : option N }.

(** * Pull requests linked the old way *)

Definition may_link (t : Task) (holder : Identity) (now : Timestamp) : res RuleError unit :=
  map_ok (λ _, tt) (held_live_by t holder now).

Section pull_requests.
Context `{Shapes}.

Definition add_pr (t : Task) (holder : Identity) (pr : N) (board : Linked) (now : Timestamp)
    : res RuleError Task :=
  may_link t holder now ;?
  let by_change := (λ c, (ch_task c, Some (ch_number c))) <$>
    List.find (λ c, is_linked c && bool_decide (ch_pr c = Some pr)) (ln_changes board) in
  let by_task := (λ o : Task, (ta_id o, None)) <$>
    List.find (λ o, negb (text_eqb (ta_id o) (ta_id t)) && bool_decide (pr ∈ ta_prs o)) (ln_tasks board) in
  match union by_change by_task with
  | None => Ok tt
  | Some (task, change) => Err (ChangeAlreadyLinked task change)
  end ;?
  ensure (negb (bool_decide (pr ∈ ta_prs t))) (PrAlreadyLinked pr) ;?
  let? at_ := stamp t now in
  settle (with_prs (ta_prs t ++ [pr]) t) at_.

Definition remove_pr (t : Task) (holder : Identity) (pr : N) (now : Timestamp) : res RuleError Task :=
  held_live_by t holder now ;?
  match position (N.eqb pr) (ta_prs t) with
  | Some index =>
      let? at_ := stamp t now in
      settle (with_prs (delete index (ta_prs t)) t) at_
  | None => Err (PrNotLinked pr)
  end.

End pull_requests.

(** * Changes *)

Definition changes_of_task (t : Task) (changes : list Change) : res RuleError unit :=
  ensure (forallb (λ c, text_eqb (ch_task c) (ta_id t)) changes) NotThisTasks.

Definition linked_prs (changes : list Change) : list N :=
  omap ch_pr (filter (λ c, is_linked c = true) changes).
Definition open_heads (changes : list Change) : list (RepoName * BranchName) :=
  change_head <$> filter (λ c, change_is_open c = true) changes.

Definition changes_consistent (t : Task) (changes : list Change) : res RuleError unit :=
  changes_of_task t changes ;?
  let distinct_numbers : gset N := list_to_set (ch_number <$> changes) in
  let distinct_prs : gset N := list_to_set (linked_prs changes) in
  let heads : gset (RepoName * BranchName) := list_to_set (open_heads changes) in
  ensure ((size distinct_numbers =? length changes) && (size distinct_prs =? length (linked_prs changes))
          && (size heads =? length (open_heads changes))) ChangesInconsistent.

Definition changes_not_ahead (changes : list Change) (when : Moment) : res RuleError unit :=
  match List.find (λ c, negb (within_slack (ch_updated c) (mo_latest when))) changes with
  | None => Ok tt
  | Some c => Err (ChangeAhead (ch_number c) (ch_updated c))
  end.

(** A stamp past the bound panics. *)
Definition change_stamps (changes : list Change) (when : Moment) : res RuleError (list Timestamp) :=
  collect (λ c, assert_that (within_slack (ch_updated c) (mo_latest when)) ;? Ok (ch_updated c)) changes.

Definition after_change (c : Change) (now : Timestamp) : res RuleError Timestamp :=
  after_last (ch_updated c) now.

Definition old_way (t : Task) (tasks : list Task) (pr : N) : res RuleError unit :=
  match List.find (λ o, bool_decide (pr ∈ ta_prs o)) (t :: tasks) with
  | None => Ok tt
  | Some other => Err (ChangeAlreadyLinked (ta_id other) None)
  end.

Definition linkable (pr : N) (head : Head) (host : HostPrs) : res RuleError unit :=
  let? read := or_err (host !! pr) (PrUnread pr) in
  let same_head := bool_decide (hp_head_repo read = Some (hd_repo head))
                   && text_eqb (hp_head_ref read) (hd_branch head) in
  match hp_state read, same_head with
  | PrOpen, true => Ok tt
  | PrOpen, false => Err (PrHeadMismatch pr)
  | (PrClosed | PrMerged _), _ => Err (PrNotOpen pr)
  end.

Definition head_taken (head : Head) (c : Change) : bool :=
  let pr_taken := is_linked c && negb (bool_decide (hd_pr head = None)) && bool_decide (ch_pr c = hd_pr head) in
  let branch_taken := change_is_open c && bool_decide (change_head c = (hd_repo head, hd_branch head)) in
  pr_taken || branch_taken.

(** The merge commit of a pull request the host reads as merged. *)
Definition merge_of (host : HostPrs) (pr : option N) : option CommitId :=
  match pr ≫= (λ pr, host !! pr) with
  | Some (mkHostPr _ _ (PrMerged commit)) => Some commit
  | _ => None
  end.

Record ChangesMerged := mkChangesMerged { cm_completed : CompletedTask; cm_changes : list Change }.

Section changes.
Context `{Shapes}.

Definition link (t : Task) (board : Linked) (head : Head) (host : HostPrs) (actor : Identity) (when : Moment)
    : res RuleError Change :=
  held_live_by t actor (mo_now when) ;?
  let own := filter (λ c, ch_task c = ta_id t) (ln_changes board) in
  changes_consistent t own ;?
  changes_not_ahead own when ;?
  match hd_pr head with
  | None => Ok tt
  | Some pr => linkable pr head host ;? old_way t (ln_tasks board) pr
  end ;?
  match List.find (head_taken head) (ln_changes board) with
  | None => Ok tt
  | Some linked => Err (ChangeAlreadyLinked (ch_task linked) (Some (ch_number linked)))
  end ;?
  let last := last_number (ch_number <$> own) in
  ensure (last <? MAX_CHANGE_NUMBER)%N (Invalid "number"%string) ;?
  let? stamps := change_stamps own when in
  let? at_ := not_before t stamps (mo_now when) in
  map_err Invalid (Change_new (mkChange (ta_id t) (last + 1)%N (hd_repo head) (hd_branch head) (hd_pr head)
    None actor None at_ at_)).

Definition unlink (t : Task) (changes : list Change) (number : N) (host : HostPrs) (actor : Identity)
    (when : Moment) : res RuleError Change :=
  held_live_by t actor (mo_now when) ;?
  changes_consistent t changes ;?
  changes_not_ahead changes when ;?
  let? c := or_err (List.find (λ c, (ch_number c =? number)%N) changes) (NoSuchChange number) in
  match ch_merged c, is_linked c with
  | None, true => Ok tt
  | Some _, _ => Err (ChangeMerged number)
  | None, false => Err (ChangeUnlinked number)
  end ;?
  let? read := match ch_pr c with
               | Some pr => map_ok Some (or_err (hp_state <$> host !! pr) (PrUnread pr))
               | None => Ok None
               end in
  match read with Some (PrMerged _) => Err (ChangeMerged number) | _ => Ok tt end ;?
  let? stamps := change_stamps changes when in
  let? now := not_before t stamps (mo_now when) in
  let? at_ := after_change c now in
  map_err Invalid (Change_new (mkChange (ch_task c) (ch_number c) (ch_head_repo c) (ch_branch c) (ch_pr c)
    (ch_merged c) (ch_linked_by c) (Some (actor, at_)) (ch_created c) at_)).

Definition complete (t : Task) (changes : list Change) (host : HostPrs) (runs : list Run) (when : Moment)
    : res RuleError ChangesMerged :=
  completable t ;?
  changes_consistent t changes ;?
  changes_not_ahead changes when ;?
  let linked := filter (λ c, is_linked c = true) changes in
  each (λ _ pr, or_err (host !! pr) (PrUnread pr) ;? Ok tt) (ta_prs t ++ omap ch_pr linked) ;?
  let old_open := filter (λ pr, merge_of host (Some pr) = None) (ta_prs t) in
  ensure (bool_decide (old_open = [])) (PrsUnmerged old_open) ;?
  let commits := omap (λ c, merge_of host (ch_pr c)) linked in
  let unmerged := ch_number <$> filter (λ c, merge_of host (ch_pr c) = None) linked in
  ensure (negb (bool_decide (linked = []))) NoChanges ;?
  ensure (bool_decide (unmerged = [])) (ChangesUnmerged unmerged) ;?
  match List.find (λ c, negb (bool_decide (ch_merged c = None))) linked with
  | None => Ok tt
  | Some c => Err (ChangeMerged (ch_number c))
  end ;?
  assert_that (length commits =? length linked) ;?
  let? fin := finish t runs (mo_now when) in
  let? merged := collect (λ cc : Change * CommitId,
    let '(c, commit) := cc in
    let? after := after_change c (mo_now when) in
    map_err Invalid (Change_new (mkChange (ch_task c) (ch_number c) (ch_head_repo c) (ch_branch c) (ch_pr c)
      (Some commit) (ch_linked_by c) (ch_unlinked c) (ch_created c) (fin.2 `max` after)%N))) (zip linked commits) in
  Ok (mkChangesMerged fin.1 merged).

(** * Reviews *)

Record RoundDraft := mkRoundDraft {
  dr_commit : CommitId;
  dr_verdict : ReviewVerdict;
  dr_findings : list Finding;
}.

Definition add_round (c : Change) (review : option Review_) (draft : RoundDraft) (reviewer : Identity)
    (when : Moment) : res RuleError Review_ :=
  ensure (is_linked c) (ChangeUnlinked (ch_number c)) ;?
  let? na := match review with
             | Some r =>
                 ensure (text_eqb (rv_task r) (ch_task c) && (rv_change r =? ch_number c)%N) NotThisChange ;?
                 ensure (within_slack (rv_updated r) (mo_latest when)) (ReviewAhead (rv_change r) (rv_updated r)) ;?
                 let? at_ := after_last (rv_updated r) (mo_now when) in
                 Ok (r, at_)
             | None =>
                 ensure (within_slack (ch_updated c) (mo_latest when)) (ChangeAhead (ch_number c) (ch_updated c)) ;?
                 Ok (mkReview (ch_task c) (ch_number c) [] (mo_now when) (mo_now when),
                     (mo_now when `max` ch_updated c)%N)
             end in
  let '(next, at_) := na in
  let round := mkRound (dr_commit draft) reviewer at_ (dr_verdict draft) (dr_findings draft) in
  let created := match review with Some _ => rv_created next | None => at_ end in
  let? added := map_err Invalid (Review_new
    (mkReview (rv_task next) (rv_change next) (rv_rounds next ++ [round]) created at_)) in
  assert_that (bool_decide (list.last (rv_rounds added) = Some round)) ;?
  assert_that (text_eqb (rv_task added) (ch_task c) && (rv_change added =? ch_number c)%N) ;?
  assert_that (match review with Some r => (rv_updated r <=? rv_updated added)%N | None => true end) ;?
  Ok added.

End changes.

(** * Issue numbers *)

(** [entry(key).or_insert(value)]. *)
Definition or_insert {V} (m : gmap N V) (kv : N * V) : gmap N V :=
  match m !! kv.1 with Some _ => m | None => <[kv.1 := kv.2]> m end.

(** Who links each pull request, the old way before a change. *)
Definition pr_holders (tasks : list Task) (changes : list Change) : gmap N Slug :=
  let by_tasks := foldl or_insert ∅ (t ← tasks; (λ pr, (pr, ta_id t)) <$> ta_prs t) in
  foldl or_insert by_tasks (omap (λ c, (λ pr, (pr, ch_task c)) <$> ch_pr c) changes).

(** The tasks of each issue, in their order. *)
Definition issue_owners (tasks : list Task) : gmap N (list Slug) :=
  foldl (λ m t, match ta_github_issue t with
                | Some issue => <[issue := default [] (m !! issue) ++ [ta_id t]]> m
                | None => m
                end) ∅ tasks.

Definition own_references (t : Task) : list N :=
  omap (λ r, match ref_points r with Own number => Some number | _ => None end) (ta_references t).

Definition own_prs_referenced (tasks : list Task) (changes : list Change) : list RuleError :=
  t ← tasks;
  omap (λ c, pr ← ch_pr c;
             if bool_decide (pr ∈ own_references t)
             then Some (OwnPrReferenced (ta_id t) pr (ch_number c)) else None)
    (filter (λ c, ch_task c = ta_id t) (filter (λ c, is_linked c = true) changes)).

Definition issue_clashes (holders : gmap N Slug) (entry : N * list Slug) : list RuleError :=
  let '(issue, tasks) := entry in
  ((λ p : Slug * Slug, IssueShared issue p.1 p.2) <$> zip tasks (tail tasks))
  ++ match holders !! issue with
     | Some holder => (λ t, IssueIsPr issue t holder) <$> tasks
     | None => []
     end.

(** Ascending by issue, as a [BTreeMap] iterates. *)
Definition issue_le (a b : N * list Slug) : Prop := (a.1 <= b.1)%N.
#[export] Instance issue_le_dec a b : Decision (issue_le a b). Proof. unfold issue_le. apply _. Defined.
Definition owners_in_order (owners : gmap N (list Slug)) : list (N * list Slug) :=
  merge_sort issue_le (map_to_list owners).

Definition number_clashes (tasks : list Task) (changes : list Change) : list RuleError :=
  (owners_in_order (issue_owners tasks) ≫= issue_clashes (pr_holders tasks changes))
  ++ own_prs_referenced tasks changes.

Definition issue_numbers_hold (tasks : list Task) (changes : list Change) : res RuleError unit :=
  match number_clashes tasks changes with [] => Ok tt | clash :: _ => Err clash end.
