(* ===== verification/BoardDiscussions.v ===== *)
(** Discussions: beginning one, adding to it, linking it to a task, closing it.

    Models [domain/project_board/services/discussions.rs]. *)

From Stdlib Require Import Ascii.
From stdpp Require Import pretty.
From S2P Require Import Prelude BoardText BoardSchema BoardDescription BoardTask BoardArtifacts BoardClaims BoardPlans.

Import BoardRuleError.

Record Opening := mkOpening {
  op_id : Slug;
  op_title : text;
  op_task : option Task;
  op_started_by : Identity;
  op_messages : list Message;
}.

Definition discussion_open (d : Discussion) : res RuleError unit :=
  match di_state d with
  | DiscussionOpen => Ok tt
  | DiscussionShut => Err (DiscussionClosed (di_id d))
  end.

Definition discussion_built_on (d : Discussion) (when : Moment) : res RuleError unit :=
  ensure (within_slack (di_updated d) (mo_latest when)) (DiscussionAhead (di_id d) (di_updated d)).

Definition messages_not_ahead (id : Slug) (messages : list Message) (when : Moment) : res RuleError unit :=
  let in_time m := within_slack (me_at m) (Some (mo_now when)) && within_slack (me_at m) (mo_latest when) in
  match List.find (λ m, negb (in_time m)) messages with
  | None => Ok tt
  | Some m => Err (MessageAhead id (me_at m))
  end.

Definition room (d : Discussion) : res RuleError unit :=
  match length (di_messages d) <=? MAX_MESSAGES,
        (discussion_lines d <=? MAX_DISCUSSION_LINES)%N,
        (discussion_text_bytes d <=? MAX_DISCUSSION_TEXT_BYTES)%N with
  | true, true, true => Ok tt
  | false, _, _ => Err (DiscussionFull (di_id d) LimitMessages)
  | true, false, _ => Err (DiscussionFull (di_id d) LimitLines)
  | true, true, false => Err (DiscussionFull (di_id d) LimitText)
  end.

(** [parse::<usize>()] of a field's index. *)
Definition parse_usize (t : text) : option N :=
  let digits := match t with c :: t' => if (c =? 43)%N then t' else t | [] => t end in
  let value := foldl (λ n c, n * 10 + (c - 48))%N 0%N digits in
  if negb (bool_decide (digits = [])) && forallb is_ascii_digit digits && (value <=? u64_max)%N
  then Some value else None.

Definition of_text (t : text) : string := String.string_of_list_ascii (ascii_of_N <$> t).

(** A refusal of one of the batch's messages, named by its place in the batch. *)
Definition in_batch (field : SchemaError) (before : nat) : SchemaError :=
  let place := rest ← strip_prefix (tx "messages/") (tx field);
               let '(index, tail) := default (rest, []) (split_once 47%N rest) in
               (λ i, (i, tail)) <$> parse_usize index in
  match place with
  | Some (index, tail) =>
      if (N.of_nat before <=? index)%N then
        let named := ("batch/" +:+ pretty (index - N.of_nat before)%N)%string in
        if decide (tail = []) then named else sub named (of_text tail)
      else field
  | None => field
  end.

Section discussions.
Context `{Shapes}.

Definition entered_messages (list_ : string) (messages : list Message) : res RuleError unit :=
  map_err Invalid
    (each (λ index m, entered_message (sub (at_index list_ index) "text") (me_text m)) messages).

Definition begin_discussion (o : Opening) (when : Moment) : res RuleError Discussion :=
  map_err Invalid (entered_line "title" (op_title o)) ;?
  entered_messages "messages" (op_messages o) ;?
  messages_not_ahead (op_id o) (op_messages o) when ;?
  match head (op_messages o), list.last (op_messages o) with
  | Some first, Some last =>
      map_err Invalid (Discussion_new (mkDiscussion (op_id o) (op_title o) (ta_id <$> op_task o) DiscussionOpen
        (op_started_by o) (op_messages o) (me_at first) (mo_now when `max` me_at last)%N))
  | _, _ => Err (Invalid "messages"%string)
  end.

Definition append_messages (d : Discussion) (messages : list Message) (when : Moment)
    : res RuleError Discussion :=
  discussion_open d ;?
  discussion_built_on d when ;?
  let before := length (di_messages d) in
  ensure (before + length messages <=? MAX_MESSAGES) (DiscussionFull (di_id d) LimitMessages) ;?
  entered_messages "batch" messages ;?
  messages_not_ahead (di_id d) messages when ;?
  let? last := or_err (list.last messages) NoEdit in
  map_err Invalid (each (λ index m, message_shape (at_index "batch" index) m) messages) ;?
  let? updated := after_last (di_updated d) (mo_now when) in
  let next := mkDiscussion (di_id d) (di_title d) (di_task d) (di_state d) (di_started_by d)
                (di_messages d ++ messages) (di_created d) (updated `max` me_at last)%N in
  room next ;?
  map_err (λ e, Invalid (in_batch e before)) (Discussion_new next).

Definition link_discussion (d : Discussion) (t : Task) (when : Moment) : res RuleError Discussion :=
  discussion_built_on d when ;?
  match di_task d with
  | None => Ok tt
  | Some linked => if text_eqb linked (ta_id t) then Err NoEdit else Err (DiscussionLinked (di_id d) linked)
  end ;?
  let? updated := after_last (di_updated d) (mo_now when) in
  map_err Invalid (Discussion_new (mkDiscussion (di_id d) (di_title d) (Some (ta_id t)) (di_state d)
    (di_started_by d) (di_messages d) (di_created d) updated)).

Definition close_discussion (d : Discussion) (when : Moment) : res RuleError Discussion :=
  discussion_open d ;?
  discussion_built_on d when ;?
  let? updated := after_last (di_updated d) (mo_now when) in
  map_err Invalid (Discussion_new (mkDiscussion (di_id d) (di_title d) (di_task d) DiscussionShut
    (di_started_by d) (di_messages d) (di_created d) updated)).

End discussions.
