(* ===== verification/BoardView.v ===== *)
(** The board as a change reads it: its snapshot, the views of one task, and
    the pointers between tasks.

    Models [application/project_board/ports.rs] ([BoardSnapshot],
    [BoardArtifact]), [ports/artifact_key.rs], [dto.rs] ([once]),
    [domain/project_board/services/artifacts_of.rs],
    [use_cases/board_view.rs], [read_pins.rs] and [task_pointers.rs].  The words of
    a refusal, and the errors of the store, the clock and the host, are not
    modelled.  A write replaces the artifacts of its keys, as the store's port
    documents; the lists of a snapshot are read as sets. *)

From stdpp Require Import gmap.
From S2P Require Import Prelude BoardText BoardSchema BoardDescription BoardTask BoardArtifacts BoardClaims BoardRuns BoardTransitions BoardPlans BoardChanges.

(** * Artifacts and their keys *)

Inductive ArtifactKey :=
  | KeyTask (id : Slug)
  | KeyPlan (task : Slug) (version : N)
  | KeyRun (task : Slug) (number : N)
  | KeyChange (task : Slug) (number : N)
  | KeyReview (task : Slug) (change : N)
  | KeyDiscussion (id : Slug).
#[export] Instance ArtifactKey_eq_dec : EqDecision ArtifactKey. Proof. solve_decision. Defined.

(** What uses a task's id besides a task. *)
Inductive IdUser :=
  | UserPlan (version : N)
  | UserRun (number : N)
  | UserChange (number : N)
  | UserReview (change : N)
  | UserDiscussion (id : Slug).

(** ** Order *)

(** The order of strings: of their bytes in UTF-8, so of their scalar values. *)
Fixpoint text_compare (a b : text) : comparison :=
  match a, b with
  | [], [] => Eq
  | [], _ :: _ => Lt
  | _ :: _, [] => Gt
  | x :: a', y :: b' => match (x ?= y)%N with Eq => text_compare a' b' | c => c end
  end.

Definition or_else (c : comparison) (next : comparison) : comparison :=
  match c with Eq => next | _ => c end.

(** The derived orders: by constructor, then by the fields in turn. *)
Definition key_compare (a b : ArtifactKey) : comparison :=
  let fields k := match k with
                  | KeyTask id => (0%N, id, 0%N)
                  | KeyPlan task n => (1%N, task, n)
                  | KeyRun task n => (2%N, task, n)
                  | KeyChange task n => (3%N, task, n)
                  | KeyReview task n => (4%N, task, n)
                  | KeyDiscussion id => (5%N, id, 0%N)
                  end in
  let '(i, s, m) := fields a in
  let '(j, t, n) := fields b in
  or_else (i ?= j)%N (or_else (text_compare s t) (m ?= n)%N).

Definition user_compare (a b : IdUser) : comparison :=
  let fields u := match u with
                  | UserPlan n => (0%N, n, [])
                  | UserRun n => (1%N, n, [])
                  | UserChange n => (2%N, n, [])
                  | UserReview n => (3%N, n, [])
                  | UserDiscussion id => (4%N, 0%N, id)
                  end in
  let '(i, m, s) := fields a in
  let '(j, n, t) := fields b in
  or_else (i ?= j)%N (or_else (m ?= n)%N (text_compare s t)).

(** [Iterator::min]: the first of the least. *)
Definition least {A} (compare : A → A → comparison) (l : list A) : option A :=
  match l with
  | [] => None
  | x :: l' => Some (foldl (λ y x, match compare x y with Lt => x | _ => y end) x l')
  end.

Definition of_task (t : Task) : ArtifactKey := KeyTask (ta_id t).
Definition of_plan (p : Plan) : ArtifactKey := KeyPlan (pl_task p) (pl_version p).
Definition of_run (r : Run) : ArtifactKey := KeyRun (ru_task r) (ru_number r).
Definition of_change (c : Change) : ArtifactKey := KeyChange (ch_task c) (ch_number c).
Definition of_review (r : Review_) : ArtifactKey := KeyReview (rv_task r) (rv_change r).
Definition of_discussion (d : Discussion) : ArtifactKey := KeyDiscussion (di_id d).

Inductive BoardArtifact :=
  | ATask (t : Task)
  | APlan (p : Plan)
  | ARun (r : Run)
  | AChange (c : Change)
  | AReview (r : Review_)
  | ADiscussion (d : Discussion).

Definition artifact_key (a : BoardArtifact) : ArtifactKey :=
  match a with
  | ATask t => of_task t
  | APlan p => of_plan p
  | ARun r => of_run r
  | AChange c => of_change c
  | AReview r => of_review r
  | ADiscussion d => of_discussion d
  end.

(** A file set aside; the words of its reason are not modelled. *)
Record QuarantinedFile := mkQuarantined {
  qf_path : text;
  qf_key : option ArtifactKey;
  qf_object : text;
  qf_carried : bool;
}.

Abbreviation BoardHead := N.

Record BoardSnapshot := mkBoard {
  bo_head : BoardHead;
  bo_tasks : list Task;
  bo_plans : list Plan;
  bo_runs : list Run;
  bo_changes : list Change;
  bo_reviews : list Review_;
  bo_discussions : list Discussion;
  bo_quarantined : list QuarantinedFile;
}.

(** The artifact of a key, in place of the one the list held. *)
Definition upsert {A} (key : A → ArtifactKey) (x : A) (l : list A) : list A :=
  x :: filter (λ y, key y ≠ key x) l.

Definition write_artifact (b : BoardSnapshot) (a : BoardArtifact) : BoardSnapshot :=
  match a with
  | ATask t => mkBoard (bo_head b) (upsert of_task t (bo_tasks b)) (bo_plans b) (bo_runs b) (bo_changes b)
                 (bo_reviews b) (bo_discussions b) (bo_quarantined b)
  | APlan p => mkBoard (bo_head b) (bo_tasks b) (upsert of_plan p (bo_plans b)) (bo_runs b) (bo_changes b)
                 (bo_reviews b) (bo_discussions b) (bo_quarantined b)
  | ARun r => mkBoard (bo_head b) (bo_tasks b) (bo_plans b) (upsert of_run r (bo_runs b)) (bo_changes b)
                (bo_reviews b) (bo_discussions b) (bo_quarantined b)
  | AChange c => mkBoard (bo_head b) (bo_tasks b) (bo_plans b) (bo_runs b) (upsert of_change c (bo_changes b))
                   (bo_reviews b) (bo_discussions b) (bo_quarantined b)
  | AReview r => mkBoard (bo_head b) (bo_tasks b) (bo_plans b) (bo_runs b) (bo_changes b)
                   (upsert of_review r (bo_reviews b)) (bo_discussions b) (bo_quarantined b)
  | ADiscussion d => mkBoard (bo_head b) (bo_tasks b) (bo_plans b) (bo_runs b) (bo_changes b)
                       (bo_reviews b) (upsert of_discussion d (bo_discussions b)) (bo_quarantined b)
  end.

Definition write_all (b : BoardSnapshot) (artifacts : list BoardArtifact) : BoardSnapshot :=
  foldl write_artifact b artifacts.

(** * Refusals of a use case *)

Inductive ReadPin := PinRev (rev : BoardHead) | PinUpdated (expected : Timestamp).

Module ProjectBoardError.

Inductive t :=
  | Store
  | Rule (e : RuleError)
  | Invalid (e : SchemaError)
  | NotFound (id : Slug)
  | Exists (id : Slug)
  | IdInUse (id : Slug) (by_ : IdUser)
  | Clock
  | Quarantined (key : ArtifactKey) (path object : text)
  | Duplicate (key : ArtifactKey)
  | SetAsideFile (path object : text)
  | UnknownReference (id : Slug)
  | ClosesCycle (id by_ : Slug)
  | InvalidWriter
  | PrStateUnknown (pr : N)
  | PullRequests
  | ClockOutOfRange (reference : Timestamp)
  | ClockAhead (now reference : Timestamp)
  | Contended (attempts : nat)
  | Refused
  | NotSetAside (path object : text)
  | NoPullRequestHost
  | Stale (id : Slug) (expected : ReadPin) (updated : Timestamp)
  | NoLauncher
  | ContainerRefused
  | Busy
  | Unanswered
  | RunLive (task : Slug) (run : N) (agent : text)
  | Brief
  | LaunchFailed.

End ProjectBoardError.

Abbreviation BoardError := ProjectBoardError.t.

(** * Views *)

Import ProjectBoardError.

(** Ascending by a number. *)
Definition number_le {A} (number : A → N) (a b : A) : Prop := (number a <= number b)%N.
#[export] Instance number_le_dec {A} (number : A → N) a b : Decision (number_le number a b).
Proof. unfold number_le. apply _. Defined.
Definition sorted_by {A} (number : A → N) (l : list A) : list A := merge_sort (number_le number) l.

Definition plans_of (plans : list Plan) (id : Slug) : list Plan :=
  sorted_by pl_version (filter (λ p, pl_task p = id) plans).
Definition runs_of (runs : list Run) (id : Slug) : list Run :=
  sorted_by ru_number (filter (λ r, ru_task r = id) runs).
Definition changes_of (changes : list Change) (id : Slug) : list Change :=
  sorted_by ch_number (filter (λ c, ch_task c = id) changes).
Definition reviews_of_change (reviews : list Review_) (id : Slug) (change : N) : list Review_ :=
  filter (λ r, rv_task r = id ∧ rv_change r = change) reviews.
(** Ascending by a key. *)
Definition key_le {A} (key : A → ArtifactKey) (a b : A) : Prop := key_compare (key a) (key b) ≠ Gt.
#[export] Instance key_le_dec {A} (key : A → ArtifactKey) a b : Decision (key_le key a b).
Proof. unfold key_le. apply _. Defined.
Definition discussions_of (discussions : list Discussion) (id : Slug) : list Discussion :=
  merge_sort (key_le of_discussion) (filter (λ d, di_task d = Some id) discussions).
Definition all_changes (changes : list Change) : list Change := merge_sort (key_le of_change) changes.

(** No two neighbours of [items] share a key. *)
Definition once {A} (items : list A) (key : A → ArtifactKey) : res BoardError (list A) :=
  let keys := key <$> items in
  match List.find (λ p : ArtifactKey * ArtifactKey, bool_decide (p.1 = p.2)) (zip keys (tail keys)) with
  | Some (key, _) => Err (Duplicate key)
  | None => Ok items
  end.

(** Files set aside, in the order a refusal names them by. *)
Definition named_compare (a b : ArtifactKey * text * text) : comparison :=
  let '(j, p, o) := a in
  let '(k, q, r) := b in
  or_else (key_compare j k) (or_else (text_compare p q) (text_compare o r)).

(** No file in scope is set aside. *)
Definition first_set_aside (quarantined : list QuarantinedFile) (in_scope : ArtifactKey → bool)
    : res BoardError unit :=
  let named f := k ← qf_key f; if in_scope k then Some (k, qf_path f, qf_object f) else None in
  match least named_compare (omap named quarantined) with
  | Some (key, path, object) => Err (Quarantined key path object)
  | None => Ok tt
  end.
Definition clear_of (b : BoardSnapshot) (in_scope : ArtifactKey → bool) : res BoardError unit :=
  first_set_aside (bo_quarantined b) in_scope.

Definition key_is (k : ArtifactKey) (k' : ArtifactKey) : bool := bool_decide (k = k').
Definition plan_key_of (id : Slug) (k : ArtifactKey) : bool :=
  match k with KeyPlan t _ => text_eqb t id | _ => false end.
Definition run_key_of (id : Slug) (k : ArtifactKey) : bool :=
  match k with KeyRun t _ => text_eqb t id | _ => false end.
Definition change_key_of (id : Slug) (k : ArtifactKey) : bool :=
  match k with KeyChange t _ => text_eqb t id | _ => false end.
Definition review_key_of (id : Slug) (k : ArtifactKey) : bool :=
  match k with KeyReview t _ => text_eqb t id | _ => false end.

Definition board_task (b : BoardSnapshot) (id : Slug) : res BoardError Task :=
  clear_of b (key_is (KeyTask id)) ;?
  let? found := once (filter (λ t, ta_id t = id) (bo_tasks b)) of_task in
  match found with [t] => Ok t | _ => Err (NotFound id) end.

Definition board_plans_of (b : BoardSnapshot) (id : Slug) : res BoardError (list Plan) :=
  clear_of b (plan_key_of id) ;? once (plans_of (bo_plans b) id) of_plan.
Definition board_runs_of (b : BoardSnapshot) (id : Slug) : res BoardError (list Run) :=
  clear_of b (run_key_of id) ;? once (runs_of (bo_runs b) id) of_run.
Definition board_changes_of (b : BoardSnapshot) (id : Slug) : res BoardError (list Change) :=
  clear_of b (change_key_of id) ;? once (changes_of (bo_changes b) id) of_change.

(** Every change, by task and number. *)
Definition board_all_changes (b : BoardSnapshot) : res BoardError (list Change) :=
  clear_of b (λ k, match k with KeyChange _ _ => true | _ => false end) ;?
  once (all_changes (bo_changes b)) of_change.

(** The least artifact besides a task that names [id]. *)
Definition board_naming (b : BoardSnapshot) (id : Slug) : res BoardError (option IdUser) :=
  clear_of b (λ k, plan_key_of id k || run_key_of id k || change_key_of id k || review_key_of id k
                   || match k with KeyDiscussion _ => true | _ => false end) ;?
  Ok (least user_compare
        (((λ p, UserPlan (pl_version p)) <$> plans_of (bo_plans b) id)
         ++ ((λ r, UserRun (ru_number r)) <$> runs_of (bo_runs b) id)
         ++ ((λ c, UserChange (ch_number c)) <$> changes_of (bo_changes b) id)
         ++ ((λ r, UserReview (rv_change r)) <$> filter (λ r, rv_task r = id) (bo_reviews b))
         ++ ((λ d, UserDiscussion (di_id d)) <$> discussions_of (bo_discussions b) id))).

Definition tasks_clear (b : BoardSnapshot) : res BoardError unit :=
  clear_of b (λ k, match k with KeyTask _ => true | _ => false end).

(** * Pins *)

Section pins.
(** [ProjectBoardStore::object_at]: the store's name for a file at a revision. *)
Variable object_at : BoardHead → ArtifactKey → res BoardError (option N).

Definition held_under {A} (key_of : A → ArtifactKey) (wrap : A → BoardArtifact) (held : list A) (k : ArtifactKey)
    : option BoardArtifact :=
  wrap <$> List.find (λ one, bool_decide (key_of one = k)) held.

(** [BoardSnapshot::artifact]. *)
Definition board_artifact (b : BoardSnapshot) (k : ArtifactKey) : option BoardArtifact :=
  match k with
  | KeyTask _ => held_under of_task ATask (bo_tasks b) k
  | KeyPlan _ _ => held_under of_plan APlan (bo_plans b) k
  | KeyRun _ _ => held_under of_run ARun (bo_runs b) k
  | KeyChange _ _ => held_under of_change AChange (bo_changes b) k
  | KeyReview _ _ => held_under of_review AReview (bo_reviews b) k
  | KeyDiscussion _ => held_under of_discussion ADiscussion (bo_discussions b) k
  end.

Definition unchanged_at (head : BoardHead) (k : ArtifactKey) (rev : BoardHead) : res BoardError bool :=
  if (rev =? head)%N then Ok true
  else
    let? then_ := object_at rev k in
    let? now := object_at head k in
    Ok (match then_, now with Some a, Some b => (a =? b)%N | _, _ => false end).

Definition unchanged_since (b : BoardSnapshot) (k : ArtifactKey) (rev : BoardHead) : res BoardError bool :=
  assert_that (bool_decide (is_Some (board_artifact b k))) ;? unchanged_at (bo_head b) k rev.

Definition task_as_read (b : BoardSnapshot) (t : Task) (pin : option ReadPin) : res BoardError unit :=
  match pin with
  | None => Ok tt
  | Some pin =>
      let? holds := match pin with
                    | PinRev rev => unchanged_since b (of_task t) rev
                    | PinUpdated expected => Ok (expected =? ta_updated t)%N
                    end in
      ensure holds (Stale (ta_id t) pin (ta_updated t))
  end.

Definition plan_read (b : BoardSnapshot) (p : option Plan) (pin : option ReadPin) : res BoardError PlanRead :=
  match pin, p with
  | None, _ => Ok Unpinned
  | Some (PinUpdated expected), _ => Ok (Stamped expected)
  | Some (PinRev _), None => Ok Unpinned
  | Some (PinRev rev), Some p =>
      let? same := unchanged_since b (of_plan p) rev in
      Ok (if (same : bool) then Unchanged else Changed)
  end.

End pins.

(** * Pointers *)

Record Pointers := mkPointers { po_id : Slug; po_parent : option Slug; po_depends_on : list Slug }.

(** The other tasks of the board, by id. *)
Definition on_board (tasks : list Task) (id : Slug) : gmap Slug Task :=
  list_to_map ((λ t, (ta_id t, t)) <$> rev (filter (λ t, ta_id t ≠ id) tasks)).

(** The walk along [depends_on]: [next] holds what is still to visit, last in
    first out; [None] once [fuel] visits were not enough. *)
Fixpoint dependency_walk (fuel : nat) (tasks : gmap Slug Task) (id : Slug) (expanded : gset Slug)
    (next closers : list Slug) : option (gset Slug * list Slug) :=
  match next with
  | [] => Some (expanded, closers)
  | at_ :: next' =>
      match fuel with
      | 0 => None
      | S fuel =>
          match tasks !! at_ with
          | Some t =>
              if decide (at_ ∈ expanded) then dependency_walk fuel tasks id expanded next' closers
              else
                let closers := if bool_decide (id ∈ ta_depends_on t) then closers ++ [at_] else closers in
                dependency_walk fuel tasks id ({[at_]} ∪ expanded) (rev (ta_depends_on t) ++ next') closers
          | None => dependency_walk fuel tasks id expanded next' closers
          end
      end
  end.

(** Every dependency of a task is visited at most once. *)
Definition walk_fuel (tasks : gmap Slug Task) (depends_on : list Slug) : nat :=
  length depends_on + sum_list_with (λ kt : Slug * Task, length (ta_depends_on kt.2)) (map_to_list tasks).

Definition dependency_closers (tasks : gmap Slug Task) (refs : Pointers) : option (list Slug) :=
  '(expanded, closers) ← dependency_walk (walk_fuel tasks (po_depends_on refs)) tasks (po_id refs) ∅
                           (rev (po_depends_on refs)) [];
  if size expanded <=? size tasks then Some closers else None.

(** The walk up the parents; [None] where its assertion fails or once [fuel] steps
    were not enough. *)
Fixpoint parent_walk (fuel : nat) (tasks : gmap Slug Task) (id : Slug) (seen : gset Slug) (at_ : option Slug)
    : option (option Slug) :=
  let over := if size seen <=? size tasks then Some None else None in
  match at_ with
  | None => over
  | Some at_ =>
      match tasks !! at_ with
      | None => over
      | Some t =>
          match fuel with
          | 0 => None
          | S fuel =>
              if decide (at_ ∈ seen) then over
              else if bool_decide (ta_parent t = Some id) then Some (Some at_)
              else parent_walk fuel tasks id ({[at_]} ∪ seen) (ta_parent t)
          end
      end
  end.

Definition parent_closer (tasks : gmap Slug Task) (refs : Pointers) : option (option Slug) :=
  parent_walk (S (size tasks)) tasks (po_id refs) ∅ (po_parent refs).

(** The tasks that would close a cycle through the task; [None] is a panic. *)
Definition cycle_closers (tasks : list Task) (refs : Pointers) : option (list Slug) :=
  let others := on_board tasks (po_id refs) in
  by_dependency ← dependency_closers others refs;
  by_parent ← parent_closer others refs;
  Some (by_dependency ++ option_list by_parent).

(** The least of them. *)
Definition cycle_closer (tasks : list Task) (refs : Pointers) : option (option Slug) :=
  least text_compare <$> cycle_closers tasks refs.

Definition pointers_hold (b : BoardSnapshot) (refs : Pointers) : res BoardError unit :=
  let others := filter (λ r, r ≠ po_id refs) (option_list (po_parent refs) ++ po_depends_on refs) in
  each (λ _ reference,
    match board_task b reference with
    | Ok _ => Ok tt
    | Err (NotFound _) => Err (UnknownReference reference)
    | Err refused => Err refused
    | Panic => Panic
    end) others ;?
  let? closer := or_panic (cycle_closer (bo_tasks b) refs) in
  match closer with
  | None => Ok tt
  | Some by_ => Err (ClosesCycle (po_id refs) by_)
  end.
