(* ===== verification/BoardScrub.v ===== *)
(** What a fold-back keeps of text from outside the board: secrets redacted,
    addresses cut to what is safe, and a line in doubt dropped.

    Models [domain/shared/redaction.rs] ([redact_secrets]) and
    [application/project_board/fold_back_scrub.rs].  The two patterns that are
    replaced are fields of [Shapes]; the ones only asked for a match are written
    out here. *)

From S2P Require Import Prelude BoardText BoardSchema.

(** * Text *)

Definition is_ascii_hexdigit (c : N) : bool :=
  is_ascii_digit c || ((97 <=? c) && (c <=? 102) || (65 <=? c) && (c <=? 70))%N.

(** [split_at(find(f).unwrap_or(len))]. *)
Definition split_at_char (f : N → bool) (t : text) : text * text :=
  let before := take_while_chars (λ c, negb (f c)) t in (before, drop (length before) t).

(** [str::find] of a string. *)
Fixpoint find_text (p t : text) : option nat :=
  if starts_with p t then Some 0
  else match t with [] => None | _ :: t' => S <$> find_text p t' end.

(** [split(' ')]. *)
Definition words (t : text) : list text := split [SP] t.

(** * Redaction *)

Definition escaped_as (t prefix : text) (count : nat) (allowed : N → bool) : bool :=
  match strip_prefix prefix t with
  | Some rest => (length rest =? count) && forallb allowed rest
  | None => false
  end.

(** The loop of [is_percent_escape], over what follows the percent sign: each turn
    takes one encoded percent sign, or ends. *)
Fixpoint percent_escape_rest (rest : text) : bool :=
  if 2 <? byte_len rest then
    match rest with
    | a :: b :: inner => (a =? 50)%N && (b =? 53)%N && percent_escape_rest inner
    | _ => false
    end
  else (byte_len rest =? 2) && forallb is_ascii_hexdigit rest.
Definition is_percent_escape (t : text) : bool :=
  match strip_prefix [37%N] t with None => false | Some rest => percent_escape_rest rest end.

Definition CSI_INTRODUCERS : list text :=
  [[27; 91]%N; tx "\e["; tx "\x1b["; tx "\x1B["; tx "\033["; tx "\u001b["; tx "\u001B["; tx "^[["].

Definition is_ansi_csi (t : text) : bool :=
  existsb (λ rest,
    match rev rest with
    | final :: params =>
        is_ascii_alphabetic final && forallb (λ c, is_ascii_digit c || (c =? 59)%N || (c =? 63)%N) (rev params)
    | [] => false
    end) (omap (λ intro, strip_prefix intro t) CSI_INTRODUCERS).

Definition is_key_lead (lead : text) : bool :=
  let single := match lead with [c] => negb (is_ascii_alphabetic c) | _ => false end in
  bool_decide (lead = []) || single || is_ansi_csi lead
  || escaped_as lead (tx "\") 1 (λ c, char_in c (tx "abefnrtv"))
  || escaped_as lead (tx "\x") 2 is_ascii_hexdigit
  || escaped_as lead (tx "\u") 4 is_ascii_hexdigit
  || escaped_as lead (tx "\U") 8 is_ascii_hexdigit
  || is_percent_escape lead
  || escaped_as lead (tx "=") 2 is_ascii_hexdigit
  || escaped_as lead (tx "`") 1 (λ c, char_in c (tx "0befnrtv")).

Definition redact_secrets `{Shapes} {E} (input : text) : res E text :=
  let? pieces := collect (λ piece,
    match piece with
    | inl plain => Ok plain
    | inr lead => let lead := default [] lead in
                  assert_that (is_key_lead lead) ;? Ok (lead ++ tx "[REDACTED]")
    end) (PATTERNS input) in
  Ok (concat pieces).

(** * At signs and credentials *)

Definition HTTPS : text := tx "https://".
Definition LINK_TEXT : text := tx "link".
Definition QUERY_CLOSERS : text := tx "`)]>" ++ [34%N] ++ tx "'.,;:!?".
Definition SCRUBBED : text := tx "***".
Definition AT_SIGNS : text := [64; 65312; 65131]%N.
Definition CREDENTIAL_WORDS : list text :=
  [tx "authorization"; tx "bearer"; tx "password"; tx "passwd"; tx "pwd="; tx "secret"; tx "token";
   tx "api_key"; tx "apikey"; tx "api-key"; tx "credential"; tx "private_key"; tx "private-key"].
Definition MAX_FRAGMENT_CHARS : nat := 64.
Definition WORD_OPENERS : text := tx "`([<" ++ [34%N] ++ tx "'".
Definition LINE_BREAKS : text := [10; 13; 8232; 8233; 133; 11]%N.
Definition OPENERS : text := tx "<(".
Definition CLOSERS : text := tx ">).,;:!?".

(** A name, an at sign and a number; or a reflog reference. *)
Definition AT_EXEMPT (w : text) : bool :=
  match split_once 64%N w with
  | None => false
  | Some (name, rest) =>
      let name_char c := is_ascii_alphanumeric c || char_in c (tx "._-") in
      let digits t := negb (bool_decide (t = [])) && forallb is_ascii_digit t in
      negb (bool_decide (name = [])) && forallb name_char name && digits rest
      || forallb (λ c, name_char c || (c =? 47)%N) name
         && match strip_prefix (tx "{") rest with
            | Some inner => match strip_suffix (tx "}") inner with Some n => digits n | None => false end
            | None => false
            end
  end.

(** After a percent sign: any number of [25], then [40]. *)
Fixpoint encoded_at (t : text) : bool :=
  match t with
  | a :: b :: inner => (a =? 52)%N && (b =? 48)%N || (a =? 50)%N && (b =? 53)%N && encoded_at inner
  | _ => false
  end.
Fixpoint AT_ENCODED (t : text) : bool :=
  match t with
  | [] => false
  | c :: t' => (c =? 37)%N && encoded_at t' || AT_ENCODED t'
  end.

(** The word [basic], before anything but a small letter or at the end. *)
Fixpoint BASIC (t : text) : bool :=
  match strip_prefix (tx "basic") t with
  | Some (c :: _) => negb (is_ascii_lowercase c)
  | Some [] => true
  | None => false
  end || match t with [] => false | _ :: t' => BASIC t' end.

Definition names_a_credential `{Shapes} (t : text) : bool :=
  let folded := to_lowercase (nfkc t) in
  existsb (λ w, contains w folded) CREDENTIAL_WORDS || BASIC folded.

Definition holds_at (t : text) : bool := existsb (λ c, char_in c AT_SIGNS) t || AT_ENCODED t.

Definition set_apart (w : text) : text :=
  trim_end_matches (λ c, char_in c QUERY_CLOSERS) (trim_start_matches (λ c, char_in c WORD_OPENERS) w).

Definition at_signs_exempt (t : text) : bool :=
  forallb (λ w, negb (holds_at w) || AT_EXEMPT w) (set_apart <$> words t).

Definition spaced (raw : text) : text :=
  (λ c, if is_whitespace c && negb (char_in c LINE_BREAKS) then SP else c) <$> raw.

(** * Addresses *)

Inductive Form := FormNamed | FormBare.
#[export] Instance Form_eq_dec : EqDecision Form. Proof. solve_decision. Defined.

Inductive Judged := JudgedKept (address : text) | JudgedScrubbed | JudgedDoubt.

Definition unambiguous (host : text) : bool :=
  let '(name, port) := default (host, tx "0") (split_once 58%N host) in
  negb (bool_decide (name = []))
  && forallb (λ c, is_ascii_alphanumeric c || char_in c (tx "-._~")) name
  && negb (bool_decide (port = [])) && forallb is_ascii_digit port.

Definition anchor_shaped (fragment : text) : bool :=
  (1 <=? length fragment) && (length fragment <=? MAX_FRAGMENT_CHARS)
  && forallb (λ c, is_ascii_alphanumeric c || char_in c (tx "_.-")) fragment.

Definition path_end (rest : text) : nat :=
  let marked := length (split_at_char (λ c, char_in c (tx "?#;")) rest).1 in
  let encoded := default (length rest) (find_text (tx "%3f") (to_ascii_lowercase rest)) in
  marked `min` encoded.

Definition judged (core : text) (form : Form) : Judged :=
  let '(authority, rest) := split_at_char (λ c, char_in c (tx "/?#")) core in
  if negb (holds_at core) && unambiguous authority then
    let path := take (path_end rest) rest in
    let after := drop (path_end rest) rest in
    let fragment := snd <$> split_once 35%N core in
    let plain := negb (contains (tx "%25") path)
      && match fragment with Some f => anchor_shaped f | None => true end
      && (bool_decide (form = FormNamed) || negb (contains (tx ";") core)) in
    if plain then
      JudgedKept match strip_prefix (tx "#") after with
                 | Some fragment => authority ++ path ++ tx "#" ++ fragment
                 | None => authority ++ path
                 end
    else JudgedDoubt
  else JudgedScrubbed.

(** The filter of [balanced], with the closes still to drop. *)
Fixpoint drop_closes (parens brackets : nat) (closing : text) : text :=
  match closing with
  | [] => []
  | c :: closing' =>
      match (c =? 41)%N, (c =? 93)%N, parens, brackets with
      | true, _, S parens', _ => drop_closes parens' brackets closing'
      | _, true, _, S brackets' => drop_closes parens brackets' closing'
      | _, _, _, _ => c :: drop_closes parens brackets closing'
      end
  end.

Definition balanced (core kept closing : text) : text :=
  let unclosed open close :=
    let opened := board_text.count_char open core - board_text.count_char open kept in
    let closed := board_text.count_char close core - board_text.count_char close kept in
    opened - closed in
  drop_closes (unclosed 40%N 41%N) (unclosed 91%N 93%N) closing.

Definition kept (prefix span : text) (form : Form) : option text :=
  let core := trim_end_matches (λ c, char_in c QUERY_CLOSERS) span in
  let close address := prefix ++ address ++ balanced core address (drop (length core) span) in
  match judged core form with
  | JudgedKept address => Some (close address)
  | JudgedScrubbed => Some (close SCRUBBED)
  | JudgedDoubt => None
  end.

Definition kept_address (found : Captures) : option text :=
  match found with
  | CapScheme scheme rest => kept scheme rest FormNamed
  | CapRelative lead relative =>
      let rest := default relative (strip_prefix (tx "//") relative) in
      (λ k, lead ++ k) <$> kept (tx "//") rest FormNamed
  | CapBare bare => kept [] bare FormBare
  end.

(** The text of a match, [found[0]]. *)
Definition found_text (found : Captures) : text :=
  match found with
  | CapScheme scheme rest => scheme ++ rest
  | CapRelative lead relative => lead ++ relative
  | CapBare bare => bare
  end.

Definition scrubbed `{Shapes} {E} (raw : text) (cap : nat) : res E (option text) :=
  if cap <? length raw then Ok None
  else if INVISIBLE raw then Ok None
  else
    let spaced := spaced raw in
    if names_a_credential spaced then Ok None
    else
      let doubt := existsb (λ piece,
        match piece with inl _ => false | inr found => bool_decide (kept_address found = None) end) (ADDRESS spaced) in
      let addressed := concat ((λ piece,
        match piece with inl plain => plain | inr found => default (found_text found) (kept_address found) end)
        <$> ADDRESS spaced) in
      let? redacted := redact_secrets addressed in
      if negb doubt && at_signs_exempt redacted then
        assert_that (forallb (λ w, negb (holds_at w)) (filter (λ w, contains (tx "://") w = true) (words redacted))) ;?
        Ok (Some (board_text.line redacted))
      else Ok None.

(** * Links *)

Definition host_char (c : N) : bool := is_ascii_alphanumeric c || char_in c (tx "-._~:!&'*+,;=%").
Definition path_char (c : N) : bool := host_char c || char_in c (tx "/?#").

Definition address (core : text) : option text :=
  rest ← strip_prefix HTTPS core;
  let '(authority, tail) := split_at_char (λ c, char_in c (tx "/?#")) rest in
  if negb (contains (tx "@") rest) && unambiguous authority then
    let path := take (path_end tail) tail in
    let after := drop (path_end tail) tail in
    let kept := match strip_prefix (tx "#") after with
                | Some fragment => if anchor_shaped fragment then path ++ tx "#" ++ fragment else path
                | None => path
                end in
    let encoded := replace (tx ")") (tx "%29") (replace (tx "(") (tx "%28") kept) in
    if forallb path_char encoded then Some (HTTPS ++ authority ++ encoded) else None
  else None.

Definition linked_word (word : text) : text :=
  let opened := trim_start_matches (λ c, char_in c OPENERS) word in
  let trimmed := trim_end_matches (λ c, char_in c CLOSERS) opened in
  let unclosed := board_text.count_char 40%N trimmed - board_text.count_char 41%N trimmed in
  let closes := length (take_while_chars (λ c, (c =? 41)%N) (drop (length trimmed) opened)) in
  let core := take (length trimmed + unclosed `min` closes) opened in
  let lead := take (length word - length opened) word in
  let trail := drop (length core) opened in
  match address core with
  | Some address => replace (tx "<") [] lead ++ tx "[" ++ LINK_TEXT ++ tx "](" ++ address ++ tx ")"
                    ++ replace (tx ">") [] trail
  | None => word
  end.

Definition linked (t : text) : text := join [SP] (linked_word <$> words t).
