(* ===== verification/BoardFoldBack.v ===== *)
(** A swarm's own board as it ended, and what a fold-back keeps of it on the run of
    the plan it was briefed with.

    Models [application/project_board/dto_fold_back.rs] ([SwarmEnd],
    [SwarmItemState], [SwarmItemView], [SwarmRunView]), [fold_back.rs],
    [domain/project_board/value_objects/commit_token.rs], and [MemberExit] of
    [domain/swarm/value_objects/lifecycle.rs].  What the file format's text cell holds
    is an argument ([cells]).  An evidence line that is dropped is counted, as in the
    source. *)

From S2P Require Import Prelude BoardText BoardSchema BoardDescription BoardTask BoardArtifacts BoardRuns BoardScrub.

(** * The ended swarm *)

Inductive MemberExit := ExitOrderly | ExitAbrupt.

Definition exit_blocker (e : MemberExit) : text :=
  match e with
  | ExitOrderly => tx "worker death confirmed; coordinator recovery required"
  | ExitAbrupt =>
      tx "worker death confirmed (abrupt exit; reservations retained); coordinator recovery required"
  end.

Definition of_blocker (blocker : text) : option MemberExit :=
  List.find (λ e, text_eqb (exit_blocker e) blocker) [ExitOrderly; ExitAbrupt].

Inductive SwarmEnd := SwarmSucceeded | SwarmFailed | SwarmBudgetExhausted | SwarmBlocked | SwarmCancelled.

Definition SwarmEnd_of (status : text) : option SwarmEnd :=
  if text_eqb status (tx "succeeded") then Some SwarmSucceeded
  else if text_eqb status (tx "failed") then Some SwarmFailed
  else if text_eqb status (tx "budget-exhausted") then Some SwarmBudgetExhausted
  else if text_eqb status (tx "blocked") then Some SwarmBlocked
  else if text_eqb status (tx "cancelled") then Some SwarmCancelled
  else None.

Definition SwarmEnd_outcome (e : SwarmEnd) : RunOutcome :=
  match e with
  | SwarmSucceeded => RunSucceeded
  | SwarmFailed | SwarmBudgetExhausted => RunFailed
  | SwarmBlocked | SwarmCancelled => RunStopped
  end.
Definition SwarmEnd_stop (e : SwarmEnd) : StopKind :=
  match e with
  | SwarmBlocked => StopBlocked
  | SwarmSucceeded | SwarmFailed | SwarmBudgetExhausted | SwarmCancelled => StopCancelled
  end.

Inductive SwarmItemState := SwarmItemReady | SwarmItemClaimed | SwarmItemSubmitted | SwarmItemCompleted | SwarmItemBlocked.
#[export] Instance SwarmItemState_eq_dec : EqDecision SwarmItemState. Proof. solve_decision. Defined.

Definition SwarmItemState_of (state : text) : option SwarmItemState :=
  if text_eqb state (tx "ready") then Some SwarmItemReady
  else if text_eqb state (tx "claimed") then Some SwarmItemClaimed
  else if text_eqb state (tx "submitted") then Some SwarmItemSubmitted
  else if text_eqb state (tx "completed") then Some SwarmItemCompleted
  else if text_eqb state (tx "blocked") then Some SwarmItemBlocked
  else None.

Definition progress (s : SwarmItemState) : nat :=
  match s with
  | SwarmItemBlocked => 0
  | SwarmItemReady => 1
  | SwarmItemClaimed => 2
  | SwarmItemSubmitted => 3
  | SwarmItemCompleted => 4
  end.

Definition before_death (s : SwarmItemState) (blocker : option text) (evidence : bool) : option SwarmItemState :=
  let by_death := match blocker with Some b => bool_decide (is_Some (of_blocker b)) | None => false end in
  match s, by_death, evidence with
  | SwarmItemBlocked, true, true => Some SwarmItemSubmitted
  | SwarmItemBlocked, true, false => Some SwarmItemClaimed
  | SwarmItemBlocked, false, _ | (SwarmItemReady | SwarmItemClaimed | SwarmItemSubmitted | SwarmItemCompleted), _, _ => None
  end.

Definition item_state_of (s : SwarmItemState) : ItemState :=
  match s with
  | SwarmItemReady => ItemTodo
  | SwarmItemClaimed => ItemDoing
  | SwarmItemSubmitted => ItemReview
  | SwarmItemCompleted => ItemDone
  | SwarmItemBlocked => ItemBlocked
  end.

Record SwarmEvidence := mkEvidence { ev_artifact : text; ev_revision : text }.

Record SwarmItemView := mkSwarmItem {
  si_title : text;
  si_state : SwarmItemState;
  si_owner : option text;
  si_evidence : list SwarmEvidence;
  si_stood_before_death : option SwarmItemState;
}.

Definition standing {E} (i : SwarmItemView) : res E SwarmItemState :=
  assert_that (bool_decide (si_stood_before_death i = None) || bool_decide (si_state i = SwarmItemBlocked)) ;?
  Ok (default (si_state i) (si_stood_before_death i)).

Definition swarm_item_state {E} (i : SwarmItemView) : res E ItemState := map_ok item_state_of (standing i).

Record SwarmRunView := mkSwarmView {
  sv_end : SwarmEnd;
  sv_items : list SwarmItemView;
  sv_observed_tokens : N;
}.

(** Only a blocked item was blocked by a death, as [before_death] answers. *)
Definition view_ok (v : SwarmRunView) : Prop :=
  Forall (λ i, si_stood_before_death i = None ∨ si_state i = SwarmItemBlocked) (sv_items v).

Definition cost_of (v : SwarmRunView) : N := (sv_observed_tokens v `min` MAX_BUDGET_TOKENS)%N.

(** * Matching *)

Definition item_title (i : PlanItem) : text := pi_id i ++ tx ": " ++ pi_title i.

(** The swarm items, by their place, that carry the title, or its prefix. *)
Definition under (i : PlanItem) (v : SwarmRunView) (exact : bool) : list (nat * SwarmItemView) :=
  filter (λ at_swarm, (if exact then text_eqb (si_title at_swarm.2) (item_title i)
                       else starts_with (pi_id i ++ tx ": ") (si_title at_swarm.2)) = true)
    (zip (seq 0 (length (sv_items v))) (sv_items v)).

(** [max_by_key] of [(progress, at)], the last of equals. *)
Definition most_progressed (ranked : list (nat * (nat * SwarmItemView))) : option (nat * SwarmItemView) :=
  snd <$> foldl (λ best x,
    match best with
    | None => Some x
    | Some b => if (b.1 <? x.1) || (b.1 =? x.1) && (b.2.1 <=? x.2.1) then Some x else best
    end) None ranked.

Definition matched {E} (i : PlanItem) (v : SwarmRunView) : res E (option (nat * SwarmItemView)) :=
  assert_that (starts_with (pi_id i ++ tx ": ") (item_title i)) ;?
  let exact := match under i v true with [] => false | _ :: _ => true end in
  (* The places ascend: the last is the greatest. *)
  let newest := fst <$> list.last (under i v exact) in
  let? ranked := collect (λ x,
    let? state := if bool_decide (Some x.1 = newest) then standing x.2 else Ok (si_state x.2) in
    Ok (progress state, x)) (under i v exact) in
  Ok (most_progressed ranked).

(** * Lines *)

Inductive Evidence := EvidenceKept | EvidenceLeft.
#[export] Instance Evidence_eq_dec : EqDecision Evidence. Proof. solve_decision. Defined.

Record FoldBackItems := mkFoldBack {
  fb_items : list RunItem;
  fb_unmatched : nat;
  fb_extra : nat;
  fb_evidence : nat;
  fb_dropped : nat;
}.

Section fold_back.
Context `{Shapes}.
Context {E : Type}.
(** [BoardTextCells::holds]. *)
Variable cells : text → bool.

Definition held_line (t : text) (max_chars : nat) : bool :=
  match line "line" t max_chars with Ok _ => cells t | _ => false end.

Definition owner_of (raw : text) : res E (option text) :=
  let? owner := scrubbed raw MAX_OWNER_CHARS in
  Ok (o ← owner; if held_line o MAX_OWNER_CHARS then Some o else None).

Definition evidence_part (raw : text) : res E (option text) :=
  map_ok (fmap linked) (scrubbed raw MAX_LINE_CHARS).

Definition evidence_line (entry : SwarmEvidence) : res E text :=
  let? artifact := evidence_part (ev_artifact entry) in
  let? revision := evidence_part (ev_revision entry) in
  Ok match artifact, revision with
     | Some a, Some r => if bool_decide (a = []) || bool_decide (r = []) then [] else a ++ tx " at " ++ r
     | _, _ => []
     end.

(** * Items *)

(** The lines of one item: those kept, the room left and how many were dropped. *)
Fixpoint keep_lines (how : Evidence) (entries : list SwarmEvidence) (room : N) (kept : list text) (dropped : nat)
    : res E (N * list text * nat) :=
  match entries with
  | [] => Ok (room, kept, dropped)
  | entry :: entries' =>
      let? written := evidence_line entry in
      let holds := bool_decide (how = EvidenceKept) && (length kept <? MAX_PER_ITEM)
        && (bytes written <=? room)%N && negb (bool_decide (written ∈ kept)) && held_line written MAX_LINE_CHARS in
      if holds then keep_lines how entries' (room - bytes written)%N (kept ++ [written]) dropped
      else keep_lines how entries' room kept (S dropped)
  end.

Fixpoint fold_items (how : Evidence) (rows : list (PlanItem * (option SwarmItemView * option text)))
    (room : N) (evidence dropped : nat) : res E (list RunItem * nat * nat) :=
  match rows with
  | [] => Ok ([], evidence, dropped)
  | (item, (swarm, owner)) :: rows' =>
      let entries := match swarm with Some s => si_evidence s | None => [] end in
      let? out := keep_lines how entries room [] dropped in
      let '(room, kept, dropped) := out in
      let? state := match swarm with Some s => swarm_item_state s | None => Ok ItemTodo end in
      let? rest := fold_items how rows' room (evidence + length kept) dropped in
      let '(items, evidence, dropped) := rest in
      Ok (mkRunItem (pi_id item) state owner kept :: items, evidence, dropped)
  end.

Definition run_items (p : Plan) (v : SwarmRunView) (how : Evidence) : res E FoldBackItems :=
  let planned := pl_items p in
  let? found := collect (λ i, matched i v) planned in
  let at_ := fst <$> omap id found in
  assert_that (bool_decide (NoDup at_)) ;?
  let matched := fmap (M := option) snd <$> found in
  let taken := length (omap id matched) in
  let? owners := collect (λ swarm,
    match swarm ≫= si_owner with Some raw => owner_of raw | None => Ok None end) matched in
  let room := u64_saturating_sub MAX_RUN_TEXT_BYTES (sum_of bytes (omap id owners)) in
  let? out := fold_items how (zip planned (zip matched owners)) room 0 0 in
  let '(items, evidence, dropped) := out in
  let? unmatched := or_panic (usize_sub (length planned) taken) in
  let? extra := or_panic (usize_sub (length (sv_items v)) taken) in
  assert_that (length items =? length planned) ;?
  assert_that (evidence + dropped =? sum_list_with (λ s, length (si_evidence s)) (omap id matched)) ;?
  Ok (mkFoldBack items unmatched extra evidence dropped).

End fold_back.

(** * Revisions *)

Definition MIN_COMMIT_TOKEN : nat := 7.
Definition MIN_COMMIT_PREFIX : nat := 12.

(** [split(f)] of characters. *)
Fixpoint split_chars (f : N → bool) (cur t : text) : list text :=
  match t with
  | [] => [rev cur]
  | c :: t' => if f c then rev cur :: split_chars f [] t' else split_chars f (c :: cur) t'
  end.

Definition commit_token (revision : text) : option text :=
  let pieces := split_chars (λ c, is_whitespace c || (c =? 64)%N || (c =? 47)%N) [] revision in
  let hex := filter (λ w, ((MIN_COMMIT_TOKEN <=? byte_len w) && forallb is_ascii_hexdigit w) = true)
    (trim_matches (λ c, negb (is_ascii_alphanumeric c)) <$> pieces) in
  match hex with
  | [token] => Some (to_ascii_lowercase token)
  | [] => None
  | _ :: _ :: _ =>
      match filter (λ w, (MIN_COMMIT_PREFIX <=? byte_len w) = true) hex with
      | [token] => Some (to_ascii_lowercase token)
      | [] | _ :: _ :: _ => None
      end
  end.

Definition checks_commit (id : text) (id_len : nat) : bool :=
  (MIN_COMMIT_PREFIX <=? byte_len id) && (byte_len id <=? id_len) && forallb is_ascii_hexdigit id.

Record EvidenceRevisions := mkRevisions { rev_ids : list text; rev_entries : list (option text) }.

Definition unchecked {E} (r : EvidenceRevisions) (id_len : nat) : res E nat :=
  let checked := length (filter (λ token,
    match token with Some t => checks_commit t id_len | None => false end = true) (rev_entries r)) in
  or_panic (usize_sub (length (rev_entries r)) checked).

(** The tokens named so far, with one entry more. *)
Definition note_revision (named : EvidenceRevisions) (entry : SwarmEvidence) : EvidenceRevisions :=
  let token := commit_token (ev_revision entry) in
  let ids := match token with
             | Some id => if forallb (λ n, negb (text_eqb n id)) (rev_ids named) then rev_ids named ++ [id] else rev_ids named
             | None => rev_ids named
             end in
  mkRevisions ids (rev_entries named ++ [token]).

Definition evidence_revisions {E} (p : Plan) (v : SwarmRunView) : res E EvidenceRevisions :=
  let? found := collect (λ i, matched i v) (pl_items p) in
  let entries := (omap id found) ≫= (λ x, si_evidence x.2) in
  Ok (foldl note_revision (mkRevisions [] []) entries).
