(* ===== verification/BoardUseCases.v ===== *)
(** What each use case of the board builds from a board it read and the time.

    Models the changes of [application/project_board/use_cases]:
    [change_board_task.rs], [finish_without_run.rs], [complete_merged_task.rs],
    [create_board_task.rs], [update_draft_task.rs], [propose_plan.rs],
    [edit_plan.rs], [accept_plan.rs], [discard_plan.rs],
    [start_board_task.rs], [fold_back_run.rs] and [end_run.rs], with
    [plan_text.rs] and [description_cells.rs].  A change is a function of the
    board and the time; how it is retried is [BoardCommit].  Telemetry is not
    modelled.  What a host, a remote, a keeper of swarm reports, the store's history
    and the file format answer are arguments; so are the refusals of
    [swarm_brief.rs]. *)

From stdpp Require Import gmap.
From S2P Require Import Prelude BoardText BoardSchema BoardDescription BoardTask BoardArtifacts BoardClaims BoardRuns BoardTransitions BoardPlans BoardChanges BoardView BoardScrub BoardFoldBack.

Import ProjectBoardError.

Definition rule {A} (m : res RuleError A) : res BoardError A := map_err Rule m.

Definition BoardChange := BoardSnapshot → Moment → res BoardError (list BoardArtifact).

(** * Changing one task *)

Inductive BoardOp :=
  | OpRenew
  | OpTakeOver
  | OpMove (to : TaskStatus) (reason : MoveReason)
  | OpAddPr (pr : N)
  | OpRemovePr (pr : N)
  | OpSetOutcome (index : nat) (reason : option text) (expected_rev : BoardHead).

(** A link sees every file every write carries; the least is named, one whose
    artifact is unknown first. *)
Definition carried_compare (a b : QuarantinedFile) : comparison :=
  let key := match qf_key a, qf_key b with
             | None, None => Eq
             | None, Some _ => Lt
             | Some _, None => Gt
             | Some j, Some k => key_compare j k
             end in
  or_else key (or_else (text_compare (qf_path a) (qf_path b)) (text_compare (qf_object a) (qf_object b))).

Definition links_readable (b : BoardSnapshot) : res BoardError unit :=
  match least carried_compare (filter (λ f, qf_carried f = true) (bo_quarantined b)) with
  | None => Ok tt
  | Some f => match qf_key f with
              | Some key => Err (Quarantined key (qf_path f) (qf_object f))
              | None => Err (SetAsideFile (qf_path f) (qf_object f))
              end
  end.

Definition entered_move_reason (r : MoveReason) : MoveReason :=
  match r with ReasonGiven t => ReasonGiven (board_text.line t) | ReasonAbsent | ReasonUnasked => r end.

(** What [PullRequestStates] answers of a pull request. *)
Inductive PullRequestState := HostOpen | HostClosed | HostMerged | HostUnknown.

(** A run's end writes its task first, when the end moves it. *)
Definition run_end_writes (r : Run) (moved : option Task) : list BoardArtifact :=
  (ATask <$> option_list moved) ++ [ARun r].

(** What the port of revisions answers: the hex digits of a full commit id, and which
    of some commits the remote does not hold. *)
Record Remote := mkRemote {
  rm_commit_id_hex_len : res BoardError nat;
  rm_not_on_remote : list text → res BoardError (list text);
}.

(** How the remote judged a success's evidence. *)
Record JudgedEvidence := mkJudged { je_unpushed : nat; je_unchecked : nat }.

Inductive RunEndOutcome := EndSucceeded | EndStopped | EndFailed | EndLost.

Record RunEnd := mkRunEnd {
  re_task : Slug;
  re_run : N;
  re_outcome : RunEndOutcome;
  re_stop : option StopKind;
  re_expected : option ReadPin;
}.

(** Whose end a fold-back records. *)
Inductive Ending := EndingSwarm | EndingUndo (from : TaskStatus).

Record StartUndo := mkUndo { su_task : Slug; su_plan_version : N; su_run : N; su_from : TaskStatus }.

(** [coordinator_model_named]. *)
Definition names_provider (model : text) : bool :=
  match split_once 47%N model with
  | Some (provider, id) => negb (bool_decide (provider = [])) && negb (bool_decide (id = []))
  | None => false
  end.
Definition coordinator_model_named (team : option Team) : res BoardError unit :=
  let roles := match team with Some t => te_roles t | None => [] end in
  ensure (forallb (λ r, names_provider (ro_model r))
            (filter (λ r, ro_name r = tx "coordinator") roles)) Brief.

(** * Requests *)

Record NewBoardTask := mkNewTask {
  nt_id : Slug;
  nt_title : text;
  nt_kind : TaskKind;
  nt_description : text;
  nt_ready : bool;
  nt_parent : option Slug;
  nt_depends_on : list Slug;
  nt_entry : Entry;
}.

Record DraftUpdate := mkDraftUpdate {
  du_id : Slug;
  du_title : option text;
  du_description : option text;
  du_parent : option (option Slug);
  du_depends_on : option (list Slug);
  du_expected : option ReadPin;
  du_entry : Entry;
}.

Record PlanProposal := mkProposal {
  pp_task : Slug;
  pp_approach : text;
  pp_handoff : option text;
  pp_items : list PlanItem;
  pp_team : option Team;
  pp_entry : PlanEntry;
}.

Record PlanEdit := mkPlanEdit {
  pe_task : Slug;
  pe_version : N;
  pe_approach : option text;
  pe_handoff : option text;
  pe_items : option (list PlanItem);
  pe_team : option (option Team);
  pe_expected : option ReadPin;
  pe_entry : PlanEntry;
}.

Record PlanAcceptance := mkAcceptance {
  pa_task : Slug;
  pa_version : N;
  pa_expected : ReadPin;
  pa_expected_accepted : option N;
}.

Definition entered_plan_items (items : list PlanItem) : list PlanItem :=
  (λ i, mkItem (pi_id i) (board_text.line (pi_title i)) (board_text.line <$> pi_criteria i)
          (pi_depends_on i)) <$> items.

Section use_cases.
Context `{Shapes}.
(** The store's committer, and its names of files at a revision. *)
Variable actor : Identity.
Variable object_at : BoardHead → ArtifactKey → res BoardError (option N).
(** The file format: whether a cell, and a line of prose, holds a text. *)
Variable cell_holds prose_holds : text → bool.
(** The host: whether the deadline passed before a read, and what it reads. *)
Variable host : option ((nat → bool) * (N → res BoardError PullRequestState)).
(** The refusal of a start by the brief of its plan. *)
Variable brief_refusal : Started → option BoardError.
(** The remote the board's branches are pushed to. *)
Variable remote : Remote.

Definition apply (t : Task) (b : BoardSnapshot) (op : BoardOp) (now : Timestamp) : res BoardError Task :=
  let id := ta_id t in
  match op with
  | OpSetOutcome index reason _ => rule (task_set_outcome t index (board_text.line <$> reason) actor now)
  | OpRenew => rule (renew t actor now)
  | OpTakeOver => rule (take_over t actor now)
  | OpMove to reason =>
      let? reads := rule (move_reads t to actor now) in
      let? runs := if mr_runs reads then board_runs_of b id else Ok [] in
      let? changes := if mr_changes reads then board_changes_of b id else Ok [] in
      let? moved := rule (move_with_reason t to (entered_move_reason reason) actor runs changes (bo_tasks b) now) in
      (match to with Archived => tasks_clear b | _ => Ok tt end) ;?
      Ok moved
  | OpAddPr pr =>
      rule (may_link t actor now) ;?
      links_readable b ;?
      let? changes := board_all_changes b in
      rule (add_pr t actor pr (mkLinked changes (bo_tasks b)) now)
  | OpRemovePr pr => rule (remove_pr t actor pr now)
  end.

(** [ChangeBoardTask]: the change it commits. *)
Definition change_board_task (id : Slug) (op : BoardOp) : BoardChange := λ b when,
  let? t := board_task b id in
  (match op with
   | OpSetOutcome _ _ rev => task_as_read object_at b t (Some (PinRev rev))
   | _ => Ok tt
   end) ;?
  let? changed := apply t b op (mo_now when) in
  Ok [ATask changed].

(** [not_due]: a renewal before halfway writes nothing. *)
Definition not_due (b : BoardSnapshot) (id : Slug) (now : Timestamp) : res BoardError (option Task) :=
  match board_task b id with
  | Ok t => let? due := rule (renewal_due t actor now) in
            Ok (if (due : bool) then None else Some t)
  | Err _ => Ok None
  | Panic => Panic
  end.

(** The linked pull requests the host reads as merged. *)
Fixpoint merged_from (late : nat → bool) (state : N → res BoardError PullRequestState) (i : nat)
    (linked : list N) (merged : gset N) : res BoardError (gset N) :=
  match linked with
  | [] => Ok merged
  | pr :: linked' =>
      ensure (negb (late i)) PullRequests ;?
      let? s := state pr in
      match s with
      | HostMerged => merged_from late state (S i) linked' ({[pr]} ∪ merged)
      | HostOpen | HostClosed => merged_from late state (S i) linked' merged
      | HostUnknown => Err (PrStateUnknown pr)
      end
  end.

Definition merged (linked : list N) : res BoardError (gset N) :=
  match host with
  | None => Err NoPullRequestHost
  | Some (late, state) => merged_from late state 0 linked ∅
  end.

(** [FinishWithoutRun]. *)
Definition finish_without_run (id : Slug) (reason : text) : BoardChange := λ b when,
  let reason := board_text.line reason in
  let? t := board_task b id in
  let? reads := rule (done_without_run_reads t actor (mo_now when)) in
  let? runs := if mr_runs reads then board_runs_of b id else Ok [] in
  let? changes := if mr_changes reads then board_changes_of b id else Ok [] in
  tasks_clear b ;?
  let linked : gset N := list_to_set (ta_prs t) in
  let work m := mkDoneWork runs changes (bo_tasks b) m in
  let? done := rule (done_without_run t reason actor (work linked) (mo_now when)) in
  let? done := if decide (linked = ∅) then Ok done
               else let? m := merged (ta_prs t) in
                    rule (done_without_run t reason actor (work m) (mo_now when)) in
  Ok [ATask done].

(** [CompleteMergedTask]. *)
Definition complete_merged_task (id : Slug) : BoardChange := λ b when,
  let? t := board_task b id in
  rule (completable t) ;?
  let? changes := board_changes_of b id in
  let? runs := board_runs_of b id in
  let linked : gset N := list_to_set (ta_prs t) in
  rule (complete_merged t linked changes runs (mo_now when)) ;?
  ensure (negb (bool_decide (host = None))) NoPullRequestHost ;?
  assert_that (negb (bool_decide (linked = ∅))) ;?
  let? m := merged (ta_prs t) in
  let? done := rule (complete_merged t m changes runs (mo_now when)) in
  Ok (ATask (cp_task done) :: (ARun <$> option_list (cp_run done))).

(** * Creating and editing a draft *)

(** [description_cells::held]. *)
Definition description_held (description : text) (entry : Entry) : res SchemaError unit :=
  let? sectioned := match entry with
                    | EntrySectioned => Description_read description
                    | EntryLegacy => Ok None
                    end in
  match sectioned with
  | None => Ok tt
  | Some d =>
      ensure (prose_holds (de_goal d)) (pr_field PART_GOAL) ;?
      ensure (match de_why d with Some w => prose_holds w | None => true end) (pr_field PART_WHY) ;?
      no_index (pr_field PART_DONE_WHEN) (λ o, negb (cell_holds (oc_text o))) (de_done_when d) ;?
      no_index (pr_field PART_LINKS) (λ l, negb (cell_holds l)) (de_links d)
  end.

Definition created_at (n : NewBoardTask) (now : Timestamp) : res BoardError Task :=
  let? description := or_panic (board_text.text_ is_alphanumeric (nt_description n)) in
  Ok (mkTask (nt_id n) (board_text.line (nt_title n)) (nt_kind n) description FormLegacy
        (if nt_ready n then Ready else Draft) (nt_parent n) (nt_depends_on n) None None [] None None [] []
        now now None).

Definition free (b : BoardSnapshot) (n : NewBoardTask) : res BoardError unit :=
  match board_task b (nt_id n) with
  | Ok _ => Err (Exists (nt_id n))
  | Err (NotFound _) =>
      let? named := board_naming b (nt_id n) in
      match named with
      | Some by_ => Err (IdInUse (nt_id n) by_)
      | None => pointers_hold b (mkPointers (nt_id n) (nt_parent n) (nt_depends_on n))
      end
  | Err refused => Err refused
  | Panic => Panic
  end.

(** [CreateBoardTask]. *)
Definition create_board_task (n : NewBoardTask) : BoardChange := λ b when,
  free b n ;?
  let? fields := created_at n (mo_now when) in
  let? t := map_err Invalid (Task_entered fields (nt_entry n)) in
  map_err Invalid (description_held (ta_description t) (nt_entry n)) ;?
  Ok [ATask t].

(** [option.map(board_text::text)]. *)
Definition text_given (t : option text) : res BoardError (option text) :=
  match t with
  | Some raw => let? normal := or_panic (board_text.text_ is_alphanumeric raw) in Ok (Some normal)
  | None => Ok None
  end.

(** [UpdateDraftTask]. *)
Definition update_draft_task (u : DraftUpdate) : BoardChange := λ b when,
  let? description := text_given (du_description u) in
  let edit := mkDraftEdit (board_text.line <$> du_title u) description (du_parent u) (du_depends_on u)
                (du_entry u) in
  let? t := board_task b (du_id u) in
  task_as_read object_at b t (du_expected u) ;?
  let? edited := rule (edit_draft t edit (mo_now when)) in
  (match ed_description edit with
   | Some _ => map_err (λ e, Rule (BoardRuleError.Invalid e))
                 (description_held (ta_description edited) (du_entry u))
   | None => Ok tt
   end) ;?
  pointers_hold b (mkPointers (du_id u)
    (match ed_parent edit with Some _ => ta_parent edited | None => None end)
    (match ed_depends_on edit with Some _ => ta_depends_on edited | None => [] end)) ;?
  Ok [ATask edited].

(** * Plans *)

(** [plan_text::handoff]: none when nothing is left. *)
Definition handoff_given (raw : text) : res BoardError (option text) :=
  let? normal := or_panic (board_text.text_ is_alphanumeric raw) in
  Ok (if decide (normal = []) then None else Some normal).

(** [ProposePlan]. *)
Definition propose_plan (p : PlanProposal) : BoardChange := λ b when,
  let? approach := or_panic (board_text.text_ is_alphanumeric (pp_approach p)) in
  let? handoff := match pp_handoff p with Some raw => handoff_given raw | None => Ok None end in
  let content := mkContent approach handoff (entered_plan_items (pp_items p)) (pp_team p) (pp_entry p) in
  let? t := board_task b (pp_task p) in
  let? versions := board_plans_of b (pp_task p) in
  let? plan := rule (propose_at t versions content actor when) in
  coordinator_model_named (pl_team plan) ;?
  Ok [APlan plan].

(** [PlanPatch]: the fields an edit gives. *)
Record PlanPatch := mkPatch {
  pt_approach : option text;
  pt_handoff : option (option text);
  pt_items : option (list PlanItem);
  pt_team : option (option Team);
  pt_entry : PlanEntry;
}.

Definition applied_to (p : PlanPatch) (held : Plan) : PlanContent :=
  mkContent (default (pl_approach held) (pt_approach p)) (default (pl_handoff held) (pt_handoff p))
    (default (pl_items held) (pt_items p)) (default (pl_team held) (pt_team p)) (pt_entry p).

Definition kept_in (p : PlanPatch) (held edited : Plan) : res BoardError unit :=
  assert_that (negb (bool_decide (pt_approach p = None)) || text_eqb (pl_approach edited) (pl_approach held)) ;?
  assert_that (negb (bool_decide (pt_handoff p = None)) || bool_decide (pl_handoff edited = pl_handoff held)) ;?
  assert_that (negb (bool_decide (pt_items p = None)) || bool_decide (pl_items edited = pl_items held)) ;?
  assert_that (negb (bool_decide (pt_team p = None)) || bool_decide (pl_team edited = pl_team held)).

Definition plan_of_version (versions : list Plan) (version : N) : option Plan :=
  List.find (λ p, (pl_version p =? version)%N) versions.

(** [EditPlan]. *)
Definition edit_plan (e : PlanEdit) : BoardChange := λ b when,
  let? approach := text_given (pe_approach e) in
  let? handoff := match pe_handoff e with Some raw => map_ok Some (handoff_given raw) | None => Ok None end in
  let given := mkPatch approach handoff (entered_plan_items <$> pe_items e) (pe_team e) (pe_entry e) in
  let? t := board_task b (pe_task e) in
  let? versions := board_plans_of b (pe_task e) in
  let? p := or_err (plan_of_version versions (pe_version e))
              (Rule (BoardRuleError.UnknownPlanVersion (pe_version e))) in
  let? read := plan_read object_at b (Some p) (pe_expected e) in
  let? edited := rule (edit_plan_draft t versions p (applied_to given p) read actor when) in
  kept_in given p edited ;?
  coordinator_model_named (pl_team edited) ;?
  Ok [APlan edited].

Definition accepted_artifacts (a : AcceptedPlan) : list BoardArtifact :=
  ATask (ac_task a) :: APlan (ac_plan a) :: (APlan <$> option_list (ac_superseded a)).

(** [AcceptPlan]. *)
Definition accept_plan (a : PlanAcceptance) : BoardChange := λ b when,
  let? t := board_task b (pa_task a) in
  let? versions := board_plans_of b (pa_task a) in
  let? runs := board_runs_of b (pa_task a) in
  let? pinned := plan_read object_at b (plan_of_version versions (pa_version a)) (Some (pa_expected a)) in
  let? done := rule (accept t versions runs (pa_version a)
                       (Some (mkAsRead pinned (pa_expected_accepted a))) actor when) in
  Ok (accepted_artifacts done).

(** [DiscardPlan]. *)
Definition discard_plan (id : Slug) (version : N) (expected : option ReadPin) : BoardChange := λ b when,
  let? t := board_task b id in
  let? versions := board_plans_of b id in
  let? p := or_err (plan_of_version versions version) (Rule (BoardRuleError.UnknownPlanVersion version)) in
  let? read := plan_read object_at b (Some p) expected in
  let? discarded := rule (discard t versions p read actor when) in
  Ok [APlan discarded].

(** * Runs *)

(** [BeginBoardRun::write]. *)
Definition begin_board_run (id : Slug) (plan_version : N) : BoardChange := λ b when,
  let? t := board_task b id in
  (match ta_accepted_plan t with
   | None => Ok tt
   | Some _ => rule (as_accepted t (Some plan_version))
   end) ;?
  let? versions := board_plans_of b id in
  let? runs := board_runs_of b id in
  let plan := accepted ← ta_accepted_plan t; plan_of_version versions accepted in
  let? started := rule (start t (bo_tasks b) runs plan actor (mo_now when)) in
  match brief_refusal started with
  | Some refusal => Err refusal
  | None => Ok [ATask (sd_task started); ARun (sd_run started)]
  end.

(** [FoldBackRun::pass]. *)
Definition fold_back_run (id : Slug) (number : N) (view : SwarmRunView) (ending : Ending) (how : Evidence)
    : BoardChange := λ b when,
  let? t := board_task b id in
  let? runs := board_runs_of b id in
  let? plans := board_plans_of b id in
  let? ran := rule (run_and_plan runs plans number) in
  let? items := run_items cell_holds ran.2 view how in
  let? folded := rule (fold_back ran.1 ran.2 (SwarmEnd_outcome (sv_end view)) (Some (cost_of view))
                         (fb_items items) (mo_now when)) in
  let? moved := rule (match ending with
                      | EndingSwarm => task_after_end t folded (SwarmEnd_stop (sv_end view)) (mo_now when)
                      | EndingUndo from => task_after_undo t folded from (mo_now when)
                      end) in
  Ok (run_end_writes folded moved).

(** The undo of a start folds its run back as a swarm that reported nothing. *)
Definition failed_view : SwarmRunView := mkSwarmView SwarmFailed [] 0%N.
Definition undo_run (u : StartUndo) (how : Evidence) : BoardChange :=
  fold_back_run (su_task u) (su_run u) failed_view (EndingUndo (su_from u)) how.

(** [undoable]: whether a server makes the undo its client asks for. *)
Definition undoable (id : Slug) (plan_version : N) (u : StartUndo) (b : BoardSnapshot) (now : Timestamp)
    : res BoardError unit :=
  ensure (text_eqb (su_task u) id && (su_plan_version u =? plan_version)%N) (Invalid "undo"%string) ;?
  (match su_from u with
   | Draft | Done | Archived => Err (Invalid "from"%string)
   | _ => Ok tt
   end) ;?
  let? t := board_task b (su_task u) in
  let? runs := board_runs_of b (su_task u) in
  let? r := or_err (List.find (λ r, (ru_number r =? su_run u)%N) runs)
              (Rule (BoardRuleError.NoSuchRun (su_run u))) in
  let latest := (last_number (ru_number <$> runs) =? su_run u)%N in
  let holds := match ta_claim t with Some c => same_committer (cl_holder c) actor | None => false end in
  let live := match ta_claim t with Some c => is_live c now | None => false end in
  match run_is_open r, latest, ta_status t, holds, live with
  | false, _, _, _, _ | true, true, InProgress, true, true => Ok tt
  | true, _, _, false, _ => Err (Rule BoardRuleError.NotHolder)
  | true, _, _, true, false => Err (Rule BoardRuleError.ClaimExpired)
  | true, false, _, true, true => Err (Rule BoardRuleError.RunsInconsistent)
  | true, true, from, true, true => Err (Rule (BoardRuleError.NotAllowed from (su_from u)))
  end.

(** [EndRun::judged]. *)
Definition judged_evidence (evidence : EvidenceRevisions) : res BoardError JudgedEvidence :=
  match rev_ids evidence with
  | [] => Ok (mkJudged 0 (length (rev_entries evidence)))
  | _ :: _ =>
      let? id_len := rm_commit_id_hex_len remote in
      let checked := filter (λ id, checks_commit id id_len = true) (rev_ids evidence) in
      let? unchecked := unchecked evidence id_len in
      let? unpushed := match checked with
                       | [] => Ok 0
                       | _ :: _ =>
                           let? missing := rm_not_on_remote remote checked in
                           assert_that (forallb (λ m, bool_decide (m ∈ checked)) missing) ;?
                           Ok (length missing)
                       end in
      Ok (mkJudged unpushed unchecked)
  end.

(** [EndRun::unpushed]: the remote is asked once for the same evidence, so that its
    answers are those of one moment. *)
Definition unpushed (p : Plan) (view : SwarmRunView) : res BoardError nat :=
  let? evidence := evidence_revisions p view in map_ok je_unpushed (judged_evidence evidence).

(** What is known of a run ended by hand. *)
Definition reported (report : option SwarmRunView) (folded : option FoldBackItems) (p : Plan) (swarm : SwarmEnd)
    (unpushed : nat) : res BoardError Reported :=
  match report, folded with
  | Some view, Some folded => Ok (mkReported (fb_items folded) (Some (cost_of view)) ReportKept unpushed)
  | None, _ | Some _, None =>
      let? nothing := run_items cell_holds p (mkSwarmView swarm [] 0%N) EvidenceLeft in
      Ok (mkReported (fb_items nothing) None ReportNoneKept 0)
  end.

(** [EndRun::ended]. *)
Definition end_run_ended (r : RunEnd) (report : option SwarmRunView) (how : Evidence)
    (b : BoardSnapshot) (when : Moment) : res BoardError (Task * Run) :=
  let? t := board_task b (re_task r) in
  task_as_read object_at b t (re_expected r) ;?
  let? runs := board_runs_of b (re_task r) in
  let? plans := board_plans_of b (re_task r) in
  let? ran := rule (run_and_plan runs plans (re_run r)) in
  ensure (run_is_open ran.1) (Rule (BoardRuleError.RunEnded (re_run r))) ;?
  let? folded := match report with
                 | Some view => map_ok Some (run_items cell_holds ran.2 view how)
                 | None => Ok None
                 end in
  let held e swarm n :=
    let? known := reported report folded ran.2 swarm n in
    rule (end_held t ran e known actor (mo_now when)) in
  let? ended := match re_outcome r, report with
                | EndSucceeded, Some view =>
                    held HeldSucceeded SwarmSucceeded 0 ;?
                    let? n := unpushed ran.2 view in
                    held HeldSucceeded SwarmSucceeded n
                | EndSucceeded, None => held HeldSucceeded SwarmSucceeded 0
                | EndStopped, _ => held HeldStopped SwarmCancelled 0
                | EndFailed, _ => held HeldFailed SwarmFailed 0
                | EndLost, _ =>
                    let? known := reported report folded ran.2 SwarmFailed 0 in
                    rule (end_lost t ran known actor (mo_now when))
                end in
  Ok (t, ended).

(** [EndRun]: [ended] is the board its swarm ended on, [left] the one it had
    reached as its owner stopped it. *)
Definition end_run (r : RunEnd) (ended left : option SwarmRunView) (how : Evidence) : BoardChange := λ b when,
  let stop := match ended with
              | Some view => SwarmEnd_stop (sv_end view)
              | None => default StopCancelled (re_stop r)
              end in
  let report := match re_outcome r with
                | EndSucceeded => ended
                | EndStopped | EndFailed | EndLost => union ended left
                end in
  let? tr := end_run_ended r report how b when in
  let? moved := rule (task_after_end tr.1 tr.2 stop (mo_now when)) in
  Ok (run_end_writes tr.2 moved).

End use_cases.
