(* ===== verification/BoardFacts.v ===== *)
(** Facts shared by the board's theorems: the results of rules, the schema of a
    task under a change, and stamps. *)

From S2P Require Import Prelude BoardText BoardSchema BoardDescription BoardTask BoardArtifacts BoardClaims.

Create HintDb board.

(** * Results *)

Lemma each_no_panic {E A} (f : nat → A → res E unit) l :
  (∀ i x, x ∈ l → f i x ≠ Panic) → each f l ≠ Panic.
Proof.
  unfold each. generalize 0. induction l as [|x l IH]; intros n Hf; [done|].
  apply rbind_no_panic; [apply Hf; set_solver|]. intros _ _. apply IH. intros. apply Hf. set_solver.
Qed.

Lemma each_Ok {E A} (f : nat → A → res E unit) l u :
  each f l = Ok u → ∀ x, x ∈ l → ∃ i, f i x = Ok tt.
Proof.
  unfold each. generalize 0. induction l as [|y l IH]; intros n Hf x Hx; [set_solver|].
  simpl in Hf. inv_ok. apply elem_of_cons in Hx as [->|Hx]; eauto.
Qed.

#[export] Hint Resolve map_err_no_panic map_ok_no_panic ensure_no_panic or_err_no_panic : board.

Ltac no_panic :=
  repeat first
    [ done
    | apply ensure_no_panic
    | apply or_err_no_panic
    | apply map_err_no_panic
    | apply map_ok_no_panic
    | apply rbind_no_panic; [|intros ? ?]
    | progress cbv beta ].

(** * Stamps *)

Lemma after_last_eq updated now : after_last updated now = Ok (now `max` updated)%N.
Proof. unfold after_last. destruct (N.leb_spec updated (now `max` updated)%N); [done|lia]. Qed.

Lemma stamp_eq t now : stamp t now = Ok (now `max` ta_updated t)%N.
Proof. apply after_last_eq. Qed.

Lemma foldl_max_ge l (a : N) : (a ≤ foldl N.max a l)%N.
Proof. by destruct (foldl_max_spec l a) as (_ & ? & _). Qed.

Lemma not_before_eq t stamps now :
  not_before t stamps now = Ok (now `max` foldl N.max (ta_updated t) stamps)%N.
Proof.
  unfold not_before. pose proof (foldl_max_ge stamps (ta_updated t)).
  destruct (N.leb_spec (ta_updated t) (now `max` foldl N.max (ta_updated t) stamps)%N); [done|lia].
Qed.

(** * The schema of a task *)

Section task_facts.
Context `{Shapes}.

(** What holds of a task the schema admits. *)
Lemma task_ok_times t : task_ok t → (ta_created t ≤ ta_updated t)%N.
Proof. unfold task_ok, validate_task. intros. inv_ok. by apply N.leb_le. Qed.

Lemma task_ok_claim t : task_ok t → validate_claim t = Ok tt.
Proof. unfold task_ok, validate_task. intros. inv_ok. done. Qed.

Lemma task_ok_reason t : task_ok t → reason_holds t = Ok tt.
Proof. unfold task_ok, validate_task. intros. inv_ok. done. Qed.

Lemma task_ok_closure t : task_ok t → validate_closure t = Ok tt.
Proof. unfold task_ok, validate_task. intros. inv_ok. done. Qed.

Lemma task_ok_resolution t : task_ok t → resolution_holds t = Ok tt.
Proof. intros Ht%task_ok_closure. unfold validate_closure in Ht. inv_ok. done. Qed.

Lemma task_ok_description t : task_ok t → validate_description t = Ok tt.
Proof. unfold task_ok, validate_task. intros. inv_ok. done. Qed.

(** An open task is unresolved; one that is not ready, done or archived has no
    reason. *)
Lemma task_ok_unresolved t :
  task_ok t → ta_status t ≠ Done → ta_status t ≠ Archived → ta_resolution t = None.
Proof.
  intros Ht%task_ok_resolution. unfold resolution_holds in Ht. inv_ok. simpl in Ht.
  destruct (ta_resolution t) as [[]|], (ta_status t); simpl in *; done.
Qed.

Lemma task_ok_unreasoned t :
  task_ok t → ta_status t ≠ Ready → ta_status t ≠ Done → ta_status t ≠ Archived → ta_reason t = None.
Proof.
  intros Ht%task_ok_reason. unfold reason_holds in Ht. inv_ok. by repeat case_match.
Qed.

Lemma task_ok_no_claim t : task_ok t → may_hold_claim (ta_status t) = false → ta_claim t = None.
Proof.
  intros Ht%task_ok_claim Hs. unfold validate_claim in Ht. rewrite Hs in Ht. by destruct (ta_claim t).
Qed.

Lemma task_ok_has_claim t : task_ok t → requires_claim (ta_status t) = true → is_Some (ta_claim t).
Proof.
  intros Ht%task_ok_claim Hs. unfold validate_claim in Ht. destruct (ta_claim t); [by eexists|].
  by rewrite Hs in Ht.
Qed.

(** The claim a task holds lasts at most two hours, within the task's life. *)
Lemma task_ok_claim_bounds t c :
  task_ok t → ta_claim t = Some c →
  (ta_created t ≤ cl_since c ∧ cl_since c ≤ ta_updated t ∧ cl_since c < cl_expires c
   ∧ cl_expires c ≤ cl_since c + CLAIM_TTL_SECONDS ∧ cl_since c + CLAIM_TTL_SECONDS ≤ LAST)%N.
Proof.
  intros Ht%task_ok_claim Hc. unfold validate_claim in Ht. rewrite Hc in Ht.
  destruct (may_hold_claim _); [|done]. unfold Claim_validate in Ht. inv_ok.
  repeat match goal with
  | H : (_ && _) = true |- _ => apply andb_true_iff in H as [? ?]
  | H : (_ <=? _)%N = true |- _ => apply N.leb_le in H
  | H : (_ <? _)%N = true |- _ => apply N.ltb_lt in H
  end.
  match goal with H : plus_seconds _ _ = Ok _ |- _ => unfold plus_seconds in H; case_match; simplify_eq end.
  repeat match goal with H : (_ <=? _)%N = true |- _ => apply N.leb_le in H end. lia.
Qed.

(** A task neither depends on itself nor is its own parent. *)
Lemma task_ok_not_own t : task_ok t → ta_id t ∉ ta_depends_on t ∧ ta_parent t ≠ Some (ta_id t).
Proof.
  unfold task_ok, validate_task. intros Ht. inv_ok. split_bools. split; [|done]. intros Hin.
  match goal with H : no_index _ _ (ta_depends_on t) = _ |- _ => unfold no_index in H; destruct (position _ _) eqn:Hp in H; [done|] end.
  pose proof (position_None _ _ Hp _ Hin) as Hn. simpl in Hn. by apply bool_decide_eq_false in Hn.
Qed.

(** ** Building a task anew *)

Lemma Task_new_Ok t t' :
  Task_new t = Ok t' →
  task_ok t' ∧ task_ok t
  ∧ t' = with_description (ta_description t') (ta_description_form t) t
  ∧ (has_settled_outcomes t = false → t' = t).
Proof.
  unfold Task_new, task_ok. intros HT. inv_ok.
  destruct (has_settled_outcomes t) eqn:Hs; inv_ok; [done|].
  repeat split; try done. by destruct t'.
Qed.

Lemma settle_Ok next at_ t' :
  settle next at_ = Ok t' →
  task_ok t' ∧ (ta_updated next ≤ at_)%N
  ∧ t' = with_updated at_ (with_description (ta_description t') (ta_description_form next) next)
  ∧ (has_settled_outcomes next = false → t' = with_updated at_ next).
Proof.
  unfold settle. intros HT. inv_ok. apply Task_new_Ok in HT as (Hok & Hok' & Heq & Hs).
  split_and!; [done|by apply N.leb_le| |].
  - rewrite Heq at 1. done.
  - intros Hn. apply Hs. done.
Qed.

End task_facts.
