(* ===== verification/BoardCycles.v ===== *)
(** The walks that keep dependencies and parents free of cycles: they end, and they
    find a cycle exactly where there is one. *)

From stdpp Require Import gmap relations.
From S2P Require Import Prelude BoardText BoardSchema BoardDescription BoardTask BoardArtifacts BoardView BoardFacts.

(** * Graphs *)

Definition acyclic {A} (R : relation A) : Prop := ∀ x, ¬ tc R x x.

(** Nothing of a set closed under the edges leads out of it. *)
Lemma closed_unreached {A} (R : relation A) (S : A → Prop) id :
  (∀ x y, S x → R x y → y ≠ id ∧ ((∃ z, R y z) → S y)) → ∀ x, S x → ¬ tc R x id.
Proof.
  intros Hc x Hx Hr. assert (∀ x y, tc R x y → S x → y ≠ id) as Hall; [|by eapply Hall].
  clear x Hx Hr. intros x y Hr. induction Hr as [x y Hxy|x y z Hxy Hyz IH]; intros Hx.
  - by apply (Hc x y).
  - apply IH. destruct (Hc x y Hx Hxy) as [_ Hs]. apply Hs. destruct Hyz; eauto.
Qed.

(** The edges of every node but one. *)
Definition avoiding {A} (R : relation A) (id : A) : relation A := λ a c, a ≠ id ∧ R a c.

Lemma avoiding_tc {A} (R : relation A) id a c : tc (avoiding R id) a c → tc R a c.
Proof. apply tc_congruence with (f := λ x, x). by intros ? ? []. Qed.

(** Edges from one node replaced: a cycle of the new graph is one of the old or
    leads from the node's new targets back to it. *)
Lemma acyclic_replaced {A} (R R' : relation A) id `{!EqDecision A} :
  acyclic R →
  (∀ x y, x ≠ id → R' x y → R x y) →
  (∀ y, R' id y → y ≠ id ∧ ¬ tc (avoiding R' id) y id) →
  acyclic R'.
Proof.
  intros Hac Hold Hnew x Hx.
  (* A path that never leaves [id] is one of [R]; one that does reaches [id]. *)
  assert (∀ a c, tc R' a c → tc (avoiding R' id) a c ∨ rtc R' a id ∧ (a = id ∨ tc (avoiding R' id) a id) ∧ ∃ d, R' id d ∧ rtc R' d c) as Hsplit.
  { intros a c Hac'. induction Hac' as [a c Hac'|a c e Hac' Hce IH].
    - destruct (decide (a = id)) as [->|Hn]; [|left; by apply tc_once].
      right. split_and!; [done|by left|]. by exists c.
    - destruct (decide (a = id)) as [->|Hn].
      + right. split_and!; [done|by left|]. exists c. split; [done|]. by apply tc_rtc.
      + destruct IH as [IH|(Hr & Hq & d & Hd & Hdc)].
        * left. by eapply tc_l.
        * right. split_and!; [by eapply rtc_l| |eauto]. right. destruct Hq as [->|Hq]; [by apply tc_once|].
          by eapply tc_l. }
  assert (¬ ∃ d, R' id d ∧ rtc R' d id) as Hno.
  { intros (d & Hd & Hdid). destruct (Hnew d Hd) as [Hne Hnr].
    apply rtc_tc in Hdid as [->|Hdid]; [done|]. apply Hsplit in Hdid as [Hq|(_ & [->|Hq] & _)]; done. }
  apply Hsplit in Hx as [Hq|(_ & Hq & d & Hd & Hdx)].
  - apply (Hac x). revert Hq. apply tc_congruence with (f := λ x, x). intros ? ? []. auto.
  - apply Hno. destruct Hq as [->|Hq]; [eauto|]. exists d. split; [done|]. etrans; [done|].
    by eapply tc_rtc, avoiding_tc.
Qed.

Lemma tc_first {A} (R : relation A) x z : tc R x z → ∃ y, R x y ∧ rtc R y z.
Proof. intros [? ? ?|? y ? ? ?]; [by eexists; split; [|apply rtc_refl]|eauto using tc_rtc]. Qed.

(** * The walk along dependencies *)

Lemma sum_list_with_eq {A} (f g : A → nat) l :
  (∀ x, x ∈ l → f x = g x) → sum_list_with f l = sum_list_with g l.
Proof.
  induction l as [|x l IH]; intros He; simpl; [done|]. rewrite (He x), IH; [done|intros; apply He|]; set_solver.
Qed.

Lemma elem_of_rev {A} (l : list A) x : x ∈ rev l ↔ x ∈ l.
Proof. rewrite !list_elem_of_In. symmetry. apply in_rev. Qed.

Section dependency_walk.
Variable tasks : gmap Slug Task.
Variable id : Slug.
Variable start : list Slug.

Definition depends_edge : relation Slug := λ a b, ∃ t, tasks !! a = Some t ∧ b ∈ ta_depends_on t.

(** What is left to visit. *)
Definition unexpanded (expanded : gset Slug) : nat :=
  sum_list_with (λ kt : Slug * Task, if decide (kt.1 ∈ expanded) then 0 else length (ta_depends_on kt.2))
    (map_to_list tasks).

Lemma unexpanded_insert expanded a t :
  tasks !! a = Some t → a ∉ expanded →
  unexpanded expanded = length (ta_depends_on t) + unexpanded ({[a]} ∪ expanded).
Proof.
  intros Ht Ha. unfold unexpanded.
  rewrite <- (insert_delete_id tasks a t Ht) at 1 2.
  assert (∀ f : Slug * Task → nat, sum_list_with f (map_to_list (<[a:=t]> (delete a tasks)))
            = f (a, t) + sum_list_with f (map_to_list (delete a tasks))) as Hsum.
  { intros f. rewrite map_to_list_insert by apply lookup_delete_eq. done. }
  rewrite !Hsum. simpl. rewrite decide_False by done. rewrite decide_True by set_solver. simpl. f_equal.
  apply sum_list_with_eq. intros [k u] Hk%elem_of_map_to_list. simpl.
  assert (k ≠ a) by (intros ->; by rewrite lookup_delete_eq in Hk).
  repeat case_decide; set_solver.
Qed.

(** What holds of the walk between two visits. *)
Record walking (expanded : gset Slug) (next closers : list Slug) : Prop := {
  wa_board : ∀ x, x ∈ expanded → is_Some (tasks !! x);
  wa_closed : ∀ x y, x ∈ expanded → depends_edge x y → y ∈ expanded ∨ y ∈ next ∨ tasks !! y = None;
  wa_start : ∀ x, x ∈ start → x ∈ expanded ∨ x ∈ next ∨ tasks !! x = None;
  wa_reached : ∀ x, x ∈ expanded ∨ x ∈ next → ∃ s, s ∈ start ∧ rtc depends_edge s x;
  wa_closers : ∀ x, x ∈ closers ↔ x ∈ expanded ∧ depends_edge x id;
}.

Lemma dependency_walk_walks fuel : ∀ expanded next closers,
  walking expanded next closers → length next + unexpanded expanded ≤ fuel →
  ∃ expanded' closers', dependency_walk fuel tasks id expanded next closers = Some (expanded', closers')
  ∧ walking expanded' [] closers'.
Proof.
  induction fuel as [|fuel IH]; intros expanded next closers Hw Hf.
  - destruct next; [|simpl in Hf; lia]. by exists expanded, closers.
  - destruct next as [|a next]; [by exists expanded, closers|]. simpl. simpl in Hf.
    destruct (tasks !! a) as [t|] eqn:Ht; [case_decide as Ha|].
    + apply IH; [|lia]. destruct Hw as [Hb Hc Hs Hr Hcl]. split; try done.
      * intros x y Hx Hy. destruct (Hc x y Hx Hy) as [?|[Hin|?]]; auto. set_solver.
      * intros x Hx. destruct (Hs x Hx) as [?|[Hin|?]]; auto. set_solver.
      * intros x Hx. apply Hr. set_solver.
    + apply IH; [|rewrite length_app, length_rev; rewrite (unexpanded_insert expanded a t) in Hf by done; lia].
      destruct Hw as [Hb Hc Hs Hr Hcl].
      assert (∀ y, depends_edge a y ↔ y ∈ ta_depends_on t) as Hedge.
      { intros y. unfold depends_edge. rewrite Ht. naive_solver. }
      split.
      * intros x [->%elem_of_singleton|Hx]%elem_of_union; eauto.
      * intros x y Hx Hy. apply elem_of_union in Hx as [->%elem_of_singleton|Hx].
        -- right; left. apply Hedge in Hy. rewrite elem_of_app, elem_of_rev. by left.
        -- destruct (Hc x y Hx Hy) as [?|[Hin|?]]; [left; set_solver| |by auto].
           apply elem_of_cons in Hin as [->|Hin]; [left; set_solver|right; left; set_solver].
      * intros x Hx. destruct (Hs x Hx) as [?|[Hin|?]]; [left; set_solver| |by auto].
        apply elem_of_cons in Hin as [->|Hin]; [left; set_solver|right; left; set_solver].
      * intros x Hx.
        destruct (Hr a) as (s & Hs1 & Hs2); [set_solver|].
        assert (x = a ∨ x ∈ ta_depends_on t ∨ (x ∈ expanded ∨ x ∈ a :: next)) as [->|[Hd|Ho]]; [|by eauto| |by apply Hr].
        { rewrite elem_of_app, elem_of_rev in Hx. set_solver. }
        exists s. split; [done|]. eapply rtc_r; [done|]. by apply Hedge.
      * intros x. rewrite elem_of_union, elem_of_singleton.
        assert (x ∈ (if bool_decide (id ∈ ta_depends_on t) then closers ++ [a] else closers)
                ↔ x ∈ closers ∨ x = a ∧ depends_edge a id) as ->.
        { rewrite Hedge. case_bool_decide; set_solver. }
        rewrite Hcl. naive_solver.
    + apply IH; [|lia]. destruct Hw as [Hb Hc Hs Hr Hcl]. split; try done.
      * intros x y Hx Hy. destruct (Hc x y Hx Hy) as [?|[Hin|?]]; auto.
        apply elem_of_cons in Hin as [->|Hin]; auto.
      * intros x Hx. destruct (Hs x Hx) as [?|[Hin|?]]; auto. apply elem_of_cons in Hin as [->|Hin]; auto.
      * intros x Hx. apply Hr. set_solver.
Qed.

(** A walk that has ended has visited what the start leads to. *)
Lemma walking_over expanded closers :
  walking expanded [] closers → closers = [] ↔ ∀ d, d ∈ start → ¬ tc depends_edge d id.
Proof.
  intros [Hb Hc Hs Hr Hcl]. split.
  - intros -> d Hd Ht.
    assert (d ∈ expanded) as Hin.
    { destruct (Hs d Hd) as [?|[Hn|Hn]]; [done|by apply not_elem_of_nil in Hn|].
      destruct Ht as [? ? (? & ? & _)|? ? ? (? & ? & _)]; congruence. }
    revert Ht. apply (closed_unreached depends_edge (λ x, x ∈ expanded)); [|done].
    intros x y Hx Hxy. split.
    + intros ->. eapply (not_elem_of_nil x), Hcl; done.
    + intros (z & t & Ht & _). destruct (Hc x y Hx Hxy) as [?|[Hn|?]]; [done|by apply not_elem_of_nil in Hn|congruence].
  - intros Hno. destruct closers as [|x closers]; [done|]. destruct (Hcl x) as [[Hx Hxid] _]; [set_solver|].
    destruct (Hr x) as (s & Hs1 & Hs2); [by left|]. destruct (Hno s Hs1). eapply tc_rtc_l; [done|]. by apply tc_once.
Qed.

End dependency_walk.

Lemma dependency_closers_spec tasks refs :
  ∃ closers, dependency_closers tasks refs = Some closers
  ∧ (closers = [] ↔ ∀ d, d ∈ po_depends_on refs → ¬ tc (depends_edge tasks) d (po_id refs)).
Proof.
  unfold dependency_closers.
  destruct (dependency_walk_walks tasks (po_id refs) (po_depends_on refs)
    (walk_fuel tasks (po_depends_on refs)) ∅ (rev (po_depends_on refs)) []) as (expanded & closers & Hwalk & Hw).
  - split; try set_solver.
    + intros x Hx. right; left. by apply elem_of_rev.
    + intros x. rewrite elem_of_rev. intros [?|Hx]; [set_solver|]. exists x. split; [done|apply rtc_refl].
  - unfold walk_fuel, unexpanded. rewrite length_rev. apply Nat.add_le_mono_l, Nat.eq_le_incl, sum_list_with_eq.
    intros x _. by rewrite decide_False by set_solver.
  - rewrite Hwalk. simpl. exists closers.
    assert (size expanded ≤ size tasks) as Hsize.
    { rewrite <- size_dom. apply subseteq_size. intros x Hx. apply elem_of_dom. by apply (wa_board _ _ _ _ _ _ Hw). }
    rewrite (proj2 (Nat.leb_le _ _) Hsize). split; [done|]. by apply walking_over with (expanded := expanded).
Qed.

(** * The walk up the parents *)

Definition parent_edge (tasks : gmap Slug Task) : relation Slug :=
  λ a b, ∃ t, tasks !! a = Some t ∧ ta_parent t = Some b.

(** What holds of the walk between two steps. *)
Record climbing (tasks : gmap Slug Task) (id : Slug) (start : option Slug) (seen : gset Slug) (at_ : option Slug)
    : Prop := {
  cb_board : seen ⊆ dom tasks;
  cb_up : ∀ x y, x ∈ seen → parent_edge tasks x y → y ≠ id ∧ (y ∈ seen ∨ at_ = Some y);
  cb_start : ∀ x, start = Some x → x ∈ seen ∨ at_ = Some x;
  cb_reached : ∀ x, at_ = Some x → ∃ s, start = Some s ∧ rtc (parent_edge tasks) s x;
}.

(** A walk that has ended has seen every ancestor on the board. *)
Lemma climbing_over tasks id start seen at_ :
  climbing tasks id start seen at_ → (∀ x, at_ = Some x → x ∈ seen ∨ tasks !! x = None) →
  ∀ s, start = Some s → ¬ tc (parent_edge tasks) s id.
Proof.
  intros [Hb Hu Hs Hr] Hover s Hstart Ht.
  assert (∀ x, (x ∈ seen ∨ at_ = Some x) → (∃ y, parent_edge tasks x y) → x ∈ seen) as Hin.
  { intros x [?|Hx] (y & t & Hy & _); [done|]. destruct (Hover x Hx); [done|congruence]. }
  assert (s ∈ seen) as Hseen.
  { apply Hin; [by apply Hs|]. destruct Ht; eauto. }
  revert Ht. apply (closed_unreached _ (λ x, x ∈ seen)); [|done].
  intros x y Hx Hxy. destruct (Hu x y Hx Hxy) as [? Hy]. split; [done|]. by apply Hin.
Qed.

Lemma parent_walk_climbs tasks id start fuel : ∀ seen at_,
  climbing tasks id start seen at_ → size tasks < fuel + size seen →
  ∃ o, parent_walk fuel tasks id seen at_ = Some o
  ∧ (o = None ↔ ∀ s, start = Some s → ¬ tc (parent_edge tasks) s id).
Proof.
  induction fuel as [|fuel IH]; intros seen at_ Hc Hf.
  - pose proof (subseteq_size _ _ (cb_board _ _ _ _ _ Hc)) as Hle. rewrite size_dom in Hle. lia.
  - assert (size seen <=? size tasks = true) as Hover.
    { apply Nat.leb_le. rewrite <- size_dom. apply subseteq_size, Hc. }
    simpl. rewrite Hover. destruct at_ as [a|].
    2: { exists None. split; [done|]. split; [|done]. intros _. by eapply climbing_over. }
    destruct (tasks !! a) as [t|] eqn:Ht; [case_decide as Ha|].
    + exists None. split; [done|]. split; [|done]. intros _. eapply climbing_over; [done|]. intros x [= <-]. by left.
    + case_bool_decide as Hp.
      * exists (Some a). split; [done|]. split; [done|]. intros Hno.
        destruct (cb_reached _ _ _ _ _ Hc a eq_refl) as (s & Hs & Hr). destruct (Hno s Hs).
        eapply tc_rtc_l; [done|]. apply tc_once. by exists t.
      * apply IH; [|rewrite size_union by set_solver; rewrite size_singleton; lia].
        destruct Hc as [Hb Hu Hs Hr]. split.
        -- apply union_subseteq. split; [|done]. apply singleton_subseteq_l, elem_of_dom. eauto.
        -- intros x y Hx Hxy. apply elem_of_union in Hx as [->%elem_of_singleton|Hx].
           ++ destruct Hxy as (t' & Ht' & Hy). split; [congruence|]. right. congruence.
           ++ destruct (Hu x y Hx Hxy) as [? [?|[= ->]]]; split; try done; left; set_solver.
        -- intros x Hx. destruct (Hs x Hx) as [?|[= ->]]; left; set_solver.
        -- intros x Hx. destruct (Hr a eq_refl) as (s & ? & ?). exists s. split; [done|].
           eapply rtc_r; [done|]. by exists t.
    + exists None. split; [done|]. split; [|done]. intros _. eapply climbing_over; [done|]. intros x [= <-]. by right.
Qed.

Lemma parent_closer_spec tasks refs :
  ∃ o, parent_closer tasks refs = Some o
  ∧ (o = None ↔ ∀ p, po_parent refs = Some p → ¬ tc (parent_edge tasks) p (po_id refs)).
Proof.
  apply parent_walk_climbs; [|lia]. split; try set_solver.
Qed.

(** * The items of a plan *)

Section items.
Variable items : list PlanItem.
Hypothesis distinct_ids : NoDup (pi_id <$> items).
Hypothesis siblings : ∀ i d, i ∈ items → d ∈ pi_depends_on i → d ∈ pi_id <$> items.

Definition item_edge : relation Slug := λ a b, ∃ i, i ∈ items ∧ pi_id i = a ∧ b ∈ pi_depends_on i.

Lemma positions_other (l : list PlanItem) : ∀ k (m : gmap Slug nat) d,
  d ∉ pi_id <$> l →
  foldl (λ m (p : nat * PlanItem), <[pi_id p.2 := p.1]> m) m (zip (seq k (length l)) l) !! d = m !! d.
Proof.
  induction l as [|i l IH]; intros k m d Hd; simpl; [done|].
  rewrite IH by set_solver. apply lookup_insert_ne. set_solver.
Qed.

Lemma positions_at (l : list PlanItem) : ∀ k (m : gmap Slug nat) j i,
  NoDup (pi_id <$> l) → l !! j = Some i →
  foldl (λ m (p : nat * PlanItem), <[pi_id p.2 := p.1]> m) m (zip (seq k (length l)) l) !! pi_id i = Some (k + j).
Proof.
  induction l as [|x l IH]; intros k m j i Hd Hj; [done|]. rewrite fmap_cons in Hd.
  inversion_clear Hd as [|? ? Hx Hd']. rename Hd' into Hd.
  destruct j as [|j]; simpl in *.
  - injection Hj as ->. rewrite positions_other by done. rewrite lookup_insert_eq. f_equal. lia.
  - rewrite (IH _ _ _ _ Hd Hj). f_equal. lia.
Qed.

Lemma item_positions_at j i : items !! j = Some i → item_positions items !! pi_id i = Some j.
Proof. intros Hj. unfold item_positions. by rewrite (positions_at items 0 ∅ j i distinct_ids Hj). Qed.

(** ** A round *)

(** The item of id [d] is settled. *)
Definition settled_id (settled : list bool) (d : Slug) : Prop :=
  ∃ j i, items !! j = Some i ∧ pi_id i = d ∧ settled !! j = Some true.

Definition item_free (settled : list bool) (i : PlanItem) : Prop :=
  ∀ d, d ∈ pi_depends_on i → settled_id settled d.

Lemma all_settled_spec settled depends_on :
  length settled = length items → (∀ d, d ∈ depends_on → d ∈ pi_id <$> items) →
  ∃ f, all_settled (item_positions items) settled depends_on = Some f
  ∧ (f = true ↔ ∀ d, d ∈ depends_on → settled_id settled d).
Proof.
  intros Hl. induction depends_on as [|d ds IH]; intros Hd; simpl.
  { exists true. split; [done|]. split; [|done]. intros _ d Hin. by apply not_elem_of_nil in Hin. }
  destruct (list_elem_of_fmap_1 _ _ _ (Hd d (list_elem_of_here _ _))) as (i & -> & Hi).
  apply list_elem_of_lookup_1 in Hi as [j Hj]. rewrite (item_positions_at j i Hj). simpl.
  destruct (lookup_lt_is_Some_2 settled j) as [b Hb]; [rewrite Hl; by eapply lookup_lt_Some|]. rewrite Hb. simpl.
  assert (settled_id settled (pi_id i) ↔ b = true) as Hset.
  { split; [|intros ->; by exists j, i]. intros (j' & i' & Hj' & Hi' & Hb').
    assert (j' = j) as ->; [|congruence]. apply item_positions_at in Hj', Hj. congruence. }
  destruct b.
  - destruct IH as (f & Hf & Hiff); [set_solver|]. exists f. split; [done|]. rewrite Hiff.
    split; [|set_solver]. intros Hall x [->|Hx]%elem_of_cons; [by apply Hset|by apply Hall].
  - exists false. split; [done|]. split; [done|]. intros Hall. apply Hset, Hall. set_solver.
Qed.

Lemma ready_from_spec settled l : ∀ k,
  length settled = length items → (∀ j i, l !! j = Some i → items !! (k + j) = Some i) →
  ∃ ready, ready_from (item_positions items) settled k l = Some ready
  ∧ ∀ n, n ∈ ready ↔ ∃ j i, n = k + j ∧ l !! j = Some i ∧ settled !! n = Some false ∧ item_free settled i.
Proof.
  induction l as [|x l IH]; intros k Hl Hat; simpl.
  { exists []. split; [done|]. intros n. split; [by intros ?%not_elem_of_nil|]. by intros (? & ? & _ & ? & _). }
  pose proof (Hat 0 x eq_refl) as Hx. rewrite Nat.add_0_r in Hx.
  destruct (lookup_lt_is_Some_2 settled k) as [b Hb]; [rewrite Hl; by eapply lookup_lt_Some|]. rewrite Hb. simpl.
  destruct (IH (S k) Hl) as (ready & Hready & Hin).
  { intros j i Hj. rewrite Nat.add_succ_comm. by apply Hat. }
  destruct (all_settled_spec settled (pi_depends_on x) Hl) as (f & Hf & Hiff).
  { intros d. apply siblings. by eapply list_elem_of_lookup_2. }
  exists (if negb b && f then k :: ready else ready). rewrite Hready. split; [by destruct b; [|rewrite Hf]; destruct f|].
  assert (∀ n, (∃ j i, n = k + j ∧ (x :: l) !! j = Some i ∧ settled !! n = Some false ∧ item_free settled i)
            ↔ n = k ∧ b = false ∧ f = true ∨ n ∈ ready) as Hall; [|intros n; rewrite Hall; destruct b, f; set_solver].
  intros n. rewrite Hin. split.
  - intros (j & i & -> & Hj & Hs & Hfree). destruct j as [|j]; simpl in Hj.
    + left. injection Hj as ->. rewrite Nat.add_0_r in *. split_and!; [done|congruence|by apply Hiff].
    + right. exists j, i. rewrite <- Nat.add_succ_comm in *. done.
  - intros [(-> & -> & Hft)|(j & i & -> & Hj & Hs & Hfree)].
    + exists 0, x. rewrite Nat.add_0_r. split_and!; [done..|exact (proj1 Hiff Hft)].
    + exists (S j), i. rewrite Nat.add_succ_r. done.
Qed.

Lemma settle_all_lookup ready : ∀ settled k,
  settle_all ready settled !! k = if decide (k ∈ ready ∧ k < length settled) then Some true else settled !! k.
Proof.
  induction ready as [|r ready IH]; intros settled k.
  { case_decide as Hk; [|done]. by destruct Hk as [?%not_elem_of_nil _]. }
  change (settle_all (r :: ready) settled) with (settle_all ready (<[r := true]> settled)).
  rewrite IH, length_insert.
  destruct (decide (k = r)) as [->|Hn].
  - destruct (decide (r < length settled)) as [Hlt|Hge].
    + rewrite list_lookup_insert_eq by done. rewrite (decide_True (P := r ∈ r :: ready ∧ _)) by set_solver. by case_decide.
    + rewrite !decide_False by tauto. rewrite list_insert_ge by lia. done.
  - rewrite list_lookup_insert_ne by done. repeat case_decide; set_solver.
Qed.

(** ** The rounds *)

(** Between two rounds, a chain of dependencies from what is settled ends. *)
Record rounds (settled : list bool) : Prop := {
  ro_length : length settled = length items;
  ro_ends : ∀ d, settled_id settled d → sn item_edge d;
}.

Definition unsettled (settled : list bool) : gset nat :=
  list_to_set (filter (λ k, settled !! k = Some false) (seq 0 (length items))).

Lemma elem_of_unsettled settled k :
  length settled = length items → k ∈ unsettled settled ↔ settled !! k = Some false.
Proof.
  intros Hl. unfold unsettled. rewrite elem_of_list_to_set, list_elem_of_filter, elem_of_seq.
  split; [tauto|]. intros Hk. split; [done|]. apply lookup_lt_Some in Hk. lia.
Qed.

Lemma item_edge_at j i d : items !! j = Some i → item_edge (pi_id i) d ↔ d ∈ pi_depends_on i.
Proof.
  intros Hj. split; [|intros Hd; exists i; split_and!; [by eapply list_elem_of_lookup_2|done..]].
  intros (i' & Hi' & He & Hd). apply list_elem_of_lookup_1 in Hi' as [j' Hj'].
  assert (j' = j) as ->; [|congruence]. apply item_positions_at in Hj', Hj. congruence.
Qed.

Lemma settle_round settled ready :
  rounds settled → ready_from (item_positions items) settled 0 items = Some ready →
  rounds (settle_all ready settled)
  ∧ (ready ≠ [] → size (unsettled (settle_all ready settled)) < size (unsettled settled)).
Proof.
  intros [Hl He] Hr. destruct (ready_from_spec settled items 0 Hl) as (ready' & Hr' & Hin); [done|].
  rewrite Hr in Hr'. injection Hr' as <-. simpl in Hin.
  assert (length (settle_all ready settled) = length items) as Hl'.
  { rewrite <- Hl. clear. revert settled. induction ready as [|r ready IH]; intros settled; [done|].
    change (settle_all (r :: ready) settled) with (settle_all ready (<[r := true]> settled)).
    by rewrite IH, length_insert. }
  split; [split; [done|]|].
  - intros d (j & i & Hj & <- & Hs). rewrite settle_all_lookup in Hs.
    destruct (decide (settled !! j = Some true)) as [Ht|Hn]; [apply He; by exists j, i|].
    case_decide as Hd; [|done]. destruct Hd as [Hd _]. apply Hin in Hd as (? & i' & -> & Hi' & _ & Hfree).
    assert (i' = i) as -> by congruence. constructor. intros d Hd. apply He, Hfree. by apply (item_edge_at _ i d Hj).
  - intros Hne. apply subset_size. split.
    + intros k. rewrite !elem_of_unsettled, settle_all_lookup by done. by case_decide.
    + intros Hsub. destruct ready as [|r ready]; [done|].
      assert (r ∈ unsettled settled) as Hu.
      { apply elem_of_unsettled; [done|]. destruct (Hin r) as [(? & ? & -> & _ & ? & _) _]; [set_solver|done]. }
      pose proof Hu as Hlt%elem_of_unsettled%lookup_lt_Some; [|done].
      apply Hsub, elem_of_unsettled in Hu; [|done]. rewrite settle_all_lookup, decide_True in Hu; [done|]. set_solver.
Qed.

(** When no item is ready, what is not settled has no end. *)
Lemma settled_when_over settled d :
  rounds settled → ready_from (item_positions items) settled 0 items = Some [] →
  sn item_edge d → d ∈ pi_id <$> items → settled_id settled d.
Proof.
  intros [Hl He] Hr Hsn. destruct (ready_from_spec settled items 0 Hl) as (ready' & Hr' & Hin); [done|].
  rewrite Hr in Hr'. injection Hr' as <-. simpl in Hin.
  induction Hsn as [d _ IH]. intros (i & -> & Hi)%list_elem_of_fmap_1.
  apply list_elem_of_lookup_1 in Hi as Hj. destruct Hj as [j Hj].
  destruct (lookup_lt_is_Some_2 settled j) as [b Hb]; [rewrite Hl; by eapply lookup_lt_Some|].
  destruct b; [by exists j, i|]. exfalso. apply (not_elem_of_nil j), Hin. exists j, i. split_and!; try done.
  intros d Hd. apply IH; [by apply (item_edge_at _ i d Hj)|]. by eapply siblings.
Qed.

Lemma settle_rounds_spec fuel : ∀ settled,
  rounds settled → size (unsettled settled) < fuel →
  ∃ settled', settle_rounds fuel items (item_positions items) settled = Some (Ok (position negb settled'))
  ∧ length settled' = length items
  ∧ ∀ j i, items !! j = Some i → settled' !! j = Some true ↔ sn item_edge (pi_id i).
Proof.
  induction fuel as [|fuel IH]; intros settled Hro Hf; [lia|]. simpl.
  destruct (ready_from_spec settled items 0 (ro_length _ Hro)) as (ready & Hr & _); [done|]. rewrite Hr.
  destruct ready as [|r ready].
  - exists settled. split_and!; [done|apply Hro|]. intros j i Hj. split.
    + intros Hs. apply (ro_ends _ Hro). by exists j, i.
    + intros Hsn. destruct (settled_when_over settled (pi_id i) Hro Hr Hsn) as (j' & i' & Hj' & Hi' & Hs).
      { apply list_elem_of_fmap_2. by eapply list_elem_of_lookup_2. }
      assert (j' = j) as <-; [|done]. apply item_positions_at in Hj', Hj. congruence.
  - destruct (settle_round settled (r :: ready) Hro Hr) as [Hro' Hlt]. apply IH; [done|].
    specialize (Hlt ltac:(done)). lia.
Qed.

(** The loop ends within its fuel, with the first item no chain of whose
    dependencies ends. *)
Lemma blocked_by_cycle_spec :
  ∃ o, blocked_by_cycle items = Some (Ok o) ∧
  match o with
  | None => ∀ i, i ∈ items → sn item_edge (pi_id i)
  | Some k => (∃ i, items !! k = Some i ∧ ¬ sn item_edge (pi_id i))
              ∧ ∀ j i, j < k → items !! j = Some i → sn item_edge (pi_id i)
  end.
Proof.
  unfold blocked_by_cycle.
  destruct (settle_rounds_spec (S (length items)) (replicate (length items) false)) as (settled & Hs & Hl & Hiff).
  - split; [by rewrite length_replicate|]. intros d (j & i & _ & _ & Hj). by apply lookup_replicate in Hj as [? _].
  - unfold unsettled. apply Nat.lt_succ_r. rewrite size_list_to_set by apply list.NoDup_filter, NoDup_seq.
    etrans; [apply length_filter|]. by rewrite length_seq.
  - exists (position negb settled). split; [done|].
    destruct (position negb settled) as [k|] eqn:Hp.
    + apply position_Some in Hp as [(b & Hb & Hnb) Hbefore]. split.
      * destruct (lookup_lt_is_Some_2 items k) as [i Hi]; [rewrite <- Hl; by eapply lookup_lt_Some|].
        exists i. split; [done|]. rewrite <- (Hiff k i Hi), Hb. by destruct b.
      * intros j i Hj Hi. apply (Hiff j i Hi).
        destruct (lookup_lt_is_Some_2 settled j) as [b' Hb']; [rewrite Hl; by eapply lookup_lt_Some|].
        rewrite Hb'. f_equal. apply negb_false_iff. by eapply Hbefore.
    + intros i (j & Hj)%list_elem_of_lookup_1. apply (Hiff j i Hj).
      destruct (lookup_lt_is_Some_2 settled j) as [b Hb]; [rewrite Hl; by eapply lookup_lt_Some|].
      rewrite Hb. f_equal. apply negb_false_iff. eapply position_None; [done|]. by eapply list_elem_of_lookup_2.
Qed.

(** ** Cycles *)

Lemma sn_no_cycle {A} (R : relation A) x : sn R x → ¬ tc R x x.
Proof.
  induction 1 as [x _ IH]. intros Ht. destruct (tc_first R x x Ht) as (y & Hxy & Hyx).
  apply (IH y Hxy). eapply tc_rtc_l; [done|]. by apply tc_once.
Qed.

Lemma blocked_by_cycle_acyclic : blocked_by_cycle items = Some (Ok None) ↔ acyclic item_edge.
Proof.
  destruct blocked_by_cycle_spec as (o & -> & Ho).
  assert (acyclic item_edge → ∀ i, i ∈ items → sn item_edge (pi_id i)) as Hsn.
  { intros Hac i Hi. apply tc_finite_sn; [intros x; apply Hac|].
    exists (pi_id <$> items). intros y Hy. clear Hi.
    induction Hy as [x y (j & Hj & <- & Hd)|x y z _ _ IH]; [by eapply siblings|done]. }
  split.
  - intros [= ->] x Hx. destruct (tc_first _ _ _ Hx) as (y & (i & Hi & <- & _) & _).
    by eapply sn_no_cycle, Hx; apply Ho.
  - intros Hac. destruct o as [k|]; [|done]. destruct Ho as [(i & Hi & Hn) _]. destruct Hn.
    apply Hsn; [done|]. by eapply list_elem_of_lookup_2.
Qed.

End items.

(** * The pointers between tasks *)

(** The tasks a task names as its parent. *)
Definition parents (t : Task) : list Slug := option_list (ta_parent t).

Lemma elem_of_parents t p : p ∈ parents t ↔ ta_parent t = Some p.
Proof. unfold parents. destruct (ta_parent t); simpl; set_solver. Qed.

Section pointing.
Variable points : Task → list Slug.

Definition points_edge (tasks : list Task) : relation Slug := λ a c, ∃ t, t ∈ tasks ∧ ta_id t = a ∧ c ∈ points t.

(** What a task points at is on the board, and leads no way back to it. *)
Definition pointing (tasks : list Task) (t : Task) : Prop :=
  ∀ d, d ∈ points t → d ≠ ta_id t →
  (∃ u, u ∈ tasks ∧ ta_id u = d) ∧ ¬ tc (avoiding (points_edge tasks) (ta_id t)) d (ta_id t).

(** Every pointer names a task of the board, and none leads back to its own. *)
Definition pointers_ok (tasks : list Task) : Prop :=
  (∀ t d, t ∈ tasks → d ∈ points t → ∃ u, u ∈ tasks ∧ ta_id u = d) ∧ acyclic (points_edge tasks).

Lemma pointers_ok_write tasks tasks' t' :
  pointers_ok tasks →
  (∀ u, u ∈ tasks' ↔ u = t' ∨ u ∈ tasks ∧ ta_id u ≠ ta_id t') →
  ta_id t' ∉ points t' →
  ((∃ t, t ∈ tasks ∧ ta_id t = ta_id t' ∧ points t' = points t) ∨ pointing tasks t') →
  pointers_ok tasks'.
Proof.
  intros [Hon Hac] Hin Hself Hp.
  assert (∀ d, (∃ u, u ∈ tasks ∧ ta_id u = d) → ∃ u, u ∈ tasks' ∧ ta_id u = d) as Hstay.
  { intros d (u & Hu & <-). destruct (decide (ta_id u = ta_id t')) as [He|Hn].
    - exists t'. rewrite Hin. auto.
    - exists u. rewrite Hin. auto. }
  assert (∀ a c, avoiding (points_edge tasks') (ta_id t') a c → avoiding (points_edge tasks) (ta_id t') a c) as Havoid.
  { intros a c [Hn (u & Hu & Hi & Hc)]. split; [done|]. apply Hin in Hu as [->|[Hu _]]; [done|]. by exists u. }
  split.
  - intros u d Hu Hd. apply Hin in Hu as [->|[Hu _]]; [|apply Hstay; by eapply Hon].
    destruct Hp as [(t & Ht & _ & He)|Hp].
    + apply Hstay. rewrite He in Hd. by eapply Hon.
    + apply Hstay, Hp; [done|]. by intros ->.
  - apply (acyclic_replaced (points_edge tasks) _ (ta_id t') Hac).
    + intros a c Hn Hac'. by apply Havoid.
    + intros y (u & Hu & Hi & Hy). assert (u = t') as -> by (apply Hin in Hu as [->|[? ?]]; done).
      split; [by intros ->|]. intros Ht. apply (tc_congruence (λ x, x) (avoiding (points_edge tasks) (ta_id t'))) in Ht; [|done].
      destruct Hp as [(t & Htin & Hid & He)|Hp].
      * apply (Hac (ta_id t')). eapply tc_l; [|by eapply avoiding_tc]. exists t. by rewrite <- He.
      * apply (Hp y) in Hy as [_ Hn]; [done|]. by intros ->.
Qed.

End pointing.

(** ** The check of a change *)

Lemma on_board_lookup tasks id a t :
  (∀ u u', u ∈ tasks → u' ∈ tasks → ta_id u = ta_id u' → u = u') →
  on_board tasks id !! a = Some t ↔ t ∈ tasks ∧ ta_id t = a ∧ a ≠ id.
Proof.
  intros Hids. unfold on_board. split.
  - intros Hl%elem_of_list_to_map_2. apply list_elem_of_fmap in Hl as (u & [= -> ->] & Hu).
    rewrite elem_of_rev, list_elem_of_filter in Hu. tauto.
  - intros (Ht & <- & Hn). destruct (list_to_map _ !! ta_id t) as [u|] eqn:Hl.
    + apply elem_of_list_to_map_2, list_elem_of_fmap in Hl as (u' & [= He ->] & Hu).
      rewrite elem_of_rev, list_elem_of_filter in Hu. f_equal. apply Hids; tauto || done.
    + apply not_elem_of_list_to_map_2 in Hl. destruct Hl. rewrite <- list_fmap_compose. apply list_elem_of_fmap.
      exists t. split; [done|]. rewrite elem_of_rev, list_elem_of_filter. done.
Qed.

(** The walks follow the pointers of every other task of the board. *)
Lemma cycle_closers_spec tasks refs :
  (∀ u u', u ∈ tasks → u' ∈ tasks → ta_id u = ta_id u' → u = u') →
  ∃ closers, cycle_closers tasks refs = Some closers
  ∧ (closers = [] ↔
     (∀ d, d ∈ po_depends_on refs → ¬ tc (avoiding (points_edge ta_depends_on tasks) (po_id refs)) d (po_id refs))
     ∧ ∀ p, po_parent refs = Some p → ¬ tc (avoiding (points_edge parents tasks) (po_id refs)) p (po_id refs)).
Proof.
  intros Hids. unfold cycle_closers.
  destruct (dependency_closers_spec (on_board tasks (po_id refs)) refs) as (closers & -> & Hd).
  destruct (parent_closer_spec (on_board tasks (po_id refs)) refs) as (o & -> & Hp).
  assert (∀ a c, depends_edge (on_board tasks (po_id refs)) a c ↔ avoiding (points_edge ta_depends_on tasks) (po_id refs) a c)
    as Hde.
  { intros a c. unfold depends_edge, avoiding, points_edge. setoid_rewrite on_board_lookup; [|done]. naive_solver. }
  assert (∀ a c, parent_edge (on_board tasks (po_id refs)) a c ↔ avoiding (points_edge parents tasks) (po_id refs) a c)
    as Hpe.
  { intros a c. unfold parent_edge, avoiding, points_edge. setoid_rewrite elem_of_parents.
    setoid_rewrite on_board_lookup; [|done]. naive_solver. }
  assert (∀ (R R' : relation Slug) x y, (∀ a c, R a c ↔ R' a c) → tc R x y ↔ tc R' x y) as Htc.
  { intros R R' x y He. split; apply (tc_congruence (λ x, x)); naive_solver. }
  simpl. eexists. split; [done|]. rewrite app_nil, Hd.
  assert (option_list o = [] ↔ o = None) as -> by (by destruct o). rewrite Hp.
  setoid_rewrite (λ x y, Htc _ _ x y Hde). setoid_rewrite (λ x y, Htc _ _ x y Hpe). done.
Qed.
