(* ===== verification/BoardRuleFacts.v ===== *)
(** What each rule of the board leaves behind when it answers. *)

From stdpp Require Import gmap.
From S2P Require Import Prelude BoardText BoardSchema BoardDescription BoardTask BoardArtifacts BoardClaims BoardRuns BoardTransitions BoardPlans BoardChanges BoardFacts.

(** The fields of a task that equals another with some fields assigned. *)
Ltac fields_of Heq :=
  pose proof (f_equal ta_id Heq); pose proof (f_equal ta_created Heq); pose proof (f_equal ta_updated Heq);
  pose proof (f_equal ta_status Heq); pose proof (f_equal ta_accepted_plan Heq);
  pose proof (f_equal ta_resolution Heq); pose proof (f_equal ta_depends_on Heq);
  pose proof (f_equal ta_parent Heq).

Section rule_facts.
Context `{Shapes}.

Local Open Scope N_scope.
Local Arguments relations_allow : simpl never.

(** * Holders *)

Lemma held_by_Ok t actor c :
  held_by t actor = Ok c → ta_claim t = Some c ∧ same_committer (cl_holder c) actor = true.
Proof. unfold held_by. intros. repeat case_match; by simplify_eq. Qed.

Lemma held_or_lapsed_by_Ok t actor now c :
  held_or_lapsed_by t actor now = Ok c → ta_claim t = Some c ∧ same_committer (cl_holder c) actor = true.
Proof.
  unfold held_or_lapsed_by. intros. destruct (held_by t actor) as [|[]|] eqn:Hh; simplify_eq; try by case_match.
  by apply held_by_Ok.
Qed.

Lemma held_live_by_Ok t actor now c :
  held_live_by t actor now = Ok c →
  ta_claim t = Some c ∧ same_committer (cl_holder c) actor = true ∧ now < cl_expires c.
Proof.
  unfold held_live_by. intros. inv_ok. case_match eqn:Hl; simplify_eq.
  split_and!; try by eapply held_or_lapsed_by_Ok. by apply N.ltb_lt.
Qed.

(** * Claims *)

Lemma claimable_at_Ok t now u :
  claimable_at t now = Ok u → ta_created t ≤ now + CLOCK_AHEAD_SECONDS ∨ LAST < now + CLOCK_AHEAD_SECONDS.
Proof.
  unfold claimable_at, plus_seconds. intros Hc. inv_ok.
  destruct (N.leb_spec (now + CLOCK_AHEAD_SECONDS) LAST); [left; by apply N.leb_le|by right].
Qed.

Lemma plus_seconds_Ok t n at_ : plus_seconds t n = Ok at_ ↔ at_ = t + n ∧ t + n ≤ LAST.
Proof.
  unfold plus_seconds. destruct (N.leb_spec (t + n) LAST).
  - split; [intros; by simplify_eq|]. by intros [-> _].
  - split; [done|]. lia.
Qed.

Lemma new_claim_Ok holder t now c :
  new_claim holder t now = Ok c →
  c = mkClaim holder (now `max` ta_created t) (now + CLAIM_TTL_SECONDS)
  ∧ now `max` ta_created t < now + CLAIM_TTL_SECONDS
  ∧ (now `max` ta_created t) + CLAIM_TTL_SECONDS ≤ LAST.
Proof.
  unfold new_claim, claim_start. rewrite stamp_eq. intros Hc. inv_ok. simpl in *. inv_ok.
  rewrite plus_seconds_Ok in *. destruct_and!. subst. case_match eqn:Hlt; [|done]. inv_ok.
  rewrite plus_seconds_Ok in *. destruct_and!. subst. apply N.ltb_lt in Hlt. done.
Qed.

(** A claim can be taken once the clock is near the task and spells its end. *)
Lemma new_claim_total holder t now :
  task_ok t → ta_created t ≤ now + CLOCK_AHEAD_SECONDS →
  now + CLOCK_AHEAD_SECONDS + CLAIM_TTL_SECONDS ≤ LAST →
  new_claim holder t now = Ok (mkClaim holder (now `max` ta_created t) (now + CLAIM_TTL_SECONDS)).
Proof.
  intros Ht%task_ok_times Hc Hl. unfold new_claim, claimable_at, claim_start. rewrite stamp_eq.
  unfold plus_seconds, CLOCK_AHEAD_SECONDS, CLAIM_TTL_SECONDS in *.
  rewrite (proj2 (N.leb_le (now + 60) LAST)) by lia. simpl.
  rewrite (proj2 (N.leb_le (ta_created t) (now + 60))) by lia. simpl.
  rewrite (proj2 (N.leb_le (now `max` ta_created t) (now `max` ta_updated t))) by lia. simpl.
  rewrite (proj2 (N.leb_le (now + 7200) LAST)) by lia. simpl.
  rewrite (proj2 (N.ltb_lt (now `max` ta_created t) (now + 7200))) by lia. simpl.
  rewrite (proj2 (N.leb_le (now `max` ta_created t + 7200) LAST)) by lia. simpl.
  rewrite (proj2 (N.leb_le (now + 7200) (now `max` ta_created t + 7200))) by lia. done.
Qed.

(** Another lease of the same holder, later. *)
Lemma task_ok_leased t c since expires at_ :
  task_ok t → ta_claim t = Some c → ta_updated t ≤ at_ →
  ta_created t ≤ since → since ≤ at_ → since < expires → expires ≤ since + CLAIM_TTL_SECONDS →
  since + CLAIM_TTL_SECONDS ≤ LAST →
  task_ok (with_updated at_ (with_claim (Some (mkClaim (cl_holder c) since expires)) t)).
Proof.
  intros Ht Hc Hat Hcr Hsi Hlt Hle Hlast. pose proof (task_ok_times t Ht).
  pose proof (task_ok_claim t Ht) as Hcl. unfold validate_claim in Hcl. rewrite Hc in Hcl.
  destruct (may_hold_claim (ta_status t)) eqn:Hmay; [|done]. unfold Claim_validate in Hcl. inv_ok.
  assert (validate_claim (with_updated at_ (with_claim (Some (mkClaim (cl_holder c) since expires)) t)) = Ok tt) as Hv.
  { unfold validate_claim, Claim_validate. simpl. rewrite Hmay.
    match goal with H : Identity_validate _ _ = _ |- _ => rewrite H end. simpl.
    rewrite (proj2 (plus_seconds_Ok since CLAIM_TTL_SECONDS _) (conj eq_refl Hlast)). simpl.
    rewrite (proj2 (N.ltb_lt _ _) Hlt), (proj2 (N.leb_le _ _) Hle). simpl.
    by rewrite (proj2 (N.leb_le _ _) Hcr), (proj2 (N.leb_le _ _) Hsi). }
  set (t' := with_updated _ _) in *.
  assert (validate_description t' = validate_description t ∧ validate_closure t' = validate_closure t
          ∧ reason_holds t' = reason_holds t ∧ task_text_bytes t' = task_text_bytes t) as (Ed & Ec & Er & Eb) by done.
  unfold task_ok, validate_task in *. inv_ok. rewrite Hv, Ed, Ec, Er, Eb. simpl.
  rewrite (proj2 (N.leb_le (ta_created t) at_)) by lia.
  repeat match goal with
  | H : ?m = Ok tt |- context [?m] => rewrite H; simpl
  | H : ?b = true |- context [?b] => rewrite H; simpl
  end. done.
Qed.

(** A claimable status is not a finished one. *)
Lemma held_unsettled t : may_hold_claim (ta_status t) = true → has_settled_outcomes t = false.
Proof. unfold has_settled_outcomes. intros. by destruct (bool_decide _), (ta_status t). Qed.

Lemma claim_may_hold t c : task_ok t → ta_claim t = Some c → may_hold_claim (ta_status t) = true.
Proof.
  intros Ht Hc. destruct (may_hold_claim (ta_status t)) eqn:Hs; [done|].
  apply task_ok_no_claim in Hs; congruence.
Qed.

Lemma renew_Ok t holder now t' :
  task_ok t → renew t holder now = Ok t' →
  ∃ c, ta_claim t = Some c ∧ same_committer (cl_holder c) holder = true
  ∧ t' = with_updated (now `max` ta_updated t)
           (with_claim (Some (mkClaim (cl_holder c) ((now `max` ta_created t) `max` cl_since c)
                                ((now + CLAIM_TTL_SECONDS) `max` cl_expires c))) t)
  ∧ task_ok t'.
Proof.
  intros Ht Hr. unfold renew in Hr. rewrite stamp_eq in Hr. inv_ok.
  match goal with H : held_or_lapsed_by _ _ _ = _ |- _ => apply held_or_lapsed_by_Ok in H as [Hc Hs] end.
  match goal with H : new_claim _ _ _ = _ |- _ => apply new_claim_Ok in H as (-> & _ & _) end.
  apply settle_Ok in Hr as (Hok & _ & _ & Hr). eexists. split_and!; try done.
  apply Hr, held_unsettled. exact (claim_may_hold t _ Ht Hc).
Qed.

(** The holder of a claim can always renew it, live or lapsed, while the clock is
    near the task and spells the lease's end. *)
Lemma renew_total t c holder now :
  task_ok t → ta_claim t = Some c → same_committer (cl_holder c) holder = true →
  ta_created t ≤ now + CLOCK_AHEAD_SECONDS → now + CLOCK_AHEAD_SECONDS + CLAIM_TTL_SECONDS ≤ LAST →
  ∃ t', renew t holder now = Ok t'.
Proof.
  intros Ht Hc Hh Hcr Hl. pose proof (task_ok_claim_bounds t c Ht Hc) as (Hb1 & Hb2 & Hb3 & Hb4 & Hb5).
  pose proof (task_ok_times t Ht) as Htimes.
  unfold renew, held_or_lapsed_by, held_by. rewrite Hc, Hh, stamp_eq. simpl.
  rewrite (new_claim_total holder t now Ht Hcr Hl). simpl.
  unfold CLOCK_AHEAD_SECONDS, CLAIM_TTL_SECONDS in *.
  set (since := _ `max` cl_since c). set (expires := _ `max` cl_expires c).
  assert (since < expires ∧ cl_expires c ≤ expires) as [Hlt Hge] by lia.
  rewrite (proj2 (N.ltb_lt _ _) Hlt), (proj2 (N.leb_le _ _) Hge). simpl.
  unfold settle. simpl. rewrite (proj2 (N.leb_le (ta_updated t) (now `max` ta_updated t))) by lia. simpl.
  assert (task_ok (with_updated (now `max` ta_updated t) (with_claim (Some (mkClaim (cl_holder c) since expires)) t)))
    as Hok by (apply task_ok_leased; unfold CLAIM_TTL_SECONDS; done || lia).
  unfold Task_new. unfold task_ok in Hok. rewrite Hok. simpl.
  assert (has_settled_outcomes t = false) as Hs by (apply held_unsettled; exact (claim_may_hold t c Ht Hc)).
  change (has_settled_outcomes (with_updated _ (with_claim _ t))) with (has_settled_outcomes t). rewrite Hs. eauto.
Qed.

Lemma take_over_Ok t taker now t' :
  task_ok t → take_over t taker now = Ok t' →
  ∃ c, ta_claim t = Some c ∧ same_committer (cl_holder c) taker = false ∧ cl_expires c ≤ now
  ∧ t' = with_updated (now `max` ta_updated t)
           (with_claim (Some (mkClaim taker (now `max` ta_created t) (now + CLAIM_TTL_SECONDS))) t)
  ∧ task_ok t'.
Proof.
  intros Ht Hr. unfold take_over in Hr. rewrite stamp_eq in Hr. inv_ok.
  repeat case_match; inv_ok; try done.
  match goal with H : new_claim _ _ _ = _ |- _ => apply new_claim_Ok in H as (-> & _ & _) end.
  apply settle_Ok in Hr as (Hok & _ & _ & Hr). eexists. split_and!; try done.
  - match goal with H : is_live _ _ = false |- _ => by apply N.ltb_ge in H end.
  - apply Hr, held_unsettled. done.
Qed.

(** * Runs *)

Lemma runs_of_task_Ok t runs u : runs_of_task t runs = Ok u → ∀ r, r ∈ runs → ru_task r = ta_id t.
Proof.
  unfold runs_of_task. intros Hr r Hin. inv_ok. rewrite forallb_forall in Hr.
  apply list_elem_of_In in Hin. specialize (Hr r Hin). unfold text_eqb in Hr. by split_bools.
Qed.

Lemma run_is_open_true r : run_is_open r = true ↔ ru_ended r = None.
Proof. unfold run_is_open. by rewrite bool_decide_eq_true. Qed.

Lemma open_of_None t runs :
  open_of t runs = Ok None → ∀ r, r ∈ runs → ru_task r = ta_id t ∧ run_is_open r = false.
Proof.
  unfold open_of. intros Ho r Hin. inv_ok. split; [by eapply runs_of_task_Ok|].
  destruct (filter _ runs) as [|? [|]] eqn:Hf; simplify_eq.
  destruct (run_is_open r) eqn:Hr; [|done].
  assert (r ∈ filter (λ r, run_is_open r = true) runs) as Hx by by apply list_elem_of_filter.
  rewrite Hf in Hx. by apply not_elem_of_nil in Hx.
Qed.

Lemma open_of_Some t runs r :
  open_of t runs = Ok (Some r) →
  r ∈ runs ∧ run_is_open r = true ∧ ∀ r', r' ∈ runs → ru_task r' = ta_id t ∧ (run_is_open r' = true → r' = r).
Proof.
  unfold open_of. intros Ho. inv_ok.
  destruct (filter _ runs) as [|x [|]] eqn:Hf; simplify_eq.
  assert (r ∈ filter (λ r, run_is_open r = true) runs) as Hx by (rewrite Hf; set_solver).
  apply list_elem_of_filter in Hx as [? ?]. split_and!; [done..|].
  intros r' Hr'. split; [by eapply runs_of_task_Ok|]. intros.
  assert (r' ∈ filter (λ r, run_is_open r = true) runs) as Hx by by apply list_elem_of_filter.
  rewrite Hf in Hx. set_solver.
Qed.

Lemma may_move_with_Ok t runs to u :
  may_move_with t runs to = Ok u → holds_moves_to to = true → open_of t runs = Ok None.
Proof. unfold may_move_with. intros Hm Hh. inv_ok. rewrite Hh in Hm. by case_match. Qed.

Lemma Run_new_Ok r r' : Run_new r = Ok r' → r' = r ∧ run_ok r.
Proof. unfold Run_new, run_ok. intros. inv_ok. done. Qed.

Lemma begin_run_Ok t runs p actor now r :
  begin_run t runs p actor now = Ok r →
  r = mkRun (ta_id t) (last_number (ru_number <$> runs) + 1) (pl_version p) (now `max` ta_updated t)
        None None None []
  ∧ run_ok r ∧ open_of t runs = Ok None ∧ pl_task p = ta_id t ∧ pl_state p = PlanAccepted
  ∧ ta_accepted_plan t = Some (pl_version p)
  ∧ ∃ c, ta_claim t = Some c ∧ same_committer (cl_holder c) actor = true ∧ now < cl_expires c.
Proof.
  unfold begin_run. rewrite stamp_eq. intros Hb. inv_ok. case_match; [done|]. inv_ok. subst.
  apply Run_new_Ok in Hb as [-> ?]. unfold text_eqb in *. split_bools.
  match goal with H : held_live_by _ _ _ = _ |- _ => apply held_live_by_Ok in H as (? & ? & ?) end.
  split_and!; eauto.
Qed.

Lemma run_ended_Ok r outcome cost items now r' :
  run_ended r outcome cost items now = Ok r' →
  run_is_open r = true ∧ run_ok r'
  ∧ r' = mkRun (ru_task r) (ru_number r) (ru_plan_version r) (ru_started r)
           (Some (now `max` ru_started r)) (Some outcome) cost items.
Proof. unfold run_ended. intros He. inv_ok. apply Run_new_Ok in He as [-> ?]. done. Qed.

Lemma fold_back_Ok r p outcome cost items now r' :
  fold_back r p outcome cost items now = Ok r' →
  run_is_open r = true ∧ run_ok r' ∧ run_ran r p = Ok tt ∧ run_ran r' p = Ok tt
  ∧ r' = mkRun (ru_task r) (ru_number r) (ru_plan_version r) (ru_started r)
           (Some (now `max` ru_started r)) (Some outcome) cost items.
Proof.
  unfold fold_back. intros Hf. inv_ok.
  match goal with H : run_ended _ _ _ _ _ = _ |- _ => apply run_ended_Ok in H as (? & ? & ?) end.
  split_and!; done.
Qed.

Lemma run_and_plan_Ok runs plans number r p :
  run_and_plan runs plans number = Ok (r, p) →
  r ∈ runs ∧ ru_number r = number ∧ p ∈ plans ∧ pl_version p = ru_plan_version r.
Proof.
  unfold run_and_plan. intros Hr. inv_ok. simplify_eq.
  repeat match goal with H : List.find _ _ = Some _ |- _ =>
    apply List.find_some in H as [?%list_elem_of_In ?%N.eqb_eq] end.
  done.
Qed.

(** * Moves *)

(** Who holds a live claim, if anyone does, is [actor]. *)
Definition may_act (t : Task) (actor : Identity) (now : Timestamp) : Prop :=
  ∀ c, ta_claim t = Some c → is_live c now = true → same_committer (cl_holder c) actor = true.

Lemma held_may_act t actor now c :
  ta_claim t = Some c → same_committer (cl_holder c) actor = true → may_act t actor now.
Proof. intros Hc Hs c' Hc' _. congruence. Qed.

Lemma unheld_may_act t actor now : ta_claim t = None → may_act t actor now.
Proof. intros Hc c Hc'. congruence. Qed.

Lemma transition_sources from to who effect takes :
  transition from to = Some (who, effect, takes) → who = Anyone →
  may_hold_claim from = false.
Proof. intros Ht ->. by destruct from, to; vm_compute in Ht; simplify_eq. Qed.

Lemma allowed_Ok t to actor now effect takes :
  task_ok t → allowed t to actor now = Ok (effect, takes) →
  (∃ who, transition (ta_status t) to = Some (who, effect, takes))
  ∧ lifecycle_action (ta_status t) to = None ∧ may_act t actor now
  ∧ (to = Done → ta_superseded_by t = [])
  ∧ (held_by_links (ta_status t) to = true → ta_prs t = []).
Proof.
  intros Ht Ha. unfold allowed in Ha. apply rbind_Ok in Ha as ([[who e] tk] & Hrow & Ha).
  destruct (transition _ _) as [row|] eqn:Htr, (lifecycle_action _ _) eqn:Hl; try done.
  injection Hrow as ->. inv_ok.
  assert (e = effect ∧ tk = takes ∧ (held_by_links (ta_status t) to = true → ta_prs t = [])) as (-> & -> & Hp).
  { destruct (held_by_links _ _), (ta_prs t); simplify_eq; done. }
  split_and!; [eauto|done| | |done].
  - destruct who; inv_ok.
    + apply unheld_may_act, task_ok_no_claim; [done|]. by eapply transition_sources.
    + match goal with H : held_live_by _ _ _ = _ |- _ => apply held_live_by_Ok in H as (? & ? & _) end.
      by eapply held_may_act.
    + match goal with H : held_or_lapsed_by _ _ _ = _ |- _ => apply held_or_lapsed_by_Ok in H as (? & ?) end.
      by eapply held_may_act.
    + intros c Hc Hl'. rewrite Hc, Hl' in *. inv_ok.
      match goal with H : held_by _ _ = _ |- _ => apply held_by_Ok in H as (? & ?) end. congruence.
  - intros ->. unfold not_superseded in *. inv_ok. by split_bools.
Qed.

(** The fields every change of a task carries over, and its stamp. *)
Record carried (t t' : Task) (at_ : Timestamp) : Prop := {
  ca_id : ta_id t' = ta_id t;
  ca_created : ta_created t' = ta_created t;
  ca_updated : ta_updated t' = at_;
  ca_later : ta_updated t ≤ at_;
  ca_depends : ta_depends_on t' = ta_depends_on t;
  ca_parent : ta_parent t' = ta_parent t;
}.

Lemma settle_carried next at_ t' :
  settle next at_ = Ok t' → task_ok t' ∧ carried next t' at_.
Proof.
  intros (Hok & Hle & Heq & _)%settle_Ok. split; [done|]. by rewrite Heq; constructor.
Qed.

Lemma resolved_completed to had superseded :
  resolved to had superseded = Ok (Some Completed) → to = Done ∨ had = Some Completed.
Proof.
  unfold resolved. intros Hr. destruct to; try (inv_ok; done); [by left|].
  destruct had; inv_ok; [by right|]. by destruct superseded.
Qed.

Lemma move_with_reason_Ok t to reason actor runs changes tasks now t' :
  task_ok t → move_with_reason t to reason actor runs changes tasks now = Ok t' →
  task_ok t' ∧ carried t t' (now `max` ta_updated t)
  ∧ ta_status t' = to ∧ ta_accepted_plan t' = ta_accepted_plan t ∧ ta_depends_on t' = ta_depends_on t
  ∧ (∃ who effect takes, transition (ta_status t) to = Some (who, effect, takes))
  ∧ (ta_resolution t' = Some Completed → to = Done ∨ ta_resolution t = Some Completed)
  ∧ may_act t actor now
  ∧ (holds_moves_to to = true → open_of t runs = Ok None)
  ∧ relations_allow t to tasks = Ok tt.
Proof.
  intros Ht Hm. unfold move_with_reason in Hm. rewrite stamp_eq in Hm.
  apply rbind_Ok in Hm as ([effect takes] & Ha & Hm).
  apply allowed_Ok in Ha as ([who Hrow] & _ & Hact & _ & _); [|done]. inv_ok.
  pose proof (settle_Ok _ _ _ Hm) as (Hok & Hle & Heq & _). apply settle_carried in Hm as [_ Hca].
  destruct Hca as [Hid Hcr Hup _ Hdep Hpar]. simpl in *.
  split_and!; [done|constructor; done|..];
    try match goal with |- ?f t' = _ => rewrite Heq; done end; eauto.
  - rewrite Heq. simpl. intros ->. by eapply resolved_completed.
  - intros. by eapply may_move_with_Ok.
Qed.

(** What moves a task to a status: its row of the table. *)
Lemma transition_to_in_progress from : transition from InProgress = None.
Proof. by destruct from. Qed.

(** The other tasks of the board: every dependency is finished, and no child is
    worked on. *)
Definition dependencies_released (tasks : list Task) (t : Task) : Prop :=
  ∀ d, d ∈ ta_depends_on t → ∃ u, u ∈ tasks ∧ ta_id u = d ∧ releases_dependents (ta_status u) = true.

Definition no_active_child (tasks : list Task) (t : Task) : Prop :=
  ∀ u, u ∈ tasks → active_child (ta_id t) u = false.

Lemma relations_allow_claimed t tasks :
  relations_allow t Claimed tasks = Ok tt → dependencies_released tasks t.
Proof.
  unfold relations_allow. cbv zeta. intros Hr d Hd. revert Hr.
  case_match eqn:Hundone; [|done]. case_match eqn:Hmissing; [|done]. intros _.
  assert (∀ (P : Slug → Prop) `{!∀ x, Decision (P x)}, filter P (ta_depends_on t) = [] → ¬ P d) as Hnone.
  { intros P ? Hf Hp. assert (d ∈ filter P (ta_depends_on t)) as Hx by by apply list_elem_of_filter.
    rewrite Hf in Hx. by apply not_elem_of_nil in Hx. }
  apply Hnone in Hundone, Hmissing. unfold status_of in *.
  destruct (List.find _ tasks) as [u|] eqn:Hf; simpl in *; [|done].
  apply List.find_some in Hf as [Hin%list_elem_of_In Hid]. unfold text_eqb in Hid. split_bools.
  exists u. split_and!; [done..|]. by destruct (releases_dependents _).
Qed.

Lemma relations_allow_archived t tasks : relations_allow t Archived tasks = Ok tt → no_active_child tasks t.
Proof.
  unfold relations_allow. intros Hr u Hu. destruct (active_child (ta_id t) u) eqn:Ha; [|done].
  assert (ta_id u ∈ ta_id <$> filter (λ other, active_child (ta_id t) other = true) tasks) as Hx.
  { apply list_elem_of_fmap_2. by apply list_elem_of_filter. }
  destruct (ta_id <$> filter _ _); [by apply not_elem_of_nil in Hx|done].
Qed.

Lemma done_without_run_Ok t reason actor work now t' :
  task_ok t → done_without_run t reason actor work now = Ok t' →
  task_ok t' ∧ carried t t' (now `max` ta_updated t)
  ∧ ta_status t' = Done ∧ ta_resolution t' = Some DoneWithoutRun ∧ ta_accepted_plan t' = ta_accepted_plan t
  ∧ (ta_status t = Ready ∨ ta_status t = Claimed)
  ∧ may_act t actor now ∧ open_of t (dw_runs work) = Ok None
  ∧ (∀ pr, pr ∈ ta_prs t → pr ∈ dw_merged work)
  ∧ relations_allow t Claimed (dw_tasks work) = Ok tt ∧ relations_allow t Archived (dw_tasks work) = Ok tt.
Proof.
  intros Ht Hd. unfold done_without_run in Hd. rewrite stamp_eq in Hd. inv_ok.
  match goal with H : done_without_run_reads _ _ _ = _ |- _ => unfold done_without_run_reads in H end. inv_ok.
  match goal with H : settle _ _ = _ |- _ => rename H into Hs end.
  pose proof (settle_Ok _ _ _ Hs) as (Hok & Hle & Heq & _). apply settle_carried in Hs as [_ [Hid Hcr Hup _ Hdep Hpar]].
  simpl in *. split_bools.
  split_and!; [done|constructor; done|..]; try match goal with |- ?f t' = _ => rewrite Heq; done end; try done.
  - destruct (ta_status t); simplify_eq; auto.
  - destruct (ta_status t) eqn:Hst; simplify_eq; inv_ok.
    + apply unheld_may_act, task_ok_no_claim; [done|]. by rewrite Hst.
    + match goal with H : held_live_by _ _ _ = _ |- _ => apply held_live_by_Ok in H as (? & ? & _) end.
      by eapply held_may_act.
  - by eapply may_move_with_Ok.
  - intros pr Hpr. destruct (decide (pr ∈ dw_merged work)) as [|Hn]; [done|].
    match goal with H : filter _ (ta_prs t) = [] |- _ => rename H into Hf end.
    assert (pr ∈ filter (λ pr, pr ∉ dw_merged work) (ta_prs t)) as Hx by by apply list_elem_of_filter.
    rewrite Hf in Hx. by apply not_elem_of_nil in Hx.
Qed.

Lemma finish_Ok t runs now done at_ :
  finish t runs now = Ok (done, at_) →
  at_ = now `max` ta_updated t ∧ task_ok (cp_task done) ∧ carried t (cp_task done) at_
  ∧ ta_status (cp_task done) = Done ∧ ta_resolution (cp_task done) = Some Completed
  ∧ ta_claim (cp_task done) = None ∧ ta_accepted_plan (cp_task done) = ta_accepted_plan t
  ∧ (cp_run done = None ∧ open_of t runs = Ok None
     ∨ ∃ r r', open_of t runs = Ok (Some r) ∧ cp_run done = Some r' ∧ lost_at r at_ = Ok r').
Proof.
  unfold finish. rewrite stamp_eq. intros Hf. inv_ok. simpl in *.
  match goal with H : settle _ _ = _ |- _ => rename H into Hs end.
  pose proof (settle_Ok _ _ _ Hs) as (Hok & Hle & Heq & _). apply settle_carried in Hs as [_ [Hid Hcr Hup _ Hdep Hpar]].
  simpl in *. split_bools.
  split_and!; [done|done|constructor; done|..]; try match goal with |- ?f _ = _ => rewrite Heq; done end; [done|].
  match goal with H : open_of t runs = Ok ?o |- _ => destruct o as [r|] end; inv_ok.
  - right. eauto.
  - left. done.
Qed.

Lemma complete_merged_Ok t merged changes runs now done :
  complete_merged t merged changes runs now = Ok done →
  ta_status t = Review ∧ ta_prs t ≠ [] ∧ (∀ pr, pr ∈ ta_prs t → pr ∈ merged)
  ∧ finish t runs now = Ok (done, now `max` ta_updated t).
Proof.
  unfold complete_merged. intros Hc. inv_ok. split_bools. subst.
  match goal with H : finish _ _ _ = Ok ?x |- _ => destruct x as [d at_] end.
  pose proof Hc as Hc'. apply finish_Ok in Hc' as [-> _]. split_and!; try done.
  - unfold completable in *. by destruct (ta_status t); inv_ok.
  - intros pr Hpr. destruct (decide (pr ∈ merged)) as [|Hn]; [done|].
    match goal with H : filter _ (ta_prs t) = [] |- _ => rename H into Hf end.
    assert (pr ∈ filter (λ pr, pr ∉ merged) (ta_prs t)) as Hx by by apply list_elem_of_filter.
    rewrite Hf in Hx. by apply not_elem_of_nil in Hx.
Qed.

(** * Starts *)

Lemma start_Ok t tasks runs plan actor now s :
  task_ok t → start t tasks runs plan actor now = Ok s →
  task_ok (sd_task s) ∧ carried t (sd_task s) (now `max` ta_updated t)
  ∧ ta_status (sd_task s) = InProgress ∧ ta_resolution (sd_task s) = ta_resolution t
  ∧ ta_accepted_plan (sd_task s) = ta_accepted_plan t
  ∧ plan = Some (sd_plan s) ∧ begin_run (sd_task s) runs (sd_plan s) actor now = Ok (sd_run s)
  ∧ may_act t actor now ∧ sd_from s = ta_status t
  ∧ (ta_status t = Ready → relations_allow t Claimed tasks = Ok tt)
  ∧ (may_hold_claim (ta_status t) = true ∨ ta_status t = Ready).
Proof.
  intros Ht Hs. unfold start in Hs. rewrite stamp_eq in Hs.
  apply rbind_Ok in Hs as (at_ & Hat & Hs). injection Hat as <-.
  apply rbind_Ok in Hs as (next & Hnext & Hs). inv_ok. simpl in *.
  assert (carried t next (ta_updated next) ∧ ta_resolution next = ta_resolution t
          ∧ ta_accepted_plan next = ta_accepted_plan t
          ∧ may_act t actor now ∧ (ta_status t = Ready → relations_allow t Claimed tasks = Ok tt)
          ∧ (may_hold_claim (ta_status t) = true ∨ ta_status t = Ready)) as (Hca & Hres & Hacc & Hact & Hrel & Hst).
  { destruct (ta_status t) eqn:Hst; inv_ok; try done;
      try (apply renew_Ok in Hnext as (c & Hc & Hh & -> & _); [|done]; simpl;
           split_and!; [constructor; simpl; try done; lia|done|done|by eapply held_may_act|done|by left]).
    assert (ta_claim t = None) by (apply task_ok_no_claim; [done|by rewrite Hst]).
    split_and!; [by constructor|done|done|by apply unheld_may_act|done|by right]. }
  match goal with H : settle _ _ = _ |- _ => rename H into Hse end.
  pose proof (settle_Ok _ _ _ Hse) as (Hok & Hle & Heq & _). apply settle_carried in Hse as [_ [Hid Hcr Hup _ Hdep Hpar]].
  destruct Hca as [Hid' Hcr' _ Hle' Hdep' Hpar']. simpl in *.
  split_and!; [done|constructor; congruence || lia|..];
    try match goal with |- ?f _ = _ => rewrite Heq; done end; try done.
  by destruct (ta_accepted_plan t), plan; simplify_eq.
Qed.

(** * Ends of runs *)

Lemma task_after_end_Ok t ended stop now t' :
  task_ok t → task_after_end t ended stop now = Ok (Some t') →
  task_ok t' ∧ carried t t' (now `max` ta_updated t)
  ∧ ta_accepted_plan t' = ta_accepted_plan t ∧ ta_resolution t' = None
  ∧ (ta_status t' = Ready ∨ ta_status t' = Review ∨ ta_status t' = Blocked)
  ∧ may_hold_claim (ta_status t) = true ∧ ru_task ended = ta_id t.
Proof.
  intros Ht He. unfold task_after_end in He. rewrite stamp_eq in He. inv_ok.
  match goal with H : runs_of_task _ _ = _ |- _ =>
    pose proof (runs_of_task_Ok _ _ _ H ended (list_elem_of_here _ _)) as Hid end.
  match goal with H : ru_outcome ended = Some ?o |- _ => set (to := status_after o stop) in *;
    assert (to = Ready ∨ to = Review ∨ to = Blocked) as Hto by (unfold to; destruct o, stop; auto) end.
  destruct (ta_status t) eqn:Hst; try done;
    (apply rbind_Ok in He as (claim & Hclaim & He); case_match; [done|]; inv_ok; subst; split_bools;
     match goal with H : settle _ _ = _ |- _ => rename H into Hs end;
     pose proof (settle_Ok _ _ _ Hs) as (Hok & _ & Heq & _);
     apply settle_carried in Hs as [_ [? ? ? ? ? ?]]; simpl in *;
     pose proof (f_equal ta_status Heq) as Hs1; pose proof (f_equal ta_resolution Heq) as Hs2;
     pose proof (f_equal ta_accepted_plan Heq) as Hs3; simpl in *;
     split_and!; [done|by constructor|done|congruence|by rewrite Hs1|done|done]).
Qed.

(** A task in progress can always be let go of: its claim kept for a review or while
    it is blocked, and given up as it is ready again. *)
Lemma task_ok_let_go t to at_ :
  task_ok t → ta_status t = InProgress → ta_updated t ≤ at_ → to = Ready ∨ to = Review ∨ to = Blocked →
  task_ok (with_updated at_ (with_claim (if decide (to = Ready) then None else ta_claim t) (with_status to t))).
Proof.
  intros Ht Hst Hat Hto. pose proof (task_ok_times t Ht).
  pose proof (task_ok_unresolved t Ht ltac:(congruence) ltac:(congruence)) as Hun.
  pose proof (task_ok_unreasoned t Ht ltac:(congruence) ltac:(congruence) ltac:(congruence)) as Hreason.
  set (t' := with_updated _ _).
  assert (validate_claim t' = Ok tt) as Hv.
  { pose proof (task_ok_claim t Ht) as Hcl. unfold validate_claim in *. rewrite Hst in Hcl. unfold t'. simpl.
    destruct Hto as [->|Hto]; [done|]. rewrite decide_False by (by destruct Hto as [->| ->]).
    destruct (ta_claim t) as [c|]; [|done]. simpl in Hcl. inv_ok. split_bools.
    replace (may_hold_claim to) with true by (by destruct Hto as [->| ->]).
    match goal with H : Claim_validate _ _ = _ |- _ => rewrite H end. simpl.
    by rewrite (proj2 (N.leb_le (ta_created t) _)), (proj2 (N.leb_le (cl_since c) at_)) by lia. }
  assert (validate_description t' = Ok tt) as Ed.
  { pose proof (task_ok_description t Ht) as Hd. unfold validate_description in *. rewrite Hst in Hd. unfold t'. simpl.
    inv_ok. repeat match goal with H : ?m = Ok _ |- context [?m] => rewrite H; simpl end.
    match goal with H : match ?x with Some _ => _ | None => _ end = _ |- _ => destruct x; [|done] end.
    by destruct (has_exceptions _). }
  assert (validate_closure t' = Ok tt) as Ec.
  { pose proof (task_ok_closure t Ht) as Hcl. unfold validate_closure in *. inv_ok.
    assert (resolution_holds t' = Ok tt) as -> by
      (unfold resolution_holds; simpl; rewrite Hun; by destruct Hto as [->|[->| ->]]).
    simpl. change (own_reference t') with (own_reference t).
    repeat match goal with H : ?m = Ok tt |- context [?m] => rewrite H; simpl end. done. }
  assert (reason_holds t' = Ok tt) as Er by (unfold reason_holds; simpl; by rewrite Hreason, Hun).
  unfold task_ok, validate_task in *. inv_ok. rewrite Hv, Ed, Ec, Er. simpl.
  rewrite (proj2 (N.leb_le (ta_created t) at_)) by lia.
  change (task_text_bytes t') with (task_text_bytes t).
  repeat match goal with
  | H : ?m = Ok tt |- context [?m] => rewrite H; simpl
  | H : ?b = true |- context [?b] => rewrite H; simpl
  end. done.
Qed.

(** Whatever ends the run of a task in progress, the task is let go of. *)
Lemma task_after_end_total t ended outcome stop now :
  task_ok t → ta_status t = InProgress → ru_task ended = ta_id t → ru_outcome ended = Some outcome →
  ∃ t', task_after_end t ended stop now = Ok (Some t') ∧ ta_id t' = ta_id t ∧ ta_status t' = status_after outcome stop.
Proof.
  intros Ht Hst Hid Ho. unfold task_after_end, runs_of_task. simpl.
  rewrite Hid, Ho, Hst, stamp_eq. unfold text_eqb. rewrite bool_decide_true by done. simpl.
  set (to := status_after outcome stop).
  assert (to = Ready ∨ to = Review ∨ to = Blocked) as Hto by (unfold to; destruct outcome, stop; auto).
  rewrite (task_ok_unresolved t Ht), (task_ok_unreasoned t Ht) by congruence.
  pose proof (task_ok_let_go t to (now `max` ta_updated t) Ht Hst ltac:(lia) Hto) as Hok.
  assert (match to with Ready => Ok None | Review | Blocked => Ok (ta_claim t) | _ => Panic end
          = Ok (E := RuleError) (if decide (to = Ready) then None else ta_claim t)) as ->
    by (by destruct Hto as [->|[->| ->]]).
  simpl. rewrite (bool_decide_false (to = InProgress)) by (by destruct Hto as [->|[->| ->]]). simpl.
  unfold settle. simpl. rewrite (proj2 (N.leb_le (ta_updated t) _)) by lia. simpl.
  unfold Task_new. unfold task_ok in Hok. rewrite Hok. simpl.
  match goal with |- context [has_settled_outcomes ?x] => assert (has_settled_outcomes x = false) as -> end.
  { unfold has_settled_outcomes. simpl. destruct (bool_decide _); [|done]. by destruct Hto as [->|[->| ->]]. }
  eauto.
Qed.

Lemma task_after_end_None t ended stop now :
  task_after_end t ended stop now = Ok None →
  ta_status t ≠ InProgress ∧ ru_task ended = ta_id t.
Proof.
  intros He. unfold task_after_end in He. inv_ok.
  match goal with H : runs_of_task _ _ = _ |- _ =>
    pose proof (runs_of_task_Ok _ _ _ H ended (list_elem_of_here _ _)) as Hid end.
  split; [|done]. intros Hst. rewrite Hst in He.
  match goal with H : ru_outcome ended = Some ?o |- _ => destruct o, stop end; simpl in He; inv_ok;
    try case_match; inv_ok; split_bools; simplify_eq.
Qed.

Lemma task_after_undo_Ok t ended from now t' :
  task_ok t → task_after_undo t ended from now = Ok (Some t') →
  task_ok t' ∧ carried t t' (now `max` ta_updated t)
  ∧ ta_accepted_plan t' = ta_accepted_plan t ∧ ta_resolution t' = None
  ∧ (ta_status t' = Ready ∨ ta_status t' = Review ∨ ta_status t' = Blocked)
  ∧ may_hold_claim (ta_status t) = true ∧ ru_task ended = ta_id t.
Proof.
  intros Ht He. unfold task_after_undo in He.
  destruct (decide (ta_status t = InProgress ∧ (from = Review ∨ from = Blocked))) as [[Hst Hf]|Hn].
  - assert (∃ r, settle (with_status from t) (now `max` ta_updated t) = Ok r ∧ r = t' ∧ ru_task ended = ta_id t)
      as (r & Hs & -> & Hid).
    { rewrite Hst, stamp_eq in He. destruct Hf as [-> | ->]; inv_ok; simplify_eq; eexists; split_and!; eauto;
        match goal with H : runs_of_task _ _ = _ |- _ =>
          exact (runs_of_task_Ok _ _ _ H ended (list_elem_of_here _ _)) end. }
    pose proof (settle_Ok _ _ _ Hs) as (Hok & _ & Heq & _). apply settle_carried in Hs as [_ [? ? ? ? ? ?]].
    simpl in *. split_and!; try done; [by rewrite Heq| | |by rewrite Hst].
    + rewrite Heq. simpl. apply task_ok_unresolved; by rewrite ?Hst.
    + rewrite Heq. simpl. tauto.
  - eapply (task_after_end_Ok _ _ StopCancelled); [done|]. rewrite <- He.
    destruct (ta_status t), from; try done; destruct Hn; tauto.
Qed.

Lemma task_after_undo_None t ended from now :
  task_after_undo t ended from now = Ok None → ta_status t ≠ InProgress ∧ ru_task ended = ta_id t.
Proof.
  intros He. unfold task_after_undo in He. rewrite stamp_eq in He.
  destruct (ta_status t) eqn:Hst;
    try (apply task_after_end_None in He; by rewrite Hst in He).
  destruct from; try (apply task_after_end_None in He; by rewrite Hst in He); inv_ok; done.
Qed.

(** * Changes that move nothing *)

(** The task keeps its status, its accepted plan and its resolution. *)
Record redrawn (t t' : Task) : Prop := {
  re_ok : task_ok t';
  re_id : ta_id t' = ta_id t;
  re_created : ta_created t' = ta_created t;
  re_later : ta_updated t ≤ ta_updated t';
  re_status : ta_status t' = ta_status t;
  re_accepted : ta_accepted_plan t' = ta_accepted_plan t;
  re_resolution : ta_resolution t' = ta_resolution t;
}.

(** So it does its pointers. *)
Record quiet (t t' : Task) : Prop := {
  qu_redrawn : redrawn t t';
  qu_depends : ta_depends_on t' = ta_depends_on t;
  qu_parent : ta_parent t' = ta_parent t;
}.

Lemma settle_redrawn t next at_ t' :
  settle next at_ = Ok t' → (ta_updated t ≤ at_) →
  ta_id next = ta_id t → ta_created next = ta_created t → ta_status next = ta_status t →
  ta_accepted_plan next = ta_accepted_plan t → ta_resolution next = ta_resolution t → redrawn t t'.
Proof.
  intros (Hok & _ & Heq & _)%settle_Ok ?????? . by rewrite Heq; constructor; simpl; rewrite <- ?Heq.
Qed.

Lemma settle_quiet t next at_ t' :
  settle next at_ = Ok t' → (ta_updated t ≤ at_) →
  ta_id next = ta_id t → ta_created next = ta_created t → ta_status next = ta_status t →
  ta_accepted_plan next = ta_accepted_plan t → ta_resolution next = ta_resolution t →
  ta_depends_on next = ta_depends_on t → ta_parent next = ta_parent t → quiet t t'.
Proof.
  intros Hs ????????. split; [by eapply settle_redrawn|..]; apply settle_Ok in Hs as (_ & _ & -> & _); done.
Qed.

Lemma renew_quiet t holder now t' : task_ok t → renew t holder now = Ok t' → quiet t t' ∧ may_act t holder now.
Proof.
  intros Ht (c & Hc & Hs & -> & Hok)%renew_Ok; [|done]. split; [|by eapply held_may_act].
  constructor; [constructor|..]; simpl; try done. lia.
Qed.

Lemma take_over_quiet t taker now t' :
  task_ok t → take_over t taker now = Ok t' → quiet t t' ∧ may_act t taker now.
Proof.
  intros Ht (c & Hc & _ & Hx & -> & Hok)%take_over_Ok; [|done]. split.
  - constructor; [constructor|..]; simpl; try done. lia.
  - intros c' Hc' Hl. unfold is_live in Hl. apply N.ltb_lt in Hl. simplify_eq. lia.
Qed.

Lemma add_pr_quiet t holder pr board now t' :
  add_pr t holder pr board now = Ok t' → quiet t t' ∧ may_act t holder now ∧ ta_prs t' = ta_prs t ++ [pr].
Proof.
  unfold add_pr, may_link. rewrite stamp_eq. intros Ha. inv_ok. clear H1.
  match goal with H : held_live_by _ _ _ = _ |- _ => apply held_live_by_Ok in H as (? & ? & _) end.
  split_and!; [eapply settle_quiet; [done|lia|done..]|by eapply held_may_act|].
  apply settle_Ok in Ha as (_ & _ & -> & _). done.
Qed.

Lemma remove_pr_quiet t holder pr now t' :
  remove_pr t holder pr now = Ok t' → quiet t t' ∧ may_act t holder now.
Proof.
  unfold remove_pr. rewrite stamp_eq. intros Ha. inv_ok. case_match; [|done]. inv_ok.
  match goal with H : held_live_by _ _ _ = _ |- _ => apply held_live_by_Ok in H as (? & ? & _) end.
  split; [eapply settle_quiet; [done|lia|done..]|by eapply held_may_act].
Qed.

Lemma edit_draft_redrawn t edit now t' :
  edit_draft t edit now = Ok t' →
  redrawn t t' ∧ ta_status t = Draft
  ∧ ta_depends_on t' = default (ta_depends_on t) (ed_depends_on edit)
  ∧ ta_parent t' = default (ta_parent t) (ed_parent edit).
Proof.
  unfold edit_draft. rewrite stamp_eq. intros He. inv_ok.
  match goal with H : match ta_status t with _ => _ end = _ |- _ => rename H into Hst end.
  assert (ta_status t = Draft) by by destruct (ta_status t). split; [|split; [done|]].
  - eapply settle_redrawn; [done|lia|..]; by repeat (case_match; simpl).
  - apply settle_Ok in He as (_ & _ & Heq & _).
    split; rewrite Heq; simpl; by destruct (ed_depends_on edit), (ed_parent edit), (changed_text (ed_description edit) _),
      (ed_title edit).
Qed.

Lemma task_set_outcome_quiet t index reason by_ at_ t' :
  task_ok t → task_set_outcome t index reason by_ at_ = Ok t' → quiet t t' ∧ ta_status t = Done.
Proof.
  intros Ht. unfold task_set_outcome. intros Ho.
  destruct (ta_status t) eqn:Hst, (ta_description_form t); try done. inv_ok.
  assert (quiet t t') as Hq; [|done].
  assert (quiet t t) as Hrefl by by constructor; [constructor|..].
  repeat case_match; inv_ok; try done;
    (match goal with H : Task_new _ = _ |- _ => apply Task_new_Ok in H as (Hok & _ & Heq & _) end;
     fields_of Heq; constructor; [constructor|..]; simpl in *; congruence || lia).
Qed.

(** * Plans *)

Lemma Plan_new_Ok p p' : Plan_new p = Ok p' → p' = p ∧ plan_ok p.
Proof. unfold Plan_new, plan_ok. intros. inv_ok. done. Qed.

Lemma plans_of_task_Ok t versions u : plans_of_task t versions = Ok u → ∀ p, p ∈ versions → pl_task p = ta_id t.
Proof.
  unfold plans_of_task. intros Hr p Hin. inv_ok. rewrite forallb_forall in Hr.
  apply list_elem_of_In in Hin. specialize (Hr p Hin). unfold text_eqb in Hr. by split_bools.
Qed.

Lemma last_number_ge l n : n ∈ l → n ≤ last_number l.
Proof. unfold last_number. by destruct (foldl_max_spec l 0) as (_ & _ & ?); auto. Qed.

Lemma propose_at_Ok t versions c actor when p :
  propose_at t versions c actor when = Ok p →
  plan_ok p ∧ pl_task p = ta_id t ∧ pl_state p = PlanDraft ∧ (∀ q, q ∈ versions → pl_version q < pl_version p)
  ∧ pl_items p = pc_items c.
Proof.
  unfold propose_at. rewrite not_before_eq. intros Hp. inv_ok. apply Plan_new_Ok in Hp as [-> ?].
  split_and!; try done. intros q Hq. simpl.
  pose proof (last_number_ge (pl_version <$> versions) (pl_version q) (list_elem_of_fmap_2 _ _ _ Hq)). lia.
Qed.

Lemma edit_plan_draft_Ok t versions p c expected actor when p' :
  edit_plan_draft t versions p c expected actor when = Ok p' →
  plan_ok p' ∧ pl_task p' = pl_task p ∧ pl_version p' = pl_version p ∧ pl_state p' = PlanDraft
  ∧ p ∈ versions ∧ pl_state p = PlanDraft ∧ pl_updated p ≤ pl_updated p' ∧ pl_created p' = pl_created p
  ∧ pl_items p' = pc_items c.
Proof.
  unfold edit_plan_draft. rewrite not_before_eq. intros He. inv_ok.
  match goal with H : after_last _ _ = _ |- _ => rewrite after_last_eq in H; injection H as <- end.
  apply Plan_new_Ok in He as [-> ?]. unfold is_draft in *. split_bools.
  assert (pl_state p = PlanDraft) by (destruct (pl_state p); done).
  split_and!; try done. simpl. lia.
Qed.

Lemma discard_Ok t versions p expected actor when p' :
  discard t versions p expected actor when = Ok p' →
  plan_ok p' ∧ p' = with_plan_state PlanDiscarded (pl_accepted p) (pl_updated p') p
  ∧ p ∈ versions ∧ pl_state p = PlanDraft ∧ pl_updated p ≤ pl_updated p' ∧ may_act t actor (mo_now when).
Proof.
  unfold discard. rewrite not_before_eq. intros He. inv_ok.
  match goal with H : after_last _ _ = _ |- _ => rewrite after_last_eq in H; injection H as <- end.
  apply Plan_new_Ok in He as [-> ?]. unfold is_draft in *. split_bools.
  assert (pl_state p = PlanDraft) by (destruct (pl_state p); done).
  split_and!; try done; [simpl; lia|].
  intros c Hc Hl. unfold decides in *. rewrite Hc in *. inv_ok.
  match goal with H : held_live_by _ _ _ = _ |- _ => apply held_live_by_Ok in H as (? & ? & _) end. congruence.
Qed.

Lemma elem_of_accepted versions v :
  v ∈ accepted_versions versions ↔ ∃ p, p ∈ versions ∧ pl_state p = PlanAccepted ∧ pl_version p = v.
Proof.
  unfold accepted_versions. rewrite list_elem_of_fmap. setoid_rewrite list_elem_of_filter. naive_solver.
Qed.

(** Plans that agree: the accepted one is the one the task names. *)
Lemma plans_consistent_Ok t versions u :
  plans_consistent t versions = Ok u →
  ∀ p, p ∈ versions → pl_task p = ta_id t ∧ (pl_state p = PlanAccepted → ta_accepted_plan t = Some (pl_version p)).
Proof.
  unfold plans_consistent. intros Hc p Hp. inv_ok. split; [by eapply plans_of_task_Ok|]. intros Ha.
  assert (pl_version p ∈ accepted_versions versions) as Hin by (apply elem_of_accepted; eauto).
  destruct (accepted_versions versions) as [|v [|]], (ta_accepted_plan t); try done.
  - by apply not_elem_of_nil in Hin.
  - inv_ok. match goal with H : (_ =? _) = true |- _ => apply N.eqb_eq in H end.
    apply list_elem_of_singleton in Hin. congruence.
Qed.

Lemma after_plans_eq plans : ∀ at_, after_plans at_ plans = Ok (foldl N.max at_ (pl_updated <$> plans)).
Proof.
  induction plans as [|p plans IH]; intros at_; simpl; [done|]. rewrite after_last_eq. simpl.
  rewrite IH. by rewrite N.max_comm.
Qed.

(** The stamp of an acceptance is no earlier than anything it touches. *)
Lemma acceptance_stamp t now touched stamps p :
  p ∈ touched →
  let at_ := foldl N.max (now `max` ta_updated t) (pl_updated <$> touched) `max` foldl N.max (ta_updated t) stamps in
  ta_updated t ≤ at_ ∧ pl_updated p ≤ at_.
Proof.
  intros Hp at_. unfold at_.
  destruct (foldl_max_spec (pl_updated <$> touched) (now `max` ta_updated t)) as (_ & Hge & Hall).
  specialize (Hall (pl_updated p) (list_elem_of_fmap_2 _ _ _ Hp)). lia.
Qed.

Lemma decides_may_act t actor now u : decides t actor now = Ok u → may_act t actor now.
Proof.
  unfold decides. intros Hd c Hc Hl. rewrite Hc in Hd. inv_ok.
  apply held_live_by_Ok in Hd as (? & ? & _). congruence.
Qed.

(** What an acceptance writes of the plan it supersedes. *)
Definition supersedes (versions : list Plan) (at_ : Timestamp) (superseded : option Plan) : Prop :=
  match superseded with
  | None => ∀ p, p ∈ versions → pl_state p ≠ PlanAccepted
  | Some s => ∃ b, b ∈ versions ∧ pl_state b = PlanAccepted ∧ pl_updated b ≤ at_
              ∧ s = with_plan_state PlanSuperseded (pl_accepted b) at_ b ∧ plan_ok s
  end.

Lemma accept_Ok t versions runs version expected actor when a :
  accept t versions runs version expected actor when = Ok a →
  ∃ chosen at_, chosen ∈ versions ∧ pl_version chosen = version ∧ pl_state chosen = PlanDraft
  ∧ ac_plan a = with_plan_state PlanAccepted (Some (actor, at_)) at_ chosen ∧ plan_ok (ac_plan a)
  ∧ pl_updated chosen ≤ at_
  ∧ task_ok (ac_task a) ∧ carried t (ac_task a) at_
  ∧ ta_status (ac_task a) = ta_status t ∧ ta_resolution (ac_task a) = ta_resolution t
  ∧ ta_accepted_plan (ac_task a) = Some version
  ∧ supersedes versions at_ (ac_superseded a)
  ∧ open_of t runs = Ok None ∧ may_act t actor (mo_now when) ∧ plans_consistent t versions = Ok tt.
Proof.
  unfold accept. rewrite stamp_eq. intros Ha. inv_ok.
  match goal with H : after_plans _ _ = _ |- _ => rewrite after_plans_eq in H; injection H as <- end.
  match goal with H : not_before _ _ _ = Ok ?at_ |- _ => rewrite not_before_eq in H; injection H as H; rename at_ into at_' end.
  match goal with H : List.find _ versions = Some ?c |- _ => rename c into chosen;
    apply List.find_some in H as [Hin%list_elem_of_In Hv%N.eqb_eq] end.
  match goal with H : is_draft _ = _ |- _ => assert (pl_state chosen = PlanDraft) as Hd
    by (unfold is_draft in H; by destruct (pl_state chosen)) end.
  match goal with H : match ?o with _ => _ end = Ok () |- _ =>
    match type of o with option Run => destruct o; [done|] end end.
  set (before := List.find _ versions) in *.
  destruct (acceptance_stamp t (mo_now when) (chosen :: option_list before) (stamps_of versions when) chosen
    (list_elem_of_here _ _)) as [Hut Huc]. simpl in *.
  match goal with H : settle _ _ = Ok ?x |- _ => rename H into Hs end.
  pose proof (settle_Ok _ _ _ Hs) as (Hok & _ & Heq & _). fields_of Heq. simpl in *.
  match goal with H : Plan_new (with_plan_state PlanAccepted _ _ _) = _ |- _ => apply Plan_new_Ok in H as [-> ?] end.
  exists chosen, at_'. split_and!; try done; subst at_'; try done.
  - unfold supersedes. simpl. destruct before as [b|] eqn:Hb; inv_ok; simplify_eq.
    + match goal with H : Plan_new (with_plan_state PlanSuperseded _ _ _) = _ |- _ => apply Plan_new_Ok in H as [-> ?] end.
      pose proof (List.find_some _ _ Hb) as [Hbin%list_elem_of_In Hbs]. split_bools.
      destruct (acceptance_stamp t (mo_now when) (chosen :: option_list (Some b)) (stamps_of versions when) b)
        as [_ Hub]; [set_solver|]. simpl in *. eauto 10.
    + intros p Hp Hacc. pose proof (List.find_none _ _ Hb p) as Hn. rewrite <- list_elem_of_In in Hn.
      specialize (Hn Hp). by rewrite bool_decide_true in Hn.
  - by eapply decides_may_act.
Qed.

End rule_facts.
