(* ===== verification/BoardInvariant.v ===== *)
(** The board as its use cases change it: the steps, the invariant they keep, and
    that every step keeps it. *)

From stdpp Require Import gmap.
From S2P Require Import Prelude BoardText BoardSchema BoardDescription BoardTask BoardArtifacts BoardClaims BoardRuns BoardTransitions BoardPlans BoardChanges BoardView BoardFoldBack BoardUseCases BoardFacts BoardCycles BoardRuleFacts BoardScrub.

(** * The steps *)

Section steps.
Context `{Shapes}.

(** What the store, the file format, the host and the swarm answer. *)
Record Answers := mkAnswers {
  an_object_at : BoardHead → ArtifactKey → res BoardError (option N);
  an_cell_holds : text → bool;
  an_prose_holds : text → bool;
  an_host : option ((nat → bool) * (N → res BoardError PullRequestState));
  an_brief_refusal : Started → option BoardError;
  an_remote : Remote;
}.

(** A change [actor] asks for. *)
Inductive user_change (actor : Identity) : BoardChange → Prop :=
  | uc_change (w : Answers) id op : user_change actor (change_board_task actor (an_object_at w) id op)
  | uc_finish (w : Answers) id reason : user_change actor (finish_without_run actor (an_host w) id reason)
  | uc_create (w : Answers) n : user_change actor (create_board_task (an_cell_holds w) (an_prose_holds w) n)
  | uc_update (w : Answers) u :
      user_change actor (update_draft_task (an_object_at w) (an_cell_holds w) (an_prose_holds w) u)
  | uc_propose p : items_named (pp_items p) → user_change actor (propose_plan actor p)
  | uc_edit (w : Answers) e :
      (∀ items, pe_items e = Some items → items_named items) → user_change actor (edit_plan actor (an_object_at w) e)
  | uc_accept (w : Answers) a : user_change actor (accept_plan actor (an_object_at w) a)
  | uc_discard (w : Answers) id version expected :
      user_change actor (discard_plan actor (an_object_at w) id version expected)
  | uc_begin (w : Answers) id version : user_change actor (begin_board_run actor (an_brief_refusal w) id version)
  | uc_end (w : Answers) r ended left how :
      user_change actor (end_run actor (an_object_at w) (an_cell_holds w) (an_remote w) r ended left how).

(** A change the system makes, whoever runs it. *)
Inductive system_change : BoardChange → Prop :=
  | sc_complete (w : Answers) id : system_change (complete_merged_task (an_host w) id)
  | sc_fold_back (w : Answers) id number view ending how :
      system_change (fold_back_run (an_cell_holds w) id number view ending how).

Definition board_change (change : BoardChange) : Prop :=
  system_change change ∨ ∃ actor, user_change actor change.

(** One committed change, or files set aside or mended that hold no artifact. *)
Inductive board_step : BoardSnapshot → BoardSnapshot → Prop :=
  | bs_change change b when artifacts :
      board_change change → change b when = Ok artifacts → board_step b (write_all b artifacts)
  | bs_store b head quarantined :
      board_step b (mkBoard head (bo_tasks b) (bo_plans b) (bo_runs b) (bo_changes b) (bo_reviews b)
                      (bo_discussions b) quarantined).

Definition empty_board (head : BoardHead) : BoardSnapshot := mkBoard head [] [] [] [] [] [] [].

Definition board_reachable (b : BoardSnapshot) : Prop := ∃ head, rtc board_step (empty_board head) b.

End steps.

(** * The invariant *)

Section invariant.
Context `{Shapes}.

(** A task is in progress exactly while one run of its accepted plan is going, it
    names the one plan accepted, and its work is of a run. *)
Record task_consistent (t : Task) (plans : list Plan) (runs : list Run) : Prop := {
  tc_going : ta_status t = InProgress →
    ∃ r, r ∈ runs ∧ ru_task r = ta_id t ∧ run_is_open r = true ∧ ta_accepted_plan t = Some (ru_plan_version r);
  tc_one : ∀ r, r ∈ runs → ru_task r = ta_id t → run_is_open r = true →
    ta_status t = InProgress ∧
    ∀ r', r' ∈ runs → ru_task r' = ta_id t → run_is_open r' = true → r' = r;
  tc_accepted : ∀ p, p ∈ plans → pl_task p = ta_id t →
    (pl_state p = PlanAccepted ↔ ta_accepted_plan t = Some (pl_version p));
  tc_named : ∀ v, ta_accepted_plan t = Some v → ∃ p, p ∈ plans ∧ pl_task p = ta_id t ∧ pl_version p = v;
  tc_worked : ta_status t = Review ∨ ta_status t = Blocked ∨ ta_resolution t = Some Completed →
    ∃ r, r ∈ runs ∧ ru_task r = ta_id t;
}.

(** A task with its plans and runs: each admitted, each held once, each run one of
    a plan that was accepted. *)
Record task_part (t : Task) (plans : list Plan) (runs : list Run) : Prop := {
  tp_task : task_ok t;
  tp_plans : ∀ p, p ∈ plans → pl_task p = ta_id t → plan_ok p;
  tp_plan_keys : ∀ p p', p ∈ plans → p' ∈ plans → pl_task p = ta_id t → pl_task p' = ta_id t →
    pl_version p = pl_version p' → p = p';
  tp_runs : ∀ r, r ∈ runs → ru_task r = ta_id t → run_ok r;
  tp_run_keys : ∀ r r', r ∈ runs → r' ∈ runs → ru_task r = ta_id t → ru_task r' = ta_id t →
    ru_number r = ru_number r' → r = r';
  tp_ran : ∀ r, r ∈ runs → ru_task r = ta_id t → ∃ p, p ∈ plans ∧ run_ran r p = Ok tt;
  tp_consistent : task_consistent t plans runs;
}.

Record board_ok (b : BoardSnapshot) : Prop := {
  bk_ids : ∀ t t', t ∈ bo_tasks b → t' ∈ bo_tasks b → ta_id t = ta_id t' → t = t';
  bk_parts : ∀ t, t ∈ bo_tasks b → task_part t (bo_plans b) (bo_runs b);
  bk_plans : ∀ p, p ∈ bo_plans b → ∃ t, t ∈ bo_tasks b ∧ ta_id t = pl_task p;
  bk_runs : ∀ r, r ∈ bo_runs b → ∃ t, t ∈ bo_tasks b ∧ ta_id t = ru_task r;
}.

(** ** Membership *)

Lemma elem_of_upsert {A} (key : A → ArtifactKey) x l y :
  y ∈ upsert key x l ↔ y = x ∨ y ∈ l ∧ key y ≠ key x.
Proof. unfold upsert. rewrite elem_of_cons, list_elem_of_filter. tauto. Qed.

Lemma of_task_eq t t' : of_task t = of_task t' ↔ ta_id t = ta_id t'.
Proof. unfold of_task. split; [by intros [=]|by intros ->]. Qed.
Lemma of_run_eq r r' : of_run r = of_run r' ↔ ru_task r = ru_task r' ∧ ru_number r = ru_number r'.
Proof. unfold of_run. split; [by intros [=]|by intros [-> ->]]. Qed.
Lemma of_plan_eq p p' : of_plan p = of_plan p' ↔ pl_task p = pl_task p' ∧ pl_version p = pl_version p'.
Proof. unfold of_plan. split; [by intros [=]|by intros [-> ->]]. Qed.

Lemma elem_of_upsert_task t l u : u ∈ upsert of_task t l ↔ u = t ∨ u ∈ l ∧ ta_id u ≠ ta_id t.
Proof. by rewrite elem_of_upsert, of_task_eq. Qed.
Lemma elem_of_upsert_run r l s :
  s ∈ upsert of_run r l ↔ s = r ∨ s ∈ l ∧ ¬ (ru_task s = ru_task r ∧ ru_number s = ru_number r).
Proof. by rewrite elem_of_upsert, of_run_eq. Qed.
Lemma elem_of_upsert_plan p l q :
  q ∈ upsert of_plan p l ↔ q = p ∨ q ∈ l ∧ ¬ (pl_task q = pl_task p ∧ pl_version q = pl_version p).
Proof. by rewrite elem_of_upsert, of_plan_eq. Qed.

Lemma run_ran_eq r p :
  run_ran r p = Ok tt ↔
  (pl_state p = PlanAccepted ∨ pl_state p = PlanSuperseded) ∧ pl_task p = ru_task r
  ∧ pl_version p = ru_plan_version r
  ∧ position (λ i, bool_decide (plan_item p (ri_id i) = None)) (ru_items r) = None.
Proof.
  unfold run_ran, text_eqb. split.
  - intros Hr. inv_ok. rewrite N.eqb_eq, bool_decide_eq_true in *.
    destruct (position _ _); [done|]. destruct (pl_state p); simplify_eq; auto.
  - intros (Hs & -> & -> & ->). rewrite bool_decide_true, N.eqb_refl by done. by destruct Hs as [-> | ->].
Qed.

(** ** One task's part of the board *)

(** What the part of a task is of: its plans and its runs. *)
Lemma task_part_local t plans runs plans' runs' :
  task_part t plans runs →
  (∀ p, pl_task p = ta_id t → p ∈ plans ↔ p ∈ plans') → (∀ r, ru_task r = ta_id t → r ∈ runs ↔ r ∈ runs') →
  task_part t plans' runs'.
Proof.
  intros [Ht Hp Hpk Hr Hrk Hran [Hg H1 Ha Hn Hw]] Ep Er. split; [done| | | | | |split].
  - intros p Hin Hi. apply Hp; [by apply Ep|done].
  - intros p p' Hin Hin' Hi Hi'. apply Hpk; try done; by apply Ep.
  - intros r Hin Hi. apply Hr; [by apply Er|done].
  - intros r r' Hin Hin' Hi Hi'. apply Hrk; try done; by apply Er.
  - intros r Hin Hi. destruct (Hran r) as (p & Hpin & Hrp); [by apply Er|done|].
    exists p. split; [|done]. apply Ep; [|done]. apply run_ran_eq in Hrp as (_ & ? & _). congruence.
  - intros Hs. destruct (Hg Hs) as (r & Hin & Hi & ?). exists r. split; [by apply Er|done].
  - intros r Hin Hi Ho. destruct (H1 r) as [? Hall]; [by apply Er|done|done|]. split; [done|].
    intros r' Hin' Hi'. apply Hall; [by apply Er|done].
  - intros p Hin Hi. apply Ha; [by apply Ep|done].
  - intros v Hv. destruct (Hn v Hv) as (p & Hin & Hi & ?). exists p. split; [by apply Ep|done].
  - intros Hs. destruct (Hw Hs) as (r & Hin & Hi). exists r. split; [by apply Er|done].
Qed.

(** A board whose change stays within one task's part is one of the invariant. *)
Lemma board_ok_write b b' t' :
  board_ok b →
  (∀ u, u ∈ bo_tasks b' ↔ u = t' ∨ u ∈ bo_tasks b ∧ ta_id u ≠ ta_id t') →
  (∀ p, pl_task p ≠ ta_id t' → p ∈ bo_plans b ↔ p ∈ bo_plans b') →
  (∀ r, ru_task r ≠ ta_id t' → r ∈ bo_runs b ↔ r ∈ bo_runs b') →
  task_part t' (bo_plans b') (bo_runs b') → board_ok b'.
Proof.
  intros [Hids Hparts Hpl Hru] Et Ep Er Hpart. split.
  - intros u u' Hu Hu' He. rewrite !Et in *. naive_solver.
  - intros u Hu. apply Et in Hu as [->|[Hu Hn]]; [done|].
    eapply task_part_local; [by apply Hparts| |].
    + intros p Hi. apply Ep. congruence.
    + intros r Hi. apply Er. congruence.
  - intros p Hp. destruct (decide (pl_task p = ta_id t')) as [He|Hn].
    + exists t'. split; [|done]. apply Et. by left.
    + destruct (Hpl p) as (u & Hu & Hi); [by apply Ep|]. exists u. split; [|done]. apply Et. right. by rewrite Hi.
  - intros r Hr. destruct (decide (ru_task r = ta_id t')) as [He|Hn].
    + exists t'. split; [|done]. apply Et. by left.
    + destruct (Hru r) as (u & Hu & Hi); [by apply Er|]. exists u. split; [|done]. apply Et. right. by rewrite Hi.
Qed.

(** * What a change writes *)

(** A task's change that neither starts nor stops a run. *)
Record still (t t' : Task) : Prop := {
  st_ok : task_ok t';
  st_id : ta_id t' = ta_id t;
  st_created : ta_created t' = ta_created t;
  st_later : (ta_updated t ≤ ta_updated t')%N;
  st_accepted : ta_accepted_plan t' = ta_accepted_plan t;
  st_progress : ta_status t' = InProgress ↔ ta_status t = InProgress;
  st_worked : ta_status t' = Review ∨ ta_status t' = Blocked ∨ ta_resolution t' = Some Completed →
              ta_status t = Review ∨ ta_status t = Blocked ∨ ta_resolution t = Some Completed;
}.

(** A task no artifact of the board names, as it is created. *)
Record fresh_task (b : BoardSnapshot) (t : Task) : Prop := {
  ft_ok : task_ok t;
  ft_new : ∀ u, u ∈ bo_tasks b → ta_id u ≠ ta_id t;
  ft_runs : ∀ r, r ∈ bo_runs b → ru_task r ≠ ta_id t;
  ft_plans : ∀ p, p ∈ bo_plans b → pl_task p ≠ ta_id t;
  ft_status : ta_status t = Draft ∨ ta_status t = Ready;
  ft_accepted : ta_accepted_plan t = None;
  ft_resolution : ta_resolution t = None;
  ft_depends : pointing ta_depends_on (bo_tasks b) t;
  ft_parent : pointing parents (bo_tasks b) t;
}.

(** A run begins: of the accepted plan, under a number above every other's. *)
Record begins (b : BoardSnapshot) (t t' : Task) (r : Run) : Prop := {
  be_task : task_ok t';
  be_id : ta_id t' = ta_id t;
  be_created : ta_created t' = ta_created t;
  be_later : (ta_updated t ≤ ta_updated t')%N;
  be_status : ta_status t' = InProgress;
  be_resolution : ta_resolution t' = ta_resolution t;
  be_accepted : ta_accepted_plan t' = ta_accepted_plan t;
  be_run : run_ok r;
  be_open : run_is_open r = true;
  be_of : ru_task r = ta_id t;
  be_items : ru_items r = [];
  be_plan : ∃ p, p ∈ bo_plans b ∧ pl_task p = ta_id t ∧ pl_state p = PlanAccepted ∧ pl_version p = ru_plan_version r
            ∧ ta_accepted_plan t = Some (ru_plan_version r);
  be_number : ∀ s, s ∈ bo_runs b → ru_task s = ta_id t → (ru_number s < ru_number r)%N;
  be_none : ∀ s, s ∈ bo_runs b → ru_task s = ta_id t → run_is_open s = false;
}.

(** A run ends, with it the progress of its task. *)
Record ends (b : BoardSnapshot) (t t' : Task) (r r' : Run) : Prop := {
  en_task : task_ok t';
  en_id : ta_id t' = ta_id t;
  en_created : ta_created t' = ta_created t;
  en_later : (ta_updated t ≤ ta_updated t')%N;
  en_status : ta_status t' = Ready ∨ ta_status t' = Review ∨ ta_status t' = Blocked;
  en_resolution : ta_resolution t' = None;
  en_accepted : ta_accepted_plan t' = ta_accepted_plan t;
  en_in : r ∈ bo_runs b;
  en_of : ru_task r = ta_id t;
  en_open : run_is_open r = true;
  en_run : run_ok r';
  en_key : of_run r' = of_run r;
  en_version : ru_plan_version r' = ru_plan_version r;
  en_started : ru_started r' = ru_started r;
  en_closed : run_is_open r' = false;
  en_ran : ∃ p, p ∈ bo_plans b ∧ run_ran r' p = Ok tt;
}.

(** A version proposed: above every other of its task. *)
Record proposes (b : BoardSnapshot) (t : Task) (p : Plan) : Prop := {
  pr_ok : plan_ok p;
  pr_of : pl_task p = ta_id t;
  pr_draft : pl_state p = PlanDraft;
  pr_version : ∀ q, q ∈ bo_plans b → pl_task q = ta_id t → (pl_version q < pl_version p)%N;
  pr_named : items_named (pl_items p);
}.

(** A draft edited or discarded. *)
Record redrafts (b : BoardSnapshot) (t : Task) (p p' : Plan) : Prop := {
  rd_ok : plan_ok p';
  rd_in : p ∈ bo_plans b;
  rd_of : pl_task p = ta_id t;
  rd_key : of_plan p' = of_plan p;
  rd_was : pl_state p = PlanDraft;
  rd_is : pl_state p' = PlanDraft ∨ pl_state p' = PlanDiscarded;
  rd_later : (pl_updated p ≤ pl_updated p')%N;
  rd_named : items_named (pl_items p) → items_named (pl_items p');
}.

(** A draft accepted, in place of the version accepted before. *)
Record accepts (b : BoardSnapshot) (t t' : Task) (p : Plan) (at_ : Timestamp) (actor : Identity)
    (superseded : option Plan) : Prop := {
  as_task : task_ok t';
  as_id : ta_id t' = ta_id t;
  as_created : ta_created t' = ta_created t;
  as_later : (ta_updated t ≤ ta_updated t')%N;
  as_status : ta_status t' = ta_status t;
  as_resolution : ta_resolution t' = ta_resolution t;
  as_accepted : ta_accepted_plan t' = Some (pl_version p);
  as_in : p ∈ bo_plans b;
  as_of : pl_task p = ta_id t;
  as_was : pl_state p = PlanDraft;
  as_ok : plan_ok (with_plan_state PlanAccepted (Some (actor, at_)) at_ p);
  as_stamp : (pl_updated p ≤ at_)%N;
  as_before : supersedes (filter (λ q, pl_task q = ta_id t) (bo_plans b)) at_ superseded;
  as_none : ∀ s, s ∈ bo_runs b → ru_task s = ta_id t → run_is_open s = false;
}.

(** Whether the actor may touch the task, when there is one. *)
Definition acts (by_ : option Identity) (t : Task) (now : Timestamp) : Prop :=
  match by_ with Some actor => may_act t actor now | None => True end.

(** Worked on, or done. *)
Definition worked (s : TaskStatus) : bool :=
  match s with Claimed | InProgress | Review | Blocked | Done => true | Draft | Ready | Archived => false end.

(** A task's change as its relations see it: what it depends on is fixed while it is
    not a draft and checked when it changes, a finished task stays so, work begins once its dependencies are
    finished, and a parent is archived once no child is worked on. *)
Record related (b : BoardSnapshot) (t t' : Task) : Prop := {
  rl_depends : ta_status t ≠ Draft → ta_depends_on t' = ta_depends_on t;
  rl_final : releases_dependents (ta_status t) = true → releases_dependents (ta_status t') = true;
  rl_draft : ta_status t = Draft → worked (ta_status t') = false;
  rl_begun : worked (ta_status t) = false → worked (ta_status t') = true → dependencies_released (bo_tasks b) t;
  rl_pointed : ta_depends_on t' = ta_depends_on t ∨ pointing ta_depends_on (bo_tasks b) t';
  rl_parented : parents t' = parents t ∨ pointing parents (bo_tasks b) t';
  rl_archived : ta_status t ≠ Archived → ta_status t' = Archived → no_active_child (bo_tasks b) t;
}.

(** The writes of a change [by_] someone, or by the system. *)
Inductive writes (b : BoardSnapshot) (by_ : option Identity) (now : Timestamp) : list BoardArtifact → Prop :=
  | wr_task t t' : t ∈ bo_tasks b → still t t' → related b t t' → acts by_ t now → writes b by_ now [ATask t']
  | wr_new t : fresh_task b t → writes b by_ now [ATask t]
  | wr_begin t t' r : t ∈ bo_tasks b → begins b t t' r → related b t t' → acts by_ t now →
      writes b by_ now [ATask t'; ARun r]
  | wr_end t t' r r' :
      t ∈ bo_tasks b → ends b t t' r r' → related b t t' → acts by_ t now →
      writes b by_ now [ATask t'; ARun r']
  | wr_propose t p : t ∈ bo_tasks b → proposes b t p → writes b by_ now [APlan p]
  | wr_redraft t p p' : t ∈ bo_tasks b → redrafts b t p p' → writes b by_ now [APlan p']
  | wr_accept t t' p at_ actor superseded :
      t ∈ bo_tasks b → accepts b t t' p at_ actor superseded → related b t t' → acts by_ t now →
      writes b by_ now
        (ATask t' :: APlan (with_plan_state PlanAccepted (Some (actor, at_)) at_ p)
           :: (APlan <$> option_list superseded)).

End invariant.

(** Whatever a change writes keeps the board's invariant. *)

Section kept.
Context `{Shapes}.

Implicit Types (t u : Task) (p q : Plan) (r s : Run) (b : BoardSnapshot).

(** ** A task *)

Lemma still_part t t' plans runs : still t t' → task_part t plans runs → task_part t' plans runs.
Proof.
  intros [Hok Hid _ _ Hacc Hp Hw] [Ht Hps Hpk Hrs Hrk Hran [Hg H1 Ha Hn Hwk]].
  split; rewrite ?Hid; try done. split; rewrite ?Hid, ?Hacc; auto.
  - intros Hs. apply Hg. tauto.
  - intros r Hr Ht' Ho. destruct (H1 r Hr Ht' Ho) as [? Hall]. split; [tauto|]. apply Hall.
Qed.

Lemma fresh_part b t : fresh_task b t → task_part t (bo_plans b) (bo_runs b).
Proof.
  intros [Hok Hu Hr Hp Hst Hacc Hres _ _]. split; [done|..].
  - intros p Hpi Hi. by destruct (Hp p Hpi).
  - intros p p' Hpi _ Hi. by destruct (Hp p Hpi).
  - intros r Hri Hi. by destruct (Hr r Hri).
  - intros r r' Hri _ Hi. by destruct (Hr r Hri).
  - intros r Hri Hi. by destruct (Hr r Hri).
  - split.
    + intros Hs. destruct Hst; congruence.
    + intros r Hri Hi. by destruct (Hr r Hri).
    + intros p Hpi Hi. by destruct (Hp p Hpi).
    + congruence.
    + rewrite Hres. destruct Hst as [-> | ->]; naive_solver.
Qed.

(** ** A run *)

Lemma begins_part b t t' r :
  begins b t t' r → task_part t (bo_plans b) (bo_runs b) →
  task_part t' (bo_plans b) (upsert of_run r (bo_runs b)).
Proof.
  intros [Hok Hid _ _ Hst Hres Hacc Hrok Ho Hof Hit Hpl Hnum Hnone] [Ht Hps Hpk Hrs Hrk Hran [Hg H1 Ha Hn Hwk]].
  destruct Hpl as (p & Hpin & Hpt & Hpst & Hpv & Hpa).
  assert (r ∈ upsert of_run r (bo_runs b)) as Hin by (apply elem_of_upsert_run; by left).
  split; rewrite ?Hid; try done.
  - intros s [->|[Hs _]]%elem_of_upsert_run; [done|by apply Hrs].
  - intros s s' Hs Hs' Hi Hi' He. rewrite !elem_of_upsert_run in *. naive_solver congruence.
  - intros s [->|[Hs _]]%elem_of_upsert_run Hi; [|by apply Hran].
    exists p. split; [done|]. apply run_ran_eq. split_and!; [by left|congruence|done|by rewrite Hit].
  - split; rewrite ?Hid, ?Hacc; auto.
    + intros _. exists r. done.
    + intros s [->|[Hs _]]%elem_of_upsert_run Hi Hos; [|by rewrite (Hnone s) in Hos]. split; [done|].
      intros s' [->|[Hs' _]]%elem_of_upsert_run Hi' Hos'; [done|by rewrite (Hnone s') in Hos'].
    + intros _. exists r. done.
Qed.

Lemma ends_part b t t' r r' :
  ends b t t' r r' → task_part t (bo_plans b) (bo_runs b) →
  task_part t' (bo_plans b) (upsert of_run r' (bo_runs b)).
Proof.
  intros [Hok Hid _ _ Hst Hres Hacc Hin Hof Ho Hrok Hkey _ _ Hcl Hrp] [Ht Hps Hpk Hrs Hrk Hran [Hg H1 Ha Hn Hwk]].
  apply of_run_eq in Hkey as [Hkt Hkn].
  assert (r' ∈ upsert of_run r' (bo_runs b)) as Hin' by (apply elem_of_upsert_run; by left).
  assert (∀ s, s ∈ upsert of_run r' (bo_runs b) → ru_task s = ta_id t → run_is_open s = false) as Hnone.
  { intros s [->|[Hs Hne]]%elem_of_upsert_run Hi; [done|]. destruct (run_is_open s) eqn:Hos; [|done].
    destruct (H1 r Hin Hof Ho) as [_ Hall]. destruct Hne. by rewrite (Hall s Hs Hi Hos), Hkt, Hkn. }
  split; rewrite ?Hid; try done.
  - intros s [->|[Hs _]]%elem_of_upsert_run; [done|by apply Hrs].
  - intros s s' Hs Hs' Hi Hi' He. rewrite !elem_of_upsert_run in *. naive_solver congruence.
  - intros s [->|[Hs _]]%elem_of_upsert_run Hi; [done|by apply Hran].
  - split; rewrite ?Hid, ?Hacc; auto.
    + intros Hs. rewrite Hs in Hst. naive_solver.
    + intros s Hs Hi Hos. by rewrite (Hnone s) in Hos.
    + intros _. exists r'. split; [done|congruence].
Qed.

(** ** A plan *)

Lemma proposes_part b t p :
  proposes b t p → task_part t (bo_plans b) (bo_runs b) →
  task_part t (upsert of_plan p (bo_plans b)) (bo_runs b).
Proof.
  intros [Hpok Hof Hd Hv] [Ht Hps Hpk Hrs Hrk Hran [Hg H1 Ha Hn Hwk]].
  assert (∀ q, q ∈ upsert of_plan p (bo_plans b) ↔ q = p ∨ q ∈ bo_plans b) as Hin.
  { intros q. rewrite elem_of_upsert_plan. split; [tauto|]. intros [->|Hq]; [by left|].
    right. split; [done|]. intros [Hqt Hqv]. rewrite Hof in Hqt. specialize (Hv q Hq Hqt). lia. }
  split; try done.
  - intros q [->|Hq]%Hin; auto.
  - intros q q' [->|Hq]%Hin [->|Hq']%Hin Hi Hi' He; auto.
    + specialize (Hv q' Hq' Hi'). lia.
    + specialize (Hv q Hq Hi). lia.
  - intros r Hr Hi. destruct (Hran r Hr Hi) as (q & Hq & Hrq). exists q. split; [apply Hin; by right|done].
  - split; try done.
    + intros q [->|Hq]%Hin Hi; [|by apply Ha]. rewrite Hd. split; [done|]. intros Hacc.
      destruct (Hn _ Hacc) as (q & Hq & Hqt & Hqv). specialize (Hv q Hq Hqt). lia.
    + intros v Hacc. destruct (Hn v Hacc) as (q & Hq & ?). exists q. split; [apply Hin; by right|done].
Qed.

Lemma redrafts_part b t p p' :
  redrafts b t p p' → task_part t (bo_plans b) (bo_runs b) →
  task_part t (upsert of_plan p' (bo_plans b)) (bo_runs b).
Proof.
  intros [Hpok Hpin Hof [Hkt Hkv]%of_plan_eq Hwas Hst _] [Ht Hps Hpk Hrs Hrk Hran [Hg H1 Ha Hn Hwk]].
  assert (∀ q, q ∈ bo_plans b → pl_state q ≠ PlanDraft → q ∈ upsert of_plan p' (bo_plans b)) as Hold.
  { intros q Hq Hqs. apply elem_of_upsert_plan. right. split; [done|]. intros [Hqt Hqv].
    destruct Hqs. rewrite (Hpk q p); congruence. }
  split; try done.
  - intros q [->|[Hq _]]%elem_of_upsert_plan; auto.
  - intros q q' Hq Hq' Hi Hi' He. rewrite !elem_of_upsert_plan in *. naive_solver congruence.
  - intros r Hr Hi. destruct (Hran r Hr Hi) as (q & Hq & Hrq). exists q. split; [|done]. apply Hold; [done|].
    apply run_ran_eq in Hrq as ([-> | ->] & _); done.
  - split; try done.
    + intros q [->|[Hq _]]%elem_of_upsert_plan Hi; [|by apply Ha]. rewrite Hkv, <- (Ha p Hpin Hof), Hwas.
      split; [|done]. intros Hs. rewrite Hs in Hst. naive_solver.
    + intros v Hacc. destruct (Hn v Hacc) as (q & Hq & Hqt & Hqv). exists q. split; [|done]. apply Hold; [done|].
      assert (pl_state q = PlanAccepted) as -> by (apply Ha; congruence). done.
Qed.

(** The plans of an acceptance: the version accepted, the one it supersedes and
    the rest as they were. *)
Lemma accepts_plans b t t' p at_ actor superseded (part : task_part t (bo_plans b) (bo_runs b)) q :
  accepts b t t' p at_ actor superseded → pl_task q = ta_id t →
  let plan := with_plan_state PlanAccepted (Some (actor, at_)) at_ p in
  q ∈ bo_plans (write_all b (ATask t' :: APlan plan :: (APlan <$> option_list superseded))) ↔
  q = plan ∨ superseded = Some q ∨ q ∈ bo_plans b ∧ pl_version q ≠ pl_version p ∧ pl_state q ≠ PlanAccepted.
Proof.
  intros [_ _ _ _ _ _ _ Hin Hof Hwas _ _ Hbefore _] Hq plan.
  destruct part as [_ _ Hpk _ _ _ [_ _ Ha _ _]].
  assert (∀ v, pl_version q ≠ v ↔ ¬ (pl_task q = ta_id t ∧ pl_version q = v)) as Hnv by tauto.
  destruct superseded as [s|]; simpl in *.
  - destruct Hbefore as (o & [Hot Hoin]%list_elem_of_filter & Hoa & _ & -> & _).
    rewrite !elem_of_upsert_plan. simpl. rewrite Hof, Hot, <- !Hnv. split.
    + intros [->|[[->|[Hqb Hn1]] Hn2]]; auto. right. right. split_and!; [done..|].
      intros Hqa. destruct Hn2. apply (Ha q) in Hqa; [|done..]. apply (Ha o) in Hoa; [|done..]. congruence.
    + intros [->|[[= <-]|(Hqb & Hv & Hs)]].
      * right. split; [by left|]. simpl. intros He. rewrite (Hpk p o) in Hwas; congruence.
      * by left.
      * right. split; [by right|]. intros He. rewrite (Hpk q o) in Hs; congruence.
  - rewrite elem_of_upsert_plan. simpl. rewrite Hof, <- Hnv. split.
    + intros [->|[Hqb Hn]]; [by left|]. right. right. split_and!; [done..|].
      apply Hbefore. by apply list_elem_of_filter.
    + intros [->|[?|(Hqb & Hv & Hs)]]; [by left|done|]. by right.
Qed.

(** The version an acceptance supersedes is the one accepted. *)
Lemma supersedes_Some plans (t : Task) at_ (sup : Plan) :
  supersedes (filter (λ q, pl_task q = ta_id t) plans) at_ (Some sup) →
  ∃ o, o ∈ plans ∧ pl_task o = ta_id t ∧ pl_state o = PlanAccepted
  ∧ sup = with_plan_state PlanSuperseded (pl_accepted o) at_ o ∧ plan_ok sup ∧ (pl_updated o ≤ at_)%N.
Proof. intros (o & [? ?]%list_elem_of_filter & ? & ? & ? & ?). by exists o. Qed.

Lemma accepts_parted b t t' p at_ actor superseded q :
  accepts b t t' p at_ actor superseded → task_part t (bo_plans b) (bo_runs b) →
  q ∈ bo_plans b → pl_task q = ta_id t → pl_state q = PlanAccepted →
  superseded = Some (with_plan_state PlanSuperseded (pl_accepted q) at_ q) ∧ (pl_updated q ≤ at_)%N.
Proof.
  intros [_ _ _ _ _ _ _ _ _ _ _ _ Hbefore _] Hpart Hq Hi Hqa.
  destruct Hpart as [_ _ Hpk _ _ _ [_ _ Ha _ _]].
  destruct superseded as [sup|].
  - apply supersedes_Some in Hbefore as (o & Ho & Hot & Hoa & -> & _ & Hle). rewrite <- (Hpk o q); try done.
    apply Ha in Hqa, Hoa; congruence.
  - simpl in Hbefore. by destruct (Hbefore q); [apply list_elem_of_filter|].
Qed.

(** No version is held twice after it. *)
Lemma accepts_keys b t t' p at_ actor superseded :
  accepts b t t' p at_ actor superseded → task_part t (bo_plans b) (bo_runs b) →
  ∀ sup, superseded = Some sup → pl_version sup ≠ pl_version p ∧
    ∀ q, q ∈ bo_plans b → pl_task q = ta_id t → pl_state q ≠ PlanAccepted → pl_version q ≠ pl_version sup.
Proof.
  intros [_ _ _ _ _ _ _ Hin Hof Hwas _ _ Hbefore _] Hpart sup ->.
  destruct Hpart as [_ _ Hpk _ _ _ _].
  apply supersedes_Some in Hbefore as (o & Ho & Hot & Hoa & -> & _). simpl. split.
  - intros He. rewrite (Hpk o p) in Hoa; congruence.
  - intros q Hq Hi Hqa He. by rewrite (Hpk q o) in Hqa.
Qed.

Lemma accepts_part b t t' p at_ actor superseded :
  accepts b t t' p at_ actor superseded → task_part t (bo_plans b) (bo_runs b) →
  let plan := with_plan_state PlanAccepted (Some (actor, at_)) at_ p in
  task_part t' (bo_plans (write_all b (ATask t' :: APlan plan :: (APlan <$> option_list superseded)))) (bo_runs b).
Proof.
  intros Hacc Hpart plan. pose proof (λ q, accepts_plans b t t' p at_ actor superseded Hpart q Hacc) as Hin.
  pose proof (λ q, accepts_parted b t t' p at_ actor superseded q Hacc Hpart) as Haccd.
  pose proof (accepts_keys b t t' p at_ actor superseded Hacc Hpart) as Hdisj.
  cbv zeta in Hin. fold plan in Hin. revert Hin.
  generalize (bo_plans (write_all b (ATask t' :: APlan plan :: (APlan <$> option_list superseded)))).
  intros plans Hin.
  destruct Hacc as [Hok Hid _ _ Hst Hres Hnow Hpin Hof Hwas Hpok _ Hbefore Hnone].
  destruct Hpart as [Ht Hps Hpk Hrs Hrk Hran [Hg H1 Ha Hn Hwk]].
  split; rewrite ?Hid; try done.
  - intros q Hq Hi. apply (Hin q Hi) in Hq as [->|[->|(Hq & _)]]; [done| |by apply Hps].
    by apply supersedes_Some in Hbefore as (? & ? & ? & ? & ? & ? & _).
  - intros q q' Hq Hq' Hi Hi' He.
    apply (Hin q Hi) in Hq as [->|[Hs|(Hq & Hv & Hs)]]; apply (Hin q' Hi') in Hq' as [->|[Hs'|(Hq' & Hv' & Hs')]];
      try done; try congruence; try by apply Hpk.
    + by destruct (Hdisj q' Hs').
    + by destruct (Hdisj q Hs).
    + destruct (Hdisj q Hs) as [_ Hd]. by destruct (Hd q' Hq' Hi' Hs').
    + destruct (Hdisj q' Hs') as [_ Hd]. by destruct (Hd q Hq Hi Hs).
  - intros r Hr Hi. destruct (Hran r Hr Hi) as (q & Hq & Hrq). pose proof Hrq as (Hqs & Hqt & Hqv & Hqi)%run_ran_eq.
    assert (pl_version q ≠ pl_version p) as Hne.
    { intros He. rewrite (Hpk q p), Hwas in Hqs; [by destruct Hqs|congruence..]. }
    destruct (decide (pl_state q = PlanAccepted)) as [Hqa|Hqa].
    + exists (with_plan_state PlanSuperseded (pl_accepted q) at_ q). split.
      * apply Hin; [simpl; congruence|]. right. left. apply Haccd; congruence.
      * apply run_ran_eq. split_and!; [by right|done..].
    + exists q. split; [|done]. apply Hin; [congruence|]. by right; right.
  - split; rewrite ?Hid, ?Hst, ?Hres, ?Hnow; try done.
    + intros Hs. destruct (Hg Hs) as (r & Hr & Hi & Ho & _). by rewrite (Hnone r) in Ho.
    + intros q Hq Hi. apply (Hin q Hi) in Hq as [->|[->|(Hq & Hv & Hs)]]; [done| |].
      * destruct (Hdisj q eq_refl) as [Hd _].
        apply supersedes_Some in Hbefore as (o & Ho & Hot & Hoa & -> & _). simpl in *. split; [done|]. congruence.
      * split; [done|]. congruence.
    + intros v [= <-]. exists plan. split; [|done]. apply Hin; [done|by left].
Qed.

(** * The invariant *)

(** The tasks of a board beside one of them. *)
Lemma board_ok_others b t :
  board_ok b → t ∈ bo_tasks b → ∀ u, u ∈ bo_tasks b ↔ u = t ∨ u ∈ bo_tasks b ∧ ta_id u ≠ ta_id t.
Proof.
  intros Hb Ht u. split.
  - intros Hu. destruct (decide (ta_id u = ta_id t)); [left|by right]. by eapply bk_ids.
  - by intros [->|[? _]].
Qed.

Lemma upsert_run_others (id : Slug) r l :
  ru_task r = id → ∀ s, ru_task s ≠ id → s ∈ l ↔ s ∈ upsert of_run r l.
Proof. intros Hr s Hs. rewrite elem_of_upsert_run. naive_solver congruence. Qed.

Lemma upsert_plan_others (id : Slug) p l :
  pl_task p = id → ∀ q, pl_task q ≠ id → q ∈ l ↔ q ∈ upsert of_plan p l.
Proof. intros Hr s Hs. rewrite elem_of_upsert_plan. naive_solver congruence. Qed.

Lemma accepts_other_plans b t t' p at_ actor superseded q :
  accepts b t t' p at_ actor superseded → pl_task q ≠ ta_id t →
  let plan := with_plan_state PlanAccepted (Some (actor, at_)) at_ p in
  q ∈ bo_plans b ↔ q ∈ bo_plans (write_all b (ATask t' :: APlan plan :: (APlan <$> option_list superseded))).
Proof.
  intros Hs Hq plan. pose proof (as_of _ _ _ _ _ _ _ Hs) as Hof. pose proof (as_before _ _ _ _ _ _ _ Hs) as Hsup.
  destruct superseded as [sup|]; simpl; [|by apply upsert_plan_others with (id := ta_id t)].
  apply supersedes_Some in Hsup as (o & _ & Hot & _ & -> & _).
  rewrite <- (upsert_plan_others (ta_id t)) by done. by apply upsert_plan_others with (id := ta_id t).
Qed.

Lemma writes_ok b by_ now artifacts :
  board_ok b → writes b by_ now artifacts → board_ok (write_all b artifacts).
Proof.
  intros Hb Hw. pose proof (bk_parts b Hb) as Hparts.
  destruct Hw as [t t' Ht Hs _ Ha|t Hf|t t' r Ht Hs _ Ha|t t' r r' Ht Hs _ Ha|t p Ht Hs|t p p' Ht Hs
    |t t' p at_ actor superseded Ht Hs _ Ha].
  - apply (board_ok_write b _ t'); [done|intros; apply elem_of_upsert_task|done..|]. simpl.
    eapply still_part; [done|]. by apply Hparts.
  - apply (board_ok_write b _ t); [done|intros; apply elem_of_upsert_task|done..|]. simpl. by apply fresh_part.
  - apply (board_ok_write b _ t'); [done|intros; apply elem_of_upsert_task|done|apply upsert_run_others|].
    + by rewrite (be_of _ _ _ _ Hs), (be_id _ _ _ _ Hs).
    + simpl. eapply begins_part; [done|]. by apply Hparts.
  - apply (board_ok_write b _ t'); [done|intros; apply elem_of_upsert_task|done|apply upsert_run_others|].
    + pose proof (en_key _ _ _ _ _ Hs) as [-> _]%of_run_eq.
      by rewrite (en_of _ _ _ _ _ Hs), (en_id _ _ _ _ _ Hs).
    + simpl. eapply ends_part; [done|]. by apply Hparts.
  - apply (board_ok_write b _ t); [done|simpl; by apply board_ok_others|apply upsert_plan_others, Hs|done|].
    simpl. eapply proposes_part; [done|]. by apply Hparts.
  - apply (board_ok_write b _ t); [done|simpl; by apply board_ok_others|apply upsert_plan_others|done|].
    + pose proof (rd_key _ _ _ _ Hs) as [-> _]%of_plan_eq. apply Hs.
    + simpl. eapply redrafts_part; [done|]. by apply Hparts.
  - pose proof (accepts_part _ _ _ _ _ _ _ Hs (Hparts t Ht)) as Hpart.
    apply (board_ok_write b _ t'); [done| | | |].
    + destruct superseded; intros; apply elem_of_upsert_task.
    + intros q Hq. rewrite (as_id _ _ _ _ _ _ _ Hs) in Hq. by eapply accepts_other_plans.
    + by destruct superseded.
    + by destruct superseded.
Qed.

End kept.
