(* ===== verification/BoardSteps.v ===== *)
(** What each use case of the board writes, and that the board keeps its
    invariant. *)

From stdpp Require Import gmap.
From S2P Require Import Prelude BoardText BoardSchema BoardDescription BoardTask BoardArtifacts BoardClaims BoardRuns BoardTransitions BoardPlans BoardChanges BoardView BoardFoldBack BoardUseCases BoardFacts BoardCycles BoardRuleFacts BoardInvariant.

(** * Reading *)

Lemma once_Ok {A} (items : list A) key out : once items key = Ok out → out = items.
Proof. unfold once. intros Ho. destruct (List.find _ _) as [[]|]; [done|]. by injection Ho as ->. Qed.

Lemma board_task_Ok b id t : board_task b id = Ok t → t ∈ bo_tasks b ∧ ta_id t = id.
Proof.
  unfold board_task. intros Hb. inv_ok.
  match goal with H : once _ _ = _ |- _ => apply once_Ok in H; subst end.
  destruct (filter _ _) as [|x [|]] eqn:Hf; simplify_eq.
  assert (t ∈ filter (λ t, ta_id t = id) (bo_tasks b)) as [? ?]%list_elem_of_filter by (rewrite Hf; set_solver).
  done.
Qed.

Lemma sorted_by_elem {A} (number : A → N) l x : x ∈ sorted_by number l ↔ x ∈ l.
Proof. unfold sorted_by. by rewrite merge_sort_Permutation. Qed.

Lemma board_runs_of_Ok b id runs :
  board_runs_of b id = Ok runs → ∀ r, r ∈ runs ↔ r ∈ bo_runs b ∧ ru_task r = id.
Proof.
  unfold board_runs_of. intros Hb r. inv_ok. apply once_Ok in Hb. subst.
  unfold runs_of. rewrite sorted_by_elem, list_elem_of_filter. tauto.
Qed.

Lemma board_plans_of_Ok b id plans :
  board_plans_of b id = Ok plans → ∀ p, p ∈ plans ↔ p ∈ bo_plans b ∧ pl_task p = id.
Proof.
  unfold board_plans_of. intros Hb r. inv_ok. apply once_Ok in Hb. subst.
  unfold plans_of. rewrite sorted_by_elem, list_elem_of_filter. tauto.
Qed.

Section steps.
Context `{Shapes}.

(** No run of the task goes. *)
Definition none_going (b : BoardSnapshot) (t : Task) : Prop :=
  ∀ r, r ∈ bo_runs b → ru_task r = ta_id t → run_is_open r = false.

Lemma open_of_none_going b t runs :
  board_runs_of b (ta_id t) = Ok runs → open_of t runs = Ok None → none_going b t.
Proof.
  intros Hr Ho r Hin Hi. eapply open_of_None; [done|]. by eapply board_runs_of_Ok.
Qed.

Lemma none_going_idle b t : board_ok b → t ∈ bo_tasks b → none_going b t → ta_status t ≠ InProgress.
Proof.
  intros Hb Ht Hn Hs. destruct (tc_going _ _ _ (tp_consistent _ _ _ (bk_parts b Hb t Ht)) Hs) as (r & Hr & Hi & Ho & _).
  by rewrite (Hn r) in Ho.
Qed.

(** * Tasks *)

Lemma redrawn_still t t' : redrawn t t' → still t t'.
Proof. intros [? ? ? ? Hs ? Hr]. split; rewrite ?Hs, ?Hr; done || tauto. Qed.

Lemma quiet_still t t' : quiet t t' → still t t'.
Proof. intros [? _ _]. by apply redrawn_still. Qed.

(** A change that carries the pointers over. *)
Lemma related_carried b t t' :
  ta_depends_on t' = ta_depends_on t → ta_parent t' = ta_parent t →
  (releases_dependents (ta_status t) = true → releases_dependents (ta_status t') = true) →
  (ta_status t = Draft → worked (ta_status t') = false) →
  (worked (ta_status t) = false → worked (ta_status t') = true → dependencies_released (bo_tasks b) t) →
  (ta_status t ≠ Archived → ta_status t' = Archived → no_active_child (bo_tasks b) t) → related b t t'.
Proof. intros Hd Hp. split; try done; left; [done|]. unfold parents. by rewrite Hp. Qed.

Lemma quiet_related b t t' : quiet t t' → related b t t'.
Proof. intros [[_ _ _ _ Hs _ _] ? ?]. apply related_carried; rewrite ?Hs; try done; congruence || by intros ->. Qed.

Lemma moved_related b t t' at_ row :
  carried t t' at_ → transition (ta_status t) (ta_status t') = Some row →
  relations_allow t (ta_status t') (bo_tasks b) = Ok tt → related b t t'.
Proof.
  intros [_ _ _ _ Hdep Hpar] Hrow Hrel. apply related_carried; try done.
  - by destruct (ta_status t), (ta_status t').
  - intros Hs. rewrite Hs in Hrow. by destruct (ta_status t').
  - intros Hw Hw'. apply relations_allow_claimed.
    assert (ta_status t' = Claimed) as <-; [by destruct (ta_status t), (ta_status t')|done].
  - intros _ Hs. rewrite Hs in Hrel. by apply relations_allow_archived.
Qed.

(** A move the table allows leaves no task whose run is going. *)
Lemma move_still b t to reason actor runs changes now t' :
  board_ok b → t ∈ bo_tasks b →
  (holds_moves_to to = true → board_runs_of b (ta_id t) = Ok runs) →
  move_with_reason t to reason actor runs changes (bo_tasks b) now = Ok t' →
  still t t' ∧ related b t t' ∧ may_act t actor now.
Proof.
  intros Hb Ht Hruns Hm. pose proof (tp_task _ _ _ (bk_parts b Hb t Ht)) as Hok.
  apply move_with_reason_Ok in Hm
    as (Hok' & Hca & Hst & Hacc & _ & (who & effect & takes & Hrow) & Hres & Hact & Hopen & Hrel); [|done].
  pose proof Hca as [? ? ? ? ? ?].
  split; [|split; [by eapply moved_related; [done|rewrite Hst..]|done]].
  assert (ta_status t' ≠ InProgress) as Hn'.
  { rewrite Hst. intros ->. by rewrite transition_to_in_progress in Hrow. }
  assert (ta_status t ≠ InProgress) as Hn.
  { intros Hs. rewrite Hs in Hrow. assert (to = Ready) as -> by (by destruct to).
    eapply none_going_idle; [done..| |done]. eapply open_of_none_going; eauto. }
  split; try done; [congruence|]. rewrite Hst. intros [-> | [-> | Hc]].
  - by destruct (ta_status t).
  - by destruct (ta_status t).
  - destruct (Hres Hc) as [-> | ?]; [|tauto]. destruct (ta_status t); try done. by left.
Qed.

Lemma apply_still b actor t op now t' :
  board_ok b → t ∈ bo_tasks b → apply actor t b op now = Ok t' →
  still t t' ∧ related b t t' ∧ may_act t actor now.
Proof.
  intros Hb Ht Ha. pose proof (tp_task _ _ _ (bk_parts b Hb t Ht)) as Hok.
  destruct op; simpl in Ha; unfold rule in Ha; inv_ok.
  - apply renew_quiet in Ha as [? ?]; auto using quiet_still, quiet_related.
  - apply take_over_quiet in Ha as [? ?]; auto using quiet_still, quiet_related.
  - match goal with H : move_reads _ _ _ _ = _ |- _ => unfold move_reads in H end. inv_ok. simpl in *.
    eapply move_still; [done..| |done]. intros Hh. by rewrite Hh in *.
  - apply add_pr_quiet in Ha as (? & ? & _). auto using quiet_still, quiet_related.
  - apply remove_pr_quiet in Ha as [? ?]. auto using quiet_still, quiet_related.
  - apply task_set_outcome_quiet in Ha as [? Hd]; [|done]. split_and!; auto using quiet_still, quiet_related.
    apply unheld_may_act, task_ok_no_claim; [done|]. by rewrite Hd.
Qed.

Lemma change_board_task_writes b actor object_at id op when artifacts :
  board_ok b → change_board_task actor object_at id op b when = Ok artifacts →
  writes b (Some actor) (mo_now when) artifacts.
Proof.
  intros Hb Hc. unfold change_board_task in Hc. inv_ok.
  match goal with H : board_task _ _ = _ |- _ => apply board_task_Ok in H as [? _] end.
  match goal with H : apply _ _ _ _ _ = _ |- _ => apply apply_still in H as (? & ? & ?); [|done..] end.
  by eapply wr_task.
Qed.

Lemma finish_without_run_writes b actor host id reason when artifacts :
  board_ok b → finish_without_run actor host id reason b when = Ok artifacts →
  writes b (Some actor) (mo_now when) artifacts.
Proof.
  intros Hb Hf. unfold finish_without_run, rule in Hf. inv_ok.
  match goal with H : board_task _ _ = Ok ?t |- _ => apply board_task_Ok in H as [Ht Hid]; rename t into t0 end.
  pose proof (tp_task _ _ _ (bk_parts b Hb t0 Ht)) as Hok.
  match goal with |- writes _ _ _ [ATask ?d] => rename d into t' end.
  match goal with H : (if mr_runs _ then _ else Ok []) = Ok ?rs |- _ => rename rs into runs; rename H into Hruns end.
  match goal with H : (if mr_changes _ then _ else Ok []) = Ok ?cs |- _ => rename cs into changes end.
  match goal with H : done_without_run_reads _ _ _ = _ |- _ => unfold done_without_run_reads in H end. inv_ok.
  assert (∃ m, done_without_run t0 (board_text.line reason) actor (mkDoneWork runs changes (bo_tasks b) m)
                 (mo_now when) = Ok t') as (m & Hd).
  { case_decide; inv_ok; eauto. }
  apply done_without_run_Ok in Hd as (? & [? ? ? ? ? ?] & Hst & Hres & ? & Hfrom & ? & Hopen & _ & Hrel & _);
    [|done].
  simpl in *. eapply wr_task; [done| | |done].
  - split; try done; [congruence|..].
    + rewrite Hst. split; [done|]. intros Hs. rewrite Hs in Hfrom. by destruct Hfrom.
    + rewrite Hst, Hres. naive_solver.
  - apply related_carried; rewrite ?Hst; try done.
    + intros Hs. rewrite Hs in Hfrom. by destruct Hfrom.
    + intros _ _. by apply relations_allow_claimed.
Qed.

Lemma complete_merged_task_writes b host id when artifacts :
  board_ok b → complete_merged_task host id b when = Ok artifacts → writes b None (mo_now when) artifacts.
Proof.
  intros Hb Hc. unfold complete_merged_task, rule in Hc. inv_ok.
  match goal with H : board_task _ _ = Ok ?t |- _ => apply board_task_Ok in H as [Ht Hid]; rename t into t0 end.
  match goal with H : complete_merged _ ?m _ _ _ = Ok ?d, _ : merged _ _ = Ok ?m |- _ =>
    apply complete_merged_Ok in H as (Hst & _ & _ & Hf); rename d into completed end.
  apply finish_Ok in Hf as (_ & ? & [? ? ? ? ? ?] & Hst' & Hres & _ & ? & [[-> _]|(r & r' & Hopen & _)]).
  - eapply wr_task; [done| | |done].
    + split; try done; [congruence|by rewrite Hst, Hst'|]. intros _. by left.
    + by apply related_carried; rewrite ?Hst, ?Hst'.
  - exfalso. apply open_of_Some in Hopen as (Hin & Ho & _).
    match goal with H : board_runs_of _ _ = _ |- _ => eapply board_runs_of_Ok in Hin as [? ?]; [|exact H] end.
    destruct (tc_one _ _ _ (tp_consistent _ _ _ (bk_parts b Hb t0 Ht)) r) as [Hs _]; congruence.
Qed.

Lemma board_task_NotFound b id id' :
  board_task b id = Err (ProjectBoardError.NotFound id') → ∀ u, u ∈ bo_tasks b → ta_id u ≠ id.
Proof.
  unfold board_task, clear_of, first_set_aside. intros Hb u Hu Hi.
  destruct (least _ _) as [[[]]|]; simpl in Hb; [done|].
  assert (∀ v, v ∈ filter (λ t, ta_id t = id) (bo_tasks b) → of_task v = KeyTask id) as Hkeys.
  { intros v [Hv _]%list_elem_of_filter. unfold of_task. by rewrite Hv. }
  assert (u ∈ filter (λ t, ta_id t = id) (bo_tasks b)) as Hin by by apply list_elem_of_filter.
  destruct (filter _ _) as [|x [|y l]]; [by apply not_elem_of_nil in Hin|done|].
  unfold once in Hb. simpl in Hb. rewrite (Hkeys x), (Hkeys y) in Hb by set_solver.
  by rewrite bool_decide_true in Hb.
Qed.

(** What a change points at, checked. *)
Lemma pointers_hold_Ok b refs :
  board_ok b → pointers_hold b refs = Ok tt →
  (∀ d, d ∈ po_depends_on refs → d ≠ po_id refs → (∃ u, u ∈ bo_tasks b ∧ ta_id u = d)
     ∧ ¬ tc (avoiding (points_edge ta_depends_on (bo_tasks b)) (po_id refs)) d (po_id refs))
  ∧ (∀ d, po_parent refs = Some d → d ≠ po_id refs → (∃ u, u ∈ bo_tasks b ∧ ta_id u = d)
     ∧ ¬ tc (avoiding (points_edge parents (bo_tasks b)) (po_id refs)) d (po_id refs)).
Proof.
  intros Hb Hp. unfold pointers_hold, cycle_closer in Hp.
  destruct (cycle_closers_spec (bo_tasks b) refs (bk_ids b Hb)) as (closers & Hc & Hiff).
  rewrite Hc in Hp. simpl in Hp. inv_ok. destruct closers as [|closer closers]; [|done].
  destruct (proj1 Hiff eq_refl) as [Hd Hpar].
  match goal with H : each _ _ = _ |- _ => pose proof (each_Ok _ _ _ H) as Hon end.
  assert (∀ d, d ∈ option_list (po_parent refs) ++ po_depends_on refs → d ≠ po_id refs →
            ∃ u, u ∈ bo_tasks b ∧ ta_id u = d) as Hall.
  { intros d Hin Hn. destruct (Hon d) as [i Hi]; [by apply list_elem_of_filter|].
    destruct (board_task b d) as [u|[]|] eqn:Hu; try done. apply board_task_Ok in Hu. eauto. }
  split; intros d Hin Hn; (split; [apply Hall; [|done]|auto]); apply elem_of_app; [by right|left].
  rewrite Hin. apply list_elem_of_here.
Qed.

Lemma free_fresh b n :
  free b n = Ok tt →
  (∀ u, u ∈ bo_tasks b → ta_id u ≠ nt_id n) ∧ (∀ r, r ∈ bo_runs b → ru_task r ≠ nt_id n)
  ∧ (∀ p, p ∈ bo_plans b → pl_task p ≠ nt_id n)
  ∧ pointers_hold b (mkPointers (nt_id n) (nt_parent n) (nt_depends_on n)) = Ok tt.
Proof.
  unfold free. intros Hf. destruct (board_task b (nt_id n)) as [|[]|] eqn:Hb; try done.
  pose proof (board_task_NotFound _ _ _ Hb). inv_ok.
  match goal with H : board_naming _ _ = Ok ?named |- _ => destruct named; [done|]; unfold board_naming in H end.
  inv_ok. match goal with H : least _ ?l = None |- _ => assert (l = []) as Hn by (by destruct l) end.
  apply app_nil in Hn as [Hp%fmap_nil_inv Hn]. apply app_nil in Hn as [Hr%fmap_nil_inv _].
  split_and!; [done|..|done]; intros x Hx Hi.
  - assert (x ∈ runs_of (bo_runs b) (nt_id n)) as Hin by by apply sorted_by_elem, list_elem_of_filter.
    rewrite Hr in Hin. by apply not_elem_of_nil in Hin.
  - assert (x ∈ plans_of (bo_plans b) (nt_id n)) as Hin by by apply sorted_by_elem, list_elem_of_filter.
    rewrite Hp in Hin. by apply not_elem_of_nil in Hin.
Qed.

Lemma Task_entered_fields fields entry t :
  Task_entered fields entry = Ok t →
  task_ok t ∧ ta_id t = ta_id fields ∧ ta_status t = ta_status fields
  ∧ ta_accepted_plan t = ta_accepted_plan fields ∧ ta_resolution t = ta_resolution fields
  ∧ ta_depends_on t = ta_depends_on fields ∧ ta_parent t = ta_parent fields.
Proof.
  unfold Task_entered. intros Ht. inv_ok. apply Task_new_Ok in Ht as (Hok & _ & Heq & _). fields_of Heq.
  match goal with H : Task_new _ = _ |- _ => apply Task_new_Ok in H as (_ & _ & Heq' & _); fields_of Heq' end.
  simpl in *. split_and!; congruence.
Qed.

Lemma create_board_task_writes b actor cell prose n when artifacts :
  board_ok b → create_board_task cell prose n b when = Ok artifacts → writes b (Some actor) (mo_now when) artifacts.
Proof.
  intros Hb Hc. unfold create_board_task in Hc. inv_ok.
  match goal with H : free _ _ = _ |- _ => apply free_fresh in H as (? & ? & ? & Hp) end.
  apply (pointers_hold_Ok b _ Hb) in Hp as [Hd Hpar]. simpl in *.
  match goal with H : Task_entered _ _ = _ |- _ => apply Task_entered_fields in H as (? & Hid & Hst & ? & ? & Hdep & Hpa) end.
  match goal with H : created_at _ _ = _ |- _ => unfold created_at in H end. inv_ok. simpl in *.
  apply wr_new. split; rewrite ?Hid; try done.
  - rewrite Hst. destruct (nt_ready n); auto.
  - intros d. rewrite Hdep, Hid. apply Hd.
  - intros d. rewrite elem_of_parents, Hpa, Hid. apply Hpar.
Qed.

Lemma update_draft_task_writes b actor object_at cell prose u when artifacts :
  board_ok b → update_draft_task object_at cell prose u b when = Ok artifacts →
  writes b (Some actor) (mo_now when) artifacts.
Proof.
  intros Hb Hu. unfold update_draft_task, rule in Hu. inv_ok.
  match goal with H : board_task _ _ = Ok ?t |- _ => apply board_task_Ok in H as [Ht Hid]; rename t into t0 end.
  match goal with H : edit_draft _ _ _ = Ok ?t |- _ => rename t into t';
    apply edit_draft_redrawn in H as (Hre & Hd & Hdep & Hpar) end. simpl in *.
  match goal with H : pointers_hold _ _ = _ |- _ => apply (pointers_hold_Ok b _ Hb) in H as [Hpd Hpp] end. simpl in *.
  pose proof (re_id _ _ Hre) as Hid'. pose proof (re_status _ _ Hre) as Hst.
  eapply wr_task; [done|by apply redrawn_still| |].
  - split; rewrite ?Hst, ?Hd; try done.
    + destruct (du_depends_on u); [right|by left]. intros d. rewrite Hid', Hid. apply Hpd.
    + unfold parents at 1 2. rewrite Hpar. destruct (du_parent u); [right|by left].
      intros d. rewrite Hid', Hid, elem_of_parents. apply Hpp.
  - apply unheld_may_act, task_ok_no_claim; [|by rewrite Hd]. by apply (bk_parts b Hb).
Qed.

(** * Plans *)

Lemma plan_of_version_Some versions v p : plan_of_version versions v = Some p → p ∈ versions ∧ pl_version p = v.
Proof. unfold plan_of_version. by intros [?%list_elem_of_In ?%N.eqb_eq]%List.find_some. Qed.

Lemma entered_items_named items : items_named items → items_named (entered_plan_items items).
Proof. intros Hi. unfold items_named, entered_plan_items. by rewrite list.Forall_fmap. Qed.

Lemma propose_plan_writes b actor pp when artifacts :
  board_ok b → items_named (pp_items pp) → propose_plan actor pp b when = Ok artifacts → writes b (Some actor) (mo_now when) artifacts.
Proof.
  intros Hb Hn Hp. unfold propose_plan, rule in Hp. inv_ok.
  match goal with H : board_task _ _ = Ok ?t |- _ => apply board_task_Ok in H as [Ht Hid]; rename t into t0 end.
  match goal with H : propose_at _ _ _ _ _ = _ |- _ => apply propose_at_Ok in H as (? & ? & ? & Hv & Hitems) end.
  eapply wr_propose; [done|]. split; try done; [|rewrite Hitems; by apply entered_items_named]. intros q Hq Hi. apply Hv.
  match goal with H : board_plans_of _ _ = _ |- _ => eapply (board_plans_of_Ok _ _ _ H) end. by rewrite Hi, Hid.
Qed.

Lemma edit_plan_writes b actor object_at e when artifacts :
  board_ok b → (∀ items, pe_items e = Some items → items_named items) → edit_plan actor object_at e b when = Ok artifacts → writes b (Some actor) (mo_now when) artifacts.
Proof.
  intros Hb Hn Hp. unfold edit_plan, rule in Hp. inv_ok.
  match goal with H : board_task _ _ = Ok ?t |- _ => apply board_task_Ok in H as [Ht Hid]; rename t into t0 end.
  match goal with H : edit_plan_draft _ _ _ _ _ _ _ = _ |- _ =>
    apply edit_plan_draft_Ok in H as (? & ? & ? & ? & Hin & ? & ? & ? & Hitems) end.
  match goal with H : board_plans_of _ _ = _ |- _ => apply (board_plans_of_Ok _ _ _ H) in Hin as [? ?] end.
  eapply wr_redraft; [done|]. split; try done; [congruence|by apply of_plan_eq|by left|].
  rewrite Hitems. intros Hheld. simpl. destruct (pe_items e) as [items|]; [|done]. by apply entered_items_named, Hn.
Qed.

Lemma discard_plan_writes b actor object_at id version expected when artifacts :
  board_ok b → discard_plan actor object_at id version expected b when = Ok artifacts →
  writes b (Some actor) (mo_now when) artifacts.
Proof.
  intros Hb Hp. unfold discard_plan, rule in Hp. inv_ok.
  match goal with H : board_task _ _ = Ok ?t |- _ => apply board_task_Ok in H as [Ht Hid]; rename t into t0 end.
  match goal with H : discard _ _ _ _ _ _ = _ |- _ => apply discard_Ok in H as (? & Heq & Hin & ? & ? & ?) end.
  match goal with H : board_plans_of _ _ = _ |- _ => apply (board_plans_of_Ok _ _ _ H) in Hin as [? ?] end.
  eapply wr_redraft; [done|]. split; try done; [congruence|by rewrite Heq|right; by rewrite Heq|by rewrite Heq].
Qed.

Lemma accept_plan_writes b actor object_at a when artifacts :
  board_ok b → accept_plan actor object_at a b when = Ok artifacts → writes b (Some actor) (mo_now when) artifacts.
Proof.
  intros Hb Hp. unfold accept_plan, rule in Hp. inv_ok.
  match goal with H : board_task _ _ = Ok ?t |- _ => apply board_task_Ok in H as [Ht Hid]; rename t into t0 end.
  match goal with H : board_plans_of _ _ = _ |- _ => pose proof (board_plans_of_Ok _ _ _ H) as Hpl; clear H end.
  match goal with H : board_runs_of _ _ = _ |- _ => rename H into Hru end. rewrite <- Hid in Hru.
  match goal with H : accept _ _ _ _ _ _ _ = Ok ?d |- _ => rename d into a';
    apply accept_Ok in H as (chosen & at_ & Hin & Hv & ? & Hplan & ? & ? & ? & [? ? ? ? ? ?] & ? & ? & Hacc & Hsup & Hopen & Hact & _) end.
  apply Hpl in Hin as [? ?]. unfold accepted_artifacts. rewrite Hplan in *. match goal with H : ta_status (ac_task _) = _ |- _ => rename H into Hst end.
  eapply wr_accept; [done| |apply related_carried; rewrite ?Hst; done || congruence || by intros ->|done].
  split; try done; [congruence|congruence|congruence| |by eapply open_of_none_going].
  destruct (ac_superseded a') as [sup|]; simpl in *.
  - destruct Hsup as (o & [? ?]%Hpl & ?). exists o. split; [|done]. apply list_elem_of_filter. by rewrite Hid.
  - intros p [? ?]%list_elem_of_filter. apply Hsup, Hpl. by rewrite <- Hid.
Qed.

(** * Runs *)

Lemma begin_board_run_writes b actor brief id version when artifacts :
  board_ok b → begin_board_run actor brief id version b when = Ok artifacts →
  writes b (Some actor) (mo_now when) artifacts.
Proof.
  intros Hb Hp. unfold begin_board_run, rule in Hp. inv_ok. case_match; [done|]. inv_ok.
  match goal with H : board_task _ _ = Ok ?t |- _ => apply board_task_Ok in H as [Ht Hid]; rename t into t0 end.
  match goal with H : board_plans_of _ _ = _ |- _ => pose proof (board_plans_of_Ok _ _ _ H) as Hpl; clear H end.
  match goal with H : board_runs_of _ _ = Ok ?rs |- _ => rename rs into runs; rename H into Hru end. rewrite <- Hid in Hru.
  match goal with H : start _ _ _ _ _ _ = Ok ?s |- _ => rename s into st;
    apply start_Ok in H as (? & [Hid' ? ? ? Hdep Hpar] & Hst & ? & ? & Hplan & Hrun & ? & _ & Hdeps & Hfrom); [|by apply (bk_parts b Hb)] end.
  apply begin_run_Ok in Hrun as (Hr & ? & Hopen & ? & ? & ? & _).
  eapply wr_begin; [done| | |done]; last first.
  { assert (ta_status t0 ≠ Draft ∧ ta_status t0 ≠ Done ∧ ta_status t0 ≠ Archived) as (? & ? & ?).
    { by destruct (ta_status t0), Hfrom. }
    apply related_carried; rewrite ?Hst; try done; [by destruct (ta_status t0)|].
    intros Hw _. apply relations_allow_claimed, Hdeps. by destruct (ta_status t0), Hfrom. }
  destruct (ta_accepted_plan t0) as [v|] eqn:Hacc; [|done]. simpl in Hplan.
  apply plan_of_version_Some in Hplan as [[? ?]%Hpl ?].
  split; try done; try (by rewrite Hr); try congruence.
  - exists (sd_plan st). rewrite Hr. simpl. split_and!; congruence.
  - intros s Hs Hi. rewrite Hr. simpl. pose proof (last_number_ge (ru_number <$> runs) (ru_number s)) as Hle.
    specialize (Hle (list_elem_of_fmap_2 _ _ _ (proj2 (board_runs_of_Ok _ _ _ Hru s) (conj Hs Hi)))). lia.
  - eapply open_of_none_going; [done|]. rewrite <- Hopen. unfold open_of, runs_of_task. by rewrite Hid'.
Qed.

Lemma ended_related b t t' at_ :
  carried t t' at_ → ta_status t = InProgress →
  ta_status t' = Ready ∨ ta_status t' = Review ∨ ta_status t' = Blocked → related b t t'.
Proof.
  intros [_ _ _ _ Hdep Hpar] Hs Hs'. apply related_carried; rewrite ?Hs; try done. intros _ Ha. rewrite Ha in Hs'. by destruct Hs' as [|[]].
Qed.

(** The end of a run, whoever records it. *)
Lemma run_end_writes_ok b by_ now t r p outcome cost items at_ r' moved id number runs plans :
  board_ok b → board_task b id = Ok t → board_runs_of b id = Ok runs → board_plans_of b id = Ok plans →
  run_and_plan runs plans number = Ok (r, p) → fold_back r p outcome cost items at_ = Ok r' → acts by_ t now →
  (moved = None → ta_status t ≠ InProgress) →
  (∀ t', moved = Some t' → task_ok t' ∧ carried t t' (now `max` ta_updated t)%N
    ∧ ta_accepted_plan t' = ta_accepted_plan t ∧ ta_resolution t' = None
    ∧ (ta_status t' = Ready ∨ ta_status t' = Review ∨ ta_status t' = Blocked)) →
  writes b by_ now (run_end_writes r' moved).
Proof.
  intros Hb [Ht Hid]%board_task_Ok Hru Hpl Hran Hf Hact Hnone Hsome.
  apply run_and_plan_Ok in Hran as (Hr & _ & Hp & Hv).
  apply (board_runs_of_Ok _ _ _ Hru) in Hr as [Hr Hrt]. apply (board_plans_of_Ok _ _ _ Hpl) in Hp as [Hp Hpt].
  apply fold_back_Ok in Hf as (Ho & Hok & _ & Hran' & Heq).
  destruct (tc_one _ _ _ (tp_consistent _ _ _ (bk_parts b Hb t Ht)) r) as [Hs _]; [done|congruence|done|].
  destruct moved as [t'|]; [|by destruct Hnone].
  destruct (Hsome t' eq_refl) as (? & Hca & ? & ? & ?). pose proof Hca as [? ? ? ? ? ?].
  simpl. apply (wr_end b by_ now t t' r r'); [done| |by eapply ended_related|done].
  split; try done; [congruence|congruence|by rewrite Heq..|by exists p].
Qed.

Lemma fold_back_run_writes b cells id number view ending how when artifacts :
  board_ok b → fold_back_run cells id number view ending how b when = Ok artifacts → writes b None (mo_now when) artifacts.
Proof.
  intros Hb Hp. unfold fold_back_run, rule in Hp. inv_ok.
  match goal with H : run_and_plan _ _ _ = Ok ?x |- _ => destruct x as [r p] end. simpl in *.
  match goal with H : board_task _ _ = Ok ?t |- _ => pose proof (board_task_Ok _ _ _ H) as [Ht Hid]; rename t into t0 end.
  assert (task_ok t0) by by apply (bk_parts b Hb).
  eapply run_end_writes_ok; [done..|by destruct ending| |].
  - intros ->. destruct ending.
    + by eapply task_after_end_None.
    + by eapply task_after_undo_None.
  - intros t' ->. destruct ending.
    + match goal with H : task_after_end _ _ _ _ = _ |- _ => apply task_after_end_Ok in H; [|done] end. naive_solver.
    + match goal with H : task_after_undo _ _ _ _ = _ |- _ => apply task_after_undo_Ok in H; [|done] end. naive_solver.
Qed.

(** What the holder's end of a run, or the end of a lost one, is of. *)
Lemma end_held_fold t ran e reported actor now r' :
  end_held t ran e reported actor now = Ok r' →
  fold_back ran.1 ran.2 (HeldEnd_outcome e) (rp_cost reported) (rp_items reported) (now `max` ta_updated t)%N = Ok r'
  ∧ may_act t actor now
  ∧ (e = HeldSucceeded → undone_items ran.2 (ru_items r') = [] ∧ rp_unpushed reported = 0).
Proof.
  unfold end_held. rewrite stamp_eq. intros He. inv_ok.
  match goal with H : held_live_by _ _ _ = _ |- _ => apply held_live_by_Ok in H as (? & ? & _) end.
  split_and!; [done|by eapply held_may_act|]. intros ->. inv_ok. split_bools.
  match goal with H : (_ =? 0) = true |- _ => apply Nat.eqb_eq in H end. done.
Qed.

Lemma end_lost_fold t ran reported actor now r' :
  end_lost t ran reported actor now = Ok r' →
  fold_back ran.1 ran.2 RunLost (rp_cost reported) (rp_items reported) (now `max` ta_updated t)%N = Ok r'
  ∧ may_act t actor now.
Proof.
  unfold end_lost. rewrite stamp_eq. intros He. inv_ok. split; [done|].
  intros c Hc Hl. rewrite Hc in *. inv_ok.
  match goal with H : held_live_by _ _ _ = _ |- _ => apply held_live_by_Ok in H as (? & ? & _) end. congruence.
Qed.

Lemma end_run_ended_fold b actor object_at cells remote e report how when t r' :
  end_run_ended actor object_at cells remote e report how b when = Ok (t, r') →
  ∃ runs plans r p outcome cost items at_,
  board_task b (re_task e) = Ok t ∧ board_runs_of b (re_task e) = Ok runs ∧ board_plans_of b (re_task e) = Ok plans
  ∧ run_and_plan runs plans (re_run e) = Ok (r, p) ∧ fold_back r p outcome cost items at_ = Ok r'
  ∧ may_act t actor (mo_now when).
Proof.
  unfold end_run_ended, rule. intros He. inv_ok. simplify_eq.
  match goal with H : run_and_plan _ _ _ = Ok ?x |- _ => destruct x as [r p] end. simpl in *.
  assert (∃ outcome cost items at_, fold_back r p outcome cost items at_ = Ok r' ∧ may_act t actor (mo_now when))
    as (outcome & cost & items & at_ & ? & ?); [|by repeat eexists].
  destruct (re_outcome e), report; inv_ok;
    try match goal with H : end_held _ _ _ _ _ _ = Ok r' |- _ => apply end_held_fold in H as (? & ? & _); eauto 10 end;
    match goal with H : end_lost _ _ _ _ _ = Ok r' |- _ => apply end_lost_fold in H as (? & ?); eauto 10 end.
Qed.

Lemma end_run_writes b actor object_at cells remote e ended left how when artifacts :
  board_ok b → end_run actor object_at cells remote e ended left how b when = Ok artifacts →
  writes b (Some actor) (mo_now when) artifacts.
Proof.
  intros Hb Hp. unfold end_run, rule in Hp. inv_ok.
  match goal with H : end_run_ended _ _ _ _ _ _ _ _ _ = Ok ?x |- _ => destruct x as [t r'];
    apply end_run_ended_fold in H as (runs & plans & r & p & outcome & cost & items & at_ & Ht & Hru & Hpl & Hran & Hf & Ha) end.
  simpl in *. pose proof (board_task_Ok _ _ _ Ht) as [Hin _].
  assert (task_ok t) by by apply (bk_parts b Hb).
  eapply run_end_writes_ok; [done..| |].
  - intros ->. by eapply task_after_end_None.
  - intros t' ->. match goal with H : task_after_end _ _ _ _ = _ |- _ => apply task_after_end_Ok in H; [|done] end.
    naive_solver.
Qed.

(** * The invariant *)

Lemma user_change_writes b actor change when artifacts :
  board_ok b → user_change actor change → change b when = Ok artifacts →
  writes b (Some actor) (mo_now when) artifacts.
Proof.
  intros Hb Hu Hc. destruct Hu.
  - by eapply change_board_task_writes.
  - by eapply finish_without_run_writes.
  - by eapply create_board_task_writes.
  - by eapply update_draft_task_writes.
  - by eapply propose_plan_writes.
  - by eapply edit_plan_writes.
  - by eapply accept_plan_writes.
  - by eapply discard_plan_writes.
  - by eapply begin_board_run_writes.
  - by eapply end_run_writes.
Qed.

Lemma system_change_writes b change when artifacts :
  board_ok b → system_change change → change b when = Ok artifacts → writes b None (mo_now when) artifacts.
Proof.
  intros Hb Hu Hc. destruct Hu; [by eapply complete_merged_task_writes|by eapply fold_back_run_writes].
Qed.

Lemma board_change_writes b change when artifacts :
  board_ok b → board_change change → change b when = Ok artifacts →
  ∃ by_, writes b by_ (mo_now when) artifacts.
Proof.
  intros Hb [Hs|[actor Hu]] Hc; eexists; [by eapply system_change_writes|by eapply user_change_writes].
Qed.

Lemma empty_board_ok head : board_ok (empty_board head).
Proof. split; simpl; intros ? ?; set_solver. Qed.

Lemma board_step_ok b b' : board_ok b → board_step b b' → board_ok b'.
Proof.
  intros Hb Hstep. destruct Hstep as [change b when artifacts Hc He|b head quarantined].
  - destruct (board_change_writes b change when artifacts Hb Hc He) as [by_ Hw]. by eapply writes_ok.
  - destruct Hb. by split.
Qed.

Lemma board_reachable_ok b : board_reachable b → board_ok b.
Proof.
  intros [head Hr]. pose proof (empty_board_ok head) as Hb. induction Hr; eauto using board_step_ok.
Qed.

End steps.
