(* ===== verification/BoardHistory.v ===== *)
(** What a change of the board leaves as it was: its history, the tasks others
    hold and the order of dependencies. *)

From stdpp Require Import gmap.
From S2P Require Import Prelude BoardText BoardSchema BoardDescription BoardTask BoardArtifacts BoardClaims BoardRuns BoardTransitions BoardPlans BoardChanges BoardView BoardScrub BoardFoldBack BoardUseCases BoardFacts BoardCycles BoardRuleFacts BoardInvariant BoardSteps.

(** * The history of a board *)

(** A plan as it is held later: a draft may change, an accepted version may only be
    superseded, and nothing else of it changes. *)
Definition plan_kept (p p' : Plan) : Prop :=
  match pl_state p with
  | PlanDraft => True
  | PlanAccepted => p' = p ∨ ∃ at_, p' = with_plan_state PlanSuperseded (pl_accepted p) at_ p ∧ (pl_updated p ≤ at_)%N
  | PlanSuperseded | PlanDiscarded => p' = p
  end.

(** A run as it is held later: once it has ended, as it ended. *)
Definition run_kept (r r' : Run) : Prop :=
  ru_plan_version r' = ru_plan_version r ∧ ru_started r' = ru_started r ∧ (run_is_open r = false → r' = r).

Definition task_kept (t t' : Task) : Prop :=
  ta_created t' = ta_created t ∧ (ta_updated t ≤ ta_updated t')%N
  ∧ (releases_dependents (ta_status t) = true → releases_dependents (ta_status t') = true).

(** [b'] holds every artifact of [b], each as it may be held later. *)
Record later (b b' : BoardSnapshot) : Prop := {
  la_tasks : ∀ t, t ∈ bo_tasks b → ∃ t', t' ∈ bo_tasks b' ∧ ta_id t' = ta_id t ∧ task_kept t t';
  la_plans : ∀ p, p ∈ bo_plans b → ∃ p', p' ∈ bo_plans b' ∧ of_plan p' = of_plan p ∧ plan_kept p p';
  la_runs : ∀ r, r ∈ bo_runs b → ∃ r', r' ∈ bo_runs b' ∧ of_run r' = of_run r ∧ run_kept r r';
}.

Lemma task_kept_refl t : task_kept t t.
Proof. by repeat split. Qed.
Lemma task_kept_trans t t' t'' : task_kept t t' → task_kept t' t'' → task_kept t t''.
Proof. intros (? & ? & ?) (? & ? & ?). split_and!; [congruence|lia|auto]. Qed.
Lemma plan_kept_refl p : plan_kept p p.
Proof. unfold plan_kept. destruct (pl_state p); auto. Qed.
Lemma plan_kept_trans p p' p'' : plan_kept p p' → plan_kept p' p'' → plan_kept p p''.
Proof.
  unfold plan_kept. destruct (pl_state p) eqn:Hs; try done.
  - intros [->|(at_ & -> & ?)]; [by rewrite Hs|]. simpl. intros ->. right. eauto.
  - intros ->. by rewrite Hs.
  - intros ->. by rewrite Hs.
Qed.
Lemma run_kept_refl r : run_kept r r.
Proof. by repeat split. Qed.
Lemma run_kept_trans r r' r'' : run_kept r r' → run_kept r' r'' → run_kept r r''.
Proof.
  intros (? & ? & He) (? & ? & He'). split_and!; [congruence..|]. intros Ho. specialize (He Ho). subst. auto.
Qed.

#[export] Instance later_preorder : PreOrder later.
Proof.
  split.
  - intros b. split; intros x Hx; exists x; auto using task_kept_refl, plan_kept_refl, run_kept_refl.
  - intros b b' b'' [Ht Hp Hr] [Ht' Hp' Hr']. split.
    + intros t (t' & Hin & Hi & Hk)%Ht. destruct (Ht' t' Hin) as (t'' & ? & ? & ?).
      exists t''. split_and!; [done|congruence|by eapply task_kept_trans].
    + intros t (t' & Hin & Hi & Hk)%Hp. destruct (Hp' t' Hin) as (t'' & ? & ? & ?).
      exists t''. split_and!; [done|congruence|by eapply plan_kept_trans].
    + intros t (t' & Hin & Hi & Hk)%Hr. destruct (Hr' t' Hin) as (t'' & ? & ? & ?).
      exists t''. split_and!; [done|congruence|by eapply run_kept_trans].
Qed.

Section history.
Context `{Shapes}.

(** ** What a write does to the tasks, the runs and the plans *)

(** A task changed in its place. *)
Definition task_changed (b : BoardSnapshot) (by_ : option Identity) (now : Timestamp) (t t' : Task) : Prop :=
  t ∈ bo_tasks b ∧ ta_id t' = ta_id t ∧ ta_created t' = ta_created t ∧ (ta_updated t ≤ ta_updated t')%N
  ∧ related b t t' ∧ acts by_ t now.

Lemma writes_tasks b by_ now artifacts :
  writes b by_ now artifacts →
  bo_tasks (write_all b artifacts) = bo_tasks b
  ∨ (∃ t, fresh_task b t ∧ bo_tasks (write_all b artifacts) = upsert of_task t (bo_tasks b))
  ∨ ∃ t t', task_changed b by_ now t t' ∧ bo_tasks (write_all b artifacts) = upsert of_task t' (bo_tasks b).
Proof.
  intros Hw. destruct Hw as [t t' Ht Hs Hrel Ha|t Hf|t t' r Ht Hs Hrel Ha|t t' r r' Ht Hs Hrel Ha|t p Ht Hs|t p p' Ht Hs
    |t t' p at_ actor superseded Ht Hs Hrel Ha].
  - right; right. exists t, t'. by destruct Hs.
  - right; left. by exists t.
  - right; right. exists t, t'. by destruct Hs.
  - right; right. exists t, t'. by destruct Hs.
  - by left.
  - by left.
  - right; right. exists t, t'. split; [by destruct Hs|by destruct superseded].
Qed.

Lemma writes_runs b by_ now artifacts :
  writes b by_ now artifacts →
  bo_runs (write_all b artifacts) = bo_runs b
  ∨ ∃ t t' r', t ∈ bo_tasks b ∧ acts by_ t now ∧ ru_task r' = ta_id t
    ∧ bo_runs (write_all b artifacts) = upsert of_run r' (bo_runs b)
    ∧ (begins b t t' r' ∨ ∃ r, ends b t t' r r').
Proof.
  intros Hw. destruct Hw as [| |t t' r Ht Hs Hrel Ha|t t' r r' Ht Hs Hrel Ha| | |t t' p at_ actor superseded Ht Hs Hrel Ha];
    try by left.
  - right. exists t, t', r. split_and!; [done..|apply Hs|done|by left].
  - right. exists t, t', r'. split_and!; [done..| |done|eauto].
    pose proof (en_key _ _ _ _ _ Hs) as [-> _]%of_run_eq. apply Hs.
  - left. by destruct superseded.
Qed.

(** ** The history is kept *)

Lemma task_changed_kept b by_ now t t' : task_changed b by_ now t t' → task_kept t t'.
Proof. intros (_ & _ & ? & ? & [_ ? _ _ _ _ _] & _). done. Qed.

Lemma upsert_task_later b t t' :
  board_ok b → t ∈ bo_tasks b → ta_id t' = ta_id t → task_kept t t' →
  ∀ u, u ∈ bo_tasks b → ∃ u', u' ∈ upsert of_task t' (bo_tasks b) ∧ ta_id u' = ta_id u ∧ task_kept u u'.
Proof.
  intros Hb Ht Hid Hk u Hu. destruct (decide (ta_id u = ta_id t)) as [He|Hn].
  - exists t'. rewrite (bk_ids b Hb u t) by done. split_and!; [|done..]. apply elem_of_upsert_task. by left.
  - exists u. split_and!; [|done|apply task_kept_refl]. apply elem_of_upsert_task. right. by rewrite Hid.
Qed.

Lemma upsert_run_later b r' :
  (∀ r, r ∈ bo_runs b → of_run r' = of_run r → run_kept r r') →
  ∀ r, r ∈ bo_runs b → ∃ s, s ∈ upsert of_run r' (bo_runs b) ∧ of_run s = of_run r ∧ run_kept r s.
Proof.
  intros Hk r Hr. destruct (decide (of_run r' = of_run r)) as [He|Hn].
  - exists r'. split_and!; [|done|by apply Hk]. apply elem_of_upsert. by left.
  - exists r. split_and!; [|done|apply run_kept_refl]. apply elem_of_upsert. by right.
Qed.

Lemma upsert_plan_later (plans : list Plan) p' :
  (∀ p, p ∈ plans → of_plan p' = of_plan p → plan_kept p p') →
  ∀ p, p ∈ plans → ∃ q, q ∈ upsert of_plan p' plans ∧ of_plan q = of_plan p ∧ plan_kept p q.
Proof.
  intros Hk p Hp. destruct (decide (of_plan p' = of_plan p)) as [He|Hn].
  - exists p'. split_and!; [|done|by apply Hk]. apply elem_of_upsert. by left.
  - exists p. split_and!; [|done|apply plan_kept_refl]. apply elem_of_upsert. by right.
Qed.

(** Two artifacts of one key on a board are one. *)
Lemma board_ok_run_key b r r' : board_ok b → r ∈ bo_runs b → r' ∈ bo_runs b → of_run r = of_run r' → r = r'.
Proof.
  intros Hb Hr Hr' [Ht Hn]%of_run_eq. destruct (bk_runs b Hb r Hr) as (t & Htin & Hti).
  apply (tp_run_keys _ _ _ (bk_parts b Hb t Htin)); congruence.
Qed.

Lemma board_ok_plan_key b p p' : board_ok b → p ∈ bo_plans b → p' ∈ bo_plans b → of_plan p = of_plan p' → p = p'.
Proof.
  intros Hb Hr Hr' [Ht Hn]%of_plan_eq. destruct (bk_plans b Hb p Hr) as (t & Htin & Hti).
  apply (tp_plan_keys _ _ _ (bk_parts b Hb t Htin)); congruence.
Qed.

Lemma writes_later_tasks b by_ now artifacts :
  board_ok b → writes b by_ now artifacts →
  ∀ t, t ∈ bo_tasks b → ∃ t', t' ∈ bo_tasks (write_all b artifacts) ∧ ta_id t' = ta_id t ∧ task_kept t t'.
Proof.
  intros Hb Hw u Hu. destruct (writes_tasks _ _ _ _ Hw) as [->|[(t & Hf & ->)|(t & t' & Hc & ->)]].
  - exists u. auto using task_kept_refl.
  - exists u. split_and!; [|done|apply task_kept_refl]. apply elem_of_upsert_task. right. split; [done|].
    by apply (ft_new _ _ Hf).
  - pose proof Hc as (Ht & Hid & _). eapply upsert_task_later; [done|exact Ht|done|by eapply task_changed_kept|done].
Qed.

Lemma writes_later_runs b by_ now artifacts :
  board_ok b → writes b by_ now artifacts →
  ∀ r, r ∈ bo_runs b → ∃ r', r' ∈ bo_runs (write_all b artifacts) ∧ of_run r' = of_run r ∧ run_kept r r'.
Proof.
  intros Hb Hw. destruct (writes_runs _ _ _ _ Hw) as [->|(t & t' & r' & Ht & _ & Hi & -> & Hr)].
  - intros r Hr. exists r. auto using run_kept_refl.
  - apply upsert_run_later. intros s Hs [Hkt Hkn]%of_run_eq. destruct Hr as [Hbe|[r Hen]].
    + pose proof (be_number _ _ _ _ Hbe s Hs) as Hlt. rewrite <- Hkt in Hlt. specialize (Hlt Hi). lia.
    + assert (s = r) as ->.
      { apply (board_ok_run_key b); [done..|apply Hen|]. rewrite <- (en_key _ _ _ _ _ Hen). by apply of_run_eq. }
      split_and!; [apply Hen..|]. intros Ho. by rewrite (en_open _ _ _ _ _ Hen) in Ho.
Qed.

Lemma writes_later_plans b by_ now artifacts :
  board_ok b → writes b by_ now artifacts →
  ∀ p, p ∈ bo_plans b → ∃ p', p' ∈ bo_plans (write_all b artifacts) ∧ of_plan p' = of_plan p ∧ plan_kept p p'.
Proof.
  intros Hb Hw.
  destruct Hw as [| | | |t p' Ht Hs|t o p' Ht Hs|t t' o at_ actor superseded Ht Hs Hrel Ha];
    try (intros p Hp; exists p; by auto using plan_kept_refl).
  - apply upsert_plan_later. intros p Hp [Hkt Hkv]%of_plan_eq.
    pose proof (pr_version _ _ _ Hs p Hp) as Hlt. rewrite <- Hkt in Hlt. specialize (Hlt (pr_of _ _ _ Hs)). lia.
  - apply upsert_plan_later. intros p Hp Hk. unfold plan_kept. rewrite (board_ok_plan_key b p o); try done.
    + by rewrite (rd_was _ _ _ _ Hs).
    + apply Hs.
    + by rewrite <- Hk, (rd_key _ _ _ _ Hs).
  - intros p Hp. pose proof (bk_parts b Hb t Ht) as Hpart.
    destruct (decide (pl_task p = ta_id t)) as [Hi|Hi]; last first.
    { exists p. split_and!; [by apply (accepts_other_plans b t t' o at_ actor superseded p Hs Hi)|done|apply plan_kept_refl]. }
    pose proof (λ q, accepts_plans b t t' o at_ actor superseded Hpart q Hs) as Hin. cbv zeta in Hin.
    destruct (decide (pl_version p = pl_version o)) as [Hv|Hv].
    + assert (p = o) as -> by (apply (tp_plan_keys _ _ _ Hpart); try done; apply Hs).
      eexists. split; [apply Hin; [|by left]; done|]. split; [done|]. unfold plan_kept. by rewrite (as_was _ _ _ _ _ _ _ Hs).
    + destruct (decide (pl_state p = PlanAccepted)) as [Hacc|Hacc].
      * destruct (accepts_parted b t t' o at_ actor superseded p Hs Hpart Hp Hi Hacc) as [-> Hle].
        eexists. split; [apply Hin; [|by right; left]; done|]. split; [done|]. unfold plan_kept. rewrite Hacc. eauto.
      * exists p. split_and!; [|done|apply plan_kept_refl]. apply Hin; [done|]. by right; right.
Qed.

Lemma step_later b b' : board_ok b → board_step b b' → later b b'.
Proof.
  intros Hb Hstep. destruct Hstep as [change b when artifacts Hc He|b head quarantined].
  - destruct (board_change_writes b change when artifacts Hb Hc He) as [by_ Hw].
    split; [by eapply writes_later_tasks|by eapply writes_later_plans|by eapply writes_later_runs].
  - split; intros x Hx; exists x; auto using task_kept_refl, plan_kept_refl, run_kept_refl.
Qed.

Lemma steps_later b b' : board_ok b → rtc board_step b b' → later b b'.
Proof.
  intros Hb Hr. induction Hr as [|b b' b'' Hs _ IH]; [done|].
  etrans; [by apply step_later|]. apply IH. by eapply board_step_ok.
Qed.

(** * Claims others hold *)

Lemma live_claim_kept b actor change when artifacts t c :
  board_ok b → user_change actor change → change b when = Ok artifacts →
  t ∈ bo_tasks b → ta_claim t = Some c → is_live c (mo_now when) = true →
  same_committer (cl_holder c) actor = false →
  t ∈ bo_tasks (write_all b artifacts)
  ∧ ∀ r, ru_task r = ta_id t → r ∈ bo_runs (write_all b artifacts) ↔ r ∈ bo_runs b.
Proof.
  intros Hb Hu Hc Ht Hcl Hlive Hother. pose proof (user_change_writes b actor change when artifacts Hb Hu Hc) as Hw.
  assert (∀ u, u ∈ bo_tasks b → acts (Some actor) u (mo_now when) → ta_id u ≠ ta_id t) as Hne.
  { intros u Hu' Ha Hi. rewrite (bk_ids b Hb u t) in Ha by done. by rewrite (Ha c Hcl Hlive) in Hother. }
  split.
  - destruct (writes_tasks _ _ _ _ Hw) as [->|[(u & Hf & ->)|(u & u' & Hch & ->)]]; [done|..];
      apply elem_of_upsert_task; right; split; try done.
    + by apply (ft_new _ _ Hf).
    + destruct Hch as (Hu' & -> & _ & _ & _ & Ha). intros He. by apply (Hne u).
  - intros r Hi. destruct (writes_runs _ _ _ _ Hw) as [->|(u & u' & r' & Hu' & Ha & Hr' & -> & _)]; [done|].
    rewrite elem_of_upsert_run. split; [|intros Hr; right; split; [done|]].
    + intros [->|[? _]]; [|done]. destruct (Hne u Hu' Ha); congruence.
    + intros [He _]. destruct (Hne u Hu' Ha); congruence.
Qed.

(** * Dependencies *)

(** Work on a task begins once what it depends on is finished, and stays so. *)
Definition work_released (b : BoardSnapshot) : Prop :=
  ∀ t, t ∈ bo_tasks b → worked (ta_status t) = true → dependencies_released (bo_tasks b) t.

Lemma dependencies_released_later b b' t :
  later b b' → dependencies_released (bo_tasks b) t → dependencies_released (bo_tasks b') t.
Proof.
  intros Hl Hd d (u & Hu & Hi & Hr)%Hd. destruct (la_tasks _ _ Hl u Hu) as (u' & Hu' & Hi' & _ & _ & Hk).
  exists u'. split_and!; [done|congruence|auto].
Qed.

Lemma writes_released b b' by_ now artifacts :
  writes b by_ now artifacts → later b b' → bo_tasks b' = bo_tasks (write_all b artifacts) →
  work_released b → work_released b'.
Proof.
  intros Hw Hl Heq Hd t. rewrite Heq. intros Hin Hwk.
  assert (∀ u, dependencies_released (bo_tasks b) u → dependencies_released (bo_tasks b') u) as Hlater
    by (intros u; by apply dependencies_released_later).
  rewrite <- Heq.
  destruct (writes_tasks _ _ _ _ Hw) as [He|[(u & Hf & He)|(u & u' & Hch & He)]]; rewrite He in Hin.
  - by apply Hlater, Hd.
  - apply elem_of_upsert_task in Hin as [->|[Hin _]]; [|by apply Hlater, Hd].
    by destruct (ft_status _ _ Hf) as [Hs|Hs]; rewrite Hs in Hwk.
  - apply elem_of_upsert_task in Hin as [->|[Hin _]]; [|by apply Hlater, Hd].
    destruct Hch as (Hu & _ & _ & _ & [Hdep _ Hdr Hbeg _ _ _] & _).
    assert (ta_status u ≠ Draft) as Hn by (intros Hs; by rewrite Hdr in Hwk).
    unfold dependencies_released. rewrite (Hdep Hn). apply (Hlater u).
    destruct (worked (ta_status u)) eqn:Hwu; [by apply Hd|by apply Hbeg].
Qed.

Lemma step_released b b' : board_ok b → work_released b → board_step b b' → work_released b'.
Proof.
  intros Hb Hd Hstep. pose proof (step_later b b' Hb Hstep) as Hl.
  destruct Hstep as [change b when artifacts Hc He|b head quarantined]; [|done].
  destruct (board_change_writes b change when artifacts Hb Hc He) as [by_ Hw]. by eapply writes_released.
Qed.

Lemma reachable_released b : board_reachable b → work_released b.
Proof.
  intros [head Hr]. pose proof (empty_board_ok head) as Hb.
  assert (work_released (empty_board head)) as Hd by (intros t Ht; by apply not_elem_of_nil in Ht).
  induction Hr; eauto using board_step_ok, step_released.
Qed.

(** * Pointers *)

Lemma task_ok_points t : task_ok t → ta_id t ∉ ta_depends_on t ∧ ta_id t ∉ parents t.
Proof. intros [? ?]%task_ok_not_own. split; [done|]. by rewrite elem_of_parents. Qed.

Definition board_pointers (b : BoardSnapshot) : Prop :=
  pointers_ok ta_depends_on (bo_tasks b) ∧ pointers_ok parents (bo_tasks b).

Lemma writes_pointers b by_ now artifacts :
  board_ok b → writes b by_ now artifacts → board_pointers b → board_pointers (write_all b artifacts).
Proof.
  intros Hb Hw [Hd Hp]. pose proof (bk_parts _ (writes_ok b by_ now artifacts Hb Hw)) as Hok.
  unfold board_pointers in *.
  destruct (writes_tasks _ _ _ _ Hw) as [He|[(t & Hf & He)|(t & t' & Hch & He)]]; rewrite He in *; [done|..].
  - destruct (task_ok_points t) as [Hsd Hsp]; [apply Hf|].
    split; (eapply pointers_ok_write; [done|apply elem_of_upsert_task|done|right; apply Hf]).
  - destruct (task_ok_points t') as [Hsd Hsp].
    { apply (tp_task _ _ _ (Hok t' (proj2 (elem_of_upsert_task _ _ _) (or_introl eq_refl)))). }
    destruct Hch as (Ht & Hid & _ & _ & [_ _ _ _ Hpd Hpp _] & _).
    split; (eapply pointers_ok_write; [done|apply elem_of_upsert_task|done|]).
    + destruct Hpd; [left; by exists t|by right].
    + destruct Hpp; [left; by exists t|by right].
Qed.

Lemma reachable_pointers b : board_reachable b → board_pointers b.
Proof.
  intros [head Hr]. pose proof (empty_board_ok head) as Hb.
  assert (board_pointers (empty_board head)) as Hp.
  { split; (split; [intros t d Ht; by apply not_elem_of_nil in Ht|]); intros x Hx;
      destruct (tc_first _ _ _ Hx) as (y & (t & Ht & _) & _); by apply not_elem_of_nil in Ht. }
  induction Hr as [|b b' b'' Hs _ IH]; [done|]. apply IH; [by eapply board_step_ok|].
  destruct Hs as [change b when artifacts Hc He|b head' quarantined]; [|done].
  destruct (board_change_writes b change when artifacts Hb Hc He) as [by_ Hw]. by eapply writes_pointers.
Qed.

(** * Names *)

(** The items of every plan are named by ids. *)
Definition board_named (b : BoardSnapshot) : Prop := ∀ p, p ∈ bo_plans b → items_named (pl_items p).

Lemma writes_named b by_ now artifacts :
  writes b by_ now artifacts → board_named b → board_named (write_all b artifacts).
Proof.
  intros Hw Hn. destruct Hw as [| | | |t p' Ht Hs|t o p' Ht Hs|t t' o at_ actor superseded Ht Hs Hrel Ha];
    try exact Hn; intros p Hp; simpl in Hp.
  - apply elem_of_upsert_plan in Hp as [->|[Hp _]]; [apply (pr_named _ _ _ Hs)|by apply Hn].
  - apply elem_of_upsert_plan in Hp as [->|[Hp _]]; [|by apply Hn].
    apply (rd_named _ _ _ _ Hs), Hn, (rd_in _ _ _ _ Hs).
  - assert (∀ q, q ∈ upsert of_plan (with_plan_state PlanAccepted (Some (actor, at_)) at_ o) (bo_plans b) →
      items_named (pl_items q)) as Hacc.
    { intros q [->|[Hq _]]%elem_of_upsert_plan; [|by apply Hn]. exact (Hn o (as_in _ _ _ _ _ _ _ Hs)). }
    destruct superseded as [sup|]; simpl in Hp; [|by apply Hacc].
    apply elem_of_upsert_plan in Hp as [->|[Hp _]]; [|by apply Hacc].
    pose proof (as_before _ _ _ _ _ _ _ Hs) as (q & Hq & _ & _ & -> & _)%supersedes_Some. by apply (Hn q).
Qed.

Lemma board_step_named b b' : board_ok b → board_step b b' → board_named b → board_named b'.
Proof.
  intros Hb Hs Hn. destruct Hs as [change b when artifacts Hc He|b head quarantined]; [|done].
  destruct (board_change_writes b change when artifacts Hb Hc He) as [by_ Hw]. by eapply writes_named.
Qed.

Lemma reachable_named b : board_reachable b → board_named b.
Proof.
  intros [head Hr]. pose proof (empty_board_ok head) as Hb.
  assert (board_named (empty_board head)) as Hn by by intros p ?%not_elem_of_nil.
  induction Hr; eauto using board_step_ok, board_step_named.
Qed.

End history.
