(* ===== verification/BoardCommit.v ===== *)
(** How every board change is made: read, build, and write only what is built on
    the board it replaces.

    Models [application/project_board/use_cases/board_change.rs]: [checked_now],
    [Writes], [one_tasks_change], [shaped] and [retried].  The store
    ([ports.rs, ProjectBoardStore]) is an interface with the laws its port
    documents; pauses and telemetry are not modelled. *)

From stdpp Require Import gmap.
From S2P Require Import Prelude BoardText BoardSchema BoardDescription BoardTask BoardArtifacts BoardClaims BoardRuns BoardTransitions BoardPlans BoardChanges BoardView BoardScrub BoardFoldBack BoardUseCases BoardFacts BoardCycles BoardRuleFacts BoardInvariant BoardSteps.

Import ProjectBoardError.

Definition MAX_WRITE_ATTEMPTS : nat := 3.

(** * The time of a change *)

(** [now] and [reference] are what the clock reads. *)
Definition checked_now (now : res BoardError Timestamp) (reference : option Timestamp)
    : res BoardError Moment :=
  let? now := now in
  match reference with
  | None => Ok (mkMoment now None)
  | Some reference =>
      let? latest := map_err (λ _, ClockOutOfRange reference) (plus_seconds reference CLOCK_AHEAD_SECONDS) in
      if (now <=? latest)%N then Ok (mkMoment now (Some latest)) else Err (ClockAhead now reference)
  end.

(** * The shape of a change *)

Definition task_of (a : BoardArtifact) : option Slug :=
  match a with
  | APlan p => Some (pl_task p)
  | ARun r => Some (ru_task r)
  | AChange c => Some (ch_task c)
  | AReview r => Some (rv_task r)
  | ATask _ | ADiscussion _ => None
  end.

Definition one_tasks_change (artifacts : list BoardArtifact) : bool :=
  match artifacts with
  | [] => false
  | first :: rest =>
      match match first with ATask t => Some (ta_id t) | _ => task_of first end with
      | Some task => forallb (λ other, bool_decide (task_of other = Some task)) rest
      | None => false
      end
  end.

Inductive Writes := OneTask | TaskIfChanged | OneRun.

Definition writes_holds (w : Writes) (artifacts : list BoardArtifact) : bool :=
  match w, artifacts with
  | OneTask, _ => one_tasks_change artifacts
  | TaskIfChanged, [ATask _] => true
  | TaskIfChanged, _ => false
  | OneRun, [ARun _] => true
  | OneRun, [ATask t; ARun r] => text_eqb (ta_id t) (ru_task r)
  | OneRun, _ => false
  end.

(** * The store *)

Inductive BoardWrite := Written (head : BoardHead) | Lost | WriteRefused.

(** The board [b] once [artifacts] are written under [head]; the files set aside are
    the store's to tell. *)
Definition moved_to (b : BoardSnapshot) (artifacts : list BoardArtifact) (head : BoardHead)
    (quarantined : list QuarantinedFile) : BoardSnapshot :=
  let w := write_all b artifacts in
  mkBoard head (bo_tasks w) (bo_plans w) (bo_runs w) (bo_changes w) (bo_reviews w) (bo_discussions w) quarantined.

(** A store of states [St]: its operations, the board each state holds, and what
    other writers do between two of its operations. *)
Class BoardStore (St : Type) := {
  store_read : St → res BoardError BoardSnapshot * St;
  store_write : BoardHead → list BoardArtifact → St → res BoardError BoardWrite * St;
  board_of : St → BoardSnapshot;
  others : St → St → Prop;
}.

(** What its port documents. *)
Class BoardStoreLaws (St : Type) `{BoardStore St} := {
  others_order :: PreOrder others;
  (** A head names one board. *)
  head_names st st' : others st st' → bo_head (board_of st) = bo_head (board_of st') → board_of st = board_of st';
  read_board st b st' : store_read st = (Ok b, st') → others st st' ∧ board_of st' = b;
  read_failed st m st' : store_read st = (m, st') → others st st';
  (** The board moved from [expected] to the new head, and holds the write. *)
  write_written st expected artifacts head st' :
    store_write expected artifacts st = (Ok (Written head), st') →
    head ≠ expected ∧ ∃ mid q, others st mid ∧ bo_head (board_of mid) = expected
    ∧ board_of st' = moved_to (board_of mid) artifacts head q;
  (** It does not hold it. *)
  write_lost st expected artifacts st' : store_write expected artifacts st = (Ok Lost, st') → others st st';
  write_refused st expected artifacts st' :
    store_write expected artifacts st = (Ok WriteRefused, st') → others st st';
  (** A store that failed may hold the write. *)
  write_failed st expected artifacts m st' :
    store_write expected artifacts st = (m, st') → (∀ w, m ≠ Ok w) →
    others st st' ∨ ∃ mid head q, others st mid ∧ bo_head (board_of mid) = expected
    ∧ board_of st' = moved_to (board_of mid) artifacts head q;
}.

(** * Committing *)

Section commit.
Context {St : Type} `{BoardStore St}.
(** What the clock reads, and the change built, at each attempt. *)
Variable now : nat → res BoardError Timestamp.
Variable reference : nat → option Timestamp.
Variable change : nat → BoardChange.
Variable w : Writes.

(** One attempt at a write; [None] is a race lost. *)
Definition attempt (number : nat) (st : St) : res BoardError (option (list BoardArtifact)) * St :=
  match store_read st with
  | (Err e, st) => (Err e, st)
  | (Panic, st) => (Panic, st)
  | (Ok snapshot, st) =>
      let built :=
        let? when := checked_now (now number) (reference number) in
        let? artifacts := change number snapshot when in
        assert_that (writes_holds w artifacts) ;? Ok artifacts in
      match built with
      | Err e => (Err e, st)
      | Panic => (Panic, st)
      | Ok artifacts =>
          if match w, artifacts with
             | TaskIfChanged, [ATask t] => bool_decide (t ∈ bo_tasks snapshot)
             | _, _ => false
             end then (Ok (Some artifacts), st)
          else
            match store_write (bo_head snapshot) artifacts st with
            | (Ok (Written head), st) =>
                (assert_that (negb (head =? bo_head snapshot)%N) ;? Ok (Some artifacts), st)
            | (Ok Lost, st) => (Ok None, st)
            | (Ok WriteRefused, st) => (Err Refused, st)
            | (Err e, st) => (Err e, st)
            | (Panic, st) => (Panic, st)
            end
      end
  end.

(** The attempts from [number] on, [remaining] of them. *)
Fixpoint retried (remaining number : nat) (st : St) : res BoardError (list BoardArtifact) * St :=
  match remaining with
  | 0 => (Err (Contended MAX_WRITE_ATTEMPTS), st)
  | S remaining =>
      match attempt number st with
      | (Err e, st) => (Err e, st)
      | (Panic, st) => (Panic, st)
      | (Ok (Some done), st) => (Ok done, st)
      | (Ok None, st) => retried remaining (S number) st
      end
  end.

Definition shaped (st : St) : res BoardError (list BoardArtifact) * St := retried MAX_WRITE_ATTEMPTS 1 st.

End commit.

(** * What a commit comes to *)

Section commit_facts.
Context {St : Type} `{BoardStoreLaws St}.
Variable now : nat → res BoardError Timestamp.
Variable reference : nat → option Timestamp.
Variable change : nat → BoardChange.
Variable w : Writes.

(** The board read is the one the artifacts were built on, whatever came of them. *)
Definition built_on (number : nat) (st : St) (artifacts : list BoardArtifact) : Prop :=
  ∃ when, checked_now (now number) (reference number) = Ok when
  ∧ change number (board_of st) when = Ok artifacts ∧ writes_holds w artifacts = true.

(** The board of [st] replaced by itself with [artifacts]. *)
Definition replaced (st st' : St) (artifacts : list BoardArtifact) : Prop :=
  ∃ head q, board_of st' = moved_to (board_of st) artifacts head q.

Lemma write_replaces st st' artifacts mid head q :
  others st mid → bo_head (board_of mid) = bo_head (board_of st) →
  board_of st' = moved_to (board_of mid) artifacts head q → replaced st st' artifacts.
Proof. intros Ho Hh He. exists head, q. by rewrite (head_names st mid Ho). Qed.

(** Every attempt reads one board and builds on it; then it writes nothing, or
    replaces that very board. *)
Lemma attempt_spec number st m st' :
  attempt now reference change w number st = (m, st') →
  match m with
  | Ok (Some artifacts) =>
      ∃ st1, others st st1 ∧ built_on number st1 artifacts
      ∧ (replaced st1 st' artifacts
         ∨ st' = st1 ∧ w = TaskIfChanged ∧ ∃ t, artifacts = [ATask t] ∧ t ∈ bo_tasks (board_of st1))
  | Ok None => others st st'
  | Err _ | Panic =>
      others st st' ∨ ∃ st1 artifacts, others st st1 ∧ built_on number st1 artifacts ∧ replaced st1 st' artifacts
  end.
Proof.
  unfold attempt. intros Ha. destruct (store_read st) as [[b|e|] st1] eqn:Hr.
  2: { simplify_eq. left. by eapply read_failed. }
  2: { simplify_eq. left. by eapply read_failed. }
  apply read_board in Hr as [Ho <-].
  match type of Ha with match ?built with _ => _ end = _ => destruct built as [artifacts|e|] eqn:Hb end; simplify_eq;
    [|by left..].
  assert (built_on number st1 artifacts) as Hbuilt.
  { inv_ok. eexists. split_and!; eauto. }
  clear Hb. case_match eqn:Hsame.
  { simplify_eq. exists st'. split_and!; [done..|]. right.
    destruct w; try done. destruct artifacts as [|[] []]; try done. split_bools. eauto 10. }
  clear Hsame.
  destruct (store_write (bo_head (board_of st1)) artifacts st1) as [[[head| |]|e|] st2] eqn:Hw; simplify_eq.
  - apply write_written in Hw as (Hne & mid & q & Hm & Hh & He).
    rewrite (proj2 (N.eqb_neq head (bo_head (board_of st1)))) by done. simpl.
    exists st1. split_and!; [done..|]. left. by eapply write_replaces.
  - etrans; [done|]. by eapply write_lost.
  - left. etrans; [done|]. by eapply write_refused.
  - apply write_failed in Hw as [Hw|(mid & head & q & Hm & Hh & He)]; [| |done].
    + left. by etrans.
    + right. exists st1, artifacts. split_and!; [done..|]. by eapply write_replaces.
  - apply write_failed in Hw as [Hw|(mid & head & q & Hm & Hh & He)]; [| |done].
    + left. by etrans.
    + right. exists st1, artifacts. split_and!; [done..|]. by eapply write_replaces.
Qed.

Lemma retried_spec remaining : ∀ number st m st',
  retried now reference change w remaining number st = (m, st') →
  match m with
  | Ok artifacts =>
      ∃ n st1, number ≤ n < number + remaining ∧ others st st1 ∧ built_on n st1 artifacts
      ∧ (replaced st1 st' artifacts
         ∨ st' = st1 ∧ w = TaskIfChanged ∧ ∃ t, artifacts = [ATask t] ∧ t ∈ bo_tasks (board_of st1))
  | Err _ | Panic =>
      others st st' ∨ ∃ n st1 artifacts, others st st1 ∧ built_on n st1 artifacts ∧ replaced st1 st' artifacts
  end.
Proof.
  induction remaining as [|remaining IH]; intros number st m st' Hr; simpl in Hr; [simplify_eq; by left|].
  destruct (attempt _ _ _ _ number st) as [[[artifacts|]|e|] st2] eqn:Ha; apply attempt_spec in Ha; simplify_eq.
  - destruct Ha as (st1 & ? & ? & ?). exists number, st1. split_and!; [lia..|done|done|done].
  - specialize (IH _ _ _ _ Hr). destruct m as [artifacts|e|].
    + destruct IH as (n & st1 & Hn & Ho & Hb & Hd). exists n, st1. split_and!; [lia..|by etrans|done|done].
    + destruct IH as [Ho|(n & st1 & artifacts & Ho & ?)]; [left; by etrans|right]. exists n, st1, artifacts.
      split; [by etrans|done].
    + destruct IH as [Ho|(n & st1 & artifacts & Ho & ?)]; [left; by etrans|right]. exists n, st1, artifacts.
      split; [by etrans|done].
  - destruct Ha as [|(st1 & artifacts & ?)]; [by left|right; by exists number, st1, artifacts].
  - destruct Ha as [|(st1 & artifacts & ?)]; [by left|right; by exists number, st1, artifacts].
Qed.

End commit_facts.

(** * A commit as a step of the board *)

Section commit_steps.
Context `{Shapes}.

Lemma moved_to_steps b artifacts head q change when :
  board_change change → change b when = Ok artifacts → rtc board_step b (moved_to b artifacts head q).
Proof.
  intros Hc Hb. eapply rtc_l; [by eapply bs_change|]. apply rtc_once. apply (bs_store (write_all b artifacts)).
Qed.

Lemma shaped_steps {St} `{BoardStoreLaws St} now reference change w st m st' :
  (∀ st1, others st st1 → rtc board_step (board_of st) (board_of st1)) →
  (∀ n, board_change (change n)) →
  shaped now reference change w st = (m, st') → rtc board_step (board_of st) (board_of st').
Proof.
  intros Hothers Hc Hs. unfold shaped in Hs. apply retried_spec in Hs.
  assert (∀ n st1 artifacts, others st st1 → built_on now reference change w n st1 artifacts →
            replaced st1 st' artifacts → rtc board_step (board_of st) (board_of st')) as Hrep.
  { intros n st1 artifacts Ho (when & _ & Hb & _) (head & q & ->). etrans; [by apply Hothers|].
    by eapply moved_to_steps. }
  destruct m as [artifacts|e|].
  - destruct Hs as (n & st1 & _ & Ho & Hb & [Hr|(-> & _)]); [by eapply Hrep|by apply Hothers].
  - destruct Hs as [Ho|(n & st1 & artifacts & Ho & Hb & Hr)]; [by apply Hothers|by eapply Hrep].
  - destruct Hs as [Ho|(n & st1 & artifacts & Ho & Hb & Hr)]; [by apply Hothers|by eapply Hrep].
Qed.

(** ** What each use case declares *)

Inductive declares (a : Answers) : BoardChange → Writes → Prop :=
  | de_op actor id op :
      declares a (change_board_task actor (an_object_at a) id op)
        (match op with OpSetOutcome _ _ _ => TaskIfChanged | _ => OneTask end)
  | de_finish actor id reason : declares a (finish_without_run actor (an_host a) id reason) OneTask
  | de_complete id : declares a (complete_merged_task (an_host a) id) OneTask
  | de_create n : declares a (create_board_task (an_cell_holds a) (an_prose_holds a) n) OneTask
  | de_update u :
      declares a (update_draft_task (an_object_at a) (an_cell_holds a) (an_prose_holds a) u) OneTask
  | de_propose actor p : items_named (pp_items p) → declares a (propose_plan actor p) OneTask
  | de_edit actor e :
      (∀ items, pe_items e = Some items → items_named items) → declares a (edit_plan actor (an_object_at a) e) OneTask
  | de_accept actor p : declares a (accept_plan actor (an_object_at a) p) OneTask
  | de_discard actor id version expected :
      declares a (discard_plan actor (an_object_at a) id version expected) OneTask
  | de_begin actor id version :
      declares a (begin_board_run actor (an_brief_refusal a) id version) OneTask
  | de_fold_back id number view ending how :
      view_ok view → declares a (fold_back_run (an_cell_holds a) id number view ending how) OneRun
  | de_end actor r ended kept how :
      (∀ view, ended = Some view ∨ kept = Some view → view_ok view) →
      declares a (end_run actor (an_object_at a) (an_cell_holds a) (an_remote a) r ended kept how) OneRun.

Lemma declares_change a change w : declares a change w → board_change change.
Proof.
  intros Hd. destruct Hd; try (left; by econstructor); right; try (exists actor; by econstructor);
    exists (mkIdentity [] []); econstructor.
Qed.

Lemma writes_one_task b by_ now artifacts : writes b by_ now artifacts → one_tasks_change artifacts = true.
Proof.
  intros Hw. destruct Hw as [| |t t' r Ht Hs _ _|t t' r r' Ht Hs _ _| | |t t' p at_ actor sup Ht Hs _ _]; try done; simpl.
  - rewrite bool_decide_true; [done|]. by rewrite (be_of _ _ _ _ Hs), (be_id _ _ _ _ Hs).
  - rewrite bool_decide_true; [done|]. pose proof (en_key _ _ _ _ _ Hs) as [-> _]%of_run_eq.
    by rewrite (en_of _ _ _ _ _ Hs), (en_id _ _ _ _ _ Hs).
  - rewrite bool_decide_true by by rewrite (as_of _ _ _ _ _ _ _ Hs), (as_id _ _ _ _ _ _ _ Hs). simpl.
    destruct sup as [sup|]; [simpl|done]. rewrite bool_decide_true; [done|].
    pose proof (as_before _ _ _ _ _ _ _ Hs) as (o & _ & Hot & _ & -> & _)%supersedes_Some. simpl.
    by rewrite Hot, (as_id _ _ _ _ _ _ _ Hs).
Qed.

Lemma run_end_shape r moved :
  one_tasks_change (run_end_writes r moved) = true → writes_holds OneRun (run_end_writes r moved) = true.
Proof.
  destruct moved as [t|]; simpl; [|done]. unfold text_eqb. intros He. split_bools. apply bool_decide_eq_true. congruence.
Qed.

Lemma declared_shape b a change w when artifacts :
  board_ok b → declares a change w → change b when = Ok artifacts → writes_holds w artifacts = true.
Proof.
  intros Hb Hd Hc. pose proof (declares_change a change w Hd) as Hch.
  destruct (board_change_writes b change when artifacts Hb Hch Hc) as [by_ Hw%writes_one_task].
  destruct Hd; try exact Hw.
  - destruct op; try exact Hw. unfold change_board_task in Hc. by inv_ok.
  - unfold fold_back_run in Hc. inv_ok. by apply run_end_shape.
  - unfold end_run in Hc. inv_ok. by apply run_end_shape.
Qed.

End commit_steps.

(** * A store to try it on *)

(** A board in memory, and what other writers write before each operation. *)
Module SimStore.

Record t := mk { board : BoardSnapshot; script : list (list BoardArtifact) }.

Definition put (b : BoardSnapshot) (artifacts : list BoardArtifact) : BoardSnapshot :=
  moved_to b artifacts (bo_head b + 1)%N (bo_quarantined b).

(** The others' turn. *)
Definition turn (st : t) : t :=
  match script st with
  | [] => st
  | [] :: rest => mk (board st) rest
  | artifacts :: rest => mk (put (board st) artifacts) rest
  end.

Definition read (st : t) : res BoardError BoardSnapshot * t := (Ok (board (turn st)), turn st).

Definition write (expected : BoardHead) (artifacts : list BoardArtifact) (st : t) : res BoardError BoardWrite * t :=
  let st := turn st in
  if (bo_head (board st) =? expected)%N
  then (Ok (Written (bo_head (board st) + 1)%N), mk (put (board st) artifacts) (script st))
  else (Ok Lost, st).

Definition turns (n : nat) (st : t) : t := Nat.iter n turn st.

#[export] Instance store : BoardStore t := {
  store_read := read;
  store_write := write;
  board_of := board;
  others := λ st st', ∃ n, st' = turns n st;
}.

Lemma turn_head st :
  (bo_head (board st) ≤ bo_head (board (turn st)))%N
  ∧ (bo_head (board st) = bo_head (board (turn st)) → board st = board (turn st)).
Proof. unfold turn. destruct (script st) as [|[|a l] rest]; simpl; [done..|]. split; lia. Qed.

Lemma turns_head n st :
  (bo_head (board st) ≤ bo_head (board (turns n st)))%N
  ∧ (bo_head (board st) = bo_head (board (turns n st)) → board st = board (turns n st)).
Proof.
  induction n as [|n [Hle Heq]]; [done|]. destruct (turn_head (turns n st)) as [Hle' Heq'].
  change (turns (S n) st) with (turn (turns n st)). split; [lia|]. intros He.
  rewrite Heq by lia. apply Heq'. lia.
Qed.

#[export] Instance laws : BoardStoreLaws t.
Proof.
  split.
  - split; [intros st; by exists 0|]. intros st st' st'' [n ->] [k ->]. exists (k + n). unfold turns.
    by rewrite Nat.iter_add.
  - intros st st' [n ->]. apply turns_head.
  - intros st b st' Hr. unfold store_read in Hr; simpl in Hr. injection Hr as <- <-. split; [by exists 1|done].
  - intros st m st' Hr. unfold store_read in Hr; simpl in Hr. injection Hr as <- <-. by exists 1.
  - intros st expected artifacts head st' Hw. simpl in Hw. unfold write in Hw. case_match eqn:He; [|done].
    injection Hw as <- <-. apply N.eqb_eq in He. split; [lia|].
    exists (turn st), (bo_quarantined (board (turn st))). split_and!; [by exists 1|done|done].
  - intros st expected artifacts st' Hw. simpl in Hw. unfold write in Hw. case_match; [done|].
    injection Hw as <-. by exists 1.
  - intros st expected artifacts st' Hw. simpl in Hw. unfold write in Hw. by case_match.
  - intros st expected artifacts m st' Hw Hm. simpl in Hw. unfold write in Hw.
    case_match; injection Hw as <- <-; by destruct (Hm _ eq_refl).
Qed.

End SimStore.
