(* ===== verification/BoardEntrySafety.v ===== *)
(** Reading what a person enters never panics: the assertions of the normaliser, the
    descriptions and the schema of a task hold whatever the text. *)

From stdpp Require Import gmap.
From S2P Require Import Prelude BoardText BoardTextFacts BoardSchema BoardDescription BoardTask BoardFacts.

Create HintDb safe.

Lemma or_panic_safe {E A} (o : option A) : is_Some o → @or_panic E A o ≠ Panic.
Proof. by intros [a ->]. Qed.
Lemma assert_that_safe {E} b : b = true → @assert_that E b ≠ Panic.
Proof. by intros ->. Qed.
Lemma collect_safe {E A B} (f : A → res E B) l : (∀ x, x ∈ l → f x ≠ Panic) → collect f l ≠ Panic.
Proof.
  induction l as [|x l IH]; intros Hf; simpl; [done|]. apply rbind_no_panic; [apply Hf; set_solver|intros y _].
  apply rbind_no_panic; [apply IH; intros; apply Hf; set_solver|done].
Qed.

#[export] Hint Resolve or_panic_safe assert_that_safe ensure_no_panic or_err_no_panic map_ok_no_panic map_err_no_panic : safe.

(** A rule is safe when its parts are, and what it branches on does not matter. *)
Ltac safe_step :=
  first
    [ done
    | solve [auto 4 with safe nocore]
    | simple apply ensure_no_panic
    | simple apply or_err_no_panic
    | simple apply map_err_no_panic
    | simple apply map_ok_no_panic
    | simple apply rbind_no_panic; [|intros ? ?]
    | simple apply each_no_panic; intros ? ? ?
    | progress cbv beta iota zeta
    | case_match ].
Ltac safe := repeat safe_step.

(** * Text and descriptions *)

Section descriptions.
Context `{Shapes}.

Lemma text_safe {E} t : @or_panic E _ (board_text.text_ is_alphanumeric t) ≠ Panic.
Proof. apply or_panic_safe. destruct (text_total is_alphanumeric t) as (normal & -> & _). by eexists. Qed.
Hint Resolve text_safe : safe.

Lemma entered_text_safe field t : entered_text field t ≠ Panic.
Proof. unfold entered_text. safe. Qed.

(** ** The elementary checks *)

Lemma no_index_safe {A} field (p : A → bool) l : no_index field p l ≠ Panic.
Proof. unfold no_index. by destruct (position p l). Qed.
Lemma line_safe field t max : line field t max ≠ Panic.
Proof. apply ensure_no_panic. Qed.
Lemma lines_safe field entries max : lines field entries max ≠ Panic.
Proof. unfold lines. apply rbind_no_panic; [apply ensure_no_panic|intros _ _]. apply each_no_panic. intros. apply line_safe. Qed.
Lemma markdown_safe field t max : markdown field t max ≠ Panic.
Proof. apply ensure_no_panic. Qed.
Lemma distinct_safe {A} `{EqDecision A} field (l : list A) max : distinct field l max ≠ Panic.
Proof. apply ensure_no_panic. Qed.
Lemma Identity_validate_safe field who : Identity_validate field who ≠ Panic.
Proof.
  unfold Identity_validate. apply rbind_no_panic; [apply line_safe|intros]. safe.
Qed.
Lemma entered_line_safe field t : entered_line field t ≠ Panic.
Proof. apply ensure_no_panic. Qed.

End descriptions.

#[export] Hint Resolve text_safe entered_text_safe no_index_safe line_safe lines_safe markdown_safe distinct_safe Identity_validate_safe entered_line_safe : safe.

Section sections.
Context `{Shapes}.

(** ** Reading the sections *)

(** The bodies read so far: each of the shape of its section, every required section
    passed among them. *)
Record reading (next : nat) (bodies : list (option text)) : Prop := {
  rg_length : length bodies = 4;
  rg_shaped : ∀ k body rule, bodies !! k = Some (Some body) → PARTS !! k = Some rule → shaped_lines rule body = Ok tt;
  rg_required : ∀ k rule, k < next → PARTS !! k = Some rule → pr_required rule = true → is_Some (mjoin (bodies !! k));
}.

Lemma read_block_Ok next block k body :
  read_block next block = Ok (k, body) →
  next ≤ k ∧ (∃ rule, PARTS !! k = Some rule ∧ shaped_lines rule body = Ok tt)
  ∧ ∀ j rule, next ≤ j < k → PARTS !! j = Some rule → pr_required rule = false.
Proof.
  unfold read_block. intros Hr. destruct (default _ _) as [head rest].
  case_match eqn:Hfound; [|done]. rename n into offset.
  destruct (List.find pr_required (take offset (drop next PARTS))) eqn:Hreq; [done|].
  destruct (drop next PARTS !! offset) as [rule|] eqn:Hrule; [|done]. inv_ok.
  simplify_eq. rewrite lookup_drop in Hrule. split_and!; [lia|eauto|].
  intros j rule' Hj Hj'. pose proof (List.find_none _ _ Hreq rule') as Hn. apply Hn.
  rewrite <- list_elem_of_In. apply list_elem_of_lookup. exists (j - next). rewrite lookup_take_lt by lia.
  rewrite lookup_drop. by replace (next + (j - next)) with j by lia.
Qed.

Lemma read_block_safe next block : read_block next block ≠ Panic.
Proof.
  unfold read_block. destruct (default _ _) as [head rest]. case_match eqn:Hfound; [|done].
  case_match; [done|]. case_match eqn:Hrule.
  - safe. unfold shaped_lines. safe.
  - exfalso. apply bind_Some in Hfound as (name & _ & Hp). apply position_Some in Hp as [(rule & Hr & _) _].
    by rewrite Hr in Hrule.
Qed.

Lemma read_blocks_reading blocks : ∀ next bodies next' bodies',
  reading next bodies → read_blocks next bodies blocks = Ok (next', bodies') → reading next' bodies'.
Proof.
  induction blocks as [|block blocks IH]; intros next bodies next' bodies' Hr Hb; simpl in Hb; [by inv_ok; simplify_eq|].
  apply rbind_Ok in Hb as ([k body] & Hk & Hb). apply read_block_Ok in Hk as (Hle & (rule & Hrule & Hs) & Hskip).
  simpl in Hb. eapply IH; [|exact Hb]. destruct Hr as [Hl Hsh Hreq].
  assert (k < 4) as Hk4 by (apply lookup_lt_Some in Hrule; done).
  split; [by rewrite length_insert| |].
  - intros j b rule' Hj Hj'. destruct (decide (j = k)) as [->|Hn].
    + rewrite list_lookup_insert_eq in Hj by lia. congruence.
    + rewrite list_lookup_insert_ne in Hj by done. by eapply Hsh.
  - intros j rule' Hj Hj' Hq. destruct (decide (j = k)) as [->|Hn].
    + rewrite list_lookup_insert_eq by lia. by eexists.
    + rewrite list_lookup_insert_ne by done. destruct (decide (j < next)); [by eapply Hreq|].
      rewrite (Hskip j rule') in Hq; [done|lia|done].
Qed.

Lemma read_blocks_safe blocks : ∀ next bodies, read_blocks next bodies blocks ≠ Panic.
Proof.
  induction blocks as [|block blocks IH]; intros next bodies; simpl; [done|].
  apply rbind_no_panic; [apply read_block_safe|intros; apply IH].
Qed.

Lemma read_items_safe rule body prefixes :
  shaped_lines rule body = Ok tt →
  (∀ l, misshapen (pr_shape rule) l = false → is_Some (item l prefixes)) → read_items (Some body) prefixes ≠ Panic.
Proof.
  intros Hs Hi. simpl. apply collect_safe. intros l Hl. apply or_panic_safe, Hi.
  unfold shaped_lines in Hs. destruct (position _ _) eqn:Hp; [by case_match|]. by apply (position_None _ _ Hp).
Qed.

Lemma take_exceptions_safe blocks : ∀ exceptions base, take_exceptions exceptions base blocks ≠ Panic.
Proof.
  induction blocks as [|block blocks IH]; intros exceptions base; cbn [take_exceptions]; [done|].
  destruct (strip_prefix _ block); [|apply IH]. destruct (_ && _); [apply IH|done].
Qed.

Lemma description_set_outcome_safe d index exception : description_set_outcome d index exception ≠ Panic.
Proof.
  unfold description_set_outcome. safe.
Qed.
Hint Resolve description_set_outcome_safe : safe.

Lemma Timestamp_parse_safe t : Timestamp_parse t ≠ Panic.
Proof. unfold Timestamp_parse. destruct (_ && _); [apply or_err_no_panic|done]. Qed.
Hint Resolve Timestamp_parse_safe : safe.

Lemma apply_exception_row_safe d previous cells : apply_exception_row d previous cells ≠ Panic.
Proof.
  unfold apply_exception_row. destruct cells as [|index [|reason [|by_ [|at_ []]]]]; try done.
  apply rbind_no_panic; [apply or_err_no_panic|intros i _]. destruct (_ && _); [|done].
  apply rbind_no_panic; [apply or_err_no_panic|intros [name email] _].
  apply rbind_no_panic; [apply Timestamp_parse_safe|intros when _].
  apply rbind_no_panic; [apply description_set_outcome_safe|done].
Qed.

Lemma apply_rows_safe rows : ∀ d previous, apply_rows_from d previous rows ≠ Panic.
Proof.
  induction rows as [|cells rows IH]; intros d previous; simpl; [done|].
  apply rbind_no_panic; [apply apply_exception_row_safe|intros; apply IH].
Qed.

Lemma read_exceptions_safe d table : read_exceptions d table ≠ Panic.
Proof.
  unfold read_exceptions. apply rbind_no_panic; [apply or_err_no_panic|intros rows _].
  apply rbind_no_panic; [apply collect_safe; intros; apply or_err_no_panic|intros rows' _]. apply apply_rows_safe.
Qed.

Lemma sectioned_safe t : sectioned t ≠ Panic.
Proof.
  unfold sectioned. apply rbind_no_panic; [|intros [table base] _].
  { apply take_exceptions_safe. }
  apply rbind_no_panic; [apply read_blocks_safe|intros [next bodies] Hb].
  apply read_blocks_reading in Hb as [Hl Hsh Hreq].
  2: { split; [done| |lia]. intros k body rule Hk. destruct k as [|[|[|[|k]]]]; simpl in Hk; discriminate Hk. }
  simpl. case_match eqn:Hfind; [done|].
  assert (∀ k rule, PARTS !! k = Some rule → pr_required rule = true → is_Some (mjoin (bodies !! k))) as Hall.
  { intros k rule Hk Hq. destruct (decide (k < next)); [by eapply Hreq|].
    pose proof (List.find_none _ _ Hfind rule) as Hn. rewrite Hn in Hq; [done|].
    rewrite <- list_elem_of_In. apply list_elem_of_lookup. exists (k - next). rewrite lookup_drop.
    by replace (next + (k - next)) with k by lia. }
  apply rbind_no_panic; [by apply or_panic_safe, (Hall 0 PART_GOAL)|intros goal _].
  apply rbind_no_panic.
  { destruct (Hall 2 PART_DONE_WHEN eq_refl eq_refl) as [body Hbody]. simpl in Hbody. rewrite Hbody.
    apply (read_items_safe PART_DONE_WHEN).
    - apply (Hsh 2); [|done]. destruct (bodies !! 2); [|done]. simpl in Hbody. congruence.
    - intros l Hm. simpl in Hm. apply bool_decide_eq_false in Hm. by apply not_eq_None_Some. }
  intros outcomes _. apply rbind_no_panic.
  { destruct (mjoin (bodies !! 3)) as [body|] eqn:Hbody; [|done]. apply (read_items_safe PART_LINKS).
    - apply (Hsh 3); [|done]. destruct (bodies !! 3); [|done]. simpl in Hbody. congruence.
    - intros l Hm. change (match item l [ITEM] with Some (_, t) => negb (LINK t) | None => true end = false) in Hm.
      destruct (item l [ITEM]); [by eexists|done]. }
  intros links _. apply rbind_no_panic; [|intros d _; apply rbind_no_panic; [apply ensure_no_panic|done]].
  destruct table; [apply read_exceptions_safe|done].
Qed.

Lemma Description_read_safe t : Description_read t ≠ Panic.
Proof. unfold Description_read. pose proof (sectioned_safe t). by destruct (sectioned t). Qed.

Lemma Description_entered_safe t : Description_entered t ≠ Panic.
Proof.
  unfold Description_entered. apply rbind_no_panic; [apply entered_text_safe|intros _ _].
  case_decide; [done|]. apply rbind_no_panic; [apply sectioned_safe|intros d _].
  apply rbind_no_panic; [apply ensure_no_panic|intros _ _]. apply rbind_no_panic; [|done].
  unfold within_rules. apply rbind_no_panic; [apply ensure_no_panic|intros _ _].
  apply rbind_no_panic; [apply ensure_no_panic|intros _ _]. apply ensure_no_panic.
Qed.

Lemma Entry_title_safe e field title : Entry_title e field title ≠ Panic.
Proof.
  destruct e; simpl; [|apply ensure_no_panic]. unfold entered_title, entered_line.
  apply rbind_no_panic; [apply ensure_no_panic|intros _ _; apply ensure_no_panic].
Qed.

Lemma Entry_description_safe e t : Entry_description e t ≠ Panic.
Proof. destruct e; simpl; [apply map_ok_no_panic, Description_entered_safe|apply entered_text_safe]. Qed.

(** * Tasks *)

Lemma Claim_validate_safe field c : Claim_validate field c ≠ Panic.
Proof.
  unfold Claim_validate. apply rbind_no_panic; [apply Identity_validate_safe|intros _ _].
  apply rbind_no_panic; [|intros; apply ensure_no_panic]. apply map_err_no_panic. unfold plus_seconds. by case_match.
Qed.

Lemma validate_task_safe t : validate_task t ≠ Panic.
Proof.
  assert (validate_description t ≠ Panic ∧ validate_claim t ≠ Panic ∧ validate_closure t ≠ Panic ∧ reason_holds t ≠ Panic)
    as (Hd & Hc & Hcl & Hr).
  { split_and!.
    - unfold validate_description. apply rbind_no_panic; [apply markdown_safe|intros _ _].
      apply rbind_no_panic; [apply Description_read_safe|]. intros. safe.
    - unfold validate_claim. destruct (ta_claim t); [|apply ensure_no_panic]. destruct (may_hold_claim _); [|done].
      apply rbind_no_panic; [apply Claim_validate_safe|intros; apply ensure_no_panic].
    - unfold validate_closure, resolution_holds. repeat (apply rbind_no_panic; [|intros _ _]);
        first [apply no_index_safe|apply distinct_safe|apply ensure_no_panic].
    - unfold reason_holds. apply rbind_no_panic; [destruct (ta_reason t); [apply line_safe|done]|intros _ _].
      repeat case_match; done. }
  unfold validate_task.
  repeat first [exact Hd|exact Hc|exact Hcl|exact Hr|apply no_index_safe|apply distinct_safe|apply line_safe
    |apply ensure_no_panic|apply rbind_no_panic; [|intros _ _]].
Qed.

(** What the schema admits in sections reads in sections. *)
Lemma task_ok_reads t : task_ok t → ta_description_form t = FormSectioned → ∃ d, Description_read (ta_description t) = Ok (Some d).
Proof.
  unfold task_ok, validate_task, validate_description. intros Ht Hf. inv_ok. rewrite Hf in *.
  match goal with H : Description_read _ = Ok ?r |- _ => destruct r; [by eexists|done] end.
Qed.

Lemma Task_new_safe t : Task_new t ≠ Panic.
Proof.
  unfold Task_new. apply rbind_no_panic; [apply validate_task_safe|intros [] Hv].
  destruct (has_settled_outcomes t) eqn:Hs; [|done].
  apply andb_true_iff in Hs as [Hf%bool_decide_eq_true _]. destruct (task_ok_reads t Hv Hf) as [d ->]. simpl.
  apply rbind_no_panic; [apply validate_task_safe|done].
Qed.

Lemma Task_entered_safe fields entry : Task_entered fields entry ≠ Panic.
Proof.
  unfold Task_entered. apply rbind_no_panic; [apply Task_new_safe|intros t _].
  apply rbind_no_panic; [apply Entry_title_safe|intros _ _].
  apply rbind_no_panic; [apply Entry_description_safe|intros _ _]. apply Task_new_safe.
Qed.

Lemma task_set_outcome_safe t index reason by_ at_ : task_ok t → task_set_outcome t index reason by_ at_ ≠ Panic.
Proof.
  intros Ht. unfold task_set_outcome. destruct (ta_status t); try done.
  destruct (ta_description_form t) eqn:Hf; [done|]. destruct (task_ok_reads t Ht Hf) as [d ->]. simpl.
  apply rbind_no_panic; [apply map_err_no_panic, description_set_outcome_safe|intros next _].
  case_match; [done|]. case_decide; [done|]. apply map_err_no_panic, Task_new_safe.
Qed.

End sections.
