(* ===== verification/BoardFoldBackFacts.v ===== *)
(** A fold-back never fails on what a swarm left: scrubbing and matching panic on no
    report, and what they keep is within the schema of a run. *)

From stdpp Require Import gmap.
From S2P Require Import Prelude BoardText BoardTextFacts BoardSchema BoardDescription BoardTask BoardArtifacts BoardClaims BoardRuns BoardView BoardScrub BoardFoldBack BoardFacts BoardEntrySafety.

(** * Operations that always answer *)

Definition returns {E A} (m : res E A) : Prop := ∃ x, m = Ok x.

Lemma returns_Ok {E A} (x : A) : returns (E := E) (Ok x).
Proof. by exists x. Qed.
Lemma returns_bind {E A B} (m : res E A) (k : A → res E B) :
  returns m → (∀ x, m = Ok x → returns (k x)) → returns (rbind m k).
Proof. intros [x ->] Hk. by apply Hk. Qed.
Lemma returns_map {E A B} (f : A → B) (m : res E A) : returns m → returns (map_ok f m).
Proof. intros [x ->]. by eexists. Qed.
Lemma returns_collect {E A B} (f : A → res E B) l : (∀ x, x ∈ l → returns (f x)) → returns (collect f l).
Proof.
  induction l as [|x l IH]; intros Hf; [apply returns_Ok|]. simpl.
  apply returns_bind; [apply Hf, list_elem_of_here|intros y _].
  apply returns_bind; [apply IH; intros z Hz; apply Hf; by constructor|intros ys _]. apply returns_Ok.
Qed.
Lemma returns_assert {E} b : b = true → returns (E := E) (assert_that b).
Proof. intros ->. apply returns_Ok. Qed.
Lemma returns_no_panic {E A} (m : res E A) : returns m → m ≠ Panic.
Proof. by intros [x ->]. Qed.

Lemma each_all {E A} (f : nat → A → res E unit) l : (∀ i x, x ∈ l → f i x = Ok tt) → each f l = Ok tt.
Proof.
  unfold each. generalize 0. induction l as [|x l IH]; intros n Hf; [done|]. simpl.
  rewrite (Hf n x) by apply list_elem_of_here. apply IH. intros i y Hy. apply Hf. by constructor.
Qed.

Lemma position_all_false {A} (f : A → bool) l : (∀ x, x ∈ l → f x = false) → position f l = None.
Proof.
  induction l as [|x l IH]; intros Hf; [done|]. simpl. rewrite (Hf x) by apply list_elem_of_here.
  rewrite IH; [done|]. intros y Hy. apply Hf. by constructor.
Qed.

(** * At signs *)

Lemma encoded_at_snoc t : ∀ c, c ≠ 48%N → encoded_at (t ++ [c]) = true → encoded_at t = true.
Proof.
  induction t as [t IH] using (induction_ltof1 _ (@length N)). intros c Hc.
  destruct t as [|a [|b t]]; simpl; [done|..].
  - rewrite andb_false_r, orb_false_r. intros He. split_bools. by apply N.eqb_eq in H0.
  - rewrite !orb_true_iff, !andb_true_iff. intros [?|[? He]]; [by left|right]. split; [done|].
    apply (IH t) in He; [done|unfold ltof; simpl; lia|done].
Qed.

Lemma AT_ENCODED_snoc t c : c ≠ 37%N → c ≠ 48%N → AT_ENCODED (t ++ [c]) = true → AT_ENCODED t = true.
Proof.
  intros H37 H48. induction t as [|a t IH]; simpl.
  - rewrite (proj2 (N.eqb_neq _ _) H37). done.
  - rewrite !orb_true_iff, !andb_true_iff. intros [[? ?%encoded_at_snoc]|?]; auto.
Qed.

Lemma holds_at_app_inner pre core suf :
  Forall (λ c, c ∉ [37; 48]%N ∧ char_in c AT_SIGNS = false) (pre ++ suf) →
  holds_at (pre ++ core ++ suf) = true → holds_at core = true.
Proof.
  intros [Hpre Hsuf]%Forall_app. unfold holds_at. rewrite !existsb_app, !orb_true_iff.
  assert (∀ l, Forall (λ c, c ∉ [37; 48]%N ∧ char_in c AT_SIGNS = false) l →
    existsb (λ c, char_in c AT_SIGNS) l = false) as Hno.
  { induction 1 as [|c l [_ Hc] _ IH]; [done|]. cbn [existsb]. by rewrite Hc. }
  rewrite (Hno pre), (Hno suf) by done. intros [[|[|]]|He]; [done|by left|done|right].
  revert He. clear Hno. induction Hpre as [|c pre [Hc _] _ IH]; simpl.
  - revert Hsuf.
    induction suf as [|c suf IH] using rev_ind; [by rewrite app_nil_r|].
    rewrite Forall_app, Forall_singleton. intros [Hs [Hc _]]. rewrite app_assoc. intros He%AT_ENCODED_snoc; set_solver.
  - rewrite (proj2 (N.eqb_neq c 37)) by set_solver. simpl. done.
Qed.

(** A word is its core between the marks set apart. *)
Lemma set_apart_split w : ∃ pre suf, w = pre ++ set_apart w ++ suf
  ∧ Forall (λ c, char_in c WORD_OPENERS = true) pre ∧ Forall (λ c, char_in c QUERY_CLOSERS = true) suf.
Proof.
  unfold set_apart. destruct (trim_start_split (λ c, char_in c WORD_OPENERS) w) as (pre & Hpre & ?).
  set (rest := trim_start_matches _ _) in *.
  destruct (trim_end_split (λ c, char_in c QUERY_CLOSERS) rest) as (suf & Hsuf & ?).
  exists pre, suf. by rewrite <- Hsuf.
Qed.

Lemma char_in_elem c set : char_in c set = true ↔ c ∈ set.
Proof.
  unfold char_in. rewrite existsb_exists, list_elem_of_In. setoid_rewrite N.eqb_eq. naive_solver.
Qed.

Lemma marks_plain (set l : text) :
  forallb (λ c, negb (char_in c ([37; 48]%N ++ AT_SIGNS))) set = true →
  Forall (λ c, char_in c set = true) l → Forall (λ c, c ∉ [37; 48]%N ∧ char_in c AT_SIGNS = false) l.
Proof.
  rewrite forallb_forall. intros Hset Hl. refine (list.Forall_impl _ _ _ Hl _). intros c Hc%char_in_elem.
  apply list_elem_of_In, Hset in Hc. apply negb_true_iff in Hc.
  assert (c ∉ [37; 48]%N ++ AT_SIGNS) as Hn by (intros ?%char_in_elem; congruence).
  rewrite elem_of_app in Hn. split; [tauto|]. apply not_true_is_false. rewrite char_in_elem. tauto.
Qed.

Lemma holds_at_set_apart w : holds_at w = true → holds_at (set_apart w) = true.
Proof.
  destruct (set_apart_split w) as (pre & suf & Hw & Hpre & Hsuf). rewrite Hw at 1.
  apply holds_at_app_inner. apply Forall_app. split; (eapply marks_plain; [|eassumption]); done.
Qed.

Lemma split_once_Some sep t : ∀ a b, split_once sep t = Some (a, b) → t = a ++ sep :: b ∧ sep ∉ a.
Proof.
  induction t as [|c t IH]; intros a b Hs; simpl in Hs; [done|]. destruct (N.eqb_spec c sep) as [->|Hn].
  - injection Hs as <- <-. split; [done|by apply not_elem_of_nil].
  - destruct (split_once sep t) as [[a' b']|]; [|done]. injection Hs as <- <-.
    destruct (IH a' b' eq_refl) as [-> ?]. split; [done|]. rewrite not_elem_of_cons. auto.
Qed.

(** A word that may hold an at sign holds no colon. *)
Lemma AT_EXEMPT_no_colon w : AT_EXEMPT w = true → 58%N ∉ w.
Proof.
  unfold AT_EXEMPT. destruct (split_once 64 w) as [[name rest]|] eqn:Hs; [|done].
  apply split_once_Some in Hs as [-> _]. rewrite orb_true_iff, elem_of_app, elem_of_cons.
  assert (∀ (f : N → bool) l, f 58%N = false → forallb f l = true → 58%N ∉ l) as Hno.
  { intros f l Hf Hall Hin%list_elem_of_In. rewrite forallb_forall in Hall. apply Hall in Hin. congruence. }
  intros [Hw|Hw]; split_bools.
  - intros [Hin|[?|Hin]]; [|done|]; revert Hin; (eapply Hno; [|eassumption]; done).
  - destruct (strip_prefix _ rest) as [inner|] eqn:Hp; [|done]. apply strip_prefix_Some in Hp as ->.
    destruct (strip_suffix _ inner) as [n|] eqn:Hx; [|done]. unfold strip_suffix in Hx.
    destruct (strip_prefix _ (rev inner)) as [r|] eqn:Hr; [|done]. injection Hx as <-.
    apply strip_prefix_Some in Hr. assert (inner = rev r ++ tx "}") as ->.
    { by rewrite <- (rev_involutive inner), Hr, rev_app_distr. }
    split_bools. rewrite !elem_of_app. intros [Hin|[?|[Hin|[Hin|Hin]]]]; [|done| | |].
    all: revert Hin; first [eapply Hno; [|eassumption]; done | vm_compute; set_solver].
Qed.

Lemma contains_split p t : contains p t = true → ∃ a b, t = a ++ p ++ b.
Proof.
  induction t as [|c t IH]; simpl; rewrite orb_true_iff; intros [Hs|Hc]; try done.
  - apply starts_with_app in Hs as [r ->]. by exists [], r.
  - apply starts_with_app in Hs as [r ->]. by exists [], r.
  - destruct (IH Hc) as (a & b & ->). by exists (c :: a), b.
Qed.

(** No word that may hold an at sign is of an address: the colon before the slashes
    is neither among the marks that open a word nor in its core, and no slash is among
    those that close it. *)
Lemma exempt_no_address w : AT_EXEMPT (set_apart w) = true → contains (tx "://") w = false.
Proof.
  intros Hx%AT_EXEMPT_no_colon. apply not_true_is_false. intros (a & b & Hw)%contains_split.
  destruct (set_apart_split w) as (pre & suf & Hsplit & Hpre & Hsuf). set (core := set_apart w) in *.
  assert (w !! length a = Some 58%N ∧ w !! S (length a) = Some 47%N) as [H0 H1].
  { rewrite Hw. split; [by apply list_lookup_middle|]. rewrite lookup_app_r by lia. by replace (S _ - _) with 1 by lia. }
  assert (58%N ∉ pre ++ core) as Hno.
  { intros [Hin|]%elem_of_app; [|done]. rewrite list.Forall_forall in Hpre. by apply Hpre in Hin. }
  rewrite Hsplit, app_assoc in H0, H1. rewrite lookup_app_Some in H0. destruct H0 as [H0|[Hle H0]].
  { by apply list_elem_of_lookup_2 in H0. }
  rewrite lookup_app_r in H1 by lia. apply list_elem_of_lookup_2 in H1.
  rewrite list.Forall_forall in Hsuf. by apply Hsuf in H1.
Qed.

Lemma exempt_addresses t w :
  at_signs_exempt t = true → w ∈ words t → contains (tx "://") w = true → holds_at w = false.
Proof.
  unfold at_signs_exempt. rewrite forallb_forall. intros Hall Hw Hc. apply not_true_is_false. intros Hat.
  specialize (Hall (set_apart w)). rewrite <- list_elem_of_In in Hall.
  specialize (Hall (list_elem_of_fmap_2 _ _ _ Hw)). rewrite (holds_at_set_apart w Hat) in Hall. simpl in Hall.
  by rewrite (exempt_no_address w Hall) in Hc.
Qed.

(** * Scrubbing *)

(** What the redactor relies on of its pattern: a key's lead is a word start. *)
Class KeyLeads `{Shapes} : Prop :=
  key_leads : ∀ t lead, inr (Some lead) ∈ PATTERNS t → is_key_lead lead = true.

Section scrub_safety.
Context `{Shapes} `{!KeyLeads}.
Context {E : Type}.

Lemma redact_secrets_returns t : returns (redact_secrets (E := E) t).
Proof.
  unfold redact_secrets. apply returns_bind; [|intros; apply returns_Ok]. apply returns_collect.
  intros [plain|[lead|]] Hin; try apply returns_Ok. simpl. rewrite (key_leads t lead) by done. apply returns_Ok.
Qed.

Lemma scrubbed_returns raw cap : returns (scrubbed (E := E) raw cap).
Proof.
  unfold scrubbed. do 3 (case_match; [apply returns_Ok|]).
  apply returns_bind; [apply redact_secrets_returns|intros redacted _].
  case_match eqn:Hx; [|apply returns_Ok]. split_bools. apply returns_bind; [|intros; apply returns_Ok].
  apply returns_assert, forallb_forall.
  intros w [Hc Hw]%list_elem_of_In%list_elem_of_filter. apply negb_true_iff. by eapply exempt_addresses.
Qed.

End scrub_safety.

(** * Matching *)

Lemma collect_Ok {E A B} (f : A → res E B) l : ∀ ys, collect f l = Ok ys → Forall2 (λ x y, f x = Ok y) l ys.
Proof.
  induction l as [|x l IH]; intros ys Hc; simpl in Hc; inv_ok; subst; constructor; auto.
Qed.

Lemma starts_with_self p r : starts_with p (p ++ r) = true.
Proof.
  unfold starts_with. assert (strip_prefix p (p ++ r) = Some r) as ->; [|done].
  induction p as [|c p IH]; [done|]. simpl. by rewrite N.eqb_refl.
Qed.

Lemma item_title_prefix i : starts_with (pi_id i ++ tx ": ") (item_title i) = true.
Proof. unfold item_title. rewrite app_assoc. apply starts_with_self. Qed.

Lemma elem_of_under i v exact at_ s :
  (at_, s) ∈ under i v exact → sv_items v !! at_ = Some s ∧ starts_with (pi_id i ++ tx ": ") (si_title s) = true.
Proof.
  unfold under. rewrite list_elem_of_filter. simpl. intros [Ht Hz]. split.
  - apply list_elem_of_lookup in Hz as [k Hk]. rewrite lookup_zip_with in Hk.
    destruct (seq 0 (length (sv_items v)) !! k) as [n|] eqn:Hn; [|done].
    apply lookup_seq in Hn as [-> _]. destruct (sv_items v !! k) eqn:Hk0; simpl in Hk; [|done]. by simplify_eq.
  - destruct exact; [|done]. unfold text_eqb in Ht. split_bools. rewrite Ht.
    apply item_title_prefix.
Qed.

Lemma most_progressed_elem ranked : match most_progressed ranked with
                                    | Some x => x ∈ snd <$> ranked
                                    | None => ranked = []
                                    end.
Proof.
  unfold most_progressed. match goal with |- context [foldl ?f None ranked] => set (better := f) end.
  assert (∀ best x, better best x = Some x ∨ better best x = best ∧ is_Some best) as Hb.
  { intros [b|] x; unfold better; [|by left]. case_match; [by left|by right]. }
  assert (∀ best, match foldl better best ranked with
                  | Some x => best = Some x ∨ x ∈ ranked
                  | None => best = None ∧ ranked = []
                  end) as Hall; last first.
  { specialize (Hall None). destruct (foldl _ _ _) as [x|]; simpl; [|by destruct Hall].
    destruct Hall; [done|]. by apply list_elem_of_fmap_2. }
  clearbody better. induction ranked as [|y l IH]; intros best; simpl; [destruct best; auto|].
  specialize (IH (better best y)). destruct (Hb best y) as [He|[He [b ->]]]; rewrite He in *.
  - destruct (foldl _ _ _) as [x|]; [|by destruct IH]. rewrite elem_of_cons. naive_solver.
  - destruct (foldl _ _ _) as [x|]; [|by destruct IH]. rewrite elem_of_cons. naive_solver.
Qed.

Section matching.
Context {E : Type}.

Lemma standing_returns i :
  si_stood_before_death i = None ∨ si_state i = SwarmItemBlocked → returns (standing (E := E) i).
Proof.
  intros Hi. unfold standing. apply returns_bind; [|intros; apply returns_Ok].
  apply returns_assert, orb_true_iff. by rewrite !bool_decide_eq_true.
Qed.

Lemma matched_returns i v : view_ok v → returns (matched (E := E) i v).
Proof.
  intros Hv. unfold matched. rewrite item_title_prefix. apply returns_bind; [apply returns_Ok|intros _ _].
  apply returns_bind; [|intros; apply returns_Ok]. apply returns_collect. intros [at_ s] [Hs _]%elem_of_under.
  apply returns_bind; [|intros; apply returns_Ok]. case_match; [|apply returns_Ok]. apply standing_returns.
  unfold view_ok in Hv. rewrite list.Forall_forall in Hv. apply Hv. by eapply list_elem_of_lookup_2.
Qed.

Lemma matched_Some i v at_ s :
  matched (E := E) i v = Ok (Some (at_, s)) →
  sv_items v !! at_ = Some s ∧ starts_with (pi_id i ++ tx ": ") (si_title s) = true.
Proof.
  unfold matched. intros Hm. inv_ok.
  match goal with H : collect _ _ = Ok ?r |- _ => apply collect_Ok in H; rename r into ranked; rename H into Hc end.
  pose proof (most_progressed_elem ranked) as He. rewrite Hm in He.
  apply list_elem_of_fmap in He as ([n x] & Hx & Hin). simpl in Hx. subst x.
  apply list_elem_of_lookup in Hin as [k Hk]. destruct (Forall2_lookup_r _ _ _ _ _ Hc Hk) as ([at' s'] & Hu & Ho).
  inv_ok. simplify_eq. apply list_elem_of_lookup_2 in Hu. by eapply elem_of_under.
Qed.

End matching.

Lemma slug_no_colon t : is_slug t → 58%N ∉ t.
Proof.
  unfold is_slug, Slug_parse. case_match eqn:Hs; [|done]. intros _ Hin. split_bools.
  match goal with H : forallb _ t = true |- _ => rewrite forallb_forall in H; apply list_elem_of_In, H in Hin end. done.
Qed.

Lemma before_colon a : ∀ b r r', 58%N ∉ a → 58%N ∉ b → a ++ 58%N :: r = b ++ 58%N :: r' → a = b.
Proof.
  induction a as [|c a IH]; intros [|d b] r r' Ha Hb He; simplify_eq/=; [done| | |].
  - destruct Hb. apply list_elem_of_here.
  - destruct Ha. apply list_elem_of_here.
  - rewrite not_elem_of_cons in *. f_equal. eapply IH; [apply Ha|apply Hb|done].
Qed.

(** A swarm item stands for one plan item at most. *)
Lemma matched_places {E} items found v :
  items_named items → NoDup (pi_id <$> items) → Forall2 (λ i o, matched (E := E) i v = Ok o) items found →
  NoDup (fst <$> omap id found).
Proof.
  intros Hn Hd Hm. induction Hm as [|i o items found Hio Hm IH]; [constructor|].
  apply list.Forall_cons in Hn as [Hi Hn]. apply list.NoDup_cons in Hd as [Hnew Hd]. specialize (IH Hn Hd).
  destruct o as [[at_ s]|]; [|done]. simpl. constructor; [|done].
  intros ([at' s'] & Hat & Hin)%list_elem_of_fmap. simpl in Hat. subst at'.
  apply list_elem_of_omap in Hin as (o & Hin & Ho). simpl in Ho. subst o.
  apply list_elem_of_lookup in Hin as [k Hk]. destruct (Forall2_lookup_r _ _ _ _ _ Hm Hk) as (i' & Hi' & Hio').
  apply matched_Some in Hio as [Hs (r & Ht)%starts_with_app], Hio' as [Hs' (r' & Ht')%starts_with_app].
  apply list_elem_of_lookup_2 in Hi'. simplify_eq. apply Hnew. rewrite <- app_assoc in Ht, Ht'.
  rewrite Ht in Ht'. apply before_colon in Ht'; [|by apply slug_no_colon|].
  - rewrite Ht'. by apply list_elem_of_fmap_2.
  - apply slug_no_colon. unfold items_named in Hn. rewrite list.Forall_forall in Hn. by apply Hn.
Qed.

(** * Lines and items *)

Lemma sum_of_app {A} (f : A → N) l l' : sum_of f (l ++ l') = (sum_of f l + sum_of f l')%N.
Proof. unfold sum_of. induction l as [|x l IH]; simpl; lia. Qed.

Section folding.
Context `{Shapes} `{!KeyLeads}.
Context {E : Type}.
Variable cells : text → bool.

Lemma evidence_line_returns entry : returns (evidence_line (E := E) entry).
Proof.
  unfold evidence_line, evidence_part.
  do 2 (apply returns_bind; [apply returns_map, scrubbed_returns|intros ? _]). apply returns_Ok.
Qed.

Lemma owner_of_returns raw : returns (owner_of (E := E) cells raw).
Proof. apply returns_bind; [apply scrubbed_returns|intros; apply returns_Ok]. Qed.

Lemma keep_lines_returns how entries : ∀ room kept dropped,
  returns (keep_lines (E := E) cells how entries room kept dropped).
Proof.
  induction entries as [|entry entries IH]; intros room kept dropped; simpl; [apply returns_Ok|].
  apply returns_bind; [apply evidence_line_returns|intros written _]. case_match; apply IH.
Qed.

Lemma held_line_line field t max : held_line cells t max = true → line field t max = Ok tt.
Proof. unfold held_line, line, ensure. by destruct (_ && plain_spaced t). Qed.

(** Each line is kept or dropped; those kept are lines of the board, no two the same,
    and take what they take of the room. *)
Lemma keep_lines_Ok how entries : ∀ room kept dropped room' kept' dropped',
  keep_lines (E := E) cells how entries room kept dropped = Ok (room', kept', dropped') →
  length kept ≤ MAX_PER_ITEM → NoDup kept → Forall (λ t, held_line cells t MAX_LINE_CHARS = true) kept →
  length kept' ≤ MAX_PER_ITEM ∧ NoDup kept' ∧ Forall (λ t, held_line cells t MAX_LINE_CHARS = true) kept'
  ∧ (room' + sum_of bytes kept' = room + sum_of bytes kept)%N
  ∧ length kept' + dropped' = length kept + dropped + length entries.
Proof.
  induction entries as [|entry entries IH]; intros room kept dropped room' kept' dropped' Hk Hl Hd Hf; simpl in Hk.
  { simplify_eq. split_and!; try done. }
  inv_ok. revert Hk. case_match eqn:Hc; intros Hk.
  - split_bools. destruct (IH _ _ _ _ _ _ Hk) as (? & ? & ? & Hr & He).
    + rewrite length_app. simpl. lia.
    + by apply NoDup_snoc.
    + apply Forall_app. split; [done|]. by apply Forall_singleton.
    + rewrite sum_of_app in Hr. rewrite length_app in He. unfold sum_of in *. simpl in *. split_and!; try done; lia.
  - destruct (IH _ _ _ _ _ _ Hk) as (? & ? & ? & ? & He); [done..|]. simpl. split_and!; try done; lia.
Qed.

(** A run's item as a fold-back writes it: the board's schema holds of it. *)
Definition folded_item (i : RunItem) : Prop :=
  (∀ o, ri_owner i = Some o → held_line cells o MAX_OWNER_CHARS = true)
  ∧ length (ri_evidence i) ≤ MAX_PER_ITEM ∧ NoDup (ri_evidence i)
  ∧ Forall (λ t, held_line cells t MAX_LINE_CHARS = true) (ri_evidence i).

Definition row_ok (row : PlanItem * (option SwarmItemView * option text)) : Prop :=
  (∀ s, row.2.1 = Some s → si_stood_before_death s = None ∨ si_state s = SwarmItemBlocked)
  ∧ (∀ o, row.2.2 = Some o → held_line cells o MAX_OWNER_CHARS = true).

Definition entries_of (swarm : option SwarmItemView) : nat :=
  match swarm with Some s => length (si_evidence s) | None => 0 end.

Lemma fold_items_returns how rows : Forall row_ok rows → ∀ room evidence dropped,
  returns (fold_items (E := E) cells how rows room evidence dropped).
Proof.
  induction 1 as [|[item [swarm owner]] rows [Hs _] _ IH]; intros room evidence dropped; simpl; [apply returns_Ok|].
  apply returns_bind; [apply keep_lines_returns|intros [[room' kept] dropped'] _].
  apply returns_bind.
  - destruct swarm as [s|]; [|apply returns_Ok]. apply returns_map, standing_returns. by apply (Hs s).
  - intros state _. apply returns_bind; [apply IH|]. intros [[items e] d] _. apply returns_Ok.
Qed.

Lemma fold_items_Ok how rows : Forall row_ok rows → ∀ room evidence dropped items evidence' dropped',
  fold_items (E := E) cells how rows room evidence dropped = Ok (items, evidence', dropped') →
  ri_id <$> items = pi_id <$> rows.*1 ∧ ri_owner <$> items = rows.*2.*2 ∧ Forall folded_item items
  ∧ (sum_of (λ i, sum_of bytes (ri_evidence i)) items ≤ room)%N
  ∧ evidence' + dropped' = evidence + dropped + sum_list_with entries_of rows.*2.*1.
Proof.
  induction 1 as [|[item [swarm owner]] rows [Hs Ho] _ IH]; intros room evidence dropped items evidence' dropped' Hf;
    simpl in Hf; [simplify_eq; split_and!; try done; simpl; lia|].
  inv_ok. repeat (match goal with x : _ * _ |- _ => destruct x end; inv_ok). simplify_eq/=.
  match goal with H : keep_lines _ _ _ _ _ _ = _ |- _ => apply keep_lines_Ok in H as (? & ? & ? & Hr & He);
    [|simpl; unfold MAX_PER_ITEM; lia|constructor|constructor] end.
  match goal with H : fold_items _ _ _ _ _ _ = _ |- _ => apply IH in H as (Hid & How & Hall & Hroom & Hcount) end.
  split_and!.
  - by f_equal.
  - by f_equal.
  - constructor; [|done]. split_and!; try done.
  - unfold sum_of in *. simpl in *. lia.
  - unfold entries_of at 1. destruct swarm; simpl in *; lia.
Qed.

(** * The fold-back *)

Lemma bytes_le_chars t : (bytes t ≤ 4 * N.of_nat (length t))%N.
Proof.
  unfold bytes. enough (byte_len t ≤ 4 * length t) by lia.
  induction t as [|c t IH]; [done|]. 
  assert (utf8_len c ≤ 4) by (unfold utf8_len; repeat case_match; lia). unfold byte_len in *. simpl. lia.
Qed.

Lemma owners_bytes (owners : list (option text)) :
  Forall (λ o, ∀ t, o = Some t → held_line cells t MAX_OWNER_CHARS = true) owners → length owners ≤ MAX_ITEMS →
  (sum_of bytes (omap id owners) ≤ MAX_RUN_TEXT_BYTES)%N.
Proof.
  intros Ho Hl. enough (sum_of bytes (omap id owners) ≤ 400 * N.of_nat (length owners))%N as Hs.
  { unfold MAX_ITEMS, MAX_RUN_TEXT_BYTES in *. lia. }
  clear Hl. induction Ho as [|o owners Ht _ IH]; [done|]. destruct o as [t|]; cbn [length];
    [change (omap id (Some t :: owners)) with (t :: omap id owners)
    |change (omap id (None :: owners)) with (omap id owners); lia].
  specialize (Ht t eq_refl). apply (held_line_line "") in Ht. unfold line in Ht. inv_ok. split_bools.
  pose proof (bytes_le_chars t). unfold MAX_OWNER_CHARS in *. unfold sum_of in *. cbn [foldr]. lia.
Qed.

Lemma omap_id_fmap {A B} (f : A → B) (l : list (option A)) :
  omap id (fmap (M := option) f <$> l) = f <$> omap id l.
Proof. induction l as [|[x|] l IH]; [done| |done]. simpl. by f_equal. Qed.

Lemma length_omap_id {A} (l : list (option A)) : length (omap id l) ≤ length l.
Proof. unfold omap. induction l as [|[x|] l IH]; [done| |]; simpl; simpl in IH; lia. Qed.

Lemma NoDup_length_le (l : list nat) n : NoDup l → (∀ x, x ∈ l → x < n) → length l ≤ n.
Proof.
  intros Hd Hl. rewrite <- (length_seq n 0). apply NoDup_incl_length; [by apply NoDup_ListNoDup|].
  intros x Hx. apply in_seq. apply list_elem_of_In, Hl in Hx. lia.
Qed.

Lemma entries_sum matched :
  sum_list_with entries_of matched = sum_list_with (λ s, length (si_evidence s)) (omap id matched).
Proof. unfold omap. induction matched as [|[s|] l IH]; [done|..]; simpl; simpl in IH; lia. Qed.

Lemma item_bytes_sum items :
  sum_of (λ i, match ri_owner i with Some o => bytes o | None => 0 end + sum_of bytes (ri_evidence i))%N items
  = (sum_of bytes (omap id (ri_owner <$> items)) + sum_of (λ i, sum_of bytes (ri_evidence i)) items)%N.
Proof.
  induction items as [|i items IH]; [done|]. rewrite fmap_cons.
  destruct (ri_owner i) as [o|] eqn:Ho;
    [change (omap id (Some o :: (ri_owner <$> items))) with (o :: omap id (ri_owner <$> items))
    |change (omap id (None :: (ri_owner <$> items))) with (omap id (ri_owner <$> items))];
    unfold sum_of in *; cbn [foldr]; rewrite Ho; lia.
Qed.

(** The swarm items found for a plan's items, and their owners. *)
Lemma rows_ok items v found owners :
  view_ok v → Forall2 (λ i o, matched (E := E) i v = Ok o) items found →
  Forall2 (λ s o, match s ≫= si_owner with Some raw => owner_of (E := E) cells raw | None => Ok None end = Ok o)
    (fmap (M := option) snd <$> found) owners →
  Forall row_ok (zip items (zip (fmap (M := option) snd <$> found) owners))
  ∧ Forall (λ o, ∀ t, o = Some t → held_line cells t MAX_OWNER_CHARS = true) owners.
Proof.
  intros Hv Hf Ho.
  assert (Forall (λ o, ∀ t, o = Some t → held_line cells t MAX_OWNER_CHARS = true) owners) as Hheld.
  { apply list.Forall_forall. intros o [k Hk]%list_elem_of_lookup t ->.
    destruct (Forall2_lookup_r _ _ _ _ _ Ho Hk) as (s & _ & Hs). destruct (s ≫= si_owner) as [raw|]; [|done].
    unfold owner_of in Hs. inv_ok. destruct x as [o|]; simplify_eq/=. by destruct (held_line cells o _) eqn:He; simplify_eq/=. }
  split; [|done]. apply list.Forall_forall. intros [i [s o]] [k Hk]%list_elem_of_lookup.
  rewrite lookup_zip_with in Hk. destruct (items !! k) eqn:Hi; [|done]. simpl in Hk.
  rewrite lookup_zip_with in Hk. destruct ((_ <$> found) !! k) as [s'|] eqn:Hs; [|done]. simpl in Hk.
  destruct (owners !! k) as [o'|] eqn:Ho'; simplify_eq/=. split; simpl.
  - intros sw ->. rewrite list_lookup_fmap in Hs. destruct (found !! k) as [[[at_ sw']|]|] eqn:Hk; simplify_eq/=.
    destruct (Forall2_lookup_r _ _ _ _ _ Hf Hk) as (i' & _ & [Hsw _]%matched_Some).
    unfold view_ok in Hv. rewrite list.Forall_forall in Hv. apply Hv. by eapply list_elem_of_lookup_2.
  - rewrite list.Forall_forall in Hheld. apply Hheld. by eapply list_elem_of_lookup_2.
Qed.

(** No more swarm items are taken than the plan or the report has. *)
Lemma taken_bounds items v found :
  NoDup (fst <$> omap id found) → Forall2 (λ i o, matched (E := E) i v = Ok o) items found →
  length (omap id (fmap (M := option) snd <$> found)) ≤ length items
  ∧ length (omap id (fmap (M := option) snd <$> found)) ≤ length (sv_items v).
Proof.
  intros Hd Hf. split.
  - etrans; [apply length_omap_id|]. by rewrite length_fmap, (list.Forall2_length _ _ _ Hf).
  - rewrite omap_id_fmap, length_fmap, <- (length_fmap fst). apply NoDup_length_le; [done|].
    intros x ([at_ s] & -> & Hin)%list_elem_of_fmap. apply list_elem_of_omap in Hin as (o & Hin & Hos). simpl in Hos. subst o.
    apply list_elem_of_lookup in Hin as [k Hk]. destruct (Forall2_lookup_r _ _ _ _ _ Hf Hk) as (i & _ & [Hs _]%matched_Some).
    by eapply lookup_lt_Some.
Qed.

(** Of any report, each item of the plan is folded once, in the plan's order and
    within the run's schema. *)
Lemma run_items_Ok p v how :
  NoDup (pi_id <$> pl_items p) → length (pl_items p) ≤ MAX_ITEMS → items_named (pl_items p) → view_ok v →
  ∃ f, run_items (E := E) cells p v how = Ok f ∧ ri_id <$> fb_items f = pi_id <$> pl_items p
  ∧ Forall folded_item (fb_items f)
  ∧ (sum_of (λ i, match ri_owner i with Some o => bytes o | None => 0 end + sum_of bytes (ri_evidence i))
       (fb_items f) ≤ MAX_RUN_TEXT_BYTES)%N.
Proof.
  intros Hd Hl Hn Hv. unfold run_items.
  destruct (returns_collect (λ i, matched (E := E) i v) (pl_items p)) as [found Hf]; [by intros i _; apply matched_returns|].
  rewrite Hf. apply collect_Ok in Hf. pose proof (matched_places _ _ _ Hn Hd Hf) as Hplaces.
  cbn [rbind]. rewrite bool_decide_true by done. cbn [rbind assert_that].
  pose proof (taken_bounds _ _ _ Hplaces Hf) as [Ht1 Ht2]. pose proof (list.Forall2_length _ _ _ Hf) as Hlf.
  assert (length (fmap (M := option) snd <$> found) = length (pl_items p)) as Hls by (by rewrite length_fmap).
  pose proof (λ owners, rows_ok _ v found owners Hv Hf) as Hrows.
  set (swarms := fmap (M := option) snd <$> found) in *. clearbody swarms. cbv zeta.
  match goal with |- context [collect ?f swarms] => destruct (returns_collect f swarms) as [owners Ho] end.
  { intros s _. destruct (s ≫= si_owner); [apply owner_of_returns|apply returns_Ok]. }
  rewrite Ho. apply collect_Ok in Ho. cbn [rbind]. specialize (Hrows owners Ho) as [Hrows Hheld].
  pose proof (list.Forall2_length _ _ _ Ho) as Hlo. set (rows := zip _ _) in *. set (room := u64_saturating_sub _ _).
  destruct (fold_items_returns how rows Hrows room 0 0) as [[[items evidence] dropped] Hitems]. rewrite Hitems. cbn [rbind].
  destruct (fold_items_Ok how rows Hrows _ _ _ _ _ _ Hitems) as (Hid & How & Hall & Hroom & Hcount).
  assert (rows.*1 = pl_items p) as Hr1 by (unfold rows; rewrite fst_zip; [done|rewrite length_zip_with; lia]).
  assert (rows.*2 = zip swarms owners) as Hr2 by (unfold rows; rewrite snd_zip; [done|rewrite length_zip_with; lia]).
  rewrite Hr2, fst_zip in Hcount by lia. rewrite Hr2, snd_zip in How by lia. rewrite Hr1 in Hid.
  unfold usize_sub. rewrite (proj2 (Nat.leb_le _ _) Ht1), (proj2 (Nat.leb_le _ _) Ht2). cbn [rbind or_panic].
  rewrite (proj2 (Nat.eqb_eq (length items) _)) by (by rewrite <- (length_fmap ri_id), Hid, length_fmap).
  rewrite (proj2 (Nat.eqb_eq (evidence + dropped) _)) by (rewrite Hcount, entries_sum; lia). cbn [rbind assert_that].
  eexists. split; [done|]. cbn [fb_items]. split_and!; try done.
  rewrite item_bytes_sum, How. assert (length owners ≤ MAX_ITEMS) as Hown by lia.
  pose proof (owners_bytes owners Hheld Hown). unfold room, u64_saturating_sub in Hroom. lia.
Qed.


Lemma plan_ok_items p : plan_ok p → NoDup (pi_id <$> pl_items p) ∧ length (pl_items p) ≤ MAX_ITEMS.
Proof.
  unfold plan_ok, validate_plan, validate_items, distinct. intros Hp. inv_ok. split_bools.
  rewrite length_fmap, Nat.leb_le in *. auto.
Qed.

Lemma folded_item_valid field i : folded_item i → RunItem_validate field i = Ok tt.
Proof.
  intros (Ho & Hl & Hd & Hall). unfold RunItem_validate.
  assert (match ri_owner i with Some o => line (sub field "owner") o MAX_OWNER_CHARS | None => Ok tt end = Ok tt) as ->.
  { destruct (ri_owner i) as [o|]; [|done]. by apply held_line_line, Ho. }
  simpl. unfold lines, distinct, ensure. rewrite (proj2 (Nat.leb_le _ _) Hl), bool_decide_true by done. simpl.
  apply each_all. intros k t Hk. apply held_line_line. rewrite list.Forall_forall in Hall. by apply Hall.
Qed.

(** A run going is ended by whatever its swarm left: no line of a report is refused by
    the schema of the run. *)
Lemma fold_back_accepts p v how r outcome now :
  plan_ok p → items_named (pl_items p) → view_ok v → run_ok r → run_is_open r = true → run_ran r p = Ok tt →
  ∃ f r', run_items (E := E) cells p v how = Ok f
  ∧ fold_back r p outcome (Some (cost_of v)) (fb_items f) now = Ok r'
  ∧ ru_items r' = fb_items f ∧ ri_id <$> fb_items f = pi_id <$> pl_items p.
Proof.
  intros Hp Hn Hv Hr Ho Hran. destruct (plan_ok_items p Hp) as [Hd Hl].
  destruct (run_items_Ok p v how Hd Hl Hn Hv) as (f & Hf & Hid & Hall & Hbytes). exists f.
  unfold fold_back, run_ended, Run_new. rewrite Hran, Ho. cbn [rbind map_err ensure].
  set (ended := mkRun _ _ _ _ _ _ _ _).
  assert (validate_run ended = Ok tt) as Hok.
  { unfold run_ok, validate_run in Hr. inv_ok. unfold validate_run, ended. cbn [ru_number ru_plan_version ru_ended ru_outcome ru_started ru_cost ru_items].
    unfold ensure at 1 2. repeat match goal with H : from_one_to _ _ = true |- _ => rewrite H; clear H end. cbn [rbind].
    rewrite (proj2 (N.leb_le (ru_started r) _)) by lia. cbn [rbind].
    unfold ensure at 1. rewrite (proj2 (N.leb_le (cost_of v) _)) by (unfold cost_of; lia). cbn [rbind].
    unfold distinct, ensure at 1. rewrite Hid, length_fmap, (proj2 (Nat.leb_le _ _) Hl), bool_decide_true by done. cbn [rbind andb].
    rewrite each_all by (intros k i Hk; apply folded_item_valid; rewrite list.Forall_forall in Hall; by apply Hall).
    cbn [rbind]. unfold run_text_bytes. cbn [ru_items]. unfold ensure. by rewrite (proj2 (N.leb_le _ _) Hbytes). }
  rewrite Hok. cbn [rbind map_err]. exists ended. split; [done|]. split; [|done].
  assert (run_ran ended p = Ok tt) as ->; [|done].
  unfold run_ran in *. inv_ok. unfold ended. cbn [ru_task ru_plan_version ru_items].
  match goal with H : text_eqb _ _ = true |- _ => rewrite H end.
  match goal with H : (_ =? ru_plan_version r)%N = true |- _ => rewrite H end.
  rewrite position_all_false; [by destruct (pl_state p)|].
  intros i Hi. apply bool_decide_eq_false. unfold plan_item. intros Hnone.
  assert (ri_id i ∈ pi_id <$> pl_items p) as Hin by (rewrite <- Hid; by apply list_elem_of_fmap_2).
  apply list_elem_of_fmap in Hin as (x & Hx & Hin). apply list_elem_of_In in Hin.
  apply (List.find_none _ _ Hnone) in Hin. unfold text_eqb in Hin. by rewrite Hx, bool_decide_true in Hin.
Qed.

End folding.
