(* ===== verification/BoardRuleSafety.v ===== *)
(** No rule of the board panics: on tasks the schema admits, the assertions of the
    claims, the runs, the moves, the starts, the plans, the changes, the reviews and
    the discussions all hold. *)

From stdpp Require Import gmap.
From S2P Require Import Prelude BoardText BoardTextFacts BoardSchema BoardDescription BoardTask BoardArtifacts BoardClaims BoardRuns BoardTransitions BoardPlans BoardChanges BoardDiscussions BoardFacts BoardCycles BoardRuleFacts BoardEntrySafety.

Section rule_safety.
Context `{Shapes}.

Local Arguments relations_allow : simpl never.

(** * Schemas *)

Lemma validate_items_safe items : validate_items items ≠ Panic.
Proof.
  unfold validate_items. apply rbind_no_panic; [apply distinct_safe|intros [] Hd].
  apply rbind_no_panic.
  { apply each_no_panic. intros. unfold PlanItem_validate. safe. }
  intros [] Hs. unfold distinct in Hd. inv_ok. split_bools.
  destruct (blocked_by_cycle_spec items) as (ob & -> & _); [done| |by destruct ob].
  intros i d Hi Hin. destruct (each_Ok _ _ _ Hs i Hi) as [n Hn]. inv_ok.
  unfold names_siblings in *. rewrite forallb_forall in *.
  match goal with H : ∀ x, _ → _ |- _ => specialize (H d (proj1 (list_elem_of_In _ _) Hin)) end. by split_bools.
Qed.
#[local] Hint Resolve validate_items_safe : safe.

Lemma Plan_new_safe p : Plan_new p ≠ Panic.
Proof.
  unfold Plan_new, validate_plan, validate_acceptance, Team_validate, Role_validate, shaped. safe.
Qed.

Lemma Run_new_safe r : Run_new r ≠ Panic.
Proof. unfold Run_new, validate_run, RunItem_validate. safe. Qed.

Lemma Change_new_safe c : Change_new c ≠ Panic.
Proof. unfold Change_new, validate_change. safe. Qed.

Lemma rounds_in_order_safe r rounds : ∀ index last, rounds_in_order r index last rounds ≠ Panic.
Proof.
  induction rounds as [|round rounds IH]; intros index last; simpl; [done|].
  unfold validate_round, location, shaped. safe.
Qed.
#[local] Hint Resolve rounds_in_order_safe : safe.

Lemma Review_new_safe r : Review_new r ≠ Panic.
Proof. unfold Review_new, validate_review. safe. Qed.

Lemma message_shape_safe field m : message_shape field m ≠ Panic.
Proof. unfold message_shape, message_text. safe. Qed.
#[local] Hint Resolve message_shape_safe : safe.

Lemma messages_in_order_safe d messages : ∀ index last, messages_in_order d index last messages ≠ Panic.
Proof.
  induction messages as [|m messages IH]; intros index last; simpl; [done|]. safe.
Qed.
#[local] Hint Resolve messages_in_order_safe : safe.

Lemma Discussion_new_safe d : Discussion_new d ≠ Panic.
Proof. unfold Discussion_new, validate_discussion. safe. Qed.

#[local] Hint Resolve Plan_new_safe Run_new_safe Change_new_safe Review_new_safe Discussion_new_safe Task_new_safe : safe.

(** * Claims *)

Lemma stamp_safe t now : stamp t now ≠ Panic.
Proof. by rewrite stamp_eq. Qed.
Lemma after_last_safe updated now : after_last updated now ≠ Panic.
Proof. by rewrite after_last_eq. Qed.
Lemma not_before_safe t stamps now : not_before t stamps now ≠ Panic.
Proof. by rewrite not_before_eq. Qed.
Lemma held_by_safe t actor : held_by t actor ≠ Panic.
Proof. unfold held_by. safe. Qed.
#[local] Hint Resolve stamp_safe after_last_safe not_before_safe held_by_safe : safe.

Lemma held_or_lapsed_by_safe t actor now : held_or_lapsed_by t actor now ≠ Panic.
Proof.
  unfold held_or_lapsed_by. pose proof (held_by_safe t actor).
  destruct (held_by t actor) as [|[]|]; try done. by case_match.
Qed.
#[local] Hint Resolve held_or_lapsed_by_safe : safe.
Lemma held_live_by_safe t actor now : held_live_by t actor now ≠ Panic.
Proof. unfold held_live_by. safe. Qed.
#[local] Hint Resolve held_live_by_safe : safe.

Lemma claimable_at_safe t now : claimable_at t now ≠ Panic.
Proof. apply ensure_no_panic. Qed.
#[local] Hint Resolve claimable_at_safe : safe.

Lemma plus_seconds_safe t n : plus_seconds t n ≠ Panic.
Proof. unfold plus_seconds. safe. Qed.
#[local] Hint Resolve plus_seconds_safe : safe.

Lemma new_claim_safe holder t now : task_ok t → new_claim holder t now ≠ Panic.
Proof.
  intros Ht%task_ok_times. unfold new_claim, claim_start. rewrite stamp_eq.
  apply rbind_no_panic; [apply claimable_at_safe|intros u Hc%claimable_at_Ok]. simpl.
  rewrite (proj2 (N.leb_le _ _)) by lia. simpl.
  apply rbind_no_panic; [apply map_err_no_panic, plus_seconds_safe|intros expires He]. inv_ok.
  apply plus_seconds_Ok in He as [-> He]. unfold CLOCK_AHEAD_SECONDS, CLAIM_TTL_SECONDS in *.
  rewrite (proj2 (N.ltb_lt _ _)) by lia.
  apply rbind_no_panic; [|done].
  apply rbind_no_panic; [apply map_err_no_panic, plus_seconds_safe|intros cap Hcap]. inv_ok.
  apply plus_seconds_Ok in Hcap as [-> Hcap]. apply assert_that_safe, N.leb_le. lia.
Qed.

Lemma settle_safe next at_ : (ta_updated next <= at_)%N → settle next at_ ≠ Panic.
Proof.
  intros Hle. unfold settle. rewrite (proj2 (N.leb_le _ _) Hle). simpl. apply map_err_no_panic, Task_new_safe.
Qed.

Lemma renew_safe t holder now : task_ok t → renew t holder now ≠ Panic.
Proof.
  intros Ht. unfold renew. rewrite stamp_eq.
  apply rbind_no_panic; [apply held_or_lapsed_by_safe|intros c [Hc _]%held_or_lapsed_by_Ok]. simpl.
  apply rbind_no_panic; [by apply new_claim_safe|intros fresh (-> & Hlt & _)%new_claim_Ok].
  pose proof (task_ok_claim_bounds t c Ht Hc) as (_ & _ & Hb & _). simpl.
  rewrite (proj2 (N.ltb_lt _ _)), (proj2 (N.leb_le (cl_expires c) _)) by lia. simpl. apply settle_safe. simpl. lia.
Qed.

Lemma take_over_safe t taker now : task_ok t → take_over t taker now ≠ Panic.
Proof.
  intros Ht. unfold take_over. rewrite stamp_eq. apply rbind_no_panic; [by repeat case_match|intros c _].
  case_match; [done|]. apply rbind_no_panic; [apply claimable_at_safe|intros _ _]. case_match; [done|]. simpl.
  apply rbind_no_panic; [by apply new_claim_safe|intros fresh _]. apply settle_safe. simpl. lia.
Qed.

(** * Runs *)

Lemma runs_of_task_safe t runs : runs_of_task t runs ≠ Panic.
Proof. apply ensure_no_panic. Qed.
#[local] Hint Resolve runs_of_task_safe : safe.
Lemma open_of_safe t runs : open_of t runs ≠ Panic.
Proof. unfold open_of. safe. Qed.
#[local] Hint Resolve open_of_safe : safe.
Lemma may_move_with_safe t runs to : may_move_with t runs to ≠ Panic.
Proof. unfold may_move_with. safe. Qed.
Lemma begin_run_safe t runs p actor now : begin_run t runs p actor now ≠ Panic.
Proof. unfold begin_run. safe. Qed.
Lemma run_ended_safe r outcome cost items now : run_ended r outcome cost items now ≠ Panic.
Proof. unfold run_ended. safe. Qed.
Lemma run_ran_safe r p : run_ran r p ≠ Panic.
Proof. unfold run_ran. safe. Qed.
Lemma run_and_plan_safe runs plans number : run_and_plan runs plans number ≠ Panic.
Proof. unfold run_and_plan. safe. Qed.
#[local] Hint Resolve may_move_with_safe begin_run_safe run_ended_safe run_ran_safe run_and_plan_safe : safe.
Lemma fold_back_safe r p outcome cost items now : fold_back r p outcome cost items now ≠ Panic.
Proof. unfold fold_back. safe. Qed.
#[local] Hint Resolve fold_back_safe : safe.

Lemma end_lost_safe t ran reported actor now : end_lost t ran reported actor now ≠ Panic.
Proof.
  unfold end_lost. apply rbind_no_panic; [safe|intros _ _]. apply rbind_no_panic; [safe|intros _ _].
  apply rbind_no_panic; [safe|intros at_ _]. apply rbind_no_panic; [safe|intros lost Hl].
  apply fold_back_Ok in Hl as (_ & _ & _ & _ & ->). done.
Qed.

Lemma end_held_safe t ran e reported actor now : end_held t ran e reported actor now ≠ Panic.
Proof.
  unfold end_held. apply rbind_no_panic; [safe|intros _ _]. apply rbind_no_panic; [safe|intros _ _].
  apply rbind_no_panic; [safe|intros at_ _]. apply rbind_no_panic; [safe|intros folded Hl].
  apply fold_back_Ok in Hl as (_ & _ & _ & _ & ->). apply rbind_no_panic; [safe|intros _ _].
  simpl. by rewrite bool_decide_true.
Qed.

Lemma task_after_end_safe t ended stop now : task_ok t → task_after_end t ended stop now ≠ Panic.
Proof.
  intros Ht. unfold task_after_end. apply rbind_no_panic; [safe|intros _ _].
  apply rbind_no_panic; [safe|intros outcome _]. rewrite stamp_eq.
  assert (∀ to claim, (if bool_decide (to = ta_status t) && bool_decide (claim = ta_claim t) then Ok None else
      assert_that (bool_decide (ta_resolution t = None) && bool_decide (ta_reason t = None)) ;?
      let? at_ := @Ok RuleError _ (now `max` ta_updated t)%N in
      map_ok Some (settle (with_claim claim (with_status to t)) at_)) ≠ Panic ∨ may_hold_claim (ta_status t) = false) as Hrest.
  { intros to claim. destruct (may_hold_claim (ta_status t)) eqn:Hm; [left|by right]. case_match; [done|].
    rewrite (task_ok_unresolved t), (task_ok_unreasoned t) by (try done; intros Hx; by rewrite Hx in Hm).
    simpl. apply map_ok_no_panic, settle_safe. simpl. lia. }
  destruct (ta_status t) eqn:Hst; try done; destruct outcome, stop; simpl;
    match goal with |- context [with_claim ?c (with_status ?to t)] => destruct (Hrest to c) as [Hr|Hr]; [exact Hr|done] end.
Qed.

Lemma task_after_undo_safe t ended from now : task_ok t → task_after_undo t ended from now ≠ Panic.
Proof.
  intros Ht. unfold task_after_undo. rewrite stamp_eq.
  assert (∀ from, (runs_of_task t [ended] ;? ensure (negb (run_is_open ended)) (BoardRuleError.RunOpen (ru_number ended)) ;?
      let? at_ := Ok (now `max` ta_updated t)%N in
      let? restored := settle (with_status from t) at_ in
      assert_that (bool_decide (ta_claim restored = ta_claim t)) ;? Ok (Some restored)) ≠ Panic) as Hr.
  { intros to. apply rbind_no_panic; [safe|intros _ _]. apply rbind_no_panic; [safe|intros _ _]. simpl.
    apply rbind_no_panic; [apply settle_safe; simpl; lia|intros r (_ & _ & -> & _)%settle_Ok]. simpl.
    by rewrite bool_decide_true. }
  destruct (ta_status t), from; try apply Hr; by apply task_after_end_safe.
Qed.

(** * Moves *)

Lemma transition_lifecycle from to : is_Some (transition from to) → lifecycle_action from to = None.
Proof. by destruct from, to; vm_compute; intros [? ?]. Qed.

Lemma not_superseded_safe t : not_superseded t ≠ Panic.
Proof. apply ensure_no_panic. Qed.
#[local] Hint Resolve not_superseded_safe : safe.

Lemma allowed_safe t to actor now : allowed t to actor now ≠ Panic.
Proof.
  unfold allowed. apply rbind_no_panic; [|intros [[who effect] takes] _].
  - pose proof (transition_lifecycle (ta_status t) to) as Ht.
    destruct (transition _ _) eqn:He; [rewrite Ht by by eexists|]; [done|]. by case_match.
  - safe.
Qed.
#[local] Hint Resolve allowed_safe : safe.

Lemma move_reads_safe t to actor now : move_reads t to actor now ≠ Panic.
Proof.
  unfold move_reads, allowed. apply rbind_no_panic; [apply allowed_safe|intros et Ha].
  apply rbind_Ok in Ha as (row & Hrow & _).
  destruct (transition _ _), (lifecycle_action _ _); try done.
Qed.

Lemma entered_reason_safe t : entered_reason t ≠ Panic.
Proof. unfold entered_reason. safe. Qed.
#[local] Hint Resolve entered_reason_safe : safe.

Lemma reason_kept_safe from to takes given : reason_kept from to takes given ≠ Panic.
Proof. unfold reason_kept. safe. Qed.

Lemma numbers_safe t changes kept : numbers t changes kept ≠ Panic.
Proof. unfold numbers. safe. Qed.
Lemma relations_allow_safe t to tasks : relations_allow t to tasks ≠ Panic.
Proof. unfold relations_allow. safe. Qed.
Lemma done_without_run_reads_safe t actor now : done_without_run_reads t actor now ≠ Panic.
Proof. unfold done_without_run_reads. safe. Qed.
#[local] Hint Resolve move_reads_safe reason_kept_safe numbers_safe relations_allow_safe done_without_run_reads_safe : safe.

(** A task that moves anywhere but to the end of its life was unresolved. *)
Lemma transition_unresolved t to :
  task_ok t → is_Some (transition (ta_status t) to) → to ≠ Done → to ≠ Archived → ta_resolution t = None.
Proof.
  intros Ht [row Hr] Hd Ha. apply task_ok_unresolved; [done|..]; intros Hst; rewrite Hst in Hr;
    by destruct to; vm_compute in Hr.
Qed.

Lemma move_claim_fits t to who effect takes claim :
  task_ok t → transition (ta_status t) to = Some (who, effect, takes) →
  match effect with Keep => claim = ta_claim t | Take => is_Some claim | Clear => claim = None end →
  bool_decide (claim = None) || may_hold_claim to = true.
Proof.
  intros Ht Hr Hc. destruct claim as [c|]; [|done]. rewrite bool_decide_false by done. simpl.
  destruct effect; [|by destruct (ta_status t), to; vm_compute in Hr|done].
  assert (may_hold_claim (ta_status t) = true) as Hm by by eapply claim_may_hold.
  by destruct (ta_status t), to; vm_compute in Hr.
Qed.

Lemma move_with_reason_safe t to reason actor runs changes tasks now :
  task_ok t → move_with_reason t to reason actor runs changes tasks now ≠ Panic.
Proof.
  intros Ht. unfold move_with_reason. apply rbind_no_panic; [safe|intros [effect takes] Ha].
  apply allowed_Ok in Ha as ((who & Hrow) & _); [|done].
  do 5 (apply rbind_no_panic; [safe|intros ? _]). rewrite stamp_eq. simpl.
  apply rbind_no_panic; [|intros resolution _].
  { unfold resolved. destruct to; try done; try (by case_match);
      rewrite (transition_unresolved t _ Ht) by (done || (rewrite Hrow; by eexists)); done. }
  apply rbind_no_panic; [destruct effect; try done; by apply map_ok_no_panic, new_claim_safe|intros claim Hclaim].
  apply rbind_no_panic; [|intros _ _; apply settle_safe; simpl; lia].
  apply assert_that_safe, (move_claim_fits t to who effect takes claim Ht Hrow).
  destruct effect; inv_ok; subst; [done|by eexists|done].
Qed.

Lemma done_without_run_safe t reason actor work now :
  task_ok t → done_without_run t reason actor work now ≠ Panic.
Proof.
  intros Ht. unfold done_without_run. do 8 (apply rbind_no_panic; [safe|intros ? _]). rewrite stamp_eq. simpl.
  apply rbind_no_panic; [apply settle_safe; simpl; lia|intros d (_ & _ & -> & _)%settle_Ok]. done.
Qed.

Lemma finish_safe t runs now : ta_superseded_by t = [] → finish t runs now ≠ Panic.
Proof.
  intros Hs. unfold finish. rewrite stamp_eq. simpl. apply rbind_no_panic; [safe|intros open _].
  apply rbind_no_panic; [unfold lost_at; safe|intros run Hrun].
  apply rbind_no_panic; [|intros _ _].
  { apply assert_that_safe. destruct open as [r|]; inv_ok; [|by subst]. subst.
    unfold lost_at in *. match goal with H : run_ended _ _ _ _ _ = _ |- _ => apply run_ended_Ok in H as (_ & _ & ->) end.
    done. }
  rewrite Hs. simpl. apply rbind_no_panic; [apply settle_safe; simpl; lia|intros d (_ & _ & -> & _)%settle_Ok]. done.
Qed.

Lemma completable_Ok t u : completable t = Ok u → ta_superseded_by t = [].
Proof.
  unfold completable, not_superseded. intros Hc. destruct (ta_status t); try done. inv_ok. by split_bools.
Qed.
Lemma completable_safe t : completable t ≠ Panic.
Proof. unfold completable. safe. Qed.

Lemma complete_merged_safe t merged changes runs now : complete_merged t merged changes runs now ≠ Panic.
Proof.
  unfold complete_merged. apply rbind_no_panic; [apply completable_safe|intros u Hc%completable_Ok].
  do 4 (apply rbind_no_panic; [safe|intros ? _]). by apply map_ok_no_panic, finish_safe.
Qed.

(** * Starts and drafts *)

Lemma same_committer_refl who : same_committer who who = true.
Proof. unfold same_committer, eq_ignore_ascii_case. by rewrite bool_decide_true. Qed.

(** The claim a start works under. *)
Lemma start_claim t tasks actor now next :
  task_ok t →
  match ta_status t with
  | Ready => move_reads t Claimed actor (now `max` ta_updated t)%N ;? relations_allow t Claimed tasks ;?
             let? c := new_claim actor t now in Ok (with_claim (Some c) t)
  | Claimed | Review | Blocked =>
      assert_that (bool_decide (lifecycle_action (ta_status t) InProgress = Some ActStart)) ;? renew t actor now
  | InProgress => renew t actor now
  | Draft | Done | Archived => Err (BoardRuleError.NotAllowed (ta_status t) InProgress)
  end = Ok next →
  (ta_updated next <= now `max` ta_updated t)%N ∧ ∃ c, ta_claim next = Some c
  ∧ same_committer (cl_holder c) actor = true ∧ (cl_since c <= now `max` ta_updated t)%N.
Proof.
  intros Ht Hn. pose proof (task_ok_times t Ht) as Htimes.
  assert (∀ n, renew t actor now = Ok n → (ta_updated n <= now `max` ta_updated t)%N ∧ ∃ c, ta_claim n = Some c
    ∧ same_committer (cl_holder c) actor = true ∧ (cl_since c <= now `max` ta_updated t)%N) as Hrenew.
  { intros n (c & Hc & Hs & -> & _)%renew_Ok; [|done].
    pose proof (task_ok_claim_bounds t c Ht Hc) as (_ & Hb & _). simpl. split; [lia|].
    eexists. split_and!; [done|done|simpl; lia]. }
  destruct (ta_status t); inv_ok; try by apply Hrenew.
  match goal with H : new_claim _ _ _ = _ |- _ => apply new_claim_Ok in H as (-> & _ & _) end. simpl.
  split; [lia|]. eexists. split_and!; [done|apply same_committer_refl|simpl; lia].
Qed.

Lemma start_safe t tasks runs plan actor now : task_ok t → start t tasks runs plan actor now ≠ Panic.
Proof.
  intros Ht. unfold start. rewrite stamp_eq. simpl. apply rbind_no_panic.
  { destruct (ta_status t) eqn:Hst; try done; try by apply renew_safe.
    do 2 (apply rbind_no_panic; [safe|intros ? _]). apply rbind_no_panic; [by apply new_claim_safe|done]. }
  intros next Hnext. apply start_claim in Hnext as (Hle & c & Hc & Hs & Hsince); [|done].
  apply rbind_no_panic; [safe|intros p _]. apply rbind_no_panic; [by apply settle_safe|intros started Hst].
  apply settle_Ok in Hst as (_ & _ & -> & _).
  apply rbind_no_panic; [safe|intros run (-> & _)%begin_run_Ok]. simpl.
  rewrite !bool_decide_true by (done || lia). simpl. rewrite Hc, Hs. simpl.
  by rewrite (proj2 (N.leb_le _ _) Hsince).
Qed.

#[local] Hint Resolve Entry_title_safe Entry_description_safe : safe.

Lemma edit_draft_safe t edit now : edit_draft t edit now ≠ Panic.
Proof.
  unfold edit_draft. rewrite stamp_eq. do 3 (apply rbind_no_panic; [safe|intros ? _]). simpl.
  apply rbind_no_panic; [safe|intros ? _]. apply settle_safe.
  destruct (ed_depends_on edit), (ed_parent edit), (changed_text (ed_description edit) _), (ed_title edit); simpl; lia.
Qed.

(** * Plans *)

Lemma held_text_take_safe held free i : held_text_take held free i ≠ Panic.
Proof.
  unfold held_text_take. destruct (held_text_matches held free i) as [k|] eqn:Hm; [|done].
  unfold held_text_matches in Hm. apply position_Some in Hm as [([h f] & Hk & Hp) _].
  apply lookup_zip_Some in Hk as [_ Hk]. rewrite Hk. simpl in *. split_bools. by subst.
Qed.

Lemma PlanEntry_item_safe e field i : PlanEntry_item e field i ≠ Panic.
Proof.
  destruct e; [|done]. unfold PlanEntry_item, capped_item, within.
  do 2 (apply rbind_no_panic; [by apply assert_that_safe|intros _ _]).
  apply rbind_no_panic; [safe|intros _ _]. apply rbind_no_panic; [safe|intros [] Hc].
  apply ensure_Ok, andb_true_iff in Hc as [H1%negb_true_iff%Nat.ltb_ge H2%negb_true_iff%Nat.ltb_ge].
  apply rbind_no_panic; [|intros _ _; safe].
  apply assert_that_safe, andb_true_iff. split; by apply Nat.leb_le.
Qed.

#[local] Hint Resolve held_text_take_safe PlanEntry_item_safe : safe.

Lemma entered_items_safe entry held items : ∀ free index, entered_items entry held free index items ≠ Panic.
Proof.
  induction items as [|i items IH]; intros free index; simpl; [done|]. unfold entered_item. safe.
Qed.
#[local] Hint Resolve entered_items_safe : safe.

Lemma content_entered_safe c held : content_entered c held ≠ Panic.
Proof. unfold content_entered, PlanEntry_approach, within. safe. Qed.

Lemma open_to_plans_safe t : open_to_plans t ≠ Panic.
Proof. unfold open_to_plans. safe. Qed.
Lemma plans_of_task_safe t versions : plans_of_task t versions ≠ Panic.
Proof. apply ensure_no_panic. Qed.
Lemma is_draft_safe p : is_draft p ≠ Panic.
Proof. unfold is_draft. safe. Qed.
Lemma as_read_safe p read : as_read p read ≠ Panic.
Proof. apply ensure_no_panic. Qed.
Lemma as_accepted_safe t expected : as_accepted t expected ≠ Panic.
Proof. apply ensure_no_panic. Qed.
Lemma may_build_on_safe when p : may_build_on when p ≠ Panic.
Proof. apply ensure_no_panic. Qed.
Lemma decides_safe t actor now : decides t actor now ≠ Panic.
Proof. unfold decides. safe. Qed.
#[local] Hint Resolve content_entered_safe open_to_plans_safe plans_of_task_safe is_draft_safe as_read_safe as_accepted_safe may_build_on_safe decides_safe : safe.
Lemma plans_consistent_safe t versions : plans_consistent t versions ≠ Panic.
Proof. unfold plans_consistent. safe. Qed.
#[local] Hint Resolve plans_consistent_safe : safe.

Lemma propose_at_safe t versions c actor when : propose_at t versions c actor when ≠ Panic.
Proof. unfold propose_at. safe. Qed.

Lemma edit_plan_draft_safe t versions p c expected actor when :
  p ∈ versions → edit_plan_draft t versions p c expected actor when ≠ Panic.
Proof. intros Hp. unfold edit_plan_draft. rewrite bool_decide_true by done. simpl. safe. Qed.

Lemma discard_safe t versions p expected actor when : p ∈ versions → discard t versions p expected actor when ≠ Panic.
Proof. intros Hp. unfold discard. rewrite bool_decide_true by done. simpl. safe. Qed.

Lemma accepted_versions_app a b : accepted_versions (a ++ b) = accepted_versions a ++ accepted_versions b.
Proof. unfold accepted_versions. by rewrite list.filter_app, fmap_app. Qed.
Lemma accepted_versions_none l : accepted_versions (filter (λ p, pl_state p ≠ PlanAccepted) l) = [].
Proof.
  unfold accepted_versions. rewrite list_filter_filter. induction l as [|p l IH]; [done|]. rewrite filter_cons.
  case_decide as Hp; [by destruct Hp|done].
Qed.

Lemma accept_safe t versions runs version expected actor when : accept t versions runs version expected actor when ≠ Panic.
Proof.
  unfold accept. do 2 (apply rbind_no_panic; [safe|intros ? _]).
  apply rbind_no_panic; [safe|intros chosen Hch]. inv_ok. apply List.find_some in Hch as [_ Hv%N.eqb_eq].
  do 6 (apply rbind_no_panic; [safe|intros ? _]). rewrite stamp_eq. simpl.
  set (before := List.find _ versions). rewrite after_last_eq. simpl. rewrite after_plans_eq. simpl.
  rewrite not_before_eq. simpl.
  destruct (acceptance_stamp t (mo_now when) (chosen :: option_list before) (stamps_of versions when) chosen
    (list_elem_of_here _ _)) as [Hut _]. simpl in Hut.
  apply rbind_no_panic; [apply settle_safe; exact Hut|intros task (_ & _ & -> & _)%settle_Ok].
  apply rbind_no_panic; [safe|intros plan Hplan]. inv_ok. apply Plan_new_Ok in Hplan as [-> _].
  apply rbind_no_panic; [safe|intros superseded Hsup].
  apply rbind_no_panic; [|done]. apply assert_that_safe. rewrite accepted_versions_app, accepted_versions_none. simpl.
  apply andb_true_iff. split; [apply bool_decide_eq_true|by apply bool_decide_eq_true].
  assert (accepted_versions (option_list superseded) = []) as Hs.
  { destruct before; inv_ok; subst; [|done].
    match goal with H : Plan_new _ = Ok _ |- _ => apply Plan_new_Ok in H as [-> _] end. done. }
  unfold accepted_versions in *. rewrite filter_cons_True by done. rewrite fmap_cons, Hs. by subst.
Qed.

(** * Changes and reviews *)

Lemma changes_consistent_safe t changes : changes_consistent t changes ≠ Panic.
Proof. unfold changes_consistent, changes_of_task. safe. Qed.
Lemma changes_not_ahead_safe changes when : changes_not_ahead changes when ≠ Panic.
Proof. unfold changes_not_ahead. safe. Qed.
#[local] Hint Resolve changes_consistent_safe changes_not_ahead_safe : safe.

(** The stamps taken after the check that no change is ahead. *)
Lemma change_stamps_safe changes when u : changes_not_ahead changes when = Ok u → change_stamps changes when ≠ Panic.
Proof.
  unfold changes_not_ahead, change_stamps. destruct (List.find _ changes) eqn:Hf; [done|intros _].
  apply collect_safe. intros c Hc. pose proof (List.find_none _ _ Hf c (proj1 (list_elem_of_In _ _) Hc)) as Hn.
  apply negb_false_iff in Hn. by rewrite Hn.
Qed.

Lemma add_pr_safe t holder pr board now : add_pr t holder pr board now ≠ Panic.
Proof.
  unfold add_pr, may_link. rewrite stamp_eq. do 3 (apply rbind_no_panic; [safe|intros ? _]). simpl.
  apply settle_safe. simpl. lia.
Qed.
Lemma remove_pr_safe t holder pr now : remove_pr t holder pr now ≠ Panic.
Proof.
  unfold remove_pr. rewrite stamp_eq. apply rbind_no_panic; [safe|intros ? _]. case_match; [|done]. simpl.
  apply settle_safe. simpl. lia.
Qed.

Lemma link_safe t board head host actor when : link t board head host actor when ≠ Panic.
Proof.
  unfold link. do 2 (apply rbind_no_panic; [safe|intros ? _]). apply rbind_no_panic; [safe|intros u Ha].
  unfold linkable, old_way. do 3 (apply rbind_no_panic; [safe|intros ? _]).
  apply rbind_no_panic; [by eapply change_stamps_safe|intros stamps _]. safe.
Qed.

Lemma unlink_safe t changes number host actor when : unlink t changes number host actor when ≠ Panic.
Proof.
  unfold unlink. do 2 (apply rbind_no_panic; [safe|intros ? _]). apply rbind_no_panic; [safe|intros u Ha].
  do 4 (apply rbind_no_panic; [safe|intros ? _]).
  apply rbind_no_panic; [by eapply change_stamps_safe|intros stamps _]. unfold after_change. safe.
Qed.

Lemma length_omap_all {A B} (f : A → option B) l : filter (λ x, f x = None) l = [] → length (omap f l) = length l.
Proof.
  induction l as [|x l IH]; [done|]. rewrite filter_cons. case_decide as Hx; [done|]. intros Hf. simpl.
  destruct (f x); [|done]. simpl. f_equal. by apply IH.
Qed.

Lemma complete_safe t changes host runs when : complete t changes host runs when ≠ Panic.
Proof.
  unfold complete. apply rbind_no_panic; [apply completable_safe|intros u Hc%completable_Ok].
  do 5 (apply rbind_no_panic; [safe|intros ? _]). apply rbind_no_panic; [safe|intros [] Hu].
  apply rbind_no_panic; [safe|intros ? _]. apply ensure_Ok, bool_decide_eq_true, fmap_nil_inv in Hu.
  rewrite length_omap_all, Nat.eqb_refl by done. simpl.
  apply rbind_no_panic; [by apply finish_safe|intros fin _].
  apply rbind_no_panic; [|done]. apply collect_safe. intros [c commit] _. unfold after_change. safe.
Qed.

Lemma add_round_safe c review draft reviewer when : add_round c review draft reviewer when ≠ Panic.
Proof.
  unfold add_round. apply rbind_no_panic; [safe|intros _ _].
  apply rbind_no_panic; [destruct review; safe|intros [next at_] Hna].
  apply rbind_no_panic; [safe|intros added Hadd]. inv_ok. unfold Review_new in Hadd. inv_ok. subst. simpl.
  rewrite last_snoc, bool_decide_true by done. simpl.
  assert (rv_task next = ch_task c ∧ rv_change next = ch_number c
    ∧ match review with Some r => (rv_updated r <= at_)%N | None => True end) as (-> & -> & Hle).
  { destruct review as [r|]; inv_ok.
    - rewrite after_last_eq in *. unfold text_eqb in *. split_bools. rewrite N.eqb_eq in *.
      match goal with H : Ok _ = Ok _ |- _ => injection H as <- end. simplify_eq. split_and!; [done|done|lia].
    - by simplify_eq. }
  unfold text_eqb. rewrite bool_decide_true, N.eqb_refl by done. simpl.
  destruct review; [|done]. by rewrite (proj2 (N.leb_le _ _) Hle).
Qed.

Lemma issue_numbers_hold_safe tasks changes : issue_numbers_hold tasks changes ≠ Panic.
Proof. unfold issue_numbers_hold. safe. Qed.

(** * Discussions *)

Lemma entered_message_safe field t : entered_message field t ≠ Panic.
Proof. unfold entered_message. destruct (message_total t) as (normal & -> & _). simpl. safe. Qed.
#[local] Hint Resolve entered_message_safe : safe.

Lemma begin_discussion_safe o when : begin_discussion o when ≠ Panic.
Proof. unfold begin_discussion, entered_messages, messages_not_ahead. safe. Qed.
Lemma append_messages_safe d messages when : append_messages d messages when ≠ Panic.
Proof.
  unfold append_messages, discussion_open, discussion_built_on, entered_messages, messages_not_ahead, room. safe.
Qed.
Lemma link_discussion_safe d t when : link_discussion d t when ≠ Panic.
Proof. unfold link_discussion, discussion_built_on. safe. Qed.
Lemma close_discussion_safe d when : close_discussion d when ≠ Panic.
Proof. unfold close_discussion, discussion_open, discussion_built_on. safe. Qed.

End rule_safety.

#[export] Hint Resolve renew_safe take_over_safe move_reads_safe move_with_reason_safe add_pr_safe remove_pr_safe task_set_outcome_safe held_live_by_safe : safe.
#[export] Hint Resolve done_without_run_reads_safe done_without_run_safe completable_safe complete_merged_safe Task_entered_safe Description_read_safe edit_draft_safe : safe.
#[export] Hint Resolve propose_at_safe accept_safe as_accepted_safe start_safe run_and_plan_safe fold_back_safe task_after_end_safe task_after_undo_safe end_held_safe end_lost_safe : safe.
