(* ===== verification/BoardUseSafety.v ===== *)
(** No change of the board panics, nor does its commit: on a board of the invariant,
    the assertions of every use case hold as long as what it asks of others answers. *)

From stdpp Require Import gmap.
From S2P Require Import Prelude BoardText BoardTextFacts BoardSchema BoardDescription BoardTask BoardArtifacts BoardClaims BoardRuns BoardTransitions BoardPlans BoardChanges BoardView BoardScrub BoardFoldBack BoardUseCases BoardFacts BoardCycles BoardRuleFacts BoardInvariant BoardSteps BoardHistory BoardCommit BoardEntrySafety BoardFoldBackFacts BoardRuleSafety.

(** * The board's own reads *)

Lemma clear_of_safe b in_scope : clear_of b in_scope ≠ Panic.
Proof. unfold clear_of, first_set_aside. safe. Qed.
Lemma once_safe {A} (items : list A) key : once items key ≠ Panic.
Proof. unfold once. safe. Qed.
#[export] Hint Resolve clear_of_safe once_safe : safe.

Lemma board_task_safe b id : board_task b id ≠ Panic.
Proof. unfold board_task. safe. Qed.
Lemma board_plans_of_safe b id : board_plans_of b id ≠ Panic.
Proof. unfold board_plans_of. safe. Qed.
Lemma board_runs_of_safe b id : board_runs_of b id ≠ Panic.
Proof. unfold board_runs_of. safe. Qed.
Lemma board_changes_of_safe b id : board_changes_of b id ≠ Panic.
Proof. unfold board_changes_of. safe. Qed.
Lemma board_all_changes_safe b : board_all_changes b ≠ Panic.
Proof. unfold board_all_changes. safe. Qed.
Lemma board_naming_safe b id : board_naming b id ≠ Panic.
Proof. unfold board_naming. safe. Qed.
Lemma tasks_clear_safe b : tasks_clear b ≠ Panic.
Proof. apply clear_of_safe. Qed.
Lemma links_readable_safe b : links_readable b ≠ Panic.
Proof. unfold links_readable. safe. Qed.
Lemma rule_safe {A} (m : res RuleError A) : m ≠ Panic → rule m ≠ Panic.
Proof. apply map_err_no_panic. Qed.
Lemma coordinator_model_named_safe team : coordinator_model_named team ≠ Panic.
Proof. apply ensure_no_panic. Qed.

#[export] Hint Resolve board_task_safe board_plans_of_safe board_runs_of_safe board_changes_of_safe board_all_changes_safe : safe.
#[export] Hint Resolve board_naming_safe tasks_clear_safe links_readable_safe rule_safe coordinator_model_named_safe : safe.

Section use_safety.
Context `{Shapes} `{!KeyLeads}.
Variable b : BoardSnapshot.
Hypothesis held : board_ok b.
Hypothesis items_ids : board_named b.

Lemma board_task_ok id t : board_task b id = Ok t → task_ok t ∧ t ∈ bo_tasks b.
Proof. intros [Hin _]%board_task_Ok. split; [|done]. by apply (tp_task _ _ _ (bk_parts b held t Hin)). Qed.

Lemma pointers_hold_safe refs : pointers_hold b refs ≠ Panic.
Proof.
  unfold pointers_hold. apply rbind_no_panic.
  - apply each_no_panic. intros i reference _. pose proof (board_task_safe b reference). by destruct (board_task b reference) as [|[]|].
  - intros _ _. destruct (cycle_closers_spec (bo_tasks b) refs (bk_ids b held)) as (closers & Hc & _).
    unfold cycle_closer. rewrite Hc. simpl. safe.
Qed.

(** ** Pins *)

Variable object_at : BoardHead → ArtifactKey → res BoardError (option N).
Hypothesis object_answers : ∀ head k, object_at head k ≠ Panic.

Lemma unchanged_since_safe k rev : is_Some (board_artifact b k) → unchanged_since object_at b k rev ≠ Panic.
Proof. intros Hk. unfold unchanged_since, unchanged_at. rewrite bool_decide_true by done. safe. Qed.

Lemma held_under_Some {A} (key_of : A → ArtifactKey) wrap (l : list A) x :
  x ∈ l → is_Some (held_under key_of wrap l (key_of x)).
Proof.
  intros Hx. unfold held_under. apply fmap_is_Some. destruct (List.find _ l) eqn:Hf; [by eexists|].
  pose proof (List.find_none _ _ Hf x (proj1 (list_elem_of_In _ _) Hx)) as Hn. by apply bool_decide_eq_false in Hn.
Qed.

Lemma task_as_read_safe t pin : t ∈ bo_tasks b → task_as_read object_at b t pin ≠ Panic.
Proof.
  intros Ht. unfold task_as_read. destruct pin as [pin|]; [|done].
  apply rbind_no_panic; [|intros holds _; apply ensure_no_panic]. destruct pin; [|done].
  by apply unchanged_since_safe, (held_under_Some of_task).
Qed.

Lemma plan_read_safe p pin : (∀ q, p = Some q → q ∈ bo_plans b) → plan_read object_at b p pin ≠ Panic.
Proof.
  intros Hp. unfold plan_read. destruct pin as [[rev|expected]|]; [|done..]. destruct p as [p|]; [|done].
  apply rbind_no_panic; [|done]. by apply unchanged_since_safe, (held_under_Some of_plan), Hp.
Qed.

(** ** Tasks *)

Variable actor : Identity.

Lemma apply_safe t op now : task_ok t → apply actor t b op now ≠ Panic.
Proof. intros Ht. unfold apply, may_link. destruct op; safe. Qed.

Lemma change_board_task_safe id op when : change_board_task actor object_at id op b when ≠ Panic.
Proof.
  unfold change_board_task. apply rbind_no_panic; [safe|intros t [Ht Hin]%board_task_ok].
  apply rbind_no_panic; [destruct op; try done; by apply task_as_read_safe|intros _ _].
  apply rbind_no_panic; [by apply apply_safe|done].
Qed.

Variable host : option ((nat → bool) * (N → res BoardError PullRequestState)).
Hypothesis host_answers : ∀ late state pr, host = Some (late, state) → state pr ≠ Panic.

Lemma merged_safe linked : merged host linked ≠ Panic.
Proof.
  unfold merged. destruct host as [[late state]|] eqn:Hh; [|done].
  assert (∀ pr, state pr ≠ Panic) as Hs by (intros; by eapply host_answers).
  generalize (∅ : gset N). generalize 0. induction linked as [|pr linked IH]; intros i merged; simpl; [done|]. safe.
Qed.

Lemma finish_without_run_safe id reason when : finish_without_run actor host id reason b when ≠ Panic.
Proof.
  unfold finish_without_run. apply rbind_no_panic; [safe|intros t [Ht Hin]%board_task_ok].
  do 5 (apply rbind_no_panic; [safe|intros ? _]). apply rbind_no_panic; [|done].
  case_decide; [done|]. apply rbind_no_panic; [apply merged_safe|intros; safe].
Qed.

Lemma complete_merged_task_safe id when : complete_merged_task host id b when ≠ Panic.
Proof.
  unfold complete_merged_task. apply rbind_no_panic; [safe|intros t [Ht Hin]%board_task_ok].
  do 3 (apply rbind_no_panic; [safe|intros ? _]). apply rbind_no_panic; [safe|intros done_ Hdone].
  apply rbind_no_panic; [safe|intros _ _]. apply map_err_Ok, complete_merged_Ok in Hdone as (_ & Hprs & _ & _).
  apply rbind_no_panic; [|intros _ _].
  { apply assert_that_safe, negb_true_iff, bool_decide_eq_false. intros He. apply Hprs.
    destruct (ta_prs t) as [|pr prs]; [done|]. exfalso. apply (not_elem_of_empty (C := gset N) pr).
    rewrite <- He. apply elem_of_list_to_set, list_elem_of_here. }
  apply rbind_no_panic; [apply merged_safe|intros m _]. apply rbind_no_panic; [safe|done].
Qed.

(** ** Drafts *)

Variable cell_holds prose_holds : text → bool.

Lemma description_held_safe description entry : description_held cell_holds prose_holds description entry ≠ Panic.
Proof. unfold description_held. safe. Qed.

Lemma text_given_safe t : text_given t ≠ Panic.
Proof. unfold text_given. safe. Qed.

Lemma create_board_task_safe n when : create_board_task cell_holds prose_holds n b when ≠ Panic.
Proof.
  unfold create_board_task, free, created_at. apply rbind_no_panic.
  - pose proof (board_task_safe b (nt_id n)). destruct (board_task b (nt_id n)) as [|[]|]; try done.
    apply rbind_no_panic; [safe|intros named _]. case_match; [done|apply pointers_hold_safe].
  - intros _ _. apply rbind_no_panic; [safe|intros fields _]. apply rbind_no_panic; [safe|intros t _].
    apply rbind_no_panic; [apply map_err_no_panic, description_held_safe|done].
Qed.

Lemma update_draft_task_safe u when : update_draft_task object_at cell_holds prose_holds u b when ≠ Panic.
Proof.
  unfold update_draft_task. apply rbind_no_panic; [apply text_given_safe|intros description _].
  apply rbind_no_panic; [safe|intros t [Ht Hin]%board_task_ok].
  apply rbind_no_panic; [by apply task_as_read_safe|intros _ _]. apply rbind_no_panic; [safe|intros edited _].
  apply rbind_no_panic; [case_match; [apply map_err_no_panic, description_held_safe|done]|intros _ _].
  apply rbind_no_panic; [apply pointers_hold_safe|done].
Qed.

(** ** Plans *)

Lemma handoff_given_safe raw : handoff_given raw ≠ Panic.
Proof. unfold handoff_given. safe. Qed.
Hint Resolve handoff_given_safe text_given_safe : safe.

Lemma propose_plan_safe p when : propose_plan actor p b when ≠ Panic.
Proof. unfold propose_plan. safe. Qed.

Lemma plan_of_version_in versions version p : plan_of_version versions version = Some p → p ∈ versions.
Proof. intros [Hin _]%List.find_some. by apply list_elem_of_In. Qed.

(** An edit keeps what it does not give. *)
Lemma kept_in_safe given t versions p read when edited :
  edit_plan_draft t versions p (applied_to given p) read actor when = Ok edited → kept_in given p edited ≠ Panic.
Proof.
  unfold edit_plan_draft. rewrite not_before_eq. intros He. inv_ok. apply Plan_new_Ok in He as [-> _].
  unfold kept_in, applied_to, text_eqb. simpl.
  destruct (pt_approach given), (pt_handoff given), (pt_items given), (pt_team given); simpl;
    rewrite ?bool_decide_true by done; done.
Qed.

Lemma edit_plan_safe e when : edit_plan actor object_at e b when ≠ Panic.
Proof.
  unfold edit_plan. do 3 (apply rbind_no_panic; [safe|intros ? _]).
  apply rbind_no_panic; [safe|intros versions Hv]. apply rbind_no_panic; [safe|intros p Hp].
  apply or_err_Ok, plan_of_version_in in Hp. pose proof (proj1 (board_plans_of_Ok _ _ _ Hv p) Hp) as [Hin _].
  apply rbind_no_panic; [apply plan_read_safe; by intros ? [= <-]|intros read _].
  apply rbind_no_panic; [by apply rule_safe, edit_plan_draft_safe|intros edited He%map_err_Ok].
  apply rbind_no_panic; [by eapply kept_in_safe|intros _ _]. safe.
Qed.

Lemma accept_plan_safe a when : accept_plan actor object_at a b when ≠ Panic.
Proof.
  unfold accept_plan. apply rbind_no_panic; [safe|intros ? _]. apply rbind_no_panic; [safe|intros versions Hv].
  apply rbind_no_panic; [safe|intros ? _]. apply rbind_no_panic; [|intros; safe].
  apply plan_read_safe. intros q Hq%plan_of_version_in. by apply (board_plans_of_Ok _ _ _ Hv q).
Qed.

Lemma discard_plan_safe id version expected when : discard_plan actor object_at id version expected b when ≠ Panic.
Proof.
  unfold discard_plan. apply rbind_no_panic; [safe|intros ? _].
  apply rbind_no_panic; [safe|intros versions Hv]. apply rbind_no_panic; [safe|intros p Hp].
  apply or_err_Ok, plan_of_version_in in Hp. pose proof (proj1 (board_plans_of_Ok _ _ _ Hv p) Hp) as [Hin _].
  apply rbind_no_panic; [apply plan_read_safe; by intros ? [= <-]|intros read _].
  apply rbind_no_panic; [by apply rule_safe, discard_safe|done].
Qed.

(** ** Runs *)

Lemma begin_board_run_safe brief id version when : begin_board_run actor brief id version b when ≠ Panic.
Proof.
  unfold begin_board_run. apply rbind_no_panic; [safe|intros t [Ht Hin]%board_task_ok]. safe.
Qed.

(** What a run was of is a plan of the board. *)
Lemma run_plan_ok id runs plans number ran :
  board_plans_of b id = Ok plans → run_and_plan runs plans number = Ok ran → plan_ok ran.2 ∧ items_named (pl_items ran.2).
Proof.
  destruct ran as [r p]. intros Hpl (_ & _ & Hp & _)%run_and_plan_Ok. apply (board_plans_of_Ok _ _ _ Hpl) in Hp as [Hp _].
  split; [|by apply items_ids]. destruct (bk_plans b held p Hp) as (t & Ht & Hi). by apply (tp_plans _ _ _ (bk_parts b held t Ht)).
Qed.

Lemma run_items_safe {E} p v how :
  plan_ok p → items_named (pl_items p) → view_ok v → run_items (E := E) cell_holds p v how ≠ Panic.
Proof.
  intros Hp Hn Hv. destruct (plan_ok_items p Hp) as [Hd Hl].
  destruct (run_items_Ok (E := E) cell_holds p v how Hd Hl Hn Hv) as (f & -> & _). done.
Qed.

Lemma fold_back_run_safe id number view ending how when :
  view_ok view → fold_back_run cell_holds id number view ending how b when ≠ Panic.
Proof.
  intros Hv. unfold fold_back_run. apply rbind_no_panic; [safe|intros t [Ht Hin]%board_task_ok].
  apply rbind_no_panic; [safe|intros runs _]. apply rbind_no_panic; [safe|intros plans Hpl].
  apply rbind_no_panic; [safe|intros ran Hran%map_err_Ok]. destruct (run_plan_ok _ _ _ _ _ Hpl Hran).
  apply rbind_no_panic; [by apply run_items_safe|intros items _]. destruct ending; safe.
Qed.

Variable remote : Remote.
Hypothesis hex_answers : rm_commit_id_hex_len remote ≠ Panic.
Hypothesis remote_answers : ∀ ids, rm_not_on_remote remote ids ≠ Panic.
Hypothesis remote_asked : ∀ ids missing, rm_not_on_remote remote ids = Ok missing → missing ⊆ ids.

Lemma judged_evidence_safe evidence : judged_evidence remote evidence ≠ Panic.
Proof.
  unfold judged_evidence, unchecked, usize_sub. case_match; [done|].
  apply rbind_no_panic; [done|intros id_len _]. apply rbind_no_panic.
  - rewrite (proj2 (Nat.leb_le _ _)); [done|]. apply length_filter.
  - intros n _. apply rbind_no_panic; [|done]. case_match; [done|].
    apply rbind_no_panic; [done|intros missing Hm%remote_asked]. apply rbind_no_panic; [|done].
    apply assert_that_safe, forallb_forall. intros m Hin%list_elem_of_In. by apply bool_decide_eq_true, Hm.
Qed.

Lemma unpushed_safe p v : view_ok v → unpushed remote p v ≠ Panic.
Proof.
  intros Hv. unfold unpushed, evidence_revisions. apply rbind_no_panic; [|intros; apply map_ok_no_panic, judged_evidence_safe].
  apply rbind_no_panic; [|done]. apply collect_safe. intros i _. by apply returns_no_panic, matched_returns.
Qed.

Lemma reported_safe report folded p swarm n :
  plan_ok p → items_named (pl_items p) → reported cell_holds report folded p swarm n ≠ Panic.
Proof.
  intros Hp Hn. unfold reported.
  assert (run_items (E := BoardError) cell_holds p (mkSwarmView swarm [] 0) EvidenceLeft ≠ Panic).
  { apply run_items_safe; [done..|constructor]. }
  destruct report, folded; by apply rbind_no_panic || done.
Qed.

Lemma end_run_ended_task r report how when t ended :
  end_run_ended actor object_at cell_holds remote r report how b when = Ok (t, ended) → task_ok t.
Proof. unfold end_run_ended. intros He. inv_ok. simplify_eq. by eapply board_task_ok. Qed.

Lemma end_run_ended_safe r report how when :
  (∀ view, report = Some view → view_ok view) →
  end_run_ended actor object_at cell_holds remote r report how b when ≠ Panic.
Proof.
  intros Hv. unfold end_run_ended. apply rbind_no_panic; [safe|intros t [Ht Hin]%board_task_ok].
  apply rbind_no_panic; [by apply task_as_read_safe|intros _ _].
  apply rbind_no_panic; [safe|intros runs _]. apply rbind_no_panic; [safe|intros plans Hpl].
  apply rbind_no_panic; [safe|intros ran Hran%map_err_Ok]. destruct (run_plan_ok _ _ _ _ _ Hpl Hran) as [Hp Hn].
  apply rbind_no_panic; [safe|intros _ _]. apply rbind_no_panic.
  { destruct report; [|done]. apply map_ok_no_panic, run_items_safe; auto. }
  intros folded _. cbv zeta.
  assert (∀ e swarm n, (let? known := reported cell_holds report folded ran.2 swarm n in
    rule (end_held t ran e known actor (mo_now when))) ≠ Panic) as Hheld.
  { intros e swarm n. apply rbind_no_panic; [by apply reported_safe|intros; safe]. }
  apply rbind_no_panic; [|done]. destruct (re_outcome r), report; try apply Hheld.
  - apply rbind_no_panic; [apply Hheld|intros _ _]. apply rbind_no_panic; [apply unpushed_safe; auto|intros; apply Hheld].
  - apply rbind_no_panic; [by apply reported_safe|intros; safe].
  - apply rbind_no_panic; [by apply reported_safe|intros; safe].
Qed.

Lemma end_run_safe r ended left how when :
  (∀ view, ended = Some view ∨ left = Some view → view_ok view) →
  end_run actor object_at cell_holds remote r ended left how b when ≠ Panic.
Proof.
  intros Hv. unfold end_run. apply rbind_no_panic.
  - apply end_run_ended_safe. intros view Hr. apply Hv. destruct (re_outcome r); [by left|..]; destruct ended, left; naive_solver.
  - intros [t run] Ht%end_run_ended_task. apply rbind_no_panic; [safe|done].
Qed.

End use_safety.

(** * Commits *)

Section commit_safety.
Context `{Shapes} `{!KeyLeads}.

(** What the store, the host and the remote answer is an answer or an error. *)
Record answering (a : Answers) : Prop := {
  aw_object : ∀ head k, an_object_at a head k ≠ Panic;
  aw_host : ∀ late state pr, an_host a = Some (late, state) → state pr ≠ Panic;
  aw_hex : rm_commit_id_hex_len (an_remote a) ≠ Panic;
  aw_remote : ∀ ids, rm_not_on_remote (an_remote a) ids ≠ Panic;
  (** The remote answers only for the revisions asked. *)
  aw_asked : ∀ ids missing, rm_not_on_remote (an_remote a) ids = Ok missing → missing ⊆ ids;
}.

Lemma declared_safe b a change w when : board_ok b → board_named b → answering a → declares a change w → change b when ≠ Panic.
Proof.
  intros Hb Hn [Ho Hh Hx Hr Ha] Hd. destruct Hd.
  - by apply change_board_task_safe.
  - by apply finish_without_run_safe.
  - by apply complete_merged_task_safe.
  - by apply create_board_task_safe.
  - by apply update_draft_task_safe.
  - by apply propose_plan_safe.
  - by apply edit_plan_safe.
  - by apply accept_plan_safe.
  - by apply discard_plan_safe.
  - by apply begin_board_run_safe.
  - by apply fold_back_run_safe.
  - by apply end_run_safe.
Qed.

Lemma checked_now_safe now reference : now ≠ Panic → checked_now now reference ≠ Panic.
Proof. intros Hn. unfold checked_now, plus_seconds. safe. Qed.

Context {St : Type} `{BoardStoreLaws St}.
Variable now : nat → res BoardError Timestamp.
Variable reference : nat → option Timestamp.
Variable a : Answers.
Variable change : nat → BoardChange.
Variable w : Writes.
Hypothesis clock_answers : ∀ n, now n ≠ Panic.
Hypothesis others_answer : answering a.
Hypothesis declared : ∀ n, declares a (change n) w.
Hypothesis read_answers : ∀ st : St, (store_read st).1 ≠ Panic.
Hypothesis write_answers : ∀ head artifacts (st : St), (store_write head artifacts st).1 ≠ Panic.

Lemma attempt_safe number st :
  (∀ st', others st st' → board_ok (board_of st') ∧ board_named (board_of st')) → (attempt now reference change w number st).1 ≠ Panic.
Proof.
  intros Hok. unfold attempt. pose proof (read_answers st) as Hr.
  destruct (store_read st) as [[b|e|] st1] eqn:Hread; [|done..]. apply read_board in Hread as [Ho <-].
  destruct (Hok st1 Ho) as [Hb Hn].
  match goal with |- context [match ?built with Ok _ => _ | _ => _ end] => destruct built as [artifacts|e|] eqn:Hbuilt end;
    [|done|].
  - case_match; [done|]. pose proof (write_answers (bo_head (board_of st1)) artifacts st1) as Hw.
    destruct (store_write _ _ _) as [[[head| |]|e|] st2] eqn:Hwrite; [|done..].
    apply write_written in Hwrite as [Hne _]. by rewrite (proj2 (N.eqb_neq _ _) Hne).
  - exfalso. revert Hbuilt. apply rbind_no_panic; [by apply checked_now_safe|intros when _].
    apply rbind_no_panic; [by eapply declared_safe|intros artifacts Hc].
    rewrite (declared_shape _ _ _ _ _ _ Hb (declared number) Hc). done.
Qed.

Lemma retried_safe remaining : ∀ number st,
  (∀ st', others st st' → board_ok (board_of st') ∧ board_named (board_of st')) → (retried now reference change w remaining number st).1 ≠ Panic.
Proof.
  induction remaining as [|remaining IH]; intros number st Hok; [done|]. simpl.
  pose proof (attempt_safe number st Hok) as Ha.
  destruct (attempt _ _ _ _ number st) as [[[artifacts|]|e|] st2] eqn:Hat; [done| |done..].
  apply attempt_spec in Hat. apply IH. intros st' Hst'. apply Hok. by etrans.
Qed.

End commit_safety.
