(* ===== verification/BoardProps.v ===== *)
(** The properties of the project board: what every board its use cases lead to is
    like, what a change leaves as it was, and how changes race. *)

From stdpp Require Import gmap.
From S2P Require Import Prelude BoardText BoardSchema BoardDescription BoardTask BoardArtifacts BoardClaims BoardRuns BoardTransitions BoardPlans BoardChanges BoardView BoardScrub BoardFoldBack BoardUseCases BoardFacts BoardCycles BoardRuleFacts BoardInvariant BoardSteps BoardHistory BoardCommit BoardEntrySafety BoardFoldBackFacts BoardRuleSafety BoardUseSafety.

(** * A board the witnesses use *)

Module Demo.

(** Any text has any shape; lower-case letters are the alphanumeric ones. *)
#[export] Instance shapes : Shapes := {
  ON_ONE_LINE _ := true; MARKDOWN _ := true; VISIBLE _ := true; NAME _ := true; MODEL _ := true;
  IMAGE _ := true; LOCATION _ := true; LINK _ := true; BARE _ := true;
  INVISIBLE _ := false; ADDRESS t := [inl t]; PATTERNS t := [inl t]; nfkc t := t;
  parse_rfc3339 _ := None; format_rfc3339_seconds _ := [];
  is_alphanumeric := is_ascii_lowercase; is_uppercase := is_ascii_uppercase; to_lowercase := to_ascii_lowercase;
}.

#[export] Instance leads : KeyLeads.
Proof. intros t lead Hin. apply elem_of_cons in Hin as [[=]|[]%not_elem_of_nil]. Qed.

Definition ann : Identity := mkIdentity (tx "Ann") (tx "ann@example.org").
Definition bob : Identity := mkIdentity (tx "Bob") (tx "bob@example.org").

Definition answers : Answers :=
  mkAnswers (λ _ _, Ok None) (λ _, true) (λ _, true) None (λ _, None) (mkRemote (Ok 40) (λ _, Ok [])).

Definition new_task (id : string) (depends_on : list Slug) : NewBoardTask :=
  mkNewTask (tx id) (tx "Title") KindTask (tx "Words.") true None depends_on EntryLegacy.
Definition proposal : PlanProposal :=
  mkProposal (tx "a") (tx "Approach.") None
    [mkItem (tx "x") (tx "First") [] []; mkItem (tx "y") (tx "Then") [] [tx "x"]] None LegacyPlan.
Definition report : SwarmRunView :=
  mkSwarmView SwarmSucceeded
    [mkSwarmItem (tx "x: First") SwarmItemCompleted (Some (tx "worker")) [mkEvidence (tx "tests") (tx "0123456789abcdef")] None;
     mkSwarmItem (tx "y: Then") SwarmItemCompleted None [] None] 500%N.

(** The changes of one task's life, and a second task that waits for it. *)
Definition create_a := create_board_task (an_cell_holds answers) (an_prose_holds answers) (new_task "a" []).
Definition create_b := create_board_task (an_cell_holds answers) (an_prose_holds answers) (new_task "b" [tx "a"]).
Definition propose := propose_plan ann proposal.
Definition accept_it := accept_plan ann (an_object_at answers) (mkAcceptance (tx "a") 1%N (PinUpdated 1002%N) None).
Definition begin := begin_board_run ann (an_brief_refusal answers) (tx "a") 1%N.
Definition run_end : RunEnd := mkRunEnd (tx "a") 1%N EndSucceeded None None.
Definition end_it :=
  end_run ann (an_object_at answers) (an_cell_holds answers) (an_remote answers) run_end (Some report) None EvidenceKept.
Definition move_done := change_board_task ann (an_object_at answers) (tx "a") (OpMove Done ReasonAbsent).
Definition claim_b := change_board_task bob (an_object_at answers) (tx "b") (OpMove Claimed ReasonAbsent).

Definition at_second (now : N) : Moment := mkMoment now None.
Definition made (change : BoardChange) (now : N) (b : BoardSnapshot) : BoardSnapshot :=
  match change b (at_second now) with Ok artifacts => write_all b artifacts | Err _ | Panic => b end.

Definition created : BoardSnapshot := made create_b 1001 (made create_a 1000 (empty_board 0%N)).
Definition accepted : BoardSnapshot := made accept_it 1003 (made propose 1002 created).
Definition begun : BoardSnapshot := made begin 1004 accepted.
Definition reviewed : BoardSnapshot := made end_it 1005 begun.
Definition claimed : BoardSnapshot := made claim_b 1007 (made move_done 1006 reviewed).

(** A change made, or refused, is a step or none. *)
Lemma made_steps change now b : board_change change → rtc board_step b (made change now b).
Proof.
  intros Hc. unfold made. destruct (change b (at_second now)) as [artifacts| |] eqn:He; [|done..].
  apply rtc_once. by eapply bs_change.
Qed.

Lemma user_steps actor change now b : user_change actor change → rtc board_step b (made change now b).
Proof. intros. apply made_steps. right. by exists actor. Qed.

Lemma created_steps : rtc board_step (empty_board 0%N) created.
Proof.
  etrans; [apply (user_steps ann create_a 1000), uc_create|]. apply (user_steps ann create_b 1001), uc_create.
Qed.

Lemma proposal_named : items_named (pp_items proposal).
Proof. repeat constructor; by vm_compute. Qed.

Lemma begun_steps : rtc board_step created begun.
Proof.
  etrans; [apply (user_steps ann propose 1002), uc_propose, proposal_named|].
  etrans; [apply (user_steps ann accept_it 1003), uc_accept|].
  apply (user_steps ann begin 1004), uc_begin.
Qed.

Lemma reviewed_steps : rtc board_step begun reviewed.
Proof. apply (user_steps ann end_it 1005), uc_end. Qed.

Lemma claimed_steps : rtc board_step reviewed claimed.
Proof.
  etrans; [apply (user_steps ann move_done 1006), uc_change|]. apply (user_steps bob claim_b 1007), uc_change.
Qed.

Lemma begun_reachable : board_reachable begun.
Proof. exists 0%N. etrans; [apply created_steps|apply begun_steps]. Qed.

Lemma claimed_reachable : board_reachable claimed.
Proof.
  exists 0%N. etrans; [apply created_steps|]. etrans; [apply begun_steps|].
  etrans; [apply reviewed_steps|apply claimed_steps].
Qed.

(** A task of a board, by id. *)
Definition task_of_board (b : BoardSnapshot) (id : Slug) : option Task := List.find (λ t, text_eqb (ta_id t) id) (bo_tasks b).
Definition the_task (b : BoardSnapshot) (id : Slug) : Task :=
  default (mkTask [] [] KindTask [] FormLegacy Draft None [] None None [] None None [] [] 0 0 None)%N (task_of_board b id).

End Demo.

(** * Helpers *)

Lemma existsb_elem_iff {A} (f : A → bool) l : existsb f l = true ↔ ∃ x, x ∈ l ∧ f x = true.
Proof. rewrite existsb_exists. by setoid_rewrite list_elem_of_In. Qed.

Lemma inconsistencies_nil t runs :
  (ta_status t = InProgress ↔ ∃ r, r ∈ runs ∧ run_is_open r = true) →
  (ta_resolution t = Some Completed → runs ≠ []) → inconsistencies t runs = [].
Proof.
  intros Hg Hw. rewrite <- existsb_elem_iff in Hg. unfold inconsistencies.
  assert (bool_decide (ta_status t = Done) && bool_decide (ta_resolution t = Some Completed)
          && bool_decide (ta_accepted_plan t = None) && bool_decide (runs = []) = false) as ->.
  { destruct (decide (ta_resolution t = Some Completed)) as [Hr|Hr].
    - rewrite (bool_decide_false (runs = [])) by auto. by rewrite andb_false_r.
    - rewrite (bool_decide_false (ta_resolution t = _)) by done. by rewrite andb_false_r. }
  destruct (existsb run_is_open runs); [by rewrite (proj2 Hg)|].
  destruct (ta_status t); try done. by destruct Hg as [Hg _]; specialize (Hg eq_refl).
Qed.

Section board.
Context `{Shapes}.

(** * What every board is like *)

(** C19: On every board the use cases lead to, a task is in progress exactly while
    one run of its accepted plan is going; the plan accepted is the one it names;
    every run is one of a plan that was accepted; and a reader is told of no
    inconsistency. *)
Theorem board_consistent (b : BoardSnapshot) (t : Task) :
  board_reachable b → t ∈ bo_tasks b →
  let runs := filter (λ r, ru_task r = ta_id t) (bo_runs b) in
  let plans := filter (λ p, pl_task p = ta_id t) (bo_plans b) in
  (ta_status t = InProgress ↔ ∃ r, r ∈ runs ∧ run_is_open r = true)
  ∧ (∀ r r', r ∈ runs → r' ∈ runs → run_is_open r = true → run_is_open r' = true →
       r = r' ∧ ta_accepted_plan t = Some (ru_plan_version r))
  ∧ (∀ p, p ∈ plans → pl_state p = PlanAccepted ↔ ta_accepted_plan t = Some (pl_version p))
  ∧ (∀ r, r ∈ runs → ∃ p, p ∈ plans ∧ run_ran r p = Ok tt)
  ∧ inconsistencies t runs = [].
Proof.
  intros Hb%board_reachable_ok Ht runs plans. pose proof (bk_parts b Hb t Ht) as Hpart.
  pose proof (tp_consistent _ _ _ Hpart) as [Hg H1 Ha Hn Hw].
  assert (∀ r, r ∈ runs ↔ r ∈ bo_runs b ∧ ru_task r = ta_id t) as Hruns.
  { intros r. unfold runs. rewrite list_elem_of_filter. tauto. }
  assert (∀ p, p ∈ plans ↔ p ∈ bo_plans b ∧ pl_task p = ta_id t) as Hplans.
  { intros p. unfold plans. rewrite list_elem_of_filter. tauto. }
  assert (ta_status t = InProgress ↔ ∃ r, r ∈ runs ∧ run_is_open r = true) as Hgoing.
  { split; [intros (r & ? & ? & ? & _)%Hg; exists r; by rewrite Hruns|]. intros (r & [? ?]%Hruns & ?). by apply (H1 r). }
  split_and!; [done|..].
  - intros r r' [Hr Hi]%Hruns [Hr' Hi']%Hruns Ho Ho'. destruct (H1 r Hr Hi Ho) as [Hs Hall].
    destruct (Hg Hs) as (r0 & Hr0 & Hi0 & Ho0 & Hacc). rewrite (Hall r0), (Hall r') in * by done. done.
  - intros p [Hp Hi]%Hplans. by apply Ha.
  - intros r [Hr Hi]%Hruns. destruct (tp_ran _ _ _ Hpart r Hr Hi) as (p & Hp & Hran). exists p. split; [|done].
    apply Hplans. split; [done|]. apply run_ran_eq in Hran as (_ & ? & _). congruence.
  - apply inconsistencies_nil; [done|]. intros Hc Hnil. destruct Hw as (r & Hr & Hi); [tauto|].
    assert (r ∈ runs) as Hin by by apply Hruns. rewrite Hnil in Hin. by apply not_elem_of_nil in Hin.
Qed.

(** C20: On every board the use cases lead to, every task, plan and run is one its
    schema admits (bounds of its text and lists, claims only in claimable statuses
    and of at most two hours, resolutions only of finished tasks, no cycle among a
    plan's items), it is held under its key once, and a plan or run belongs to a
    task of the board. *)
Theorem board_typed (b : BoardSnapshot) :
  board_reachable b →
  (∀ t, t ∈ bo_tasks b → validate_task t = Ok tt ∧ ∀ t', t' ∈ bo_tasks b → of_task t' = of_task t → t' = t)
  ∧ (∀ p, p ∈ bo_plans b → validate_plan p = Ok tt
       ∧ (∃ t, t ∈ bo_tasks b ∧ ta_id t = pl_task p)
       ∧ ∀ p', p' ∈ bo_plans b → of_plan p' = of_plan p → p' = p)
  ∧ (∀ r, r ∈ bo_runs b → validate_run r = Ok tt
       ∧ (∃ t, t ∈ bo_tasks b ∧ ta_id t = ru_task r)
       ∧ ∀ r', r' ∈ bo_runs b → of_run r' = of_run r → r' = r).
Proof.
  intros Hb%board_reachable_ok. split_and!.
  - intros t Ht. split; [apply (bk_parts b Hb t Ht)|]. intros t' Ht' He%of_task_eq. by apply (bk_ids b Hb).
  - intros p Hp. destruct (bk_plans b Hb p Hp) as (t & Ht & Hi). split_and!; [|eauto|].
    + by apply (tp_plans _ _ _ (bk_parts b Hb t Ht)).
    + intros p' Hp'. by apply (board_ok_plan_key b).
  - intros r Hr. destruct (bk_runs b Hb r Hr) as (t & Ht & Hi). split_and!; [|eauto|].
    + by apply (tp_runs _ _ _ (bk_parts b Hb t Ht)).
    + intros r' Hr'. by apply (board_ok_run_key b).
Qed.

(** C21: On every board the use cases lead to, what a task depends on and what it
    names as its parent are tasks of the board, and neither dependencies nor
    parents ever lead back to the task they start from. *)
Theorem pointers_acyclic (b : BoardSnapshot) :
  board_reachable b →
  (∀ t d, t ∈ bo_tasks b → d ∈ ta_depends_on t ∨ ta_parent t = Some d → ∃ u, u ∈ bo_tasks b ∧ ta_id u = d)
  ∧ (∀ x, ¬ tc (λ a d, ∃ t, t ∈ bo_tasks b ∧ ta_id t = a ∧ d ∈ ta_depends_on t) x x)
  ∧ (∀ x, ¬ tc (λ a p, ∃ t, t ∈ bo_tasks b ∧ ta_id t = a ∧ ta_parent t = Some p) x x).
Proof.
  intros [[Hd Had] [Hp Hap]]%reachable_pointers. split_and!.
  - intros t d Ht [Hin|Hin]; [by eapply Hd|]. eapply Hp; [done|]. by apply elem_of_parents.
  - exact Had.
  - intros x Hx. apply (Hap x). revert Hx. apply (tc_congruence (λ x, x)).
    intros a p (t & ? & ? & ?). exists t. by rewrite elem_of_parents.
Qed.

(** On every board the use cases lead to, a task that is claimed, in progress,
    in review, blocked or done has every task it depends on on the board, done or
    archived. *)
Theorem work_follows_dependencies (b : BoardSnapshot) (t : Task) (d : Slug) :
  board_reachable b → t ∈ bo_tasks b → worked (ta_status t) = true → d ∈ ta_depends_on t →
  ∃ u, u ∈ bo_tasks b ∧ ta_id u = d ∧ (ta_status u = Done ∨ ta_status u = Archived).
Proof.
  intros Hb%reachable_released Ht Hw Hd. destruct (Hb t Ht Hw d Hd) as (u & Hu & Hi & Hr).
  exists u. split_and!; [done..|]. destruct (ta_status u); try done; auto.
Qed.

(** * What a change leaves as it was *)

(** The board's history is kept: whatever changes follow, a task keeps its id
    and its creation, its stamp never runs back and once done or archived it stays
    so; a run that has ended is never changed again and one going keeps its plan
    and its start; a plan that was accepted is changed by nothing but its being
    superseded, and one superseded or discarded by nothing. *)
Theorem history_kept (b b' : BoardSnapshot) :
  board_reachable b → rtc board_step b b' →
  (∀ t, t ∈ bo_tasks b → ∃ t', t' ∈ bo_tasks b' ∧ ta_id t' = ta_id t ∧ ta_created t' = ta_created t
     ∧ (ta_updated t ≤ ta_updated t')%N
     ∧ (releases_dependents (ta_status t) = true → releases_dependents (ta_status t') = true))
  ∧ (∀ r, r ∈ bo_runs b → ∃ r', r' ∈ bo_runs b' ∧ of_run r' = of_run r
     ∧ ru_plan_version r' = ru_plan_version r ∧ ru_started r' = ru_started r
     ∧ (run_is_open r = false → r' = r))
  ∧ (∀ p, p ∈ bo_plans b → pl_state p ≠ PlanDraft → ∃ p', p' ∈ bo_plans b'
     ∧ (p' = p ∨ pl_state p = PlanAccepted
        ∧ ∃ at_, p' = with_plan_state PlanSuperseded (pl_accepted p) at_ p ∧ (pl_updated p ≤ at_)%N)).
Proof.
  intros Hb Hs. destruct (steps_later b b' (board_reachable_ok b Hb) Hs) as [Ht Hp Hr]. split_and!.
  - intros t (t' & ? & ? & ? & ? & ?)%Ht. by exists t'.
  - intros r (r' & ? & ? & ? & ? & ?)%Hr. by exists r'.
  - intros p (p' & Hin & _ & Hk)%Hp Hd. exists p'. split; [done|]. unfold plan_kept in Hk.
    destruct (pl_state p); [done| |by left..]. destruct Hk; auto.
Qed.

(** C22: A live claim protects its task: while it lasts, no change another committer
    asks for changes the task, its plan acceptance or its runs. *)
Theorem live_claim_protects (b : BoardSnapshot) (actor : Identity) (change : BoardChange) (when : Moment)
    (artifacts : list BoardArtifact) (t : Task) (c : Claim) :
  board_reachable b → user_change actor change → change b when = Ok artifacts →
  t ∈ bo_tasks b → ta_claim t = Some c → (mo_now when < cl_expires c)%N →
  same_committer (cl_holder c) actor = false →
  t ∈ bo_tasks (write_all b artifacts)
  ∧ ∀ r, ru_task r = ta_id t → r ∈ bo_runs (write_all b artifacts) ↔ r ∈ bo_runs b.
Proof.
  intros Hb Hu Hc Ht Hcl Hlive Hother. apply (live_claim_kept b actor change when artifacts t c); try done.
  - by apply board_reachable_ok.
  - by apply N.ltb_lt.
Qed.

End board.

(** ** Witnesses *)

#[local] Existing Instances Demo.shapes Demo.leads.

(** Membership of a concrete board. *)
Ltac on_board :=
  first [apply (list_elem_of_lookup_2 _ 0); vm_compute; reflexivity
        | apply (list_elem_of_lookup_2 _ 1); vm_compute; reflexivity].

(** [a] is in progress, and its one run goes. *)
Lemma board_consistent_witness :
  ta_status (Demo.the_task Demo.begun (tx "a")) = InProgress
  ∧ ∃ r, r ∈ filter (λ r, ru_task r = tx "a") (bo_runs Demo.begun) ∧ run_is_open r = true.
Proof.
  split; [vm_compute; reflexivity|].
  destruct (board_consistent Demo.begun (Demo.the_task Demo.begun (tx "a")) Demo.begun_reachable) as [Hg _]; [on_board|].
  apply Hg. vm_compute; reflexivity.
Defined.

Lemma board_typed_witness :
  length (bo_tasks Demo.claimed) = 2 ∧ validate_task (Demo.the_task Demo.claimed (tx "a")) = Ok tt.
Proof.
  split; [vm_compute; reflexivity|]. 
  destruct (board_typed Demo.claimed Demo.claimed_reachable) as (Ht & _ & _).
  destruct (Ht (Demo.the_task Demo.claimed (tx "a"))) as [Hv _]; [on_board|exact Hv].
Defined.

(** [b] depends on [a], which does not lead back to it. *)
Lemma pointers_acyclic_witness :
  tx "a" ∈ ta_depends_on (Demo.the_task Demo.claimed (tx "b"))
  ∧ ∃ u, u ∈ bo_tasks Demo.claimed ∧ ta_id u = tx "a".
Proof.
  split; [on_board|].
  destruct (pointers_acyclic Demo.claimed Demo.claimed_reachable) as [Hon _].
  apply (Hon (Demo.the_task Demo.claimed (tx "b"))); [on_board|left; on_board].
Defined.

Lemma work_follows_dependencies_witness :
  ta_status (Demo.the_task Demo.claimed (tx "b")) = Claimed
  ∧ ∃ u, u ∈ bo_tasks Demo.claimed ∧ ta_id u = tx "a" ∧ (ta_status u = Done ∨ ta_status u = Archived).
Proof.
  split; [vm_compute; reflexivity|].
  apply (work_follows_dependencies Demo.claimed (Demo.the_task Demo.claimed (tx "b")) (tx "a")
    Demo.claimed_reachable); [on_board|vm_compute; reflexivity|on_board].
Defined.

(** The run of [a] is as it ended when [b] is claimed. *)
Lemma history_kept_witness :
  (length <$> Some (bo_runs Demo.reviewed)) = Some 1
  ∧ ∀ r, r ∈ bo_runs Demo.reviewed → run_is_open r = false → r ∈ bo_runs Demo.claimed.
Proof.
  split; [vm_compute; reflexivity|]. intros r Hr Ho.
  assert (board_reachable Demo.reviewed) as Hb.
  { exists 0%N. etrans; [apply Demo.created_steps|]. etrans; [apply Demo.begun_steps|apply Demo.reviewed_steps]. }
  destruct (history_kept Demo.reviewed Demo.claimed Hb Demo.claimed_steps) as (_ & Hruns & _).
  destruct (Hruns r Hr) as (r' & Hr' & _ & _ & _ & He). by rewrite <- (He Ho).
Defined.

(** Bob creates a task while Ann's run goes: hers is as it was. *)
Definition created_by_bob : BoardChange :=
  create_board_task (an_cell_holds Demo.answers) (an_prose_holds Demo.answers) (Demo.new_task "c" []).
Lemma live_claim_protects_witness :
  Demo.the_task Demo.begun (tx "a") ∈ bo_tasks (Demo.made created_by_bob 1005 Demo.begun).
Proof.
  destruct (created_by_bob Demo.begun (Demo.at_second 1005)) as [artifacts| |] eqn:He;
    [|exfalso; vm_compute in He; discriminate He..].
  unfold Demo.made. rewrite He.
  refine (proj1 (live_claim_protects Demo.begun Demo.bob created_by_bob (Demo.at_second 1005) artifacts
    (Demo.the_task Demo.begun (tx "a")) (mkClaim Demo.ann 1004 8204)%N Demo.begun_reachable
    _ _ _ _ _ _)).
  - apply uc_create.
  - exact He.
  - on_board.
  - vm_compute; reflexivity.
  - vm_compute; reflexivity.
  - vm_compute; reflexivity.
Defined.

(** * How changes race *)

Section commits.
Context {St : Type} `{BoardStoreLaws St}.

(** C23: A commit that answers was computed on the board it replaced: within three
    attempts it read a board, built its artifacts on that very board at a time the
    clock allowed, in the shape it declared, and what other writers did in between
    is none of what it overwrote; or it found its task on the board already, and
    wrote nothing. *)
Theorem commit_replaces_what_it_read now reference change w (st : St) artifacts st' :
  shaped now reference change w st = (Ok artifacts, st') →
  ∃ n st1 when, 1 ≤ n ≤ MAX_WRITE_ATTEMPTS ∧ others st st1
  ∧ checked_now (now n) (reference n) = Ok when
  ∧ change n (board_of st1) when = Ok artifacts ∧ writes_holds w artifacts = true
  ∧ ((∃ head q, board_of st' = moved_to (board_of st1) artifacts head q)
     ∨ st' = st1 ∧ w = TaskIfChanged ∧ ∃ t, artifacts = [ATask t] ∧ t ∈ bo_tasks (board_of st1)).
Proof.
  intros Hs. apply retried_spec in Hs as (n & st1 & Hn & Ho & (when & Hw & Hc & Hh) & Hr).
  exists n, st1, when. unfold MAX_WRITE_ATTEMPTS in *. split_and!; try done; lia.
Qed.

(** Whatever comes of a commit (an answer, a refusal, a board that kept moving,
    a store that failed without telling whether it wrote), the board it leaves is
    one its changes lead to, so that every property of such boards still holds. *)
Theorem commit_keeps_the_board `{Shapes} now reference change w (st : St) answer st' :
  (∀ st1, others st st1 → rtc board_step (board_of st) (board_of st1)) →
  (∀ n, board_change (change n)) →
  board_reachable (board_of st) → shaped now reference change w st = (answer, st') →
  board_reachable (board_of st').
Proof.
  intros Hothers Hc [head Hr] Hs. exists head. etrans; [exact Hr|]. by eapply shaped_steps.
Qed.

(** C25: No commit panics.  On a board its use cases lead to, none of the assertions
    and [expect]s holds a change back: reading what was entered, the rules, the pins
    and pointers, the shape of what is written and the head of the write; as long as
    the clock, the store, the host and the remote answer or refuse, the remote answers
    only for what it was asked, and a secret's pattern starts where a word does. *)
Theorem commit_never_panics `{Shapes} `{!KeyLeads} a now reference change w (st : St) :
  (∀ n, now n ≠ Panic) → answering a →
  (∀ st0 : St, (store_read st0).1 ≠ Panic) →
  (∀ head artifacts (st0 : St), (store_write head artifacts st0).1 ≠ Panic) →
  (∀ n, declares a (change n) w) →
  (∀ st1, others st st1 → rtc board_step (board_of st) (board_of st1)) →
  board_reachable (board_of st) →
  (shaped now reference change w st).1 ≠ Panic.
Proof.
  intros Hnow Ha Hread Hwrite Hd Hothers [head Hr]. apply (retried_safe now reference a); try done.
  intros st1 Ho. assert (board_reachable (board_of st1)) as Hb
    by (exists head; etrans; [exact Hr|by apply Hothers]).
  split; [by apply board_reachable_ok|by apply reachable_named].
Qed.

End commits.

#[local] Existing Instances SimStore.store SimStore.laws.

(** Bob's change lost the first race, to Ann's, and was built again. *)
Definition race : SimStore.t :=
  SimStore.mk Demo.created
    [[]; match Demo.propose Demo.created (Demo.at_second 1002) with Ok artifacts => artifacts | _ => [] end].
Definition clock (n : nat) : res BoardError Timestamp := Ok (N.of_nat (1002 + n)).

Lemma commit_replaces_what_it_read_witness :
  ∃ artifacts st', shaped clock (λ _, None) (λ _, created_by_bob) OneTask race = (Ok artifacts, st')
  ∧ ∃ n st1 when, 1 ≤ n ≤ MAX_WRITE_ATTEMPTS ∧ others race st1
    ∧ checked_now (clock n) None = Ok when ∧ created_by_bob (board_of st1) when = Ok artifacts.
Proof.
  destruct (shaped clock (λ _, None) (λ _, created_by_bob) OneTask race) as [[artifacts| |] st'] eqn:He;
    [|exfalso; vm_compute in He; discriminate He..].
  exists artifacts, st'. split; [reflexivity|].
  destruct (commit_replaces_what_it_read clock (λ _, None) (λ _, created_by_bob) OneTask race artifacts st' He)
    as (n & st1 & when & Hn & Ho & Hw & Hc & _).
  exists n, st1, when. exact (conj Hn (conj Ho (conj Hw Hc))).
Defined.

Lemma race_others st1 : others race st1 → rtc board_step (board_of race) (board_of st1).
Proof.
  intros [n ->].
  assert (SimStore.turns n race = race ∨ SimStore.turns n race = SimStore.turn race
          ∨ SimStore.turns n race = SimStore.turn (SimStore.turn race)) as [->|[->| ->]].
  { induction n as [|n IH]; [by left|]. change (SimStore.turns (S n) race) with (SimStore.turn (SimStore.turns n race)).
    destruct IH as [->|[->| ->]]; auto. }
  - done.
  - done.
  - destruct (Demo.propose Demo.created (Demo.at_second 1002)) as [artifacts| |] eqn:He;
      [|exfalso; vm_compute in He; discriminate He..].
    assert (board_of (SimStore.turn (SimStore.turn race)) = SimStore.put Demo.created artifacts) as ->.
    { unfold race. rewrite He. destruct artifacts; [exfalso; vm_compute in He; discriminate He|done]. }
    eapply moved_to_steps; [|exact He]. right. exists Demo.ann. apply uc_propose, Demo.proposal_named.
Qed.

Lemma commit_keeps_the_board_witness :
  ∃ answer st', shaped clock (λ _, None) (λ _, created_by_bob) OneTask race = (answer, st')
  ∧ board_reachable (board_of st').
Proof.
  destruct (shaped clock (λ _, None) (λ _, created_by_bob) OneTask race) as [answer st'] eqn:He.
  exists answer, st'. split; [reflexivity|].
  apply (commit_keeps_the_board clock (λ _, None) (λ _, created_by_bob) OneTask race answer st' race_others).
  - intros _. right. exists Demo.bob. apply uc_create.
  - exists 0%N. apply Demo.created_steps.
  - exact He.
Defined.

Lemma commit_never_panics_witness : (shaped clock (λ _, None) (λ _, created_by_bob) OneTask race).1 ≠ Panic.
Proof.
  apply (commit_never_panics Demo.answers clock (λ _, None) (λ _, created_by_bob) OneTask race).
  - discriminate.
  - split; try discriminate. simpl. intros ids missing [= <-]. apply list_subseteq_nil.
  - discriminate.
  - intros head artifacts st0 Hw. simpl in Hw. unfold SimStore.write in Hw. by destruct (_ =? _)%N.
  - intros n. apply de_create.
  - exact race_others.
  - exists 0%N. apply Demo.created_steps.
Defined.

(** * Cycles *)

(** A plan's check for cycles ends and is exact: when items have distinct ids and
    depend on one another, the rounds of settling end with no item left exactly when
    no chain of dependencies leads back to its start, and otherwise with the first
    item from which some chain never ends. *)
Theorem plan_cycle_found (items : list PlanItem) :
  NoDup (pi_id <$> items) →
  (∀ i d, i ∈ items → d ∈ pi_depends_on i → d ∈ pi_id <$> items) →
  let depends a d := ∃ i, i ∈ items ∧ pi_id i = a ∧ d ∈ pi_depends_on i in
  (blocked_by_cycle items = Some (Ok None) ↔ ∀ x, ¬ tc depends x x)
  ∧ ((∃ x, tc depends x x) → ∃ k i, blocked_by_cycle items = Some (Ok (Some k)) ∧ items !! k = Some i
     ∧ ¬ sn depends (pi_id i) ∧ ∀ j i', j < k → items !! j = Some i' → sn depends (pi_id i')).
Proof.
  intros Hd Hs depends. pose proof (blocked_by_cycle_acyclic items Hd Hs) as Hiff.
  split; [exact Hiff|]. intros (x & Hx).
  destruct (blocked_by_cycle_spec items Hd Hs) as (o & Ho & Hspec).
  destruct o as [k|]; [|by destruct (proj1 Hiff Ho x)]. destruct Hspec as [(i & Hi & Hn) Hall]. eauto 10.
Qed.

(** Two items that wait for each other, and one that waits for nothing. *)
Definition tangled : list PlanItem :=
  [mkItem (tx "x") [] [] []; mkItem (tx "y") [] [] [tx "z"]; mkItem (tx "z") [] [] [tx "y"]].

Lemma plan_cycle_found_witness :
  blocked_by_cycle tangled = Some (Ok (Some 1))
  ∧ ¬ ∀ x, ¬ tc (λ a d, ∃ i, i ∈ tangled ∧ pi_id i = a ∧ d ∈ pi_depends_on i) x x.
Proof.
  assert (blocked_by_cycle tangled = Some (Ok (Some 1))) as He by (vm_compute; reflexivity).
  split; [exact He|]. intros Hac.
  destruct (plan_cycle_found tangled) as [[_ Hno] _].
  - apply (bool_decide_unpack _). vm_compute. exact I.
  - assert (Forall (λ i, Forall (λ d, d ∈ pi_id <$> tangled) (pi_depends_on i)) tangled) as Hall
      by (apply (bool_decide_unpack _); vm_compute; exact I).
    intros i d Hi Hd. rewrite list.Forall_forall in Hall. specialize (Hall i Hi).
    rewrite list.Forall_forall in Hall. by apply Hall.
  - rewrite (Hno Hac) in He. discriminate He.
Defined.

(** The walk over a board's pointers ends, a board that already holds cycles
    included, and finds that the pointers a task is to make close a cycle exactly
    when they do: through the tasks it is to depend on, or up the chain of its
    parents. *)
Theorem pointer_walk_exact (tasks : list Task) (refs : Pointers) :
  (∀ u u', u ∈ tasks → u' ∈ tasks → ta_id u = ta_id u' → u = u') →
  let depends a d := ∃ t, t ∈ tasks ∧ ta_id t = a ∧ a ≠ po_id refs ∧ d ∈ ta_depends_on t in
  let parent a p := ∃ t, t ∈ tasks ∧ ta_id t = a ∧ a ≠ po_id refs ∧ ta_parent t = Some p in
  ∃ closers, cycle_closers tasks refs = Some closers
  ∧ (closers = [] ↔ (∀ d, d ∈ po_depends_on refs → ¬ tc depends d (po_id refs))
                    ∧ ∀ p, po_parent refs = Some p → ¬ tc parent p (po_id refs)).
Proof.
  intros Hids depends parent. destruct (cycle_closers_spec tasks refs Hids) as (closers & Hc & Hiff).
  exists closers. split; [done|]. rewrite Hiff.
  assert (∀ x y, tc depends x y ↔ tc (avoiding (points_edge ta_depends_on tasks) (po_id refs)) x y) as Hd.
  { intros x y. split; apply (tc_congruence (λ x, x)); intros a d; unfold depends, avoiding, points_edge; naive_solver. }
  assert (∀ x y, tc parent x y ↔ tc (avoiding (points_edge parents tasks) (po_id refs)) x y) as Hp.
  { intros x y. split; apply (tc_congruence (λ x, x)); intros a d; unfold parent, avoiding, points_edge;
      setoid_rewrite elem_of_parents; naive_solver. }
  setoid_rewrite Hd. setoid_rewrite Hp. done.
Qed.

(** [a] depending on [b], which depends on [a]. *)
Lemma pointer_walk_exact_witness :
  ∃ closers, cycle_closers (bo_tasks Demo.created) (mkPointers (tx "a") None [tx "b"]) = Some closers
  ∧ closers = [tx "b"].
Proof.
  destruct (pointer_walk_exact (bo_tasks Demo.created) (mkPointers (tx "a") None [tx "b"])) as (closers & Hc & _).
  - apply (bk_ids _ (board_reachable_ok _ (ex_intro _ 0%N Demo.created_steps))).
  - exists closers. split; [exact Hc|]. vm_compute in Hc. injection Hc as <-. vm_compute; reflexivity.
Defined.

(** * Leases and ends *)

Section leases.
Context `{Shapes}.

(** The holder of a claim, live or lapsed, can renew it whenever the clock runs
    no more than a minute behind the task and spells the lease's end; the renewal
    changes nothing but the claim and the stamp, never shortens the lease, ends it
    at least two hours from now and at most two hours after its new start. *)
Theorem renewal_extends (t : Task) (c : Claim) (holder : Identity) (now : Timestamp) :
  task_ok t → ta_claim t = Some c → same_committer (cl_holder c) holder = true →
  (ta_created t ≤ now + CLOCK_AHEAD_SECONDS)%N → (now + CLOCK_AHEAD_SECONDS + CLAIM_TTL_SECONDS ≤ LAST)%N →
  ∃ c', renew t holder now = Ok (with_updated (now `max` ta_updated t) (with_claim (Some c') t))
  ∧ cl_holder c' = cl_holder c
  ∧ (cl_since c ≤ cl_since c' ∧ cl_expires c ≤ cl_expires c' ∧ now + CLAIM_TTL_SECONDS ≤ cl_expires c'
     ∧ cl_since c' < cl_expires c' ≤ cl_since c' + CLAIM_TTL_SECONDS)%N.
Proof.
  intros Ht Hc Hh Hcr Hl. destruct (renew_total t c holder now Ht Hc Hh Hcr Hl) as [t' Hr].
  pose proof (renew_Ok t holder now t' Ht Hr) as (c0 & Hc0 & _ & -> & Hok).
  rewrite Hc in Hc0. injection Hc0 as <-.
  eexists. split; [exact Hr|]. simpl. split; [done|].
  pose proof (task_ok_claim_bounds _ _ Hok eq_refl) as (_ & _ & ? & ? & _). simpl in *.
  split_and!; try done; lia.
Qed.

Lemma undone_items_nil p items :
  undone_items p items = [] →
  ∀ i, i ∈ pl_items p → ∃ ri, ri ∈ items ∧ ri_id ri = pi_id i ∧ ri_state ri = ItemDone.
Proof.
  intros Hu i Hi. unfold undone_items in Hu.
  destruct (existsb (λ ri, text_eqb (ri_id ri) (pi_id i) && bool_decide (ri_state ri = ItemDone)) items) eqn:He.
  - apply existsb_elem in He as (ri & Hin & Hri). unfold text_eqb in Hri. split_bools. eauto.
  - assert (pi_id i ∈ filter (λ id, existsb (λ ri, text_eqb (ri_id ri) id && bool_decide (ri_state ri = ItemDone)) items
              = false) (pi_id <$> pl_items p)) as Hx.
    { apply list_elem_of_filter. split; [done|]. by apply list_elem_of_fmap_2. }
    rewrite Hu in Hx. by apply not_elem_of_nil in Hx.
Qed.

Lemma task_after_success t r stop now t' :
  ru_outcome r = Some RunSucceeded → task_after_end t r stop now = Ok (Some t') → ta_status t' = Review.
Proof.
  intros Ho. unfold task_after_end. rewrite Ho, stamp_eq. intros Ha. inv_ok.
  destruct (ta_status t); try done; simpl in Ha; inv_ok; try (case_match; [done|]); inv_ok; subst;
    match goal with H : settle _ _ = _ |- _ => apply settle_Ok in H as (_ & _ & -> & _) end; done.
Qed.

(** A success whose evidence is found to lack nothing: every revision it names that is
    long enough to be told was asked of the remote, which lacked none. *)
Definition evidence_pushed (remote : Remote) (p : Plan) (view : SwarmRunView) : Prop :=
  ∃ evidence, evidence_revisions (E := BoardError) p view = Ok evidence
  ∧ ∀ id, id ∈ rev_ids evidence → ∃ hex_len, rm_commit_id_hex_len remote = Ok hex_len
    ∧ (checks_commit id hex_len = true → ∃ asked, id ∈ asked ∧ rm_not_on_remote remote asked = Ok []).

Lemma unpushed_none remote p view : unpushed remote p view = Ok 0 → evidence_pushed remote p view.
Proof.
  unfold unpushed. intros Hu. destruct (evidence_revisions p view) as [evidence| |] eqn:He; [|done..].
  exists evidence. split; [done|]. simpl in Hu. unfold judged_evidence in Hu. intros id Hid.
  destruct (rev_ids evidence) as [|id0 ids]; [by apply not_elem_of_nil in Hid|]. set (named := id0 :: ids) in *.
  destruct (rm_commit_id_hex_len remote) as [hex_len| |]; [|done..]. exists hex_len. split; [done|]. intros Hc.
  simpl in Hu. destruct (unchecked _ _) as [n| |]; [|done..]. simpl in Hu.
  set (asked := filter (λ id, checks_commit id hex_len = true) named) in *.
  assert (id ∈ asked) as Hin by by apply list_elem_of_filter.
  exists asked. split; [done|]. destruct asked as [|a asked']; [by apply not_elem_of_nil in Hin|].
  destruct (rm_not_on_remote remote _) as [missing| |]; [|done..]. simpl in Hu. inv_ok.
  by destruct missing.
Qed.

Lemma end_run_ended_success actor object_at cells remote e ended how b when t r :
  re_outcome e = EndSucceeded → end_run_ended actor object_at cells remote e ended how b when = Ok (t, r) →
  ∃ p reported r0 at_, p ∈ bo_plans b ∧ (∀ view, ended = Some view → unpushed remote p view = Ok 0)
  ∧ fold_back r0 p RunSucceeded (rp_cost reported) (rp_items reported) at_ = Ok r
  ∧ undone_items p (ru_items r) = [].
Proof.
  intros Ho He. unfold end_run_ended, rule in He. rewrite Ho in He. inv_ok. simplify_eq.
  match goal with H : run_and_plan _ _ _ = Ok ?x |- _ => destruct x as [r0 p];
    apply run_and_plan_Ok in H as (_ & _ & Hp & _) end. simpl in *.
  match goal with H : board_plans_of _ _ = _ |- _ => apply (board_plans_of_Ok _ _ _ H) in Hp as [Hp _] end.
  destruct ended as [view|]; inv_ok.
  - match goal with H : reported _ (Some view) _ _ _ ?n = Ok ?k, Hn : unpushed _ p view = Ok ?n,
      He : end_held _ _ _ ?k _ _ = Ok r |- _ =>
      rename H into Hk; rename Hn into Hn0; apply end_held_fold in He as (Hf & _ & Hd); destruct (Hd eq_refl) as [Hu Hz] end.
    subst. simpl in Hk. injection Hk as <-. simpl in Hz. subst.
    do 4 eexists. split_and!; [exact Hp| |exact Hf|exact Hu]. by intros ? [= <-].
  - match goal with H : end_held _ _ _ _ _ _ = Ok r |- _ =>
      apply end_held_fold in H as (Hf & _ & Hd); destruct (Hd eq_refl) as [Hu _] end.
    do 4 eexists. split_and!; [exact Hp|done|exact Hf|exact Hu].
Qed.

(** A run is recorded as succeeded by hand only when its plan's every item is
    reported done and, where its swarm left a report, every revision its evidence
    names, where it is one that can be checked, was asked of the remote, which
    lacked none; the run is then of a plan of the task and its task goes to
    review. *)
Theorem success_is_done (actor : Identity) object_at cells remote (e : RunEnd) ended kept how b when artifacts :
  re_outcome e = EndSucceeded →
  end_run actor object_at cells remote e ended kept how b when = Ok artifacts →
  ∃ r p, ARun r ∈ artifacts ∧ p ∈ bo_plans b ∧ run_ran r p = Ok tt ∧ ru_outcome r = Some RunSucceeded
  ∧ (∀ i, i ∈ pl_items p → ∃ ri, ri ∈ ru_items r ∧ ri_id ri = pi_id i ∧ ri_state ri = ItemDone)
  ∧ (∀ view, ended = Some view → evidence_pushed remote p view)
  ∧ (∀ t, ATask t ∈ artifacts → ta_status t = Review).
Proof.
  intros Ho He. unfold end_run, rule in He. rewrite Ho in He. inv_ok.
  match goal with H : end_run_ended _ _ _ _ _ _ _ _ _ = Ok ?x |- _ => destruct x as [t r];
    apply end_run_ended_success in H as (p & reported & r0 & at_ & Hp & Hpush & Hf & Hu); [|done] end. simpl in *.
  apply fold_back_Ok in Hf as (_ & _ & _ & Hran & Hr).
  assert (ru_outcome r = Some RunSucceeded) as Hout by by rewrite Hr.
  exists r, p. split_and!; try done.
  - unfold run_end_writes. apply elem_of_app. right. apply list_elem_of_here.
  - by apply undone_items_nil.
  - intros view Hv. by apply unpushed_none, Hpush.
  - intros t' Hin. unfold run_end_writes in Hin.
    match goal with H : task_after_end _ _ _ _ = Ok ?m |- _ => destruct m as [t''|]; rename H into Ha end;
      simpl in Hin; rewrite ?elem_of_cons, ?elem_of_nil in Hin; [|by destruct Hin].
    destruct Hin as [[= ->]|[|[]]]; [|done]. by eapply task_after_success.
Qed.

End leases.

(** * Recording what a swarm left *)

Section fold_back.
Context `{Shapes} `{!KeyLeads}.

Lemma find_unique {A} (f : A → bool) l x :
  x ∈ l → f x = true → (∀ y, y ∈ l → f y = true → y = x) → List.find f l = Some x.
Proof.
  intros Hx Hf Hu. destruct (List.find f l) as [y|] eqn:He.
  - apply List.find_some in He as [Hy%list_elem_of_In Hfy]. by rewrite (Hu y).
  - apply list_elem_of_In in Hx. apply (List.find_none _ _ He) in Hx. congruence.
Qed.

Lemma run_and_plan_found b t runs plans r :
  board_ok b → t ∈ bo_tasks b → board_runs_of b (ta_id t) = Ok runs → board_plans_of b (ta_id t) = Ok plans → r ∈ runs →
  ∃ p, run_and_plan runs plans (ru_number r) = Ok (r, p) ∧ p ∈ bo_plans b ∧ pl_task p = ta_id t ∧ run_ran r p = Ok tt.
Proof.
  intros Hb Ht Hruns Hplans Hr. pose proof (bk_parts b Hb t Ht) as Hpart.
  pose proof (board_runs_of_Ok _ _ _ Hruns) as Er. pose proof (board_plans_of_Ok _ _ _ Hplans) as Ep.
  destruct (proj1 (Er r) Hr) as [Hin Hi]. destruct (tp_ran _ _ _ Hpart r Hin Hi) as (p & Hp & Hran).
  pose proof (proj1 (run_ran_eq r p) Hran) as (_ & Hpt & Hv & _).
  exists p. split_and!; [|done|congruence|done]. unfold run_and_plan.
  rewrite (find_unique _ runs r Hr).
  - simpl. rewrite (find_unique _ plans p); [done| |by apply N.eqb_eq|].
    + apply Ep. split; congruence.
    + intros p' [Hp' Hi']%Ep Hv'%N.eqb_eq. apply (tp_plan_keys _ _ _ Hpart); congruence.
  - by apply N.eqb_eq.
  - intros r' [Hr' Hi']%Er Hn%N.eqb_eq. by apply (tp_run_keys _ _ _ Hpart).
Qed.

(** The write of a run that is going. *)
Lemma fold_back_built cells b t runs plans r view how when :
  board_reachable b → view_ok view →
  board_task b (ta_id t) = Ok t → board_runs_of b (ta_id t) = Ok runs → board_plans_of b (ta_id t) = Ok plans →
  r ∈ runs → run_is_open r = true →
  ∃ t' r' p, fold_back_run cells (ta_id t) (ru_number r) view EndingSwarm how b when = Ok [ATask t'; ARun r']
  ∧ ta_id t' = ta_id t ∧ of_run r' = of_run r ∧ p ∈ bo_plans b ∧ run_ran r p = Ok tt
  ∧ ru_outcome r' = Some (SwarmEnd_outcome (sv_end view))
  ∧ ri_id <$> ru_items r' = pi_id <$> pl_items p
  ∧ ta_status t' = status_after (SwarmEnd_outcome (sv_end view)) (SwarmEnd_stop (sv_end view)).
Proof.
  intros Hreach Hv Htask Hruns Hplans Hr Ho.
  pose proof (board_reachable_ok b Hreach) as Hb. destruct (board_task_Ok _ _ _ Htask) as [Ht _].
  pose proof (bk_parts b Hb t Ht) as Hpart.
  destruct (proj1 (board_runs_of_Ok _ _ _ Hruns r) Hr) as [Hin Hi].
  destruct (run_and_plan_found b t runs plans r) as (p & Hrp & Hp & Hpt & Hran); [done..|].
  destruct (fold_back_accepts (E := BoardError) cells p view how r (SwarmEnd_outcome (sv_end view)) (mo_now when))
    as (f & r' & Hf & Hr' & Hitems & Hids); [by apply (tp_plans _ _ _ Hpart)|by apply (reachable_named b Hreach)|done
    |by apply (tp_runs _ _ _ Hpart)|done|done|].
  pose proof (fold_back_Ok _ _ _ _ _ _ _ Hr') as (_ & _ & _ & _ & Heq).
  pose proof (f_equal ru_outcome Heq) as Hout. pose proof (f_equal of_run Heq) as Hof.
  pose proof (f_equal ru_task Heq) as Htk. simpl in Hout, Hof, Htk.
  destruct (task_after_end_total t r' (SwarmEnd_outcome (sv_end view)) (SwarmEnd_stop (sv_end view)) (mo_now when))
    as (t' & Hend & Hid & Hst); [by apply (tp_task _ _ _ Hpart)| |congruence|done|].
  { by apply (tc_one _ _ _ (tp_consistent _ _ _ Hpart) r). }
  exists t', r', p. split_and!; try done; [|by rewrite Hitems].
  unfold fold_back_run, rule. rewrite Htask, Hruns, Hplans. simpl. rewrite Hrp. simpl. rewrite Hf. simpl.
  rewrite Hr'. simpl. rewrite Hend. done.
Qed.

(** C24: Nothing a swarm left on its board makes the end of its run refused.  On any board the
    use cases lead to, the fold-back of a swarm that ended refuses what it cannot read, the task, its runs
    or its plans (absent, or a file of theirs set aside), as that; and otherwise builds the write of any run
    that is going: the run ended with the swarm's outcome and one state for each item of its plan, in the plan's order, and
    its task in review, blocked or ready again, as the outcome says.  An attempt whose write
    the store takes leaves it on the board.  It assumes what the source asserts: only blocked items of a
    swarm are ones that stood before a death, and the redactor's key patterns lead with a key. *)
Theorem fold_back_records {St} `{BoardStoreLaws St} cells b id view how :
  board_reachable b → view_ok view →
  match board_task b id, board_runs_of b id, board_plans_of b id with
  | Ok t, Ok runs, Ok plans =>
      ∀ r when, r ∈ runs → run_is_open r = true →
      ∃ t' r' p, fold_back_run cells id (ru_number r) view EndingSwarm how b when = Ok [ATask t'; ARun r']
      ∧ ta_id t' = id ∧ of_run r' = of_run r ∧ p ∈ bo_plans b ∧ run_ran r p = Ok tt
      ∧ ru_outcome r' = Some (SwarmEnd_outcome (sv_end view))
      ∧ ri_id <$> ru_items r' = pi_id <$> pl_items p
      ∧ ta_status t' = status_after (SwarmEnd_outcome (sv_end view)) (SwarmEnd_stop (sv_end view))
      ∧ ∀ now reference n (st st1 st2 : St) head,
          store_read st = (Ok b, st1) → checked_now (now n) (reference n) = Ok when →
          store_write (bo_head b) [ATask t'; ARun r'] st1 = (Ok (Written head), st2) →
          attempt now reference (λ _, fold_back_run cells id (ru_number r) view EndingSwarm how) OneRun n st
            = (Ok (Some [ATask t'; ARun r']), st2)
          ∧ ∃ q, board_of st2 = moved_to b [ATask t'; ARun r'] head q
  | Ok _, Ok _, Err e | Ok _, Err e, _ | Err e, _, _ =>
      ∀ number when, fold_back_run cells id number view EndingSwarm how b when = Err e
  | _, _, _ => False
  end.
Proof.
  intros Hreach Hv. pose proof (board_reachable_ok b Hreach) as Hb.
  destruct (board_task b id) as [t|e|] eqn:Htask; [|intros number when; unfold fold_back_run; by rewrite Htask|by apply (board_task_safe b id) in Htask].
  destruct (board_runs_of b id) as [runs|e|] eqn:Hruns; [|intros number when; unfold fold_back_run; by rewrite Htask, Hruns|by apply (board_runs_of_safe b id) in Hruns].
  destruct (board_plans_of b id) as [plans|e|] eqn:Hplans;
    [|intros number when; unfold fold_back_run; by rewrite Htask, Hruns, Hplans|by apply (board_plans_of_safe b id) in Hplans].
  intros r when Hr Ho. destruct (board_task_Ok _ _ _ Htask) as [Ht <-].
  destruct (fold_back_built cells b t runs plans r view how when) as (t' & r' & p & Hf & Hid & Hof & Hp & Hran & Hout & Hits & Hst); [done..|].
  exists t', r', p. split_and!; [done..|]. intros now reference n st st1 st2 head Hread Hnow Hwrite.
  pose proof (read_board _ _ _ Hread) as [Ho1 Hb1].
  destruct (write_written _ _ _ _ _ Hwrite) as (Hne & mid & q & Hm & Hh & He).
  assert (ta_id t' = ru_task r') as Htk.
  { rewrite Hid. destruct (proj1 (board_runs_of_Ok _ _ _ Hruns r) Hr) as [_ Hi]. unfold of_run in Hof. congruence. }
  split.
  - unfold attempt. rewrite Hread, Hnow. cbn [rbind]. rewrite Hf. cbn [rbind writes_holds]. unfold text_eqb; rewrite bool_decide_eq_true_2 by done.
    cbn [assert_that rbind]. rewrite Hwrite. by rewrite (proj2 (N.eqb_neq _ _) Hne).
  - exists q. rewrite He. f_equal. rewrite <- Hb1. symmetry. apply head_names; [done|]. by rewrite Hh, Hb1.
Qed.

End fold_back.

Lemma renewal_extends_witness :
  ta_claim (Demo.the_task Demo.begun (tx "a")) = Some (mkClaim Demo.ann 1004 8204)%N
  ∧ ∃ t', renew (Demo.the_task Demo.begun (tx "a")) Demo.ann 5000%N = Ok t'.
Proof.
  split; [vm_compute; reflexivity|].
  destruct (renewal_extends (Demo.the_task Demo.begun (tx "a")) (mkClaim Demo.ann 1004 8204)%N Demo.ann 5000%N)
    as (c' & Hr & _); [vm_compute; reflexivity..|vm_compute; discriminate|vm_compute; discriminate|].
  eexists. exact Hr.
Defined.

(** A swarm that was cancelled, one item of the plan never taken up: the run of [a] is stopped, and [a] is ready again. *)
Definition cut_short : SwarmRunView :=
  mkSwarmView SwarmCancelled [mkSwarmItem (tx "y: Then") SwarmItemClaimed (Some (tx "worker")) [] None] 20%N.

(** A store no one else writes. *)
Lemma quiet_read b : store_read (SimStore.mk b []) = (Ok b, SimStore.mk b []).
Proof. reflexivity. Qed.
Lemma quiet_write b artifacts :
  store_write (bo_head b) artifacts (SimStore.mk b []) = (Ok (Written (bo_head b + 1)%N), SimStore.mk (SimStore.put b artifacts) []).
Proof. simpl. unfold SimStore.write. simpl. by rewrite N.eqb_refl. Qed.

Lemma fold_back_records_witness :
  let change := fold_back_run (an_cell_holds Demo.answers) (tx "a") 1%N cut_short EndingSwarm EvidenceKept in
  ∃ t' r' st', change Demo.begun (Demo.at_second 1005) = Ok [ATask t'; ARun r']
  ∧ ri_id <$> ru_items r' = [tx "x"; tx "y"] ∧ ta_status t' = Ready
  ∧ attempt (λ _, Ok 1005%N) (λ _, None) (λ _, change) OneRun 1 (SimStore.mk Demo.begun []) = (Ok (Some [ATask t'; ARun r']), st').
Proof.
  intros change.
  destruct (board_task Demo.begun (tx "a")) as [t| |] eqn:Htask; [|exfalso; vm_compute in Htask; discriminate Htask..].
  destruct (board_runs_of Demo.begun (tx "a")) as [runs| |] eqn:Hruns; [|exfalso; vm_compute in Hruns; discriminate Hruns..].
  destruct (board_plans_of Demo.begun (tx "a")) as [plans| |] eqn:Hplans;
    [|exfalso; vm_compute in Hplans; discriminate Hplans..].
  destruct runs as [|r runs']; [exfalso; vm_compute in Hruns; discriminate Hruns|].
  pose proof (fold_back_records (St := SimStore.t) (an_cell_holds Demo.answers) Demo.begun (tx "a") cut_short EvidenceKept
    Demo.begun_reachable ltac:(repeat constructor)) as Hfold.
  rewrite Htask, Hruns, Hplans in Hfold.
  assert (run_is_open r = true ∧ ru_number r = 1%N) as [Hopen Hnum] by (vm_compute in Hruns; injection Hruns as <- _; split; reflexivity).
  destruct (Hfold r (Demo.at_second 1005) ltac:(apply list_elem_of_here) Hopen) as (t' & r' & p & Hf & _ & _ & Hp & _ & _ & Hi & Hs & Hcommit).
  rewrite Hnum in Hf, Hcommit.
  exists t', r', (SimStore.mk (SimStore.put Demo.begun [ATask t'; ARun r']) []). split_and!; [exact Hf|rewrite Hi|exact Hs|].
  - vm_compute in Hp. apply elem_of_cons in Hp as [->|[]%not_elem_of_nil]. vm_compute; reflexivity.
  - exact (proj1 (Hcommit (λ _, Ok 1005%N) (λ _, None) 1 _ _ _ _ (quiet_read Demo.begun) eq_refl (quiet_write Demo.begun _))).
Defined.

Lemma success_is_done_witness :
  ∃ artifacts r, Demo.end_it Demo.begun (Demo.at_second 1005) = Ok artifacts ∧ ARun r ∈ artifacts
  ∧ ru_outcome r = Some RunSucceeded.
Proof.
  unfold Demo.end_it.
  destruct (end_run _ _ _ _ _ _ _ _ Demo.begun (Demo.at_second 1005)) as [artifacts| |] eqn:He;
    [|exfalso; vm_compute in He; discriminate He..].
  destruct (success_is_done Demo.ann (an_object_at Demo.answers) (an_cell_holds Demo.answers) (an_remote Demo.answers)
    Demo.run_end (Some Demo.report) None EvidenceKept Demo.begun (Demo.at_second 1005) artifacts eq_refl He) as (r & p & Hin & _ & _ & Hout & _).
  exists artifacts, r. exact (conj eq_refl (conj Hin Hout)).
Defined.
