(* ===== verification/SwarmValue.v ===== *)
(** The values of the swarm coordination board: JSON as members pass it and as
    the board stores it, compared the way the Python board compared it.

    Models [domain/swarm/value_objects/python_value.rs], [board_error.rs], the
    refusal kinds of [domain/swarm/events/telemetry.rs] and the text rules of
    [domain/swarm/services/validation.rs].  A [serde_json::Number] is an integer
    of i64 or u64, or a double; a double is the [spec_float] of binary64.  An
    object keeps its entries in order ([serde_json]'s [preserve_order]). *)

From Stdlib Require Import SpecFloat.
From stdpp Require Import gmap pretty.
From S2P Require Import Prelude.

Local Open Scope Z_scope.

(** * Doubles *)

Abbreviation f64 := spec_float.

#[export] Instance f64_eq_dec : EqDecision f64.
Proof. solve_decision. Defined.

Definition f64_zero : f64 := S754_zero false.
Definition f64_le (a b : f64) : bool := SFleb a b.
Definition f64_lt (a b : f64) : bool := SFltb a b.
(** [a == b]: NaN equals nothing, the two zeros are equal. *)
Definition f64_eq (a b : f64) : bool := SFeqb a b.
Definition f64_add (a b : f64) : f64 := SFadd 53 1024 a b.
Definition f64_sub (a b : f64) : f64 := SFsub 53 1024 a b.

(** [z as f64], rounded to nearest, ties to even. *)
Definition f64_of_Z (z : Z) : f64 := binary_normalize 53 1024 z 0 false.

Definition f64_is_nan (f : f64) : bool := match f with S754_nan => true | _ => false end.
Definition f64_is_finite (f : f64) : bool :=
  match f with S754_zero _ | S754_finite _ _ _ => true | _ => false end.

(** [f64::max]: a NaN argument gives the other one. *)
Definition f64_max (a b : f64) : f64 :=
  if f64_is_nan a then b else if f64_lt a b then b else a.

(** [float.fract() == 0.0] of a finite float. *)
Definition f64_integral (f : f64) : bool :=
  match f with
  | S754_zero _ => true
  | S754_finite _ m e => (0 <=? e) || (Zpos m mod 2 ^ (- e) =? 0)
  | _ => false
  end.

(** [float as i128] where it is exact. *)
Definition f64_to_Z (f : f64) : Z :=
  match f with
  | S754_finite s m e =>
      let a := if 0 <=? e then Zpos m * 2 ^ e else Zpos m / 2 ^ (- e) in if s then - a else a
  | _ => 0
  end.

(** The doubles there are: a mantissa of 53 bits in its canonical form. *)
Definition f64_ok (f : f64) : Prop := valid_binary 53 1024 f = true.

(** * JSON *)

Inductive Number :=
  | Int (z : Z)
  | Float (f : f64).

#[warnings="-register-all"]
Inductive Value :=
  | VNull
  | VBool (b : bool)
  | VNumber (n : Number)
  | VString (t : text)
  | VArray (l : list Value)
  | VObject (fields : list (text * Value)).

Definition i64_min : Z := - 9223372036854775808.
Definition i64_max : Z := 9223372036854775807.
Definition in_i64 (z : Z) : bool := (i64_min <=? z) && (z <=? i64_max).
Definition in_u64 (z : Z) : bool := (0 <=? z) && (z <=? Z.of_N u64_max).

(** [Map::get]: the entry of a key. *)
Fixpoint field {A} (fields : list (text * A)) (key : text) : option A :=
  match fields with
  | [] => None
  | (k, v) :: rest => if bool_decide (k = key) then Some v else field rest key
  end.

(** [Map::insert]: in place when the key is there, else at the end. *)
Fixpoint set_field (fields : list (text * Value)) (key : text) (v : Value) : list (text * Value) :=
  match fields with
  | [] => [(key, v)]
  | (k, old) :: rest => if bool_decide (k = key) then (k, v) :: rest else (k, old) :: set_field rest key v
  end.

(** [Value::get] with a text key: [None] for anything but an object. *)
Definition get (v : Value) (key : text) : option Value :=
  match v with VObject fields => field fields key | _ => None end.

(** [&value[key]]: [null] for what is not there. *)
Definition index (v : Value) (key : text) : Value := default VNull (get v key).

Definition as_str (v : Value) : option text := match v with VString t => Some t | _ => None end.
Definition as_array (v : Value) : option (list Value) := match v with VArray l => Some l | _ => None end.
Definition is_object (v : Value) : bool := match v with VObject _ => true | _ => false end.
Definition is_string (v : Value) : bool := match v with VString _ => true | _ => false end.
Definition is_null (v : Value) : bool := match v with VNull => true | _ => false end.

Definition as_i64 (v : Value) : option Z :=
  match v with VNumber (Int z) => if in_i64 z then Some z else None | _ => None end.
Definition as_u64 (v : Value) : option Z :=
  match v with VNumber (Int z) => if in_u64 z then Some z else None | _ => None end.
Definition as_f64 (v : Value) : option f64 :=
  match v with VNumber (Int z) => Some (f64_of_Z z) | VNumber (Float f) => Some f | _ => None end.

Definition int (z : Z) : Value := VNumber (Int z).
Definition real (f : f64) : Value := VNumber (Float f).
Definition str (s : string) : Value := VString (tx s).
Definition opt_text (o : option text) : Value := match o with Some t => VString t | None => VNull end.

(** [z.to_string()]. *)
Definition decimal (z : Z) : text := tx (pretty z).

(** * Refusals *)

Inductive RefusalKind :=
  | RunMissing | NotCoordinator | NotMember | NotRunning | BudgetExhausted | MemberLimit
  | IdentityTaken | RunExists | CompletionUnmet | StaleRevision | Immutable | WrongState
  | NotOwner | StaleToken | ReservedByOther | DependencyCycle | NotFound | CapacityFull
  | SupervisorOnly | LaunchConflict | RequestIdReused | Invalid | Calling | Contended
  | StoreMissing | Store | Internal.

#[export] Instance RefusalKind_eq_dec : EqDecision RefusalKind.
Proof. solve_decision. Defined.

(** What a member is refused with: the message is the Python board's. *)
Record Refusal := refusal { kind : RefusalKind; message : text }.

#[export] Instance Refusal_eq_dec : EqDecision Refusal.
Proof. solve_decision. Defined.

(** * Python's equality and truth *)

Inductive Numeric :=
  | NInteger (z : Z)
  | NFloat (f : f64).

Definition number_value (n : Number) : Numeric :=
  match n with Int z => NInteger z | Float f => NFloat f end.

Definition numeric (v : Value) : option Numeric :=
  match v with
  | VBool b => Some (NInteger (if b then 1 else 0))
  | VNumber n => Some (number_value n)
  | _ => None
  end.

(** Integral and within [[-2^63, 2^64)]. *)
Definition integral_within (f : f64) : bool :=
  f64_is_finite f && f64_integral f && (- 2 ^ 63 <=? f64_to_Z f) && (f64_to_Z f <? 2 ^ 64).

Definition integer_equals_float (z : Z) (f : f64) : bool := integral_within f && (f64_to_Z f =? z).

Definition numbers_equal (l r : Numeric) : bool :=
  match l, r with
  | NInteger a, NInteger b => a =? b
  | NFloat a, NFloat b => f64_eq a b
  | NInteger z, NFloat f | NFloat f, NInteger z => integer_equals_float z f
  end.

(** The items of two lists of one length, pairwise. *)
Definition zip_all {A} (f : A → A → bool) : list A → list A → bool :=
  fix go l r :=
    match l, r with
    | [], [] => true
    | x :: l', y :: r' => f x y && go l' r'
    | _, _ => false
    end.

Fixpoint python_equal (l r : Value) {struct l} : bool :=
  match l, r with
  | VNull, VNull => true
  | VString a, VString b => bool_decide (a = b)
  | VArray a, VArray b => zip_all python_equal a b
  | VObject a, VObject b =>
      (length a =? length b)%nat
      && forallb (λ kv : text * Value, match field b kv.1 with Some other => python_equal kv.2 other | None => false end) a
  | (VBool _ | VNumber _), (VBool _ | VNumber _) =>
      match numeric l, numeric r with Some a, Some b => numbers_equal a b | _, _ => false end
  | _, _ => false
  end.

Definition python_truthy (v : Value) : bool :=
  match v with
  | VNull => false
  | VBool b => b
  | VNumber n => match number_value n with NInteger z => negb (z =? 0) | NFloat f => negb (f64_eq f f64_zero) end
  | VString t => negb (bool_decide (t = []))
  | VArray l => negb (length l =? 0)%nat
  | VObject f => negb (length f =? 0)%nat
  end.

(** * A lookup by Python's equality *)

Inductive PythonKey :=
  | KNone
  | KInteger (z : Z)
  | KFloat (f : f64)
  | KText (t : text).

#[export] Instance PythonKey_eq_dec : EqDecision PythonKey.
Proof. solve_decision. Defined.

#[export] Instance f64_countable : Countable f64.
Proof.
  apply (inj_countable'
    (λ f, match f with
          | S754_zero s => inl (inl s) | S754_infinity s => inl (inr s) | S754_nan => inr (inl tt)
          | S754_finite s m e => inr (inr (s, m, e))
          end)
    (λ c : (bool + bool) + (unit + bool * positive * Z), match c with
          | inl (inl s) => S754_zero s | inl (inr s) => S754_infinity s | inr (inl _) => S754_nan
          | inr (inr (s, m, e)) => S754_finite s m e
          end)).
  by intros [].
Defined.

#[export] Instance PythonKey_countable : Countable PythonKey.
Proof.
  apply (inj_countable'
    (λ k, match k with
          | KNone => inl (inl tt) | KInteger z => inl (inr z) | KFloat f => inr (inl f) | KText t => inr (inr t)
          end)
    (λ c : (unit + Z) + (f64 + text), match c with
          | inl (inl _) => KNone | inl (inr z) => KInteger z | inr (inl f) => KFloat f | inr (inr t) => KText t
          end)).
  by intros [].
Defined.

Definition python_key (v : Value) : option PythonKey :=
  match v with
  | VNull => Some KNone
  | VString t => Some (KText t)
  | VBool _ | VNumber _ =>
      match numeric v with
      | Some (NInteger z) => Some (KInteger z)
      | Some (NFloat f) =>
          if f64_is_nan f then None
          else if integral_within f then Some (KInteger (f64_to_Z f)) else Some (KFloat f)
      | None => None
      end
  | VArray _ | VObject _ => None
  end.

Record PythonLookup := {
  values : list Value;
  keyed : gmap PythonKey nat;
  unkeyed : list nat;
}.

(** The loop of [PythonLookup::new] from index [i] on. *)
Fixpoint lookup_entries (i : nat) (vs : list Value) (keyed : gmap PythonKey nat) (unkeyed : list nat)
    : gmap PythonKey nat * list nat :=
  match vs with
  | [] => (keyed, unkeyed)
  | v :: rest =>
      match python_key v with
      | Some key =>
          lookup_entries (S i) rest (match keyed !! key with Some _ => keyed | None => <[key := i]> keyed end) unkeyed
      | None => lookup_entries (S i) rest keyed (unkeyed ++ [i])
      end
  end.

Definition PythonLookup_new (vs : list Value) : PythonLookup :=
  let '(keyed, unkeyed) := lookup_entries 0 vs ∅ [] in
  {| values := vs; keyed := keyed; unkeyed := unkeyed |}.

(** [values[index]] panics out of range ([None] here), and so does the
    [debug_assert!] on what was found. *)
Definition indexed_equal (self : PythonLookup) (key : Value) (i : nat) : option bool :=
  (λ v, python_equal v key) <$> self.(values) !! i.

Fixpoint find_equal (self : PythonLookup) (key : Value) (indices : list nat) : option (option nat) :=
  match indices with
  | [] => Some None
  | i :: rest =>
      match indexed_equal self key i with
      | None => None
      | Some true => Some (Some i)
      | Some false => find_equal self key rest
      end
  end.

Definition PythonLookup_position (self : PythonLookup) (key : Value) : option (option nat) :=
  let found :=
    match python_key key with
    | Some hashed => Some (self.(keyed) !! hashed)
    | None => find_equal self key self.(unkeyed)
    end in
  match found with
  | Some (Some i) => if decide (indexed_equal self key i = Some true) then found else None
  | _ => found
  end.

(** * Facts on values *)

Section value_ind.
Context (P : Value → Prop).
Context (Hnull : P VNull) (Hbool : ∀ b, P (VBool b)) (Hnumber : ∀ n, P (VNumber n)).
Context (Hstring : ∀ t, P (VString t)) (Harray : ∀ l, Forall P l → P (VArray l)).
Context (Hobject : ∀ fields, Forall (λ kv, P kv.2) fields → P (VObject fields)).

Fixpoint Value_nested_ind (v : Value) : P v :=
  match v with
  | VNull => Hnull
  | VBool b => Hbool b
  | VNumber n => Hnumber n
  | VString t => Hstring t
  | VArray l =>
      Harray l ((fix go (l : list Value) : Forall P l :=
        match l with [] => Forall_nil _ | x :: l' => Forall_cons _ _ _ (Value_nested_ind x) (go l') end) l)
  | VObject fields =>
      Hobject fields ((fix go (l : list (text * Value)) : Forall (λ kv, P kv.2) l :=
        match l with
        | [] => Forall_nil _
        | kv :: l' => Forall_cons _ kv _ (Value_nested_ind kv.2) (go l')
        end) fields)
  end.
End value_ind.

(** The values [serde_json] and the board's codec hold: integers of i64 or u64,
    finite doubles, an entry for each key. *)
Definition number_ok (n : Number) : bool :=
  match n with
  | Int z => in_i64 z || in_u64 z
  | Float f => f64_is_finite f && valid_binary 53 1024 f
  end.

Fixpoint value_ok (v : Value) : bool :=
  match v with
  | VNumber n => number_ok n
  | VArray l => forallb value_ok l
  | VObject fields => bool_decide (NoDup fields.*1) && forallb (λ kv, value_ok kv.2) fields
  | _ => true
  end.

(** ** Doubles *)

Lemma digits2_pos_shift m k : Zpos (digits2_pos (Pos.iter xO m k)) = Zpos (digits2_pos m) + Zpos k.
Proof.
  induction k as [|k IH] using Pos.peano_ind; [simpl; lia|].
  rewrite Pos.iter_succ. cbn [digits2_pos]. lia.
Qed.

Lemma pos_mul_pow2 m k : Zpos (Pos.iter xO m k) = Zpos m * 2 ^ Zpos k.
Proof.
  induction k as [|k IH] using Pos.peano_ind; [simpl; lia|].
  rewrite Pos.iter_succ, Pos2Z.inj_succ, Z.pow_succ_r by lia.
  rewrite Pos2Z.inj_xO, IH. lia.
Qed.

Lemma canonical_shift m1 e1 m2 e2 :
  canonical_mantissa 53 1024 m1 e1 = true → canonical_mantissa 53 1024 m2 e2 = true →
  e1 ≤ e2 → Zpos m1 = Zpos m2 * 2 ^ (e2 - e1) → m1 = m2 ∧ e1 = e2.
Proof.
  unfold canonical_mantissa. intros H1%Z.eqb_eq H2%Z.eqb_eq Hle Hm.
  destruct (e2 - e1) as [|k|k] eqn:Hk; [split; lia| |lia]. exfalso.
  rewrite <-pos_mul_pow2 in Hm. injection Hm as ->.
  pose proof (digits2_pos_shift m2 k). unfold fexp, emin in *. lia.
Qed.

Lemma f64_eq_finite a b :
  f64_is_finite a = true → f64_is_finite b = true →
  f64_eq a b = true ↔ a = b ∨ (∃ s s', a = S754_zero s ∧ b = S754_zero s').
Proof.
  unfold f64_eq, SFeqb. intros Ha Hb. split.
  - destruct a as [sa| | |sa ma ea], b as [sb| | |sb mb eb]; try done; cbn.
    + intros _. right. eauto.
    + by destruct sb.
    + by destruct sa.
    + change (Pos.compare_cont Eq ma mb) with (Pos.compare ma mb).
      destruct sa, sb; try done; destruct (Z.compare_spec ea eb) as [->| |]; try done;
        destruct (Pos.compare_spec ma mb) as [->| |]; try done; by left.
  - intros [->|(s & s' & -> & ->)]; [|done].
    destruct b as [sb| | |sb mb eb]; try done. cbn.
    change (Pos.compare_cont Eq mb mb) with (Pos.compare mb mb).
    destruct sb; rewrite Z.compare_refl, Pos.compare_refl; done.
Qed.

Lemma f64_to_Z_scaled s m e k :
  f64_integral (S754_finite s m e) = true → 0 ≤ k → 0 ≤ e + k →
  f64_to_Z (S754_finite s m e) * 2 ^ k = (if s then -1 else 1) * (Zpos m * 2 ^ (e + k)).
Proof.
  cbn. intros Hi Hk Hek. destruct (Z.leb_spec 0 e) as [He|He]; simpl in Hi.
  - rewrite Z.pow_add_r by lia. destruct s; lia.
  - apply Z.eqb_eq in Hi. apply Z.div_exact in Hi; [|pose proof (Z.pow_pos_nonneg 2 (- e)); lia].
    set (q := Zpos m / 2 ^ (- e)) in *. replace k with (- e + (e + k)) at 1 by lia.
    rewrite Z.pow_add_r by lia. rewrite Hi. destruct s; lia.
Qed.

Lemma f64_to_Z_inj a b :
  f64_ok a → f64_ok b → f64_is_finite a = true → f64_is_finite b = true →
  f64_integral a = true → f64_integral b = true →
  f64_to_Z a = f64_to_Z b → f64_eq a b = true.
Proof.
  intros Ha Hb Hfa Hfb Hia Hib Heq. apply f64_eq_finite; [done..|].
  assert (∀ s m e, f64_integral (S754_finite s m e) = true → f64_to_Z (S754_finite s m e) ≠ 0) as Hnz.
  { intros s m e Hi Hz. pose proof (f64_to_Z_scaled s m e (Z.abs e) Hi ltac:(lia) ltac:(lia)) as H.
    rewrite Hz in H. pose proof (Z.pow_pos_nonneg 2 (e + Z.abs e)). destruct s; nia. }
  destruct a as [sa| | |sa ma ea], b as [sb| | |sb mb eb]; try done.
  - right. eauto.
  - by symmetry in Heq; apply Hnz in Heq.
  - by apply Hnz in Heq.
  - left. set (k := Z.max (Z.abs ea) (Z.abs eb)).
    pose proof (f64_to_Z_scaled sa ma ea k Hia ltac:(lia) ltac:(lia)) as H1.
    pose proof (f64_to_Z_scaled sb mb eb k Hib ltac:(lia) ltac:(lia)) as H2.
    rewrite Heq, H2 in H1. clear H2.
    pose proof (Z.pow_pos_nonneg 2 (ea + k) ltac:(lia) ltac:(lia)).
    pose proof (Z.pow_pos_nonneg 2 (eb + k) ltac:(lia) ltac:(lia)).
    assert (sa = sb) as -> by (destruct sa, sb; [done|nia|nia|done]).
    assert (Zpos ma * 2 ^ (ea + k) = Zpos mb * 2 ^ (eb + k)) as Hm by (destruct sb; lia).
    unfold f64_ok, valid_binary, bounded in *. split_bools.
    destruct (Z.le_ge_cases ea eb) as [Hle|Hle].
    + destruct (canonical_shift ma ea mb eb) as [-> ->]; [done|done|done| |done].
      apply (Z.mul_reg_r _ _ (2 ^ (ea + k))); [lia|]. rewrite <-Z.mul_assoc, <-Z.pow_add_r by lia.
      by replace (eb - ea + (ea + k)) with (eb + k) by lia.
    + destruct (canonical_shift mb eb ma ea) as [-> ->]; [done|done|lia| |done].
      apply (Z.mul_reg_r _ _ (2 ^ (eb + k))); [lia|]. rewrite <-Z.mul_assoc, <-Z.pow_add_r by lia.
      replace (ea - eb + (eb + k)) with (ea + k) by lia. done.
Qed.

(** ** Numbers *)

Definition numeric_ok (n : Numeric) : Prop :=
  match n with NInteger _ => True | NFloat f => f64_is_finite f = true ∧ f64_ok f end.

(** The key of a number. *)
Definition numeric_key (n : Numeric) : PythonKey :=
  match n with
  | NInteger z => KInteger z
  | NFloat f => if integral_within f then KInteger (f64_to_Z f) else KFloat f
  end.

Lemma integral_within_zero s : integral_within (S754_zero s) = true.
Proof. done. Qed.

Lemma numbers_equal_key a b :
  numeric_ok a → numeric_ok b → numbers_equal a b = true ↔ numeric_key a = numeric_key b.
Proof.
  assert (∀ z f, integer_equals_float z f = true ↔ KInteger z = numeric_key (NFloat f)) as Hif.
  { intros z f. unfold integer_equals_float. cbn. destruct (integral_within f); simpl; [|by split].
    rewrite Z.eqb_eq. by split; [intros ->|intros [= ->]]. }
  destruct a as [z|f], b as [z'|g]; simpl.
  - intros _ _. rewrite Z.eqb_eq. by split; [intros ->|intros [= ->]].
  - intros _ _. apply Hif.
  - intros _ _. rewrite Hif. simpl. by split.
  - intros [Hff Hfo] [Hgf Hgo]. destruct (integral_within f) eqn:Hf, (integral_within g) eqn:Hg.
    + split.
      * rewrite f64_eq_finite by done. by intros [->|(s & s' & -> & ->)].
      * intros [= Heq]. unfold integral_within in *. split_bools. by apply f64_to_Z_inj.
    + split; [|done]. rewrite f64_eq_finite by done. intros [->|(s & s' & -> & ->)]; [congruence|done].
    + split; [|done]. rewrite f64_eq_finite by done. intros [->|(s & s' & -> & ->)]; [congruence|done].
    + rewrite f64_eq_finite by done. split; [|intros [= ->]; by left].
      intros [->|(s & s' & -> & ->)]; [done|by rewrite integral_within_zero in Hf].
Qed.

(** ** Python's equality *)

Lemma numeric_value_ok v n : value_ok v = true → numeric v = Some n → numeric_ok n.
Proof.
  destruct v as [|b|[z|f]| | |]; simpl; intros Hok [= <-]; simpl; [done|done|].
  unfold f64_ok. by split_bools.
Qed.

Lemma field_Some {A} (fields : list (text * A)) k v :
  field fields k = Some v → (k, v) ∈ fields.
Proof.
  induction fields as [|[k' v'] rest IH]; simpl; [done|]. case_bool_decide as Hk.
  - intros [= ->]. subst. by left.
  - intros ?. right. auto.
Qed.

Lemma field_elem {A} (fields : list (text * A)) k v :
  NoDup fields.*1 → (k, v) ∈ fields → field fields k = Some v.
Proof.
  induction fields as [|[k' v'] rest IH]; simpl; [by intros _ ?%not_elem_of_nil|].
  intros [Hk Hnd]%list.NoDup_cons Hin. case_bool_decide as Heq.
  - subst. apply elem_of_cons in Hin as [[= ->]|Hin]; [done|]. exfalso. apply Hk.
    by apply (list_elem_of_fmap_2 fst) in Hin.
  - apply elem_of_cons in Hin as [[= -> ->]|Hin]; [done|]. auto.
Qed.

Lemma zip_all_Forall2 {A} (f : A → A → bool) l r : zip_all f l r = true ↔ Forall2 (λ x y, f x y = true) l r.
Proof.
  revert r. induction l as [|x l IH]; intros [|y r]; simpl; try (split; [done|inversion 1]).
  - by split.
  - rewrite andb_true_iff, IH. split; [intros []; by constructor|inversion 1; done].
Qed.

(** The entries of two equal objects: the same keys, equal values. *)
Lemma objects_equal a b :
  NoDup a.*1 → NoDup b.*1 →
  python_equal (VObject a) (VObject b) = true ↔
  a.*1 ≡ₚ b.*1 ∧ ∀ k v w, field a k = Some v → field b k = Some w → python_equal v w = true.
Proof.
  intros Ha Hb. cbn. rewrite andb_true_iff, Nat.eqb_eq, forallb_forall. split.
  - intros [Hlen Hall].
    assert (∀ k v, (k, v) ∈ a → ∃ w, field b k = Some w ∧ python_equal v w = true) as Hin.
    { intros k v Hkv%list_elem_of_In%Hall. simpl in Hkv. destruct (field b k); [eauto|done]. }
    split.
    + apply submseteq_length_Permutation; [|by rewrite !length_fmap, Hlen].
      apply NoDup_submseteq; [done|]. intros k ([k' v] & -> & Hkv)%list_elem_of_fmap.
      destruct (Hin _ _ Hkv) as (w & Hw%field_Some & _). by apply (list_elem_of_fmap_2 fst) in Hw.
    + intros k v w Hv%field_Some Hw. destruct (Hin _ _ Hv) as (w' & Hw' & ?). congruence.
  - intros [Hp Heq]. split.
    { apply Permutation_length in Hp. by rewrite !length_fmap in Hp. }
    intros [k v] Hkv%list_elem_of_In. simpl.
    assert (k ∈ b.*1) as ([k' w] & -> & Hw)%list_elem_of_fmap.
    { rewrite <-Hp. by apply (list_elem_of_fmap_2 fst) in Hkv. }
    simpl in *. rewrite (field_elem b k' w) by done. eauto using field_elem.
Qed.

Lemma value_ok_object fields :
  value_ok (VObject fields) = true → NoDup fields.*1 ∧ ∀ k v, field fields k = Some v → value_ok v = true.
Proof.
  cbn. intros [Hnd%bool_decide_eq_true Hall]%andb_true_iff. split; [done|].
  intros k v Hv%field_Some. rewrite forallb_forall in Hall. by apply list_elem_of_In, Hall in Hv.
Qed.

Lemma value_ok_array l : value_ok (VArray l) = true → Forall (λ v, value_ok v = true) l.
Proof. cbn. rewrite forallb_forall, list.Forall_forall. intros H x Hx. by apply H, list_elem_of_In. Qed.

Lemma python_equal_refl v : value_ok v = true → python_equal v v = true.
Proof.
  induction v as [|b|n|t|l IH|fields IH] using Value_nested_ind; intros Hok; cbn [python_equal]; try done.
  - cbn. by rewrite Z.eqb_refl.
  - cbn. apply numbers_equal_key; [|by eapply numeric_value_ok..|done]. by eapply numeric_value_ok.
  - by apply bool_decide_eq_true.
  - apply zip_all_Forall2. apply value_ok_array in Hok.
    induction l; constructor; [|apply IHl]; inversion IH; inversion Hok; auto.
  - destruct (value_ok_object _ Hok) as [Hnd Hf]. change (python_equal (VObject fields) (VObject fields) = true).
    apply objects_equal; [done..|]. split; [done|]. intros k v w Hv Hw. simplify_eq.
    rewrite list.Forall_forall in IH. apply (IH (k, v)); eauto using field_Some.
Qed.

(** Numbers are equal by their keys, and to numbers only. *)
Lemma python_equal_numbers v w a b :
  numeric v = Some a → numeric w = Some b → python_equal v w = numbers_equal a b.
Proof. by destruct v as [|?|[]| | |], w as [|?|[]| | |]; intros [= <-] [= <-]. Qed.

Lemma python_equal_numeric v w :
  python_equal v w = true → is_Some (numeric v) ↔ is_Some (numeric w).
Proof. destruct v, w; cbn; try done; intros _; split; eauto. Qed.

Lemma python_equal_array l w :
  python_equal (VArray l) w = true ↔ ∃ r, w = VArray r ∧ Forall2 (λ x y, python_equal x y = true) l r.
Proof.
  destruct w; cbn; try (split; [done|by intros (? & [=] & _)]).
  rewrite zip_all_Forall2. split; [eauto|]. by intros (? & [= ->] & ?).
Qed.

Lemma python_equal_object a w : python_equal (VObject a) w = true → ∃ b, w = VObject b.
Proof. destruct w; cbn; try done. eauto. Qed.

Lemma python_equal_sym v w :
  value_ok v = true → value_ok w = true → python_equal v w = true → python_equal w v = true.
Proof.
  revert w. induction v as [|b|n|t|l IH|fields IH] using Value_nested_ind; intros w Hv Hw Heq.
  1, 4: destruct w; try done; cbn in *; apply bool_decide_eq_true in Heq; by apply bool_decide_eq_true.
  1, 2: pose proof (proj1 (python_equal_numeric _ _ Heq) ltac:(eexists; reflexivity)) as [b' Hb'];
    erewrite python_equal_numbers in Heq |- * by done;
    apply numbers_equal_key; eauto using numeric_value_ok; symmetry;
    apply numbers_equal_key; eauto using numeric_value_ok.
  - apply python_equal_array in Heq as (r & -> & Heq). apply python_equal_array. eexists. split; [done|].
    apply value_ok_array in Hv, Hw. induction Heq; constructor; inversion IH; inversion Hv; inversion Hw; auto.
  - destruct (python_equal_object _ _ Heq) as [b ->].
    destruct (value_ok_object _ Hv) as [Hnv Hfv], (value_ok_object _ Hw) as [Hnw Hfw].
    apply objects_equal in Heq as [Hp Heq]; [|done..]. apply objects_equal; [done..|]. split; [done|].
    intros k x y Hx Hy. rewrite list.Forall_forall in IH. apply (IH (k, y)); eauto using field_Some.
Qed.

Lemma python_equal_trans u v w :
  value_ok u = true → value_ok v = true → value_ok w = true →
  python_equal u v = true → python_equal v w = true → python_equal u w = true.
Proof.
  revert v w. induction u as [|b|n|t|l IH|fields IH] using Value_nested_ind; intros v w Hu Hv Hw Huv Hvw.
  1, 4: destruct v; try done; destruct w; try done; cbn in *; split_bools; subst; try done; by apply bool_decide_eq_true.
  1, 2: pose proof (proj1 (python_equal_numeric _ _ Huv) ltac:(eexists; reflexivity)) as [b' Hb'];
    pose proof (proj1 (python_equal_numeric _ _ Hvw) ltac:(eexists; eassumption)) as [c' Hc'];
    erewrite python_equal_numbers in Huv, Hvw |- * by done;
    apply numbers_equal_key in Huv, Hvw; eauto using numeric_value_ok;
    apply numbers_equal_key; eauto using numeric_value_ok; congruence.
  - apply python_equal_array in Huv as (r & -> & Huv). apply python_equal_array in Hvw as (r' & -> & Hvw).
    apply python_equal_array. eexists. split; [done|].
    apply value_ok_array in Hu, Hv, Hw. revert r' Hw Hvw. induction Huv; intros r' Hw Hvw; inversion Hvw; subst; constructor;
      inversion IH; inversion Hu; inversion Hv; inversion Hw; subst; eauto.
  - destruct (python_equal_object _ _ Huv) as [b ->]. destruct (python_equal_object _ _ Hvw) as [c ->].
    destruct (value_ok_object _ Hu) as [Hnu Hfu], (value_ok_object _ Hv) as [Hnv Hfv], (value_ok_object _ Hw) as [Hnw Hfw].
    apply objects_equal in Huv as [Hp Huv]; [|done..]. apply objects_equal in Hvw as [Hp' Hvw]; [|done..].
    apply objects_equal; [done..|]. split; [by rewrite Hp|]. intros k x z Hx Hz.
    assert (k ∈ b.*1) as ([k' y] & -> & Hy)%list_elem_of_fmap.
    { rewrite <-Hp. apply field_Some in Hx. by apply (list_elem_of_fmap_2 fst) in Hx. }
    apply (field_elem b) in Hy; [|done]. simpl in *. rewrite list.Forall_forall in IH.
    apply (IH (k', x)) with (v := y); eauto using field_Some.
Qed.

(** ** The lookup finds what a linear search finds *)

Lemma python_key_numeric v n : value_ok v = true → numeric v = Some n → python_key v = Some (numeric_key n).
Proof.
  intros Hok Hn. pose proof (numeric_value_ok v n Hok Hn) as Hnok.
  destruct v as [|b|[z|f]| | |]; simpl in *; try done; simplify_eq; simpl; [done|done|].
  destruct Hnok as [Hf _]. destruct f; try done; simpl; by destruct (integral_within _).
Qed.

Lemma python_equal_keyed v w k :
  value_ok v = true → value_ok w = true → python_key w = Some k →
  python_equal v w = true ↔ python_key v = Some k.
Proof.
  intros Hv Hw Hk. destruct (numeric w) as [b|] eqn:Hb.
  - rewrite (python_key_numeric w b Hw Hb) in Hk. simplify_eq. destruct (numeric v) as [a|] eqn:Ha.
    + rewrite (python_equal_numbers v w a b Ha Hb), (python_key_numeric v a Hv Ha).
      rewrite numbers_equal_key by eauto using numeric_value_ok. split; [by intros ->|by intros [= ->]].
    + split.
      * intros Heq%python_equal_numeric. rewrite Ha, Hb in Heq. destruct Heq as [_ Heq].
        destruct Heq; [eauto|done].
      * intros Hvk. destruct v; simpl in Ha, Hvk; try done;
          destruct w as [|?|[]| | |]; simpl in Hb; simplify_eq; simpl in *; try done; by destruct (integral_within _).
  - destruct w; simpl in Hb, Hk; try done; simplify_eq; destruct v as [|?|[z|f]|u| |]; cbn; try done;
      try (by destruct (f64_is_nan f), (integral_within f)).
    rewrite bool_decide_eq_true. by split; [intros ->|intros [= ->]].
Qed.

Lemma python_equal_unkeyed v w :
  value_ok v = true → value_ok w = true → python_key w = None → python_equal v w = true → python_key v = None.
Proof.
  intros Hv Hw Hk Heq. destruct (python_key v) as [k|] eqn:Hvk; [|done].
  apply python_equal_sym in Heq; [|done..]. apply (python_equal_keyed w v k) in Heq; congruence.
Qed.

Definition keyed_as (k : PythonKey) (v : Value) : bool := bool_decide (python_key v = Some k).

(** The indices from [i] on of the values without a key. *)
Fixpoint unkeyed_from (i : nat) (vs : list Value) : list nat :=
  match vs with
  | [] => []
  | v :: rest => match python_key v with Some _ => [] | None => [i] end ++ unkeyed_from (S i) rest
  end.

Lemma lookup_entries_spec i vs m u :
  (lookup_entries i vs m u).2 = u ++ unkeyed_from i vs ∧
  ∀ k, (lookup_entries i vs m u).1 !! k =
    match m !! k with Some j => Some j | None => (λ j, (i + j)%nat) <$> position (keyed_as k) vs end.
Proof.
  revert i m u. induction vs as [|v vs IH]; intros i m u; simpl.
  - split; [by rewrite app_nil_r|]. intros k. by destruct (m !! k).
  - destruct (python_key v) as [kv|] eqn:Hv; simpl.
    + destruct (IH (S i) (match m !! kv with Some _ => m | None => <[kv:=i]> m end) u) as [IH1 IH2].
      split; [done|]. intros k. rewrite IH2. unfold keyed_as at 2. rewrite Hv. case_bool_decide as Hk.
      * simplify_eq. destruct (m !! k) as [j|] eqn:Hm; [by rewrite Hm|].
        rewrite lookup_insert_eq. simpl. f_equal. lia.
      * assert ((match m !! kv with Some _ => m | None => <[kv:=i]> m end) !! k = m !! k) as ->.
        { destruct (m !! kv); [done|]. rewrite lookup_insert_ne; [done|congruence]. }
        destruct (m !! k); [done|]. rewrite <-option_fmap_compose. apply option_fmap_ext. intros j. simpl. lia.
    + destruct (IH (S i) m (u ++ [i])) as [IH1 IH2]. split; [by rewrite IH1, <-app_assoc|].
      intros k. rewrite IH2. unfold keyed_as at 2. rewrite Hv. case_bool_decide; [done|].
      destruct (m !! k); [done|]. rewrite <-option_fmap_compose. apply option_fmap_ext. intros j. simpl. lia.
Qed.

Lemma find_equal_spec self key pre vs :
  self.(values) = pre ++ vs → (∀ v, v ∈ vs → is_Some (python_key v) → python_equal v key = false) →
  find_equal self key (unkeyed_from (length pre) vs) =
    Some ((λ j, (length pre + j)%nat) <$> position (λ v, python_equal v key) vs).
Proof.
  revert pre. induction vs as [|v vs IH]; intros pre Hvs Hkeyed; simpl; [done|].
  assert (find_equal self key (unkeyed_from (S (length pre)) vs)
          = Some ((λ j, (length pre + S j)%nat) <$> position (λ v, python_equal v key) vs)) as Hrest.
  { specialize (IH (pre ++ [v])). rewrite length_app, Nat.add_comm in IH. simpl in IH. rewrite IH.
    - f_equal. apply option_fmap_ext. intros j. lia.
    - by rewrite Hvs, <-app_assoc.
    - intros w Hw. apply Hkeyed. by right. }
  destruct (python_key v) as [k|] eqn:Hv; simpl.
  - rewrite Hkeyed; [|by left|by rewrite Hv]. rewrite Hrest, <-option_fmap_compose. done.
  - unfold indexed_equal. rewrite Hvs, lookup_app_r, Nat.sub_diag by lia. simpl.
    destruct (python_equal v key); [simpl; by rewrite Nat.add_0_r|]. rewrite Hrest, <-option_fmap_compose. done.
Qed.

Lemma position_ext {A} (f g : A → bool) l : (∀ x, x ∈ l → f x = g x) → position f l = position g l.
Proof.
  induction l as [|x l IH]; intros H; simpl; [done|]. rewrite H by (by left). rewrite IH; [done|].
  intros y Hy. apply H. by right.
Qed.

Theorem PythonLookup_position_linear vs key :
  value_ok key = true → Forall (λ v, value_ok v = true) vs →
  PythonLookup_position (PythonLookup_new vs) key = Some (position (λ v, python_equal v key) vs).
Proof.
  intros Hkey Hvs. rewrite list.Forall_forall in Hvs.
  unfold PythonLookup_position, PythonLookup_new.
  destruct (lookup_entries_spec 0 vs ∅ []) as [Hu Hm]. destruct (lookup_entries 0 vs ∅ []) as [m u].
  simpl in *. subst u.
  set (self := {| values := vs; keyed := m; unkeyed := unkeyed_from 0 vs |}).
  assert (match python_key key with Some h => Some (m !! h) | None => find_equal self key (unkeyed_from 0 vs) end
          = Some (position (λ v, python_equal v key) vs)) as ->.
  { destruct (python_key key) as [k|] eqn:Hk.
    - rewrite Hm, lookup_empty. f_equal. rewrite option_fmap_id. apply position_ext.
      intros v Hv. unfold keyed_as. apply eq_true_iff_eq. rewrite bool_decide_eq_true.
      symmetry. eauto using python_equal_keyed.
    - pose proof (find_equal_spec self key [] vs) as Hf. simpl in Hf. rewrite Hf; [by rewrite option_fmap_id|done|].
      intros v Hv [k Hvk]. apply not_true_iff_false. intros Heq.
      pose proof (python_equal_unkeyed v key). naive_solver. }
  destruct (position _ vs) as [i|] eqn:Hp; [|done]. apply position_Some in Hp as [(v & Hv & Heq) _].
  rewrite decide_True; [done|]. unfold indexed_equal. simpl. by rewrite Hv; simpl; rewrite Heq.
Qed.
