(* ===== verification/SwarmPolicy.v ===== *)
(** The decisions of the swarm coordination board over values.

    Models [domain/swarm/entities/records.rs], [services/validation.rs],
    [services/policy.rs], [services/evidence_carry.rs] and the blockers of
    [value_objects/lifecycle.rs].  A status is a raw text in the source, matched
    against the known ones; here its type has a constructor for each known text
    and one for any other, which is what those matches tell apart. *)

From S2P Require Import Prelude SwarmValue.

Local Open Scope Z_scope.

Definition refused {A} (k : RefusalKind) (m : text) : res Refusal A := Err (refusal k m).

(** [value.get(key).and_then(Value::as_str)]. *)
Definition get_str (v : Value) (key : text) : option text := get v key ≫= as_str.

(** * Records *)

Module RunState.
Inductive t := SETUP | RUNNING | PAUSED | SUCCEEDED | BLOCKED | FAILED | CANCELLED | BUDGET_EXHAUSTED | Unknown (s : text).

#[global] Instance eq_dec : EqDecision t.
Proof. solve_decision. Defined.

Definition as_str (s : t) : text :=
  match s with
  | SETUP => tx "setup" | RUNNING => tx "running" | PAUSED => tx "paused" | SUCCEEDED => tx "succeeded"
  | BLOCKED => tx "blocked" | FAILED => tx "failed" | CANCELLED => tx "cancelled"
  | BUDGET_EXHAUSTED => tx "budget-exhausted" | Unknown s => s
  end.

Definition known_states : list t := [SETUP; RUNNING; PAUSED; SUCCEEDED; BLOCKED; FAILED; CANCELLED; BUDGET_EXHAUSTED].

(** [RunState::new]. *)
Definition new (s : text) : t := default (Unknown s) (List.find (λ k, bool_decide (as_str k = s)) known_states).
End RunState.

Module TaskState.
Inductive t := READY | CLAIMED | BLOCKED | SUBMITTED | COMPLETED | Unknown (s : text).

#[global] Instance eq_dec : EqDecision t.
Proof. solve_decision. Defined.

Definition as_str (s : t) : text :=
  match s with
  | READY => tx "ready" | CLAIMED => tx "claimed" | BLOCKED => tx "blocked" | SUBMITTED => tx "submitted"
  | COMPLETED => tx "completed" | Unknown s => s
  end.
End TaskState.

Module MemberState.
Inductive t := LIVE | RESERVED | DEAD | Unknown (s : text).

#[global] Instance eq_dec : EqDecision t.
Proof. solve_decision. Defined.

Definition as_str (s : t) : text :=
  match s with LIVE => tx "live" | RESERVED => tx "reserved" | DEAD => tx "dead" | Unknown s => s end.
End MemberState.

(** The [run] row, as far as policy reads it. *)
Record RunRecord := {
  status : option RunState.t;
  coordinator : option text;
  deadline : f64;
  member_limit : Z;
  outcome : option text;
  outcome_reason : option text;
}.

Record MemberRecord := {
  m_id : text;
  m_status : option MemberState.t;
  m_reservation : option text;
}.

Record TaskRecord := {
  tr_id : Z;
  tr_status : TaskState.t;
  tr_owner : option text;
  tr_evidence : Value;
}.

Inductive CriterionKind := Command | Review.

#[export] Instance CriterionKind_eq_dec : EqDecision CriterionKind.
Proof. solve_decision. Defined.

Definition CriterionKind_parse (t : text) : option CriterionKind :=
  if bool_decide (t = tx "command") then Some Command
  else if bool_decide (t = tx "review") then Some Review else None.

Record Criterion := { c_id : text; c_kind : CriterionKind; c_description : text }.

Record EvidenceRow := {
  ev_criterion : text;
  ev_revision : text;
  ev_kind : CriterionKind;
  ev_accepted : bool;
}.

(** * Validation *)

Definition CRITERIA_MAX_BYTES : Z := 16384.
Definition CRITERION_ID_MAX_BYTES : Z := 128.
Definition TEXT_MAX_BYTES : Z := 8192.
Definition TITLE_MAX_BYTES : Z := 1024.
Definition MEMBER_LIMIT_MAX : Z := 25.
Definition DEADLINE_HORIZON_SECONDS : f64 := f64_of_Z 604800.
Definition MEMBER_ID_MAX_BYTES : Z := 128.

(** [str.isspace] of one character. *)
Definition python_space (c : N) : bool :=
  ((9 <=? c) && (c <=? 13) || (28 <=? c) && (c <=? 31) || (c =? 32) || (c =? 133) || (c =? 160) || (c =? 5760)
   || (8192 <=? c) && (c <=? 8202) || (c =? 8232) || (c =? 8233) || (c =? 8239) || (c =? 8287) || (c =? 12288))%N.

Definition has_content (t : text) : bool := existsb (λ c, negb (python_space c)) t.

Definition too_long (label : text) (maximum : Z) : Refusal :=
  refusal Invalid (label ++ tx " must be nonempty and at most " ++ decimal maximum ++ tx " bytes").

Definition bounded_text (t label : text) (maximum : Z) : res Refusal text :=
  if has_content t && (Z.of_nat (byte_len t) <=? maximum) then Ok t else Err (too_long label maximum).

Definition bounded (v : Value) (label : text) (maximum : Z) : res Refusal text :=
  match v with VString t => bounded_text t label maximum | _ => Err (too_long label maximum) end.

Definition edited_criteria : Refusal :=
  refusal Store (tx "the board's run criteria is not as the board writes it").

Definition stored_criterion (entry : Value) : res Refusal Criterion :=
  match is_object entry, get_str entry (tx "id"), get_str entry (tx "kind") ≫= CriterionKind_parse with
  | true, Some id, Some kind =>
      Ok {| c_id := id; c_kind := kind; c_description := default [] (get_str entry (tx "description")) |}
  | _, _, _ => Err edited_criteria
  end.

Definition stored_criteria (v : Value) : res Refusal (list Criterion) :=
  match v with VArray entries => collect stored_criterion entries | _ => Err edited_criteria end.

Definition completion_revision (v : Value) : res Refusal text :=
  match v with
  | VString revision =>
      if has_content revision then Ok revision else refused Invalid (tx "completion revision required")
  | _ => refused Invalid (tx "completion revision required")
  end.

Definition criterion (entry : Value) : res Refusal Criterion :=
  match match entry with VObject _ => get_str entry (tx "kind") ≫= CriterionKind_parse | _ => None end with
  | None => refused Invalid (tx "criteria distinguish command checks from parent-reviewed requirements")
  | Some kind =>
      let? id := bounded (index entry (tx "id")) (tx "criterion id") CRITERION_ID_MAX_BYTES in
      let? description := bounded (index entry (tx "description")) (tx "criterion description") TEXT_MAX_BYTES in
      Ok {| c_id := id; c_kind := kind; c_description := description |}
  end.

(** The loop of [criteria] over the entries left. *)
Fixpoint criteria_loop (entries : list Value) (parsed : list Criterion) : res Refusal (list Criterion) :=
  match entries with
  | [] => Ok parsed
  | entry :: rest =>
      let? c := criterion entry in
      if existsb (λ seen, bool_decide (seen.(c_id) = c.(c_id))) parsed
      then refused Invalid (tx "duplicate criterion id")
      else criteria_loop rest (parsed ++ [c])
  end.

Definition criteria (v : Value) (encoded_len : Z) : res Refusal (list Criterion) :=
  match v with
  | VArray ((_ :: _) as entries) =>
      let? parsed := criteria_loop entries [] in
      assert_that (bool_decide (NoDup (c_id <$> parsed))) ;?
      (if encoded_len <=? CRITERIA_MAX_BYTES then Ok parsed
       else Err (too_long (tx "criteria") CRITERIA_MAX_BYTES))
  | _ => refused Invalid (tx "explicit evidence criteria required")
  end.

(** * Policy *)

Definition PROPOSED_OUTCOMES : list text := [tx "succeeded"; tx "blocked"; tx "failed"; tx "budget-exhausted"].
Definition STOP_STATUSES : list text := [tx "blocked"; tx "failed"; tx "budget-exhausted"; tx "cancelled"].

Record Access := { active : bool; coordinating : bool; read_only : bool }.

Definition default_access : Access := {| active := false; coordinating := false; read_only := false |}.
Definition reading : Access := {| active := false; coordinating := false; read_only := true |}.

Definition MAX_EXTENSION_SECONDS : Z := 7 * 24 * 3600.

Definition status_text (run : RunRecord) : text :=
  match run.(status) with Some s => RunState.as_str s | None => tx "None" end.

Definition describe (run : RunRecord) : text :=
  match run.(status), run.(outcome) with
  | Some RunState.PAUSED, Some ((_ :: _) as held) =>
      let reason := match run.(outcome_reason) with Some ((_ :: _) as r) => r | _ => tx "no reason" end in
      tx "paused (" ++ held ++ tx ": " ++ reason ++ tx ")"
  | _, _ => status_text run
  end.

Definition budget_spent (run : RunRecord) : bool :=
  match run.(status) with
  | Some RunState.PAUSED => bool_decide (run.(outcome) = Some (tx "budget-exhausted"))
  | Some RunState.BUDGET_EXHAUSTED => true
  | _ => false
  end.

Definition not_running (spent : bool) : RefusalKind := if spent then BudgetExhausted else NotRunning.

Definition run_already (run : RunRecord) : Refusal :=
  refusal (not_running (budget_spent run)) (tx "run already " ++ describe run).

Definition run_already_held (run : RunRecord) : Refusal :=
  refusal (not_running (budget_spent run))
    (tx "run already " ++ describe run
     ++ tx "; only the supervisor can resume or close it, and op=cancel_run cancels it").

Definition status_is_alive (s : option MemberState.t) : bool :=
  match s with Some (MemberState.LIVE | MemberState.RESERVED) => true | _ => false end.

Definition member_alive (m : MemberRecord) : bool := status_is_alive m.(m_status).

Definition is_running (run : RunRecord) : bool :=
  match run.(status) with Some RunState.RUNNING => true | _ => false end.

Definition authorize (run : option RunRecord) (actor : text) (member : option MemberRecord) (access : Access)
    : res Refusal unit :=
  match run with
  | None => refused RunMissing (tx "coordination run missing")
  | Some run =>
      let designated := bool_decide (run.(coordinator) = Some actor) in
      if access.(coordinating) && negb designated
      then refused NotCoordinator (tx "only the designated coordinator may do this")
      else if negb (match member with Some m => access.(read_only) || member_alive m | None => false end)
      then refused NotMember (tx "invoking member is unknown or death confirmed")
      else if negb access.(active) || is_running run then Ok tt
      else refused (not_running (budget_spent run)) (tx "run is " ++ describe run ++ tx "; no new work permitted")
  end.

Definition expired (run : RunRecord) (now : f64) : bool := is_running run && f64_le run.(deadline) now.

Definition require_budget (run : RunRecord) (now : f64) : res Refusal unit :=
  if expired run now
  then refused BudgetExhausted (tx "run is paused (budget-exhausted: deadline); no new work permitted")
  else Ok tt.

Definition resume_blockers (resumed_deadline now : f64) (lost_coordinator : option text) : list text :=
  match lost_coordinator with
  | Some ((_ :: _) as lost) =>
      [tx "relaunch the lost coordinator '" ++ lost ++ tx "' into the retained environment before resuming"]
  | _ => []
  end
  ++ (if f64_le resumed_deadline now
      then [tx "extend the deadline (swarm_control extend) before resuming"] else []).

Definition validate_extension (seconds : Value) : res Refusal Z :=
  match as_i64 seconds with
  | Some s => if (1 <=? s) && (s <=? MAX_EXTENSION_SECONDS) then Ok s
              else refused Invalid (tx "deadline extension must be 1..604800 seconds")
  | None => refused Invalid (tx "deadline extension must be 1..604800 seconds")
  end.

Definition admission (run : RunRecord) (prior : option MemberRecord) (reservation : Value) (usage : Z) (now : f64)
    : res Refusal bool :=
  let admitting :=
    match run.(status) with Some (RunState.SETUP | RunState.RUNNING) => true | _ => false end
    && negb (expired run now) in
  if negb admitting
  then refused (not_running (budget_spent run || expired run now))
         (tx "run is " ++ status_text run ++ tx "; no new admission")
  else
    let retry :=
      match prior with
      | Some prior => python_equal (opt_text prior.(m_reservation)) reservation && member_alive prior
      | None => false
      end in
    if retry then Ok false
    else
      assert_that ((1 <=? run.(member_limit)) && (run.(member_limit) <=? 25)) ;?
      (if run.(member_limit) <=? usage
       then refused MemberLimit (tx "swarm limit " ++ decimal run.(member_limit) ++ tx ", current usage "
                                 ++ decimal usage ++ tx "; reuse the existing pool")
       else match prior with
            | None => Ok true
            | Some _ => refused IdentityTaken (tx "member identity already used; choose a stable new identity")
            end).

Definition satisfied (evidence : list EvidenceRow) (revision : text) (c : Criterion) : bool :=
  existsb (λ row, bool_decide (row.(ev_criterion) = c.(c_id)) && bool_decide (row.(ev_revision) = revision)
                  && row.(ev_accepted) && bool_decide (row.(ev_kind) = c.(c_kind))) evidence.

(** The task's evidence is a list of entries at this revision. *)
Definition evidence_current (revision : text) (task : TaskRecord) : bool :=
  match as_array task.(tr_evidence) with
  | Some ((_ :: _) as entries) =>
      forallb (λ entry, bool_decide (get_str entry (tx "revision") = Some revision)) entries
  | _ => false
  end.

Definition completion (criteria : list Criterion) (evidence : list EvidenceRow) (tasks : list TaskRecord)
    (has_reservations : bool) (revision : Value) : res Refusal RunState.t :=
  let? revision := completion_revision revision in
  if (length criteria =? 0)%nat || negb (forallb (satisfied evidence revision) criteria)
  then refused CompletionUnmet
         (tx "completion requires accepted evidence at the current revision for every criterion")
  else if negb (negb has_reservations && forallb (λ t, bool_decide (t.(tr_status) = TaskState.COMPLETED)) tasks)
  then refused CompletionUnmet (tx "settle outstanding work and file reservations before success")
  else if negb (forallb (evidence_current revision) tasks)
  then refused StaleRevision (tx "task evidence refers to stale revision")
  else Ok RunState.SUCCEEDED.

Definition revalidated_entry (revision : text) (entry : Value) : bool :=
  is_object entry
  && match get_str entry (tx "artifact") with Some t => has_content t | None => false end
  && match get entry (tx "revision") with Some (VString t) => bool_decide (t = revision) | _ => false end.

Definition revalidation (task : TaskRecord) (revision evidence : Value) : res Refusal Value :=
  match task.(tr_status) with
  | TaskState.COMPLETED =>
      match revision, evidence with
      | VString t, VArray ((_ :: _) as entries) =>
          if has_content t
          then if forallb (revalidated_entry t) entries then Ok evidence
               else refused Invalid (tx "new artifact evidence must match the revalidated revision")
          else refused Invalid (tx "new artifact and revision evidence required")
      | _, _ => refused Invalid (tx "new artifact and revision evidence required")
      end
  | _ => refused WrongState (tx "only completed tasks may be revalidated")
  end.

Definition require_unsubmitted (s : TaskState.t) : res Refusal unit :=
  match s with
  | TaskState.READY | TaskState.CLAIMED | TaskState.BLOCKED | TaskState.COMPLETED => Ok tt
  | TaskState.SUBMITTED =>
      refused Immutable (tx "submitted evidence is immutable; release and reclaim before revising")
  | TaskState.Unknown u =>
      refused WrongState (tx "task item status '" ++ u ++ tx "' is not a known status; no revision permitted")
  end.

(** * Carrying evidence forward *)

Record EvidenceCarry := { sources : list text; carried : Value }.

Definition full_commit_id (t : text) : bool :=
  ((byte_len t =? 40) || (byte_len t =? 64))%nat
  && forallb (λ c, ((48 <=? c) && (c <=? 57) || (97 <=? c) && (c <=? 102))%N) t.

(** The loop of [evidence_carry] over the entries left. *)
Fixpoint carry_loop (target : text) (entries : list Value) (sources : list text) (carried : list Value)
    : option (list text * list Value) :=
  match entries with
  | [] => Some (sources, carried)
  | VObject fields :: rest =>
      match field fields (tx "revision") with
      | Some (VString source) =>
          if full_commit_id source
          then
            let earlier := negb (bool_decide (source = target)) && negb (bool_decide (source ∈ sources)) in
            carry_loop target rest (if earlier then sources ++ [source] else sources)
              (carried ++ [VObject (set_field fields (tx "revision") (VString target))])
          else None
      | _ => None
      end
  | _ :: _ => None
  end.

Definition evidence_carry (evidence revision : Value) : option EvidenceCarry :=
  match revision, evidence with
  | VString target, VArray ((_ :: _) as entries) =>
      if full_commit_id target
      then match carry_loop target entries [] [] with
           | Some (((_ :: _) as sources), carried) => Some {| sources := sources; carried := VArray carried |}
           | _ => None
           end
      else None
  | _, _ => None
  end.

(** * How a member ended *)

Inductive MemberExit := Orderly | Abrupt.

#[export] Instance MemberExit_eq_dec : EqDecision MemberExit.
Proof. solve_decision. Defined.

Definition MemberExit_as_str (e : MemberExit) : text :=
  match e with Orderly => tx "orderly" | Abrupt => tx "abrupt" end.

Definition blocker_of (e : MemberExit) : text :=
  match e with
  | Orderly => tx "worker death confirmed; coordinator recovery required"
  | Abrupt => tx "worker death confirmed (abrupt exit; reservations retained); coordinator recovery required"
  end.

Definition COMPLETED_AT : text := tx "completed at ".
