(* ===== verification/SwarmDependencies.v ===== *)
(** What a task of the swarm board may depend on.

    Models [domain/swarm/services/dependencies.rs]: the depth-first search with
    its explicit stack, which has fuel here ([dfs_fuel]: a turn for each entry
    pushed); running out is [Panic].  [acyclic_exact] says that the fuel
    suffices and that the search answers exactly whether a cycle can be reached.
    The JSON text of a value ([Value::to_string]) is a parameter. *)

From stdpp Require Import gmap.
From S2P Require Import Prelude SwarmValue SwarmPolicy.

Local Open Scope Z_scope.

Definition DEPENDENCIES_MAX : nat := 100.

Definition dependency_list (v : Value) : res Refusal (list Value) :=
  match v with
  | VArray entries =>
      if (length entries <=? DEPENDENCIES_MAX)%nat then Ok entries
      else refused Invalid (tx "dependencies must be a bounded list")
  | _ => refused Invalid (tx "dependencies must be a bounded list")
  end.

(** [type(value) is int]. *)
Definition integer (v : Value) : bool :=
  match v with VNumber (Int z) => in_i64 z || in_u64 z | _ => false end.

Definition children (stored : Value) : list Value := default [] (as_array stored).

(** A graph node as a Python dict key. *)
Inductive Node :=
  | NodeInteger (z : Z)
  | NodeText (t : text)
  | NodeOther (t : text).

#[export] Instance Node_eq_dec : EqDecision Node.
Proof. solve_decision. Defined.

#[export] Instance Node_countable : Countable Node.
Proof.
  apply (inj_countable'
    (λ n, match n with NodeInteger z => inl z | NodeText t => inr (inl t) | NodeOther t => inr (inr t) end)
    (λ c : Z + (text + text), match c with inl z => NodeInteger z | inr (inl t) => NodeText t | inr (inr t) => NodeOther t end)).
  by intros [].
Defined.

(** The integer an integral float equals, within the range a task id holds. *)
Definition integral (f : f64) : option Z :=
  if f64_is_finite f && f64_integral f && (i64_min <=? f64_to_Z f) && (f64_to_Z f <=? i64_max)
  then Some (f64_to_Z f) else None.

Section dependencies.
Context (to_string : Value → text).

Definition node_of (v : Value) : Node :=
  match v with
  | VBool b => NodeInteger (if b then 1 else 0)
  | VNumber n =>
      match match as_i64 v with Some z => Some z | None => as_f64 v ≫= integral end with
      | Some z => NodeInteger z
      | None => NodeOther (to_string v)
      end
  | VString t => NodeText t
  | VNull | VArray _ | VObject _ => NodeOther (to_string v)
  end.

Abbreviation Edges := (gmap Node (list Value)).

Definition next (edges : Edges) (n : Node) : list Node := node_of <$> default [] (edges !! n).

(** The loop of [acyclic]; the head of the list is the top of the stack. *)
Fixpoint dfs (fuel : nat) (edges : Edges) (visited active : gset Node) (stack : list (Node * bool)) : res Refusal unit :=
  match fuel with
  | O => Panic
  | S fuel =>
      match stack with
      | [] => assert_that (bool_decide (active = ∅))
      | (node, leaving) :: stack =>
          if leaving : bool then dfs fuel edges ({[node]} ∪ visited) (active ∖ {[node]}) stack
          else if bool_decide (node ∈ active) then refused DependencyCycle (tx "cyclic dependencies")
          else if bool_decide (node ∈ visited) then dfs fuel edges visited active stack
          else dfs fuel edges visited ({[node]} ∪ active)
                 (reverse ((λ child, (child, false)) <$> next edges node) ++ (node, true) :: stack)
      end
  end.

(** One more than the pushes: each node is entered once, pushed by its mentions. *)
Definition dfs_fuel (edges : Edges) : nat :=
  3 + size edges + 2 * sum_list_with (λ e, length e.2) (map_to_list edges).

Definition acyclic (start : Node) (edges : Edges) : res Refusal unit :=
  dfs (dfs_fuel edges) edges ∅ ∅ [(start, false)].

(** [graph.iter().map(..).collect::<HashMap<_, _>>()]. *)
Definition graph_edges (graph : list (Z * Value)) : Edges :=
  foldl (λ m e, <[NodeInteger e.1 := children e.2]> m) ∅ graph.

Definition valid_dependency (task_id : Value) (graph : list (Z * Value)) (dependency : Value) : bool :=
  integer dependency
  && existsb (λ e, bool_decide (NodeInteger e.1 = node_of dependency)) graph
  && negb (python_equal dependency task_id).

Definition validate_dependencies (task_id : Value) (dependencies : list Value) (graph : list (Z * Value))
    : res Refusal unit :=
  assert_that ((length dependencies <=? DEPENDENCIES_MAX)%nat) ;?
  (if forallb (valid_dependency task_id graph) dependencies
   then acyclic (node_of task_id) (<[node_of task_id := dependencies]> (graph_edges graph))
   else refused Invalid (tx "invalid, missing or self dependencies")).

(** * The search is exact *)

Section search.
Context (start : Node) (edges : Edges).

Definition edge (a b : Node) : Prop := b ∈ next edges a.

(** No cycle can be reached from a node. *)
Abbreviation grounded := (Acc (λ b a, edge a b)).

Section shapes.
Context (visited : gset Node).

(** The stack while the nodes of [path] are open, the innermost first: above the
    entry that leaves a node stand those of its children that are still to be
    looked at; the others are visited, or next on the path. *)
Inductive shape : option Node → list Node → list (Node * bool) → Prop :=
  | shape_empty above : above = Some start ∨ start ∈ visited → shape above [] []
  | shape_start : shape None [] [(start, false)]
  | shape_node above n path pending stack :
      shape (Some n) path stack →
      n ∉ path →
      match path with [] => n = start | m :: _ => edge m n end →
      (∀ c, c ∈ pending → edge n c) →
      (∀ c, edge n c → c ∈ pending ∨ c ∈ visited ∨ above = Some c) →
      shape above (n :: path) (((λ c, (c, false)) <$> pending) ++ (n, true) :: stack).
End shapes.

Lemma shape_mono visited visited' above path stack :
  visited ⊆ visited' → shape visited above path stack → shape visited' above path stack.
Proof.
  intros Hv. induction 1 as [a [?|?]| |a m p pending s _ IH Hm Hl Hp Hc].
  - constructor. by left.
  - constructor. right. set_solver.
  - constructor.
  - constructor; [done..|]. intros c Hc'. destruct (Hc c Hc') as [?|[?|?]]; set_solver.
Qed.

Lemma shape_visit visited n path stack :
  shape visited (Some n) path stack → shape ({[n]} ∪ visited) None path stack.
Proof.
  intros Hs. inversion Hs as [a Hst| |a m p pending s Hs' Hm Hl Hp Hc]; subst.
  - constructor. destruct Hst as [[= ->]|?]; set_solver.
  - constructor; [by eapply shape_mono; [|done]; set_solver|done..|].
    intros c Hc'. destruct (Hc c Hc') as [?|[?|[= ->]]]; set_solver.
Qed.

(** The open nodes are reached from the start, and lead to the innermost. *)
Lemma shape_path visited above path stack :
  shape visited above path stack → ∀ m p n, path = m :: p → n ∈ path → rtc edge start n ∧ rtc edge n m.
Proof.
  induction 1 as [| |a k path' pending s _ IH Hk Hl _ _]; intros m p n Hpath Hn; [done|done|].
  simplify_eq. destruct p as [|m' p].
  - apply list_elem_of_singleton in Hn as ->. subst. split; apply rtc_refl.
  - assert (∀ n, n ∈ m' :: p → rtc edge start n ∧ rtc edge n m') as Htail by (intros; by eapply IH).
    apply elem_of_cons in Hn as [->|Hn].
    + split; [|apply rtc_refl]. destruct (Htail m') as [Hr _]; [by left|]. by eapply rtc_r.
    + destruct (Htail n Hn). split; [done|]. by eapply rtc_r.
Qed.

(** ** The turns it takes *)

Definition weight (n : Node) : nat := S (length (next edges n)).
Definition unentered (U visited active : gset Node) : nat :=
  sum_list_with weight (elements (U ∖ (visited ∪ active))).

Lemma unentered_enter U visited active n :
  n ∈ U → n ∉ visited → n ∉ active →
  unentered U visited active = (weight n + unentered U visited ({[n]} ∪ active))%nat.
Proof.
  intros HU Hv Ha. unfold unentered.
  assert (U ∖ (visited ∪ active) = {[n]} ∪ U ∖ (visited ∪ ({[n]} ∪ active))) as -> by (apply set_eq; intros x; destruct (decide (x = n)); set_solver).
  rewrite elements_union_singleton by set_solver. done.
Qed.

Lemma unentered_leave U visited active n :
  n ∈ active → unentered U ({[n]} ∪ visited) (active ∖ {[n]}) = unentered U visited active.
Proof.
  intros Hn. unfold unentered. do 2 f_equal. apply set_eq. intros x. destruct (decide (x = n)); set_solver.
Qed.

(** ** What it answers *)

Definition exact (r : res Refusal unit) : Prop :=
  match r with
  | Ok _ => grounded start
  | Err e => e = refusal DependencyCycle (tx "cyclic dependencies") ∧ ∃ n, rtc edge start n ∧ tc edge n n
  | Panic => False
  end.

(** An entry that is looked at is the start or a child of the innermost open node. *)
Lemma shape_look visited path c stack :
  shape visited None path ((c, false) :: stack) →
  shape visited (Some c) path stack ∧ match path with [] => c = start | m :: _ => edge m c end.
Proof.
  intros Hs. inversion Hs as [| |a n p pending st Hs' Hn Hl Hp Hc]; subst.
  - split; [|done]. constructor. by left.
  - destruct pending as [|c' pending]; simplify_list_eq. split; [|apply Hp; by left].
    constructor; [done..| |].
    + intros c' Hc'. apply Hp. by right.
    + intros c' Hc'. destruct (Hc c' Hc') as [[->|?]%elem_of_cons|[?|?]]; auto. done.
Qed.

Lemma shape_leave visited path n stack :
  shape visited None path ((n, true) :: stack) →
  ∃ p, path = n :: p ∧ n ∉ p ∧ shape visited (Some n) p stack ∧ ∀ c, edge n c → c ∈ visited.
Proof.
  intros Hs. inversion Hs as [| |a n' p pending st Hs' Hn Hl Hp Hc]; subst.
  destruct pending; simplify_list_eq. exists p. split; [done|]. split; [done|]. split; [done|].
  intros c Hin. destruct (Hc c Hin) as [Hn'|[Hv|Ha]]; [by apply not_elem_of_nil in Hn'|done|done].
Qed.

Lemma shape_enter visited path c stack :
  shape visited (Some c) path stack → match path with [] => c = start | m :: _ => edge m c end → c ∉ path →
  shape visited None (c :: path) (reverse ((λ child, (child, false)) <$> next edges c) ++ (c, true) :: stack).
Proof.
  intros Hs Hl Hc. rewrite <-fmap_reverse. constructor; [done..| |].
  - intros c' Hc'. by rewrite elem_of_reverse in Hc'.
  - intros c' Hc'. left. by rewrite elem_of_reverse.
Qed.

Lemma dfs_exact (U : gset Node) fuel visited path stack :
  shape visited None path stack →
  (∀ v, v ∈ visited → grounded v) →
  (∀ a b, a ∈ U → edge a b → b ∈ U) → (∀ n b, (n, b) ∈ stack → n ∈ U) →
  (length stack + unentered U visited (list_to_set path) < fuel)%nat →
  exact (dfs fuel edges visited (list_to_set path) stack).
Proof.
  revert visited path stack. induction fuel as [|fuel IH]; intros visited path stack Hs Hg Hclosed HU Hfuel; [lia|].
  cbn [dfs]. destruct stack as [|[c [|]] stack].
  - inversion Hs as [a [?|?]| |a n p [|? ?]]; simplify_list_eq. rewrite bool_decide_true by done. simpl. by apply Hg.
  - destruct (shape_leave _ _ _ _ Hs) as (p & -> & Hcp & Hs' & Hch).
    replace (list_to_set (c :: p) ∖ {[c]}) with (list_to_set p : gset Node) by set_solver.
    apply IH; [by apply shape_visit| |done|set_solver|].
    + intros v [->%elem_of_singleton|Hv]%elem_of_union; [|by apply Hg]. constructor. intros d Hd. by apply Hg, Hch.
    + simpl in Hfuel. pose proof (unentered_leave U visited (list_to_set (c :: p)) c ltac:(set_solver)) as Hun.
      replace (list_to_set (c :: p) ∖ {[c]}) with (list_to_set p : gset Node) in Hun by set_solver. simpl in *. lia.
  - destruct (shape_look _ _ _ _ Hs) as [Hs' Hlink]. simpl in Hfuel. case_bool_decide as Hact.
    + split; [done|]. exists c. rewrite elem_of_list_to_set in Hact. destruct path as [|m p]; [by apply not_elem_of_nil in Hact|].
      destruct (shape_path _ _ _ _ Hs m p c eq_refl Hact) as [H1 H2]. split; [done|]. eapply tc_rtc_l; [exact H2|by apply tc_once].
    + case_bool_decide as Hvis.
      * apply IH; [|done..|set_solver|lia].
        replace visited with ({[c]} ∪ visited) by set_solver. by apply shape_visit.
      * pose proof (unentered_enter U visited (list_to_set path) c ltac:(apply (HU c false); by left) Hvis Hact) as Hun.
        change ({[c]} ∪ list_to_set path) with (list_to_set (c :: path) : gset Node) in *.
        apply IH; [|done..| |].
        -- apply shape_enter; [done..|]. by rewrite elem_of_list_to_set in Hact.
        -- intros n b [Hn|Hn]%elem_of_app.
           ++ rewrite elem_of_reverse in Hn; apply list_elem_of_fmap in Hn as (d & [= -> ->] & Hd).
              apply (Hclosed c); [apply (HU c false); by left|done].
           ++ apply elem_of_cons in Hn as [[= -> ->]|Hn]; [apply (HU c false); by left|].
              apply (HU n b). by right.
        -- rewrite length_app, length_reverse, length_fmap. cbn [length]. unfold weight in Hun. lia.
Qed.

(** ** The fuel suffices *)

Definition nodes : gset Node :=
  {[start]} ∪ dom edges ∪ list_to_set (node_of <$> (map_to_list edges ≫= snd)).

Lemma nodes_closed a b : a ∈ nodes → edge a b → b ∈ nodes.
Proof.
  intros _. unfold edge, next, nodes. destruct (edges !! a) as [l|] eqn:Ha; simpl; [|by intros ?%not_elem_of_nil].
  intros (v & -> & Hv)%list_elem_of_fmap. rewrite !elem_of_union, elem_of_list_to_set. right.
  apply list_elem_of_fmap_2, list_elem_of_bind. exists (a, l). split; [done|]. by apply elem_of_map_to_list.
Qed.

Lemma sum_list_with_once {A} `{EqDecision A} (f g : A → nat) k a l :
  NoDup l → (∀ x, x ∈ l → x ≠ k → f x = g x) → (f k ≤ a)%nat →
  (sum_list_with f l ≤ a + sum_list_with g l)%nat.
Proof.
  intros Hnd Hfg Hk. induction l as [|x l IH]; simpl; [lia|]. apply list.NoDup_cons in Hnd as [Hx Hnd].
  destruct (decide (x = k)) as [->|Hne].
  - assert (sum_list_with f l = sum_list_with g l) as ->; [|lia].
    clear -Hfg Hx. induction l as [|y l IH]; simpl; [done|].
    rewrite Hfg by set_solver. rewrite IH; [done| |]; set_solver.
  - rewrite (Hfg x) by set_solver. specialize (IH Hnd ltac:(set_solver)). lia.
Qed.
End search.

Lemma sum_next_le (edges : Edges) (l : list Node) :
  NoDup l →
  (sum_list_with (λ n, length (next edges n)) l ≤ sum_list_with (λ e, length e.2) (map_to_list edges))%nat.
Proof.
  intros Hnd. induction edges as [|k c m Hk IH] using map_ind.
  - assert (sum_list_with (λ n, length (next ∅ n)) l = 0%nat) as ->; [|lia].
    induction l as [|n l IHl]; simpl; [done|]. rewrite IHl by (by apply list.NoDup_cons in Hnd as []).
    unfold next. by rewrite lookup_empty.
  - rewrite map_to_list_insert by done. simpl.
    etrans; [|apply Nat.add_le_mono_l, IH].
    apply (sum_list_with_once _ _ k); [done| |].
    + intros n _ Hn. unfold next. by rewrite lookup_insert_ne.
    + unfold next. rewrite lookup_insert_eq. simpl. by rewrite length_fmap.
Qed.

Lemma dfs_fuel_enough start (edges : Edges) :
  (1 + unentered edges (nodes start edges) ∅ ∅ < dfs_fuel edges)%nat.
Proof.
  unfold unentered, dfs_fuel.
  replace (nodes start edges ∖ (∅ ∪ ∅)) with (nodes start edges) by set_solver.
  assert (∀ l, sum_list_with (weight edges) l = length l + sum_list_with (λ n, length (next edges n)) l)%nat as ->.
  { intros l. induction l as [|n l IH]; cbn [sum_list_with length]; [done|]. rewrite IH. unfold weight. lia. }
  pose proof (sum_next_le edges (elements (nodes start edges)) (NoDup_elements _)) as Hsum.
  assert (length (elements (nodes start edges)) ≤ 1 + size edges + sum_list_with (λ e, length e.2) (map_to_list edges))%nat; [|lia].
  change (length (elements (nodes start edges))) with (size (nodes start edges)). unfold nodes.
  assert (∀ X Y : gset Node, size (X ∪ Y) ≤ size X + size Y)%nat as Hunion.
  { intros X Y. rewrite size_union_alt. pose proof (subseteq_size (Y ∖ X) Y ltac:(set_solver)). lia. }
  etrans; [apply Hunion|]. apply Nat.add_le_mono.
  - etrans; [apply Hunion|]. by rewrite size_singleton, size_dom.
  - assert (∀ l, size (list_to_set l : gset Node) ≤ length l)%nat as Hlen.
    { intros l. induction l as [|x l IH]; simpl; [done|].
      etrans; [apply Hunion|]. rewrite size_singleton. lia. }
    etrans; [apply Hlen|]. rewrite length_fmap. clear. induction (map_to_list edges) as [|e l IH]; simpl; [done|].
    rewrite length_app. by apply Nat.add_le_mono_l.
Qed.

(** The search answers whether a cycle can be reached, and always answers. *)
Lemma acyclic_exact start edges : exact start edges (acyclic start edges).
Proof.
  unfold acyclic. apply (dfs_exact start edges (nodes start edges) _ ∅ []).
  - constructor.
  - set_solver.
  - apply nodes_closed.
  - intros n b [= -> ->]%list_elem_of_singleton. unfold nodes. set_solver.
  - apply dfs_fuel_enough.
Qed.

Lemma grounded_no_cycle (edges : Edges) n : Acc (λ b a, edge edges a b) n → ¬ tc (edge edges) n n.
Proof.
  induction 1 as [n _ IH]. intros Hc.
  assert (∃ m, edge edges n m ∧ rtc (edge edges) m n) as (m & Hnm & Hmn).
  { inversion Hc; subst; eauto using rtc_refl, tc_rtc. }
  apply (IH m Hnm). eapply tc_rtc_l; [done|]. by apply tc_once.
Qed.

(** ** Adding the edges of one node keeps a graph without cycles *)

Lemma acyclic_insert start deps (edges : Edges) :
  (∀ n, Acc (λ b a, edge edges a b) n) →
  Acc (λ b a, edge (<[start := deps]> edges) a b) start →
  ∀ n, Acc (λ b a, edge (<[start := deps]> edges) a b) n.
Proof.
  intros Hall Hstart n. induction (Hall n) as [n _ IH]. destruct (decide (n = start)) as [->|Hne]; [done|].
  constructor. intros m Hm. apply IH. revert Hm. unfold edge, next. by rewrite lookup_insert_ne by congruence.
Qed.
End dependencies.
