(* ===== verification/SwarmStore.v ===== *)
(** The tables of the swarm coordination board and the statements on them.

    Models [infrastructure/persistence/sqlite/swarm_board/]: [binding.rs],
    [repository.rs] and its siblings ([.._members.rs], [.._tasks.rs],
    [.._reservations.rs], [.._messages.rs], [.._evidence.rs], [.._loss.rs],
    [.._control.rs]), [ledger.rs], and the transaction of [store.rs], behind the
    ports of [application/swarm/ports/].

    A table is the list of its rows in store order, with the columns as the
    board writes them: a column SQLite gives TEXT affinity is a text or NULL, one
    with INTEGER affinity any [Cell], and a JSON column the value its text loads
    to ([encode()] writes an object's keys sorted).  Rows edited outside the
    board are not modelled.  A transaction runs against the tables, a clock and a
    source of ids; it is committed when its work succeeds and leaves nothing
    otherwise. *)

From stdpp Require Import gmap.
From S2P Require Import Prelude SwarmValue SwarmPolicy.

Local Open Scope Z_scope.

(** What SQLite, the board's JSON codec and [serde_json] compute. *)
Class Engine := {
  (** A number where TEXT affinity makes it a text. *)
  number_text : Number → text;
  (** A text that INTEGER affinity reads as a number. *)
  text_number : text → option Number;
  (** [encode(value)], or why it cannot be written. *)
  encode : Value → text + text;
  (** Why [json.dumps(value)] cannot be written, if it cannot. *)
  undumpable : Value → option text;
  (** [Value::to_string]. *)
  value_text : Value → text;
}.

Definition encoded `{Engine} (v : Value) : res Refusal text :=
  match encode v with inr t => Ok t | inl why => refused Invalid why end.

(** * JSON columns *)

Fixpoint text_leb (a b : text) : bool :=
  match a, b with
  | [], _ => true
  | _ :: _, [] => false
  | x :: a', y :: b' => (x <? y)%N || (x =? y)%N && text_leb a' b'
  end.

Fixpoint insert_field (k : text) (v : Value) (fields : list (text * Value)) : list (text * Value) :=
  match fields with
  | [] => [(k, v)]
  | (k', v') :: rest => if text_leb k k' then (k, v) :: fields else (k', v') :: insert_field k v rest
  end.

(** What the text [encode()] writes of a value loads to. *)
Fixpoint stored (v : Value) : Value :=
  match v with
  | VArray l => VArray (List.map stored l)
  | VObject fields => VObject (foldr (λ kv, insert_field kv.1 (stored kv.2)) [] fields)
  | _ => v
  end.

(** * Cells *)

Inductive Cell :=
  | CNull
  | CInteger (z : Z)
  | CReal (f : f64)
  | CText (t : text).

#[export] Instance Cell_eq_dec : EqDecision Cell.
Proof. solve_decision. Defined.

Definition cell_value (c : Cell) : Value :=
  match c with CNull => VNull | CInteger z => int z | CReal f => real f | CText t => VString t end.

Definition CONTENDED : text := tx "coordination store unavailable or contended".

Definition bind_error (position : Z) (why : text) : Refusal :=
  refusal Invalid (CONTENDED ++ tx ": Error binding parameter " ++ decimal position ++ tx ": " ++ why).

(** [loose(position, value)]: the value as Python's [sqlite3] binds it. *)
Definition loose (position : Z) (v : Value) : res Refusal Cell :=
  match v with
  | VNull => Ok CNull
  | VBool b => Ok (CInteger (if b then 1 else 0))
  | VNumber (Int z) =>
      if in_i64 z then Ok (CInteger z)
      else Err (bind_error position (tx "Python int too large to convert to SQLite INTEGER"))
  | VNumber (Float f) => Ok (CReal f)
  | VString t => Ok (CText t)
  | VArray _ => Err (bind_error position (tx "type 'list' is not supported"))
  | VObject _ => Err (bind_error position (tx "type 'dict' is not supported"))
  end.

(** TEXT affinity. *)
Definition text_affinity `{Engine} (c : Cell) : option text :=
  match c with
  | CNull => None
  | CInteger z => Some (number_text (Int z))
  | CReal f => Some (number_text (Float f))
  | CText t => Some t
  end.

(** INTEGER affinity: a REAL that is an INTEGER becomes one. *)
Definition real_affinity (f : f64) : Cell :=
  if f64_is_finite f && f64_integral f && in_i64 (f64_to_Z f) then CInteger (f64_to_Z f) else CReal f.

Definition integer_affinity `{Engine} (c : Cell) : Cell :=
  match c with
  | CReal f => real_affinity f
  | CText t =>
      match text_number t with
      | Some (Int z) => CInteger z
      | Some (Float f) => real_affinity f
      | None => CText t
      end
  | _ => c
  end.

(** [column = ?] for the cells of an INTEGER column: NULL equals nothing. *)
Definition cell_equal (a b : Cell) : bool :=
  match a, b with
  | CInteger x, CInteger y => x =? y
  | CReal x, CReal y => f64_eq x y
  | CText x, CText y => bool_decide (x = y)
  | _, _ => false
  end.

(** [column = ?] for a TEXT column. *)
Definition text_equal (a b : option text) : bool :=
  match a, b with Some x, Some y => bool_decide (x = y) | _, _ => false end.

(** * Rows *)

Record RunRow := {
  r_id : text;
  r_goal : text;
  r_constraints : Value;
  r_criteria : Value;
  r_integrator : text;
  r_record : RunRecord;
}.

Record MemberRow := {
  mr_id : text;
  mr_reservation : option text;
  mr_status : option MemberState.t;
  mr_pid : Cell;
  mr_started : option text;
  mr_socket : option text;
  mr_launcher : option text;
}.

Record TaskRow := {
  t_id : Z;
  t_title : text;
  t_acceptance : Value;
  t_dependencies : Value;
  t_status : TaskState.t;
  t_owner : option text;
  t_token : option text;
  t_evidence : Value;
  t_blocker : option text;
}.

Record FileRow := {
  f_path : text;
  f_task : Cell;
  f_owner : text;
  f_claim : option text;
  f_token : text;
}.

Inductive MessageState := ACCEPTED | CONSUMED | SUPERSEDED | WITHDRAWN.

#[export] Instance MessageState_eq_dec : EqDecision MessageState.
Proof. solve_decision. Defined.

Definition MessageState_text (s : MessageState) : text :=
  match s with
  | ACCEPTED => tx "accepted" | CONSUMED => tx "consumed" | SUPERSEDED => tx "superseded" | WITHDRAWN => tx "withdrawn"
  end.

Record MessageRow := {
  mg_id : Z;
  mg_sender : text;
  mg_recipient : option text;
  mg_body : text;
  mg_status : MessageState;
  mg_revision : option text;
  mg_supersedes : Cell;
  mg_superseded_by : option Z;
}.

Record EvidenceEntry := {
  ee_criterion : option text;
  ee_artifact : text;
  ee_revision : text;
  ee_kind : text;
  ee_actor : text;
  ee_accepted : bool;
}.

Record RequestRow := {
  rq_actor : text;
  rq_request : text;
  rq_payload : text;
  rq_result : Value;
}.

Record EventRow := {
  e_id : Z;
  e_actor : text;
  e_time : f64;
  e_action : text;
  e_detail : Value;
}.

(** The request ledger's standing, which another part of the board keeps. *)
Record UsageStanding := {
  budget : Value;
  observed_tokens : Value;
  unknown_usage_requests : Value;
}.

Record Board := {
  b_run : option RunRow;
  b_members : list MemberRow;
  b_tasks : list TaskRow;
  b_files : list FileRow;
  b_messages : list MessageRow;
  b_evidence : list EvidenceEntry;
  b_requests : list RequestRow;
  b_events : list EventRow;
  b_usage : UsageStanding;
}.

(** * Transactions *)

(** What the work of a transaction runs against. *)
Record Tx := {
  board : Board;
  clock : nat → f64;
  ids : nat → text;
}.

Abbreviation T A := (M Tx Refusal A).

Definition lift {S A} (r : res Refusal A) : M S Refusal A := λ s, (s, r).
Definition refuse {S A} (k : RefusalKind) (m : text) : M S Refusal A := throw (refusal k m).

Definition set_board (f : Board → Board) (s : Tx) : Tx :=
  {| board := f s.(board); clock := s.(clock); ids := s.(ids) |}.

Definition look {A} (f : Board → A) : T A := gets (λ s, f s.(board)).
Definition update (f : Board → Board) : T unit := modify (set_board f).

(** [Clock::now_seconds]. *)
Definition now_seconds : T f64 :=
  λ s, ({| board := s.(board); clock := λ n, s.(clock) (S n); ids := s.(ids) |}, Ok (s.(clock) O)).

Definition hex_id (t : text) : bool :=
  (byte_len t =? 32)%nat && forallb (λ c, ((48 <=? c) && (c <=? 57) || (97 <=? c) && (c <=? 102))%N) t.

(** [IdSource::hex32] of [Uuid4Ids], with its [debug_assert!]. *)
Definition hex32 : T text :=
  id <- (λ s, ({| board := s.(board); clock := s.(clock); ids := λ n, s.(ids) (S n) |}, Ok (s.(ids) O))) ;;
  debug_assert (hex_id id) ;;
  ret id.

Section statements.
Context `{Engine}.

(** ** [run] *)

Definition run : T (option RunRecord) := look (λ b, r_record <$> b.(b_run)).
Definition run_exists : T bool := look (λ b, bool_decide (is_Some b.(b_run))).
Definition run_coordinator : T (option (option text)) := look (λ b, (λ r, r.(r_record).(coordinator)) <$> b.(b_run)).
Definition run_criteria : T (option Value) := look (λ b, r_criteria <$> b.(b_run)).

Definition set_run (r : option RunRow) (b : Board) : Board :=
  {| b_run := r; b_members := b.(b_members); b_tasks := b.(b_tasks); b_files := b.(b_files);
     b_messages := b.(b_messages); b_evidence := b.(b_evidence); b_requests := b.(b_requests);
     b_events := b.(b_events); b_usage := b.(b_usage) |}.

(** [UPDATE run SET ..]: a change of the run row, which must be there. *)
Definition update_run (f : RunRow → RunRow) : T unit :=
  r <- look b_run ;;
  debug_assert (bool_decide (is_Some r)) ;;
  update (λ b, set_run (f <$> b.(b_run)) b).

Definition with_record (f : RunRecord → RunRecord) (r : RunRow) : RunRow :=
  {| r_id := r.(r_id); r_goal := r.(r_goal); r_constraints := r.(r_constraints); r_criteria := r.(r_criteria);
     r_integrator := r.(r_integrator); r_record := f r.(r_record) |}.

Record RunContract := {
  rc_goal : text;
  rc_constraints : Value;
  rc_criteria : Value;
  rc_member_limit : Z;
  rc_deadline : f64;
}.

Definition insert_run (id : text) (c : RunContract) (coordinator integrator : text) (status : RunState.t) : T unit :=
  lift (encoded c.(rc_constraints)) ;;
  lift (encoded c.(rc_criteria)) ;;
  update (set_run (Some
    {| r_id := id; r_goal := c.(rc_goal); r_constraints := stored c.(rc_constraints);
       r_criteria := stored c.(rc_criteria); r_integrator := integrator;
       r_record := {| SwarmPolicy.status := Some status; SwarmPolicy.coordinator := Some coordinator;
                      deadline := c.(rc_deadline); member_limit := c.(rc_member_limit);
                      outcome := None; outcome_reason := None |} |})).

Definition update_run_contract (c : RunContract) : T unit :=
  lift (encoded c.(rc_constraints)) ;;
  lift (encoded c.(rc_criteria)) ;;
  update (λ b, set_run ((λ r,
    {| r_id := r.(r_id); r_goal := c.(rc_goal); r_constraints := stored c.(rc_constraints);
       r_criteria := stored c.(rc_criteria); r_integrator := r.(r_integrator);
       r_record := {| SwarmPolicy.status := Some RunState.RUNNING; SwarmPolicy.coordinator := r.(r_record).(SwarmPolicy.coordinator);
                      deadline := c.(rc_deadline); member_limit := c.(rc_member_limit);
                      outcome := r.(r_record).(outcome); outcome_reason := r.(r_record).(outcome_reason) |} |})
    <$> b.(b_run)) b).

Definition with_status (s : RunState.t) (r : RunRecord) : RunRecord :=
  {| SwarmPolicy.status := Some s; SwarmPolicy.coordinator := r.(SwarmPolicy.coordinator); deadline := r.(deadline);
     member_limit := r.(member_limit); outcome := r.(outcome); outcome_reason := r.(outcome_reason) |}.
Definition with_outcome (o reason : option text) (r : RunRecord) : RunRecord :=
  {| SwarmPolicy.status := r.(SwarmPolicy.status); SwarmPolicy.coordinator := r.(SwarmPolicy.coordinator); deadline := r.(deadline);
     member_limit := r.(member_limit); outcome := o; outcome_reason := reason |}.
Definition with_deadline (d : f64) (r : RunRecord) : RunRecord :=
  {| SwarmPolicy.status := r.(SwarmPolicy.status); SwarmPolicy.coordinator := r.(SwarmPolicy.coordinator); deadline := d;
     member_limit := r.(member_limit); outcome := r.(outcome); outcome_reason := r.(outcome_reason) |}.

(** [UPDATE run SET status='paused', outcome=?, outcome_reason=?]. *)
Definition propose_outcome (o reason : text) : T unit :=
  update (λ b, set_run (with_record (λ r, with_status RunState.PAUSED (with_outcome (Some o) (Some reason) r)) <$> b.(b_run)) b).
Definition clear_outcome : T unit := update_run (with_record (with_outcome None None)).
Definition hold_failed (reason : text) : T unit := update_run (with_record (with_outcome (Some (tx "failed")) (Some reason))).
Definition set_outcome (s : RunState.t) : T unit := update_run (with_record (with_status s)).
Definition set_deadline (d : f64) : T unit := update_run (with_record (with_deadline d)).

Record StoredContract := { sc_goal : Value; sc_constraints : Value; sc_criteria : Value }.

Definition run_contract : T (option StoredContract) :=
  look (λ b, (λ r, {| sc_goal := VString r.(r_goal); sc_constraints := r.(r_constraints); sc_criteria := r.(r_criteria) |}) <$> b.(b_run)).

Definition amend_contract (goal : text) (constraints criteria : Value) : T unit :=
  lift (encoded constraints) ;;
  lift (encoded criteria) ;;
  update_run (λ r,
    {| r_id := r.(r_id); r_goal := goal; r_constraints := stored constraints; r_criteria := stored criteria;
       r_integrator := r.(r_integrator); r_record := r.(r_record) |}).

(** ** [events] *)

Definition set_events (l : list EventRow) (b : Board) : Board :=
  {| b_run := b.(b_run); b_members := b.(b_members); b_tasks := b.(b_tasks); b_files := b.(b_files);
     b_messages := b.(b_messages); b_evidence := b.(b_evidence); b_requests := b.(b_requests);
     b_events := l; b_usage := b.(b_usage) |}.

(** The rowid SQLite gives the next row. *)
Definition next_rowid (used : list Z) : Z := 1 + foldr Z.max 0 used.

Definition event (actor : text) (time : f64) (action : string) (detail : Value) : T unit :=
  lift (encoded detail) ;;
  update (λ b, set_events (b.(b_events) ++
    [{| e_id := next_rowid (e_id <$> b.(b_events)); e_actor := actor; e_time := time; e_action := tx action;
        e_detail := stored detail |}]) b).

Definition has_action (actions : list string) (e : EventRow) : bool := existsb (λ a, bool_decide (e.(e_action) = tx a)) actions.

Definition control_generation : T Z :=
  look (λ b, foldr Z.max 0 (e_id <$> List.filter (has_action ["paused"%string; "resumed"%string]) b.(b_events))).

(** [SELECT detail FROM events WHERE action='paused' ORDER BY id DESC LIMIT 1]. *)
Definition pause_record : T (option Value) :=
  look (λ b, (λ e, index e.(e_detail) (tx "started")) <$> list.last (List.filter (has_action ["paused"%string]) b.(b_events))).

Record ScopeObservation := { so_actor : text; so_time : f64; so_member : Value }.

Definition scope_observations : T (list ScopeObservation) :=
  look (λ b, (λ e, {| so_actor := e.(e_actor); so_time := e.(e_time); so_member := index e.(e_detail) (tx "member") |})
    <$> List.filter (has_action ["scope_observed"%string]) b.(b_events)).

(** The scan of [lost_among] for one member: the latest of its events. *)
Fixpoint lost_scan (member : Value) (events : list EventRow) (seen : option (Z * Z)) : option (Z * Z) :=
  match events with
  | [] => seen
  | e :: rest =>
      match get e.(e_detail) (tx "member") with
      | Some named =>
          if python_equal named member
          then let '(unknown, activated) := default (0, 0) seen in
               lost_scan member rest (Some (if has_action ["scope_unknown"%string] e then (e.(e_id), activated) else (unknown, e.(e_id))))
          else lost_scan member rest seen
      | None => lost_scan member rest seen
      end
  end.

Definition lost_after_activation (member : Value) : T bool :=
  look (λ b, match lost_scan member (List.filter (has_action ["scope_unknown"%string; "activated"%string]) b.(b_events)) None with
             | Some (unknown, activated) => activated <? unknown
             | None => false
             end).

(** ** [members] *)

Definition set_members (l : list MemberRow) (b : Board) : Board :=
  {| b_run := b.(b_run); b_members := l; b_tasks := b.(b_tasks); b_files := b.(b_files);
     b_messages := b.(b_messages); b_evidence := b.(b_evidence); b_requests := b.(b_requests);
     b_events := b.(b_events); b_usage := b.(b_usage) |}.

Definition member_named (id : option text) (m : MemberRow) : bool := text_equal (Some m.(mr_id)) id.

Definition member_record (m : MemberRow) : MemberRecord :=
  {| m_id := m.(mr_id); m_status := m.(mr_status); m_reservation := m.(mr_reservation) |}.

Definition member (id : text) : T (option MemberRecord) :=
  look (λ b, member_record <$> List.find (member_named (Some id)) b.(b_members)).

Definition usage : T Z :=
  look (λ b, Z.of_nat (length (List.filter (λ m, status_is_alive m.(mr_status)) b.(b_members)))).

(** [status!='dead'], which no NULL status satisfies. *)
Definition not_dead : T Z :=
  look (λ b, Z.of_nat (length (List.filter
    (λ m, match m.(mr_status) with Some MemberState.DEAD | None => false | Some _ => true end) b.(b_members)))).

(** Whether a row would repeat an [id] or a [reservation], which are UNIQUE. *)
Definition conflicts (m : MemberRow) (l : list MemberRow) : bool :=
  existsb (λ o, bool_decide (o.(mr_id) = m.(mr_id)) || text_equal o.(mr_reservation) m.(mr_reservation)) l.

Definition insert_member_row (m : MemberRow) : T unit :=
  l <- look b_members ;;
  if conflicts m l
  then refuse Store (CONTENDED ++ tx ": UNIQUE constraint failed: members."
         ++ if existsb (λ o, bool_decide (o.(mr_id) = m.(mr_id))) l then tx "id" else tx "reservation")
  else update (set_members (l ++ [m])).

Definition insert_member (id reservation : text) (status : MemberState.t) (pid started socket : Value) : T unit :=
  pid <- lift (loose 3 pid) ;;
  started <- lift (loose 4 started) ;;
  socket <- lift (loose 5 socket) ;;
  insert_member_row
    {| mr_id := id; mr_reservation := Some reservation; mr_status := Some status; mr_pid := integer_affinity pid;
       mr_started := text_affinity started; mr_socket := text_affinity socket; mr_launcher := None |}.

Definition member_row (id : Value) (reservation : option Value) : T (option MemberRow) :=
  id <- lift (loose 1 id) ;;
  match reservation with
  | None => look (λ b, List.find (member_named (text_affinity id)) b.(b_members))
  | Some r =>
      r <- lift (loose 2 r) ;;
      look (λ b, List.find (λ m, member_named (text_affinity id) m && text_equal m.(mr_reservation) (text_affinity r)) b.(b_members))
  end.

(** [Some None]: a row whose status is NULL. *)
Definition member_status (id : Value) : T (option (option MemberState.t)) :=
  id <- lift (loose 1 id) ;;
  look (λ b, mr_status <$> List.find (member_named (text_affinity id)) b.(b_members)).

Definition member_launcher (id : Value) : T (option (option text)) :=
  id <- lift (loose 1 id) ;;
  look (λ b, mr_launcher <$> List.find (member_named (text_affinity id)) b.(b_members)).

Definition reserve_member (id : text) (reservation : Value) (launcher : text) : T unit :=
  r <- lift (loose 2 reservation) ;;
  insert_member_row
    {| mr_id := id; mr_reservation := text_affinity r; mr_status := Some MemberState.RESERVED; mr_pid := CNull;
       mr_started := None; mr_socket := None; mr_launcher := Some launcher |}.

(** [UPDATE members SET .. WHERE id=?]. *)
Definition update_members (id : option text) (f : MemberRow → MemberRow) : T unit :=
  update (λ b, set_members ((λ m, if member_named id m then f m else m) <$> b.(b_members)) b).

Record LaunchIdentity := { pid : Value; started : Value }.

Definition activate_row (p : Cell) (s k : option text) (m : MemberRow) : MemberRow :=
  {| mr_id := m.(mr_id); mr_reservation := m.(mr_reservation); mr_status := Some MemberState.LIVE; mr_pid := p;
     mr_started := s; mr_socket := k; mr_launcher := m.(mr_launcher) |}.

Definition activate_member (id : Value) (launch : LaunchIdentity) (socket : Value) : T unit :=
  p <- lift (loose 1 launch.(pid)) ;;
  s <- lift (loose 2 launch.(started)) ;;
  k <- lift (loose 3 socket) ;;
  id <- lift (loose 4 id) ;;
  update_members (text_affinity id) (activate_row (integer_affinity p) (text_affinity s) (text_affinity k)).

Definition launch_row (p : Cell) (s : option text) (m : MemberRow) : MemberRow :=
  {| mr_id := m.(mr_id); mr_reservation := m.(mr_reservation); mr_status := m.(mr_status); mr_pid := p;
     mr_started := s; mr_socket := m.(mr_socket); mr_launcher := m.(mr_launcher) |}.

Definition record_launch (id : Value) (launch : LaunchIdentity) : T unit :=
  p <- lift (loose 1 launch.(pid)) ;;
  s <- lift (loose 2 launch.(started)) ;;
  id <- lift (loose 3 id) ;;
  update_members (text_affinity id) (launch_row (integer_affinity p) (text_affinity s)).

Definition dead_row (m : MemberRow) : MemberRow :=
  {| mr_id := m.(mr_id); mr_reservation := m.(mr_reservation); mr_status := Some MemberState.DEAD; mr_pid := m.(mr_pid);
     mr_started := m.(mr_started); mr_socket := m.(mr_socket); mr_launcher := m.(mr_launcher) |}.

Definition mark_member_dead (id : Value) : T unit :=
  id <- lift (loose 1 id) ;;
  update_members (text_affinity id) dead_row.

Definition socket_row (k : option text) (m : MemberRow) : MemberRow :=
  {| mr_id := m.(mr_id); mr_reservation := m.(mr_reservation); mr_status := m.(mr_status); mr_pid := m.(mr_pid);
     mr_started := m.(mr_started); mr_socket := k; mr_launcher := m.(mr_launcher) |}.

Definition set_socket (id : text) (socket : Value) : T unit :=
  k <- lift (loose 1 socket) ;;
  update_members (Some id) (socket_row (text_affinity k)).

(** ** [tasks] *)

Definition set_tasks (l : list TaskRow) (b : Board) : Board :=
  {| b_run := b.(b_run); b_members := b.(b_members); b_tasks := l; b_files := b.(b_files);
     b_messages := b.(b_messages); b_evidence := b.(b_evidence); b_requests := b.(b_requests);
     b_events := b.(b_events); b_usage := b.(b_usage) |}.

(** [id=?] for an INTEGER PRIMARY KEY. *)
Definition has_id (c : Cell) (id : Z) : bool := cell_equal (CInteger id) (integer_affinity c).
Definition task_with (c : Cell) (t : TaskRow) : bool := has_id c t.(t_id).

Definition task (id : Value) : T (option TaskRow) :=
  c <- lift (loose 1 id) ;;
  look (λ b, List.find (task_with c) b.(b_tasks)).

Definition task_status (id : Value) : T (option TaskState.t) :=
  c <- lift (loose 1 id) ;;
  look (λ b, t_status <$> List.find (task_with c) b.(b_tasks)).

Definition all_task_dependencies : T (list (Z * Value)) :=
  look (λ b, (λ t, (t.(t_id), t.(t_dependencies))) <$> b.(b_tasks)).

Definition task_count : T Z := look (λ b, Z.of_nat (length b.(b_tasks))).

Definition insert_task (title : text) (acceptance dependencies : Value) : T Z :=
  lift (encoded acceptance) ;;
  lift (encoded dependencies) ;;
  id <- look (λ b, next_rowid (t_id <$> b.(b_tasks))) ;;
  update (λ b, set_tasks (b.(b_tasks) ++
    [{| t_id := id; t_title := title; t_acceptance := stored acceptance; t_dependencies := stored dependencies;
        t_status := TaskState.READY; t_owner := None; t_token := None; t_evidence := VArray []; t_blocker := None |}]) b) ;;
  ret id.

(** [UPDATE tasks SET .. WHERE id=?], which changes a task read before it. *)
Definition run_on_task (c : Cell) (f : TaskRow → TaskRow) : T unit :=
  l <- look b_tasks ;;
  debug_assert (existsb (task_with c) l) ;;
  update (set_tasks ((λ t, if task_with c t then f t else t) <$> l)).

Definition with_dependencies (d : Value) (t : TaskRow) : TaskRow :=
  {| t_id := t.(t_id); t_title := t.(t_title); t_acceptance := t.(t_acceptance); t_dependencies := d;
     t_status := t.(t_status); t_owner := t.(t_owner); t_token := t.(t_token); t_evidence := t.(t_evidence);
     t_blocker := t.(t_blocker) |}.

Definition set_task_dependencies (id dependencies : Value) : T unit :=
  lift (encoded dependencies) ;;
  c <- lift (loose 2 id) ;;
  run_on_task c (with_dependencies (stored dependencies)).

(** The columns a task update sets: status, owner, token, evidence, blocker. *)
Definition with_state (s : TaskState.t) (owner token : option text) (evidence : Value) (blocker : option text) (t : TaskRow) : TaskRow :=
  {| t_id := t.(t_id); t_title := t.(t_title); t_acceptance := t.(t_acceptance); t_dependencies := t.(t_dependencies);
     t_status := s; t_owner := owner; t_token := token; t_evidence := evidence; t_blocker := blocker |}.

Definition claim_row (owner token : text) (t : TaskRow) : TaskRow :=
  with_state TaskState.CLAIMED (Some owner) (Some token) t.(t_evidence) t.(t_blocker) t.

Definition update_task_claim (id : Value) (owner token : text) : T unit :=
  c <- lift (loose 3 id) ;;
  run_on_task c (claim_row owner token).

Inductive TaskUpdate :=
  | Release
  | Block (reason : text)
  | Unblock
  | Submit (evidence : Value)
  | Complete
  | Reopen.

Definition updated (u : TaskUpdate) (t : TaskRow) : TaskRow :=
  match u with
  | Release => with_state TaskState.READY None None t.(t_evidence) None t
  | Block reason => with_state TaskState.BLOCKED t.(t_owner) t.(t_token) t.(t_evidence) (Some reason) t
  | Unblock => with_state TaskState.CLAIMED t.(t_owner) t.(t_token) t.(t_evidence) None t
  | Submit evidence => with_state TaskState.SUBMITTED t.(t_owner) t.(t_token) (stored evidence) None t
  | Complete => with_state TaskState.COMPLETED t.(t_owner) t.(t_token) t.(t_evidence) t.(t_blocker) t
  | Reopen => with_state TaskState.READY None None (VArray []) None t
  end.

Definition update_task_status (id : Value) (u : TaskUpdate) : T unit :=
  match u with Submit evidence => lift (encoded evidence) ;; ret tt | _ => ret tt end ;;
  c <- lift (loose (match u with Block _ | Submit _ => 2 | _ => 1 end) id) ;;
  run_on_task c (updated u).

Definition held_status (s : TaskState.t) : bool :=
  match s with TaskState.CLAIMED | TaskState.BLOCKED | TaskState.SUBMITTED => true | _ => false end.

(** [UPDATE tasks SET status='blocked',blocker=? WHERE owner=? AND status IN ..]. *)
Definition block_owned_tasks (owner : Value) (blocker : text) : T unit :=
  o <- lift (loose 2 owner) ;;
  update (λ b, set_tasks ((λ t, if text_equal t.(t_owner) (text_affinity o) && held_status t.(t_status)
                                then updated (Block blocker) t else t) <$> b.(b_tasks)) b).

Definition with_evidence (e : Value) (t : TaskRow) : TaskRow :=
  with_state t.(t_status) t.(t_owner) t.(t_token) e t.(t_blocker) t.

(** Written by [json.dumps], which keeps the order of keys. *)
Definition replace_task_evidence (id evidence : Value) : T unit :=
  match undumpable evidence with Some why => refuse Invalid why | None => ret tt end ;;
  c <- lift (loose 2 id) ;;
  run_on_task c (with_evidence evidence).

(** ** [files] *)

Definition set_files (l : list FileRow) (b : Board) : Board :=
  {| b_run := b.(b_run); b_members := b.(b_members); b_tasks := b.(b_tasks); b_files := l;
     b_messages := b.(b_messages); b_evidence := b.(b_evidence); b_requests := b.(b_requests);
     b_events := b.(b_events); b_usage := b.(b_usage) |}.

Definition delete_files (p : FileRow → bool) : T unit :=
  update (λ b, set_files (List.filter (λ f, negb (p f)) b.(b_files)) b).

Definition of_task (c : Cell) (f : FileRow) : bool := cell_equal f.(f_task) (integer_affinity c).

Definition delete_claim_files (task claim : Value) : T unit :=
  t <- lift (loose 1 task) ;;
  k <- lift (loose 2 claim) ;;
  delete_files (λ f, of_task t f && text_equal f.(f_claim) (text_affinity k)).

Definition file_count : T Z := look (λ b, Z.of_nat (length b.(b_files))).
Definition file_reserved (path : text) : T bool := look (λ b, existsb (λ f, bool_decide (f.(f_path) = path)) b.(b_files)).

(** One [INSERT INTO files]: the path is the PRIMARY KEY. *)
Definition insert_file (f : FileRow) : T unit :=
  l <- look b_files ;;
  if existsb (λ o, bool_decide (o.(f_path) = f.(f_path))) l
  then refuse Store (CONTENDED ++ tx ": UNIQUE constraint failed: files.path")
  else update (set_files (l ++ [f])).

(** The paths are distinct and sorted. *)
Fixpoint text_sorted (l : list text) : bool :=
  match l with
  | a :: ((b :: _) as rest) => text_leb a b && negb (bool_decide (a = b)) && text_sorted rest
  | _ => true
  end.

Definition insert_files (task : Value) (owner : text) (claim : Value) (token : text) (paths : list text) : T unit :=
  debug_assert (text_sorted paths) ;;
  t <- lift (loose 2 task) ;;
  k <- lift (loose 4 claim) ;;
  for_each paths (λ path,
    insert_file {| f_path := path; f_task := integer_affinity t; f_owner := owner; f_claim := text_affinity k; f_token := token |}).

(** How many files it released. *)
Definition delete_reservation (task : Value) (owner : text) (claim token : Value) : T nat :=
  t <- lift (loose 1 task) ;;
  k <- lift (loose 3 claim) ;;
  r <- lift (loose 4 token) ;;
  let p f := of_task t f && bool_decide (f.(f_owner) = owner) && text_equal f.(f_claim) (text_affinity k)
             && text_equal (Some f.(f_token)) (text_affinity r) in
  n <- look (λ b, length (List.filter p b.(b_files))) ;;
  delete_files p ;;
  ret n.

Definition task_file_count (task : Value) : T Z :=
  t <- lift (loose 1 task) ;;
  look (λ b, Z.of_nat (length (List.filter (of_task t) b.(b_files)))).

Definition delete_task_files (task : Value) : T unit :=
  t <- lift (loose 1 task) ;;
  delete_files (of_task t).

Definition of_owner (o : option text) (f : FileRow) : bool := text_equal (Some f.(f_owner)) o.

Definition owner_file_count (owner : Value) : T Z :=
  o <- lift (loose 1 owner) ;;
  look (λ b, Z.of_nat (length (List.filter (of_owner (text_affinity o)) b.(b_files)))).

Definition delete_owner_files (owner : Value) : T unit :=
  o <- lift (loose 1 owner) ;;
  delete_files (of_owner (text_affinity o)).

(** ** [messages] *)

Definition set_messages (l : list MessageRow) (b : Board) : Board :=
  {| b_run := b.(b_run); b_members := b.(b_members); b_tasks := b.(b_tasks); b_files := b.(b_files);
     b_messages := l; b_evidence := b.(b_evidence); b_requests := b.(b_requests);
     b_events := b.(b_events); b_usage := b.(b_usage) |}.

Definition unread_by (r : option text) (m : MessageRow) : bool :=
  text_equal m.(mg_recipient) r && bool_decide (m.(mg_status) = ACCEPTED).

Definition inbox_count (recipient : Value) : T Z :=
  r <- lift (loose 1 recipient) ;;
  look (λ b, Z.of_nat (length (List.filter (unread_by (text_affinity r)) b.(b_messages)))).

Definition add_message (sender : text) (recipient : option text) (body : text) (revision : option text) (supersedes : Cell) : T Z :=
  id <- look (λ b, next_rowid (mg_id <$> b.(b_messages))) ;;
  update (λ b, set_messages (b.(b_messages) ++
    [{| mg_id := id; mg_sender := sender; mg_recipient := recipient; mg_body := body; mg_status := ACCEPTED;
        mg_revision := revision; mg_supersedes := supersedes; mg_superseded_by := None |}]) b) ;;
  ret id.

Definition insert_message (sender : text) (recipient : Value) (body : text) : T Z :=
  r <- lift (loose 2 recipient) ;;
  add_message sender (text_affinity r) body None CNull.

Record NewMessage := {
  nm_sender : text;
  nm_recipient : Value;
  nm_body : text;
  nm_revision : option text;
  nm_supersedes : option Value;
}.

Definition send_message (m : NewMessage) : T Z :=
  supersedes <- match m.(nm_supersedes) with Some id => lift (loose 5 id) | None => ret CNull end ;;
  r <- lift (loose 2 m.(nm_recipient)) ;;
  add_message m.(nm_sender) (text_affinity r) m.(nm_body) m.(nm_revision) (integer_affinity supersedes).

Definition message_with (c : Cell) (m : MessageRow) : bool := has_id c m.(mg_id).

Definition message (id : Value) : T (option MessageRow) :=
  c <- lift (loose 1 id) ;;
  look (λ b, List.find (message_with c) b.(b_messages)).

Definition addressed_message (id : Value) (recipient : text) : T (option MessageRow) :=
  c <- lift (loose 1 id) ;;
  look (λ b, List.find (λ m, message_with c m && text_equal m.(mg_recipient) (Some recipient)) b.(b_messages)).

Definition run_on_message (c : Cell) (f : MessageRow → MessageRow) : T unit :=
  l <- look b_messages ;;
  debug_assert (existsb (message_with c) l) ;;
  update (set_messages ((λ m, if message_with c m then f m else m) <$> l)).

Definition set_message_status (id : Value) (s : MessageState) : T unit :=
  c <- lift (loose 2 id) ;;
  run_on_message c (λ m,
    {| mg_id := m.(mg_id); mg_sender := m.(mg_sender); mg_recipient := m.(mg_recipient); mg_body := m.(mg_body);
       mg_status := s; mg_revision := m.(mg_revision); mg_supersedes := m.(mg_supersedes);
       mg_superseded_by := m.(mg_superseded_by) |}).

Definition set_superseded_by (id : Value) (successor : Z) : T unit :=
  c <- lift (loose 2 id) ;;
  run_on_message c (λ m,
    {| mg_id := m.(mg_id); mg_sender := m.(mg_sender); mg_recipient := m.(mg_recipient); mg_body := m.(mg_body);
       mg_status := m.(mg_status); mg_revision := m.(mg_revision); mg_supersedes := m.(mg_supersedes);
       mg_superseded_by := Some successor |}).

(** ** [evidence] *)

Definition set_evidence (l : list EvidenceEntry) (b : Board) : Board :=
  {| b_run := b.(b_run); b_members := b.(b_members); b_tasks := b.(b_tasks); b_files := b.(b_files);
     b_messages := b.(b_messages); b_evidence := l; b_requests := b.(b_requests);
     b_events := b.(b_events); b_usage := b.(b_usage) |}.

Definition evidence_by (criterion : option text) (actor : text) (e : EvidenceEntry) : bool :=
  text_equal e.(ee_criterion) criterion && bool_decide (e.(ee_actor) = actor).

Definition prior_evidence (criterion : Value) (actor : text) : T (option EvidenceEntry) :=
  c <- lift (loose 1 criterion) ;;
  look (λ b, List.find (evidence_by (text_affinity c) actor) b.(b_evidence)).

Record NewEvidence := {
  ne_criterion : Value;
  ne_artifact : text;
  ne_revision : text;
  ne_kind : text;
  ne_actor : text;
  ne_accepted : bool;
}.

(** [INSERT OR REPLACE]: the row of the same criterion and actor goes. *)
Definition record_evidence (e : NewEvidence) : T unit :=
  c <- lift (loose 1 e.(ne_criterion)) ;;
  update (λ b, set_evidence
    (List.filter (λ o, negb (evidence_by (text_affinity c) e.(ne_actor) o)) b.(b_evidence) ++
     [{| ee_criterion := text_affinity c; ee_artifact := e.(ne_artifact); ee_revision := e.(ne_revision);
         ee_kind := e.(ne_kind); ee_actor := e.(ne_actor); ee_accepted := e.(ne_accepted) |}]) b).

Definition delete_all_evidence : T unit := update (set_evidence []).

Record CompletionState := {
  cs_criteria : Value;
  cs_evidence : list EvidenceEntry;
  cs_tasks : list TaskRow;
  cs_has_reservations : bool;
}.

Definition completion_state : T CompletionState :=
  criteria <- run_criteria ;;
  criteria <- ok_or criteria (refusal RunMissing (tx "coordination run missing")) ;;
  look (λ b, {| cs_criteria := criteria; cs_evidence := b.(b_evidence); cs_tasks := b.(b_tasks);
                cs_has_reservations := negb (length b.(b_files) =? 0)%nat |}).

(** ** [requests] *)

Definition REQUEST_LEDGER_CAPACITY : Z := 10000.
Definition REQUEST_ID_MAX_BYTES : Z := 128.

Definition set_requests (l : list RequestRow) (b : Board) : Board :=
  {| b_run := b.(b_run); b_members := b.(b_members); b_tasks := b.(b_tasks); b_files := b.(b_files);
     b_messages := b.(b_messages); b_evidence := b.(b_evidence); b_requests := l;
     b_events := b.(b_events); b_usage := b.(b_usage) |}.

(** [Store.retry]: the answer of a request made before, or the work and its
    record; with whether the work ran, which the callers' closures note. *)
Definition retry (actor request : text) (payload : Value) (action : T Value) : T (Value * bool) :=
  lift (bounded_text request (tx "request id") REQUEST_ID_MAX_BYTES) ;;
  payload <- lift (encoded payload) ;;
  old <- look (λ b, List.find (λ r, bool_decide (r.(rq_actor) = actor) && bool_decide (r.(rq_request) = request)) b.(b_requests)) ;;
  match old with
  | Some r =>
      if bool_decide (r.(rq_payload) = payload) then ret (r.(rq_result), false)
      else refuse RequestIdReused (tx "request id reused with different payload")
  | None =>
      held <- look (λ b, Z.of_nat (length b.(b_requests))) ;;
      if held <? REQUEST_LEDGER_CAPACITY
      then
        result <- action ;;
        lift (encoded result) ;;
        update (λ b, set_requests (b.(b_requests) ++
          [{| rq_actor := actor; rq_request := request; rq_payload := payload; rq_result := stored result |}]) b) ;;
        ret (result, true)
      else refuse CapacityFull (tx "coordination request ledger full (" ++ decimal REQUEST_LEDGER_CAPACITY ++ tx ")")
  end.
End statements.

(** * The store *)

(** What the transactions of a call run against: the board file, when there is
    one; what each transaction meets of its own accord (a busy lock, a failed
    write), and what others commit before it. *)
Record Session := {
  store : option Board;
  s_clock : nat → f64;
  s_ids : nat → text;
  faults : nat → option Refusal;
  others : nat → option Board → option Board;
}.

Definition empty_board : Board :=
  {| b_run := None; b_members := []; b_tasks := []; b_files := []; b_messages := []; b_evidence := [];
     b_requests := []; b_events := [];
     b_usage := {| budget := VNull; observed_tokens := int 0; unknown_usage_requests := int 0 |} |}.

(** (The message also names the file.) *)
Definition MISSING : text :=
  tx "coordination store missing: it was deleted while the run was live, so this run's board is lost".

(** [BoardRepository::atomic]: the work of one transaction, committed when it
    succeeds.  A file that a failed first transaction leaves without tables is
    taken as no board. *)
Definition atomic {A} (create : bool) (work : T A) : M Session Refusal A :=
  λ s,
    let found := s.(others) O s.(store) in
    let after (b : option Board) (clock : nat → f64) (ids : nat → text) :=
      {| store := b; s_clock := clock; s_ids := ids; faults := λ n, s.(faults) (S n); others := λ n, s.(others) (S n) |} in
    match s.(faults) O with
    | Some fault => (after found s.(s_clock) s.(s_ids), Err fault)
    | None =>
        match (match found with Some b => Some b | None => if create then Some empty_board else None end) with
        | None => (after found s.(s_clock) s.(s_ids), Err (refusal StoreMissing MISSING))
        | Some b =>
            match work {| board := b; clock := s.(s_clock); ids := s.(s_ids) |} with
            | (t, Ok a) => (after (Some t.(board)) t.(clock) t.(ids), Ok a)
            | (t, Err e) => (after found t.(clock) t.(ids), Err e)
            | (t, Panic) => (after found t.(clock) t.(ids), Panic)
            end
        end
    end.
