(* ===== verification/SwarmOperation.v ===== *)
(** The operation gate of the swarm board and what its use cases share.

    Models [application/swarm/services/]: [board_operation.rs] (the two
    transactions of an operation), [board_membership.rs], [board_tasks.rs],
    [board_completion.rs], [board_recovery.rs], [board_loss.rs],
    [board_control.rs] and [board_messages.rs]. *)

From S2P Require Import Prelude SwarmValue SwarmPolicy SwarmStore.

Local Open Scope Z_scope.

(** [detail([..])]. *)
Definition detail (entries : list (string * Value)) : Value := VObject ((λ e, (tx e.1, e.2)) <$> entries).

(** [seconds(now)]: the clock reads finite seconds. *)
Definition seconds (now : f64) : T Value := debug_assert (f64_is_finite now) ;; ret (real now).

Section operation.
Context `{Engine}.

(** An event at the clock's reading. *)
Definition record (actor : text) (action : string) (d : Value) : T unit :=
  now <- now_seconds ;; event actor now action d.

(** * The gate *)

(** [end]: the run pauses holding an outcome. *)
Definition end_run (actor outcome reason : text) : T unit :=
  propose_outcome outcome reason ;;
  record actor "stop" (detail [("status"%string, VString outcome); ("reason"%string, VString reason)]) ;;
  started <- now_seconds ;;
  started <- seconds started ;;
  record actor "paused"
    (detail [("reason"%string, VString reason); ("started"%string, started); ("outcome"%string, VString outcome)]).

(** The first transaction of an operation: a run whose deadline has come ends. *)
Definition gate (actor : text) : T unit :=
  r <- run ;;
  m <- member actor ;;
  lift (authorize r actor m reading) ;;
  match r with
  | Some r =>
      now <- now_seconds ;;
      if expired r now then end_run actor (tx "budget-exhausted") (tx "deadline") else ret tt
  | None => ret tt
  end.

(** The second: the operation's own access, its budget and its work. *)
Definition gated {A} (actor : text) (access : Access) (work : RunRecord → T A) : T A :=
  r <- run ;;
  m <- member actor ;;
  lift (authorize r actor m access) ;;
  r <- ok_or r (refusal RunMissing (tx "coordination run missing")) ;;
  (if access.(active) then now <- now_seconds ;; lift (require_budget r now) else ret tt) ;;
  work r.

Definition operation {A} (actor : text) (access : Access) (work : RunRecord → T A) : M Session Refusal A :=
  atomic false (gate actor) ;;
  atomic false (gated actor access work).

Definition running_access : Access := {| active := true; coordinating := false; read_only := false |}.
Definition coordinator_access : Access := {| active := true; coordinating := true; read_only := false |}.
Definition control_access : Access := {| active := false; coordinating := true; read_only := false |}.

(** * Members *)

Definition alive (m : MemberRow) : bool := status_is_alive m.(mr_status).
Definition live (m : MemberRow) : bool := bool_decide (m.(mr_status) = Some MemberState.LIVE).
Definition unlaunched (m : MemberRow) : bool :=
  bool_decide (m.(mr_status) = Some MemberState.RESERVED) && bool_decide (m.(mr_pid) = CNull).
Definition holds_reservation (m : MemberRow) (reservation : Value) : bool :=
  python_equal (opt_text m.(mr_reservation)) reservation.
Definition same_process (m : MemberRow) (l : LaunchIdentity) : bool :=
  python_equal (cell_value m.(mr_pid)) l.(pid) && python_equal (opt_text m.(mr_started)) l.(started).
Definition launched_elsewhere (m : MemberRow) (l : LaunchIdentity) : bool :=
  match m.(mr_pid) with CNull => false | _ => negb (same_process m l) end.

(** * Tasks *)

(** Whether a dependency is not completed, the first such deciding. *)
Fixpoint unmet (dependencies : list Value) : T bool :=
  match dependencies with
  | [] => ret false
  | d :: rest =>
      s <- task_status d ;;
      if bool_decide (s = Some TaskState.COMPLETED) then unmet rest else ret true
  end.

Definition dependencies_of (t : TaskRow) : list Value := default [] (as_array t.(t_dependencies)).

Definition read_task (id : Value) : T TaskRow :=
  t <- task id ;;
  t <- ok_or t (refusal NotFound (tx "unknown task")) ;;
  if bool_decide (t.(t_status) = TaskState.READY)
  then
    u <- unmet (dependencies_of t) ;;
    ret (if u : bool
         then with_state TaskState.BLOCKED t.(t_owner) t.(t_token) t.(t_evidence) (Some (tx "unmet dependencies")) t
         else t)
  else ret t.

Definition owned (id token : Value) (member : text) : T TaskRow :=
  t <- read_task id ;;
  if python_equal (opt_text t.(t_token)) token && python_equal (opt_text t.(t_owner)) (VString member)
     && held_status t.(t_status)
  then ret t
  else refuse StaleToken (tx "stale or unowned claim").

Inductive TaskTransition := Applied | Unchanged.
Record TaskChange := { tc_task : TaskRow; tc_transition : TaskTransition }.

Definition changed (id : Value) (s : TaskState.t) : T TaskChange :=
  t <- read_task id ;;
  debug_assert (bool_decide (t.(t_status) = s)) ;;
  ret {| tc_task := t; tc_transition := Applied |}.

Definition unsubmitted (t : TaskRow) : T unit :=
  debug_assert (held_status t.(t_status)) ;;
  lift (require_unsubmitted t.(t_status)).

(** * Completion *)

Definition evidence_row (e : EvidenceEntry) : option EvidenceRow :=
  match CriterionKind_parse e.(ee_kind), e.(ee_criterion) with
  | Some k, Some c => Some {| ev_criterion := c; ev_revision := e.(ee_revision); ev_kind := k; ev_accepted := e.(ee_accepted) |}
  | _, _ => None
  end.

Definition evidence_rows (l : list EvidenceEntry) : list EvidenceRow := omap evidence_row l.

Definition task_record (t : TaskRow) : TaskRecord :=
  {| tr_id := t.(t_id); tr_status := t.(t_status); tr_owner := t.(t_owner); tr_evidence := t.(t_evidence) |}.

Fixpoint definition_in (entries : list Value) (criterion : Value) : res Refusal (option (list (text * Value))) :=
  match entries with
  | [] => Ok None
  | VObject fields :: rest =>
      match field fields (tx "id") with
      | Some id => if python_equal id criterion then Ok (Some fields) else definition_in rest criterion
      | None => Err edited_criteria
      end
  | _ :: _ => Err edited_criteria
  end.

Definition definition_of (criteria criterion : Value) : res Refusal (option (list (text * Value))) :=
  match criteria with VArray entries => definition_in entries criterion | _ => Err edited_criteria end.

(** * Recovery *)

Definition INBOX_CAPACITY : Z := 100.

Definition reopen (id : Value) : T unit :=
  delete_task_files id ;;
  update_task_status id Reopen.

(** [str()] of a task id that found a task. *)
Definition python_str_id (v : Value) : res Refusal text :=
  match v with
  | VString t => Ok t
  | VBool true => Ok (tx "True")
  | VBool false => Ok (tx "False")
  | VNumber _ => encoded v
  | VNull | VArray _ | VObject _ => refused Internal (tx "a task id that finds a task is text or a number")
  end.

Definition notify_revoked (actor : text) (previous : Value) (id : Value) (reason : text) : T bool :=
  s <- member_status previous ;;
  if negb (match s with Some s => status_is_alive s | None => false end) then ret false
  else
    n <- inbox_count previous ;;
    if INBOX_CAPACITY <=? n then ret false
    else
      name <- lift (python_str_id id) ;;
      m <- insert_message actor previous (tx "claim on task " ++ name ++ tx " revoked by the coordinator: " ++ reason) ;;
      debug_assert (0 <? m) ;;
      record actor "message_accepted"
        (detail [("message"%string, int m); ("recipient"%string, previous); ("revision"%string, VNull)]) ;;
      ret true.

(** * Loss *)

Definition LOSS_GRACE : f64 := f64_of_Z 10.
Definition SCOPE_UNKNOWN : text := tx "harness exited; execution scope unconfirmed; discard environment".
Definition LOST_HARNESS : text := tx "harness exited; execution scope unconfirmed".

Definition lost (member : Value) : T bool :=
  s <- member_status member ;;
  if negb (match s with Some s => status_is_alive s | None => false end) then ret true
  else lost_after_activation member.

(** The scan of [grace_elapsed]: the earliest observation's time, and whether
    one of the actor's own stopped it. *)
Fixpoint grace_scan (actor : text) (member : Value) (l : list ScopeObservation) (first : option f64) : option f64 * bool :=
  match l with
  | [] => (first, false)
  | o :: rest =>
      if python_equal o.(so_member) member
      then
        let first := match first with None => Some o.(so_time) | _ => first end in
        if bool_decide (o.(so_actor) = actor) then (first, true) else grace_scan actor member rest first
      else grace_scan actor member rest first
  end.

Definition grace_elapsed (actor : text) (member : Value) : T bool :=
  now <- now_seconds ;;
  l <- scope_observations ;;
  let '(first, found) := grace_scan actor member l None in
  (if found then ret tt else record actor "scope_observed" (detail [("member"%string, member)])) ;;
  ret (f64_le LOSS_GRACE (f64_sub now (default now first))).

Definition holds_outcome (r : RunRecord) : bool :=
  match r.(outcome) with Some o => python_truthy (VString o) | None => false end.

Definition end_by_loss (actor : text) (r : RunRecord) (reason : text) : T bool :=
  let stopped := record actor "stop" (detail [("status"%string, str "failed"); ("reason"%string, VString reason)]) in
  match r.(status) with
  | Some RunState.SETUP => set_outcome RunState.FAILED ;; stopped ;; ret true
  | Some RunState.RUNNING => end_run actor (tx "failed") reason ;; ret true
  | Some RunState.PAUSED =>
      if holds_outcome r then ret false else hold_failed reason ;; stopped ;; ret true
  | _ => ret false
  end.

(** * Control *)

Definition edited (what : text) : Refusal := refusal Store (tx "the board's " ++ what ++ tx " is not as the board writes it").

Definition current : T RunRecord :=
  r <- run ;; ok_or r (refusal RunMissing (tx "coordination run missing")).

Definition pause_started : T f64 :=
  s <- pause_record ;;
  s <- ok_or s (refusal Internal (tx "paused run has no pause record")) ;;
  match as_f64 s with
  | Some f => if f64_is_finite f then ret f else throw (edited (tx "pause record"))
  | None => throw (edited (tx "pause record"))
  end.

Definition paused_for (now started : f64) : f64 * Value :=
  let elapsed := f64_sub now started in
  if f64_lt f64_zero elapsed then (elapsed, real elapsed) else (f64_zero, int 0).

Definition lost_coordinator (r : RunRecord) : T (option text) :=
  match r.(coordinator) with
  | None => ret None
  | Some c => l <- lost_after_activation (VString c) ;; ret (if l : bool then Some c else None)
  end.

Definition blockers_from (r : RunRecord) : T (list text) :=
  if bool_decide (r.(status) = Some RunState.PAUSED)
  then
    now <- now_seconds ;;
    started <- pause_started ;;
    l <- lost_coordinator r ;;
    ret (resume_blockers (f64_add r.(deadline) (paused_for now started).1) now l)
  else ret [].

Definition blockers : T (list text) := r <- current ;; blockers_from r.

Record ControlReceipt := {
  cr_status : option text;
  cr_outcome : option text;
  cr_reason : option text;
  cr_generation : Z;
  cr_budget : list (text * Value);
  cr_resume_blockers : list text;
}.

Definition no_budget : list (text * Value) :=
  [(tx "token_limit", VNull); (tx "strict_unknown", VBool false); (tx "warned", VBool false)].

Definition receipt : T ControlReceipt :=
  generation <- control_generation ;;
  standing <- look b_usage ;;
  r <- current ;;
  let b := match standing.(budget) with VObject stored => stored | _ => no_budget end in
  let b := set_field b (tx "observed_tokens") standing.(observed_tokens) in
  let b := set_field b (tx "unknown_usage_requests") standing.(unknown_usage_requests) in
  l <- blockers_from r ;;
  ret {| cr_status := RunState.as_str <$> r.(status); cr_outcome := r.(outcome); cr_reason := r.(outcome_reason);
         cr_generation := generation; cr_budget := b; cr_resume_blockers := l |}.

Record ControlAnswer := { ca_transition : TaskTransition; ca_receipt : ControlReceipt }.

Definition answered (t : TaskTransition) : T ControlAnswer :=
  r <- receipt ;; ret {| ca_transition := t; ca_receipt := r |}.

(** * Messages *)

(** [type(value) is int and value >= 1]. *)
Definition is_message_id (v : Value) : bool :=
  match as_u64 v with Some id => 1 <=? id | None => false end.

Definition message_id (v : Value) : res Refusal Value :=
  if is_message_id v then Ok v else refused Invalid (tx "message id must be a positive integer").

Inductive Retirement := Superseded | Withdrawn.

#[export] Instance Retirement_eq_dec : EqDecision Retirement.
Proof. solve_decision. Defined.

Definition retired_as (r : Retirement) : MessageState := match r with Superseded => SUPERSEDED | Withdrawn => WITHDRAWN end.

Definition retire (actor : text) (id : Value) (recipient : option Value) (r : Retirement) : T bool :=
  debug_assert (is_message_id id) ;;
  let status := MessageState_text (retired_as r) in
  m <- message id ;;
  match m with
  | Some m =>
      if negb (bool_decide (m.(mg_sender) = actor)) then refuse NotOwner (tx "only your own message can be " ++ status)
      else if negb (match recipient with Some to => python_equal (opt_text m.(mg_recipient)) to | None => true end)
      then refuse WrongState (tx "only a message to the same recipient can be " ++ status)
      else if bool_decide (m.(mg_status) = WITHDRAWN) && bool_decide (r = Withdrawn) then ret false
      else if negb (bool_decide (m.(mg_status) = ACCEPTED))
      then refuse WrongState (tx "message " ++ value_text id ++ tx " is already " ++ MessageState_text m.(mg_status))
      else set_message_status id (retired_as r) ;; ret true
  | None => refuse NotOwner (tx "only your own message can be " ++ status)
  end.
End operation.
