(* ===== verification/SwarmMembers.v ===== *)
(** The members of a swarm: how a run is created, joined and left.

    Models [application/swarm/use_cases/]: [create_run.rs], [bootstrap_run.rs],
    [join_run.rs], [admit_member.rs], [activate_member.rs],
    [record_member_launch.rs], [release_unlaunched_member.rs],
    [register_member_socket.rs], [confirm_member_dead.rs], [quarantine_member.rs]
    and [lose_coordinator.rs].  Of an operation, [.._work] is what runs in its
    second transaction.  The summary that [create] answers with is read after its
    transaction and is not modelled. *)

From S2P Require Import Prelude SwarmValue SwarmPolicy SwarmStore SwarmOperation.

Local Open Scope Z_scope.

Section members.
Context `{Engine}.

(** The clock and the ids outside a transaction. *)
Definition session_now : M Session Refusal f64 :=
  λ s, ({| store := s.(store); s_clock := λ n, s.(s_clock) (S n); s_ids := s.(s_ids); faults := s.(faults);
           others := s.(others) |}, Ok (s.(s_clock) O)).

Definition session_hex32 : M Session Refusal text :=
  id <- (λ s, ({| store := s.(store); s_clock := s.(s_clock); s_ids := λ n, s.(s_ids) (S n); faults := s.(faults);
                  others := s.(others) |}, Ok (s.(s_ids) O))) ;;
  debug_assert (hex_id id) ;;
  ret id.

(** * [create] *)

Record CreateRunRequest := {
  cq_member : text;
  cq_goal : Value;
  cq_constraints : Value;
  cq_criteria : Value;
  cq_member_limit : Value;
  cq_deadline : Value;
}.

Inductive CreateBranch := Fresh | OverSetup.

Definition deadline_value (v : Value) : option f64 :=
  match v with
  | VNumber _ => as_f64 v
  | VBool b => Some (f64_of_Z (if b then 1 else 0))
  | _ => None
  end.

Definition run_deadline (v : Value) : M Session Refusal f64 :=
  let invalid := refuse Invalid (tx "deadline must be in the next seven days") in
  match deadline_value v with
  | None => invalid
  | Some d =>
      now <- session_now ;;
      if negb (f64_lt now d) then invalid
      else
        now <- session_now ;;
        if f64_le d (f64_add now DEADLINE_HORIZON_SECONDS) then ret d else invalid
  end.

Definition validated (q : CreateRunRequest) : M Session Refusal RunContract :=
  goal <- lift (bounded q.(cq_goal) (tx "goal") TEXT_MAX_BYTES) ;;
  c <- lift (encoded q.(cq_constraints)) ;;
  lift (bounded_text c (tx "constraints") TEXT_MAX_BYTES) ;;
  e <- lift (encoded q.(cq_criteria)) ;;
  lift (criteria q.(cq_criteria) (Z.of_nat (byte_len e))) ;;
  (if match q.(cq_constraints) with VArray items => forallb is_string items | _ => false end then ret tt
   else refuse Invalid (tx "constraints must be a list of strings")) ;;
  let bad_limit := refuse Invalid (tx "member limit must be 1 through 25 including coordinator") in
  limit <- match as_i64 q.(cq_member_limit) with
           | Some l => if (1 <=? l) && (l <=? MEMBER_LIMIT_MAX) then ret l else bad_limit
           | None => bad_limit
           end ;;
  d <- run_deadline q.(cq_deadline) ;;
  ret {| rc_goal := goal; rc_constraints := q.(cq_constraints); rc_criteria := q.(cq_criteria);
         rc_member_limit := limit; rc_deadline := d |}.

Definition insert_fresh (member : text) (c : RunContract) : T unit :=
  id <- hex32 ;;
  insert_run id c member member RunState.RUNNING ;;
  reservation <- hex32 ;;
  insert_member member reservation MemberState.LIVE VNull VNull VNull.

Definition take_over_setup (member : text) (existing : RunRecord) (c : RunContract) : T unit :=
  if negb (bool_decide (existing.(status) = Some RunState.SETUP) && bool_decide (existing.(coordinator) = Some member))
  then refuse RunExists (tx "only the setup coordinator can create this run; existing runs cannot be reset")
  else
    n <- not_dead ;;
    if c.(rc_member_limit) <? n
    then refuse MemberLimit (tx "existing live/reserved members exceed requested limit; terminate and reconcile first")
    else update_run_contract c.

Definition create_work (q : CreateRunRequest) (c : RunContract) : T CreateBranch :=
  let member := q.(cq_member) in
  existing <- run ;;
  branch <- match existing with
            | Some e => take_over_setup member e c ;; ret OverSetup
            | None => insert_fresh member c ;; ret Fresh
            end ;;
  record member "created"
    (detail [("goal"%string, VString c.(rc_goal)); ("deadline"%string, q.(cq_deadline));
             ("contract"%string, detail [("goal"%string, VString c.(rc_goal)); ("constraints"%string, q.(cq_constraints));
                                         ("criteria"%string, q.(cq_criteria))])]) ;;
  ret branch.

Definition create_run (q : CreateRunRequest) : M Session Refusal CreateBranch :=
  c <- validated q ;;
  atomic true (create_work q c).

(** * [_bootstrap] *)

Definition PLACEHOLDER_MEMBER_LIMIT : Z := 10.

Definition placeholder : RunContract :=
  {| rc_goal := []; rc_constraints := VArray []; rc_criteria := VArray [];
     rc_member_limit := PLACEHOLDER_MEMBER_LIMIT; rc_deadline := f64_zero |}.

(** Whether it created the run. *)
Definition bootstrap_work (member : text) (pid started socket : Value) : T bool :=
  exists_ <- run_exists ;;
  if exists_ : bool then ret false
  else
    id <- hex32 ;;
    insert_run id placeholder member member RunState.SETUP ;;
    reservation <- hex32 ;;
    insert_member member reservation MemberState.LIVE pid started socket ;;
    record member "container_setup" (detail [("member"%string, VString member)]) ;;
    ret true.

Definition bootstrap (member : text) (pid started socket : Value) : M Session Refusal bool :=
  atomic true (bootstrap_work member pid started socket).

(** * [_admit] *)

Inductive AdmissionDecision := Reserved | Retry.

Definition admit_work (actor member : text) (reservation : Value) (r : RunRecord) : T (MemberRow * AdmissionDecision) :=
  prior <- SwarmStore.member member ;;
  n <- usage ;;
  now <- now_seconds ;;
  fresh <- lift (admission r prior reservation n now) ;;
  decision <- (if fresh : bool
               then reserve_member member reservation actor ;;
                    record actor "reserved" (detail [("member"%string, VString member)]) ;;
                    ret Reserved
               else ret Retry) ;;
  row <- member_row (VString member) None ;;
  row <- ok_or row (refusal Internal (tx "coordination store lost the member it admitted")) ;;
  debug_assert (bool_decide (row.(mr_id) = member)) ;;
  ret (row, decision).

Definition admit_member (actor : text) (member reservation : Value) : M Session Refusal (MemberRow * AdmissionDecision) :=
  member <- lift (bounded member (tx "member") MEMBER_ID_MAX_BYTES) ;;
  operation actor default_access (admit_work actor member reservation).

(** * [_activate] *)

Definition activate_work (actor : text) (member reservation : Value) (launch : LaunchIdentity) (socket : Value)
    (r : RunRecord) : T unit :=
  if negb (match r.(status) with Some (RunState.SETUP | RunState.RUNNING) => true | _ => false end)
  then refuse NotRunning (tx "run stopped before activation")
  else
    row <- member_row member None ;;
    match row with
    | Some row =>
        if negb (holds_reservation row reservation && alive row)
        then refuse StaleToken (tx "unknown or stale launch reservation")
        else if live row && launched_elsewhere row launch
        then refuse LaunchConflict (tx "member already active in a different process")
        else
          activate_member member launch socket ;;
          record actor "activated" (detail [("member"%string, member); ("pid"%string, launch.(pid))])
    | None => refuse StaleToken (tx "unknown or stale launch reservation")
    end.

Definition activate (actor : text) (member reservation : Value) (launch : LaunchIdentity) (socket : Value) : M Session Refusal unit :=
  operation actor default_access (activate_work actor member reservation launch socket).

(** * [_record_launch], [_release_unlaunched], [_register_socket] *)

Definition record_launch_work (member reservation : Value) (launch : LaunchIdentity) (r : RunRecord) : T unit :=
  row <- member_row member (Some reservation) ;;
  match row with
  | Some row =>
      if negb (alive row) then refuse StaleToken (tx "stale launch reservation")
      else if launched_elsewhere row launch then refuse LaunchConflict (tx "conflicting launch identity")
      else record_launch member launch
  | None => refuse StaleToken (tx "stale launch reservation")
  end.

Definition record_member_launch (actor : text) (member reservation : Value) (launch : LaunchIdentity) : M Session Refusal unit :=
  operation actor default_access (record_launch_work member reservation launch).

Definition release_unlaunched_work (actor : text) (member : Value) (r : RunRecord) : T unit :=
  row <- member_row member None ;;
  if negb (match row with Some row => unlaunched row | None => false end)
  then refuse WrongState (tx "only an unlaunched reservation may be released")
  else
    mark_member_dead member ;;
    record actor "launch_abandoned" (detail [("member"%string, member)]).

Definition release_unlaunched_member (actor : text) (member : Value) : M Session Refusal unit :=
  operation actor default_access (release_unlaunched_work actor member).

Definition register_socket_work (actor : text) (socket : Value) (r : RunRecord) : T unit := set_socket actor socket.

Definition register_member_socket (actor : text) (socket : Value) : M Session Refusal unit :=
  operation actor default_access (register_socket_work actor socket).

(** * [join_process] *)

Record JoinRunRequest := {
  jq_member : text;
  jq_reservation : Value;
  jq_launch : LaunchIdentity;
  jq_socket : Value;
}.

(** [JoinedAdmitted] is [Admitted] of the source, a word reserved in proofs. *)
Inductive Joined :=
  | JoinedAdmitted
  | AlreadyLive (coordinator : option text)
  | Reactivated.

(** What a refused join had committed. *)
Record JoinRefused := { jr_refusal : Refusal; jr_committed : option Joined }.

Definition join_read (member : Value) : T (option text * option MemberRow) :=
  c <- run_coordinator ;;
  c <- ok_or c (refusal RunMissing (tx "coordination run missing")) ;;
  row <- member_row member None ;;
  ret (c, row).

(** A call whose refusal is the join's, with what it had committed. *)
Definition joining {A} (committed : option Joined) (m : M Session Refusal A) : M Session JoinRefused A :=
  λ s, match m s with
       | (s', Ok a) => (s', Ok a)
       | (s', Err e) => (s', Err {| jr_refusal := e; jr_committed := committed |})
       | (s', Panic) => (s', Panic)
       end.

(** The rest of [join] once it is known whether the member is admitted. *)
Definition join_admitting (q : JoinRunRequest) (joined : Joined) (c : option text) (admitting : option Value)
    : M Session JoinRefused (Joined * option text) :=
  let member := VString q.(jq_member) in
  match c with
  | None =>
      (if bool_decide (is_Some admitting)
       then joining None (lift (bounded member (tx "member") MEMBER_ID_MAX_BYTES)) ;; ret tt else ret tt) ;;
      joining None (refuse NotMember (tx "invoking member is unknown or death confirmed"))
  | Some c =>
      match admitting with
      | Some reservation => joining None (admit_member c member reservation) ;; ret tt
      | None => ret tt
      end ;;
      debug_assert (match admitting, joined with Some _, JoinedAdmitted | None, _ => true | _, _ => false end) ;;
      joining (match admitting with Some _ => Some joined | None => None end)
        (activate c member (default q.(jq_reservation) admitting) q.(jq_launch) q.(jq_socket)) ;;
      ret (joined, Some c)
  end.

Definition join (q : JoinRunRequest) : M Session JoinRefused (Joined * option text) :=
  let member := VString q.(jq_member) in
  read <- joining None (atomic false (join_read member)) ;;
  let '(c, existing) := read : option text * option MemberRow in
  match existing with
  | None =>
      reservation <- (if python_truthy q.(jq_reservation) then ret q.(jq_reservation)
                      else id <- joining None session_hex32 ;; ret (VString id)) ;;
      join_admitting q JoinedAdmitted c (Some reservation)
  | Some row =>
      if live row && same_process row q.(jq_launch) then ret (AlreadyLive c, c)
      else if holds_reservation row q.(jq_reservation) then join_admitting q Reactivated c None
      else joining None (refuse LaunchConflict (tx "launch reservation does not match invoking process"))
  end.

Definition join_run (q : JoinRunRequest) : M Session Refusal Joined :=
  λ s, match join q s with
       | (s', Ok (joined, _)) => (s', Ok joined)
       | (s', Err e) => (s', Err e.(jr_refusal))
       | (s', Panic) => (s', Panic)
       end.

(** * Deaths and losses *)

Definition ORPHANS : text := tx "abrupt harness exit; orphaned tool processes may still write reserved paths".

Definition exit_kind (v : Value) : res Refusal MemberExit :=
  match v with
  | VString t =>
      if bool_decide (t = tx "orderly") then Ok Orderly
      else if bool_decide (t = tx "abrupt") then Ok Abrupt
      else refused Invalid (tx "exit kind must be orderly or abrupt")
  | _ => refused Invalid (tx "exit kind must be orderly or abrupt")
  end.

Inductive DeathConfirmation :=
  | AlreadyDead
  | Confirmed (coordinator : bool) (reservations_retained : Z) (ended_by_loss : bool).

Definition confirm_dead_work (actor : text) (member : Value) (exit : MemberExit) (r : RunRecord) : T DeathConfirmation :=
  s <- member_status member ;;
  if negb (match s with Some s => status_is_alive s | None => false end) then ret AlreadyDead
  else
    mark_member_dead member ;;
    block_owned_tasks member (blocker_of exit) ;;
    counted <- owner_file_count member ;;
    debug_assert (0 <=? counted) ;;
    retained <- match exit with
                | Orderly => delete_owner_files member ;; ret 0
                | Abrupt => ret counted
                end ;;
    record actor "death_confirmed"
      (detail ([("member"%string, member); ("exit"%string, VString (MemberExit_as_str exit));
                ("reservations_retained"%string, int retained)]
               ++ if retained =? 0 then [] else [("reason"%string, VString ORPHANS)])) ;;
    let is_coordinator := python_equal member (opt_text r.(coordinator)) in
    ended <- (if is_coordinator then end_by_loss actor r (tx "coordinator death confirmed") else ret false) ;;
    ret (Confirmed is_coordinator retained ended).

Definition confirm_member_dead (actor : text) (member exit : Value) : M Session Refusal DeathConfirmation :=
  exit <- lift (exit_kind exit) ;;
  operation actor default_access (confirm_dead_work actor member exit).

Inductive Quarantine :=
  | AlreadyLost
  | NotLauncher
  | GracePending
  | Recorded (ended_by_loss : bool).

Definition quarantine_record (actor : text) (member : Value) (r : RunRecord) : T Quarantine :=
  record actor "scope_unknown" (detail [("member"%string, member); ("reason"%string, VString SCOPE_UNKNOWN)]) ;;
  ended <- end_by_loss actor r LOST_HARNESS ;;
  ret (Recorded ended).

Definition quarantine_work (actor : text) (member : Value) (r : RunRecord) : T Quarantine :=
  l <- lost member ;;
  if l : bool then ret AlreadyLost
  else
    launcher <- member_launcher member ;;
    match launcher with
    | Some (Some launcher) =>
        authorised <- (if bool_decide (actor = launcher) then ret true else lost (VString launcher)) ;;
        if negb authorised then ret NotLauncher
        else
          elapsed <- grace_elapsed actor member ;;
          if negb elapsed then ret GracePending else quarantine_record actor member r
    | _ => quarantine_record actor member r
    end.

Definition quarantine_member (actor : text) (member : Value) : M Session Refusal Quarantine :=
  operation actor default_access (quarantine_work actor member).

Definition losable (r : RunRecord) : bool :=
  match r.(status) with
  | Some (RunState.SETUP | RunState.RUNNING) => true
  | Some RunState.PAUSED => negb (holds_outcome r)
  | _ => false
  end.

(** The run as it stands, and whether it was lost. *)
Definition lose_work (actor : text) (r : RunRecord) : T (RunRecord * bool) :=
  (if losable r
   then
     record actor "scope_unknown" (detail [("member"%string, VString actor); ("reason"%string, VString SCOPE_UNKNOWN)]) ;;
     ended <- end_by_loss actor r LOST_HARNESS ;;
     debug_assert ended
   else ret tt) ;;
  now <- current ;;
  ret (now, losable r).

Definition lose_coordinator (actor : text) : M Session Refusal (RunRecord * bool) :=
  operation actor default_access (lose_work actor).
End members.
