(* ===== verification/SwarmTasks.v ===== *)
(** The tasks of a swarm and the files their claims reserve.

    Models [application/swarm/use_cases/]: [create_task.rs],
    [set_task_dependencies.rs], [claim_task.rs], [release_task.rs],
    [block_task.rs], [unblock_task.rs], [submit_task.rs], [verify_task.rs],
    [revalidate_task.rs], [recover_task.rs], [revoke_task.rs],
    [reserve_files.rs] and [release_files.rs].  The checkout's paths and history
    ([CheckoutPaths], [CheckoutHistory]) are read by other code and are
    parameters. *)

From S2P Require Import Prelude SwarmValue SwarmPolicy SwarmDependencies SwarmStore SwarmOperation.

Local Open Scope Z_scope.

(** What the checkout answers. *)
Inductive Ancestry := AncestryConfirmed | NotAncestor | NotFullId | GitFailed | TimedOut.

#[export] Instance Ancestry_eq_dec : EqDecision Ancestry.
Proof. solve_decision. Defined.

Class Checkout := {
  (** [CheckoutPaths::normalize]: the path relative to the checkout, or its refusal. *)
  normalize : text → Refusal + text;
  (** [CheckoutHistory::ancestry]. *)
  ancestry : list text → text → Ancestry;
}.

(** A task row as the JSON object a request answers ([into_value]). *)
Definition task_value (t : TaskRow) : Value :=
  detail [("id"%string, int t.(t_id)); ("title"%string, VString t.(t_title)); ("acceptance"%string, t.(t_acceptance));
          ("dependencies"%string, t.(t_dependencies)); ("status"%string, VString (TaskState.as_str t.(t_status)));
          ("owner"%string, opt_text t.(t_owner)); ("token"%string, opt_text t.(t_token));
          ("evidence"%string, t.(t_evidence)); ("blocker"%string, opt_text t.(t_blocker))].

Section tasks.
Context `{Engine}.

(** * [task_create] *)

Definition TASK_BOARD_CAPACITY : Z := 1000.

Definition acceptance (v : Value) : res Refusal unit :=
  let invalid := refused Invalid (tx "task acceptance criteria required: use a nonempty list[str], e.g. ['tests pass']") in
  match v with
  | VArray ((_ :: _) as entries) =>
      if forallb (λ e, match as_str e with Some t => has_content t | None => false end) entries then Ok tt else invalid
  | _ => invalid
  end.

Definition create_task_action (actor title : text) (accept dependencies : Value) : T Value :=
  held <- task_count ;;
  if TASK_BOARD_CAPACITY <=? held
  then refuse CapacityFull (tx "task board full (" ++ decimal TASK_BOARD_CAPACITY ++ tx "); settle existing work")
  else
    inserted <- insert_task title accept dependencies ;;
    let id := int inserted in
    l <- lift (dependency_list dependencies) ;;
    graph <- all_task_dependencies ;;
    lift (validate_dependencies value_text id l graph) ;;
    record actor "task_created" (detail [("task"%string, id)]) ;;
    created <- read_task id ;;
    debug_assert (bool_decide (created.(t_id) = inserted)
                  && match created.(t_status) with TaskState.READY | TaskState.BLOCKED => true | _ => false end) ;;
    ret (task_value created).

Record CreateTaskRequest := {
  tq_actor : text;
  tq_request : Value;
  tq_title : Value;
  tq_acceptance : Value;
  tq_dependencies : Value;
}.

(** The task, and whether it was replayed. *)
Definition create_task_work (actor : text) (request : Value) (title : text) (accept dependencies : Value) (r : RunRecord) : T (Value * bool) :=
  id <- lift (bounded request (tx "request id") REQUEST_ID_MAX_BYTES) ;;
  made <- retry actor id (VArray [str "task"; VString title; accept; dependencies])
            (create_task_action actor title accept dependencies) ;;
  ret (made.1, negb made.2).

Definition create_task (q : CreateTaskRequest) : M Session Refusal (Value * bool) :=
  title <- lift (bounded q.(tq_title) (tx "title") TITLE_MAX_BYTES) ;;
  lift (acceptance q.(tq_acceptance)) ;;
  e <- lift (encoded q.(tq_acceptance)) ;;
  lift (bounded_text e (tx "acceptance") TEXT_MAX_BYTES) ;;
  let dependencies := if python_truthy q.(tq_dependencies) then q.(tq_dependencies) else VArray [] in
  operation q.(tq_actor) running_access
    (create_task_work q.(tq_actor) q.(tq_request) title q.(tq_acceptance) dependencies).

(** * [task_dependencies] *)

Definition set_dependencies_work (actor : text) (id dependencies : Value) (r : RunRecord) : T TaskRow :=
  t <- read_task id ;;
  if negb (bool_decide (t.(t_owner) = None)
           && match t.(t_status) with TaskState.READY | TaskState.BLOCKED => true | _ => false end)
  then refuse WrongState (tx "dependencies may change only before claiming")
  else
    l <- lift (dependency_list dependencies) ;;
    graph <- all_task_dependencies ;;
    lift (validate_dependencies value_text id l graph) ;;
    SwarmStore.set_task_dependencies id dependencies ;;
    record actor "dependencies" (detail [("task"%string, id); ("dependencies"%string, dependencies)]) ;;
    read_task id.

Definition set_task_dependencies (actor : text) (id dependencies : Value) : M Session Refusal TaskRow :=
  operation actor running_access (set_dependencies_work actor id dependencies).

(** * [claim], [release] *)

Definition claim_work (actor : text) (id : Value) (r : RunRecord) : T TaskRow :=
  t <- read_task id ;;
  u <- unmet (dependencies_of t) ;;
  if u : bool then refuse WrongState (tx "unmet dependencies")
  else if negb (bool_decide (t.(t_status) = TaskState.READY)) then refuse WrongState (tx "task is not ready to claim")
  else
    token <- hex32 ;;
    debug_assert (hex_id token) ;;
    update_task_claim id actor token ;;
    record actor "claimed" (detail [("task"%string, id); ("token"%string, VString token)]) ;;
    claimed <- read_task id ;;
    debug_assert (bool_decide (claimed.(t_status) = TaskState.CLAIMED) && bool_decide (claimed.(t_owner) = Some actor)
                  && bool_decide (claimed.(t_token) = Some token)) ;;
    ret claimed.

Definition claim_task (actor : text) (id : Value) : M Session Refusal TaskRow :=
  operation actor running_access (claim_work actor id).

Definition release_work (actor : text) (id token : Value) (r : RunRecord) : T TaskRow :=
  owned id token actor ;;
  update_task_status id Release ;;
  delete_claim_files id token ;;
  record actor "released" (detail [("task"%string, id)]) ;;
  t <- read_task id ;;
  debug_assert (bool_decide (t.(t_owner) = None) && bool_decide (t.(t_token) = None)) ;;
  ret t.

Definition release_task (actor : text) (id token : Value) : M Session Refusal TaskRow :=
  operation actor running_access (release_work actor id token).

(** * [block], [unblock], [submit] *)

Definition unchanged (t : TaskRow) : TaskChange := {| tc_task := t; tc_transition := Unchanged |}.

Definition block_work (actor : text) (id token : Value) (reason : text) (r : RunRecord) : T TaskChange :=
  t <- owned id token actor ;;
  unsubmitted t ;;
  if bool_decide (t.(t_status) = TaskState.BLOCKED) && python_equal (opt_text t.(t_blocker)) (VString reason)
  then ret (unchanged t)
  else
    update_task_status id (Block reason) ;;
    record actor "blocked" (detail [("task"%string, id); ("reason"%string, VString reason)]) ;;
    changed id TaskState.BLOCKED.

Definition block_task (actor : text) (id token reason : Value) : M Session Refusal TaskChange :=
  reason <- lift (bounded reason (tx "blocker") TEXT_MAX_BYTES) ;;
  operation actor running_access (block_work actor id token reason).

Definition unblock_work (actor : text) (id token : Value) (reason : text) (r : RunRecord) : T TaskChange :=
  t <- owned id token actor ;;
  match t.(t_status) with
  | TaskState.CLAIMED => ret (unchanged t)
  | TaskState.BLOCKED =>
      update_task_status id Unblock ;;
      record actor "unblocked" (detail [("task"%string, id); ("reason"%string, VString reason)]) ;;
      changed id TaskState.CLAIMED
  | _ => refuse WrongState (tx "only blocked or claimed work may resume")
  end.

Definition unblock_task (actor : text) (id token reason : Value) : M Session Refusal TaskChange :=
  reason <- lift (bounded reason (tx "resolution") TEXT_MAX_BYTES) ;;
  operation actor running_access (unblock_work actor id token reason).

Definition truthy_field (entry : Value) (key : text) : bool :=
  match get entry key with Some v => python_truthy v | None => false end.

Definition submitted_evidence (v : Value) : res Refusal unit :=
  let invalid := refused Invalid (tx "artifact and revision evidence required") in
  match v with
  | VArray ((_ :: _) as entries) =>
      if forallb (λ e, is_object e && truthy_field e (tx "artifact") && truthy_field e (tx "revision")) entries
      then Ok tt else invalid
  | _ => invalid
  end.

Definition submit_work (actor : text) (id token evidence : Value) (r : RunRecord) : T TaskChange :=
  t <- owned id token actor ;;
  if bool_decide (t.(t_status) = TaskState.SUBMITTED) && python_equal t.(t_evidence) evidence
  then ret (unchanged t)
  else
    unsubmitted t ;;
    update_task_status id (Submit evidence) ;;
    record actor "submitted" (detail [("task"%string, id)]) ;;
    changed id TaskState.SUBMITTED.

Definition submit_task (actor : text) (id token evidence : Value) : M Session Refusal TaskChange :=
  lift (submitted_evidence evidence) ;;
  e <- lift (encoded evidence) ;;
  lift (bounded_text e (tx "evidence references") TEXT_MAX_BYTES) ;;
  operation actor running_access (submit_work actor id token evidence).

(** * [verify] *)

Record CarryPlan := { cp_previous : Value; cp_carry : EvidenceCarry }.

Inductive Verified :=
  | Done (change : TaskChange)
  | Carry (plan : CarryPlan).

Definition stale : Refusal := refusal StaleRevision (tx "stale evidence revision").

Fixpoint entries_current (entries : list Value) (revision : Value) : res Refusal unit :=
  match entries with
  | [] => Ok tt
  | entry :: rest =>
      match get entry (tx "revision") with
      | None => refused Store (tx "stored evidence is not a list of revisioned entries")
      | Some found => if python_equal found revision then entries_current rest revision else Err stale
      end
  end.

Definition current_revision (t : TaskRow) (revision : Value) : res Refusal unit :=
  match t.(t_evidence) with
  | VArray entries => entries_current entries revision
  | _ => refused Store (tx "stored evidence is not a list of revisioned entries")
  end.

Definition carry (t : TaskRow) (revision : Value) (why : Refusal) : res Refusal CarryPlan :=
  match bool_decide (t.(t_status) = TaskState.SUBMITTED), why.(kind), evidence_carry t.(t_evidence) revision with
  | true, StaleRevision, Some c => Ok {| cp_previous := t.(t_evidence); cp_carry := c |}
  | _, _, _ => Err why
  end.

(** The evidence to carry, if the submission is at another commit; [None]: the
    plan still has to be confirmed. *)
Definition carried_plan (t : TaskRow) (revision : Value) (confirmed : option CarryPlan)
    : res Refusal (option CarryPlan + CarryPlan) :=
  match current_revision t revision with
  | Ok _ => Ok (inl None)
  | Err why =>
      let? found := carry t revision why in
      match confirmed with
      | None => Ok (inr found)
      | Some plan => if python_equal found.(cp_previous) plan.(cp_previous) then Ok (inl (Some found)) else Err stale
      end
  | Panic => Panic
  end.

Definition verify_work (actor : text) (id token revision : Value) (confirmed : option CarryPlan) (r : RunRecord) : T Verified :=
  t <- read_task id ;;
  if negb (python_equal (opt_text t.(t_token)) token
           && match t.(t_status) with TaskState.SUBMITTED | TaskState.COMPLETED => true | _ => false end)
  then refuse StaleToken (tx "stale claim or work not submitted")
  else
    plan <- lift (carried_plan t revision confirmed) ;;
    match plan with
    | inr found => ret (Carry found)
    | inl moved =>
        if bool_decide (t.(t_status) = TaskState.COMPLETED)
        then debug_assert (match moved with None => true | Some _ => false end) ;;
             ret (Done (unchanged t))
        else
          d <- match moved with
               | None => ret (detail [("task"%string, id); ("revision"%string, revision)])
               | Some p =>
                   replace_task_evidence id p.(cp_carry).(carried) ;;
                   ret (detail [("task"%string, id); ("revision"%string, revision);
                                ("carried_from"%string, VArray (VString <$> p.(cp_carry).(sources)));
                                ("previous_evidence"%string, p.(cp_previous))])
               end ;;
          update_task_status id Complete ;;
          delete_claim_files id token ;;
          record actor "verified" d ;;
          c <- changed id TaskState.COMPLETED ;;
          ret (Done c)
    end.

Definition verify (actor : text) (id token revision : Value) (confirmed : option CarryPlan) : M Session Refusal Verified :=
  operation actor coordinator_access (verify_work actor id token revision confirmed).

Definition verify_task `{Checkout} (actor : text) (id token revision : Value) : M Session Refusal TaskChange :=
  v <- verify actor id token revision None ;;
  match v with
  | Done change => ret change
  | Carry plan =>
      target <- expect (as_str revision) ;;
      if negb (bool_decide (ancestry plan.(cp_carry).(sources) target = AncestryConfirmed)) then throw stale
      else
        v <- verify actor id token revision (Some plan) ;;
        match v with
        | Done change => ret change
        | Carry _ => panic
        end
  end.

(** * [revalidate_task] *)

Definition revalidate_work (actor : text) (id revision evidence : Value) (r : RunRecord) : T TaskRow :=
  t <- task id ;;
  t <- ok_or t (refusal NotFound (tx "unknown task")) ;;
  e <- lift (revalidation (task_record t) revision evidence) ;;
  replace_task_evidence id e ;;
  record actor "revalidated"
    (detail [("task"%string, id); ("revision"%string, revision); ("previous_evidence"%string, t.(t_evidence));
             ("evidence"%string, e)]) ;;
  read_task id.

Definition revalidate_task (actor : text) (id revision evidence : Value) : M Session Refusal TaskRow :=
  e <- lift (encoded evidence) ;;
  lift (bounded_text e (tx "evidence references") TEXT_MAX_BYTES) ;;
  operation actor coordinator_access (revalidate_work actor id revision evidence).

(** * [recover], [revoke] *)

Definition is_true (v : Value) : bool := match v with VBool true => true | _ => false end.

(** The reopened task and the reservations it released. *)
Definition recover_work (actor : text) (id release_files : Value) (r : RunRecord) : T (TaskRow * Z) :=
  t <- read_task id ;;
  if negb (held_status t.(t_status)) then refuse WrongState (tx "only abandoned active work can be recovered")
  else
    s <- member_status (opt_text t.(t_owner)) ;;
    if negb (bool_decide (s = Some (Some MemberState.DEAD)))
    then refuse WrongState (tx "recovery requires confirmed worker death; revoke(id, reason) reassigns a live owner")
    else
      retained <- task_file_count id ;;
      debug_assert (0 <=? retained) ;;
      if negb (retained =? 0) && negb (is_true release_files)
      then refuse WrongState (tx "reservations retained after an abrupt exit; recover(id, release_files=True) frees them, or revoke(id, reason)")
      else
        reopen id ;;
        record actor "recovered" (detail [("task"%string, id); ("reservations_released"%string, int retained)]) ;;
        t <- read_task id ;;
        ret (t, retained).

Definition recover_task (actor : text) (id release_files : Value) : M Session Refusal (TaskRow * Z) :=
  operation actor coordinator_access (recover_work actor id release_files).

Inductive Revocation :=
  | Unowned
  | Revoked (notified : bool).

Definition revoke_work (actor : text) (id : Value) (reason : text) (r : RunRecord) : T (TaskRow * Revocation) :=
  t <- read_task id ;;
  let previous := opt_text t.(t_owner) in
  if is_null previous && match t.(t_status) with TaskState.READY | TaskState.BLOCKED => true | _ => false end
  then ret (t, Unowned)
  else if is_null previous || negb (held_status t.(t_status))
  then refuse WrongState (tx "only claimed, blocked or submitted work can be revoked")
  else
    reopen id ;;
    record actor "revoked"
      (detail [("task"%string, id); ("reason"%string, VString reason); ("previous_owner"%string, previous)]) ;;
    notified <- notify_revoked actor previous id reason ;;
    t <- read_task id ;;
    ret (t, Revoked notified).

Definition revoke_task (actor : text) (id reason : Value) : M Session Refusal (TaskRow * Revocation) :=
  reason <- lift (bounded reason (tx "revocation reason") TEXT_MAX_BYTES) ;;
  operation actor coordinator_access (revoke_work actor id reason).

(** * [reserve], [release_files] *)

Definition PATHS_PER_CALL : nat := 100.
Definition PATH_MAX_BYTES : Z := 4096.
Definition BOARD_CAPACITY : Z := 1000.

(** [BTreeSet::insert]. *)
Fixpoint insert_path (p : text) (l : list text) : list text :=
  match l with
  | [] => [p]
  | q :: rest => if bool_decide (p = q) then l else if text_leb p q then p :: l else q :: insert_path p rest
  end.

Definition starts_with_slash (t : text) : bool := match t with c :: _ => (c =? 47)%N | [] => false end.

Fixpoint normalized_loop `{Checkout} (given : list Value) (acc : list text) : res Refusal (list text) :=
  match given with
  | [] => Ok acc
  | p :: rest =>
      let? p := bounded p (tx "path") PATH_MAX_BYTES in
      let? inside := match normalize p with inl e => Err e | inr q => Ok q end in
      assert_that (negb (length inside =? 0)%nat && negb (starts_with_slash inside)) ;?
      normalized_loop rest (insert_path inside acc)
  end.

Definition normalized `{Checkout} (paths : Value) : res Refusal (list text) :=
  match paths with
  | VArray given =>
      if ((1 <=? length given) && (length given <=? PATHS_PER_CALL))%nat
      then
        let? l := normalized_loop given [] in
        assert_that (negb (length l =? 0)%nat) ;? Ok l
      else refused Invalid (tx "reserve 1 through 100 paths together")
  | _ => refused Invalid (tx "reserve 1 through 100 paths together")
  end.

Definition i64_saturating_add (a b : Z) : Z := Z.max i64_min (Z.min i64_max (a + b)).

Fixpoint none_reserved (paths : list text) : T unit :=
  match paths with
  | [] => ret tt
  | p :: rest =>
      taken <- file_reserved p ;;
      if taken : bool
      then refuse ReservedByOther (tx "file already reserved: " ++ p ++ tx "; acquire the entire set or release and retry")
      else none_reserved rest
  end.

Record Reservation := { rv_task : Z; rv_token : text; rv_paths : list text }.

Definition reserve_work (actor : text) (id token : Value) (paths : list text) (r : RunRecord) : T Reservation :=
  t <- owned id token actor ;;
  held <- file_count ;;
  if BOARD_CAPACITY <? i64_saturating_add held (Z.of_nat (length paths))
  then refuse CapacityFull (tx "file reservation board full (1000); release settled work")
  else
    none_reserved paths ;;
    reservation <- hex32 ;;
    insert_files id actor token reservation paths ;;
    record actor "files_reserved" (detail [("task"%string, id); ("paths"%string, VArray (VString <$> paths))]) ;;
    ret {| rv_task := t.(t_id); rv_token := reservation; rv_paths := paths |}.

Definition reserve_files `{Checkout} (actor : text) (id token paths : Value) : M Session Refusal Reservation :=
  paths <- lift (normalized paths) ;;
  operation actor running_access (reserve_work actor id token paths).

(** The task and how many files were released. *)
Definition release_files_work (actor : text) (id token reservation : Value) (r : RunRecord) : T (Z * nat) :=
  t <- owned id token actor ;;
  n <- delete_reservation id actor token reservation ;;
  record actor "files_released" (detail [("task"%string, id); ("token"%string, reservation)]) ;;
  ret (t.(t_id), n).

Definition release_files (actor : text) (id token reservation : Value) : M Session Refusal (Z * nat) :=
  operation actor default_access (release_files_work actor id token reservation).
End tasks.
