(* ===== verification/SwarmControl.v ===== *)
(** The course of a swarm's run, its evidence, and the messages of its members.

    Models [application/swarm/use_cases/]: [stop_run.rs], [complete_run.rs],
    [pause_run.rs], [resume_run.rs], [resume_run_externally.rs], [close_run.rs],
    [extend_run_deadline.rs], [amend_run_contract.rs], [record_evidence.rs],
    [send_message.rs], [withdraw_message.rs] and [acknowledge_message.rs]. *)

From S2P Require Import Prelude SwarmValue SwarmPolicy SwarmStore SwarmOperation.

Local Open Scope Z_scope.

Section control.
Context `{Engine}.

(** * [stop] *)

Definition cancel_work (actor reason : text) (r : RunRecord) : T TaskTransition :=
  match r.(status) with
  | Some RunState.CANCELLED => ret Unchanged
  | Some RunState.SETUP => refuse RunMissing (tx "run not created yet; nothing to cancel. To start one: swarm op=create")
  | Some (RunState.RUNNING | RunState.PAUSED) =>
      clear_outcome ;;
      set_outcome RunState.CANCELLED ;;
      record actor "stop" (detail [("status"%string, str "cancelled"); ("reason"%string, VString reason)]) ;;
      ret Applied
  | _ => throw (run_already r)
  end.

Definition stop_end_work (actor wanted reason : text) (r : RunRecord) : T TaskTransition :=
  if bool_decide (r.(status) = Some RunState.PAUSED) && bool_decide (r.(outcome) = Some wanted) then ret Unchanged
  else if is_running r then end_run actor wanted reason ;; ret Applied
  else throw (run_already_held r).

Definition stop_work (actor wanted reason : text) (r : RunRecord) : T ControlAnswer :=
  t <- (if bool_decide (wanted = tx "cancelled") then cancel_work actor reason r else stop_end_work actor wanted reason r) ;;
  answered t.

Definition stop_status (v : Value) : res Refusal text :=
  match as_str v with
  | Some s => if bool_decide (s ∈ STOP_STATUSES) then Ok s else refused Invalid (tx "invalid non-success outcome")
  | None => refused Invalid (tx "invalid non-success outcome")
  end.

Definition stop_run (actor : text) (wanted reason : Value) : M Session Refusal ControlAnswer :=
  reason <- lift (bounded reason (tx "stop reason") TEXT_MAX_BYTES) ;;
  wanted <- lift (stop_status wanted) ;;
  operation actor control_access (stop_work actor wanted reason).

(** * [complete] *)

Definition complete_work (actor : text) (revision : Value) (r : RunRecord) : T RunRecord :=
  s <- completion_state ;;
  lift (completion_revision revision) ;;
  c <- lift (stored_criteria s.(cs_criteria)) ;;
  o <- lift (completion c (evidence_rows s.(cs_evidence)) (task_record <$> s.(cs_tasks)) s.(cs_has_reservations) revision) ;;
  text_revision <- ok_or (as_str revision) (refusal Internal (tx "completion accepted a revision that is not text")) ;;
  debug_assert (bool_decide (o = RunState.SUCCEEDED)) ;;
  record actor "completed" (detail [("revision"%string, revision)]) ;;
  end_run actor (RunState.as_str o) (COMPLETED_AT ++ text_revision) ;;
  ended <- current ;;
  debug_assert (bool_decide (ended.(outcome) = Some (RunState.as_str o))) ;;
  ret ended.

Definition complete_run (actor : text) (revision : Value) : M Session Refusal RunRecord :=
  operation actor coordinator_access (complete_work actor revision).

(** * [pause], [resume], [close], [extend] *)

Definition pause_work (actor reason : text) (r : RunRecord) : T ControlAnswer :=
  t <- (if bool_decide (r.(status) = Some RunState.PAUSED) then ret Unchanged
        else
          m <- member actor ;;
          lift (authorize (Some r) actor m running_access) ;;
          set_outcome RunState.PAUSED ;;
          started <- now_seconds ;;
          started <- seconds started ;;
          record actor "paused" (detail [("reason"%string, VString reason); ("started"%string, started)]) ;;
          ret Applied) ;;
  answered t.

Definition pause_run (actor : text) (reason : Value) : M Session Refusal ControlAnswer :=
  reason <- lift (bounded reason (tx "pause reason") TEXT_MAX_BYTES) ;;
  operation actor control_access (pause_work actor reason).

(** A member's own [resume]: only the supervisor's does anything. *)
Definition resume_run (actor : text) : M Session Refusal ControlAnswer :=
  refuse SupervisorOnly (tx "a paused run is resumed only by the supervisor outside the swarm (agent_cmd swarm_control resume); members cannot resume it").

Fixpoint join_text (sep : text) (l : list text) : text :=
  match l with [] => [] | [t] => t | t :: rest => t ++ sep ++ join_text sep rest end.

Definition resume_work (actor : text) (r : RunRecord) : T ControlAnswer :=
  t <- match r.(status) with
       | Some RunState.RUNNING => ret Unchanged
       | Some RunState.PAUSED =>
           now <- now_seconds ;;
           started <- pause_started ;;
           let '(elapsed, paused_seconds) := paused_for now started in
           let d := f64_add r.(deadline) elapsed in
           blocking <- blockers ;;
           if negb (length blocking =? 0)%nat
           then refuse BudgetExhausted (tx "resume would pause again at once: " ++ join_text (tx "; ") blocking)
           else
             set_deadline d ;;
             clear_outcome ;;
             set_outcome RunState.RUNNING ;;
             record actor "resumed" (detail [("paused_seconds"%string, paused_seconds); ("outcome"%string, opt_text r.(outcome))]) ;;
             ret Applied
       | _ => refuse WrongState (tx "only a paused run may resume")
       end ;;
  answered t.

Definition resume_run_externally (actor : text) : M Session Refusal ControlAnswer :=
  operation actor control_access (resume_work actor).

Definition close_work (actor : text) (r : RunRecord) : T ControlAnswer :=
  match (if bool_decide (r.(status) = Some RunState.PAUSED) then r.(outcome) else None) with
  | Some held =>
      if bool_decide (held ∈ PROPOSED_OUTCOMES)
      then
        set_outcome (RunState.new held) ;;
        record actor "closed" (detail [("status"%string, VString held); ("reason"%string, opt_text r.(outcome_reason))]) ;;
        answered Applied
      else refuse WrongState (tx "run is " ++ status_text r ++ tx " without a proposed outcome; resume it or cancel the run")
  | None => refuse WrongState (tx "run is " ++ status_text r ++ tx " without a proposed outcome; resume it or cancel the run")
  end.

Definition close_run (actor : text) : M Session Refusal ControlAnswer :=
  operation actor control_access (close_work actor).

Definition extend_work (actor : text) (granted : Z) (r : RunRecord) : T ControlAnswer :=
  base <- match r.(status) with
          | Some RunState.RUNNING => ret r.(deadline)
          | Some RunState.PAUSED => p <- pause_started ;; ret (f64_max r.(deadline) p)
          | _ => refuse NotRunning (tx "run is " ++ status_text r ++ tx "; nothing to extend")
          end ;;
  debug_assert ((1 <=? granted) && (granted <=? MAX_EXTENSION_SECONDS)) ;;
  let d := f64_add base (f64_of_Z granted) in
  now <- now_seconds ;;
  if f64_lt (f64_add now (f64_of_Z MAX_EXTENSION_SECONDS)) d
  then refuse Invalid (tx "deadline may be at most seven days ahead, as at creation")
  else
    set_deadline d ;;
    at_ <- now_seconds ;;
    shown <- seconds d ;;
    event actor at_ "extended" (detail [("seconds"%string, int granted); ("deadline"%string, shown)]) ;;
    answered Applied.

Definition extend_run_deadline (actor : text) (secs : Value) : M Session Refusal ControlAnswer :=
  granted <- lift (validate_extension secs) ;;
  operation actor control_access (extend_work actor granted).

(** * [amend], [evidence] *)

Definition contract_value (c : StoredContract) : Value :=
  detail [("goal"%string, c.(sc_goal)); ("constraints"%string, c.(sc_constraints)); ("criteria"%string, c.(sc_criteria))].

Definition amend_work (actor goal reason : text) (constraints new_criteria : Value) (r : RunRecord) : T StoredContract :=
  e <- lift (encoded new_criteria) ;;
  lift (criteria new_criteria (Z.of_nat (byte_len e))) ;;
  before <- run_contract ;;
  before <- ok_or before (refusal RunMissing (tx "coordination run missing")) ;;
  amend_contract goal constraints new_criteria ;;
  delete_all_evidence ;;
  let after := {| sc_goal := VString goal; sc_constraints := constraints; sc_criteria := new_criteria |} in
  record actor "amended"
    (detail [("previous_goal"%string, before.(sc_goal)); ("goal"%string, VString goal); ("reason"%string, VString reason);
             ("before"%string, contract_value before); ("after"%string, contract_value after)]) ;;
  ret after.

Definition amend_run_contract (actor : text) (goal constraints new_criteria reason : Value) : M Session Refusal StoredContract :=
  goal <- lift (bounded goal (tx "goal") TEXT_MAX_BYTES) ;;
  reason <- lift (bounded reason (tx "amendment reason") TEXT_MAX_BYTES) ;;
  c <- lift (encoded constraints) ;;
  lift (bounded_text c (tx "constraints") TEXT_MAX_BYTES) ;;
  operation actor coordinator_access (amend_work actor goal reason constraints new_criteria).

Definition ARTIFACT_MAX_BYTES : Z := 2048.
Definition EVIDENCE_REVISION_MAX_BYTES : Z := 256.

Inductive EvidenceTransition := EvidenceRecorded | EvidenceUnchanged.

(** The kind of evidence its criterion asks for. *)
Definition configured_kind (configured : option (list (text * Value))) (given : Value) : res Refusal text :=
  let mismatch := refused Invalid (tx "evidence must match a configured criterion and kind") in
  match configured with
  | None => mismatch
  | Some fields =>
      match field fields (tx "kind"), given with
      | Some found, VString k => if python_equal found given then Ok k else mismatch
      | Some _, _ => mismatch
      | None, _ => Err edited_criteria
      end
  end.

Definition is_true_flag (v : Value) : bool := match v with VBool true => true | _ => false end.

(** The row is written, read back and recorded. *)
Definition evidence_write (e : NewEvidence) : T (EvidenceTransition * NewEvidence * option text) :=
  record_evidence e ;;
  found <- prior_evidence e.(ne_criterion) e.(ne_actor) ;;
  found <- ok_or found (refusal Store (tx "the recorded evidence row is gone")) ;;
  record e.(ne_actor) "evidence"
    (detail [("criterion"%string, e.(ne_criterion)); ("artifact"%string, VString e.(ne_artifact));
             ("revision"%string, VString e.(ne_revision)); ("accepted"%string, VBool e.(ne_accepted))]) ;;
  ret (EvidenceRecorded, e, found.(ee_criterion)).

Definition evidence_work (actor : text) (criterion : Value) (artifact revision : text) (given_kind passed : Value) (r : RunRecord)
    : T (EvidenceTransition * NewEvidence * option text) :=
  c <- run_criteria ;;
  c <- ok_or c (refusal RunMissing (tx "coordination run missing")) ;;
  configured <- lift (definition_of c criterion) ;;
  k <- lift (configured_kind configured given_kind) ;;
  let accepted := bool_decide (r.(coordinator) = Some actor) && is_true_flag passed in
  prior <- prior_evidence criterion actor ;;
  let e := {| ne_criterion := criterion; ne_artifact := artifact; ne_revision := revision; ne_kind := k;
              ne_actor := actor; ne_accepted := accepted |} in
  match prior with
  | Some p =>
      if bool_decide (p.(ee_artifact) = artifact) && bool_decide (p.(ee_revision) = revision)
         && bool_decide (p.(ee_kind) = k) && bool_decide (p.(ee_accepted) = accepted)
      then ret (EvidenceUnchanged, e, p.(ee_criterion))
      else evidence_write e
  | None => evidence_write e
  end.

Definition evidence (actor : text) (criterion artifact revision given_kind passed : Value)
    : M Session Refusal (EvidenceTransition * NewEvidence * option text) :=
  artifact <- lift (bounded artifact (tx "artifact reference") ARTIFACT_MAX_BYTES) ;;
  revision <- lift (bounded revision (tx "artifact revision") EVIDENCE_REVISION_MAX_BYTES) ;;
  operation actor running_access (evidence_work actor criterion artifact revision given_kind passed).

(** * [send], [withdraw], [ack] *)

Definition BODY_MAX_BYTES : Z := 8192.
Definition REVISION_MAX_BYTES : Z := 256.

Record SendMessageRequest := {
  sq_actor : text;
  sq_request : Value;
  sq_recipient : Value;
  sq_body : Value;
  sq_revision : Value;
  sq_supersedes : Value;
}.

Definition send_action (m : NewMessage) : T Value :=
  let actor := m.(nm_sender) in
  s <- member_status m.(nm_recipient) ;;
  if negb (match s with Some s => status_is_alive s | None => false end)
  then refuse NotFound (tx "unknown or out-of-swarm recipient")
  else
    match m.(nm_supersedes) with
    | Some old => retired <- retire actor old (Some m.(nm_recipient)) Superseded ;; debug_assert retired
    | None => ret tt
    end ;;
    n <- inbox_count m.(nm_recipient) ;;
    if INBOX_CAPACITY <=? n
    then refuse CapacityFull (tx "recipient inbox full (100 unconsumed messages)")
    else
      id <- send_message m ;;
      debug_assert (0 <? id) ;;
      match m.(nm_supersedes) with
      | Some old =>
          set_superseded_by old id ;;
          record actor "message_superseded" (detail [("message"%string, old); ("superseded_by"%string, int id)])
      | None => ret tt
      end ;;
      record actor "message_accepted"
        (detail [("message"%string, int id); ("recipient"%string, m.(nm_recipient)); ("revision"%string, opt_text m.(nm_revision))]) ;;
      ret (detail [("id"%string, int id); ("status"%string, str "accepted")]).

(** The receipt, and whether the message was sent now. *)
Definition send_work (request payload : Value) (m : NewMessage) (r : RunRecord) : T (Value * bool) :=
  id <- lift (bounded request (tx "request id") REQUEST_ID_MAX_BYTES) ;;
  retry m.(nm_sender) id payload (send_action m).

Definition send (q : SendMessageRequest) : M Session Refusal (Value * bool) :=
  body <- lift (bounded q.(sq_body) (tx "message") BODY_MAX_BYTES) ;;
  revision <- match q.(sq_revision) with
              | VNull => ret None
              | v => t <- lift (bounded v (tx "message revision") REVISION_MAX_BYTES) ;; ret (Some t)
              end ;;
  supersedes <- match q.(sq_supersedes) with
                | VNull => ret None
                | v => if is_message_id v then ret (Some v) else refuse Invalid (tx "supersedes must be a message id")
                end ;;
  let payload := VArray ([str "send"; q.(sq_recipient); VString body]
    ++ match revision, supersedes with
       | None, None => []
       | _, _ => [opt_text revision; default VNull supersedes]
       end) in
  operation q.(sq_actor) running_access
    (send_work q.(sq_request) payload
       {| nm_sender := q.(sq_actor); nm_recipient := q.(sq_recipient); nm_body := body; nm_revision := revision;
          nm_supersedes := supersedes |}).

(** Whether the message was withdrawn now. *)
Definition withdraw_work (actor : text) (id : Value) (r : RunRecord) : T bool :=
  done <- retire actor id None Withdrawn ;;
  (if done : bool then record actor "message_withdrawn" (detail [("message"%string, id)]) else ret tt) ;;
  ret done.

Definition withdraw_message (actor : text) (id : Value) : M Session Refusal bool :=
  id <- lift (message_id id) ;;
  operation actor default_access (withdraw_work actor id).

Definition acknowledge_work (actor : text) (id : Value) (r : RunRecord) : T bool :=
  m <- addressed_message id actor ;;
  m <- ok_or m (refusal NotFound (tx "unknown message in own inbox")) ;;
  let fresh := bool_decide (m.(mg_status) = ACCEPTED) in
  (if fresh
   then set_message_status id CONSUMED ;; record actor "message_consumed" (detail [("message"%string, id)])
   else ret tt) ;;
  ret fresh.

Definition acknowledge_message (actor : text) (id : Value) : M Session Refusal bool :=
  id <- lift (message_id id) ;;
  operation actor default_access (acknowledge_work actor id).
End control.
