(* ===== verification/SwarmInv.v ===== *)
(** Reasoning about the transactions of the swarm board.

    [wpb m Q b]: run on the board [b], with a clock that reads seconds since the
    epoch and ids as [uuid4().hex] spells them, the work [m] does not panic, and
    where it succeeds its answer and its board satisfy [Q].  (A refusal is rolled
    back, so nothing is asked of its board.) *)

From Stdlib Require Import SpecFloat.
From stdpp Require Import gmap.
From S2P Require Import Prelude SwarmValue SwarmPolicy SwarmStore SwarmOperation.

Local Open Scope Z_scope.

Create HintDb swarm.

#[global] Arguments tx _ : simpl never.
#[global] Arguments authorize : simpl never.
#[global] Arguments app {_} _ _ : simpl nomatch.

(** A double from zero up, infinity included. *)
Definition f64_up (f : f64) : Prop :=
  match f with S754_zero s | S754_finite s _ _ | S754_infinity s => s = false | S754_nan => False end.

(** A reading of the clock: seconds since the epoch, such that the longest grant
    from then is still a double. *)
Definition reading_ok (f : f64) : Prop :=
  f64_up f ∧ f64_is_finite f = true ∧ f64_is_finite (f64_add f (f64_of_Z MAX_EXTENSION_SECONDS)) = true.

Lemma reading_finite f : reading_ok f → f64_is_finite f = true.
Proof. by intros (_ & ? & _). Qed.

Lemma reading_up f : reading_ok f → f64_up f.
Proof. by intros (? & _). Qed.

#[export] Hint Resolve reading_finite reading_up : swarm.

Definition env (s : Tx) : Prop :=
  (∀ n, reading_ok (s.(clock) n)) ∧ ∀ n, hex_id (s.(ids) n) = true.

Definition wpb {A} (m : T A) (Q : A → Board → Prop) (b : Board) : Prop :=
  ∀ s, s.(board) = b → env s →
  match m s with
  | (s', Ok a) => env s' ∧ Q a s'.(board)
  | (s', Err _) => env s'
  | (_, Panic) => False
  end.

Section rules.
Context `{Engine} {A B : Type}.
Implicit Types (b : Board).

Lemma wpb_ret (a : A) Q b : Q a b → wpb (ret a) Q b.
Proof. intros HQ s <- He. by split. Qed.

Lemma wpb_throw e (Q : A → Board → Prop) b : wpb (throw e) Q b.
Proof. by intros s <- He. Qed.

Lemma wpb_bind (m : T A) (k : A → T B) Q b :
  wpb m (λ a b', wpb (k a) Q b') b → wpb (bind m k) Q b.
Proof.
  intros Hm s <- He. specialize (Hm s eq_refl He). unfold bind.
  destruct (m s) as [s' [a|e|]]; [|done|done]. destruct Hm as [He' Hk]. by apply Hk.
Qed.

Lemma wpb_mono (m : T A) (P Q : A → Board → Prop) b :
  wpb m P b → (∀ a b', P a b' → Q a b') → wpb m Q b.
Proof.
  intros Hm HPQ s <- He. specialize (Hm s eq_refl He).
  destruct (m s) as [s' [a|e|]]; [|done|done]. destruct Hm. auto.
Qed.

Lemma wpb_look (f : Board → A) Q b : Q (f b) b → wpb (look f) Q b.
Proof. intros HQ s <- He. by split. Qed.

Lemma wpb_update f (Q : unit → Board → Prop) b : Q tt (f b) → wpb (update f) Q b.
Proof. intros HQ s <- He. by split. Qed.

Lemma wpb_lift (r : res Refusal A) Q b : r ≠ Panic → (∀ a, r = Ok a → Q a b) → wpb (lift r) Q b.
Proof. intros Hr HQ s <- He. destruct r; [|done|done]. simpl. auto. Qed.

Lemma wpb_ok_or (o : option A) e (Q : A → Board → Prop) b : (∀ a, o = Some a → Q a b) → wpb (ok_or o e) Q b.
Proof. intros HQ. destruct o; [apply wpb_ret; auto|apply wpb_throw]. Qed.

Lemma wpb_debug_assert x (Q : unit → Board → Prop) b : x = true → Q tt b → wpb (debug_assert x) Q b.
Proof. intros -> HQ s <- He. by split. Qed.

Lemma wpb_now (Q : f64 → Board → Prop) b : (∀ f, reading_ok f → Q f b) → wpb now_seconds Q b.
Proof.
  intros HQ s <- [Hc Hi]. split; [|by apply HQ]. split; [|done]. intros n. simpl. apply Hc.
Qed.

Lemma wpb_hex32 (Q : text → Board → Prop) b : (∀ t, hex_id t = true → Q t b) → wpb hex32 Q b.
Proof.
  intros HQ s <- [Hc Hi]. unfold hex32, bind, debug_assert. rewrite Hi. split; [|by apply HQ].
  split; [done|]. intros n. simpl. apply Hi.
Qed.
End rules.

Section rules.
Context `{Engine}.

Lemma encoded_no_panic v : encoded v ≠ Panic.
Proof. unfold encoded, refused. by destruct (encode v). Qed.

Lemma loose_no_panic p v : loose p v ≠ Panic.
Proof. destruct v as [|?|[]| | |]; simpl; try case_match; done. Qed.

Lemma loose_position p q v c : loose p v = Ok c → loose q v = Ok c.
Proof. destruct v as [|?|[]| | |]; simpl; try case_match; done. Qed.

Lemma loose_same p q v c d : loose p v = Ok c → loose q v = Ok d → c = d.
Proof. intros Hp Hq. apply (loose_position _ p) in Hq. congruence. Qed.

(** The board with one more event. *)
Definition add_event (actor : text) (time : f64) (action : string) (d : Value) (b : Board) : Board :=
  set_events (b.(b_events) ++
    [{| e_id := next_rowid (e_id <$> b.(b_events)); e_actor := actor; e_time := time; e_action := tx action;
        e_detail := stored d |}]) b.

Lemma wpb_event actor time action d (Q : unit → Board → Prop) b :
  Q tt (add_event actor time action d b) → wpb (event actor time action d) Q b.
Proof.
  intros HQ. apply wpb_bind, wpb_lift; [apply encoded_no_panic|]. intros _ _. by apply wpb_update.
Qed.

Lemma wpb_record actor action d (Q : unit → Board → Prop) b :
  (∀ time, Q tt (add_event actor time action d b)) → wpb (record actor action d) Q b.
Proof. intros HQ. apply wpb_bind, wpb_now. intros f _. apply wpb_event, HQ. Qed.

Lemma wpb_seconds f (Q : Value → Board → Prop) b : f64_is_finite f = true → Q (real f) b → wpb (seconds f) Q b.
Proof. intros Hf HQ. apply wpb_bind, wpb_debug_assert; [done|]. by apply wpb_ret. Qed.

(** A loose parameter and what is done with its cell. *)
Lemma wpb_loose p v (Q : Cell → Board → Prop) b : (∀ c, loose p v = Ok c → Q c b) → wpb (lift (loose p v)) Q b.
Proof. intros HQ. apply wpb_lift; [apply loose_no_panic|done]. Qed.

Lemma wpb_encoded v (Q : text → Board → Prop) b : (∀ t, Q t b) → wpb (lift (encoded v)) Q b.
Proof. intros HQ. apply wpb_lift; [apply encoded_no_panic|auto]. Qed.
End rules.

(** One step through a piece of work. *)
Ltac wstep :=
  lazymatch goal with
  | |- wpb (bind _ _) _ _ => apply wpb_bind
  | |- wpb (ret _) _ _ => apply wpb_ret
  | |- wpb (throw _) _ _ => apply wpb_throw
  | |- wpb (refuse _ _) _ _ => apply wpb_throw
  | |- wpb (look _) _ _ => apply wpb_look
  | |- wpb (update _) _ _ => apply wpb_update
  | |- wpb (lift (loose _ _)) _ _ => apply wpb_loose; intros ? ?
  | |- wpb (lift (encoded _)) _ _ => apply wpb_encoded; intros ?
  | |- wpb (record _ _ _) _ _ => apply wpb_record; intros ?
  | |- wpb (event _ _ _ _) _ _ => apply wpb_event
  | |- wpb now_seconds _ _ => apply wpb_now; intros ? ?
  | |- wpb (seconds _) _ _ => apply wpb_seconds; [solve [eauto with swarm]|]
  | |- wpb hex32 _ _ => apply wpb_hex32; intros ? ?
  | |- wpb (ok_or _ _) _ _ => apply wpb_ok_or; intros ? ?
  | |- wpb (debug_assert _) _ _ => apply wpb_debug_assert
  | |- wpb (if ?c then _ else _) _ _ => destruct c eqn:?
  | |- wpb (match ?o with _ => _ end) _ _ => destruct o eqn:?
  | |- wpb (let '(_, _) := ?p in _) _ _ => destruct p eqn:?
  end; cbv beta.
Ltac wsteps := repeat wstep.

(** The next condition of the work, tested. *)
Ltac wif H := lazymatch goal with |- wpb (if ?x then _ else _) _ _ => destruct x eqn:H end.

(** What holds of every board, and how boards evolve.

    [board_inv] gathers the invariants of the tables and [evolves] what no
    transaction undoes; the lemmas are about one table each, for the changes the
    statements of [SwarmStore] make. *)

(** * Deadlines *)

Lemma iter_pos_ind {A} (P : A → Prop) (f : A → A) n x : (∀ y, P y → P (f y)) → P x → P (SpecFloat.iter_pos f n x).
Proof. intros Hf. revert x. induction n; simpl; auto. Qed.

Lemma shr_nonneg m e n : 0 <= m.(shr_m) → 0 <= (shr m e n).1.(shr_m).
Proof.
  intros Hm. destruct n; simpl; [done| |done]. apply (iter_pos_ind (λ x, 0 <= x.(shr_m))); [|done].
  intros [[|[]|] r s]; simpl; lia.
Qed.

Lemma shr_fexp_nonneg m e l : 0 <= m → 0 <= (shr_fexp 53 1024 m e l).1.(shr_m).
Proof. intros Hm. apply shr_nonneg. by destruct l as [|[]]. Qed.

Lemma binary_round_up m e : f64_up (binary_round 53 1024 false m e).
Proof.
  unfold binary_round. destruct (shl_align _ _ _) as [mz ez]. unfold binary_round_aux.
  pose proof (shr_fexp_nonneg (Zpos mz) ez loc_Exact ltac:(lia)) as H1.
  destruct (shr_fexp _ _ (Zpos mz) _ _) as [r e']. simpl in H1.
  set (k := round_nearest_even _ _).
  assert (0 <= k) as Hk by (subst k; unfold round_nearest_even; repeat case_match; lia).
  pose proof (shr_fexp_nonneg k e' loc_Exact Hk) as H2.
  destruct (shr_fexp _ _ k _ _) as [r' e'']. simpl in H2.
  destruct (shr_m r'); [done| |lia]. by destruct (_ <=? _).
Qed.

Lemma f64_add_up a b : f64_up a → f64_up b → f64_up (f64_add a b).
Proof.
  destruct a as [[]|[]| |[] m e], b as [[]|[]| |[] m' e']; simpl; try done; intros _ _.
  unfold f64_add, SFadd. cbn [cond_Zopp]. apply binary_round_up.
Qed.

Lemma f64_lt_up a b : f64_up a → f64_lt a b = true → f64_up b.
Proof. by destruct a as [[]|[]| |[] m e], b as [[]|[]| |[] m' e']. Qed.

Lemma f64_of_Z_up z : 0 <= z → f64_up (f64_of_Z z).
Proof. intros Hz. destruct z; [done|apply binary_round_up|lia]. Qed.

(** What is not beyond a finite bound is finite. *)
Lemma f64_up_finite a b : f64_up a → f64_up b → f64_is_finite a = true → f64_lt a b = false → f64_is_finite b = true.
Proof. by destruct a as [[]|[]| |[] m e], b as [[]|[]| |[] m' e']. Qed.

Lemma paused_for_up now started : f64_up (paused_for now started).1.
Proof. unfold paused_for. destruct (f64_lt _ _) eqn:E; [|done]. by apply (f64_lt_up f64_zero). Qed.

Lemma f64_max_up a b : f64_up a → f64_up (f64_max a b).
Proof.
  intros Ha. unfold f64_max. destruct (f64_is_nan a) eqn:En; [by destruct a|].
  destruct (f64_lt a b) eqn:E; [by apply (f64_lt_up a)|done].
Qed.

#[export] Hint Resolve f64_add_up f64_of_Z_up paused_for_up f64_max_up : swarm.

(** * The invariant *)

(** A run whose status is final. *)
Definition ended (s : RunState.t) : Prop :=
  s = RunState.SUCCEEDED ∨ s = RunState.BLOCKED ∨ s = RunState.FAILED ∨ s = RunState.CANCELLED ∨ s = RunState.BUDGET_EXHAUSTED.

(** The outcomes a status goes with. *)
Definition outcome_ok (s : RunState.t) (o : option text) : Prop :=
  match s with
  | RunState.SETUP | RunState.RUNNING | RunState.CANCELLED => o = None
  | RunState.PAUSED => match o with Some t => t ∈ PROPOSED_OUTCOMES | None => True end
  | RunState.SUCCEEDED => o = Some (tx "succeeded")
  | RunState.FAILED => o = None ∨ o = Some (tx "failed")
  | RunState.BLOCKED => o = Some (tx "blocked")
  | RunState.BUDGET_EXHAUSTED => o = Some (tx "budget-exhausted")
  | RunState.Unknown _ => False
  end.

Definition record_ok (r : RunRecord) : Prop :=
  (∃ s, r.(status) = Some s ∧ outcome_ok s r.(outcome)) ∧ is_Some r.(coordinator) ∧ f64_up r.(deadline)
  ∧ 1 <= r.(member_limit) <= MEMBER_LIMIT_MAX.

Definition alive_count (l : list MemberRow) : Z := Z.of_nat (length (List.filter alive l)).

Definition run_inv (r : option RunRow) (members : list MemberRow) : Prop :=
  match r with
  | None => members = []
  | Some r => record_ok r.(r_record) ∧ alive_count members <= r.(r_record).(member_limit)
  end.

Definition member_ok (m : MemberRow) : Prop :=
  m.(mr_status) = Some MemberState.LIVE ∨ m.(mr_status) = Some MemberState.RESERVED ∨ m.(mr_status) = Some MemberState.DEAD.

Definition members_inv (l : list MemberRow) : Prop := NoDup (mr_id <$> l) ∧ Forall member_ok l.

(** A claim on the task, or its completion. *)
Definition settled (t : TaskRow) : bool := held_status t.(t_status) || bool_decide (t.(t_status) = TaskState.COMPLETED).

Definition depends_on (t : TaskRow) (z : Z) : Prop := int z ∈ dependencies_of t.

Definition completed_in (l : list TaskRow) (z : Z) : Prop := ∃ t, t ∈ l ∧ t.(t_id) = z ∧ t.(t_status) = TaskState.COMPLETED.

Definition task_ok (t : TaskRow) : Prop :=
  (∃ ds : list Z, t.(t_dependencies) = VArray (int <$> ds))
  ∧ if settled t then is_Some t.(t_owner) ∧ is_Some t.(t_token)
    else t.(t_status) = TaskState.READY ∧ t.(t_owner) = None ∧ t.(t_token) = None.

Definition TASKS_MAX : Z := 1000.

Record tasks_inv (l : list TaskRow) : Prop := {
  tasks_distinct : NoDup (t_id <$> l);
  tasks_bounded : Z.of_nat (length l) <= TASKS_MAX;
  tasks_ok : Forall task_ok l;
  tasks_order : ∀ t z, t ∈ l → settled t = true → depends_on t z → completed_in l z;
}.

(** The claim a reservation belongs to. *)
Definition reserved_by (f : FileRow) (t : TaskRow) : Prop :=
  f.(f_task) = CInteger t.(t_id) ∧ held_status t.(t_status) = true ∧ t.(t_owner) = Some f.(f_owner) ∧ t.(t_token) = f.(f_claim).

Record files_inv (files : list FileRow) (tasks : list TaskRow) : Prop := {
  files_exclusive : NoDup (f_path <$> files);
  files_bounded : Z.of_nat (length files) <= 1000;
  files_claimed : ∀ f, f ∈ files → ∃ t, t ∈ tasks ∧ reserved_by f t;
}.

Definition unread (r : text) (l : list MessageRow) : nat := length (List.filter (unread_by (Some r)) l).

Record messages_inv (l : list MessageRow) : Prop := {
  messages_distinct : NoDup (mg_id <$> l);
  messages_bounded : ∀ r, Z.of_nat (unread r l) <= INBOX_CAPACITY;
}.

(** Only the coordinator's evidence is accepted. *)
Definition evidence_inv (r : option RunRow) (l : list EvidenceEntry) : Prop :=
  ∀ e, e ∈ l → e.(ee_accepted) = true → ∃ row, r = Some row ∧ row.(r_record).(coordinator) = Some e.(ee_actor).

Definition request_key (r : RequestRow) : text * text := (r.(rq_actor), r.(rq_request)).

Record requests_inv (l : list RequestRow) : Prop := {
  requests_distinct : NoDup (request_key <$> l);
  requests_bounded : Z.of_nat (length l) <= REQUEST_LEDGER_CAPACITY;
}.

(** What a run that holds success has proved: [completion] at the revision its
    reason names. *)
Definition success_inv (r : option RunRow) (tasks : list TaskRow) (files : list FileRow) (evidence : list EvidenceEntry) : Prop :=
  ∀ row, r = Some row → row.(r_record).(outcome) = Some (tx "succeeded") →
  files = [] ∧ ∃ revision c,
    row.(r_record).(outcome_reason) = Some (COMPLETED_AT ++ revision)
    ∧ stored_criteria row.(r_criteria) = Ok c
    ∧ completion c (evidence_rows evidence) (task_record <$> tasks) false (VString revision) = Ok RunState.SUCCEEDED.

Record board_inv (b : Board) : Prop := {
  inv_run : run_inv b.(b_run) b.(b_members);
  inv_members : members_inv b.(b_members);
  inv_tasks : tasks_inv b.(b_tasks);
  inv_files : files_inv b.(b_files) b.(b_tasks);
  inv_messages : messages_inv b.(b_messages);
  inv_evidence : evidence_inv b.(b_run) b.(b_evidence);
  inv_requests : requests_inv b.(b_requests);
  inv_success : success_inv b.(b_run) b.(b_tasks) b.(b_files) b.(b_evidence);
}.

(** * Evolution *)

(** A run never returns to its setup, and an end is final. *)
Definition status_evolves (s s' : option RunState.t) : Prop :=
  s = s' ∨ s = Some RunState.SETUP
  ∨ (s = Some RunState.RUNNING ∨ s = Some RunState.PAUSED) ∧ s' ≠ Some RunState.SETUP.

Definition run_evolves (r r' : option RunRow) : Prop :=
  ∀ row, r = Some row → ∃ row', r' = Some row' ∧ row'.(r_id) = row.(r_id)
  ∧ row'.(r_record).(coordinator) = row.(r_record).(coordinator)
  ∧ status_evolves row.(r_record).(status) row'.(r_record).(status).

(** Every row is still there, changed as [R] allows. *)
Definition rows_evolve {A} (R : A → A → Prop) (l l' : list A) : Prop := ∀ x, x ∈ l → ∃ x', x' ∈ l' ∧ R x x'.

Definition member_evolves (m m' : MemberRow) : Prop :=
  m'.(mr_id) = m.(mr_id) ∧ m'.(mr_reservation) = m.(mr_reservation) ∧ m'.(mr_launcher) = m.(mr_launcher)
  ∧ (m.(mr_status) = Some MemberState.DEAD → m'.(mr_status) = Some MemberState.DEAD).

(** Completed work stays completed, with its owner and what it depended on. *)
Definition task_evolves (t t' : TaskRow) : Prop :=
  t'.(t_id) = t.(t_id) ∧ t'.(t_title) = t.(t_title) ∧ t'.(t_acceptance) = t.(t_acceptance)
  ∧ (t.(t_status) = TaskState.COMPLETED →
     t'.(t_status) = TaskState.COMPLETED ∧ t'.(t_owner) = t.(t_owner) ∧ t'.(t_token) = t.(t_token)
     ∧ t'.(t_dependencies) = t.(t_dependencies)).

(** A message is never rewritten, and is unread only once. *)
Definition message_evolves (m m' : MessageRow) : Prop :=
  m'.(mg_id) = m.(mg_id) ∧ m'.(mg_sender) = m.(mg_sender) ∧ m'.(mg_recipient) = m.(mg_recipient)
  ∧ m'.(mg_body) = m.(mg_body) ∧ m'.(mg_revision) = m.(mg_revision) ∧ m'.(mg_supersedes) = m.(mg_supersedes)
  ∧ (m.(mg_status) = ACCEPTED ∨ m'.(mg_status) = m.(mg_status)).

Record evolves (b b' : Board) : Prop := {
  ev_run : run_evolves b.(b_run) b'.(b_run);
  ev_members : rows_evolve member_evolves b.(b_members) b'.(b_members);
  ev_tasks : rows_evolve task_evolves b.(b_tasks) b'.(b_tasks);
  ev_messages : rows_evolve message_evolves b.(b_messages) b'.(b_messages);
  ev_requests : b.(b_requests) `prefix_of` b'.(b_requests);
  ev_events : b.(b_events) `prefix_of` b'.(b_events);
}.

Lemma status_evolves_trans s1 s2 s3 : status_evolves s1 s2 → status_evolves s2 s3 → status_evolves s1 s3.
Proof.
  unfold status_evolves. intros [->|[->|[H1 H2]]] [->|[->|[H3 H4]]]; auto; destruct H1; naive_solver.
Qed.

Lemma rows_evolve_trans {A} (R : A → A → Prop) `{!Transitive R} l1 l2 l3 :
  rows_evolve R l1 l2 → rows_evolve R l2 l3 → rows_evolve R l1 l3.
Proof.
  intros H1 H2 x Hx. destruct (H1 x Hx) as (y & Hy & ?). destruct (H2 y Hy) as (z & Hz & ?).
  exists z. split; [done|]. by etrans.
Qed.

#[export] Instance member_evolves_preorder : PreOrder member_evolves.
Proof.
  split; [done|]. intros x y z (?&?&?&?) (?&?&?&?). repeat split; [congruence..|auto].
Qed.
#[export] Instance task_evolves_preorder : PreOrder task_evolves.
Proof.
  split; [done|]. intros x y z (?&?&?&Ht) (?&?&?&Ht'). repeat split; try congruence;
    destruct (Ht ltac:(done)) as (Hc&?&?&?), (Ht' Hc) as (?&?&?&?); congruence.
Qed.
#[export] Instance message_evolves_preorder : PreOrder message_evolves.
Proof.
  split; [intros x; repeat split; auto|]. intros x y z (?&?&?&?&?&?&Ha) (?&?&?&?&?&?&Hb). repeat split; try congruence.
  destruct Ha as [|Ha]; [auto|]. destruct Hb; [left|right]; congruence.
Qed.

Lemma rows_evolve_refl {A} (R : A → A → Prop) `{!Reflexive R} l : rows_evolve R l l.
Proof. intros x Hx. by exists x. Qed.

Lemma run_evolves_refl r : run_evolves r r.
Proof. intros row ->. exists row. unfold status_evolves. auto. Qed.

#[export] Instance evolves_preorder : PreOrder evolves.
Proof.
  split.
  - intros b. split; try apply rows_evolve_refl; try apply _; [apply run_evolves_refl|done|done].
  - intros x y z [H1 H2 H3 H4 H5 H6] [G1 G2 G3 G4 G5 G6]. split.
    + intros row Hr. destruct (H1 row Hr) as (r1 & E1 & ? & ? & ?), (G1 r1 E1) as (r2 & -> & ? & ? & ?).
      exists r2. split_and!; [done|congruence|congruence|]. by eapply status_evolves_trans.
    + by eapply rows_evolve_trans; [apply _| |].
    + by eapply rows_evolve_trans; [apply _| |].
    + by eapply rows_evolve_trans; [apply _| |].
    + by etrans.
    + by etrans.
Qed.

Lemma rows_evolve_app {A} (R : A → A → Prop) `{!Reflexive R} l l' : rows_evolve R l (l ++ l').
Proof. intros x Hx. exists x. split; [|done]. apply elem_of_app. by left. Qed.

Lemma rows_evolve_map {A} (R : A → A → Prop) (g : A → A) l : (∀ x, x ∈ l → R x (g x)) → rows_evolve R l (g <$> l).
Proof. intros HR x Hx. exists (g x). split; [apply list_elem_of_fmap_2|]; auto. Qed.
