(* ===== verification/SwarmSteps.v ===== *)
(** The tables of the board under the changes its statements make. *)

From stdpp Require Import gmap.
From S2P Require Import Prelude SwarmValue SwarmPolicy SwarmStore SwarmOperation SwarmInv.

Local Open Scope Z_scope.

(** * Lists of rows *)

Lemma key_unique {A B} (key : A → B) l x y : NoDup (key <$> l) → x ∈ l → y ∈ l → key x = key y → x = y.
Proof.
  intros Hnd Hx Hy Hk. induction l as [|z l IH]; [by apply not_elem_of_nil in Hx|].
  rewrite fmap_cons in Hnd. apply list.NoDup_cons in Hnd as [Hz Hnd].
  apply elem_of_cons in Hx as [->|Hx], Hy as [->|Hy]; [done| | |auto]; contradict Hz; apply list_elem_of_fmap; eauto.
Qed.

Lemma find_elem {A} (p : A → bool) l x : List.find p l = Some x → x ∈ l ∧ p x = true.
Proof. intros Hf. apply find_some in Hf as [Hin Hp]. split; [by apply list_elem_of_In|done]. Qed.

Lemma find_exists {A} (p : A → bool) l x : List.find p l = Some x → existsb p l = true.
Proof. intros Hf. apply find_some in Hf. apply existsb_exists. eauto. Qed.

(** The rows a statement's WHERE selects, changed. *)
Definition change {A} (p : A → bool) (f : A → A) (l : list A) : list A := (λ x, if p x then f x else x) <$> l.

Lemma find_change {A} (p : A → bool) f l x :
  (∀ y, p (f y) = p y) → List.find p l = Some x → List.find p (change p f l) = Some (f x).
Proof.
  intros Hp. induction l as [|y l IH]; [done|]. simpl. destruct (p y) eqn:E.
  - intros [= ->]. by rewrite Hp, E.
  - rewrite E. apply IH.
Qed.

Lemma change_elem {A} (p : A → bool) f l y : y ∈ change p f l ↔ ∃ x, y = (if p x then f x else x) ∧ x ∈ l.
Proof. apply list_elem_of_fmap. Qed.

Lemma change_keys {A B} (key : A → B) (p : A → bool) f l : (∀ x, key (f x) = key x) → key <$> change p f l = key <$> l.
Proof.
  intros Hk. unfold change. rewrite <-list_fmap_compose. apply list_fmap_ext. intros i x _. simpl. case_match; auto.
Qed.

(** Where the key picks one row, the others stay. *)
Lemma change_one {A B} (key : A → B) (p : A → bool) f l x y :
  NoDup (key <$> l) → x ∈ l → (∀ z, p z = true → key z = key x) → y ∈ change p f l →
  y ∈ l ∧ p y = false ∨ y = f x ∧ p x = true.
Proof.
  intros Hnd Hx Hp (z & -> & Hz)%change_elem. destruct (p z) eqn:E; [|by left].
  right. assert (z = x) as -> by (eapply key_unique; eauto). done.
Qed.

Lemma filter_count_map {A} (p : A → bool) (g : A → A) l :
  (∀ x, x ∈ l → p (g x) = true → p x = true) → (length (List.filter p (g <$> l)) <= length (List.filter p l))%nat.
Proof.
  induction l as [|x l IH]; intros Hp; [done|]. rewrite fmap_cons. cbn [List.filter].
  assert (IH' := IH ltac:(intros y Hy; apply Hp; by right)).
  destruct (p (g x)) eqn:E; [rewrite (Hp x ltac:(by left) E)|destruct (p x)]; simpl; lia.
Qed.

Lemma filter_count_app {A} (p : A → bool) l x :
  length (List.filter p (l ++ [x])) = (length (List.filter p l) + if p x then 1 else 0)%nat.
Proof. rewrite List.filter_app, length_app. simpl. by destruct (p x). Qed.

Lemma next_rowid_above l z : z ∈ l → z < next_rowid l.
Proof.
  unfold next_rowid. induction l as [|y l IH]; [by intros ?%not_elem_of_nil|].
  intros [->|Hz]%elem_of_cons; simpl; [lia|]. specialize (IH Hz). lia.
Qed.

Lemma next_rowid_fresh l : next_rowid l ∉ l.
Proof. intros Hin. apply next_rowid_above in Hin. lia. Qed.

Lemma next_rowid_pos l : 0 < next_rowid l.
Proof. unfold next_rowid. induction l; simpl; lia. Qed.

Lemma text_equal_iff a b : text_equal a b = true ↔ ∃ t, a = Some t ∧ b = Some t.
Proof.
  destruct a as [a|], b as [b|]; simpl; [|naive_solver..]. rewrite bool_decide_eq_true. naive_solver.
Qed.

Section rows.
Context `{Engine}.

(** * Members *)

Lemma member_named_iff id m : member_named id m = true ↔ id = Some m.(mr_id).
Proof. unfold member_named. rewrite text_equal_iff. naive_solver. Qed.

Lemma members_change l id f :
  members_inv l → (∀ m, mr_id (f m) = mr_id m) → (∀ m, m ∈ l → member_named id m = true → member_ok (f m)) →
  members_inv (change (member_named id) f l).
Proof.
  intros [Hnd Hok] Hid Hf. split; [by rewrite change_keys|].
  apply list.Forall_forall. intros m (x & -> & Hx)%change_elem.
  destruct (member_named id x) eqn:E; [by apply Hf|]. by eapply list.Forall_forall in Hok.
Qed.

Lemma alive_change l id f :
  (∀ m, m ∈ l → member_named id m = true → alive (f m) = true → alive m = true) →
  alive_count (change (member_named id) f l) <= alive_count l.
Proof.
  intros Hf. unfold alive_count. apply inj_le, filter_count_map. intros m Hm. case_match; auto.
Qed.

Lemma members_insert l m : members_inv l → conflicts m l = false → member_ok m → members_inv (l ++ [m]).
Proof.
  intros [Hnd Hok] Hc Hm. split.
  - rewrite fmap_app. apply NoDup_snoc; [done|]. intros (x & Hid & Hx)%list_elem_of_fmap.
    assert (conflicts m l = true) as Hx'; [|congruence].
    apply existsb_exists. exists x. split; [by apply list_elem_of_In|]. by rewrite bool_decide_true by done.
  - apply Forall_app. split; [done|]. by apply Forall_singleton.
Qed.

Lemma members_evolve_change l id f :
  (∀ m, m ∈ l → member_named id m = true → member_evolves m (f m)) →
  rows_evolve member_evolves l (change (member_named id) f l).
Proof. intros Hf. apply rows_evolve_map. intros m Hm. case_match; [auto|reflexivity]. Qed.

(** The row a member's id finds is the only one it names. *)
Lemma member_found l id m m' :
  members_inv l → List.find (member_named id) l = Some m → m' ∈ l → member_named id m' = true → m' = m.
Proof.
  intros [Hnd _] Hf Hm' Hn. apply find_elem in Hf as [Hm Hn'].
  apply member_named_iff in Hn, Hn'. eapply key_unique; [exact Hnd|done|done|congruence].
Qed.

(** * Tasks *)

Lemma has_id_iff c z : has_id c z = true ↔ integer_affinity c = CInteger z.
Proof.
  unfold has_id. destruct (integer_affinity c); simpl; [naive_solver| |naive_solver..]. rewrite Z.eqb_eq. naive_solver.
Qed.

Lemma task_found l c t : List.find (task_with c) l = Some t → t ∈ l ∧ integer_affinity c = CInteger t.(t_id).
Proof. intros [Ht Hc]%find_elem. split; [done|]. by apply has_id_iff. Qed.

Lemma completed_mono l (g : TaskRow → TaskRow) z :
  (∀ t, t ∈ l → task_evolves t (g t)) → completed_in l z → completed_in (g <$> l) z.
Proof.
  intros Hg (t & Ht & <- & Hc). destruct (Hg t Ht) as (Hid & _ & _ & He). exists (g t).
  split_and!; [by apply list_elem_of_fmap_2|done|]. by apply He.
Qed.

Lemma tasks_map l (g : TaskRow → TaskRow) :
  tasks_inv l → (∀ t, t ∈ l → task_evolves t (g t) ∧ task_ok (g t)) →
  (∀ t z, t ∈ l → settled (g t) = true → depends_on (g t) z → completed_in l z) →
  tasks_inv (g <$> l).
Proof.
  intros [Hnd Hb Hok Ho] Hg Hd. split.
  - replace (t_id <$> (g <$> l)) with (t_id <$> l); [done|]. rewrite <-list_fmap_compose.
    apply list_fmap_ext. intros i t Hi%list_elem_of_lookup_2. symmetry. by apply Hg.
  - by rewrite length_fmap.
  - apply list.Forall_forall. intros t (x & -> & Hx)%list_elem_of_fmap. by apply Hg.
  - intros t z (x & -> & Hx)%list_elem_of_fmap Hs Hz. apply completed_mono; [intros; by apply Hg|eauto].
Qed.

(** One task changes, as its row [f t] is fit to. *)
Lemma tasks_change l c f t :
  tasks_inv l → List.find (task_with c) l = Some t → task_evolves t (f t) → task_ok (f t) →
  (∀ z, settled (f t) = true → depends_on (f t) z → completed_in l z) →
  tasks_inv (change (task_with c) f l) ∧ rows_evolve task_evolves l (change (task_with c) f l).
Proof.
  intros Hi Hf He Hok Hd. apply task_found in Hf as [Ht Hc].
  assert (∀ x, x ∈ l → task_with c x = true → x = t) as Huniq.
  { intros x Hx Hp%has_id_iff. eapply key_unique; [apply Hi|done|done|congruence]. }
  split; [apply tasks_map|apply rows_evolve_map].
  - done.
  - intros x Hx. destruct (task_with c x) eqn:E; [by rewrite (Huniq x Hx E)|].
    split; [reflexivity|]. destruct Hi as [_ _ Hall _]. by eapply list.Forall_forall in Hall.
  - intros x z Hx. destruct (task_with c x) eqn:E; [rewrite (Huniq x Hx E); apply Hd|]. intros. by eapply tasks_order.
  - intros x Hx. destruct (task_with c x) eqn:E; [by rewrite (Huniq x Hx E)|reflexivity].
Qed.

Lemma tasks_insert l t :
  tasks_inv l → Z.of_nat (length l) < TASKS_MAX → t.(t_id) ∉ (t_id <$> l) → task_ok t → settled t = false →
  tasks_inv (l ++ [t]).
Proof.
  intros [Hnd Hb Hok Ho] Hl Hid Ht Hs. split.
  - rewrite fmap_app. by apply NoDup_snoc.
  - rewrite length_app. simpl. lia.
  - apply Forall_app. split; [done|]. by apply Forall_singleton.
  - intros x z [Hx| ->%list_elem_of_singleton]%elem_of_app Hsx Hd; [|congruence].
    destruct (Ho x z Hx Hsx Hd) as (y & Hy & ? & ?). exists y. split_and!; try done. apply elem_of_app. by left.
Qed.

(** * Files *)

(** Files that stay are of tasks whose claim stays. *)
Lemma files_keep files files' l l' :
  files_inv files l → NoDup (f_path <$> files') → (length files' <= length files)%nat →
  (∀ f t, f ∈ files' → t ∈ l → reserved_by f t → ∃ t', t' ∈ l' ∧ reserved_by f t') →
  (∀ f, f ∈ files' → f ∈ files) → files_inv files' l'.
Proof.
  intros [_ Hb Hc] Hnd Hlen Hk Hin. split; [done|lia|]. intros f Hf.
  destruct (Hc f (Hin f Hf)) as (t & Ht & Hr). eauto.
Qed.

Lemma filter_sub {A} (p : A → bool) l x : x ∈ List.filter p l ↔ x ∈ l ∧ p x = true.
Proof. rewrite !list_elem_of_In. apply filter_In. Qed.

Lemma filter_paths (p : FileRow → bool) files : NoDup (f_path <$> files) → NoDup (f_path <$> List.filter p files).
Proof.
  induction files as [|f files IH]; intros Hnd; [done|]. rewrite fmap_cons in Hnd. apply list.NoDup_cons in Hnd as [Hf Hnd].
  simpl. destruct (p f); [|auto]. rewrite fmap_cons. apply list.NoDup_cons. split; [|auto].
  contradict Hf. apply list_elem_of_fmap in Hf as (x & -> & [Hx _]%filter_sub). by apply list_elem_of_fmap_2.
Qed.

Lemma filter_length_le {A} (p : A → bool) l : (length (List.filter p l) <= length l)%nat.
Proof. induction l as [|x l IH]; simpl; [done|]. destruct (p x); simpl; lia. Qed.

Lemma files_delete files l l' (p : FileRow → bool) :
  files_inv files l →
  (∀ f t, t ∈ l → reserved_by f t → p f = false → ∃ t', t' ∈ l' ∧ reserved_by f t') →
  files_inv (List.filter (λ f, negb (p f)) files) l'.
Proof.
  intros Hi Hk. eapply files_keep; [done|apply filter_paths, Hi|apply filter_length_le| |].
  - intros f t [_ Hp]%filter_sub Ht Hr. apply negb_true_iff in Hp. eauto.
  - intros f [Hf _]%filter_sub. done.
Qed.

Lemma files_delete_same files l (p : FileRow → bool) :
  files_inv files l → files_inv (List.filter (λ f, negb (p f)) files) l.
Proof. intros Hi. eapply files_delete; [done|]. eauto. Qed.

(** The claim of one task changes: what was reserved under it either goes or is
    reserved under the new row. *)
Lemma files_change files l c f t (p : FileRow → bool) :
  tasks_inv l → files_inv files l → List.find (task_with c) l = Some t →
  (∀ fl, reserved_by fl t → p fl = true ∨ reserved_by fl (f t)) →
  files_inv (List.filter (λ fl, negb (p fl)) files) (change (task_with c) f l).
Proof.
  intros Hi Hfi Hf Hk. apply task_found in Hf as [Ht Hc]. eapply files_delete; [done|].
  intros fl x Hx Hr Hp. destruct (task_with c x) eqn:E.
  - assert (x = t) as ->.
    { apply has_id_iff in E. eapply key_unique; [apply Hi|done|done|congruence]. }
    destruct (Hk fl Hr) as [|Hr']; [congruence|]. exists (f t). split; [|done].
    apply change_elem. exists t. by rewrite E.
  - exists x. split; [|done]. apply change_elem. exists x. by rewrite E.
Qed.

Lemma filter_true {A} (l : list A) : List.filter (λ _, true) l = l.
Proof. induction l; simpl; congruence. Qed.

Lemma files_change_keep files l c f t :
  tasks_inv l → files_inv files l → List.find (task_with c) l = Some t →
  (∀ fl, reserved_by fl t → reserved_by fl (f t)) →
  files_inv files (change (task_with c) f l).
Proof.
  intros Hi Hfi Hf Hk. rewrite <-(filter_true files). eapply (files_change _ _ _ _ _ (λ _, false)); eauto.
Qed.

Lemma files_more files l t : files_inv files l → files_inv files (l ++ [t]).
Proof.
  intros [Hnd Hb Hc]. split; [done..|]. intros f Hf. destruct (Hc f Hf) as (x & Hx & Hr). exists x.
  split; [|done]. apply elem_of_app. by left.
Qed.

(** * Messages *)

Lemma message_found l c m : List.find (message_with c) l = Some m → m ∈ l ∧ integer_affinity c = CInteger m.(mg_id).
Proof. intros [Hm Hc]%find_elem. split; [done|]. by apply has_id_iff. Qed.

Lemma messages_change l c f m :
  messages_inv l → List.find (message_with c) l = Some m → message_evolves m (f m) → (∀ x, mg_id (f x) = mg_id x) →
  messages_inv (change (message_with c) f l) ∧ rows_evolve message_evolves l (change (message_with c) f l).
Proof.
  intros Hi Hf He Hid. apply message_found in Hf as [Hm Hc].
  assert (∀ x, x ∈ l → message_with c x = true → x = m) as Huniq.
  { intros x Hx Hp%has_id_iff. eapply key_unique; [apply Hi|done|done|congruence]. }
  split; [split|apply rows_evolve_map].
  - rewrite change_keys; [apply Hi|done].
  - intros r. etrans; [|apply Hi]. apply inj_le, filter_count_map. intros x Hx.
    destruct (message_with c x) eqn:E; [|done]. rewrite (Huniq x Hx E).
    destruct He as (_ & _ & Hr & _ & _ & _ & Hs). unfold unread_by. rewrite Hr.
    intros [-> Ha]%andb_true_iff. simpl. apply bool_decide_eq_true in Ha. apply bool_decide_eq_true. destruct Hs; congruence.
  - intros x Hx. destruct (message_with c x) eqn:E; [by rewrite (Huniq x Hx E)|reflexivity].
Qed.

Lemma messages_insert l m :
  messages_inv l → m.(mg_id) ∉ (mg_id <$> l) →
  (∀ r, m.(mg_recipient) = Some r → Z.of_nat (unread r l) < INBOX_CAPACITY) →
  messages_inv (l ++ [m]).
Proof.
  intros [Hnd Hb] Hid Hr. split.
  - rewrite fmap_app. by apply NoDup_snoc.
  - intros r. unfold unread. rewrite filter_count_app. specialize (Hb r). unfold unread in *.
    destruct (unread_by (Some r) m) eqn:E; [|lia].
    unfold unread_by in E. apply andb_true_iff in E as [(t & Ht & [= ->])%text_equal_iff _].
    specialize (Hr t Ht). unfold unread in Hr. lia.
Qed.
End rows.

(** What the gate of an operation and the shared parts of its work do to a board.

    [advance b b']: the board [b'] keeps the invariant and [b] may evolve into it.
    [keeps actor access work]: the work of an operation advances every board its
    access lets it run on. *)

Definition advance (b b' : Board) : Prop := board_inv b' ∧ evolves b b'.

Lemma advance_refl b : board_inv b → advance b b.
Proof. by split. Qed.

Lemma advance_trans b b1 b2 : advance b b1 → (board_inv b1 → advance b1 b2) → advance b b2.
Proof. intros [H1 E1] H2. destruct (H2 H1) as [? E2]. split; [done|]. by etrans. Qed.

Lemma advance_events b b' es : advance b b' → advance b (set_events (b'.(b_events) ++ es) b').
Proof.
  intros [[] []]. split; [by constructor|]. constructor; try done. cbn. by etrans; [|apply prefix_app_r].
Qed.

Lemma advance_event b b' actor time action d : advance b b' → advance b (add_event actor time action d b').
Proof. apply advance_events. Qed.

(** Work on a board that has advanced advances it further. *)
Lemma wpb_then {A} (m : T A) (P : A → Prop) (Q : A → Board → Prop) b b1 :
  advance b b1 → (board_inv b1 → wpb m (λ a b2, advance b1 b2 ∧ P a) b1) →
  (∀ a b2, advance b b2 → P a → Q a b2) → wpb m Q b1.
Proof.
  intros Hb Hm HQ. eapply wpb_mono; [apply Hm, Hb|]. intros a b2 [Hb2 HP]. apply HQ; [|done]. by eapply advance_trans.
Qed.

Lemma advance_members b l :
  board_inv b → run_inv b.(b_run) l → members_inv l → rows_evolve member_evolves b.(b_members) l →
  advance b (set_members l b).
Proof.
  intros Hb Hr Hm He. split; [by destruct Hb; constructor|].
  constructor; try done; try (apply rows_evolve_refl, _). apply run_evolves_refl.
Qed.

Lemma advance_work b l files :
  board_inv b → tasks_inv l → files_inv files l → success_inv b.(b_run) l files b.(b_evidence) →
  rows_evolve task_evolves b.(b_tasks) l → advance b (set_files files (set_tasks l b)).
Proof.
  intros Hb Hr Hm Hs He. split; [by destruct Hb; constructor|].
  constructor; try done; try (apply rows_evolve_refl, _). apply run_evolves_refl.
Qed.

Lemma advance_tasks b l :
  board_inv b → tasks_inv l → files_inv b.(b_files) l → success_inv b.(b_run) l b.(b_files) b.(b_evidence) →
  rows_evolve task_evolves b.(b_tasks) l → advance b (set_tasks l b).
Proof. exact (advance_work b l b.(b_files)). Qed.

Lemma advance_files b files :
  board_inv b → files_inv files b.(b_tasks) → success_inv b.(b_run) b.(b_tasks) files b.(b_evidence) → advance b (set_files files b).
Proof.
  intros Hb Hf Hs. apply (advance_work b b.(b_tasks) files); [done|apply Hb|done|done|by apply rows_evolve_refl, _].
Qed.

Lemma advance_messages b l :
  board_inv b → messages_inv l → rows_evolve message_evolves b.(b_messages) l → advance b (set_messages l b).
Proof.
  intros Hb Hm He. split; [by destruct Hb; constructor|].
  constructor; try done; try (apply rows_evolve_refl, _). apply run_evolves_refl.
Qed.

Lemma advance_evidence b l :
  board_inv b → evidence_inv b.(b_run) l → success_inv b.(b_run) b.(b_tasks) b.(b_files) l → advance b (set_evidence l b).
Proof.
  intros Hb Hm He. split; [by destruct Hb; constructor|].
  constructor; try done; try (apply rows_evolve_refl, _). apply run_evolves_refl.
Qed.

Lemma advance_requests b l :
  board_inv b → requests_inv l → b.(b_requests) `prefix_of` l → advance b (set_requests l b).
Proof.
  intros Hb Hm He. split; [by destruct Hb; constructor|].
  constructor; try done; try (apply rows_evolve_refl, _). apply run_evolves_refl.
Qed.

(** A change of the run row. *)
Lemma advance_run b row row' :
  board_inv b → b.(b_run) = Some row → r_id row' = r_id row →
  row'.(r_record).(coordinator) = row.(r_record).(coordinator) → record_ok row'.(r_record) →
  alive_count b.(b_members) <= row'.(r_record).(member_limit) →
  status_evolves row.(r_record).(status) row'.(r_record).(status) →
  success_inv (Some row') b.(b_tasks) b.(b_files) b.(b_evidence) →
  advance b (set_run (Some row') b).
Proof.
  intros Hb Hr Hid Hc Hok Hn Hs Hsucc. split.
  - destruct Hb. constructor; try done. intros e He Ha. destruct (inv_evidence e He Ha) as (x & Hx & ?).
    exists row'. split; [done|]. congruence.
  - constructor; try done; try (apply rows_evolve_refl, _). intros x Hx.
    assert (x = row) as -> by congruence. by exists row'.
Qed.

(** * A run's standing *)

Lemma success_not row tasks files evidence :
  row.(r_record).(outcome) ≠ Some (tx "succeeded") → success_inv (Some row) tasks files evidence.
Proof. by intros Hn x [= <-] Ho. Qed.

Lemma inv_record b row : board_inv b → b.(b_run) = Some row → record_ok row.(r_record).
Proof. intros [Hr _ _ _ _ _ _ _] Hb. rewrite Hb in Hr. apply Hr. Qed.

Lemma inv_limit b row : board_inv b → b.(b_run) = Some row → alive_count b.(b_members) <= row.(r_record).(member_limit).
Proof. intros [Hr _ _ _ _ _ _ _] Hb. rewrite Hb in Hr. apply Hr. Qed.

Lemma is_running_iff r : is_running r = true ↔ r.(status) = Some RunState.RUNNING.
Proof. unfold is_running. repeat case_match; naive_solver. Qed.

Lemma outcome_of r s : record_ok r → r.(status) = Some s → outcome_ok s r.(outcome).
Proof. intros ((x & Hx & Ho) & _) Hs. congruence. Qed.

(** A run under way holds no outcome, so nothing is asked of its success. *)
Lemma success_running b row tasks files evidence :
  board_inv b → b.(b_run) = Some row → is_running row.(r_record) = true → success_inv b.(b_run) tasks files evidence.
Proof.
  intros Hb Hr Hrun%is_running_iff. rewrite Hr. apply success_not.
  pose proof (outcome_of _ _ (inv_record b row Hb Hr) Hrun) as Ho. simpl in Ho. congruence.
Qed.

Lemma status_from_running (s' : RunState.t) : s' ≠ RunState.SETUP → status_evolves (Some RunState.RUNNING) (Some s').
Proof. intros Hs. right. right. split; [by left|congruence]. Qed.

Lemma status_from_paused (s' : RunState.t) : s' ≠ RunState.SETUP → status_evolves (Some RunState.PAUSED) (Some s').
Proof. intros Hs. right. right. split; [by right|congruence]. Qed.

#[export] Hint Resolve advance_refl advance_event status_from_running status_from_paused : swarm.

Section steps.
Context `{Engine}.

(** * The end of a run under way *)

Definition ended_row (o reason : text) (row : RunRow) : RunRow :=
  with_record (λ r, with_status RunState.PAUSED (with_outcome (Some o) (Some reason) r)) row.

Lemma wpb_end_run actor o reason (Q : unit → Board → Prop) b :
  (∀ es, Q tt (set_events (b.(b_events) ++ es) (set_run (ended_row o reason <$> b.(b_run)) b))) →
  wpb (end_run actor o reason) Q b.
Proof.
  intros HQ. unfold end_run, propose_outcome. wsteps. unfold add_event. cbn.
  rewrite <-app_assoc. apply HQ.
Qed.

Lemma advance_end b row o reason es :
  board_inv b → b.(b_run) = Some row → is_running row.(r_record) = true → o ∈ PROPOSED_OUTCOMES →
  (o = tx "succeeded" → ∃ revision c, reason = COMPLETED_AT ++ revision ∧ b.(b_files) = [] ∧
     stored_criteria row.(r_criteria) = Ok c ∧
     completion c (evidence_rows b.(b_evidence)) (task_record <$> b.(b_tasks)) false (VString revision) = Ok RunState.SUCCEEDED) →
  advance b (set_events (b.(b_events) ++ es) (set_run (ended_row o reason <$> b.(b_run)) b)).
Proof.
  intros Hb Hr Hrun%is_running_iff Ho Hs.
  apply (advance_events _ (set_run (ended_row o reason <$> b.(b_run)) b)).
  rewrite Hr. simpl. destruct (inv_record b row Hb Hr) as (_ & Hc & Hd & Hl).
  eapply advance_run; try done.
  - split; [by exists RunState.PAUSED|done].
  - exact (inv_limit b row Hb Hr).
  - rewrite Hrun. by apply status_from_running.
  - intros x [= <-] [= ->]. destruct (Hs eq_refl) as (rev & c & -> & Hf & Hcr & Hcomp). split; [done|]. eauto.
Qed.

(** The run that [gated] hands to the work. *)
Definition authorized (actor : text) (access : Access) (row : RunRow) : Prop :=
  (access.(active) = true → is_running row.(r_record) = true)
  ∧ (access.(coordinating) = true → row.(r_record).(coordinator) = Some actor).

Definition keeps {A} (actor : text) (access : Access) (work : RunRecord → T A) : Prop :=
  ∀ b row, board_inv b → b.(b_run) = Some row → authorized actor access row →
  wpb (work row.(r_record)) (λ _ b', advance b b') b.

Lemma authorize_no_panic r actor m access : authorize r actor m access ≠ Panic.
Proof. unfold authorize, refused. repeat case_match; done. Qed.

Lemma authorize_ok r actor m access u :
  authorize (Some r) actor m access = Ok u →
  (access.(active) = true → is_running r = true) ∧ (access.(coordinating) = true → r.(coordinator) = Some actor).
Proof.
  unfold authorize, refused. destruct (access.(coordinating)) eqn:Ec; simpl.
  - destruct (bool_decide _) eqn:Ed; simpl; [|done]. apply bool_decide_eq_true in Ed.
    destruct (negb _); [done|]. destruct (access.(active)); simpl; [|done]. by destruct (is_running r).
  - destruct (negb _); [done|]. destruct (access.(active)); simpl; [|done]. by destruct (is_running r).
Qed.

Lemma gate_advances b actor : board_inv b → wpb (gate actor) (λ _ b', advance b b') b.
Proof.
  intros Hb. unfold gate, run, member. do 4 wstep. wstep. apply wpb_lift; [apply authorize_no_panic|].
  intros u Ha. destruct (b_run b) as [row|] eqn:Hr; simpl; [|by apply wpb_ret, advance_refl].
  wsteps; [|by apply advance_refl]. apply wpb_end_run. intros es. rename Heqb0 into He.
  apply andb_true_iff in He as [Hrun _]. eapply advance_end; [done|done|done|set_solver|done].
Qed.

Lemma require_budget_no_panic r now : require_budget r now ≠ Panic.
Proof. unfold require_budget, refused. by case_match. Qed.

Lemma gated_advances {A} b actor access (work : RunRecord → T A) :
  keeps actor access work → board_inv b → wpb (gated actor access work) (λ _ b', advance b b') b.
Proof.
  intros Hw Hb. unfold gated, run, member. do 5 wstep. apply wpb_lift; [apply authorize_no_panic|].
  intros u Ha. wstep. apply wpb_ok_or. intros r Hr.
  destruct (b_run b) as [row|] eqn:Hrow; simpl in *; [|done]. injection Hr as <-.
  apply authorize_ok in Ha. wstep. destruct (active access) eqn:Eact; [wsteps|].
  - apply wpb_lift; [apply require_budget_no_panic|]. intros _ _. apply Hw; [done|done|].
    unfold authorized. by rewrite Eact.
  - wsteps. apply Hw; [done|done|]. unfold authorized. by rewrite Eact.
Qed.

(** * Shared parts of the work *)

Lemma wpb_update_run f (Q : unit → Board → Prop) b row :
  b.(b_run) = Some row → Q tt (set_run (Some (f row)) b) → wpb (update_run f) Q b.
Proof.
  intros Hr HQ. unfold update_run. wsteps; [by rewrite bool_decide_true by eauto|]. by rewrite Hr.
Qed.

Lemma wpb_unmet l ds (Q : bool → Board → Prop) b :
  b.(b_tasks) = l →
  (∀ x : bool, (x = false → ∀ z, int z ∈ ds → completed_in l z) → Q x b) → wpb (unmet ds) Q b.
Proof.
  intros <-. revert Q. induction ds as [|d ds IH]; intros Q HQ; simpl.
  - apply wpb_ret, HQ. intros _ z []%not_elem_of_nil.
  - wstep. unfold task_status. wsteps.
    + apply IH. intros x Hx. apply HQ. intros Hf z [Hd|Hz]%elem_of_cons; [|by apply Hx].
      subst d. apply bool_decide_eq_true in Heqb0. apply fmap_Some in Heqb0 as (t & Ht & Hs).
      apply task_found in Ht as [Ht Hc]. exists t. split_and!; [done| |done].
      simpl in H0. destruct (in_i64 z); [|done]. injection H0 as <-. simpl in Hc. congruence.
    + apply HQ. done.
Qed.

(** A task as it is shown: ready work with unmet dependencies is blocked. *)
Definition shown (t t' : TaskRow) : Prop :=
  t' = t ∨ t.(t_status) = TaskState.READY
           ∧ t' = with_state TaskState.BLOCKED t.(t_owner) t.(t_token) t.(t_evidence) (Some (tx "unmet dependencies")) t.

Lemma wpb_read_task id (Q : TaskRow → Board → Prop) b :
  (∀ c t t', loose 1 id = Ok c → List.find (task_with c) b.(b_tasks) = Some t → shown t t' → Q t' b) →
  wpb (read_task id) Q b.
Proof.
  intros HQ. unfold read_task, task. wsteps.
  - eapply wpb_unmet; [done|]. intros x _. wsteps. apply bool_decide_eq_true in Heqb0.
    eapply HQ; [done..|]. destruct x; [right|left]; done.
  - eapply HQ; [done..|]. by left.
Qed.

(** Its claim, when the token and the owner are the caller's. *)
Lemma wpb_owned id token actor (Q : TaskRow → Board → Prop) b :
  board_inv b →
  (∀ c t tok, loose 1 id = Ok c → List.find (task_with c) b.(b_tasks) = Some t → held_status t.(t_status) = true →
     t.(t_owner) = Some actor → t.(t_token) = Some tok → token = VString tok → Q t b) →
  wpb (owned id token actor) Q b.
Proof.
  intros Hb HQ. unfold owned. wstep. apply wpb_read_task. intros c t t' Hc Ht Hs. wsteps.
  apply andb_true_iff in Heqb0 as [[Htok Hown]%andb_true_iff Hheld].
  assert (t_owner t' = Some actor) as Ho.
  { destruct (t_owner t'); [|done]. simpl in Hown. apply bool_decide_eq_true in Hown. congruence. }
  assert (t' = t) as ->.
  { destruct Hs as [|[Hready ->]]; [done|]. simpl in Ho. apply task_found in Ht as [Ht _].
    pose proof (proj1 (list.Forall_forall _ _) (tasks_ok _ (inv_tasks _ Hb)) t Ht) as [_ Hok].
    unfold settled in Hok. rewrite Hready in Hok. simpl in Hok. destruct Hok as (_ & Hn & _). congruence. }
  destruct (t_token t) as [tok|] eqn:Et; [|].
  - destruct token; try done. simpl in Htok. apply bool_decide_eq_true in Htok. subst. eauto.
  - apply task_found in Ht as [Hin _].
    pose proof (proj1 (list.Forall_forall _ _) (tasks_ok _ (inv_tasks _ Hb)) t Hin) as [_ Hok].
    unfold settled in Hok. rewrite Hheld in Hok. simpl in Hok. destruct Hok as [_ [? Htk]]. congruence.
Qed.

Lemma wpb_run_on_task c f t (Q : unit → Board → Prop) b :
  List.find (task_with c) b.(b_tasks) = Some t →
  Q tt (set_tasks (change (task_with c) f b.(b_tasks)) b) → wpb (run_on_task c f) Q b.
Proof.
  intros Ht HQ. unfold run_on_task. wsteps; [by eapply find_exists|done].
Qed.

Lemma wpb_update_task_status id u c t (Q : unit → Board → Prop) b :
  loose 1 id = Ok c → List.find (task_with c) b.(b_tasks) = Some t →
  Q tt (set_tasks (change (task_with c) (updated u) b.(b_tasks)) b) → wpb (update_task_status id u) Q b.
Proof.
  intros Hc Ht HQ. unfold update_task_status. wstep.
  assert (∀ P : unit → Board → Prop, P tt b →
    wpb (match u with Submit e => lift (encoded e) ;; ret tt | _ => ret tt end) P b) as Hpre.
  { intros P HP. destruct u; try by apply wpb_ret. wsteps. done. }
  apply Hpre. wsteps. rewrite (loose_same _ _ _ _ _ Hc H0) in *.
  by eapply wpb_run_on_task.
Qed.
End steps.
