(* ===== verification/SwarmSafeMembers.v ===== *)
(** The invariant under the operations on members. *)

From stdpp Require Import gmap.
From S2P Require Import Prelude SwarmValue SwarmPolicy SwarmStore SwarmOperation SwarmMembers SwarmInv SwarmSteps.

Local Open Scope Z_scope.

Section members.
Context `{Engine}.

(** * A new run *)

Definition contract_ok (c : RunContract) : Prop :=
  1 <= c.(rc_member_limit) <= MEMBER_LIMIT_MAX ∧ f64_up c.(rc_deadline).

Lemma advance_fresh b row m :
  board_inv b → b.(b_run) = None → record_ok row.(r_record) → row.(r_record).(outcome) = None → member_ok m →
  advance b (set_members [m] (set_run (Some row) b)).
Proof.
  intros Hb Hr Hok Ho Hm. destruct Hb as [Hri _ Ht Hf Hmsg He Hq _]. rewrite Hr in *. simpl in Hri. split.
  - constructor; try done; cbn.
    + split; [done|]. destruct Hok as (_ & _ & _ & Hl). unfold alive_count. simpl. destruct (alive m); simpl; lia.
    + split; [apply NoDup_singleton|by apply Forall_singleton].
    + intros e Hin Ha. destruct (He e Hin Ha) as (? & ? & _). done.
    + apply success_not. congruence.
  - constructor; try done; cbn; try (apply rows_evolve_refl, _); [by rewrite Hr|]. rewrite Hri. by intros x ?%not_elem_of_nil.
Qed.

Lemma wpb_insert_run id c coordinator integrator status (Q : unit → Board → Prop) b :
  (∀ row, row.(r_record) = {| SwarmPolicy.status := Some status; SwarmPolicy.coordinator := Some coordinator;
                      deadline := c.(rc_deadline); member_limit := c.(rc_member_limit);
                      outcome := None; outcome_reason := None |} → Q tt (set_run (Some row) b)) →
  wpb (insert_run id c coordinator integrator status) Q b.
Proof. intros HQ. unfold insert_run. wsteps. by apply HQ. Qed.

Lemma insert_member_fresh id reservation status p s k (Q : unit → Board → Prop) b :
  b.(b_members) = [] → (∀ m, m.(mr_status) = Some status → Q tt (set_members [m] b)) →
  wpb (insert_member id reservation status p s k) Q b.
Proof. intros Hm HQ. unfold insert_member, insert_member_row. rewrite ?Hm. wsteps. rewrite Hm. by apply HQ. Qed.

Lemma inv_no_run b : board_inv b → b.(b_run) = None → b.(b_members) = [].
Proof. intros [Hr _ _ _ _ _ _ _] Hb. by rewrite Hb in Hr. Qed.

Lemma fresh_record_ok c coordinator status :
  contract_ok c → status = RunState.SETUP ∨ status = RunState.RUNNING →
  record_ok {| SwarmPolicy.status := Some status; SwarmPolicy.coordinator := Some coordinator;
               deadline := c.(rc_deadline); member_limit := c.(rc_member_limit);
               outcome := None; outcome_reason := None |}.
Proof.
  intros [Hl Hd] Hs. split_and!; [|by eexists|done|apply Hl..]. exists status. split; [done|]. by destruct Hs as [-> | ->].
Qed.

Lemma live_ok m : m.(mr_status) = Some MemberState.LIVE → member_ok m.
Proof. by left. Qed.

Lemma insert_fresh_advances b member c :
  board_inv b → b.(b_run) = None → contract_ok c → wpb (insert_fresh member c) (λ _ b', advance b b') b.
Proof.
  intros Hb Hr Hc. unfold insert_fresh. wsteps. apply wpb_insert_run. intros row Hrow. wsteps.
  apply insert_member_fresh; [exact (inv_no_run b Hb Hr)|]. intros m Hm.
  apply advance_fresh; [done..| | |by apply live_ok]; rewrite Hrow; [|done]. apply fresh_record_ok; auto.
Qed.

Lemma bootstrap_advances b member p s k :
  board_inv b → wpb (bootstrap_work member p s k) (λ _ b', advance b b') b.
Proof.
  intros Hb. unfold bootstrap_work, run_exists. wsteps; [by apply advance_refl|].
  assert (b_run b = None) as Hr. { destruct (b_run b); [|done]. apply bool_decide_eq_false in Heqb0. naive_solver. }
  apply wpb_insert_run. intros row Hrow. wsteps.
  apply insert_member_fresh; [exact (inv_no_run b Hb Hr)|]. intros m Hm. wsteps. apply advance_event.
  apply advance_fresh; [done..| | |by apply live_ok]; rewrite Hrow; [|done]. apply fresh_record_ok; [by split|auto].
Qed.

Lemma not_dead_alive l :
  Forall member_ok l →
  List.filter (λ m, match m.(mr_status) with Some MemberState.DEAD | None => false | Some _ => true end) l = List.filter alive l.
Proof.
  induction 1 as [|m l Hm _ IH]; [done|]. simpl. rewrite IH. unfold alive, status_is_alive.
  by destruct Hm as [-> | [-> | ->]].
Qed.

Lemma take_over_setup_advances b member row c :
  board_inv b → b.(b_run) = Some row → contract_ok c →
  wpb (take_over_setup member row.(r_record) c) (λ _ b', advance b b') b.
Proof.
  intros Hb Hr [Hl Hd]. unfold take_over_setup, not_dead, update_run_contract. wsteps. rewrite Hr. simpl.
  apply negb_false_iff, andb_true_iff in Heqb0 as [Hs%bool_decide_eq_true Hc].
  pose proof (inv_record b row Hb Hr) as Hok. pose proof (outcome_of _ _ Hok Hs) as Ho. simpl in Ho.
  rewrite not_dead_alive in Heqb1 by apply Hb. apply Z.ltb_ge in Heqb1.
  eapply advance_run; [done|done|done|done| |done| |]; cbn.
  - destruct Hok as (_ & Hco & _). unfold record_ok. cbn. split_and!; [|done..|apply Hl|apply Hl]. by exists RunState.RUNNING.
  - rewrite Hs. right. by left.
  - apply success_not. cbn. congruence.
Qed.

Lemma create_advances b q c :
  board_inv b → contract_ok c → wpb (create_work q c) (λ _ b', advance b b') b.
Proof.
  intros Hb Hc. unfold create_work, run. do 3 wstep. destruct (b_run b) as [row|] eqn:Hr; cbn [fmap option_fmap option_map].
  - wstep. eapply wpb_mono; [by apply take_over_setup_advances|]. intros ? b' Hb'. wsteps. by apply advance_event.
  - wstep. eapply wpb_mono; [by apply insert_fresh_advances|]. intros ? b' Hb'. wsteps. by apply advance_event.
Qed.

(** * Members that join *)

(** Members whose rows change keep the run within its limit. *)
Lemma advance_change_members b id f :
  board_inv b → is_Some b.(b_run) →
  (∀ m, m ∈ b.(b_members) → member_named id m = true →
     member_evolves m (f m) ∧ member_ok (f m) ∧ (alive (f m) = true → alive m = true)) →
  (∀ m, mr_id (f m) = mr_id m) →
  advance b (set_members (change (member_named id) f b.(b_members)) b).
Proof.
  intros Hb [row Hr] Hf Hid. apply advance_members; [done| | |].
  - rewrite Hr. split; [by eapply inv_record|]. etrans; [|by eapply inv_limit].
    apply alive_change. intros m Hm Hn. by apply Hf.
  - apply members_change; [apply Hb|done|]. intros. by apply Hf.
  - apply members_evolve_change. intros. by apply Hf.
Qed.

Lemma admission_no_panic r prior reservation n now : record_ok r → admission r prior reservation n now ≠ Panic.
Proof.
  intros (_ & _ & _ & Hl1 & Hl2). change MEMBER_LIMIT_MAX with 25 in Hl2. unfold admission, refused.
  rewrite (proj2 (Z.leb_le _ _) Hl1), (proj2 (Z.leb_le _ _) Hl2). simpl. repeat case_match; done.
Qed.

Lemma admission_fresh r prior reservation n now :
  admission r prior reservation n now = Ok true → n < r.(member_limit).
Proof.
  unfold admission, refused, assert_that. destruct (member_limit r <=? n) eqn:E; [|intros; lia].
  repeat case_match; simpl; done.
Qed.

Lemma admit_keeps actor member reservation : keeps actor default_access (admit_work actor member reservation).
Proof.
  intros b row Hb Hr Ha. unfold admit_work, SwarmStore.member, usage. wsteps.
  apply wpb_lift; [by eapply admission_no_panic, inv_record|]. intros fresh Hfresh. wstep.
  assert (∀ P : AdmissionDecision → Board → Prop,
    (∀ d b', advance b b' → P d b') →
    wpb (if fresh then reserve_member member reservation actor ;;
                       record actor "reserved" (detail [("member"%string, VString member)]) ;; ret Reserved
         else ret Retry) P b) as Hreserve.
  { intros P HP. destruct fresh; [|by apply wpb_ret, HP, advance_refl].
    unfold reserve_member, insert_member_row. wsteps. apply HP, advance_event.
    apply advance_members; [done| | |by apply rows_evolve_app, _].
    - rewrite Hr. split; [by eapply inv_record|]. unfold alive_count. rewrite filter_count_app.
      apply admission_fresh in Hfresh. simpl. unfold alive. lia.
    - apply members_insert; [apply Hb|done|]. right. by left. }
  apply Hreserve. intros d b' Hb'. unfold member_row. wsteps; [|done].
  apply find_elem in H2 as [_ Hn]. apply member_named_iff in Hn. injection H1 as <-. simpl in Hn.
  apply bool_decide_eq_true. congruence.
Qed.

Lemma activate_keeps actor member reservation launch socket :
  keeps actor default_access (activate_work actor member reservation launch socket).
Proof.
  intros b row Hb Hr Ha. unfold activate_work, member_row. wsteps. unfold activate_member, update_members. wsteps.
  apply advance_event. rewrite (loose_same _ _ _ _ _ H0 H4) in *.
  apply negb_false_iff, andb_true_iff in Heqb1 as [_ Halive].
  apply (advance_change_members b (text_affinity _) (activate_row _ _ _)); [done|by eauto| |done].
  intros m' Hm' Hn. rewrite (member_found _ _ _ _ (inv_members _ Hb) Heqo Hm' Hn). split_and!; [|by left|done].
  split_and!; [done..|]. intros Hd. unfold alive in Halive. by rewrite Hd in Halive.
Qed.

Lemma record_launch_keeps actor member reservation launch :
  keeps actor default_access (record_launch_work member reservation launch).
Proof.
  intros b row Hb Hr Ha. unfold record_launch_work, member_row. wsteps. unfold record_launch, update_members. wsteps.
  apply (advance_change_members b (text_affinity _) (launch_row _ _)); [done|by eauto| |done].
  intros m' Hm' Hn. split_and!; [done| |done]. exact (proj1 (list.Forall_forall _ _) (proj2 (inv_members _ Hb)) m' Hm').
Qed.

(** A member marked dead. *)
Lemma advance_dead b id :
  board_inv b → is_Some b.(b_run) → advance b (set_members (change (member_named id) dead_row b.(b_members)) b).
Proof.
  intros Hb Hr. apply (advance_change_members b id dead_row); [done|done| |done].
  intros m Hm Hn. split_and!; [done|by right; right|done].
Qed.

Lemma release_unlaunched_keeps actor member : keeps actor default_access (release_unlaunched_work actor member).
Proof.
  intros b row Hb Hr Ha. unfold release_unlaunched_work, member_row, mark_member_dead, update_members. wsteps.
  apply advance_event, advance_dead; [done|by eauto].
Qed.

Lemma register_socket_keeps actor socket : keeps actor default_access (register_socket_work actor socket).
Proof.
  intros b row Hb Hr Ha. unfold register_socket_work, set_socket, update_members. wsteps.
  apply (advance_change_members b (Some actor) (socket_row _)); [done|by eauto| |done].
  intros m' Hm' Hn. split_and!; [done| |done]. exact (proj1 (list.Forall_forall _ _) (proj2 (inv_members _ Hb)) m' Hm').
Qed.

(** * Deaths and losses *)

Lemma losable_iff r : losable r = true →
  r.(status) = Some RunState.SETUP ∨ r.(status) = Some RunState.RUNNING
  ∨ r.(status) = Some RunState.PAUSED ∧ holds_outcome r = false.
Proof. unfold losable. repeat case_match; rewrite ?negb_true_iff; auto; done. Qed.

Lemma not_held r : record_ok r → r.(status) = Some RunState.PAUSED → holds_outcome r = false → r.(outcome) = None.
Proof.
  intros Hok Hs Hh. pose proof (outcome_of r _ Hok Hs) as Ho. unfold holds_outcome in Hh.
  destruct (outcome r) as [o|]; [|done]. simpl in Ho. exfalso. unfold PROPOSED_OUTCOMES in Ho.
  rewrite !elem_of_cons, elem_of_nil in Ho. destruct Ho as [->|[->|[->|[->|[]]]]]; by vm_compute in Hh.
Qed.

Lemma end_by_loss_advances b row actor reason :
  board_inv b → b.(b_run) = Some row →
  wpb (end_by_loss actor row.(r_record) reason) (λ x b', advance b b' ∧ (losable row.(r_record) = true → x = true)) b.
Proof.
  intros Hb Hr. unfold end_by_loss. pose proof (inv_record b row Hb Hr) as Hok.
  destruct (status (r_record row)) as [s|] eqn:Hs; [|].
  2:{ wsteps. split; [by apply advance_refl|]. unfold losable. by rewrite Hs. }
  destruct Hok as (_ & Hco & Hd & Hl).
  destruct s; try by (wsteps; split; [by apply advance_refl|]; unfold losable; rewrite Hs).
  - unfold set_outcome. wstep. eapply wpb_update_run; [done|]. wsteps. split; [|done]. apply advance_event.
    eapply advance_run; [done|done|done|done| |exact (inv_limit b row Hb Hr)| |].
    + pose proof (outcome_of _ _ (inv_record b row Hb Hr) Hs). split; [|done]. exists RunState.FAILED. split; [done|]. by left.
    + rewrite Hs. right. by left.
    + pose proof (outcome_of _ _ (inv_record b row Hb Hr) Hs) as Ho. simpl in Ho. apply success_not. simpl. congruence.
  - wstep. apply wpb_end_run. intros es. wsteps. split; [|done].
    eapply advance_end; [done|done|by apply is_running_iff|set_solver|done].
  - destruct (holds_outcome (r_record row)) eqn:Hh.
    + wsteps. split; [by apply advance_refl|]. unfold losable. by rewrite Hs, Hh.
    + unfold hold_failed. wstep. eapply wpb_update_run; [done|]. wsteps. split; [|done]. apply advance_event.
      eapply advance_run; [done|done|done|done| |exact (inv_limit b row Hb Hr)| |].
      * split; [|done]. exists RunState.PAUSED. split; [done|]. simpl. set_solver.
      * by left.
      * by apply success_not.
Qed.

Lemma lose_keeps actor : keeps actor default_access (lose_work actor).
Proof.
  intros b row Hb Hr Ha. unfold lose_work. wstep.
  assert (∀ b' (Q : RunRecord * bool → Board → Prop), (∀ x, Q x b') →
    wpb (now <- current ;; ret (now, losable (r_record row))) Q b') as Hread.
  { intros b' Q HQ. unfold current, run. wsteps. apply HQ. }
  destruct (losable (r_record row)) eqn:El; [|wstep; apply Hread; intros; by apply advance_refl].
  do 3 wstep. eapply wpb_then; [by apply advance_event, advance_refl|by intros Hb1; apply end_by_loss_advances|].
  intros x b' Hb' Hx. rewrite Hx by done. wstep; [done|]. apply Hread. by intros _.
Qed.

Lemma completion_completed c ev tasks hr rev s :
  completion c ev tasks hr rev = Ok s → ∀ t, t ∈ tasks → t.(tr_status) = TaskState.COMPLETED.
Proof.
  unfold completion, refused. destruct (completion_revision rev); simpl; [|done|done].
  case_match; [done|]. destruct (negb (_ && forallb _ tasks)) eqn:E; [done|]. intros _ t Ht.
  apply negb_false_iff, andb_true_iff in E as [_ E]. rewrite forallb_forall in E.
  apply list_elem_of_In in Ht. apply E in Ht. by apply bool_decide_eq_true in Ht.
Qed.

Lemma advance_delete b (p : FileRow → bool) :
  board_inv b → advance b (set_files (List.filter (λ f, negb (p f)) b.(b_files)) b).
Proof.
  intros Hb. apply advance_files; [done|apply files_delete_same, Hb|].
  intros row Hr Ho. destruct (inv_success _ Hb row Hr Ho) as [-> Hs]. done.
Qed.

(** Work whose owner died is blocked, and keeps its claim. *)
Lemma advance_block b o blocker :
  board_inv b →
  advance b (set_tasks ((λ t, if text_equal t.(t_owner) o && held_status t.(t_status)
                              then updated (Block blocker) t else t) <$> b.(b_tasks)) b).
Proof.
  intros Hb. set (g := λ t : TaskRow, if text_equal t.(t_owner) o && held_status t.(t_status)
                                     then updated (Block blocker) t else t).
  assert (∀ t, t ∈ b_tasks b → task_evolves t (g t) ∧ task_ok (g t) ∧ settled (g t) = settled t
            ∧ t_dependencies (g t) = t_dependencies t ∧ (∀ f, reserved_by f t → reserved_by f (g t))) as Hg.
  { intros t Ht. subst g. simpl.
    pose proof (proj1 (list.Forall_forall _ _) (tasks_ok _ (inv_tasks _ Hb)) t Ht) as [Hds Hok].
    destruct (text_equal _ _ && held_status _) eqn:E; [|done].
    apply andb_true_iff in E as [_ E]. assert (settled t = true) as Hst by (unfold settled; by rewrite E).
    rewrite Hst in *. split_and!; [|by split|done|done|].
    - split_and!; [done..|]. intros Hc. by rewrite Hc in E.
    - intros f (?&?&?&?). by split. }
  apply advance_tasks; [done| | | |].
  - apply tasks_map; [apply Hb|intros; split; by apply Hg|]. intros t z Ht Hs Hd.
    destruct (Hg t Ht) as (_ & _ & Hs' & Hd' & _). eapply tasks_order; [apply Hb|exact Ht|congruence|].
    unfold depends_on, dependencies_of in *. by rewrite <-Hd'.
  - destruct (inv_files _ Hb) as [? ? Hc]. split; [done..|]. intros f Hf. destruct (Hc f Hf) as (t & Ht & Hres).
    exists (g t). split; [by apply list_elem_of_fmap_2|]. by apply Hg.
  - intros row Hr Ho. destruct (inv_success _ Hb row Hr Ho) as (-> & rev & c & Hre & Hcr & Hcomp). split; [done|].
    exists rev, c. split_and!; [done..|]. replace (g <$> b_tasks b) with (b_tasks b); [done|].
    symmetry. etrans; [|apply list_fmap_id]. apply list_fmap_ext. intros i t Ht%list_elem_of_lookup_2.
    pose proof (completion_completed _ _ _ _ _ _ Hcomp (task_record t) ltac:(by apply list_elem_of_fmap_2)) as Hc.
    subst g. simpl in *. rewrite Hc. by rewrite andb_false_r.
  - apply rows_evolve_map. intros t Ht. by apply Hg.
Qed.

Lemma confirm_dead_keeps actor member exit : keeps actor default_access (confirm_dead_work actor member exit).
Proof.
  intros b row Hb Hr Ha.
  unfold confirm_dead_work, member_status, mark_member_dead, update_members, block_owned_tasks, owner_file_count.
  unfold delete_owner_files, delete_files.
  wsteps; [by apply advance_refl|by apply Z.leb_le; lia|..].
  all: match goal with
       | |- advance _ _ => apply advance_event
       | _ => eapply wpb_then; [apply advance_event|by intros ?; apply end_by_loss_advances|by intros; wsteps]
       end.
  all: match goal with
       | |- advance _ (set_files _ _) => eapply advance_trans; [|apply advance_delete]
       | _ => idtac
       end.
  all: eapply advance_trans; [apply advance_dead; [done|by eauto]|apply advance_block].
Qed.

(** * Quarantine *)

Lemma wpb_lost member (Q : bool → Board → Prop) b : (∀ x, Q x b) → wpb (lost member) Q b.
Proof. intros HQ. unfold lost, member_status, lost_after_activation. wsteps; apply HQ. Qed.

Lemma wpb_grace_elapsed actor member (Q : bool → Board → Prop) b :
  board_inv b → (∀ x b', advance b b' → b'.(b_run) = b.(b_run) → Q x b') → wpb (grace_elapsed actor member) Q b.
Proof.
  intros Hb HQ. unfold grace_elapsed, scope_observations. wsteps; apply HQ; try done; repeat apply advance_event; by apply advance_refl.
Qed.

Lemma quarantine_record_advances b b1 row actor member :
  advance b b1 → b1.(b_run) = Some row →
  wpb (quarantine_record actor member row.(r_record)) (λ _ b', advance b b') b1.
Proof.
  intros Hb Hr. unfold quarantine_record. wsteps.
  eapply wpb_then; [by apply advance_event|by intros ?; apply end_by_loss_advances|by intros; wsteps].
Qed.

Lemma quarantine_keeps actor member : keeps actor default_access (quarantine_work actor member).
Proof.
  intros b row Hb Hr Ha. unfold quarantine_work. wstep. apply wpb_lost. intros l.
  destruct l; [by wsteps; apply advance_refl|].
  assert (wpb (elapsed <- grace_elapsed actor member ;;
               if negb elapsed then ret GracePending else quarantine_record actor member row.(r_record))
            (λ _ b', advance b b') b) as Hgrace.
  { wstep. apply wpb_grace_elapsed; [done|]. intros x b' Hb' Hr'. wsteps; [done|].
    apply quarantine_record_advances; congruence. }
  unfold member_launcher. do 4 wstep.
  destruct (mr_launcher <$> _) as [[launcher|]|]; [|by apply quarantine_record_advances; [apply advance_refl|]..].
  wstep. destruct (bool_decide _); [by wstep|]. apply wpb_lost. intros x. cbv beta.
  destruct x; [done|]. by apply wpb_ret, advance_refl.
Qed.
End members.
