(* ===== verification/SwarmSafeTasks.v ===== *)
(** The invariant under the operations on tasks and files. *)

From stdpp Require Import gmap.
From S2P Require Import Prelude SwarmValue SwarmPolicy SwarmDependencies SwarmStore SwarmOperation SwarmTasks SwarmInv SwarmSteps SwarmSafeMembers.

Local Open Scope Z_scope.

Section tasks.
Context `{Engine}.

(** * One task changes *)

Lemma inv_task b t : board_inv b → t ∈ b.(b_tasks) → task_ok t.
Proof. intros Hb Ht. exact (proj1 (list.Forall_forall _ _) (tasks_ok _ (inv_tasks _ Hb)) t Ht). Qed.

Lemma inv_order b t z : board_inv b → t ∈ b.(b_tasks) → settled t = true → depends_on t z → completed_in b.(b_tasks) z.
Proof. intros Hb. apply (tasks_order _ (inv_tasks _ Hb)). Qed.

(** A task's new row is fit to replace it. *)
Definition fit (b : Board) (t t' : TaskRow) : Prop :=
  task_evolves t t' ∧ task_ok t' ∧ ∀ z, settled t' = true → depends_on t' z → completed_in b.(b_tasks) z.

(** The work is under way, and the row [t] is the one its id finds. *)
Definition at_work (b : Board) (row : RunRow) (c : Cell) (t : TaskRow) : Prop :=
  board_inv b ∧ b.(b_run) = Some row ∧ is_running row.(r_record) = true ∧ List.find (task_with c) b.(b_tasks) = Some t.

Lemma advance_claim b row c f t (p : FileRow → bool) :
  at_work b row c t → fit b t (f t) → (∀ fl, reserved_by fl t → p fl = true ∨ reserved_by fl (f t)) →
  advance b (set_files (List.filter (λ fl, negb (p fl)) b.(b_files)) (set_tasks (change (task_with c) f b.(b_tasks)) b)).
Proof.
  intros (Hb & Hr & Hrun & Ht) (He & Hok & Ho) Hp.
  destruct (tasks_change _ c f t (inv_tasks _ Hb) Ht He Hok Ho) as [Hinv Hev].
  apply advance_work; [done|done| |by eapply success_running|done].
  eapply files_change; [apply Hb|apply Hb|done|done].
Qed.

Lemma advance_task b row c f t :
  at_work b row c t → fit b t (f t) → (∀ fl, reserved_by fl t → reserved_by fl (f t)) →
  advance b (set_tasks (change (task_with c) f b.(b_tasks)) b).
Proof.
  intros (Hb & Hr & Hrun & Ht) (He & Hok & Ho) Hp.
  destruct (tasks_change _ c f t (inv_tasks _ Hb) Ht He Hok Ho) as [Hinv Hev].
  apply advance_tasks; [done|done| |by eapply success_running|done].
  eapply files_change_keep; [apply Hb|apply Hb|done|done].
Qed.

(** The rows the updates of a claim leave. *)
Lemma fit_settled b t t' :
  board_inv b → t ∈ b.(b_tasks) → t.(t_status) ≠ TaskState.COMPLETED →
  t'.(t_id) = t.(t_id) → t'.(t_title) = t.(t_title) → t'.(t_acceptance) = t.(t_acceptance) →
  t'.(t_dependencies) = t.(t_dependencies) →
  (if settled t' then is_Some t'.(t_owner) ∧ is_Some t'.(t_token) ∧ settled t = true
   else t'.(t_status) = TaskState.READY ∧ t'.(t_owner) = None ∧ t'.(t_token) = None) →
  fit b t t'.
Proof.
  intros Hb Ht Hc H1 H2 H3 H4 Hs. destruct (inv_task b t Hb Ht) as [Hds _]. split_and!.
  - by split_and!.
  - split; [by rewrite H4|]. destruct (settled t'); naive_solver.
  - intros z Hset Hz. rewrite Hset in Hs. eapply inv_order; [done|exact Ht|naive_solver|].
    unfold depends_on, dependencies_of in *. by rewrite <-H4.
Qed.

Lemma held_settled t : held_status t.(t_status) = true → settled t = true.
Proof. unfold settled. by intros ->. Qed.

Lemma held_open t : held_status t.(t_status) = true → t.(t_status) ≠ TaskState.COMPLETED.
Proof. by intros Hh Hc; rewrite Hc in Hh. Qed.

Lemma ready_unreserved t f : t.(t_status) = TaskState.READY → ¬ reserved_by f t.
Proof. intros Hs (_ & Hh & _). by rewrite Hs in Hh. Qed.

Lemma shown_ready t t' : shown t t' → t'.(t_status) = TaskState.READY → t' = t.
Proof. by intros [|[_ ->]]. Qed.

(** What is shown with an owner is the row itself. *)
Lemma shown_owned b t t' : board_inv b → t ∈ b.(b_tasks) → shown t t' → is_Some t'.(t_owner) → t' = t.
Proof.
  intros Hb Ht [|[Hs ->]] [o Ho]; [done|]. simpl in Ho. destruct (inv_task b t Hb Ht) as [_ Hok].
  unfold settled in Hok. rewrite Hs in Hok. simpl in Hok. destruct Hok as (_ & Hn & _). congruence.
Qed.

Lemma shown_unready t t' : t.(t_status) ≠ TaskState.READY → shown t t' → t' = t.
Proof. by intros Hs [|[? _]]. Qed.

(** Reading back a row the work has just written. *)
Lemma wpb_read_back id c t (Q : TaskRow → Board → Prop) b :
  loose 1 id = Ok c → List.find (task_with c) b.(b_tasks) = Some t → (∀ t', shown t t' → Q t' b) → wpb (read_task id) Q b.
Proof.
  intros Hc Ht HQ. apply wpb_read_task. intros c' u u' Hc' Hu Hs.
  assert (c' = c) as -> by congruence. assert (u = t) as -> by congruence. by apply HQ.
Qed.

(** The change of a row found by its id is found by it. *)
Lemma find_updated c f l t :
  (∀ x, t_id (f x) = t_id x) → List.find (task_with c) l = Some t → List.find (task_with c) (change (task_with c) f l) = Some (f t).
Proof. intros Hid. apply find_change. intros y. unfold task_with. by rewrite Hid. Qed.

Lemma wpb_changed id c t s (Q : TaskChange → Board → Prop) b :
  loose 1 id = Ok c → List.find (task_with c) b.(b_tasks) = Some t → t.(t_status) = s → s ≠ TaskState.READY →
  (∀ x, Q x b) → wpb (changed id s) Q b.
Proof.
  intros Hc Ht <- Hs HQ. unfold changed. wstep. eapply wpb_read_back; [done..|]. intros t' Ht'.
  apply shown_unready in Ht'; [|done]. subst t'. wsteps; [by apply bool_decide_eq_true|done].
Qed.

(** * [claim], [release], [block], [unblock], [submit] *)

Lemma claim_keeps actor id : keeps actor running_access (claim_work actor id).
Proof.
  intros b row Hb Hr [Hrun _]. specialize (Hrun eq_refl). unfold claim_work, update_task_claim. wstep.
  apply wpb_read_task. intros c t t' Hc Ht Hs. wstep. eapply wpb_unmet; [done|]. intros u Hu. wsteps; [done|].
  apply negb_false_iff, bool_decide_eq_true in Heqb1. pose proof (shown_ready _ _ Hs Heqb1). subst t'.
  rewrite (loose_same _ _ _ _ _ H1 Hc) in *. eapply wpb_run_on_task; [done|]. wsteps.
  eapply wpb_read_back; [done|by apply find_updated; [|exact Ht]|]. intros t' Ht'.
  apply shown_unready in Ht'; [|done]. subst t'. wsteps.
  - by rewrite !bool_decide_true.
  - apply advance_event. eapply (advance_task _ _ _ (claim_row actor _)); [by split_and!| |].
    + pose proof (task_found _ _ _ Ht) as [Hin _]. destruct (inv_task b t Hb Hin) as [Hds _]. split_and!.
      * split_and!; [done..|]. by rewrite Heqb1.
      * by split_and!.
      * intros z _. by apply Hu.
    + intros fl Hfl. by apply ready_unreserved in Hfl.
Qed.

(** The files of a claim, by its task and its token. *)
Lemma claim_files t c f tok : integer_affinity c = CInteger t.(t_id) → t.(t_token) = Some tok → reserved_by f t →
  of_task c f && text_equal f.(f_claim) (Some tok) = true.
Proof.
  intros Hc Ht (Hf & _ & _ & Hcl). apply andb_true_iff. split.
  - unfold of_task. rewrite Hf, Hc. simpl. lia.
  - apply text_equal_iff. exists tok. split; congruence.
Qed.

Lemma wpb_delete_claim_files id tok c (Q : unit → Board → Prop) b :
  loose 1 id = Ok c →
  Q tt (set_files (List.filter (λ f, negb (of_task c f && text_equal f.(f_claim) (Some tok))) b.(b_files)) b) →
  wpb (delete_claim_files id (VString tok)) Q b.
Proof.
  intros Hc HQ. unfold delete_claim_files, delete_files. wsteps. assert (c0 = c) as -> by congruence.
  by injection H1 as <-.
Qed.

Lemma release_keeps actor id token : keeps actor running_access (release_work actor id token).
Proof.
  intros b row Hb Hr [Hrun _]. specialize (Hrun eq_refl). unfold release_work. wstep. apply wpb_owned; [done|].
  intros c t tok Hc Ht Hh Ho Htok ->. pose proof (task_found _ _ _ Ht) as [Hin Hca].
  wstep. eapply wpb_update_task_status; [done..|]. wstep. eapply wpb_delete_claim_files; [done|]. wsteps.
  eapply wpb_read_back; [done|by apply find_updated; [|exact Ht]|]. intros t' Ht'. wsteps.
  - by destruct Ht' as [->|[_ ->]].
  - apply advance_event. eapply (advance_claim b row c (updated Release) t); [by split_and!| |].
    + apply fit_settled; try done. by apply held_open.
    + intros fl Hfl. left. by eapply claim_files.
Qed.

Lemma require_unsubmitted_no_panic s : require_unsubmitted s ≠ Panic.
Proof. by destruct s. Qed.

Lemma wpb_unsubmitted t (Q : unit → Board → Prop) b :
  held_status t.(t_status) = true → (∀ u, require_unsubmitted t.(t_status) = Ok u → Q tt b) → wpb (unsubmitted t) Q b.
Proof.
  intros Hh HQ. unfold unsubmitted. wsteps; [done|]. apply wpb_lift; [apply require_unsubmitted_no_panic|].
  intros [] Hu. eauto.
Qed.

(** A claim that changes and stays with its owner. *)
Lemma advance_held b row c t u :
  at_work b row c t → held_status t.(t_status) = true → held_status (updated u t).(t_status) = true →
  t_owner (updated u t) = t_owner t → t_token (updated u t) = t_token t →
  advance b (set_tasks (change (task_with c) (updated u) b.(b_tasks)) b).
Proof.
  intros Hw Hh Hh' Ho Htk. pose proof Hw as (Hb & _ & _ & Ht). pose proof (task_found _ _ _ Ht) as [Hin _].
  destruct (inv_task b t Hb Hin) as [_ Hok]. rewrite held_settled in Hok by done.
  eapply advance_task; [done| |].
  - apply fit_settled; try done; [by apply held_open|by destruct u..|].
    rewrite (held_settled (updated u t)) by done. rewrite Ho, Htk. split_and!; [apply Hok..|by apply held_settled].
  - intros fl (?&?&?&?). split_and!; [by destruct u|done|congruence..].
Qed.

(** What the work of [block], [unblock] and [submit] does once it has found its claim. *)
Lemma wpb_transition b row c t actor id action d u s :
  at_work b row c t → loose 1 id = Ok c → held_status t.(t_status) = true → held_status (updated u t).(t_status) = true →
  t_owner (updated u t) = t_owner t → t_token (updated u t) = t_token t → t_status (updated u t) = s →
  wpb (update_task_status id u ;; record actor action d ;; changed id s) (λ _ b', advance b b') b.
Proof.
  intros Hw Hc Hh Hh' Ho Htk Hs. pose proof Hw as (Hb & _ & _ & Ht). wstep.
  eapply wpb_update_task_status; [done..|]. wsteps.
  eapply wpb_changed; [done|by apply find_updated; [by destruct u|exact Ht]|done|by intros ->; rewrite Hs in Hh'|].
  intros _. apply advance_event. by eapply advance_held.
Qed.

Lemma block_keeps actor id token reason : keeps actor running_access (block_work actor id token reason).
Proof.
  intros b row Hb Hr [Hrun _]. specialize (Hrun eq_refl). unfold block_work. wstep. apply wpb_owned; [done|].
  intros c t tok Hc Ht Hh Ho Htok ->. wstep. apply wpb_unsubmitted; [done|]. intros _ _.
  case_match; [by apply wpb_ret, advance_refl|]. by eapply wpb_transition.
Qed.

Lemma unblock_keeps actor id token reason : keeps actor running_access (unblock_work actor id token reason).
Proof.
  intros b row Hb Hr [Hrun _]. specialize (Hrun eq_refl). unfold unblock_work. wstep. apply wpb_owned; [done|].
  intros c t tok Hc Ht Hh Ho Htok ->. case_match; try apply wpb_throw; [by apply wpb_ret, advance_refl|].
  eapply wpb_transition; try done. congruence.
Qed.

Lemma submit_keeps actor id token evidence : keeps actor running_access (submit_work actor id token evidence).
Proof.
  intros b row Hb Hr [Hrun _]. specialize (Hrun eq_refl). unfold submit_work. wstep. apply wpb_owned; [done|].
  intros c t tok Hc Ht Hh Ho Htok ->. case_match; [by apply wpb_ret, advance_refl|].
  wstep. apply wpb_unsubmitted; [done|]. intros _ _. by eapply wpb_transition.
Qed.

(** * [verify], [revalidate] *)

Lemma current_revision_no_panic t revision : current_revision t revision ≠ Panic.
Proof.
  unfold current_revision, refused. destruct (t_evidence t) as [| | | |entries|]; try done.
  induction entries as [|e entries IH]; simpl; [done|]. unfold refused. by repeat case_match.
Qed.

Lemma carried_plan_no_panic t revision confirmed : carried_plan t revision confirmed ≠ Panic.
Proof.
  unfold carried_plan. destruct (current_revision t revision) eqn:E; [done| |by apply current_revision_no_panic in E].
  unfold carry. repeat (case_match; simpl); done.
Qed.

(** Evidence is carried only onto a submission. *)
Lemma carried_plan_submitted t revision confirmed p :
  carried_plan t revision confirmed = Ok (inl (Some p)) → t.(t_status) = TaskState.SUBMITTED.
Proof.
  unfold carried_plan. destruct (current_revision t revision); try done.
  unfold carry. destruct (bool_decide _) eqn:E; [|done]. intros _. by apply bool_decide_eq_true in E.
Qed.

Lemma wpb_replace_task_evidence id e c t (Q : unit → Board → Prop) b :
  loose 1 id = Ok c → List.find (task_with c) b.(b_tasks) = Some t →
  Q tt (set_tasks (change (task_with c) (with_evidence e) b.(b_tasks)) b) → wpb (replace_task_evidence id e) Q b.
Proof.
  intros Hc Ht HQ. unfold replace_task_evidence. wsteps. rewrite (loose_same _ _ _ _ _ H0 Hc) in *.
  by eapply wpb_run_on_task.
Qed.

Lemma advance_replace b row c t e :
  at_work b row c t → advance b (set_tasks (change (task_with c) (with_evidence e) b.(b_tasks)) b).
Proof.
  intros Hw. pose proof Hw as (Hb & _ & _ & Ht). pose proof (task_found _ _ _ Ht) as [Hin _].
  eapply advance_task; [done| |by intros fl (?&?&?&?)]. split_and!; [done|exact (inv_task b t Hb Hin)|].
  intros z Hs Hz. by eapply inv_order.
Qed.

(** The last steps of [verify], from the board that holds the carried evidence. *)
Lemma complete_advances b b1 row c t id tok actor d :
  advance b b1 → at_work b1 row c t → loose 1 id = Ok c → t.(t_status) = TaskState.SUBMITTED → t.(t_token) = Some tok →
  wpb (update_task_status id Complete ;; delete_claim_files id (VString tok) ;; record actor "verified" d ;;
       c <- changed id TaskState.COMPLETED ;; ret (Done c)) (λ _ b', advance b b') b1.
Proof.
  intros Hadv Hw Hc Hs Htok. pose proof Hw as (Hb & _ & _ & Ht). pose proof (task_found _ _ _ Ht) as [Hin Hca].
  wstep. eapply wpb_update_task_status; [done..|]. wstep. eapply wpb_delete_claim_files; [done|]. wsteps.
  eapply wpb_changed; [done|by apply find_updated; [|exact Ht]|done|done|]. intros x. wsteps. apply advance_event.
  eapply advance_trans; [done|]. intros _. eapply (advance_claim b1 row c (updated Complete) t); [done| |].
  - destruct (inv_task b1 t Hb Hin) as [_ Hok]. rewrite held_settled in Hok by by rewrite Hs.
    apply fit_settled; try done; [congruence|]. simpl. split_and!; [apply Hok..|]. apply held_settled. by rewrite Hs.
  - intros fl Hfl. left. by eapply claim_files.
Qed.

Lemma verify_keeps actor id token revision confirmed : keeps actor coordinator_access (verify_work actor id token revision confirmed).
Proof.
  intros b row Hb Hr [Hrun _]. specialize (Hrun eq_refl). unfold verify_work. wstep.
  apply wpb_read_task. intros c t t' Hc Ht Hs. pose proof (task_found _ _ _ Ht) as [Hin Hca].
  destruct (negb _) eqn:E; [apply wpb_throw|]. apply negb_false_iff, andb_true_iff in E as [Htok Hst].
  assert (t' = t) as -> by (destruct Hs as [|[_ ->]]; done).
  assert (∃ tok, t.(t_token) = Some tok ∧ token = VString tok) as (tok & Ht' & ->).
  { destruct (inv_task b t Hb Hin) as [_ Hok]. unfold settled in Hok.
    destruct (t_token t) as [tok|]; [|destruct (t_status t); naive_solver].
    exists tok. split; [done|]. destruct token; try done. simpl in Htok. apply bool_decide_eq_true in Htok. congruence. }
  wstep. apply wpb_lift; [apply carried_plan_no_panic|]. intros [moved|found] Hplan; [|by apply wpb_ret, advance_refl].
  destruct (bool_decide _) eqn:Ec.
  - apply bool_decide_eq_true in Ec. wsteps; [|by apply advance_refl].
    destruct moved; [|done]. apply carried_plan_submitted in Hplan. congruence.
  - assert (t.(t_status) = TaskState.SUBMITTED) as Hsub.
    { apply bool_decide_eq_false in Ec. by destruct (t_status t). }
    destruct moved as [p|]; do 2 wstep.
    + eapply wpb_replace_task_evidence; [done..|]. wstep.
      assert (advance b (set_tasks (change (task_with c) (with_evidence (carried (cp_carry p))) (b_tasks b)) b)) as Hadv.
      { by eapply advance_replace. }
      eapply (complete_advances _ _ row c (with_evidence (carried (cp_carry p)) t)); try done.
      split_and!; [apply Hadv|done..|]. by apply find_updated.
    + eapply complete_advances; [by apply advance_refl|done..].
Qed.

Lemma revalidation_no_panic t revision evidence : revalidation t revision evidence ≠ Panic.
Proof. unfold revalidation, refused. by repeat case_match. Qed.

Lemma revalidate_keeps actor id revision evidence : keeps actor coordinator_access (revalidate_work actor id revision evidence).
Proof.
  intros b row Hb Hr [Hrun _]. specialize (Hrun eq_refl). unfold revalidate_work, task. wsteps.
  apply wpb_lift; [apply revalidation_no_panic|]. intros e He. wstep. eapply wpb_replace_task_evidence; [done..|]. wsteps.
  apply wpb_read_task. intros. by eapply advance_event, advance_replace.
Qed.

(** * [recover], [revoke] *)

Lemma wpb_reopen b row c t id (Q : unit → Board → Prop) :
  at_work b row c t → loose 1 id = Ok c → held_status t.(t_status) = true →
  (∀ b', advance b b' → Q tt b') → wpb (reopen id) Q b.
Proof.
  intros Hw Hc Hh HQ. pose proof Hw as (Hb & _ & _ & Ht). pose proof (task_found _ _ _ Ht) as [Hin Hca].
  unfold reopen, delete_task_files, delete_files. wsteps. assert (c0 = c) as -> by congruence.
  eapply wpb_update_task_status; [done..|]. apply HQ.
  apply (advance_claim b row c (updated Reopen) t (of_task c)); [done| |].
  - apply fit_settled; try done. by apply held_open.
  - intros fl (Hf & _). left. unfold of_task. rewrite Hf, Hca. simpl. lia.
Qed.

Lemma recover_keeps actor id release : keeps actor coordinator_access (recover_work actor id release).
Proof.
  intros b row Hb Hr [Hrun _]. specialize (Hrun eq_refl). unfold recover_work, member_status, task_file_count. wstep.
  apply wpb_read_task. intros c t t' Hc Ht Hs. pose proof (task_found _ _ _ Ht) as [Hin Hca].
  wsteps; [by apply Z.leb_le; lia|].
  assert (t' = t) as ->.
  { apply (shown_owned b); try done. destruct (t_owner t') eqn:Eo; [by eexists|exfalso].
    injection H0 as <-. apply negb_false_iff, bool_decide_eq_true, fmap_Some in Heqb1 as (m & Hm & _).
    apply find_elem in Hm as [_ Hm]. by apply member_named_iff in Hm. }
  eapply wpb_reopen; [by split_and!|done|by apply negb_false_iff in Heqb0|]. intros b' Hb'. wsteps.
  apply wpb_read_task. intros. wsteps. by apply advance_event.
Qed.

Lemma python_str_id_no_panic v : python_str_id v ≠ Panic.
Proof. destruct v as [|[]| | | |]; try done. apply encoded_no_panic. Qed.

(** A message to a member with room in its inbox. *)
Lemma advance_message b m :
  board_inv b → m.(mg_id) = next_rowid (mg_id <$> b.(b_messages)) →
  Z.of_nat (length (List.filter (unread_by m.(mg_recipient)) b.(b_messages))) < INBOX_CAPACITY →
  advance b (set_messages (b.(b_messages) ++ [m]) b).
Proof.
  intros Hb Hid Hn. apply advance_messages; [done| |by apply rows_evolve_app, _].
  apply messages_insert; [apply Hb|rewrite Hid; apply next_rowid_fresh|]. intros r Hr. unfold unread. by rewrite <-Hr.
Qed.

Lemma notify_revoked_advances b actor previous id reason :
  board_inv b → wpb (notify_revoked actor previous id reason) (λ _ b', advance b b' ∧ True) b.
Proof.
  intros Hb. unfold notify_revoked, member_status, inbox_count. wsteps; try by split; [apply advance_refl|].
  apply wpb_lift; [apply python_str_id_no_panic|]. intros name _. unfold insert_message, add_message. wsteps.
  - apply Z.ltb_lt, next_rowid_pos.
  - split; [|done]. apply advance_event, advance_message; [done|done|]. simpl.
    rewrite (loose_same _ _ _ _ _ H2 H1). lia.
Qed.

Lemma revoke_keeps actor id reason : keeps actor coordinator_access (revoke_work actor id reason).
Proof.
  intros b row Hb Hr [Hrun _]. specialize (Hrun eq_refl). unfold revoke_work. wstep.
  apply wpb_read_task. intros c t t' Hc Ht Hs. pose proof (task_found _ _ _ Ht) as [Hin Hca].
  destruct (_ && _); [by apply wpb_ret, advance_refl|]. destruct (_ || _) eqn:E; [apply wpb_throw|].
  apply orb_false_iff in E as [Hn Hh]. apply negb_false_iff in Hh.
  assert (t' = t) as ->. { apply (shown_owned b); try done. by destruct (t_owner t'). }
  wstep. eapply wpb_reopen; [by split_and!|done|done|]. intros b' Hb'. wsteps.
  eapply wpb_then; [by apply advance_event|by apply notify_revoked_advances|]. intros n b2 Hb2 _. wsteps.
  apply wpb_read_task. intros. by wsteps.
Qed.

(** * [task_create], [task_dependencies] *)

Lemma dependency_list_ok v l : dependency_list v = Ok l → v = VArray l ∧ (length l <= DEPENDENCIES_MAX)%nat.
Proof.
  unfold dependency_list, refused. destruct v as [| | | |entries|]; try done.
  destruct (length entries <=? DEPENDENCIES_MAX)%nat eqn:E; [|done]. intros [= <-]. split; [done|].
  by apply Nat.leb_le.
Qed.

Lemma dependency_list_no_panic v : dependency_list v ≠ Panic.
Proof. unfold dependency_list, refused. by repeat case_match. Qed.

Lemma validate_no_panic to_string id l graph :
  (length l <= DEPENDENCIES_MAX)%nat → validate_dependencies to_string id l graph ≠ Panic.
Proof.
  intros Hl. unfold validate_dependencies. rewrite (proj2 (Nat.leb_le _ _) Hl). simpl. case_match; [|done].
  intros Hp. pose proof (acyclic_exact to_string (node_of to_string id) (<[node_of to_string id := l]> (graph_edges graph))) as Hx.
  by rewrite Hp in Hx.
Qed.

(** Dependencies that pass are integers, stored as they are. *)
Lemma validate_integers to_string id l graph u :
  validate_dependencies to_string id l graph = Ok u → ∃ ds : list Z, l = int <$> ds.
Proof.
  unfold validate_dependencies, refused, assert_that. case_match; [|done]. simpl. case_match; [|done]. intros _.
  rename H1 into Hv. clear H0. induction l as [|d l IH]; [by exists []|]. simpl in Hv.
  apply andb_true_iff in Hv as [Hd Hv]. destruct IH as [ds ->].
  { clear Hd. rewrite forallb_forall in *. intros x Hx. exact (Hv x Hx). }
  unfold valid_dependency, integer in Hd. destruct d as [| |[z|]| | |]; try done. by exists (z :: ds).
Qed.

Lemma stored_integers (ds : list Z) : stored (VArray (int <$> ds)) = VArray (int <$> ds).
Proof. simpl. f_equal. induction ds as [|z ds IH]; [done|]. by rewrite fmap_cons; simpl; rewrite IH. Qed.

Lemma wpb_insert_task title accept deps (Q : Z → Board → Prop) b :
  let id := next_rowid (t_id <$> b.(b_tasks)) in
  (∀ t, t.(t_id) = id → t.(t_dependencies) = stored deps → t.(t_status) = TaskState.READY → t.(t_owner) = None →
     t.(t_token) = None → Q id (set_tasks (b.(b_tasks) ++ [t]) b)) → wpb (insert_task title accept deps) Q b.
Proof. intros id HQ. unfold insert_task. wsteps. by apply HQ. Qed.

Lemma find_new l t c : integer_affinity c = CInteger t.(t_id) → t.(t_id) ∉ (t_id <$> l) → List.find (task_with c) (l ++ [t]) = Some t.
Proof.
  intros Hc Hn. induction l as [|x l IH]; simpl.
  - unfold task_with. by rewrite (proj2 (has_id_iff _ _) Hc).
  - rewrite fmap_cons in Hn. apply not_elem_of_cons in Hn as [Hx Hn]. destruct (task_with c x) eqn:E; [|by apply IH].
    apply has_id_iff in E. congruence.
Qed.

Lemma create_task_action_advances b row actor title accept deps :
  board_inv b → b.(b_run) = Some row → is_running row.(r_record) = true →
  wpb (create_task_action actor title accept deps) (λ _ b', advance b b' ∧ b'.(b_requests) = b.(b_requests)) b.
Proof.
  intros Hb Hr Hrun. unfold create_task_action, task_count, all_task_dependencies. wsteps. apply wpb_insert_task.
  intros t Hid Hdeps Hs Ho Htok. wstep. apply wpb_lift; [apply dependency_list_no_panic|].
  intros l Hl%dependency_list_ok. destruct Hl as [-> Hlen]. wsteps.
  apply wpb_lift; [by apply validate_no_panic|]. intros u Hv. apply validate_integers in Hv as [ds ->]. wsteps.
  rewrite <-Hid. apply wpb_read_task. intros c t0 t' Hc Ht0 Hsh. simpl in Hc.
  destruct (in_i64 (t_id t)); [|done]. injection Hc as <-. cbn in Ht0.
  rewrite find_new in Ht0; [|done|rewrite Hid; apply next_rowid_fresh]. injection Ht0 as <-.
  assert (settled t = false) as Hset by (unfold settled; by rewrite Hs).
  wsteps; [|split; [|done]].
  - destruct Hsh as [->|[_ ->]]; simpl; by rewrite bool_decide_true, ?Hs.
  - apply advance_event, advance_tasks; [done| |by apply files_more, Hb|by eapply success_running|by apply rows_evolve_app, _].
    apply tasks_insert; [apply Hb|by apply Z.leb_gt in Heqb0|rewrite Hid; apply next_rowid_fresh| |done].
    split; [|by rewrite Hset]. exists ds. by rewrite Hdeps, stored_integers.
Qed.

Lemma bounded_no_panic v label n : bounded v label n ≠ Panic.
Proof. unfold bounded, bounded_text. by repeat case_match. Qed.

Lemma retry_advances b actor request payload (action : T Value) :
  board_inv b → wpb action (λ _ b', advance b b' ∧ b'.(b_requests) = b.(b_requests)) b →
  wpb (retry actor request payload action) (λ _ b', advance b b') b.
Proof.
  intros Hb Ha. unfold retry. wstep. apply wpb_lift; [unfold bounded_text; by case_match|]. intros _ _.
  do 4 wstep. match goal with |- wpb (match ?f with _ => _ end) _ _ => destruct f as [old|] eqn:Hold end.
  { wsteps. by apply advance_refl. }
  wsteps. eapply wpb_mono; [exact Ha|]. intros v b1 [Hb1 Hq]. wsteps.
  eapply advance_trans; [done|]. intros Hi. apply advance_requests; [done| |by apply prefix_app_r].
  rewrite Hq. split.
  - rewrite fmap_app. apply NoDup_snoc; [apply Hb|]. intros (x & Hkey & Hx)%list_elem_of_fmap. simpl in Hkey.
    apply list_elem_of_In in Hx. apply (find_none _ _ Hold) in Hx. unfold request_key in Hkey. injection Hkey as Hk1 Hk2.
    by rewrite !bool_decide_true in Hx.
  - rewrite length_app. simpl. apply Z.ltb_lt in Heqb0. lia.
Qed.

Lemma create_task_keeps actor request title accept deps :
  keeps actor running_access (create_task_work actor request title accept deps).
Proof.
  intros b row Hb Hr [Hrun _]. specialize (Hrun eq_refl). unfold create_task_work. wstep.
  apply wpb_lift; [apply bounded_no_panic|]. intros id _. wstep.
  eapply wpb_mono; [by eapply retry_advances, create_task_action_advances|]. intros made b' Hb'. by wsteps.
Qed.

Lemma set_dependencies_keeps actor id deps : keeps actor running_access (set_dependencies_work actor id deps).
Proof.
  intros b row Hb Hr [Hrun _]. specialize (Hrun eq_refl). unfold set_dependencies_work, all_task_dependencies. wstep.
  apply wpb_read_task. intros c t t' Hc Ht Hs. pose proof (task_found _ _ _ Ht) as [Hin Hca].
  destruct (negb _) eqn:E; [apply wpb_throw|]. apply negb_false_iff, andb_true_iff in E as [Ho%bool_decide_eq_true _].
  assert (t_owner t = None) as Hown by (destruct Hs as [->|[_ ->]]; done).
  destruct (inv_task b t Hb Hin) as [_ Hok]. destruct (settled t) eqn:Hset; [destruct Hok as [[? ?] _]; congruence|].
  wstep. apply wpb_lift; [apply dependency_list_no_panic|]. intros l Hl%dependency_list_ok. destruct Hl as [-> Hlen]. wsteps.
  apply wpb_lift; [by apply validate_no_panic|]. intros u Hv. apply validate_integers in Hv as [ds ->].
  unfold SwarmStore.set_task_dependencies. rewrite stored_integers. wsteps. rewrite (loose_same _ _ _ _ _ H0 Hc) in *.
  eapply wpb_run_on_task; [done|]. wsteps. apply wpb_read_task. intros. apply advance_event.
  eapply (advance_task _ _ _ (with_dependencies _)); [by split_and!| |].
  - split_and!.
    + split_and!; [done..|]. destruct Hok as (Hready & _). by rewrite Hready.
    + split; [by exists ds|]. unfold settled in *. simpl. by rewrite Hset.
    + intros z Hs'. unfold settled in *. simpl in Hs'. congruence.
  - intros fl Hfl. destruct Hok as [Hready _]. by apply ready_unreserved in Hfl.
Qed.

(** * [reserve], [release_files] *)

Lemma insert_files_advances b task owner claim token paths c t tok (Q : unit → Board → Prop) :
  board_inv b → text_sorted paths = true → loose 1 task = Ok c → claim = VString tok →
  (∃ row, b.(b_run) = Some row ∧ is_running row.(r_record) = true) →
  List.find (task_with c) b.(b_tasks) = Some t → held_status t.(t_status) = true → t.(t_owner) = Some owner → t.(t_token) = Some tok →
  Z.of_nat (length b.(b_files)) + Z.of_nat (length paths) <= 1000 →
  (∀ b', advance b b' → Q tt b') → wpb (insert_files task owner claim token paths) Q b.
Proof.
  intros Hb Hsort Hc -> Hrun Ht Hh Ho Htok Hlen HQ. unfold insert_files. wsteps; [done|].
  rewrite (loose_same _ _ _ _ _ H0 Hc) in *. injection H1 as <-. clear H0 Hsort.
  pose proof (task_found _ _ _ Ht) as [Hin Hca]. rewrite Hca.
  assert (∀ b1, advance b b1 → b1.(b_tasks) = b.(b_tasks) → b1.(b_run) = b.(b_run) →
    Z.of_nat (length b1.(b_files)) + Z.of_nat (length paths) <= 1000 →
    wpb (for_each paths (λ path, insert_file {| f_path := path; f_task := CInteger (t_id t); f_owner := owner;
                                                f_claim := Some tok; f_token := token |})) Q b1) as Hall;
    [|by apply Hall; [apply advance_refl|..]].
  clear Hlen. induction paths as [|path paths IH]; intros b1 Hb1 Htasks Hrow Hn; cbn [for_each]; [by apply wpb_ret, HQ|].
  unfold insert_file. wsteps. apply IH; [|done|done|simpl in *; rewrite length_app; simpl; lia].
  eapply advance_trans; [done|]. intros Hi. destruct Hrun as (row & Hr & Hru).
  apply advance_files; [done| |eapply success_running; [done|by rewrite Hrow|done]]. destruct (inv_files _ Hi) as [Hnd _ Hcl].
  split.
  - rewrite fmap_app. apply NoDup_snoc; [done|]. intros (x & Hx & Hxin)%list_elem_of_fmap.
    assert (existsb (λ o, bool_decide (f_path o = path)) (b_files b1) = true) as Hex; [|simpl in *; congruence].
    apply existsb_exists. exists x. split; [by apply list_elem_of_In|]. by apply bool_decide_eq_true.
  - rewrite length_app. simpl in *. lia.
  - intros f [Hf| ->%list_elem_of_singleton]%elem_of_app; [by apply Hcl|]. exists t. rewrite Htasks. split; [done|]. by split_and!.
Qed.

Lemma wpb_none_reserved paths (Q : unit → Board → Prop) b : Q tt b → wpb (none_reserved paths) Q b.
Proof. intros HQ. induction paths as [|p paths IH]; simpl; unfold file_reserved; by wsteps. Qed.

Lemma reserve_keeps actor id token paths :
  text_sorted paths = true → keeps actor running_access (reserve_work actor id token paths).
Proof.
  intros Hp b row Hb Hr [Hrun _]. specialize (Hrun eq_refl). unfold reserve_work. wstep. apply wpb_owned; [done|].
  intros c t tok Hc Ht Hh Ho Htok ->. unfold file_count. do 2 wstep. destruct (_ <? _) eqn:E; [apply wpb_throw|].
  wstep. apply wpb_none_reserved. wsteps. eapply insert_files_advances; try done; [by eauto| |].
  - apply Z.ltb_ge in E. unfold BOARD_CAPACITY, i64_saturating_add, i64_min, i64_max in E. lia.
  - intros b' Hb'. wsteps. by apply advance_event.
Qed.

Lemma release_files_keeps actor id token reservation :
  keeps actor default_access (release_files_work actor id token reservation).
Proof.
  intros b row Hb Hr Ha. unfold release_files_work. wstep. apply wpb_owned; [done|].
  intros c t tok Hc Ht Hh Ho Htok ->. unfold delete_reservation, delete_files. wsteps.
  by apply advance_event, advance_delete.
Qed.
End tasks.
