(* ===== verification/SwarmSafeControl.v ===== *)
(** The invariant under the operations on the run, its evidence and messages. *)

From stdpp Require Import gmap.
From S2P Require Import Prelude SwarmValue SwarmPolicy SwarmStore SwarmOperation SwarmControl SwarmInv SwarmSteps SwarmSafeMembers SwarmSafeTasks.

Local Open Scope Z_scope.

Section control.
Context `{Engine}.

(** * Answers *)

Lemma wpb_pause_started (Q : f64 → Board → Prop) b : (∀ f, Q f b) → wpb pause_started Q b.
Proof. intros HQ. unfold pause_started, pause_record. wsteps. apply HQ. Qed.

Lemma wpb_blockers_from r (Q : list text → Board → Prop) b : (∀ l, Q l b) → wpb (blockers_from r) Q b.
Proof.
  intros HQ. unfold blockers_from. wsteps; [|done]. apply wpb_pause_started. intros started. wstep.
  unfold lost_coordinator, lost_after_activation. wsteps; apply HQ.
Qed.

Lemma wpb_answered t (Q : ControlAnswer → Board → Prop) b : (∀ x, Q x b) → wpb (answered t) Q b.
Proof.
  intros HQ. unfold answered, receipt, control_generation, current, run. wsteps. apply wpb_blockers_from. intros l. by wsteps.
Qed.

(** * Changes of the run row *)

Lemma set_run_twice x y b : set_run x (set_run y b) = set_run x b.
Proof. done. Qed.

(** Only the record of the row changes, to one that holds no success. *)
Lemma advance_record b row f :
  board_inv b → b.(b_run) = Some row → record_ok (f row.(r_record)) →
  coordinator (f row.(r_record)) = coordinator row.(r_record) → member_limit (f row.(r_record)) = member_limit row.(r_record) →
  status_evolves row.(r_record).(status) (f row.(r_record)).(status) →
  (f row.(r_record)).(outcome) ≠ Some (tx "succeeded")
  ∨ (f row.(r_record)).(outcome) = row.(r_record).(outcome) ∧ (f row.(r_record)).(outcome_reason) = row.(r_record).(outcome_reason) →
  advance b (set_run (Some (with_record f row)) b).
Proof.
  intros Hb Hr Hok Hc Hl Hs Ho. eapply advance_run; try done.
  - simpl. rewrite Hl. by eapply inv_limit.
  - destruct Ho as [Ho|[Ho Hre]]; [by apply success_not|]. intros x [= <-]. simpl. rewrite Ho, Hre.
    intros Hsucc. exact (inv_success _ Hb row Hr Hsucc).
Qed.

Lemma cancel_advances b row actor reason :
  board_inv b → b.(b_run) = Some row → wpb (cancel_work actor reason row.(r_record)) (λ _ b', advance b b' ∧ True) b.
Proof.
  intros Hb Hr. unfold cancel_work. pose proof (inv_record b row Hb Hr) as (_ & Hco & Hd & Hl).
  destruct (status (r_record row)) as [s|] eqn:Hs; [|apply wpb_throw].
  destruct s; try apply wpb_throw; [| |by apply wpb_ret; split; [apply advance_refl|]].
  all: unfold clear_outcome, set_outcome; wstep; eapply wpb_update_run; [done|]; wstep;
    eapply wpb_update_run; [done|]; rewrite set_run_twice; wsteps; split; [|done]; apply advance_event;
    eapply (advance_record b row (λ r, with_status RunState.CANCELLED (with_outcome None None r)));
    [done|done| |done|done|rewrite Hs; by first [apply status_from_running|apply status_from_paused]|by left].
  all: split; [by exists RunState.CANCELLED|done].
Qed.

Lemma stop_end_advances b row actor wanted reason :
  board_inv b → b.(b_run) = Some row → wanted ∈ STOP_STATUSES → wanted ≠ tx "cancelled" →
  wpb (stop_end_work actor wanted reason row.(r_record)) (λ _ b', advance b b' ∧ True) b.
Proof.
  intros Hb Hr Hw Hn. unfold stop_end_work. wsteps; [by split; [apply advance_refl|]|].
  apply wpb_end_run. intros es. wsteps. split; [|done]. unfold STOP_STATUSES in Hw.
  rewrite !elem_of_cons, elem_of_nil in Hw. eapply advance_end; [done|done|done| |].
  - unfold PROPOSED_OUTCOMES. rewrite !elem_of_cons. naive_solver.
  - intros ->. exfalso. by destruct Hw as [?|[?|[?|[?|[]]]]].
Qed.

Lemma stop_keeps actor wanted reason : wanted ∈ STOP_STATUSES → keeps actor control_access (stop_work actor wanted reason).
Proof.
  intros Hw b row Hb Hr Ha. unfold stop_work. wstep.
  eapply (wpb_then _ (λ _, True) _ b b); [by apply advance_refl| |by intros; apply wpb_answered].
  intros _. case_match; [by apply cancel_advances|]. apply stop_end_advances; [done..|]. by apply bool_decide_eq_false in H0.
Qed.

Lemma pause_keeps actor reason : keeps actor control_access (pause_work actor reason).
Proof.
  intros b row Hb Hr Ha. unfold pause_work, member. wstep. case_match; [wstep; apply wpb_answered; by intros; apply advance_refl|].
  do 3 wstep. apply wpb_lift; [apply authorize_no_panic|]. intros u [Hrun _]%authorize_ok.
  specialize (Hrun eq_refl). apply is_running_iff in Hrun. unfold set_outcome. wstep. eapply wpb_update_run; [done|]. wsteps.
  apply wpb_answered. intros _. apply advance_event. pose proof (inv_record b row Hb Hr) as Hok.
  pose proof (outcome_of _ _ Hok Hrun) as Ho. simpl in Ho. destruct Hok as (_ & Hco & Hd & Hl).
  eapply advance_record; [done|done| |done|done|rewrite Hrun; by first [apply status_from_running|apply status_from_paused]|by right].
  split; [|done]. exists RunState.PAUSED. simpl. by rewrite Ho.
Qed.

Lemma resume_keeps actor : keeps actor control_access (resume_work actor).
Proof.
  intros b row Hb Hr Ha. unfold resume_work. wstep. pose proof (inv_record b row Hb Hr) as (_ & Hco & Hd & Hl).
  destruct (status (r_record row)) as [s|] eqn:Hs; [|apply wpb_throw].
  destruct s; try apply wpb_throw; [wstep; apply wpb_answered; by intros; apply advance_refl|].
  do 2 wstep. wstep. apply wpb_pause_started. intros started. destruct (paused_for f started) as [elapsed shown] eqn:Ep.
  unfold blockers, current, run. wstep. wstep. wsteps. apply wpb_blockers_from. intros blocking.
  case_match; [apply wpb_throw|]. unfold set_deadline, clear_outcome, set_outcome.
  wstep. eapply wpb_update_run; [done|]. wstep. eapply wpb_update_run; [done|]. wstep. eapply wpb_update_run; [done|].
  rewrite !set_run_twice. wsteps. apply wpb_answered. intros _. apply advance_event.
  eapply (advance_record b row (λ r, with_status RunState.RUNNING (with_outcome None None (with_deadline (f64_add (deadline r) elapsed) r))));
    [done|done| |done|done|rewrite Hs; by first [apply status_from_running|apply status_from_paused]|by left].
  split; [by exists RunState.RUNNING|]. split_and!; [done| |apply Hl..]. simpl. apply f64_add_up; [done|].
  pose proof (paused_for_up f started) as Hup. by rewrite Ep in Hup.
Qed.

Lemma close_keeps actor : keeps actor control_access (close_work actor).
Proof.
  intros b row Hb Hr Ha. unfold close_work. pose proof (inv_record b row Hb Hr) as (_ & Hco & Hd & Hl).
  destruct (bool_decide (status _ = _)) eqn:Hs; [apply bool_decide_eq_true in Hs|apply wpb_throw].
  destruct (outcome (r_record row)) as [held|] eqn:Ho; [|apply wpb_throw].
  case_match; [apply bool_decide_eq_true in H0|apply wpb_throw].
  unfold set_outcome. wstep. eapply wpb_update_run; [done|]. wsteps. apply wpb_answered. intros _. apply advance_event.
  unfold PROPOSED_OUTCOMES in H0. rewrite !elem_of_cons, elem_of_nil in H0.
  assert (outcome_ok (RunState.new held) (Some held) ∧ RunState.new held ≠ RunState.SETUP) as [Hok Hne].
  { destruct H0 as [->|[->|[->|[->|[]]]]]; (split; [vm_compute; auto|by vm_compute]). }
  eapply (advance_record b row (with_status (RunState.new held))); [done|done| |done|done|rewrite Hs; by first [apply status_from_running|apply status_from_paused]|by right].
  split; [|done]. exists (RunState.new held). simpl. by rewrite Ho.
Qed.

Lemma extend_keeps actor granted :
  1 <= granted <= MAX_EXTENSION_SECONDS → keeps actor control_access (extend_work actor granted).
Proof.
  intros Hg b row Hb Hr Ha. unfold extend_work. pose proof (inv_record b row Hb Hr) as Hok.
  pose proof Hok as ((s & Hs & Hso) & Hco & Hd & Hl).
  assert (∀ base, f64_up base → wpb (
    debug_assert ((1 <=? granted) && (granted <=? MAX_EXTENSION_SECONDS)) ;;
    let d := f64_add base (f64_of_Z granted) in
    now <- now_seconds ;;
    if f64_lt (f64_add now (f64_of_Z MAX_EXTENSION_SECONDS)) d
    then refuse Invalid (tx "deadline may be at most seven days ahead, as at creation")
    else
      set_deadline d ;; at_ <- now_seconds ;; shown <- seconds d ;;
      event actor at_ "extended" (detail [("seconds"%string, int granted); ("deadline"%string, shown)]) ;;
      answered Applied) (λ _ b', advance b b') b) as Hrest.
  { intros base Hbase. wstep. wstep; [lia|]. cbv zeta. do 2 wstep. destruct (f64_lt _ _) eqn:E; [apply wpb_throw|].
    assert (f64_up (f64_add base (f64_of_Z granted))) as Hup by (apply f64_add_up; [done|apply f64_of_Z_up; lia]).
    wstep. unfold set_deadline. eapply wpb_update_run; [done|]. do 3 wstep.
    apply wpb_seconds.
    { eapply f64_up_finite; [|exact Hup|apply H0|exact E]. apply f64_add_up; [apply H0|by apply f64_of_Z_up]. }
    wsteps. apply wpb_answered. intros _. apply advance_event.
    eapply advance_record; [done|done| |done|done|by left|by right].
    split; [by exists s|]. done. }
  wstep. rewrite Hs. destruct s; try apply wpb_throw; [by apply wpb_ret, Hrest|].
  wstep. apply wpb_pause_started. intros p. wstep. apply Hrest. by apply f64_max_up.
Qed.

(** * [complete], [amend], [evidence] *)

Lemma completion_revision_no_panic v : completion_revision v ≠ Panic.
Proof. unfold completion_revision, refused. by repeat case_match. Qed.

Lemma stored_criteria_no_panic v : stored_criteria v ≠ Panic.
Proof.
  destruct v as [| | | |entries|]; try done. simpl. induction entries as [|e entries IH]; [done|]. simpl.
  unfold stored_criterion. repeat case_match; simpl; try done. by destruct (collect _ entries).
Qed.

Lemma completion_no_panic c ev tasks hr rev : completion c ev tasks hr rev ≠ Panic.
Proof.
  unfold completion, refused. destruct (completion_revision rev) eqn:E; simpl; [|done|by apply completion_revision_no_panic in E].
  by repeat case_match.
Qed.

Lemma completion_ok c ev tasks hr rev s :
  completion c ev tasks hr rev = Ok s →
  ∃ t, rev = VString t ∧ s = RunState.SUCCEEDED ∧ hr = false.
Proof.
  unfold completion, refused, completion_revision. destruct rev; try done. case_match; simpl; [|done].
  repeat case_match; try done. intros [= <-]. eexists. split_and!; [done..|]. by destruct hr.
Qed.

Lemma complete_keeps actor revision : keeps actor coordinator_access (complete_work actor revision).
Proof.
  intros b row Hb Hr [Hrun _]. specialize (Hrun eq_refl). unfold complete_work, completion_state, run_criteria. wsteps.
  apply wpb_lift; [apply completion_revision_no_panic|]. intros _ _. wstep.
  apply wpb_lift; [apply stored_criteria_no_panic|]. intros c Hc. wstep.
  apply wpb_lift; [apply completion_no_panic|]. intros o Ho. cbn in Ho, Hc.
  pose proof (completion_ok _ _ _ _ _ _ Ho) as (rev & -> & -> & Hf). wsteps; [done|]. injection H1 as <-.
  apply wpb_end_run. intros es. unfold current, run. wsteps; rename H1 into Hrow; cbn in Hrow; rewrite Hr in Hrow.
  { injection Hrow as <-. by apply bool_decide_eq_true. }
  rewrite Hr in H0. injection H0 as <-.
  eapply advance_trans; [by apply advance_event, advance_refl|]. intros Hb1.
  eapply advance_end; [done|done|done|set_solver|]. intros _. exists rev, c. cbn.
  split_and!; [done| |done|by rewrite Hf in Ho]. by destruct (b_files b).
Qed.

Lemma criterion_no_panic v : criterion v ≠ Panic.
Proof.
  unfold criterion, refused. case_match; [|done]. destruct (bounded _ (tx "criterion id") _) eqn:E1; simpl; [|done|by apply bounded_no_panic in E1].
  destruct (bounded _ (tx "criterion description") _) eqn:E2; simpl; [done|done|by apply bounded_no_panic in E2].
Qed.

Lemma criteria_loop_distinct entries parsed :
  NoDup (c_id <$> parsed) →
  match criteria_loop entries parsed with Ok l => NoDup (c_id <$> l) | Err _ => True | Panic => False end.
Proof.
  revert parsed. induction entries as [|e entries IH]; intros parsed Hnd; simpl; [done|].
  destruct (criterion e) eqn:E; simpl; [|done|by apply criterion_no_panic in E].
  destruct (existsb _ parsed) eqn:H0; [done|]. apply IH. rewrite fmap_app. apply NoDup_snoc; [done|].
  intros (x & Hx & Hin)%list_elem_of_fmap. apply not_true_iff_false in H0. apply H0, existsb_exists.
  exists x. split; [by apply list_elem_of_In|]. by apply bool_decide_eq_true.
Qed.

Lemma criteria_no_panic v n : criteria v n ≠ Panic.
Proof.
  unfold criteria, refused. destruct v as [| | | |[|e l]|]; try done.
  pose proof (criteria_loop_distinct (e :: l) [] ltac:(constructor)) as Hd.
  destruct (criteria_loop _ _) as [parsed| |]; simpl; [|done|done]. rewrite bool_decide_true by done. simpl. by case_match.
Qed.

Lemma amend_keeps actor goal reason constraints new : keeps actor coordinator_access (amend_work actor goal reason constraints new).
Proof.
  intros b row Hb Hr [Hrun _]. specialize (Hrun eq_refl). unfold amend_work, run_contract, amend_contract, delete_all_evidence.
  wsteps. apply wpb_lift; [apply criteria_no_panic|]. intros _ _. wsteps. eapply wpb_update_run; [done|]. wsteps.
  apply advance_event. pose proof (inv_record b row Hb Hr) as Hok. apply is_running_iff in Hrun.
  pose proof (outcome_of _ _ Hok Hrun) as Ho. simpl in Ho.
  match goal with |- advance b (set_evidence [] ?b1) => assert (advance b b1) as Hadv end.
  { eapply advance_run; [done|done|done|done|done| |by left|apply success_not; simpl; congruence]. exact (inv_limit b row Hb Hr). }
  eapply advance_trans; [exact Hadv|]. intros Hb1. apply advance_evidence; [done|by intros e []%not_elem_of_nil|].
  apply success_not. simpl. congruence.
Qed.

Lemma definition_of_no_panic c v : definition_of c v ≠ Panic.
Proof.
  unfold definition_of. destruct c as [| | | |entries|]; try done.
  induction entries as [|e entries IH]; simpl; [done|]. by repeat case_match.
Qed.

Lemma configured_kind_no_panic c v : configured_kind c v ≠ Panic.
Proof. unfold configured_kind, refused. by repeat case_match. Qed.

Lemma evidence_write_advances b row e :
  board_inv b → b.(b_run) = Some row → is_running row.(r_record) = true →
  (e.(ne_accepted) = true → row.(r_record).(coordinator) = Some e.(ne_actor)) →
  wpb (evidence_write e) (λ _ b', advance b b') b.
Proof.
  intros Hb Hr Hrun Ha. unfold evidence_write, record_evidence, prior_evidence. wsteps. apply advance_event.
  apply advance_evidence; [done| |by eapply success_running]. intros x [[Hx _]%filter_sub| ->%list_elem_of_singleton]%elem_of_app Hacc.
  - exact (inv_evidence _ Hb x Hx Hacc).
  - exists row. split; [done|]. by apply Ha.
Qed.

Lemma evidence_keeps actor criterion artifact revision given passed :
  keeps actor running_access (evidence_work actor criterion artifact revision given passed).
Proof.
  intros b row Hb Hr [Hrun _]. specialize (Hrun eq_refl). unfold evidence_work, run_criteria. wsteps.
  apply wpb_lift; [apply definition_of_no_panic|]. intros cf _. wstep.
  apply wpb_lift; [apply configured_kind_no_panic|]. intros k _. unfold prior_evidence. cbv zeta.
  assert (∀ e, e.(ne_actor) = actor → e.(ne_accepted) = bool_decide (coordinator (r_record row) = Some actor) && is_true_flag passed →
    wpb (evidence_write e) (λ _ b', advance b b') b) as Hw.
  { intros e He Hacc. apply (evidence_write_advances b row); [done..|]. rewrite Hacc, He.
    intros [Hc _]%andb_true_iff. by apply bool_decide_eq_true in Hc. }
  wsteps; try by apply Hw. by apply advance_refl.
Qed.

(** * Messages *)

Lemma wpb_run_on_message c f m (Q : unit → Board → Prop) b :
  List.find (message_with c) b.(b_messages) = Some m →
  Q tt (set_messages (change (message_with c) f b.(b_messages)) b) → wpb (run_on_message c f) Q b.
Proof. intros Hm HQ. unfold run_on_message. wsteps; [by eapply find_exists|done]. Qed.

Lemma advance_message_change b c f m :
  board_inv b → List.find (message_with c) b.(b_messages) = Some m → message_evolves m (f m) → (∀ x, mg_id (f x) = mg_id x) →
  advance b (set_messages (change (message_with c) f b.(b_messages)) b).
Proof.
  intros Hb Hm He Hid. destruct (messages_change _ c f m (inv_messages _ Hb) Hm He Hid). by apply advance_messages.
Qed.

Lemma retire_message_advances b actor id to r :
  board_inv b → is_message_id id = true →
  wpb (retire actor id to r) (λ x b', advance b b' ∧ (r = Superseded → x = true) ∧ b'.(b_requests) = b.(b_requests)
    ∧ ∃ c m, loose 1 id = Ok c ∧ List.find (message_with c) b'.(b_messages) = Some m) b.
Proof.
  intros Hb Hid. unfold retire, message. wstep. wstep; [done|]. cbv zeta. do 4 wstep.
  destruct (find _ _) as [m|] eqn:Hm; [|apply wpb_throw].
  wif Hown; [apply wpb_throw|]. wif Hto; [apply wpb_throw|].
  wif H3; [|wif H4; [apply wpb_throw|]].
  - wsteps. apply andb_true_iff in H3 as [_ Hw%bool_decide_eq_true]. split_and!; [by apply advance_refl|by rewrite Hw|done|by eauto].
  - unfold set_message_status. wsteps. rewrite (loose_same _ _ _ _ _ H1 H0) in *. eapply wpb_run_on_message; [done|]. wsteps.
    apply negb_false_iff, bool_decide_eq_true in H4. split_and!; [|done|done|].
    + eapply advance_message_change; [done|done| |done]. split_and!; [done..|by left].
    + do 2 eexists. split; [done|]. cbn. apply find_change; [|done]. intros y. done.
Qed.

Lemma find_app_l {A} (p : A → bool) l l' x : List.find p l = Some x → List.find p (l ++ l') = Some x.
Proof. induction l as [|y l IH]; [done|]. simpl. by destruct (p y). Qed.

Lemma send_action_advances b m :
  board_inv b → (∀ old, m.(nm_supersedes) = Some old → is_message_id old = true) →
  wpb (send_action m) (λ _ b', advance b b' ∧ b'.(b_requests) = b.(b_requests)) b.
Proof.
  intros Hb Hold. unfold send_action, member_status. cbv zeta. do 4 wstep. case_match; [apply wpb_throw|]. wstep.
  assert (∀ P : unit → Board → Prop,
    (∀ b1, advance b b1 → b1.(b_requests) = b.(b_requests) →
       (∀ old, m.(nm_supersedes) = Some old → ∃ c x, loose 1 old = Ok c ∧ List.find (message_with c) b1.(b_messages) = Some x) → P tt b1) →
    wpb match nm_supersedes m with
        | Some old => retired <- retire (nm_sender m) old (Some (nm_recipient m)) Superseded ;; debug_assert retired
        | None => ret tt
        end P b) as Hretire.
  { intros P HP. destruct (nm_supersedes m) as [old|]; [|apply wpb_ret, HP; [by apply advance_refl|done|done]].
    wstep. eapply wpb_mono; [by apply retire_message_advances; [|apply Hold]|]. intros x b1 (Hb1 & Hx & Hq & Hf). rewrite Hx by done.
    wstep; [done|]. apply HP; [done..|]. by intros ? [= <-]. }
  apply Hretire. intros b1 Hb1 Hq Hf. unfold inbox_count. do 4 wstep. wif Hroom; [apply wpb_throw|].
  unfold send_message, add_message. wstep.
  assert (∀ P : Cell → Board → Prop, (∀ c, P c b1) →
    wpb match nm_supersedes m with Some id => lift (loose 5 id) | None => ret CNull end P b1) as Hsup.
  { intros P HP. destruct (nm_supersedes m); wsteps; apply HP. }
  wstep. apply Hsup. intros sup. do 8 wstep. wstep; [apply Z.ltb_lt, next_rowid_pos|].
  match goal with |- wpb _ _ (set_messages (_ ++ [?x]) _) =>
    assert (advance b (set_messages (b_messages b1 ++ [x]) b1)) as Hadv end.
  { eapply advance_trans; [done|]. intros Hi. apply advance_message; [done|done|]. cbn.
    match goal with H5 : loose 2 _ = Ok ?x, H6 : loose 1 (nm_recipient m) = Ok ?y |- context [unread_by (text_affinity ?x)] =>
      rewrite (loose_same _ _ _ _ _ H5 H6) end. lia. }
  wstep. destruct (nm_supersedes m) as [old|]; [|wsteps; split; [by apply advance_event|done]].
  destruct (Hf old eq_refl) as (co & x & Hco & Hx). unfold set_superseded_by. wsteps.
  match goal with H5 : loose 2 old = _ |- _ => rewrite (loose_same _ _ _ _ _ H5 Hco) in * end.
  eapply wpb_run_on_message; [by apply find_app_l|]. wsteps. split; [|done].
  apply advance_event, advance_event. eapply advance_trans; [exact Hadv|]. intros Hi.
  eapply advance_message_change; [done|by apply find_app_l| |done]. split_and!; [done..|by right].
Qed.

Lemma send_keeps actor request payload m :
  (∀ old, m.(nm_supersedes) = Some old → is_message_id old = true) → keeps actor running_access (send_work request payload m).
Proof.
  intros Hm b row Hb Hr Ha. unfold send_work. wstep. apply wpb_lift; [apply bounded_no_panic|]. intros id _.
  by apply retry_advances, send_action_advances.
Qed.

Lemma withdraw_keeps actor id : is_message_id id = true → keeps actor default_access (withdraw_work actor id).
Proof.
  intros Hid b row Hb Hr Ha. unfold withdraw_work. wstep. eapply wpb_mono; [by apply retire_message_advances|].
  intros x b' (Hb' & _). wsteps; [by apply advance_event|done].
Qed.

Lemma acknowledge_keeps actor id : keeps actor default_access (acknowledge_work actor id).
Proof.
  intros b row Hb Hr Ha. unfold acknowledge_work, addressed_message. wsteps; [|by apply advance_refl].
  unfold set_message_status. wsteps. rewrite (loose_same _ _ _ _ _ H2 H0) in *.
  apply bool_decide_eq_true in Heqb0.
  pose proof (find_elem _ _ _ H1) as [Hin [Hw Hto]%andb_true_iff].
  assert (find (message_with c) (b_messages b) = Some a) as Hfind.
  { destruct (find (message_with c) (b_messages b)) as [y|] eqn:Hy.
    - pose proof (message_found _ _ _ Hy) as [Hyin Hc]. apply has_id_iff in Hw. f_equal.
      eapply key_unique; [apply Hb|done|done|congruence].
    - apply list_elem_of_In in Hin. apply (find_none _ _ Hy) in Hin. congruence. }
  eapply wpb_run_on_message; [done|]. wsteps. apply advance_event.
  eapply advance_message_change; [done|done| |done]. split_and!; [done..|by left].
Qed.
End control.
