(* ===== verification/SwarmCalls.v ===== *)
(** Calls on the board, other members' commits between their transactions.

    A session is [steady] when its board keeps the invariant, its clock and ids
    are as the host gives them, and what other members commit keeps the
    invariant and lets the board evolve: what this file shows every call does
    too, whatever its arguments. *)

From stdpp Require Import gmap.
From S2P Require Import Prelude SwarmValue SwarmPolicy SwarmDependencies SwarmStore SwarmOperation SwarmMembers SwarmTasks SwarmControl SwarmInv SwarmSteps SwarmSafeMembers SwarmSafeTasks SwarmSafeControl.

Local Open Scope Z_scope.

(** The calls of [SwarmBoard], by the use case each runs. *)
Inductive Call :=
  | CallCreate (q : CreateRunRequest)
  | CallBootstrap (member : text) (pid started socket : Value)
  | CallJoin (q : JoinRunRequest)
  | CallAdmit (actor : text) (member reservation : Value)
  | CallActivate (actor : text) (member reservation : Value) (launch : LaunchIdentity) (socket : Value)
  | CallRecordLaunch (actor : text) (member reservation : Value) (launch : LaunchIdentity)
  | CallReleaseUnlaunched (actor : text) (member : Value)
  | CallRegisterSocket (actor : text) (socket : Value)
  | CallConfirmDead (actor : text) (member exit : Value)
  | CallQuarantine (actor : text) (member : Value)
  | CallLoseCoordinator (actor : text)
  | CallCreateTask (q : CreateTaskRequest)
  | CallSetDependencies (actor : text) (id dependencies : Value)
  | CallClaim (actor : text) (id : Value)
  | CallRelease (actor : text) (id token : Value)
  | CallBlock (actor : text) (id token reason : Value)
  | CallUnblock (actor : text) (id token reason : Value)
  | CallSubmit (actor : text) (id token evidence : Value)
  | CallVerify (actor : text) (id token revision : Value)
  | CallRevalidate (actor : text) (id revision evidence : Value)
  | CallRecover (actor : text) (id release_files : Value)
  | CallRevoke (actor : text) (id reason : Value)
  | CallReserve (actor : text) (id token paths : Value)
  | CallReleaseFiles (actor : text) (id token reservation : Value)
  | CallStop (actor : text) (wanted reason : Value)
  | CallComplete (actor : text) (revision : Value)
  | CallPause (actor : text) (reason : Value)
  | CallResume (actor : text)
  | CallResumeExternally (actor : text)
  | CallClose (actor : text)
  | CallExtend (actor : text) (seconds : Value)
  | CallAmend (actor : text) (goal constraints new_criteria reason : Value)
  | CallEvidence (actor : text) (criterion artifact revision given_kind passed : Value)
  | CallSend (q : SendMessageRequest)
  | CallWithdraw (actor : text) (id : Value)
  | CallAcknowledge (actor : text) (id : Value).

Section calls.
Context `{Engine} `{Checkout}.

Definition quiet {A} (m : M Session Refusal A) : M Session Refusal unit := m ;; ret tt.

Definition perform (c : Call) : M Session Refusal unit :=
  match c with
  | CallCreate q => quiet (create_run q)
  | CallBootstrap member p s k => quiet (bootstrap member p s k)
  | CallJoin q => quiet (join_run q)
  | CallAdmit actor member r => quiet (admit_member actor member r)
  | CallActivate actor member r l k => quiet (activate actor member r l k)
  | CallRecordLaunch actor member r l => quiet (record_member_launch actor member r l)
  | CallReleaseUnlaunched actor member => quiet (release_unlaunched_member actor member)
  | CallRegisterSocket actor k => quiet (register_member_socket actor k)
  | CallConfirmDead actor member e => quiet (confirm_member_dead actor member e)
  | CallQuarantine actor member => quiet (quarantine_member actor member)
  | CallLoseCoordinator actor => quiet (lose_coordinator actor)
  | CallCreateTask q => quiet (create_task q)
  | CallSetDependencies actor id d => quiet (set_task_dependencies actor id d)
  | CallClaim actor id => quiet (claim_task actor id)
  | CallRelease actor id t => quiet (release_task actor id t)
  | CallBlock actor id t r => quiet (block_task actor id t r)
  | CallUnblock actor id t r => quiet (unblock_task actor id t r)
  | CallSubmit actor id t e => quiet (submit_task actor id t e)
  | CallVerify actor id t r => quiet (verify_task actor id t r)
  | CallRevalidate actor id r e => quiet (revalidate_task actor id r e)
  | CallRecover actor id f => quiet (recover_task actor id f)
  | CallRevoke actor id r => quiet (revoke_task actor id r)
  | CallReserve actor id t p => quiet (reserve_files actor id t p)
  | CallReleaseFiles actor id t r => quiet (release_files actor id t r)
  | CallStop actor w r => quiet (stop_run actor w r)
  | CallComplete actor r => quiet (complete_run actor r)
  | CallPause actor r => quiet (pause_run actor r)
  | CallResume actor => quiet (resume_run actor)
  | CallResumeExternally actor => quiet (resume_run_externally actor)
  | CallClose actor => quiet (close_run actor)
  | CallExtend actor s => quiet (extend_run_deadline actor s)
  | CallAmend actor g c n r => quiet (amend_run_contract actor g c n r)
  | CallEvidence actor c a r k p => quiet (evidence actor c a r k p)
  | CallSend q => quiet (send q)
  | CallWithdraw actor id => quiet (withdraw_message actor id)
  | CallAcknowledge actor id => quiet (acknowledge_message actor id)
  end.

(** A series of calls, each refused or not. *)
Fixpoint perform_all (calls : list Call) (s : Session) : Session :=
  match calls with [] => s | c :: rest => perform_all rest (perform c s).1 end.
End calls.

(** What the checkout's paths are, once normalized. *)
Class CheckoutLaws `{Checkout} : Prop :=
  normalize_relative p q : normalize p = inr q → q ≠ [] ∧ starts_with_slash q = false.

(** * Steady sessions *)

Definition store_inv (o : option Board) : Prop := match o with Some b => board_inv b | None => True end.

Lemma empty_board_inv : board_inv empty_board.
Proof.
  constructor; cbn.
  - done.
  - split; [constructor|constructor].
  - split; [constructor|done|constructor|by intros t z []%not_elem_of_nil].
  - split; [constructor|done|by intros f []%not_elem_of_nil].
  - split; [constructor|]. intros r. done.
  - by intros e []%not_elem_of_nil.
  - split; [constructor|done].
  - done.
Qed.

(** A board stays, and evolves. *)
Definition store_evolves (o o' : option Board) : Prop :=
  match o, o' with Some b, Some b' => evolves b b' | Some _, None => False | None, _ => True end.

Lemma store_evolves_refl o : store_evolves o o.
Proof. destruct o; simpl; reflexivity. Qed.

Lemma store_evolves_trans o1 o2 o3 : store_evolves o1 o2 → store_evolves o2 o3 → store_evolves o1 o3.
Proof. destruct o1, o2, o3; simpl; try done. intros. by etrans. Qed.

Record steady (s : Session) : Prop := {
  steady_store : store_inv s.(store);
  steady_clock : ∀ n, reading_ok (s.(s_clock) n);
  steady_ids : ∀ n, hex_id (s.(s_ids) n) = true;
  steady_others : ∀ n o, store_inv o → store_inv (s.(others) n o) ∧ store_evolves o (s.(others) n o);
}.

(** The call does not panic, its answer satisfies [P], the session stays steady
    and its board evolves. *)
Definition runs {E A} (m : M Session E A) (P : A → Prop) : Prop :=
  ∀ s, steady s →
  steady (m s).1 ∧ store_evolves s.(store) (m s).1.(store)
  ∧ match (m s).2 with Ok a => P a | Err _ => True | Panic => False end.

Section rules.
Context `{Engine} {E A B : Type}.
Implicit Types (P : A → Prop) (Q : B → Prop).

Lemma runs_ret a P : P a → runs (E:=E) (ret a) P.
Proof. intros HP s Hs. split_and!; [done|apply store_evolves_refl|done]. Qed.

Lemma runs_throw e P : runs (E:=E) (throw e) P.
Proof. intros s Hs. split_and!; [done|apply store_evolves_refl|done]. Qed.

Lemma runs_bind (m : M Session E A) (k : A → M Session E B) P Q :
  runs m P → (∀ a, P a → runs (k a) Q) → runs (bind m k) Q.
Proof.
  intros Hm Hk s Hs. destruct (Hm s Hs) as (Hs1 & He1 & HP). unfold bind.
  destruct (m s) as [s1 [a|e|]]; simpl in *; [|done..].
  destruct (Hk a HP s1 Hs1) as (Hs2 & He2 & HQ). split_and!; [done| |done]. by eapply store_evolves_trans.
Qed.

Lemma runs_lift (r : res Refusal A) P : r ≠ Panic → (∀ a, r = Ok a → P a) → runs (lift r) P.
Proof. intros Hr HP s Hs. split_and!; [done|apply store_evolves_refl|]. destruct r; simpl; auto. Qed.

Lemma runs_debug_assert (x : bool) (P : unit → Prop) : x = true → P tt → runs (E:=E) (debug_assert x) P.
Proof. intros -> HP s Hs. split_and!; [done|apply store_evolves_refl|done]. Qed.

Lemma runs_and (m : M Session E A) P (P' : A → Prop) :
  runs m P → (∀ s s' a, m s = (s', Ok a) → P' a) → runs m P'.
Proof.
  intros Hm HP s Hs. destruct (Hm s Hs) as (? & ? & Hr). split_and!; [done..|].
  destruct (m s) as [s' [a|e|]] eqn:E'; simpl in *; [by eapply HP|done|done].
Qed.

Lemma runs_atomic create (work : T A) :
  (∀ b, board_inv b → wpb work (λ _ b', advance b b') b) → runs (atomic create work) (λ _, True).
Proof.
  intros Hw s Hs. pose proof Hs as [Hst Hc Hi Ho]. unfold atomic. destruct (Ho O s.(store) Hst) as [Hfound He].
  set (found := others s O (store s)) in *.
  set (after := λ o clock ids, {| store := o; s_clock := clock; s_ids := ids; faults := λ n, s.(faults) (S n);
                                  others := λ n, s.(others) (S n) |}).
  assert (∀ o clock ids, store_inv o → store_evolves (store s) o → (∀ n, reading_ok (clock n)) → (∀ n, hex_id (ids n) = true) →
    steady (after o clock ids) ∧ store_evolves (store s) o) as Hafter.
  { intros o ck ik H1 H2 H3 H4. split; [split; try done|done]. intros n. apply Ho. }
  destruct (faults s O); [by destruct (Hafter found s.(s_clock) s.(s_ids)) as [? ?]|].
  destruct (match found with Some b => Some b | None => if create then Some empty_board else None end) as [b|] eqn:Eb;
    [|by destruct (Hafter found s.(s_clock) s.(s_ids)) as [? ?]].
  assert (board_inv b ∧ store_evolves (store s) (Some b)) as [Hb Hse].
  { destruct found as [b'|]; [by injection Eb as <-|]. destruct create; [|done]. injection Eb as <-.
    split; [apply empty_board_inv|]. by destruct (store s). }
  specialize (Hw b Hb {| board := b; clock := s.(s_clock); ids := s.(s_ids) |} eq_refl (conj Hc Hi)).
  destruct (work _) as [t [a|e|]]; [| |done].
  - destruct Hw as [[Htc Hti] [Hti' Hte]]. destruct (Hafter (Some t.(board)) t.(clock) t.(ids)); [done|..|done].
    + eapply store_evolves_trans; [exact Hse|]. done.
    + done.
    + done.
  - destruct Hw as [Htc Hti]. by destruct (Hafter found t.(clock) t.(ids)) as [? ?].
Qed.
End rules.

Section calls_run.
Context `{Engine}.

Lemma runs_operation {A} actor access (work : RunRecord → T A) :
  keeps actor access work → runs (operation actor access work) (λ _, True).
Proof.
  intros Hw. eapply runs_bind; [by apply runs_atomic; intros; apply gate_advances|]. intros _ _.
  apply runs_atomic. intros. by apply gated_advances.
Qed.

Lemma runs_encoded v : runs (lift (encoded v)) (λ _, True).
Proof. apply runs_lift; [apply encoded_no_panic|done]. Qed.

Lemma runs_bounded v label n : runs (lift (bounded v label n)) (λ _, True).
Proof. apply runs_lift; [apply bounded_no_panic|done]. Qed.

Lemma runs_bounded_text t label n : runs (lift (bounded_text t label n)) (λ _, True).
Proof. apply runs_lift; [|done]. unfold bounded_text. by case_match. Qed.

Lemma runs_session_now : runs session_now reading_ok.
Proof.
  intros s Hs. pose proof Hs as [Hst Hc Hi Ho]. split_and!; [|apply store_evolves_refl|apply Hc].
  split; try done. intros n. apply Hc.
Qed.

Lemma runs_session_hex32 : runs session_hex32 (λ _, True).
Proof.
  intros s Hs. pose proof Hs as [Hst Hc Hi Ho]. unfold session_hex32, bind, debug_assert. rewrite Hi. simpl.
  split_and!; [|apply store_evolves_refl|done]. split; try done. intros n. apply Hi.
Qed.

(** * Creation *)

Lemma runs_deadline v : runs (run_deadline v) f64_up.
Proof.
  unfold run_deadline. destruct (deadline_value v) as [d|]; [|apply runs_throw].
  eapply runs_bind; [apply runs_session_now|]. intros now Hnow. destruct (f64_lt now d) eqn:E; simpl; [|apply runs_throw].
  eapply runs_bind; [apply runs_session_now|]. intros now' _. case_match; [|apply runs_throw].
  apply runs_ret. eapply f64_lt_up; [apply Hnow|done].
Qed.

Lemma runs_validated q : runs (validated q) contract_ok.
Proof.
  unfold validated. eapply runs_bind; [apply runs_bounded|]. intros goal _.
  eapply runs_bind; [apply runs_encoded|]. intros c _. eapply runs_bind; [apply runs_bounded_text|]. intros _ _.
  eapply runs_bind; [apply runs_encoded|]. intros e _.
  eapply (runs_bind _ _ (λ _, True)); [apply runs_lift; [apply criteria_no_panic|done]|]. intros _ _.
  eapply (runs_bind _ _ (λ _, True)); [case_match; [by apply runs_ret|apply runs_throw]|]. intros _ _.
  eapply (runs_bind _ _ (λ l, 1 <= l <= MEMBER_LIMIT_MAX)).
  { destruct (as_i64 _) as [l|]; [|apply runs_throw]. case_match; [apply runs_ret; lia|apply runs_throw]. }
  intros l Hl. eapply runs_bind; [apply runs_deadline|]. intros d Hd. by apply runs_ret.
Qed.

Lemma runs_create q : runs (create_run q) (λ _, True).
Proof.
  eapply runs_bind; [apply runs_validated|]. intros c Hc. apply runs_atomic. intros. by apply create_advances.
Qed.

(** * Joining *)

Lemma runs_joining {A} committed (m : M Session Refusal A) P : runs m P → runs (joining committed m) P.
Proof.
  intros Hm s Hs. destruct (Hm s Hs) as (? & ? & Hr). unfold joining. by destruct (m s) as [s' [a|e|]].
Qed.

Lemma join_read_advances b member : board_inv b → wpb (join_read member) (λ _ b', advance b b') b.
Proof.
  intros Hb. unfold join_read, run_coordinator, member_row. wsteps. by apply advance_refl.
Qed.

Lemma runs_admit actor member r : runs (admit_member actor member r) (λ _, True).
Proof. eapply runs_bind; [apply runs_bounded|]. intros m _. apply runs_operation, admit_keeps. Qed.

Lemma runs_join_admitting q joined c admitting :
  (is_Some admitting → joined = JoinedAdmitted) → runs (join_admitting q joined c admitting) (λ _, True).
Proof.
  intros Hj. unfold join_admitting. destruct c as [c|].
  - eapply (runs_bind _ _ (λ _, True)).
    { destruct admitting; [|by apply runs_ret]. eapply runs_bind; [apply runs_joining, runs_admit|]. intros. by apply runs_ret. }
    intros _ _. eapply (runs_bind _ _ (λ _, True)).
    { apply runs_debug_assert; [|done]. destruct admitting; [by rewrite Hj by eauto|done]. }
    intros _ _. eapply runs_bind; [apply runs_joining, runs_operation, activate_keeps|]. intros. by apply runs_ret.
  - eapply (runs_bind _ _ (λ _, True)).
    { case_match; [|by apply runs_ret]. eapply runs_bind; [apply runs_joining, runs_bounded|]. intros. by apply runs_ret. }
    intros. apply runs_joining, runs_throw.
Qed.

Lemma runs_join q : runs (join q) (λ _, True).
Proof.
  unfold join. eapply runs_bind; [apply runs_joining, runs_atomic; intros; by apply join_read_advances|].
  intros [c existing] _. destruct existing as [row|].
  - case_match; [by apply runs_ret|]. case_match; [|apply runs_joining, runs_throw].
    apply runs_join_admitting. by intros [].
  - eapply (runs_bind _ _ (λ _, True)).
    { case_match; [by apply runs_ret|]. eapply runs_bind; [apply runs_joining, runs_session_hex32|]. intros. by apply runs_ret. }
    intros r _. by apply runs_join_admitting.
Qed.

Lemma runs_join_run q : runs (join_run q) (λ _, True).
Proof.
  intros s Hs. destruct (runs_join q s Hs) as (? & ? & Hr). unfold join_run. by destruct (join q s) as [s' [[j c]|e|]].
Qed.

(** * Tasks *)

(** What the transactions of an operation answer, its work answers. *)
Lemma operation_answers {A} actor access (work : RunRecord → T A) s s' a :
  operation actor access work s = (s', Ok a) → ∃ r t t', work r t = (t', Ok a).
Proof.
  unfold operation, bind. destruct (atomic false (gate actor) s) as [s1 [?|?|]]; [|done..]. unfold atomic.
  destruct (faults s1 O); [done|]. destruct (others s1 O (store s1)) as [b|]; [|done].
  destruct (gated actor access work _) as [t [x|?|]] eqn:Eg; [|done..]. intros [= _ <-].
  revert Eg. unfold gated, bind, run, member, look, gets, lift. simpl.
  destruct (authorize _ _ _ _); [|done..]. destruct (r_record <$> b_run b) as [r|]; simpl; [|done].
  destruct (active access); simpl; [destruct (require_budget _ _); [|done..]|]; eauto.
Qed.

(** A plan to carry is for a revision that is text, and comes only unconfirmed. *)
Lemma verify_work_carry actor id token revision confirmed r t t' plan :
  verify_work actor id token revision confirmed r t = (t', Ok (Carry plan)) → confirmed = None ∧ ∃ x, revision = VString x.
Proof.
  unfold verify_work, bind. destruct (read_task id t) as [t1 [x|?|]]; [|done..].
  destruct (negb _); [done|]. unfold lift. destruct (carried_plan x revision confirmed) as [[moved|found]|?|] eqn:Ep; [| |done..].
  - destruct (bool_decide _); unfold debug_assert; [by destruct moved|].
    destruct moved; repeat (unfold ret; simpl; case_match; try done).
  - intros _. unfold carried_plan in Ep. destruct (current_revision x revision); [done| |done]. unfold carry in Ep.
    destruct (bool_decide _); [|done]. destruct (kind e); try done.
    destruct (evidence_carry (t_evidence x) revision) as [ec|] eqn:Ec; [|done].
    simpl in Ep. split; [destruct confirmed; [by case_match|done]|].
    unfold evidence_carry in Ec. destruct revision; try done. eauto.
Qed.

Lemma runs_verify_task `{Checkout} actor id token revision : runs (verify_task actor id token revision) (λ _, True).
Proof.
  unfold verify_task. eapply (runs_bind _ _ (λ v, ∀ plan, v = Carry plan → ∃ x, revision = VString x)).
  { eapply runs_and; [apply runs_operation, verify_keeps|]. intros s s' a Ha plan ->.
    apply operation_answers in Ha as (r & t & t' & Ha). by apply verify_work_carry in Ha as [_ ?]. }
  intros v Hv. destruct v as [change|plan]; [by apply runs_ret|]. destruct (Hv plan eq_refl) as [x ->]. simpl.
  eapply (runs_bind _ _ (λ _, True)); [by apply runs_ret|]. intros target _. case_match; [apply runs_throw|].
  eapply (runs_bind _ _ (λ v, ∀ p, v ≠ Carry p)).
  { eapply runs_and; [apply runs_operation, verify_keeps|]. intros s s' a Ha p ->.
    apply operation_answers in Ha as (r & t & t' & Ha). by apply verify_work_carry in Ha as [? _]. }
  intros v Hnot. destruct v as [change|p]; [by apply runs_ret|]. by destruct (Hnot p).
Qed.

(** ** Paths *)

Lemma text_leb_total a b : text_leb a b = false → text_leb b a = true.
Proof.
  revert b. induction a as [|x a IH]; intros [|y b]; simpl; try done.
  rewrite !orb_true_iff, orb_false_iff, !andb_true_iff, N.ltb_lt, N.ltb_ge, N.eqb_eq. intros [Hx Hab].
  destruct (decide (x = y)) as [->|Hne]; [|left; lia]. right. rewrite N.eqb_refl in Hab. auto.
Qed.

Lemma insert_path_sorted p l : text_sorted l = true → text_sorted (insert_path p l) = true.
Proof.
  induction l as [|q l IH]; [done|]. intros Hs. cbn [insert_path]. destruct (bool_decide (p = q)) eqn:E1; [done|].
  apply bool_decide_eq_false in E1. destruct (text_leb p q) eqn:E2.
  - cbn [text_sorted]. rewrite E2, bool_decide_false by done. done.
  - apply text_leb_total in E2. destruct l as [|r l].
    + cbn. rewrite E2, bool_decide_false by done. done.
    + cbn [text_sorted] in Hs. apply andb_true_iff in Hs as [Hqr Hs]. specialize (IH Hs). cbn [insert_path] in *.
      destruct (bool_decide (p = r)) eqn:E3; [|destruct (text_leb p r)]; cbn [text_sorted]; cbn [text_sorted] in IH;
        rewrite ?Hqr; try done; rewrite E2, bool_decide_false by congruence; done.
Qed.

Lemma normalized_loop_ok `{CheckoutLaws} given acc :
  text_sorted acc = true →
  match normalized_loop given acc with Ok l => text_sorted l = true | Err _ => True | Panic => False end.
Proof.
  revert acc. induction given as [|p given IH]; intros acc Hs; simpl; [done|].
  destruct (bounded p _ _) as [q|?|] eqn:Eb; simpl; [|done|by apply bounded_no_panic in Eb].
  destruct (normalize q) as [e|x] eqn:En; simpl; [done|]. apply normalize_relative in En as [Hne Hsl]. rewrite Hsl.
  destruct x; [done|]. simpl. apply IH, insert_path_sorted, Hs.
Qed.

Lemma insert_path_nonempty p l : insert_path p l ≠ [].
Proof. destruct l; simpl; [done|]. by repeat case_match. Qed.

Lemma normalized_loop_nonempty `{Checkout} given acc l : normalized_loop given acc = Ok l → given ≠ [] ∨ acc ≠ [] → l ≠ [].
Proof.
  revert acc. induction given as [|p given IH]; intros acc; simpl; [by intros [= <-] [|]|].
  destruct (bounded p _ _) as [q|?|]; simpl; [|done..]. destruct (normalize q) as [e|x]; simpl; [done|].
  unfold assert_that. case_match; simpl; [|done]. intros Hl _. eapply IH; [done|]. right. apply insert_path_nonempty.
Qed.

Lemma runs_reserve `{CheckoutLaws} actor id token paths : runs (reserve_files actor id token paths) (λ _, True).
Proof.
  eapply (runs_bind _ _ (λ l, text_sorted l = true)).
  - unfold normalized, refused. destruct paths as [| | | |given|]; try (apply runs_lift; done).
    case_match; [|by apply runs_lift]. pose proof (normalized_loop_ok given [] eq_refl) as Hok.
    destruct (normalized_loop given []) as [l|?|] eqn:El; simpl; [|by apply runs_lift|done].
    apply normalized_loop_nonempty in El; [|left; by destruct given]. destruct l; [done|]. simpl. apply runs_lift; [done|].
    by intros ? [= <-].
  - intros l Hl. by apply runs_operation, reserve_keeps.
Qed.
End calls_run.

(** A check of the arguments, then the operation. *)
Ltac run_checked :=
  repeat first
    [ eapply runs_bind; [apply runs_bounded|intros ? _]
    | eapply runs_bind; [apply runs_encoded|intros ? _]
    | eapply runs_bind; [apply runs_bounded_text|intros ? _] ].

Section perform.
Context `{Engine} `{CheckoutLaws}.

Lemma runs_quiet {A} (m : M Session Refusal A) : runs m (λ _, True) → runs (quiet m) (λ _, True).
Proof. intros Hm. eapply runs_bind; [exact Hm|]. intros. by apply runs_ret. Qed.

Lemma runs_create_task q : runs (create_task q) (λ _, True).
Proof.
  unfold create_task. eapply runs_bind; [apply runs_bounded|]. intros title _.
  eapply (runs_bind _ _ (λ _, True)).
  { apply runs_lift; [|done]. unfold acceptance, refused. by repeat case_match. }
  intros _ _. run_checked. apply runs_operation, create_task_keeps.
Qed.

Lemma runs_confirm_dead actor member exit : runs (confirm_member_dead actor member exit) (λ _, True).
Proof.
  eapply (runs_bind _ _ (λ _, True)).
  { apply runs_lift; [|done]. unfold exit_kind, refused. by repeat case_match. }
  intros e _. apply runs_operation, confirm_dead_keeps.
Qed.

Lemma runs_submit actor id token e : runs (submit_task actor id token e) (λ _, True).
Proof.
  eapply (runs_bind _ _ (λ _, True)).
  { apply runs_lift; [|done]. unfold submitted_evidence, refused. by repeat case_match. }
  intros _ _. run_checked. apply runs_operation, submit_keeps.
Qed.

Lemma runs_stop actor wanted reason : runs (stop_run actor wanted reason) (λ _, True).
Proof.
  unfold stop_run. run_checked. eapply (runs_bind _ _ (λ w, w ∈ STOP_STATUSES)).
  { unfold stop_status, refused. destruct (as_str wanted) as [w|]; [|by apply runs_lift].
    destruct (bool_decide (w ∈ STOP_STATUSES)) eqn:E; [|by apply runs_lift].
    apply runs_lift; [done|]. intros ? [= <-]. by apply bool_decide_eq_true in E. }
  intros w Hw. by apply runs_operation, stop_keeps.
Qed.

Lemma runs_extend actor s : runs (extend_run_deadline actor s) (λ _, True).
Proof.
  eapply (runs_bind _ _ (λ g, 1 <= g <= MAX_EXTENSION_SECONDS)).
  { unfold validate_extension, refused. destruct (as_i64 s) as [g|]; [|by apply runs_lift].
    destruct (_ && _) eqn:E; [|by apply runs_lift]. apply runs_lift; [done|]. intros ? [= <-]. lia. }
  intros g Hg. by apply runs_operation, extend_keeps.
Qed.

Lemma runs_message_id id : runs (lift (message_id id)) (λ v, is_message_id v = true).
Proof.
  unfold message_id, refused. destruct (is_message_id id) eqn:E; apply runs_lift; try done. by intros ? [= <-].
Qed.

Lemma runs_send q : runs (send q) (λ _, True).
Proof.
  unfold send. run_checked. eapply (runs_bind _ _ (λ _, True)).
  { destruct (sq_revision q); try (by apply runs_ret); (eapply runs_bind; [apply runs_bounded|]; intros; by apply runs_ret). }
  intros rev _. eapply (runs_bind _ _ (λ o, ∀ v, o = Some v → is_message_id v = true)).
  { destruct (sq_supersedes q) eqn:E; [by apply runs_ret|..];
      (destruct (is_message_id _) eqn:Em; [apply runs_ret; by intros ? [= <-]|apply runs_throw]). }
  intros sup Hsup. by apply runs_operation, send_keeps.
Qed.

(** Every call, whatever its arguments. *)
Lemma runs_perform c : runs (perform c) (λ _, True).
Proof.
  destruct c; cbn [perform]; apply runs_quiet.
  - apply runs_create.
  - apply runs_atomic. intros. by apply bootstrap_advances.
  - apply runs_join_run.
  - apply runs_admit.
  - apply runs_operation, activate_keeps.
  - apply runs_operation, record_launch_keeps.
  - apply runs_operation, release_unlaunched_keeps.
  - apply runs_operation, register_socket_keeps.
  - apply runs_confirm_dead.
  - apply runs_operation, quarantine_keeps.
  - apply runs_operation, lose_keeps.
  - apply runs_create_task.
  - apply runs_operation, set_dependencies_keeps.
  - apply runs_operation, claim_keeps.
  - apply runs_operation, release_keeps.
  - unfold block_task. run_checked. apply runs_operation, block_keeps.
  - unfold unblock_task. run_checked. apply runs_operation, unblock_keeps.
  - apply runs_submit.
  - apply runs_verify_task.
  - unfold revalidate_task. run_checked. apply runs_operation, revalidate_keeps.
  - apply runs_operation, recover_keeps.
  - unfold revoke_task. run_checked. apply runs_operation, revoke_keeps.
  - apply runs_reserve.
  - apply runs_operation, release_files_keeps.
  - apply runs_stop.
  - apply runs_operation, complete_keeps.
  - unfold pause_run. run_checked. apply runs_operation, pause_keeps.
  - apply runs_throw.
  - apply runs_operation, resume_keeps.
  - apply runs_operation, close_keeps.
  - apply runs_extend.
  - unfold amend_run_contract. run_checked. apply runs_operation, amend_keeps.
  - unfold evidence. run_checked. apply runs_operation, evidence_keeps.
  - apply runs_send.
  - eapply runs_bind; [apply runs_message_id|]. intros v Hv. by apply runs_operation, withdraw_keeps.
  - eapply runs_bind; [apply runs_message_id|]. intros v _. apply runs_operation, acknowledge_keeps.
Qed.

Lemma calls_run calls s : steady s → steady (perform_all calls s) ∧ store_evolves s.(store) (perform_all calls s).(store).
Proof.
  revert s. induction calls as [|c calls IH]; intros s Hs; simpl; [split; [done|apply store_evolves_refl]|].
  destruct (runs_perform c s Hs) as (Hs1 & He1 & _). destruct (IH _ Hs1) as [Hs2 He2]. split; [done|].
  by eapply store_evolves_trans.
Qed.

Lemma calls_inv calls s b : steady s → (perform_all calls s).(store) = Some b → board_inv b.
Proof. intros Hs Hb. destruct (calls_run calls s Hs) as [[Hst _ _ _] _]. by rewrite Hb in Hst. Qed.
End perform.

(** What single operations of the board achieve: completion, the gate's record
    of an expired deadline, replayed requests, and refusals that leave nothing. *)

Lemma forallb_elem {A} (p : A → bool) l x : forallb p l = true → x ∈ l → p x = true.
Proof. rewrite forallb_forall. intros Hp Hx. by apply Hp, list_elem_of_In. Qed.

Lemma evidence_rows_elem l r : r ∈ evidence_rows l →
  ∃ e, e ∈ l ∧ e.(ee_criterion) = Some r.(ev_criterion) ∧ e.(ee_revision) = r.(ev_revision)
  ∧ CriterionKind_parse e.(ee_kind) = Some r.(ev_kind) ∧ e.(ee_accepted) = r.(ev_accepted).
Proof.
  intros (e & He & Hr)%list_elem_of_omap. exists e. split; [done|]. unfold evidence_row in Hr.
  destruct (CriterionKind_parse (ee_kind e)), (ee_criterion e); try done. by injection Hr as <-.
Qed.

(** What [completion] has checked when it answers. *)
Lemma completion_earned criteria evidence tasks hr revision o :
  completion criteria (evidence_rows evidence) tasks hr (VString revision) = Ok o →
  criteria ≠ []
  ∧ (∀ c, c ∈ criteria → ∃ e, e ∈ evidence ∧ e.(ee_criterion) = Some c.(c_id) ∧ e.(ee_revision) = revision
      ∧ CriterionKind_parse e.(ee_kind) = Some c.(c_kind) ∧ e.(ee_accepted) = true)
  ∧ ∀ t, t ∈ tasks → t.(tr_status) = TaskState.COMPLETED ∧ evidence_current revision t = true.
Proof.
  unfold completion, completion_revision, refused. destruct (has_content revision); simpl; [|done].
  destruct (length criteria =? 0)%nat eqn:E0; simpl; [done|].
  destruct (forallb (satisfied _ _) criteria) eqn:E1; simpl; [|done].
  destruct (negb hr && _) eqn:E2; simpl; [|done]. apply andb_true_iff in E2 as [_ E2].
  destruct (forallb (evidence_current revision) tasks) eqn:E3; simpl; [|done]. intros _. split_and!.
  - by intros ->.
  - intros c Hc. pose proof (forallb_elem _ _ _ E1 Hc) as (r & Hr & Hok)%existsb_exists.
    apply list_elem_of_In, evidence_rows_elem in Hr as (e & He & H1 & H2 & H3 & H4).
    rewrite !andb_true_iff, !bool_decide_eq_true in Hok. destruct Hok as [[[Hi Hv] Ha] Hk]. exists e. split_and!; congruence.
  - intros t Ht. split; [|by eapply forallb_elem]. by apply (forallb_elem _ _ _ E2), bool_decide_eq_true in Ht.
Qed.

Section outcomes.
Context `{Engine}.

(** * The gate *)

(** The board of a run that the gate ends. *)
Definition expired_board (row : RunRow) (es : list EventRow) (b : Board) : Board :=
  set_events (b.(b_events) ++ es) (set_run (Some (ended_row (tx "budget-exhausted") (tx "deadline") row)) b).

(** The two events it leaves, at the clock's readings. *)
Definition expiry_events (actor : text) (clock : nat → f64) (b : Board) : list EventRow :=
  let stop := {| e_id := next_rowid (e_id <$> b.(b_events)); e_actor := actor; e_time := clock 1%nat; e_action := tx "stop";
                 e_detail := stored (detail [("status"%string, str "budget-exhausted"); ("reason"%string, str "deadline")]) |} in
  [stop;
   {| e_id := next_rowid (e_id <$> b.(b_events) ++ [stop]); e_actor := actor; e_time := clock 3%nat; e_action := tx "paused";
      e_detail := stored (detail [("reason"%string, str "deadline"); ("started"%string, real (clock 2%nat));
                                  ("outcome"%string, str "budget-exhausted")]) |}].

(** The run is under way, its deadline has come at [now], and [actor] is on its books. *)
Definition overdue (actor : text) (now : f64) (b : Board) (row : RunRow) : Prop :=
  b.(b_run) = Some row ∧ is_running row.(r_record) = true ∧ f64_le row.(r_record).(deadline) now = true
  ∧ is_Some (List.find (member_named (Some actor)) b.(b_members)).

(** The gate changes nothing, or ends the run that is overdue. *)
Lemma gate_effect actor t t' u :
  gate actor t = (t', Ok u) →
  t'.(board) = t.(board) ∨ ∃ row, overdue actor (t.(clock) O) t.(board) row
    ∧ t'.(board) = expired_board row (expiry_events actor t.(clock) t.(board)) t.(board).
Proof.
  unfold gate, bind, run, member, look, gets, lift. destruct (b_run (board t)) as [row|] eqn:Hr; simpl; [|done].
  destruct (List.find _ _) as [m|] eqn:Hm; [|done]. unfold authorize, reading. cbn.
  unfold now_seconds, expired. destruct (is_running (r_record row)) eqn:Hrun; cbn; [|intros [= <- _]; by left].
  destruct (f64_le _ _) eqn:Hd; cbn; [|intros [= <- _]; by left].
  unfold end_run, propose_outcome, update, modify, bind, record, event, encoded, lift, now_seconds, seconds, debug_assert, ret, expiry_events, str.
  cbn. destruct (encode _) as [?|?]; cbn; [done|]. destruct (f64_is_finite _); cbn; [|done]. destruct (encode _) as [?|?]; cbn; [done|].
  intros [= <- _]. right. exists row. split; [done|]. unfold set_board, expired_board. cbn. rewrite Hr, <-app_assoc. done.
Qed.

Lemma atomic_refused {A} create (work : T A) s s' e :
  others s O s.(store) = s.(store) → atomic create work s = (s', Err e) → s'.(store) = s.(store).
Proof.
  intros Ho. unfold atomic. rewrite Ho. destruct (faults s O); [by intros [= <- _]|].
  destruct (match store s with Some _ => _ | None => _ end); [|by intros [= <- _]].
  destruct (work _) as [t [?|?|]]; [done|by intros [= <- _]|done].
Qed.

(** A gate that succeeds, on the board it found. *)
Lemma gate_commits s s' actor u :
  (∀ n o, s.(others) n o = o) → atomic false (gate actor) s = (s', Ok u) →
  (∀ n o, s'.(others) n o = o)
  ∧ ∃ b, s.(store) = Some b ∧ (s'.(store) = Some b
      ∨ ∃ row, overdue actor (s.(s_clock) O) b row ∧ s'.(store) = Some (expired_board row (expiry_events actor s.(s_clock) b) b)).
Proof.
  intros Ho. unfold atomic. rewrite Ho. destruct (faults s O); [done|]. destruct (store s) as [b|] eqn:Est; [|done].
  destruct (gate actor _) as [t [?|?|]] eqn:Hg; [|done..]. intros [= <- _]. split; [by intros; apply Ho|].
  exists b. split; [done|]. apply gate_effect in Hg as [->|(row & Hrow & ->)]; [by left|]. right. by exists row.
Qed.

(** What the gate writes of an expired run can be written. *)
Definition can_record : Prop :=
  (∃ x, encode (detail [("status"%string, str "budget-exhausted"); ("reason"%string, str "deadline")]) = inr x)
  ∧ ∀ f, f64_is_finite f = true →
    ∃ x, encode (detail [("reason"%string, str "deadline"); ("started"%string, real f); ("outcome"%string, str "budget-exhausted")]) = inr x.

Lemma gate_expires t row actor :
  can_record → overdue actor (t.(clock) O) t.(board) row → f64_is_finite (t.(clock) 2%nat) = true →
  ∃ t', gate actor t = (t', Ok tt) ∧ t'.(board) = expired_board row (expiry_events actor t.(clock) t.(board)) t.(board).
Proof.
  intros [[x Hx] Hy] (Hr & Hrun & Hd & m & Hm) Hf. destruct (Hy _ Hf) as [y Hy'].
  unfold gate, bind, run, member, look, gets. cbn [board]. rewrite Hr, Hm. cbn [fmap option_fmap option_map].
  unfold authorize, reading, lift. cbn [coordinating read_only active andb orb negb].
  unfold expired, now_seconds. rewrite Hrun, Hd. cbn [andb].
  unfold end_run, propose_outcome, update, modify, bind, record, event, encoded, lift, now_seconds, seconds, debug_assert, ret.
  unfold str in *. cbn. rewrite Hx. cbn. rewrite Hf. cbn. rewrite Hy'. cbn. eexists. split; [done|].
  unfold set_board, expired_board, expiry_events, str. cbn. rewrite Hr. rewrite <-app_assoc. done.
Qed.

(** A run that is not under way admits no work. *)
Lemma gated_inactive {A} actor access (work : RunRecord → T A) t row :
  t.(board).(b_run) = Some row → is_running row.(r_record) = false → access.(active) = true →
  ∃ e, gated actor access work t = (t, Err e).
Proof.
  intros Hr Hrun Ha. unfold gated, bind, run, member, look, gets, lift. rewrite Hr. cbn [fmap option_fmap option_map].
  unfold authorize, refused. rewrite Ha, Hrun. cbn [negb orb]. repeat case_match; simplify_eq; eauto.
Qed.

(** * Requests *)

Lemma find_key actor request l r :
  NoDup (request_key <$> l) → r ∈ l → request_key r = (actor, request) →
  List.find (λ r, bool_decide (r.(rq_actor) = actor) && bool_decide (r.(rq_request) = request)) l = Some r.
Proof.
  intros Hnd Hr [= Ha Hq]. destruct (find _ l) as [x|] eqn:Hf.
  - apply find_elem in Hf as [Hx [Hxa Hxq]%andb_true_iff]. apply bool_decide_eq_true in Hxa, Hxq. f_equal.
    eapply (key_unique request_key); [done..|]. unfold request_key. congruence.
  - apply list_elem_of_In in Hr. apply (find_none _ _ Hf) in Hr. by rewrite !bool_decide_true in Hr.
Qed.

(** What a request that ran leaves in the ledger. *)
Lemma retry_ran actor request payload action s s' v :
  retry actor request payload action s = (s', Ok (v, true)) →
  (∃ x, bounded_text request (tx "request id") REQUEST_ID_MAX_BYTES = Ok x) ∧ ∃ p, encode payload = inr p
  ∧ {| rq_actor := actor; rq_request := request; rq_payload := p; rq_result := stored v |} ∈ s'.(board).(b_requests).
Proof.
  unfold retry, bind, lift, encoded, refused. destruct (bounded_text _ _ _) as [x|?|] eqn:Eb; [|done..].
  destruct (encode payload) as [?|p]; [done|]. unfold look, gets. simpl. destruct (find _ _) as [r|].
  { case_match; [by intros [= _ _]|done]. }
  case_match; [|done]. destruct (action s) as [t [a|?|]]; [|done..]. destruct (encode a); [done|]. simpl.
  intros [= <- <-]. split; [by eauto|]. exists p. split; [done|]. cbn. apply elem_of_app. right. by apply list_elem_of_singleton.
Qed.
End outcomes.
