(* ===== verification/SwarmProps.v ===== *)
(** A concrete engine and checkout, and a small swarm from its setup to its
    success: the input of the witnesses. *)

From stdpp Require Import pretty gmap.
From S2P Require Import Prelude SwarmValue SwarmPolicy SwarmDependencies SwarmStore SwarmOperation SwarmMembers SwarmTasks SwarmControl SwarmInv SwarmSteps SwarmCalls SwarmSafeMembers SwarmSafeTasks SwarmSafeControl.

Local Open Scope Z_scope.

Fixpoint joined (l : list text) : text :=
  match l with [] => [] | [t] => t | t :: rest => t ++ tx "," ++ joined rest end.

(** JSON text, doubles apart. *)
Fixpoint plain_json (v : Value) : text :=
  match v with
  | VNull => tx "null"
  | VBool b => if b then tx "true" else tx "false"
  | VNumber (Int z) => decimal z
  | VNumber (Float _) => tx "0.0"
  | VString t => [34%N] ++ t ++ [34%N]
  | VArray l => tx "[" ++ joined (List.map plain_json l) ++ tx "]"
  | VObject f => tx "{" ++ joined (List.map (λ kv : text * Value, [34%N] ++ kv.1 ++ [34%N] ++ tx ":" ++ plain_json kv.2) f) ++ tx "}"
  end.

#[export] Instance plain_engine : Engine := {|
  number_text n := plain_json (VNumber n);
  text_number t := if bool_decide (t = tx "1") then Some (Int 1) else if bool_decide (t = tx "2") then Some (Int 2) else None;
  encode v := inr (plain_json v);
  undumpable _ := None;
  value_text := plain_json;
|}.

#[export] Instance plain_checkout : Checkout := {|
  normalize t := if bool_decide (t = []) || starts_with_slash t then inl (refusal Invalid (tx "path")) else inr t;
  ancestry _ _ := AncestryConfirmed;
|}.

#[export] Instance plain_checkout_laws : CheckoutLaws.
Proof.
  intros p q. cbn [normalize plain_checkout]. destruct (bool_decide (p = [])) eqn:E; [done|]. apply bool_decide_eq_false in E.
  simpl. destruct (starts_with_slash p) eqn:Es; [done|]. by intros [= <-].
Qed.

(** No board yet, no one else, and a clock at a fixed time. *)
Definition start : Session := {|
  store := None;
  s_clock _ := f64_of_Z 1000;
  s_ids _ := replicate 32 97%N;
  faults _ := None;
  others _ o := o;
|}.

Lemma start_steady : steady start.
Proof.
  split; [done| |by intros; vm_compute|by intros; split; [|apply store_evolves_refl]].
  intros n. split_and!; by vm_compute.
Qed.

Definition criteria_value : Value :=
  VArray [detail [("id"%string, str "c1"); ("kind"%string, str "command"); ("description"%string, str "tests")]].
Definition commit (c : N) : Value := VString (replicate 40 c).
Definition submission (c : N) : Value :=
  VArray [detail [("artifact"%string, str "f"); ("revision"%string, commit c)]].
Definition token_value : Value := VString (replicate 32 97%N).

Definition opening : list Call :=
  [ CallCreate {| cq_member := tx "boss"; cq_goal := str "goal"; cq_constraints := VArray [str "x"]; cq_criteria := criteria_value;
                  cq_member_limit := int 3; cq_deadline := int 50000 |};
    CallCreateTask {| tq_actor := tx "boss"; tq_request := str "r1"; tq_title := str "T"; tq_acceptance := VArray [str "ok"];
                      tq_dependencies := VNull |};
    CallCreateTask {| tq_actor := tx "boss"; tq_request := str "r2"; tq_title := str "T2"; tq_acceptance := VArray [str "ok"];
                      tq_dependencies := VArray [int 1] |};
    CallClaim (tx "boss") (int 1);
    CallReserve (tx "boss") (int 1) token_value (VArray [str "b"; str "a"]) ].

Definition ending : list Call :=
  [ CallSubmit (tx "boss") (str "1") token_value (submission 98);
    CallVerify (tx "boss") (int 1) token_value (commit 97);
    CallClaim (tx "boss") (int 2);
    CallSubmit (tx "boss") (int 2) token_value (submission 97);
    CallVerify (tx "boss") (int 2) token_value (commit 97);
    CallEvidence (tx "boss") (str "c1") (str "art") (commit 97) (str "command") (VBool true);
    CallComplete (tx "boss") (commit 97);
    CallClose (tx "boss") ].

Definition board_of (s : Session) : Board := default empty_board s.(store).

Definition opened : Session := Eval vm_compute in perform_all opening start.
Definition finished : Session := Eval vm_compute in perform_all (opening ++ ending) start.

Lemma opened_reached : perform_all opening start = opened.
Proof. by vm_compute. Qed.

Lemma finished_reached : perform_all (opening ++ ending) start = finished.
Proof. by vm_compute. Qed.

(** What the swarm coordination board promises its members. *)

Section promises.
Context `{Engine} `{CheckoutLaws}.

(** C26: Whatever call a member makes and whatever the other members commit
    between its transactions, the board does not panic, its invariant holds
    after the call, and the board it leaves is one the board before may evolve
    into. *)
Theorem swarm_calls_safe c s :
  steady s →
  (perform c s).2 ≠ Panic ∧ steady (perform c s).1 ∧ store_evolves s.(store) (perform c s).1.(store).
Proof.
  intros Hs. destruct (runs_perform c s Hs) as (Hs' & He & Hr). split_and!; [|done..]. by destruct (perform c s).2.
Qed.

(** C28: No file is reserved twice, and each reservation stands under a claim
    its holder still has: its task is claimed, blocked or submitted by the same
    member under the same token. *)
Theorem swarm_reservations_exclusive calls s b :
  steady s → (perform_all calls s).(store) = Some b →
  (∀ f g, f ∈ b.(b_files) → g ∈ b.(b_files) → f.(f_path) = g.(f_path) → f = g)
  ∧ ∀ f, f ∈ b.(b_files) → ∃ t, t ∈ b.(b_tasks) ∧ f.(f_task) = CInteger t.(t_id)
      ∧ held_status t.(t_status) = true ∧ t.(t_owner) = Some f.(f_owner) ∧ t.(t_token) = f.(f_claim).
Proof.
  intros Hs Hb. destruct (inv_files _ (calls_inv calls s b Hs Hb)) as [Hnd _ Hc]. split; [|exact Hc].
  intros f g Hf Hg. by apply (key_unique f_path (b_files b)).
Qed.

(** Work starts only when what it depends on is done: every dependency of
    a task that is claimed, blocked under a claim, submitted or completed is a
    completed task. *)
Theorem swarm_dependency_order calls s b t :
  steady s → (perform_all calls s).(store) = Some b → t ∈ b.(b_tasks) → settled t = true →
  ∀ d, d ∈ dependencies_of t → ∃ t', t' ∈ b.(b_tasks) ∧ d = int t'.(t_id) ∧ t'.(t_status) = TaskState.COMPLETED.
Proof.
  intros Hs Hb Ht Hset d Hd. pose proof (calls_inv calls s b Hs Hb) as Hi.
  destruct (inv_task b t Hi Ht) as [[ds Hds] _].
  assert (∃ z, d = int z) as [z ->].
  { unfold dependencies_of in Hd. rewrite Hds in Hd. simpl in Hd. apply list_elem_of_fmap in Hd as (z & -> & _). eauto. }
  destruct (inv_order b t z Hi Ht Hset Hd) as (t' & Ht' & <- & Hc). eauto.
Qed.

(** The board is bounded: at most the run's limit of members, itself 1
    through 25, is alive; there are at most 1000 tasks and 1000 reservations,
    100 unread messages in an inbox and 10000 remembered requests. *)
Theorem swarm_bounds calls s b :
  steady s → (perform_all calls s).(store) = Some b →
  match b.(b_run) with
  | Some row => alive_count b.(b_members) <= row.(r_record).(member_limit) ∧ 1 <= row.(r_record).(member_limit) <= 25
  | None => b.(b_members) = []
  end
  ∧ Z.of_nat (length b.(b_tasks)) <= 1000 ∧ Z.of_nat (length b.(b_files)) <= 1000
  ∧ (∀ r, Z.of_nat (unread r b.(b_messages)) <= 100) ∧ Z.of_nat (length b.(b_requests)) <= 10000.
Proof.
  intros Hs Hb. destruct (calls_inv calls s b Hs Hb) as [Hr _ Ht Hf Hm _ Hq _]. split_and!.
  - destruct (b_run b) as [row|]; [|done]. destruct Hr as [(_ & _ & _ & Hl) Hn]. done.
  - apply Ht.
  - apply Hf.
  - apply Hm.
  - apply Hq.
Qed.

(** C27: A run that is closed as succeeded has earned it: at the revision its
    reason names, every criterion has evidence of its kind that the coordinator
    accepted, every task is completed with evidence at that revision, and no
    file is reserved. *)
Theorem swarm_success_earned calls s b row :
  steady s → (perform_all calls s).(store) = Some b → b.(b_run) = Some row →
  row.(r_record).(status) = Some RunState.SUCCEEDED →
  b.(b_files) = [] ∧ ∃ revision criteria,
    row.(r_record).(outcome_reason) = Some (COMPLETED_AT ++ revision)
    ∧ stored_criteria row.(r_criteria) = Ok criteria ∧ criteria ≠ []
    ∧ (∀ c, c ∈ criteria → ∃ e, e ∈ b.(b_evidence) ∧ e.(ee_criterion) = Some c.(c_id) ∧ e.(ee_revision) = revision
        ∧ CriterionKind_parse e.(ee_kind) = Some c.(c_kind) ∧ e.(ee_accepted) = true
        ∧ row.(r_record).(coordinator) = Some e.(ee_actor))
    ∧ ∀ t, t ∈ b.(b_tasks) → t.(t_status) = TaskState.COMPLETED ∧ evidence_current revision (task_record t) = true.
Proof.
  intros Hs Hb Hr Hst. pose proof (calls_inv calls s b Hs Hb) as Hi.
  pose proof (outcome_of _ _ (inv_record b row Hi Hr) Hst) as Ho. simpl in Ho.
  destruct (inv_success _ Hi row Hr Ho) as (Hf & revision & criteria & Hre & Hcr & Hcomp). split; [done|].
  exists revision, criteria. apply completion_earned in Hcomp as (Hne & Hev & Htasks). split_and!; [done..| |].
  - intros c Hc. destruct (Hev c Hc) as (e & He & ? & ? & ? & Hacc). exists e. split_and!; try done.
    destruct (inv_evidence _ Hi e He Hacc) as (row' & Hr' & Hco). congruence.
  - intros t Ht. apply (Htasks (task_record t)). by apply list_elem_of_fmap_2.
Qed.

(** C29: No call undoes what was settled: the board stays the run's, an end of
    the run is final, a dead member stays dead, a completed task stays completed
    under its owner and dependencies, a message keeps its text and is unread
    only once, and events and remembered requests are only added. *)
Theorem swarm_history calls s b :
  steady s → s.(store) = Some b →
  ∃ b', (perform_all calls s).(store) = Some b'
  ∧ (∀ row, b.(b_run) = Some row → ∃ row', b'.(b_run) = Some row' ∧ row'.(r_id) = row.(r_id)
      ∧ row'.(r_record).(coordinator) = row.(r_record).(coordinator)
      ∧ ∀ st, row.(r_record).(status) = Some st → ended st → row'.(r_record).(status) = Some st)
  ∧ rows_evolve member_evolves b.(b_members) b'.(b_members) ∧ rows_evolve task_evolves b.(b_tasks) b'.(b_tasks)
  ∧ rows_evolve message_evolves b.(b_messages) b'.(b_messages)
  ∧ b.(b_requests) `prefix_of` b'.(b_requests) ∧ b.(b_events) `prefix_of` b'.(b_events).
Proof.
  intros Hs Hb. destruct (calls_run calls s Hs) as [_ He]. rewrite Hb in He.
  destruct (perform_all calls s).(store) as [b'|]; [|done]. destruct He as [Hr Hm Ht Hmsg Hq Hev].
  exists b'. split_and!; try done. intros row Hrow. destruct (Hr row Hrow) as (row' & Hrow' & Hid & Hco & Hst).
  exists row'. split_and!; try done. intros st Hs1 Hend. rewrite Hs1 in Hst.
  destruct Hst as [<-|[[= ->]|[[[= ->]|[= ->]] _]]]; [done|..]; unfold ended in Hend; naive_solver.
Qed.

(** C30: An operation that is refused leaves no work behind: with no one else at the board it
    is as it was, unless a member made the call of a run under way whose deadline had come at the clock's
    first reading; that run is paused as out of budget, with the stop and the pause in its events and
    nothing else changed.  Conversely, an operation that needs a running run is refused then, and does leave the run so, whatever
    its work (unless the store fails, or those events cannot be encoded). *)
Theorem swarm_refusal_leaves_no_work {A} actor access (work : RunRecord → T A) s :
  steady s → (∀ n o, s.(others) n o = o) →
  let '(s', out) := operation actor access work s in
  (∀ e, out = Err e →
     s'.(store) = s.(store)
     ∨ ∃ b row, s.(store) = Some b ∧ overdue actor (s.(s_clock) O) b row
         ∧ s'.(store) = Some (expired_board row (expiry_events actor s.(s_clock) b) b))
  ∧ ∀ b row, can_record → s.(faults) O = None → s.(store) = Some b → overdue actor (s.(s_clock) O) b row → access.(active) = true →
      (∃ e, out = Err e) ∧ s'.(store) = Some (expired_board row (expiry_events actor s.(s_clock) b) b).
Proof.
  intros Hs Ho. destruct (operation actor access work s) as [s' out] eqn:He. split.
  - intros e ->. unfold operation, bind in He. destruct (atomic false (gate actor) s) as [s1 [u|e1|]] eqn:Eg; [| |done].
    + destruct (gate_commits _ _ _ _ Ho Eg) as (Ho1 & b & Hb & Hcase). apply atomic_refused in He; [|apply Ho1]. rewrite He.
      destruct Hcase as [->|(row & Hrow & ->)]; [by left|]. right. by exists b, row.
    + injection He as <- _. left. eapply atomic_refused; [apply Ho|exact Eg].
  - intros b row Hcan Hf Hb Hrow Ha.
    destruct (gate_expires {| board := b; clock := s.(s_clock); ids := s.(s_ids) |} row actor) as (t' & Hg & Hboard); [done..|apply Hs|].
    simpl in Hboard.
    assert (atomic false (gate actor) s = ({| store := Some t'.(board); s_clock := t'.(clock); s_ids := t'.(ids);
      faults := λ n, s.(faults) (S n); others := λ n, s.(others) (S n) |}, Ok tt)) as Hfirst.
    { unfold atomic. by rewrite Ho, Hf, Hb, Hg. }
    unfold operation, bind in He. rewrite Hfirst in He. unfold atomic in He. simpl in He. rewrite Ho in He. simpl in He.
    destruct (faults s 1); [injection He as <- <-; split; [by eexists|]; simpl; by rewrite Hboard|].
    destruct (gated_inactive actor access work {| board := board t'; clock := clock t'; ids := ids t' |}
      (ended_row (tx "budget-exhausted") (tx "deadline") row)) as [e Hge]; [by rewrite Hboard|done|done|].
    rewrite Hge in He. injection He as <- <-. split; [by eexists|]. simpl. by rewrite Hboard.
Qed.

(** A request made again answers as it did the first time and changes
    nothing, however much the board has changed since and whatever the work
    would do now; the same id with another payload is refused. *)
Theorem swarm_request_replayed actor request payload action s s' v action' t :
  retry actor request payload action s = (s', Ok (v, true)) →
  board_inv t.(board) → s'.(board).(b_requests) `prefix_of` t.(board).(b_requests) →
  retry actor request payload action' t = (t, Ok (stored v, false))
  ∧ ∀ other p, encode other = inr p → encode payload ≠ inr p →
    ∃ e, retry actor request other action' t = (t, Err e) ∧ e.(kind) = RequestIdReused.
Proof.
  intros Hran Hi [l Hl]. apply retry_ran in Hran as ([x Hx] & p & Hp & Hin).
  assert (find (λ r, bool_decide (rq_actor r = actor) && bool_decide (rq_request r = request)) (b_requests (board t))
          = Some {| rq_actor := actor; rq_request := request; rq_payload := p; rq_result := stored v |}) as Hfind.
  { apply find_key; [apply Hi| |done]. rewrite Hl. apply elem_of_app. by left. }
  unfold retry, bind, lift, encoded, look, gets. rewrite Hx, Hp. simpl. rewrite Hfind. simpl. rewrite bool_decide_true by done.
  split; [done|]. intros other p' Hp' Hne. rewrite Hp'.
  rewrite bool_decide_false by congruence. by eexists.
Qed.
End promises.

(** C31: The check for dependency cycles is exact and always answers: it
    accepts when no cycle can be reached from the task, and refuses with a cycle
    that can. *)
Theorem swarm_cycles_exact (to_string : Value → text) start (edges : gmap Node (list Value)) :
  (acyclic to_string start edges = Ok tt ∧ ∀ n, rtc (edge to_string edges) start n → ¬ tc (edge to_string edges) n n)
  ∨ (acyclic to_string start edges = Err (refusal DependencyCycle (tx "cyclic dependencies"))
     ∧ ∃ n, rtc (edge to_string edges) start n ∧ tc (edge to_string edges) n n).
Proof.
  pose proof (acyclic_exact to_string start edges) as Hx. destruct (acyclic to_string start edges) as [[]|e|]; [| |done].
  - left. split; [done|]. intros n Hn. apply grounded_no_cycle. clear -Hx Hn. induction Hn as [|a b c Hab _ IH]; [done|].
    apply IH. by destruct Hx as [Hx]; apply Hx.
  - right. by destruct Hx as [-> ?].
Qed.

(** * Witnesses *)

Lemma swarm_calls_safe_witness :
  steady start ∧ (perform (CallBootstrap (tx "boss") (int 10) (str "s") VNull) start).2 ≠ Panic.
Proof. split; [apply start_steady|]. by apply (swarm_calls_safe _ start start_steady). Defined.

Lemma swarm_reservations_exclusive_witness :
  length (b_files (board_of opened)) = 2%nat
  ∧ ∀ f, f ∈ b_files (board_of opened) → ∃ t, t ∈ b_tasks (board_of opened) ∧ f.(f_task) = CInteger t.(t_id)
      ∧ held_status t.(t_status) = true ∧ t.(t_owner) = Some f.(f_owner) ∧ t.(t_token) = f.(f_claim).
Proof.
  split; [reflexivity|]. apply (swarm_reservations_exclusive opening start (board_of opened) start_steady).
  rewrite opened_reached. reflexivity.
Defined.

Lemma swarm_dependency_order_witness :
  ∃ t, t ∈ b_tasks (board_of finished) ∧ dependencies_of t = [int 1] ∧
  ∃ t', t' ∈ b_tasks (board_of finished) ∧ int 1 = int t'.(t_id) ∧ t'.(t_status) = TaskState.COMPLETED.
Proof.
  destruct (b_tasks (board_of finished)) as [|t1 [|t2 l]] eqn:E; [discriminate E|discriminate E|].
  assert (t2 ∈ b_tasks (board_of finished)) as Hin by (rewrite E; right; left).
  exists t2. rewrite <-E. split; [exact Hin|]. vm_compute in E. injection E as E1 E2 E3.
  split; [by rewrite <-E2|].
  apply (swarm_dependency_order (opening ++ ending) start (board_of finished) t2 start_steady); [|exact Hin|by rewrite <-E2|].
  - rewrite finished_reached. reflexivity.
  - rewrite <-E2. left.
Defined.

Lemma swarm_bounds_witness : Z.of_nat (length (b_tasks (board_of opened))) = 2 ∧ Z.of_nat (length (b_tasks (board_of opened))) <= 1000.
Proof.
  split; [reflexivity|]. apply (swarm_bounds opening start (board_of opened) start_steady).
  rewrite opened_reached. reflexivity.
Defined.

Lemma swarm_success_earned_witness :
  (λ r, r.(r_record).(status)) <$> b_run (board_of finished) = Some (Some RunState.SUCCEEDED) ∧ b_files (board_of finished) = [].
Proof.
  split; [reflexivity|]. destruct (b_run (board_of finished)) as [row|] eqn:E; [|discriminate E].
  apply (swarm_success_earned (opening ++ ending) start (board_of finished) row start_steady).
  - rewrite finished_reached. reflexivity.
  - exact E.
  - vm_compute in E. injection E as E. rewrite <-E. reflexivity.
Defined.

Lemma opened_steady : steady opened.
Proof. rewrite <-opened_reached. apply (calls_run opening start start_steady). Qed.

Lemma swarm_history_witness :
  (board_of opened).(b_events) ≠ [] ∧ ∃ b', (perform_all ending opened).(store) = Some b' ∧ (board_of opened).(b_events) `prefix_of` b'.(b_events).
Proof.
  split; [discriminate|]. destruct (swarm_history ending opened (board_of opened) opened_steady eq_refl) as (b' & Hb' & _ & _ & _ & _ & _ & He).
  exists b'. exact (conj Hb' He).
Defined.

(** [opened] after its deadline. *)
Definition late : Session := {|
  store := opened.(store); s_clock _ := f64_of_Z 60000; s_ids := opened.(s_ids); faults := opened.(faults); others _ o := o;
|}.

Lemma late_steady : steady late.
Proof.
  destruct opened_steady as [Hst _ Hi _]. split; [exact Hst| |exact Hi|by intros; split; [|apply store_evolves_refl]].
  intros n. split_and!; by vm_compute.
Qed.

Lemma swarm_refusal_leaves_no_work_witness :
  (∃ e, (claim_task (tx "boss") (int 2) opened).2 = Err e
     ∧ ((claim_task (tx "boss") (int 2) opened).1.(store) = opened.(store)
        ∨ ∃ b row, opened.(store) = Some b ∧ overdue (tx "boss") (opened.(s_clock) O) b row
            ∧ (claim_task (tx "boss") (int 2) opened).1.(store)
              = Some (expired_board row (expiry_events (tx "boss") opened.(s_clock) b) b)))
  ∧ ∃ row, b_run (board_of opened) = Some row
     ∧ (claim_task (tx "boss") (int 2) late).1.(store)
       = Some (expired_board row (expiry_events (tx "boss") late.(s_clock) (board_of opened)) (board_of opened)).
Proof.
  split.
  - exists (refusal WrongState (tx "unmet dependencies")).
    assert ((claim_task (tx "boss") (int 2) opened).2 = Err (refusal WrongState (tx "unmet dependencies"))) as He by by vm_compute.
    split; [exact He|].
    pose proof (swarm_refusal_leaves_no_work (tx "boss") running_access (claim_work (tx "boss") (int 2)) opened opened_steady
      (λ _ _, eq_refl)) as Hr.
    unfold claim_task in *. destruct (operation _ _ _ opened) as [s' r]. destruct Hr as [Hr _]. exact (Hr _ He).
  - destruct (b_run (board_of opened)) as [row|] eqn:Er; [|discriminate Er]. exists row. split; [reflexivity|].
    pose proof (swarm_refusal_leaves_no_work (tx "boss") running_access (claim_work (tx "boss") (int 2)) late late_steady
      (λ _ _, eq_refl)) as Hr.
    unfold claim_task. destruct (operation _ _ _ late) as [s' r]. destruct Hr as [_ Hr].
    apply (Hr (board_of opened) row).
    + split; [eexists; reflexivity|]. intros f _. eexists. reflexivity.
    + reflexivity.
    + reflexivity.
    + split; [exact Er|]. vm_compute in Er. injection Er as Er. rewrite <-Er.
      split_and!; [reflexivity|by vm_compute|eexists; by vm_compute].
    + reflexivity.
Defined.

(** A request on the board of [opened]. *)
Definition asked : Tx := {| board := board_of opened; clock _ := f64_of_Z 1000; ids _ := replicate 32 97%N |}.
Definition answer : T Value := ret (str "done").

Lemma swarm_request_replayed_witness :
  (retry (tx "boss") (tx "r3") (str "p") answer asked).2 = Ok (str "done", true)
  ∧ let t := (retry (tx "boss") (tx "r3") (str "p") answer asked).1 in
    retry (tx "boss") (tx "r3") (str "p") (refuse Internal []) t = (t, Ok (stored (str "done"), false)).
Proof.
  split; [by vm_compute|]. cbv zeta.
  assert (retry (tx "boss") (tx "r3") (str "p") answer asked
          = ((retry (tx "boss") (tx "r3") (str "p") answer asked).1, Ok (str "done", true))) as Hran by by vm_compute.
  apply (swarm_request_replayed _ _ _ _ _ _ _ (refuse Internal []) _ Hran); [|done].
  assert (board_inv (board_of opened)) as Hb by apply opened_steady.
  pose proof (retry_advances (board_of opened) (tx "boss") (tx "r3") (str "p") answer Hb
    ltac:(by apply wpb_ret; split; [apply advance_refl|])) as Hw.
  specialize (Hw asked eq_refl ltac:(split; [intros; split_and!; by vm_compute|by intros; vm_compute])).
  rewrite Hran in Hw. by destruct Hw as [_ [? _]].
Defined.

(** * What the Python board accepted is accepted *)

(** The id of a task may be given as text, and the text is not the task's own
    node in the graph that is searched: a task can be made to depend on itself,
    and is then never ready. *)
Example text_id_depends_on_itself :
  (set_task_dependencies (tx "boss") (str "2") (VArray [int 2]) opened).2
  = Ok (with_state TaskState.BLOCKED None None (VArray []) (Some (tx "unmet dependencies"))
      {| t_id := 2; t_title := tx "T2"; t_acceptance := VArray [str "ok"]; t_dependencies := VArray [int 2];
         t_status := TaskState.READY; t_owner := None; t_token := None; t_evidence := VArray []; t_blocker := None |}).
Proof. by vm_compute. Qed.
