(* ===== verification/NetworkPolicy.v ===== *)
(** Which network destinations an outbound fetch may reach.

    Models [domain/tool_policy/services/network_destination.rs] and
    [domain/tool_policy/value_objects/nat64_prefix.rs].  An [Ipv4Addr] is its [u32]
    and an [Ipv6Addr] its [u128], both as [Z]; [octets] is the network order of
    their bytes. *)

From S2P Require Import Prelude BoardText.

Local Open Scope Z_scope.

(** * Machine words *)

(** [u{w}::MAX.checked_shl(n).unwrap_or(0)]. *)
Definition max_shl (w n : Z) : Z :=
  if n <? w then Z.land (Z.shiftl (Z.ones w) n) (Z.ones w) else 0.

(** [x as u32]. *)
Definition as_u32 (x : Z) : Z := Z.land x (Z.ones 32).

(** [!x] of a [u32]. *)
Definition not_u32 (x : Z) : Z := Z.lxor x (Z.ones 32).

(** [from_be_bytes] and [to_be_bytes] of [n] bytes. *)
Definition of_octets (l : list Z) : Z := foldl (λ acc o, acc * 256 + o) 0 l.
Definition octet (n : nat) (a : Z) (i : nat) : Z := Z.land (Z.shiftr a (8 * Z.of_nat (n - 1 - i))) 255.
Definition octets (n : nat) (a : Z) : list Z := octet n a <$> seq 0 n.

(** * Addresses *)

Abbreviation Ipv4Addr := Z (only parsing).
Abbreviation Ipv6Addr := Z (only parsing).

Inductive IpAddr :=
  | V4 (v4 : Ipv4Addr)
  | V6 (v6 : Ipv6Addr).

#[export] Instance IpAddr_eq_dec : EqDecision IpAddr.
Proof. solve_decision. Defined.

(** Values an address can have. *)
Definition u32_ok (a : Z) : Prop := 0 ≤ a < 2 ^ 32.
Definition u128_ok (a : Z) : Prop := 0 ≤ a < 2 ^ 128.
Definition ip_ok (a : IpAddr) : Prop := match a with V4 a => u32_ok a | V6 a => u128_ok a end.

(** [Ipv4Addr::new]. *)
Definition ipv4 (a b c d : Z) : Ipv4Addr := of_octets [a; b; c; d].

(** [v6]: the address of eight segments. *)
Definition v6 (segments : list Z) : Ipv6Addr := foldl (λ acc s, acc * 65536 + s) 0 segments.

Record NonPublicAddress := {
  address : IpAddr;
  embedded_in : option Ipv4Addr;
}.

#[export] Instance NonPublicAddress_eq_dec : EqDecision NonPublicAddress.
Proof. solve_decision. Defined.

(** * Blocks *)

Record Block := { base : Z; prefix_len : Z }.

Definition V4Block_contains (b : Block) (a : Ipv4Addr) : bool :=
  let mask := max_shl 32 (32 - prefix_len b) in
  Z.land a mask =? Z.land (base b) mask.

Definition V6Block_contains (b : Block) (a : Ipv6Addr) : bool :=
  let mask := max_shl 128 (128 - prefix_len b) in
  Z.land a mask =? Z.land (base b) mask.

Definition V4_NOT_GLOBAL : list Block :=
  [ {| base := ipv4 10 0 0 0; prefix_len := 8 |};
    {| base := ipv4 100 64 0 0; prefix_len := 10 |};
    {| base := ipv4 127 0 0 0; prefix_len := 8 |};
    {| base := ipv4 169 254 0 0; prefix_len := 16 |};
    {| base := ipv4 172 16 0 0; prefix_len := 12 |};
    {| base := ipv4 192 0 0 0; prefix_len := 24 |};
    {| base := ipv4 192 0 2 0; prefix_len := 24 |};
    {| base := ipv4 192 88 99 0; prefix_len := 24 |};
    {| base := ipv4 192 168 0 0; prefix_len := 16 |};
    {| base := ipv4 198 18 0 0; prefix_len := 15 |};
    {| base := ipv4 198 51 100 0; prefix_len := 24 |};
    {| base := ipv4 203 0 113 0; prefix_len := 24 |} ].

Definition is_public_v4 (a : Ipv4Addr) : bool :=
  let first := octet 4 a 0 in
  let unicast := (1 <=? first) && (first <=? 223) in
  unicast && forallb (λ block, negb (V4Block_contains block a)) V4_NOT_GLOBAL.

Definition V6_ALLOCATED : list Block :=
  [ {| base := v6 [0x2001; 0; 0; 0; 0; 0; 0; 0]; prefix_len := 16 |};
    {| base := v6 [0x2003; 0; 0; 0; 0; 0; 0; 0]; prefix_len := 18 |};
    {| base := v6 [0x2400; 0; 0; 0; 0; 0; 0; 0]; prefix_len := 12 |};
    {| base := v6 [0x2600; 0; 0; 0; 0; 0; 0; 0]; prefix_len := 12 |};
    {| base := v6 [0x2610; 0; 0; 0; 0; 0; 0; 0]; prefix_len := 23 |};
    {| base := v6 [0x2620; 0; 0; 0; 0; 0; 0; 0]; prefix_len := 23 |};
    {| base := v6 [0x2630; 0; 0; 0; 0; 0; 0; 0]; prefix_len := 12 |};
    {| base := v6 [0x2800; 0; 0; 0; 0; 0; 0; 0]; prefix_len := 12 |};
    {| base := v6 [0x2a00; 0; 0; 0; 0; 0; 0; 0]; prefix_len := 12 |};
    {| base := v6 [0x2a10; 0; 0; 0; 0; 0; 0; 0]; prefix_len := 12 |};
    {| base := v6 [0x2c00; 0; 0; 0; 0; 0; 0; 0]; prefix_len := 12 |} ].

Definition V6_NOT_GLOBAL : list Block :=
  [ {| base := v6 [0x2001; 0; 0; 0; 0; 0; 0; 0]; prefix_len := 23 |};
    {| base := v6 [0x2001; 0x0db8; 0; 0; 0; 0; 0; 0]; prefix_len := 32 |} ].

Definition is_public_v6 (a : Ipv6Addr) : bool :=
  existsb (λ block, V6Block_contains block a) V6_ALLOCATED
  && forallb (λ block, negb (V6Block_contains block a)) V6_NOT_GLOBAL.

(** * IPv4 inside IPv6 *)

Inductive Embedded :=
  | Judged (reached : list Ipv4Addr)
  | Absent.

Definition MAPPED : Block := {| base := v6 [0; 0; 0; 0; 0; 0xffff; 0; 0]; prefix_len := 96 |}.
Definition NAT64 : Block := {| base := v6 [0x64; 0xff9b; 0; 0; 0; 0; 0; 0]; prefix_len := 96 |}.
Definition SIX_TO_FOUR : Block := {| base := v6 [0x2002; 0; 0; 0; 0; 0; 0; 0]; prefix_len := 16 |}.
Definition TEREDO : Block := {| base := v6 [0x2001; 0; 0; 0; 0; 0; 0; 0]; prefix_len := 32 |}.

Definition embedded_ipv4 (a : Ipv6Addr) : Embedded :=
  let low := as_u32 a in
  if V6Block_contains MAPPED a || V6Block_contains NAT64 a then Judged [low]
  else if V6Block_contains SIX_TO_FOUR a then Judged [as_u32 (Z.shiftr a 80)]
  else if V6Block_contains TEREDO a then
    let server := as_u32 (Z.shiftr a 64) in
    Judged [server; not_u32 (as_u32 a)]
  else Absent.

Definition authorize_destination (a : IpAddr) : res NonPublicAddress unit :=
  let refused embedded := {| address := a; embedded_in := embedded |} in
  match a with
  | V4 v4 => if is_public_v4 v4 then Ok tt else Err (refused None)
  | V6 v6 =>
      match embedded_ipv4 v6 with
      | Judged reached =>
          match List.find (λ v4, negb (is_public_v4 v4)) reached with
          | None => Ok tt
          | Some private => Err (refused (Some private))
          end
      | Absent => if is_public_v6 v6 then Ok tt else Err (refused None)
      end
  end.

(** * NAT64 prefixes *)

Definition WELL_KNOWN_IPV4 : list Ipv4Addr := [ipv4 192 0 0 170; ipv4 192 0 0 171].

Definition LENGTHS : list Z := [32; 40; 48; 56; 64; 96].

Definition U_OCTET : nat := 8.

Record Nat64Prefix := {
  prefix : Ipv6Addr;
  length : Z;
}.

#[export] Instance Nat64Prefix_eq_dec : EqDecision Nat64Prefix.
Proof. solve_decision. Defined.

(** [128 - u32::from(length)] does not underflow: a length is one of [LENGTHS]. *)
Definition masked (a : Ipv6Addr) (len : Z) : Ipv6Addr := Z.land a (max_shl 128 (128 - len)).

Definition Nat64Prefix_new (p : Ipv6Addr) (len : Z) : option Nat64Prefix :=
  if existsb (Z.eqb len) LENGTHS then Some {| prefix := masked p len; length := len |} else None.

Definition prefix_contains (p : Nat64Prefix) (a : Ipv6Addr) : bool := masked a (length p) =? prefix p.

Section nat64.
Context {E : Type}.

(** Four calls of [take]: the positions from [length / 8] on, without the u octet. *)
Definition ipv4_octets (p : Nat64Prefix) : res E (nat * nat * nat * nat) :=
  let start := Z.to_nat (length p / 8) in
  match filter (λ octet, octet ≠ U_OCTET) (seq start (16 - start)) with
  | a :: b :: c :: d :: _ => Ok (a, b, c, d)
  | _ => Panic
  end.

Definition embedded (p : Nat64Prefix) (a : Ipv6Addr) : res E Ipv4Addr :=
  assert_that (prefix_contains p a) ;?
  let? '(i, j, k, l) := ipv4_octets p in
  Ok (ipv4 (octet 16 a i) (octet 16 a j) (octet 16 a k) (octet 16 a l)).

Definition synthesize (p : Nat64Prefix) (v4 : Ipv4Addr) : res E Ipv6Addr :=
  let? '(i, j, k, l) := ipv4_octets p in
  Ok (of_octets (<[l := octet 4 v4 3]> (<[k := octet 4 v4 2]> (<[j := octet 4 v4 1]> (<[i := octet 4 v4 0]>
    (octets 16 (prefix p))))))).

(** One length of one answer: the prefix it reveals, if it is one and was not found yet. *)
Definition discover_length (answer : Ipv6Addr) (found : list Nat64Prefix) (len : Z) : res E (list Nat64Prefix) :=
  let? candidate := or_panic (Nat64Prefix_new answer len) in
  let u_octet_clear := (len =? 96) || (octet 16 answer U_OCTET =? 0) in
  let? v4 := embedded candidate answer in
  let matches := existsb (Z.eqb v4) WELL_KNOWN_IPV4 && u_octet_clear in
  Ok (if matches && negb (bool_decide (candidate ∈ found)) then found ++ [candidate] else found).

Fixpoint rfold {A B} (f : A → B → res E A) (acc : A) (l : list B) : res E A :=
  match l with
  | [] => Ok acc
  | x :: l' => let? acc' := f acc x in rfold f acc' l'
  end.

Definition discovered_prefixes (answers : list Ipv6Addr) : res E (list Nat64Prefix) :=
  rfold (λ found answer, rfold (discover_length answer) found LENGTHS) [] answers.

Definition translated (a : Ipv6Addr) (prefixes : list Nat64Prefix) : res E (option Ipv4Addr) :=
  match List.find (λ p, prefix_contains p a) prefixes with
  | Some p => map_ok Some (embedded p a)
  | None => Ok None
  end.
End nat64.

Definition authorize_under (a : IpAddr) (prefixes : list Nat64Prefix)
    (policy : IpAddr → res NonPublicAddress unit) : res NonPublicAddress unit :=
  let? reached := match a with V6 v6 => translated v6 prefixes | V4 _ => Ok None end in
  match reached with
  | Some v4 => map_err (λ _, {| address := a; embedded_in := Some v4 |}) (policy (V4 v4))
  | None => policy a
  end.

Definition authorize_destination_under (a : IpAddr) (prefixes : list Nat64Prefix) : res NonPublicAddress unit :=
  authorize_under a prefixes authorize_destination.

(** * Names *)

Definition LOCAL_NAMES : list text :=
  [tx "localhost"; tx "localhost.localdomain"; tx "metadata"; tx "metadata.goog"; tx "metadata.google.internal"].

Definition is_local_name (name : text) : bool :=
  let bare := to_ascii_lowercase (trim_end_matches (N.eqb 46) name) in
  existsb (text_eqb bare) LOCAL_NAMES || ends_with (tx ".localhost") bare.

Definition is_fetchable_name (name : text) : bool := negb (is_local_name name).
