(* ===== verification/NetworkProps.v ===== *)
(** What the network policy admits: the addresses it names, in every spelling,
    and behind translators it discovers. *)

From S2P Require Import Prelude BoardText NetworkPolicy.

Local Open Scope Z_scope.

#[local] Arguments is_public_v4 : simpl never.
#[local] Arguments is_public_v6 : simpl never.
#[local] Arguments embedded_ipv4 : simpl never.
#[local] Arguments Z.mul : simpl never.
#[local] Arguments Z.add : simpl never.
#[local] Arguments Z.sub : simpl never.
#[local] Arguments Z.pow : simpl never.

(** * Masks, blocks and octets *)

Lemma testbit_high w a i : 0 ≤ a < 2 ^ w → w ≤ i → Z.testbit a i = false.
Proof.
  intros Ha Hi. destruct (decide (0 ≤ w)) as [Hw|Hw].
  - rewrite <- (Z.mod_small a (2 ^ w)) by done. by apply Z.mod_pow2_bits_high.
  - rewrite Z.pow_neg_r in Ha by lia. lia.
Qed.

Lemma land_max_shl w k a : 0 ≤ k ≤ w → 0 ≤ a < 2 ^ w → Z.land a (max_shl w k) = (a / 2 ^ k) * 2 ^ k.
Proof.
  intros Hk Ha. rewrite <- Z.shiftr_div_pow2, <- Z.shiftl_mul_pow2 by lia. unfold max_shl.
  apply Z.bits_inj'. intros i Hi. rewrite Z.shiftl_spec by done. destruct (Z.ltb_spec k w).
  - rewrite !Z.land_spec, Z.shiftl_spec by done. destruct (decide (i < k)).
    { by rewrite (Z.testbit_neg_r (Z.ones w)), (Z.testbit_neg_r (Z.shiftr a k)), andb_false_r by lia. }
    rewrite Z.shiftr_spec, !Z.testbit_ones_nonneg by lia. replace (i - k + k) with i by lia.
    destruct (decide (i < w)).
    + by replace ((i - k <? w) && (i <? w)) with true by lia; rewrite andb_true_r.
    + by rewrite (testbit_high w) by lia.
  - rewrite Z.land_0_r, Z.bits_0. destruct (decide (i < k)); [by rewrite Z.testbit_neg_r by lia|].
    rewrite Z.shiftr_spec by lia. by rewrite (testbit_high w) by lia.
Qed.

Lemma mul_pow_inj a b k : 0 ≤ k → a * 2 ^ k = b * 2 ^ k → a = b.
Proof. intros Hk. apply Z.mul_cancel_r. pose proof (Z.pow_pos_nonneg 2 k). lia. Qed.

Definition under (w : Z) (b : Block) (a : Z) : Prop :=
  a / 2 ^ (w - prefix_len b) = base b / 2 ^ (w - prefix_len b).

Lemma block_contains w b a (contains := λ mask, Z.land a mask =? Z.land (base b) mask) :
  0 ≤ prefix_len b ≤ w → 0 ≤ base b < 2 ^ w → 0 ≤ a < 2 ^ w →
  contains (max_shl w (w - prefix_len b)) = true ↔ under w b a.
Proof.
  intros Hp Hb Ha. subst contains. cbv beta. rewrite !land_max_shl by lia. unfold under. rewrite Z.eqb_eq. split.
  - apply mul_pow_inj. lia.
  - by intros ->.
Qed.

Lemma octet_div n a i : octet n a i = (a / 2 ^ (8 * Z.of_nat (n - 1 - i))) mod 256.
Proof.
  unfold octet. rewrite Z.shiftr_div_pow2 by lia. change 255 with (Z.ones 8). by rewrite Z.land_ones.
Qed.

Definition byte (x : Z) : Prop := 0 ≤ x < 256.

Lemma octet_byte n a i : byte (octet n a i).
Proof. rewrite octet_div. apply Z.mod_pos_bound. lia. Qed.

(** Every [u32] is the address of its octets. *)
Lemma ipv4_octets_of a : u32_ok a → a = ipv4 (octet 4 a 0) (octet 4 a 1) (octet 4 a 2) (octet 4 a 3).
Proof. unfold u32_ok, ipv4, of_octets. rewrite !octet_div. simpl. intros. Z.div_mod_to_equations. lia. Qed.

Lemma ipv4_ok a b c d : byte a → byte b → byte c → byte d → u32_ok (ipv4 a b c d).
Proof. unfold byte, u32_ok, ipv4, of_octets. simpl. lia. Qed.

(** * IPv4 *)

(** The special-purpose blocks, by their octets. *)
Definition special_v4 (a b c : Z) : Prop :=
  a = 10 ∨ (a = 100 ∧ 64 ≤ b ≤ 127) ∨ a = 127 ∨ (a = 169 ∧ b = 254) ∨ (a = 172 ∧ 16 ≤ b ≤ 31)
  ∨ (a = 192 ∧ b = 0 ∧ c = 0) ∨ (a = 192 ∧ b = 0 ∧ c = 2) ∨ (a = 192 ∧ b = 88 ∧ c = 99) ∨ (a = 192 ∧ b = 168)
  ∨ (a = 198 ∧ 18 ≤ b ≤ 19) ∨ (a = 198 ∧ b = 51 ∧ c = 100) ∨ (a = 203 ∧ b = 0 ∧ c = 113).

(** An IPv4 address of the public internet. *)
Definition global_v4 (x : Ipv4Addr) : Prop :=
  ∃ a b c d, byte a ∧ byte b ∧ byte c ∧ byte d ∧ x = ipv4 a b c d ∧ 1 ≤ a ≤ 223 ∧ ¬ special_v4 a b c.

Lemma v4_block_contains b a :
  0 ≤ prefix_len b ≤ 32 → u32_ok (base b) → u32_ok a → V4Block_contains b a = true ↔ under 32 b a.
Proof. apply (block_contains 32). Qed.

(** The leading bits of an address, by its octets. *)
Lemma v4_leading a b c d : byte a → byte b → byte c → byte d →
  (ipv4 a b c d / 2 ^ 24 = a) ∧ (ipv4 a b c d / 2 ^ 22 = a * 4 + b / 64) ∧ (ipv4 a b c d / 2 ^ 20 = a * 16 + b / 16)
  ∧ (ipv4 a b c d / 2 ^ 17 = a * 128 + b / 2) ∧ (ipv4 a b c d / 2 ^ 16 = a * 256 + b)
  ∧ (ipv4 a b c d / 2 ^ 8 = a * 65536 + b * 256 + c).
Proof. unfold ipv4, of_octets, byte. simpl. intros. split_and!; Z.div_mod_to_equations; lia. Qed.

Lemma or_congruence (A B C D : Prop) : (A ↔ B) → (C ↔ D) → (A ∨ C ↔ B ∨ D).
Proof. tauto. Qed.

(** Evaluate the leading bits of the constant addresses of the tables. *)
Ltac evaluate x := let v := eval vm_compute in x in change x with v.
Ltac leading_bits :=
  repeat match goal with
  | |- context [ipv4 (Zpos ?p) ?b ?c ?d / 2 ^ ?k] => evaluate (ipv4 (Zpos p) b c d / 2 ^ k)
  | |- context [v6 ?l / 2 ^ ?k] => evaluate (v6 l / 2 ^ k)
  | |- context [32 - Zpos ?p] => evaluate (32 - Zpos p)
  | |- context [128 - Zpos ?p] => evaluate (128 - Zpos p)
  end.

Lemma not_global_v4 a b c d : byte a → byte b → byte c → byte d →
  List.Exists (λ block, V4Block_contains block (ipv4 a b c d) = true) V4_NOT_GLOBAL ↔ special_v4 a b c.
Proof.
  intros Ha Hb Hc Hd. pose proof (ipv4_ok a b c d Ha Hb Hc Hd) as Hok.
  pose proof (v4_leading a b c d Ha Hb Hc Hd) as (H24 & H22 & H20 & H17 & H16 & H8).
  unfold V4_NOT_GLOBAL, special_v4. rewrite !List.Exists_cons, List.Exists_nil.
  rewrite !v4_block_contains by (done || (vm_compute; split; congruence)).
  unfold under, base, prefix_len. leading_bits.
  rewrite H24, H22, H20, H17, H16, H8. unfold byte in *. clear Hok H24 H22 H20 H17 H16 H8.
  repeat (apply or_congruence; [Z.div_mod_to_equations; lia|]). Z.div_mod_to_equations. lia.
Qed.

Lemma forallb_negb {A} (f : A → bool) l :
  forallb (λ x, negb (f x)) l = true ↔ ¬ List.Exists (λ x, f x = true) l.
Proof.
  induction l as [|x l IH]; simpl; [rewrite List.Exists_nil; tauto|].
  rewrite andb_true_iff, negb_true_iff, IH, List.Exists_cons, <- not_true_iff_false. tauto.
Qed.

Lemma existsb_Exists {A} (f : A → bool) l : existsb f l = true ↔ List.Exists (λ x, f x = true) l.
Proof. rewrite existsb_exists, List.Exists_exists. done. Qed.

Lemma is_public_v4_iff x : u32_ok x → is_public_v4 x = true ↔ global_v4 x.
Proof.
  intros Hx. unfold is_public_v4. rewrite !andb_true_iff, !Z.leb_le, forallb_negb. split.
  - intros [Hu Hn]. exists (octet 4 x 0), (octet 4 x 1), (octet 4 x 2), (octet 4 x 3).
    rewrite <- (ipv4_octets_of x Hx). repeat (split; [apply octet_byte|]). split; [done|]. split; [done|].
    intros Hs. apply Hn. rewrite (ipv4_octets_of x Hx). apply not_global_v4; [apply octet_byte..|done].
  - intros (a & b & c & d & Ha & Hb & Hc & Hd & -> & Hu & Hn).
    rewrite octet_div. change (8 * Z.of_nat (4 - 1 - 0)) with 24.
    destruct (v4_leading a b c d Ha Hb Hc Hd) as [-> _]. rewrite Z.mod_small by done.
    split; [done|]. by rewrite not_global_v4.
Qed.

(** * IPv6 *)

Definition segment (x : Z) : Prop := 0 ≤ x < 65536.

(** The space allocated to the registries, by the first two segments. *)
Definition allocated_v6 (s t : Z) : Prop :=
  s = 0x2001 ∨ (s = 0x2003 ∧ t < 0x4000) ∨ 0x2400 ≤ s ≤ 0x240f ∨ 0x2600 ≤ s ≤ 0x260f
  ∨ (s = 0x2610 ∧ t < 0x200) ∨ (s = 0x2620 ∧ t < 0x200) ∨ 0x2630 ≤ s ≤ 0x263f ∨ 0x2800 ≤ s ≤ 0x280f
  ∨ 0x2a00 ≤ s ≤ 0x2a0f ∨ 0x2a10 ≤ s ≤ 0x2a1f ∨ 0x2c00 ≤ s ≤ 0x2c0f.

Definition special_v6 (s t : Z) : Prop := (s = 0x2001 ∧ t < 0x200) ∨ (s = 0x2001 ∧ t = 0x0db8).

(** The address of two leading segments and 96 more bits. *)
Definition leading_v6 (s t rest : Z) : Ipv6Addr := s * 2 ^ 112 + t * 2 ^ 96 + rest.

(** A native IPv6 address of the public internet. *)
Definition global_v6 (x : Ipv6Addr) : Prop :=
  ∃ s t rest, segment s ∧ segment t ∧ 0 ≤ rest < 2 ^ 96 ∧ x = leading_v6 s t rest
  ∧ allocated_v6 s t ∧ ¬ special_v6 s t.

Lemma v6_block_contains b a :
  0 ≤ prefix_len b ≤ 128 → u128_ok (base b) → u128_ok a → V6Block_contains b a = true ↔ under 128 b a.
Proof. apply (block_contains 128). Qed.

Lemma leading_v6_ok s t rest : segment s → segment t → 0 ≤ rest < 2 ^ 96 → u128_ok (leading_v6 s t rest).
Proof. unfold segment, u128_ok, leading_v6. lia. Qed.

Lemma leading_v6_of x : u128_ok x →
  ∃ s t rest, segment s ∧ segment t ∧ 0 ≤ rest < 2 ^ 96 ∧ x = leading_v6 s t rest.
Proof.
  unfold u128_ok, segment, leading_v6. intros Hx.
  exists (x / 2 ^ 112), ((x / 2 ^ 96) mod 65536), (x mod 2 ^ 96). Z.div_mod_to_equations. lia.
Qed.

Lemma v6_leading s t rest : segment s → segment t → 0 ≤ rest < 2 ^ 96 →
  (leading_v6 s t rest / 2 ^ 112 = s) ∧ (leading_v6 s t rest / 2 ^ 116 = s / 16)
  ∧ (leading_v6 s t rest / 2 ^ 110 = s * 4 + t / 16384) ∧ (leading_v6 s t rest / 2 ^ 105 = s * 128 + t / 512)
  ∧ (leading_v6 s t rest / 2 ^ 96 = s * 65536 + t).
Proof. unfold leading_v6, segment. intros. split_and!; Z.div_mod_to_equations; lia. Qed.

Ltac v6_blocks s t rest Hok :=
  rewrite ?List.Exists_cons, ?List.Exists_nil;
  rewrite ?v6_block_contains by (done || (vm_compute; split; congruence));
  unfold under, base, prefix_len; leading_bits;
  let H112 := fresh in let H116 := fresh in let H110 := fresh in let H105 := fresh in let H96 := fresh in
  pose proof (v6_leading s t rest) as (H112 & H116 & H110 & H105 & H96); [done..|];
  rewrite ?H112, ?H116, ?H110, ?H105, ?H96; clear H112 H116 H110 H105 H96.

Lemma allocated_v6_iff s t rest : segment s → segment t → 0 ≤ rest < 2 ^ 96 →
  List.Exists (λ block, V6Block_contains block (leading_v6 s t rest) = true) V6_ALLOCATED ↔ allocated_v6 s t.
Proof.
  intros Hs Ht Hr. pose proof (leading_v6_ok s t rest Hs Ht Hr) as Hok. unfold V6_ALLOCATED, allocated_v6.
  v6_blocks s t rest Hok. unfold segment in *.
  repeat (apply or_congruence; [Z.div_mod_to_equations; lia|]). Z.div_mod_to_equations. lia.
Qed.

Lemma special_v6_iff s t rest : segment s → segment t → 0 ≤ rest < 2 ^ 96 →
  List.Exists (λ block, V6Block_contains block (leading_v6 s t rest) = true) V6_NOT_GLOBAL ↔ special_v6 s t.
Proof.
  intros Hs Ht Hr. pose proof (leading_v6_ok s t rest Hs Ht Hr) as Hok. unfold V6_NOT_GLOBAL, special_v6.
  v6_blocks s t rest Hok. unfold segment in *. Z.div_mod_to_equations. lia.
Qed.

Lemma is_public_v6_iff x : u128_ok x → is_public_v6 x = true ↔ global_v6 x.
Proof.
  intros Hx. unfold is_public_v6. rewrite andb_true_iff, forallb_negb, existsb_Exists. split.
  - intros [Ha Hn]. destruct (leading_v6_of x Hx) as (s & t & rest & Hs & Ht & Hr & ->).
    rewrite allocated_v6_iff in Ha by done. rewrite special_v6_iff in Hn by done. exists s, t, rest. done.
  - intros (s & t & rest & Hs & Ht & Hr & -> & Ha & Hn). by rewrite allocated_v6_iff, special_v6_iff.
Qed.

(** * IPv4 addresses in IPv6 *)

Definition mapped (v4 : Ipv4Addr) : Ipv6Addr := 0xffff * 2 ^ 32 + v4.
Definition well_known_nat64 (v4 : Ipv4Addr) : Ipv6Addr := 0x64ff9b * 2 ^ 96 + v4.
Definition six_to_four (v4 : Ipv4Addr) (rest : Z) : Ipv6Addr := 0x2002 * 2 ^ 112 + v4 * 2 ^ 80 + rest.
Definition teredo (server : Ipv4Addr) (flags_and_port : Z) (client : Ipv4Addr) : Ipv6Addr :=
  0x20010000 * 2 ^ 96 + server * 2 ^ 64 + flags_and_port * 2 ^ 32 + (2 ^ 32 - 1 - client).

(** [spells x l]: the IPv6 address [x] is a form that reaches the IPv4 addresses [l]. *)
Inductive spells : Ipv6Addr → list Ipv4Addr → Prop :=
  | spells_mapped v4 : u32_ok v4 → spells (mapped v4) [v4]
  | spells_nat64 v4 : u32_ok v4 → spells (well_known_nat64 v4) [v4]
  | spells_six_to_four v4 rest : u32_ok v4 → 0 ≤ rest < 2 ^ 80 → spells (six_to_four v4 rest) [v4]
  | spells_teredo server middle client : u32_ok server → u32_ok middle → u32_ok client →
      spells (teredo server middle client) [server; client].

Lemma as_u32_mod x : as_u32 x = x mod 2 ^ 32.
Proof. unfold as_u32. by rewrite Z.land_ones. Qed.

Lemma not_u32_sub x : u32_ok x → not_u32 x = 2 ^ 32 - 1 - x.
Proof.
  intros Hx. unfold not_u32.
  replace (Z.lxor x (Z.ones 32)) with (Z.ldiff (Z.ones 32) x).
  - assert (Z.ldiff x (Z.ones 32) = 0) as Hd.
    { rewrite Z.ldiff_ones_r by lia. rewrite Z.shiftr_div_pow2 by lia. rewrite Z.div_small by done. done. }
    rewrite <- Z.sub_nocarry_ldiff by done. change (Z.ones 32) with (2 ^ 32 - 1). lia.
  - apply Z.bits_inj'. intros i Hi. rewrite Z.ldiff_spec, Z.lxor_spec, Z.testbit_ones_nonneg by lia.
    destruct (Z.ltb_spec i 32); [by destruct (Z.testbit x i)|]. by rewrite (testbit_high 32) by done.
Qed.

Section forms.
Variable x : Ipv6Addr.
Hypothesis Hx : u128_ok x.

Ltac solve_form :=
  rewrite v6_block_contains by (done || (vm_compute; split; congruence));
  unfold under, MAPPED, NAT64, SIX_TO_FOUR, TEREDO, base, prefix_len; leading_bits.

Lemma mapped_iff : V6Block_contains MAPPED x = true ↔ x / 2 ^ 32 = 0xffff.
Proof. by solve_form. Qed.
Lemma nat64_iff : V6Block_contains NAT64 x = true ↔ x / 2 ^ 32 = 0x64ff9b * 2 ^ 64.
Proof. by solve_form. Qed.
Lemma six_to_four_iff : V6Block_contains SIX_TO_FOUR x = true ↔ x / 2 ^ 112 = 0x2002.
Proof. by solve_form. Qed.
Lemma teredo_iff : V6Block_contains TEREDO x = true ↔ x / 2 ^ 96 = 0x20010000.
Proof. by solve_form. Qed.

Lemma as_u32_ok y : u32_ok (as_u32 y).
Proof. rewrite as_u32_mod. by apply Z.mod_pos_bound. Qed.

Lemma embedded_spells l : embedded_ipv4 x = Judged l → spells x l.
Proof.
  unfold embedded_ipv4. destruct (V6Block_contains MAPPED x) eqn:Hm; simpl.
  { intros [= <-]. apply mapped_iff in Hm. replace x with (mapped (as_u32 x)) at 1; [constructor; apply as_u32_ok|].
    unfold mapped. rewrite as_u32_mod. Z.div_mod_to_equations. lia. }
  destruct (V6Block_contains NAT64 x) eqn:Hn; simpl.
  { intros [= <-]. apply nat64_iff in Hn. replace x with (well_known_nat64 (as_u32 x)) at 1; [constructor; apply as_u32_ok|].
    unfold well_known_nat64. rewrite as_u32_mod. Z.div_mod_to_equations. lia. }
  destruct (V6Block_contains SIX_TO_FOUR x) eqn:H6.
  { intros [= <-]. apply six_to_four_iff in H6. rewrite Z.shiftr_div_pow2 by lia.
    replace x with (six_to_four (as_u32 (x / 2 ^ 80)) (x mod 2 ^ 80)) at 1.
    - constructor; [apply as_u32_ok|by apply Z.mod_pos_bound].
    - unfold six_to_four. rewrite as_u32_mod. Z.div_mod_to_equations. lia. }
  destruct (V6Block_contains TEREDO x) eqn:Ht; [|done].
  intros [= <-]. apply teredo_iff in Ht. rewrite Z.shiftr_div_pow2, not_u32_sub by (lia || apply as_u32_ok).
  replace x with (teredo (as_u32 (x / 2 ^ 64)) (as_u32 (x / 2 ^ 32)) (2 ^ 32 - 1 - as_u32 x)) at 1.
  - pose proof (as_u32_ok x). constructor; [apply as_u32_ok..|unfold u32_ok in *; lia].
  - unfold teredo. rewrite !as_u32_mod. Z.div_mod_to_equations. lia.
Qed.
End forms.

Lemma spells_ok x l : spells x l → u128_ok x ∧ Forall u32_ok l.
Proof.
  unfold u32_ok, u128_ok. destruct 1 as [v4|v4|v4 rest|server middle client]; unfold mapped, well_known_nat64, six_to_four, teredo, u32_ok in *;
    (split; [lia|]); repeat constructor; lia.
Qed.

Lemma refuted (b : bool) (P : Prop) : (b = true ↔ P) → ¬ P → b = false.
Proof. destruct b; tauto. Qed.

Lemma spells_embedded x l : spells x l → embedded_ipv4 x = Judged l.
Proof.
  intros Hs. destruct (spells_ok x l Hs) as [Hx Hl]. unfold embedded_ipv4.
  pose proof (mapped_iff x Hx) as Hm. pose proof (nat64_iff x Hx) as Hn.
  pose proof (six_to_four_iff x Hx) as H6. pose proof (teredo_iff x Hx) as Ht.
  destruct Hs as [v4 Hv|v4 Hv|v4 rest Hv Hr|server middle client H1 H2 H3]; unfold u32_ok in *.
  - rewrite (proj2 Hm) by (unfold mapped; Z.div_mod_to_equations; lia). simpl. rewrite as_u32_mod.
    do 2 f_equal. unfold mapped. Z.div_mod_to_equations. lia.
  - rewrite (proj2 Hn), orb_true_r by (unfold well_known_nat64; Z.div_mod_to_equations; lia). rewrite as_u32_mod.
    do 2 f_equal. unfold well_known_nat64. Z.div_mod_to_equations. lia.
  - rewrite (refuted _ _ Hm), (refuted _ _ Hn) by (unfold six_to_four; Z.div_mod_to_equations; lia). simpl.
    rewrite (proj2 H6) by (unfold six_to_four; Z.div_mod_to_equations; lia).
    rewrite as_u32_mod, Z.shiftr_div_pow2 by lia. do 2 f_equal. unfold six_to_four. Z.div_mod_to_equations. lia.
  - rewrite (refuted _ _ Hm), (refuted _ _ Hn) by (unfold teredo; Z.div_mod_to_equations; lia). simpl.
    rewrite (refuted _ _ H6) by (unfold teredo; Z.div_mod_to_equations; lia).
    rewrite (proj2 Ht) by (unfold teredo; Z.div_mod_to_equations; lia).
    rewrite not_u32_sub by apply as_u32_ok. rewrite !as_u32_mod, Z.shiftr_div_pow2 by lia.
    do 2 f_equal; [|f_equal]; unfold teredo; Z.div_mod_to_equations; lia.
Qed.

(** The addresses a fetch may reach: those of the public internet, in every spelling. *)
Definition public_destination (a : IpAddr) : Prop :=
  match a with
  | V4 v4 => global_v4 v4
  | V6 v6 => (∃ l, spells v6 l ∧ Forall global_v4 l) ∨ ((∀ l, ¬ spells v6 l) ∧ global_v6 v6)
  end.

Lemma find_private l : Forall u32_ok l →
  match List.find (λ v4, negb (is_public_v4 v4)) l with
  | None => Forall global_v4 l
  | Some v4 => v4 ∈ l ∧ ¬ global_v4 v4
  end.
Proof.
  induction 1 as [|v4 l Hv Hl IH]; [constructor|]. cbn [List.find].
  destruct (is_public_v4 v4) eqn:Hp; cbn [negb].
  - destruct (List.find _ l); [by destruct IH; split; [right|]|]. constructor; [by apply is_public_v4_iff|done].
  - split; [by left|]. rewrite <- is_public_v4_iff by done. congruence.
Qed.

(** What a refusal says. *)
Definition refusal_of (a : IpAddr) (e : NonPublicAddress) : Prop :=
  address e = a ∧ ¬ public_destination a ∧
  ∀ v4, embedded_in e = Some v4 → ¬ global_v4 v4 ∧ ∃ v6 l, a = V6 v6 ∧ spells v6 l ∧ v4 ∈ l.

Lemma authorize_sound a : ip_ok a →
  match authorize_destination a with
  | Ok _ => public_destination a
  | Err e => refusal_of a e
  | Panic => False
  end.
Proof.
  destruct a as [a|a]; intros Ha; unfold authorize_destination; cbn [ip_ok] in Ha.
  { destruct (is_public_v4 a) eqn:Hp; [by apply is_public_v4_iff|]. split; [done|]. split; [|done]. unfold public_destination.
    rewrite <- is_public_v4_iff by done. congruence. }
  destruct (embedded_ipv4 a) as [l|] eqn:He.
  - apply embedded_spells in He as Hs; [|done]. destruct (spells_ok a l Hs) as [_ Hl].
    pose proof (find_private l Hl) as Hf. destruct (List.find _ l) as [v4|]; [|left; eauto].
    destruct Hf as [Hin Hn]. split; [done|]. split; [|intros ? [= <-]; eauto 10].
    intros [(l' & Hs' & Hg)|[Hno _]]; [|by eapply Hno].
    apply spells_embedded in Hs'. rewrite Hs' in He. injection He as ->.
    rewrite Forall_forall in Hg. by apply Hn, Hg, list_elem_of_In.
  - assert (∀ l, ¬ spells a l) as Hno by (intros l Hs%spells_embedded; congruence).
    destruct (is_public_v6 a) eqn:Hp; [right; split; [done|]; by apply is_public_v6_iff|].
    split; [done|]. split; [|done]. intros [(l & Hs & _)|[_ Hg]]; [by eapply Hno|].
    apply is_public_v6_iff in Hg; [congruence|done].
Qed.

(** * Octets of an address *)

Lemma of_octets_snoc l x : of_octets (l ++ [x]) = of_octets l * 256 + x.
Proof. unfold of_octets. by rewrite foldl_app. Qed.

Lemma of_octets_app l1 l2 :
  of_octets (l1 ++ l2) = of_octets l1 * 256 ^ Z.of_nat (List.length l2) + of_octets l2.
Proof.
  induction l2 as [|x l2 IH] using rev_ind.
  - rewrite app_nil_r. change (of_octets []) with 0. change (256 ^ Z.of_nat (List.length [])) with 1. lia.
  - rewrite app_assoc, !of_octets_snoc, IH, length_app. cbn [List.length].
    rewrite Nat2Z.inj_add, Z.pow_add_r by lia. change (256 ^ Z.of_nat 1) with 256. lia.
Qed.

Lemma of_octets_bound l : Forall byte l → 0 ≤ of_octets l < 256 ^ Z.of_nat (List.length l).
Proof.
  induction l as [|x l IH] using rev_ind; [done|].
  intros [Hl Hx]%Forall_app. apply IH in Hl. apply (proj1 (list.Forall_singleton _ _)) in Hx. unfold byte in Hx.
  rewrite of_octets_snoc, length_app. cbn [List.length]. rewrite Nat2Z.inj_add, Z.pow_add_r by lia.
  change (256 ^ Z.of_nat 1) with 256. lia.
Qed.

Lemma pow256 k : 0 ≤ k → 256 ^ k = 2 ^ (8 * k).
Proof. intros. rewrite Z.pow_mul_r by lia. done. Qed.

Lemma of_octets_take l k : Forall byte l → (k ≤ List.length l)%nat →
  of_octets l / 2 ^ (8 * Z.of_nat (List.length l - k)) = of_octets (take k l).
Proof.
  intros Hl Hk. rewrite <- (take_drop k l) in Hl at 1. apply Forall_app in Hl as [_ Hd].
  apply of_octets_bound in Hd. rewrite length_drop in Hd. rewrite <- pow256 by lia.
  rewrite <- (take_drop k l) at 1. rewrite of_octets_app, length_drop.
  rewrite Z.div_add_l by lia. rewrite (Z.div_small (of_octets (drop k l))) by lia. lia.
Qed.

Lemma octet_of_octets l i x : Forall byte l → l !! i = Some x → octet (List.length l) (of_octets l) i = x.
Proof.
  intros Hl Hi. pose proof (lookup_lt_Some _ _ _ Hi) as Hlt. rewrite octet_div.
  replace (List.length l - 1 - i)%nat with (List.length l - S i)%nat by lia.
  rewrite of_octets_take by (done || lia). rewrite (take_S_r _ _ x) by done. rewrite of_octets_snoc.
  rewrite Z.add_comm, Z_mod_plus_full. apply Z.mod_small.
  rewrite Forall_forall in Hl. apply Hl. apply list_elem_of_In. by eapply list_elem_of_lookup_2.
Qed.

Lemma octets_snoc n a : 0 ≤ a → octets (S n) a = octets n (a / 256) ++ [a mod 256].
Proof.
  intros Ha. unfold octets. rewrite seq_S, fmap_app. f_equal.
  - apply list_fmap_ext. intros j i [-> Hi]%lookup_seq. rewrite !octet_div.
    replace (8 * Z.of_nat (S n - 1 - (0 + j))) with (8 + 8 * Z.of_nat (n - 1 - (0 + j))) by lia.
    rewrite Z.pow_add_r, <- Z.div_div by lia. done.
  - cbn. rewrite octet_div. by replace (S n - 1 - n)%nat with 0%nat by lia; rewrite Z.div_1_r.
Qed.

Lemma of_octets_octets n a : 0 ≤ a < 2 ^ (8 * Z.of_nat n) → of_octets (octets n a) = a.
Proof.
  revert a. induction n as [|n IH]; intros a Ha.
  - unfold of_octets. cbn. change (8 * Z.of_nat 0) with 0 in Ha. lia.
  - rewrite octets_snoc by lia. rewrite of_octets_snoc, IH.
    + Z.div_mod_to_equations. lia.
    + replace (8 * Z.of_nat (S n)) with (8 + 8 * Z.of_nat n) in Ha by lia. rewrite Z.pow_add_r in Ha by lia.
      split; [apply Z.div_pos; lia|]. apply Z.div_lt_upper_bound; lia.
Qed.

Lemma octets_bytes n a : Forall byte (octets n a).
Proof. unfold octets. apply Forall_fmap, Forall_true. intros i. apply octet_byte. Qed.

Lemma octets_length n a : List.length (octets n a) = n.
Proof. unfold octets. by rewrite length_fmap, length_seq. Qed.

Lemma octets_lookup n a i : (i < n)%nat → octets n a !! i = Some (octet n a i).
Proof. intros. unfold octets. by rewrite list_lookup_fmap, lookup_seq_lt. Qed.

(** * NAT64 prefixes as they are made *)

(** A prefix as [Nat64Prefix::new] makes it, from an address. *)
Definition prefix_ok (p : Nat64Prefix) : Prop :=
  length p ∈ LENGTHS ∧ u128_ok (prefix p) ∧ masked (prefix p) (length p) = prefix p.

Lemma length_cases len : len ∈ LENGTHS → len = 32 ∨ len = 40 ∨ len = 48 ∨ len = 56 ∨ len = 64 ∨ len = 96.
Proof. unfold LENGTHS. set_solver. Qed.

Lemma masked_div a len : u128_ok a → len ∈ LENGTHS → masked a len = a / 2 ^ (128 - len) * 2 ^ (128 - len).
Proof. intros Ha Hl%length_cases. unfold masked. apply land_max_shl; [lia|done]. Qed.

Lemma masked_ok a len : u128_ok a → len ∈ LENGTHS → u128_ok (masked a len).
Proof.
  intros Ha Hl. rewrite masked_div by done. apply length_cases in Hl. unfold u128_ok in *.
  pose proof (Z.pow_pos_nonneg 2 (128 - len)) as Hp.
  pose proof (Z.mul_div_le a (2 ^ (128 - len))). pose proof (Z.div_pos a (2 ^ (128 - len))). nia.
Qed.

Lemma masked_masked a len : u128_ok a → len ∈ LENGTHS → masked (masked a len) len = masked a len.
Proof.
  intros Ha Hl. rewrite (masked_div (masked a len)) by (done || by apply masked_ok).
  rewrite masked_div by done. apply length_cases in Hl. rewrite Z.div_mul; [done|].
  pose proof (Z.pow_pos_nonneg 2 (128 - len)). lia.
Qed.

Lemma Nat64Prefix_new_ok a len : u128_ok a → len ∈ LENGTHS →
  ∃ p, Nat64Prefix_new a len = Some p ∧ prefix_ok p ∧ length p = len ∧ prefix p = masked a len ∧ prefix_contains p a = true.
Proof.
  intros Ha Hl. unfold Nat64Prefix_new.
  replace (existsb (Z.eqb len) LENGTHS) with true.
  2:{ symmetry. apply existsb_exists. exists len. split; [by apply list_elem_of_In|apply Z.eqb_refl]. }
  eexists. split; [done|]. unfold prefix_ok, prefix_contains. simpl.
  rewrite masked_masked, Z.eqb_refl by done. eauto 10 using masked_ok.
Qed.

Lemma prefix_contains_iff p a : prefix_ok p → u128_ok a →
  prefix_contains p a = true ↔ a / 2 ^ (128 - length p) = prefix p / 2 ^ (128 - length p).
Proof.
  intros (Hl & Hp & Hm) Ha. unfold prefix_contains. rewrite Z.eqb_eq. rewrite <- Hm at 1.
  rewrite !masked_div by done. apply length_cases in Hl. split; [apply mul_pow_inj; lia|by intros ->].
Qed.

(** The octets of a prefix are those of the addresses under it. *)
Lemma octet_under p a i : prefix_ok p → u128_ok a → prefix_contains p a = true → (8 * Z.of_nat i < length p) →
  octet 16 a i = octet 16 (prefix p) i.
Proof.
  intros Hp Ha Hc Hi. apply prefix_contains_iff in Hc; [|done..]. destruct Hp as [Hl _]. apply length_cases in Hl.
  set (k := 128 - length p) in *. set (e := 8 * Z.of_nat (16 - 1 - i)).
  assert (∀ x, x / 2 ^ e = x / 2 ^ k / 2 ^ (e - k)) as Hd.
  { intros x. rewrite Z.div_div by (apply Z.pow_nonzero || apply Z.pow_pos_nonneg; lia).
    rewrite <- Z.pow_add_r by lia. do 2 f_equal. lia. }
  rewrite !octet_div. fold e. by rewrite !Hd, Hc.
Qed.

Lemma octets_under p a b : prefix_ok p → u128_ok a → u128_ok b → prefix_contains p a = true → prefix_contains p b = true →
  ∀ i, 8 * Z.of_nat i < length p → octet 16 a i = octet 16 b i.
Proof. intros. by rewrite (octet_under p a i), (octet_under p b i). Qed.

(** Where a length puts the octets of an IPv4 address. *)
Definition positions (len : Z) : nat * nat * nat * nat :=
  if len =? 32 then (4, 5, 6, 7)%nat else if len =? 40 then (5, 6, 7, 9)%nat else if len =? 48 then (6, 7, 9, 10)%nat
  else if len =? 56 then (7, 9, 10, 11)%nat else if len =? 64 then (9, 10, 11, 12)%nat else (12, 13, 14, 15)%nat.

Lemma ipv4_octets_at {E} p : prefix_ok p → @ipv4_octets E p = Ok (positions (length p)).
Proof. intros [Hl _]. unfold ipv4_octets. by destruct (length_cases _ Hl) as [->|[->|[->|[->|[->| ->]]]]]. Qed.

Definition ipv4_at (len : Z) (a : Ipv6Addr) : Ipv4Addr :=
  let '(i, j, k, l) := positions len in ipv4 (octet 16 a i) (octet 16 a j) (octet 16 a k) (octet 16 a l).

Lemma embedded_at {E} p a : prefix_ok p → prefix_contains p a = true → @embedded E p a = Ok (ipv4_at (length p) a).
Proof.
  intros Hp Hc. unfold embedded, ipv4_at. rewrite Hc. simpl. rewrite ipv4_octets_at by done. simpl.
  by destruct (positions (length p)) as [[[i j] k] l].
Qed.

(** * What a prefix embeds *)

Lemma Forall_insert_byte l i x : Forall byte l → byte x → Forall byte (<[i := x]> l).
Proof. intros. by apply Forall_insert. Qed.

Lemma insert_four (l : list Z) (i j k m : nat) a b c d : List.length l = 16%nat → (i < j < k ∧ k < m < 16)%nat →
  let l' := <[m := d]> (<[k := c]> (<[j := b]> (<[i := a]> l))) in
  l' !! i = Some a ∧ l' !! j = Some b ∧ l' !! k = Some c ∧ l' !! m = Some d ∧ take i l' = take i l.
Proof.
  intros Hl Hi l'. unfold l'. split_and!.
  1-4: repeat first [rewrite list_lookup_insert_eq by (rewrite ?length_insert; lia); done|rewrite list_lookup_insert_ne by lia].
  by rewrite !take_insert_ge by lia.
Qed.

Lemma positions_facts len : len ∈ LENGTHS →
  let '(i, j, k, m) := positions len in (i < j < k ∧ k < m < 16)%nat ∧ len ≤ 8 * Z.of_nat i
  ∧ (i ≠ 8 ∧ j ≠ 8 ∧ k ≠ 8 ∧ m ≠ 8)%nat.
Proof. intros Hl. destruct (length_cases _ Hl) as [->|[->|[->|[->|[->| ->]]]]]; unfold positions; simpl; lia. Qed.

(** Below 96 the u octet is outside the prefix. *)
Lemma u_octet_clear p : prefix_ok p → length p ≠ 96 → octet 16 (prefix p) 8 = 0.
Proof.
  intros (Hl & Hok & Hm) Hne. rewrite <- Hm, masked_div, octet_div by done. apply length_cases in Hl.
  change (8 * Z.of_nat (16 - 1 - 8)) with 56. replace (128 - length p) with ((128 - length p - 64) + (8 + 56)) by lia.
  rewrite (Z.pow_add_r 2 _ (8 + 56)), (Z.pow_add_r 2 8 56) by lia. rewrite !Z.mul_assoc, Z.div_mul by done.
  by apply Z.mod_mul.
Qed.

(** A prefix gives each IPv4 address an address under it that embeds it. *)
Lemma synthesize_embeds {E} p v4 : prefix_ok p → u32_ok v4 →
  ∃ a, @synthesize E p v4 = Ok a ∧ u128_ok a ∧ prefix_contains p a = true ∧ ipv4_at (length p) a = v4 ∧
  (length p ≠ 96 → octet 16 a U_OCTET = 0).
Proof.
  intros Hp Hv. unfold synthesize. rewrite ipv4_octets_at by done. pose proof Hp as (Hl & Hok & Hm).
  pose proof (positions_facts _ Hl) as Hpos. unfold ipv4_at.
  destruct (positions (length p)) as [[[i j] k] m] eqn:Heq. destruct Hpos as (Hord & Hi & Hu). cbn [rbind].
  set (l := octets 16 (prefix p)). set (l' := <[m:=_]> _). eexists. split; [done|].
  destruct (insert_four l i j k m (octet 4 v4 0) (octet 4 v4 1) (octet 4 v4 2) (octet 4 v4 3)) as (Li & Lj & Lk & Lm & Lt);
    [apply octets_length|done|]. fold l' in Li, Lj, Lk, Lm, Lt.
  assert (Forall byte l') as Hb by (repeat apply Forall_insert_byte; [apply octets_bytes|apply octet_byte..]).
  assert (List.length l' = 16%nat) as Hlen by (unfold l'; rewrite !length_insert; apply octets_length).
  assert (u128_ok (of_octets l')) as Hok'.
  { pose proof (of_octets_bound l' Hb) as Hbd. rewrite Hlen in Hbd. exact Hbd. }
  assert (∀ n, (8 * Z.of_nat n ≤ length p)%Z → take n l' = take n l) as Htake.
  { intros n Hn. unfold l'. by rewrite !take_insert_ge by lia. }
  split; [done|]. split; [|split].
  - apply prefix_contains_iff; [done..|]. pose proof (length_cases _ Hl) as Hc.
    rewrite <- (of_octets_octets 16 (prefix p)) by exact Hok. fold l.
    replace (128 - length p) with (8 * Z.of_nat (16 - Z.to_nat (length p / 8))) by (Z.div_mod_to_equations; lia).
    rewrite <- Hlen at 1. rewrite of_octets_take by (done || (Z.div_mod_to_equations; lia)).
    replace 16%nat with (List.length l) at 2 by apply octets_length.
    rewrite of_octets_take by (apply octets_bytes || (unfold l; rewrite octets_length; Z.div_mod_to_equations; lia)).
    f_equal. apply Htake. Z.div_mod_to_equations. lia.
  - rewrite <- Hlen. erewrite !octet_of_octets by done. symmetry. by apply ipv4_octets_of.
  - intros Hne. rewrite <- Hlen. apply octet_of_octets; [done|]. unfold l', U_OCTET.
    rewrite !list_lookup_insert_ne by lia. unfold l. rewrite octets_lookup by lia. f_equal. by apply u_octet_clear.
Qed.

(** * Discovery *)

Lemma rfold_pure {E A B} (f : A → B → res E A) (g : A → B → A) l acc :
  (∀ acc x, x ∈ l → f acc x = Ok (g acc x)) → rfold f acc l = Ok (foldl g acc l).
Proof.
  revert acc. induction l as [|x l IH]; intros acc Hf; [done|]. cbn. rewrite Hf by (by left). cbn.
  apply IH. intros. apply Hf. by right.
Qed.

(** Whether an answer reveals a prefix of some length. *)
Definition reveals (answer : Ipv6Addr) (len : Z) : bool :=
  existsb (Z.eqb (ipv4_at len answer)) WELL_KNOWN_IPV4 && ((len =? 96) || (octet 16 answer U_OCTET =? 0)).

Definition revealed (answer : Ipv6Addr) (len : Z) : Nat64Prefix := {| prefix := masked answer len; length := len |}.

Definition add_revealed (answer : Ipv6Addr) (found : list Nat64Prefix) (len : Z) : list Nat64Prefix :=
  if reveals answer len && negb (bool_decide (revealed answer len ∈ found)) then found ++ [revealed answer len] else found.

Lemma discover_length_pure {E} answer found len : u128_ok answer → len ∈ LENGTHS →
  @discover_length E answer found len = Ok (add_revealed answer found len).
Proof.
  intros Ha Hl. unfold discover_length, add_revealed, reveals.
  destruct (Nat64Prefix_new_ok answer len Ha Hl) as (p & Hn & Hp & Hlen & Hpre & Hc). rewrite Hn. cbn.
  rewrite embedded_at by done. cbn. rewrite Hlen.
  by replace p with (revealed answer len) by (destruct p; simpl in *; by subst).
Qed.

Lemma discovered_pure {E} answers : Forall u128_ok answers →
  @discovered_prefixes E answers = Ok (foldl (λ found answer, foldl (add_revealed answer) found LENGTHS) [] answers).
Proof.
  intros Ha. unfold discovered_prefixes. apply rfold_pure. intros found answer Hin.
  apply rfold_pure. intros found' len Hlen. apply discover_length_pure; [|done].
  rewrite list.Forall_forall in Ha. by apply Ha.
Qed.

Lemma foldl_prefix {A B} (g : list A → B → list A) l acc : (∀ acc x, acc `prefix_of` g acc x) → acc `prefix_of` foldl g acc l.
Proof.
  intros Hg. revert acc. induction l as [|x l IH]; intros acc; [done|]. cbn. etransitivity; [apply Hg|apply IH].
Qed.

Lemma add_revealed_prefix answer found len : found `prefix_of` add_revealed answer found len.
Proof. unfold add_revealed. case_match; [by apply prefix_app_r|done]. Qed.

Lemma add_revealed_elem answer found lens q : q ∈ foldl (add_revealed answer) found lens →
  q ∈ found ∨ ∃ len, len ∈ lens ∧ reveals answer len = true ∧ q = revealed answer len.
Proof.
  revert found. induction lens as [|len lens IH]; intros found; cbn; [by left|].
  intros [Hq|(len' & Hin & Hr & ->)]%IH; [|right; exists len'; split; [by right|done]].
  unfold add_revealed in Hq. destruct (reveals answer len) eqn:Hr; cbn in Hq; [|by left].
  case_match; [|by left]. apply elem_of_app in Hq as [Hq|Hq%list_elem_of_singleton]; [by left|].
  right. exists len. split; [by left|done].
Qed.

Lemma well_known_octets len a : existsb (Z.eqb (ipv4_at len a)) WELL_KNOWN_IPV4 = true →
  let '(i, j, k, m) := positions len in
  octet 16 a i = 192 ∧ octet 16 a j = 0 ∧ octet 16 a k = 0 ∧ (octet 16 a m = 170 ∨ octet 16 a m = 171).
Proof.
  unfold ipv4_at. destruct (positions len) as [[[i j] k] m].
  pose proof (octet_byte 16 a i). pose proof (octet_byte 16 a j). pose proof (octet_byte 16 a k). pose proof (octet_byte 16 a m).
  unfold byte, WELL_KNOWN_IPV4, ipv4, of_octets in *. cbn [existsb foldl]. lia.
Qed.

Lemma well_known_private v4 : existsb (Z.eqb v4) WELL_KNOWN_IPV4 = true → ¬ global_v4 v4.
Proof.
  intros Hv Hg. assert (u32_ok v4) as Hok.
  { unfold WELL_KNOWN_IPV4, u32_ok, ipv4, of_octets in *. cbn [existsb foldl] in Hv. lia. }
  apply is_public_v4_iff in Hg; [|done]. unfold WELL_KNOWN_IPV4 in Hv. cbn [existsb] in Hv.
  apply orb_true_iff in Hv as [->%Z.eqb_eq|Hv]; [by vm_compute in Hg|].
  apply orb_true_iff in Hv as [->%Z.eqb_eq|Hv]; [by vm_compute in Hg|done].
Qed.

(** A shorter prefix that the same answer reveals embeds a well-known address in
    every address under the longer one: two well-known addresses cannot overlap. *)
Lemma shorter_revealed p len x a : prefix_ok p → u128_ok x → u128_ok a →
  prefix_contains p x = true → prefix_contains p a = true → len ∈ LENGTHS → len < length p →
  existsb (Z.eqb (ipv4_at (length p) x)) WELL_KNOWN_IPV4 = true →
  existsb (Z.eqb (ipv4_at len x)) WELL_KNOWN_IPV4 = true → ipv4_at len a = ipv4_at len x.
Proof.
  intros Hp Hx Ha Hcx Hca Hl Hlt Hwp%well_known_octets Hwl%well_known_octets.
  pose proof (octets_under p a x Hp Ha Hx Hca Hcx) as Hu. destruct Hp as [Hlp _]. unfold ipv4_at.
  destruct (length_cases _ Hl) as [->|[->|[->|[->|[->| ->]]]]];
    destruct (length_cases _ Hlp) as [Hq|[Hq|[Hq|[Hq|[Hq|Hq]]]]]; rewrite Hq in *; try lia;
    unfold positions in *; simpl in Hwp, Hwl |- *; try lia; by rewrite !Hu by lia.
Qed.

Lemma lengths_split len : len ∈ LENGTHS → ∃ l1 l2, LENGTHS = l1 ++ len :: l2 ∧ Forall (λ l, l ∈ LENGTHS ∧ l < len) l1.
Proof.
  intros [->|[->|[->|[->|[->| ->]]]]]%length_cases.
  - exists [], [40; 48; 56; 64; 96]. done.
  - exists [32], [48; 56; 64; 96]. split; [done|]. repeat constructor; (set_solver || lia).
  - exists [32; 40], [56; 64; 96]. split; [done|]. repeat constructor; (set_solver || lia).
  - exists [32; 40; 48], [64; 96]. split; [done|]. repeat constructor; (set_solver || lia).
  - exists [32; 40; 48; 56], [96]. split; [done|]. repeat constructor; (set_solver || lia).
  - exists [32; 40; 48; 56; 64], []. split; [done|]. repeat constructor; (set_solver || lia).
Qed.

(** What the first answer of a translator leaves at the head of the prefixes found. *)
Lemma first_answer_reveals {E} p x wk : prefix_ok p → wk ∈ WELL_KNOWN_IPV4 → @synthesize E p wk = Ok x →
  u128_ok x ∧ prefix_contains p x = true ∧ existsb (Z.eqb (ipv4_at (length p) x)) WELL_KNOWN_IPV4 = true
  ∧ reveals x (length p) = true ∧ revealed x (length p) = p.
Proof.
  intros Hp Hwk Hs. assert (u32_ok wk) as Hok.
  { unfold WELL_KNOWN_IPV4, u32_ok, ipv4, of_octets in *. cbn [foldl] in Hwk. set_unfold in Hwk. lia. }
  destruct (@synthesize_embeds E p wk Hp Hok) as (x' & Hs' & Hx & Hc & Hat & Hu). rewrite Hs in Hs'. injection Hs' as <-.
  assert (existsb (Z.eqb (ipv4_at (length p) x)) WELL_KNOWN_IPV4 = true) as Hw.
  { rewrite Hat. apply existsb_exists. exists wk. split; [by apply list_elem_of_In|apply Z.eqb_refl]. }
  split; [done|]. split; [done|]. split; [done|]. split.
  - unfold reveals. rewrite Hw, andb_true_l. destruct (Z.eqb_spec (length p) 96); [done|]. by rewrite Hu by done.
  - unfold revealed. unfold prefix_contains in Hc. apply Z.eqb_eq in Hc. rewrite Hc. by destruct p.
Qed.

Lemma find_app_first {A} (f : A → bool) l1 l2 y : y ∈ l1 → f y = true → ∃ z, List.find f (l1 ++ l2) = Some z ∧ z ∈ l1 ∧ f z = true.
Proof.
  induction l1 as [|w l1 IH]; [by intros ?%not_elem_of_nil|]. intros Hy Hf. cbn. destruct (f w) eqn:Hw.
  - exists w. split; [done|]. split; [by left|done].
  - apply elem_of_cons in Hy as [->|Hy]; [congruence|]. destruct (IH Hy Hf) as (z & Hz & Hin & Hfz).
    exists z. split; [done|]. split; [by right|done].
Qed.

Lemma Nat64Prefix_new_prefix_ok base len p : u128_ok base → Nat64Prefix_new base len = Some p → prefix_ok p.
Proof.
  intros Hb Hn. assert (len ∈ LENGTHS) as Hl.
  { unfold Nat64Prefix_new in Hn. destruct (existsb _ _) eqn:He; [|done].
    apply existsb_elem in He as (l & Hin & ->%Z.eqb_eq). done. }
  destruct (Nat64Prefix_new_ok base len Hb Hl) as (p' & Hn' & Hp & _). congruence.
Qed.

Lemma ipv4_at_ok len a : u32_ok (ipv4_at len a).
Proof. unfold ipv4_at. destruct (positions len) as [[[i j] k] m]. apply ipv4_ok; apply octet_byte. Qed.

(** Behind a translator that discovery revealed, the first prefix that holds an
    address embeds what the translator reaches, or a well-known address. *)
Lemma translator_found {E} p answers :
  prefix_ok p → answers ≠ [] → (∀ x, x ∈ answers → ∃ wk, wk ∈ WELL_KNOWN_IPV4 ∧ @synthesize E p wk = Ok x) →
  ∃ found, @discovered_prefixes E answers = Ok found ∧ p ∈ found ∧ ∀ a, u128_ok a → prefix_contains p a = true →
  ∃ q, List.find (λ p, prefix_contains p a) found = Some q ∧ prefix_ok q ∧ prefix_contains q a = true
  ∧ (ipv4_at (length q) a = ipv4_at (length p) a ∨ existsb (Z.eqb (ipv4_at (length q) a)) WELL_KNOWN_IPV4 = true).
Proof.
  intros Hp Hne Hans. destruct answers as [|x answers]; [done|]. pose proof Hp as (Hlp & _ & _).
  assert (Forall u128_ok (x :: answers)) as Hok.
  { apply list.Forall_forall. intros y Hy. destruct (Hans y Hy) as (wk & Hwk & Hs). by eapply first_answer_reveals in Hs as (? & _). }
  destruct (Hans x) as (wk & Hwk & Hs); [by left|].
  destruct (first_answer_reveals p x wk Hp Hwk Hs) as (Hx & Hcx & Hw & Hr & Hrev).
  destruct (lengths_split _ Hlp) as (l1 & l2 & HL & Hl1).
  set (pre := add_revealed x (foldl (add_revealed x) [] l1) (length p)).
  assert (p ∈ pre) as Hpre.
  { unfold pre, add_revealed. rewrite Hr, Hrev, andb_true_l. case_bool_decide; cbn [negb]; [done|]. apply elem_of_app. right. by left. }
  assert (∀ q, q ∈ pre → ∃ len, len ∈ LENGTHS ∧ len ≤ length p ∧ reveals x len = true ∧ q = revealed x len) as Hfrom.
  { intros q Hq. assert (q ∈ foldl (add_revealed x) [] (l1 ++ [length p])) as Hq' by (by rewrite foldl_app).
    apply add_revealed_elem in Hq' as [?%not_elem_of_nil|(len & Hin & Hrl & ->)]; [done|]. exists len.
    apply elem_of_app in Hin as [Hin|Hin%list_elem_of_singleton]; [|by subst].
    rewrite list.Forall_forall in Hl1. destruct (Hl1 len Hin). split; [done|]. split; [lia|done]. }
  rewrite discovered_pure by done. set (found := foldl _ [] (x :: answers)). exists found.
  assert (∃ rest, found = pre ++ rest) as [rest Hfound].
  { assert (pre `prefix_of` found) as [rest ->]; [|by exists rest]. unfold found. cbn [foldl]. etransitivity.
    2:{ apply foldl_prefix. intros acc y. apply foldl_prefix. intros. apply add_revealed_prefix. }
    rewrite HL, foldl_app. cbn [foldl]. apply foldl_prefix. intros. apply add_revealed_prefix. }
  split; [done|]. rewrite Hfound. split; [apply elem_of_app; by left|]. intros a Ha Hc.
  destruct (find_app_first (λ p, prefix_contains p a) pre rest p Hpre Hc) as (q & Hf & Hq & Hcq).
  exists q. split; [done|]. destruct (Hfrom q Hq) as (len & Hlen & Hle & Hrl & ->).
  destruct (Nat64Prefix_new_ok x len Hx Hlen) as (q' & _ & Hq' & Hq'l & Hq'p & _).
  assert (q' = revealed x len) as -> by (destruct q'; simpl in *; by subst).
  split; [done|]. split; [done|]. cbn [length revealed]. destruct (decide (len = length p)) as [->|Hlt]; [by left|].
  right. unfold reveals in Hrl. apply andb_prop in Hrl as [Hwl _].
  by rewrite (shorter_revealed p len x a) by (done || lia).
Qed.

(** * What is promised *)

(** C32: An outbound fetch reaches the public internet only, however the address is
    spelled: an address is admitted exactly when it is a global unicast IPv4
    address (by its octets), an IPv6 form (mapped, NAT64, 6to4, Teredo) all of
    whose IPv4 addresses are, or a native IPv6 address of allocated space that is not
    special-purpose; a refusal names the address and, for an IPv6 form, an IPv4
    address it reaches that is not public; nothing panics. *)
Theorem fetch_reaches_public_only a : ip_ok a →
  (authorize_destination a = Ok tt ↔ public_destination a) ∧
  (∀ e, authorize_destination a = Err e → refusal_of a e) ∧
  authorize_destination a ≠ Panic.
Proof.
  intros Ha. pose proof (authorize_sound a Ha) as Hs. destruct (authorize_destination a) as [[]|e|]; [|..|done].
  - done.
  - split; [|split; [by intros ? [= <-]|done]]. split; [done|]. intros Hp. by destruct Hs as (_ & Hn & _).
Qed.

Lemma fetch_reaches_public_only_witness :
  ip_ok (V6 (mapped (ipv4 169 254 169 254))) ∧
  authorize_destination (V6 (mapped (ipv4 169 254 169 254)))
    = Err {| address := V6 (mapped (ipv4 169 254 169 254)); embedded_in := Some (ipv4 169 254 169 254) |} ∧
  refusal_of (V6 (mapped (ipv4 169 254 169 254)))
    {| address := V6 (mapped (ipv4 169 254 169 254)); embedded_in := Some (ipv4 169 254 169 254) |}.
Proof.
  assert (ip_ok (V6 (mapped (ipv4 169 254 169 254)))) as Hok by (vm_compute; split; congruence).
  split; [exact Hok|]. split; [vm_compute; reflexivity|].
  apply (fetch_reaches_public_only _ Hok). vm_compute. reflexivity.
Defined.

(** C33: Behind a translator that discovery reveals, no private IPv4 address is
    reached: when the AAAA answers are the ones a translator with some NAT64
    prefix gives for the discovery name, its prefix is discovered, and every address under the
    prefix that embeds an IPv4 address which is not public is refused, even where the
    answers happen to reveal prefixes of other lengths too. *)
Theorem translator_reaches_no_private base len p answers :
  u128_ok base → Nat64Prefix_new base len = Some p → answers ≠ [] →
  (∀ x, x ∈ answers → ∃ wk, wk ∈ WELL_KNOWN_IPV4 ∧ @synthesize NonPublicAddress p wk = Ok x) →
  ∃ found, @discovered_prefixes NonPublicAddress answers = Ok found ∧ p ∈ found ∧
  ∀ a v4, u128_ok a → prefix_contains p a = true → @embedded NonPublicAddress p a = Ok v4 → ¬ global_v4 v4 →
  ∃ e, authorize_destination_under (V6 a) found = Err e ∧ address e = V6 a.
Proof.
  intros Hb Hnew Hne Hans. assert (prefix_ok p) as Hp by (by eapply Nat64Prefix_new_prefix_ok).
  destruct (translator_found p answers Hp Hne Hans) as (found & Hd & Hin & Hj). exists found. split; [done|]. split; [done|].
  intros a v4 Ha Hc He Hn. destruct (Hj a Ha Hc) as (q & Hf & Hq & Hcq & Hat).
  rewrite embedded_at in He by done. injection He as <-.
  assert (¬ global_v4 (ipv4_at (length q) a)) as Hnq by (destruct Hat as [->|Hw%well_known_private]; done).
  unfold authorize_destination_under, authorize_under, translated. rewrite Hf. rewrite embedded_at by done.
  cbn [map_ok rbind]. pose proof (authorize_sound (V4 (ipv4_at (length q) a)) (ipv4_at_ok _ a)) as Hs.
  destruct (authorize_destination _) as [u|e|]; [done| |done]. by eexists.
Qed.

Lemma translator_reaches_no_private_witness : ∃ found,
  @discovered_prefixes NonPublicAddress [v6 [0x2a00; 1; 0; 0; 0; 0; 0xc000; 0xaa]] = Ok found ∧
  ∃ e, authorize_destination_under (V6 (v6 [0x2a00; 1; 0; 0; 0; 0; 0x0a00; 1])) found = Err e
    ∧ address e = V6 (v6 [0x2a00; 1; 0; 0; 0; 0; 0x0a00; 1]).
Proof.
  destruct (translator_reaches_no_private (v6 [0x2a00; 1; 0; 0; 0; 0; 0; 0]) 96
    {| prefix := v6 [0x2a00; 1; 0; 0; 0; 0; 0; 0]; length := 96 |} [v6 [0x2a00; 1; 0; 0; 0; 0; 0xc000; 0xaa]])
    as (found & Hd & _ & Hr).
  - vm_compute. split; congruence.
  - vm_compute. reflexivity.
  - discriminate.
  - intros x Hx. exists (ipv4 192 0 0 170). split; [left|]. apply list_elem_of_singleton in Hx as ->. vm_compute. reflexivity.
  - exists found. split; [exact Hd|]. apply (Hr _ (ipv4 10 0 0 1)).
    + vm_compute. split; congruence.
    + vm_compute. reflexivity.
    + vm_compute. reflexivity.
    + intros Hg. apply is_public_v4_iff in Hg; [vm_compute in Hg; discriminate|vm_compute; split; congruence].
Defined.

(** Where two translators' prefixes nest, an address under both is judged by the
    prefix found first, not by the longer one that routes it: here the inner
    translator reaches 10.0.0.1, and the address is admitted as 8.8.8.8. *)
Example nested_translators_judged_by_first :
  let outer := v6 [0x2a00; 1; 0xc000; 0xaa; 0; 0; 0; 0] in
  let inner := v6 [0x2a00; 1; 0x0808; 0x0808; 0; 0; 0xc000; 0xaa] in
  let a := v6 [0x2a00; 1; 0x0808; 0x0808; 0; 0; 0x0a00; 1] in
  ∃ p found, @discovered_prefixes NonPublicAddress [outer; inner] = Ok found ∧ p ∈ found ∧
  @embedded NonPublicAddress p a = Ok (ipv4 10 0 0 1) ∧ authorize_destination_under (V6 a) found = Ok tt.
Proof.
  exists {| prefix := v6 [0x2a00; 1; 0x0808; 0x0808; 0; 0; 0; 0]; length := 96 |}. eexists.
  split; [vm_compute; reflexivity|]. split; [right; left|]. split; vm_compute; reflexivity.
Qed.
