(* ===== verification/ProviderError.v ===== *)
(** Provider errors: their classes, what of them is retried, how long a retry
    waits, and a model the provider refuses.

    Models [domain/inference/services/provider_error.rs], [provider_retry.rs] and
    [domain/shared/error.rs].  Offsets into a text count its characters: the source
    only compares offsets of the same text.  The JSON reader is a parameter. *)

From S2P Require Import Prelude BoardText SwarmValue.

Inductive DomainError :=
  | Provider (message : text)
  | Tool (message : text)
  | SessionError (message : text)
  | Security (message : text)
  | Config (message : text)
  | Other (message : text).

Inductive ProviderErrorClass :=
  | RateLimit | Billing | Auth | Server | EmptyStream | Stalled | OutputCapped | Client | Network
  | Cancelled | Admission | Unknown.

#[export] Instance ProviderErrorClass_eq_dec : EqDecision ProviderErrorClass.
Proof. solve_decision. Defined.

Definition from_status (status : N) : ProviderErrorClass :=
  if char_in status [401; 403]%N then Auth
  else if (status =? 402)%N then Billing
  else if (status =? 429)%N then RateLimit
  else if char_in status [400; 404; 405; 406; 409; 410; 422]%N then Client
  else if char_in status [500; 502; 503; 504; 529]%N then Server
  else Unknown.

Definition is_retryable (c : ProviderErrorClass) : bool :=
  match c with RateLimit | Server | Network | EmptyStream | Stalled => true | _ => false end.

Definition max_failures (c : ProviderErrorClass) : option N :=
  match c with Stalled => Some 2%N | _ => None end.

(** ** Capped failures *)

Definition u32_max : N := 4294967295%N.

Record CappedFailures := { stalls : N }.

Definition no_failures : CappedFailures := {| stalls := 0 |}.

Definition allows_another (f : CappedFailures) (class : ProviderErrorClass) : CappedFailures * bool :=
  match class, max_failures class with
  | Stalled, Some cap =>
      let n := N.min (stalls f + 1) u32_max in ({| stalls := n |}, (n <? cap)%N)
  | _, _ => (f, true)
  end.

(** * Searching a text *)

(** The places where [p] is found in [t], searching on from the end of each match:
    the offset and what follows the match.  [skip] characters of a match are still to pass. *)
Fixpoint found_from (p : text) (skip i : nat) (t : text) : list (nat * text) :=
  match t with
  | [] => []
  | _ :: t' =>
      match skip with
      | S k => found_from p k (S i) t'
      | 0 => match strip_prefix p t with
             | Some rest => (i, rest) :: found_from p (length p - 1) (S i) t'
             | None => found_from p 0 (S i) t'
             end
      end
  end.

Definition found (p t : text) : list (nat * text) := found_from p 0 0 t.

(** [str::find] and [str::split_once] of a text. *)
Definition find_str (p t : text) : option nat := fst <$> head (found p t).
Definition split_once_str (p t : text) : option (text * text) :=
  match head (found p t) with Some (i, rest) => Some (take i t, rest) | None => None end.

Definition is_ascii_whitespace (c : N) : bool := char_in c [32; 9; 10; 12; 13]%N.
Definition is_ascii_hexdigit (c : N) : bool :=
  is_ascii_digit c || (((65 <=? c) && (c <=? 70)) || ((97 <=? c) && (c <=? 102)))%N.

(** [(a - b'0') * 100 + (b - b'0') * 10 + (c - b'0')]. *)
Definition three_digits (a b c : N) : N := ((a - 48) * 100 + (b - 48) * 10 + (c - 48))%N.

Definition in_status_range (code : N) : bool := ((100 <=? code) && (code <=? 599))%N.

(** * Status positions *)

Fixpoint parse_status_near (s : text) : option N :=
  match s with
  | [] => None
  | b :: rest =>
      if is_ascii_digit b then
        match rest with
        | d1 :: d2 :: after =>
            if negb (is_ascii_digit d1) || negb (is_ascii_digit d2)
               || match after with d3 :: _ => is_ascii_digit d3 | [] => false end
            then None
            else let code := three_digits b d1 d2 in if in_status_range code then Some code else None
        | _ => None
        end
      else if negb (is_ascii_whitespace b || char_in b (tx ":=-/")) then None
      else parse_status_near rest
  end.

Definition ends_url (c : N) : bool := is_ascii_whitespace c || char_in c (34%N :: tx "'`()<>[]{},;").

Definition is_ipv6_literal (literal : text) : bool :=
  let '(address, zone) := match split_once 37%N literal with Some r => r | None => (literal, []) end in
  let address_byte b := is_ascii_hexdigit b || char_in b (tx ":.") in
  let zone_byte b := is_ascii_alphanumeric b || char_in b (tx "-._~") in
  negb (bool_decide (address = [])) && forallb address_byte address && forallb zone_byte zone.

(** The length of a URL at the head of [rest], which starts with [scheme]. *)
Definition url_len (scheme rest : text) : nat :=
  let after_scheme := drop (length scheme) rest in
  let host := match strip_prefix (tx "[") after_scheme with
    | Some ipv6 =>
        match position (N.eqb 93) ipv6 with
        | Some close => if is_ipv6_literal (take close ipv6) then close + 2 else 0
        | None => 0
        end
    | None => 0
    end in
  let body := drop host after_scheme in
  length scheme + host + default (length body) (position ends_url body).

(** The spans of the URLs of a text: [start..end].  [skip] characters are searched past. *)
Fixpoint url_spans_from (skip i : nat) (t : text) : list (nat * nat) :=
  match t with
  | [] => []
  | _ :: t' =>
      match skip with
      | S k => url_spans_from k (S i) t'
      | 0 =>
          if starts_with (tx "http") t then
            match List.find (λ scheme, starts_with scheme t) [tx "http://"; tx "https://"] with
            | Some scheme =>
                let n := url_len scheme t in (i, i + n) :: url_spans_from (n - 1) (S i) t'
            | None => url_spans_from 3 (S i) t'
            end
          else url_spans_from 0 (S i) t'
      end
  end.

Definition url_spans (lowered : text) : list (nat * nat) := url_spans_from 0 0 lowered.

Definition in_span (at_ : nat) (span : nat * nat) : bool := (span.1 <=? at_) && (at_ <? span.2).

Definition outside_urls (lowered : text) (at_ : nat) : bool :=
  forallb (λ span, negb (in_span at_ span)) (url_spans lowered).

(** The first of some results. *)
Fixpoint first_some {A B} (f : A → option B) (l : list A) : option B :=
  match l with [] => None | x :: l' => match f x with Some b => Some b | None => first_some f l' end end.

Definition extract_http_status (lowered : text) : option N :=
  first_some (λ marker, first_some (λ '(start, after),
      if outside_urls lowered start then parse_status_near after else None) (found marker lowered))
    [tx "http"; tx "status"; tx "code"].

Definition parenthesized_status (after : text) : option N :=
  match after with
  | a :: b :: c :: close :: _ =>
      if is_ascii_digit a && is_ascii_digit b && is_ascii_digit c && (close =? 41)%N then
        let code := three_digits a b c in if in_status_range code then Some code else None
      else None
  | _ => None
  end.

Definition extract_parenthesized_status (lowered : text) : option N :=
  first_some (λ '(_, after), parenthesized_status after) (found (tx "(") lowered).

Definition provider_http_status (err : DomainError) : option N :=
  match err with
  | Provider msg =>
      let lowered := to_ascii_lowercase msg in
      match extract_http_status lowered with Some s => Some s | None => extract_parenthesized_status lowered end
  | _ => None
  end.

(** * Classes *)

Definition quoted (t : text) : text := [34%N] ++ t ++ [34%N].

Definition json_field_is (lowered field value : text) : bool :=
  existsb (λ '(_, after),
    match strip_prefix (tx ":") (trim_start_matches is_whitespace after) with
    | Some rest => starts_with (quoted value) (trim_start_matches is_whitespace rest)
    | None => false
    end) (found (quoted field) lowered).

Definition code_or_type_is (lowered name : text) : bool :=
  json_field_is lowered (tx "code") name || json_field_is lowered (tx "type") name.

Definition declares_client_error_code (lowered : text) : bool := code_or_type_is lowered (tx "invalid_request_error").

Definition BILLING_ERROR_NAMES : list text :=
  [tx "insufficient_quota"; tx "billing_hard_limit_reached"; tx "usage_limit_reached"; tx "billing_error";
   tx "credit_balance_exhausted"; tx "organization_spend_limit_exceeded"; tx "project_spend_limit_exceeded"].

Definition declares_billing_or_quota_error (lowered : text) : bool := existsb (code_or_type_is lowered) BILLING_ERROR_NAMES.

Definition is_transient_chat_endpoint_denial (lowered : text) : bool :=
  contains (tx "access to the chat endpoint is denied") lowered.

Definition is_upstream_retry_buffer_limit (lowered : text) : bool :=
  contains (tx "exceeded request buffer limit while retrying upstream") lowered.

Definition classify_admission_error (msg : text) : option ProviderErrorClass :=
  match strip_prefix (tx "admission: ") msg with
  | None => None
  | Some detail =>
      Some (if starts_with (tx "admission request cancelled") detail then Cancelled
            else if starts_with (tx "admission transport failure") detail
                    || starts_with (tx "admission authority connection closed") detail then Network
            else Admission)
  end.

Definition is_admission_gate_error (err : DomainError) : bool :=
  match err with Provider msg => bool_decide (is_Some (classify_admission_error msg)) | _ => false end.

Definition contains_any (ps : list text) (t : text) : bool := existsb (λ p, contains p t) ps.

Definition is_context_or_output_limit_error (message : text) : bool :=
  let lowered := to_ascii_lowercase message in
  (contains_any [tx "maximum context length"; tx "context length"; tx "context window"; tx "too many tokens";
                 tx "max_tokens"; tx "max output"] lowered
   || contains (tx "requested") lowered && contains (tx "tokens") lowered)
  && (contains (tx "token") lowered || contains (tx "context") lowered).

Definition classify_keyword_paths (lowered : text) : ProviderErrorClass :=
  if contains_any [tx "request cancelled"; tx "request canceled"] lowered then Cancelled
  else if contains (tx "rate limit") lowered then RateLimit
  else if contains_any [tx "auth"; tx "unauthorized"; tx "forbidden"; tx "invalid api key"; tx "authentication"] lowered
  then Auth
  else if contains_any [tx "internal server error"; tx "bad gateway"; tx "service unavailable"; tx "gateway timeout";
                        tx "overloaded_error"] lowered then Server
  else if contains_any [tx "connect"; tx "connection"; tx "timeout"; tx "timed out"; tx "network"; tx "dns";
                        tx "sending request"] lowered then Network
  else Unknown.

Definition STREAM_IDLE_TIMEOUT : text := tx "stream idle timeout: ".
Definition STREAM_PROGRESS_TIMEOUT : text := tx "stream progress timeout: ".
Definition REPLY_TIMEOUT : text := tx "reply timeout: ".
Definition OUTPUT_CAP_EXCEEDED : text := tx "output cap exceeded: ".
Definition EMPTY_STREAM : text := tx "stream completed without assistant output: synthetic=empty_stream".

Definition STREAM_FAILURE : text := tx "provider stream failure (".

Definition STREAM_FAILURE_CLASSES : list (ProviderErrorClass * text) :=
  [(RateLimit, tx "rate limit"); (Server, tx "server error"); (Billing, tx "billing");
   (Auth, tx "authentication"); (Client, tx "client error")].

Definition classed_stream_failure (class : ProviderErrorClass) (detail : text) : text :=
  match List.find (λ named, bool_decide (named.1 = class)) STREAM_FAILURE_CLASSES with
  | Some (_, words) => STREAM_FAILURE ++ words ++ tx "): " ++ detail
  | None => detail
  end.

Definition stream_failure_class (msg : text) : option ProviderErrorClass :=
  match strip_prefix STREAM_FAILURE msg with
  | None => None
  | Some rest =>
      fst <$> List.find (λ named, match strip_prefix named.2 rest with
                                  | Some after => starts_with (tx "): ") after
                                  | None => false
                                  end) STREAM_FAILURE_CLASSES
  end.

(** The class a status gives, with the bodies that change it. *)
Definition class_of_status (lowered : text) (status : N) : ProviderErrorClass :=
  let class := from_status status in
  if bool_decide (class = Server) && declares_client_error_code lowered then Client
  else if bool_decide (class = Auth) && is_transient_chat_endpoint_denial lowered then Server
  else if (status =? 507)%N && is_upstream_retry_buffer_limit lowered then Server
  else class.

Definition classify_provider_error (err : DomainError) : ProviderErrorClass :=
  match err with
  | Provider msg =>
      if starts_with EMPTY_STREAM msg then EmptyStream
      else if existsb (λ prefix, starts_with prefix msg) [STREAM_IDLE_TIMEOUT; STREAM_PROGRESS_TIMEOUT; REPLY_TIMEOUT]
      then Stalled
      else if starts_with OUTPUT_CAP_EXCEEDED msg then OutputCapped
      else match stream_failure_class msg with Some class => class | None =>
      match classify_admission_error msg with Some class => class | None =>
      if starts_with (tx "no configured provider '") msg then Unknown
      else
        let lowered := to_ascii_lowercase msg in
        if declares_billing_or_quota_error lowered then Billing
        else match extract_http_status lowered with Some status => class_of_status lowered status | None =>
        match extract_parenthesized_status lowered with
        | Some status =>
            let class := from_status status in
            if bool_decide (class = Unknown) then classify_keyword_paths lowered else class
        | None => classify_keyword_paths lowered
        end end
      end end
  | _ => Unknown
  end.

(** * A model the provider refuses *)

Definition MODEL_REFUSAL_REASON_MAX_BYTES : nat := 300.

Definition MODEL_REFUSALS : list (N * text * list text) :=
  [(400%N, tx "Codex", [tx "model is not supported when using Codex with a ChatGPT account"]);
   (404%N, tx "OpenAI", [tx "model_not_found"]);
   (404%N, tx "Anthropic", [tx "not_found_error"; tx "model:"])].

(** [str::parse::<u16>]: an optional plus sign and decimal digits, within range. *)
Fixpoint digits_value (acc : N) (t : text) : option N :=
  match t with
  | [] => Some acc
  | c :: t' =>
      if is_ascii_digit c then
        let acc' := (acc * 10 + (c - 48))%N in if (acc' <=? 65535)%N then digits_value acc' t' else None
      else None
  end.
Definition parse_u16 (t : text) : option N :=
  let digits := match strip_prefix (tx "+") t with Some d => d | None => t end in
  match digits with [] => None | _ => digits_value 0 digits end.

Definition http_failure (message : text) : option (N * text * text) :=
  match split_once_str (tx "HTTP ") message with
  | None => None
  | Some (_, rest) =>
      match split_once_str (tx " from ") rest with
      | None => None
      | Some (status, rest) =>
          match parse_u16 status with
          | None => None
          | Some status =>
              match split_once_str (tx ": ") rest with
              | None => None
              | Some (vendor, body) => Some (status, vendor, body)
              end
          end
      end
  end.

Definition refuses_model (status : N) (vendor body : text) : bool :=
  existsb (λ '(code, named, phrases),
    (code =? status)%N && text_eqb named vendor && forallb (λ p, contains p body) phrases) MODEL_REFUSALS.

(** [bounded]: step back from [end_] to a character boundary, then truncate. *)
Fixpoint truncated (t : text) (end_ : nat) : text :=
  match byte_prefix t end_ with
  | Some t' => t'
  | None => match end_ with 0 => [] | S e => truncated t e end
  end.
Definition bounded_reason (t : text) (max : nat) : text := if max <? byte_len t then truncated t max else t.

(** [serde_json]: the first value at the head of a text, as the stream deserializer reads
    it, and whether a whole text is one value. *)
Class JsonReader := {
  first_value : text → option Value;
  is_json : text → bool;
}.

Definition refusal_message `{JsonReader} (body : text) : option text :=
  match first_value (trim body) with
  | None => None
  | Some value =>
      let found := match get value (tx "detail") with
        | Some d => Some d
        | None => match get value (tx "error") with Some e => get e (tx "message") | None => None end
        end in
      match found with
      | Some v => match as_str v with
                  | Some m => if is_blank m then None else Some m
                  | None => None
                  end
      | None => None
      end
  end.

Definition model_refusal `{JsonReader} {E} (err : DomainError) : res E (option text) :=
  match err with
  | Provider message =>
      match http_failure message with
      | None => Ok None
      | Some (status, vendor, body) =>
          if negb (refuses_model status vendor body) then Ok None
          else
            let reason := default (trim body) (refusal_message body) in
            assert_that (negb (bool_decide (reason = []))) ;?
            Ok (Some (bounded_reason reason MODEL_REFUSAL_REASON_MAX_BYTES))
      end
  | _ => Ok None
  end.

(** * Waiting between attempts

    A [Duration] is its nanoseconds. *)

Definition from_millis (ms : N) : N := (ms * 1000000)%N.
Definition from_secs (s : N) : N := (s * 1000000000)%N.

Fixpoint digit_run (value : N) (t : text) : N :=
  match t with
  | c :: t' => if is_ascii_digit c then digit_run (u64_saturating_add (u64_saturating_mul value 10) (c - 48)) t' else value
  | [] => value
  end.

Fixpoint number_at (t : text) : option N :=
  match t with
  | [] => None
  | b :: t' =>
      if is_ascii_digit b then Some (digit_run 0 t)
      else if char_in b ([58; 61; 34; 39; 32; 9]%N) then number_at t'
      else None
  end.

Definition number_after (s marker : text) : option N :=
  match head (found marker s) with Some (_, rest) => number_at rest | None => None end.

Definition parse_retry_after (lowered : text) : option N :=
  match number_after lowered (tx "retry-after-ms") with
  | Some ms => Some (from_millis ms)
  | None => from_secs <$> number_after lowered (tx "retry-after")
  end.

Definition bounded_delay (err : DomainError) (fallback maximum : N) : option N :=
  let hint := match err with Provider message => parse_retry_after (to_ascii_lowercase message) | _ => None end in
  match hint with
  | Some delay => if (delay <=? maximum)%N then Some delay else None
  | None => Some (N.min fallback maximum)
  end.

(** * The retrying provider

    Models [infrastructure/providers/routing/retry.rs].  [Duration] arithmetic saturates
    at its greatest value. *)

Definition duration_max : N := (from_secs u64_max + 999999999)%N.
Definition duration_saturating_add (a b : N) : N := N.min (a + b) duration_max.
Definition duration_saturating_mul (a b : N) : N := N.min (a * b) duration_max.
Definition u32_saturating_pow2 (n : N) : N := N.min (2 ^ n) u32_max.

Record RetryConfig := {
  max_attempts : N;
  base_backoff : N;
  max_backoff : N;
}.

Definition RetryConfig_default : RetryConfig :=
  {| max_attempts := 4; base_backoff := from_millis 500; max_backoff := from_secs 30 |}.

(** [jitter], from the nanoseconds of the wall clock. *)
Definition jitter (base nanos : N) : N :=
  let base_ms := ((base / 1000000) mod 18446744073709551616)%N in
  if (base_ms =? 0)%N then 0%N else from_millis (nanos mod base_ms).

Definition backoff_delay (c : RetryConfig) (attempt nanos : N) : N :=
  let exp := duration_saturating_mul (base_backoff c) (u32_saturating_pow2 (attempt - 1)) in
  let capped := N.min exp (max_backoff c) in
  N.min (duration_saturating_add capped (jitter (base_backoff c) nanos)) (max_backoff c).

(** What a request met: attempts sent, what each wait was, and the retries asked of the admission gate. *)
Record Sent := {
  sent : N;
  waits : list N;
  rechecks : N;
}.

Section retrying.
Context {R : Type}.
(** The [n]-th attempt's answer, the gate's answer before a reattempt, the clock's nanoseconds. *)
Variable answer : N → R + DomainError.
Variable admission : option (N → option DomainError).
Variable clock : N → N.

Definition recheck (s : Sent) : Sent * option DomainError :=
  match admission with
  | Some check => ({| sent := sent s; waits := waits s; rechecks := (rechecks s + 1)%N |}, check (rechecks s))
  | None => (s, None)
  end.

(** The loop of [chat].  [fuel] bounds the attempts; [None] is running out of it. *)
Fixpoint chat_from (fuel : nat) (c : RetryConfig) (attempt : N) (capped : CappedFailures) (s : Sent)
  : option (Sent * (R + DomainError)) :=
  match fuel with
  | 0 => None
  | S fuel' =>
      let '(s, refused) := if (1 <? attempt)%N then recheck s else (s, None) in
      match refused with
      | Some e => Some (s, inr e)
      | None =>
          let s' := {| sent := (sent s + 1)%N; waits := waits s; rechecks := rechecks s |} in
          match answer (sent s) with
          | inl response => Some (s', inl response)
          | inr err =>
              let class := classify_provider_error err in
              if negb (is_retryable class) || (max_attempts c <=? attempt)%N then Some (s', inr err)
              else
                let '(capped, allowed) := allows_another capped class in
                if negb allowed then Some (s', inr err)
                else match bounded_delay err (backoff_delay c attempt (clock (sent s))) (max_backoff c) with
                     | None => Some (s', inr err)
                     | Some delay =>
                         chat_from fuel' c (attempt + 1) capped
                           {| sent := sent s'; waits := waits s' ++ [delay]; rechecks := rechecks s' |}
                     end
          end
      end
  end.

Definition chat (c : RetryConfig) : option (Sent * (R + DomainError)) :=
  chat_from (S (N.to_nat (max_attempts c))) c 1 no_failures {| sent := 0; waits := []; rechecks := 0 |}.
End retrying.
