(* ===== verification/Inference.v ===== *)
(** Inference turns: replies cut off at the output limit, the corrections of a run,
    the retries of a stream, the loop of a turn, and the suspension of automatic
    turns after a failure.

    Models [domain/inference/services/output_limit.rs], [inference_recovery.rs] and
    [turn_suspension.rs], [application/agent_turn/use_cases/resume_after_provider_failure.rs],
    and of [application/agent_turn/agent_loop] the classification of a reply
    ([agent_loop_turn.rs], [agent_loop_stream.rs]), the stream retries of [request.rs] and the
    loop of [run_loop.rs].  What the rest of that loop does (pruning, tools,
    recording a final reply) and what providers answer are parameters; logging, audit,
    progress events and usage accounting are left out. *)

From S2P Require Import Prelude BoardText SwarmValue ProviderError Watermark Conversation EnvironmentTypes EnvironmentRegistry EnvironmentRetention.

(** * Replies *)

Inductive StopReason :=
  | EndTurn | MaxTokens | ToolUse | Refusal | StopError | Aborted | StopUnknown (reason : text).

#[export] Instance StopReason_eq_dec : EqDecision StopReason.
Proof. solve_decision. Defined.

Inductive ThinkingBlock :=
  | Normal (thinking signature : text)
  | Redacted (data : text)
  | EncryptedReasoning (origin : text) (leads_to : option text) (item : text).

Definition is_visible (b : ThinkingBlock) : bool :=
  match b with Normal _ _ | Redacted _ => true | EncryptedReasoning _ _ _ => false end.

Record CostInfo := {
  input_cost_micro_usd : N; output_cost_micro_usd : N; cache_read_cost_micro_usd : N; cache_write_cost_micro_usd : N;
  total_cost_micro_usd : N;
}.

Record UsageInfo := {
  prompt_tokens : N; completion_tokens : N; cache_read_tokens : option N; cache_write_tokens : option N;
  usage_context_tokens : option N; cost : option CostInfo;
}.

Record LlmResponse := {
  content : option text;
  tool_calls : list ToolCall;
  usage : option UsageInfo;
  stop_reason : option StopReason;
  thinking_blocks : list ThinkingBlock;
}.

(** ** Argument texts *)

Inductive ToolArguments := ArgsEmpty | ArgsObject | ArgsInvalid.

Definition argument_shape `{JsonReader} (call : ToolCall) : ToolArguments :=
  let t := trim_matches (λ c, char_in c [32; 9; 10; 13]%N) (tx (tc_arguments call)) in
  match t with
  | [] => ArgsEmpty
  | _ =>
      let object_like := starts_with (tx "{") t && ends_with (tx "}") t in
      if object_like && is_json t then ArgsObject else ArgsInvalid
  end.

(** ** The output limit (output_limit.rs) *)

Record CutOffCall := { cut_id : string; cut_tool : string }.

Definition cut_off_tool_call `{JsonReader} (r : LlmResponse) : option CutOffCall :=
  let at_the_limit := bool_decide (stop_reason r = Some MaxTokens) in
  match (if at_the_limit then list.last (tool_calls r) else None) with
  | None => None
  | Some call =>
      match argument_shape call with
      | ArgsInvalid | ArgsEmpty => Some {| cut_id := tc_id call; cut_tool := tc_name call |}
      | ArgsObject => None
      end
  end.

Definition no_text (r : LlmResponse) : bool := is_blank (default [] (content r)).

Definition is_cut_off_without_answer (r : LlmResponse) (max_tokens : N) : bool :=
  let used_the_budget := match usage r with
    | None => true
    | Some u => (completion_tokens u =? 0)%N || (max_tokens <=? completion_tokens u * 2)%N
    end in
  bool_decide (stop_reason r = Some MaxTokens) && no_text r && bool_decide (tool_calls r = []) && used_the_budget.

Definition empty_stream_error_message (r : LlmResponse) : text :=
  match stop_reason r with
  | Some MaxTokens => tx "stream completed without assistant output: stop_reason=max_tokens"
  | _ => EMPTY_STREAM
  end.

(** ** What a reply does to the turn (agent_loop_stream.rs, agent_loop_turn.rs) *)

Definition is_empty_streamed_response (r : LlmResponse) : bool :=
  no_text r && bool_decide (tool_calls r = []) && negb (existsb is_visible (thinking_blocks r)).

Definition ends_turn_empty (r : LlmResponse) (requirement : ReplyRequirement) : bool :=
  match requirement with MayBeEmpty => true | Output => false end
  && is_empty_streamed_response r && bool_decide (stop_reason r = Some EndTurn).

Inductive ProviderResponseTransition := FinalAssistantResponse | ToolCallContinuation | EmptyEndOfTurn.

Definition classify_provider_response (r : LlmResponse) (requirement : ReplyRequirement) : ProviderResponseTransition :=
  if ends_turn_empty r requirement then EmptyEndOfTurn
  else if bool_decide (tool_calls r = []) then FinalAssistantResponse
  else ToolCallContinuation.

(** * Corrections (inference_recovery.rs) *)

Definition MAX_MALFORMED_REQUEST_RETRIES : N := 3.
Definition MAX_CUT_OFF_RETRIES : N := 1.
Definition MAX_TOOL_CALL_CUT_OFF_RETRIES : N := 2.

(** [terminal_guidance::Output]. *)
Inductive OutputShown := NotShown | Shown.

#[export] Instance OutputShown_eq_dec : EqDecision OutputShown.
Proof. solve_decision. Defined.

Definition from_emitted (emitted_event : bool) : OutputShown := if emitted_event then Shown else NotShown.

Inductive Correction :=
  | MalformedRequest (attempt : N) (error : DomainError)
  | CutOffAnswer (attempt : N)
  | CutOffToolCall (attempt : N) (tool : string).

(** Which feedback the model is given; its words are a parameter. *)
Inductive Feedback :=
  | malformed_feedback (err : DomainError)
  | output_limit_feedback (max_tokens : N)
  | tool_call_cut_off_feedback (tool : string).

Inductive Recovery :=
  | Proceed
  | Correct (feedback : Feedback) (boost_output : bool) (correction : Correction)
  | Fail (error : DomainError).

Record InferenceRecovery := {
  malformed_retries : N;
  cut_off_retries : N;
  tool_cut_off_retries : N;
  unsettled : list N;
}.

Definition for_run : InferenceRecovery :=
  {| malformed_retries := 0; cut_off_retries := 0; tool_cut_off_retries := 0; unsettled := [] |}.

Section recovery.
Context `{JsonReader}.

Definition after_cut_off_answer (s : InferenceRecovery) (r : LlmResponse) (max_tokens : N) : InferenceRecovery * Recovery :=
  if (cut_off_retries s <? MAX_CUT_OFF_RETRIES)%N then
    let n := (cut_off_retries s + 1)%N in
    ({| malformed_retries := malformed_retries s; cut_off_retries := n;
        tool_cut_off_retries := tool_cut_off_retries s; unsettled := unsettled s |},
     Correct (output_limit_feedback max_tokens) true (CutOffAnswer n))
  else (s, Fail (Provider (empty_stream_error_message r))).

(** An accepted reply settles the feedback that led to it. *)
Definition accepted (s : InferenceRecovery) (tool_cut_offs : N) : InferenceRecovery :=
  {| malformed_retries := malformed_retries s; cut_off_retries := 0;
     tool_cut_off_retries := tool_cut_offs; unsettled := [] |}.

Definition after_reply (s : InferenceRecovery) (r : LlmResponse) (max_tokens : N) : InferenceRecovery * Recovery :=
  if is_cut_off_without_answer r max_tokens then after_cut_off_answer s r max_tokens
  else match cut_off_tool_call r with
  | Some cut =>
      if (tool_cut_off_retries s <? MAX_TOOL_CALL_CUT_OFF_RETRIES)%N then
        let n := (tool_cut_off_retries s + 1)%N in
        ({| malformed_retries := malformed_retries s; cut_off_retries := cut_off_retries s;
            tool_cut_off_retries := n; unsettled := unsettled s |},
         Correct (tool_call_cut_off_feedback (cut_tool cut)) true (CutOffToolCall n (cut_tool cut)))
      else (accepted s (tool_cut_off_retries s), Proceed)
  | None => (accepted s 0, Proceed)
  end.

Inductive ProviderFailureTransition := RecoverMalformedRequest | Terminal (class : ProviderErrorClass).

Definition classify_provider_failure {E} (error : DomainError) (output : OutputShown) (retries max_retries : N)
  : res E ProviderFailureTransition :=
  let class := classify_provider_error error in
  let? is_malformed_request :=
    match error with
    | Provider message =>
        if bool_decide (class = Client)
           && match provider_http_status error with
              | Some s => char_in s [400; 422]%N || ((500 <=? s) && (s <=? 599))%N
              | None => false
              end
           && negb (is_context_or_output_limit_error message)
        then map_ok (λ o, negb (bool_decide (is_Some o))) (model_refusal error)
        else Ok false
    | _ => Ok false
    end in
  Ok (if is_malformed_request && bool_decide (output = NotShown) && (retries <? max_retries)%N
      then RecoverMalformedRequest else Terminal class).

Definition after_failure {E} (s : InferenceRecovery) (error : DomainError) (output : OutputShown)
  : res E (InferenceRecovery * Recovery) :=
  let? transition := classify_provider_failure error output (malformed_retries s) MAX_MALFORMED_REQUEST_RETRIES in
  Ok match transition with
  | RecoverMalformedRequest =>
      let n := (malformed_retries s + 1)%N in
      ({| malformed_retries := n; cut_off_retries := cut_off_retries s;
          tool_cut_off_retries := tool_cut_off_retries s; unsettled := unsettled s |},
       Correct (malformed_feedback error) false (MalformedRequest n error))
  | Terminal _ => (s, Fail error)
  end.
End recovery.

Definition set_turn (turn : option N) (m : Message) : Message :=
  mkMessage (m_id m) (m_ordinal m) (m_role m) (m_content m) (m_tool_calls m) (m_tool_call_id m) turn
    (m_is_manifest m) (m_turn_origin m) (m_user_kind m) (m_spill_id m) (m_estimated_tokens m).

(** The message of a correction, with the id and the estimate it gets. *)
Definition feedback_message (id estimate : N) (words : text) (current_turn : N) (messages : list Message) : Message :=
  set_turn_origin (current_phase messages) (set_turn (Some current_turn) (Message_user id estimate words)).

Definition correct {E} (s : InferenceRecovery) (messages ledger : list Message) (id estimate : N) (words : text)
    (current_turn : N) : res E (InferenceRecovery * list Message * list Message) :=
  let m := feedback_message id estimate words current_turn messages in
  assert_that (bool_decide (m_role m = RoleUser)) ;?
  Ok ({| malformed_retries := malformed_retries s; cut_off_retries := cut_off_retries s;
         tool_cut_off_retries := tool_cut_off_retries s; unsettled := unsettled s ++ [m_id m] |},
      messages ++ [m], ledger ++ [m]).

Definition retain_settled (ids : list N) (messages : list Message) : list Message :=
  filter (λ m, m_id m ∉ ids) messages.

Definition withdraw {E} (s : InferenceRecovery) (messages ledger : list Message)
  : res E (InferenceRecovery * list Message * list Message) :=
  let ids := unsettled s in
  let s' := {| malformed_retries := malformed_retries s; cut_off_retries := cut_off_retries s;
               tool_cut_off_retries := tool_cut_off_retries s; unsettled := [] |} in
  if bool_decide (ids = []) then Ok (s', messages, ledger)
  else
    let messages := retain_settled ids messages in
    let ledger := retain_settled ids ledger in
    assert_that (forallb (λ m, bool_decide (m_id m ∉ ids)) (messages ++ ledger)) ;?
    Ok (s', messages, ledger).

(** * The retries of a stream (request.rs) *)

Definition MAX_PROVIDER_ATTEMPTS : N := 3.
Definition PROVIDER_RETRY_BACKOFF_MS : N := 100.

Inductive FailureSource := FromProvider | FromRequestAdmission.

Record StreamProviderError := {
  error : DomainError;
  emitted_event : bool;
  source : FailureSource;
}.

Definition before_output (e : DomainError) : StreamProviderError :=
  {| error := e; emitted_event := false; source := FromProvider |}.
Definition refused_by_admission (e : DomainError) : StreamProviderError :=
  {| error := e; emitted_event := false; source := FromRequestAdmission |}.

Section streaming.
(** Whether the session streams, [stream_chat_once] for the [n]-th stream sent, the provider's
    [chat] (which retries on its own), and the gate before a first attempt and a reattempt. *)
Variable streams : bool.
Variable stream : N → LlmResponse + (DomainError * bool).
Variable provider_chat : LlmResponse + DomainError.
Variable first_check : option (option DomainError).
Variable admission : option (N → option DomainError).

Fixpoint stream_attempts (attempts : list N) (capped : CappedFailures) (s : Sent)
  : Sent * (LlmResponse + StreamProviderError) :=
  match attempts with
  | [] => (s, inr (before_output (Provider (tx "provider request failed without an error"))))
  | attempt :: rest =>
      let '(s, refused) := if (1 <? attempt)%N then recheck admission s else (s, None) in
      match refused with
      | Some e => (s, inr (refused_by_admission e))
      | None =>
          let s' := {| sent := (sent s + 1)%N; waits := waits s; rechecks := rechecks s |} in
          match stream (sent s) with
          | inl response => (s', inl response)
          | inr (err, true) => (s', inr {| error := err; emitted_event := true; source := FromProvider |})
          | inr (err, false) =>
              let class := classify_provider_error err in
              if (attempt =? MAX_PROVIDER_ATTEMPTS)%N || negb (is_retryable class) then (s', inr (before_output err))
              else
                let '(capped, allowed) := allows_another capped class in
                if negb allowed then (s', inr (before_output err))
                else match bounded_delay err (from_millis (PROVIDER_RETRY_BACKOFF_MS * attempt)) (from_secs 30) with
                     | None => (s', inr (before_output err))
                     | Some delay =>
                         stream_attempts rest capped
                           {| sent := sent s'; waits := waits s' ++ [delay]; rechecks := rechecks s' |}
                     end
          end
      end
  end.

Definition request_provider_response_inner : Sent * (LlmResponse + StreamProviderError) :=
  let s := {| sent := 0; waits := []; rechecks := 0 |} in
  match first_check with
  | Some (Some e) => (s, inr (refused_by_admission e))
  | _ =>
      if negb streams then
        ({| sent := 1; waits := []; rechecks := 0 |},
         match provider_chat with inl response => inl response | inr e => inr (before_output e) end)
      else stream_attempts [1; 2; 3]%N no_failures s
  end.
End streaming.

(** * The loop of a turn (run_loop.rs) *)

(** How a run ends. *)
Inductive RunEnd :=
  | Finalized (response : LlmResponse)
  | EndedEmpty
  | StoppedAtToolIterationLimit
  | Failed (error : DomainError).

(** What the loop keeps from one request to the next.  [iterations] and [current_turn] are [u32] in the source,
    and do not wrap here: [iterations] stays within the configured limit, and [current_turn] is one more than the number
    of the request. *)
Record LoopState := {
  messages : list Message;
  ledger : list Message;
  recovery : InferenceRecovery;
  iterations : N;
  current_turn : N;
  output_boost : bool;
}.

(** What bounds the output of a request: the effective limit, the model's declared cap, the
    window's budget and the prompt's calibrated size. *)
Record OutputLimits := {
  effective_max_tokens : N;
  model_max_tokens : option N;
  window_budget_tokens : N;
  context_tokens : N;
}.

Definition OUTPUT_ROOM_MARGIN : N := 1024.

Definition request_max_tokens (l : OutputLimits) (boosted : bool) : N :=
  let effective := effective_max_tokens l in
  match boosted, model_max_tokens l with
  | true, Some cap =>
      if (effective <? cap)%N then
        let room := N.min (window_budget_tokens l - context_tokens l - OUTPUT_ROOM_MARGIN) u32_max in
        N.max (N.min (N.min cap (N.min (effective * 2) u32_max)) room) effective
      else effective
  | _, _ => effective
  end.

(** [last_request_max_tokens], after a request sent with [limit]. *)
Definition last_request_max_tokens (l : OutputLimits) (limit : N) : N :=
  if (limit =? 0)%N then effective_max_tokens l else limit.

(** What the loop does beside its corrections, and what it is answered: the [n]-th request. *)
Record RunPorts := {
  prune : N → N → list Message → list Message;
  projected : N → list Message → list Message;
  correcting : N → bool;
  limits : N → list Message → OutputLimits;
  request : N → N → list Message → LlmResponse + StreamProviderError;
  fresh_id : N → N;
  estimate : N → text → N;
  words : Feedback → text;
  execute_tool_calls : N → N → LlmResponse → option string → list Message * list Message → list Message * list Message;
  finalize : N → LlmResponse → list Message * list Message → list Message * list Message;
}.

Section run_loop.
Context `{JsonReader} (P : RunPorts) (max_tool_iterations : N).

(** One request of the loop, the [n]-th: how the run ended, or how it goes on. *)
Definition turn_request {E} (n : N) (r : LoopState) : res E ((LoopState * RunEnd) + LoopState) :=
  let messages := prune P n (current_turn r) (messages r) in
  let sent := projected P n messages in
  let requirement := if correcting P n then MayBeEmpty else for_conversation sent in
  let limits := limits P n sent in
  let limit := request_max_tokens limits (output_boost r) in
  let response := request P n limit sent in
  let? '(recovery, next) :=
    match response with
    | inl reply => Ok (after_reply (recovery r) reply (last_request_max_tokens limits limit))
    | inr failure => after_failure (recovery r) (error failure) (from_emitted (emitted_event failure))
    end in
  match next, response with
  | Proceed, inr _ => Panic
  | Proceed, inl reply =>
      match classify_provider_response reply requirement with
      | FinalAssistantResponse =>
          let '(messages, ledger) := finalize P n reply (messages, ledger r) in
          Ok (inl ({| messages := messages; ledger := ledger; recovery := recovery; iterations := iterations r;
                      current_turn := current_turn r; output_boost := false |}, Finalized reply))
      | EmptyEndOfTurn =>
          Ok (inl ({| messages := messages; ledger := ledger r; recovery := recovery; iterations := iterations r;
                      current_turn := current_turn r; output_boost := false |}, EndedEmpty))
      | ToolCallContinuation =>
          let cut_off := cut_id <$> cut_off_tool_call reply in
          let '(messages, ledger) := execute_tool_calls P n (current_turn r) reply cut_off (messages, ledger r) in
          let r' := {| messages := messages; ledger := ledger; recovery := recovery; iterations := (iterations r + 1)%N;
                       current_turn := (current_turn r + 1)%N; output_boost := false |} in
          Ok (if (max_tool_iterations <=? iterations r')%N then inl (r', StoppedAtToolIterationLimit) else inr r')
      end
  | Correct feedback boost_output _, _ =>
      let? '(recovery, messages, ledger) :=
        correct recovery messages (ledger r) (fresh_id P n) (estimate P n (words P feedback)) (words P feedback) (current_turn r) in
      Ok (inr {| messages := messages; ledger := ledger; recovery := recovery; iterations := iterations r;
                 current_turn := (current_turn r + 1)%N; output_boost := boost_output |})
  | Fail e, _ =>
      let? '(recovery, messages, ledger) := withdraw recovery messages (ledger r) in
      Ok (inl ({| messages := messages; ledger := ledger; recovery := recovery; iterations := iterations r;
                  current_turn := current_turn r; output_boost := false |}, Failed e))
  end.

(** The loop; [None] is running out of [fuel]. *)
Fixpoint run_from {E} (fuel : nat) (n : N) (r : LoopState) : res E (option (N * LoopState * RunEnd)) :=
  match fuel with
  | 0 => Ok None
  | S fuel' =>
      let? step := turn_request n r in
      match step with
      | inl (r', end_) => Ok (Some (n + 1, r', end_))%N
      | inr r' => run_from fuel' (n + 1)%N r'
      end
  end.

Definition run_loop {E} (fuel : nat) (start : list Message) : res E (option (N * LoopState * RunEnd)) :=
  run_from fuel 0 {| messages := start; ledger := []; recovery := for_run; iterations := 0; current_turn := 1;
                     output_boost := false |}.
End run_loop.

(** * Automatic turns (turn_suspension.rs) *)

Module Suspension.

Definition MAX_RECOVERABLE_REARMS : N := 2.

Inductive OwedTurn := AfterResume | AfterRecoverableFailure.

Inductive SuspensionCause := ProviderFailure | RecoverableProviderFailure | StoreRejection.

#[export] Instance SuspensionCause_eq_dec : EqDecision SuspensionCause.
Proof. solve_decision. Defined.

Definition for_failure (err : DomainError) : SuspensionCause :=
  if is_retryable (classify_provider_error err) then RecoverableProviderFailure else ProviderFailure.

Definition is_provider_failure (c : SuspensionCause) : bool :=
  match c with ProviderFailure | RecoverableProviderFailure => true | StoreRejection => false end.

Inductive WakeOutcome := NotSuspended | StillSuspended | RearmedByResume | RearmedAfterRecoverableFailure.

Record TurnSuspension := {
  cause : SuspensionCause;
  generation : option N;
  dated : bool;
}.

Inductive Instruction := Prompt | Steer | FollowUp.
Inductive Work := WorkInstruction (i : Instruction) | Automatic.

Record AutomaticTurns := {
  allowed : bool;
  suspension : option TurnSuspension;
  last_control_generation : option N;
  owed_turn : option OwedTurn;
  recoverable_rearms : N;
  suspension_epoch : N;
}.

Definition AutomaticTurns_default : AutomaticTurns :=
  {| allowed := true; suspension := None; last_control_generation := None; owed_turn := None;
     recoverable_rearms := 0; suspension_epoch := 0 |}.

Definition observe_control_generation (t : AutomaticTurns) (g : option N) : AutomaticTurns :=
  match g with
  | Some g =>
      if match last_control_generation t with None => true | Some seen => (seen <? g)%N end then
        {| allowed := allowed t; suspension := suspension t; last_control_generation := Some g;
           owed_turn := owed_turn t; recoverable_rearms := recoverable_rearms t; suspension_epoch := suspension_epoch t |}
      else t
  | None => t
  end.

Definition recoverable (t : AutomaticTurns) : bool :=
  match suspension t with Some s => bool_decide (cause s = RecoverableProviderFailure) | None => false end.

Section rules.
Context {E : Type}.

Definition suspend (t : AutomaticTurns) (c : SuspensionCause) (g : option N) : res E AutomaticTurns :=
  assert_that (negb (bool_decide (c = RecoverableProviderFailure)) || (recoverable_rearms t <? MAX_RECOVERABLE_REARMS)%N) ;?
  Ok {| allowed := false;
        suspension := Some {| cause := c; dated := bool_decide (is_Some g);
                              generation := match g with Some g => Some g | None => last_control_generation t end |};
        last_control_generation := last_control_generation t;
        owed_turn := None;
        recoverable_rearms := recoverable_rearms t;
        suspension_epoch := ((suspension_epoch t + 1) mod 18446744073709551616)%N |}.

Definition admits (t : AutomaticTurns) (w : Work) : bool :=
  match w with WorkInstruction _ => true | Automatic => allowed t || recoverable t end.

Definition rearm (t : AutomaticTurns) : AutomaticTurns :=
  {| allowed := true; suspension := None; last_control_generation := last_control_generation t; owed_turn := None;
     recoverable_rearms := 0; suspension_epoch := suspension_epoch t |}.

Definition rearm_recoverable (t : AutomaticTurns) : res E AutomaticTurns :=
  assert_that (recoverable t) ;?
  assert_that (recoverable_rearms t <? MAX_RECOVERABLE_REARMS)%N ;?
  Ok {| allowed := true; suspension := None; last_control_generation := last_control_generation t;
        owed_turn := owed_turn t; recoverable_rearms := (recoverable_rearms t + 1)%N;
        suspension_epoch := suspension_epoch t |}.

Definition start (t : AutomaticTurns) (w : Work) : res E AutomaticTurns :=
  let? t := match w with
    | WorkInstruction (Prompt | Steer) => Ok (rearm t)
    | WorkInstruction FollowUp => Ok (if allowed t then t else rearm t)
    | Automatic => if allowed t then Ok t else if recoverable t then rearm_recoverable t else Panic
    end in
  assert_that (allowed t) ;?
  Ok t.

Definition suspend_after_failure (t : AutomaticTurns) (err : DomainError) (g : option N) : res E AutomaticTurns :=
  let within_bound := (recoverable_rearms t <? MAX_RECOVERABLE_REARMS)%N in
  let? c := match for_failure err, within_bound with
    | RecoverableProviderFailure, true => Ok RecoverableProviderFailure
    | RecoverableProviderFailure, false | ProviderFailure, _ => Ok ProviderFailure
    | StoreRejection, _ => Panic
    end in
  suspend t c g.

Definition turn_succeeded (t : AutomaticTurns) : AutomaticTurns :=
  {| allowed := allowed t; suspension := suspension t; last_control_generation := last_control_generation t;
     owed_turn := owed_turn t; recoverable_rearms := 0; suspension_epoch := suspension_epoch t |}.

Definition set_suspension (t : AutomaticTurns) (s : TurnSuspension) : AutomaticTurns :=
  {| allowed := allowed t; suspension := Some s; last_control_generation := last_control_generation t;
     owed_turn := owed_turn t; recoverable_rearms := recoverable_rearms t; suspension_epoch := suspension_epoch t |}.

Definition resume_after_control_change (t : AutomaticTurns) (g : N) : AutomaticTurns * bool :=
  let t := observe_control_generation t (Some g) in
  match suspension t with
  | None => (t, false)
  | Some s =>
      match cause s with
      | StoreRejection => (t, false)
      | ProviderFailure | RecoverableProviderFailure =>
          match generation s with
          | Some seen =>
              if (seen <? g)%N then
                ({| allowed := true; suspension := None; last_control_generation := last_control_generation t;
                    owed_turn := Some AfterResume; recoverable_rearms := recoverable_rearms t;
                    suspension_epoch := suspension_epoch t |}, true)
              else (t, false)
          | None => (set_suspension t {| cause := cause s; generation := Some g; dated := dated s |}, false)
          end
      end
  end.

Definition wake (t : AutomaticTurns) (g : N) (run_takes_turns : bool) : res E (AutomaticTurns * WakeOutcome) :=
  let '(t, resumed) := resume_after_control_change t g in
  if resumed then Ok (t, RearmedByResume)
  else match cause <$> suspension t, run_takes_turns with
  | None, _ => Ok (t, NotSuspended)
  | Some RecoverableProviderFailure, true =>
      let? t := rearm_recoverable t in
      Ok ({| allowed := allowed t; suspension := suspension t; last_control_generation := last_control_generation t;
             owed_turn := Some AfterRecoverableFailure; recoverable_rearms := recoverable_rearms t;
             suspension_epoch := suspension_epoch t |}, RearmedAfterRecoverableFailure)
  | Some RecoverableProviderFailure, false | Some (ProviderFailure | StoreRejection), _ => Ok (t, StillSuspended)
  end.

Definition needs_provider_dating (t : AutomaticTurns) : bool :=
  match suspension t with Some s => is_provider_failure (cause s) && negb (dated s) | None => false end.

Definition date_suspension (t : AutomaticTurns) (g : N) : AutomaticTurns :=
  match suspension t with
  | Some s =>
      if is_provider_failure (cause s) then set_suspension t {| cause := cause s; generation := Some g; dated := true |} else t
  | None => t
  end.

Definition take_owed_turn (t : AutomaticTurns) : AutomaticTurns * option OwedTurn :=
  ({| allowed := allowed t; suspension := suspension t; last_control_generation := last_control_generation t;
      owed_turn := None; recoverable_rearms := recoverable_rearms t; suspension_epoch := suspension_epoch t |}, owed_turn t).

(** ** The session's use case (resume_after_provider_failure.rs) *)

(** The receipt of a run's status: its generation and status. *)
Record StatusReceipt := { receipt_generation : N; receipt_status : Run.RunStatus }.

Definition session_suspend_after_failure (t : AutomaticTurns) (err : DomainError) : res E AutomaticTurns :=
  let? t := suspend_after_failure t err None in
  assert_that (negb (allowed t)) ;? Ok t.

Definition session_suspend_after_store_rejection (t : AutomaticTurns) : res E AutomaticTurns :=
  let? t := suspend t StoreRejection None in
  assert_that (negb (allowed t)) ;? Ok t.

Definition session_start_turn (t : AutomaticTurns) (w : Work) (g : option N) : res E AutomaticTurns :=
  let? t := start t w in
  Ok (observe_control_generation t g).

(** [status]: what the swarm's run control answers, when there is one. *)
Definition session_date_suspension (t : AutomaticTurns) (status : option (option StatusReceipt))
  : res E (AutomaticTurns * option N) :=
  match (if needs_provider_dating t then status else None) with
  | Some (Some receipt) =>
      let t := date_suspension t (receipt_generation receipt) in
      assert_that (negb (needs_provider_dating t)) ;?
      Ok (t, Some (receipt_generation receipt))
  | _ => Ok (t, None)
  end.

Definition run_takes_turns (s : Run.RunStatus) : bool := match s with Run.Setup | Run.Running => true | _ => false end.

Definition session_probe_while_suspended (t : AutomaticTurns) (status : StatusReceipt + E)
  : res E (AutomaticTurns * (WakeOutcome * N)) :=
  assert_that (negb (allowed t)) ;?
  match status with
  | inr e => Err e
  | inl receipt =>
      let? '(t, outcome) := wake t (receipt_generation receipt) (run_takes_turns (receipt_status receipt)) in
      Ok (t, (outcome, receipt_generation receipt))
  end.
End rules.
End Suspension.
