(* ===== verification/InferenceProps.v ===== *)
(** What retries, corrections and suspensions of inference promise: requests are
    bounded, a shown reply is never sent again, turns end, and a failed session is
    neither stranded nor woken for ever. *)

From S2P Require Import Prelude BoardText SwarmValue ProviderError Watermark Conversation EnvironmentTypes EnvironmentRegistry EnvironmentRetention Inference.

Local Open Scope N_scope.

(** * Retries *)

Definition is_stall (o : option DomainError) : bool :=
  match o with Some e => bool_decide (classify_provider_error e = Stalled) | None => false end.

(** How many of the first [n] failures were stalls. *)
Definition stall_count (failed : N → option DomainError) (n : N) : nat :=
  length (filter (λ i, is_stall (failed (N.of_nat i)) = true) (seq 0 (N.to_nat n))).

Lemma stall_count_succ failed n :
  stall_count failed (n + 1) = (stall_count failed n + if is_stall (failed n) then 1 else 0)%nat.
Proof.
  unfold stall_count. rewrite N.add_1_r, N2Nat.inj_succ, seq_S, list.filter_app, length_app. f_equal. cbn [Nat.add].
  rewrite filter_cons, N2Nat.id. by destruct (is_stall (failed n)).
Qed.

(** [retried failed max n w]: the first [n] attempts failed and each was followed by another, after
    the waits [w]. *)
Definition retried (failed : N → option DomainError) (max n : N) (w : list N) : Prop :=
  N.of_nat (length w) = n ∧ Forall (λ d, d ≤ max) w ∧
  (∀ i, i < n → ∃ e, failed i = Some e ∧ is_retryable (classify_provider_error e) = true) ∧
  (stall_count failed n ≤ 1)%nat.

Lemma bounded_delay_le err fallback max d : bounded_delay err fallback max = Some d → d ≤ max.
Proof.
  unfold bounded_delay. destruct (match err with Provider _ => _ | _ => _ end) as [hint|].
  - destruct (N.leb_spec hint max); [|done]. by intros [= <-].
  - intros [= <-]. lia.
Qed.

Lemma retried_none failed max : retried failed max 0 [].
Proof. split_and!; [done|by apply Forall_nil|lia|]. change (stall_count failed 0) with 0%nat. lia. Qed.

(** Another attempt after a failure: what the loops keep from one to the next. *)
Lemma retried_again failed max n w e capped capped' fallback d :
  retried failed max n w → stalls capped = N.of_nat (stall_count failed n) → failed n = Some e →
  is_retryable (classify_provider_error e) = true → allows_another capped (classify_provider_error e) = (capped', true) →
  bounded_delay e fallback max = Some d →
  retried failed max (n + 1) (w ++ [d]) ∧ stalls capped' = N.of_nat (stall_count failed (n + 1)).
Proof.
  intros (Hw & Hle & Hall & Hst) Hc He Hr Ha Hd. assert (stalls capped' = N.of_nat (stall_count failed (n + 1)) ∧ (stall_count failed (n + 1) ≤ 1)%nat) as [Hc' Hs'].
  { rewrite stall_count_succ, He. unfold allows_another in Ha. cbn [is_stall].
    destruct (classify_provider_error e) eqn:Hcl; cbn [max_failures] in Ha; case_bool_decide; try done;
      inversion Ha; subst; cbn [stalls] in *; unfold u32_max in *; rewrite ?Hc in *; lia. }
  split; [|done]. split_and!; [|apply Forall_app; split; [done|]|..|done].
  - rewrite length_app. simpl. lia.
  - constructor; [|constructor]. by eapply bounded_delay_le.
  - intros i Hi. destruct (decide (i = n)) as [->|Hne]; [by exists e|]. apply Hall. lia.
Qed.

Definition attempt_error {R} (answer : N → R + DomainError) (i : N) : option DomainError :=
  match answer i with inr e => Some e | inl _ => None end.

(** The gate before an attempt. *)
Lemma gate_facts admission s (gate := if 1 <? sent s + 1 then recheck admission s else (s, None)) :
  sent gate.1 = sent s ∧ waits gate.1 = waits s ∧
  ∀ e, gate.2 = Some e → 0 < sent s ∧ ∃ check i, admission = Some check ∧ check i = Some e.
Proof.
  subst gate. destruct (N.ltb_spec 1 (sent s + 1)); [|done]. unfold recheck. destruct admission as [check|]; [|done].
  cbn. split; [done|]. split; [done|]. intros e He. split; [lia|]. eauto.
Qed.

(** How a retried request ends: with the answer of its last attempt, or refused by the gate before one. *)
Definition chat_ended {R} (answer : N → R + DomainError) (admission : option (N → option DomainError)) (max limit : N)
    (s : Sent) (r : R + DomainError) : Prop :=
  ∃ n, retried (attempt_error answer) max n (waits s) ∧ n < N.max 1 limit ∧
  ((sent s = n + 1 ∧ r = answer n) ∨
   (sent s = n ∧ 0 < n ∧ ∃ check i e, admission = Some check ∧ check i = Some e ∧ r = inr e)).

Lemma chat_from_ends {R} (answer : N → R + DomainError) admission clock c fuel capped s :
  retried (attempt_error answer) (max_backoff c) (sent s) (waits s) →
  stalls capped = N.of_nat (stall_count (attempt_error answer) (sent s)) →
  sent s < N.max 1 (max_attempts c) → (N.to_nat (N.max 1 (max_attempts c) - sent s) ≤ fuel)%nat →
  ∃ s' r, chat_from answer admission clock fuel c (sent s + 1) capped s = Some (s', r) ∧
  chat_ended answer admission (max_backoff c) (max_attempts c) s' r.
Proof.
  revert capped s. induction fuel as [|fuel IH]; intros capped s Hr Hc Hlt Hf; [lia|]. cbn [chat_from].
  destruct (gate_facts admission s) as (Hs & Hw & Hg). set (gate := if 1 <? sent s + 1 then _ else _) in *.
  destruct gate as [s1 [e|]]; cbn [fst snd] in *.
  { destruct (Hg e eq_refl) as (Hpos & check & i & Hck & Hi). eexists _, _. split; [done|]. exists (sent s).
    rewrite Hw. split; [done|]. split; [done|]. right. rewrite Hs. eauto 10. }
  rewrite Hs. destruct (answer (sent s)) as [resp|err] eqn:Ha.
  { eexists _, _. split; [done|]. exists (sent s). cbn [waits sent]. rewrite Hw. split; [done|]. split; [done|]. left. by rewrite Ha. }
  assert (∀ s2 x, Some ({| sent := sent s + 1; waits := waits s1; rechecks := rechecks s1 |}, inr err) = Some (s2, x) →
    chat_ended answer admission (max_backoff c) (max_attempts c) s2 x) as Hend.
  { intros s2 x [= <- <-]. exists (sent s). cbn [waits sent]. rewrite Hw. split; [done|]. split; [done|]. left. by rewrite Ha. }
  destruct (is_retryable (classify_provider_error err)) eqn:Hre; cbn [negb orb]; [|eauto].
  destruct (N.leb_spec (max_attempts c) (sent s + 1)); [eauto|].
  destruct (allows_another capped (classify_provider_error err)) as [capped' [|]] eqn:Hal; cbn [negb]; [|eauto].
  destruct (bounded_delay err _ _) as [d|] eqn:Hd; [|eauto].
  assert (attempt_error answer (sent s) = Some err) as Herr by (unfold attempt_error; by rewrite Ha).
  destruct (retried_again _ _ _ _ _ _ _ _ _ Hr Hc Herr Hre Hal Hd) as [Hr' Hc'].
  apply (IH capped' {| sent := sent s + 1; waits := waits s1 ++ [d]; rechecks := rechecks s1 |}); cbn [sent waits]; [by rewrite Hw|done|lia|lia].
Qed.

Definition chat_retries_bounded_statement {R} (answer : N → R + DomainError) admission clock c : Prop :=
  ∃ s r, chat answer admission clock c = Some (s, r) ∧ chat_ended answer admission (max_backoff c) (max_attempts c) s r.

Lemma chat_ends {R} (answer : N → R + DomainError) admission clock c : chat_retries_bounded_statement answer admission clock c.
Proof.
  unfold chat_retries_bounded_statement, chat.
  apply (chat_from_ends answer admission clock c (S (N.to_nat (max_attempts c))) no_failures
    {| sent := 0; waits := []; rechecks := 0 |}); cbn [sent waits]; [|done|lia|lia].
  apply retried_none.
Qed.

(** ** Streams *)

Definition stream_error (stream : N → LlmResponse + (DomainError * bool)) (i : N) : option DomainError :=
  match stream i with inr (e, false) => Some e | _ => None end.

(** What a stream's answer is to the turn. *)
Definition streamed (a : LlmResponse + (DomainError * bool)) : LlmResponse + StreamProviderError :=
  match a with
  | inl r => inl r
  | inr (e, emitted) => inr {| error := e; emitted_event := emitted; source := FromProvider |}
  end.

Definition stream_ended (stream : N → LlmResponse + (DomainError * bool)) (admission : option (N → option DomainError))
    (s : Sent) (r : LlmResponse + StreamProviderError) : Prop :=
  ∃ n, retried (stream_error stream) (from_secs 30) n (waits s) ∧ n < MAX_PROVIDER_ATTEMPTS ∧
  ((sent s = n + 1 ∧ r = streamed (stream n)) ∨
   (sent s = n ∧ 0 < n ∧ ∃ check i e, admission = Some check ∧ check i = Some e ∧ r = inr (refused_by_admission e))).

Fixpoint attempts_from (n : N) (k : nat) : list N :=
  match k with O => [] | S k' => n :: attempts_from (n + 1) k' end.

Lemma stream_attempts_end stream admission k capped s :
  retried (stream_error stream) (from_secs 30) (sent s) (waits s) →
  stalls capped = N.of_nat (stall_count (stream_error stream) (sent s)) →
  sent s + N.of_nat k = MAX_PROVIDER_ATTEMPTS → sent s < MAX_PROVIDER_ATTEMPTS →
  ∃ s' r, stream_attempts stream admission (attempts_from (sent s + 1) k) capped s = (s', r) ∧
  stream_ended stream admission s' r.
Proof.
  revert capped s. induction k as [|k IH]; intros capped s Hr Hc Hk Hlt; [lia|]. cbn [attempts_from stream_attempts].
  destruct (gate_facts admission s) as (Hs & Hw & Hg). set (gate := if 1 <? sent s + 1 then _ else _) in *.
  destruct gate as [s1 [e|]]; cbn [fst snd] in *.
  { destruct (Hg e eq_refl) as (Hpos & check & i & Hck & Hi). eexists _, _. split; [done|]. exists (sent s).
    rewrite Hw. split; [done|]. split; [done|]. right. rewrite Hs. eauto 10. }
  rewrite Hs. assert (∀ x, streamed (stream (sent s)) = x →
    stream_ended stream admission {| sent := sent s + 1; waits := waits s1; rechecks := rechecks s1 |} x) as Hend.
  { intros x <-. exists (sent s). cbn [waits sent]. rewrite Hw. split; [done|]. split; [done|]. by left. }
  destruct (stream (sent s)) as [resp|[err [|]]] eqn:Ha; cbn [streamed] in Hend; [eauto..|].
  destruct (N.eqb_spec (sent s + 1) MAX_PROVIDER_ATTEMPTS); cbn [orb]; [eauto|].
  destruct (is_retryable (classify_provider_error err)) eqn:Hre; cbn [negb]; [|eauto].
  destruct (allows_another capped (classify_provider_error err)) as [capped' [|]] eqn:Hal; cbn [negb]; [|eauto].
  destruct (bounded_delay err _ _) as [d|] eqn:Hd; [|eauto].
  assert (stream_error stream (sent s) = Some err) as Herr by (unfold stream_error; by rewrite Ha).
  destruct (retried_again _ _ _ _ _ _ _ _ _ Hr Hc Herr Hre Hal Hd) as [Hr' Hc'].
  apply (IH capped' {| sent := sent s + 1; waits := waits s1 ++ [d]; rechecks := rechecks s1 |}); cbn [sent waits];
    [by rewrite Hw|done|lia|lia].
Qed.

Lemma stream_request_ends streams stream provider_chat first_check admission :
  let '(s, r) := request_provider_response_inner streams stream provider_chat first_check admission in
  (streams = true ∧ stream_ended stream admission s r) ∨
  (streams = false ∧ sent s = 1 ∧ waits s = [] ∧
   r = match provider_chat with inl response => inl response | inr e => inr (before_output e) end) ∨
  (sent s = 0 ∧ ∃ e, first_check = Some (Some e) ∧ r = inr (refused_by_admission e)).
Proof.
  unfold request_provider_response_inner.
  destruct (stream_attempts_end stream admission 3 no_failures {| sent := 0; waits := []; rechecks := 0 |})
    as (s & r & He & Hr); cbn [sent waits]; [|done..|].
  { apply retried_none. }
  cbn [sent] in He. change (attempts_from (0 + 1) 3) with [1; 2; 3] in He. rewrite He.
  destruct first_check as [[e|]|]; [right; right; eauto|destruct streams; [by left|by right; left]..].
Qed.

(** * Refusals of a model *)

Lemma is_blank_app a b : is_blank (a ++ b) = is_blank a && is_blank b.
Proof. apply forallb_app. Qed.

Lemma trim_start_blank f t : (∀ c, f c = is_whitespace c) → is_blank (trim_start_matches f t) = is_blank t.
Proof.
  intros Hf. induction t as [|c t IH]; [done|]. cbn [trim_start_matches]. destruct (f c) eqn:Hc; [|done].
  rewrite IH. change (is_blank (c :: t)) with (is_whitespace c && is_blank t). by rewrite <- Hf, Hc.
Qed.

Lemma is_blank_rev t : is_blank (rev t) = is_blank t.
Proof.
  induction t as [|c t IH]; [done|]. change (rev (c :: t)) with (rev t ++ [c]). rewrite is_blank_app, IH.
  change (is_blank [c]) with (is_whitespace c && true). rewrite andb_true_r. apply andb_comm.
Qed.

Lemma trim_blank t : is_blank (trim t) = is_blank t.
Proof.
  unfold trim, trim_matches, trim_end_matches. rewrite is_blank_rev, trim_start_blank, is_blank_rev by done.
  by rewrite trim_start_blank.
Qed.

Lemma strip_prefix_app p t rest : strip_prefix p t = Some rest → t = p ++ rest.
Proof.
  revert t. induction p as [|c p IH]; intros [|d t]; cbn; [by intros [= <-]..|done|].
  destruct (N.eqb_spec c d) as [->|]; [|done]. intros ->%IH. done.
Qed.

Lemma contains_blank p t : contains p t = true → is_blank t = true → is_blank p = true.
Proof.
  induction t as [|c t IH]; cbn [contains]; unfold starts_with; destruct (strip_prefix p _) as [rest|] eqn:Hs; cbn [orb].
  - intros _ Hb. apply strip_prefix_app in Hs. rewrite Hs, is_blank_app in Hb. by apply andb_prop in Hb as [? _].
  - done.
  - intros _ Hb. apply strip_prefix_app in Hs. rewrite Hs, is_blank_app in Hb. by apply andb_prop in Hb as [? _].
  - intros Hc Hb. apply IH; [done|]. cbn in Hb. by apply andb_prop in Hb as [_ ?].
Qed.

Lemma refuses_model_body status vendor body : refuses_model status vendor body = true → is_blank body = false.
Proof.
  unfold refuses_model. intros [[[code named] phrases] [Hin Hp]]%existsb_elem. apply not_true_iff_false. intros Hb.
  apply andb_prop in Hp as [_ Hp]. rewrite forallb_forall in Hp.
  assert (∃ p, p ∈ phrases ∧ is_blank p = false) as (p & Hpin & Hpb).
  { unfold MODEL_REFUSALS in Hin. repeat (apply elem_of_cons in Hin as [[= -> -> ->]|Hin]; [eexists; split; [by left|done]|]).
    by apply not_elem_of_nil in Hin. }
  apply list_elem_of_In in Hpin. specialize (Hp p Hpin). apply contains_blank in Hp; [congruence|done].
Qed.

Lemma model_refusal_no_panic `{JsonReader} {E} err : @model_refusal _ E err ≠ Panic.
Proof.
  unfold model_refusal. destruct err; try done. destruct (http_failure message) as [[[status vendor] body]|]; [|done].
  destruct (refuses_model status vendor body) eqn:Hr; [|done]. cbn [negb]. apply refuses_model_body in Hr.
  assert (default (trim body) (refusal_message body) ≠ []) as Hne.
  { unfold refusal_message. assert (trim body ≠ []) as Ht by (intros Ht; rewrite <- trim_blank, Ht in Hr; done).
    destruct (first_value _) as [v|]; [|done]. cbn zeta. case_match; [|done]. destruct (as_str _) as [m|]; [|done].
    destruct (is_blank m) eqn:Hb; [done|]. cbn. by intros ->. }
  rewrite bool_decide_eq_false_2 by done. done.
Qed.

Lemma model_refusal_ok `{JsonReader} {E} err : ∃ o, @model_refusal _ E err = Ok o.
Proof.
  pose proof (@model_refusal_no_panic _ E err) as Hp. destruct (model_refusal err) as [o|e|] eqn:Hm; [by exists o| |done].
  exfalso. clear Hp. unfold model_refusal in Hm. destruct err; try done. destruct (http_failure message) as [[[??]?]|]; [|done].
  destruct (negb _); [done|]. by destruct (negb _).
Qed.

(** * Corrections *)

(** How many corrections the budgets still allow before a reply is accepted. *)
Definition recovery_ok (s : InferenceRecovery) : Prop :=
  malformed_retries s ≤ MAX_MALFORMED_REQUEST_RETRIES ∧ cut_off_retries s ≤ MAX_CUT_OFF_RETRIES ∧
  tool_cut_off_retries s ≤ MAX_TOOL_CALL_CUT_OFF_RETRIES.

Definition corrections_left (s : InferenceRecovery) : N :=
  (MAX_MALFORMED_REQUEST_RETRIES - malformed_retries s) + (MAX_CUT_OFF_RETRIES - cut_off_retries s)
  + (MAX_TOOL_CALL_CUT_OFF_RETRIES - tool_cut_off_retries s).

Ltac budgets := unfold recovery_ok, corrections_left, MAX_MALFORMED_REQUEST_RETRIES, MAX_CUT_OFF_RETRIES, MAX_TOOL_CALL_CUT_OFF_RETRIES in *; cbn in *.

(** What a correction and an accepted reply cost. *)
Definition spends (s s' : InferenceRecovery) (next : Recovery) : Prop :=
  recovery_ok s' ∧
  match next with
  | Proceed => corrections_left s' ≤ corrections_left s + 3 ∧ unsettled s' = []
  | Correct _ _ _ => corrections_left s' + 1 ≤ corrections_left s ∧ unsettled s' = unsettled s
  | Fail _ => s' = s
  end.

Lemma after_reply_spends `{JsonReader} s r max : recovery_ok s → let '(s', next) := after_reply s r max in spends s s' next.
Proof.
  intros Hs. unfold after_reply, after_cut_off_answer, spends. destruct (is_cut_off_without_answer r max).
  - destruct (N.ltb_spec (cut_off_retries s) MAX_CUT_OFF_RETRIES); [|done]. budgets. split; [lia|]. split; [lia|done].
  - destruct (cut_off_tool_call r); [|budgets; split; [lia|]; split; [lia|done]].
    destruct (N.ltb_spec (tool_cut_off_retries s) MAX_TOOL_CALL_CUT_OFF_RETRIES); budgets; (split; [lia|]; split; [lia|done]).
Qed.

Lemma after_failure_spends `{JsonReader} {E} s e output : recovery_ok s →
  ∃ s' next, @after_failure _ E s e output = Ok (s', next) ∧ spends s s' next ∧ next ≠ Proceed.
Proof.
  intros Hs. unfold after_failure. destruct (classify_provider_failure e output _ _) as [t|err|] eqn:Hc; cbn [rbind].
  - unfold classify_provider_failure in Hc. inv_ok. destruct (_ && _ && _) eqn:Hb; eexists _, _; split; try done; split; try done.
    apply andb_prop in Hb as [_ Hlt%N.ltb_lt]. unfold spends. budgets. split; [lia|]. split; [lia|done].
  - unfold classify_provider_failure in Hc. exfalso. destruct e; try done.
    destruct (_ && _ && _); [|done]. pose proof (@model_refusal_ok _ E (Provider message)) as [o Ho]. by rewrite Ho in Hc.
  - unfold classify_provider_failure in Hc. exfalso. destruct e; try done.
    destruct (_ && _ && _); [|done]. pose proof (@model_refusal_ok _ E (Provider message)) as [o Ho]. by rewrite Ho in Hc.
Qed.

Lemma retain_settled_nil messages : retain_settled [] messages = messages.
Proof. apply filter_all. intros. apply not_elem_of_nil. Qed.

Lemma withdraw_ok {E} s messages ledger :
  ∃ s', @withdraw E s messages ledger = Ok (s', retain_settled (unsettled s) messages, retain_settled (unsettled s) ledger)
  ∧ unsettled s' = [].
Proof.
  unfold withdraw. destruct (decide (unsettled s = [])) as [He|He].
  - rewrite bool_decide_eq_true_2 by done. rewrite He, !retain_settled_nil. by eexists.
  - rewrite bool_decide_eq_false_2 by done. cbn [rbind].
    assert (forallb (λ m, bool_decide (m_id m ∉ unsettled s))
      (retain_settled (unsettled s) messages ++ retain_settled (unsettled s) ledger) = true) as ->.
    { apply forallb_forall. intros m Hm. apply bool_decide_eq_true. apply list_elem_of_In, elem_of_app in Hm.
      unfold retain_settled in Hm. by destruct Hm as [[? _]%list_elem_of_filter|[? _]%list_elem_of_filter]. }
    eexists. split; [done|]. done.
Qed.

(** * Turns *)

Section turns.
Context `{JsonReader} (P : RunPorts) (max : N).

Definition most_iterations : N := N.max 1 max.

Definition loop_ok (n : N) (ids : list N) (r : LoopState) : Prop :=
  recovery_ok (recovery r) ∧ unsettled (recovery r) = ids ∧ iterations r < most_iterations ∧ current_turn r = n + 1.

(** How many requests the run can still make. *)
Definition requests_left (r : LoopState) : N :=
  4 * (most_iterations - 1 - iterations r) + corrections_left (recovery r) + 1.

(** The conversation as the [n]-th request finds it. *)
Definition pruned (n : N) (r : LoopState) : list Message := prune P n (current_turn r) (messages r).

(** The [n]-th request was corrected: feedback was added, to the conversation and to the ledger. *)
Definition corrected (n : N) (r r1 : LoopState) : Prop :=
  iterations r1 = iterations r ∧ ∃ fb,
    let m := feedback_message (fresh_id P n) (estimate P n (words P fb)) (words P fb) (current_turn r) (pruned n r) in
    messages r1 = pruned n r ++ [m] ∧ ledger r1 = ledger r ++ [m].

(** Its reply was accepted, and its tools run. *)
Definition tools_ran (n : N) (r r1 : LoopState) : Prop :=
  iterations r1 = iterations r + 1 ∧ ∃ reply cut,
    (messages r1, ledger r1) = execute_tool_calls P n (current_turn r) reply cut (pruned n r, ledger r).

(** What the last request of a run, the [n]-th, from [r], leaves, where [ids] are those of the feedback added
    since a reply was last accepted. *)
Definition run_ended (n : N) (ids : list N) (r r' : LoopState) (end_ : RunEnd) : Prop :=
  iterations r' ≤ most_iterations ∧
  match end_ with
  | Failed _ => messages r' = filter (λ m, m_id m ∉ ids) (pruned n r) ∧ ledger r' = filter (λ m, m_id m ∉ ids) (ledger r)
  | StoppedAtToolIterationLimit => max ≤ iterations r' ∧ tools_ran n r r'
  | Finalized reply => (messages r', ledger r') = finalize P n reply (pruned n r, ledger r)
  | EndedEmpty => messages r' = pruned n r ∧ ledger r' = ledger r
  end.

(** The feedback not yet followed by an accepted reply, after the [n]-th request led from [r] to [r1]. *)
Definition open_feedback (n : N) (ids : list N) (r r1 : LoopState) : list N :=
  if iterations r1 =? iterations r then ids ++ [fresh_id P n] else [].

Lemma withdrawn_ended {E} n r ids e s' : loop_ok n ids r → s' = recovery r →
  ∃ step, (let? '(recovery, messages, ledger) := @withdraw E s' (pruned n r) (ledger r) in
    Ok (inl ({| messages := messages; ledger := ledger; recovery := recovery; iterations := iterations r;
                current_turn := current_turn r; output_boost := false |}, Failed e)))
    = Ok (A := (LoopState * RunEnd) + LoopState) step ∧
  ∃ r' end_, step = inl (r', end_) ∧ run_ended n ids r r' end_.
Proof.
  intros (_ & Hu & Hi & _) ->. destruct (@withdraw_ok E (recovery r) (pruned n r) (ledger r)) as (s2 & Hw & _).
  rewrite Hw. cbn [rbind]. rewrite Hu. eexists. split; [done|]. eexists _, _. split; [done|].
  split; [cbn; lia|]. done.
Qed.

Lemma turn_request_progress {E} n r ids : loop_ok n ids r →
  ∃ step, @turn_request _ P max E n r = Ok step ∧
  match step with
  | inl (r', end_) => run_ended n ids r r' end_
  | inr r1 => loop_ok (n + 1) (open_feedback n ids r r1) r1 ∧ requests_left r1 + 1 ≤ requests_left r
              ∧ (corrected n r r1 ∨ tools_ran n r r1)
  end.
Proof.
  intros Hok0. pose proof Hok0 as (Hr & Hu & Hi & Ht). unfold turn_request. set (sent := projected P n _). set (limits := limits P n sent).
  fold (pruned n r).
  assert (∀ s' e, s' = recovery r → ∃ step, (let? '(recovery, messages, ledger) := @withdraw E s' (pruned n r) (ledger r) in
    Ok (inl ({| messages := messages; ledger := ledger; recovery := recovery; iterations := iterations r;
                current_turn := current_turn r; output_boost := false |}, Failed e))) = Ok step ∧
    match step with
    | inl (r', end_) => run_ended n ids r r' end_
    | inr r1 => loop_ok (n + 1) (open_feedback n ids r r1) r1 ∧ requests_left r1 + 1 ≤ requests_left r ∧ (corrected n r r1 ∨ tools_ran n r r1)
    end) as Hfail.
  { intros s' e Hs'. destruct (@withdrawn_ended E n r ids e s' Hok0 Hs') as (step & Hst & r' & end_ & -> & Hend). by exists (inl (r', end_)). }
  assert (∀ s' boost fb, recovery_ok s' → corrections_left s' + 1 ≤ corrections_left (recovery r) → unsettled s' = ids →
    ∃ step, (let? '(recovery, messages, ledger) := @correct E s' (pruned n r) (ledger r) (fresh_id P n) (estimate P n (words P fb)) (words P fb) (current_turn r) in
    Ok (inr {| messages := messages; ledger := ledger; recovery := recovery; iterations := iterations r;
               current_turn := current_turn r + 1; output_boost := boost |})) = Ok (A := (LoopState * RunEnd) + LoopState) step ∧
    match step with
    | inl (r', end_) => run_ended n ids r r' end_
    | inr r1 => loop_ok (n + 1) (open_feedback n ids r r1) r1 ∧ requests_left r1 + 1 ≤ requests_left r ∧ (corrected n r r1 ∨ tools_ran n r r1)
    end) as Hcorrect.
  { intros s' boost fb Hs' Hl Hus. eexists. split; [done|]. cbn. split; [|split; [|left; split; [done|by exists fb]]].
    - unfold open_feedback. cbn. rewrite N.eqb_refl. split_and!; [done|by rewrite Hus|done|cbn; lia].
    - unfold requests_left, corrections_left in *. cbn. lia. }
  set (limit := request_max_tokens limits _). destruct (request P n limit sent) as [reply|failure]; cbn [rbind].
  - pose proof (after_reply_spends (recovery r) reply (last_request_max_tokens limits limit) Hr) as Hsp.
    destruct (after_reply _ _ _) as [s' next] eqn:Hn. destruct Hsp as [Hok Hsp]. destruct next as [|fb boost c|e]; cbn [rbind].
    + destruct Hsp as [Hl Hu']. destruct (classify_provider_response reply _).
      * destruct (finalize P n reply _) as [ms ld] eqn:Hf. eexists. split; [done|]. split; [cbn; lia|by rewrite Hf].
      * destruct (execute_tool_calls P n _ reply _ _) as [ms ld] eqn:Hx. eexists. split; [done|]. cbn [iterations].
        set (r1 := {| messages := ms; ledger := ld |}).
        assert (tools_ran n r r1) as Hran by (split; [done|]; eexists reply, _; by rewrite Hx).
        destruct (N.leb_spec max (iterations r + 1)) as [Hm|Hm].
        -- split; [cbn; lia|]. done.
        -- split; [|split; [unfold requests_left; cbn; unfold most_iterations in *; lia|by right]].
           unfold open_feedback. cbn [iterations r1]. rewrite (proj2 (N.eqb_neq _ _)) by lia.
           split_and!; [done|done|cbn; unfold most_iterations in *; lia|cbn; lia].
      * eexists. split; [done|]. split; [cbn; lia|done].
    + destruct Hsp as [Hl Hu']. apply Hcorrect; [done..|congruence].
    + by apply Hfail.
  - destruct (@after_failure_spends _ E (recovery r) (error failure) (from_emitted (emitted_event failure)) Hr)
      as (s' & next & Hn & [Hok Hsp] & Hnp). rewrite Hn. cbn [rbind]. destruct next as [|fb boost c|e]; [done|..].
    + destruct Hsp as [Hl Hu']. apply Hcorrect; [done..|congruence].
    + by apply Hfail.
Qed.

(** The requests a run makes: from the [n]-th, with the feedback [ids] open, to the [m]-th. *)
Inductive goes_on {E} : N → list N → LoopState → N → list N → LoopState → Prop :=
  | goes_on_refl n ids r : goes_on n ids r n ids r
  | goes_on_step n ids r r1 m ids' r' :
      @turn_request _ P max E n r = Ok (inr r1) → corrected n r r1 ∨ tools_ran n r r1 →
      goes_on (n + 1) (open_feedback n ids r r1) r1 m ids' r' → goes_on n ids r m ids' r'.

Lemma run_from_ends {E} fuel n ids r : loop_ok n ids r → (N.to_nat (requests_left r) ≤ fuel)%nat →
  ∃ m ids' r0 r' end_, @run_from _ P max E fuel n r = Ok (Some (m + 1, r', end_)) ∧ m + 1 ≤ n + requests_left r ∧
  @goes_on E n ids r m ids' r0 ∧ current_turn r0 = m + 1 ∧ run_ended m ids' r0 r' end_.
Proof.
  revert n ids r. induction fuel as [|fuel IH]; intros n ids r Hr Hf; [unfold requests_left in Hf; lia|]. cbn [run_from].
  destruct (@turn_request_progress E n r ids Hr) as (step & Hs & Hp). rewrite Hs. cbn [rbind]. destruct step as [[r' end_]|r1].
  - exists n, ids, r, r', end_. split; [done|]. split; [unfold requests_left; lia|]. split; [constructor|]. split; [apply Hr|done].
  - destruct Hp as (Hok & Hl & Hhow). destruct (IH (n + 1) _ r1 Hok) as (m & ids' & r0 & r' & end_ & He & Hm & Hg & Hd); [lia|].
    exists m, ids', r0, r', end_. split; [done|]. split; [lia|]. split; [by econstructor|done].
Qed.
End turns.

Lemma after_failure_shown `{JsonReader} {E} s e : @after_failure _ E s e Shown = Ok (s, Fail e).
Proof.
  unfold after_failure, classify_provider_failure. destruct e; cbn [rbind andb]; try done.
  set (guard := bool_decide _ && _ && _). destruct guard; [|done].
  destruct (@model_refusal_ok _ E (Provider message)) as [o ->]. cbn [map_ok rbind].
  rewrite (bool_decide_eq_false_2 (Shown = NotShown)) by done. by rewrite andb_false_r.
Qed.

(** * Suspensions *)

Module Sessions.
Import Suspension.

(** What happens to a session's automatic turns. *)
Inductive Event :=
  | Observed (g : option N)
  | TurnFailed (err : DomainError)
  | WakeRejected
  | TurnSucceeded
  | TurnStarted (w : Work) (g : option N)
  | Dated (status : option (option StatusReceipt))
  | Probed (receipt : StatusReceipt)
  | OwedTurnTaken.

Definition happens {E} (t : AutomaticTurns) (e : Event) : res E AutomaticTurns :=
  match e with
  | Observed g => Ok (observe_control_generation t g)
  | TurnFailed err => session_suspend_after_failure t err
  | WakeRejected => session_suspend_after_store_rejection t
  | TurnSucceeded => Ok (turn_succeeded t)
  | TurnStarted w g => session_start_turn t w g
  | Dated status => map_ok fst (session_date_suspension t status)
  | Probed receipt => map_ok fst (session_probe_while_suspended t (inl receipt))
  | OwedTurnTaken => Ok (take_owed_turn t).1
  end.

(** Callers start a turn only when it is admitted, and probe only while suspended. *)
Definition enabled (t : AutomaticTurns) (e : Event) : bool :=
  match e with
  | TurnStarted w _ => admits t w
  | Probed _ => negb (allowed t)
  | _ => true
  end.

(** Whether an event re-arms a recoverable failure by itself, with no instruction. *)
Definition automatic_rearm {E} (t : AutomaticTurns) (e : Event) : N :=
  match e with
  | TurnStarted Automatic _ => if allowed t then 0 else 1
  | Probed receipt =>
      match @wake E t (receipt_generation receipt) (run_takes_turns (receipt_status receipt)) with
      | Ok (_, RearmedAfterRecoverableFailure) => 1
      | _ => 0
      end
  | _ => 0
  end.

(** [runs t es n t']: the events [es] lead from [t] to [t'], with [n] automatic re-arms among them. *)
Inductive runs {E} : AutomaticTurns → list Event → N → AutomaticTurns → Prop :=
  | runs_nil t : runs t [] 0 t
  | runs_cons t e t1 es n t' : enabled t e = true → @happens E t e = Ok t1 → runs t1 es n t' →
      runs t (e :: es) (@automatic_rearm E t e + n) t'.

(** Events that make the bound whole again. *)
Definition renews (e : Event) : bool :=
  match e with TurnSucceeded | TurnStarted (WorkInstruction _) _ => true | _ => false end.

(** Turns run exactly while nothing suspends them, a turn is owed only then, and a
    recoverable suspension is one the bound still lets a wake lift. *)
Definition turns_ok (t : AutomaticTurns) : Prop :=
  (allowed t = true ↔ suspension t = None) ∧ (owed_turn t ≠ None → allowed t = true) ∧
  recoverable_rearms t ≤ MAX_RECOVERABLE_REARMS ∧
  (recoverable t = true → recoverable_rearms t < MAX_RECOVERABLE_REARMS).

Lemma default_ok : turns_ok AutomaticTurns_default.
Proof. unfold turns_ok, MAX_RECOVERABLE_REARMS. cbn. split; [done|]. split; [done|]. split; [lia|done]. Qed.

Lemma observe_same t g : let t' := observe_control_generation t g in
  allowed t' = allowed t ∧ suspension t' = suspension t ∧ owed_turn t' = owed_turn t ∧ recoverable_rearms t' = recoverable_rearms t.
Proof. unfold observe_control_generation. destruct g; [|done]. by case_match. Qed.

Lemma turns_ok_observe t g : turns_ok t → turns_ok (observe_control_generation t g).
Proof. unfold turns_ok, recoverable. destruct (observe_same t g) as (-> & -> & -> & ->). done. Qed.

Lemma suspend_ok {E} t c g : turns_ok t → (c = RecoverableProviderFailure → recoverable_rearms t < MAX_RECOVERABLE_REARMS) →
  ∃ t', @suspend E t c g = Ok t' ∧ turns_ok t' ∧ allowed t' = false ∧ cause <$> suspension t' = Some c
  ∧ recoverable_rearms t' = recoverable_rearms t.
Proof.
  intros (_ & _ & Hle & _) Hc. unfold suspend.
  replace (negb _ || _) with true.
  2:{ symmetry. destruct (decide (c = RecoverableProviderFailure)) as [->|Hne].
      - apply orb_true_intro. right. by apply N.ltb_lt, Hc.
      - by rewrite bool_decide_eq_false_2. }
  eexists. split; [done|]. split; [|done]. unfold turns_ok, recoverable. cbn. split; [done|]. split; [done|]. split; [done|].
  intros ->%bool_decide_eq_true. by apply Hc.
Qed.

Lemma rearm_recoverable_ok {E} t : turns_ok t → recoverable t = true →
  ∃ t', @rearm_recoverable E t = Ok t' ∧ allowed t' = true ∧ suspension t' = None ∧
  recoverable_rearms t' = recoverable_rearms t + 1 ∧ recoverable_rearms t' ≤ MAX_RECOVERABLE_REARMS.
Proof.
  intros (_ & _ & _ & H4) Hr. apply H4 in Hr as Hlt. unfold rearm_recoverable. rewrite Hr.
  rewrite (proj2 (N.ltb_lt _ _) Hlt). cbn. eexists. split; [done|]. cbn. split; [done|]. split; [done|]. split; lia.
Qed.

(** Turns that run, with the owed turn and the count of re-arms as they are. *)
Lemma running_ok t : allowed t = true → suspension t = None → recoverable_rearms t ≤ MAX_RECOVERABLE_REARMS → turns_ok t.
Proof. intros Ha Hs Hr. unfold turns_ok, recoverable. rewrite Ha, Hs. done. Qed.

Lemma resume_ok t g : turns_ok t → let '(t', resumed) := resume_after_control_change t g in
  turns_ok t' ∧ recoverable_rearms t' = recoverable_rearms t ∧
  (if resumed : bool then allowed t' = true ∧ owed_turn t' ≠ None
   else allowed t' = allowed t ∧ cause <$> suspension t' = cause <$> suspension t).
Proof.
  intros Hok. unfold resume_after_control_change. apply (turns_ok_observe t (Some g)) in Hok as Hok1.
  destruct (observe_same t (Some g)) as (<- & <- & _ & <-). revert Hok1. generalize (observe_control_generation t (Some g)).
  clear t Hok. intros t Hok. destruct (suspension t) as [s|] eqn:Hs; [|by rewrite Hs].
  pose proof Hok as (H1 & H2 & H3 & H4).
  destruct (cause s) eqn:Hc; (destruct (generation s) as [seen|]; [destruct (seen <? g)|]);
    rewrite ?Hs; cbn; rewrite ?Hc; try done; try (split; [by apply running_ok|done]);
    (split; [|done]); unfold turns_ok, recoverable in *; rewrite Hs, Hc in *; cbn; (split; [|done]); (split; [|done]);
    intros Ha; by apply H1 in Ha.
Qed.

Lemma wake_ok {E} t g b : turns_ok t → ∃ t' o, @wake E t g b = Ok (t', o) ∧ turns_ok t'
  ∧ recoverable_rearms t' = recoverable_rearms t + match o with RearmedAfterRecoverableFailure => 1 | _ => 0 end
  ∧ (recoverable t = true → b = true → allowed t' = true ∧ owed_turn t' ≠ None)
  ∧ (cause <$> suspension t = Some StoreRejection → cause <$> suspension t' = Some StoreRejection).
Proof.
  intros Hok. unfold wake. pose proof (resume_ok t g Hok) as Hres. destruct (resume_after_control_change t g) as [t1 [|]] eqn:Hr.
  - destruct Hres as (Hok1 & Hre & Ha & Ho). eexists _, _. split; [done|]. split; [done|]. split; [lia|]. split; [done|].
    intros Hc. unfold resume_after_control_change in Hr. destruct (observe_same t (Some g)) as (_ & Hs & _ & _).
    rewrite Hs in Hr. destruct (suspension t) as [s|]; [|done]. injection Hc as Hc. by rewrite Hc in Hr.
  - destruct Hres as (Hok1 & Hre & Ha & Hc). assert (recoverable t1 = recoverable t) as Hrec.
    { unfold recoverable. destruct (suspension t), (suspension t1); cbn in Hc; try done. injection Hc as Hc. by rewrite Hc. }
    rewrite <- Hc. destruct (suspension t1) as [s|] eqn:Hs; cbn [fmap option_fmap option_map].
    2:{ eexists _, _. split; [done|]. split; [done|]. split; [lia|]. rewrite <- Hrec. unfold recoverable. by rewrite Hs. }
    assert (recoverable t1 = bool_decide (cause s = RecoverableProviderFailure)) as Hrs by (unfold recoverable; by rewrite Hs).
    destruct (cause s) eqn:Hcs; [| |].
    + eexists _, _. split; [by destruct b|]. split; [done|]. split; [lia|]. rewrite <- Hrec, Hrs. split; [done|]. done.
    + destruct b.
      * destruct (@rearm_recoverable_ok E t1) as (t' & Ht' & Ha' & Hs' & Hre' & Hle); [done|by rewrite Hrs|].
        rewrite Ht'. cbn. eexists _, _. split; [done|]. split; [by apply running_ok|]. cbn. split; [lia|]. done.
      * eexists _, _. split; [done|]. split; [done|]. split; [lia|]. done.
    + eexists _, _. split; [by destruct b|]. split; [done|]. split; [lia|]. rewrite <- Hrec, Hrs. split; [done|]. by rewrite Hs; cbn; rewrite Hcs.
Qed.
Lemma happens_ok {E} t e : turns_ok t → enabled t e = true → ∃ t', @happens E t e = Ok t' ∧ turns_ok t' ∧
  (renews e = false → recoverable_rearms t' = recoverable_rearms t + @automatic_rearm E t e).
Proof.
  intros Hok Hen. pose proof Hok as (H1 & H2 & H3 & H4). destruct e as [g|err| | |w g|status|receipt|]; cbn [happens automatic_rearm renews].
  - eexists. split; [done|]. split; [by apply turns_ok_observe|]. destruct (observe_same t g) as (_ & _ & _ & ->). lia.
  - unfold session_suspend_after_failure, suspend_after_failure.
    set (c := if recoverable_rearms t <? MAX_RECOVERABLE_REARMS then for_failure err else ProviderFailure).
    assert (c = RecoverableProviderFailure → recoverable_rearms t < MAX_RECOVERABLE_REARMS) as Hc.
    { unfold c. by destruct (N.ltb_spec (recoverable_rearms t) MAX_RECOVERABLE_REARMS). }
    destruct (@suspend_ok E t c None Hok Hc) as (t' & Hs & Hok' & Ha & _ & Hre).
    assert (match for_failure err, recoverable_rearms t <? MAX_RECOVERABLE_REARMS with
      | RecoverableProviderFailure, true => Ok RecoverableProviderFailure
      | RecoverableProviderFailure, false | ProviderFailure, _ => Ok ProviderFailure
      | StoreRejection, _ => Panic end = Ok (E := E) c) as ->.
    { unfold c, for_failure. by destruct (is_retryable _), (_ <? _). }
    cbn [rbind]. rewrite Hs. cbn [rbind]. rewrite Ha. eexists. split; [done|]. split; [done|]. lia.
  - unfold session_suspend_after_store_rejection. destruct (@suspend_ok E t StoreRejection None Hok) as (t' & Hs & Hok' & Ha & _ & Hre); [done|].
    rewrite Hs. cbn [rbind]. rewrite Ha. eexists. split; [done|]. split; [done|]. lia.
  - eexists. split; [done|]. split; [|done]. unfold turns_ok, turn_succeeded, recoverable, MAX_RECOVERABLE_REARMS in *. cbn.
    split; [done|]. split; [done|]. split; lia.
  - unfold session_start_turn, start. destruct w as [[]|]; cbn [rbind rearm allowed assert_that].
    1,2: eexists; split; [done|]; split; [|done]; apply turns_ok_observe, running_ok; done.
    + destruct (allowed t) eqn:Ha; cbn [rbind rearm allowed assert_that]; rewrite ?Ha; cbn [rbind assert_that]; eexists;
        (split; [done|]); (split; [|done]); apply turns_ok_observe; [done|by apply running_ok].
    + cbn in Hen. destruct (allowed t) eqn:Ha; cbn [rbind].
      * rewrite Ha. eexists. split; [done|]. split; [by apply turns_ok_observe|]. destruct (observe_same t g) as (_ & _ & _ & ->). lia.
      * cbn in Hen. rewrite Hen. destruct (@rearm_recoverable_ok E t Hok Hen) as (t' & Ht' & Ha' & Hs' & Hre & Hle).
        rewrite Ht'. cbn [rbind]. rewrite Ha'. eexists. split; [done|]. split; [apply turns_ok_observe; by apply running_ok|].
        intros _. destruct (observe_same t' g) as (_ & _ & _ & ->). lia.
  - unfold session_date_suspension. destruct (needs_provider_dating t) eqn:Hn; [|eexists; split; [done|]; split; [done|cbn; lia]].
    destruct status as [[receipt|]|]; [|eexists; split; [done|]; split; [done|cbn; lia]..].
    unfold needs_provider_dating, date_suspension in *. destruct (suspension t) as [s|] eqn:Hs; [|done].
    apply andb_prop in Hn as [Hp _]. rewrite Hp. cbn. rewrite Hp. cbn. eexists. split; [done|]. cbn. split; [|lia].
    unfold turns_ok, recoverable in *. rewrite Hs in *. cbn. split; [split; [|done]; intros Ha; by apply H1 in Ha|]. done.
  - cbn in Hen. unfold session_probe_while_suspended. rewrite Hen. cbn [assert_that rbind].
    destruct (@wake_ok E t (receipt_generation receipt) (run_takes_turns (receipt_status receipt)) Hok) as (t' & o & Hw & Hok' & Hre & _).
    rewrite Hw. cbn. eexists. split; [done|]. split; [done|]. by destruct o.
  - eexists. split; [done|]. cbn. split; [|lia]. unfold turns_ok, recoverable in *. cbn. done.
Qed.

Lemma runs_ok {E} t es n t' : @runs E t es n t' → turns_ok t → turns_ok t'.
Proof.
  induction 1 as [|t e t1 es n t' Hen Hh _ IH]; intros Hok; [done|]. apply IH.
  destruct (@happens_ok E t e Hok Hen) as (t2 & Hh' & Hok' & _). congruence.
Qed.

Lemma runs_rearms {E} t es n t' : @runs E t es n t' → turns_ok t → Forall (λ e, renews e = false) es →
  recoverable_rearms t' = recoverable_rearms t + n.
Proof.
  induction 1 as [|t e t1 es n t' Hen Hh _ IH]; intros Hok Hes; [lia|]. apply list.Forall_cons in Hes as [He Hes].
  destruct (@happens_ok E t e Hok Hen) as (t2 & Hh' & Hok' & Hre). rewrite Hh in Hh'. injection Hh' as <-.
  rewrite IH by done. rewrite Hre by done. lia.
Qed.

(** What becomes of a suspension that is not recoverable: an instruction lifts it, a new failure
    or rejection takes its place, the first reading after a provider failure dates it, and a wake lifts a provider
    failure when its generation is newer than the one the failure is recorded at (an undated one is recorded
    at the latest the session had seen, or else at the first a wake reads). *)
Definition next_suspension (t : AutomaticTurns) (s : TurnSuspension) (e : Event) : option TurnSuspension :=
  let at_last c := Some {| cause := c; generation := last_control_generation t; dated := false |} in
  match e with
  | TurnStarted _ _ => None
  | TurnFailed err => at_last (if recoverable_rearms t <? MAX_RECOVERABLE_REARMS then for_failure err else ProviderFailure)
  | WakeRejected => at_last StoreRejection
  | Dated (Some (Some receipt)) =>
      if bool_decide (cause s = ProviderFailure) && negb (dated s)
      then Some {| cause := ProviderFailure; generation := Some (receipt_generation receipt); dated := true |} else Some s
  | Probed receipt =>
      if bool_decide (cause s = ProviderFailure) then
        match generation s with
        | Some g => if g <? receipt_generation receipt then None else Some s
        | None => Some {| cause := ProviderFailure; generation := Some (receipt_generation receipt); dated := dated s |}
        end
      else Some s
  | _ => Some s
  end.

Lemma happens_suspended {E} t e t' s : turns_ok t → enabled t e = true → @happens E t e = Ok t' →
  suspension t = Some s → cause s ≠ RecoverableProviderFailure →
  suspension t' = next_suspension t s e ∧
  (∀ receipt, e = Probed receipt → suspension t' = None → owed_turn t' = Some AfterResume).
Proof.
  intros Hok Hen Hh Hs Hnr. pose proof Hok as (H1 & _).
  assert (allowed t = false) as Ha. { destruct (allowed t); [|done]. destruct H1 as [H1 _]. rewrite Hs in H1. by specialize (H1 eq_refl). }
  assert (recoverable t = false) as Hr. { unfold recoverable. rewrite Hs. by apply bool_decide_eq_false. }
  destruct e as [g|err| | |w g|status|receipt|]; cbn in Hh; (split; [|try done]).
  - injection Hh as <-. by destruct (observe_same t g) as (_ & -> & _).
  - unfold session_suspend_after_failure, suspend_after_failure, suspend in Hh. cbn.
    destruct (for_failure err), (recoverable_rearms t <? MAX_RECOVERABLE_REARMS); cbn in Hh; try done;
      repeat case_bool_decide; cbn in Hh; by simplify_eq.
  - unfold session_suspend_after_store_rejection, suspend in Hh. cbn in Hh. case_bool_decide; [done|]. cbn in Hh. by injection Hh as <-.
  - by injection Hh as <-.
  - unfold session_start_turn, start in Hh. destruct w as [[]|]; cbn in Hh; rewrite ?Ha in Hh; cbn in Hh.
    1-3: injection Hh as <-; by destruct (observe_same (rearm t) g) as (_ & -> & _).
    cbn in Hen. by rewrite Ha, Hr in Hen.
  - unfold session_date_suspension, needs_provider_dating, date_suspension in Hh. rewrite Hs in Hh.
    destruct status as [[receipt|]|]; cbn; destruct (cause s) eqn:Hc; try done; destruct (dated s); cbn in Hh; rewrite ?Hc in Hh;
      cbn in Hh; injection Hh as <-; try done.
  - unfold session_probe_while_suspended in Hh. rewrite Ha in Hh. cbn in Hh.
    unfold wake, resume_after_control_change in Hh. destruct (observe_same t (Some (receipt_generation receipt))) as (_ & Hs1 & _).
    revert Hh Hs1. generalize (observe_control_generation t (Some (receipt_generation receipt))) as t1. intros t1 Hh Hs1.
    rewrite Hs in Hs1. rewrite Hs1 in Hh. cbn.
    destruct (cause s) eqn:Hc; [|done|rewrite Hs1 in Hh; cbn in Hh; rewrite Hc in Hh; cbn in Hh; by injection Hh as <-].
    destruct (generation s) as [g|]; [destruct (g <? _)|]; cbn in Hh; rewrite ?Hs1, ?Hc in Hh; cbn in Hh; rewrite ?Hc in Hh; cbn in Hh; by injection Hh as <-.
  - unfold session_probe_while_suspended in Hh. rewrite Ha in Hh. cbn in Hh. intros r' _ Hnone.
    unfold wake, resume_after_control_change in Hh. destruct (observe_same t (Some (receipt_generation receipt))) as (_ & Hs1 & _).
    revert Hh Hs1. generalize (observe_control_generation t (Some (receipt_generation receipt))) as t1. intros t1 Hh Hs1.
    rewrite Hs in Hs1. rewrite Hs1 in Hh.
    destruct (cause s) eqn:Hc; [|done|rewrite Hs1 in Hh; cbn in Hh; rewrite Hc in Hh; cbn in Hh; injection Hh as <-; congruence].
    destruct (generation s) as [g|]; [destruct (g <? _)|]; cbn in Hh; rewrite ?Hs1 in Hh; cbn in Hh; rewrite ?Hc in Hh; cbn in Hh;
      injection Hh as <-; cbn in *; congruence.
  - by injection Hh as <-.
Qed.
End Sessions.

(** * What is promised *)

(** C34: Requests to a provider are bounded and a reply that was shown is never sent
    again.  Whatever the provider answers, the retrying provider and the retries of a
    stream end: at most the configured attempts (three for a stream) are sent, each
    but the last of them failed in a way the provider may recover from before showing
    anything, at most one of those was a stall, every wait is within its bound, and what is answered is what the last
    attempt met, unless the admission gate refused; a session that does not stream leaves
    the retries to the provider and makes one call.  A failure after output was
    shown is not corrected either: it ends the turn. *)
Theorem provider_retries_bounded `{JsonReader} :
  (∀ R (answer : N → R + DomainError) admission clock c, ∃ s r,
    chat answer admission clock c = Some (s, r) ∧ chat_ended answer admission (max_backoff c) (max_attempts c) s r) ∧
  (∀ streams stream provider_chat first_check admission,
    let '(s, r) := request_provider_response_inner streams stream provider_chat first_check admission in
    (streams = true ∧ stream_ended stream admission s r) ∨
    (streams = false ∧ sent s = 1 ∧ waits s = [] ∧
     r = match provider_chat with inl response => inl response | inr e => inr (before_output e) end) ∨
    (sent s = 0 ∧ ∃ e, first_check = Some (Some e) ∧ r = inr (refused_by_admission e))) ∧
  (∀ E recovery failure, emitted_event failure = true →
    @after_failure _ E recovery (error failure) (from_emitted (emitted_event failure)) = Ok (recovery, Fail (error failure))).
Proof.
  split; [intros; apply chat_ends|]. split; [intros; apply stream_request_ends|].
  intros E recovery failure ->. apply after_failure_shown.
Qed.

(** C35: A turn always ends: whatever the provider answers and whatever tools and
    pruning do, the loop ends within four requests for each tool iteration and
    three more, with no panic (its turn counter within the number of requests).  Each request but the last
    either had its reply accepted and its tools run, or was corrected: feedback was
    added to the conversation and to the ledger.  A turn that fails withdraws the feedback added since a reply was
    last accepted, and nothing else, from both; a turn that ends any other way withdraws nothing. *)
Theorem turn_always_ends `{JsonReader} {E} (P : RunPorts) max start (most := 4 * N.max 1 max + 3) :
  ∃ m ids r0 r' end_, @run_loop _ P max E (N.to_nat most) start = Ok (Some (m + 1, r', end_)) ∧ m + 1 ≤ most ∧
  @goes_on _ P max E 0 [] {| messages := start; ledger := []; recovery := for_run; iterations := 0; current_turn := 1;
                             output_boost := false |} m ids r0 ∧
  current_turn r0 = m + 1 ∧ run_ended P max m ids r0 r' end_.
Proof.
  unfold run_loop. set (r := {| messages := start |}).
  assert (requests_left max r = most) as Hl.
  { unfold requests_left, most_iterations, most, corrections_left, MAX_MALFORMED_REQUEST_RETRIES, MAX_CUT_OFF_RETRIES,
      MAX_TOOL_CALL_CUT_OFF_RETRIES. cbn. lia. }
  destruct (@run_from_ends _ P max E (N.to_nat most) 0 [] r) as (m & ids & r0 & r' & end_ & He & Hm & Hg & Hd).
  - split; [unfold recovery_ok, MAX_MALFORMED_REQUEST_RETRIES, MAX_CUT_OFF_RETRIES, MAX_TOOL_CALL_CUT_OFF_RETRIES; cbn; lia|].
    unfold most_iterations. cbn. split_and!; [done|lia|done].
  - lia.
  - exists m, ids, r0, r', end_. split; [done|]. split; [lia|]. done.
Qed.

Section Promises.
Import Suspension Sessions.

(** C36: A session that failed is neither stranded nor woken for ever.  After any events
    that callers may cause, no event they may cause next panics, turns run exactly
    while nothing suspends them, and: until a turn succeeds or an instruction comes, at most
    two automatic re-arms follow one another; a recoverable failure is lifted by the next
    wake of a run that takes turns, which owes the run one turn; and of a suspension that is not
    recoverable each event makes what [next_suspension] says: it stays until an instruction, or a new failure or rejection that
    takes its place, or, for a provider failure, a wake at a control generation newer than the one it
    is recorded at, which owes the run one turn.  That generation is the first read after the failure, or until
    one is read the latest the session had seen before it, or else the first a wake reads. *)
Theorem suspension_bounded {E} es n t : @runs E AutomaticTurns_default es n t →
  turns_ok t ∧
  (∀ e, enabled t e = true → ∃ t', @happens E t e = Ok t' ∧ turns_ok t') ∧
  (∀ es' n' t', @runs E t es' n' t' → Forall (λ e, renews e = false) es' → n' ≤ MAX_RECOVERABLE_REARMS) ∧
  (∀ receipt, recoverable t = true → run_takes_turns (receipt_status receipt) = true →
    ∃ t' o, @session_probe_while_suspended E t (inl receipt) = Ok (t', o) ∧ allowed t' = true ∧
    (take_owed_turn t').2 ≠ None ∧ (take_owed_turn (take_owed_turn t').1).2 = None) ∧
  (∀ s e t', suspension t = Some s → cause s ≠ RecoverableProviderFailure → enabled t e = true → @happens E t e = Ok t' →
    suspension t' = next_suspension t s e ∧ (allowed t' = true ↔ suspension t' = None) ∧
    (∀ receipt, e = Probed receipt → suspension t' = None →
       (take_owed_turn t').2 = Some AfterResume ∧ (take_owed_turn (take_owed_turn t').1).2 = None)).
Proof.
  intros Hr. pose proof (runs_ok _ _ _ _ Hr default_ok) as Hok. split; [done|]. split; [|split; [|split]].
  - intros e He. destruct (@happens_ok E t e Hok He) as (t' & Hh & Hok' & _). eauto.
  - intros es' n' t' Hr' Hes. pose proof (runs_rearms _ _ _ _ Hr' Hok Hes) as Hn.
    destruct (runs_ok _ _ _ _ Hr' Hok) as (_ & _ & Hle & _). lia.
  - intros receipt Hrec Hrun. destruct (@wake_ok E t (receipt_generation receipt) true Hok) as (t' & o & Hw & _ & _ & Ha & _).
    destruct (Ha Hrec eq_refl) as [Ha' Ho]. unfold session_probe_while_suspended.
    assert (allowed t = false) as Hal.
    { destruct Hok as ([H1 _] & _). destruct (allowed t); [|done]. specialize (H1 eq_refl). unfold recoverable in Hrec. by rewrite H1 in Hrec. }
    rewrite Hal, Hrun, Hw. cbn. eexists _, _. split; [done|]. done.
  - intros s e t' Hs Hnr He Hh. destruct (happens_suspended t e t' s Hok He Hh Hs Hnr) as [Hn Hp].
    destruct (@happens_ok E t e Hok He) as (t2 & Hh2 & (H1 & _) & _). rewrite Hh in Hh2. injection Hh2 as <-.
    split; [done|]. split; [done|]. intros receipt -> Hnone. split; [by apply (Hp receipt)|done].
Qed.

(** A session whose turn met an overloaded provider. *)
Definition overloaded : Event := TurnFailed (Provider (tx "HTTP 503 from vendor: overloaded")).
Definition after_overload : AutomaticTurns :=
  {| allowed := false; suspension := Some {| cause := RecoverableProviderFailure; generation := None; dated := false |};
     last_control_generation := None; owed_turn := None; recoverable_rearms := 0; suspension_epoch := 1 |}.

Lemma overloaded_runs : @runs Empty_set AutomaticTurns_default [overloaded] 0 after_overload.
Proof. apply (runs_cons AutomaticTurns_default overloaded after_overload [] 0); [done|vm_compute; reflexivity|apply runs_nil]. Qed.

Lemma suspension_bounded_witness :
  @runs Empty_set AutomaticTurns_default [overloaded] 0 after_overload ∧ recoverable after_overload = true ∧
  ∀ es' n' t', @runs Empty_set after_overload es' n' t' → Forall (λ e, renews e = false) es' → n' ≤ 2.
Proof.
  split; [exact overloaded_runs|]. split; [reflexivity|]. exact (proj1 (proj2 (proj2 (suspension_bounded _ _ _ overloaded_runs)))).
Defined.
End Promises.

(** The class a provider's stream named is the class its error has: the rendering of a
    mid-stream failure reads back as its class for each class a wire can name, whatever
    its detail says, so only a rate limit or a server failure is retried. *)
Theorem stream_failure_round_trip class detail :
  is_Some (List.find (λ named, bool_decide (named.1 = class)) STREAM_FAILURE_CLASSES) →
  classify_provider_error (Provider (classed_stream_failure class detail)) = class ∧
  (is_retryable class = true ↔ class = RateLimit ∨ class = Server).
Proof.
  intros [x Hx]. destruct class; try (vm_compute in Hx; discriminate); (split; [reflexivity|]); split; cbn;
    try done; try tauto; by intros [?|?].
Qed.

Lemma stream_failure_round_trip_witness :
  classify_provider_error (Provider (classed_stream_failure Billing (tx "HTTP 503: rate limit"))) = Billing.
Proof. apply (stream_failure_round_trip Billing (tx "HTTP 503: rate limit")). eexists. reflexivity. Defined.
