(* ===== verification/Agents.v ===== *)
(** Delegated agents: how a termination finds its target, which connection is a
    harness's parent, how a parent's turn is settled, and what of a child's
    transcript its supervisor is told.

    Models [domain/agents/services/subagent_teardown.rs], [subagent.rs] (names and
    model arguments), [turn_outcome_policy.rs] and [unread_report.rs],
    [domain/agents/entities/parent_control.rs],
    [domain/agents/value_objects/turn_outcome.rs], [turn_declaration.rs] and
    [harness_lifetime.rs], [domain/shared/secret_compare.rs], the use cases
    [application/agent_turn/use_cases/declaration.rs] and [parent_outcome.rs] with
    [dto/parent_outcome.rs], and in the module [Terminate] the use case
    [application/subagents/use_cases/terminate_delegated_agent.rs] with its ports and
    requests, the responses of [subagent_teardown_presenter.rs],
    [subagent_teardown_mapping.rs] and [subagent_teardown_wire.rs], and what
    [direct_child_routing.rs] reads of one.

    The ports of a termination answer by the calls made so far, in a trace that keeps
    each call with its answer and the harness that made it.  In a network of harnesses a
    forward is the use case of the child, run between the call and its answer; what the
    transport does to it (no endpoint, an unauthorised connection, a line over the cap, a
    timeout) is the [edge] of the network.  A child whose answer is lost may still be at
    work when its parent goes on: its calls are put before the parent's here.

    A mutex is the state itself: its guard is held for the whole of each operation, and
    nothing done under it panics.  Poison is kept as a flag of the declarations,
    because their reader has a branch for it.  Display texts are modelled where they are
    relayed as the detail of a refusal. *)

From S2P Require Import Prelude BoardText Watermark Conversation ProviderError.

(** * Teardown (subagent_teardown.rs) *)

Module Teardown.

Abbreviation AgentUuid := string (only parsing).
Abbreviation LaunchGeneration := N (only parsing).

Record DelegatedAgentIdentity := { uuid : AgentUuid; generation : LaunchGeneration }.

#[export] Instance DelegatedAgentIdentity_eq_dec : EqDecision DelegatedAgentIdentity.
Proof. solve_decision. Defined.

(** ** Routing depth *)

Definition MAX_HOPS : N := 32.

Inductive RoutingDepthError := DepthZero | ExceedsMaximum (requested maximum : N).

Definition RoutingDepth_new (hops : N) : res RoutingDepthError N :=
  if (hops =? 0)%N then Err DepthZero
  else if (MAX_HOPS <? hops)%N then Err (ExceedsMaximum hops MAX_HOPS)
  else Ok hops.

Definition after_forward (hops : N) : option N := if (hops <=? 1)%N then None else Some (hops - 1)%N.

(** ** Reasons *)

Inductive ShutdownReason :=
  | ParentShutdown | SelectedTermination | ParentConnectionLost | ParentNeverBound | TerminationSignal | OperatorRequest.

Definition ALL_REASONS : list ShutdownReason :=
  [ParentShutdown; SelectedTermination; ParentConnectionLost; ParentNeverBound; TerminationSignal; OperatorRequest].

Definition reason_as_str (r : ShutdownReason) : text :=
  match r with
  | ParentShutdown => tx "parent_shutdown"
  | SelectedTermination => tx "selected_termination"
  | ParentConnectionLost => tx "parent_connection_lost"
  | ParentNeverBound => tx "parent_never_bound"
  | TerminationSignal => tx "termination_signal"
  | OperatorRequest => tx "operator_request"
  end.

Definition reason_parse (raw : text) : res text ShutdownReason :=
  or_err (List.find (λ r, text_eqb (reason_as_str r) raw) ALL_REASONS) raw.

(** ** Lifecycle of a harness *)

Inductive HarnessLifecycleState := Accepting | Frozen | Terminated.

Definition accepts_new_work (s : HarnessLifecycleState) : bool := match s with Accepting => true | _ => false end.

Record LifecycleTransitionError := { from : HarnessLifecycleState; attempted : text }.

Definition freeze (s : HarnessLifecycleState) : res LifecycleTransitionError HarnessLifecycleState :=
  match s with Accepting | Frozen => Ok Frozen | Terminated => Err {| from := s; attempted := tx "freeze" |} end.
Definition thaw (s : HarnessLifecycleState) : res LifecycleTransitionError HarnessLifecycleState :=
  match s with Frozen | Accepting => Ok Accepting | Terminated => Err {| from := s; attempted := tx "thaw" |} end.
Definition terminate (s : HarnessLifecycleState) : res LifecycleTransitionError HarnessLifecycleState :=
  match s with Frozen | Terminated => Ok Terminated | Accepting => Err {| from := s; attempted := tx "terminate" |} end.

(** ** Lineage *)

Record LineageRecord := { identity : DelegatedAgentIdentity; parent : AgentUuid }.

Record LineageSnapshot := { owner : AgentUuid; records : list LineageRecord }.

Definition direct_children (s : LineageSnapshot) : list DelegatedAgentIdentity :=
  identity <$> filter (λ r, parent r = owner s ∧ uuid (identity r) ≠ owner s) (records s).

Inductive TerminationRoute :=
  | ShutdownDirectChild (child : DelegatedAgentIdentity)
  | ForwardToDirectChild (via : DelegatedAgentIdentity) (remaining_depth : N).

Inductive TerminationRouteError :=
  | TargetIsSelf
  | UnknownTarget (target : AgentUuid)
  | AmbiguousLineage (at_ : AgentUuid)
  | StaleGeneration (target : AgentUuid) (requested current : LaunchGeneration)
  | LineageCycle (at_ : AgentUuid)
  | DepthExhausted (target : AgentUuid) (remaining : N).

Definition unique_record (s : LineageSnapshot) (id : AgentUuid) : res TerminationRouteError (option LineageRecord) :=
  match filter (λ r, uuid (identity r) = id) (records s) with
  | [] => Ok None
  | [r] => Ok (Some r)
  | _ :: _ :: _ => Err (AmbiguousLineage id)
  end.

(** The walk up the parents, with the uuids visited.  Each turn visits one more uuid of the snapshot, so the
    number of records bounds the turns; running out of [fuel] is a panic here. *)
Fixpoint walk_up (fuel : nat) (s : LineageSnapshot) (visited : list AgentUuid) (current : LineageRecord)
  : res TerminationRouteError (DelegatedAgentIdentity * N) :=
  let id := uuid (identity current) in
  if bool_decide (id ∈ visited) then Err (LineageCycle id)
  else
    let visited := id :: visited in
    if bool_decide (parent current = owner s) then Ok (identity current, N.min (N.of_nat (length visited)) u32_max)
    else
      let? found := unique_record s (parent current) in
      let? next := or_err found (LineageCycle (parent current)) in
      match fuel with
      | 0 => Panic
      | S fuel' => walk_up fuel' s visited next
      end.

Definition direct_child_toward (s : LineageSnapshot) (record : LineageRecord) : res TerminationRouteError (DelegatedAgentIdentity * N) :=
  walk_up (length (records s)) s [] record.

(** The record of the target, once it is known to be the launch that is meant. *)
Definition target_record (s : LineageSnapshot) (target : DelegatedAgentIdentity) : res TerminationRouteError LineageRecord :=
  ensure (negb (bool_decide (uuid target = owner s))) TargetIsSelf ;?
  let? found := unique_record s (uuid target) in
  let? record := or_err found (UnknownTarget (uuid target)) in
  ensure (generation (identity record) =? generation target)%N
    (StaleGeneration (uuid target) (generation target) (generation (identity record))) ;?
  Ok record.

Definition resolve_termination_route (s : LineageSnapshot) (target : DelegatedAgentIdentity) (remaining_depth : N)
  : res TerminationRouteError TerminationRoute :=
  let? record := target_record s target in
  let? '(via, edges) := direct_child_toward s record in
  let? found := unique_record s (uuid via) in
  let via_is_direct := match found with Some r => bool_decide (parent r = owner s) | None => false end in
  ensure (via_is_direct && negb (edges =? 0)%N) (LineageCycle (uuid via)) ;?
  if (edges =? 1)%N then
    ensure (bool_decide (uuid via = uuid target)) (LineageCycle (uuid via)) ;?
    Ok (ShutdownDirectChild via)
  else match after_forward remaining_depth with
  | Some next =>
      if (edges <=? remaining_depth)%N then Ok (ForwardToDirectChild via next)
      else Err (DepthExhausted (uuid target) remaining_depth)
  | None => Err (DepthExhausted (uuid target) remaining_depth)
  end.

Definition route_length (s : LineageSnapshot) (target : DelegatedAgentIdentity) : res TerminationRouteError N :=
  let? record := target_record s target in
  map_ok snd (direct_child_toward s record).
End Teardown.

(** * Selected termination (terminate_delegated_agent.rs and its ports) *)

Module Terminate.
Import Teardown.

(** ** What crosses an edge (ports/child_routing.rs) *)

Inductive DownstreamRejection :=
  | DownUnknownTarget
  | DownStaleGeneration
  | DownAlreadyExited
  | DownRejected (detail : text)
  | DownNotAccepting
  | DownUnreachable (detail : text)
  | DownFailed (detail : text).

Definition kind (r : DownstreamRejection) : text :=
  match r with
  | DownUnknownTarget => tx "unknown_target"
  | DownStaleGeneration => tx "stale_generation"
  | DownAlreadyExited => tx "already_exited"
  | DownRejected _ => tx "rejected"
  | DownNotAccepting => tx "not_accepting"
  | DownUnreachable _ => tx "unreachable"
  | DownFailed _ => tx "failed"
  end.

Definition from_kind (k detail : text) : DownstreamRejection :=
  if text_eqb k (tx "unknown_target") then DownUnknownTarget
  else if text_eqb k (tx "stale_generation") then DownStaleGeneration
  else if text_eqb k (tx "already_exited") then DownAlreadyExited
  else if text_eqb k (tx "not_accepting") then DownNotAccepting
  else if text_eqb k (tx "unreachable") then DownUnreachable detail
  else if text_eqb k (tx "failed") then DownFailed detail
  else DownRejected detail.

Definition effects_dispatched (r : DownstreamRejection) : bool := match r with DownFailed _ => true | _ => false end.

Definition rejection_text (r : DownstreamRejection) : text :=
  match r with
  | DownUnknownTarget => tx "target unknown downstream"
  | DownStaleGeneration => tx "target generation is stale downstream"
  | DownAlreadyExited => tx "target already exited downstream"
  | DownRejected detail => tx "rejected downstream: " ++ detail
  | DownNotAccepting => tx "downstream harness is not accepting"
  | DownUnreachable detail => tx "unreachable downstream: " ++ detail
  | DownFailed detail => tx "termination failed downstream: " ++ detail
  end.

Inductive ChildRoutingError := NotADirectChild | Unreachable (detail : text) | Downstream (rejection : DownstreamRejection).

Definition routing_error_text (e : ChildRoutingError) : text :=
  match e with
  | NotADirectChild => tx "not a direct child of this harness"
  | Unreachable detail => tx "unreachable: " ++ detail
  | Downstream rejection => rejection_text rejection
  end.

Inductive TerminationResult := Graceful | Fallback | AlreadyExited.

Definition result_as_str (r : TerminationResult) : text :=
  match r with Graceful => tx "graceful" | Fallback => tx "fallback" | AlreadyExited => tx "already-exited" end.

Definition result_parse (word : text) : option TerminationResult :=
  if text_eqb word (tx "graceful") then Some Graceful
  else if text_eqb word (tx "fallback") then Some Fallback
  else if text_eqb word (tx "already-exited") then Some AlreadyExited
  else None.

(** ** The owner's fallback (ports/owned_child_termination.rs) *)

Inductive ProtocolAttempt := Acknowledged | Negative (detail : text).

Definition from_shutdown_answer (answer : unit + ChildRoutingError) : ProtocolAttempt :=
  match answer with
  | inl tt | inr (Downstream DownAlreadyExited) => Acknowledged
  | inr error => Negative (routing_error_text error)
  end.

Inductive ConclusionBudget := Standard | Rollback.

Inductive TerminationConclusion :=
  | NoRetainedHandle | ConclusionAlreadyExited | ExitedAfterProtocol | ExitedAfterFallback | StillRunning (detail : text).

(** ** The registry's claims (ports/delegated_agent_registry.rs) *)

Inductive StoppingClaimError := ClaimUnknown | AlreadyStopping | ClaimExited.

Inductive ExitObservation := ProcessExited | ConnectionClosed | NeverReachable.

Inductive TerminationCause :=
  | Exit (observed : ExitObservation)
  | CauseSelectedTermination
  | RunEnd
  | FleetTeardown
  | OwnerTeardown
  | EnvironmentKill
  | LaunchRollback (owns_environment : bool).

Inductive TerminalClaim := Claimed | AlreadyClaimed.
Inductive CompensationObservation := Compensated | TimedOut | CompensationUnknown.

(** ** Requests and answers (dto/mod.rs) *)

Record TerminateDelegatedAgentRequest := { target : DelegatedAgentIdentity; remaining_depth : N }.

Inductive TerminationRouted :=
  | ShutdownRequested (child : DelegatedAgentIdentity) (result : option TerminationResult)
  | Forwarded (via : DelegatedAgentIdentity) (depth : N) (result : option TerminationResult).

Inductive TerminateDelegatedAgentError :=
  | Rejected (error : TerminationRouteError)
  | ChildUnreachable (child : AgentUuid) (detail : text)
  | NotAccepting
  | TargetAlreadyExited (id : AgentUuid)
  | TerminationFailed (child : AgentUuid) (detail : text)
  | RefusedDownstream (via : AgentUuid) (rejection : DownstreamRejection).

Definition route_error_text (e : TerminationRouteError) : text :=
  match e with
  | TargetIsSelf => tx "target is the receiving harness; use shutdown"
  | UnknownTarget id => tx "unknown delegated agent " ++ tx id
  | AmbiguousLineage id => tx "ambiguous lineage at " ++ tx id
  | StaleGeneration id requested current =>
      tx "stale generation " ++ decimal requested ++ tx " for " ++ tx id ++ tx " (current " ++ decimal current ++ tx ")"
  | LineageCycle id => tx "lineage cycle at " ++ tx id
  | DepthExhausted id remaining =>
      tx "target " ++ tx id ++ tx " not reachable within " ++ decimal remaining ++ tx " remaining hop(s)"
  end.

Definition error_text (e : TerminateDelegatedAgentError) : text :=
  match e with
  | Rejected error => tx "termination rejected: " ++ route_error_text error
  | ChildUnreachable child detail => tx "direct child " ++ tx child ++ tx " unreachable: " ++ detail
  | NotAccepting => tx "harness is not accepting control commands"
  | TargetAlreadyExited id => tx "target " ++ tx id ++ tx " already exited"
  | TerminationFailed child detail => tx "termination of " ++ tx child ++ tx " failed: " ++ detail
  | RefusedDownstream via rejection => tx "via " ++ tx via ++ tx ": " ++ rejection_text rejection
  end.

(** ** The use case *)

(** A call of a port, with what the port answered. *)
Inductive Call :=
  | CallClaimStopping (t : DelegatedAgentIdentity) (cause : TerminationCause) (answer : unit + StoppingClaimError)
  | CallReleaseStopping (t : DelegatedAgentIdentity)
  | CallRetainStopping (t : DelegatedAgentIdentity)
  | CallTerminalClaimed (t : DelegatedAgentIdentity) (answer : bool)
  | CallAwaitCompensated (t : DelegatedAgentIdentity) (answer : CompensationObservation)
  | CallClaimTerminal (t : DelegatedAgentIdentity) (answer : TerminalClaim)
  | CallShutdownChild (child : DelegatedAgentIdentity) (reason : ShutdownReason) (answer : unit + ChildRoutingError)
  | CallForward (via t : DelegatedAgentIdentity) (depth : N)
  | CallConclude (child : DelegatedAgentIdentity) (attempt : ProtocolAttempt) (budget : ConclusionBudget)
      (answer : TerminationConclusion)
  | CallCompensate (child : DelegatedAgentIdentity) (cause : TerminationCause).

(** What the harnesses called, each call with the harness that made it; the latest last. *)
Abbreviation Trace := (list (AgentUuid * Call)) (only parsing).

(** The ports answer by what was called before.  Of the registry, the methods a termination calls, besides the two
    that answer nothing ([release_stopping] and [retain_stopping]). *)
Record DelegatedAgentRegistry := {
  claim_stopping : Trace → DelegatedAgentIdentity → TerminationCause → unit + StoppingClaimError;
  terminal_claimed : Trace → DelegatedAgentIdentity → bool;
  await_compensated : Trace → DelegatedAgentIdentity → CompensationObservation;
  claim_terminal : Trace → DelegatedAgentIdentity → TerminalClaim }.

Record OwnerConclusionPorts := {
  owner_registry : DelegatedAgentRegistry;
  termination : Trace → DelegatedAgentIdentity → ProtocolAttempt → ConclusionBudget → TerminationConclusion }.

Record TerminateDelegatedAgent := {
  lifecycle : Trace → HarnessLifecycleState;
  lineage : Trace → LineageSnapshot;
  shutdown_child : Trace → DelegatedAgentIdentity → ShutdownReason → unit + ChildRoutingError;
  registry : option DelegatedAgentRegistry;
  owner_ports : option OwnerConclusionPorts }.

Definition new (life : Trace → HarnessLifecycleState) (lin : Trace → LineageSnapshot)
    (shutdown : Trace → DelegatedAgentIdentity → ShutdownReason → unit + ChildRoutingError) : TerminateDelegatedAgent :=
  {| lifecycle := life; lineage := lin; shutdown_child := shutdown; registry := None; owner_ports := None |}.

Definition with_registry (r : DelegatedAgentRegistry) (u : TerminateDelegatedAgent) : TerminateDelegatedAgent :=
  {| lifecycle := lifecycle u; lineage := lineage u; shutdown_child := shutdown_child u; registry := Some r;
     owner_ports := owner_ports u |}.

Definition with_owner_conclusion (o : OwnerConclusionPorts) (u : TerminateDelegatedAgent) : TerminateDelegatedAgent :=
  {| lifecycle := lifecycle u; lineage := lineage u; shutdown_child := shutdown_child u;
     registry := Some (owner_registry o); owner_ports := Some o |}.

(** What an edge holds over the target's stopping claim. *)
Inductive Claim := Taken | HeldByCaller | InFlight | Exited | Unclaimed.

#[export] Instance Claim_eq_dec : EqDecision Claim.
Proof. solve_decision. Defined.

(** Why a conclusion yields no result. *)
Inductive Refusal :=
  | NothingDispatched (error : TerminateDelegatedAgentError)
  | AfterEffects (error : TerminateDelegatedAgentError).

Section UseCase.
(** The harness, its ports, and [forward_termination] of its routing port. *)
Context (me : AgentUuid) (u : TerminateDelegatedAgent).
Context (forward_termination : DelegatedAgentIdentity → DelegatedAgentIdentity → N →
           M Trace TerminateDelegatedAgentError (option TerminationResult + ChildRoutingError)).

Definition called {E} (c : Call) : M Trace E unit := modify (λ tr, tr ++ [(me, c)]).

(** A call of a port: its answer, and the trace with it. *)
Definition ask {E A} (answer : Trace → A) (c : A → Call) : M Trace E A :=
  a <- gets answer ;; called (c a) ;; ret a.

Definition ask_terminal_claimed {E} (r : DelegatedAgentRegistry) (t : DelegatedAgentIdentity) : M Trace E bool :=
  ask (λ tr, terminal_claimed r tr t) (CallTerminalClaimed t).
Definition ask_await_compensated {E} (r : DelegatedAgentRegistry) (t : DelegatedAgentIdentity) : M Trace E CompensationObservation :=
  ask (λ tr, await_compensated r tr t) (CallAwaitCompensated t).

Definition claim_target {E} (t : DelegatedAgentIdentity) : M Trace E Claim :=
  match registry u with
  | None => ret Unclaimed
  | Some r =>
      answer <- ask (λ tr, claim_stopping r tr t CauseSelectedTermination) (CallClaimStopping t CauseSelectedTermination) ;;
      ret match answer with
          | inl tt => Taken
          | inr AlreadyStopping => InFlight
          | inr ClaimExited => Exited
          | inr ClaimUnknown => Unclaimed
          end
  end.

Definition release_target {E} (t : DelegatedAgentIdentity) (c : Claim) : M Trace E unit :=
  if bool_decide (c = Taken) then
    match registry u with Some _ => called (CallReleaseStopping t) | None => ret tt end
  else ret tt.

Definition retain_target {E} (t : DelegatedAgentIdentity) (c : Claim) : M Trace E unit :=
  if bool_decide (c = Taken) then
    match registry u with Some _ => called (CallRetainStopping t) | None => ret tt end
  else ret tt.

Definition join_in_flight (t : DelegatedAgentIdentity) (routed : TerminationRouted)
  : M Trace TerminateDelegatedAgentError TerminationRouted :=
  r <- expect (registry u) ;;
  observed <- ask_await_compensated r t ;;
  match observed with
  | Compensated => ret routed
  | CompensationUnknown => throw (Rejected (UnknownTarget (uuid t)))
  | TimedOut =>
      throw (TerminationFailed (uuid t) (tx "a termination already in flight did not settle within the bound"))
  end.

Definition terminal_claimed_here {E} (t : DelegatedAgentIdentity) : M Trace E bool :=
  match registry u with Some r => ask_terminal_claimed r t | None => ret false end.

(** [conclude]: the result, or why there is none. *)
Definition conclude (o : OwnerConclusionPorts) (child : DelegatedAgentIdentity) (attempt : ProtocolAttempt)
  : M Trace Refusal TerminationResult :=
  let negative := match attempt with Acknowledged => None | Negative detail => Some detail end in
  conclusion <- ask (λ tr, termination o tr child attempt Standard) (CallConclude child attempt Standard) ;;
  match conclusion with
  | NoRetainedHandle =>
      match negative with
      | Some detail =>
          gone <- ask_terminal_claimed (owner_registry o) child ;;
          if gone : bool then ret AlreadyExited
          else throw (NothingDispatched (ChildUnreachable (uuid child) detail))
      | None =>
          observed <- ask_await_compensated (owner_registry o) child ;;
          match observed with
          | Compensated => ret Graceful
          | TimedOut =>
              throw (AfterEffects (TerminationFailed (uuid child)
                (tx "acknowledged but its exit was not observed within the bound")))
          | CompensationUnknown => throw (NothingDispatched (Rejected (UnknownTarget (uuid child))))
          end
      end
  | ConclusionAlreadyExited => ret AlreadyExited
  | ExitedAfterProtocol => ret Graceful
  | ExitedAfterFallback => ret Fallback
  | StillRunning detail => throw (AfterEffects (TerminationFailed (uuid child) detail))
  end.

Definition compensate (o : OwnerConclusionPorts) (child : DelegatedAgentIdentity)
  : M Trace TerminateDelegatedAgentError unit :=
  claim <- ask (λ tr, claim_terminal (owner_registry o) tr child) (CallClaimTerminal child) ;;
  match claim with
  | Claimed => called (CallCompensate child CauseSelectedTermination)
  | AlreadyClaimed =>
      observed <- ask_await_compensated (owner_registry o) child ;;
      match observed with
      | Compensated | CompensationUnknown => ret tt
      | TimedOut =>
          throw (TerminationFailed (uuid child) (tx "exit observed but its compensation did not finish within the bound"))
      end
  end.

(** The result of an operation, as a value. *)
Definition outcome_of {E F A} (m : M Trace E A) : M Trace F (A + E) :=
  λ tr, let '(tr', r) := m tr in
        (tr', match r with Ok a => Ok (inl a) | Err e => Ok (inr e) | Panic => Panic end).

Definition shut_down_owned_child (child : DelegatedAgentIdentity) (claim : Claim)
  : M Trace TerminateDelegatedAgentError TerminationRouted :=
  answer <- ask (λ tr, shutdown_child u tr child SelectedTermination) (CallShutdownChild child SelectedTermination) ;;
  let attempt := from_shutdown_answer answer in
  match owner_ports u with
  | None =>
      match attempt with
      | Acknowledged => ret (ShutdownRequested child None)
      | Negative detail => release_target child claim ;; throw (ChildUnreachable (uuid child) detail)
      end
  | Some o =>
      concluded <- outcome_of (conclude o child attempt) ;;
      match concluded with
      | inl result => compensate o child ;; ret (ShutdownRequested child (Some result))
      | inr (NothingDispatched error) => release_target child claim ;; throw error
      | inr (AfterEffects error) => retain_target child claim ;; throw error
      end
  end.

(** What a forward came to. *)
Definition forwarded_answer (via : DelegatedAgentIdentity) (depth : N) (answer : option TerminationResult + ChildRoutingError)
  : M Trace TerminateDelegatedAgentError TerminationRouted :=
  match answer with
  | inl result => ret (Forwarded via depth result)
  | inr (Downstream rejection) => throw (RefusedDownstream (uuid via) rejection)
  | inr error => throw (ChildUnreachable (uuid via) (routing_error_text error))
  end.

(** The edge a route names, under a claim on the target. *)
Definition take_edge (request : TerminateDelegatedAgentRequest) (claim : Claim) (r : TerminationRoute)
  : M Trace TerminateDelegatedAgentError TerminationRouted :=
  match r with
  | ShutdownDirectChild child =>
      debug_assert (bool_decide (uuid child = uuid (target request))) ;;
      if bool_decide (claim = InFlight) then join_in_flight child (ShutdownRequested child None)
      else shut_down_owned_child child claim
  | ForwardToDirectChild via depth =>
      debug_assert (depth <? remaining_depth request)%N ;;
      debug_assert (bool_decide (uuid via ≠ uuid (target request))) ;;
      if bool_decide (claim = InFlight) then join_in_flight (target request) (Forwarded via depth None)
      else
        called (CallForward via (target request) depth) ;;
        answer <- forward_termination via (target request) depth ;;
        release_target (target request) claim ;;
        forwarded_answer via depth answer
  end.

Definition route (request : TerminateDelegatedAgentRequest) (held_by_caller : bool)
  : M Trace TerminateDelegatedAgentError TerminationRouted :=
  alive <- gets (λ tr, accepts_new_work (lifecycle u tr)) ;;
  if negb alive then throw NotAccepting
  else
    view <- gets (lineage u) ;;
    match resolve_termination_route view (target request) (remaining_depth request) with
    | Panic => panic
    | Err (UnknownTarget id) =>
        gone <- terminal_claimed_here (target request) ;;
        throw (if gone : bool then TargetAlreadyExited id else Rejected (UnknownTarget id))
    | Err error => throw (Rejected error)
    | Ok r =>
        claim <- (if held_by_caller then ret HeldByCaller else claim_target (target request)) ;;
        if bool_decide (claim = Exited) then throw (TargetAlreadyExited (uuid (target request)))
        else take_edge request claim r
    end.

Definition execute (request : TerminateDelegatedAgentRequest) : M Trace TerminateDelegatedAgentError TerminationRouted :=
  route request false.
Definition execute_under_callers_claim (request : TerminateDelegatedAgentRequest)
  : M Trace TerminateDelegatedAgentError TerminationRouted :=
  route request true.
End UseCase.

(** ** The answer on the wire (subagent_teardown_presenter.rs, subagent_teardown_wire.rs,
    direct_child_routing.rs) *)

(** The fields of a response that say how it went; the id and the name of the command
    correlate it. *)
Inductive TeardownResponseData :=
  | DataShuttingDown (reason : text)
  | DataShutdownRequested (child_uuid : AgentUuid) (result : option text)
  | DataForwarded (via_uuid : AgentUuid) (depth : N) (result : option text).

Record TeardownResponse := {
  success : bool; data : option TeardownResponseData; error : option text; error_kind : option text }.

Definition response_ok (d : TeardownResponseData) : TeardownResponse :=
  {| success := true; data := Some d; error := None; error_kind := None |}.
Definition err_of_kind (k e : text) : TeardownResponse :=
  {| success := false; data := None; error := Some e; error_kind := Some k |}.

Definition termination_response (routed : TerminationRouted) : TeardownResponse :=
  response_ok match routed with
    | ShutdownRequested child r => DataShutdownRequested (uuid child) (result_as_str <$> r)
    | Forwarded via depth r => DataForwarded (uuid via) depth (result_as_str <$> r)
    end.

Definition rejection_kind (e : TerminateDelegatedAgentError) : text :=
  match e with
  | Rejected (UnknownTarget _) => kind DownUnknownTarget
  | Rejected (StaleGeneration _ _ _) => kind DownStaleGeneration
  | Rejected _ => kind (DownRejected [])
  | ChildUnreachable _ _ => kind (DownUnreachable [])
  | NotAccepting => kind DownNotAccepting
  | TargetAlreadyExited _ => kind DownAlreadyExited
  | TerminationFailed _ _ => kind (DownFailed [])
  | RefusedDownstream _ rejection => kind rejection
  end.

Definition termination_rejection (e : TerminateDelegatedAgentError) : TeardownResponse :=
  err_of_kind (rejection_kind e) (error_text e).

(** A line that never reached a use case is refused without a kind. *)
Definition edge_rejection (detail : text) : TeardownResponse :=
  {| success := false; data := None; error := Some detail; error_kind := None |}.

Definition depth_error_text (e : RoutingDepthError) : text :=
  match e with
  | DepthZero => tx "remaining_depth must be at least 1"
  | ExceedsMaximum requested maximum => tx "remaining_depth " ++ decimal requested ++ tx " exceeds maximum " ++ decimal maximum
  end.

(** [map_command] of a termination, and what it may refuse (subagent_teardown_mapping.rs). *)
Inductive MappingError := EmptyTargetUuid | InvalidDepth (detail : text).

Definition mapping_error_text (e : MappingError) : text :=
  match e with EmptyTargetUuid => tx "target_uuid must not be empty" | InvalidDepth detail => detail end.

Definition map_command (target_uuid : AgentUuid) (target_generation : LaunchGeneration) (hops : N)
  : res MappingError TerminateDelegatedAgentRequest :=
  ensure (negb (bool_decide (trim (tx target_uuid) = []))) EmptyTargetUuid ;?
  let? depth := map_err (λ e, InvalidDepth (depth_error_text e)) (RoutingDepth_new hops) in
  Ok {| target := {| uuid := target_uuid; generation := target_generation |}; remaining_depth := depth |}.

(** [request_ack], once the response has been received and parsed. *)
Definition request_ack (parsed : TeardownResponse) : TeardownResponse + ChildRoutingError :=
  if success parsed then inl parsed
  else
    let detail := default (tx "command refused") (error parsed) in
    match error_kind parsed with
    | Some k => inr (Downstream (from_kind k detail))
    | None => inr (Unreachable detail)
    end.

Definition relayed_result (response : TeardownResponse) : option TerminationResult :=
  match data response with
  | Some (DataShutdownRequested _ r) | Some (DataForwarded _ _ r) => r ≫= result_parse
  | Some (DataShuttingDown _) | None => None
  end.

(** ** A network of harnesses *)

(** What the transport makes of a forward: the command does not arrive, or the answer does
    not come back, or both do. *)
Inductive Transport := CommandLost (error : ChildRoutingError) | AnswerLost (error : ChildRoutingError) | Carried.

(** The use case of each harness, and each edge from a harness to a direct child: its endpoint in the registry,
    the connection and its authority, and the time an answer is waited for. *)
Record Network := {
  harness : AgentUuid → TerminateDelegatedAgent;
  edge : Trace → AgentUuid → DelegatedAgentIdentity → Transport }.

(** [handle] of a termination command at the harness that receives it, and what the sender
    reads of the response. *)
Definition exchange (execute : TerminateDelegatedAgentRequest → M Trace TerminateDelegatedAgentError TerminationRouted)
    (t : DelegatedAgentIdentity) (depth : N)
  : M Trace TerminateDelegatedAgentError (option TerminationResult + ChildRoutingError) :=
  response <- match map_command (uuid t) (generation t) depth with
    | Ok request =>
        outcome <- outcome_of (execute request) ;;
        ret match outcome with inl routed => termination_response routed | inr e => termination_rejection e end
    | Err e => ret (edge_rejection (mapping_error_text e))
    | Panic => panic
    end ;;
  ret match request_ack response with inl parsed => inl (relayed_result parsed) | inr e => inr e end.

(** A termination that harness [me] is asked for.  A forward runs the same use case at the
    child; [fuel] is how many times it is forwarded, and running out of it is a panic. *)
Fixpoint terminate_at (fuel : nat) (net : Network) (me : AgentUuid) (request : TerminateDelegatedAgentRequest)
    (held_by_caller : bool) : M Trace TerminateDelegatedAgentError TerminationRouted :=
  route me (harness net me)
    (λ via t depth,
       transport <- gets (λ tr, edge net tr me via) ;;
       let at_child :=
         match fuel with
         | 0 => panic
         | S fuel' => exchange (λ request, terminate_at fuel' net (uuid via) request false) t depth
         end in
       match transport with
       | CommandLost e => ret (inr e)
       | AnswerLost e => at_child ;; ret (inr e)
       | Carried => at_child
       end)
    request held_by_caller.
End Terminate.

(** * The parent's connection (parent_control.rs, secret_compare.rs) *)

Module Parent.
Import Teardown.

(** [constant_time_eq]: every byte is compared, whatever the ones before it. *)
Definition constant_time_eq (a b : list N) : bool :=
  let diff := N.lxor (N.of_nat (length a)) (N.of_nat (length b)) in
  (foldl (λ diff xy, N.lor diff (N.lxor xy.1 xy.2)) diff (zip a b) =? 0)%N.

Definition CAPABILITY_HEX_LEN : nat := 64.

Inductive CapabilityFormatError := WrongLength (actual : nat) | NotLowercaseHex.

Definition is_lowercase_hex (c : N) : bool := is_ascii_digit c || ((97 <=? c) && (c <=? 102))%N.

(** A capability is its text. *)
Definition capability_parse (raw : text) : res CapabilityFormatError text :=
  ensure (byte_len raw =? CAPABILITY_HEX_LEN)%nat (WrongLength (byte_len raw)) ;?
  ensure (forallb is_lowercase_hex raw) NotLowercaseHex ;?
  Ok raw.

Definition hex_digit (d : N) : N := if (d <? 10)%N then (48 + d)%N else (87 + d)%N.

(** [from_random_bytes]: two lowercase digits for each byte. *)
Definition from_random_bytes (bytes : list N) : text :=
  bytes ≫= λ b, [hex_digit (b / 16); hex_digit (b mod 16)].

Definition capability_matches {E} (a b : text) : res E bool :=
  assert_that (length a =? CAPABILITY_HEX_LEN)%nat ;?
  assert_that (length b =? CAPABILITY_HEX_LEN)%nat ;?
  Ok (constant_time_eq a b).

Record ParentControlCredential := { cred_generation : N; capability : text }.

Inductive BindRejection :=
  | NotALaunchedChild
  | WrongGeneration (expected presented : N)
  | Mismatch
  | AlreadyBound
  | AlreadyLost.

Inductive BindingState := Unbound | Bound | Lost.

#[export] Instance BindingState_eq_dec : EqDecision BindingState.
Proof. solve_decision. Defined.

Inductive ConnectionLoss := BoundParentLost | OrdinaryClient.

Record ParentControlBinding := { expected : option ParentControlCredential; state : BindingState }.

Definition launched (c : ParentControlCredential) : ParentControlBinding := {| expected := Some c; state := Unbound |}.
Definition unlaunched : ParentControlBinding := {| expected := None; state := Unbound |}.

Definition set_state (s : BindingState) (b : ParentControlBinding) : ParentControlBinding :=
  {| expected := expected b; state := s |}.

Definition present (g : N) (cap : text) : M ParentControlBinding BindRejection unit :=
  expected <- gets expected ;;
  expected <- ok_or expected NotALaunchedChild ;;
  state <- gets state ;;
  match state with
  | Bound => throw AlreadyBound
  | Lost => throw AlreadyLost
  | Unbound =>
      if negb (cred_generation expected =? g)%N then throw (WrongGeneration (cred_generation expected) g)
      else
        matches <- reads (λ _, capability_matches (capability expected) cap) ;;
        if negb matches then throw Mismatch else modify (set_state Bound)
  end.

Definition expire_unbound (b : ParentControlBinding) : ParentControlBinding * bool :=
  if bool_decide (is_Some (expected b)) && bool_decide (state b = Unbound) then (set_state Lost b, true) else (b, false).

Definition connection_closed (was_bound_connection : bool) (b : ParentControlBinding) : ParentControlBinding * ConnectionLoss :=
  if was_bound_connection && bool_decide (state b = Bound) then (set_state Lost b, BoundParentLost) else (b, OrdinaryClient).

(** ** How long a harness lives (harness_lifetime.rs) *)

Inductive HarnessLifetime := UntilLastClientDisconnects | Persistent | LaunchBound.
Inductive HarnessLifetimeError := LaunchedChildCannotPersist.

Definition lifetime_resolve (persist_requested launched : bool) : res HarnessLifetimeError HarnessLifetime :=
  match launched, persist_requested with
  | true, false => Ok LaunchBound
  | true, true => Err LaunchedChildCannotPersist
  | false, true => Ok Persistent
  | false, false => Ok UntilLastClientDisconnects
  end.

Definition exits_when_last_client_disconnects (l : HarnessLifetime) : bool :=
  match l with UntilLastClientDisconnects => true | _ => false end.
Definition is_launch_bound (l : HarnessLifetime) : bool := match l with LaunchBound => true | _ => false end.
End Parent.

(** * What a supervisor is told (unread_report.rs) *)

Module Reports.

Record ReportedMessage := { ordinal : option N; substantive_assistant : bool; origin : TurnOrigin }.

Inductive UnreadSelection :=
  | PendingPersistence (report : option nat)
  | Unchanged
  | Incomplete (unread : list nat) (max_ordinal : N)
  | Unread (indices : list nat) (max_ordinal : N).

Inductive FirstRead := Report | Window.

#[export] Instance UnreadSelection_eq_dec : EqDecision UnreadSelection.
Proof. solve_decision. Defined.

(** The closures read every candidate's message: one out of range panics. *)
Definition report_among {E} (messages : list ReportedMessage) (candidates : list nat) : res E (option nat) :=
  let? picked := collect (λ i, or_panic (messages !! i)) candidates in
  match report_index ((λ m, (substantive_assistant m, origin m)) <$> picked) with
  | None => Ok None
  | Some position => let? index := or_panic (candidates !! position) in Ok (Some index)
  end.

Definition ordinal_or_zero (m : ReportedMessage) : N := default 0%N (ordinal m).

(** The indices of the messages that satisfy a test, in order. *)
Definition indices_where (f : ReportedMessage → bool) (messages : list ReportedMessage) : list nat :=
  filter (λ i, match messages !! i with Some m => f m | None => false end = true) (seq 0 (length messages)).

Definition select {E} (messages : list ReportedMessage) (delivered : N) (report_incomplete : bool) (first_read : FirstRead)
  : res E UnreadSelection :=
  if existsb (λ m, bool_decide (ordinal m = None)) messages then
    let unread := indices_where (λ m, match ordinal m with None => true | Some o => (delivered <? o)%N end) messages in
    let? report := report_among messages unread in
    Ok (PendingPersistence report)
  else
    let observed_max := default 0%N (iter_max (ordinal_or_zero <$> messages)) in
    let unread := indices_where (λ m, (delivered <? ordinal_or_zero m)%N) messages in
    if report_incomplete then Ok (Incomplete unread observed_max)
    else if (observed_max <? delivered)%N || bool_decide (unread = []) then Ok Unchanged
    else
      let? indices := match delivered, first_read with
        | 0%N, Report => map_ok option_list (report_among messages unread)
        | _, _ => Ok unread
        end in
      if bool_decide (indices = []) then Ok Unchanged
      else Ok (Unread indices (N.max delivered observed_max)).

Definition select_unread {E} (messages : list ReportedMessage) (delivered : N) (report_incomplete : bool) : res E UnreadSelection :=
  select messages delivered report_incomplete Report.

Definition select_unread_without_report {E} (messages : list ReportedMessage) (delivered : N) (report_incomplete : bool)
  : res E UnreadSelection :=
  let? selection := select messages delivered report_incomplete Window in
  let? report := (if (delivered =? 0)%N then Ok selection else select messages delivered report_incomplete Report) in
  assert_that ((delivered =? 0)%N || bool_decide (selection = report)) ;?
  Ok selection.

(** The loop over the sorted ordinals: the next ordinal to account for, and the ranges so far. *)
Fixpoint skipped_ranges {E} (next : N) (sent : list N) : res E (list (N * N)) :=
  match sent with
  | [] => Ok []
  | o :: sent' =>
      let? next' := or_panic (u64_add o 1) in
      let? rest := skipped_ranges next' sent' in
      Ok (if (next <? o)%N then (next, o - 1)%N :: rest else rest)
  end.

Definition skipped_unread {E} (watermark : N) (delivered : list N) : res E (list (N * N)) :=
  let sent := merge_sort N.le (filter (λ o, (watermark < o)%N) delivered) in
  let? next := or_panic (u64_add watermark 1) in
  let? ranges := skipped_ranges next sent in
  assert_that (forallb (λ r, (watermark <? r.1) && (r.1 <=? r.2))%N ranges) ;?
  Ok ranges.

Definition later_than {E} (messages : list ReportedMessage) (report : nat) : res E N :=
  let? m := or_panic (messages !! report) in
  let after := ordinal_or_zero m in
  assert_that (bool_decide (is_Some (ordinal m))) ;?
  let newest := default after (iter_max (omap ordinal messages)) in
  Ok (u64_saturating_sub newest after).

Definition needs_backfill (oldest_ordinal : option N) (holds_answer : bool) (delivered : N) (has_older : bool) : bool :=
  let gap := match oldest_ordinal with Some o => (u64_saturating_add delivered 1 <? o)%N | None => false end in
  let reports_latest_without_backfill := (delivered =? 0)%N && holds_answer in
  has_older && gap && negb reports_latest_without_backfill.

Record PendingMessageReport := { receipt : text; response : text; report_ordinal : N }.

Definition acknowledged_report_index (pending : list PendingMessageReport) (r : option text) (delivered_content : text) : option nat :=
  match r with
  | Some r => position (λ p, bool_decide (receipt p ≠ []) && text_eqb (receipt p) r) pending
  | None =>
      let matches_it := λ p, bool_decide (receipt p = []) && text_eqb (response p) delivered_content in
      match filter (λ ip, matches_it ip.2 = true) (imap pair pending) with
      | [ip] => Some ip.1
      | _ => None
      end
  end.
End Reports.

(** * Names and model arguments (subagent.rs) *)

Module Names.

Record DisplayNameResolutionEntry := { agent_uuid : string; display_name : text; live : bool }.

Inductive DisplayNameResolveError := NoLiveMatch (name : text) | AmbiguousLiveMatch (name : text).

Definition resolve_live_display_name (entries : list DisplayNameResolutionEntry) (name : text)
  : res DisplayNameResolveError string :=
  match agent_uuid <$> filter (λ e, live e = true ∧ display_name e = name) entries with
  | [] => Err (NoLiveMatch name)
  | [first] => Ok first
  | _ :: _ :: _ => Err (AmbiguousLiveMatch name)
  end.

Definition assert_display_name_available_for_spawn (entries : list DisplayNameResolutionEntry) (name : text)
  : res DisplayNameResolveError unit :=
  match resolve_live_display_name entries name with
  | Ok _ | Err (AmbiguousLiveMatch _) => Err (AmbiguousLiveMatch name)
  | Err (NoLiveMatch _) => Ok tt
  | Panic => Panic
  end.

Inductive ModelArg := Full (m : text) | Pair (provider model_id : text).

Definition to_model_string (a : ModelArg) : text :=
  match a with Full m => m | Pair provider model_id => provider ++ tx "/" ++ model_id end.

(** [map(str::trim).filter(|s| !s.is_empty())]. *)
Definition trimmed_arg (t : option text) : option text :=
  match trim <$> t with Some [] | None => None | Some t => Some t end.

Definition parse_model_arg (model provider model_id : option text) : res text (option ModelArg) :=
  match trimmed_arg model, trimmed_arg provider, trimmed_arg model_id with
  | Some m, _, _ => Ok (Some (Full m))
  | None, Some p, Some mid => Ok (Some (Pair p mid))
  | None, Some _, None => Err (tx "provider requires model_id")
  | None, None, Some _ => Err (tx "model_id requires provider")
  | None, None, None => Ok None
  end.

Definition MAX_AGENT_ID_CHARS : nat := 64.

Definition validate_agent_id_format (agent_id : text) : res text unit :=
  let length := length agent_id in
  ensure ((1 <=? length) && (length <=? MAX_AGENT_ID_CHARS))%nat
    (tx "agent_id is " ++ decimal (N.of_nat length) ++ tx " characters; it must be 1-" ++ decimal (N.of_nat MAX_AGENT_ID_CHARS)) ;?
  ensure (forallb (λ c, is_ascii_alphanumeric c || (c =? 95) || (c =? 45))%N agent_id)
    (tx "agent_id must use only [a-zA-Z0-9_-]").

Definition validate_agent_id (agent_id : text) (allowlist : list text) : res DomainError unit :=
  ensure (existsb (λ id, text_eqb id agent_id) allowlist)
    (Security (tx "agent_id '" ++ agent_id ++ tx "' is not allowed")).
End Names.

(** * How a parent's turn ends (turn_declaration.rs, turn_outcome.rs, turn_outcome_policy.rs) *)

Module Outcome.

Record TurnIdentity := { session_key : text; outcome_epoch : text; turn_id : text }.

(** [TurnIdentity::default()]: the identity no admitted turn has. *)
Definition no_turn : TurnIdentity := {| session_key := []; outcome_epoch := []; turn_id := [] |}.

#[export] Instance TurnIdentity_eq_dec : EqDecision TurnIdentity.
Proof. solve_decision. Defined.

Inductive LaunchAuthority := TopLevelParent | Child | ChildCoordinator.
Inductive TurnIntent := IntendsWaiting | Blocked | Asking | IntendsDone.
Record TurnDeclaration := { identity : TurnIdentity; intent : TurnIntent; reason : text }.
Inductive TurnBoundary := OuterRun | ProviderRetry | ToolIteration.

Definition STALLED_REASON : text := tx "Nothing is running after one correction.".
Definition LIVE_REASON : text := tx "Work is already running.".
Definition UNKNOWN_REASON : text :=
  tx "Unable to determine whether work is running. Inspect the harness state before continuing.".
Definition MAX_EPISODE_ID_BYTES : nat := 512.

Inductive TurnOutcome := Waiting | NeedsUser | Stalled | Done.

Definition is_terminal (o : TurnOutcome) : bool := match o with NeedsUser | Stalled | Done => true | Waiting => false end.

Inductive WorkLiveness := Live | Empty | Unknown.

Definition liveness_of (running : bool) : WorkLiveness := if running then Live else Empty.

Definition liveness_and (a b : WorkLiveness) : WorkLiveness :=
  match a, b with
  | Live, _ | _, Live => Live
  | Empty, Empty => Empty
  | Unknown, _ | _, Unknown => Unknown
  end.

Record TurnOutcomeRecord := {
  r_session_key : text; r_outcome_epoch : text; r_episode_id : text; r_turn_id : text;
  r_sequence : N; r_outcome : TurnOutcome; r_reason : text }.

Record TurnAdmissionRecord := {
  a_session_key : text; a_outcome_epoch : text; a_episode_id : text; a_turn_id : text }.

Inductive TurnVerdict := Correct | Settle (outcome : TurnOutcome) (reason : text).

Definition settle_turn (declaration : option TurnDeclaration) (liveness : WorkLiveness) (correction_spent : bool) : TurnVerdict :=
  match (λ d, (intent d, reason d)) <$> declaration, liveness, correction_spent with
  | Some (Blocked, reason), _, _ | Some (Asking, reason), _, _ => Settle NeedsUser reason
  | Some (IntendsDone, reason), _, _ => Settle Done reason
  | Some (IntendsWaiting, reason), Live, _ => Settle Waiting reason
  | None, Live, _ => Settle Waiting LIVE_REASON
  | Some (IntendsWaiting, _), Unknown, _ | None, Unknown, _ => Settle NeedsUser UNKNOWN_REASON
  | Some (IntendsWaiting, _), Empty, false | None, Empty, false => Correct
  | Some (IntendsWaiting, _), Empty, true | None, Empty, true => Settle Stalled STALLED_REASON
  end.

Record LaunchFacts := { spawned : bool; coordinator : bool; has_parent_id : bool; has_parent_control : bool; swarm_member : bool }.

Definition is_trusted_root (f : LaunchFacts) : bool :=
  match f with
  | {| spawned := false; coordinator := false; has_parent_id := false; has_parent_control := false; swarm_member := false |} => true
  | _ => false
  end.

Definition admissible_episode_id (episode_id : text) : bool :=
  ((1 <=? byte_len episode_id) && (byte_len episode_id <=? MAX_EPISODE_ID_BYTES))%nat.

(** ** Declarations (declaration.rs) *)

Record Declarations := { of_turn : TurnIdentity; declared : option TurnDeclaration; poisoned : bool }.

Definition new_declarations (id : TurnIdentity) : Declarations := {| of_turn := id; declared := None; poisoned := false |}.

Definition unavailable : DomainError := Other (tx "declaration state unavailable").
Definition stale_identity : DomainError := Tool (tx "This declaration does not belong to the active turn.").

Definition snapshot (d : Declarations) : res DomainError (option TurnDeclaration) :=
  if poisoned d then Err unavailable else Ok (declared d).

(** A line break of [reason.split(['\r', '\n'])]. *)
Definition is_break (c : N) : bool := ((c =? 13) || (c =? 10))%N.

Definition normalized_reason (raw : text) : res DomainError text :=
  let trimmed := trim raw in
  let one_line := negb (existsb is_break raw) in
  let bounded := ((1 <=? length trimmed) && (length trimmed <=? 512))%nat in
  ensure (one_line && bounded)
    (Tool (tx "Choose waiting, blocked, asking, or done and provide a nonempty one-line reason of at most 512 characters.")) ;?
  Ok trimmed.

Definition declare_in (authority : LaunchAuthority) (id : TurnIdentity) (i : TurnIntent) (raw : text)
  : M Declarations DomainError TurnDeclaration :=
  match authority with
  | TopLevelParent =>
      normalized <- reads (λ _, normalized_reason raw) ;;
      poison <- gets poisoned ;;
      if poison : bool then throw unavailable
      else
        current <- gets of_turn ;;
        if bool_decide (current = id) then
          let receipt := {| identity := id; intent := i; reason := normalized |} in
          modify (λ d, {| of_turn := of_turn d; declared := Some receipt; poisoned := poisoned d |}) ;;
          ret receipt
        else throw stale_identity
  | Child | ChildCoordinator =>
      throw (Tool (tx "Turn outcomes may be declared only by the active top-level parent turn."))
  end.

Definition enter (boundary : TurnBoundary) (id : TurnIdentity) : M Declarations DomainError unit :=
  poison <- gets poisoned ;;
  if poison : bool then throw unavailable
  else match boundary with
  | OuterRun => modify (λ d, {| of_turn := id; declared := None; poisoned := poisoned d |})
  | ProviderRetry | ToolIteration =>
      current <- gets of_turn ;;
      if bool_decide (current = id) then ret tt else throw stale_identity
  end.

(** ** The guard (parent_outcome.rs, dto/parent_outcome.rs) *)

Inductive TurnAdmission := External (episode_id : text) | Correction | WorkWake | FreshWake | Nudge.

Record ActiveTurn := { t_nonce : N; t_identity : TurnIdentity; t_episode_id : text }.

#[export] Instance ActiveTurn_eq_dec : EqDecision ActiveTurn.
Proof. solve_decision. Defined.

Definition admission_record (t : ActiveTurn) : TurnAdmissionRecord :=
  {| a_session_key := session_key (t_identity t); a_outcome_epoch := outcome_epoch (t_identity t);
     a_episode_id := t_episode_id t; a_turn_id := turn_id (t_identity t) |}.

Inductive TurnEnd := Completed (liveness : WorkLiveness) | Interrupted.
Inductive ParentVerdict := Unsettled | CorrectNext | Published (record : TurnOutcomeRecord).

Inductive CorrectionState := Unspent | Owed | Spent.

#[export] Instance CorrectionState_eq_dec : EqDecision CorrectionState.
Proof. solve_decision. Defined.

(** [minted] counts the names minted so far. *)
Record Runtime := {
  epoch : text; episode : option text; correction : CorrectionState; fenced : bool; sequence : N;
  latest : option TurnOutcomeRecord; active : option (N * TurnIdentity); next_nonce : N;
  enabled : bool; visible : bool; declarations : Declarations; minted : nat }.

Definition with_episode (e : option text) (s : Runtime) : Runtime :=
  {| epoch := epoch s; episode := e; correction := correction s; fenced := fenced s; sequence := sequence s;
     latest := latest s; active := active s; next_nonce := next_nonce s; enabled := enabled s; visible := visible s;
     declarations := declarations s; minted := minted s |}.
Definition with_correction (c : CorrectionState) (s : Runtime) : Runtime :=
  {| epoch := epoch s; episode := episode s; correction := c; fenced := fenced s; sequence := sequence s;
     latest := latest s; active := active s; next_nonce := next_nonce s; enabled := enabled s; visible := visible s;
     declarations := declarations s; minted := minted s |}.
Definition with_fenced (f : bool) (s : Runtime) : Runtime :=
  {| epoch := epoch s; episode := episode s; correction := correction s; fenced := f; sequence := sequence s;
     latest := latest s; active := active s; next_nonce := next_nonce s; enabled := enabled s; visible := visible s;
     declarations := declarations s; minted := minted s |}.
Definition with_active (a : option (N * TurnIdentity)) (s : Runtime) : Runtime :=
  {| epoch := epoch s; episode := episode s; correction := correction s; fenced := fenced s; sequence := sequence s;
     latest := latest s; active := a; next_nonce := next_nonce s; enabled := enabled s; visible := visible s;
     declarations := declarations s; minted := minted s |}.
Definition with_nonce (n : N) (s : Runtime) : Runtime :=
  {| epoch := epoch s; episode := episode s; correction := correction s; fenced := fenced s; sequence := sequence s;
     latest := latest s; active := active s; next_nonce := n; enabled := enabled s; visible := visible s;
     declarations := declarations s; minted := minted s |}.
Definition with_declarations (d : Declarations) (s : Runtime) : Runtime :=
  {| epoch := epoch s; episode := episode s; correction := correction s; fenced := fenced s; sequence := sequence s;
     latest := latest s; active := active s; next_nonce := next_nonce s; enabled := enabled s; visible := visible s;
     declarations := d; minted := minted s |}.
Definition with_policy (e v : bool) (s : Runtime) : Runtime :=
  {| epoch := epoch s; episode := episode s; correction := correction s; fenced := fenced s; sequence := sequence s;
     latest := latest s; active := active s; next_nonce := next_nonce s; enabled := e; visible := v;
     declarations := declarations s; minted := minted s |}.
Definition with_outcome (r : TurnOutcomeRecord) (s : Runtime) : Runtime :=
  {| epoch := epoch s; episode := episode s; correction := correction s; fenced := is_terminal (r_outcome r);
     sequence := r_sequence r; latest := Some r; active := active s; next_nonce := next_nonce s; enabled := enabled s;
     visible := visible s; declarations := declarations s; minted := minted s |}.

(** An operation of the declarations inside the runtime; its result is a value here. *)
Definition on_declarations {A} (m : M Declarations DomainError A) : M Runtime DomainError (res DomainError A) :=
  λ s, let '(d, r) := m (declarations s) in (with_declarations d s, match r with Panic => Panic | _ => Ok r end).

Section Guard.
(** The [n]-th name the process mints. *)
Context (mint : nat → text).

Definition runtime_new : Runtime :=
  {| epoch := mint 0; episode := None; correction := Unspent; fenced := false; sequence := 0; latest := None;
     active := None; next_nonce := 0; enabled := true; visible := true;
     declarations := new_declarations no_turn; minted := 1 |}.

(** A fresh epoch with no episode, no outcome and no turn. *)
Definition fresh_epoch : M Runtime DomainError unit :=
  modify (λ s, {| epoch := mint (minted s); episode := None; correction := Unspent; fenced := false; sequence := sequence s;
                  latest := None; active := None; next_nonce := next_nonce s; enabled := enabled s; visible := visible s;
                  declarations := declarations s; minted := S (minted s) |}) ;;
  on_declarations (enter OuterRun no_turn) ;;
  ret tt.

Definition admits_automatic (s : Runtime) : bool := negb (enabled s) || negb (fenced s).

Definition correcting (s : Runtime) : bool :=
  enabled s && bool_decide (is_Some (active s)) && bool_decide (correction s = Spent).

Definition observe_policy (v : bool) : M Runtime DomainError unit :=
  was <- gets enabled ;;
  modify (λ s, with_policy (enabled s) v s) ;;
  if was && negb v then modify (λ s, with_policy false (visible s) s) ;; fresh_epoch else ret tt.

Definition enter_outer_boundary (s : Runtime) : Runtime :=
  if negb (enabled s) && visible s then with_policy true (visible s) s else s.

(** The episode part of [admit]: whether the turn may run. *)
Definition open_episode (a : TurnAdmission) : M Runtime DomainError bool :=
  is_open <- gets (λ s, bool_decide (is_Some (episode s)) && negb (fenced s)) ;;
  c <- gets correction ;;
  match a, is_open, c with
  | External e, _, _ =>
      modify (with_episode (Some e)) ;; modify (with_fenced false) ;; modify (with_correction Unspent) ;; ret true
  | FreshWake, _, _ =>
      closed <- gets (λ s, fenced s || bool_decide (episode s = None)) ;;
      (if closed : bool then
        modify (λ s, {| epoch := epoch s; episode := Some (mint (minted s)); correction := Unspent; fenced := fenced s;
                        sequence := sequence s; latest := latest s; active := active s; next_nonce := next_nonce s;
                        enabled := enabled s; visible := visible s; declarations := declarations s;
                        minted := S (minted s) |})
      else ret tt) ;;
      modify (with_fenced false) ;; ret true
  | Correction, true, Owed => modify (with_correction Spent) ;; ret true
  | WorkWake, true, _ => ret true
  | Nudge, true, _ => ret true
  | Correction, _, _ | WorkWake, _, _ | Nudge, _, _ => ret false
  end.

Definition admit_turn (key : text) (a : TurnAdmission) (turn : text) : M Runtime DomainError (option ActiveTurn) :=
  on <- gets enabled ;;
  if negb on then ret None
  else
    opened <- open_episode a ;;
    if negb opened then ret None
    else
      n <- gets next_nonce ;;
      nonce <- expect (u64_checked_add n 1) ;;
      modify (with_nonce nonce) ;;
      ep <- gets epoch ;;
      let id := {| session_key := key; outcome_epoch := ep; turn_id := turn |} in
      e <- gets episode ;;
      episode_id <- expect e ;;
      modify (with_active (Some (nonce, id))) ;;
      entered <- on_declarations (enter OuterRun id) ;;
      debug_assert (match entered with Ok _ => true | _ => false end) ;;
      ret (Some {| t_nonce := nonce; t_identity := id; t_episode_id := episode_id |}).

(** The declaration and the liveness a completed turn is judged by. *)
Definition observed (d : res DomainError (option TurnDeclaration)) (id : TurnIdentity) (l : WorkLiveness)
  : option TurnDeclaration * WorkLiveness :=
  match d with
  | Ok d => (match d with Some d' => if bool_decide (identity d' = id) then Some d' else None | None => None end, l)
  | _ => (None, liveness_and l Unknown)
  end.

Definition complete (t : ActiveTurn) (e : TurnEnd) : M Runtime DomainError ParentVerdict :=
  a <- gets active ;;
  if negb (bool_decide (fst <$> a = Some (t_nonce t))) then ret Unsettled
  else
    modify (with_active None) ;;
    declared <- gets (λ s, snapshot (declarations s)) ;;
    on_declarations (enter OuterRun no_turn) ;;
    match e with
    | Interrupted => ret Unsettled
    | Completed liveness =>
        let '(declaration, liveness) := observed declared (t_identity t) liveness in
        c <- gets correction ;;
        match settle_turn declaration liveness (bool_decide (c ≠ Unspent)) with
        | Correct =>
            debug_assert (bool_decide (c = Unspent)) ;;
            modify (with_correction Owed) ;;
            ret CorrectNext
        | Settle outcome why =>
            n <- gets sequence ;;
            next <- expect (u64_checked_add n 1) ;;
            let record := {| r_session_key := session_key (t_identity t); r_outcome_epoch := outcome_epoch (t_identity t);
                             r_episode_id := t_episode_id t; r_turn_id := turn_id (t_identity t);
                             r_sequence := next; r_outcome := outcome; r_reason := why |} in
            ep <- gets epoch ;;
            debug_assert (text_eqb (r_outcome_epoch record) ep) ;;
            modify (with_outcome record) ;;
            ret (Published record)
        end
    end.

Definition history_replaced : M Runtime DomainError unit := fresh_epoch.

(** [DeclareTurnOutcome::declare]: only for the active turn. *)
Definition declare (authority : LaunchAuthority) (id : TurnIdentity) (i : TurnIntent) (raw : text)
  : M Runtime DomainError (res DomainError TurnDeclaration) :=
  s <- gets (λ s, s) ;;
  match active s with
  | Some (_, current) =>
      if enabled s && bool_decide (current = id) then on_declarations (declare_in authority id i raw)
      else ret (Err stale_identity)
  | None => ret (Err stale_identity)
  end.

Definition capture (s : Runtime) : option TurnIdentity := snd <$> active s.
End Guard.
End Outcome.
