(* ===== verification/AgentsProps.v ===== *)
(** What holds of delegated agents ([Agents]): a parent's turns are settled by its
    declarations and corrected at most once, a termination ends, lifts its claims and reaches its target and
    nothing else, a harness has one parent at most, and a supervisor is told every
    message once. *)

From S2P Require Import Prelude BoardText Watermark Conversation ProviderError Agents.

(** * Turn outcomes *)

Section Outcomes.
Import Outcome.
Context (mint : nat → text).

(** ** The guard, driven by its transports *)

(** What a transport or the declaring tool does.  A turn is completed by whoever was given
    it by an admission, so a completion names the admission: the [i]-th latest. *)
Inductive Step :=
  | DoAdmit (key : text) (a : TurnAdmission) (turn : text)
  | DoComplete (i : nat) (e : TurnEnd)
  | DoDeclare (authority : LaunchAuthority) (id : TurnIdentity) (i : TurnIntent) (raw : text)
  | DoPolicy (v : bool)
  | DoBoundary
  | DoReplace.

(** What came of it. *)
Inductive Event :=
  | Admission (a : TurnAdmission) (t : ActiveTurn)
  | Refusal (a : TurnAdmission)
  | Completion (t : ActiveTurn) (e : TurnEnd) (v : ParentVerdict)
  | Declaration (d : TurnDeclaration)
  | PolicySeen (v : bool)
  | BoundaryEntered
  | HistoryReplaced
  | Nothing.

Definition admitted_turns (log : list Event) : list ActiveTurn :=
  omap (λ e, match e with Admission _ t => Some t | _ => None end) log.

Definition step (log : list Event) (st : Step) : M Runtime DomainError Event :=
  match st with
  | DoAdmit key a turn =>
      t <- admit_turn mint key a turn ;;
      ret (match t with Some t => Admission a t | None => Refusal a end)
  | DoComplete i e =>
      match admitted_turns log !! i with
      | Some t => v <- complete t e ;; ret (Completion t e v)
      | None => ret Nothing
      end
  | DoDeclare authority id i raw =>
      r <- declare authority id i raw ;;
      ret (match r with Ok d => Declaration d | _ => Nothing end)
  | DoPolicy v => observe_policy mint v ;; ret (PolicySeen v)
  | DoBoundary => modify enter_outer_boundary ;; ret BoundaryEntered
  | DoReplace => history_replaced mint ;; ret HistoryReplaced
  end.

(** The log, newest first. *)
Fixpoint run (steps : list Step) (log : list Event) : M Runtime DomainError (list Event) :=
  match steps with
  | [] => ret log
  | st :: steps' => e <- step log st ;; run steps' (e :: log)
  end.

(** ** What a log says *)

(** The admitted turn that has not ended and was not superseded. *)
Fixpoint open_turn (log : list Event) : option ActiveTurn :=
  match log with
  | [] | PolicySeen false :: _ | HistoryReplaced :: _ => None
  | Admission _ t :: _ => Some t
  | Completion t _ _ :: log' =>
      match open_turn log' with
      | Some t' => if (t_nonce t =? t_nonce t')%N then None else Some t'
      | None => None
      end
  | _ :: log' => open_turn log'
  end.

(** The last declaration since the last admission. *)
Fixpoint last_declared (log : list Event) : option TurnDeclaration :=
  match log with
  | [] | Admission _ _ :: _ => None
  | Declaration d :: _ => Some d
  | _ :: log' => last_declared log'
  end.

Definition ends_episode (e : Event) : bool :=
  match e with
  | Completion _ _ (Published r) => is_terminal (r_outcome r)
  | _ => false
  end.

(** What gives a parent a new correction: an instruction, a terminal outcome, another history, and the policy
    being switched off (which starts over just as another history does). *)
Definition renews (e : Event) : bool :=
  match e with
  | Admission (External _) _ | PolicySeen false | HistoryReplaced => true
  | _ => ends_episode e
  end.

(** Whether the parent was told to correct since. *)
Fixpoint corrected (log : list Event) : bool :=
  match log with
  | [] => false
  | Completion _ _ CorrectNext :: _ => true
  | e :: log' => if renews e then false else corrected log'
  end.

(** Whether that correction has still to run. *)
Fixpoint owed (log : list Event) : bool :=
  match log with
  | [] | Admission Correction _ :: _ => false
  | Completion _ _ CorrectNext :: _ => true
  | e :: log' => if renews e then false else owed log'
  end.

(** Whether the episode ended and no external turn has opened another. *)
Fixpoint at_rest (log : list Event) : bool :=
  match log with
  | [] | Admission (External _) _ :: _ | Admission FreshWake _ :: _ => false
  | e :: log' => ends_episode e || at_rest log'
  end.

Fixpoint last_policy (log : list Event) : bool :=
  match log with
  | [] => true
  | PolicySeen v :: _ => v
  | _ :: log' => last_policy log'
  end.

(** Whether the guard is on. *)
Fixpoint guarding (log : list Event) : bool :=
  match log with
  | [] => true
  | PolicySeen false :: _ => false
  | BoundaryEntered :: log' => guarding log' || last_policy log'
  | _ :: log' => guarding log'
  end.

Definition published (log : list Event) : list TurnOutcomeRecord :=
  omap (λ e, match e with Completion _ _ (Published r) => Some r | _ => None end) log.

(** A declaration that does not end the turn's work: none, or that the parent waits. *)
Definition undecided (d : option TurnDeclaration) : Prop := ∀ d', d = Some d' → intent d' = IntendsWaiting.

(** The ground an outcome is published on. *)
Definition grounded (r : TurnOutcomeRecord) (l : WorkLiveness) (log : list Event) : Prop :=
  match r_outcome r with
  | Done => ∃ d, last_declared log = Some d ∧ intent d = IntendsDone ∧ r_reason r = reason d
  | NeedsUser =>
      (∃ d, last_declared log = Some d ∧ (intent d = Blocked ∨ intent d = Asking) ∧ r_reason r = reason d) ∨
      (undecided (last_declared log) ∧ l = Unknown ∧ r_reason r = UNKNOWN_REASON)
  | Waiting =>
      undecided (last_declared log) ∧ l = Live ∧ r_reason r = default LIVE_REASON (reason <$> last_declared log)
  | Stalled => undecided (last_declared log) ∧ l = Empty ∧ corrected log = true ∧ r_reason r = STALLED_REASON
  end.

Definition event_ok (e : Event) (past : list Event) : Prop :=
  match e with
  | Admission a t =>
      guarding past = true ∧
      match a with
      | External _ | FreshWake => True
      | Correction => owed past = true ∧ at_rest past = false
      | WorkWake | Nudge => at_rest past = false
      end
  | Refusal a => guarding past = true → match a with External _ | FreshWake => False | _ => True end
  | Completion t end_ v =>
      match v with
      | Unsettled => open_turn past ≠ Some t ∨ end_ = Interrupted
      | CorrectNext =>
          open_turn past = Some t ∧ undecided (last_declared past) ∧ end_ = Completed Empty ∧ corrected past = false
      | Published r =>
          open_turn past = Some t ∧ r_sequence r = N.of_nat (S (length (published past))) ∧
          r_session_key r = session_key (t_identity t) ∧ r_outcome_epoch r = outcome_epoch (t_identity t) ∧
          r_turn_id r = turn_id (t_identity t) ∧ r_episode_id r = t_episode_id t ∧
          ∃ l, end_ = Completed l ∧ grounded r l past
      end
  | Declaration d => ∃ t, open_turn past = Some t ∧ identity d = t_identity t
  | _ => True
  end.

Fixpoint log_ok (log : list Event) : Prop :=
  match log with
  | [] => True
  | e :: log' => event_ok e log' ∧ log_ok log'
  end.

(** ** The state is what the log says *)

Record tracks (s : Runtime) (log : list Event) : Prop := {
  k_poison : poisoned (declarations s) = false;
  k_active : active s = (λ t, (t_nonce t, t_identity t)) <$> open_turn log;
  k_turn : ∀ t, open_turn log = Some t → t ∈ admitted_turns log ∧ outcome_epoch (t_identity t) = epoch s ∧
             fenced s = false ∧ is_Some (episode s) ∧ of_turn (declarations s) = t_identity t ∧
             declared (declarations s) = last_declared log ∧
             (∀ d, last_declared log = Some d → identity d = t_identity t);
  k_nonces : NoDup (t_nonce <$> admitted_turns log);
  k_below : ∀ t, t ∈ admitted_turns log → (t_nonce t ≤ next_nonce s)%N;
  k_corrected : corrected log = bool_decide (correction s ≠ Unspent) && negb (fenced s);
  k_owed : owed log = bool_decide (correction s = Owed) && negb (fenced s);
  k_rest : at_rest log = true → fenced s = true ∨ episode s = None;
  k_none : episode s = None → correction s = Unspent ∧ fenced s = false;
  k_guarding : guarding log = enabled s;
  k_policy : last_policy log = visible s;
  k_off : enabled s = false → episode s = None;
  k_sequence : sequence s = N.of_nat (length (published log));
  k_bound : (next_nonce s ≤ N.of_nat (length log))%N ∧ length (published log) ≤ length log
}.

Lemma tracks_new : tracks (runtime_new mint) [].
Proof. split; simpl; try done; try set_solver; try constructor; lia. Qed.

Lemma bound_S s log : tracks s log →
  (next_nonce s ≤ N.of_nat (S (length log)))%N ∧ length (published log) ≤ S (length log).
Proof. intros [? ?]%k_bound. split; lia. Qed.

(** One step from [s] answers with an event the log allows, and the state follows the log. *)
Definition follows (s : Runtime) (log : list Event) (r : Runtime * res DomainError Event) : Prop :=
  ∃ s' e, r = (s', Ok e) ∧ tracks s' (e :: log) ∧ event_ok e log.

Lemma follows_reset s log e s' :
  tracks s log → e = PolicySeen false ∨ e = HistoryReplaced →
  active s' = None → poisoned (declarations s') = false → episode s' = None → correction s' = Unspent →
  fenced s' = false → sequence s' = sequence s → next_nonce s' = next_nonce s →
  guarding (e :: log) = enabled s' → last_policy (e :: log) = visible s' →
  follows s log (s', Ok e).
Proof.
  intros T He Ha Hp Hep Hc Hf Hs Hn Hg Hv. exists s', e. split; [done|].
  split; [|by destruct He as [-> | ->]].
  assert (admitted_turns (e :: log) = admitted_turns log) as Hadm by (by destruct He as [-> | ->]).
  assert (published (e :: log) = published log) as Hpub by (by destruct He as [-> | ->]).
  assert (open_turn (e :: log) = None) as Hopen by (by destruct He as [-> | ->]).
  split; rewrite ?Hadm, ?Hpub, ?Hopen, ?Hc, ?Hf, ?Hs, ?Hn, ?Hep; try done; try apply T.
  - by destruct He as [-> | ->].
  - by destruct He as [-> | ->].
  - by right.
  - by apply bound_S in T.
Qed.

Lemma follows_replace s log : tracks s log → follows s log (step log DoReplace s).
Proof.
  intros T. unfold step, history_replaced, fresh_epoch, on_declarations, enter, bind, modify, gets, ret; simpl.
  rewrite (k_poison _ _ T); simpl.
  eapply follows_reset; simpl; rewrite ?(k_poison _ _ T); eauto; apply T.
Qed.

Lemma tracks_off s log : tracks s log → enabled s = false →
  active s = None ∧ episode s = None ∧ correction s = Unspent ∧ fenced s = false.
Proof.
  intros T Hoff. pose proof (k_off _ _ T Hoff) as He. destruct (k_none _ _ T He) as [Hc Hf].
  split_and!; try done. rewrite (k_active _ _ T). destruct (open_turn log) as [t|] eqn:Ho; [|done].
  apply (k_turn _ _ T) in Ho as (_ & _ & _ & [? He'] & _). congruence.
Qed.

(** A step the log does not see. *)
Lemma follows_quiet s log e :
  tracks s log → e = Nothing ∨ (∃ a, e = Refusal a) → event_ok e log → follows s log (s, Ok e).
Proof.
  intros T He Hok. exists s, e. split; [done|]. split; [|done].
  assert (length (published (e :: log)) = length (published log)) as Hp by (by destruct He as [-> | [a ->]]).
  pose proof (bound_S _ _ T). destruct T.
  split; rewrite ?Hp; destruct He as [-> | [a ->]]; done.
Qed.

Lemma follows_policy s log v : tracks s log → follows s log (step log (DoPolicy v) s).
Proof.
  intros T. unfold step, observe_policy, fresh_epoch, on_declarations, enter, bind, modify, gets, ret; simpl.
  destruct (enabled s) eqn:Hon, v; simpl; rewrite ?(k_poison _ _ T); simpl.
  - eexists _, _. split; [done|]. split; [|done]. pose proof (bound_S _ _ T).
    destruct T; split; simpl; rewrite ?k_guarding0; try done; try (intros; auto; done).
  - eapply follows_reset; simpl; rewrite ?(k_poison _ _ T); eauto; apply T.
  - eexists _, _. split; [done|]. split; [|done]. pose proof (bound_S _ _ T).
    destruct T; split; simpl; rewrite ?k_guarding0; try done; try (intros; auto; done).
  - destruct (tracks_off _ _ T Hon) as (? & ? & ? & ?).
    eapply follows_reset; simpl; eauto; apply T.
Qed.

Lemma follows_boundary s log : tracks s log → follows s log (step log DoBoundary s).
Proof.
  intros T. unfold step, bind, modify, ret; simpl. eexists _, _. split; [done|]. split; [|done].
  unfold enter_outer_boundary. pose proof (bound_S _ _ T).
  destruct (enabled s) eqn:Hon, (visible s) eqn:Hv; simpl;
    try (destruct T; split; simpl; rewrite ?k_guarding0, ?k_policy0, ?Hon, ?Hv; try done; try (intros; auto; done)).
Qed.

(** What a declaration comes to: nothing changes, or it is the last one of the active turn. *)
Lemma declare_in_spec au id i raw d : poisoned d = false →
  (∃ e, declare_in au id i raw d = (d, Err e)) ∨
  ∃ why, of_turn d = id ∧
    declare_in au id i raw d =
      ({| of_turn := of_turn d; declared := Some {| identity := id; intent := i; reason := why |}; poisoned := poisoned d |},
       Ok {| identity := id; intent := i; reason := why |}).
Proof.
  intros Hp. unfold declare_in, bind, reads, gets, modify, throw, ret. destruct au; [|left; eauto..].
  unfold normalized_reason. destruct (ensure _ _) as [[]|e|] eqn:He; simpl; [|left; eauto|].
  - rewrite Hp. case_bool_decide; [right; exists (trim raw); by rewrite Hp|left; eauto].
  - by unfold ensure in He; destruct (_ && _) in He.
Qed.

Lemma follows_declare s log au id i raw : tracks s log → follows s log (step log (DoDeclare au id i raw) s).
Proof.
  intros T. unfold step, declare, bind, gets, ret; simpl.
  destruct (active s) as [[n cur]|] eqn:Ha; simpl; [|by apply follows_quiet; auto].
  destruct (enabled s && _) eqn:Hg; simpl; [|by apply follows_quiet; auto].
  apply andb_prop in Hg as [Hon <-%bool_decide_eq_true].
  pose proof (k_active _ _ T) as Hk. rewrite Ha in Hk. symmetry in Hk.
  apply fmap_Some in Hk as (t & Ho & [= -> ->]).
  destruct (k_turn _ _ T t Ho) as (Hin & Hep & Hf & Hs & Hof & Hd & Hid).
  unfold on_declarations.
  destruct (declare_in_spec au (t_identity t) i raw _ (k_poison _ _ T)) as [[e ->]|(why & _ & ->)].
  - destruct s. by apply follows_quiet; auto.
  - eexists _, _. split; [done|]. split; [|by exists t]. pose proof (bound_S _ _ T).
    destruct T; split; simpl; try done. intros t' Ho'. rewrite Ho in Ho'. injection Ho' as <-.
    split_and!; try done. by intros d [= <-].
Qed.

(** ** Admissions *)

(** The episode part of an admission: refused with nothing changed, or open. *)
Lemma open_episode_spec s log a :
  tracks s log → enabled s = true →
  (open_episode mint a s = (s, Ok false) ∧ match a with External _ | FreshWake => False | _ => True end) ∨
  ∃ s', open_episode mint a s = (s', Ok true) ∧ is_Some (episode s') ∧ fenced s' = false ∧
    epoch s' = epoch s ∧ sequence s' = sequence s ∧ next_nonce s' = next_nonce s ∧ enabled s' = true ∧
    visible s' = visible s ∧ declarations s' = declarations s ∧
    (∀ t, corrected (Admission a t :: log) = bool_decide (correction s' ≠ Unspent)) ∧
    (∀ t, owed (Admission a t :: log) = bool_decide (correction s' = Owed)) ∧
    (∀ t, at_rest (Admission a t :: log) = false) ∧
    (a = Correction → owed log = true) ∧ (a = Correction ∨ a = WorkWake ∨ a = Nudge → at_rest log = false).
Proof.
  intros T Hon. unfold open_episode, bind, gets, modify, ret.
  pose proof (k_corrected _ _ T) as Hc. pose proof (k_owed _ _ T) as Ho.
  pose proof (k_rest _ _ T) as Hr. pose proof (k_none _ _ T) as Hn.
  assert (∀ e, episode s = Some e → fenced s = false → at_rest log = false) as Hrest.
  { intros e He Hf. destruct (at_rest log); [|done]. destruct Hr; congruence. }
  destruct (episode s) as [e|] eqn:He, (fenced s) eqn:Hf; simpl in Hc, Ho, Hrest, Hn;
    rewrite ?andb_true_r, ?andb_false_r in Hc; rewrite ?andb_true_r, ?andb_false_r in Ho;
    try specialize (Hrest _ eq_refl eq_refl); try (destruct (Hn eq_refl) as [Hcs Hff]; try congruence);
    destruct a; simpl; rewrite ?Hf; simpl; try (by left);
    try rewrite (bool_decide_eq_false_2 (episode s = None)) by congruence;
    try rewrite (bool_decide_eq_true_2 (episode s = None)) by congruence;
    try (destruct (correction s) eqn:Hcs'; [by left| |by left]);
    right; eexists; (split; [done|]); simpl; rewrite ?He, ?Hf, ?Hc, ?Ho, ?Hrest; split_and!;
    intros; first [done | discriminate | congruence | by eexists | by intuition discriminate | by rewrite Hcs].
Qed.

(** What follows an open episode: the next nonce, the identity, and clean declarations. *)
Definition admitted_state (n : N) (id : TurnIdentity) (s : Runtime) : Runtime :=
  with_declarations (new_declarations id) (with_active (Some (n, id)) (with_nonce n s)).

Definition identity_of (key turn : text) (s : Runtime) : TurnIdentity :=
  {| session_key := key; outcome_epoch := epoch s; turn_id := turn |}.

Lemma enter_outer id s : poisoned (declarations s) = false →
  on_declarations (enter OuterRun id) s = (with_declarations (new_declarations id) s, Ok (Ok tt)).
Proof.
  intros Hp. unfold on_declarations, enter, bind, gets. rewrite Hp. unfold modify. by rewrite Hp.
Qed.

Lemma admit_turn_eq s s' key a turn ep :
  enabled s = true → open_episode mint a s = (s', Ok true) → episode s' = Some ep →
  poisoned (declarations s') = false → (next_nonce s' < u64_max)%N →
  let id := identity_of key turn s' in let n := (next_nonce s' + 1)%N in
  admit_turn mint key a turn s = (admitted_state n id s', Ok (Some {| t_nonce := n; t_identity := id; t_episode_id := ep |})).
Proof.
  intros Hon Ho Hep Hp Hn id n. unfold admit_turn, bind at 1, gets at 1. rewrite Hon. cbn [negb].
  rewrite (bind_ok _ _ _ _ _ Ho). cbn [negb]. rewrite bind_gets.
  assert (u64_checked_add (next_nonce s') 1 = Some n) as -> by (apply u64_checked_add_Some; split; [done|lia]).
  cbn [expect]. rewrite bind_ret, bind_modify, !bind_gets. cbn [episode with_nonce]. rewrite Hep. cbn [expect].
  rewrite bind_ret, bind_modify. by rewrite (bind_ok _ _ _ _ _ (enter_outer _ (with_active (Some (n, id)) (with_nonce n s')) Hp)).
Qed.

Lemma follows_admit s log key a turn : tracks s log → (N.of_nat (length log) < u64_max)%N →
  follows s log (step log (DoAdmit key a turn) s).
Proof.
  intros T Hlen. destruct (k_bound _ _ T) as [Hb1 Hb2]. pose proof (k_guarding _ _ T) as Hg. unfold step.
  destruct (enabled s) eqn:Hon.
  2:{ unfold admit_turn, bind, gets. rewrite Hon. simpl. apply follows_quiet; [done|eauto|].
      simpl. rewrite Hg. done. }
  destruct (open_episode_spec s log a T Hon) as [[Hr Hk]|(s' & Ho & [ep Hep] & Hf & Hepoch & Hseq & Hnn & Hon' & Hv & Hd & Hc & How & Hre & H1 & H2)].
  - unfold admit_turn, bind, gets. rewrite Hon. simpl. rewrite Hr. simpl.
    apply follows_quiet; [done|eauto|]. intros _. by destruct a.
  - assert (poisoned (declarations s') = false) as Hp by (rewrite Hd; apply T).
    assert ((next_nonce s' < u64_max)%N) as Hn by (clear -Hnn Hb1 Hlen; lia).
    assert ((next_nonce s' + 1 ≤ N.of_nat (S (length log)))%N) as Hbn by (clear -Hnn Hb1; lia).
    assert (length (published log) ≤ S (length log)) as Hbp by (clear -Hb2; lia).
    rewrite (bind_ok _ _ _ _ _ (admit_turn_eq s s' key a turn ep Hon Ho Hep Hp Hn)).
    eexists _, _. split; [done|]. split; [|by simpl; rewrite Hg; destruct a; auto].
    match goal with |- tracks _ (Admission a ?t :: log) => specialize (Hc t); specialize (How t); specialize (Hre t) end.
    simpl in Hc, How, Hre. split; simpl; rewrite ?Hf, ?andb_true_r; try done.
    + intros t [= <-]. split_and!; eauto; [by left|done].
    + constructor; [|apply T]. intros (t & Ht & Hin)%list_elem_of_fmap.
      apply (k_below _ _ T) in Hin. simpl in Ht. clear -Hin Ht Hnn. lia.
    + intros t [->|Hin]%elem_of_cons; [done|]. apply (k_below _ _ T) in Hin. clear -Hin Hnn. simpl. lia.
    + rewrite Hre. done.
    + by rewrite Hep.
    + congruence.
    + rewrite Hv. apply T.
    + congruence.
    + rewrite Hseq. apply T.
Qed.

(** ** Completions *)

(** Two admitted turns of one nonce are one turn. *)
Lemma same_nonce s log t t' : tracks s log → t ∈ admitted_turns log → t' ∈ admitted_turns log →
  t_nonce t = t_nonce t' → t = t'.
Proof.
  intros T [i Hi]%list_elem_of_lookup [j Hj]%list_elem_of_lookup Hn.
  assert (i = j) as ->; [|congruence]. eapply NoDup_lookup; [apply (k_nonces _ _ T)| |].
  - rewrite list_lookup_fmap, Hi. done.
  - rewrite list_lookup_fmap, Hj. simpl. by rewrite Hn.
Qed.

(** Why a verdict is given. *)
Lemma settle_turn_spec d l spent :
  match settle_turn d l spent with
  | Correct => undecided d ∧ l = Empty ∧ spent = false
  | Settle o why =>
      match o with
      | Done => ∃ d', d = Some d' ∧ intent d' = IntendsDone ∧ why = reason d'
      | NeedsUser => (∃ d', d = Some d' ∧ (intent d' = Blocked ∨ intent d' = Asking) ∧ why = reason d') ∨
                     (undecided d ∧ l = Unknown ∧ why = UNKNOWN_REASON)
      | Waiting => undecided d ∧ l = Live ∧ why = default LIVE_REASON (reason <$> d)
      | Stalled => undecided d ∧ l = Empty ∧ spent = true ∧ why = STALLED_REASON
      end
  end.
Proof.
  unfold settle_turn, undecided. destruct d as [[id [] why]|], l, spent; simpl; naive_solver.
Qed.

(** The end of the active turn: released, and judged by its own last declaration. *)
Definition released (s : Runtime) : Runtime := with_declarations (new_declarations no_turn) (with_active None s).

Lemma complete_active s log t e :
  tracks s log → open_turn log = Some t → (N.of_nat (length log) < u64_max)%N →
  complete t e s =
    match e with
    | Interrupted => (released s, Ok Unsettled)
    | Completed l =>
        match settle_turn (last_declared log) l (bool_decide (correction s ≠ Unspent)) with
        | Correct => (with_correction Owed (released s), Ok CorrectNext)
        | Settle o why =>
            let r := {| r_session_key := session_key (t_identity t); r_outcome_epoch := outcome_epoch (t_identity t);
                        r_episode_id := t_episode_id t; r_turn_id := turn_id (t_identity t);
                        r_sequence := N.of_nat (S (length (published log))); r_outcome := o; r_reason := why |} in
            (with_outcome r (released s), Ok (Published r))
        end
    end.
Proof.
  intros T Ho Hlen. destruct (k_turn _ _ T t Ho) as (_ & Hep & _ & _ & _ & Hd & Hid).
  pose proof (k_poison _ _ T) as Hp. destruct (k_bound _ _ T) as [_ Hb].
  unfold complete. rewrite bind_gets, (k_active _ _ T), Ho. cbn [fmap option_fmap option_map fst].
  rewrite bool_decide_eq_true_2 by done. cbn [negb]. rewrite bind_modify, bind_gets.
  rewrite (bind_ok _ _ _ _ _ (enter_outer no_turn (with_active None s) Hp)). fold (released s).
  destruct e as [l|]; [|done]. unfold snapshot. cbn [declarations with_active]. rewrite Hp, Hd.
  assert (observed (Ok (last_declared log)) (t_identity t) l = (last_declared log, l)) as ->.
  { unfold observed. destruct (last_declared log) as [d|] eqn:Hl; [|done].
    by rewrite bool_decide_eq_true_2 by (by apply Hid). }
  rewrite bind_gets. cbn [correction released with_declarations with_active].
  pose proof (settle_turn_spec (last_declared log) l (bool_decide (correction s ≠ Unspent))) as Hs.
  destruct (settle_turn _ _ _) as [|o why].
  - destruct Hs as (_ & _ & Hs%bool_decide_eq_false). rewrite bool_decide_eq_true_2; [done|].
    by destruct (decide (correction s = Unspent)).
  - rewrite bind_gets. cbn [sequence released with_declarations with_active]. rewrite (k_sequence _ _ T).
    assert (u64_checked_add (N.of_nat (length (published log))) 1 = Some (N.of_nat (S (length (published log))))) as ->
      by (apply u64_checked_add_Some; lia).
    cbn [expect]. rewrite bind_ret, bind_gets. cbn [epoch released with_declarations with_active r_outcome_epoch].
    rewrite Hep. unfold text_eqb. by rewrite bool_decide_eq_true_2.
Qed.

Lemma tracks_released s log t e v :
  tracks s log → open_turn log = Some t → v = Unsettled →
  tracks (released s) (Completion t e v :: log).
Proof.
  intros T Ho ->. pose proof (bound_S _ _ T). destruct (k_turn _ _ T t Ho) as (_ & _ & Hf & _).
  destruct T; split; simpl; rewrite ?Ho, ?N.eqb_refl; done.
Qed.

Lemma follows_complete s log i e : tracks s log → (N.of_nat (length log) < u64_max)%N →
  follows s log (step log (DoComplete i e) s).
Proof.
  intros T Hlen. unfold step. destruct (admitted_turns log !! i) as [t|] eqn:Hi; [|by apply follows_quiet; auto].
  apply list_elem_of_lookup_2 in Hi. pose proof (bound_S _ _ T) as Hb. destruct (k_bound _ _ T) as [_ Hb2].
  destruct (decide (open_turn log = Some t)) as [Ho|Hne].
  - destruct (k_turn _ _ T t Ho) as (_ & _ & Hf & [ep Hep] & _).
    pose proof (k_corrected _ _ T) as Hc. rewrite Hf, andb_true_r in Hc.
    pose proof (complete_active s log t e T Ho Hlen) as He. destruct e as [l|].
    2:{ rewrite (bind_ok _ _ _ _ _ He). eexists _, _. split; [done|]. split; [by apply tracks_released|by right]. }
    pose proof (settle_turn_spec (last_declared log) l (bool_decide (correction s ≠ Unspent))) as Hs.
    destruct (settle_turn _ _ _) as [|o why]; rewrite (bind_ok _ _ _ _ _ He); eexists _, _; (split; [done|]).
    + destruct Hs as (Hu & -> & Hs). split; [|simpl; rewrite Hc; done].
      destruct T; split; simpl; rewrite ?Ho, ?N.eqb_refl, ?Hf; try done; [|congruence].
      intros Hr. rewrite <- Hf. by apply k_rest0.
    + split.
      * destruct T; split; simpl; rewrite ?Ho, ?N.eqb_refl; try done.
        -- destruct o; simpl; rewrite ?andb_false_r, ?andb_true_r; try done.
        -- destruct o; simpl; rewrite ?andb_false_r, ?andb_true_r; try done. by rewrite k_owed0, Hf, andb_true_r.
        -- destruct o; simpl; auto. intros [?|?]%k_rest0; congruence.
        -- congruence.
        -- destruct Hb as [? Hb]. split; [done|]. clear -Hb2. lia.
      * simpl. split_and!; try done. exists l. split; [done|]. unfold grounded. simpl. rewrite Hc. destruct o; done.
  - assert (complete t e s = (s, Ok Unsettled)) as He.
    { unfold complete. rewrite bind_gets, (k_active _ _ T). rewrite bool_decide_eq_false_2; [done|].
      destruct (open_turn log) as [t'|] eqn:Ho; [|done]. simpl. intros [= Hn]. apply Hne. f_equal.
      eapply same_nonce; eauto. by apply (k_turn _ _ T) in Ho as [? _]. }
    rewrite (bind_ok _ _ _ _ _ He). eexists _, _. split; [done|]. split; [|by left].
    assert (open_turn (Completion t e Unsettled :: log) = open_turn log) as Hsame.
    { simpl. destruct (open_turn log) as [t'|] eqn:Ho; [|done]. destruct (N.eqb_spec (t_nonce t) (t_nonce t')); [|done].
      destruct Hne. f_equal. symmetry. eapply same_nonce; eauto. by apply (k_turn _ _ T) in Ho as [? _]. }
    destruct T; split; rewrite ?Hsame; try done.
Qed.

Lemma step_follows s log st : tracks s log → (N.of_nat (length log) < u64_max)%N → follows s log (step log st s).
Proof.
  intros T Hlen. destruct st.
  - by apply follows_admit.
  - by apply follows_complete.
  - by apply follows_declare.
  - by apply follows_policy.
  - by apply follows_boundary.
  - by apply follows_replace.
Qed.

Lemma run_follows steps : ∀ s log, tracks s log → log_ok log → (N.of_nat (length steps + length log) ≤ u64_max)%N →
  ∃ s' log', run steps log s = (s', Ok log') ∧ tracks s' log' ∧ log_ok log' ∧
    ∃ new, log' = new ++ log ∧ length new = length steps.
Proof.
  induction steps as [|st steps IH]; intros s log T Hok Hlen; simpl in *.
  - eexists _, _. split; [done|]. split_and!; try done. by exists [].
  - destruct (step_follows s log st T) as (s1 & e & He & T1 & Hev); [lia|].
    rewrite (bind_ok _ _ _ _ _ He).
    destruct (IH s1 (e :: log) T1) as (s' & log' & Hr & T' & Hok' & new & Hnew & Hl); [done|simpl; lia|].
    eexists _, _. split; [done|]. split_and!; try done. exists (new ++ [e]).
    rewrite <- app_assoc, length_app. split; [done|simpl; lia].
Qed.

(** C40: whatever its transports admit, complete, declare, observe and replace, in any order, the
    turn-outcome guard of a parent never panics, and its log shows: a turn that completes is settled,
    once, when it is the turn in progress, and settles nothing when another was admitted, its
    history replaced or the policy switched off meanwhile; it is reported done, blocked or asking
    on its own last declaration, with its reason; one that declared nothing, or that it waits, is
    reported waiting while its work runs, needing the user when its work cannot be read, and when
    nothing runs is corrected or, already corrected, stalled; outcomes are numbered one by one; a
    parent is asked to correct once at most until an instruction, a terminal outcome, another history or
    the policy switched off, and a correction is admitted only when asked for; after a terminal
    outcome no correction, note of work or nudge is admitted until an external turn or a fresh wake;
    and those two are never refused while the guard is on. *)
Theorem parent_turns_settled steps :
  (N.of_nat (length steps) ≤ u64_max)%N →
  ∃ s log, run steps [] (runtime_new mint) = (s, Ok log) ∧ length log = length steps ∧ log_ok log.
Proof.
  intros Hlen. destruct (run_follows steps (runtime_new mint) []) as (s & log & Hr & _ & Hok & new & -> & Hl);
    [apply tracks_new|done|simpl; lia|].
  exists s, (new ++ []). rewrite app_nil_r in *. done.
Qed.

End Outcomes.

(** An instruction, a turn with nothing running, its correction, and what comes after. *)
Definition corrected_parent : list Step :=
  [DoAdmit (tx "s") (Outcome.External (tx "e")) (tx "t1"); DoComplete 0 (Outcome.Completed Outcome.Empty);
   DoAdmit (tx "s") Outcome.Correction (tx "t2"); DoComplete 0 (Outcome.Completed Outcome.Empty);
   DoAdmit (tx "s") Outcome.WorkWake (tx "t3"); DoAdmit (tx "s") Outcome.FreshWake (tx "t4")].

Lemma parent_turns_settled_witness :
  let mint := λ n, decimal (N.of_nat n) in
  (∃ t1 t2 t4 r, (run mint corrected_parent [] (Outcome.runtime_new mint)).2 =
    Ok [Admission Outcome.FreshWake t4; Refusal Outcome.WorkWake;
        Completion t2 (Outcome.Completed Outcome.Empty) (Outcome.Published r); Admission Outcome.Correction t2;
        Completion t1 (Outcome.Completed Outcome.Empty) Outcome.CorrectNext; Admission (Outcome.External (tx "e")) t1]) ∧
  ∃ s log, run mint corrected_parent [] (Outcome.runtime_new mint) = (s, Ok log) ∧
    length log = length corrected_parent ∧ log_ok log.
Proof.
  intros mint. split; [by eexists _, _, _, _; vm_compute|]. apply (parent_turns_settled mint corrected_parent).
  vm_compute. discriminate.
Defined.

(** * Terminations *)

Section Termination.
Import Teardown.

Abbreviation uuid_of := (λ r, uuid (identity r)).

(** A line of descent from an owner, the direct child first. *)
Fixpoint descent (o : string) (chain : list LineageRecord) : Prop :=
  match chain with
  | [] => True
  | r :: chain' => parent r = o ∧ descent (uuid_of r) chain'
  end.

Lemma descent_snoc o chain r x : descent o chain → list.last chain = Some r → parent x = uuid_of r → descent o (chain ++ [x]).
Proof.
  revert o. induction chain as [|y chain IH]; intros o; [done|]. intros [Hy Hd] Hl Hx. split; [done|].
  destruct chain as [|z chain]; [by injection Hl as ->|]. by apply IH.
Qed.

Lemma unique_record_Some s id r : unique_record s id = Ok (Some r) → r ∈ records s ∧ uuid_of r = id.
Proof.
  unfold unique_record. destruct (filter _ _) as [|r' [|? ?]] eqn:Hf; intros [= <-].
  apply and_comm, (list_elem_of_filter (λ r, uuid_of r = id)). rewrite Hf. by left.
Qed.

Lemma unique_record_no_panic s id : unique_record s id ≠ Panic.
Proof. unfold unique_record. by destruct (filter _ _) as [|? [|? ?]]. Qed.

(** In a snapshot with one record for each uuid, every record is found. *)
Lemma unique_record_found s r : NoDup (uuid_of <$> records s) → r ∈ records s → unique_record s (uuid_of r) = Ok (Some r).
Proof.
  intros Hnd Hin. unfold unique_record.
  assert (filter (λ r', uuid_of r' = uuid_of r) (records s) = [r]) as ->; [|done].
  induction (records s) as [|x l IH]; [by apply not_elem_of_nil in Hin|].
  apply list.NoDup_cons in Hnd as [Hx Hnd]. rewrite filter_cons. destruct (decide (uuid_of x = uuid_of r)) as [He|Hne].
  - assert (x = r) as ->.
    { apply elem_of_cons in Hin as [->|Hin]; [done|]. destruct Hx. rewrite He. by apply (list_elem_of_fmap_2 uuid_of). }
    f_equal. destruct (filter _ l) as [|y l'] eqn:Hf; [done|].
    assert (y ∈ filter (λ r', uuid_of r' = uuid_of r) l) as [Hy Hyl]%list_elem_of_filter by (rewrite Hf; by left).
    destruct Hx. rewrite <- Hy. by apply (list_elem_of_fmap_2 uuid_of).
  - apply elem_of_cons in Hin as [->|Hin]; [done|by apply IH].
Qed.

(** The walk ends, whatever the records say, and what it answers is a line of descent. *)
Lemma walk_up_spec fuel s visited current :
  current ∈ records s → uuid_of current ≠ owner s → length (records s) ≤ fuel + length visited →
  NoDup visited → visited ⊆ (uuid_of <$> records s) →
  walk_up fuel s visited current ≠ Panic ∧
  ∀ via n, walk_up fuel s visited current = Ok (via, n) →
    ∃ first chain, via = identity first ∧ descent (owner s) (first :: chain) ∧ list.last (first :: chain) = Some current ∧
      Forall (λ r, r ∈ records s ∧ uuid_of r ≠ owner s) (first :: chain) ∧
      n = N.min (N.of_nat (length visited + length (first :: chain))) u32_max.
Proof.
  revert visited current. induction fuel as [|fuel IH]; intros visited current Hin Ho Hlen Hnd Hsub; simpl;
    (case_bool_decide as Hv; [done|]);
    assert (NoDup (uuid_of current :: visited)) as Hnd' by (by constructor);
    assert (uuid_of current :: visited ⊆ (uuid_of <$> records s)) as Hsub'
      by (intros x [->|Hx]%elem_of_cons; [by apply (list_elem_of_fmap_2 uuid_of)|by apply Hsub]);
    (case_bool_decide as Hp;
      [split; [done|]; intros via n [= <- <-]; exists current, []; split_and!; try done;
        [by constructor|f_equal; simpl; lia]|]);
    (destruct (unique_record s (parent current)) as [[next|]|e|] eqn:Hu; simpl; try done; [|by apply unique_record_no_panic in Hu]).
  - pose proof (submseteq_length _ _ (NoDup_submseteq _ _ Hnd' Hsub')) as Hle.
    rewrite length_fmap in Hle. simpl in *. lia.
  - apply unique_record_Some in Hu as [Hnin Hnu].
    destruct (IH (uuid_of current :: visited) next) as [Hnp Hok]; [done|congruence|simpl; lia|done|done|].
    split; [done|]. intros via n Hw.
    destruct (Hok via n Hw) as (first & chain & -> & Hd & Hl & Hall & ->).
    exists first, (chain ++ [current]). split; [done|]. split; [by eapply (descent_snoc _ (first :: chain))|].
    split; [by rewrite app_comm_cons, last_snoc|]. split; [by rewrite app_comm_cons; apply Forall_app; split; [|constructor]|].
    f_equal. simpl. rewrite length_app. simpl. lia.
Qed.

Lemma target_record_spec s target :
  target_record s target ≠ Panic ∧
  ∀ r, target_record s target = Ok r →
    r ∈ records s ∧ identity r = target ∧ uuid target ≠ owner s ∧ unique_record s (uuid target) = Ok (Some r).
Proof.
  unfold target_record. split.
  - apply rbind_no_panic; [apply ensure_no_panic|]. intros _ _.
    apply rbind_no_panic; [apply unique_record_no_panic|]. intros o _.
    apply rbind_no_panic; [apply or_err_no_panic|]. intros r _.
    apply rbind_no_panic; [apply ensure_no_panic|done].
  - intros r Hr. inv_ok. apply negb_true_iff, bool_decide_eq_false in H.
    destruct (unique_record_Some _ _ _ H0) as [Hin Hu]. apply N.eqb_eq in H2.
    split_and!; try done. destruct (identity r), target; simpl in *; congruence.
Qed.

(** A walk started at a record of the snapshot. *)
Lemma direct_child_toward_spec s r : r ∈ records s → uuid_of r ≠ owner s →
  direct_child_toward s r ≠ Panic ∧
  ∀ via n, direct_child_toward s r = Ok (via, n) →
    ∃ first chain, via = identity first ∧ descent (owner s) (first :: chain) ∧ list.last (first :: chain) = Some r ∧
      Forall (λ r, r ∈ records s ∧ uuid_of r ≠ owner s) (first :: chain) ∧
      n = N.min (N.of_nat (length (first :: chain))) u32_max.
Proof. intros Hin Ho. apply (walk_up_spec _ s [] r); [done|done|simpl; lia|constructor|by intros ? ?%not_elem_of_nil]. Qed.

Lemma routing_depth_bound hops depth : RoutingDepth_new hops = Ok depth → (1 ≤ depth ∧ depth < u32_max)%N.
Proof.
  unfold RoutingDepth_new. destruct (N.eqb_spec hops 0); [done|]. destruct (N.ltb_spec MAX_HOPS hops); [done|].
  intros [= <-]. unfold MAX_HOPS, u32_max in *. lia.
Qed.

(** The walk ends at a uuid it had not visited. *)
Lemma walk_up_fresh fuel s visited current via n : walk_up fuel s visited current = Ok (via, n) → uuid via ∉ visited.
Proof.
  revert visited current. induction fuel as [|fuel IH]; intros visited current; cbn [walk_up].
  all: case_bool_decide as Hv; [done|]; case_bool_decide; [by intros [= <- _]|].
  all: intros Hw; inv_ok.
  apply IH in Hw. set_solver.
Qed.

Lemma direct_child_toward_other s r via n : direct_child_toward s r = Ok (via, n) → n ≠ 1%N → uuid via ≠ uuid_of r.
Proof.
  unfold direct_child_toward. destruct (length (records s)); cbn [walk_up]; rewrite bool_decide_eq_false_2 by set_solver.
  all: case_bool_decide; [by intros [= _ <-]|]; intros Hw _; inv_ok.
  apply walk_up_fresh in Hw. set_solver.
Qed.

(** What an answer of the search says. *)
Lemma resolve_route_spec s target depth : (1 ≤ depth ∧ depth < u32_max)%N →
  resolve_termination_route s target depth ≠ Panic ∧ route_length s target ≠ Panic ∧
  (∀ child, resolve_termination_route s target depth = Ok (ShutdownDirectChild child) →
     child = target ∧ child ∈ direct_children s) ∧
  (∀ via d, resolve_termination_route s target depth = Ok (ForwardToDirectChild via d) →
     via ∈ direct_children s ∧ uuid via ≠ uuid target ∧ (1 ≤ d)%N ∧ depth = (d + 1)%N ∧
     ∃ first chain final, via = identity first ∧ identity final = target ∧
       descent (owner s) (first :: chain) ∧ list.last (first :: chain) = Some final ∧
       Forall (λ r, r ∈ records s) (first :: chain) ∧ (N.of_nat (length chain) ≤ d)%N ∧
       route_length s target = Ok (N.of_nat (S (length chain)))).
Proof.
  intros Hdepth. unfold resolve_termination_route, route_length.
  destruct (target_record_spec s target) as [Hnp Ht].
  destruct (target_record s target) as [r|e|]; simpl; [|split_and!; done|done]. clear Hnp.
  destruct (Ht r eq_refl) as (Hin & Hid & Ho & Hu). clear Ht.
  destruct (direct_child_toward_spec s r Hin) as [Hnp Hok]; [by rewrite Hid|].
  pose proof (direct_child_toward_other s r) as Hother.
  destruct (direct_child_toward s r) as [[via n]|e|]; simpl; [|split_and!; done|done]. clear Hnp.
  destruct (Hok via n eq_refl) as (first & chain & -> & Hd & Hl & Hall & Hn). clear Hok.
  assert (identity first ∈ direct_children s) as Hdir.
  { destruct Hd as [Hp _]. apply list.Forall_cons in Hall as [[Hf Hfo] _]. unfold direct_children.
    apply (list_elem_of_fmap_2 identity). by apply list_elem_of_filter. }
  pose proof (unique_record_no_panic s (uuid_of first)) as Hup.
  destruct (unique_record s (uuid_of first)) as [found|e|]; simpl; [|split_and!; done|done].
  destruct (ensure _ _) as [[]|e|] eqn:He; simpl; [|split_and!; done|by unfold ensure in He; destruct (_ && _) in He].
  destruct chain as [|r2 chain].
  - injection Hl as ->. subst n. cbn. rewrite Hid, bool_decide_eq_true_2 by done. simpl. rewrite Hid in Hdir.
    split_and!; [done|done| |done]. by intros child [= <-].
  - cbn [length] in Hn. assert (n ≠ 1)%N as Hn1 by (unfold u32_max in Hn; lia).
    rewrite (proj2 (N.eqb_neq n 1) Hn1). unfold after_forward.
    destruct (N.leb_spec depth 1); [split_and!; done|].
    destruct (N.leb_spec n depth); [|split_and!; done].
    split; [done|]. split; [done|]. split; [done|]. intros via d [= <- <-]. split; [done|]. split; [rewrite <- Hid; by eapply Hother|]. split; [lia|]. split; [lia|].
    exists first, (r2 :: chain), r. split; [done|]. split; [done|]. split; [done|]. split; [done|].
    split; [eapply list.Forall_impl; [exact Hall|]; by intros x [? _]|]. cbn [length].
    assert (n = N.of_nat (S (S (length chain)))) as -> by lia. split; [lia|done].
Qed.

(** C37: whatever a harness's records of its subtree say (cycles, missing parents, duplicates,
    other generations), the search for a selected agent ends with an answer, and an edge it
    answers is safe: it shuts down only a direct child of the harness that is the selected
    launch itself, and it forwards only to a direct child from which the records lead down to
    the selected launch, with one hop less and enough hops for the rest of the way. *)
Theorem termination_route_sound s target hops depth :
  RoutingDepth_new hops = Ok depth →
  resolve_termination_route s target depth ≠ Panic ∧ route_length s target ≠ Panic ∧
  (∀ child, resolve_termination_route s target depth = Ok (ShutdownDirectChild child) →
     child = target ∧ child ∈ direct_children s) ∧
  (∀ via d, resolve_termination_route s target depth = Ok (ForwardToDirectChild via d) →
     via ∈ direct_children s ∧ (1 ≤ d)%N ∧ depth = (d + 1)%N ∧
     ∃ first chain final, via = identity first ∧ identity final = target ∧
       descent (owner s) (first :: chain) ∧ list.last (first :: chain) = Some final ∧
       Forall (λ r, r ∈ records s) (first :: chain) ∧ (N.of_nat (length chain) ≤ d)%N ∧
       route_length s target = Ok (N.of_nat (S (length chain)))).
Proof.
  intros Hdepth%routing_depth_bound. destruct (resolve_route_spec s target depth Hdepth) as (Hp & Hl & Hs & Hf).
  split_and!; try done. intros via d Hr. destruct (Hf via d Hr) as (? & _ & ? & ? & ?). done.
Qed.

Lemma termination_route_sound_witness :
  let loop := {| identity := {| uuid := "b"; generation := 1 |}; parent := "c" |} in
  let s := {| owner := "root"; records := [{| identity := {| uuid := "a"; generation := 1 |}; parent := "root" |};
    {| identity := {| uuid := "c"; generation := 2 |}; parent := "a" |}] |} in
  let s' := {| owner := "root"; records := [loop; {| identity := {| uuid := "c"; generation := 2 |}; parent := "b" |}] |} in
  RoutingDepth_new 2 = Ok 2%N ∧
  (∃ d, resolve_termination_route s {| uuid := "c"; generation := 2 |} 2 = Ok (ForwardToDirectChild {| uuid := "a"; generation := 1 |} d) ∧ (1 ≤ d)%N) ∧
  resolve_termination_route s' {| uuid := "c"; generation := 2 |} 2 ≠ Panic.
Proof.
  intros loop s s'. split; [done|].
  pose proof (termination_route_sound s {| uuid := "c"; generation := 2 |} 2 2 eq_refl) as (_ & _ & _ & Hf).
  split; [|apply (termination_route_sound s' _ 2 2 eq_refl)].
  exists 1%N. split; [vm_compute; reflexivity|]. apply (Hf {| uuid := "a"; generation := 1 |} 1%N). vm_compute. reflexivity.
Defined.

(** ** One harness *)

Section OneHarness.
Import Terminate.

(** The calls one harness made. *)
Definition by_harness (me : string) (calls : list Call) : Trace := (λ c, (me, c)) <$> calls.

Definition count (f : Call → bool) (calls : list Call) : nat := length (filter (λ c, f c = true) calls).

Definition takes (c : Call) : bool := match c with CallClaimStopping _ _ (inl _) => true | _ => false end.
Definition lifts (c : Call) : bool := match c with CallReleaseStopping _ => true | _ => false end.
Definition shuts_down (c : Call) : bool := match c with CallShutdownChild _ _ _ => true | _ => false end.
Definition compensates (c : Call) : bool := match c with CallCompensate _ _ => true | _ => false end.

(** The calls that end an agent. *)
Definition ends (c : Call) : bool :=
  match c with
  | CallShutdownChild _ _ _ | CallConclude _ _ _ _ | CallClaimTerminal _ _ | CallCompensate _ _ | CallRetainStopping _ => true
  | _ => false
  end.

(** The target acknowledged, or its end was worked on, or it was seen to have ended. *)
Definition reached (c : Call) : bool :=
  match c with
  | CallShutdownChild _ _ (inl _) | CallShutdownChild _ _ (inr (Downstream DownAlreadyExited)) => true
  | CallConclude _ _ _ NoRetainedHandle => false
  | CallConclude _ _ _ _ => true
  | CallTerminalClaimed _ gone => gone
  | _ => false
  end.

Definition forward_of (c : Call) : option (DelegatedAgentIdentity * N) :=
  match c with CallForward via _ d => Some (via, d) | _ => None end.

(** A call of a selected termination of [t], and of nothing else. *)
Definition concerns (t : DelegatedAgentIdentity) (c : Call) : Prop :=
  match c with
  | CallClaimStopping t' cause _ => t' = t ∧ cause = CauseSelectedTermination
  | CallReleaseStopping t' | CallRetainStopping t' | CallTerminalClaimed t' _ | CallAwaitCompensated t' _
  | CallClaimTerminal t' _ => t' = t
  | CallShutdownChild t' reason _ => t' = t ∧ reason = SelectedTermination
  | CallForward via t' _ => t' = t ∧ uuid via ≠ uuid t
  | CallConclude t' _ budget _ => t' = t ∧ budget = Standard
  | CallCompensate t' cause => t' = t ∧ cause = CauseSelectedTermination
  end.

(** What a harness called of its own: about [t] only, with no forward, and a claim of which [taken]
    says whether it is out before is lifted unless the target was reached. *)
Definition local (t : DelegatedAgentIdentity) (taken : bool) (calls : list Call) : Prop :=
  Forall (concerns t) calls ∧ Forall (λ c, forward_of c = None) calls ∧
  count shuts_down calls ≤ 1 ∧ count compensates calls ≤ 1 ∧ count takes calls = 0 ∧
  if taken then count lifts calls = 1 ∨ (count lifts calls = 0 ∧ Exists (λ c, reached c = true) calls)
  else count lifts calls = 0.

Lemma join_in_flight_spec me u t routed tr : is_Some (registry u) →
  ∃ calls r, join_in_flight me u t routed tr = (tr ++ by_harness me calls, r) ∧ r ≠ Panic ∧
    local t false calls ∧ Forall (λ c, ends c = false) calls.
Proof.
  intros [reg Hreg]. unfold join_in_flight, ask_await_compensated, ask, called, bind, gets, modify, ret, throw.
  rewrite Hreg. simpl. destruct (await_compensated reg tr t); simpl; eexists [_], _; (split; [done|]);
    (split; [done|]); (split; [by repeat constructor|by repeat constructor]).
Qed.

Lemma from_shutdown_answer_spec t reason answer :
  (from_shutdown_answer answer = Acknowledged ∧ reached (CallShutdownChild t reason answer) = true) ∨
  ∃ detail, from_shutdown_answer answer = Negative detail.
Proof. destruct answer as [[]|[|detail|[]]]; simpl; eauto. Qed.

(** The owner of a direct child ends it: one shutdown, one compensation at most, and the claim. *)
Lemma shut_down_owned_child_spec me u t claim tr : (claim = Taken → is_Some (registry u)) →
  ∃ calls r, shut_down_owned_child me u t claim tr = (tr ++ by_harness me calls, r) ∧ r ≠ Panic ∧
    local t (bool_decide (claim = Taken)) calls ∧ count shuts_down calls = 1.
Proof.
  intros Hclaim.
  unfold shut_down_owned_child, conclude, compensate, release_target, retain_target, outcome_of,
    ask_await_compensated, ask_terminal_claimed, ask, called, bind, gets, modify, ret, throw.
  destruct (decide (claim = Taken)) as [Hc|Hc].
  1: rewrite (bool_decide_eq_true_2 _ Hc); destruct (Hclaim Hc) as [reg ->].
  2: rewrite (bool_decide_eq_false_2 _ Hc).
  all: destruct (owner_ports u) as [o|]; simpl;
    generalize (shutdown_child u tr t SelectedTermination); intros answer;
    destruct (from_shutdown_answer_spec t SelectedTermination answer) as [[-> Ha]|[detail ->]]; simpl.
  all: repeat (match goal with
    | |- context [termination ?o' ?tr' ?c ?a ?b] => destruct (termination o' tr' c a b); simpl
    | |- context [terminal_claimed ?r ?tr' ?c] => destruct (terminal_claimed r tr' c); simpl
    | |- context [await_compensated ?r ?tr' ?c] => destruct (await_compensated r tr' c); simpl
    | |- context [claim_terminal ?r ?tr' ?c] => destruct (claim_terminal r tr' c); simpl
    end).
  all: rewrite <- ?app_assoc; simpl.
  all: match goal with |- ∃ _ _, (?x ++ ?seg, _) = _ ∧ _ => exists (snd <$> seg) end.
  all: eexists; split; [reflexivity|].
  all: split; [done|]; split; [|done].
  all: split_and!; [by repeat constructor..|].
  all: first [done | by left | right; split; [done|]; repeat (first [by apply Exists_cons_hd | apply Exists_cons_hd; exact Ha | apply Exists_cons_tl])].
Qed.
End OneHarness.

(** ** Hop by hop *)

Section Journey.
Import Terminate.

Definition calls_of (x : string) (seg : Trace) : list Call := snd <$> filter (λ e, e.1 = x) seg.

Definition forwards (seg : Trace) : list (string * (DelegatedAgentIdentity * N)) :=
  omap (λ e, (λ f, (e.1, f)) <$> forward_of e.2) seg.

(** Each forward is made by the harness the one before it went to, with one hop less. *)
Fixpoint leads (me : string) (depth : N) (fs : list (string * (DelegatedAgentIdentity * N))) : Prop :=
  match fs with
  | [] => True
  | (x, (via, d)) :: fs' => x = me ∧ (1 ≤ d)%N ∧ depth = (d + 1)%N ∧ leads (uuid via) d fs'
  end.

(** The harness they end at. *)
Fixpoint arrived (me : string) (fs : list (string * (DelegatedAgentIdentity * N))) : string :=
  match fs with [] => me | (_, (via, _)) :: fs' => arrived (uuid via) fs' end.

(** What a termination of [t] asked of harness [me] may have made the harnesses call. *)
Record journey (net : Network) (me : string) (t : DelegatedAgentIdentity) (depth : N) (seg : Trace) : Prop := {
  j_concerns : Forall (λ e, concerns t e.2) seg;
  j_leads : leads me depth (forwards seg);
  j_ends : Forall (λ e, ends e.2 = true → e.1 = arrived me (forwards seg) ∧
                        ∃ tr, t ∈ direct_children (lineage (harness net e.1) tr)) seg;
  j_once : count shuts_down (snd <$> seg) ≤ 1 ∧ count compensates (snd <$> seg) ≤ 1;
  j_claims : ∀ x, count takes (calls_of x seg) = count lifts (calls_of x seg) ∨
    (count takes (calls_of x seg) = S (count lifts (calls_of x seg)) ∧ x = arrived me (forwards seg) ∧
     Exists (λ c, reached c = true) (calls_of x seg));
  j_accepting : ∀ x, (∀ tr, accepts_new_work (lifecycle (harness net x) tr) = false) → calls_of x seg = []
}.

(** The harness accepts new work at some time. *)
Definition accepting (net : Network) (me : string) : Prop := ∃ tr, accepts_new_work (lifecycle (harness net me) tr) = true.

Lemma accepting_other net me x : accepting net me →
  (∀ tr, accepts_new_work (lifecycle (harness net x) tr) = false) → x ≠ me.
Proof. intros [tr Ha] Hx ->. by rewrite Hx in Ha. Qed.

Lemma count_app f a b : count f (a ++ b) = count f a + count f b.
Proof. unfold count. by rewrite list.filter_app, length_app. Qed.

Lemma count_cons f c calls : count f (c :: calls) = (if f c then 1 else 0) + count f calls.
Proof. unfold count. rewrite filter_cons. destruct (f c); simpl; by rewrite ?decide_True, ?decide_False. Qed.

Lemma calls_of_app x a b : calls_of x (a ++ b) = calls_of x a ++ calls_of x b.
Proof. unfold calls_of. by rewrite list.filter_app, fmap_app. Qed.

Lemma calls_of_by_harness x me calls : calls_of x (by_harness me calls) = if decide (x = me) then calls else [].
Proof.
  unfold calls_of, by_harness. destruct (decide (x = me)) as [->|Hne].
  - rewrite filter_all; [by rewrite <- list_fmap_compose, list_fmap_id|].
    intros e (c & -> & _)%list_elem_of_fmap. done.
  - induction calls as [|c calls IH]; [done|]. rewrite fmap_cons, filter_cons_False; [done|]. simpl. congruence.
Qed.

Lemma snd_by_harness me calls : snd <$> by_harness me calls = calls.
Proof. unfold by_harness. rewrite <- list_fmap_compose. apply list_fmap_id. Qed.

Lemma forwards_app a b : forwards (a ++ b) = forwards a ++ forwards b.
Proof. apply omap_app. Qed.

Lemma forwards_by_harness me calls : Forall (λ c, forward_of c = None) calls → forwards (by_harness me calls) = [].
Proof. induction 1 as [|c calls Hc _ IH]; [done|]. simpl. unfold forwards in *. simpl. by rewrite Hc. Qed.

Lemma forwards_hop me pre via t d sub post :
  Forall (λ c, forward_of c = None) pre → Forall (λ c, forward_of c = None) post →
  forwards (by_harness me pre ++ (me, CallForward via t d) :: sub ++ by_harness me post) = (me, (via, d)) :: forwards sub.
Proof.
  intros Hpre Hpost. rewrite forwards_app, (forwards_by_harness me pre) by done.
  change (forwards ((me, CallForward via t d) :: sub ++ by_harness me post))
    with ((me, (via, d)) :: forwards (sub ++ by_harness me post)).
  by rewrite forwards_app, (forwards_by_harness me post), app_nil_r by done.
Qed.

Lemma count_none f g calls : (∀ c, f c = true → g c = true) → Forall (λ c, g c = false) calls → count f calls = 0.
Proof.
  intros Hfg. induction 1 as [|c calls Hc _ IH]; [done|]. unfold count in *. rewrite filter_cons_False; [done|].
  intros ?%Hfg. congruence.
Qed.

Lemma journey_nothing net me t depth : journey net me t depth [].
Proof. split; simpl; try by constructor. split; unfold count; simpl; lia. Qed.

(** Calls that take a claim, and nothing else. *)
Definition claiming (t : DelegatedAgentIdentity) (taken : bool) (calls : list Call) : Prop :=
  Forall (concerns t) calls ∧ Forall (λ c, forward_of c = None) calls ∧ Forall (λ c, ends c = false) calls ∧
  count lifts calls = 0 ∧ count takes calls = if taken then 1 else 0.

(** A harness that acts by itself. *)
Lemma journey_here net me t depth taken pre calls : accepting net me →
  claiming t taken pre → local t taken calls →
  Forall (λ c, ends c = false) calls ∨ (∃ tr, t ∈ direct_children (lineage (harness net me) tr)) →
  journey net me t depth (by_harness me (pre ++ calls)).
Proof.
  intros Hacc (Hp1 & Hp2 & Hp3 & Hp4 & Hp5) (Hl1 & Hl2 & Hl3 & Hl4 & Hl5 & Hl6) Hdir.
  assert (Forall (λ c, forward_of c = None) (pre ++ calls)) as Hf by (by apply Forall_app).
  pose proof (forwards_by_harness me _ Hf) as Hfw. split; rewrite ?Hfw, ?snd_by_harness; try done.
  - unfold by_harness. apply Forall_fmap. by apply Forall_app.
  - unfold by_harness. apply Forall_fmap, list.Forall_forall. rewrite list.Forall_forall in Hp3.
    intros c [Hc|Hc]%elem_of_app He; simpl in He.
    { by rewrite (Hp3 c Hc) in He. }
    split; [done|]. destruct Hdir as [Hdir|Hdir]; [|done].
    rewrite list.Forall_forall in Hdir. by rewrite (Hdir c Hc) in He.
  - rewrite !count_app, (count_none shuts_down ends pre), (count_none compensates ends pre); try done; by intros [].
  - intros x. rewrite calls_of_by_harness. destruct (decide (x = me)) as [->|Hne]; [|by left].
    rewrite !count_app, Hp4, Hp5, Hl5. destruct taken; [|left; lia].
    destruct Hl6 as [->|[-> Hr]]; [by left|]. right. split_and!; [done|done|]. apply Exists_app. by right.
  - intros x Hx. rewrite calls_of_by_harness, decide_False; [done|]. by eapply accepting_other.
Qed.

(** A harness that forwards, between taking a claim and lifting it. *)
Lemma journey_hop net me t depth d taken pre via sub post : accepting net me →
  claiming t taken pre → post = (if taken then [CallReleaseStopping t] else []) →
  uuid via ≠ uuid t → (1 ≤ d)%N → depth = (d + 1)%N → journey net (uuid via) t d sub →
  journey net me t depth (by_harness me pre ++ (me, CallForward via t d) :: sub ++ by_harness me post).
Proof.
  intros Hacc (Hp1 & Hp2 & Hp3 & Hp4 & Hp5) Hpost Hvia Hd Hdepth J.
  assert (Forall (λ c, forward_of c = None) post) as Hf by (subst; destruct taken; by repeat constructor).
  assert (Forall (λ c, ends c = false) post) as He by (subst; destruct taken; by repeat constructor).
  pose proof (forwards_hop me pre via t d sub post Hp2 Hf) as Hfw.
  assert (∀ x calls, Forall (λ c, ends c = false) calls →
    Forall (λ e, ends e.2 = true → e.1 = x ∧ ∃ tr, t ∈ direct_children (lineage (harness net e.1) tr)) (by_harness me calls)) as Hq.
  { intros x calls Hall. unfold by_harness. apply Forall_fmap. eapply list.Forall_impl; [done|].
    intros c Hc Ht. simpl in Ht. congruence. }
  split; rewrite ?Hfw.
  - rewrite Forall_app, list.Forall_cons, Forall_app; split_and!; try apply J; try done.
    + by apply Forall_fmap.
    + subst post. destruct taken; by repeat constructor.
  - split_and!; try done. apply J.
  - rewrite Forall_app, list.Forall_cons, Forall_app; split_and!; try apply J; try (by apply Hq). done.
  - rewrite fmap_app, fmap_cons, fmap_app, !snd_by_harness. simpl.
    rewrite !count_app, !count_cons, !count_app. simpl.
    rewrite (count_none shuts_down ends pre), (count_none compensates ends pre),
      (count_none shuts_down ends post), (count_none compensates ends post) by (done || by intros []).
    destruct (j_once _ _ _ _ _ J). lia.
  - intros x. change ((me, ?c) :: sub ++ ?l) with (by_harness me [c] ++ sub ++ l).
    rewrite !calls_of_app, !calls_of_by_harness. destruct (decide (x = me)) as [->|Hne]; simpl.
    2:{ rewrite app_nil_r. apply J. }
    rewrite !count_app, !count_cons, !count_app, Hp4, Hp5. simpl.
    assert (count takes post = 0 ∧ count lifts post = if taken then 1 else 0) as [-> ->] by (subst; by destruct taken).
    destruct (j_claims _ _ _ _ _ J me) as [Hj|(Hj & Ha & Hr)]; [left|right; split_and!; [|done|]];
      [destruct taken; lia..|].
    apply Exists_app. right. apply Exists_cons_tl. apply Exists_app. by left.
  - intros x Hx. change ((me, ?c) :: sub ++ ?l) with (by_harness me [c] ++ sub ++ l).
    rewrite !calls_of_app, !calls_of_by_harness, !decide_False by (by eapply accepting_other).
    by rewrite (j_accepting _ _ _ _ _ J).
Qed.

Lemma claim_target_spec me u t tr :
  ∃ pre c, @claim_target me u TerminateDelegatedAgentError t tr = (tr ++ by_harness me pre, Ok c) ∧
    claiming t (bool_decide (c = Taken)) pre ∧ (c = Taken ∨ c = InFlight → is_Some (registry u)) ∧
    ((∀ r, registry u = Some r → claim_stopping r tr t CauseSelectedTermination ∈ [inl tt; inr ClaimUnknown]) →
     c = Taken ∨ c = Unclaimed).
Proof.
  unfold claim_target, ask, called, bind, gets, modify, ret. destruct (registry u) as [reg|] eqn:Hreg.
  2:{ exists [], Unclaimed. rewrite app_nil_r. split; [done|]. split; [by repeat constructor|]. split; [by intros []|auto]. }
  destruct (claim_stopping reg tr t CauseSelectedTermination) as [[]|[]] eqn:Ha; simpl; eexists [_], _; (split; [done|]);
    (split; [by repeat constructor|]); (split; [done|]); intros Hfree; auto;
    specialize (Hfree reg eq_refl); rewrite Ha in Hfree; set_solver.
Qed.

Lemma release_target_spec me u t c tr : (c = Taken → is_Some (registry u)) →
  @release_target me u TerminateDelegatedAgentError t c tr =
    (tr ++ by_harness me (if bool_decide (c = Taken) then [CallReleaseStopping t] else []), Ok tt).
Proof.
  intros Hc. unfold release_target. case_bool_decide as Ht; [|by simpl; rewrite app_nil_r].
  by destruct (Hc Ht) as [reg ->].
Qed.

Lemma forwarded_answer_spec via d answer tr :
  ∃ r, forwarded_answer via d answer tr = (tr, r) ∧ r ≠ Panic.
Proof. destruct answer as [r|[|detail|rej]]; eexists; done. Qed.

Section OneRequest.
Context (net : Network) (me : string) (t : DelegatedAgentIdentity) (depth : N) (Hdepth : (1 ≤ depth ∧ depth < u32_max)%N).
Context (fwd : DelegatedAgentIdentity → DelegatedAgentIdentity → N →
           M Trace TerminateDelegatedAgentError (option TerminationResult + ChildRoutingError)).
Hypothesis (Hfwd : ∀ via d tr, (1 ≤ d)%N → depth = (d + 1)%N →
  ∃ sub answer, fwd via t d tr = (tr ++ sub, Ok answer) ∧ journey net (uuid via) t d sub).

Lemma take_edge_spec pre c rt tr : accepting net me →
  claiming t (bool_decide (c = Taken)) pre → (c = Taken ∨ c = InFlight → is_Some (registry (harness net me))) →
  match rt with
  | ShutdownDirectChild child => child = t ∧ ∃ tr', t ∈ direct_children (lineage (harness net me) tr')
  | ForwardToDirectChild via d => uuid via ≠ uuid t ∧ (1 ≤ d)%N ∧ depth = (d + 1)%N
  end →
  ∃ seg r, take_edge me (harness net me) fwd {| target := t; remaining_depth := depth |} c rt (tr ++ by_harness me pre) =
    (tr ++ seg, r) ∧ r ≠ Panic ∧ journey net me t depth seg.
Proof.
  intros Hacc Hpre Hreg Hrt. unfold take_edge. destruct rt as [child|via d]; simpl.
  - destruct Hrt as [-> Hdir]. rewrite bool_decide_eq_true_2 by done. unfold debug_assert. rewrite bind_ret.
    destruct (decide (c = InFlight)) as [Hc|Hc]; [rewrite (bool_decide_eq_true_2 _ Hc)|rewrite (bool_decide_eq_false_2 _ Hc)].
    + destruct (join_in_flight_spec me (harness net me) t (ShutdownRequested t None) (tr ++ by_harness me pre))
        as (calls & r & -> & Hr & Hl & He); [auto|].
      exists (by_harness me (pre ++ calls)), r. unfold by_harness. rewrite fmap_app, app_assoc. split_and!; try done.
      rewrite <- fmap_app. rewrite Hc in Hpre. by eapply (journey_here _ _ _ _ false); [done| |done|left].
    + destruct (shut_down_owned_child_spec me (harness net me) t c (tr ++ by_harness me pre))
        as (calls & r & -> & Hr & Hl & _); [auto|].
      exists (by_harness me (pre ++ calls)), r. unfold by_harness. rewrite fmap_app, app_assoc. split_and!; try done.
      rewrite <- fmap_app. by eapply journey_here; [done|done|done|right].
  - destruct Hrt as (Hvia & Hd & Hdep). rewrite (proj2 (N.ltb_lt _ _)), bool_decide_eq_true_2 by (done || lia).
    unfold debug_assert. rewrite !bind_ret.
    destruct (decide (c = InFlight)) as [Hc|Hc]; [rewrite (bool_decide_eq_true_2 _ Hc)|rewrite (bool_decide_eq_false_2 _ Hc)].
    + destruct (join_in_flight_spec me (harness net me) t (Forwarded via d None) (tr ++ by_harness me pre))
        as (calls & r & -> & Hr & Hl & He); [auto|].
      exists (by_harness me (pre ++ calls)), r. unfold by_harness. rewrite fmap_app, app_assoc. split_and!; try done.
      rewrite <- fmap_app. rewrite Hc in Hpre. by eapply (journey_here _ _ _ _ false); [done| |done|left].
    + unfold called. rewrite bind_modify.
      destruct (Hfwd via d ((tr ++ by_harness me pre) ++ [(me, CallForward via t d)])) as (sub & answer & Hf & J); [done|done|].
      rewrite (bind_ok _ _ _ _ _ Hf). erewrite bind_ok by (apply release_target_spec; auto).
      edestruct forwarded_answer_spec as (r & -> & Hr). eexists _, r. rewrite <- !app_assoc. simpl. split_and!; [done|done|].
      by eapply journey_hop.
Qed.

(** Whatever its ports answer, a harness answers, and what it made the harnesses call is a journey. *)
Lemma route_spec held tr :
  ∃ seg r, route me (harness net me) fwd {| target := t; remaining_depth := depth |} held tr = (tr ++ seg, r) ∧
    r ≠ Panic ∧ journey net me t depth seg.
Proof.
  unfold route. rewrite bind_gets. destruct (accepts_new_work _) eqn:Hacc; simpl.
  2:{ exists [], (Err NotAccepting). rewrite app_nil_r. split_and!; try done. apply journey_nothing. }
  assert (accepting net me) as Ha by (by exists tr).
  rewrite bind_gets. destruct (resolve_route_spec (lineage (harness net me) tr) t depth Hdepth) as (Hnp & _ & Hs & Hf).
  destruct (resolve_termination_route _ _ _) as [rt|e|] eqn:Hres; [| |done].
  - assert (∃ pre c, (if held then @ret _ TerminateDelegatedAgentError _ HeldByCaller else claim_target me (harness net me) t) tr = (tr ++ by_harness me pre, Ok c) ∧
      claiming t (bool_decide (c = Taken)) pre ∧ (c = Taken ∨ c = InFlight → is_Some (registry (harness net me))))
      as (pre & c & Hc & Hpre & Hreg).
    { destruct held.
      - exists [], HeldByCaller. rewrite app_nil_r. split; [done|]. split; [by repeat constructor|by intros []].
      - destruct (claim_target_spec me (harness net me) t tr) as (pre & c & ? & ? & ? & _). eauto. }
    rewrite (bind_ok _ _ _ _ _ Hc). destruct (bool_decide_reflect (c = Exited)) as [Hex|Hex].
    + exists (by_harness me (pre ++ [])), (Err (TargetAlreadyExited (uuid t))). rewrite app_nil_r. split_and!; try done.
      rewrite <- (app_nil_r pre). rewrite Hex in Hpre. eapply (journey_here _ _ _ _ false); [done|done| |left; constructor].
      repeat (split; [done || (unfold count; simpl; lia)|]). done.
    + apply take_edge_spec; [done|done|done|]. destruct rt as [child|via d].
      * destruct (Hs child eq_refl) as [-> ?]. eauto.
      * destruct (Hf via d eq_refl) as (? & ? & ? & ? & _). done.
  - assert (∃ calls (gone : bool), @terminal_claimed_here me (harness net me) TerminateDelegatedAgentError t tr =
      (tr ++ by_harness me calls, Ok gone) ∧ local t false calls ∧ Forall (λ c, ends c = false) calls) as (calls & gone & Hg & Hl & He).
    { unfold terminal_claimed_here, ask_terminal_claimed, ask, called, bind, gets, modify, ret.
      destruct (registry _) as [reg|]; [eexists [_], _|exists [], false]; simpl; rewrite ?app_nil_r; (split; [done|]);
        by repeat constructor. }
    destruct e as [|id| | | |]; try (eexists [], _; rewrite app_nil_r; split_and!; [done|done|apply journey_nothing]).
    rewrite (bind_ok _ _ _ _ _ Hg). eexists _, _. split_and!; [done|done|].
    by apply (journey_here _ _ _ _ false []); [done|by repeat constructor|done|left].
Qed.
End OneRequest.


Lemma descent_snoc_inv o chain r x : descent o (chain ++ [x]) → list.last chain = Some r →
  descent o chain ∧ parent x = uuid_of r.
Proof.
  revert o. induction chain as [|y chain IH]; intros o; [done|]. intros [Hy Hd] Hl.
  destruct chain as [|z chain]; [injection Hl as ->; by destruct Hd|].
  destruct (IH _ Hd Hl) as [? ?]. done.
Qed.

(** The walk up a known line of descent reaches its top. *)
Lemma walk_up_descent fuel s first chain visited r :
  descent (owner s) (first :: chain) → list.last (first :: chain) = Some r →
  NoDup (uuid_of <$> records s) → Forall (λ x, x ∈ records s) (first :: chain) →
  NoDup (owner s :: (uuid_of <$> first :: chain)) → (∀ x, x ∈ first :: chain → uuid_of x ∉ visited) →
  length chain ≤ fuel →
  walk_up fuel s visited r = Ok (identity first, N.min (N.of_nat (length visited + length (first :: chain))) u32_max).
Proof.
  revert fuel visited r. induction chain as [|x chain IH] using rev_ind; intros fuel visited r Hd Hl Hnd Hall Hndc Hv Hf.
  - injection Hl as <-. destruct Hd as [Hp _].
    destruct fuel; cbn [walk_up]; rewrite bool_decide_eq_false_2 by (apply Hv; by left);
      rewrite bool_decide_eq_true_2 by done; do 4 f_equal; simpl; lia.
  - rewrite app_comm_cons, last_snoc in Hl. injection Hl as ->.
    destruct (list.last (first :: chain)) as [p|] eqn:Hp; [|by apply last_None in Hp].
    rewrite app_comm_cons in Hd, Hndc, Hall, Hv. destruct (descent_snoc_inv _ _ _ _ Hd Hp) as [Hd' Hpar].
    rewrite fmap_app, app_comm_cons in Hndc. apply list.NoDup_app in Hndc as (Hndc & Hdisj & _).
    apply Forall_app in Hall as [Hall _]. rewrite length_app in Hf. simpl in Hf.
    assert (p ∈ first :: chain) as Hpin.
    { apply list_elem_of_lookup. rewrite last_lookup in Hp. eauto. }
    destruct fuel as [|fuel]; [lia|]. cbn [walk_up]. rewrite bool_decide_eq_false_2 by (apply Hv; set_solver).
    rewrite bool_decide_eq_false_2.
    2:{ rewrite Hpar. intros He. apply list.NoDup_cons in Hndc as [Hno _]. destruct Hno. rewrite <- He.
        by apply (list_elem_of_fmap_2 uuid_of). }
    rewrite Hpar, (unique_record_found s p) by (done || by rewrite list.Forall_forall in Hall; apply Hall). cbn [rbind or_err].
    rewrite (IH fuel (uuid_of r :: visited) p); try done; [do 4 f_equal; simpl; rewrite length_app; simpl; lia| |lia].
    intros x Hx [He|Hin]%elem_of_cons; [|by eapply Hv; [|exact Hin]; set_solver].
    apply (Hdisj (uuid_of x)); [right; by apply (list_elem_of_fmap_2 uuid_of)|]. rewrite He. by left.
Qed.

(** What a harness answers for an agent it knows the way to. *)
Lemma resolve_known s first chain r depth : (depth < u32_max)%N →
  descent (owner s) (first :: chain) → list.last (first :: chain) = Some r →
  NoDup (uuid_of <$> records s) → Forall (λ x, x ∈ records s) (first :: chain) →
  NoDup (owner s :: (uuid_of <$> first :: chain)) →
  resolve_termination_route s (identity r) depth =
    match chain with
    | [] => Ok (ShutdownDirectChild (identity r))
    | _ :: _ =>
        if (N.of_nat (length (first :: chain)) <=? depth)%N then Ok (ForwardToDirectChild (identity first) (depth - 1))
        else Err (DepthExhausted (uuid_of r) depth)
    end.
Proof.
  intros Hdepth Hd Hl Hnd Hall Hndc.
  assert (r ∈ first :: chain) as Hr by (apply list_elem_of_lookup; rewrite last_lookup in Hl; eauto).
  assert (∀ x, x ∈ first :: chain → x ∈ records s) as Hin by (by rewrite list.Forall_forall in Hall).
  assert (uuid_of r ≠ owner s) as Hro.
  { intros He. apply list.NoDup_cons in Hndc as [Hno _]. destruct Hno. rewrite <- He.
    by apply (list_elem_of_fmap_2 uuid_of). }
  assert (length chain ≤ length (records s)) as Hlen.
  { apply list.NoDup_cons in Hndc as [_ Hndc].
    assert (NoDup (first :: chain)) as Hndf by (by eapply NoDup_fmap_1).
    pose proof (submseteq_length _ _ (NoDup_submseteq _ _ Hndf Hin)) as Hle. simpl in Hle. lia. }
  unfold resolve_termination_route, target_record. rewrite bool_decide_eq_false_2 by done.
  cbn [negb ensure rbind]. rewrite (unique_record_found s r) by auto. cbn [or_err rbind].
  rewrite N.eqb_refl. cbn [ensure rbind]. unfold direct_child_toward.
  rewrite (walk_up_descent _ s first chain [] r) by (done || by intros ? ? ?%not_elem_of_nil).
  cbn [rbind]. rewrite (unique_record_found s first) by (auto; apply Hin; by left). cbn [rbind].
  destruct Hd as [Hp _]. rewrite bool_decide_eq_true_2 by done.
  destruct chain as [|r2 chain].
  - injection Hl as ->. cbn. by rewrite bool_decide_eq_true_2.
  - set (n := N.min _ u32_max). assert (n = N.min (N.of_nat (S (S (length chain)))) u32_max) as Hn by done. clearbody n.
    assert (n ≠ 0 ∧ n ≠ 1)%N as [Hn0 Hn1] by (unfold u32_max in Hn; lia).
    rewrite (proj2 (N.eqb_neq n 0) Hn0), (proj2 (N.eqb_neq n 1) Hn1). cbn [andb negb ensure rbind length].
    unfold after_forward. destruct (N.leb_spec n depth), (N.leb_spec depth 1), (N.leb_spec (N.of_nat (S (S (length chain)))) depth);
      try done; unfold u32_max in *; lia.
Qed.


(** A forward over an edge that carries it: the child's own journey, or none. *)
Lemma exchange_spec net x execute t d tr :
  (∃ seg r, execute {| target := t; remaining_depth := d |} tr = (tr ++ seg, r) ∧ r ≠ Panic ∧ journey net x t d seg) →
  ∃ seg answer, exchange execute t d tr = (tr ++ seg, Ok answer) ∧ journey net x t d seg.
Proof.
  intros (seg & r & He & Hr & J). unfold exchange, map_command, RoutingDepth_new.
  destruct (ensure _ _) as [[]|e|] eqn:Hens; simpl; [|eexists [], _; rewrite app_nil_r; by split; [|apply journey_nothing]|].
  2:{ by unfold ensure in Hens; destruct (negb _) in Hens. }
  assert ({| uuid := uuid t; generation := generation t |} = t) as Ht by (by destruct t).
  destruct (d =? 0)%N; [eexists [], _; rewrite app_nil_r; by split; [|apply journey_nothing]|].
  destruct (MAX_HOPS <? d)%N; [eexists [], _; rewrite app_nil_r; by split; [|apply journey_nothing]|].
  simpl. rewrite Ht. unfold outcome_of, bind, ret. rewrite He. destruct r; [by eexists _, _..|done].
Qed.

Lemma terminate_at_journey net fuel : ∀ me t depth held tr,
  (1 ≤ depth ∧ depth < u32_max)%N → (depth ≤ N.of_nat (S fuel))%N →
  ∃ seg r, terminate_at fuel net me {| target := t; remaining_depth := depth |} held tr = (tr ++ seg, r) ∧
    r ≠ Panic ∧ journey net me t depth seg.
Proof.
  induction fuel as [|fuel IH]; intros me t depth held tr Hd Hf; cbn [terminate_at]; apply route_spec; try done;
    intros via d tr' Hd1 Hdep; [lia|]. rewrite bind_gets.
  destruct (exchange_spec net (uuid via) (λ request, terminate_at fuel net (uuid via) request false) t d tr')
    as (seg & answer & He & J); [apply IH; lia|].
  destruct (edge net tr' me via) as [e|e|].
  - eexists [], _. rewrite app_nil_r. split; [done|apply journey_nothing].
  - rewrite (bind_ok _ _ _ _ _ He). eauto.
  - eauto.
Qed.

(** ** An open way *)

(** What a harness answers, as the hop above it reads it: the result, or the kind of refusal. *)
Definition answer_of (r : res TerminateDelegatedAgentError TerminationRouted) : text + option TerminationResult :=
  match r with
  | Ok (ShutdownRequested _ result) | Ok (Forwarded _ _ result) => inr result
  | Err e => inl (rejection_kind e)
  | Panic => inl []
  end.

Lemma kind_round_trip r detail : kind (from_kind (kind r) detail) = kind r.
Proof. destruct r; vm_compute; reflexivity. Qed.

Lemma rejection_kind_is_kind e : ∃ k, rejection_kind e = kind k.
Proof. destruct e as [[]| | | | |]; unfold rejection_kind; eauto. Qed.

(** A hop relays what the child answered, result or kind. *)
Lemma exchange_relays execute via t d tr seg r depth' :
  execute {| target := t; remaining_depth := d |} tr = (tr ++ seg, r) → r ≠ Panic →
  trim (tx (uuid t)) ≠ [] → RoutingDepth_new d = Ok d →
  ∃ answer, exchange execute t d tr = (tr ++ seg, Ok answer) ∧
    ∀ tr', answer_of (forwarded_answer via depth' answer tr').2 = answer_of r.
Proof.
  intros He Hr Ht Hd. unfold exchange, map_command. rewrite bool_decide_eq_false_2 by done. simpl. rewrite Hd. simpl.
  assert ({| uuid := uuid t; generation := generation t |} = t) as -> by (by destruct t).
  unfold outcome_of, bind, ret. rewrite He. destruct r as [routed|e|]; [| |done]; eexists; (split; [done|]); intros tr'.
  - by destruct routed as [child [[]|]|v dd [[]|]].
  - destruct (rejection_kind_is_kind e) as [k Hk]. simpl. rewrite Hk. f_equal. apply kind_round_trip.
Qed.

(** Every harness on the way accepts new work, knows the agents below it on the way by one
    record for each uuid, and has no other termination of the target; its edge carries. *)
Fixpoint open_way (net : Network) (t : DelegatedAgentIdentity) (me : string) (chain : list LineageRecord) : Prop :=
  match chain with
  | [] => True
  | r :: chain' =>
      (∀ tr, lifecycle (harness net me) tr = Accepting ∧ owner (lineage (harness net me) tr) = me ∧
             NoDup (uuid_of <$> records (lineage (harness net me) tr)) ∧
             Forall (λ x, x ∈ records (lineage (harness net me) tr)) chain) ∧
      (∀ tr reg, registry (harness net me) = Some reg →
         claim_stopping reg tr t CauseSelectedTermination ∈ [inl tt; inr ClaimUnknown]) ∧
      (∀ tr, chain' ≠ [] → edge net tr me (identity r) = Carried) ∧
      open_way net t (uuid_of r) chain'
  end.

(** The target's owner, reached by [seg], ends it: [answer] is what its conclusion comes to. *)
Definition concluded (net : Network) (me : string) (t : DelegatedAgentIdentity) (tr seg : Trace)
    (answer : res TerminateDelegatedAgentError TerminationRouted) : Prop :=
  ∃ claim before after, seg = before ++ after ∧
    answer_of answer =
      answer_of (shut_down_owned_child (arrived me (forwards seg)) (harness net (arrived me (forwards seg))) t claim (tr ++ before)).2.

Lemma claim_free (held : bool) net me t tr :
  (∀ reg, registry (harness net me) = Some reg → claim_stopping reg tr t CauseSelectedTermination ∈ [inl tt; inr ClaimUnknown]) →
  ∃ pre c, (if held then @ret _ TerminateDelegatedAgentError _ HeldByCaller else claim_target me (harness net me) t) tr =
      (tr ++ by_harness me pre, Ok c) ∧
    claiming t (bool_decide (c = Taken)) pre ∧ (c = Taken → is_Some (registry (harness net me))) ∧ c ≠ Exited ∧ c ≠ InFlight.
Proof.
  intros Hfree. destruct held.
  - exists [], HeldByCaller. rewrite app_nil_r. split; [done|]. by split; [repeat constructor|].
  - destruct (claim_target_spec me (harness net me) t tr) as (pre & c & Hc & Hpre & Hreg & Hc').
    exists pre, c. split_and!; try done; [auto|..]; destruct (Hc' Hfree); congruence.
Qed.

Definition handed_to (seg : Trace) : list string := (λ f : string * (DelegatedAgentIdentity * N), uuid f.2.1) <$> forwards seg.

(** What an open harness does first: it resolves the edge, takes a claim or none, and takes the edge. *)
Lemma route_open net me fwd first chain r depth held tr :
  (1 ≤ depth ∧ depth ≤ MAX_HOPS)%N → descent me (first :: chain) → list.last (first :: chain) = Some r →
  open_way net (identity r) me (first :: chain) → NoDup (me :: (uuid_of <$> first :: chain)) →
  (N.of_nat (length (first :: chain)) ≤ depth)%N →
  ∃ pre c, claiming (identity r) (bool_decide (c = Taken)) pre ∧ (c = Taken → is_Some (registry (harness net me))) ∧ c ≠ InFlight ∧
    route me (harness net me) fwd {| target := identity r; remaining_depth := depth |} held tr =
      take_edge me (harness net me) fwd {| target := identity r; remaining_depth := depth |} c
        (match chain with [] => ShutdownDirectChild (identity r) | _ => ForwardToDirectChild (identity first) (depth - 1) end)
        (tr ++ by_harness me pre).
Proof.
  intros Hd Hde Hl (Hview & Hfree & _ & _) Hnd Hlen. destruct (Hview tr) as (Hacc & Hown & Hndr & Hall).
  destruct (claim_free held net me (identity r) tr (Hfree tr)) as (pre & c & Hc & Hpre & Hreg & Hex & Hfl).
  exists pre, c. split_and!; try done. unfold route. rewrite bind_gets, Hacc. simpl. rewrite bind_gets.
  rewrite (resolve_known _ first chain r) by (rewrite ?Hown; unfold MAX_HOPS, u32_max in *; done || lia).
  rewrite (proj2 (N.leb_le _ _) Hlen). destruct chain; rewrite (bind_ok _ _ _ _ _ Hc), (bool_decide_eq_false_2 _ Hex); done.
Qed.

(** The target's owner concludes it. *)
Lemma owner_concludes net me fwd t depth pre c tr :
  claiming t (bool_decide (c = Taken)) pre → (c = Taken → is_Some (registry (harness net me))) → c ≠ InFlight →
  ∃ seg answer, take_edge me (harness net me) fwd {| target := t; remaining_depth := depth |} c (ShutdownDirectChild t)
      (tr ++ by_harness me pre) = (tr ++ seg, answer) ∧
    forwards seg = [] ∧ count shuts_down (snd <$> seg) = 1 ∧ concluded net me t tr seg answer ∧ answer ≠ Panic.
Proof.
  intros Hpre Hreg Hfl. unfold take_edge. simpl. rewrite bool_decide_eq_true_2, (bool_decide_eq_false_2 _ Hfl) by done.
  unfold debug_assert. rewrite bind_ret.
  destruct (shut_down_owned_child_spec me (harness net me) t c (tr ++ by_harness me pre) Hreg)
    as (calls & answer & Hs & Hp & Hl & Hone).
  assert (forwards (by_harness me pre ++ by_harness me calls) = []) as Hfw.
  { rewrite forwards_app, !forwards_by_harness by (apply Hpre || apply Hl). done. }
  exists (by_harness me pre ++ by_harness me calls), answer. rewrite app_assoc. split; [done|]. split; [done|]. split_and!.
  - rewrite fmap_app, !snd_by_harness, count_app, Hone, (count_none _ ends); [done|by intros []|apply Hpre].
  - exists c, (by_harness me pre), (by_harness me calls). split; [done|]. rewrite Hfw. cbn [arrived]. by rewrite Hs.
  - done.
Qed.

Lemma routing_depth_ok d : (1 ≤ d ∧ d ≤ MAX_HOPS)%N → RoutingDepth_new d = Ok d.
Proof. intros [? ?]. unfold RoutingDepth_new. by rewrite (proj2 (N.eqb_neq _ _)), (proj2 (N.ltb_ge _ _)) by lia. Qed.

(** The command follows an open way to its end, and the answer comes back along it. *)
Lemma terminate_at_open net fuel : ∀ me first chain r depth held tr,
  (1 ≤ depth ∧ depth ≤ MAX_HOPS)%N → (depth ≤ N.of_nat (S fuel))%N →
  descent me (first :: chain) → list.last (first :: chain) = Some r → open_way net (identity r) me (first :: chain) →
  NoDup (me :: (uuid_of <$> first :: chain)) → trim (tx (uuid_of r)) ≠ [] →
  (N.of_nat (length (first :: chain)) ≤ depth)%N →
  ∃ seg answer, terminate_at fuel net me {| target := identity r; remaining_depth := depth |} held tr = (tr ++ seg, answer) ∧
    handed_to seg = removelast (uuid_of <$> first :: chain) ∧
    count shuts_down (snd <$> seg) = 1 ∧ concluded net me (identity r) tr seg answer ∧ answer ≠ Panic.
Proof.
  induction fuel as [|fuel IH]; intros me first chain r depth held tr Hd Hf Hde Hl Hw Hnd Hu Hlen;
    (destruct chain as [|r2 chain]; [|simpl in Hlen; try lia]); cbn [terminate_at];
    match goal with |- context [route me _ ?fwd] =>
      destruct (route_open net me fwd _ _ r depth held tr Hd Hde Hl Hw Hnd Hlen) as (pre & c & Hpre & Hreg & Hfl & ->)
    end.
  1, 2: edestruct (owner_concludes net me) as (seg & answer & Ht & Hfw & Hone & Hcon & Hp); [exact Hpre|done|done|];
    exists seg, answer; split; [exact Ht|]; unfold handed_to; rewrite Hfw; by injection Hl as <-.
  destruct Hw as (_ & _ & Hedge & Hw). destruct Hde as [_ Hde]. apply list.NoDup_cons in Hnd as [Hme Hnd].
  unfold take_edge. simpl. rewrite (proj2 (N.ltb_lt _ _)) by lia.
  assert (uuid_of first ≠ uuid_of r) as Hne.
  { intros He. apply list.NoDup_cons in Hnd as [Hno _]. apply Hno. change (uuid_of first ∈ uuid_of <$> r2 :: chain). apply list_elem_of_fmap. exists r. split; [done|].
    apply list_elem_of_lookup. change (list.last (r2 :: chain) = Some r) in Hl. rewrite last_lookup in Hl. eauto. }
  rewrite bool_decide_eq_true_2, (bool_decide_eq_false_2 _ Hfl) by done. unfold debug_assert, called.
  rewrite !bind_ret, bind_modify. set (tr1 := (tr ++ by_harness me pre) ++ [_]).
  destruct (IH (uuid_of first) r2 chain r (depth - 1)%N false tr1) as (sub & a & Hsub & Hto & Hone & Hcon & Hp);
    try done; try (simpl; lia).
  destruct (exchange_relays (λ request, terminate_at fuel net (uuid_of first) request false) (identity first) (identity r)
    (depth - 1) tr1 sub a (depth - 1)%N Hsub Hp Hu) as (answer & Hx & Hrel).
  { apply routing_depth_ok; lia. }
  erewrite bind_ok by (rewrite bind_gets, Hedge by done; exact Hx).
  erewrite bind_ok by (apply release_target_spec; done). set (calls := if bool_decide (c = Taken) then _ else _).
  assert (Forall (λ x, forward_of x = None) calls ∧ count shuts_down calls = 0) as [Hpf Hpc].
  { unfold calls. destruct (bool_decide (c = Taken)); by repeat constructor. }
  pose proof (forwards_hop me pre (identity first) (identity r) (depth - 1) sub calls) as Hfw.
  rewrite <- (snd_by_harness me calls) in Hpc. specialize (Hfw (proj1 (proj2 Hpre)) Hpf).
  set (post := by_harness me calls) in *.
  destruct (forwarded_answer_spec (identity first) (depth - 1) answer ((tr1 ++ sub) ++ post)) as (r' & Hr' & Hnp).
  specialize (Hrel ((tr1 ++ sub) ++ post)). rewrite Hr' in Hrel |- *.
  eexists (by_harness me pre ++ (me, CallForward (identity first) (identity r) (depth - 1)) :: sub ++ post), r'.
  split; [unfold tr1; by rewrite <- !app_assoc|]. unfold handed_to in *. rewrite Hfw. split_and!; [|..|done].
  - rewrite fmap_cons, Hto. done.
  - rewrite fmap_app, fmap_cons, fmap_app, snd_by_harness, count_app, count_cons, count_app, Hone, Hpc,
      (count_none _ ends); [done|by intros []|apply Hpre].
  - destruct Hcon as (claim & before & after & -> & Ha).
    exists claim, (by_harness me pre ++ (me, CallForward (identity first) (identity r) (depth - 1)) :: before), (after ++ post).
    split; [by rewrite <- !app_assoc|]. cbn [snd] in Hrel. rewrite Hrel, Ha, Hfw. cbn [arrived]. do 2 f_equal.
    unfold tr1. by rewrite <- !app_assoc.
Qed.

(** What a harness that is frozen, or whose records have no route, answers, and what it asked its ports: nothing, but
    for a target it does not list whether its end was already observed. *)
Definition turned_away (net : Network) (me : string) (t : DelegatedAgentIdentity) (depth : N) (tr seg : Trace)
    (answer : res TerminateDelegatedAgentError TerminationRouted) : Prop :=
  (accepts_new_work (lifecycle (harness net me) tr) = false → seg = [] ∧ answer = Err NotAccepting) ∧
  (accepts_new_work (lifecycle (harness net me) tr) = true → ∀ e,
     resolve_termination_route (lineage (harness net me) tr) t depth = Err e →
     (seg = [] ∧ answer = Err (Rejected e)) ∨
     ∃ id gone, e = UnknownTarget id ∧ seg = [(me, CallTerminalClaimed t gone)] ∧
       answer = Err (if gone : bool then TargetAlreadyExited id else Rejected e)).

Lemma route_turned_away net me fwd t depth held tr seg answer :
  route me (harness net me) fwd {| target := t; remaining_depth := depth |} held tr = (tr ++ seg, answer) →
  turned_away net me t depth tr seg answer.
Proof.
  unfold turned_away, route. rewrite bind_gets. destruct (accepts_new_work _); simpl; intros Hr; (split; [intros [=]|]).
  2:{ rewrite <- (app_nil_r tr) in Hr at 1. by injection Hr as <-%app_inv_head <-. }
  all: try (intros [=]; fail). intros _ e He. rewrite bind_gets, He in Hr. unfold throw in Hr.
  destruct e as [|id| | | |]; try (left; rewrite <- (app_nil_r tr) in Hr at 1; by injection Hr as <-%app_inv_head <-).
  unfold terminal_claimed_here, ask_terminal_claimed, ask, called, bind, gets, modify, ret in Hr.
  destruct (registry _) as [reg|].
  - injection Hr as <-%app_inv_head <-. right. by eexists _, _.
  - left. rewrite <- (app_nil_r tr) in Hr at 1. by injection Hr as <-%app_inv_head <-.
Qed.

(** C38: a selected termination that a harness is asked for, forwarded from harness to harness, always
    ends with an answer, without panic, whatever lineages, claims, edges and exits it meets.
    A harness that is frozen, or has no route, refuses and touches nothing.  Every call
    concerns the selected launch alone; the command is handed from each harness to a child with
    one hop less; only the harness it ends at, of which that launch is a direct child, shuts it
    down and compensates its end, each once at most; a stopping claim taken is lifted
    again, except by that harness once the target was reached.  When every harness on the way
    accepts new work, knows the agents below it on the way, has no other termination of the target
    and an edge that carries, the command goes through exactly the harnesses above the target, the last shuts it
    down, and the answer is what that one concludes (its result, or the kind of its refusal); with fewer
    hops than levels the first refuses it. *)
Theorem termination_reaches_target net me t hops depth held tr :
  RoutingDepth_new hops = Ok depth →
  ∃ seg answer, terminate_at (N.to_nat depth) net me {| target := t; remaining_depth := depth |} held tr = (tr ++ seg, answer) ∧
    answer ≠ Panic ∧ journey net me t depth seg ∧ turned_away net me t depth tr seg answer ∧
    ∀ first chain r, descent me (first :: chain) → list.last (first :: chain) = Some r → identity r = t →
      open_way net t me (first :: chain) → NoDup (me :: (uuid_of <$> first :: chain)) → trim (tx (uuid t)) ≠ [] →
      if (N.of_nat (length (first :: chain)) <=? depth)%N
      then handed_to seg = removelast (uuid_of <$> first :: chain) ∧ count shuts_down (snd <$> seg) = 1 ∧
           concluded net me t tr seg answer
      else seg = [] ∧ answer = Err (Rejected (DepthExhausted (uuid t) depth)).
Proof.
  intros Hd. pose proof (routing_depth_bound _ _ Hd) as Hb.
  destruct (terminate_at_journey net (N.to_nat depth) me t depth held tr) as (seg & answer & Ht & Hp & J); [done|lia|].
  exists seg, answer. split_and!; try done.
  { destruct (N.to_nat depth); cbn [terminate_at] in Ht; by eapply route_turned_away. }
  intros first chain r Hde Hl Hid Hw Hnd Hu.
  destruct (N.leb_spec (N.of_nat (length (first :: chain))) depth) as [Hlen|Hlen].
  - subst t. destruct (terminate_at_open net (N.to_nat depth) me first chain r depth held tr)
      as (seg' & answer' & Ht' & Hto & Hone & Hcon & _); try done; [|lia|].
    { unfold RoutingDepth_new in Hd. destruct (N.eqb_spec hops 0); [done|]. destruct (N.ltb_spec MAX_HOPS hops); [done|].
      injection Hd as <-. lia. }
    rewrite Ht' in Ht. injection Ht as ->%app_inv_head ->. done.
  - destruct Hw as (Hview & _). destruct (Hview tr) as (Hacc & Hown & Hndr & Hall). subst t.
    assert (terminate_at (N.to_nat depth) net me {| target := identity r; remaining_depth := depth |} held tr =
      (tr, Err (Rejected (DepthExhausted (uuid_of r) depth)))) as Hr.
    { destruct (N.to_nat depth); cbn [terminate_at]; unfold route; rewrite bind_gets, Hacc; simpl; rewrite bind_gets;
        rewrite (resolve_known _ first chain r) by (rewrite ?Hown; done || lia);
        (destruct chain as [|r2 chain]; [simpl in Hlen; lia|]); by rewrite (proj2 (N.leb_gt _ _)). }
    rewrite Hr, <- (app_nil_r tr) in Ht at 1. injection Ht as <-%app_inv_head <-. done.
Qed.
End Journey.

Section TerminationWitness.
Import Terminate.

Definition agent (id up : string) : LineageRecord := {| identity := {| uuid := id; generation := 1 |}; parent := up |}.

Definition calm_registry : DelegatedAgentRegistry :=
  {| claim_stopping := λ _ _ _, inl tt; terminal_claimed := λ _ _, false; await_compensated := λ _ _, Compensated;
     claim_terminal := λ _ _, Claimed |}.

(** A harness whose children acknowledge and exit. *)
Definition calm_harness (me : string) (below : list LineageRecord) : TerminateDelegatedAgent :=
  with_owner_conclusion {| owner_registry := calm_registry; termination := λ _ _ _ _, ExitedAfterProtocol |}
    (new (λ _, Accepting) (λ _, {| owner := me; records := below |}) (λ _ _ _, inl tt)).

(** Three harnesses above one agent. *)
Definition calm_network : Network :=
  let a := agent "a" "root" in let b := agent "b" "a" in let c := agent "c" "b" in
  {| harness := λ h, calm_harness h
       (if String.eqb h "root" then [a; agent "z" "root"; c; b] else if String.eqb h "a" then [b; c] else [c]);
     edge := λ _ _ _, Carried |}.

Lemma termination_reaches_target_witness :
  let c := identity (agent "c" "b") in
  ∃ seg answer, terminate_at 3 calm_network "root" {| target := c; remaining_depth := 3 |} false [] = ([] ++ seg, answer) ∧
    answer = Ok (Forwarded (identity (agent "a" "root")) 2 (Some Graceful)) ∧
    handed_to seg = ["a"; "b"] ∧ journey calm_network "root" c 3 seg.
Proof.
  intros c. destruct (termination_reaches_target calm_network "root" c 3 3 false [] eq_refl)
    as (seg & answer & Ht & _ & J & _ & Hway).
  exists seg, answer. split; [exact Ht|].
  destruct (Hway (agent "a" "root") [agent "b" "a"; agent "c" "b"] (agent "c" "b")) as (Hto & _ & _);
    [done|done|done| |compute_done|done|].
  { cbn [open_way]. repeat (split; [intros tr; split_and!; [done|done|compute_done|by repeat constructor]|];
      split; [intros tr reg [= <-]; by left|]; split; [done|]). done. }
  split; [|done]. vm_compute in Ht. by injection Ht as _ <-.
Defined.
End TerminationWitness.
End Termination.

(** * The parent of a harness *)

Section ParentBinding.
Import Parent.

(** ** Secrets *)

Lemma lor_lxor_zip d (a b : list N) : length a = length b →
  foldl (λ diff xy, N.lor diff (N.lxor xy.1 xy.2)) d (zip a b) = 0%N ↔ d = 0%N ∧ a = b.
Proof.
  revert d b. induction a as [|x a IH]; intros d [|y b] Hl; simpl in *; try done; [naive_solver|].
  rewrite (IH _ b) by lia. rewrite N.lor_eq_0_iff, N.lxor_eq_0_iff. naive_solver.
Qed.

(** The comparison that takes the same time for every pair of texts decides equality. *)
Lemma constant_time_eq_spec a b : constant_time_eq a b = bool_decide (a = b).
Proof.
  unfold constant_time_eq. apply Bool.eq_iff_eq_true. rewrite N.eqb_eq, bool_decide_eq_true.
  destruct (decide (length a = length b)) as [Hl|Hne].
  - rewrite lor_lxor_zip by done. rewrite N.lxor_eq_0_iff. naive_solver lia.
  - split; [|by intros ->]. intros H. exfalso. apply Hne.
    assert (∀ l d, foldl (λ diff (xy : N * N), N.lor diff (N.lxor xy.1 xy.2)) d l = 0%N → d = 0%N) as Hd.
    { induction l as [|xy l IH]; simpl; intros d Hf; [done|]. by apply IH, N.lor_eq_0_iff in Hf as [? _]. }
    apply Hd, N.lxor_eq in H. lia.
Qed.

Definition is_capability (t : text) : Prop := capability_parse t = Ok t.

Lemma hex_utf8 t : forallb is_lowercase_hex t = true → byte_len t = length t.
Proof.
  induction t as [|c t IH]; simpl; [done|]. intros [Hc Ht]%andb_prop. rewrite IH by done.
  assert (c < 128)%N; [|by unfold utf8_len; rewrite (proj2 (N.ltb_lt _ _))].
  unfold is_lowercase_hex, is_ascii_digit in Hc. lia.
Qed.

Lemma capability_length t : is_capability t → length t = CAPABILITY_HEX_LEN.
Proof.
  unfold is_capability, capability_parse. intros H. inv_ok. apply Nat.eqb_eq in H0. by rewrite <- (hex_utf8 t).
Qed.

(** ** The binding, driven by the connections of a harness *)

Inductive BindStep := Present (conn g : N) (cap : text) | Close (conn : N) | Deadline.

Inductive BindEvent :=
  | Presented (conn g : N) (cap : text) (answer : res BindRejection unit)
  | Closed (conn : N) (loss : ConnectionLoss)
  | DeadlinePassed (gone : bool).

(** The connection that was accepted as the parent. *)
Fixpoint accepted_conn (log : list BindEvent) : option N :=
  match log with
  | [] => None
  | Presented conn _ _ (Ok _) :: _ => Some conn
  | _ :: log' => accepted_conn log'
  end.

(** Whether the parent was reported gone. *)
Definition gone (log : list BindEvent) : bool :=
  existsb (λ e, match e with Closed _ BoundParentLost | DeadlinePassed true => true | _ => false end) log.

Definition bind_step (log : list BindEvent) (st : BindStep) (b : ParentControlBinding) : ParentControlBinding * BindEvent :=
  match st with
  | Present conn g cap => let '(b', r) := present g cap b in (b', Presented conn g cap r)
  | Close conn => let '(b', l) := connection_closed (bool_decide (accepted_conn log = Some conn)) b in (b', Closed conn l)
  | Deadline => let '(b', g) := expire_unbound b in (b', DeadlinePassed g)
  end.

Fixpoint bind_run (steps : list BindStep) (log : list BindEvent) (b : ParentControlBinding) : ParentControlBinding * list BindEvent :=
  match steps with
  | [] => (b, log)
  | st :: steps' => let '(b', e) := bind_step log st b in bind_run steps' (e :: log) b'
  end.

(** ** The contract: what each event must be, given what happened before *)

Definition presentation_answer (c : option ParentControlCredential) (g : N) (cap : text) (past : list BindEvent)
  : res BindRejection unit :=
  match c with
  | None => Err NotALaunchedChild
  | Some c =>
      if gone past then Err AlreadyLost
      else if bool_decide (accepted_conn past = None) then
        if negb (cred_generation c =? g)%N then Err (WrongGeneration (cred_generation c) g)
        else if bool_decide (capability c = cap) then Ok tt else Err Mismatch
      else Err AlreadyBound
  end.

Definition bind_event_ok (c : option ParentControlCredential) (e : BindEvent) (past : list BindEvent) : Prop :=
  match e with
  | Presented _ g cap answer => answer = presentation_answer c g cap past
  | Closed conn loss =>
      loss = if bool_decide (accepted_conn past = Some conn) && negb (gone past) then BoundParentLost else OrdinaryClient
  | DeadlinePassed b => b = bool_decide (is_Some c) && bool_decide (accepted_conn past = None) && negb (gone past)
  end.

Fixpoint bind_log_ok (c : option ParentControlCredential) (log : list BindEvent) : Prop :=
  match log with
  | [] => True
  | e :: log' => bind_event_ok c e log' ∧ bind_log_ok c log'
  end.

(** How often a parent is accepted, and reported gone. *)
Definition acceptances (log : list BindEvent) : nat :=
  length (filter (λ e, match e with Presented _ _ _ (Ok _) => true | _ => false end = true) log).
Definition losses (log : list BindEvent) : nat :=
  length (filter (λ e, match e with Closed _ BoundParentLost | DeadlinePassed true => true | _ => false end = true) log).

Definition bind_tracks (c : option ParentControlCredential) (b : ParentControlBinding) (log : list BindEvent) : Prop :=
  expected b = c ∧
  state b = if gone log then Lost else if bool_decide (accepted_conn log = None) then Unbound else Bound.

Definition step_valid (st : BindStep) : Prop :=
  match st with Present _ _ cap => is_capability cap | _ => True end.
Definition credential_valid (c : option ParentControlCredential) : Prop :=
  match c with Some c => is_capability (capability c) | None => True end.

Lemma present_spec c b log g cap conn : credential_valid c → is_capability cap → bind_tracks c b log →
  present g cap b = (match presentation_answer c g cap log with Ok _ => set_state Bound b | _ => b end,
                     presentation_answer c g cap log) ∧
  bind_tracks c (present g cap b).1 (Presented conn g cap (presentation_answer c g cap log) :: log).
Proof.
  intros Hc Hcap [He Hs]. unfold present. rewrite bind_gets, He. unfold presentation_answer.
  destruct c as [c|]; simpl; [|done].
  unfold bind, gets, ret, modify, throw, reads, capability_matches; simpl. rewrite Hs.
  rewrite !capability_length, constant_time_eq_spec by done.
  destruct (gone log) eqn:Hg; simpl; [unfold bind_tracks; simpl; by rewrite He, Hs, Hg|].
  destruct (bool_decide (accepted_conn log = None)) eqn:Ha; simpl;
    [|unfold bind_tracks; simpl; by rewrite He, Hs, Hg, Ha].
  destruct (_ =? g)%N; simpl; [|unfold bind_tracks; simpl; by rewrite He, Hs, Hg, Ha].
  destruct (bool_decide (capability c = cap)); simpl; unfold bind_tracks; simpl; rewrite ?He, ?Hs, ?Hg, ?Ha; done.
Qed.

Lemma bind_step_follows c b log st : credential_valid c → step_valid st → bind_tracks c b log →
  bind_tracks c (bind_step log st b).1 ((bind_step log st b).2 :: log) ∧ bind_event_ok c (bind_step log st b).2 log.
Proof.
  intros Hc Hst T. destruct st as [conn g cap|conn|]; simpl in *.
  - destruct (present_spec c b log g cap conn Hc Hst T) as [Hp Ht]. rewrite Hp in *. done.
  - destruct T as [He Hs]. unfold connection_closed. rewrite Hs. unfold bind_tracks.
    destruct (gone log) eqn:Hg; rewrite ?andb_false_r; simpl; rewrite ?Hg; [by rewrite andb_false_r|].
    destruct (accepted_conn log) as [conn'|] eqn:Ha; simpl; rewrite ?Ha, ?Hg; [|done].
    rewrite ?andb_true_r. destruct (bool_decide (Some conn' = Some conn)) eqn:Hb; simpl; by rewrite ?Hg, ?Ha, ?Hb.
  - destruct T as [He Hs]. unfold expire_unbound. rewrite Hs, He. unfold bind_tracks.
    destruct (gone log) eqn:Hg; rewrite ?andb_false_r; simpl; rewrite ?Hg; [by rewrite andb_false_r|].
    destruct (accepted_conn log) as [conn'|] eqn:Ha, c; simpl; by rewrite ?Hg, ?Ha.
Qed.

Lemma bind_run_follows c steps : credential_valid c → Forall step_valid steps →
  ∀ log b, bind_tracks c b log → bind_log_ok c log →
  bind_log_ok c (bind_run steps log b).2 ∧ length (bind_run steps log b).2 = length steps + length log.
Proof.
  intros Hc. induction 1 as [|st steps Hst _ IH]; intros log b T Hok; simpl; [done|].
  destruct (bind_step_follows c b log st Hc Hst T) as [T' Hev].
  destruct (bind_step log st b) as [b' e]. simpl in *.
  destruct (IH (e :: log) b' T') as [Hl Hn]; [done|]. split; [done|]. rewrite Hn. simpl. lia.
Qed.

(** A log that keeps the contract has one acceptance and one loss at most. *)
Lemma bind_log_once c log : bind_log_ok c log →
  acceptances log = (if bool_decide (accepted_conn log = None) then 0 else 1) ∧
  losses log = (if gone log then 1 else 0).
Proof.
  induction log as [|e log IH]; [done|]. intros [He Hok]. destruct (IH Hok) as [Ha Hl].
  unfold acceptances, losses in *. rewrite !filter_cons.
  destruct e as [conn g cap [[]|r|]|conn []|[]]; simpl in *; try (split; done).
  - unfold presentation_answer in He. destruct c; [|done]. destruct (gone log) eqn:Hg; [done|].
    destruct (bool_decide (accepted_conn log = None)); [|done]. by rewrite Ha.
  - destruct (gone log); [by rewrite andb_false_r in He|]. by rewrite Hl.
  - destruct (gone log); [by rewrite andb_false_r in He|]. by rewrite Hl.
Qed.

(** C39: over any sequence of presentations, disconnections and bind deadlines, every answer
    of a harness's parent binding is the one its history calls for: a presentation is accepted
    exactly when the harness was launched, no parent was accepted or presumed gone before,
    and the generation and the capability are the ones it was launched with; the parent is
    reported gone exactly when the accepted connection closes or the deadline passes with
    none accepted; so there is one parent and one report at most, and nothing ever panics. *)
Theorem parent_bound_once c steps :
  credential_valid c → Forall step_valid steps →
  let log := (bind_run steps [] {| expected := c; state := Unbound |}).2 in
  length log = length steps ∧ bind_log_ok c log ∧ acceptances log ≤ 1 ∧ losses log ≤ 1 ∧
  (c = None → acceptances log = 0 ∧ losses log = 0).
Proof.
  intros Hc Hs log. destruct (bind_run_follows c steps Hc Hs [] {| expected := c; state := Unbound |}) as [Hok Hl]; [done|done|].
  fold log in Hok, Hl. rewrite Nat.add_0_r in Hl. split; [done|]. split; [done|].
  destruct (bind_log_once c log Hok) as [Ha Hg]. rewrite Ha, Hg. split; [case_bool_decide; lia|]. split; [destruct (gone log); lia|].
  intros ->. clear Hl Ha Hg. revert Hok. clearbody log. clear.
  induction log as [|e log IH]; [done|]. intros [He Hok]. destruct (IH Hok) as [Ha Hl].
  destruct e as [conn g cap r|conn l|b]; simpl in *; subst; try done. simpl.
  destruct (accepted_conn log); [done|]. done.
Qed.

Definition witness_capability : text := from_random_bytes (replicate 32 171%N).

Lemma parent_bound_once_witness :
  let c := Some {| cred_generation := 3; capability := witness_capability |} in
  let steps := [Present 1 2 witness_capability; Present 2 3 witness_capability; Close 1; Present 3 3 witness_capability; Close 2] in
  (bind_run steps [] {| expected := c; state := Unbound |}).2 =
    [Closed 2 BoundParentLost; Presented 3 3 witness_capability (Err AlreadyBound); Closed 1 OrdinaryClient;
     Presented 2 3 witness_capability (Ok tt); Presented 1 2 witness_capability (Err (WrongGeneration 3 2))] ∧
  acceptances (bind_run steps [] {| expected := c; state := Unbound |}).2 ≤ 1.
Proof.
  intros c steps. split; [vm_compute; reflexivity|].
  apply (parent_bound_once c steps); [vm_compute; reflexivity|].
  unfold steps. repeat constructor; vm_compute; reflexivity.
Defined.
End ParentBinding.

(** * What a supervisor is told *)

Section Reading.
Import Reports.

Lemma indices_where_spec f messages i :
  i ∈ indices_where f messages ↔ ∃ m, messages !! i = Some m ∧ f m = true.
Proof.
  unfold indices_where. rewrite list_elem_of_filter, elem_of_seq. split.
  - intros [Hm _]. destruct (messages !! i) as [m|]; [by exists m|done].
  - intros (m & Hm & Hf). rewrite Hm. split; [done|]. apply lookup_lt_Some in Hm. lia.
Qed.

(** The ranges of a sorted list of ordinals, each past the last accounted for. *)
Lemma skipped_ranges_spec {E} next sent :
  StronglySorted N.le sent → Forall (λ o, next ≤ o + 1 ∧ o < u64_max)%N sent →
  ∃ ranges, @skipped_ranges E next sent = Ok ranges ∧
    Forall (λ r, next ≤ r.1 ∧ r.1 ≤ r.2)%N ranges ∧
    (∀ o, (∃ r, r ∈ ranges ∧ r.1 ≤ o ∧ o ≤ r.2)%N ↔ (next ≤ o)%N ∧ o ∉ sent ∧ ∃ d, d ∈ sent ∧ (o < d)%N).
Proof.
  revert next. induction sent as [|o sent IH]; intros next Hs Hall; simpl.
  { exists []. split_and!; [done|done|]. intros x. split; [by intros (r & ?%not_elem_of_nil & _)|].
    by intros (_ & _ & d & ?%not_elem_of_nil & _). }
  apply StronglySorted_inv in Hs as [Hs Hle]. apply list.Forall_cons in Hall as [[Hn Ho] Hall].
  rewrite list.Forall_forall in Hle, Hall.
  destruct (IH (o + 1)%N Hs) as (rest & Hr & Hrs & Hcov).
  { apply list.Forall_forall. intros x Hx. specialize (Hle _ Hx). specialize (Hall _ Hx). lia. }
  unfold u64_add. assert (u64_checked_add o 1 = Some (o + 1)%N) as -> by (apply u64_checked_add_Some; lia).
  cbn [or_panic rbind]. rewrite Hr. cbn [rbind]. eexists. split; [done|].
  rewrite list.Forall_forall in Hrs.
  assert (∀ x, (∃ r, r ∈ (if (next <? o)%N then (next, o - 1)%N :: rest else rest) ∧ r.1 ≤ x ∧ x ≤ r.2)%N ↔
               (next ≤ x ∧ x < o)%N ∨ ∃ r, r ∈ rest ∧ (r.1 ≤ x ∧ x ≤ r.2)%N) as Hsplit.
  { intros x. destruct (N.ltb_spec next o).
    - split; [intros (r & [->|Hr']%elem_of_cons & Hx); [left; simpl in Hx; lia|right; eauto]|].
      intros [Hx|(r & Hr' & Hx)]; [exists (next, o - 1)%N|exists r]; simpl; (split; [set_solver|lia]).
    - split; [eauto|]. intros [Hx|Hx]; [lia|done]. }
  split.
  - apply list.Forall_forall. intros r Hin.
    assert (r ∈ rest → next ≤ r.1 ∧ r.1 ≤ r.2)%N as Hrest by (intros Hr'; specialize (Hrs _ Hr'); simpl in Hrs; lia).
    destruct (N.ltb_spec next o); [|auto]. apply elem_of_cons in Hin as [->|Hin]; [simpl; lia|auto].
  - intros x. rewrite Hsplit, Hcov. split.
    + intros [[Hx1 Hx2]|(Hx & Hnin & d & Hd & Hlt)].
      * split_and!; [done| |exists o; split; [by left|done]].
        intros [->|Hin]%elem_of_cons; [lia|]. specialize (Hle _ Hin). lia.
      * split_and!; [lia| |exists d; split; [by right|done]]. intros [->|?]%elem_of_cons; [lia|done].
    + intros (Hx & Hnin & d & [->|Hd]%elem_of_cons & Hlt); [left; lia|].
      destruct (N.lt_ge_cases x o); [left; lia|]. right.
      assert (x ≠ o) by (intros ->; apply Hnin; by left).
      split_and!; [lia| |eauto]. intros Hin. apply Hnin. by right.
Qed.

(** The ranges a supervisor is told it skipped are exact: an ordinal is in one of them just
    when it is above the watermark, was not delivered, and something later was. *)
Theorem skipped_unread_exact {E} watermark delivered :
  (watermark < u64_max)%N → Forall (λ o, o < u64_max)%N delivered →
  ∃ ranges, @skipped_unread E watermark delivered = Ok ranges ∧
    ∀ o, (∃ r, r ∈ ranges ∧ r.1 ≤ o ∧ o ≤ r.2)%N ↔
         (watermark < o)%N ∧ o ∉ delivered ∧ ∃ d, d ∈ delivered ∧ (o < d)%N.
Proof.
  intros Hw Hall. unfold skipped_unread. rewrite list.Forall_forall in Hall.
  set (sent := filter _ _). assert (∀ o, o ∈ merge_sort N.le sent ↔ o ∈ delivered ∧ (watermark < o)%N) as Hsent.
  { intros o. rewrite merge_sort_Permutation. unfold sent. rewrite list_elem_of_filter. naive_solver. }
  unfold u64_add. assert (u64_checked_add watermark 1 = Some (watermark + 1)%N) as -> by (apply u64_checked_add_Some; lia).
  cbn [or_panic rbind].
  destruct (@skipped_ranges_spec E (watermark + 1)%N (merge_sort N.le sent)) as (ranges & Hr & Hrs & Hcov).
  { apply StronglySorted_merge_sort; apply _. }
  { apply list.Forall_forall. intros o [Hin Ho]%Hsent. specialize (Hall _ Hin). simpl in Hall. lia. }
  rewrite Hr. cbn [rbind].
  assert (forallb (λ r, (watermark <? r.1) && (r.1 <=? r.2))%N ranges = true) as ->.
  { apply forallb_forall. intros r Hin%list_elem_of_In. rewrite list.Forall_forall in Hrs. specialize (Hrs _ Hin).
    simpl in Hrs. apply andb_true_iff. split; [apply N.ltb_lt|apply N.leb_le]; lia. }
  exists ranges. split; [done|]. intros o. rewrite Hcov. split.
  - intros (Ho & Hnin & d & [Hd Hwd]%Hsent & Hlt). split_and!; [lia| |eauto].
    intros Hin. apply Hnin, Hsent. split; [done|lia].
  - intros (Ho & Hnin & d & Hd & Hlt). split_and!; [lia|by intros [? _]%Hsent|]. exists d. split; [|done].
    apply Hsent. split; [done|lia].
Qed.

Lemma observed_max_ge messages m : m ∈ messages →
  (ordinal_or_zero m ≤ default 0 (iter_max (ordinal_or_zero <$> messages)))%N.
Proof.
  intros Hm. apply (list_elem_of_fmap_2 ordinal_or_zero) in Hm.
  destruct (ordinal_or_zero <$> messages) as [|x l]; [by apply not_elem_of_nil in Hm|]. simpl.
  destruct (foldl_max_spec l x) as (_ & Hle & Hall). apply elem_of_cons in Hm as [->|Hm]; auto.
Qed.

(** A report that is delivered moves the watermark past everything observed: read again there,
    nothing has changed; and after the first read it holds exactly what is above the old one. *)
Theorem report_read_once {E} messages watermark incomplete indices newest :
  @select_unread E messages watermark incomplete = Ok (Unread indices newest) →
  @select_unread E messages newest incomplete = Ok Unchanged ∧
  (∀ m, m ∈ messages → (ordinal_or_zero m ≤ newest)%N) ∧
  (watermark ≠ 0%N → ∀ i, i ∈ indices ↔ ∃ m, messages !! i = Some m ∧ (watermark < ordinal_or_zero m)%N).
Proof.
  unfold select_unread, select. destruct (existsb _ messages) eqn:Hex.
  { intros H. inv_ok. discriminate. }
  destruct incomplete; [discriminate|]. destruct (_ || _) eqn:Hor; [discriminate|].
  intros H. apply rbind_Ok in H as (idx & Hi & H). case_bool_decide; [done|]. injection H as <- <-.
  assert (∀ m, m ∈ messages → (ordinal_or_zero m ≤ N.max watermark (default 0 (iter_max (ordinal_or_zero <$> messages))))%N) as Hge.
  { intros m Hm. pose proof (observed_max_ge _ _ Hm). lia. }
  split; [|split; [done|]].
  - assert (indices_where (λ m, (N.max watermark (default 0%N (iter_max (ordinal_or_zero <$> messages))) <? ordinal_or_zero m)%N) messages = []) as ->.
    { clear Hi Hor. destruct (indices_where _ _) as [|i l] eqn:Hl; [done|]. exfalso.
      assert (i ∈ i :: l) as Hin by (by left). rewrite <- Hl in Hin.
      apply indices_where_spec in Hin as (m & Hm & Hlt). apply list_elem_of_lookup_2, Hge in Hm.
      apply N.ltb_lt in Hlt. lia. }
    by rewrite bool_decide_eq_true_2, orb_true_r.
  - intros Hw i. assert (idx = indices_where (λ m, (watermark <? ordinal_or_zero m)%N) messages) as ->.
    { destruct watermark; [done|]. by injection Hi as <-. }
    rewrite indices_where_spec. by setoid_rewrite N.ltb_lt.
Qed.
End Reading.
